(* ===== verification/_CoqProject ===== *)
-Q . S2P
Prelude.v
Bytes.v
ArithUint256.v
Compact.v
Params.v
Chain.v
ChainFacts.v
Pow.v
Amount.v
Serialize.v
Transaction.v
Script.v
Interpreter.v
SigHash.v
Compressor.v
Merkle.v
NoteTree.v
Coins.v
CoinsFacts.v
TxCheck.v
BlockCheck.v
Connect.v
ConnectFacts.v
CheckQueue.v
MempoolLimit.v
MempoolLimitFacts.v
Mempool.v
MempoolFacts.v
MempoolSafety.v
ChainState.v
ChainStateFacts.v
ChainFrame.v
ChainSelect.v
ChainSafety.v
ChainInvalidate.v
ChainNode.v
ChainReceive.v
ChainHistory.v
ChainLife.v
StrEncodings.v
Base58.v
Bech32.v
KeyIO.v
Standard.v
Bloom.v
Hasher.v
HashFunctions.v
HashClasses.v
ParseNum.v
NetAddr.v
TimeData.v
AddrMan.v
AddrManFacts.v
AddrManSafety.v
AddrManCheck.v
Orphans.v
Peers.v
PeersFacts.v
PeersDownload.v
PeersHistory.v
TxRelay.v
TxRelayFacts.v
