(* ===== verification/Prelude.v ===== *)
(** * Resistance Core: a verification development

    Resistance Core is a full node of a Zcash-derived currency (C++, under src/).
    It keeps a tree of block headers, selects the chain with most work, validates
    its blocks against the set of unspent outputs, nullifiers and note commitment
    tree anchors, and holds the transactions waiting for a block.  This
    development models the consensus core of the node, the data structures it
    rests on, the encodings at its borders and the bookkeeping of its peers,
    function by function, and proves what they promise each other.

    ** How the parts interact

    Bytes from the network or the disk become transactions and blocks through the
    serialization templates.  A header is checked against the proof-of-work rules
    and hung into the block index.  A block is checked on its own (merkle root,
    transactions), stored, linked to its parent's chain, and the best chain is
    activated: blocks are disconnected down to the fork and connected up to the
    best candidate.  To connect a block, every transaction's inputs are looked up in
    a write-back cache of coins, its scripts run in the interpreter over a signature
    hash, possibly on the threads of a check queue, its outputs and note
    commitments are added, and undo data is written; a reorganisation
    disconnects blocks with that undo data.  Transactions outside blocks wait in
    the memory pool, which every connected or disconnected block revises and which
    evicts at random when it grows too large.

    Blocks and transactions come from peers.  The address manager remembers where
    peers may be found and the time module what they think the time is; per peer
    the node keeps the best block it announced and the blocks requested from it,
    and chooses what to request next; transactions whose parents are missing wait
    as orphans, and each accepted transaction releases the orphans behind it.
    Addresses, keys and amounts reach the user as text, through the base 58 and
    bech32 codecs and the number parsers.

    ** Files and sources

    Each file holds a [Module] of its name unless noted; paths are relative to
    src/src.

    - Prelude: machine integers [u8 .. s64], counted loops, tactics, hint bases.
    - Bytes (module [Endian]): crypto/common.h.
    - ArithUint256 (module [Arith256]), Compact: arith_uint256.{h,cpp}, on eight
      32-bit limbs; compact targets.
    - Params (module [Consensus]): consensus/params, consensus/upgrades,
      chainparams.cpp (main network).
    - Chain (module [BlockIndex]), ChainFacts: chain.{h,cpp} and
      [LastCommonAncestor]; block index entries live in a store of pointers.
    - Pow: pow.cpp.  Amount: amount.{h,cpp}, [GetBlockSubsidy].
    - Serialize, Transaction: serialize.h, primitives/transaction.{h,cpp},
      zcash/Proof.hpp, as codecs (a writer and a reader with the stream's errors).
    - Script, Interpreter, SigHash: script/script.{h,cpp},
      script/interpreter.{h,cpp}.  Compressor: compressor.{h,cpp}, pubkey.h.
    - Merkle: primitives/block.cpp, merkleblock.{h,cpp}.  NoteTree:
      zcash/IncrementalMerkleTree.{hpp,cpp}.
    - Coins, CoinsFacts: coins.{h,cpp}, txdb.cpp; the view interface is a type
      class with the database and the cache as instances.
    - TxCheck, BlockCheck, Connect, ConnectFacts: the validation functions of
      main.cpp, consensus/validation.h, checkpoints.cpp, undo.h.
    - CheckQueue: checkqueue.h as a state machine of interleaved threads.
    - MempoolLimit, MempoolLimitFacts: mempool_limit.{h,cpp}, [GetRand].
    - Mempool, MempoolFacts, MempoolSafety: txmempool.{h,cpp}; the nodes of the
      pool are a heap, its maps hold pointers into it.
    - ChainState: the chain selection of main.cpp, from [ProcessNewBlock] to
      [ActivateBestChain], [InvalidateBlock] and [ReconsiderBlock], over the
      interface [ChainClient] (validation, memory pool, disk, peers).
      ChainStateFacts, ChainFrame and ChainSelect hold the invariant and the
      specifications of the operations; ChainSafety and ChainInvalidate their
      theorems; ChainReceive, ChainHistory and ChainLife the totals of a chain and
      the invariant of a node's whole history.
    - ChainNode: the instance of [ChainClient] made of [ConnectBlock],
      [DisconnectBlock], the coins cache and [FlushStateToDisk], with the proof
      that it keeps the laws of the interface.
    - StrEncodings: utilstrencodings.{h,cpp}.  ParseNum: the number parsers there
      ([atoi64], [ParseInt32], [ParseFixedPoint]) and utilmoneystr.cpp.
    - Base58, Bech32, KeyIO: base58.{h,cpp}, bech32.{h,cpp}, key_io.{h,cpp}.
      Standard: script/standard.{h,cpp}.
    - Hasher, HashFunctions, HashClasses: crypto/{sha256, sha1, sha512,
      ripemd160, hmac_sha256, hmac_sha512}.{h,cpp} and hash.{h,cpp}, the buffering
      of the classes over a compression function and the functions themselves.
    - Bloom: bloom.{h,cpp}.
    - NetAddr: netbase.{h,cpp} ([CNetAddr], [CService], [CSubNet]).  TimeData:
      timedata.{h,cpp}.
    - AddrMan, AddrManFacts, AddrManSafety, AddrManCheck: addrman.{h,cpp}; the
      entries are a map from identifiers, the buckets tables of identifiers.
    - Orphans, Peers, PeersFacts, PeersDownload, PeersHistory: the orphan pool and
      the per-peer state of main.cpp ([CNodeState], blocks in flight,
      [FindNextBlocksToDownload], the download part of [SendMessages]).
    - TxRelay, TxRelayFacts: the handler of the tx message and [AlreadyHave], over
      the interface [TxPool] (the memory pool and the coins).

    State is passed explicitly; reads that fill caches return the new state.  An
    exception, a failed [assert] or undefined behaviour (a dangling pointer, an
    index out of range) is [None] or an error value, and theorems say where it
    cannot occur.  Integers are [Z] with the wrap-around of their C++ type written
    out; signed overflow, undefined in C++, wraps as on two's complement machines.

    ** What is proved

    - Chain state: disconnecting a block undoes connecting it; connecting never
      creates more money than subsidy and fees; the whole supply is capped; the
      write-back cache refines a plain map of coins; transaction checks accept
      exactly the transactions that satisfy the stated rules.
    - Chain selection: [FindMostWorkChain] returns the best usable candidate;
      [ActivateBestChain] returns, and when it succeeds no known chain of valid
      blocks is better than the active one; so it is after every block of every
      history of headers, blocks, and successful activations and invalidations, and
      the chain totals are exact throughout.  The theorems assume of the client that its
      calls return ([client_total]), that a block's verdict is a function of the
      block and a rejected block is not suspected of corruption ([deterministic]):
      without the last, [ActivateBestChain] is shown to loop.  [ReconsiderBlock] is
      shown to leave a flag behind.
    - Trees: the incremental note tree equals the full merkle tree, witnesses
      follow it; block merkle branches and partial trees verify and bind.
    - Headers: proof of work, difficulty adjustment within its bounds, skip-list
      ancestors, forks; 256-bit arithmetic modulo 2^256.
    - Scripts: resource limits, multisignature, pay-to-public-key-hash;
      signature hashes and their cache.  Encodings: transactions, compressed
      outputs.
    - Memory pool: an invariant of all maps and totals over every sequence of
      operations, removal of exactly a family of transactions, no conflict with a
      connected block, the size limit met after finitely many weighted random
      evictions; [clear] is shown to break the invariant.
    - Check queue: for every interleaving the master returns the conjunction of
      all checks, and it does return.
    - Text: base 58, base 58 with checksum, bech32, addresses, keys and amounts
      are read back as they were written; the bech32 checksum detects errors within
      six neighbouring values and any two wrong values of an admitted text; [ParseFixedPoint]
      returns exactly the value of a decimal numeral, or fails when it must;
      [Solver] classifies every script as its opcodes demand.
    - Hashing: cutting the input into any sequence of [Write] calls leaves the
      digest the same, and it is that of the padded message.  Bloom filters: a
      rolling filter remembers at least the number of insertions it promises.
    - Peers: the tables, counts and random order of the address manager agree
      after every history of its operations, as its own [Check_] demands; the
      time offset stays within a minute (unless a peer reports the least 64-bit
      integer) and within what the majority says; a subnet matches
      exactly the addresses with its prefix; the counters of blocks in flight, the
      per-peer queues and the global map agree after every history of peers coming,
      announcing, delivering and leaving; the blocks chosen for download are
      exactly the missing ones of the peer's best chain within the window, in
      order; the tx handler returns, relays exactly what was accepted, tries every
      orphan released by an accepted transaction and erases those that are decided,
      provided the memory pool accepts nothing twice meanwhile.

    ** Bounds and fuel

    Loops that are not structural carry fuel computed from their input, and the
    theorems prove it sufficient: script size for the interpreter, height for walks
    along [pprev], the number of outputs in the pool plus the queue for [remove],
    the number of transactions for evictions, the number of candidates for
    [FindMostWorkChain], the square of the number of blocks for the rounds of
    [ActivateBestChain] (each marks a block or raises the work of the tip), the index for walks to the root of
    an array-shaped tree, the number of orphans for the work queue of the tx
    handler (no transaction is accepted twice while the pool is calm, [PoolOnce]), the
    number of buckets
    for the searches of the address manager.  Numeric side conditions are those of the C++ types
    (sizes below 2^32, weights below 2^31) and are stated in each theorem.

    ** Not modelled

    Signatures, zero-knowledge proofs, BLAKE2b and yespower (vendored code) are
    parameters, with nothing assumed but what a theorem names; theorems that bind
    data by a hash name the collision.  The wallet and its database, signing,
    [AcceptToMemoryPool], the sockets and the framing of messages, the remaining
    message handlers, the RPC layer, block files and their pruning
    ([FlushStateToDisk] is that of a node that does not prune) and the database
    engine, fee estimation (floating point statistics) and mining are not modelled,
    nor are the choice of an address to try ([Select_], whose chances are floating
    point) and the file format of the address manager; the manifest lists every
    part with its status. *)

From stdpp Require Import base list list_numbers numbers.
From Stdlib Require Import ZArith Lia.

#[global] Open Scope Z_scope.

(** ** Machine integers

    Fixed-width integers are kept in [Z].  Unsigned arithmetic wraps through
    [u8], [u16], [u32], [u64]; conversions to signed types go through [s32]
    and [s64]. *)

Definition u8 (z : Z) : Z := z mod 2 ^ 8.
Definition u16 (z : Z) : Z := z mod 2 ^ 16.
Definition u32 (z : Z) : Z := z mod 2 ^ 32.
Definition u64 (z : Z) : Z := z mod 2 ^ 64.
Definition s32 (z : Z) : Z := (z + 2 ^ 31) mod 2 ^ 32 - 2 ^ 31.
Definition s64 (z : Z) : Z := (z + 2 ^ 63) mod 2 ^ 64 - 2 ^ 63.

Definition is_u8 (z : Z) : Prop := 0 <= z < 2 ^ 8.
Definition is_u32 (z : Z) : Prop := 0 <= z < 2 ^ 32.
Definition is_u64 (z : Z) : Prop := 0 <= z < 2 ^ 64.
Definition is_s32 (z : Z) : Prop := - 2 ^ 31 <= z < 2 ^ 31.
Definition is_s64 (z : Z) : Prop := - 2 ^ 63 <= z < 2 ^ 63.

#[global] Instance is_u8_dec z : Decision (is_u8 z).
Proof. unfold is_u8. apply _. Defined.
#[global] Instance is_u32_dec z : Decision (is_u32 z).
Proof. unfold is_u32. apply _. Defined.

(** [lia] extended with the euclidean characterisation of [/] and [mod]. *)
Ltac zdm := Z.div_mod_to_equations; lia.

(** Unfold every width predicate and conversion, then [zdm]. *)
Ltac width :=
  unfold u8, u16, u32, u64, s32, s64, is_u8, is_u32, is_u64, is_s32, is_s64 in *;
  change (2 ^ 8) with 256 in *; change (2 ^ 16) with 65536 in *;
  change (2 ^ 31) with 2147483648 in *; change (2 ^ 32) with 4294967296 in *;
  change (2 ^ 63) with 9223372036854775808 in *;
  change (2 ^ 64) with 18446744073709551616 in *;
  Z.div_mod_to_equations; lia.

(** Unfold the option monad's bind on a known result, and nothing else. *)
Ltac monad := cbn [mbind option_bind mret option_ret].
Ltac monad_in H := cbn [mbind option_bind mret option_ret fst snd] in H.

Lemma u8_id z : is_u8 z -> u8 z = z.
Proof. intros; width. Qed.
Lemma u32_id z : is_u32 z -> u32 z = z.
Proof. intros; width. Qed.
Lemma u64_id z : is_u64 z -> u64 z = z.
Proof. intros; width. Qed.
Lemma s32_id z : is_s32 z -> s32 z = z.
Proof. intros; width. Qed.
Lemma s64_id z : is_s64 z -> s64 z = z.
Proof. intros; width. Qed.
Lemma u8_range z : is_u8 (u8 z).
Proof. width. Qed.
Lemma u32_range z : is_u32 (u32 z).
Proof. width. Qed.
Lemma u64_range z : is_u64 (u64 z).
Proof. width. Qed.
Lemma s32_range z : is_s32 (s32 z).
Proof. width. Qed.
Lemma s64_range z : is_s64 (s64 z).
Proof. width. Qed.

Create HintDb width discriminated.
Create Rewrite HintDb width.
#[export] Hint Resolve u8_range u32_range u64_range s32_range s64_range : width.
#[export] Hint Rewrite u8_id u32_id u64_id s32_id s64_id using (assumption || width) : width.

(** ** Counted loops

    [for_range n f s] runs the body [f] for [i = 0 .. n-1], as in
    [for (int i = 0; i < n; i++) s = f(i, s)]. *)

Fixpoint for_from {S : Type} (i n : nat) (f : nat -> S -> S) (s : S) : S :=
  match n with
  | O => s
  | Datatypes.S n' => for_from (Datatypes.S i) n' f (f i s)
  end.

Definition for_range {S : Type} (n : nat) (f : nat -> S -> S) (s : S) : S :=
  for_from 0 n f s.

(** The invariant rule of a counted loop. *)
Lemma for_from_inv {S : Type} (P : nat -> S -> Prop) (f : nat -> S -> S) n i s :
  P i s ->
  (forall j s', (i <= j < i + n)%nat -> P j s' -> P (Datatypes.S j) (f j s')) ->
  P (i + n)%nat (for_from i n f s).
Proof.
  revert i s. induction n as [|n IH]; intros i s H0 Hstep; simpl.
  - by rewrite Nat.add_0_r.
  - replace (i + Datatypes.S n)%nat with (Datatypes.S i + n)%nat by lia.
    apply IH.
    + apply Hstep; [lia|done].
    + intros j s' Hj. apply Hstep. lia.
Qed.

Lemma for_range_inv {S : Type} (P : nat -> S -> Prop) (f : nat -> S -> S) n s :
  P O s ->
  (forall j s', (j < n)%nat -> P j s' -> P (Datatypes.S j) (f j s')) ->
  P n (for_range n f s).
Proof.
  intros H0 Hstep. apply (for_from_inv P f n 0 s H0).
  intros j s' Hj. apply Hstep. lia.
Qed.

(** ** Bits of non-negative integers *)

Lemma testbit_high a n m : 0 <= a < 2 ^ n -> n <= m -> Z.testbit a m = false.
Proof.
  intros Ha Hm. destruct (decide (m < 0)); [by apply Z.testbit_neg_r|].
  assert (0 <= n) by (destruct (decide (n < 0)); [rewrite Z.pow_neg_r in Ha|]; lia).
  rewrite <- (Z.mod_small a (2 ^ n)) by lia. apply Z.mod_pow2_bits_high. lia.
Qed.

Lemma bits_bounded a n :
  0 <= n -> 0 <= a -> (forall m, n <= m -> Z.testbit a m = false) -> a < 2 ^ n.
Proof.
  intros Hn Ha Hbits. enough (a = a mod 2 ^ n) as ->.
  { apply Z.mod_pos_bound. lia. }
  apply Z.bits_inj'. intros m Hm. destruct (decide (m < n)).
  - by rewrite Z.mod_pow2_bits_low.
  - rewrite Z.mod_pow2_bits_high by lia. apply Hbits. lia.
Qed.
