(* ===== verification/Bytes.v ===== *)
(** * Byte strings and fixed-width encodings

    Bytes are integers in [0, 255]; a C++ [unsigned char*] or
    [std::vector<unsigned char>] is a [list Z].  This file models the
    little- and big-endian accessors of src/crypto/common.h and proves their
    round trips; every serialised format of the development builds on them. *)

From stdpp Require Import base list list_numbers numbers.
From Stdlib Require Import ZArith Lia.
From S2P Require Import Prelude.

Definition is_bytes (l : list Z) : Prop := Forall is_u8 l.

#[global] Instance is_bytes_dec l : Decision (is_bytes l).
Proof. unfold is_bytes. apply _. Defined.

Module Endian.

(** ** Memory image of an unsigned integer

    [le_bytes n x] is the little-endian memory image of an [n]-byte unsigned
    integer, [le_value] reads it back. *)

Fixpoint le_bytes (n : nat) (x : Z) : list Z :=
  match n with
  | O => []
  | S n' => u8 x :: le_bytes n' (Z.shiftr x 8)
  end.

Fixpoint le_value (l : list Z) : Z :=
  match l with
  | [] => 0
  | b :: l' => b + 256 * le_value l'
  end.

Definition ReadLE16 (ptr : list Z) : Z := le_value (take 2 ptr).
Definition ReadLE32 (ptr : list Z) : Z := le_value (take 4 ptr).
Definition ReadLE64 (ptr : list Z) : Z := le_value (take 8 ptr).
Definition WriteLE16 (x : Z) : list Z := le_bytes 2 x.
Definition WriteLE32 (x : Z) : list Z := le_bytes 4 x.
Definition WriteLE64 (x : Z) : list Z := le_bytes 8 x.
Definition ReadBE32 (ptr : list Z) : Z := le_value (rev (take 4 ptr)).
Definition ReadBE64 (ptr : list Z) : Z := le_value (rev (take 8 ptr)).
Definition WriteBE32 (x : Z) : list Z := rev (le_bytes 4 x).
Definition WriteBE64 (x : Z) : list Z := rev (le_bytes 8 x).

Lemma length_le_bytes n x : length (le_bytes n x) = n.
Proof. revert x; induction n; intros; simpl; auto. Qed.

Lemma le_bytes_bytes n x : is_bytes (le_bytes n x).
Proof.
  revert x; induction n; intros; simpl; constructor; auto with width.
  apply IHn.
Qed.

Lemma le_value_bytes n x : le_value (le_bytes n x) = x mod 256 ^ Z.of_nat n.
Proof.
  revert x. induction n as [|n IH]; intros x; simpl le_bytes; simpl le_value.
  - by rewrite Z.mod_1_r.
  - rewrite IH, Nat2Z.inj_succ, Z.pow_succ_r by lia.
    rewrite Z.shiftr_div_pow2 by lia. change (2 ^ 8) with 256.
    unfold u8. change (2 ^ 8) with 256.
    rewrite Z.rem_mul_r by (try apply Z.pow_pos_nonneg; lia). lia.
Qed.

Lemma le_value_range l :
  is_bytes l -> 0 <= le_value l < 256 ^ Z.of_nat (length l).
Proof.
  induction 1 as [|b l Hb _ IH]; simpl le_value; simpl length; [lia|].
  rewrite Nat2Z.inj_succ, Z.pow_succ_r by lia.
  unfold is_u8 in Hb. change (2 ^ 8) with 256 in Hb. nia.
Qed.

Lemma le_bytes_value l : is_bytes l -> le_bytes (length l) (le_value l) = l.
Proof.
  induction 1 as [|b l Hb Hl IH]; simpl; [done|].
  rewrite Z.shiftr_div_pow2 by lia. f_equal.
  - width.
  - replace ((b + 256 * le_value l) / 2 ^ 8) with (le_value l) by width.
    exact IH.
Qed.

Lemma le_value_app l1 l2 :
  le_value (l1 ++ l2) = le_value l1 + 256 ^ Z.of_nat (length l1) * le_value l2.
Proof.
  induction l1 as [|b l1 IH]; simpl app; simpl le_value; [simpl; lia|].
  rewrite IH. simpl length. rewrite Nat2Z.inj_succ, Z.pow_succ_r by lia. ring.
Qed.

Lemma le_value_inj l1 l2 :
  is_bytes l1 -> is_bytes l2 -> length l1 = length l2 ->
  le_value l1 = le_value l2 -> l1 = l2.
Proof.
  intros H1 H2 Hlen Hv.
  by rewrite <- (le_bytes_value l1), <- (le_bytes_value l2), Hlen, Hv by done.
Qed.

Lemma ReadLE32_WriteLE32 x rest : is_u32 x -> ReadLE32 (WriteLE32 x ++ rest) = x.
Proof.
  intros Hx. unfold ReadLE32, WriteLE32.
  rewrite take_app_length' by (symmetry; apply length_le_bytes).
  rewrite le_value_bytes. change (256 ^ Z.of_nat 4) with (2 ^ 32).
  by apply u32_id.
Qed.

End Endian.

#[export] Hint Resolve Endian.le_bytes_bytes : width.
