(* ===== verification/ArithUint256.v ===== *)
(** * 256-bit unsigned arithmetic (src/arith_uint256.h, src/arith_uint256.cpp)

    [base_uint<256>] stores eight 32-bit limbs [pn[0..7]], least significant
    first.  The model keeps the limb array and the loops over it; [val] is the
    abstraction to the integer it denotes, and the theorems show that every
    operator implements arithmetic modulo 2^256 on that integer. *)

From stdpp Require Import base list list_numbers numbers.
From Stdlib Require Import ZArith Lia.
From S2P Require Import Prelude Bytes.
Import Endian.

Module Arith256.

Definition WIDTH : nat := 8.

(** The limb array [uint32_t pn[WIDTH]]. *)
Abbreviation base_uint := (list Z) (only parsing).

Definition wf (a : base_uint) : Prop := length a = WIDTH /\ Forall is_u32 a.

#[global] Instance wf_dec a : Decision (wf a).
Proof. unfold wf. apply _. Defined.

(** [pn[i]]; every access below is in range. *)
Definition pn (a : base_uint) (i : nat) : Z := nth i a 0.

Definition base_uint_zero : base_uint := replicate WIDTH 0.

Definition base_uint_of_u64 (b : Z) : base_uint :=
  u32 b :: u32 (Z.shiftr b 32) :: replicate (WIDTH - 2) 0.

Definition op_not (a : base_uint) : bool := forallb (fun x => x =? 0) a.

Definition op_compl (a : base_uint) : base_uint := map (fun x => u32 (Z.lnot x)) a.

(** [while (++pn[i] == 0 && i < WIDTH-1) i++;] *)
Fixpoint op_incr (a : base_uint) : base_uint :=
  match a with
  | [] => []
  | x :: rest =>
      let x' := u32 (x + 1) in
      if (x' =? 0) && negb (Nat.eqb (length rest) 0) then x' :: op_incr rest else x' :: rest
  end.

(** [while (--pn[i] == (uint32_t)-1 && i < WIDTH-1) i++;] *)
Fixpoint op_decr (a : base_uint) : base_uint :=
  match a with
  | [] => []
  | x :: rest =>
      let x' := u32 (x - 1) in
      if (x' =? u32 (-1)) && negb (Nat.eqb (length rest) 0) then x' :: op_decr rest else x' :: rest
  end.

Definition op_neg (a : base_uint) : base_uint := op_incr (op_compl a).

Definition op_xor (a b : base_uint) : base_uint := zip_with Z.lxor a b.
Definition op_and (a b : base_uint) : base_uint := zip_with Z.land a b.
Definition op_or (a b : base_uint) : base_uint := zip_with Z.lor a b.

(** [operator|=(uint64_t)] and [operator^=(uint64_t)] touch the two low limbs. *)
Definition op_or_u64 (a : base_uint) (b : Z) : base_uint :=
  <[1%nat := Z.lor (pn a 1) (u32 (Z.shiftr b 32))]> (<[O := Z.lor (pn a 0) (u32 b)]> a).
Definition op_xor_u64 (a : base_uint) (b : Z) : base_uint :=
  <[1%nat := Z.lxor (pn a 1) (u32 (Z.shiftr b 32))]> (<[O := Z.lxor (pn a 0) (u32 b)]> a).

(** [operator+=]: one pass with a 64-bit accumulator. *)
Fixpoint add_loop (carry : Z) (a b : base_uint) : base_uint :=
  match a, b with
  | x :: a', y :: b' =>
      let n := u64 (carry + x + y) in
      Z.land n 0xffffffff :: add_loop (Z.shiftr n 32) a' b'
  | _, _ => []
  end.

Definition op_add (a b : base_uint) : base_uint := add_loop 0 a b.
Definition op_sub (a b : base_uint) : base_uint := op_add a (op_neg b).
Definition op_add_u64 (a : base_uint) (b64 : Z) : base_uint := op_add a (base_uint_of_u64 b64).
Definition op_sub_u64 (a : base_uint) (b64 : Z) : base_uint := op_add a (op_neg (base_uint_of_u64 b64)).

(** The body of the [operator<<=] loop for index [i]. *)
Definition shl_step (a : base_uint) (k s : nat) (i : nat) (r : base_uint) : base_uint :=
  let r :=
    if (i + k + 1 <? WIDTH)%nat && negb (s =? 0)%nat
    then <[(i + k + 1)%nat := Z.lor (pn r (i + k + 1)) (Z.shiftr (pn a i) (32 - Z.of_nat s))]> r
    else r in
  if (i + k <? WIDTH)%nat
  then <[(i + k)%nat := Z.lor (pn r (i + k)) (u32 (Z.shiftl (pn a i) (Z.of_nat s)))]> r
  else r.

Definition op_shl (a : base_uint) (shift : nat) : base_uint :=
  for_range WIDTH (shl_step a (shift / 32) (shift mod 32)) base_uint_zero.

(** The body of the [operator>>=] loop for index [i]. *)
Definition shr_step (a : base_uint) (k s : nat) (i : nat) (r : base_uint) : base_uint :=
  let r :=
    if (k + 1 <=? i)%nat && negb (s =? 0)%nat
    then <[(i - k - 1)%nat := Z.lor (pn r (i - k - 1)) (u32 (Z.shiftl (pn a i) (32 - Z.of_nat s)))]> r
    else r in
  if (k <=? i)%nat
  then <[(i - k)%nat := Z.lor (pn r (i - k)) (Z.shiftr (pn a i) (Z.of_nat s))]> r
  else r.

Definition op_shr (a : base_uint) (shift : nat) : base_uint :=
  for_range WIDTH (shr_step a (shift / 32) (shift mod 32)) base_uint_zero.

(** [operator*=(uint32_t)]. *)
Fixpoint mul32_loop (carry b32 : Z) (a : base_uint) : base_uint :=
  match a with
  | [] => []
  | x :: a' =>
      let n := u64 (carry + b32 * x) in
      Z.land n 0xffffffff :: mul32_loop (Z.shiftr n 32) b32 a'
  end.

Definition op_mul32 (a : base_uint) (b32 : Z) : base_uint := mul32_loop 0 b32 a.

(** Inner loop of [operator*=]: adds [aj * b] into the limbs [pn[j..]]. *)
Fixpoint mul_row (carry aj : Z) (r b : base_uint) : base_uint :=
  match r, b with
  | p :: r', y :: b' =>
      let n := u64 (carry + p + aj * y) in
      Z.land n 0xffffffff :: mul_row (Z.shiftr n 32) aj r' b'
  | _, _ => r
  end.

Definition mul_step (a b : base_uint) (j : nat) (r : base_uint) : base_uint :=
  take j r ++ mul_row 0 (pn a j) (drop j r) b.

Definition op_mul (a b : base_uint) : base_uint :=
  for_range WIDTH (mul_step a b) base_uint_zero.

(** [CompareTo], from the most significant limb down. *)
Fixpoint compare_from (i : nat) (a b : base_uint) : Z :=
  match i with
  | O => 0
  | S i' =>
      if pn a i' <? pn b i' then -1
      else if pn a i' >? pn b i' then 1
      else compare_from i' a b
  end.

Definition CompareTo (a b : base_uint) : Z := compare_from WIDTH a b.

Definition op_gt (a b : base_uint) : bool := CompareTo a b >? 0.
Definition op_lt (a b : base_uint) : bool := CompareTo a b <? 0.
Definition op_ge (a b : base_uint) : bool := CompareTo a b >=? 0.
Definition op_le (a b : base_uint) : bool := CompareTo a b <=? 0.
Definition op_eq (a b : base_uint) : bool := bool_decide (a = b).

Definition EqualTo (a : base_uint) (b : Z) : bool :=
  forallb (fun i => pn a i =? 0) (seq 2 (WIDTH - 2))
  && (pn a 1 =? Z.shiftr b 32)
  && (pn a 0 =? Z.land b 0xffffffff).

(** [bits()]: the inner loop tests bits 31..1 of a non-zero limb. *)
Fixpoint limb_bits (bits : nat) (x : Z) : nat :=
  match bits with
  | O => 0
  | S bits' =>
      if Z.land x (Z.shiftl 1 (Z.of_nat (S bits'))) =? 0 then limb_bits bits' x else S bits'
  end.

Fixpoint bits_from (pos : nat) (a : base_uint) : nat :=
  match pos with
  | O => 0
  | S p => if pn a p =? 0 then bits_from p a else 32 * p + limb_bits 31 (pn a p) + 1
  end.

Definition bits (a : base_uint) : nat := bits_from WIDTH a.

(** [operator/=]: shift-and-subtract long division; [None] is the
    [uint_error] raised on a zero divisor.  [div_loop (shift + 1)] is the
    [while (shift >= 0)] loop. *)
Fixpoint div_loop (n : nat) (num div q : base_uint) : base_uint * base_uint :=
  match n with
  | O => (q, num)
  | S shift =>
      let '(num, q) :=
        if op_ge num div
        then (op_sub num div,
              <[(shift / 32)%nat := Z.lor (pn q (shift / 32))
                                      (Z.shiftl 1 (Z.of_nat (shift mod 32)))]> q)
        else (num, q) in
      div_loop shift num (op_shr div 1) q
  end.

Definition op_div (a b : base_uint) : option base_uint :=
  let num_bits := bits a in
  let div_bits := bits b in
  if (div_bits =? 0)%nat then None
  else if (num_bits <? div_bits)%nat then Some base_uint_zero
  else
    let shift := (num_bits - div_bits)%nat in
    Some (fst (div_loop (S shift) a (op_shl b shift) base_uint_zero)).

Definition GetLow64 (a : base_uint) : Z := Z.lor (pn a 0) (Z.shiftl (pn a 1) 32).

(** [SetCompact] returns the value with the two flags [*pfNegative] and
    [*pfOverflow]. *)
Definition SetCompact (nCompact : Z) : base_uint * bool * bool :=
  let nSize := Z.to_nat (Z.shiftr nCompact 24) in
  let nWord := Z.land nCompact 0x007fffff in
  let '(nWord, v) :=
    if (nSize <=? 3)%nat
    then let w := Z.shiftr nWord (8 * (3 - Z.of_nat nSize)) in (w, base_uint_of_u64 w)
    else (nWord, op_shl (base_uint_of_u64 nWord) (8 * (nSize - 3))) in
  let fNegative := negb (nWord =? 0) && negb (Z.land nCompact 0x00800000 =? 0) in
  let fOverflow :=
    negb (nWord =? 0) &&
    ((34 <? nSize)%nat || ((nWord >? 0xff) && (33 <? nSize)%nat)
     || ((nWord >? 0xffff) && (32 <? nSize)%nat)) in
  (v, fNegative, fOverflow).

(** [GetCompact]; [None] is a failed assertion. *)
Definition GetCompact (a : base_uint) (fNegative : bool) : option Z :=
  let nSize := ((bits a + 7) / 8)%nat in
  let nCompact :=
    if (nSize <=? 3)%nat
    then u32 (u64 (Z.shiftl (GetLow64 a) (8 * (3 - Z.of_nat nSize))))
    else u32 (GetLow64 (op_shr a (8 * (nSize - 3)))) in
  let '(nCompact, nSize) :=
    if negb (Z.land nCompact 0x00800000 =? 0)
    then (Z.shiftr nCompact 8, S nSize) else (nCompact, nSize) in
  if negb (Z.land nCompact (u32 (Z.lnot 0x007fffff)) =? 0) then None
  else if negb (nSize <? 256)%nat then None
  else
    let nCompact := Z.lor nCompact (Z.shiftl (Z.of_nat nSize) 24) in
    Some (Z.lor nCompact
      (if fNegative && negb (Z.land nCompact 0x007fffff =? 0) then 0x00800000 else 0)).

(** Conversions to and from the opaque byte blob [uint256]. *)
Definition ArithToUint256 (a : base_uint) : list Z :=
  concat (map (fun x => WriteLE32 (pn a x)) (seq 0 WIDTH)).
Definition UintToArith256 (b : list Z) : base_uint :=
  map (fun x => ReadLE32 (drop (x * 4) b)) (seq 0 WIDTH).

(** ** The integer denoted by a limb array *)

Fixpoint val (a : base_uint) : Z :=
  match a with
  | [] => 0
  | x :: a' => x + 2 ^ 32 * val a'
  end.

(** The modulus of an [n]-limb array. *)
Definition limb_mod (n : nat) : Z := 2 ^ (32 * Z.of_nat n).

Lemma limb_mod_S n : limb_mod (S n) = 2 ^ 32 * limb_mod n.
Proof.
  unfold limb_mod. rewrite Nat2Z.inj_succ, Z.mul_succ_r, Z.pow_add_r by lia. ring.
Qed.

Lemma limb_mod_pos n : 0 < limb_mod n.
Proof. unfold limb_mod. apply Z.pow_pos_nonneg; lia. Qed.

#[local] Hint Resolve limb_mod_pos : core.

Lemma val_range a : Forall is_u32 a -> 0 <= val a < limb_mod (length a).
Proof.
  induction 1 as [|x a Hx _ IH]; simpl val; simpl length; [done|].
  rewrite limb_mod_S. unfold is_u32 in Hx. nia.
Qed.

(** Splitting [n < 2^64] into its low and high words. *)
Lemma split_word n :
  is_u64 n -> Z.land n 0xffffffff = n mod 2 ^ 32 /\ Z.shiftr n 32 = n / 2 ^ 32
              /\ is_u32 (n mod 2 ^ 32) /\ is_u32 (n / 2 ^ 32)
              /\ n = n mod 2 ^ 32 + 2 ^ 32 * (n / 2 ^ 32).
Proof.
  intros Hn. change 0xffffffff with (Z.ones 32).
  rewrite Z.land_ones, Z.shiftr_div_pow2 by lia.
  repeat split; try width.
Qed.

(** One step of a carry loop: the low word is stored, the high word carried. *)
Lemma carry_step n lo r m t :
  0 < m -> n = lo + 2 ^ 32 * r -> is_u32 lo ->
  lo + 2 ^ 32 * ((r + t) mod m) = (n + 2 ^ 32 * t) mod (2 ^ 32 * m).
Proof.
  intros Hm -> Hlo.
  rewrite Z.rem_mul_r by lia.
  replace (lo + 2 ^ 32 * r + 2 ^ 32 * t) with (lo + (r + t) * 2 ^ 32) by ring.
  rewrite Z.mod_add, Z.div_add by lia.
  unfold is_u32 in Hlo. by rewrite (Z.mod_small lo), (Z.div_small lo), Z.add_0_l by lia.
Qed.

Lemma add_loop_val a : forall b c,
  Forall is_u32 a -> Forall is_u32 b -> length a = length b -> is_u32 c ->
  val (add_loop c a b) = (c + val a + val b) mod limb_mod (length a).
Proof.
  induction a as [|x a IH]; intros [|y b] c Ha Hb Hl Hc; try done.
  { simpl. by rewrite Z.mod_1_r. }
  inversion_clear Ha; inversion_clear Hb. cbn [add_loop val length].
  rewrite (u64_id (c + x + y)) by width.
  destruct (split_word (c + x + y)) as (-> & -> & Hlo & Hhi & Heq); [width|].
  rewrite IH by (auto || (simpl in Hl; lia)). rewrite limb_mod_S.
  rewrite <- (Z.add_assoc (_ / _)).
  rewrite (carry_step (c + x + y)) by auto.
  f_equal. ring.
Qed.

Lemma length_add_loop a b c : length a = length b -> length (add_loop c a b) = length a.
Proof. revert b c; induction a; intros [|y b] c H; simpl in *; auto. Qed.

Lemma add_loop_u32 a b c : Forall is_u32 (add_loop c a b).
Proof.
  revert b c; induction a as [|x a IH]; intros [|y b] c; simpl; try constructor; auto.
  destruct (split_word (u64 (c + x + y))) as (-> & _ & H & _); auto with width.
Qed.

Lemma op_compl_val a :
  Forall is_u32 a ->
  val (op_compl a) = limb_mod (length a) - 1 - val a /\ Forall is_u32 (op_compl a).
Proof.
  induction 1 as [|x a Hx Ha [IH1 IH2]]; cbn [op_compl map val length]; [done|].
  unfold op_compl in IH1. rewrite IH1, limb_mod_S. split.
  - assert (u32 (Z.lnot x) = 2 ^ 32 - 1 - x) as -> by (unfold Z.lnot; width). ring.
  - constructor; auto with width.
Qed.

Lemma val_zero_limbs n : val (replicate n 0) = 0.
Proof. induction n as [|n IH]; cbn [replicate val]; [done|]. rewrite IH. lia. Qed.

Lemma op_incr_val a :
  Forall is_u32 a ->
  val (op_incr a) = (val a + 1) mod limb_mod (length a) /\ Forall is_u32 (op_incr a)
  /\ length (op_incr a) = length a.
Proof.
  induction 1 as [|x a Hx Ha (IH1 & IH2 & IH3)]; cbn [op_incr val length]; [done|].
  pose proof (val_range a Ha) as Hr. rewrite limb_mod_S.
  destruct (u32 (x + 1) =? 0) eqn:E; cbn [andb].
  - apply Z.eqb_eq in E. assert (x = 2 ^ 32 - 1) as -> by width.
    destruct a as [|y a]; cbn [length Nat.eqb negb val op_incr] in *.
    + rewrite E. split; [reflexivity|]. repeat constructor; try done.
    + rewrite IH1, E. repeat split; auto with width.
      * replace (2 ^ 32 - 1 + 2 ^ 32 * (y + 2 ^ 32 * val a) + 1)
          with (2 ^ 32 * (y + 2 ^ 32 * val a + 1)) by ring.
        rewrite Z.mul_mod_distr_l by (pose proof (limb_mod_pos (S (length a))); lia). lia.
      * constructor; [width|done].
  - apply Z.eqb_neq in E. cbn [val length].
    assert (u32 (x + 1) = x + 1) as H1 by width. rewrite H1.
    assert (is_u32 (x + 1)) by (rewrite <- H1; auto with width).
    repeat split; auto.
    rewrite Z.mod_small; [ring|]. unfold is_u32 in *. nia.
Qed.

Lemma op_decr_val a :
  Forall is_u32 a ->
  val (op_decr a) = (val a - 1) mod limb_mod (length a) /\ Forall is_u32 (op_decr a)
  /\ length (op_decr a) = length a.
Proof.
  induction 1 as [|x a Hx Ha (IH1 & IH2 & IH3)]; cbn [op_decr val length]; [done|].
  pose proof (val_range a Ha) as Hr. rewrite limb_mod_S.
  destruct (u32 (x - 1) =? u32 (-1)) eqn:E; cbn [andb].
  - apply Z.eqb_eq in E. assert (x = 0) as -> by width.
    destruct a as [|y a]; cbn [length Nat.eqb negb val op_decr] in *.
    + rewrite E. split; [reflexivity|]. repeat constructor; try done.
    + rewrite IH1, E. repeat split; auto with width.
      * replace (0 + 2 ^ 32 * (y + 2 ^ 32 * val a) - 1)
          with (2 ^ 32 - 1 + 2 ^ 32 * (y + 2 ^ 32 * val a - 1)) by ring.
        rewrite <- (carry_step (2 ^ 32 - 1) (2 ^ 32 - 1) 0) by (auto; width). done.
  - apply Z.eqb_neq in E. cbn [val length].
    assert (u32 (x - 1) = x - 1) as H1 by width. rewrite H1.
    assert (is_u32 (x - 1)) by (rewrite <- H1; auto with width).
    repeat split; auto.
    rewrite Z.mod_small; [ring|]. unfold is_u32 in *. nia.
Qed.

(** ** Operators on well-formed 256-bit values *)

Lemma wf_val_range a : wf a -> 0 <= val a < 2 ^ 256.
Proof. intros [Hl Ha]. pose proof (val_range a Ha) as H. by rewrite Hl in H. Qed.

Lemma op_add_wf a b : wf a -> wf b -> wf (op_add a b).
Proof.
  intros [Hla Ha] [Hlb Hb]. split; [|apply add_loop_u32].
  unfold op_add. rewrite length_add_loop; congruence.
Qed.

Lemma op_add_val a b : wf a -> wf b -> val (op_add a b) = (val a + val b) mod 2 ^ 256.
Proof.
  intros [Hla Ha] [Hlb Hb]. unfold op_add.
  rewrite add_loop_val by (auto; try congruence; width). by rewrite Hla.
Qed.

Lemma op_neg_val a :
  wf a -> wf (op_neg a) /\ val (op_neg a) = (- val a) mod 2 ^ 256.
Proof.
  intros [Hl Ha]. destruct (op_compl_val a Ha) as [Hv Hu].
  destruct (op_incr_val _ Hu) as (H1 & H2 & H3).
  assert (length (op_compl a) = WIDTH) as Hlc by (unfold op_compl; by rewrite length_map).
  split; [split; unfold op_neg; [congruence|done]|].
  unfold op_neg. rewrite H1, Hlc, Hv, Hl. change (limb_mod WIDTH) with (2 ^ 256).
  replace (2 ^ 256 - 1 - val a + 1) with (- val a + 1 * 2 ^ 256) by ring.
  by rewrite Z.mod_add.
Qed.

Lemma op_sub_val a b :
  wf a -> wf b -> wf (op_sub a b) /\ val (op_sub a b) = (val a - val b) mod 2 ^ 256.
Proof.
  intros Ha Hb. destruct (op_neg_val b Hb) as [Hw Hv]. unfold op_sub. split.
  - by apply op_add_wf.
  - rewrite op_add_val, Hv by done. by rewrite Zplus_mod_idemp_r.
Qed.

Lemma wf_zero : wf base_uint_zero.
Proof. split; [done|]. repeat constructor; done. Qed.

Lemma of_u64_val b : is_u64 b -> wf (base_uint_of_u64 b) /\ val (base_uint_of_u64 b) = b.
Proof.
  intros Hb. unfold base_uint_of_u64. split.
  - split; [done|]. repeat constructor; auto with width; width.
  - cbn [val]. rewrite val_zero_limbs, Z.shiftr_div_pow2 by lia. width.
Qed.

(** ** Multiplication *)

Lemma val_app l1 l2 : val (l1 ++ l2) = val l1 + limb_mod (length l1) * val l2.
Proof.
  induction l1 as [|x l1 IH]; cbn [app val length].
  - unfold limb_mod. simpl. lia.
  - rewrite IH, limb_mod_S. ring.
Qed.

Lemma mul32_loop_val a : forall c b32,
  Forall is_u32 a -> is_u32 c -> is_u32 b32 ->
  val (mul32_loop c b32 a) = (c + b32 * val a) mod limb_mod (length a)
  /\ Forall is_u32 (mul32_loop c b32 a) /\ length (mul32_loop c b32 a) = length a.
Proof.
  induction a as [|x a IH]; intros c b32 Ha Hc Hb; cbn [mul32_loop val length].
  { by rewrite Z.mod_1_r. }
  inversion_clear Ha.
  assert (is_u64 (c + b32 * x)) as Hn by (unfold is_u32, is_u64 in *; nia).
  rewrite (u64_id _ Hn).
  destruct (split_word _ Hn) as (-> & -> & Hlo & Hhi & Heq).
  destruct (IH ((c + b32 * x) / 2 ^ 32) b32) as (-> & ? & ->); auto.
  split; [|auto]. rewrite limb_mod_S, (carry_step (c + b32 * x)) by auto. f_equal. ring.
Qed.

Lemma mul_row_val r : forall c aj b,
  Forall is_u32 r -> Forall is_u32 b -> (length r <= length b)%nat -> is_u32 c -> is_u32 aj ->
  val (mul_row c aj r b) = (c + val r + aj * val b) mod limb_mod (length r)
  /\ Forall is_u32 (mul_row c aj r b) /\ length (mul_row c aj r b) = length r.
Proof.
  induction r as [|x r IH]; intros c aj [|y b] Hr Hb Hl Hc Haj; cbn [mul_row val length];
    try (by rewrite Z.mod_1_r).
  { simpl in Hl. lia. }
  inversion_clear Hr. inversion_clear Hb.
  assert (is_u64 (c + x + aj * y)) as Hn by (unfold is_u32, is_u64 in *; nia).
  rewrite (u64_id _ Hn).
  destruct (split_word _ Hn) as (-> & -> & Hlo & Hhi & Heq).
  destruct (IH ((c + x + aj * y) / 2 ^ 32) aj b) as (-> & ? & ->); auto.
  { simpl in Hl. lia. }
  split; [|auto].
  rewrite limb_mod_S, <- (Z.add_assoc (_ / _)), (carry_step (c + x + aj * y)) by auto.
  f_equal. ring.
Qed.

Lemma pn_u32 a i : Forall is_u32 a -> is_u32 (pn a i).
Proof.
  intros Ha. unfold pn. destruct (decide (i < length a)%nat).
  - rewrite Forall_forall in Ha. by apply Ha, nth_In.
  - rewrite nth_overflow by lia. width.
Qed.

Lemma take_S_pn a i :
  (i < length a)%nat -> take (S i) a = take i a ++ [pn a i].
Proof.
  intros Hi. destruct (lookup_lt_is_Some_2 a i Hi) as [x Hx].
  rewrite (take_S_r _ _ x) by done. unfold pn. by rewrite (nth_lookup_Some _ _ _ _ Hx).
Qed.

Lemma val_take_S a i :
  (i < length a)%nat -> val (take (S i) a) = val (take i a) + limb_mod i * pn a i.
Proof.
  intros Hi. rewrite take_S_pn, val_app, length_take by done.
  rewrite Nat.min_l by lia. cbn [val]. ring.
Qed.

Lemma val_split a j :
  (j <= length a)%nat -> val a = val (take j a) + limb_mod j * val (drop j a).
Proof.
  intros Hj. rewrite <- (take_drop j a) at 1. rewrite val_app, length_take.
  by rewrite Nat.min_l by lia.
Qed.

Lemma limb_mod_add i j : limb_mod (i + j) = limb_mod i * limb_mod j.
Proof.
  unfold limb_mod. rewrite Nat2Z.inj_add, Z.mul_add_distr_l, Z.pow_add_r by lia. done.
Qed.

Lemma mul_step_val a b r j :
  wf a -> wf b -> wf r -> (j < WIDTH)%nat ->
  wf (mul_step a b j r)
  /\ val (mul_step a b j r) = (val r + limb_mod j * pn a j * val b) mod 2 ^ 256.
Proof.
  intros [Hla Ha] [Hlb Hb] [Hlr Hr] Hj. unfold mul_step.
  pose proof (Forall_take _ j _ Hr) as Hrt. pose proof (Forall_drop _ j _ Hr) as Hrd.
  assert (length (drop j r) = WIDTH - j)%nat as Hld by (rewrite length_drop; lia).
  assert (length (take j r) = j) as Hlt by (rewrite length_take; lia).
  destruct (mul_row_val (drop j r) 0 (pn a j) b) as (Hv & Hu & Hl);
    auto using pn_u32; try width; try lia.
  rewrite Hld in *. split.
  - split; [rewrite length_app; lia|]. by apply Forall_app.
  - rewrite val_app, Hv, Hlt, (val_split r j) by lia.
    change (2 ^ 256) with (limb_mod WIDTH).
    replace WIDTH with (j + (WIDTH - j))%nat at 2 by lia.
    rewrite limb_mod_add, Z.rem_mul_r by (pose proof (limb_mod_pos j); auto; lia).
    replace (val (take j r) + limb_mod j * val (drop j r) + limb_mod j * pn a j * val b)
      with (val (take j r) + (0 + val (drop j r) + pn a j * val b) * limb_mod j) by ring.
    pose proof (val_range _ Hrt) as Hb'. rewrite Hlt in Hb'.
    rewrite Z.mod_add, Z.div_add, (Z.mod_small (val _)), (Z.div_small (val _)) by lia.
    by rewrite Z.add_0_l.
Qed.

Lemma op_mul_val a b :
  wf a -> wf b -> wf (op_mul a b) /\ val (op_mul a b) = (val a * val b) mod 2 ^ 256.
Proof.
  intros Ha Hb. unfold op_mul.
  pose (P := fun j r => wf r /\ val r = (val (take j a) * val b) mod 2 ^ 256).
  assert (P WIDTH (for_range WIDTH (mul_step a b) base_uint_zero)) as [Hw Hv].
  { apply for_range_inv.
    - split; [apply wf_zero|done].
    - intros j r Hj [Hw Hv]. destruct (mul_step_val a b r j) as [Hw' Hv']; auto.
      split; [done|]. rewrite Hv', Hv, val_take_S by (destruct Ha; lia).
      rewrite Zplus_mod_idemp_l. f_equal. ring. }
  split; [done|]. by rewrite Hv, take_ge by (destruct Ha; lia).
Qed.

(** ** Comparison *)

Definition sign_of (c : comparison) : Z :=
  match c with Lt => -1 | Eq => 0 | Gt => 1 end.

Lemma compare_from_val i a b :
  Forall is_u32 a -> Forall is_u32 b -> (i <= length a)%nat -> (i <= length b)%nat ->
  compare_from i a b = sign_of (val (take i a) ?= val (take i b)).
Proof.
  intros Ha Hb. induction i as [|i IH]; intros Hia Hib; [done|].
  cbn [compare_from]. rewrite !val_take_S by lia.
  pose proof (val_range _ (Forall_take _ i _ Ha)) as H1.
  pose proof (val_range _ (Forall_take _ i _ Hb)) as H2.
  rewrite length_take, Nat.min_l in H1, H2 by lia.
  destruct (Z.ltb_spec (pn a i) (pn b i)).
  { rewrite (proj2 (Z.compare_lt_iff _ _)); [done|]. nia. }
  rewrite Z.gtb_ltb. destruct (Z.ltb_spec (pn b i) (pn a i)).
  { rewrite (proj2 (Z.compare_gt_iff _ _)); [done|]. nia. }
  assert (pn a i = pn b i) as -> by lia. rewrite IH by lia.
  f_equal. rewrite !(Z.add_comm _ (limb_mod i * _)). by rewrite Z.add_compare_mono_l.
Qed.

Lemma CompareTo_val a b : wf a -> wf b -> CompareTo a b = sign_of (val a ?= val b).
Proof.
  intros [Hla Ha] [Hlb Hb]. unfold CompareTo.
  rewrite compare_from_val by (auto; lia). by rewrite !take_ge by lia.
Qed.

Lemma op_ge_val a b : wf a -> wf b -> op_ge a b = (val b <=? val a).
Proof.
  intros Ha Hb. unfold op_ge. rewrite CompareTo_val by done.
  destruct (Z.compare_spec (val a) (val b)); simpl; symmetry;
    rewrite ?Z.leb_le, ?Z.leb_gt; lia.
Qed.

Lemma op_gt_val a b : wf a -> wf b -> op_gt a b = (val b <? val a).
Proof.
  intros Ha Hb. unfold op_gt. rewrite CompareTo_val by done.
  destruct (Z.compare_spec (val a) (val b)); simpl; symmetry;
    rewrite ?Z.ltb_lt, ?Z.ltb_ge; lia.
Qed.

(** ** Bit length *)

Lemma land_pow2_testbit x n :
  0 <= n -> (Z.land x (Z.shiftl 1 n) =? 0) = negb (Z.testbit x n).
Proof.
  intros Hn. destruct (Z.testbit x n) eqn:E; simpl.
  - apply Z.eqb_neq. intros H. assert (Z.testbit (Z.land x (Z.shiftl 1 n)) n = false) as H'.
    { by rewrite H, Z.bits_0. }
    rewrite Z.land_spec, E, Z.shiftl_spec, Z.sub_diag in H' by lia. done.
  - apply Z.eqb_eq, Z.bits_inj'. intros m Hm.
    rewrite Z.land_spec, Z.bits_0, Z.shiftl_1_l, Z.pow2_bits_eqb by lia.
    destruct (Z.eqb_spec n m) as [->|]; [rewrite E|]; by rewrite ?andb_false_r.
Qed.

Lemma log2_bounds x n : 0 <= n -> 2 ^ n <= x < 2 ^ (n + 1) -> Z.log2 x = n.
Proof. intros Hn Hx. apply Z.log2_unique; [lia|]. by rewrite <- Z.add_1_r. Qed.

Lemma limb_bits_log2 n x :
  0 < x < 2 ^ (Z.of_nat n + 1) -> Z.of_nat (limb_bits n x) = Z.log2 x.
Proof.
  induction n as [|n IH]; intros Hx; cbn [limb_bits].
  - assert (x = 1) as -> by (simpl in Hx; lia). done.
  - rewrite land_pow2_testbit by lia. destruct (Z.testbit x _) eqn:E; cbn [negb].
    + symmetry. apply log2_bounds; [lia|]. split; [|lia].
      destruct (decide (x < 2 ^ Z.of_nat (S n))) as [Hlt|]; [|lia].
      rewrite (testbit_high x (Z.of_nat (S n))) in E by lia. done.
    + apply IH. split; [lia|].
      replace (Z.of_nat n + 1) with (Z.of_nat (S n)) by lia.
      apply bits_bounded; [lia|lia|]. intros m Hm.
      destruct (decide (m = Z.of_nat (S n))) as [->|]; [done|].
      apply (testbit_high x (Z.of_nat (S n) + 1)); lia.
Qed.

Lemma bits_from_log2 p a :
  Forall is_u32 a -> (p <= length a)%nat ->
  Z.of_nat (bits_from p a) =
    if val (take p a) =? 0 then 0 else Z.log2 (val (take p a)) + 1.
Proof.
  intros Ha. induction p as [|p IH]; intros Hp; [done|].
  cbn [bits_from]. rewrite val_take_S by lia.
  pose proof (val_range _ (Forall_take _ p _ Ha)) as Hr.
  rewrite length_take, Nat.min_l in Hr by lia.
  pose proof (pn_u32 a p Ha) as Hu. unfold is_u32 in Hu.
  destruct (Z.eqb_spec (pn a p) 0) as [E|E].
  - rewrite E, Z.mul_0_r, Z.add_0_r. apply IH. lia.
  - assert (0 < limb_mod p) by auto.
    rewrite (proj2 (Z.eqb_neq _ _)) by nia.
    rewrite !Nat2Z.inj_add, Nat2Z.inj_mul, (limb_bits_log2 31) by lia.
    rewrite (log2_bounds (_ + _) (32 * Z.of_nat p + Z.log2 (pn a p))); [lia|..].
    { pose proof (Z.log2_nonneg (pn a p)). lia. }
    rewrite <- Z.add_assoc, !(Z.pow_add_r 2 (32 * _)) by (pose proof (Z.log2_nonneg (pn a p)); lia).
    change (2 ^ (32 * Z.of_nat p)) with (limb_mod p).
    pose proof (Z.log2_spec (pn a p)) as Hs. rewrite <- Z.add_1_r in Hs. nia.
Qed.

Lemma bits_log2 a :
  wf a -> Z.of_nat (bits a) = if val a =? 0 then 0 else Z.log2 (val a) + 1.
Proof.
  intros [Hl Ha]. unfold bits. rewrite bits_from_log2 by (auto; lia).
  by rewrite take_ge by lia.
Qed.

Lemma bits_pow a : wf a -> val a < 2 ^ Z.of_nat (bits a).
Proof.
  intros Ha. rewrite bits_log2 by done. pose proof (wf_val_range a Ha).
  destruct (Z.eqb_spec (val a) 0) as [->|]; [done|].
  rewrite Z.add_1_r. apply Z.log2_spec. lia.
Qed.

(** ** Bit-level characterisation and shifts *)

Lemma val_testbit a n :
  Forall is_u32 a -> 0 <= n ->
  Z.testbit (val a) n = Z.testbit (pn a (Z.to_nat (n / 32))) (n mod 32).
Proof.
  intros Ha. revert n. induction Ha as [|x a Hx Ha IH]; intros n Hn.
  { unfold pn. destruct (Z.to_nat _); simpl; by rewrite !Z.bits_0. }
  cbn [val]. unfold is_u32 in Hx. destruct (decide (n < 32)).
  - rewrite Z.div_small, Z.mod_small by lia. change (pn (x :: a) (Z.to_nat 0)) with x.
    rewrite <- (Z.mod_pow2_bits_low (x + _) 32) by lia.
    by rewrite Z.mul_comm, Z.mod_add, Z.mod_small by lia.
  - replace (Z.to_nat (n / 32)) with (S (Z.to_nat ((n - 32) / 32))) by zdm.
    replace (n mod 32) with ((n - 32) mod 32) by zdm.
    change (pn (x :: a) (S ?k)) with (pn a k). rewrite <- IH by lia.
    replace n with (n - 32 + 32) at 1 by lia. rewrite <- Z.shiftr_spec by lia.
    f_equal. rewrite Z.shiftr_div_pow2, Z.mul_comm, Z.div_add, Z.div_small by lia. lia.
Qed.

Lemma pn_insert a i j x :
  (i < length a)%nat -> pn (<[i := x]> a) j = if decide (i = j) then x else pn a j.
Proof.
  intros Hi. unfold pn. rewrite !nth_lookup. case_decide; subst.
  - by rewrite list_lookup_insert_eq.
  - by rewrite list_lookup_insert_ne.
Qed.

(** The contribution of limb [i'] to limb [j], once the loop has passed index [i]. *)
Definition lor_upto (c : bool) (i i' : nat) (x : Z) : Z :=
  if c && (i' <? i)%nat then x else 0.

Definition shl_limb (a : base_uint) (k s i j : nat) : Z :=
  Z.lor (lor_upto ((k + 1 <=? j)%nat && negb (s =? 0)%nat) i (j - k - 1)
           (Z.shiftr (pn a (j - k - 1)) (32 - Z.of_nat s)))
        (lor_upto (k <=? j)%nat i (j - k) (u32 (Z.shiftl (pn a (j - k)) (Z.of_nat s)))).

(** Evaluate the boolean guards of the shift loops. *)
Ltac guards :=
  repeat match goal with
  | |- context [(?x <? ?y)%nat] => destruct (Nat.ltb_spec x y)
  | |- context [(?x <=? ?y)%nat] => destruct (Nat.leb_spec x y)
  | |- context [(?x =? ?y)%nat] => destruct (Nat.eqb_spec x y)
  end; cbn [andb negb]; cbv zeta.

Lemma shl_step_limb a k s i r :
  length r = WIDTH -> (i < WIDTH)%nat ->
  (forall j, (j < WIDTH)%nat -> pn r j = shl_limb a k s i j) ->
  length (shl_step a k s i r) = WIDTH
  /\ forall j, (j < WIDTH)%nat -> pn (shl_step a k s i r) j = shl_limb a k s (S i) j.
Proof.
  intros Hl Hi Hr. unfold shl_step. cbv zeta. split.
  { guards; rewrite ?length_insert; done. }
  intros j Hj. specialize (Hr j Hj).
  destruct (decide (j = i + k)%nat) as [->|Hn1]; [|destruct (decide (j = i + k + 1)%nat) as [->|Hn2]].
  - revert Hr. unfold shl_limb, lor_upto.
    replace (i + k - k)%nat with i by lia.
    guards; try lia; rewrite ?pn_insert by (rewrite ?length_insert; lia);
      repeat case_decide; try lia; intros ->; by rewrite ?Z.lor_0_r.
  - revert Hr. unfold shl_limb, lor_upto.
    replace (i + k + 1 - k - 1)%nat with i by lia.
    guards; try lia; rewrite ?pn_insert by (rewrite ?length_insert; lia);
      repeat case_decide; try lia; intros ->; by rewrite ?Z.lor_0_r, ?Z.lor_0_l.
  - revert Hr. unfold shl_limb, lor_upto.
    guards; try lia; rewrite ?pn_insert by (rewrite ?length_insert; lia);
      repeat case_decide; try lia; intros ->; done.
Qed.

Lemma op_shl_limb a sh :
  length (op_shl a sh) = WIDTH /\
  forall j, (j < WIDTH)%nat -> pn (op_shl a sh) j = shl_limb a (sh / 32) (sh mod 32) WIDTH j.
Proof.
  unfold op_shl. apply (for_range_inv (fun i r => length r = WIDTH /\
    forall j, (j < WIDTH)%nat -> pn r j = shl_limb a (sh / 32) (sh mod 32) i j)).
  - split; [done|]. intros j Hj. unfold shl_limb, lor_upto.
    rewrite !andb_false_r, Z.lor_0_l. unfold pn, base_uint_zero.
    rewrite nth_lookup, lookup_replicate_2 by lia. done.
  - intros i r Hi [Hl Hr]. by apply shl_step_limb.
Qed.

Lemma u32_testbit x n : 0 <= n < 32 -> Z.testbit (u32 x) n = Z.testbit x n.
Proof. intros Hn. unfold u32. apply Z.mod_pow2_bits_low. lia. Qed.

Lemma u32_bits_high x n : is_u32 x -> 32 <= n -> Z.testbit x n = false.
Proof. intros Hx Hn. by apply (testbit_high x 32). Qed.

Lemma lor_u32 x y : is_u32 x -> is_u32 y -> is_u32 (Z.lor x y).
Proof.
  intros Hx Hy. unfold is_u32 in *. split; [apply Z.lor_nonneg; lia|].
  apply bits_bounded; [lia|apply Z.lor_nonneg; lia|]. intros m Hm.
  by rewrite Z.lor_spec, !(u32_bits_high _ m).
Qed.

Lemma shiftr_u32 x n : is_u32 x -> 0 <= n -> is_u32 (Z.shiftr x n).
Proof.
  intros Hx Hn. unfold is_u32 in *. rewrite Z.shiftr_div_pow2 by lia.
  split; [apply Z.div_pos; lia|]. apply Z.div_lt_upper_bound; [lia|]. nia.
Qed.

#[local] Hint Resolve lor_u32 shiftr_u32 pn_u32 u32_range : core.

Lemma lor_upto_u32 c i i' x : is_u32 x -> is_u32 (lor_upto c i i' x).
Proof. intros Hx. unfold lor_upto. destruct (_ && _); [done|width]. Qed.

#[local] Hint Resolve lor_upto_u32 : core.

Lemma Forall_pn a : length a = WIDTH ->
  (forall j, (j < WIDTH)%nat -> is_u32 (pn a j)) -> wf a.
Proof.
  intros Hl H. split; [done|]. apply Forall_lookup. intros i x Hx.
  pose proof (lookup_lt_Some _ _ _ Hx). specialize (H i). unfold pn in H.
  rewrite (nth_lookup_Some _ _ _ _ Hx) in H. apply H. lia.
Qed.

Lemma op_shl_wf a sh : wf a -> wf (op_shl a sh).
Proof.
  intros [_ Ha]. destruct (op_shl_limb a sh) as [Hl Hj]. apply Forall_pn; [done|].
  intros j Hlt. rewrite Hj by done. unfold shl_limb.
  assert (sh mod 32 < 32)%nat by (apply Nat.mod_upper_bound; lia).
  apply lor_u32; apply lor_upto_u32; auto. apply shiftr_u32; auto. lia.
Qed.

Lemma lor_upto_testbit c i i' x m :
  Z.testbit (lor_upto c i i' x) m = c && (i' <? i)%nat && Z.testbit x m.
Proof. unfold lor_upto. destruct (_ && _); by rewrite ?Z.bits_0. Qed.

(** The shift amount split by [k = shift / 32] and [shift = shift % 32]. *)
Lemma shift_split sh :
  Z.of_nat sh = 32 * Z.of_nat (sh / 32) + Z.of_nat (sh mod 32) /\ (sh mod 32 < 32)%nat.
Proof.
  pose proof (Nat.div_mod_eq sh 32). pose proof (Nat.mod_upper_bound sh 32). lia.
Qed.

Lemma op_shl_val a sh :
  wf a -> val (op_shl a sh) = (val a * 2 ^ Z.of_nat sh) mod 2 ^ 256.
Proof.
  intros Ha. pose proof (op_shl_wf a sh Ha) as [_ Hs]. destruct Ha as [Hl Ha].
  destruct (op_shl_limb a sh) as [_ Hj]. destruct (shift_split sh) as [Hsh Hlt].
  rewrite <- Z.shiftl_mul_pow2 by lia. apply Z.bits_inj'. intros n Hn.
  rewrite val_testbit by done. destruct (decide (256 <= n)).
  { rewrite Z.mod_pow2_bits_high by lia. unfold pn.
    rewrite nth_overflow; [by rewrite Z.bits_0|]. destruct (op_shl_limb a sh) as [-> _].
    unfold WIDTH. zdm. }
  rewrite Z.mod_pow2_bits_low, Z.shiftl_spec by lia.
  rewrite Hj by (unfold WIDTH; zdm). unfold shl_limb.
  set (k := (sh / 32)%nat) in *. set (s0 := (sh mod 32)%nat) in *.
  set (j := Z.to_nat (n / 32)). assert (n = 32 * Z.of_nat j + n mod 32) as Hnj by (subst j; zdm).
  assert (0 <= n mod 32 < 32) as Hm by zdm. set (m := n mod 32) in *.
  assert (j < WIDTH)%nat as HjW by (unfold WIDTH; lia).
  rewrite Z.lor_spec, !lor_upto_testbit, u32_testbit, Z.shiftr_spec, Z.shiftl_spec by lia.
  destruct (decide (n < Z.of_nat sh)) as [Hneg|Hpos].
  { rewrite (Z.testbit_neg_r (val a)) by lia. guards; cbn [orb]; try done; try lia.
    rewrite Z.testbit_neg_r by lia. done. }
  rewrite val_testbit by (done || lia).
  destruct (decide (m < Z.of_nat s0)).
  - rewrite (Z.testbit_neg_r _ (m - _)), andb_false_r, orb_false_r by lia.
    replace (Z.to_nat ((n - Z.of_nat sh) / 32)) with (j - k - 1)%nat by zdm.
    replace ((n - Z.of_nat sh) mod 32) with (m + (32 - Z.of_nat s0)) by zdm.
    guards; try lia. done.
  - rewrite (u32_bits_high _ (m + _)), andb_false_r, orb_false_l by (auto; lia).
    replace (Z.to_nat ((n - Z.of_nat sh) / 32)) with (j - k)%nat by zdm.
    replace ((n - Z.of_nat sh) mod 32) with (m - Z.of_nat s0) by zdm.
    guards; try lia. done.
Qed.

Definition shr_limb (a : base_uint) (k s i j : nat) : Z :=
  Z.lor (lor_upto (j + k + 1 <? WIDTH)%nat i (j + k + 1)
           (if (s =? 0)%nat then 0 else u32 (Z.shiftl (pn a (j + k + 1)) (32 - Z.of_nat s))))
        (lor_upto (j + k <? WIDTH)%nat i (j + k) (Z.shiftr (pn a (j + k)) (Z.of_nat s))).

Lemma shr_step_limb a k s i r :
  length r = WIDTH -> (i < WIDTH)%nat ->
  (forall j, (j < WIDTH)%nat -> pn r j = shr_limb a k s i j) ->
  length (shr_step a k s i r) = WIDTH
  /\ forall j, (j < WIDTH)%nat -> pn (shr_step a k s i r) j = shr_limb a k s (S i) j.
Proof.
  intros Hl Hi Hr. unfold shr_step. cbv zeta. split.
  { guards; rewrite ?length_insert; done. }
  intros j Hj. specialize (Hr j Hj).
  destruct (decide (i = j + k)%nat) as [->|Hn1]; [|destruct (decide (i = j + k + 1)%nat) as [->|Hn2]].
  - revert Hr. unfold shr_limb, lor_upto.
    replace (j + k - k)%nat with j by lia.
    guards; try lia; rewrite ?pn_insert by (rewrite ?length_insert; lia);
      repeat case_decide; try lia; intros ->; by rewrite ?Z.lor_0_r, ?Z.lor_0_l.
  - revert Hr. unfold shr_limb, lor_upto.
    replace (j + k + 1 - k - 1)%nat with j by lia.
    guards; try lia; rewrite ?pn_insert by (rewrite ?length_insert; lia);
      repeat case_decide; try lia; intros ->; rewrite ?Z.lor_0_r, ?Z.lor_0_l; try done.
    apply Z.lor_comm.
  - revert Hr. unfold shr_limb, lor_upto.
    guards; try lia; rewrite ?pn_insert by (rewrite ?length_insert; lia);
      repeat case_decide; try lia; intros ->; done.
Qed.

Lemma op_shr_limb a sh :
  length (op_shr a sh) = WIDTH /\
  forall j, (j < WIDTH)%nat -> pn (op_shr a sh) j = shr_limb a (sh / 32) (sh mod 32) WIDTH j.
Proof.
  unfold op_shr. apply (for_range_inv (fun i r => length r = WIDTH /\
    forall j, (j < WIDTH)%nat -> pn r j = shr_limb a (sh / 32) (sh mod 32) i j)).
  - split; [done|]. intros j Hj. unfold shr_limb, lor_upto.
    rewrite !andb_false_r, Z.lor_0_l. unfold pn, base_uint_zero.
    rewrite nth_lookup, lookup_replicate_2 by lia. done.
  - intros i r Hi [Hl Hr]. by apply shr_step_limb.
Qed.

Lemma op_shr_wf a sh : wf a -> wf (op_shr a sh).
Proof.
  intros [_ Ha]. destruct (op_shr_limb a sh) as [Hl Hj]. apply Forall_pn; [done|].
  intros j Hlt. rewrite Hj by done. unfold shr_limb.
  destruct (shift_split sh).
  apply lor_u32; apply lor_upto_u32; auto; [destruct (_ =? _)%nat; [width|done]|].
  apply shiftr_u32; auto. lia.
Qed.

Lemma op_shr_val a sh : wf a -> val (op_shr a sh) = val a / 2 ^ Z.of_nat sh.
Proof.
  intros Ha. pose proof (op_shr_wf a sh Ha) as [_ Hs]. pose proof (wf_val_range a Ha).
  destruct Ha as [Hl Ha].
  destruct (op_shr_limb a sh) as [Hls Hj]. destruct (shift_split sh) as [Hsh Hlt].
  rewrite <- Z.shiftr_div_pow2 by lia. apply Z.bits_inj'. intros n Hn.
  rewrite val_testbit by done. destruct (decide (256 <= n)).
  { rewrite Z.shiftr_spec, (testbit_high (val a) 256) by lia. unfold pn.
    rewrite nth_overflow; [by rewrite Z.bits_0|]. rewrite Hls. unfold WIDTH. zdm. }
  rewrite Z.shiftr_spec by lia.
  rewrite Hj by (unfold WIDTH; zdm). unfold shr_limb.
  set (k := (sh / 32)%nat) in *. set (s0 := (sh mod 32)%nat) in *.
  set (j := Z.to_nat (n / 32)). assert (n = 32 * Z.of_nat j + n mod 32) as Hnj by (subst j; zdm).
  assert (0 <= n mod 32 < 32) as Hm by zdm. set (m := n mod 32) in *.
  assert (j < WIDTH)%nat as HjW by (unfold WIDTH; lia).
  rewrite Z.lor_spec, !lor_upto_testbit, Z.shiftr_spec by lia.
  rewrite val_testbit by (done || lia).
  destruct (decide (m + Z.of_nat s0 < 32)).
  - replace (Z.to_nat ((n + Z.of_nat sh) / 32)) with (j + k)%nat by zdm.
    replace ((n + Z.of_nat sh) mod 32) with (m + Z.of_nat s0) by zdm.
    assert (Z.testbit (if (s0 =? 0)%nat then 0
              else u32 (pn a (j + k + 1) ≪ (32 - Z.of_nat s0))) m = false) as ->.
    { destruct (_ =? _)%nat; [by rewrite Z.bits_0|].
      rewrite u32_testbit, Z.shiftl_spec, Z.testbit_neg_r by lia. done. }
    rewrite andb_false_r, orb_false_l. guards; try lia; try done.
    unfold pn. rewrite nth_overflow by lia. by rewrite Z.bits_0.
  - replace (Z.to_nat ((n + Z.of_nat sh) / 32)) with (j + k + 1)%nat by zdm.
    replace ((n + Z.of_nat sh) mod 32) with (m - (32 - Z.of_nat s0)) by zdm.
    rewrite (u32_bits_high _ (m + _)), andb_false_r, orb_false_r by (auto; lia).
    rewrite (proj2 (Nat.eqb_neq s0 0)) by lia.
    rewrite u32_testbit, Z.shiftl_spec by lia. guards; try lia; try done.
    unfold pn. rewrite nth_overflow by lia. by rewrite Z.bits_0.
Qed.

(** ** Division *)

Lemma set_bit_val q k :
  wf q -> (k < 256)%nat -> Z.testbit (val q) (Z.of_nat k) = false ->
  let q' := <[(k / 32)%nat := Z.lor (pn q (k / 32)) (Z.shiftl 1 (Z.of_nat (k mod 32)))]> q in
  wf q' /\ val q' = val q + 2 ^ Z.of_nat k.
Proof.
  intros [Hl Hq] Hk Hbit q'. destruct (shift_split k) as [Hsk Hlt].
  assert (k / 32 < WIDTH)%nat as Hk32 by (unfold WIDTH; lia).
  assert (is_u32 (Z.shiftl 1 (Z.of_nat (k mod 32)))) as Hone.
  { rewrite Z.shiftl_1_l. unfold is_u32. split; [lia|]. apply Z.pow_lt_mono_r; lia. }
  assert (wf q') as Hw.
  { apply Forall_pn; [unfold q'; by rewrite length_insert|]. intros j Hj.
    unfold q'. rewrite pn_insert by lia. case_decide; auto. }
  split; [done|]. destruct Hw as [_ Hw].
  rewrite Z.add_nocarry_lxor, Z.lxor_lor.
  2,3: apply Z.bits_inj'; intros m Hm; rewrite Z.land_spec, Z.bits_0, Z.pow2_bits_eqb by lia;
       destruct (Z.eqb_spec (Z.of_nat k) m) as [<-|]; [by rewrite Hbit|by rewrite andb_false_r].
  apply Z.bits_inj'. intros m Hm.
  rewrite val_testbit, Z.lor_spec, Z.pow2_bits_eqb, (val_testbit q) by (done || lia).
  unfold q'. rewrite pn_insert by lia. case_decide as Hd.
  - rewrite Z.lor_spec, Z.shiftl_1_l, Z.pow2_bits_eqb, <- Hd by lia. f_equal.
    destruct (Z.eqb_spec (Z.of_nat k) m); destruct (Z.eqb_spec (Z.of_nat (k mod 32)) (m mod 32));
      try done; exfalso; zdm.
  - rewrite (proj2 (Z.eqb_neq _ _)); [by rewrite orb_false_r|]. intros <-. zdm.
Qed.

Lemma mod_pow2_bit q k : 0 <= k -> q mod 2 ^ (k + 1) = 0 -> Z.testbit q k = false.
Proof.
  intros Hk Hq. rewrite <- (Z.mod_pow2_bits_low q (k + 1)) by lia. by rewrite Hq, Z.bits_0.
Qed.

Lemma mod_pow2_weaken q k : 0 <= k -> q mod 2 ^ (k + 1) = 0 -> q mod 2 ^ k = 0.
Proof.
  intros Hk Hq. apply Z.mod_divide in Hq; [|lia]. apply Z.mod_divide; [lia|].
  destruct Hq as [z ->]. exists (z * 2). rewrite Z.pow_add_r by lia. ring.
Qed.

Lemma div_loop_val b n : forall num div q,
  wf num -> wf div -> wf q -> 0 < b -> (n <= 256)%nat ->
  (forall k, n = S k -> val div = b * 2 ^ Z.of_nat k) ->
  val num < b * 2 ^ Z.of_nat n -> val q mod 2 ^ Z.of_nat n = 0 ->
  wf (fst (div_loop n num div q)) /\ wf (snd (div_loop n num div q)) /\
  val (fst (div_loop n num div q)) = val q + val num / b /\
  val (snd (div_loop n num div q)) = val num mod b.
Proof.
  induction n as [|k IH]; intros num div q Hnum Hdiv Hq Hb Hn Hd Hlt Hz.
  { simpl in *. pose proof (wf_val_range num Hnum).
    rewrite Z.div_small, Z.mod_small by lia. auto with lia. }
  specialize (Hd k eq_refl). cbn [div_loop]. rewrite op_ge_val by done.
  replace (Z.of_nat (S k)) with (Z.of_nat k + 1) in Hlt, Hz by lia.
  pose proof (wf_val_range num Hnum). pose proof (Z.pow_pos_nonneg 2 (Z.of_nat k)).
  assert (forall j, k = S j -> val (op_shr div 1) = b * 2 ^ Z.of_nat j) as Hd'.
  { intros j ->. rewrite op_shr_val, Hd by done. change (2 ^ Z.of_nat 1) with 2.
    rewrite Nat2Z.inj_succ, Z.pow_succ_r by lia.
    replace (b * (2 * 2 ^ Z.of_nat j)) with (b * 2 ^ Z.of_nat j * 2) by ring.
    by rewrite Z.div_mul. }
  rewrite Z.pow_add_r in Hlt by lia. change (2 ^ 1) with 2 in Hlt.
  destruct (Z.leb_spec (val div) (val num)) as [Hge|Hge].
  - destruct (op_sub_val num div Hnum Hdiv) as [Hsw Hsv].
    rewrite Z.mod_small in Hsv by (rewrite Hd in *; nia).
    destruct (set_bit_val q k Hq) as [Hqw Hqv]; [lia|apply mod_pow2_bit; [lia|done]|].
    destruct (IH (op_sub num div) (op_shr div 1) _ Hsw (op_shr_wf _ 1 Hdiv) Hqw Hb)
      as (H1 & H2 & H3 & H4); [lia|done|rewrite Hsv; lia| |].
    { rewrite Hqv, Z.add_mod, (mod_pow2_weaken (val q) (Z.of_nat k)), Z.mod_same by (done || lia). done. }
    split_and!; [done..| |].
    + rewrite H3, Hqv, Hsv, Hd.
      replace (val num - b * 2 ^ Z.of_nat k) with (val num + (- 2 ^ Z.of_nat k) * b) by ring.
      rewrite Z.div_add by lia. lia.
    + rewrite H4, Hsv, Hd.
      replace (val num - b * 2 ^ Z.of_nat k) with (val num + (- 2 ^ Z.of_nat k) * b) by ring.
      by rewrite Z.mod_add by lia.
  - apply IH; auto using op_shr_wf, mod_pow2_weaken with lia.
Qed.

Lemma bits_zero_iff a : wf a -> bits a = 0%nat <-> val a = 0.
Proof.
  intros Ha. pose proof (bits_log2 a Ha). pose proof (wf_val_range a Ha).
  destruct (Z.eqb_spec (val a) 0); [lia|]. pose proof (Z.log2_nonneg (val a)). lia.
Qed.

Lemma bits_lower a : wf a -> val a <> 0 -> 2 ^ (Z.of_nat (bits a) - 1) <= val a.
Proof.
  intros Ha Hz. rewrite bits_log2 by done. rewrite (proj2 (Z.eqb_neq _ _)) by done.
  pose proof (wf_val_range a Ha). rewrite Z.add_simpl_r. apply Z.log2_spec. lia.
Qed.

Lemma bits_le_256 a : wf a -> (bits a <= 256)%nat.
Proof.
  intros Ha. pose proof (bits_log2 a Ha) as H. pose proof (wf_val_range a Ha).
  destruct (Z.eqb_spec (val a) 0); [lia|].
  assert (Z.log2 (val a) < 256) by (apply Z.log2_lt_pow2; lia). lia.
Qed.

Lemma op_div_zero a b : wf b -> val b = 0 -> op_div a b = None.
Proof.
  intros Hb Hz. apply bits_zero_iff in Hz; [|done]. unfold op_div. by rewrite Hz.
Qed.

Lemma op_div_val a b :
  wf a -> wf b -> val b <> 0 ->
  exists q, op_div a b = Some q /\ wf q /\ val q = val a / val b.
Proof.
  intros Ha Hb Hz. unfold op_div.
  destruct (Nat.eqb_spec (bits b) 0) as [E|E]; [by apply bits_zero_iff in E|].
  pose proof (bits_lower b Hb Hz) as Hlo. pose proof (bits_pow b Hb) as Hhi.
  pose proof (bits_pow a Ha) as Hna. pose proof (bits_le_256 a Ha).
  pose proof (wf_val_range a Ha). pose proof (wf_val_range b Hb).
  destruct (Nat.ltb_spec (bits a) (bits b)) as [Hlt|Hge].
  { eexists; split_and!; [done|apply wf_zero|]. rewrite Z.div_small; [done|].
    assert (2 ^ Z.of_nat (bits a) <= 2 ^ (Z.of_nat (bits b) - 1)) by (apply Z.pow_le_mono_r; lia).
    lia. }
  set (sh := (bits a - bits b)%nat). eexists; split; [done|].
  assert (val (op_shl b sh) = val b * 2 ^ Z.of_nat sh) as Hshl.
  { rewrite op_shl_val by done. apply Z.mod_small. split; [lia|].
    apply Z.lt_le_trans with (2 ^ Z.of_nat (bits b) * 2 ^ Z.of_nat sh); [nia|].
    rewrite <- Z.pow_add_r by lia. apply Z.pow_le_mono_r; lia. }
  destruct (div_loop_val (val b) (S sh) a (op_shl b sh) base_uint_zero)
    as (Hqw & _ & Hqv & _); auto using op_shl_wf, wf_zero; try lia.
  - intros k [= <-]. done.
  - replace (Z.of_nat (S sh)) with (1 + Z.of_nat sh) by lia.
    apply Z.lt_le_trans with (1 := Hna).
    replace (Z.of_nat (bits a)) with (Z.of_nat (bits b) - 1 + (1 + Z.of_nat sh)) by lia.
    rewrite Z.pow_add_r by lia. apply Z.mul_le_mono_nonneg_r; lia.
Qed.

Lemma val_inj a b :
  Forall is_u32 a -> Forall is_u32 b -> length a = length b -> val a = val b -> a = b.
Proof.
  intros Ha. revert b. induction Ha as [|x a Hx Ha IH]; intros [|y b] Hb Hl Hv; try done.
  inversion_clear Hb. cbn [val] in Hv. unfold is_u32 in *.
  pose proof (val_range a Ha). pose proof (val_range b ltac:(done)).
  assert (x = y) as -> by zdm. f_equal. apply IH; [done|simpl in Hl; lia|lia].
Qed.

Lemma wf_val_inj a b : wf a -> wf b -> val a = val b -> a = b.
Proof. intros [Hla Ha] [Hlb Hb]. apply val_inj; auto. congruence. Qed.

(** ** Properties *)

(** The limb loops of [+], [-], [*] and unary [-] implement arithmetic
    modulo 2^256: on well-formed arrays they produce a well-formed array whose
    value is the exact result reduced modulo 2^256. *)
Lemma arith256_ring (a b : base_uint) (Ha : wf a) (Hb : wf b) :
  (wf (op_add a b) /\ val (op_add a b) = (val a + val b) mod 2 ^ 256) /\
  (wf (op_sub a b) /\ val (op_sub a b) = (val a - val b) mod 2 ^ 256) /\
  (wf (op_mul a b) /\ val (op_mul a b) = (val a * val b) mod 2 ^ 256) /\
  (wf (op_neg a) /\ val (op_neg a) = (- val a) mod 2 ^ 256).
Proof.
  split_and!; auto using op_add_wf, op_add_val;
    first [apply op_sub_val|apply op_mul_val|apply op_neg_val]; done.
Qed.

Lemma arith256_ring_witness :
  let a := base_uint_of_u64 0xffffffffffffffff in
  val (op_mul a a) = (val a * val a) mod 2 ^ 256.
Proof.
  intros a.
  assert (wf a) as Ha
    by (split; [reflexivity|repeat constructor; vm_compute; intuition discriminate]).
  destruct (arith256_ring a a Ha Ha) as (_ & _ & [_ H] & _). exact H.
Defined.

(** Shift-and-subtract division raises the error exactly on a zero divisor
    and otherwise computes the floor quotient; the comparison operators agree
    with the order of the values. *)
Lemma arith256_div (a b : base_uint) (Ha : wf a) (Hb : wf b) :
  (op_div a b = None <-> val b = 0) /\
  (forall q, op_div a b = Some q -> wf q /\ val q = val a / val b) /\
  CompareTo a b = sign_of (val a ?= val b).
Proof.
  split_and!; [|intros q Hq|by apply CompareTo_val].
  - split; [|by apply op_div_zero]. intros HN.
    destruct (decide (val b = 0)) as [|Hz]; [done|].
    destruct (op_div_val a b Ha Hb Hz) as (q & Hq & _). congruence.
  - destruct (decide (val b = 0)) as [Hz|Hz].
    + rewrite (op_div_zero a b Hb Hz) in Hq. done.
    + destruct (op_div_val a b Ha Hb Hz) as (q' & Hq' & Hw & Hv).
      rewrite Hq in Hq'. injection Hq' as ->. done.
Qed.

Lemma arith256_div_witness :
  let a := op_shl (base_uint_of_u64 0x123456789abcdef) 100 in
  let b := base_uint_of_u64 1000003 in
  exists q, op_div a b = Some q /\ wf q /\ val q = val a / val b.
Proof.
  intros a b.
  assert (wf a) as Ha
    by (split; [reflexivity|repeat constructor; vm_compute; intuition discriminate]).
  assert (wf b) as Hb
    by (split; [reflexivity|repeat constructor; vm_compute; intuition discriminate]).
  destruct (arith256_div a b Ha Hb) as (_ & H & _).
  destruct (op_div a b) as [q|] eqn:E.
  - exists q. split; [reflexivity|apply (H q eq_refl)].
  - exfalso. revert E. vm_compute. discriminate.
Defined.

End Arith256.
