(* ===== verification/Compact.v ===== *)
(** * The compact difficulty format (src/arith_uint256.cpp, SetCompact / GetCompact)

    Properties of the 32-bit floating format in which block headers carry
    their target: what [SetCompact] decodes, when its flags are raised, and how
    [GetCompact] and [SetCompact] round-trip. *)

From stdpp Require Import base list list_numbers numbers.
From Stdlib Require Import ZArith Lia.
From S2P Require Import Prelude Bytes ArithUint256.
Import Arith256.

Module Compact.

(** ** The compact (nBits) format *)

Lemma lor_disjoint_add x y n :
  0 <= n -> 0 <= x < 2 ^ n -> Z.lor x (Z.shiftl y n) = x + 2 ^ n * y.
Proof.
  intros Hn Hx. rewrite Z.shiftl_mul_pow2 by lia.
  rewrite (Z.mul_comm (2 ^ n)), Z.add_nocarry_lxor, Z.lxor_lor; [done|..];
  apply Z.bits_inj'; intros m Hm; rewrite Z.land_spec, Z.bits_0;
  (destruct (decide (m < n));
   [rewrite (Z.mul_pow2_bits_low y) by lia; apply andb_false_r
   |rewrite (testbit_high x n) by lia; done]).
Qed.

Lemma GetLow64_val a : wf a -> GetLow64 a = val a mod 2 ^ 64.
Proof.
  intros Ha. destruct Ha as [Hl Ha]. unfold GetLow64.
  rewrite (val_split a 2), !val_take_S by (rewrite Hl; unfold WIDTH; lia).
  pose proof (pn_u32 a 0 Ha) as H0. pose proof (pn_u32 a 1 Ha) as H1. unfold is_u32 in *.
  rewrite lor_disjoint_add by lia. change (limb_mod 2) with (2 ^ 64).
  change (limb_mod 1) with (2 ^ 32). change (limb_mod 0) with 1. change (val (take 0 a)) with 0.
  rewrite (Z.mul_comm (2 ^ 64)), Z.mod_add by lia. rewrite Z.mod_small; lia.
Qed.

Lemma land_mask x n : 0 <= n -> Z.land x (2 ^ n - 1) = x mod 2 ^ n.
Proof. intros Hn. rewrite <- Z.land_ones by lia. by rewrite Z.ones_equiv, Z.sub_1_r. Qed.

(** Mantissa and exponent fields of a compact number. *)
Definition compact_size (c : Z) : Z := c / 2 ^ 24.
Definition compact_word (c : Z) : Z := c mod 2 ^ 23.

(** The number a compact encoding stands for, as an exact integer. *)
Definition compact_value (c : Z) : Z :=
  if compact_size c <=? 3 then compact_word c / 256 ^ (3 - compact_size c)
  else compact_word c * 256 ^ (compact_size c - 3).

Lemma compact_fields c :
  is_u32 c ->
  Z.shiftr c 24 = compact_size c /\ Z.land c 0x007fffff = compact_word c /\
  0 <= compact_size c < 256 /\ 0 <= compact_word c < 2 ^ 23.
Proof.
  intros Hc. unfold compact_size, compact_word, is_u32 in *.
  rewrite Z.shiftr_div_pow2 by lia. change 0x007fffff with (2 ^ 23 - 1).
  rewrite land_mask by lia. repeat split; zdm.
Qed.

Lemma pow256 n : 0 <= n -> 256 ^ n = 2 ^ (8 * n).
Proof. intros Hn. change 256 with (2 ^ 8). by rewrite <- Z.pow_mul_r by lia. Qed.

Lemma SetCompact_value c :
  is_u32 c ->
  let '(v, _, fOverflow) := SetCompact c in
  wf v /\ val v = compact_value c mod 2 ^ 256 /\
  (compact_size c <= 3 -> fOverflow = false).
Proof.
  intros Hc. destruct (compact_fields c Hc) as (H1 & H2 & Hs & Hw).
  unfold SetCompact. rewrite H1, H2. unfold compact_value.
  destruct (Z.leb_spec (compact_size c) 3) as [Hle|Hgt].
  - rewrite (proj2 (Nat.leb_le _ _)) by lia. rewrite Z2Nat.id by lia.
    assert (0 <= compact_word c / 256 ^ (3 - compact_size c) < 2 ^ 23) as Hq.
    { pose proof (Z.pow_pos_nonneg 256 (3 - compact_size c)).
      split; [apply Z.div_pos; lia|]. apply Z.div_lt_upper_bound; nia. }
    rewrite Z.shiftr_div_pow2, <- pow256 by lia.
    destruct (of_u64_val (compact_word c / 256 ^ (3 - compact_size c))) as [Hwf Hv]; [unfold is_u64; lia|].
    split_and!; [done|rewrite Z.mod_small; lia|]. intros _.
    destruct (negb _); [|done]. guards; try lia; by rewrite ?andb_false_r.
  - rewrite (proj2 (Nat.leb_gt _ _)) by lia.
    destruct (of_u64_val (compact_word c)) as [Hwf Hv]; [unfold is_u64; lia|].
    split_and!; [by apply op_shl_wf| |lia]. rewrite op_shl_val, Hv by done.
    do 2 f_equal. rewrite pow256 by lia. f_equal. lia.
Qed.

Lemma pow_bound x n k : 0 <= x < 2 ^ k -> 0 <= n -> 0 <= k -> x * 2 ^ n < 2 ^ (k + n).
Proof. intros Hx Hn Hk. rewrite Z.pow_add_r by lia. pose proof (Z.pow_pos_nonneg 2 n). nia. Qed.

Lemma pow_lower x n k : 2 ^ k <= x -> 0 <= n -> 0 <= k -> 2 ^ (k + n) <= x * 2 ^ n.
Proof. intros Hx Hn Hk. rewrite Z.pow_add_r by lia. pose proof (Z.pow_pos_nonneg 2 n). nia. Qed.

Lemma SetCompact_overflow c v fN fO :
  is_u32 c -> SetCompact c = (v, fN, fO) -> fO = (2 ^ 256 <=? compact_value c).
Proof.
  intros Hc E. pose proof (SetCompact_value c Hc) as Hv. rewrite E in Hv.
  destruct Hv as (_ & _ & Hsmall).
  destruct (compact_fields c Hc) as (H1 & H2 & Hs & Hw). unfold compact_value.
  destruct (Z.leb_spec (compact_size c) 3) as [Hle|Hgt].
  { rewrite Hsmall by done. symmetry. apply Z.leb_gt.
    pose proof (Z.pow_pos_nonneg 256 (3 - compact_size c)).
    apply Z.div_lt_upper_bound; [lia|]. nia. }
  unfold SetCompact in E. rewrite H1, H2 in E.
  rewrite (proj2 (Nat.leb_gt _ _)) in E by lia. injection E as _ _ <-.
  rewrite pow256 by lia. set (w := compact_word c) in *. set (z := compact_size c) in *.
  destruct (Z.eqb_spec w 0) as [->|Hw0]; [by rewrite Z.mul_0_l|]. cbn [negb andb].
  symmetry. assert (2 ^ 0 <= w) by lia.
  destruct (decide (34 < z)).
  { rewrite (proj2 (Nat.ltb_lt _ _)) by lia. apply Z.leb_le.
    pose proof (pow_lower w (8 * (z - 3)) 0).
    assert (2 ^ 256 <= 2 ^ (0 + 8 * (z - 3))) by (apply Z.pow_le_mono_r; lia). lia. }
  rewrite (proj2 (Nat.ltb_ge 34 _)) by lia. cbn [orb]. rewrite !Z.gtb_ltb.
  destruct (decide (z = 34)) as [->|]; [|destruct (decide (z = 33)) as [->|]].
  - simpl (_ <? _)%nat. rewrite !andb_true_r.
    change (8 * (34 - 3)) with 248.
    destruct (Z.ltb_spec 0xff w); destruct (Z.ltb_spec 0xffff w); cbn [orb];
      rewrite ?Z.leb_le, ?Z.leb_gt; lia.
  - simpl (_ <? _)%nat. rewrite !andb_true_r, !andb_false_r.
    change (8 * (33 - 3)) with 240.
    destruct (Z.ltb_spec 0xffff w); cbn [orb]; rewrite ?Z.leb_le, ?Z.leb_gt; lia.
  - rewrite (proj2 (Nat.ltb_ge 33 _)), (proj2 (Nat.ltb_ge 32 _)), !andb_false_r by lia.
    apply Z.leb_gt. apply Z.lt_le_trans with (2 ^ (23 + 8 * (z - 3))).
    + apply pow_bound; lia.
    + apply Z.pow_le_mono_r; lia.
Qed.

(** The scaled value [val a * 256^(3 - size)], rounded down. *)
Definition scaled (v size : Z) : Z :=
  if size <=? 3 then v * 256 ^ (3 - size) else v / 256 ^ (size - 3).

Lemma scaled_succ v size :
  0 <= size -> scaled v (size + 1) = scaled v size / 256.
Proof.
  intros Hs. unfold scaled.
  destruct (Z.leb_spec (size + 1) 3), (Z.leb_spec size 3); try lia.
  - replace (3 - size) with (3 - (size + 1) + 1) by lia.
    rewrite (Z.pow_add_r 256 (3 - (size + 1)) 1), Z.mul_assoc by lia. change (256 ^ 1) with 256.
    by rewrite Z.div_mul.
  - assert (size = 3) as -> by lia. change (256 ^ (3 - 3)) with 1. by rewrite Z.mul_1_r.
  - replace (size + 1 - 3) with (size - 3 + 1) by lia.
    rewrite (Z.pow_add_r 256 (size - 3) 1) by lia. change (256 ^ 1) with 256.
    rewrite Z.div_div; [done|lia|lia].
Qed.

Lemma scaled_bound v size : 0 <= v < 256 ^ size -> 0 <= size -> 0 <= scaled v size < 2 ^ 24.
Proof.
  intros Hv Hs. unfold scaled. destruct (Z.leb_spec size 3).
  - pose proof (Z.pow_pos_nonneg 256 (3 - size)). split; [nia|].
    apply Z.lt_le_trans with (256 ^ size * 256 ^ (3 - size)); [nia|].
    rewrite <- Z.pow_add_r by lia. replace (size + (3 - size)) with 3 by lia. done.
  - split; [apply Z.div_pos; lia|]. apply Z.div_lt_upper_bound; [lia|].
    change (2 ^ 24) with (256 ^ 3). rewrite <- Z.pow_add_r by lia.
    replace (size - 3 + 3) with size by lia. lia.
Qed.

Lemma bit23 x : 0 <= x < 2 ^ 24 -> (Z.land x 0x00800000 =? 0) = (x <? 2 ^ 23).
Proof.
  intros Hx. change 0x00800000 with (Z.shiftl 1 23). rewrite land_pow2_testbit by lia.
  destruct (Z.ltb_spec x (2 ^ 23)).
  - by rewrite (testbit_high x 23) by lia.
  - destruct (Z.testbit x 23) eqn:E; [done|]. exfalso.
    assert (x < 2 ^ 23); [|lia]. apply bits_bounded; [lia..|]. intros m Hm.
    destruct (decide (m = 23)) as [->|]; [done|]. apply (testbit_high x 24); lia.
Qed.

Lemma high_mask_zero x : 0 <= x < 2 ^ 23 -> Z.land x (u32 (Z.lnot 0x007fffff)) = 0.
Proof.
  intros Hx. change (u32 (Z.lnot 0x007fffff)) with (Z.shiftl (2 ^ 9 - 1) 23).
  apply Z.bits_inj'. intros m Hm. rewrite Z.land_spec, Z.bits_0.
  destruct (decide (m < 23)).
  - rewrite Z.shiftl_spec, (Z.testbit_neg_r _ (m - 23)) by lia. apply andb_false_r.
  - by rewrite (testbit_high x 23) by lia.
Qed.

(** The number of significant bytes [(bits() + 7) / 8]. *)
Definition byte_size (a : base_uint) : nat := ((bits a + 7) / 8)%nat.

Lemma byte_size_spec a :
  wf a -> (bits a <= 8 * byte_size a)%nat /\ (8 * byte_size a <= bits a + 7)%nat
          /\ (byte_size a <= 32)%nat /\ val a < 256 ^ Z.of_nat (byte_size a).
Proof.
  intros Ha. pose proof (bits_pow a Ha) as Hp. pose proof (bits_le_256 a Ha) as Hb.
  pose proof (Nat.div_mod_eq (bits a + 7) 8). pose proof (Nat.mod_upper_bound (bits a + 7) 8).
  unfold byte_size. split_and!; try lia.
  rewrite pow256 by lia. apply Z.lt_le_trans with (1 := Hp). apply Z.pow_le_mono_r; lia.
Qed.

(** The three leading bytes, as first extracted by [GetCompact]. *)
Lemma leading_bytes a :
  wf a ->
  (if (byte_size a <=? 3)%nat
   then u32 (u64 (Z.shiftl (GetLow64 a) (8 * (3 - Z.of_nat (byte_size a)))))
   else u32 (GetLow64 (op_shr a (8 * (byte_size a - 3))))) = scaled (val a) (Z.of_nat (byte_size a)).
Proof.
  intros Ha. destruct (byte_size_spec a Ha) as (_ & _ & Hn & Hv).
  pose proof (wf_val_range a Ha) as Hr. set (n := byte_size a) in *.
  destruct (scaled_bound (val a) (Z.of_nat n)) as [Hs0 Hs1]; [lia|lia|].
  unfold scaled in *. destruct (Nat.leb_spec n 3).
  - rewrite (proj2 (Z.leb_le _ _)) in * by lia.
    assert (256 ^ Z.of_nat n <= 256 ^ 3) by (apply Z.pow_le_mono_r; lia).
    rewrite GetLow64_val, Z.mod_small by (done || lia).
    rewrite Z.shiftl_mul_pow2, <- pow256 by lia.
    rewrite u64_id, u32_id by (unfold is_u32, is_u64; lia). done.
  - rewrite (proj2 (Z.leb_gt _ _)) in * by lia.
    rewrite GetLow64_val, op_shr_val by auto using op_shr_wf.
    replace (Z.of_nat (8 * (n - 3))) with (8 * (Z.of_nat n - 3)) by lia.
    rewrite <- pow256, Z.mod_small, u32_id by (unfold is_u32; lia). done.
Qed.

(** If the leading byte has its top bit clear, so has the mantissa. *)
Lemma scaled_top_bit v n :
  0 <= v < 2 ^ (8 * n - 1) -> 0 < n -> scaled v n < 2 ^ 23.
Proof.
  intros Hv Hn. unfold scaled. destruct (Z.leb_spec n 3).
  - rewrite pow256 by lia. replace 23 with (8 * n - 1 + 8 * (3 - n)) by lia.
    apply pow_bound; lia.
  - apply Z.div_lt_upper_bound; [lia|]. rewrite pow256, <- Z.pow_add_r by lia.
    replace (8 * (n - 3) + 23) with (8 * n - 1) by lia. lia.
Qed.

(** The sign-bit adjustment of [GetCompact]. *)
Lemma adjust_mantissa a :
  wf a -> let n := byte_size a in let m := scaled (val a) (Z.of_nat n) in
  exists size,
    (if negb (m <? 2 ^ 23) then (Z.shiftr m 8, S n) else (m, n)) = (scaled (val a) (Z.of_nat size), size)
    /\ 0 <= scaled (val a) (Z.of_nat size) < 2 ^ 23 /\ (n <= size <= S n)%nat
    /\ 8 * Z.of_nat size <= Z.of_nat (bits a) + 8.
Proof.
  intros Ha n m. destruct (byte_size_spec a Ha) as (H1 & H2 & H3 & Hv). fold n in H1, H2, H3, Hv.
  pose proof (wf_val_range a Ha) as Hr. pose proof (bits_pow a Ha) as Hp.
  destruct (scaled_bound (val a) (Z.of_nat n)) as [Hs0 Hs1]; [lia|lia|]. fold m in Hs0, Hs1.
  destruct (Z.ltb_spec m (2 ^ 23)) as [Hlt|Hge]; cbn [negb].
  { exists n. fold m. split_and!; try done; lia. }
  exists (S n). rewrite Z.shiftr_div_pow2 by lia. change (2 ^ 8) with 256.
  replace (Z.of_nat (S n)) with (Z.of_nat n + 1) by lia. rewrite scaled_succ by lia. fold m.
  split_and!; try done; try zdm.
  destruct (decide (8 * n <= bits a)%nat); [lia|]. exfalso.
  assert (m < 2 ^ 23); [|lia]. apply scaled_top_bit; [|lia]. split; [lia|].
  apply Z.lt_le_trans with (1 := Hp). apply Z.pow_le_mono_r; lia.
Qed.

(** [GetCompact] never fails an assertion; its mantissa and exponent. *)
Lemma GetCompact_spec a :
  wf a -> exists size,
    GetCompact a false = Some (scaled (val a) size + size * 2 ^ 24) /\
    0 <= scaled (val a) size < 2 ^ 23 /\ 0 <= size <= 33 /\
    val a < 256 ^ size /\ 8 * size <= Z.of_nat (bits a) + 8.
Proof.
  intros Ha. destruct (byte_size_spec a Ha) as (_ & _ & Hn & Hv).
  pose proof (wf_val_range a Ha) as Hr.
  destruct (scaled_bound (val a) (Z.of_nat (byte_size a))) as [Hs0 Hs1]; [lia|lia|].
  destruct (adjust_mantissa a Ha) as (size & Hadj & Hm & Hz & Hz8).
  unfold GetCompact. fold (byte_size a). cbv zeta.
  rewrite leading_bytes, bit23, Hadj, high_mask_zero by (done || lia). cbn [Z.eqb negb andb].
  rewrite (proj2 (Nat.ltb_lt _ _)) by lia. cbn [negb].
  exists (Z.of_nat size). rewrite Z.lor_0_r, lor_disjoint_add by lia.
  split_and!; try lia; [f_equal; lia|].
  apply Z.lt_le_trans with (1 := Hv). apply Z.pow_le_mono_r; lia.
Qed.

(** Decoding what [GetCompact] encodes: the value with its low bytes cleared. *)
Definition truncated (v size : Z) : Z :=
  if size <=? 3 then v else v / 256 ^ (size - 3) * 256 ^ (size - 3).

Lemma compact_value_encode v size :
  0 <= v -> 0 <= size < 256 -> 0 <= scaled v size < 2 ^ 23 ->
  let c := scaled v size + size * 2 ^ 24 in
  is_u32 c /\ compact_value c = truncated v size /\ Z.land c 0x00800000 = 0.
Proof.
  intros Hv Hs Hm c.
  assert (compact_size c = size) as H1 by (unfold compact_size, c; zdm).
  assert (compact_word c = scaled v size) as H2.
  { unfold compact_word, c. replace (size * 2 ^ 24) with (size * 2 * 2 ^ 23) by lia.
    by rewrite Z.mod_add, Z.mod_small by lia. }
  split_and!.
  - unfold is_u32, c. lia.
  - unfold compact_value, truncated. rewrite H1, H2. unfold scaled.
    destruct (Z.leb_spec size 3); [|done]. by rewrite Z.div_mul by lia.
  - change 0x00800000 with (Z.shiftl 1 23). apply Z.eqb_eq.
    rewrite land_pow2_testbit by lia. unfold c.
    replace (size * 2 ^ 24) with (2 ^ 23 * (2 * size)) by lia.
    rewrite <- lor_disjoint_add by lia. rewrite Z.lor_spec, (testbit_high _ 23) by lia.
    rewrite Z.shiftl_spec by lia. change (23 - 23) with 0.
    by rewrite Z.testbit_even_0.
Qed.

Lemma truncated_bounds v size :
  0 <= v -> 0 <= truncated v size <= v.
Proof.
  intros Hv. unfold truncated. destruct (Z.leb_spec size 3); [lia|].
  pose proof (Z.pow_pos_nonneg 256 (size - 3)) as Hp.
  pose proof (Z.mul_div_le v (256 ^ (size - 3))). pose proof (Z.div_pos v (256 ^ (size - 3))). nia.
Qed.

Lemma encode_decode a :
  wf a -> exists size v,
    GetCompact a false = Some (scaled (val a) size + size * 2 ^ 24) /\
    SetCompact (scaled (val a) size + size * 2 ^ 24) = (v, false, false) /\
    wf v /\ val v = truncated (val a) size /\ 8 * size <= Z.of_nat (bits a) + 8.
Proof.
  intros Ha. destruct (GetCompact_spec a Ha) as (size & HG & Hm & Hs & _ & H8).
  pose proof (wf_val_range a Ha) as Hr.
  destruct (compact_value_encode (val a) size) as (Hc & Hv & Hneg); [lia..|].
  pose proof (truncated_bounds (val a) size) as Ht.
  destruct (SetCompact (scaled (val a) size + size * 2 ^ 24)) as [[v fN] fO] eqn:ES.
  pose proof (SetCompact_value _ Hc) as HS. rewrite ES in HS. destruct HS as (Hw & HvS & _).
  pose proof (SetCompact_overflow _ _ _ _ Hc ES) as HO.
  rewrite Hv in HvS, HO. rewrite Z.mod_small in HvS by lia.
  rewrite (proj2 (Z.leb_gt _ _)) in HO by lia. subst fO.
  assert (fN = false) as ->.
  { apply (f_equal (fun p => snd (fst p))) in ES. cbn [fst snd] in ES. rewrite <- ES.
    unfold SetCompact. rewrite Hneg. destruct (Nat.leb _ _); cbn [fst snd]; apply andb_false_r. }
  exists size, v. auto.
Qed.

(** Precision: once the exponent exceeds 3 the mantissa keeps at least 16
    significant bits, so truncation loses less than one part in 2^15. *)
Lemma truncated_precision a size :
  wf a -> 8 * size <= Z.of_nat (bits a) + 8 ->
  (val a - truncated (val a) size) * 2 ^ 15 <= val a.
Proof.
  intros Ha H8. pose proof (wf_val_range a Ha) as Hr. unfold truncated.
  destruct (Z.leb_spec size 3); [lia|].
  assert (val a <> 0) as Hz by (intros Hz; apply bits_zero_iff in Hz; [lia|done]).
  pose proof (bits_lower a Ha Hz) as Hlo.
  assert (2 ^ (15 + 8 * (size - 3)) <= val a) as Hb.
  { etransitivity; [|exact Hlo]. apply Z.pow_le_mono_r; lia. }
  rewrite Z.pow_add_r, <- pow256 in Hb by lia.
  set (p := 256 ^ (size - 3)) in *. assert (0 < p) by (subst p; lia).
  pose proof (Z.mod_pos_bound (val a) p). pose proof (Z.div_mod (val a) p). nia.
Qed.

(** A decoded value is a multiple of every power [GetCompact] truncates at. *)
Lemma truncated_decoded c size :
  is_u32 c -> compact_value c < 2 ^ 256 ->
  (compact_value c <> 0 -> 8 * size <= Z.log2 (compact_value c) + 9) ->
  truncated (compact_value c) size = compact_value c.
Proof.
  intros Hc Hlt H8. destruct (compact_fields c Hc) as (_ & _ & Hs & Hw).
  unfold truncated. destruct (Z.leb_spec size 3); [done|].
  destruct (decide (compact_value c = 0)) as [->|Hnz]; [by rewrite Z.div_0_l by lia|].
  specialize (H8 Hnz). revert H8 Hnz. unfold compact_value.
  destruct (Z.leb_spec (compact_size c) 3) as [Hle|Hgt]; intros H8 Hnz.
  - exfalso. set (x := compact_word c / 256 ^ (3 - compact_size c)) in *.
    pose proof (Z.pow_pos_nonneg 256 (3 - compact_size c)).
    assert (0 <= x < 2 ^ 23) as Hx.
    { unfold x. split; [apply Z.div_pos; lia|apply Z.div_lt_upper_bound; nia]. }
    assert (Z.log2 x < 23) by (apply Z.log2_lt_pow2; lia). lia.
  - set (e := compact_size c - 3) in *. set (w := compact_word c) in *.
    assert (Z.log2 (w * 256 ^ e) < 23 + 8 * e).
    { apply Z.log2_lt_pow2; [nia|]. rewrite pow256 by lia. apply pow_bound; lia. }
    replace e with ((e - (size - 3)) + (size - 3)) by lia.
    rewrite (Z.pow_add_r 256 (e - (size - 3))), Z.mul_assoc, Z.div_mul by lia. done.
Qed.

(** The decoder, all three results at once. *)
Lemma SetCompact_spec c :
  is_u32 c -> exists v, SetCompact c =
    (v, negb (Z.land c 0x00800000 =? 0) && negb (
          (if compact_size c <=? 3 then compact_word c / 256 ^ (3 - compact_size c)
           else compact_word c) =? 0),
     2 ^ 256 <=? compact_value c)
  /\ wf v /\ val v = compact_value c mod 2 ^ 256.
Proof.
  intros Hc. destruct (SetCompact c) as [[v fN] fO] eqn:ES.
  pose proof (SetCompact_value c Hc) as HS. rewrite ES in HS. destruct HS as (Hw & Hv & _).
  rewrite <- (SetCompact_overflow c v fN fO Hc ES).
  exists v. split_and!; [|done..]. f_equal. f_equal.
  destruct (compact_fields c Hc) as (H1 & H2 & Hs & _).
  apply (f_equal (fun p => snd (fst p))) in ES. cbn [fst snd] in ES. rewrite <- ES.
  unfold SetCompact. rewrite H1, H2.
  destruct (Z.leb_spec (compact_size c) 3).
  - rewrite (proj2 (Nat.leb_le _ _)) by lia. cbn [fst snd].
    rewrite Z2Nat.id, Z.shiftr_div_pow2, <- pow256 by lia. apply andb_comm.
  - rewrite (proj2 (Nat.leb_gt _ _)) by lia. cbn [fst snd]. apply andb_comm.
Qed.

(** The encoder rounds down by less than one part in 2^15. *)
Lemma GetCompact_rounding a :
  wf a -> exists c v, GetCompact a false = Some c /\ is_u32 c /\ SetCompact c = (v, false, false)
    /\ wf v /\ val v <= val a /\ (val a - val v) * 2 ^ 15 <= val a.
Proof.
  intros Ha.
  destruct (encode_decode a Ha) as (size & v & HG & HS & Hw & Hv & H8).
  destruct (GetCompact_spec a Ha) as (size' & HG' & Hm & Hs & _ & _).
  pose proof (wf_val_range a Ha).
  exists (scaled (val a) size + size * 2 ^ 24), v. split_and!; [done| |done|done|..].
  - rewrite HG in HG'. injection HG' as ->.
    apply (compact_value_encode (val a) size'); lia.
  - rewrite Hv. apply truncated_bounds. lia.
  - rewrite Hv. by apply truncated_precision.
Qed.

(** ** Properties *)

(** [SetCompact] decodes every 32-bit compact number to the integer it
    denotes modulo 2^256, raises the overflow flag exactly when that integer
    does not fit in 256 bits, and the negative flag exactly when the sign bit is
    set on a non-zero mantissa. *)
Lemma SetCompact_decodes (c : Z) (Hc : is_u32 c) :
  exists v, SetCompact c =
    (v, negb (Z.land c 0x00800000 =? 0) && negb (
          (if compact_size c <=? 3 then compact_word c / 256 ^ (3 - compact_size c)
           else compact_word c) =? 0),
     2 ^ 256 <=? compact_value c)
  /\ wf v /\ val v = compact_value c mod 2 ^ 256.
Proof. by apply SetCompact_spec. Qed.

Lemma SetCompact_decodes_witness :
  exists v, SetCompact 0x1d00ffff = (v, false, false) /\ wf v /\ val v = 0xffff * 256 ^ 26.
Proof.
  destruct (SetCompact_decodes 0x1d00ffff) as (v & H1 & H2 & H3).
  - vm_compute. split; [discriminate|reflexivity].
  - exists v. split; [|split; [exact H2|]].
    + rewrite H1. reflexivity.
    + rewrite H3. reflexivity.
Defined.

(** Without flags the decoded target is exactly the integer denoted. *)
Lemma SetCompact_exact c v : is_u32 c -> SetCompact c = (v, false, false) ->
  wf v /\ val v = compact_value c /\ 0 <= compact_value c < 2 ^ 256.
Proof.
  intros Hc HS. pose proof (SetCompact_value c Hc) as HV. rewrite HS in HV. destruct HV as (Hw & Hv & _).
  pose proof (SetCompact_overflow _ _ _ _ Hc HS) as HO. symmetry in HO. apply Z.leb_gt in HO.
  assert (0 <= compact_value c) as Hpos.
  { destruct (compact_fields c Hc) as (_ & _ & ? & ?). unfold compact_value.
    destruct (Z.leb_spec (compact_size c) 3); [apply Z.div_pos; lia|].
    pose proof (Z.pow_pos_nonneg 256 (compact_size c - 3)). nia. }
  rewrite Z.mod_small in Hv by lia. split; [done|]. split; [done|lia].
Qed.

(** [GetCompact] never fails its assertions, and decoding its result gives
    back the value rounded down, without raising a flag and losing less than
    one part in 2^15; what it decodes to is the integer the encoding denotes. *)
Lemma GetCompact_rounds_down (a : list Z) (Ha : wf a) :
  exists c v, GetCompact a false = Some c /\ is_u32 c /\ SetCompact c = (v, false, false)
    /\ wf v /\ val v = compact_value c /\ val v <= val a /\ (val a - val v) * 2 ^ 15 <= val a.
Proof.
  destruct (GetCompact_rounding a Ha) as (c & v & HG & Hc & HS & Hw & Hle & Hlt). exists c, v.
  destruct (SetCompact_exact c v Hc HS) as (_ & Hv & _). done.
Qed.

Lemma GetCompact_rounds_down_witness :
  exists c v, GetCompact (base_uint_of_u64 0x123456789abc) false = Some c /\ is_u32 c
    /\ SetCompact c = (v, false, false) /\ wf v /\ val v = compact_value c /\ val v <= 0x123456789abc
    /\ (0x123456789abc - val v) * 2 ^ 15 <= 0x123456789abc.
Proof.
  apply (GetCompact_rounds_down (base_uint_of_u64 0x123456789abc)).
  split; [reflexivity|]. repeat constructor; vm_compute; intuition discriminate.
Defined.

(** A target that came out of [SetCompact] without a flag survives
    re-encoding: the compact form computed from it decodes to the same value. *)
Lemma compact_roundtrip (c : Z) (v : list Z)
  (Hc : is_u32 c) (HS : SetCompact c = (v, false, false)) :
  exists c', GetCompact v false = Some c' /\ SetCompact c' = (v, false, false).
Proof.
  destruct (SetCompact_exact c v Hc HS) as (Hw & Hv & Hpos).
  destruct (encode_decode v Hw) as (size & v' & HG & HS' & Hw' & Hv' & H8).
  exists (scaled (val v) size + size * 2 ^ 24). split; [done|]. rewrite HS'. do 2 f_equal.
  apply wf_val_inj; [done|done|]. rewrite Hv', Hv. apply truncated_decoded; [done|lia|].
  intros Hnz. pose proof (bits_log2 v Hw) as Hb. rewrite Hv in Hb.
  rewrite (proj2 (Z.eqb_neq _ _)) in Hb by done. lia.
Qed.

Lemma compact_roundtrip_witness :
  exists c', GetCompact (fst (fst (SetCompact 0x03000001))) false = Some c'
    /\ SetCompact c' = (fst (fst (SetCompact 0x03000001)), false, false).
Proof.
  apply (compact_roundtrip 0x03000001).
  - vm_compute. split; [discriminate|reflexivity].
  - reflexivity.
Defined.

End Compact.
