(* ===== verification/Params.v ===== *)
(** * Consensus parameters and network upgrades

    Models src/consensus/params.{h,cpp}, src/consensus/upgrades.{h,cpp} and the
    consensus part of the main-network parameters in src/chainparams.cpp.  A
    failed [assert] is [None]; the loops over the upgrade table are folds over
    the list of upgrade indices. *)

From stdpp Require Import base list list_numbers numbers option strings.
From Stdlib Require Import ZArith Lia.
From S2P Require Import Prelude Bytes.

Module Consensus.

Inductive UpgradeIndex :=
  | BASE_SPROUT
  | UPGRADE_TESTDUMMY
  | UPGRADE_OVERWINTER
  | UPGRADE_SAPLING
  | UPGRADE_BLOSSOM.

#[global] Instance UpgradeIndex_eq_dec : EqDecision UpgradeIndex.
Proof. solve_decision. Defined.

(** The enumerators in declaration order; their number is [MAX_NETWORK_UPGRADES]. *)
Definition upgrades : list UpgradeIndex :=
  [BASE_SPROUT; UPGRADE_TESTDUMMY; UPGRADE_OVERWINTER; UPGRADE_SAPLING; UPGRADE_BLOSSOM].

Definition upgrade_int (idx : UpgradeIndex) : Z :=
  match idx with
  | BASE_SPROUT => 0
  | UPGRADE_TESTDUMMY => 1
  | UPGRADE_OVERWINTER => 2
  | UPGRADE_SAPLING => 3
  | UPGRADE_BLOSSOM => 4
  end.

Record NetworkUpgrade := {
  nProtocolVersion : Z;
  nActivationHeight : Z;
  hashActivationBlock : option (list Z)
}.

Definition ALWAYS_ACTIVE : Z := 0.
Definition NO_ACTIVATION_HEIGHT : Z := -1.

Definition PRE_BLOSSOM_POW_TARGET_SPACING : Z := 60.
Definition POST_BLOSSOM_POW_TARGET_SPACING : Z := 60.

Record Params := {
  fCoinbaseMustBeProtected : bool;
  nSubsidySlowStartHeight : Z;
  nSubsidySlowStartInterval : Z;
  nSubsidyHalvingInterval : Z;
  nPorRewardPercentage : Z;
  nPorRewardTxPercentage : Z;
  nMasternodeRewardPercentage : Z;
  nMasternodeRewardTxPercentage : Z;
  nPlatformDevFundPercentage : Z;
  nPlatformDevFundTxPercentage : Z;
  nCoinbaseMaturity : Z;
  nMajorityEnforceBlockUpgrade : Z;
  nMajorityRejectBlockOutdated : Z;
  nMajorityWindow : Z;
  vUpgrades : UpgradeIndex -> NetworkUpgrade;
  powLimit : list Z;
  nPowAllowMinDifficultyBlocksAfterHeight : option Z;
  nPowAveragingWindow : Z;
  nPowMaxAdjustDown : Z;
  nPowMaxAdjustUp : Z;
  nPreBlossomPowTargetSpacing : Z;
  nPostBlossomPowTargetSpacing : Z;
  nMinimumChainWork : list Z
}.

Definition GetLastPorRewardBlockHeight (params : Params) : Z := 0x7fffffff.
Definition GetLastMasternodeRewardBlockHeight (params : Params) : Z :=
  if nCoinbaseMaturity params =? 2 then 1500 else 805000.
Definition GetLastPlatformDevFundBlockHeight (params : Params) : Z := 0x7fffffff.

(** ** Network upgrades *)

Inductive UpgradeState := UPGRADE_DISABLED | UPGRADE_PENDING | UPGRADE_ACTIVE.

#[global] Instance UpgradeState_eq_dec : EqDecision UpgradeState.
Proof. solve_decision. Defined.

Record NUInfo := { nBranchId : Z; strName : string }.

Definition NetworkUpgradeInfo (idx : UpgradeIndex) : NUInfo :=
  match idx with
  | BASE_SPROUT => {| nBranchId := 0; strName := "Sprout" |}
  | UPGRADE_TESTDUMMY => {| nBranchId := 0x74736554; strName := "Test dummy" |}
  | UPGRADE_OVERWINTER => {| nBranchId := 0x5ba81b19; strName := "Overwinter" |}
  | UPGRADE_SAPLING => {| nBranchId := 0x76b809bb; strName := "Sapling" |}
  | UPGRADE_BLOSSOM => {| nBranchId := 0x2bb40e60; strName := "Blossom" |}
  end.

Definition SPROUT_BRANCH_ID : Z := nBranchId (NetworkUpgradeInfo BASE_SPROUT).

Definition NetworkUpgradeState (nHeight : Z) (params : Params) (idx : UpgradeIndex)
  : option UpgradeState :=
  if nHeight <? 0 then None
  else
    let h := nActivationHeight (vUpgrades params idx) in
    Some (if h =? NO_ACTIVATION_HEIGHT then UPGRADE_DISABLED
          else if nHeight >=? h then UPGRADE_ACTIVE
          else UPGRADE_PENDING).

Definition NetworkUpgradeActive (params : Params) (nHeight : Z) (idx : UpgradeIndex)
  : option bool :=
  s ← NetworkUpgradeState nHeight params idx;
  Some (bool_decide (s = UPGRADE_ACTIVE)).

(** [for (idxInt = MAX_NETWORK_UPGRADES - 1; idxInt >= BASE_SPROUT; idxInt--)] *)
Fixpoint current_epoch_loop (nHeight : Z) (params : Params) (l : list UpgradeIndex)
  : option UpgradeIndex :=
  match l with
  | [] => Some BASE_SPROUT
  | idx :: l' =>
      a ← NetworkUpgradeActive params nHeight idx;
      if (a : bool) then Some idx else current_epoch_loop nHeight params l'
  end.

Definition CurrentEpoch (nHeight : Z) (params : Params) : option UpgradeIndex :=
  current_epoch_loop nHeight params (rev upgrades).

Definition CurrentEpochBranchId (nHeight : Z) (params : Params) : option Z :=
  idx ← CurrentEpoch nHeight params; Some (nBranchId (NetworkUpgradeInfo idx)).

(** The [int] argument is converted to [uint32_t] by the comparison. *)
Definition IsConsensusBranchId (branchId : Z) : bool :=
  existsb (fun idx => u32 branchId =? nBranchId (NetworkUpgradeInfo idx)) upgrades.

Definition IsActivationHeight (nHeight : Z) (params : Params) (idx : UpgradeIndex) : bool :=
  if bool_decide (idx = BASE_SPROUT) then false
  else (nHeight >=? 0) && (nHeight =? nActivationHeight (vUpgrades params idx)).

Definition IsActivationHeightForAnyUpgrade (nHeight : Z) (params : Params) : bool :=
  if nHeight <? 0 then false
  else existsb (fun idx => nHeight =? nActivationHeight (vUpgrades params idx)) (tail upgrades).

Fixpoint next_epoch_loop (nHeight : Z) (params : Params) (l : list UpgradeIndex)
  : option (option UpgradeIndex) :=
  match l with
  | [] => Some None
  | idx :: l' =>
      s ← NetworkUpgradeState nHeight params idx;
      if bool_decide (s = UPGRADE_PENDING) then Some (Some idx)
      else next_epoch_loop nHeight params l'
  end.

(** The outer [option] is a failed assertion, the inner one [boost::none]. *)
Definition NextEpoch (nHeight : Z) (params : Params) : option (option UpgradeIndex) :=
  if nHeight <? 0 then Some None else next_epoch_loop nHeight params (tail upgrades).

Definition NextActivationHeight (nHeight : Z) (params : Params) : option (option Z) :=
  idx ← NextEpoch nHeight params;
  Some (match idx with
        | Some idx => Some (nActivationHeight (vUpgrades params idx))
        | None => None
        end).

(** ** Proof-of-work timing parameters (signed division truncates) *)

Definition PoWTargetSpacing (params : Params) (nHeight : Z) : option Z :=
  blossomActive ← NetworkUpgradeActive params nHeight UPGRADE_BLOSSOM;
  Some (if (blossomActive : bool) then nPostBlossomPowTargetSpacing params
        else nPreBlossomPowTargetSpacing params).

Definition AveragingWindowTimespan (params : Params) (nHeight : Z) : option Z :=
  s ← PoWTargetSpacing params nHeight; Some (s64 (nPowAveragingWindow params * s)).

Definition MinActualTimespan (params : Params) (nHeight : Z) : option Z :=
  t ← AveragingWindowTimespan params nHeight; Some (Z.quot (s64 (t * s64 (100 - nPowMaxAdjustUp params))) 100).

Definition MaxActualTimespan (params : Params) (nHeight : Z) : option Z :=
  t ← AveragingWindowTimespan params nHeight; Some (Z.quot (s64 (t * s64 (100 + nPowMaxAdjustDown params))) 100).

(** ** Main network (class CMainParams) *)

Definition main_upgrades (idx : UpgradeIndex) : NetworkUpgrade :=
  match idx with
  | BASE_SPROUT => {| nProtocolVersion := 170002; nActivationHeight := ALWAYS_ACTIVE;
                      hashActivationBlock := None |}
  | UPGRADE_TESTDUMMY => {| nProtocolVersion := 170002; nActivationHeight := NO_ACTIVATION_HEIGHT;
                            hashActivationBlock := None |}
  | UPGRADE_OVERWINTER => {| nProtocolVersion := 170005; nActivationHeight := ALWAYS_ACTIVE;
                             hashActivationBlock := None |}
  | UPGRADE_SAPLING => {| nProtocolVersion := 170007; nActivationHeight := 1;
                          hashActivationBlock := None |}
  | UPGRADE_BLOSSOM => {| nProtocolVersion := 170009; nActivationHeight := NO_ACTIVATION_HEIGHT;
                          hashActivationBlock := None |}
  end.

Definition CMainParams : Params := {|
  fCoinbaseMustBeProtected := false;
  nSubsidySlowStartHeight := 201;
  nSubsidySlowStartInterval := 43200;
  nSubsidyHalvingInterval := 2200000 - 14400;
  nPorRewardPercentage := 30;
  nMasternodeRewardPercentage := 30;
  nPlatformDevFundPercentage := 10;
  nPorRewardTxPercentage := 30;
  nMasternodeRewardTxPercentage := 30;
  nPlatformDevFundTxPercentage := 10;
  nCoinbaseMaturity := 100;
  nMajorityEnforceBlockUpgrade := 750;
  nMajorityRejectBlockOutdated := 950;
  nMajorityWindow := 4000;
  powLimit := Endian.le_bytes 32 0x0007ffffffffffffffffffffffffffffffffffffffffffffffffffffffffffff;
  nPowAveragingWindow := 17;
  nPowMaxAdjustDown := 32;
  nPowMaxAdjustUp := 16;
  nPreBlossomPowTargetSpacing := PRE_BLOSSOM_POW_TARGET_SPACING;
  nPostBlossomPowTargetSpacing := POST_BLOSSOM_POW_TARGET_SPACING;
  nPowAllowMinDifficultyBlocksAfterHeight := None;
  vUpgrades := main_upgrades;
  nMinimumChainWork := Endian.le_bytes 32 0xbee4b0fe1f4
|}.

(** ** Facts *)

Definition active_at (params : Params) (nHeight : Z) (idx : UpgradeIndex) : Prop :=
  let h := nActivationHeight (vUpgrades params idx) in
  h <> NO_ACTIVATION_HEIGHT /\ h <= nHeight.

#[global] Instance active_at_dec params h idx : Decision (active_at params h idx).
Proof. unfold active_at. apply _. Defined.

Lemma NetworkUpgradeActive_spec params h idx :
  0 <= h -> NetworkUpgradeActive params h idx = Some (bool_decide (active_at params h idx)).
Proof.
  intros Hh. unfold NetworkUpgradeActive, NetworkUpgradeState, active_at.
  rewrite (proj2 (Z.ltb_ge _ _)) by lia. simpl. f_equal.
  apply bool_decide_ext. destruct (Z.eqb_spec (nActivationHeight (vUpgrades params idx)) NO_ACTIVATION_HEIGHT).
  - naive_solver.
  - rewrite Z.geb_leb. destruct (Z.leb_spec (nActivationHeight (vUpgrades params idx)) h);
      intuition (try done; lia).
Qed.

Lemma upgrade_int_inj i j : upgrade_int i = upgrade_int j -> i = j.
Proof. destruct i, j; simpl; congruence. Qed.

Lemma upgrades_all idx : In idx upgrades.
Proof. destruct idx; simpl; tauto. Qed.

(** The epoch loop stops at the first active upgrade of its list. *)
Lemma current_epoch_loop_spec params h l :
  0 <= h -> exists idx, current_epoch_loop h params l = Some idx /\
    ((In idx l /\ active_at params h idx) \/
     (idx = BASE_SPROUT /\ forall i, In i l -> ~ active_at params h i)) /\
    forall l1 i l2, l = l1 ++ i :: l2 -> active_at params h i ->
      idx = i \/ In idx l1.
Proof.
  intros Hh. induction l as [|i l IH].
  { exists BASE_SPROUT. split_and!; [done|by right|]. by intros []. }
  cbn [current_epoch_loop]. rewrite NetworkUpgradeActive_spec by done. simpl.
  case_bool_decide as Ha.
  - exists i. split_and!; [done|left; simpl; auto|].
    intros [|i1 l1] j l2 [= <- Hl] Hj; [by left|right; simpl; auto].
  - destruct IH as (idx & -> & Hcase & Hfirst). exists idx. split_and!; [done| |].
    + destruct Hcase as [[? ?]|[-> Hn]]; [left; simpl; auto|right].
      split; [done|]. intros j [<-|Hj]; auto.
    + intros [|i1 l1] j l2 [= <- Hl] Hj; [done|].
      destruct (Hfirst l1 j l2 Hl Hj); simpl; auto.
Qed.

(** [CurrentEpoch] returns the greatest active upgrade, or Sprout. *)
Lemma CurrentEpoch_spec params h :
  0 <= h -> exists idx, CurrentEpoch h params = Some idx /\
    (active_at params h idx \/ idx = BASE_SPROUT) /\
    forall i, active_at params h i -> upgrade_int i <= upgrade_int idx.
Proof.
  intros Hh. destruct (current_epoch_loop_spec params h (rev upgrades) Hh) as (idx & He & Hcase & Hfirst).
  exists idx. split_and!; [done|naive_solver|]. intros i Hi.
  assert (forall l1 l2, rev upgrades = l1 ++ i :: l2 ->
    Forall (fun j => upgrade_int i <= upgrade_int j) l1 -> upgrade_int i <= upgrade_int idx) as Hgo.
  { intros l1 l2 Hl Hall. destruct (Hfirst l1 i l2 Hl Hi) as [->|Hin]; [lia|].
    rewrite Forall_forall in Hall. by apply Hall, list_elem_of_In. }
  destruct i.
  - apply (Hgo [UPGRADE_BLOSSOM; UPGRADE_SAPLING; UPGRADE_OVERWINTER; UPGRADE_TESTDUMMY] []);
      [done|repeat constructor; simpl; lia].
  - apply (Hgo [UPGRADE_BLOSSOM; UPGRADE_SAPLING; UPGRADE_OVERWINTER] [BASE_SPROUT]);
      [done|repeat constructor; simpl; lia].
  - apply (Hgo [UPGRADE_BLOSSOM; UPGRADE_SAPLING] [UPGRADE_TESTDUMMY; BASE_SPROUT]);
      [done|repeat constructor; simpl; lia].
  - apply (Hgo [UPGRADE_BLOSSOM] [UPGRADE_OVERWINTER; UPGRADE_TESTDUMMY; BASE_SPROUT]);
      [done|repeat constructor; simpl; lia].
  - apply (Hgo [] [UPGRADE_SAPLING; UPGRADE_OVERWINTER; UPGRADE_TESTDUMMY; BASE_SPROUT]);
      [done|repeat constructor; simpl; lia].
Qed.

Lemma active_at_mono params h1 h2 idx :
  h1 <= h2 -> active_at params h1 idx -> active_at params h2 idx.
Proof. intros Hle [Hne Hh]. split; [done|lia]. Qed.

Lemma CurrentEpoch_ext params h1 h2 :
  0 <= h1 -> 0 <= h2 ->
  (forall i, i <> BASE_SPROUT -> active_at params h1 i <-> active_at params h2 i) ->
  CurrentEpoch h1 params = CurrentEpoch h2 params.
Proof.
  intros H1 H2 Hext.
  destruct (CurrentEpoch_spec params h1 H1) as (i1 & -> & Hc1 & Hm1).
  destruct (CurrentEpoch_spec params h2 H2) as (i2 & -> & Hc2 & Hm2).
  f_equal. apply upgrade_int_inj.
  assert (forall i, 0 <= upgrade_int i) as Hpos by (intros []; simpl; lia).
  assert (upgrade_int i1 <= upgrade_int i2).
  { destruct (decide (i1 = BASE_SPROUT)) as [->|Hn]; [apply Hpos|].
    apply Hm2, Hext; [done|]. by destruct Hc1. }
  assert (upgrade_int i2 <= upgrade_int i1).
  { destruct (decide (i2 = BASE_SPROUT)) as [->|Hn]; [apply Hpos|].
    apply Hm1, Hext; [done|]. by destruct Hc2. }
  lia.
Qed.

Lemma next_epoch_loop_spec params h l :
  0 <= h ->
  (exists idx, next_epoch_loop h params l = Some (Some idx) /\ In idx l /\
     NetworkUpgradeState h params idx = Some UPGRADE_PENDING) \/
  (next_epoch_loop h params l = Some None /\
   forall idx, In idx l -> NetworkUpgradeState h params idx <> Some UPGRADE_PENDING).
Proof.
  intros Hh. induction l as [|i l IH]; [right; split; [done|intros ? []]|].
  cbn [next_epoch_loop].
  assert (is_Some (NetworkUpgradeState h params i)) as [s Hs].
  { unfold NetworkUpgradeState. rewrite (proj2 (Z.ltb_ge _ _)) by lia. done. }
  rewrite Hs. simpl. case_bool_decide as Hp.
  - left. exists i. subst s. simpl. auto.
  - destruct IH as [(idx & -> & Hin & Hst)|[-> Hn]].
    + left. exists idx. simpl. auto.
    + right. split; [done|]. intros idx [<-|Hin]; [|by apply Hn]. rewrite Hs. congruence.
Qed.

(** ** Properties *)

(** On every non-negative height the current epoch is defined, is the
    greatest upgrade active there (Sprout when none is), and never moves
    backwards as the height grows. *)
Lemma CurrentEpoch_monotone (params : Params) (h1 h2 : Z) (H1 : 0 <= h1) (H2 : h1 <= h2) :
  exists i1 i2, CurrentEpoch h1 params = Some i1 /\ CurrentEpoch h2 params = Some i2 /\
    (active_at params h1 i1 \/ i1 = BASE_SPROUT) /\
    (forall i, active_at params h1 i -> upgrade_int i <= upgrade_int i1) /\
    upgrade_int i1 <= upgrade_int i2.
Proof.
  destruct (CurrentEpoch_spec params h1 H1) as (i1 & E1 & Hc1 & Hm1).
  destruct (CurrentEpoch_spec params h2) as (i2 & E2 & Hc2 & Hm2); [lia|].
  exists i1, i2. split_and!; try done.
  destruct Hc1 as [Ha| ->]; [by apply Hm2, (active_at_mono _ h1)|destruct i2; simpl; lia].
Qed.

Lemma CurrentEpoch_monotone_witness :
  exists i1 i2, CurrentEpoch 0 CMainParams = Some i1 /\ CurrentEpoch 5 CMainParams = Some i2 /\
    upgrade_int i1 <= upgrade_int i2 /\ i1 = UPGRADE_OVERWINTER /\ i2 = UPGRADE_SAPLING.
Proof.
  destruct (CurrentEpoch_monotone CMainParams 0 5) as (i1 & i2 & E1 & E2 & _ & _ & Hle); [lia|lia|].
  exists i1, i2. split; [exact E1|]. split; [exact E2|]. split; [exact Hle|].
  vm_compute in E1, E2. injection E1 as <-. injection E2 as <-. split; reflexivity.
Defined.

(** Branch ids separate epochs: two heights share a consensus branch id
    exactly when they share the epoch, and every epoch's branch id is one that
    [IsConsensusBranchId] accepts (a signature for one epoch is not valid in
    another). *)
Lemma branch_id_separates_epochs (params : Params) (h1 h2 : Z) (H1 : 0 <= h1) (H2 : 0 <= h2) :
  (CurrentEpochBranchId h1 params = CurrentEpochBranchId h2 params <->
   CurrentEpoch h1 params = CurrentEpoch h2 params) /\
  exists b, CurrentEpochBranchId h1 params = Some b /\ IsConsensusBranchId b = true.
Proof.
  unfold CurrentEpochBranchId.
  destruct (CurrentEpoch_spec params h1 H1) as (i1 & -> & _).
  destruct (CurrentEpoch_spec params h2 H2) as (i2 & -> & _). simpl. split.
  - split; [|by intros [= ->]]. intros [= Hb]. f_equal. by destruct i1, i2.
  - eexists. split; [done|]. by destruct i1.
Qed.

Lemma branch_id_separates_epochs_witness :
  CurrentEpochBranchId 0 CMainParams <> CurrentEpochBranchId 1 CMainParams.
Proof.
  destruct (branch_id_separates_epochs CMainParams 0 1) as [H _]; [lia|lia|].
  intros E. apply H in E. vm_compute in E. discriminate E.
Defined.

(** [NextActivationHeight] announces a strictly later height at which an
    upgrade switches from pending to active, and announces none only when the
    epoch never changes again. *)
Lemma NextActivationHeight_correct (params : Params) (h : Z) (Hh : 0 <= h) :
  (exists a idx, NextActivationHeight h params = Some (Some a) /\ h < a /\
     IsActivationHeight a params idx = true /\
     NetworkUpgradeActive params a idx = Some true /\
     NetworkUpgradeActive params (a - 1) idx = Some false) \/
  (NextActivationHeight h params = Some None /\
   forall h', h <= h' -> CurrentEpoch h' params = CurrentEpoch h params).
Proof.
  unfold NextActivationHeight, NextEpoch. rewrite (proj2 (Z.ltb_ge _ _)) by lia.
  destruct (next_epoch_loop_spec params h (tail upgrades) Hh) as [(idx & -> & Hin & Hp)|[-> Hn]].
  - left. simpl. unfold NetworkUpgradeState in Hp. rewrite (proj2 (Z.ltb_ge _ _)) in Hp by lia.
    set (a := nActivationHeight (vUpgrades params idx)) in *.
    destruct (Z.eqb_spec a NO_ACTIVATION_HEIGHT) as [|Hne]; [done|].
    rewrite Z.geb_leb in Hp. destruct (Z.leb_spec a h); [done|].
    exists a, idx. split_and!; [done|done| |..].
    + unfold IsActivationHeight. rewrite bool_decide_false; [|by intros ->; simpl in Hin; intuition].
      fold a. rewrite Z.eqb_refl, andb_true_r. apply Z.geb_le. lia.
    + rewrite NetworkUpgradeActive_spec by lia. f_equal. apply bool_decide_eq_true.
      unfold active_at. fold a. lia.
    + rewrite NetworkUpgradeActive_spec by lia. f_equal. apply bool_decide_eq_false.
      unfold active_at. fold a. lia.
  - right. split; [done|]. intros h' Hle. apply CurrentEpoch_ext; [lia|lia|].
    intros i Hi. split; [|by apply active_at_mono]. intros [Hne Ha]. split; [done|].
    assert (In i (tail upgrades)) as Hin by (destruct i; simpl; tauto).
    specialize (Hn i Hin). unfold NetworkUpgradeState in Hn.
    rewrite (proj2 (Z.ltb_ge _ _)) in Hn by lia. rewrite (proj2 (Z.eqb_neq _ _)) in Hn by done.
    rewrite Z.geb_leb in Hn. destruct (Z.leb_spec (nActivationHeight (vUpgrades params i)) h); [lia|done].
Qed.

Lemma NextActivationHeight_correct_witness :
  NextActivationHeight 0 CMainParams = Some (Some 1) /\
  NextActivationHeight 1 CMainParams = Some None /\
  CurrentEpoch 1000 CMainParams = CurrentEpoch 1 CMainParams.
Proof.
  split; [reflexivity|]. split; [reflexivity|].
  destruct (NextActivationHeight_correct CMainParams 1) as [(a & idx & E & _)|[_ H]]; [lia| |].
  - vm_compute in E. discriminate E.
  - apply H. lia.
Defined.

End Consensus.
