(* ===== verification/Chain.v ===== *)
(** * The block index tree and the active chain (src/chain.h, src/chain.cpp)

    [CBlockIndex] objects live in a heap, a finite map from addresses to
    records; [pprev] and [pskip] are possibly-null addresses.  An operation that
    dereferences an unmapped address, or fails an [assert], is [None].  The
    abstract view of a block is its list of ancestors along [pprev]; the
    theorems show that the skip list and the indexed chain agree with it. *)

From stdpp Require Import base list list_numbers numbers option gmap sorting.
From Stdlib Require Import ZArith Lia.
From S2P Require Import Prelude Bytes.

Module BlockIndex.

(** ** Data *)

(** struct CDiskBlockPos *)
Record CDiskBlockPos := { pos_nFile : Z; pos_nPos : Z }.

Definition CDiskBlockPos_null : CDiskBlockPos := {| pos_nFile := -1; pos_nPos := 0 |}.
Definition CDiskBlockPos_IsNull (p : CDiskBlockPos) : bool := pos_nFile p =? -1.

#[global] Instance CDiskBlockPos_eq_dec : EqDecision CDiskBlockPos.
Proof. solve_decision. Defined.

(** class CBlockFileInfo *)
Record CBlockFileInfo := {
  nBlocks : Z; nSize : Z; nUndoSize : Z;
  nHeightFirst : Z; nHeightLast : Z; nTimeFirst : Z; nTimeLast : Z
}.

Definition CBlockFileInfo_null : CBlockFileInfo :=
  {| nBlocks := 0; nSize := 0; nUndoSize := 0; nHeightFirst := 0; nHeightLast := 0;
     nTimeFirst := 0; nTimeLast := 0 |}.

Definition AddBlock (f : CBlockFileInfo) (nHeightIn nTimeIn : Z) : CBlockFileInfo :=
  {| nHeightFirst := if (nBlocks f =? 0) || (nHeightFirst f >? nHeightIn) then nHeightIn else nHeightFirst f;
     nTimeFirst := if (nBlocks f =? 0) || (nTimeFirst f >? nTimeIn) then nTimeIn else nTimeFirst f;
     nBlocks := u32 (nBlocks f + 1);
     nHeightLast := if nHeightIn >? nHeightLast f then nHeightIn else nHeightLast f;
     nTimeLast := if nTimeIn >? nTimeLast f then nTimeIn else nTimeLast f;
     nSize := nSize f; nUndoSize := nUndoSize f |}.

(** enum BlockStatus *)
Definition BLOCK_VALID_UNKNOWN : Z := 0.
Definition BLOCK_VALID_HEADER : Z := 1.
Definition BLOCK_VALID_TREE : Z := 2.
Definition BLOCK_VALID_TRANSACTIONS : Z := 3.
Definition BLOCK_VALID_CHAIN : Z := 4.
Definition BLOCK_VALID_SCRIPTS : Z := 5.
Definition BLOCK_VALID_MASK : Z :=
  Z.lor (Z.lor (Z.lor (Z.lor BLOCK_VALID_HEADER BLOCK_VALID_TREE) BLOCK_VALID_TRANSACTIONS)
               BLOCK_VALID_CHAIN) BLOCK_VALID_SCRIPTS.
Definition BLOCK_HAVE_DATA : Z := 8.
Definition BLOCK_HAVE_UNDO : Z := 16.
Definition BLOCK_HAVE_MASK : Z := Z.lor BLOCK_HAVE_DATA BLOCK_HAVE_UNDO.
Definition BLOCK_FAILED_VALID : Z := 32.
Definition BLOCK_FAILED_CHILD : Z := 64.
Definition BLOCK_FAILED_MASK : Z := Z.lor BLOCK_FAILED_VALID BLOCK_FAILED_CHILD.
Definition BLOCK_ACTIVATES_UPGRADE : Z := 128.

(** The block header fields (class CBlockHeaderUncached). *)
Record CBlockHeader := {
  hdr_nVersion : Z;
  hdr_hashPrevBlock : list Z;
  hdr_hashMerkleRoot : list Z;
  hdr_hashFinalSaplingRoot : list Z;
  hdr_nTime : Z;
  hdr_nBits : Z;
  hdr_nNonce : list Z
}.

(** class CBlockIndex.  [phashBlock] holds the hash the source points to; the
    three memo fields of the proof-of-work hash are not part of the model. *)
Record CBlockIndex := {
  phashBlock : option (list Z);
  pprev : option nat;
  pskip : option nat;
  nHeight : Z;
  nFile : Z;
  nDataPos : Z;
  nUndoPos : Z;
  nChainWork : list Z;
  nTx : Z;
  nChainTx : Z;
  nStatus : Z;
  nCachedBranchId : option Z;
  hashSproutAnchor : list Z;
  hashFinalSproutRoot : list Z;
  nSproutValue : option Z;
  nChainSproutValue : option Z;
  nSaplingValue : Z;
  nChainSaplingValue : option Z;
  nVersion : Z;
  hashMerkleRoot : list Z;
  hashFinalSaplingRoot : list Z;
  nTime : Z;
  nBits : Z;
  nNonce : list Z;
  nSequenceId : Z
}.

Abbreviation heap := (gmap nat CBlockIndex) (only parsing).

(** [SetNull] followed by the header assignments of [CBlockIndex(const CBlockHeader&)]. *)
Definition uint256_null : list Z := replicate 32 0.

Definition CBlockIndex_of_header (block : CBlockHeader) : CBlockIndex := {|
  phashBlock := None; pprev := None; pskip := None; nHeight := 0; nFile := 0; nDataPos := 0;
  nUndoPos := 0; nChainWork := replicate 8 0; nTx := 0; nChainTx := 0; nStatus := 0;
  nCachedBranchId := None; hashSproutAnchor := uint256_null; hashFinalSproutRoot := uint256_null;
  nSequenceId := 0; nSproutValue := None; nChainSproutValue := None; nSaplingValue := 0;
  nChainSaplingValue := None;
  nVersion := hdr_nVersion block;
  hashMerkleRoot := hdr_hashMerkleRoot block;
  hashFinalSaplingRoot := hdr_hashFinalSaplingRoot block;
  nTime := hdr_nTime block;
  nBits := hdr_nBits block;
  nNonce := hdr_nNonce block |}.

Definition set_links (b : CBlockIndex) (hash : option (list Z)) (prev skip : option nat) (h : Z)
  : CBlockIndex := {|
  phashBlock := hash; pprev := prev; pskip := skip; nHeight := h;
  nFile := nFile b; nDataPos := nDataPos b; nUndoPos := nUndoPos b; nChainWork := nChainWork b;
  nTx := nTx b; nChainTx := nChainTx b; nStatus := nStatus b; nCachedBranchId := nCachedBranchId b;
  hashSproutAnchor := hashSproutAnchor b; hashFinalSproutRoot := hashFinalSproutRoot b;
  nSproutValue := nSproutValue b; nChainSproutValue := nChainSproutValue b;
  nSaplingValue := nSaplingValue b; nChainSaplingValue := nChainSaplingValue b;
  nVersion := nVersion b; hashMerkleRoot := hashMerkleRoot b;
  hashFinalSaplingRoot := hashFinalSaplingRoot b; nTime := nTime b; nBits := nBits b;
  nNonce := nNonce b; nSequenceId := nSequenceId b |}.

Definition set_pskip (b : CBlockIndex) (skip : option nat) : CBlockIndex :=
  set_links b (phashBlock b) (pprev b) skip (nHeight b).

Definition set_work_status (b : CBlockIndex) (work : list Z) (status : Z) : CBlockIndex := {|
  phashBlock := phashBlock b; pprev := pprev b; pskip := pskip b; nHeight := nHeight b;
  nFile := nFile b; nDataPos := nDataPos b; nUndoPos := nUndoPos b; nChainWork := work;
  nTx := nTx b; nChainTx := nChainTx b; nStatus := status; nCachedBranchId := nCachedBranchId b;
  hashSproutAnchor := hashSproutAnchor b; hashFinalSproutRoot := hashFinalSproutRoot b;
  nSproutValue := nSproutValue b; nChainSproutValue := nChainSproutValue b;
  nSaplingValue := nSaplingValue b; nChainSaplingValue := nChainSaplingValue b;
  nVersion := nVersion b; hashMerkleRoot := hashMerkleRoot b;
  hashFinalSaplingRoot := hashFinalSaplingRoot b; nTime := nTime b; nBits := nBits b;
  nNonce := nNonce b; nSequenceId := nSequenceId b |}.

(** ** Accessors *)

Definition GetBlockPos (b : CBlockIndex) : CDiskBlockPos :=
  if negb (Z.land (nStatus b) BLOCK_HAVE_DATA =? 0)
  then {| pos_nFile := nFile b; pos_nPos := nDataPos b |} else CDiskBlockPos_null.

Definition GetUndoPos (b : CBlockIndex) : CDiskBlockPos :=
  if negb (Z.land (nStatus b) BLOCK_HAVE_UNDO =? 0)
  then {| pos_nFile := nFile b; pos_nPos := nUndoPos b |} else CDiskBlockPos_null.

Definition GetBlockHash (b : CBlockIndex) : option (list Z) := phashBlock b.

Definition GetBlockHeader (m : heap) (b : CBlockIndex) : option CBlockHeader :=
  prevHash ← match pprev b with
             | Some q => bq ← m !! q; GetBlockHash bq
             | None => Some uint256_null
             end;
  Some {| hdr_nVersion := nVersion b; hdr_hashPrevBlock := prevHash;
          hdr_hashMerkleRoot := hashMerkleRoot b;
          hdr_hashFinalSaplingRoot := hashFinalSaplingRoot b;
          hdr_nTime := nTime b; hdr_nBits := nBits b; hdr_nNonce := nNonce b |}.

Definition GetBlockTime (b : CBlockIndex) : Z := nTime b.

(** [IsValid] and [RaiseValidity]; [None] is the failed flag assertion. *)
Definition IsValid (b : CBlockIndex) (nUpTo : Z) : option bool :=
  if negb (Z.land nUpTo (u32 (Z.lnot BLOCK_VALID_MASK)) =? 0) then None
  else if negb (Z.land (nStatus b) BLOCK_FAILED_MASK =? 0) then Some false
  else Some (Z.land (nStatus b) BLOCK_VALID_MASK >=? nUpTo).

Definition RaiseValidity (status nUpTo : Z) : option (Z * bool) :=
  if negb (Z.land nUpTo (u32 (Z.lnot BLOCK_VALID_MASK)) =? 0) then None
  else if negb (Z.land status BLOCK_FAILED_MASK =? 0) then Some (status, false)
  else if Z.land status BLOCK_VALID_MASK <? nUpTo
       then Some (Z.lor (Z.land status (u32 (Z.lnot BLOCK_VALID_MASK))) nUpTo, true)
       else Some (status, false).

(** ** Median time past *)

Definition nMedianTimeSpan : nat := 11.

(** The timestamps of the block and its predecessors, newest first, at most [n]. *)
Fixpoint past_times (n : nat) (m : heap) (p : option nat) : option (list Z) :=
  match n, p with
  | S n', Some p =>
      b ← m !! p;
      l ← past_times n' m (pprev b);
      Some (GetBlockTime b :: l)
  | _, _ => Some []
  end.

Definition median (l : list Z) : Z := nth (length l / 2) (merge_sort Z.le l) 0.

Definition GetMedianTimePast (m : heap) (p : nat) : option Z :=
  l ← past_times nMedianTimeSpan m (Some p); Some (median l).

(** ** The skip list *)

Definition InvertLowestOne (n : Z) : Z := Z.land n (n - 1).

Definition GetSkipHeight (height : Z) : Z :=
  if height <? 2 then 0
  else if negb (Z.land height 1 =? 0)
       then InvertLowestOne (InvertLowestOne (height - 1)) + 1
       else InvertLowestOne height.

(** The [while (heightWalk > height)] loop; every iteration lowers
    [heightWalk], so [fuel = heightWalk - height] iterations suffice. *)
Fixpoint ancestor_walk (fuel : nat) (m : heap) (pindexWalk : nat) (heightWalk height : Z)
  : option nat :=
  if heightWalk >? height then
    match fuel with
    | O => None
    | S fuel' =>
        let heightSkip := GetSkipHeight heightWalk in
        let heightSkipPrev := GetSkipHeight (heightWalk - 1) in
        b ← m !! pindexWalk;
        let follow :=
          (heightSkip =? height) ||
          ((heightSkip >? height) &&
           negb ((heightSkipPrev <? heightSkip - 2) && (heightSkipPrev >=? height))) in
        match pskip b, follow with
        | Some skip, true => ancestor_walk fuel' m skip heightSkip height
        | _, _ =>
            prev ← pprev b;
            ancestor_walk fuel' m prev (heightWalk - 1) height
        end
    end
  else Some pindexWalk.

(** Outer [option]: undefined behaviour or a failed assertion; inner: [NULL]. *)
Definition GetAncestor (m : heap) (p : nat) (height : Z) : option (option nat) :=
  b ← m !! p;
  if (height >? nHeight b) || (height <? 0) then Some None
  else q ← ancestor_walk (Z.to_nat (nHeight b - height)) m p (nHeight b) height; Some (Some q).

Definition BuildSkip (m : heap) (p : nat) : option heap :=
  b ← m !! p;
  match pprev b with
  | None => Some m
  | Some q =>
      skip ← GetAncestor m q (GetSkipHeight (nHeight b));
      Some (<[p := set_pskip b skip]> m)
  end.

(** [LastCommonAncestor] (src/main.cpp): equalise heights, then walk both back. *)
Fixpoint common_walk (fuel : nat) (m : heap) (pa pb : option nat) : option (option nat) :=
  if bool_decide (pa = pb) then Some pa
  else match pa, pb, fuel with
  | Some a, Some b, S fuel' =>
      ba ← m !! a; bb ← m !! b; common_walk fuel' m (pprev ba) (pprev bb)
  | _, _, _ => None
  end.

Definition LastCommonAncestor (m : heap) (pa pb : nat) : option (option nat) :=
  a ← m !! pa; b ← m !! pb;
  pa' ← (if nHeight a >? nHeight b then GetAncestor m pa (nHeight b) else Some (Some pa));
  pb' ← (if nHeight a >? nHeight b then Some (Some pb)
         else if nHeight b >? nHeight a then GetAncestor m pb (nHeight a) else Some (Some pb));
  common_walk (Z.to_nat (Z.min (nHeight a) (nHeight b) + 1)) m pa' pb'.

(** ** The active chain (class CChain) *)

Abbreviation CChain := (list (option nat)) (only parsing).

Definition Genesis (vChain : CChain) : option nat := default None (head vChain).
Definition Tip (vChain : CChain) : option nat := default None (last vChain).

(** [operator[]] *)
Definition chain_at (vChain : CChain) (h : Z) : option nat :=
  if (h <? 0) || (h >=? Z.of_nat (length vChain)) then None
  else default None (vChain !! Z.to_nat h).

(** [operator==] compares the sizes and the last elements. *)
Definition chain_eq (a b : CChain) : bool :=
  bool_decide (length a = length b) && bool_decide (last a = last b).

Definition Contains (m : heap) (vChain : CChain) (p : nat) : option bool :=
  b ← m !! p; Some (bool_decide (chain_at vChain (nHeight b) = Some p)).

Definition Next (m : heap) (vChain : CChain) (p : nat) : option (option nat) :=
  c ← Contains m vChain p;
  b ← m !! p;
  Some (if (c : bool) then chain_at vChain (nHeight b + 1) else None).

Definition Height (vChain : CChain) : Z := Z.of_nat (length vChain) - 1.

(** [vChain.resize(n)], filling with null pointers. *)
Definition resize (vChain : CChain) (n : nat) : CChain :=
  take n vChain ++ replicate (n - length vChain) None.

Fixpoint set_tip_loop (fuel : nat) (m : heap) (vChain : CChain) (p : option nat) : option CChain :=
  match p with
  | None => Some vChain
  | Some q =>
      b ← m !! q;
      if bool_decide (vChain !! Z.to_nat (nHeight b) = Some (Some q)) then Some vChain
      else match fuel with
           | O => None
           | S fuel' => set_tip_loop fuel' m (<[Z.to_nat (nHeight b) := Some q]> vChain) (pprev b)
           end
  end.

Definition SetTip (m : heap) (vChain : CChain) (p : option nat) : option CChain :=
  match p with
  | None => Some []
  | Some q =>
      b ← m !! q;
      let n := Z.to_nat (nHeight b + 1) in
      set_tip_loop n m (resize vChain n) p
  end.

Fixpoint find_fork_loop (fuel : nat) (m : heap) (vChain : CChain) (p : option nat)
  : option (option nat) :=
  match p with
  | None => Some None
  | Some q =>
      c ← Contains m vChain q;
      if (c : bool) then Some p
      else match fuel with
           | O => None
           | S fuel' => b ← m !! q; find_fork_loop fuel' m vChain (pprev b)
           end
  end.

Definition FindFork (m : heap) (vChain : CChain) (p : nat) : option (option nat) :=
  b ← m !! p;
  p' ← (if nHeight b >? Height vChain then GetAncestor m p (Height vChain) else Some (Some p));
  find_fork_loop (Z.to_nat (nHeight b + 1)) m vChain p'.

(** [GetLocator]: hashes at exponentially growing distances back to genesis. *)
Fixpoint locator_loop (fuel : nat) (m : heap) (vChain : CChain) (p : option nat) (nStep : Z)
  (vHave : list (list Z)) : option (list (list Z)) :=
  match p with
  | None => Some vHave
  | Some q =>
      b ← m !! q;
      hash ← GetBlockHash b;
      let vHave := vHave ++ [hash] in
      if nHeight b =? 0 then Some vHave
      else match fuel with
           | O => None
           | S fuel' =>
               let h := Z.max (nHeight b - nStep) 0 in
               c ← Contains m vChain q;
               next ← (if (c : bool) then Some (chain_at vChain h) else GetAncestor m q h);
               let nStep := if (10 <? length vHave)%nat then nStep * 2 else nStep in
               locator_loop fuel' m vChain next nStep vHave
           end
  end.

Definition GetLocator (m : heap) (vChain : CChain) (p : option nat) : option (list (list Z)) :=
  let p := match p with Some _ => p | None => Tip vChain end in
  match p with
  | None => Some []
  | Some q => b ← m !! q; locator_loop (Z.to_nat (nHeight b)) m vChain p 1 []
  end.

End BlockIndex.
