(* ===== verification/ChainFacts.v ===== *)
(** * Correctness of the block index tree and the active chain

    The reference notion is [back n m p], the [n]-th predecessor of [p] along
    [pprev].  [tree_ok] is the invariant of the heap of block indices;
    [BuildSkip] preserves it, [GetAncestor] agrees with [back], and the indexed
    chain ([SetTip], [FindFork], [GetLocator]) is the ancestor list of its tip. *)

From stdpp Require Import base list list_numbers numbers option gmap sorting.
From Stdlib Require Import ZArith Lia.
From S2P Require Import Prelude Bytes Chain.
Import BlockIndex.

Module ChainFacts.

Fixpoint back (n : nat) (m : gmap nat CBlockIndex) (p : nat) : option nat :=
  match n with
  | O => Some p
  | S n' => b ← m !! p; q ← pprev b; back n' m q
  end.

(** The invariant of the block index heap. *)
Record node_ok (m : gmap nat CBlockIndex) (p : nat) (b : CBlockIndex) : Prop := {
  node_height : 0 <= nHeight b;
  node_root : pprev b = None -> nHeight b = 0;
  node_prev q : pprev b = Some q -> exists bq, m !! q = Some bq /\ nHeight bq = nHeight b - 1;
  node_skip s : pskip b = Some s -> 0 < nHeight b /\
    back (Z.to_nat (nHeight b - GetSkipHeight (nHeight b))) m p = Some s
}.

Definition tree_ok (m : gmap nat CBlockIndex) : Prop :=
  forall p b, m !! p = Some b -> node_ok m p b.

Definition is_ancestor (m : gmap nat CBlockIndex) (q p : nat) : Prop :=
  exists n, back n m p = Some q.

(** ** Skip heights *)

Lemma InvertLowestOne_bound n : 0 <= n -> 0 <= InvertLowestOne n <= Z.max 0 (n - 1).
Proof.
  intros Hn. unfold InvertLowestOne.
  destruct (decide (n = 0)) as [->|]; [done|].
  split; [apply Z.land_nonneg; lia|].
  assert (Z.land n (n - 1) <= n - 1); [|lia].
  rewrite <- (Z.land_diag (n - 1)) at 2.
  destruct (Z.le_gt_cases (Z.land n (n - 1)) (Z.land (n - 1) (n - 1))) as [|Hgt]; [done|].
  rewrite Z.land_diag in Hgt. exfalso.
  pose proof (Z.ldiff_le (n - 1) n). pose proof (Z.land_nonneg n (n-1)).
  assert (n - 1 = Z.land n (n - 1) + Z.ldiff (n - 1) n) as Heq.
  { rewrite Z.add_nocarry_lxor, Z.lxor_lor.
    - apply Z.bits_inj'. intros k Hk. rewrite Z.lor_spec, Z.land_spec, Z.ldiff_spec.
      by destruct (Z.testbit n k), (Z.testbit (n - 1) k).
    - apply Z.bits_inj'. intros k Hk. rewrite !Z.land_spec, Z.ldiff_spec, Z.bits_0.
      by destruct (Z.testbit n k), (Z.testbit (n - 1) k).
    - apply Z.bits_inj'. intros k Hk. rewrite !Z.land_spec, Z.ldiff_spec, Z.bits_0.
      by destruct (Z.testbit n k), (Z.testbit (n - 1) k). }
  assert (0 <= Z.ldiff (n - 1) n) by (apply Z.ldiff_nonneg; lia). lia.
Qed.

Lemma GetSkipHeight_bound h : 0 < h -> 0 <= GetSkipHeight h < h.
Proof.
  intros Hh. unfold GetSkipHeight. destruct (Z.ltb_spec h 2); [lia|].
  pose proof (InvertLowestOne_bound h). pose proof (InvertLowestOne_bound (h - 1)).
  pose proof (InvertLowestOne_bound (InvertLowestOne (h - 1))).
  destruct (negb _) eqn:E; [|lia].
  assert (h <> 2); [|lia]. intros ->. done.
Qed.

(** ** Predecessor walks *)

Section Tree.
Context (m : gmap nat CBlockIndex) (Hm : tree_ok m).

Lemma back_total n p b :
  m !! p = Some b -> Z.of_nat n <= nHeight b ->
  exists q bq, back n m p = Some q /\ m !! q = Some bq /\ nHeight bq = nHeight b - Z.of_nat n.
Proof using Hm.
  revert p b. induction n as [|n IH]; intros p b Hp Hn.
  { exists p, b. split_and!; [done..|lia]. }
  destruct (pprev b) as [q|] eqn:Hq.
  - destruct (node_prev _ _ _ (Hm _ _ Hp) _ Hq) as (bq & Hbq & Hh).
    destruct (IH q bq Hbq) as (r & br & H1 & H2 & H3); [lia|].
    exists r, br. simpl. rewrite Hp. simpl. rewrite Hq. simpl. split_and!; [done..|lia].
  - pose proof (node_root _ _ _ (Hm _ _ Hp) Hq). lia.
Qed.

Lemma back_height n p b q bq :
  m !! p = Some b -> back n m p = Some q -> m !! q = Some bq ->
  nHeight bq = nHeight b - Z.of_nat n.
Proof using Hm.
  revert p b. induction n as [|n IH]; intros p b Hp Hb Hq; simpl in Hb.
  { injection Hb as <-. rewrite Hp in Hq. injection Hq as <-. lia. }
  rewrite Hp in Hb. simpl in Hb. destruct (pprev b) as [r|] eqn:Hr; [|done].
  destruct (node_prev _ _ _ (Hm _ _ Hp) _ Hr) as (br & Hbr & Hh).
  rewrite (IH r br Hbr Hb Hq). lia.
Qed.

Lemma back_add i j p : back (i + j) m p = back i m p ≫= back j m.
Proof.
  revert p. induction i as [|i IH]; intros p; [done|]. simpl.
  destruct (m !! p) as [b|]; [simpl|done]. destruct (pprev b) as [q|]; [simpl|done]. apply IH.
Qed.

Lemma back_mapped n p b q :
  m !! p = Some b -> back n m p = Some q -> exists bq, m !! q = Some bq.
Proof using Hm.
  revert p b. induction n as [|n IH]; intros p b Hp Hb; simpl in Hb.
  { injection Hb as <-. eauto. }
  rewrite Hp in Hb. simpl in Hb. destruct (pprev b) as [r|] eqn:Hr; [|done].
  destruct (node_prev _ _ _ (Hm _ _ Hp) _ Hr) as (br & Hbr & _). eauto.
Qed.

(** The walk of [GetAncestor] reaches the reference ancestor. *)
Lemma ancestor_walk_back fuel p b h :
  m !! p = Some b -> 0 <= h <= nHeight b -> (Z.to_nat (nHeight b - h) <= fuel)%nat ->
  ancestor_walk fuel m p (nHeight b) h = back (Z.to_nat (nHeight b - h)) m p.
Proof using Hm.
  revert p b. induction fuel as [|fuel IH]; intros p b Hp Hh Hf; simpl; rewrite Z.gtb_ltb.
  { rewrite (proj2 (Z.ltb_ge _ _)) by lia. by replace (Z.to_nat (nHeight b - h)) with O by lia. }
  destruct (Z.ltb_spec h (nHeight b)) as [Hlt|Hge].
  2: { by replace (Z.to_nat (nHeight b - h)) with O by lia. }
  rewrite Hp. simpl. pose proof (GetSkipHeight_bound (nHeight b)) as Hsk.
  destruct (pskip b) as [s|] eqn:Hs; [destruct (_ || _) eqn:Hfol|].
  2,3: destruct (pprev b) as [q|] eqn:Hq; [|pose proof (node_root _ _ _ (Hm _ _ Hp) Hq); lia];
    destruct (node_prev _ _ _ (Hm _ _ Hp) _ Hq) as (bq & Hbq & Hhq); simpl;
    replace (nHeight b - 1) with (nHeight bq) by lia; rewrite (IH q bq Hbq) by lia;
    replace (Z.to_nat (nHeight b - h)) with (S (Z.to_nat (nHeight bq - h))) by lia;
    simpl; rewrite Hp; simpl; by rewrite Hq.
  - destruct (node_skip _ _ _ (Hm _ _ Hp) _ Hs) as [_ Hback].
    assert (h <= GetSkipHeight (nHeight b)) as Hle.
    { apply orb_true_iff in Hfol as [H|H]; [apply Z.eqb_eq in H; lia|].
      apply andb_true_iff in H as [H _]. rewrite Z.gtb_ltb in H. apply Z.ltb_lt in H. lia. }
    destruct (back_mapped _ _ _ _ Hp Hback) as [bs Hbs].
    pose proof (back_height _ _ _ _ _ Hp Hback Hbs) as Hhs.
    replace (GetSkipHeight (nHeight b)) with (nHeight bs) at 1 by lia.
    rewrite (IH s bs Hbs) by lia.
    replace (Z.to_nat (nHeight b - h))
      with (Z.to_nat (nHeight b - GetSkipHeight (nHeight b)) + Z.to_nat (nHeight bs - h))%nat by lia.
    by rewrite back_add, Hback.
Qed.

Lemma GetAncestor_back p b h :
  m !! p = Some b -> 0 <= h <= nHeight b ->
  exists q bq, GetAncestor m p h = Some (Some q) /\ back (Z.to_nat (nHeight b - h)) m p = Some q
    /\ m !! q = Some bq /\ nHeight bq = h.
Proof using Hm.
  intros Hp Hh. unfold GetAncestor. rewrite Hp. simpl.
  rewrite Z.gtb_ltb, (proj2 (Z.ltb_ge _ _)), (proj2 (Z.ltb_ge _ _)) by lia. simpl.
  rewrite ancestor_walk_back by (done || lia).
  destruct (back_total (Z.to_nat (nHeight b - h)) p b Hp) as (q & bq & -> & Hq & Hhq); [lia|].
  exists q, bq. split_and!; [done..|lia].
Qed.

Lemma GetAncestor_null p b h :
  m !! p = Some b -> h < 0 \/ nHeight b < h -> GetAncestor m p h = Some None.
Proof.
  intros Hp Hh. unfold GetAncestor. rewrite Hp. simpl. rewrite Z.gtb_ltb.
  destruct Hh; [rewrite (proj2 (Z.ltb_lt h 0)), orb_true_r by lia
               |rewrite (proj2 (Z.ltb_lt _ h)) by lia]; done.
Qed.

(** ** Building the skip pointer *)

(** [back] only reads [pprev]. *)
Lemma back_ext (m1 m2 : gmap nat CBlockIndex) n p :
  (forall q, pprev <$> m1 !! q = pprev <$> m2 !! q) -> back n m1 p = back n m2 p.
Proof.
  intros Hext. revert p. induction n as [|n IH]; intros p; [done|]. simpl.
  specialize (Hext p). destruct (m1 !! p) as [b1|], (m2 !! p) as [b2|]; simpl in *; try done.
  injection Hext as ->. destruct (pprev b2); [apply IH|done].
Qed.

Lemma BuildSkip_tree p b :
  m !! p = Some b ->
  exists m', BuildSkip m p = Some m' /\ tree_ok m' /\
    (forall q, pprev <$> m' !! q = pprev <$> m !! q) /\
    (forall q, nHeight <$> m' !! q = nHeight <$> m !! q) /\
    (pprev b <> None -> exists b', m' !! p = Some b' /\
       pskip b' = back (Z.to_nat (nHeight b - GetSkipHeight (nHeight b))) m p /\ pskip b' <> None).
Proof using Hm.
  intros Hp. unfold BuildSkip. rewrite Hp. simpl. pose proof (Hm _ _ Hp) as Hok.
  destruct (pprev b) as [q|] eqn:Hq; [|by exists m].
  destruct (node_prev _ _ _ Hok _ Hq) as (bq & Hbq & Hhq).
  pose proof (node_height _ _ _ (Hm _ _ Hbq)) as Hq0.
  pose proof (GetSkipHeight_bound (nHeight b)) as Hsk.
  destruct (GetAncestor_back q bq (GetSkipHeight (nHeight b)) Hbq) as (s & bs & HG & Hback & _ & _);
    [lia|]. rewrite HG. simpl. eexists. split; [done|].
  set (m' := <[p := set_pskip b (Some s)]> m).
  assert (forall r, pprev <$> m' !! r = pprev <$> m !! r) as Hprev.
  { intros r. unfold m'. destruct (decide (p = r)) as [<-|]; simplify_map_eq; [|done].
    by rewrite Hq. }
  assert (forall r, nHeight <$> m' !! r = nHeight <$> m !! r) as Hheight.
  { intros r. unfold m'. by destruct (decide (p = r)) as [<-|]; simplify_map_eq. }
  assert (back (Z.to_nat (nHeight b - GetSkipHeight (nHeight b))) m p = Some s) as Hb.
  { replace (Z.to_nat (nHeight b - GetSkipHeight (nHeight b)))
      with (S (Z.to_nat (nHeight bq - GetSkipHeight (nHeight b)))) by lia.
    simpl. rewrite Hp. simpl. by rewrite Hq. }
  split_and!; [|done..|].
  - intros r br Hr.
    assert (exists br0, m !! r = Some br0 /\ nHeight br = nHeight br0 /\ pprev br = pprev br0 /\
      (pskip br = pskip br0 \/ (r = p /\ br = set_pskip b (Some s)))) as (br0 & Hr0 & Hh & Hpv & Hskip).
    { unfold m' in Hr. destruct (decide (p = r)) as [<-|]; simplify_map_eq.
      - exists b. naive_solver.
      - exists br. naive_solver. }
    destruct (Hm _ _ Hr0) as [K1 K2 K3 K4]. split.
    + lia.
    + rewrite Hpv, Hh. done.
    + intros r' Hr'. rewrite Hpv in Hr'. destruct (K3 r' Hr') as (b' & Hb' & Hh').
      specialize (Hheight r'). rewrite Hb' in Hheight.
      destruct (m' !! r') as [b''|]; simplify_eq/=. exists b''. split; [done|]. congruence.
    + intros s' Hs'. rewrite (back_ext m' m) by done. rewrite Hh.
      destruct Hskip as [Hsk'|[-> ->]].
      * apply K4. congruence.
      * simpl in Hs', Hh. injection Hs' as <-. rewrite Hr0 in Hp. injection Hp as ->. split; [lia|done].
  - intros _. exists (set_pskip b (Some s)). unfold m'. rewrite lookup_insert_eq.
    simpl. rewrite Hb. done.
Qed.

(** ** The active chain *)

(** [c] is the list of ancestors of [p], indexed by height. *)
Definition chain_for (c : list (option nat)) (p : nat) (b : CBlockIndex) : Prop :=
  m !! p = Some b /\ Z.of_nat (length c) = nHeight b + 1 /\
  forall i, (i < length c)%nat -> c !! i = Some (back (length c - 1 - i) m p).

Definition chain_ok (c : list (option nat)) : Prop :=
  c = [] \/ exists p b, chain_for c p b.

(** Two chains through the same block agree below it. *)
Lemma chain_for_below c t bt i q bq :
  chain_for c t bt -> (i < length c)%nat -> c !! i = Some (Some q) -> m !! q = Some bq ->
  nHeight bq = Z.of_nat i ->
  forall j, (j <= i)%nat -> c !! j = Some (back (i - j) m q).
Proof.
  intros (Ht & Hl & Hc) Hi Hq Hbq Hh j Hj.
  rewrite Hc in Hq by lia. injection Hq as Hq. rewrite Hc by lia. f_equal.
  replace (length c - 1 - j)%nat with ((length c - 1 - i) + (i - j))%nat by lia.
  by rewrite back_add, Hq.
Qed.

Lemma chain_at_for c p b h :
  chain_for c p b -> 0 <= h <= nHeight b ->
  chain_at c h = back (Z.to_nat (nHeight b - h)) m p.
Proof.
  intros (Hp & Hl & Hc) Hh. unfold chain_at.
  rewrite (proj2 (Z.ltb_ge _ _)), Z.geb_leb, (proj2 (Z.leb_gt _ _)) by lia. simpl.
  rewrite Hc by lia. simpl. f_equal. lia.
Qed.

Lemma chain_for_lookup c p b i q :
  chain_for c p b -> c !! i = Some (Some q) ->
  exists bq, m !! q = Some bq /\ nHeight bq = Z.of_nat i.
Proof using Hm.
  intros (Hp & Hl & Hc) Hq. assert (i < length c)%nat as Hi by (by eapply lookup_lt_Some).
  rewrite Hc in Hq by done. injection Hq as Hq.
  destruct (back_mapped _ _ _ _ Hp Hq) as [bq Hbq].
  exists bq. split; [done|]. rewrite (back_height _ _ _ _ _ Hp Hq Hbq). lia.
Qed.

Lemma length_resize c n : length (resize c n) = n.
Proof. unfold resize. rewrite length_app, length_take, length_replicate. lia. Qed.

Lemma resize_lookup c n i q :
  resize c n !! i = Some (Some q) -> c !! i = Some (Some q) /\ (i < n)%nat /\ (i < length c)%nat.
Proof.
  intros H. assert (i < n)%nat as Hi by (rewrite <- (length_resize c n); by eapply lookup_lt_Some).
  unfold resize in H. destruct (decide (i < length c)%nat).
  - rewrite lookup_app_l in H by (rewrite length_take; lia).
    rewrite lookup_take_lt in H by lia. done.
  - rewrite lookup_app_r in H by (rewrite length_take; lia).
    rewrite lookup_replicate in H. destruct H as [[=] _].
Qed.

Lemma resize_lookup_in c n i :
  (i < n)%nat -> (i < length c)%nat -> resize c n !! i = c !! i.
Proof.
  intros H1 H2. unfold resize.
  rewrite lookup_app_l by (rewrite length_take; lia). by rewrite lookup_take_lt by lia.
Qed.

(** The loop of [SetTip]: entries above the current block are already the
    ancestors of the new tip, entries at or below it are the old chain's. *)
Lemma set_tip_loop_spec c0 p b n : chain_ok c0 -> m !! p = Some b -> Z.of_nat n = nHeight b + 1 ->
  forall fuel c k q,
    length c = n -> (fuel = n - k)%nat -> (k <= n)%nat ->
    q = (if decide (k < n)%nat then back k m p else None) ->
    (forall i, (n - k <= i < n)%nat -> c !! i = Some (back (n - 1 - i) m p)) ->
    (forall i, (i < n - k)%nat -> c !! i = resize c0 n !! i) ->
  exists c', set_tip_loop fuel m c q = Some c' /\ chain_for c' p b.
Proof using Hm.
  intros Hc0 Hp Hn. induction fuel as [|fuel IH]; intros c k q Hlc Hfuel Hk -> Habove Hbelow.
  { rewrite decide_False by lia. exists c. split; [done|]. split_and!; [done|lia|].
    intros i Hi. rewrite Hlc. apply Habove. lia. }
  rewrite decide_True by lia.
  destruct (back_total k p b Hp) as (q & bq & Hq & Hbq & Hhq); [lia|]. rewrite Hq. simpl. rewrite Hbq. simpl.
  replace (Z.to_nat (nHeight bq)) with (n - 1 - k)%nat by lia.
  case_bool_decide as Hstop.
  - exists c. split; [done|]. split_and!; [done|lia|]. intros i Hi. rewrite Hlc in *.
    destruct (decide (n - k <= i)%nat); [apply Habove; lia|].
    rewrite Hbelow in Hstop by lia. apply resize_lookup in Hstop as (Hs & _ & Hlt).
    destruct Hc0 as [->|(t & bt & Ht)]; [done|].
    rewrite Hbelow, resize_lookup_in by lia.
    rewrite (chain_for_below c0 t bt (n - 1 - k) q bq Ht) by (done || lia).
    f_equal. replace (n - 1 - i)%nat with (k + (n - 1 - k - i))%nat by lia. by rewrite back_add, Hq.
  - apply (IH _ (S k)); rewrite ?length_insert; try lia.
    + destruct (decide (S k < n)%nat) as [Hlt|Hge].
      * replace (S k) with (k + 1)%nat by lia. rewrite back_add, Hq. simpl. rewrite Hbq. simpl.
        by destruct (pprev bq).
      * destruct (pprev bq) as [r|] eqn:Hr; [|done].
        destruct (node_prev _ _ _ (Hm _ _ Hbq) _ Hr) as (br & Hbr & Hhr).
        pose proof (node_height _ _ _ (Hm _ _ Hbr)). lia.
    + intros i Hi. destruct (decide (i = n - 1 - k)%nat) as [->|].
      * rewrite list_lookup_insert_eq by lia. f_equal. rewrite <- Hq. f_equal. lia.
      * rewrite list_lookup_insert_ne by lia. apply Habove. lia.
    + intros i Hi. rewrite list_lookup_insert_ne by lia. apply Hbelow. lia.
Qed.

Lemma SetTip_chain c p b :
  chain_ok c -> m !! p = Some b ->
  exists c', SetTip m c (Some p) = Some c' /\ chain_for c' p b.
Proof using Hm.
  intros Hc Hp. unfold SetTip. rewrite Hp. simpl.
  pose proof (node_height _ _ _ (Hm _ _ Hp)).
  apply (set_tip_loop_spec c p b (Z.to_nat (nHeight b + 1)) Hc Hp ltac:(lia) _ _ 0);
    rewrite ?length_resize; try lia.
  - by rewrite decide_True by lia.
  - done.
Qed.

(** ** Forks *)

Definition in_chain (c : list (option nat)) (q : nat) : Prop :=
  exists i, c !! i = Some (Some q).

Lemma Contains_in_chain c q bq :
  chain_ok c -> m !! q = Some bq -> Contains m c q = Some (bool_decide (chain_at c (nHeight bq) = Some q))
  /\ (chain_at c (nHeight bq) = Some q <-> in_chain c q).
Proof using Hm.
  intros Hc Hq. unfold Contains. rewrite Hq. split; [done|].
  pose proof (node_height _ _ _ (Hm _ _ Hq)) as H0. unfold chain_at. rewrite Z.geb_leb. split.
  - destruct (_ || _) eqn:E; [done|]. intros H.
    exists (Z.to_nat (nHeight bq)). destruct (c !! _); [simpl in H; by subst|done].
  - intros [i Hi]. destruct Hc as [->|(t & bt & Ht)]; [done|].
    destruct (chain_for_lookup _ _ _ _ _ Ht Hi) as (bq' & Hbq' & Hh).
    rewrite Hq in Hbq'. injection Hbq' as <-. pose proof (lookup_lt_Some _ _ _ Hi).
    rewrite (proj2 (Z.ltb_ge _ _)), (proj2 (Z.leb_gt _ _)) by lia. simpl.
    rewrite Hh, Nat2Z.id, Hi. done.
Qed.

(** The loop of [FindFork] returns the first block of the walk that is in the chain. *)
Lemma find_fork_loop_spec c fuel : chain_ok c -> forall p b,
  m !! p = Some b -> (Z.to_nat (nHeight b) < fuel)%nat ->
  exists r, find_fork_loop fuel m c (Some p) = Some r /\
    match r with
    | Some q => in_chain c q /\ exists n, back n m p = Some q /\
                forall k q', (k < n)%nat -> back k m p = Some q' -> ~ in_chain c q'
    | None => forall q', is_ancestor m q' p -> ~ in_chain c q'
    end.
Proof using Hm.
  intros Hc. induction fuel as [|fuel IH]; intros p b Hp Hf; [lia|].
  cbn [find_fork_loop].
  destruct (Contains_in_chain c p b Hc Hp) as [-> Hiff]. simpl. case_bool_decide as Hin.
  { exists (Some p). split; [done|]. split; [by apply Hiff|]. exists O. split; [done|lia]. }
  rewrite Hiff in Hin. rewrite Hp. simpl. destruct (pprev b) as [q|] eqn:Hq.
  - destruct (node_prev _ _ _ (Hm _ _ Hp) _ Hq) as (bq & Hbq & Hhq).
    pose proof (node_height _ _ _ (Hm _ _ Hbq)).
    destruct (IH q bq Hbq) as (r & Hr & Hspec); [lia|]. exists r. split; [done|].
    assert (forall k, back (S k) m p = back k m q) as Hback by (intros k; simpl; rewrite Hp; simpl; by rewrite Hq).
    destruct r as [r|].
    + destruct Hspec as (Hir & n & Hn & Hmin). split; [done|]. exists (S n). rewrite Hback.
      split; [done|]. intros [|k] q' Hk; [intros [= <-]; done|]. rewrite Hback. apply Hmin. lia.
    + intros q' [[|k] Hk]; [injection Hk as <-; done|]. rewrite Hback in Hk. apply Hspec. by exists k.
  - destruct fuel; simpl; eexists; (split; [done|]);
      (intros q' [[|k] Hk]; [injection Hk as <-; done|simpl in Hk; rewrite Hp in Hk; simpl in Hk; by rewrite Hq in Hk]).
Qed.

Lemma ancestor_below p b q bq q' bq' n :
  m !! p = Some b -> back n m p = Some q -> m !! q = Some bq -> m !! q' = Some bq' ->
  is_ancestor m q' p -> nHeight bq' <= nHeight bq -> is_ancestor m q' q.
Proof using Hm.
  intros Hp Hq Hbq Hbq' [k Hk] Hle.
  pose proof (back_height _ _ _ _ _ Hp Hq Hbq). pose proof (back_height _ _ _ _ _ Hp Hk Hbq').
  exists (k - n)%nat. replace k with (n + (k - n))%nat in Hk by lia.
  by rewrite back_add, Hq in Hk.
Qed.

Lemma ancestor_mapped p b q : m !! p = Some b -> is_ancestor m q p -> exists bq, m !! q = Some bq.
Proof using Hm. intros Hp [n Hn]. by eapply back_mapped. Qed.

Lemma chain_height c q bq :
  chain_ok c -> in_chain c q -> m !! q = Some bq -> nHeight bq <= Height c.
Proof using Hm.
  intros [->|(t & bt & Ht)] [i Hi] Hq; [done|].
  destruct (chain_for_lookup _ _ _ _ _ Ht Hi) as (bq' & Hbq' & Hh).
  rewrite Hq in Hbq'. injection Hbq' as <-. pose proof (lookup_lt_Some _ _ _ Hi).
  unfold Height. lia.
Qed.

(** What a fork point of [p] with the chain [c] is. *)
Definition fork_point (c : list (option nat)) (p : nat) (r : option nat) : Prop :=
  match r with
  | Some q => in_chain c q /\ is_ancestor m q p /\
      forall q' bq bq', in_chain c q' -> is_ancestor m q' p ->
        m !! q = Some bq -> m !! q' = Some bq' -> nHeight bq' <= nHeight bq
  | None => forall q', is_ancestor m q' p -> ~ in_chain c q'
  end.

Lemma fork_point_loop c p b p' b' n fuel :
  chain_ok c -> m !! p = Some b -> back n m p = Some p' -> m !! p' = Some b' ->
  (forall q bq, in_chain c q -> m !! q = Some bq -> is_ancestor m q p -> nHeight bq <= nHeight b') ->
  (Z.to_nat (nHeight b') < fuel)%nat ->
  exists r, find_fork_loop fuel m c (Some p') = Some r /\ fork_point c p r.
Proof using Hm.
  intros Hc Hp Hn Hp' Hmax Hf.
  destruct (find_fork_loop_spec c fuel Hc p' b' Hp' Hf) as (r & Hr & Hspec).
  exists r. split; [done|].
  assert (forall q' bq', in_chain c q' -> is_ancestor m q' p -> m !! q' = Some bq' -> is_ancestor m q' p') as Hdown.
  { intros q' bq' H1 H2 H3. eapply (ancestor_below p b p' b' q' bq' n); eauto. }
  destruct r as [q|]; simpl.
  - destruct Hspec as (Hin & k & Hk & Hmin). split_and!; [done| |].
    + exists (n + k)%nat. by rewrite back_add, Hn.
    + intros q' bq bq' Hin' Ha Hq Hq'. destruct (Hdown q' bq' Hin' Ha Hq') as [k' Hk'].
      rewrite (back_height _ _ _ _ _ Hp' Hk Hq), (back_height _ _ _ _ _ Hp' Hk' Hq').
      destruct (decide (k' < k)%nat) as [Hlt|]; [|lia]. by destruct (Hmin k' q' Hlt Hk').
  - intros q' Ha Hin. destruct (ancestor_mapped _ _ _ Hp Ha) as [bq' Hq'].
    by apply (Hspec q'); [apply (Hdown q' bq')|].
Qed.

Lemma FindFork_spec c p b :
  chain_ok c -> m !! p = Some b -> exists r, FindFork m c p = Some r /\ fork_point c p r.
Proof using Hm.
  intros Hc Hp. unfold FindFork. rewrite Hp. simpl.
  pose proof (node_height _ _ _ (Hm _ _ Hp)) as H0. rewrite Z.gtb_ltb.
  destruct (Z.ltb_spec (Height c) (nHeight b)) as [Hgt|Hle]; simpl.
  - destruct (decide (c = [])) as [->|Hne].
    { rewrite (GetAncestor_null p b) by (done || (unfold Height; simpl; lia)). simpl.
      exists None. split; [by destruct (Z.to_nat _)|]. intros q' _ [i Hi]. done. }
    assert (0 <= Height c) as Hh by (unfold Height; destruct c; [done|simpl; lia]).
    destruct (GetAncestor_back p b (Height c) Hp) as (q & bq & -> & Hback & Hq & Hhq); [lia|]. simpl.
    apply (fork_point_loop c p b q bq _ _ Hc Hp Hback Hq); [|lia].
    intros q' bq' Hin Hq' _. rewrite Hhq. by apply (chain_height c q').
  - apply (fork_point_loop c p b p b 0 _ Hc Hp eq_refl Hp); [|lia].
    intros q' bq' _ Hq' [k Hk]. rewrite (back_height _ _ _ _ _ Hp Hk Hq'). lia.
Qed.

(** ** Last common ancestor *)

Lemma common_walk_spec fuel : forall pa pb a b,
  m !! pa = Some a -> m !! pb = Some b -> nHeight a = nHeight b ->
  (Z.to_nat (nHeight a) < fuel)%nat ->
  exists r, common_walk fuel m (Some pa) (Some pb) = Some r /\
    match r with
    | Some q => exists n, back n m pa = Some q /\ back n m pb = Some q /\
                forall k, (k < n)%nat -> back k m pa <> back k m pb
    | None => forall k q, back k m pa = Some q -> back k m pb <> Some q
    end.
Proof using Hm.
  induction fuel as [|fuel IH]; intros pa pb a b Ha Hb Hh Hf; [lia|].
  cbn [common_walk]. case_bool_decide as Heq.
  { injection Heq as <-. exists (Some pa). split; [done|]. exists O. split_and!; [done..|lia]. }
  rewrite Ha, Hb. simpl.
  assert (forall k, back (S k) m pa = pprev a ≫= back k m) as HSa by (intros; simpl; by rewrite Ha).
  assert (forall k, back (S k) m pb = pprev b ≫= back k m) as HSb by (intros; simpl; by rewrite Hb).
  destruct (pprev a) as [qa|] eqn:Hqa; destruct (pprev b) as [qb|] eqn:Hqb.
  - destruct (node_prev _ _ _ (Hm _ _ Ha) _ Hqa) as (ba & Hba & Hha).
    destruct (node_prev _ _ _ (Hm _ _ Hb) _ Hqb) as (bb & Hbb & Hhb).
    pose proof (node_height _ _ _ (Hm _ _ Hba)).
    destruct (IH qa qb ba bb Hba Hbb) as (r & Hr & Hspec); [lia|lia|].
    assert (forall k, back (S k) m pa = back k m qa) as HSa' by (intros k; by rewrite HSa).
    assert (forall k, back (S k) m pb = back k m qb) as HSb' by (intros k; by rewrite HSb).
    exists r. split; [done|]. destruct r as [q|].
    + destruct Hspec as (n & H1 & H2 & H3). exists (S n). rewrite HSa', HSb'. split_and!; [done..|].
      intros [|k] Hk; [simpl; congruence|]. rewrite HSa', HSb'. apply H3. lia.
    + intros [|k] q; [simpl; congruence|]. rewrite HSa', HSb'. apply Hspec.
  - destruct (node_prev _ _ _ (Hm _ _ Ha) _ Hqa) as (ba & Hba & Hha).
    pose proof (node_height _ _ _ (Hm _ _ Hba)). pose proof (node_root _ _ _ (Hm _ _ Hb) Hqb). lia.
  - destruct (node_prev _ _ _ (Hm _ _ Hb) _ Hqb) as (bb & Hbb & Hhb).
    pose proof (node_height _ _ _ (Hm _ _ Hbb)). pose proof (node_root _ _ _ (Hm _ _ Ha) Hqa). lia.
  - exists None. split; [by destruct fuel|]. intros [|k] q; [simpl; congruence|]. by rewrite HSa.
Qed.

(** Lowering one side to the other's height keeps every common ancestor. *)
Lemma LastCommonAncestor_spec pa pb a b :
  m !! pa = Some a -> m !! pb = Some b ->
  exists r, LastCommonAncestor m pa pb = Some r /\
    match r with
    | Some q => is_ancestor m q pa /\ is_ancestor m q pb /\
        forall q' bq bq', is_ancestor m q' pa -> is_ancestor m q' pb ->
          m !! q = Some bq -> m !! q' = Some bq' -> nHeight bq' <= nHeight bq
    | None => forall q', is_ancestor m q' pa -> ~ is_ancestor m q' pb
    end.
Proof using Hm.
  intros Ha Hb. unfold LastCommonAncestor. rewrite Ha, Hb. simpl.
  pose proof (node_height _ _ _ (Hm _ _ Ha)) as Ha0. pose proof (node_height _ _ _ (Hm _ _ Hb)) as Hb0.
  set (h := Z.min (nHeight a) (nHeight b)).
  assert (exists qa ca na qb cb nb,
    (if nHeight a >? nHeight b then GetAncestor m pa (nHeight b) else Some (Some pa)) = Some (Some qa) /\
    (if nHeight a >? nHeight b then Some (Some pb)
     else if nHeight b >? nHeight a then GetAncestor m pb (nHeight a) else Some (Some pb)) = Some (Some qb) /\
    back na m pa = Some qa /\ back nb m pb = Some qb /\ m !! qa = Some ca /\ m !! qb = Some cb /\
    nHeight ca = h /\ nHeight cb = h) as (qa & ca & na & qb & cb & nb & -> & -> & Hna & Hnb & Hca & Hcb & Hha & Hhb).
  { rewrite !Z.gtb_ltb. destruct (Z.ltb_spec (nHeight b) (nHeight a)).
    - destruct (GetAncestor_back pa a (nHeight b) Ha) as (q & bq & H1 & H2 & H3 & H4); [lia|].
      exists q, bq, (Z.to_nat (nHeight a - nHeight b)), pb, b, O. split_and!; try done; lia.
    - destruct (Z.ltb_spec (nHeight a) (nHeight b)).
      + destruct (GetAncestor_back pb b (nHeight a) Hb) as (q & bq & H1 & H2 & H3 & H4); [lia|].
        exists pa, a, O, q, bq, (Z.to_nat (nHeight b - nHeight a)). split_and!; try done; lia.
      + exists pa, a, O, pb, b, O. split_and!; try done; lia. }
  simpl. destruct (common_walk_spec (Z.to_nat (h + 1)) qa qb ca cb) as (r & Hr & Hspec); try done; try lia.
  exists r. split; [done|].
  assert (forall q' bq', is_ancestor m q' pa -> is_ancestor m q' pb -> m !! q' = Some bq' ->
    exists k, back k m qa = Some q' /\ back k m qb = Some q') as Hcommon.
  { intros q' bq' H1 H2 H3.
    assert (nHeight bq' <= h) as Hle.
    { destruct H1 as [k1 K1], H2 as [k2 K2].
      pose proof (back_height _ _ _ _ _ Ha K1 H3). pose proof (back_height _ _ _ _ _ Hb K2 H3). lia. }
    destruct (ancestor_below pa a qa ca q' bq' na) as [k1 K1]; auto; [lia|].
    destruct (ancestor_below pb b qb cb q' bq' nb) as [k2 K2]; auto; [lia|].
    exists k1. split; [done|]. rewrite <- K2. f_equal.
    pose proof (back_height _ _ _ _ _ Hca K1 H3). pose proof (back_height _ _ _ _ _ Hcb K2 H3). lia. }
  destruct r as [q|].
  - destruct Hspec as (n & H1 & H2 & Hmin). split_and!.
    + exists (na + n)%nat. by rewrite back_add, Hna.
    + exists (nb + n)%nat. by rewrite back_add, Hnb.
    + intros q' bq bq' Ha' Hb' Hq Hq'. destruct (Hcommon q' bq' Ha' Hb' Hq') as (k & K1 & K2).
      rewrite (back_height _ _ _ _ _ Hca H1 Hq), (back_height _ _ _ _ _ Hca K1 Hq').
      destruct (decide (k < n)%nat) as [Hlt|]; [|lia]. exfalso. apply (Hmin k Hlt). congruence.
  - intros q' Ha' Hb'. destruct (ancestor_mapped _ _ _ Ha Ha') as [bq' Hq'].
    destruct (Hcommon q' bq' Ha' Hb' Hq') as (k & K1 & K2). by apply (Hspec k q').
Qed.

(** ** Locators *)

Definition hashed : Prop := forall p b, m !! p = Some b -> is_Some (phashBlock b).

Definition has_hash (q : nat) (h : list Z) : Prop := exists bq, m !! q = Some bq /\ phashBlock bq = Some h.

(** [chain_at] below a block of the chain is its ancestor, as [GetAncestor] computes it. *)
Lemma chain_at_ancestor c q bq h :
  chain_ok c -> m !! q = Some bq -> chain_at c (nHeight bq) = Some q -> 0 <= h <= nHeight bq ->
  Some (chain_at c h) = GetAncestor m q h.
Proof using Hm.
  intros Hc Hq Hin Hh.
  destruct (GetAncestor_back q bq h Hq Hh) as (r & br & -> & Hr & _). f_equal.
  destruct (proj1 (proj2 (Contains_in_chain c q bq Hc Hq)) Hin) as [i Hi].
  destruct Hc as [->|(t & bt & Ht)]; [done|].
  destruct (chain_for_lookup _ _ _ _ _ Ht Hi) as (bq' & Hbq' & Hhq).
  rewrite Hq in Hbq'. injection Hbq' as <-. pose proof (lookup_lt_Some _ _ _ Hi).
  unfold chain_at. rewrite (proj2 (Z.ltb_ge _ _)), Z.geb_leb, (proj2 (Z.leb_gt _ _)) by lia. simpl.
  rewrite (chain_for_below c t bt i q bq Ht) by (done || lia). simpl. rewrite <- Hr. f_equal. lia.
Qed.

(** A locator from [p]: the visited blocks, from [p] back to genesis. *)
Record locator_from (p : nat) (qs : list nat) : Prop := {
  loc_head : head qs = Some p;
  loc_last : exists q bq, last qs = Some q /\ m !! q = Some bq /\ nHeight bq = 0;
  loc_anc : Forall (fun q => is_ancestor m q p) qs;
  loc_desc : StronglySorted (fun q q' => exists b b', m !! q = Some b /\ m !! q' = Some b' /\ nHeight b' < nHeight b) qs
}.

Lemma locator_cons p b q bq n qs :
  m !! p = Some b -> (0 < n)%nat -> back n m p = Some q -> m !! q = Some bq ->
  locator_from q qs -> locator_from p (p :: qs).
Proof using Hm.
  intros Hp Hn Hq Hbq [H1 H2 H3 H4]. pose proof (back_height _ _ _ _ _ Hp Hq Hbq) as Hh. split.
  - done.
  - destruct H2 as (z & bz & Hz & ?). exists z, bz. split; [|done].
    destruct qs; [done|]. done.
  - constructor; [by exists O|]. eapply Forall_impl; [exact H3|]. intros z [k Hk].
    exists (n + k)%nat. by rewrite back_add, Hq.
  - constructor; [done|]. eapply Forall_impl; [exact H3|]. intros z [k Hk].
    destruct (back_mapped _ _ _ _ Hbq Hk) as [bz Hbz]. exists b, bz. split_and!; [done..|].
    rewrite (back_height _ _ _ _ _ Hbq Hk Hbz). lia.
Qed.

Lemma locator_loop_spec c : chain_ok c -> hashed -> forall fuel p b nStep vHave,
  m !! p = Some b -> 1 <= nStep -> (Z.to_nat (nHeight b) <= fuel)%nat ->
  exists qs hs, locator_loop fuel m c (Some p) nStep vHave = Some (vHave ++ hs) /\
    Forall2 has_hash qs hs /\ locator_from p qs /\
    forall e, nHeight b <= nStep * (2 ^ Z.of_nat e - 1) ->
      (length qs <= (10 - length vHave) + 1 + e)%nat.
Proof using Hm.
  intros Hc Hh. induction fuel as [|fuel IH]; intros p b nStep vHave Hp Hs Hf;
    pose proof (node_height _ _ _ (Hm _ _ Hp)) as H0; destruct (Hh p b Hp) as [hash Hhash];
    cbn [locator_loop]; rewrite Hp; simpl; unfold GetBlockHash; rewrite Hhash; simpl.
  all: destruct (Z.eqb_spec (nHeight b) 0) as [E|E];
    [exists [p], [hash]; split_and!; [done|constructor; [by exists b|constructor]|split; simpl|simpl; lia];
      [done|by exists p, b|constructor; [by exists O|constructor]|constructor; constructor]|].
  { lia. }
  destruct (Contains_in_chain c p b Hc Hp) as [-> Hiff]. simpl.
  set (h := Z.max (nHeight b - nStep) 0).
  assert ((if bool_decide (chain_at c (nHeight b) = Some p) then Some (chain_at c h)
           else GetAncestor m p h) = GetAncestor m p h) as ->.
  { case_bool_decide; [|done]. apply (chain_at_ancestor c p b); [done..|lia]. }
  destruct (GetAncestor_back p b h Hp) as (q & bq & -> & Hback & Hq & Hhq); [lia|]. simpl.
  rewrite length_app. simpl.
  destruct (IH q bq (if (10 <? length vHave + 1)%nat then nStep * 2 else nStep) (vHave ++ [hash]) Hq)
    as (qs & hs & Hloop & Hhs & Hloc & Hlen); [destruct (_ <? _)%nat; lia|lia|].
  exists (p :: qs), (hash :: hs). rewrite Hloop, <- app_assoc. split_and!; [done| | |].
  - constructor; [by exists b|done].
  - eapply (locator_cons p b q bq); [done| |done..]. lia.
  - intros [|e] He; [simpl in He; lia|]. simpl length. rewrite length_app in Hlen. simpl in Hlen.
    destruct (Nat.ltb_spec 10 (length vHave + 1)).
    + specialize (Hlen e). rewrite Nat2Z.inj_succ, Z.pow_succ_r in He by lia.
      assert (nHeight bq <= nStep * 2 * (2 ^ Z.of_nat e - 1)) by nia. specialize (Hlen ltac:(done)). lia.
    + specialize (Hlen (S e)). assert (nHeight bq <= nStep * (2 ^ Z.of_nat (S e) - 1)) by lia.
      specialize (Hlen ltac:(done)). lia.
Qed.

Lemma GetLocator_spec c p b :
  chain_ok c -> hashed -> m !! p = Some b ->
  exists qs hs, GetLocator m c (Some p) = Some hs /\ Forall2 has_hash qs hs /\
    locator_from p qs /\ Z.of_nat (length hs) <= 12 + Z.log2 (nHeight b).
Proof using Hm.
  intros Hc Hh Hp. unfold GetLocator. rewrite Hp. simpl.
  destruct (locator_loop_spec c Hc Hh (Z.to_nat (nHeight b)) p b 1 [] Hp) as (qs & hs & Hl & Hf & Hloc & Hlen);
    [lia|lia|]. exists qs, hs. split_and!; [done..|].
  rewrite <- (Forall2_length _ _ _ Hf). pose proof (node_height _ _ _ (Hm _ _ Hp)).
  pose proof (Z.log2_nonneg (nHeight b)).
  specialize (Hlen (Z.to_nat (Z.log2 (nHeight b) + 1))). simpl in Hlen.
  assert (nHeight b <= 1 * (2 ^ Z.of_nat (Z.to_nat (Z.log2 (nHeight b) + 1)) - 1)); [|lia].
  rewrite Z2Nat.id by lia. destruct (decide (nHeight b = 0)) as [->|]; [done|].
  pose proof (Z.log2_spec (nHeight b)). rewrite <- Z.add_1_r in *. lia.
Qed.

End Tree.

(** ** Median time past *)

Definition count_below (v : Z) (l : list Z) : nat := length (filter (fun y => y < v) l).

Lemma count_below_perm v l1 l2 : Permutation l1 l2 -> count_below v l1 = count_below v l2.
Proof. intros Hp. unfold count_below. by rewrite Hp. Qed.

Lemma count_below_take v k l : (count_below v (take k l) <= count_below v l)%nat.
Proof.
  unfold count_below. rewrite <- (take_drop k l) at 2. rewrite filter_app, length_app. lia.
Qed.

Lemma sorted_nth_ge v l i :
  StronglySorted Z.le l -> (i < length l)%nat -> v <= nth i l 0 <-> (count_below v l <= i)%nat.
Proof.
  intros Hs. revert i. induction Hs as [|y l Hs IH Hall]; intros i Hi; [simpl in Hi; lia|].
  unfold count_below in *. rewrite filter_cons. case_decide as Hy.
  - destruct i as [|i]; simpl in *; [lia|]. rewrite IH by lia. lia.
  - assert (filter (fun z => z < v) l = []) as ->.
    { clear -Hall Hy. induction Hall as [|z l Hz _ IH]; [done|].
      rewrite filter_cons, decide_False; [done|lia]. }
    simpl. split; [lia|]. intros _. destruct i as [|i]; [lia|].
    rewrite Forall_forall in Hall. simpl in Hi.
    specialize (Hall (nth i l 0) ltac:(apply list_elem_of_In, nth_In; lia)). simpl. lia.
Qed.

Lemma median_ge v l : l <> [] -> v <= median l <-> (count_below v l <= length l / 2)%nat.
Proof.
  intros Hne. unfold median.
  assert (Permutation (merge_sort Z.le l) l) as Hp by apply merge_sort_Permutation.
  rewrite sorted_nth_ge.
  - by rewrite (count_below_perm v _ l).
  - apply Sorted_StronglySorted; [apply _|]. apply Sorted_merge_sort, _.
  - rewrite Hp. apply Nat.div_lt; [destruct l; [done|simpl; lia]|lia].
Qed.

(** Replacing the oldest timestamp of a window by a newer one that is at least
    the median does not lower the median. *)
Lemma median_window x l :
  l <> [] -> (length l <= nMedianTimeSpan)%nat -> median l <= x ->
  median l <= median (x :: take (nMedianTimeSpan - 1) l).
Proof.
  intros Hne Hlen Hx. apply median_ge; [done|].
  assert (count_below (median l) l <= length l / 2)%nat as Hc by (apply median_ge; [done|lia]).
  unfold count_below at 1. rewrite filter_cons, decide_False by lia.
  fold (count_below (median l) (take (nMedianTimeSpan - 1) l)).
  simpl length. rewrite length_take.
  etransitivity; [apply count_below_take|]. etransitivity; [exact Hc|].
  apply Nat.Div0.div_le_mono. unfold nMedianTimeSpan in *. lia.
Qed.

Lemma past_times_spec m : tree_ok m -> forall n p b, m !! p = Some b ->
  exists l, past_times n m (Some p) = Some l /\ (length l <= n)%nat /\ (n <> 0%nat -> l <> []).
Proof.
  intros Hm. induction n as [|n IH]; intros p b Hp; [by exists []|].
  cbn [past_times]. rewrite Hp. simpl. destruct (pprev b) as [q|] eqn:Hq.
  - destruct (node_prev _ _ _ (Hm _ _ Hp) _ Hq) as (bq & Hbq & _).
    destruct (IH q bq Hbq) as (l & -> & Hl & _). eexists. simpl. split_and!; [done|simpl; lia|done].
  - destruct n; simpl; eexists; (split_and!; [done|simpl; lia|done]).
Qed.

Lemma past_times_take m : tree_ok m -> forall n k p b l, m !! p = Some b ->
  past_times n m (Some p) = Some l -> (k <= n)%nat -> past_times k m (Some p) = Some (take k l).
Proof.
  intros Hm. induction n as [|n IH]; intros [|k] p b l Hp Hl Hk; try lia; try done.
  cbn [past_times] in *. rewrite Hp in *. simpl in *. destruct (pprev b) as [q|] eqn:Hq.
  - destruct (node_prev _ _ _ (Hm _ _ Hp) _ Hq) as (bq & Hbq & _).
    destruct (past_times n m (Some q)) as [l'|] eqn:Hl'; [|done]. injection Hl as <-.
    rewrite (IH k q bq l' Hbq Hl') by lia. done.
  - assert (past_times n m None = Some []) as E by (by destruct n). rewrite E in Hl. injection Hl as <-.
    assert (past_times k m None = Some []) as -> by (by destruct k). by destruct k.
Qed.

Lemma GetMedianTimePast_mono m p b q t :
  tree_ok m -> m !! p = Some b -> pprev b = Some q ->
  GetMedianTimePast m q = Some t -> t <= nTime b ->
  exists t', GetMedianTimePast m p = Some t' /\ t <= t'.
Proof.
  intros Hm Hp Hq Ht Htime. unfold GetMedianTimePast in *.
  destruct (node_prev _ _ _ (Hm _ _ Hp) _ Hq) as (bq & Hbq & _).
  destruct (past_times_spec m Hm nMedianTimeSpan q bq Hbq) as (l & Hl & Hlen & Hne).
  rewrite Hl in Ht. simpl in Ht. injection Ht as <-.
  pose proof (past_times_take m Hm nMedianTimeSpan (nMedianTimeSpan - 1) q bq l Hbq Hl) as Htake.
  unfold nMedianTimeSpan in *. simpl in Htake. cbn [past_times]. rewrite Hp. simpl. rewrite Hq.
  cbn [past_times] in Htake |- *. rewrite Htake by lia. simpl. eexists. split; [done|].
  unfold GetBlockTime. apply (median_window (nTime b) l); auto.
Qed.

(** ** Growing the tree *)

Lemma back_insert_fresh m p b n r br :
  tree_ok m -> m !! p = None -> m !! r = Some br -> back n (<[p := b]> m) r = back n m r.
Proof.
  intros Hm Hp. revert r br. induction n as [|n IH]; intros r br Hr; [done|]. simpl.
  rewrite lookup_insert_ne by congruence. rewrite Hr. simpl.
  destruct (pprev br) as [q|] eqn:Hq; [|done]. simpl.
  destruct (node_prev _ _ _ (Hm _ _ Hr) _ Hq) as (bq & Hbq & _). by apply (IH q bq).
Qed.

(** A fresh block, linked to a known predecessor and without skip pointer yet. *)
Lemma tree_ok_insert m p b :
  tree_ok m -> m !! p = None -> pskip b = None ->
  match pprev b with
  | None => nHeight b = 0
  | Some q => exists bq, m !! q = Some bq /\ nHeight b = nHeight bq + 1
  end -> tree_ok (<[p := b]> m).
Proof.
  intros Hm Hp Hs Hb r br Hr. destruct (decide (p = r)) as [<-|Hne].
  - rewrite lookup_insert_eq in Hr. injection Hr as <-. destruct (pprev b) as [q|] eqn:Hq.
    + destruct Hb as (bq & Hbq & Hh). pose proof (node_height _ _ _ (Hm _ _ Hbq)). split.
      * lia.
      * congruence.
      * intros q' Hq'. rewrite Hq in Hq'. injection Hq' as <-. exists bq.
        rewrite lookup_insert_ne by congruence. split; [done|lia].
      * intros s Hs'. congruence.
    + split; [lia|done|congruence|congruence].
  - rewrite lookup_insert_ne in Hr by done. destruct (Hm _ _ Hr) as [K1 K2 K3 K4]. split; [done|done|..].
    + intros q Hq. destruct (K3 q Hq) as (bq & Hbq & Hh). exists bq.
      rewrite lookup_insert_ne by congruence. done.
    + intros s Hs'. rewrite (back_insert_fresh m p b _ r br) by done. by apply K4.
Qed.

Lemma tree_ok_empty : tree_ok ∅.
Proof. intros p b Hp. done. Qed.

(** A concrete tree, block [i] at height [i] on address [i], used by the witnesses. *)
Definition sample_header (t : Z) : CBlockHeader :=
  {| hdr_nVersion := 4; hdr_hashPrevBlock := []; hdr_hashMerkleRoot := [];
     hdr_hashFinalSaplingRoot := []; hdr_nTime := t; hdr_nBits := 0x1f07ffff; hdr_nNonce := [] |}.

Definition sample_block (i : nat) : CBlockIndex :=
  set_links (CBlockIndex_of_header (sample_header (1000 + 60 * Z.of_nat i)))
    (Some [Z.of_nat i]) (match i with O => None | S j => Some j end) None (Z.of_nat i).

Fixpoint sample_tree (n : nat) : gmap nat CBlockIndex :=
  match n with
  | O => ∅
  | S i => default ∅ (BuildSkip (<[i := sample_block i]> (sample_tree i)) i)
  end.

(** What [sample_tree] contains. *)
Lemma sample_tree_ok n :
  tree_ok (sample_tree n) /\
  (forall i, (n <= i)%nat -> sample_tree n !! i = None) /\
  (forall i, (i < n)%nat -> exists b, sample_tree n !! i = Some b /\ nHeight b = Z.of_nat i).
Proof.
  induction n as [|n (IH1 & IH2 & IH3)]; [by split_and!; [apply tree_ok_empty|intros; done|lia]|].
  cbn [sample_tree]. set (m := <[n := sample_block n]> (sample_tree n)).
  assert (tree_ok m) as Hm.
  { apply tree_ok_insert; [done|apply IH2; lia|done|]. destruct n as [|k]; [done|].
    simpl. destruct (IH3 k) as (b & Hb & Hh); [lia|]. exists b. split; [done|]. rewrite Hh. lia. }
  assert (m !! n = Some (sample_block n)) as Hn by apply lookup_insert_eq.
  destruct (BuildSkip_tree m Hm n _ Hn) as (m' & -> & Hm' & _ & Hh & _). simpl. split_and!; [done| |].
  - intros i Hi. specialize (Hh i). unfold m in Hh. rewrite lookup_insert_ne in Hh by lia.
    rewrite (IH2 i) in Hh by lia. by destruct (m' !! i).
  - intros i Hi. specialize (Hh i). destruct (decide (i = n)) as [->|].
    + rewrite Hn in Hh. destruct (m' !! n) as [b|]; [|done]. simpl in Hh. injection Hh as Hh. by exists b.
    + unfold m in Hh. rewrite lookup_insert_ne in Hh by lia.
      destruct (IH3 i) as (b & Hb & Hhb); [lia|]. rewrite Hb in Hh.
      destruct (m' !! i) as [b'|]; [|done]. simpl in Hh. injection Hh as Hh. exists b'. split; [done|lia].
Qed.

(** ** Properties *)

(** On every well-formed block tree, [GetAncestor] (the skip-list walk)
    terminates without a failed assertion or null dereference and returns
    exactly the block reached by following [pprev], or null when the height is
    out of range. *)
Lemma GetAncestor_correct (m : gmap nat CBlockIndex) (p : nat) (b : CBlockIndex) (h : Z)
  (Hm : tree_ok m) (Hp : m !! p = Some b) :
  GetAncestor m p h =
    Some (if decide (0 <= h <= nHeight b) then back (Z.to_nat (nHeight b - h)) m p else None) /\
  (0 <= h <= nHeight b -> exists q bq, GetAncestor m p h = Some (Some q) /\
     m !! q = Some bq /\ nHeight bq = h).
Proof.
  case_decide as Hh.
  - destruct (GetAncestor_back m Hm p b h Hp Hh) as (q & bq & -> & -> & Hq & Hhq). naive_solver.
  - split; [|done]. apply (GetAncestor_null m p b); [done|lia].
Qed.

Lemma GetAncestor_correct_witness : GetAncestor (sample_tree 14) 13 5 = Some (Some 5%nat).
Proof.
  destruct (sample_tree_ok 14) as (Hm & _ & Hb). destruct (Hb 13%nat) as (b & Hp & Hh); [lia|].
  destruct (GetAncestor_correct (sample_tree 14) 13 b 5 Hm Hp) as [H _].
  rewrite H, Hh. vm_compute. reflexivity.
Defined.

(** [BuildSkip] preserves the tree invariant, changes no [pprev] link and
    no height, and stores in [pskip] the ancestor at [GetSkipHeight]. *)
Lemma BuildSkip_preserves (m : gmap nat CBlockIndex) (p : nat) (b : CBlockIndex)
  (Hm : tree_ok m) (Hp : m !! p = Some b) :
  exists m', BuildSkip m p = Some m' /\ tree_ok m' /\
    (forall q, pprev <$> m' !! q = pprev <$> m !! q) /\
    (forall q, nHeight <$> m' !! q = nHeight <$> m !! q) /\
    (pprev b <> None -> exists b', m' !! p = Some b' /\
       pskip b' = back (Z.to_nat (nHeight b - GetSkipHeight (nHeight b))) m p /\ pskip b' <> None).
Proof. by apply BuildSkip_tree. Qed.

Lemma BuildSkip_preserves_witness :
  exists m', BuildSkip (sample_tree 3) 2 = Some m' /\ tree_ok m'.
Proof.
  destruct (sample_tree_ok 3) as (Hm & _ & Hb). destruct (Hb 2%nat) as (b & Hp & Hh); [lia|].
  destruct (BuildSkip_preserves (sample_tree 3) 2 b Hm Hp) as (m' & H1 & H2 & _).
  exists m'. split; [exact H1|exact H2].
Defined.

(** Whatever chain was active before, [SetTip] leaves the list of all
    ancestors of the new tip, indexed by height (the early exit at the fork
    point is correct). *)
Lemma SetTip_correct (m : gmap nat CBlockIndex) (c : list (option nat)) (p : nat) (b : CBlockIndex)
  (Hm : tree_ok m) (Hc : chain_ok m c) (Hp : m !! p = Some b) :
  exists c', SetTip m c (Some p) = Some c' /\ Tip c' = Some p /\ Height c' = nHeight b /\
    forall h, 0 <= h <= nHeight b -> Some (chain_at c' h) = GetAncestor m p h.
Proof.
  destruct (SetTip_chain m Hm c p b Hc Hp) as (c' & HS & Hfor). exists c'. split; [done|].
  pose proof (node_height _ _ _ (Hm _ _ Hp)) as H0.
  destruct Hfor as (_ & Hl & Hlook). split_and!.
  - unfold Tip. rewrite last_lookup, Hlook by lia. simpl.
    by replace (length c' - 1 - Nat.pred (length c'))%nat with O by lia.
  - unfold Height. lia.
  - intros h Hh. rewrite (chain_at_for m c' p b) by done.
    destruct (GetAncestor_back m Hm p b h Hp Hh) as (q & bq & -> & -> & _). done.
Qed.

Lemma SetTip_correct_witness :
  SetTip (sample_tree 4) [] (Some 3%nat) = Some [Some 0; Some 1; Some 2; Some 3]%nat /\
  exists c', SetTip (sample_tree 4) [] (Some 3%nat) = Some c' /\ Tip c' = Some 3%nat.
Proof.
  split; [vm_compute; reflexivity|].
  destruct (sample_tree_ok 4) as (Hm & _ & Hb). destruct (Hb 3%nat) as (b & Hp & Hh); [lia|].
  destruct (SetTip_correct (sample_tree 4) [] 3 b Hm (or_introl eq_refl) Hp) as (c' & H1 & H2 & _).
  exists c'. split; [exact H1|exact H2].
Defined.

(** [FindFork] returns the highest block of the active chain that is an
    ancestor of (or equal to) the given block, and null only when the two share
    no block. *)
Lemma FindFork_correct (m : gmap nat CBlockIndex) (c : list (option nat)) (p : nat) (b : CBlockIndex)
  (Hm : tree_ok m) (Hc : chain_ok m c) (Hp : m !! p = Some b) :
  exists r, FindFork m c p = Some r /\
    match r with
    | Some q => in_chain c q /\ is_ancestor m q p /\
        forall q' bq bq', in_chain c q' -> is_ancestor m q' p ->
          m !! q = Some bq -> m !! q' = Some bq' -> nHeight bq' <= nHeight bq
    | None => forall q', is_ancestor m q' p -> ~ in_chain c q'
    end.
Proof. by apply (FindFork_spec m Hm c p b). Qed.

Lemma FindFork_correct_witness :
  exists r, FindFork (sample_tree 4) [Some 0; Some 1]%nat 3 = Some (Some r) /\ in_chain [Some 0; Some 1]%nat r.
Proof.
  destruct (sample_tree_ok 4) as (Hm & _ & Hb). destruct (Hb 3%nat) as (b & Hp & Hh); [lia|].
  destruct (Hb 1%nat) as (b1 & Hp1 & Hh1); [lia|].
  assert (chain_ok (sample_tree 4) [Some 0; Some 1]%nat) as Hc.
  { right. exists 1%nat, b1. split; [exact Hp1|]. split; [rewrite Hh1; reflexivity|].
    intros [|[|i]] Hi; [reflexivity|reflexivity|simpl in Hi; lia]. }
  destruct (FindFork_correct (sample_tree 4) [Some 0; Some 1]%nat 3 b Hm Hc Hp) as (r & H1 & H2).
  destruct r as [r|]; [exists r; split; [exact H1|apply H2]|].
  exfalso. vm_compute in H1. discriminate H1.
Defined.

(** A locator built from a block lists hashes of its ancestors at strictly
    decreasing heights, starts at the block, ends at genesis, and has at most
    12 + log2(height) entries. *)
Lemma GetLocator_correct (m : gmap nat CBlockIndex) (c : list (option nat)) (p : nat) (b : CBlockIndex)
  (Hm : tree_ok m) (Hc : chain_ok m c) (Hh : hashed m) (Hp : m !! p = Some b) :
  exists qs hs, GetLocator m c (Some p) = Some hs /\ Forall2 (has_hash m) qs hs /\
    locator_from m p qs /\ Z.of_nat (length hs) <= 12 + Z.log2 (nHeight b).
Proof. by apply GetLocator_spec. Qed.

Lemma GetLocator_correct_witness :
  exists qs hs, GetLocator (sample_tree 3) [] (Some 2%nat) = Some hs /\
    Forall2 (has_hash (sample_tree 3)) qs hs /\ hs = [[2]; [1]; [0]].
Proof.
  destruct (sample_tree_ok 3) as (Hm & Hn & Hb). destruct (Hb 2%nat) as (b & Hp & Hh); [lia|].
  assert (hashed (sample_tree 3)) as Hhash.
  { intros i bi Hi. destruct i as [|[|[|i]]]; [| | |rewrite Hn in Hi by lia; discriminate Hi];
      vm_compute in Hi; injection Hi as <-; eexists; reflexivity. }
  destruct (GetLocator_correct (sample_tree 3) [] 2 b Hm (or_introl eq_refl) Hhash Hp)
    as (qs & hs & H1 & H2 & _).
  exists qs, hs. split; [exact H1|]. split; [exact H2|]. vm_compute in H1. injection H1 as <-. reflexivity.
Defined.

(** [LastCommonAncestor] terminates without a failed assertion and
    returns the highest common ancestor of two blocks. *)
Lemma LastCommonAncestor_correct (m : gmap nat CBlockIndex) (pa pb : nat) (a b : CBlockIndex)
  (Hm : tree_ok m) (Ha : m !! pa = Some a) (Hb : m !! pb = Some b) :
  exists r, LastCommonAncestor m pa pb = Some r /\
    match r with
    | Some q => is_ancestor m q pa /\ is_ancestor m q pb /\
        forall q' bq bq', is_ancestor m q' pa -> is_ancestor m q' pb ->
          m !! q = Some bq -> m !! q' = Some bq' -> nHeight bq' <= nHeight bq
    | None => forall q', is_ancestor m q' pa -> ~ is_ancestor m q' pb
    end.
Proof. by apply (LastCommonAncestor_spec m Hm pa pb a b). Qed.

Lemma LastCommonAncestor_correct_witness :
  LastCommonAncestor (sample_tree 5) 2 4 = Some (Some 2%nat) /\
  exists r, LastCommonAncestor (sample_tree 5) 2 4 = Some r.
Proof.
  split; [vm_compute; reflexivity|].
  destruct (sample_tree_ok 5) as (Hm & _ & Hbl).
  destruct (Hbl 2%nat) as (a & Ha & _); [lia|]. destruct (Hbl 4%nat) as (b & Hb & _); [lia|].
  destruct (LastCommonAncestor_correct (sample_tree 5) 2 4 a b Hm Ha Hb) as (r & H & _).
  exists r. exact H.
Defined.

(** If a block's timestamp is not below the median time past of its
    predecessor (the rule [ContextualCheckBlockHeader] enforces strictly), its
    own median time past is not below it either: median time never goes
    backwards along a chain. *)
Lemma median_time_monotone (m : gmap nat CBlockIndex) (p q : nat) (b : CBlockIndex) (t : Z)
  (Hm : tree_ok m) (Hp : m !! p = Some b) (Hq : pprev b = Some q)
  (Ht : GetMedianTimePast m q = Some t) (Htime : t <= nTime b) :
  exists t', GetMedianTimePast m p = Some t' /\ t <= t'.
Proof. by apply (GetMedianTimePast_mono m p b q t). Qed.

Lemma median_time_monotone_witness :
  GetMedianTimePast (sample_tree 13) 11 = Some 1360 /\
  exists t', GetMedianTimePast (sample_tree 13) 12 = Some t' /\ 1360 <= t'.
Proof.
  split; [vm_compute; reflexivity|].
  destruct (sample_tree_ok 13) as (Hm & _ & Hbl). destruct (Hbl 12%nat) as (b & Hb & _); [lia|].
  apply (median_time_monotone (sample_tree 13) 12 11 b 1360 Hm Hb).
  - vm_compute in Hb. injection Hb as <-. reflexivity.
  - vm_compute. reflexivity.
  - vm_compute in Hb. injection Hb as <-. vm_compute. discriminate.
Defined.

End ChainFacts.
