(* ===== verification/Pow.v ===== *)
(** * Proof of work (src/pow.cpp)

    Difficulty retargeting, the proof-of-work check and the work of a block,
    over the 256-bit arithmetic of [ArithUint256] and the block tree of
    [Chain].  [None] is a failed assertion, a null dereference or the division
    error; the theorems show when none of them can happen. *)

From stdpp Require Import base list list_numbers numbers option gmap.
From Stdlib Require Import ZArith Lia.
From S2P Require Import Prelude Bytes ArithUint256 Compact Params Chain ChainFacts.
Import Endian Arith256 Compact Consensus BlockIndex ChainFacts.

Module Pow.

(** [int64_t] amounts reach [base_uint] through the [uint64_t] constructor, and
    [operator*=] through its [uint32_t] overload. *)
Definition CalculateNextWorkRequired (bnAvg : list Z) (nLastBlockTime nFirstBlockTime : Z)
  (params : Params) (nextHeight : Z) : option Z :=
  averagingWindowTimespan ← AveragingWindowTimespan params nextHeight;
  minActualTimespan ← MinActualTimespan params nextHeight;
  maxActualTimespan ← MaxActualTimespan params nextHeight;
  let nActualTimespan := s64 (nLastBlockTime - nFirstBlockTime) in
  let nActualTimespan :=
    s64 (averagingWindowTimespan + Z.quot (s64 (nActualTimespan - averagingWindowTimespan)) 4) in
  let nActualTimespan :=
    if nActualTimespan <? minActualTimespan then minActualTimespan else nActualTimespan in
  let nActualTimespan :=
    if nActualTimespan >? maxActualTimespan then maxActualTimespan else nActualTimespan in
  let bnPowLimit := UintToArith256 (powLimit params) in
  bnNew ← op_div bnAvg (base_uint_of_u64 (u64 averagingWindowTimespan));
  let bnNew := op_mul32 bnNew (u32 nActualTimespan) in
  let bnNew := if op_gt bnNew bnPowLimit then bnPowLimit else bnNew in
  GetCompact bnNew false.

(** [for (int i = 0; pindexFirst && i < params.nPowAveragingWindow; i++)] *)
Fixpoint averaging_loop (n : nat) (m : gmap nat CBlockIndex) (pindexFirst : option nat)
  (bnTot : list Z) : option (list Z * option nat) :=
  match n, pindexFirst with
  | S n', Some p =>
      b ← m !! p;
      let bnTmp := fst (fst (SetCompact (nBits b))) in
      averaging_loop n' m (pprev b) (op_add bnTot bnTmp)
  | _, _ => Some (bnTot, pindexFirst)
  end.

(** [pblock] is the header of the block being mined or checked, if any. *)
Definition GetNextWorkRequired (m : gmap nat CBlockIndex) (pindexLast : option nat)
  (pblock : option CBlockHeader) (params : Params) : option Z :=
  nProofOfWorkLimit ← GetCompact (UintToArith256 (powLimit params)) false;
  match pindexLast with
  | None => Some nProofOfWorkLimit
  | Some pLast =>
      last ← m !! pLast;
      minDifficulty ←
        match nPowAllowMinDifficultyBlocksAfterHeight params with
        | Some h =>
            if u32 (nHeight last) >=? h then
              match pblock with
              | Some block =>
                  spacing ← PoWTargetSpacing params (nHeight last + 1);
                  Some (hdr_nTime block >? s64 (GetBlockTime last + s64 (spacing * 6)))
              | None => Some false
              end
            else Some false
        | None => Some false
        end;
      if (minDifficulty : bool) then Some nProofOfWorkLimit
      else
        '(bnTot, pindexFirst) ←
          averaging_loop (Z.to_nat (nPowAveragingWindow params)) m (Some pLast) base_uint_zero;
        match pindexFirst with
        | None => Some nProofOfWorkLimit
        | Some pFirst =>
            bnAvg ← op_div bnTot (base_uint_of_u64 (u64 (nPowAveragingWindow params)));
            tLast ← GetMedianTimePast m pLast;
            tFirst ← GetMedianTimePast m pFirst;
            CalculateNextWorkRequired bnAvg tLast tFirst params (nHeight last + 1)
        end
  end.

Definition CheckProofOfWork (hash : list Z) (nBits : Z) (params : Params) : bool :=
  let '(bnTarget, fNegative, fOverflow) := SetCompact nBits in
  if fNegative || EqualTo bnTarget 0 || fOverflow
     || op_gt bnTarget (UintToArith256 (powLimit params)) then false
  else if op_gt (UintToArith256 hash) bnTarget then false
  else true.

Definition GetBlockProof (block_nBits : Z) : option (list Z) :=
  let '(bnTarget, fNegative, fOverflow) := SetCompact block_nBits in
  if fNegative || fOverflow || EqualTo bnTarget 0 then Some base_uint_zero
  else
    q ← op_div (op_compl bnTarget) (op_add bnTarget (base_uint_of_u64 1));
    Some (op_add q (base_uint_of_u64 1)).

(** The result type is [int64_t]: [sign * r.GetLow64()] is computed in
    [uint64_t] and converted back. *)
Definition GetBlockProofEquivalentTime (to_work from_work : list Z) (tip : CBlockIndex)
  (params : Params) : option Z :=
  let '(r, sign) :=
    if op_gt to_work from_work then (op_sub to_work from_work, 1)
    else (op_sub from_work to_work, -1) in
  spacing ← PoWTargetSpacing params (nHeight tip);
  proof ← GetBlockProof (nBits tip);
  r ← op_div (op_mul r (base_uint_of_u64 (u64 spacing))) proof;
  Some (if (63 <? bits r)%nat then sign * (2 ^ 63 - 1)
        else s64 (u64 (sign * GetLow64 r))).

(** ** The byte-blob conversions *)

Lemma UintToArith256_val b :
  is_bytes b -> length b = 32%nat ->
  wf (UintToArith256 b) /\ val (UintToArith256 b) = le_value b.
Proof.
  intros Hb Hl. unfold UintToArith256, WIDTH.
  assert (forall k, is_u32 (ReadLE32 (drop (k * 4) b))) as Hu.
  { intros k. unfold ReadLE32, is_u32.
    pose proof (le_value_range (take 4 (drop (k * 4) b))) as H.
    assert (is_bytes (take 4 (drop (k * 4) b))) as Ht by (by apply Forall_take, Forall_drop).
    specialize (H Ht). rewrite length_take in H.
    assert (256 ^ Z.of_nat (4 `min` length (drop (k * 4) b)) <= 2 ^ 32); [|lia].
    change (2 ^ 32) with (256 ^ 4). apply Z.pow_le_mono_r; lia. }
  split.
  - split; [done|]. cbn [map seq]. repeat constructor; apply Hu.
  - assert (forall n l, is_bytes l -> length l = (4 * n)%nat -> forall s,
      val (map (fun x => ReadLE32 (drop (x * 4) l)) (seq s (n - s))) = le_value (drop (s * 4) l)) as Hgen.
    { intros n l Hlb Hln s. remember (n - s)%nat as k eqn:Hk. revert s Hk.
      induction k as [|k IH]; intros s Hk; cbn [seq map val].
      - by rewrite drop_ge by lia.
      - rewrite (IH (S s)) by lia. unfold ReadLE32.
        rewrite <- (take_drop 4 (drop (s * 4) l)) at 2. rewrite le_value_app, drop_drop.
        rewrite length_take, length_drop, Nat.min_l by lia.
        change (256 ^ Z.of_nat 4) with (2 ^ 32).
        replace (S s * 4)%nat with (s * 4 + 4)%nat by lia. reflexivity. }
    apply (Hgen 8%nat b Hb Hl 0%nat).
Qed.

Lemma EqualTo_zero a : wf a -> EqualTo a 0 = (val a =? 0).
Proof.
  intros [Hl Ha]. do 9 (destruct a as [|? a]; try done). cbn in Hl.
  repeat match goal with H : Forall _ (_ :: _) |- _ => inversion_clear H end.
  unfold EqualTo, pn. cbn [seq WIDTH Nat.sub forallb nth val]. rewrite Z.shiftr_0_l, Z.land_0_l.
  unfold is_u32 in *. apply eq_true_iff_eq. rewrite !andb_true_iff, !Z.eqb_eq. lia.
Qed.

(** ** Decoded targets *)

(** A decoded target is usable when it is neither negative, zero nor wider than
    256 bits. *)
Definition target_ok (c : Z) : Prop :=
  Z.land c 0x00800000 = 0 /\ 0 < compact_value c < 2 ^ 256.

Lemma compact_value_nonneg c : is_u32 c -> 0 <= compact_value c.
Proof.
  intros Hc. destruct (compact_fields c Hc) as (_ & _ & Hs & Hw). unfold compact_value.
  destruct (Z.leb_spec (compact_size c) 3).
  - apply Z.div_pos; [lia|]. apply Z.pow_pos_nonneg; lia.
  - apply Z.mul_nonneg_nonneg; [lia|]. apply Z.pow_nonneg. lia.
Qed.

(** The guard both [CheckProofOfWork] and [GetBlockProof] open with. *)
Lemma decoded_target c v fN fO :
  is_u32 c -> SetCompact c = (v, fN, fO) ->
  wf v /\ (fN || EqualTo v 0 || fO = false <-> target_ok c) /\ (target_ok c -> val v = compact_value c).
Proof.
  intros Hc E. destruct (SetCompact_spec c Hc) as (v' & E' & Hw & Hv).
  rewrite E in E'. injection E' as <- -> ->. pose proof (compact_value_nonneg c Hc) as H0.
  split_and!; [done| |intros [_ ?]; rewrite Hv, Z.mod_small; lia].
  rewrite EqualTo_zero, Hv by done. unfold target_ok.
  rewrite !orb_false_iff, Z.leb_gt, Z.eqb_neq, andb_false_iff, !negb_false_iff, !Z.eqb_eq. split.
  - intros [[Hn Hz] Ho]. rewrite Z.mod_small in Hz by lia. split; [|lia].
    destruct Hn as [|Hn]; [done|]. exfalso. apply Hz. unfold compact_value.
    destruct (Z.leb_spec (compact_size c) 3); rewrite Hn; lia.
  - intros [Hs Hr]. rewrite Z.mod_small by lia. split_and!; [by left|lia|lia].
Qed.

(** ** Retargeting *)

(** What the chain parameters must satisfy for retargeting to be free of
    division by zero and of wrap-around. *)
Record pow_params_ok (params : Params) : Prop := {
  pp_limit_bytes : is_bytes (powLimit params) /\ length (powLimit params) = 32%nat;
  pp_limit : le_value (powLimit params) < 2 ^ 255;
  pp_window : 0 < nPowAveragingWindow params < 2 ^ 31;
  pp_pre : 0 < nPreBlossomPowTargetSpacing params < 2 ^ 31;
  pp_post : 0 < nPostBlossomPowTargetSpacing params < 2 ^ 31;
  pp_span : nPowAveragingWindow params *
    Z.max (nPreBlossomPowTargetSpacing params) (nPostBlossomPowTargetSpacing params) < 2 ^ 31;
  pp_up : 0 <= nPowMaxAdjustUp params <= 100;
  pp_down : 0 <= nPowMaxAdjustDown params <= 100 }.

Lemma main_pow_params_ok : pow_params_ok CMainParams.
Proof.
  split; try (vm_compute; intuition congruence).
  split; [|reflexivity]. unfold is_bytes. vm_compute. repeat constructor; discriminate.
Qed.

(** The averaging window in seconds at a height. *)
Definition window_at (params : Params) (h : Z) : Z :=
  nPowAveragingWindow params *
  (if bool_decide (active_at params h UPGRADE_BLOSSOM) then nPostBlossomPowTargetSpacing params
   else nPreBlossomPowTargetSpacing params).

(** The damped and clamped timespan, as an exact integer. *)
Definition clamped_timespan (params : Params) (h actual : Z) : Z :=
  let w := window_at params h in
  Z.min (w * (100 + nPowMaxAdjustDown params) / 100)
    (Z.max (w * (100 - nPowMaxAdjustUp params) / 100) (w + Z.quot (actual - w) 4)).

Lemma window_range params h :
  pow_params_ok params -> 0 < window_at params h < 2 ^ 31.
Proof.
  intros [_ _ ? ? ? ? _ _]. unfold window_at. case_bool_decide; nia.
Qed.

Lemma timespans params h :
  pow_params_ok params -> 0 <= h ->
  AveragingWindowTimespan params h = Some (window_at params h) /\
  MinActualTimespan params h = Some (Z.quot (window_at params h * (100 - nPowMaxAdjustUp params)) 100) /\
  MaxActualTimespan params h = Some (Z.quot (window_at params h * (100 + nPowMaxAdjustDown params)) 100).
Proof.
  intros Hp Hh. pose proof (window_range params h Hp) as Hw. destruct Hp as [_ _ _ _ _ _ Hu Hd].
  assert (AveragingWindowTimespan params h = Some (window_at params h)) as Ha.
  { unfold AveragingWindowTimespan, PoWTargetSpacing. rewrite NetworkUpgradeActive_spec by done.
    unfold window_at in *. monad. f_equal. case_bool_decide; apply s64_id; unfold is_s64; lia. }
  unfold MinActualTimespan, MaxActualTimespan. rewrite Ha. monad.
  rewrite !(s64_id (100 - _)), !(s64_id (100 + _)), !s64_id by (unfold is_s64; nia). done.
Qed.

(** The timespan the clamp works on: the difference of the times, unless it leaves
    the 64-bit range. *)
Definition seen_timespan (w t1 t0 : Z) : Z := s64 (s64 (t1 - t0) - w) + w.

Lemma seen_exact w t1 t0 : 0 < w < 2 ^ 31 -> Z.abs (t1 - t0) <= 2 ^ 62 -> seen_timespan w t1 t0 = t1 - t0.
Proof. intros Hw Ht. unfold seen_timespan. rewrite (s64_id (t1 - t0)), s64_id by (unfold is_s64; lia). lia. Qed.

(** The damping stays within 64 bits. *)
Lemma damped w t1 t0 : 0 < w < 2 ^ 31 ->
  s64 (w + Z.quot (s64 (s64 (t1 - t0) - w)) 4) = w + Z.quot (seen_timespan w t1 t0 - w) 4.
Proof.
  intros Hw. unfold seen_timespan. rewrite Z.add_simpl_r. pose proof (s64_range (s64 (t1 - t0) - w)) as Hr.
  generalize dependent (s64 (s64 (t1 - t0) - w)). intros a Ha. apply s64_id. unfold is_s64 in *.
  pose proof (Z.quot_rem' a 4). pose proof (Z.rem_bound_abs a 4). lia.
Qed.

Lemma clamped_range params h actual :
  pow_params_ok params ->
  let w := window_at params h in
  0 <= clamped_timespan params h actual <= 2 * w /\
  w * (100 - nPowMaxAdjustUp params) / 100 <= clamped_timespan params h actual
    <= w * (100 + nPowMaxAdjustDown params) / 100.
Proof.
  intros Hp. pose proof (window_range params h Hp) as Hw. destruct Hp as [_ _ _ _ _ _ Hu Hd].
  unfold clamped_timespan. generalize dependent (window_at params h). intros w Hw.
  assert (0 <= w * (100 - nPowMaxAdjustUp params) / 100) by (apply Z.div_pos; nia).
  assert (w * (100 - nPowMaxAdjustUp params) / 100 <= w * (100 + nPowMaxAdjustDown params) / 100)
    by (apply Z.div_le_mono; nia).
  assert (w * (100 + nPowMaxAdjustDown params) / 100 <= 2 * w) by (apply Z.div_le_upper_bound; nia).
  cbv zeta. lia.
Qed.

Lemma powLimit_val params :
  pow_params_ok params ->
  wf (UintToArith256 (powLimit params)) /\
  val (UintToArith256 (powLimit params)) = le_value (powLimit params).
Proof. intros [[? ?] _ _ _ _ _ _ _]. by apply UintToArith256_val. Qed.

Lemma op_mul32_val a b :
  wf a -> is_u32 b -> wf (op_mul32 a b) /\ val (op_mul32 a b) = (b * val a) mod 2 ^ 256.
Proof.
  intros [Hl Ha] Hb. unfold op_mul32.
  destruct (mul32_loop_val a 0 b Ha) as (-> & ? & Hl'); [unfold is_u32; lia|done|].
  split; [split; [congruence|done]|]. rewrite Hl. by rewrite Z.add_0_l.
Qed.

(** The code's two-step clamp with truncating division is [clamped_timespan]. *)
Lemma clamp_code params h actual :
  pow_params_ok params ->
  let w := window_at params h in
  let lo := Z.quot (w * (100 - nPowMaxAdjustUp params)) 100 in
  let hi := Z.quot (w * (100 + nPowMaxAdjustDown params)) 100 in
  let t := w + Z.quot (actual - w) 4 in
  let t := if t <? lo then lo else t in
  (if t >? hi then hi else t) = clamped_timespan params h actual.
Proof.
  intros Hp. pose proof (window_range params h Hp) as Hw. destruct Hp as [_ _ _ _ _ _ Hu Hd].
  unfold clamped_timespan. cbv zeta. rewrite !(Z.quot_div_nonneg (window_at _ _ * _)) by nia.
  repeat match goal with
  | |- context [if ?a <? ?b then _ else _] => destruct (Z.ltb_spec a b)
  | |- context [if ?a >? ?b then _ else _] => rewrite (Z.gtb_ltb a b)
  end; lia.
Qed.

Lemma retarget_mod params avg t1 t0 h :
  pow_params_ok params -> wf avg -> 0 <= h ->
  exists bn, CalculateNextWorkRequired avg t1 t0 params h = GetCompact bn false /\ wf bn /\
    val bn = Z.min (le_value (powLimit params))
      ((val avg / window_at params h * clamped_timespan params h (seen_timespan (window_at params h) t1 t0)) mod 2 ^ 256).
Proof.
  intros Hp Ha Hh. unfold CalculateNextWorkRequired.
  destruct (timespans params h Hp Hh) as (-> & -> & ->). cbv zeta.
  pose proof (window_range params h Hp) as Hw. monad. rewrite (damped _ t1 t0 Hw). set (seen := seen_timespan _ _ _).
  rewrite (clamp_code params h seen Hp).
  destruct (clamped_range params h seen Hp) as [Hc _].
  destruct (powLimit_val params Hp) as [Hlw Hlv].
  rewrite (u64_id (window_at params h)), (u32_id (clamped_timespan _ _ _)) by (unfold is_u64, is_u32; lia).
  destruct (of_u64_val (window_at params h)) as [Hbw Hbv]; [unfold is_u64; lia|].
  destruct (op_div_val avg (base_uint_of_u64 (window_at params h))) as (q & -> & Hqw & Hqv); [done..|lia|].
  destruct (op_mul32_val q (clamped_timespan params h seen) Hqw) as [Hmw Hmv]; [unfold is_u32; lia|].
  monad. rewrite Hbv in Hqv. rewrite op_gt_val by done. eexists. split; [reflexivity|].
  rewrite Hqv, Z.mul_comm in Hmv. rewrite Hlv, <- Hmv.
  match goal with |- context [?a <? ?b] => destruct (Z.ltb_spec a b) end; (split; [done|lia]).
Qed.

Lemma retarget params avg t1 t0 h :
  pow_params_ok params -> wf avg -> val avg <= le_value (powLimit params) -> 0 <= h ->
  Z.abs (t1 - t0) <= 2 ^ 62 ->
  exists bn, CalculateNextWorkRequired avg t1 t0 params h = GetCompact bn false /\ wf bn /\
    val bn = Z.min (le_value (powLimit params))
      (val avg / window_at params h * clamped_timespan params h (t1 - t0)).
Proof.
  intros Hp Ha Hle Hh Ht. destruct (retarget_mod params avg t1 t0 h Hp Ha Hh) as (bn & E & Hw & Hv).
  exists bn. split_and!; [done..|]. rewrite Hv, seen_exact by (by try apply window_range). f_equal. apply Z.mod_small.
  pose proof (window_range params h Hp) as Hwin. pose proof (pp_limit _ Hp) as Hlim.
  destruct (clamped_range params h (t1 - t0) Hp) as [Hc _]. pose proof (wf_val_range avg Ha).
  assert (0 <= val avg / window_at params h) by (apply Z.div_pos; lia).
  assert (window_at params h * (val avg / window_at params h) <= val avg) by (apply Z.mul_div_le; lia).
  set (q := val avg / window_at params h) in *.
  assert (0 <= q * clamped_timespan params h (t1 - t0) <= 2 * val avg) as Hprod by nia. lia.
Qed.

Lemma averaging_loop_spec m : tree_ok m ->
  (forall p b, m !! p = Some b -> is_u32 (nBits b)) ->
  forall n p tot, match p with Some p => is_Some (m !! p) | None => True end -> wf tot ->
  exists tot' p', averaging_loop n m p tot = Some (tot', p') /\ wf tot' /\
    match p' with Some p' => is_Some (m !! p') | None => True end.
Proof.
  intros Hm Hbits. induction n as [|n IH]; intros p tot Hp Ht; [by exists tot, p|].
  destruct p as [p|]; [|by exists tot, None]. destruct Hp as [b Hb]. cbn [averaging_loop].
  rewrite Hb. monad. apply IH.
  - destruct (pprev b) as [q|] eqn:Hq; [|done].
    destruct (node_prev _ _ _ (Hm _ _ Hb) _ Hq) as (bq & Hbq & _). by exists bq.
  - destruct (SetCompact_spec (nBits b)) as (v & -> & Hw & _); [eauto|]. by apply op_add_wf.
Qed.

Lemma GetMedianTimePast_total m p : tree_ok m -> is_Some (m !! p) -> is_Some (GetMedianTimePast m p).
Proof.
  intros Hm [b Hb]. unfold GetMedianTimePast.
  destruct (past_times_spec m Hm nMedianTimeSpan p b Hb) as (l & -> & _). simpl. eauto.
Qed.

Lemma compact_not_full c : is_u32 c -> compact_value c < 2 ^ 256 -> compact_value c < 2 ^ 256 - 1.
Proof.
  intros Hc Hlt. destruct (compact_fields c Hc) as (_ & _ & Hs & Hw). unfold compact_value in *.
  destruct (Z.leb_spec (compact_size c) 3).
  - apply Z.le_lt_trans with (compact_word c); [|lia].
    apply Z.div_le_upper_bound; [apply Z.pow_pos_nonneg; lia|].
    pose proof (Z.pow_pos_nonneg 256 (3 - compact_size c)). nia.
  - replace (compact_size c - 3) with (Z.succ (compact_size c - 4)) in * by lia.
    rewrite Z.pow_succ_r in * by lia. lia.
Qed.

Lemma work_quotient t :
  0 < t < 2 ^ 256 - 1 ->
  (2 ^ 256 - 1 - t) / (t + 1) + 1 = 2 ^ 256 / (t + 1) /\ 0 < 2 ^ 256 / (t + 1) < 2 ^ 256.
Proof.
  intros Ht. split_and!.
  - rewrite <- Z.div_add by lia. f_equal. ring.
  - apply Z.div_str_pos. lia.
  - apply Z.div_lt; lia.
Qed.

(** ** Properties *)

(** [CheckProofOfWork] accepts a header hash exactly when the compact
    target is non-negative, non-zero, fits in 256 bits, does not exceed the
    network's limit, and the hash, read as a little-endian integer, does not
    exceed the target. *)
Lemma CheckProofOfWork_iff (hash : list Z) (nBits : Z) (params : Params)
  (Hbits : is_u32 nBits) (Hb : is_bytes hash) (Hl : length hash = 32%nat)
  (Hp : pow_params_ok params) :
  CheckProofOfWork hash nBits params = true <->
  Z.land nBits 0x00800000 = 0 /\ 0 < compact_value nBits <= le_value (powLimit params) /\
  le_value hash <= compact_value nBits.
Proof.
  destruct (UintToArith256_val hash Hb Hl) as [Hw Hv].
  destruct (powLimit_val params Hp) as [Hlw Hlv]. pose proof (pp_limit _ Hp) as Hlim.
  unfold CheckProofOfWork. destruct (SetCompact nBits) as [[t fN] fO] eqn:E.
  destruct (decoded_target nBits t fN fO Hbits E) as (Htw & Hg & Htv).
  destruct (fN || EqualTo t 0 || fO) eqn:G.
  - assert (~ target_ok nBits) as Hn by (rewrite <- Hg; done). unfold target_ok in Hn.
    split; [done|]. intros (? & ? & ?). exfalso. apply Hn. split; [done|lia].
  - assert (target_ok nBits) as Hok by (by apply Hg). rewrite !op_gt_val, Hlv, Hv, (Htv Hok) by done.
    destruct Hok as [Hs Hr]. cbn [orb].
    destruct (Z.ltb_spec (le_value (powLimit params)) (compact_value nBits));
    destruct (Z.ltb_spec (compact_value nBits) (le_value hash)); intuition (try done; lia).
Qed.

Lemma CheckProofOfWork_iff_witness :
  CheckProofOfWork (le_bytes 32 12345) 0x1f07ffff CMainParams = true /\
  CheckProofOfWork (le_bytes 32 (2 ^ 255)) 0x1f07ffff CMainParams = false.
Proof.
  split.
  - apply (CheckProofOfWork_iff (le_bytes 32 12345) 0x1f07ffff CMainParams).
    + unfold is_u32; lia.
    + apply le_bytes_bytes.
    + reflexivity.
    + exact main_pow_params_ok.
    + vm_compute. intuition congruence.
  - reflexivity.
Defined.

(** The work credited to a block is the expected number of hashes its
    target asks for, 2^256 / (target + 1); a negative, zero or overflowing
    target is worth nothing. *)
Lemma GetBlockProof_work (nBits : Z) (Hbits : is_u32 nBits) :
  exists w, GetBlockProof nBits = Some w /\ wf w /\
    ((target_ok nBits /\ val w = 2 ^ 256 / (compact_value nBits + 1) /\ 0 < val w) \/
     (~ target_ok nBits /\ val w = 0)).
Proof.
  unfold GetBlockProof. destruct (SetCompact nBits) as [[t fN] fO] eqn:E.
  destruct (decoded_target nBits t fN fO Hbits E) as (Htw & Hg & Htv).
  replace (fN || fO || EqualTo t 0) with (fN || EqualTo t 0 || fO)
    by (destruct fN, fO, (EqualTo t 0); done).
  destruct (fN || EqualTo t 0 || fO) eqn:G.
  { exists base_uint_zero. split_and!; [done|apply wf_zero|]. right. by rewrite <- Hg. }
  assert (target_ok nBits) as Hok by (by apply Hg). pose proof (Htv Hok) as Hv.
  pose proof Hok as [Hs Hr]. pose proof Htw as [Hl Hu].
  destruct (op_compl_val t Hu) as [Hcv Hcu].
  assert (wf (op_compl t)) as Hcw by (split; [unfold op_compl; by rewrite length_map|done]).
  destruct (of_u64_val 1) as [H1w H1v]; [unfold is_u64; lia|].
  rewrite Hl in Hcv. change (limb_mod WIDTH) with (2 ^ 256) in Hcv. rewrite Hv in Hcv.
  assert (val (op_add t (base_uint_of_u64 1)) = (compact_value nBits + 1) mod 2 ^ 256) as Hsv
    by (rewrite op_add_val by done; congruence).
  pose proof (compact_not_full nBits Hbits (proj2 Hr)) as Hf.
  destruct (work_quotient (compact_value nBits)) as (Hq & Hq0); [lia|].
  rewrite Z.mod_small in Hsv by lia.
  destruct (op_div_val (op_compl t) (op_add t (base_uint_of_u64 1))) as (q & Hdiv & Hqw & Hqv);
    [done|by apply op_add_wf|lia|].
  rewrite Hdiv. monad. eexists. split_and!; [done|by apply op_add_wf|]. left.
  rewrite op_add_val, H1v, Hqv, Hcv, Hsv, Hq, Z.mod_small by (done || lia). split_and!; [done..|lia].
Qed.

Lemma GetBlockProof_work_witness :
  exists w, GetBlockProof 0x1d00ffff = Some w /\ val w = 0x100010001.
Proof.
  destruct (GetBlockProof_work 0x1d00ffff) as (w & Hw & _ & [(_ & Hv & _)|[Hn _]]).
  - unfold is_u32; lia.
  - exists w. split; [exact Hw|]. rewrite Hv. vm_compute. reflexivity.
  - exfalso. apply Hn. vm_compute. intuition congruence.
Defined.


(** C25: retargeting computes the average target scaled by the damped timespan
    clamped to [-nPowMaxAdjustUp %, +nPowMaxAdjustDown %] of the averaging window
    and capped at the network limit, and the compact result decodes to it up to
    the 15 bits of precision of the encoding, rounding towards more work.  The
    result is that of exact integers, although the code computes in int64_t, uint32_t
    and 256 bits, and no division is by zero, under these conditions: the parameters
    are sane (averaging window of positive length below 2^31 seconds, adjustments of 0
    to 100 percent, limit below 2^255), the average target is at most the limit, the
    height is not negative and the two median times are at most 2^62 seconds apart
    (times in blocks have 32 bits). *)
Theorem CalculateNextWorkRequired_bounds (params : Params) (bnAvg : list Z)
  (nLastBlockTime nFirstBlockTime nextHeight : Z)
  (Hp : pow_params_ok params) (Ha : wf bnAvg) (Hle : val bnAvg <= le_value (powLimit params))
  (Hh : 0 <= nextHeight) (Ht : Z.abs (nLastBlockTime - nFirstBlockTime) <= 2 ^ 62) :
  let w := window_at params nextHeight in
  let span := clamped_timespan params nextHeight (nLastBlockTime - nFirstBlockTime) in
  let N := Z.min (le_value (powLimit params)) (val bnAvg / w * span) in
  w * (100 - nPowMaxAdjustUp params) / 100 <= span <= w * (100 + nPowMaxAdjustDown params) / 100 /\
  exists c v,
    CalculateNextWorkRequired bnAvg nLastBlockTime nFirstBlockTime params nextHeight = Some c /\
    SetCompact c = (v, false, false) /\ val v <= N /\ (N - val v) * 2 ^ 15 <= N.
Proof.
  cbv zeta. split; [by apply clamped_range|].
  destruct (retarget params bnAvg nLastBlockTime nFirstBlockTime nextHeight Hp Ha Hle Hh Ht)
    as (bn & -> & Hw & <-).
  destruct (GetCompact_rounding bn Hw) as (c & v & HG & _ & HS & _ & H1 & H2). by exists c, v.
Qed.

Lemma CalculateNextWorkRequired_bounds_witness :
  clamped_timespan CMainParams 100 100000 = 1346 /\
  exists c v,
    CalculateNextWorkRequired (base_uint_of_u64 (1020 * 1000)) 100000 0 CMainParams 100 = Some c /\
    SetCompact c = (v, false, false) /\ val v <= 1346000.
Proof.
  split; [vm_compute; reflexivity|].
  destruct (CalculateNextWorkRequired_bounds CMainParams (base_uint_of_u64 (1020 * 1000)) 100000 0 100)
    as (_ & c & v & H1 & H2 & H3 & _).
  - exact main_pow_params_ok.
  - apply of_u64_val. unfold is_u64; lia.
  - vm_compute. discriminate.
  - lia.
  - vm_compute. discriminate.
  - exists c, v. split; [exact H1|]. split; [exact H2|]. etransitivity; [exact H3|]. vm_compute. discriminate.
Defined.

(** On a well-formed block tree [GetNextWorkRequired] always returns (no
    null dereference, no division by zero, no failed assertion), and the
    compact number it returns decodes to a non-negative target that does not
    exceed the network's proof-of-work limit. *)
Lemma GetNextWorkRequired_total (params : Params) (m : gmap nat CBlockIndex)
  (pindexLast : option nat) (pblock : option CBlockHeader)
  (Hp : pow_params_ok params) (Hm : tree_ok m)
  (Hbits : forall p b, m !! p = Some b -> is_u32 (nBits b))
  (Hlast : forall p, pindexLast = Some p -> is_Some (m !! p)) :
  exists c v, GetNextWorkRequired m pindexLast pblock params = Some c /\
    SetCompact c = (v, false, false) /\ val v <= le_value (powLimit params).
Proof.
  destruct (powLimit_val params Hp) as [Hlw Hlv]. unfold GetNextWorkRequired.
  destruct (GetCompact_rounding _ Hlw) as (cl & vl & HG & _ & HS & _ & Hle & _).
  rewrite Hlv in Hle. rewrite HG. monad.
  destruct pindexLast as [pl|]; [|by exists cl, vl].
  destruct (Hlast pl eq_refl) as [b Hb]. rewrite Hb. monad.
  pose proof (node_height _ _ _ (Hm _ _ Hb)) as Hh.
  assert (PoWTargetSpacing params (nHeight b + 1) = Some (window_at params (nHeight b + 1) / nPowAveragingWindow params)) as Hsp.
  { unfold PoWTargetSpacing. rewrite NetworkUpgradeActive_spec by lia. monad.
    unfold window_at. rewrite Z.mul_comm, Z.div_mul by (destruct Hp; lia). done. }
  match goal with |- context [mbind _ ?x] => assert (exists f, x = Some f) as [f ->] end.
  { destruct (nPowAllowMinDifficultyBlocksAfterHeight params) as [h|]; [|by eauto].
    destruct (_ >=? h); [|by eauto]. destruct pblock; [|by eauto]. rewrite Hsp. monad. eauto. }
  monad. destruct f; [by exists cl, vl|].
  destruct (averaging_loop_spec m Hm Hbits (Z.to_nat (nPowAveragingWindow params)) (Some pl) base_uint_zero)
    as (tot & p' & -> & Htw & Hp'); [by exists b|apply wf_zero|].
  monad. destruct p' as [pf|]; [|by exists cl, vl].
  destruct (of_u64_val (u64 (nPowAveragingWindow params))) as [Hww Hwv]; [apply u64_range|].
  destruct (op_div_val tot (base_uint_of_u64 (u64 (nPowAveragingWindow params)))) as (avg & -> & Haw & _);
    [done..| |].
  { rewrite Hwv, u64_id; destruct Hp; unfold is_u64; lia. }
  destruct (GetMedianTimePast_total m pl Hm) as [t1 ->]; [by exists b|].
  destruct (GetMedianTimePast_total m pf Hm Hp') as [t0 ->]. monad.
  destruct (retarget_mod params avg t1 t0 (nHeight b + 1) Hp Haw) as (bn & -> & Hbw & Hbv); [lia|].
  destruct (GetCompact_rounding bn Hbw) as (c & v & HG' & _ & HS' & _ & Hle' & _).
  exists c, v. split_and!; [done..|lia].
Qed.

Lemma GetNextWorkRequired_total_witness :
  exists c v, GetNextWorkRequired (sample_tree 30) (Some 29%nat) None CMainParams = Some c /\
    SetCompact c = (v, false, false) /\ val v <= le_value (powLimit CMainParams).
Proof.
  destruct (sample_tree_ok 30) as (Hm & _ & Hbl).
  apply (GetNextWorkRequired_total CMainParams (sample_tree 30) (Some 29%nat) None).
  - exact main_pow_params_ok.
  - exact Hm.
  - intros p b Hb. assert (map_Forall (fun _ b => is_u32 (nBits b)) (sample_tree 30)) as H
      by (apply (bool_decide_unpack _); vm_compute; exact I).
    exact (H p b Hb).
  - intros p [= <-]. destruct (Hbl 29%nat) as (b & Hb & _); [lia|]. exists b. exact Hb.
Defined.

End Pow.
