(* ===== verification/Amount.v ===== *)
(** * Amounts, fee rates and the block subsidy
    (src/amount.{h,cpp}, [GetBlockSubsidy] of src/main.cpp)

    The main result is the monetary cap: the subsidies of the main network's
    blocks, summed over any prefix of the chain, never exceed [MAX_MONEY]. *)

From stdpp Require Import base list list_numbers numbers.
From Stdlib Require Import ZArith Lia.
From S2P Require Import Prelude Params.
Import Consensus.

Module Amount.

Definition COIN : Z := 100000000.
Definition CENT : Z := 1000000.
Definition MAX_MONEY : Z := 126000000 * COIN.

Definition MoneyRange (nValue : Z) : bool := (nValue >=? 0) && (nValue <=? MAX_MONEY).

(** ** Fee rates *)

Record CFeeRate := { nSatoshisPerK : Z }.

Definition CFeeRate_zero : CFeeRate := {| nSatoshisPerK := 0 |}.

(** [nFeePaid*1000] is a product of [int64_t]; dividing by a [size_t] converts
    it to [uint64_t] first. *)
Definition CFeeRate_of_fee (nFeePaid nSize : Z) : CFeeRate :=
  {| nSatoshisPerK := if nSize >? 0 then s64 (u64 (nFeePaid * 1000) / nSize) else 0 |}.

(** The product with a [size_t] is an unsigned 64-bit one. *)
Definition GetFee (r : CFeeRate) (nSize : Z) : Z :=
  let nFee := s64 (u64 (nSatoshisPerK r * nSize) / 1000) in
  if (nFee =? 0) && (nSatoshisPerK r >? 0) then nSatoshisPerK r else nFee.

Definition GetFeePerK (r : CFeeRate) : Z := GetFee r 1000.

Definition feerate_lt (a b : CFeeRate) : bool := nSatoshisPerK a <? nSatoshisPerK b.
Definition feerate_gt (a b : CFeeRate) : bool := nSatoshisPerK a >? nSatoshisPerK b.
Definition feerate_eq (a b : CFeeRate) : bool := nSatoshisPerK a =? nSatoshisPerK b.
Definition feerate_le (a b : CFeeRate) : bool := nSatoshisPerK a <=? nSatoshisPerK b.
Definition feerate_ge (a b : CFeeRate) : bool := nSatoshisPerK a >=? nSatoshisPerK b.

(** ** Block subsidy *)

(** [int] division truncates; the shift is capped at 63 places. *)
Definition GetBlockSubsidy (nHeight : Z) (consensusParams : Params) : Z :=
  let start := nSubsidySlowStartHeight consensusParams in
  let interval := nSubsidySlowStartInterval consensusParams in
  if (nHeight >=? 21) && (nHeight <=? 80) then u64 (1000000 * COIN)
  else if nHeight <? start then 0
  else if nHeight <? start + interval then
    let relHeight := nHeight - start + 1 in
    s64 (u64 (20 * COIN * relHeight) / u64 interval)
  else
    let relHeight := nHeight - (start + interval) + 1 in
    let halvings := u32 (Z.quot relHeight (nSubsidyHalvingInterval consensusParams)) in
    let relHeight := Z.rem relHeight (nSubsidyHalvingInterval consensusParams) in
    let halvings := if halvings >? 63 then 63 else halvings in
    let nSubsidy := Z.shiftr (20 * COIN) halvings in
    Z.quot nSubsidy 2
    + Z.quot (nSubsidy * (nSubsidyHalvingInterval consensusParams - relHeight))
             (2 * nSubsidyHalvingInterval consensusParams).

(** The coins issued by the first [n] blocks (heights [0 .. n-1]). *)
Fixpoint issued (params : Params) (n : nat) : Z :=
  match n with
  | O => 0
  | S n' => issued params n' + GetBlockSubsidy (Z.of_nat n') params
  end.

(** ** Fee rate facts *)

(** A fee rate derived from a paid fee never asks for more than that fee for the
    same size, and for less by at most one satoshi per kilobyte begun. *)
Lemma GetFee_of_fee fee size :
  0 <= fee * 1000 < 2 ^ 63 -> 0 < size < 2 ^ 63 ->
  let r := CFeeRate_of_fee fee size in
  nSatoshisPerK r = fee * 1000 / size /\
  (GetFee r size = nSatoshisPerK r /\ nSatoshisPerK r * size < 1000 \/
   fee - (size - 1) / 1000 - 1 <= GetFee r size <= fee).
Proof.
  intros Hf Hs r.
  assert (nSatoshisPerK r = fee * 1000 / size) as Hr.
  { unfold r, CFeeRate_of_fee. simpl. rewrite Z.gtb_ltb, (proj2 (Z.ltb_lt _ _)) by lia.
    rewrite u64_id by (unfold is_u64; lia). apply s64_id. unfold is_s64.
    pose proof (Z.div_le_upper_bound (fee * 1000) size (fee * 1000)).
    pose proof (Z.div_pos (fee * 1000) size). nia. }
  split; [done|]. unfold GetFee. rewrite Hr.
  assert (0 <= fee * 1000 / size) by (apply Z.div_pos; lia).
  pose proof (Z.mul_div_le (fee * 1000) size). pose proof (Z.mul_succ_div_gt (fee * 1000) size).
  set (k := fee * 1000 / size) in *.
  rewrite (u64_id (k * size)) by (unfold is_u64; nia).
  rewrite (s64_id (k * size / 1000)) by (unfold is_s64; Z.div_mod_to_equations; nia).
  destruct (Z.eqb_spec (k * size / 1000) 0) as [Hz|Hz]; cbn [andb].
  - destruct (Z.gtb_spec k 0).
    + left. split; [done|]. zdm.
    + right. assert (k = 0) by lia. Z.div_mod_to_equations. nia.
  - right. Z.div_mod_to_equations. nia.
Qed.

(** ** Subsidy facts *)

(** Halving interval and slow-start end of the main network. *)
Definition HI : Z := 2185600.
Definition slow_end : Z := 43401.

(** The subsidy of the [t]-th block counted from the end of the slow start. *)
Definition epoch_subsidy (t : Z) : Z :=
  let s := (20 * COIN) / 2 ^ (t / HI) in
  s / 2 + s * (HI - t mod HI) / (2 * HI).

Definition S_ (k : Z) : Z := (20 * COIN) / 2 ^ k.

Lemma S_halves k : 0 <= k -> 2 * S_ (k + 1) <= S_ k.
Proof.
  intros Hk. unfold S_. rewrite Z.pow_add_r by lia.
  rewrite <- Z.div_div by (try apply Z.pow_nonzero; lia). zdm.
Qed.

Lemma S_range k : 0 <= k -> 0 <= S_ k <= 20 * COIN.
Proof.
  intros Hk. unfold S_. pose proof (Z.pow_pos_nonneg 2 k). split.
  - apply Z.div_pos; unfold COIN; lia.
  - apply Z.div_le_upper_bound; [lia|]. unfold COIN. nia.
Qed.

Lemma S_capped k : 63 < k -> S_ k = 0 /\ S_ 63 = 0.
Proof.
  intros Hk. unfold S_. split; [|reflexivity]. apply Z.div_small. split; [unfold COIN; lia|].
  apply Z.lt_trans with (2 ^ 63); [reflexivity|]. apply Z.pow_lt_mono_r; lia.
Qed.

Lemma GetBlockSubsidy_late t :
  1 <= t < 2 ^ 31 -> GetBlockSubsidy (slow_end - 1 + t) CMainParams = epoch_subsidy t.
Proof.
  intros Ht. unfold GetBlockSubsidy, slow_end. cbn [nSubsidySlowStartHeight nSubsidySlowStartInterval
    nSubsidyHalvingInterval CMainParams].
  change (2200000 - 14400) with HI. change (201 + 43200) with 43401.
  rewrite (proj2 (Z.leb_gt (43401 - 1 + t) 80)) by lia. rewrite andb_false_r.
  rewrite !(proj2 (Z.ltb_ge _ _)) by lia.
  replace (43401 - 1 + t - 43401 + 1) with t by lia. cbv zeta.
  assert (HI = 2185600) as HHI by reflexivity.
  rewrite (Z.quot_div_nonneg t HI), (Z.rem_mod_nonneg t HI) by lia.
  assert (0 <= t / HI < 2 ^ 31) by (rewrite HHI; zdm).
  rewrite u32_id by (unfold is_u32; lia). unfold epoch_subsidy.
  assert (Z.shiftr (20 * COIN) (if t / HI >? 63 then 63 else t / HI) = S_ (t / HI)) as ->.
  { rewrite Z.shiftr_div_pow2 by (destruct (_ >? _); lia).
    destruct (Z.gtb_spec (t / HI) 63); [|done].
    destruct (S_capped (t / HI)) as [-> <-]; [lia|done]. }
  pose proof (S_range (t / HI)) as HS. fold (S_ (t / HI)).
  pose proof (Z.mod_pos_bound t HI). rewrite !Z.quot_div_nonneg by nia. done.
Qed.

(** ** The sum over the halving epochs *)

Fixpoint epochs_sum (k : nat) : Z :=
  match k with O => 0 | S k' => epochs_sum k' + S_ (Z.of_nat k') end.

Lemma epochs_sum_bound k : 0 <= epochs_sum k /\ epochs_sum k + 2 * S_ (Z.of_nat k) <= 40 * COIN.
Proof.
  induction k as [|k IH]; [done|]. cbn [epochs_sum].
  pose proof (S_halves (Z.of_nat k)). pose proof (S_range (Z.of_nat k)).
  rewrite Nat2Z.inj_succ, <- Z.add_1_r. lia.
Qed.

Fixpoint late_sum (t : nat) : Z :=
  match t with O => 0 | S t' => late_sum t' + epoch_subsidy (Z.of_nat t') end.

(** One block of an epoch, against the straight line it is rounded down from. *)
Lemma epoch_subsidy_bound t :
  0 <= t -> 0 <= epoch_subsidy t /\ 4 * HI * epoch_subsidy t <= S_ (t / HI) * (4 * HI - 2 * (t mod HI)).
Proof.
  intros Ht. unfold epoch_subsidy. fold (S_ (t / HI)).
  assert (0 < HI) by reflexivity. pose proof (S_range (t / HI)) as HS.
  pose proof (Z.mod_pos_bound t HI). assert (0 <= t / HI) by (apply Z.div_pos; lia).
  generalize dependent (S_ (t / HI)). intros s Hs. set (r := t mod HI) in *.
  pose proof (Z.mul_div_le s 2). pose proof (Z.mul_div_le (s * (HI - r)) (2 * HI)).
  pose proof (Z.div_pos s 2). pose proof (Z.div_pos (s * (HI - r)) (2 * HI)). nia.
Qed.

Lemma late_sum_bound t :
  4 * HI * late_sum t <=
  epochs_sum (Z.to_nat (Z.of_nat t / HI)) * (3 * HI * HI + HI)
  + S_ (Z.of_nat t / HI) * (4 * HI * (Z.of_nat t mod HI) - (Z.of_nat t mod HI) * (Z.of_nat t mod HI - 1)).
Proof.
  assert (HI = 2185600) as HHI by reflexivity.
  induction t as [|t IH]; [done|]. cbn [late_sum].
  destruct (epoch_subsidy_bound (Z.of_nat t)) as [_ Hb]; [lia|].
  rewrite Nat2Z.inj_succ, <- Z.add_1_r.
  set (k := Z.of_nat t / HI) in *. set (r := Z.of_nat t mod HI) in *.
  assert (Z.of_nat t = HI * k + r) as Ht by (apply Z.div_mod; lia).
  assert (0 <= r < HI) as Hr by (apply Z.mod_pos_bound; lia).
  assert (0 <= k) as Hk by (apply Z.div_pos; lia).
  destruct (decide (r + 1 = HI)) as [Hlast|Hn].
  - assert ((Z.of_nat t + 1) / HI = k + 1 /\ (Z.of_nat t + 1) mod HI = 0) as [-> ->].
    { rewrite Ht. replace (HI * k + r + 1) with ((k + 1) * HI) by lia.
      split; [apply Z.div_mul; lia|apply Z.mod_mul; lia]. }
    replace (Z.to_nat (k + 1)) with (S (Z.to_nat k)) by lia. cbn [epochs_sum].
    rewrite Z2Nat.id by lia. replace r with (HI - 1) in * by lia. nia.
  - assert ((Z.of_nat t + 1) / HI = k /\ (Z.of_nat t + 1) mod HI = r + 1) as [-> ->].
    { replace (Z.of_nat t + 1) with (HI * k + (r + 1)) by lia. split; symmetry.
      - apply Z.div_unique with (r + 1); lia.
      - apply Z.mod_unique with k; lia. }
    nia.
Qed.

(** All blocks after the slow start, counting a fictitious block 0. *)
Lemma late_sum_total t : late_sum t <= 10 * COIN * (3 * HI + 1).
Proof.
  pose proof (late_sum_bound t) as Hb. assert (0 < HI) by reflexivity.
  pose proof (epochs_sum_bound (Z.to_nat (Z.of_nat t / HI))) as [H0 H1].
  assert (0 <= Z.of_nat t / HI) by (apply Z.div_pos; lia). rewrite Z2Nat.id in H1 by done.
  pose proof (S_range (Z.of_nat t / HI)). pose proof (Z.mod_pos_bound (Z.of_nat t) HI).
  set (s := S_ (Z.of_nat t / HI)) in *. set (r := Z.of_nat t mod HI) in *.
  set (e := epochs_sum _) in *.
  assert (4 * HI * r - r * (r - 1) <= 3 * HI * HI + HI) by nia.
  assert (4 * HI * late_sum t <= (e + s) * (3 * HI * HI + HI)) by nia.
  assert (4 * HI * late_sum t <= 40 * COIN * (3 * HI * HI + HI)) by nia. nia.
Qed.

Definition slow_blocks : nat := Z.to_nat slow_end.

(** The same sum with an accumulator and an integer counter, to evaluate it. *)
Fixpoint issued_from (params : Params) (h : Z) (k : nat) (acc : Z) : Z :=
  match k with
  | O => acc
  | S k' => issued_from params (h + 1) k' (acc + GetBlockSubsidy h params)
  end.

Lemma issued_from_spec params k n acc :
  issued_from params (Z.of_nat n) k (acc + issued params n) = acc + issued params (k + n).
Proof.
  revert n acc. induction k as [|k IH]; intros n acc; [done|]. cbn [issued_from Nat.add].
  replace (Z.of_nat n + 1) with (Z.of_nat (S n)) by lia.
  replace (S (k + n)) with (k + S n)%nat by lia.
  rewrite <- IH. f_equal. cbn [issued]. lia.
Qed.

Lemma issued_slow : 0 <= issued CMainParams slow_blocks <= 60432010 * COIN.
Proof.
  pose proof (issued_from_spec CMainParams slow_blocks 0 0) as H.
  rewrite Nat.add_0_r, !Z.add_0_l in H. rewrite <- H.
  replace (issued_from CMainParams (Z.of_nat 0) slow_blocks (issued CMainParams 0))
    with (6043200999979200) by (vm_compute; reflexivity). vm_compute. split; discriminate.
Qed.

Lemma issued_late n :
  Z.of_nat n < 2 ^ 31 - slow_end ->
  issued CMainParams (n + slow_blocks) = issued CMainParams slow_blocks + late_sum (S n) - 20 * COIN.
Proof.
  assert (Z.of_nat slow_blocks = slow_end) as Hsb by (apply Z2Nat.id; done).
  generalize dependent slow_blocks. intros sb Hsb.
  assert (slow_end = 43401) by reflexivity.
  induction n as [|n IH]; intros Hn.
  - change (late_sum 1) with (20 * COIN). simpl. lia.
  - cbn [issued Nat.add]. rewrite IH by lia.
    replace (Z.of_nat (n + sb)) with (slow_end - 1 + Z.of_nat (S n)) by lia.
    rewrite GetBlockSubsidy_late by lia. cbn [late_sum]. lia.
Qed.

Lemma late_sum_nonneg t : 0 <= late_sum t.
Proof.
  induction t as [|t IH]; [done|]. cbn [late_sum].
  destruct (epoch_subsidy_bound (Z.of_nat t)); lia.
Qed.

Lemma GetBlockSubsidy_nonneg h : 0 <= h < 2 ^ 31 -> 0 <= GetBlockSubsidy h CMainParams.
Proof.
  intros Hh. assert (slow_end = 43401) by reflexivity. destruct (decide (slow_end <= h)).
  - replace h with (slow_end - 1 + (h - slow_end + 1)) by lia.
    rewrite GetBlockSubsidy_late by lia. apply epoch_subsidy_bound. lia.
  - unfold GetBlockSubsidy. cbn [nSubsidySlowStartHeight nSubsidySlowStartInterval CMainParams].
    destruct (_ && _); [vm_compute; discriminate|].
    destruct (Z.ltb_spec h 201); [lia|]. rewrite (proj2 (Z.ltb_lt h (201 + 43200))) by lia.
    rewrite !u64_id, s64_id by (unfold is_u64, is_s64, COIN; zdm). unfold COIN. zdm.
Qed.

Lemma issued_mono n k :
  Z.of_nat (k + n) < 2 ^ 31 -> issued CMainParams n <= issued CMainParams (k + n).
Proof.
  induction k as [|k IH]; intros Hk; [done|]. cbn [issued Nat.add].
  pose proof (GetBlockSubsidy_nonneg (Z.of_nat (k + n))). lia.
Qed.

(** ** Properties *)

(** C22: the monetary cap.  On the main network, for every height an [int] can
    hold, the subsidies of all blocks up to that height sum to at most
    [MAX_MONEY] (126,000,000 coins), and every partial sum is in
    [MoneyRange]. *)
Theorem money_supply_capped (n : nat) (Hn : Z.of_nat n <= 2 ^ 31 - 1) :
  0 <= issued CMainParams n <= MAX_MONEY /\ MoneyRange (issued CMainParams n) = true.
Proof.
  assert (0 <= issued CMainParams n <= MAX_MONEY) as H.
  { assert (slow_end = 43401) as Hse by reflexivity.
    assert (Z.of_nat slow_blocks = slow_end) as Hsb by (apply Z2Nat.id; done).
    assert (issued CMainParams 0 = 0) as H0 by reflexivity. pose proof issued_slow as Hs.
    split.
    { rewrite <- H0. rewrite <- (Nat.add_0_r n). apply issued_mono. lia. }
    destruct (decide (slow_blocks <= n)%nat) as [Hle|Hgt].
    - replace n with ((n - slow_blocks) + slow_blocks)%nat by lia.
      rewrite issued_late by lia. pose proof (late_sum_total (S (n - slow_blocks))).
      unfold MAX_MONEY, HI in *. lia.
    - pose proof (issued_mono n (slow_blocks - n)) as Hm.
      replace (slow_blocks - n + n)%nat with slow_blocks in Hm by lia. unfold MAX_MONEY. lia. }
  split; [done|]. unfold MoneyRange. rewrite Z.geb_leb, andb_true_iff, !Z.leb_le. done.
Qed.

Lemma money_supply_capped_witness :
  issued CMainParams 100 = 60000000 * COIN /\ 0 <= issued CMainParams 100 <= MAX_MONEY.
Proof.
  split; [vm_compute; reflexivity|].
  apply (money_supply_capped 100). vm_compute. discriminate.
Defined.

End Amount.
