(* ===== verification/Serialize.v ===== *)
(** * Serialization (src/serialize.h)

    A stream is the list of the bytes still to be read.  A reader returns the
    value and the rest of the stream, or the [std::ios_base::failure] it throws;
    a writer returns the bytes it appends, or a failure.

    [SerializationOp] is one template that both reads and writes; a [codec]
    pairs the two, and [codec_ok] is the contract every serialized type
    promises to the types built from it: reading back what was written returns
    the same value, and only the bytes that writing produces are accepted. *)

From stdpp Require Import base list list_numbers numbers option.
From Stdlib Require Import ZArith Lia.
From S2P Require Import Prelude Bytes.
Import Endian.

Module Serialize.

(** ** Failures and readers *)

Inductive io_error :=
| EndOfData
| NonCanonicalCompactSize
| SizeTooLarge
| LimitExceeded
| NonCanonicalOptional
| UnknownTransactionFormat
| BadLeadByte
| InvalidSproutProof
| InvalidLeadingBits.

#[global] Instance io_error_dec : EqDecision io_error.
Proof. solve_decision. Defined.

Definition reader (A : Type) : Type := list Z -> io_error + (A * list Z).

Definition rret {A} (x : A) : reader A := fun s => inr (x, s).
Definition rfail {A} (e : io_error) : reader A := fun _ => inl e.
Definition rbind {A B} (m : reader A) (k : A -> reader B) : reader B :=
  fun s => match m s with inl e => inl e | inr (x, s') => k x s' end.

Declare Scope reader_scope.
Delimit Scope reader_scope with reader.
Notation "'let!' x ':=' m 'in' k" := (rbind m (fun x => k))
  (at level 10, x pattern, m at level 100, k at level 200) : reader_scope.
Open Scope reader_scope.

Definition writer : Type := io_error + list Z.
Definition wapp (a b : writer) : writer :=
  match a, b with
  | inl e, _ => inl e
  | _, inl e => inl e
  | inr x, inr y => inr (x ++ y)
  end.

(** [s.read(p, n)] *)
Definition read (n : Z) : reader (list Z) := fun s =>
  if Z.of_nat (length s) <? n then inl EndOfData
  else inr (take (Z.to_nat n) s, drop (Z.to_nat n) s).

(** ** Fixed-width integers *)

Definition ser_writedata8 (obj : Z) : list Z := [u8 obj].
Definition ser_writedata16 (obj : Z) : list Z := le_bytes 2 (u16 obj).
Definition ser_writedata32 (obj : Z) : list Z := le_bytes 4 (u32 obj).
Definition ser_writedata64 (obj : Z) : list Z := le_bytes 8 (u64 obj).
Definition ser_writedata32be (obj : Z) : list Z := rev (le_bytes 4 (u32 obj)).

Definition ser_readdata8 : reader Z := let! b := read 1 in rret (le_value b).
Definition ser_readdata16 : reader Z := let! b := read 2 in rret (le_value b).
Definition ser_readdata32 : reader Z := let! b := read 4 in rret (le_value b).
Definition ser_readdata64 : reader Z := let! b := read 8 in rret (le_value b).
Definition ser_readdata32be : reader Z := let! b := read 4 in rret (le_value (rev b)).

(** ** Compact sizes *)

Definition MAX_SIZE : Z := 0x02000000.

Definition GetSizeOfCompactSize (nSize : Z) : Z :=
  if nSize <? 253 then 1
  else if nSize <=? 0xFFFF then 3
  else if nSize <=? 0xFFFFFFFF then 5
  else 9.

Definition WriteCompactSize (nSize : Z) : list Z :=
  if nSize <? 253 then ser_writedata8 nSize
  else if nSize <=? 0xFFFF then ser_writedata8 253 ++ ser_writedata16 nSize
  else if nSize <=? 0xFFFFFFFF then ser_writedata8 254 ++ ser_writedata32 nSize
  else ser_writedata8 255 ++ ser_writedata64 nSize.

(** Reads a size, failing when it is below the least one its prefix is for. *)
Definition canonical_from (least : Z) (m : reader Z) : reader Z :=
  let! nSizeRet := m in
  if nSizeRet <? least then rfail NonCanonicalCompactSize else rret nSizeRet.

Definition ReadCompactSize : reader Z :=
  let! chSize := ser_readdata8 in
  let! nSizeRet :=
    (if chSize <? 253 then rret chSize
     else if chSize =? 253 then canonical_from 253 ser_readdata16
     else if chSize =? 254 then canonical_from 0x10000 ser_readdata32
     else canonical_from 0x100000000 ser_readdata64) in
  if nSizeRet >? MAX_SIZE then rfail SizeTooLarge else rret nSizeRet.

(** ** Variable-length integers of [w] bits *)

(** The loop of [GetSizeOfVarInt]; [fuel] bounds its iterations. *)
Fixpoint GetSizeOfVarInt_loop (fuel : nat) (n nRet : Z) : option Z :=
  match fuel with
  | O => None
  | S f =>
      let nRet := nRet + 1 in
      if n <=? 0x7F then Some nRet
      else GetSizeOfVarInt_loop f (Z.shiftr n 7 - 1) nRet
  end.

Definition varint_len (w : nat) : nat := ((w + 6) / 7)%nat.

Definition GetSizeOfVarInt (w : nat) (n : Z) : option Z :=
  GetSizeOfVarInt_loop (varint_len w) n 0.

(** The buffer [tmp] is consed, so it is already in the order the second loop
    writes it; [None] is an overrun of its [(w+6)/7] bytes. *)
Fixpoint WriteVarInt_loop (room : nat) (n : Z) (tmp : list Z) : option (list Z) :=
  match room with
  | O => None
  | S r =>
      let tmp := Z.lor (Z.land n 0x7F) (match tmp with [] => 0x00 | _ => 0x80 end) :: tmp in
      if n <=? 0x7F then Some tmp
      else WriteVarInt_loop r (Z.shiftr n 7 - 1) tmp
  end.

Definition WriteVarInt (w : nat) (n : Z) : option (list Z) :=
  WriteVarInt_loop (varint_len w) n [].

(** [wrap z] is the conversion to the integer type [I]. *)
Fixpoint ReadVarInt_loop (wrap : Z -> Z) (n : Z) (s : list Z) : io_error + (Z * list Z) :=
  match s with
  | [] => inl EndOfData
  | chData :: s' =>
      let n := Z.lor (wrap (Z.shiftl n 7)) (Z.land chData 0x7F) in
      if negb (Z.land chData 0x80 =? 0) then ReadVarInt_loop wrap (wrap (n + 1)) s'
      else inr (n, s')
  end.

Definition ReadVarInt (w : nat) : reader Z :=
  ReadVarInt_loop (fun z => z mod 2 ^ Z.of_nat w) 0.

(** ** Codecs: [SerializationOp] of a type *)

Record codec (A : Type) := {
  enc : A -> writer;
  dec : reader A;
  valid : A -> Prop   (* the values the type can hold *)
}.
Arguments enc {A}. Arguments dec {A}. Arguments valid {A}.

Class CodecOk {A} (c : codec A) : Prop := {
  dec_enc x : valid c x -> exists bs, enc c x = inr bs /\ is_bytes bs /\
    forall rest, dec c (bs ++ rest) = inr (x, rest);
  enc_dec s x rest : is_bytes s -> dec c s = inr (x, rest) ->
    valid c x /\ exists bs, enc c x = inr bs /\ s = bs ++ rest
}.

Definition u8_codec : codec Z :=
  {| enc x := inr (ser_writedata8 x); dec := ser_readdata8; valid := is_u8 |}.
Definition u16_codec : codec Z :=
  {| enc x := inr (ser_writedata16 x); dec := ser_readdata16; valid x := 0 <= x < 2 ^ 16 |}.
Definition u32_codec : codec Z :=
  {| enc x := inr (ser_writedata32 x); dec := ser_readdata32; valid := is_u32 |}.
Definition u64_codec : codec Z :=
  {| enc x := inr (ser_writedata64 x); dec := ser_readdata64; valid := is_u64 |}.
(** [int64_t] is written through [uint64_t]. *)
Definition s64_codec : codec Z :=
  {| enc x := inr (ser_writedata64 x);
     dec := let! x := ser_readdata64 in rret (s64 x); valid := is_s64 |}.
Definition compact_codec : codec Z :=
  {| enc x := inr (WriteCompactSize x); dec := ReadCompactSize;
     valid x := 0 <= x <= MAX_SIZE |}.

(** [base_blob] and [std::array<unsigned char, n>]: raw bytes. *)
Definition blob_codec (n : Z) : codec (list Z) :=
  {| enc x := inr x; dec := read n; valid x := is_bytes x /\ Z.of_nat (length x) = n |}.

Definition pure_codec {A} (d : A) : codec A :=
  {| enc _ := inr []; dec := rret d; valid x := x = d |}.

(** [if (b) READWRITE(x)], where an unread [x] keeps its initial value [d]. *)
Definition when_codec {A} (b : bool) (c : codec A) (d : A) : codec A :=
  if b then c else pure_codec d.

(** [if (!b) throw e] *)
Definition guard_codec (b : bool) (e : io_error) : codec unit :=
  if b then pure_codec tt
  else {| enc _ := inl e; dec := rfail e; valid _ := False |}.

(** [READWRITE(a); READWRITE(b)], where how [b] is read may depend on [a]. *)
Definition seq_codec {A B} (c : codec A) (k : A -> codec B) : codec (A * B) :=
  {| enc p := wapp (enc c (fst p)) (enc (k (fst p)) (snd p));
     dec := let! a := dec c in let! b := dec (k a) in rret (a, b);
     valid p := valid c (fst p) /\ valid (k (fst p)) (snd p) |}.
Definition pair_codec {A B} (c : codec A) (c' : codec B) : codec (A * B) :=
  seq_codec c (fun _ => c').

(** A class whose fields are those of [c], with constructor [f]. *)
Definition iso_codec {A B} (f : A -> B) (g : B -> A) (c : codec A) : codec B :=
  {| enc x := enc c (g x); dec := let! a := dec c in rret (f a); valid x := valid c (g x) |}.

(** [for (i = 0; i < n; i++) READWRITE(item[i])] *)
Fixpoint enc_all {A} (c : codec A) (l : list A) : writer :=
  match l with [] => inr [] | x :: l' => wapp (enc c x) (enc_all c l') end.
Fixpoint dec_all {A} (c : codec A) (n : nat) : reader (list A) :=
  match n with
  | O => rret []
  | S n' => let! x := dec c in let! l := dec_all c n' in rret (x :: l)
  end.

(** [std::array<T, N>] *)
Definition array_codec {A} (c : codec A) (n : nat) : codec (list A) :=
  {| enc := enc_all c; dec := dec_all c n; valid l := length l = n /\ Forall (valid c) l |}.

(** [std::vector<T>]: the size, then the elements. *)
Definition vector_codec {A} (c : codec A) : codec (list A) :=
  {| enc l := wapp (inr (WriteCompactSize (Z.of_nat (length l)))) (enc_all c l);
     dec := let! nSize := ReadCompactSize in dec_all c (Z.to_nat nSize);
     valid l := Z.of_nat (length l) <= MAX_SIZE /\ Forall (valid c) l |}.

(** The block-wise read of a [vector<unsigned char>]; [fuel] bounds the blocks. *)
Fixpoint read_blocks (fuel : nat) (i nSize : Z) : reader (list Z) :=
  match fuel with
  | O => rret []
  | S f =>
      if i <? nSize then
        let blk := Z.min (nSize - i) (1 + 4999999) in
        let! v := read blk in
        let! v' := read_blocks f (i + blk) nSize in
        rret (v ++ v')
      else rret []
  end.

Definition bytes_codec : codec (list Z) :=
  {| enc l := inr (WriteCompactSize (Z.of_nat (length l)) ++ l);
     dec := let! nSize := ReadCompactSize in read_blocks 8 0 nSize;
     valid l := is_bytes l /\ Z.of_nat (length l) <= MAX_SIZE |}.

(** [boost::optional<T>] *)
Definition optional_codec {A} (c : codec A) : codec (option A) :=
  {| enc o := match o with
              | Some x => wapp (inr (ser_writedata8 1)) (enc c x)
              | None => inr (ser_writedata8 0)
              end;
     dec := let! d := ser_readdata8 in
            if d =? 0 then rret None
            else if d =? 1 then let! x := dec c in rret (Some x)
            else rfail NonCanonicalOptional;
     valid o := match o with Some x => valid c x | None => True end |}.

(** ** Readers undo writers *)

Lemma read_app n l rest : Z.of_nat (length l) = n -> read n (l ++ rest) = inr (l, rest).
Proof.
  intros Hn. unfold read. rewrite length_app, (proj2 (Z.ltb_ge _ _)) by lia.
  replace (Z.to_nat n) with (length l) by lia. by rewrite take_app_length, drop_app_length.
Qed.

Lemma read_inv n s x rest :
  0 <= n -> read n s = inr (x, rest) -> s = x ++ rest /\ Z.of_nat (length x) = n.
Proof.
  intros Hn. unfold read. destruct (Z.ltb_spec (Z.of_nat (length s)) n); [done|].
  intros [= <- <-]. rewrite take_drop, length_take. split; [done|lia].
Qed.

(** An unsigned integer of [k] bytes. *)
Lemma le_read_write (k : nat) x rest :
  0 <= x < 256 ^ Z.of_nat k ->
  rbind (read (Z.of_nat k)) (fun b => rret (le_value b)) (le_bytes k x ++ rest) = inr (x, rest).
Proof.
  intros Hx. unfold rbind. rewrite read_app by (by rewrite length_le_bytes).
  rewrite le_value_bytes, Z.mod_small by done. done.
Qed.

Lemma le_write_read (k : nat) s x rest :
  is_bytes s -> rbind (read (Z.of_nat k)) (fun b => rret (le_value b)) s = inr (x, rest) ->
  0 <= x < 256 ^ Z.of_nat k /\ s = le_bytes k x ++ rest /\ is_bytes rest.
Proof.
  intros Hs. unfold rbind. destruct (read (Z.of_nat k) s) as [|[b s']] eqn:E; [done|].
  intros [= <- <-]. apply read_inv in E as [-> Hl]; [|lia]. apply Forall_app in Hs as [Hb Hr].
  pose proof (le_value_range b Hb) as Hv. rewrite Hl in Hv.
  assert (length b = k) as <- by lia. by rewrite le_bytes_value.
Qed.

Lemma uint_codec_ok (k : nat) (w : Z -> list Z) :
  (forall x, 0 <= x < 256 ^ Z.of_nat k -> w x = le_bytes k x) ->
  CodecOk {| enc x := inr (w x);
             dec := rbind (read (Z.of_nat k)) (fun b => rret (le_value b));
             valid x := 0 <= x < 256 ^ Z.of_nat k |}.
Proof.
  intros Hw. split; simpl.
  - intros x Hx. rewrite Hw by done. eexists. split_and!; [done|auto with width|].
    intros rest. by apply le_read_write.
  - intros s x rest Hs Hd. apply le_write_read in Hd as (Hx & -> & _); [|done].
    rewrite Hw by done. eauto.
Qed.

#[global] Instance u8_codec_ok : CodecOk u8_codec.
Proof. apply (uint_codec_ok 1). done. Qed.
#[global] Instance u16_codec_ok : CodecOk u16_codec.
Proof.
  apply (uint_codec_ok 2). intros x Hx. unfold ser_writedata16, u16. by rewrite Z.mod_small.
Qed.
#[global] Instance u32_codec_ok : CodecOk u32_codec.
Proof. apply (uint_codec_ok 4). intros x Hx. unfold ser_writedata32. by rewrite u32_id. Qed.
#[global] Instance u64_codec_ok : CodecOk u64_codec.
Proof. apply (uint_codec_ok 8). intros x Hx. unfold ser_writedata64. by rewrite u64_id. Qed.

#[global] Instance s64_codec_ok : CodecOk s64_codec.
Proof.
  split.
  - intros x Hx. destruct (dec_enc (c := u64_codec) (u64 x)) as (bs & Hb & Hbb & Hd); [apply u64_range|].
    simpl in Hb, Hd |- *. exists bs. split_and!; [|done|].
    + rewrite <- Hb. unfold ser_writedata64. by rewrite (u64_id (u64 x)) by apply u64_range.
    + intros rest. unfold rbind. rewrite Hd. unfold rret. do 3 f_equal. simpl in Hx. width.
  - intros s x rest Hs. simpl. unfold rbind, rret.
    destruct (ser_readdata64 s) as [|[y s']] eqn:E; [done|]. intros [= <- <-].
    apply (enc_dec (c := u64_codec)) in E as (Hy & bs & Hb & ->); [|done]. split; [apply s64_range|].
    exists bs. split; [|done]. simpl in Hy. rewrite <- Hb. simpl. unfold ser_writedata64.
    do 2 f_equal. width.
Qed.

(** ** Contracts of the combinators *)

Lemma wapp_inr a b bs : wapp a b = inr bs -> exists x y, a = inr x /\ b = inr y /\ bs = x ++ y.
Proof. destruct a, b; simpl; intros [= <-]; eauto. Qed.

Lemma is_bytes_app l1 l2 : is_bytes (l1 ++ l2) <-> is_bytes l1 /\ is_bytes l2.
Proof. apply Forall_app. Qed.

#[global] Instance blob_codec_ok n : 0 <= n -> CodecOk (blob_codec n).
Proof.
  intros Hn. split; simpl.
  - intros x [Hb Hl]. exists x. split_and!; [done..|]. intros rest. by apply read_app.
  - intros s x rest Hs Hr. apply read_inv in Hr as [-> Hl]; [|done].
    apply is_bytes_app in Hs as [? ?]. eauto.
Qed.

#[global] Instance pure_codec_ok {A} (d : A) : CodecOk (pure_codec d).
Proof.
  split; simpl.
  - intros x ->. exists []. split_and!; [done|constructor|done].
  - intros s x rest _ [= <- <-]. split; [done|]. by exists [].
Qed.

#[global] Instance when_codec_ok {A} b (c : codec A) d : CodecOk c -> CodecOk (when_codec b c d).
Proof. intros. destruct b; apply _. Qed.

#[global] Instance guard_codec_ok b e : CodecOk (guard_codec b e).
Proof. destruct b; [apply _|]. split; simpl; done. Qed.

#[global] Instance seq_codec_ok {A B} (c : codec A) (k : A -> codec B) :
  CodecOk c -> (forall a, CodecOk (k a)) -> CodecOk (seq_codec c k).
Proof.
  intros Hc Hk. split; simpl.
  - intros [a b] [Ha Hb]. simpl in *.
    destruct (dec_enc (c := c) a Ha) as (x & -> & Hx & Dx).
    destruct (dec_enc (c := k a) b Hb) as (y & -> & Hy & Dy).
    exists (x ++ y). split_and!; [done|by apply is_bytes_app|]. intros rest.
    unfold rbind. by rewrite <- (assoc_L (++)), Dx, Dy.
  - intros s [a b] rest Hs. unfold rbind, rret.
    destruct (dec c s) as [|[a' s1]] eqn:E1; [done|]. destruct (dec (k a') s1) as [|[b' s2]] eqn:E2; [done|].
    intros [= <- <- <-]. apply (enc_dec (c := c)) in E1 as (Ha & x & Ex & ->); [|done].
    apply is_bytes_app in Hs as [_ Hs1]. apply (enc_dec (c := k a')) in E2 as (Hb & y & Ey & ->); [|done].
    simpl. rewrite Ex, Ey. split; [done|]. exists (x ++ y). by rewrite (assoc_L (++)).
Qed.

#[global] Instance pair_codec_ok {A B} (c : codec A) (c' : codec B) :
  CodecOk c -> CodecOk c' -> CodecOk (pair_codec c c').
Proof. intros. unfold pair_codec. apply _. Qed.

Lemma iso_codec_ok {A B} (f : A -> B) (g : B -> A) c :
  CodecOk c -> (forall a, g (f a) = a) -> (forall b, f (g b) = b) -> CodecOk (iso_codec f g c).
Proof.
  intros Hc Hgf Hfg. split; simpl.
  - intros x Hx. destruct (dec_enc (c := c) (g x) Hx) as (bs & Hb & Hbb & Hd).
    exists bs. split_and!; [done..|]. intros rest. unfold rbind, rret. by rewrite Hd, Hfg.
  - intros s x rest Hs. unfold rbind, rret. destruct (dec c s) as [|[a s']] eqn:E; [done|].
    intros [= <- <-]. rewrite Hgf. by apply (enc_dec (c := c)).
Qed.

Lemma enc_all_ok {A} (c : codec A) : CodecOk c -> forall l, Forall (valid c) l ->
  exists bs, enc_all c l = inr bs /\ is_bytes bs /\
    forall rest, dec_all c (length l) (bs ++ rest) = inr (l, rest).
Proof.
  intros Hc l. induction 1 as [|x l Hx Hl (bs & E & Hb & Hd)]; cbn [enc_all dec_all length].
  - exists []. split_and!; [done|constructor|done].
  - destruct (dec_enc (c := c) x Hx) as (y & -> & Hy & Dy). rewrite E. exists (y ++ bs).
    split_and!; [done|by apply is_bytes_app|]. intros rest. unfold rbind.
    by rewrite <- (assoc_L (++)), Dy, Hd.
Qed.

Lemma dec_all_ok {A} (c : codec A) : CodecOk c -> forall n s l rest,
  is_bytes s -> dec_all c n s = inr (l, rest) ->
  length l = n /\ Forall (valid c) l /\ exists bs, enc_all c l = inr bs /\ s = bs ++ rest.
Proof.
  intros Hc. induction n as [|n IH]; intros s l rest Hs; cbn [dec_all].
  { intros [= <- <-]. split_and!; [done|constructor|]. by exists []. }
  unfold rbind, rret. destruct (dec c s) as [|[x s1]] eqn:E1; [done|].
  destruct (dec_all c n s1) as [|[l' s2]] eqn:E2; [done|]. intros [= <- <-].
  apply (enc_dec (c := c)) in E1 as (Hx & bx & Ex & ->); [|done].
  apply is_bytes_app in Hs as [_ Hs1].
  destruct (IH _ _ _ Hs1 E2) as (Hl & Hf & bl & El & ->).
  split_and!; [simpl; lia|by constructor|]. exists (bx ++ bl). cbn [enc_all]. rewrite Ex, El.
  by rewrite (assoc_L (++)).
Qed.

#[global] Instance array_codec_ok {A} (c : codec A) n : CodecOk c -> CodecOk (array_codec c n).
Proof.
  intros Hc. split; simpl.
  - intros l [<- Hl]. by apply enc_all_ok.
  - intros s l rest Hs Hd. by apply dec_all_ok in Hd as (? & ? & ?).
Qed.

(** ** Sizes *)

Lemma readdata8_cons b s : is_u8 b -> ser_readdata8 (b :: s) = inr (b, s).
Proof.
  intros Hb. unfold ser_readdata8, rbind. change (b :: s) with ([b] ++ s). rewrite read_app by done.
  simpl. unfold rret. do 2 f_equal. lia.
Qed.

Lemma readdata8_inv s b rest :
  is_bytes s -> ser_readdata8 s = inr (b, rest) -> s = b :: rest /\ is_u8 b /\ is_bytes rest.
Proof.
  intros Hs Hd. apply (le_write_read 1) in Hd as (Hb & -> & Hr); [|done].
  change (256 ^ Z.of_nat 1) with 256 in Hb. split_and!; [|done..]. simpl. f_equal. width.
Qed.

(** What one prefixed form of a compact size writes and accepts. *)
Lemma canonical_from_ok (c : codec Z) least x rest bs :
  CodecOk c -> valid c x -> least <= x -> enc c x = inr bs ->
  canonical_from least (dec c) (bs ++ rest) = inr (x, rest).
Proof.
  intros Hc Hv Hl He. destruct (dec_enc (c := c) x Hv) as (bs' & He' & _ & Hd).
  rewrite He in He'. injection He' as <-. unfold canonical_from, rbind. rewrite Hd.
  by rewrite (proj2 (Z.ltb_ge _ _)).
Qed.

Lemma canonical_from_inv (c : codec Z) least s x rest :
  CodecOk c -> is_bytes s -> canonical_from least (dec c) s = inr (x, rest) ->
  least <= x /\ valid c x /\ exists bs, enc c x = inr bs /\ s = bs ++ rest.
Proof.
  intros Hc Hs. unfold canonical_from, rbind. destruct (dec c s) as [|[y s']] eqn:E; [done|].
  destruct (Z.ltb_spec y least); [done|]. intros [= <- <-]. split; [done|]. by apply (enc_dec (c := c)).
Qed.

Lemma ReadCompactSize_WriteCompactSize x rest :
  0 <= x <= MAX_SIZE -> ReadCompactSize (WriteCompactSize x ++ rest) = inr (x, rest).
Proof.
  intros Hx. unfold ReadCompactSize, WriteCompactSize. unfold rbind at 1.
  assert ((x >? MAX_SIZE) = false) as Hmax by (rewrite Z.gtb_ltb; apply Z.ltb_ge; lia).
  unfold MAX_SIZE in Hx.
  destruct (Z.ltb_spec x 253); [|destruct (Z.leb_spec x 0xFFFF); [|destruct (Z.leb_spec x 0xFFFFFFFF); [|lia]]].
  - unfold ser_writedata8. rewrite u8_id by (unfold is_u8; lia). cbn [app].
    rewrite readdata8_cons by (unfold is_u8; lia). rewrite (proj2 (Z.ltb_lt _ _)) by done.
    unfold rbind, rret. by rewrite Hmax.
  - change (ser_writedata8 253) with [253]. cbn [app]. rewrite readdata8_cons by (unfold is_u8; lia).
    change (253 <? 253) with false. change (253 =? 253) with true. cbv iota. unfold rbind.
    change ser_readdata16 with (dec u16_codec).
    rewrite (canonical_from_ok _ 253 x rest (ser_writedata16 x) u16_codec_ok); [|simpl; lia|lia|done].
    by rewrite Hmax.
  - change (ser_writedata8 254) with [254]. cbn [app]. rewrite readdata8_cons by (unfold is_u8; lia).
    change (254 <? 253) with false. change (254 =? 253) with false.
    change (254 =? 254) with true. cbv iota. unfold rbind.
    change ser_readdata32 with (dec u32_codec).
    rewrite (canonical_from_ok _ 0x10000 x rest (ser_writedata32 x) u32_codec_ok); [|simpl; unfold is_u32; lia|lia|done].
    by rewrite Hmax.
Qed.

Lemma ReadCompactSize_inv s x rest :
  is_bytes s -> ReadCompactSize s = inr (x, rest) ->
  0 <= x <= MAX_SIZE /\ s = WriteCompactSize x ++ rest.
Proof.
  intros Hs. unfold ReadCompactSize. unfold rbind at 1.
  destruct (ser_readdata8 s) as [|[ch s1]] eqn:E1; [done|].
  apply readdata8_inv in E1 as (-> & Hch & Hs1); [|done]. unfold rbind.
  match goal with |- context [match ?r with inl _ => _ | inr _ => _ end] =>
    destruct r as [|[y s2]] eqn:E2; [done|] end.
  rewrite Z.gtb_ltb. destruct (Z.ltb_spec MAX_SIZE y) as [|Hmax]; [done|]. intros [= <- <-].
  unfold WriteCompactSize, is_u8 in *. change (2 ^ 8) with 256 in Hch.
  destruct (Z.ltb_spec ch 253) as [Hlt|Hge].
  { injection E2 as <- <-. rewrite (proj2 (Z.ltb_lt ch 253)) by done. unfold ser_writedata8.
    rewrite u8_id by done. split; [lia|done]. }
  destruct (Z.eqb_spec ch 253) as [->|H253]; [|destruct (Z.eqb_spec ch 254) as [->|H254]].
  - apply (canonical_from_inv _ 253 s1 y s2 u16_codec_ok Hs1) in E2 as (Hl & Hv & bs & [= <-] & ->).
    simpl in Hv. rewrite (proj2 (Z.ltb_ge y 253)), (proj2 (Z.leb_le y 0xFFFF)) by lia. split; [lia|done].
  - apply (canonical_from_inv _ 0x10000 s1 y s2 u32_codec_ok Hs1) in E2 as (Hl & Hv & bs & [= <-] & ->).
    simpl in Hv. unfold is_u32 in Hv.
    rewrite (proj2 (Z.ltb_ge y 253)), (proj2 (Z.leb_gt y 0xFFFF)), (proj2 (Z.leb_le y 0xFFFFFFFF)) by lia.
    split; [lia|done].
  - apply (canonical_from_inv _ 0x100000000 s1 y s2 u64_codec_ok Hs1) in E2 as (Hl & _).
    unfold MAX_SIZE in Hmax. lia.
Qed.

Lemma WriteCompactSize_bytes x : is_bytes (WriteCompactSize x).
Proof.
  assert (forall y, is_bytes (ser_writedata8 y)) as H8
    by (intros y; apply Forall_singleton; auto with width).
  unfold WriteCompactSize.
  repeat case_match; rewrite ?is_bytes_app; split_and?; first [apply H8 | apply le_bytes_bytes].
Qed.

Lemma WriteCompactSize_size x :
  Z.of_nat (length (WriteCompactSize x)) = GetSizeOfCompactSize x.
Proof.
  unfold WriteCompactSize, GetSizeOfCompactSize. repeat case_match; reflexivity.
Qed.

#[global] Instance vector_codec_ok {A} (c : codec A) : CodecOk c -> CodecOk (vector_codec c).
Proof.
  intros Hc. split; simpl.
  - intros l [Hl Hf]. destruct (enc_all_ok c Hc l Hf) as (bs & -> & Hb & Hd).
    eexists. split_and!; [done|apply is_bytes_app; split; [apply WriteCompactSize_bytes|done]|].
    intros rest. unfold rbind. rewrite <- (assoc_L (++)), ReadCompactSize_WriteCompactSize by lia.
    by rewrite Nat2Z.id, Hd.
  - intros s l rest Hs. unfold rbind. destruct (ReadCompactSize s) as [|[n s1]] eqn:E1; [done|].
    apply ReadCompactSize_inv in E1 as [Hn ->]; [|done]. apply is_bytes_app in Hs as [_ Hs1].
    intros E2. apply dec_all_ok in E2 as (Hl & Hf & bs & -> & ->); [|done..].
    split; [split; [lia|done]|]. eexists. split; [done|].
    replace (Z.of_nat (length l)) with n by lia. by rewrite (assoc_L (++)).
Qed.

(** Reading in blocks of five million bytes is reading at once: eight blocks
    cover every size up to [MAX_SIZE]. *)
Lemma read_blocks_app fuel i l rest :
  let n := Z.of_nat (length l) in
  n <= 5000000 * Z.of_nat fuel -> read_blocks fuel i (i + n) (l ++ rest) = inr (l, rest).
Proof.
  revert i l. induction fuel as [|f IH]; intros i l n Hn; unfold n in *; clear n; cbn [read_blocks].
  { destruct l; [done|simpl in *; lia]. }
  destruct (Z.ltb_spec i (i + Z.of_nat (length l))).
  2:{ destruct l; [done|simpl in *; lia]. }
  replace (i + Z.of_nat (length l) - i) with (Z.of_nat (length l)) by lia.
  set (b := Z.min (Z.of_nat (length l)) (1 + 4999999)) in *. unfold rbind.
  assert (l ++ rest = take (Z.to_nat b) l ++ (drop (Z.to_nat b) l ++ rest)) as ->
    by (by rewrite (assoc_L (++)), take_drop).
  rewrite read_app by (rewrite length_take; lia).
  replace (i + Z.of_nat (length l)) with ((i + b) + Z.of_nat (length (drop (Z.to_nat b) l)))
    by (rewrite length_drop; lia).
  rewrite IH by (rewrite length_drop; lia). unfold rret. by rewrite take_drop.
Qed.

Lemma read_blocks_inv fuel i n s l rest :
  is_bytes s -> 0 <= n - i <= 5000000 * Z.of_nat fuel -> read_blocks fuel i n s = inr (l, rest) ->
  s = l ++ rest /\ Z.of_nat (length l) = n - i.
Proof.
  revert i s l. induction fuel as [|f IH]; intros i s l Hs Hn; cbn [read_blocks].
  { intros [= <- <-]. simpl. split; [done|lia]. }
  destruct (Z.ltb_spec i n); [|intros [= <- <-]; simpl; split; [done|lia]].
  set (b := Z.min (n - i) (1 + 4999999)) in *. unfold rbind, rret.
  destruct (read b s) as [|[v s1]] eqn:E1; [done|].
  destruct (read_blocks f (i + b) n s1) as [|[v' s2]] eqn:E2; [done|]. intros [= <- <-].
  apply read_inv in E1 as [-> Hv]; [|lia]. apply is_bytes_app in Hs as [_ Hs1].
  apply IH in E2 as [-> Hv']; [|done|lia]. rewrite length_app, (assoc_L (++)). split; [done|lia].
Qed.

#[global] Instance bytes_codec_ok : CodecOk bytes_codec.
Proof.
  split; cbn [enc dec valid bytes_codec].
  - intros l [Hb Hl]. eexists.
    split_and!; [done|apply is_bytes_app; split; [apply WriteCompactSize_bytes|done]|].
    intros rest. unfold rbind. rewrite <- (assoc_L (++)), ReadCompactSize_WriteCompactSize by lia.
    apply (read_blocks_app 8 0). unfold MAX_SIZE in Hl. lia.
  - intros s l rest Hs. unfold rbind. destruct (ReadCompactSize s) as [|[n s1]] eqn:E1; [done|].
    apply ReadCompactSize_inv in E1 as [Hn ->]; [|done]. apply is_bytes_app in Hs as [_ Hs1].
    intros E2. apply read_blocks_inv in E2 as [-> Hl]; [|done|unfold MAX_SIZE in Hn; lia].
    apply is_bytes_app in Hs1 as [Hlb _]. split; [split; [done|lia]|]. eexists. split; [done|].
    replace (Z.of_nat (length l)) with n by lia. by rewrite (assoc_L (++)).
Qed.

#[global] Instance compact_codec_ok : CodecOk compact_codec.
Proof.
  split; simpl.
  - intros x Hx. eexists. split_and!; [done|apply WriteCompactSize_bytes|].
    intros. by apply ReadCompactSize_WriteCompactSize.
  - intros s x rest Hs Hd. apply ReadCompactSize_inv in Hd as [? ->]; eauto.
Qed.

#[global] Instance optional_codec_ok {A} (c : codec A) : CodecOk c -> CodecOk (optional_codec c).
Proof.
  intros Hc. split; simpl.
  - intros [x|] Hx.
    + destruct (dec_enc (c := c) x Hx) as (bs & -> & Hb & Hd). exists ([1] ++ bs).
      split_and!; [done|apply is_bytes_app; split; [repeat constructor; unfold is_u8; lia|done]|].
      intros rest. unfold rbind. cbn [app]. rewrite readdata8_cons by (unfold is_u8; lia).
      cbn [Z.eqb Pos.eqb]. by rewrite Hd.
    + exists [0]. split_and!; [done|repeat constructor; unfold is_u8; lia|]. intros rest.
      unfold rbind. cbn [app]. by rewrite readdata8_cons by (unfold is_u8; lia).
  - intros s o rest Hs. unfold rbind. destruct (ser_readdata8 s) as [|[d s1]] eqn:E; [done|].
    apply readdata8_inv in E as (-> & Hd & Hs1); [|done].
    destruct (Z.eqb_spec d 0) as [->|]; [intros [= <- <-]; split; [done|]; by exists [0]|].
    destruct (Z.eqb_spec d 1) as [->|]; [|done].
    destruct (dec c s1) as [|[x s2]] eqn:E2; [done|]. intros [= <- <-].
    apply (enc_dec (c := c)) in E2 as (Hx & bs & -> & ->); [|done]. split; [done|]. by exists (1 :: bs).
Qed.

(** ** Variable-length integers *)

Lemma low7 n : 0 <= n -> Z.land n 0x7F = n mod 128.
Proof. intros Hn. change 0x7F with (Z.ones 7). by rewrite Z.land_ones. Qed.

(** A digit with the continuation bit, as the reader takes it apart. *)
Lemma digit_fields d cont :
  0 <= d < 128 ->
  let b := Z.lor d (if cont : bool then 0x80 else 0x00) in
  is_u8 b /\ Z.land b 0x7F = d /\ (Z.land b 0x80 =? 0) = negb cont.
Proof.
  intros Hd b.
  assert (Forall (fun d => forall cont : bool, let b := Z.lor d (if cont then 0x80 else 0x00) in
    (0 <=? b) && (b <? 256) && (Z.land b 0x7F =? d) && Bool.eqb (Z.land b 0x80 =? 0) (negb cont) = true)
    (seqZ 0 128)) as H.
  { vm_compute. repeat (constructor; [by intros []|]). constructor. }
  apply (Forall_lookup_1 _ _ (Z.to_nat d) d) in H; [|apply lookup_seqZ; lia]. specialize (H cont).
  fold b in H. cbv zeta in H. rewrite !andb_true_iff, Z.leb_le, Z.ltb_lt, Z.eqb_eq, eqb_true_iff in H.
  destruct H as [[[? ?] ?] ?]. split_and!; [unfold is_u8; lia|done..].
Qed.

(** Appending a digit: shifting in seven bits. *)
Lemma push_digit n d : 0 <= n -> 0 <= d < 128 -> Z.lor (Z.shiftl n 7) d = 128 * n + d.
Proof.
  intros Hn Hd. rewrite Z.shiftl_mul_pow2 by lia. change (2 ^ 7) with 128.
  rewrite <- Z.lxor_lor, <- Z.add_nocarry_lxor; [lia|..];
    (apply Z.bits_inj'; intros m Hm; rewrite Z.land_spec, Z.bits_0; destruct (decide (m < 7));
     [change 128 with (2 ^ 7); by rewrite Z.mul_pow2_bits_low by lia
     |by rewrite (testbit_high d 7 m), andb_false_r by lia]).
Qed.

Section varint.
Context (w : nat).
Let wrap (z : Z) : Z := z mod 2 ^ Z.of_nat w.

Lemma wrap_id z : 0 <= z < 2 ^ Z.of_nat w -> wrap z = z.
Proof. apply Z.mod_small. Qed.

(** One step of the reader on a digit. *)
Lemma read_digit m d cont rest :
  0 <= m -> 0 <= d < 128 -> 128 * m + d < 2 ^ Z.of_nat w ->
  ReadVarInt_loop wrap m (Z.lor d (if cont : bool then 0x80 else 0x00) :: rest) =
  if cont then ReadVarInt_loop wrap (wrap (128 * m + d + 1)) rest else inr (128 * m + d, rest).
Proof.
  intros Hm Hd Hlt. cbn [ReadVarInt_loop].
  destruct (digit_fields d cont Hd) as (_ & -> & ->). rewrite negb_involutive.
  rewrite (wrap_id (Z.shiftl m 7)) by (rewrite Z.shiftl_mul_pow2 by lia; change (2 ^ 7) with 128; lia).
  rewrite push_digit by done. by destruct cont.
Qed.

(** The digits above the last one leave the reader at [n + 1]. *)
Lemma write_continuation room n tmp :
  0 <= n -> n + 1 < 128 ^ Z.of_nat room -> n + 1 < 2 ^ Z.of_nat w -> tmp <> [] ->
  exists l, WriteVarInt_loop room n tmp = Some (l ++ tmp) /\ is_bytes l /\
    forall rest, ReadVarInt_loop wrap 0 (l ++ rest) = ReadVarInt_loop wrap (n + 1) rest.
Proof.
  revert n tmp. induction room as [|r IH]; intros n tmp H0 Hn Hw Ht; [simpl in Hn; lia|].
  rewrite Nat2Z.inj_succ, Z.pow_succ_r in Hn by lia. cbn [WriteVarInt_loop].
  rewrite low7 by lia. destruct tmp as [|t0 tmp]; [done|].
  pose proof (Z.mod_pos_bound n 128) as Hd.
  destruct (digit_fields (n mod 128) true) as (Hu & _); [lia|].
  destruct (Z.leb_spec n 0x7F).
  - rewrite Z.mod_small in * by lia. eexists [_]. split_and!; [done|by apply Forall_singleton|].
    intros rest. cbn [app]. rewrite (read_digit 0 n true) by lia. rewrite Z.mul_0_r, Z.add_0_l.
    by rewrite wrap_id by lia.
  - rewrite Z.shiftr_div_pow2 by lia. change (2 ^ 7) with 128.
    destruct (IH (n / 128 - 1) (Z.lor (n mod 128) 0x80 :: t0 :: tmp)) as (l & -> & Hl & Hread);
      [zdm|zdm|zdm|done|].
    exists (l ++ [Z.lor (n mod 128) 0x80]). split_and!.
    + by rewrite <- (assoc_L (++)).
    + apply is_bytes_app. split; [done|by apply Forall_singleton].
    + intros rest. rewrite <- (assoc_L (++)), Hread. cbn [app].
      rewrite (read_digit (n / 128 - 1 + 1) (n mod 128) true) by zdm.
      rewrite wrap_id by zdm. f_equal. zdm.
Qed.

Lemma write_varint n :
  0 <= n < 2 ^ Z.of_nat w -> (0 < w)%nat ->
  exists bs, WriteVarInt w n = Some bs /\ is_bytes bs /\
    forall rest, ReadVarInt w (bs ++ rest) = inr (n, rest).
Proof.
  intros Hn Hw. unfold WriteVarInt, ReadVarInt, varint_len. fold wrap.
  assert (2 ^ Z.of_nat w <= 128 ^ Z.of_nat ((w + 6) / 7)) as Hroom.
  { change 128 with (2 ^ 7). rewrite <- Z.pow_mul_r by lia. apply Z.pow_le_mono_r; [lia|].
    pose proof (Nat.div_mod_eq (w + 6) 7). pose proof (Nat.mod_upper_bound (w + 6) 7). lia. }
  assert (2 ^ 1 <= 2 ^ Z.of_nat w) by (apply Z.pow_le_mono_r; lia).
  set (room := ((w + 6) / 7)%nat) in *. clearbody room. destruct room as [|r]; [simpl in *; lia|].
  cbn [WriteVarInt_loop]. rewrite low7 by lia.
  pose proof (Z.mod_pos_bound n 128) as Hd.
  destruct (digit_fields (n mod 128) false) as (Hu & _); [lia|]. cbv iota in Hu.
  destruct (Z.leb_spec n 0x7F).
  - rewrite Z.mod_small in * by lia. eexists. split_and!; [done|by apply Forall_singleton|].
    intros rest. cbn [app]. rewrite (read_digit 0 n false) by lia. by rewrite Z.mul_0_r.
  - rewrite Z.shiftr_div_pow2 by lia. change (2 ^ 7) with 128.
    rewrite Nat2Z.inj_succ, Z.pow_succ_r in Hroom by lia.
    destruct (write_continuation r (n / 128 - 1) [Z.lor (n mod 128) 0x00]) as (l & -> & Hl & Hread);
      [zdm|zdm|zdm|done|].
    eexists. split_and!; [done|apply is_bytes_app; split; [done|by apply Forall_singleton]|].
    intros rest. rewrite <- (assoc_L (++)), Hread. cbn [app].
    rewrite (read_digit (n / 128 - 1 + 1) (n mod 128) false) by zdm. do 2 f_equal. zdm.
Qed.
End varint.

Lemma varint_size_loop room n tmp k :
  GetSizeOfVarInt_loop room n (Z.of_nat (length tmp) + k) =
  option_map (fun l => Z.of_nat (length l) + k) (WriteVarInt_loop room n tmp).
Proof.
  revert n tmp. induction room as [|r IH]; intros n tmp; [done|].
  cbn [GetSizeOfVarInt_loop WriteVarInt_loop].
  destruct (n <=? 0x7F); [simpl; f_equal; lia|].
  rewrite <- IH. f_equal. cbn [length]. lia.
Qed.

(** ** Properties *)

(** Compact sizes are a bijection with their encodings: every size up to
    [MAX_SIZE] is read back from what [WriteCompactSize] wrote (whose length is
    [GetSizeOfCompactSize]), and [ReadCompactSize] accepts no other bytes: it
    rejects longer encodings and sizes above the limit. *)
Lemma CompactSize_bijection (x : Z) (s rest : list Z) (Hs : is_bytes s) :
  (ReadCompactSize s = inr (x, rest) <-> 0 <= x <= MAX_SIZE /\ s = WriteCompactSize x ++ rest) /\
  Z.of_nat (length (WriteCompactSize x)) = GetSizeOfCompactSize x.
Proof.
  split; [|apply WriteCompactSize_size]. split; [by apply ReadCompactSize_inv|].
  intros [Hx ->]. by apply ReadCompactSize_WriteCompactSize.
Qed.

Lemma CompactSize_bijection_witness :
  ReadCompactSize [253; 0; 1; 77] = inr (256, [77]) /\
  ReadCompactSize [253; 252; 0] = inl NonCanonicalCompactSize.
Proof.
  split; [|reflexivity].
  apply (CompactSize_bijection 256 [253; 0; 1; 77] [77]).
  - repeat constructor; discriminate.
  - split; [vm_compute; split; discriminate|reflexivity].
Defined.

(** Variable-length integers round trip at every width: [WriteVarInt]
    always fits its [(8*sizeof(n)+6)/7]-byte buffer, writes as many bytes as
    [GetSizeOfVarInt] announces, and [ReadVarInt] returns the same integer and
    consumes exactly those bytes. *)
Lemma VarInt_roundtrip (w : nat) (n : Z) (rest : list Z)
  (Hw : (0 < w)%nat) (Hn : 0 <= n < 2 ^ Z.of_nat w) :
  exists bs, WriteVarInt w n = Some bs /\ is_bytes bs /\
    GetSizeOfVarInt w n = Some (Z.of_nat (length bs)) /\
    ReadVarInt w (bs ++ rest) = inr (n, rest).
Proof.
  destruct (write_varint w n Hn Hw) as (bs & Hb & Hbb & Hr). exists bs. split_and!; [done..| |auto].
  unfold GetSizeOfVarInt. pose proof (varint_size_loop (varint_len w) n [] 0) as H.
  change (Z.of_nat (length []) + 0) with 0 in H. rewrite H. unfold WriteVarInt in Hb. rewrite Hb. simpl. f_equal. lia.
Qed.

Lemma VarInt_roundtrip_witness :
  WriteVarInt 64 (2 ^ 32) = Some [0x8E; 0xFE; 0xFE; 0xFF; 0x00] /\
  exists bs, WriteVarInt 64 (2 ^ 32) = Some bs /\ ReadVarInt 64 (bs ++ [9]) = inr (2 ^ 32, [9]).
Proof.
  split; [vm_compute; reflexivity|].
  destruct (VarInt_roundtrip 64 (2 ^ 32) [9]) as (bs & H1 & _ & _ & H2); [lia|vm_compute; split; congruence|].
  exists bs. split; [exact H1|exact H2].
Defined.

End Serialize.
