(* ===== verification/Transaction.v ===== *)
(** * Transactions (src/primitives/transaction.{h,cpp}, src/zcash/Proof.hpp)

    The transaction data types, their serialization (one [SerializationOp] per
    class, as a codec) and the value accessors.  A [uint256] is its 32 bytes. *)

From stdpp Require Import base list list_numbers numbers option countable gmap.
From Stdlib Require Import ZArith Lia.
From S2P Require Import Prelude Bytes Serialize Amount.
Import Endian Serialize Amount.

Module Transaction.

(** ** Sizes and constants (src/zcash/Zcash.h, src/consensus/consensus.h) *)

Definition ZC_NUM_JS_INPUTS : nat := 2.
Definition ZC_NUM_JS_OUTPUTS : nat := 2.
Definition NOTEENCRYPTION_AUTH_BYTES : Z := 16.
Definition ZC_NOTEPLAINTEXT_SIZE : Z := 1 + 8 + 32 + 32 + 512.
Definition ZC_SAPLING_ENCPLAINTEXT_SIZE : Z := 1 + 11 + 8 + 32 + 512.
Definition ZC_SAPLING_OUTPLAINTEXT_SIZE : Z := 32 + 32.
Definition ZC_SAPLING_ENCCIPHERTEXT_SIZE : Z := ZC_SAPLING_ENCPLAINTEXT_SIZE + NOTEENCRYPTION_AUTH_BYTES.
Definition ZC_SAPLING_OUTCIPHERTEXT_SIZE : Z := ZC_SAPLING_OUTPLAINTEXT_SIZE + NOTEENCRYPTION_AUTH_BYTES.
Definition GROTH_PROOF_SIZE : Z := 48 + 96 + 48.

Definition OVERWINTER_TX_VERSION : Z := 3.
Definition SAPLING_TX_VERSION : Z := 4.
Definition OVERWINTER_VERSION_GROUP_ID : Z := 0x03C48270.
Definition SAPLING_VERSION_GROUP_ID : Z := 0x892F2085.
Definition SPROUT_MIN_CURRENT_VERSION : Z := 1.

Definition zero_blob (n : nat) : list Z := replicate n 0.
Definition uint256_codec : codec (list Z) := blob_codec 32.

(** ** Proofs (src/zcash/Proof.hpp) *)

Record CompressedG1 := { y_lsb : bool; g1_x : list Z }.
Record CompressedG2 := { y_gt : bool; g2_x : list Z }.

Definition G1_PREFIX_MASK : Z := 0x02.
Definition G2_PREFIX_MASK : Z := 0x0a.

(** The lead byte: a fixed prefix and the parity bit. *)
Definition lead_codec (mask : Z) : codec bool :=
  {| enc y := inr (ser_writedata8 (if (y : bool) then Z.lor mask 1 else mask));
     dec := let! leadingByte := ser_readdata8 in
            if negb (Z.land leadingByte (Z.lnot 1) =? mask) then rfail BadLeadByte
            else rret (negb (Z.land leadingByte 1 =? 0));
     valid _ := True |}.

Definition CompressedG1_codec : codec CompressedG1 :=
  iso_codec (fun '(y, x) => {| y_lsb := y; g1_x := x |}) (fun g => (y_lsb g, g1_x g))
    (pair_codec (lead_codec G1_PREFIX_MASK) (blob_codec 32)).
Definition CompressedG2_codec : codec CompressedG2 :=
  iso_codec (fun '(y, x) => {| y_gt := y; g2_x := x |}) (fun g => (y_gt g, g2_x g))
    (pair_codec (lead_codec G2_PREFIX_MASK) (blob_codec 64)).

Record PHGRProof := {
  g_A : CompressedG1; g_A_prime : CompressedG1; g_B : CompressedG2; g_B_prime : CompressedG1;
  g_C : CompressedG1; g_C_prime : CompressedG1; g_K : CompressedG1; g_H : CompressedG1
}.

Definition PHGRProof_codec : codec PHGRProof :=
  iso_codec
    (fun '(a, (a', (b, (b', (c, (c', (k, h))))))) =>
       {| g_A := a; g_A_prime := a'; g_B := b; g_B_prime := b';
          g_C := c; g_C_prime := c'; g_K := k; g_H := h |})
    (fun p => (g_A p, (g_A_prime p, (g_B p, (g_B_prime p, (g_C p, (g_C_prime p, (g_K p, g_H p))))))))
    (pair_codec CompressedG1_codec (pair_codec CompressedG1_codec (pair_codec CompressedG2_codec
      (pair_codec CompressedG1_codec (pair_codec CompressedG1_codec (pair_codec CompressedG1_codec
        (pair_codec CompressedG1_codec CompressedG1_codec))))))).

(** [boost::variant<PHGRProof, GrothProof>] *)
Inductive SproutProof :=
| SproutPHGR (p : PHGRProof)
| SproutGroth (p : list Z).

(** [SerReadWriteSproutProof] and its visitor. *)
Definition SproutProof_codec (useGroth : bool) : codec SproutProof :=
  {| enc p := match p, useGroth with
              | SproutPHGR _, true => inl InvalidSproutProof
              | SproutPHGR q, false => enc PHGRProof_codec q
              | SproutGroth _, false => inl InvalidSproutProof
              | SproutGroth q, true => enc (blob_codec GROTH_PROOF_SIZE) q
              end;
     dec := if useGroth then let! q := dec (blob_codec GROTH_PROOF_SIZE) in rret (SproutGroth q)
            else let! q := dec PHGRProof_codec in rret (SproutPHGR q);
     valid p := match p, useGroth with
                | SproutPHGR q, false => valid PHGRProof_codec q
                | SproutGroth q, true => valid (blob_codec GROTH_PROOF_SIZE) q
                | _, _ => False
                end |}.

(** ** Shielded descriptions *)

Record SpendDescription := {
  sd_cv : list Z; sd_anchor : list Z; sd_nullifier : list Z; sd_rk : list Z;
  sd_zkproof : list Z; spendAuthSig : list Z
}.

Definition SpendDescription_codec : codec SpendDescription :=
  iso_codec
    (fun '(cv, (a, (n, (rk, (z, s))))) =>
       {| sd_cv := cv; sd_anchor := a; sd_nullifier := n; sd_rk := rk; sd_zkproof := z; spendAuthSig := s |})
    (fun d => (sd_cv d, (sd_anchor d, (sd_nullifier d, (sd_rk d, (sd_zkproof d, spendAuthSig d))))))
    (pair_codec uint256_codec (pair_codec uint256_codec (pair_codec uint256_codec
      (pair_codec uint256_codec (pair_codec (blob_codec GROTH_PROOF_SIZE) (blob_codec 64)))))).

Record OutputDescription := {
  od_cv : list Z; od_cm : list Z; od_ephemeralKey : list Z;
  encCiphertext : list Z; outCiphertext : list Z; od_zkproof : list Z
}.

Definition OutputDescription_codec : codec OutputDescription :=
  iso_codec
    (fun '(cv, (cm, (e, (ec, (oc, z))))) =>
       {| od_cv := cv; od_cm := cm; od_ephemeralKey := e; encCiphertext := ec; outCiphertext := oc; od_zkproof := z |})
    (fun d => (od_cv d, (od_cm d, (od_ephemeralKey d, (encCiphertext d, (outCiphertext d, od_zkproof d))))))
    (pair_codec uint256_codec (pair_codec uint256_codec (pair_codec uint256_codec
      (pair_codec (blob_codec ZC_SAPLING_ENCCIPHERTEXT_SIZE)
        (pair_codec (blob_codec ZC_SAPLING_OUTCIPHERTEXT_SIZE) (blob_codec GROTH_PROOF_SIZE)))))).

Record JSDescription := {
  vpub_old : Z; vpub_new : Z; anchor : list Z; nullifiers : list (list Z);
  commitments : list (list Z); ephemeralKey : list Z; ciphertexts : list (list Z);
  randomSeed : list Z; macs : list (list Z); proof : SproutProof
}.

(** [version] is the stream version, the transaction header cast to [int]. *)
Definition JSDescription_codec (version : Z) : codec JSDescription :=
  let fOverwintered := negb (Z.shiftr version 31 =? 0) in
  let txVersion := Z.land version 0x7FFFFFFF in
  let useGroth := fOverwintered && (txVersion >=? SAPLING_TX_VERSION) in
  iso_codec
    (fun '(o, (n, (a, (nf, (cm, (e, (r, (m, (p, c))))))))) =>
       {| vpub_old := o; vpub_new := n; anchor := a; nullifiers := nf; commitments := cm;
          ephemeralKey := e; ciphertexts := c; randomSeed := r; macs := m; proof := p |})
    (fun j => (vpub_old j, (vpub_new j, (anchor j, (nullifiers j, (commitments j,
      (ephemeralKey j, (randomSeed j, (macs j, (proof j, ciphertexts j))))))))))
    (pair_codec s64_codec (pair_codec s64_codec (pair_codec uint256_codec
      (pair_codec (array_codec uint256_codec ZC_NUM_JS_INPUTS)
      (pair_codec (array_codec uint256_codec ZC_NUM_JS_OUTPUTS)
      (pair_codec uint256_codec (pair_codec uint256_codec
      (pair_codec (array_codec uint256_codec ZC_NUM_JS_INPUTS)
      (pair_codec (SproutProof_codec useGroth)
        (array_codec (blob_codec (ZC_NOTEPLAINTEXT_SIZE + NOTEENCRYPTION_AUTH_BYTES))
           ZC_NUM_JS_OUTPUTS)))))))))).

(** ** Transparent inputs and outputs *)

(** [BaseOutPoint], and [COutPoint], which adds no data. *)
Record COutPoint := { out_hash : list Z; out_n : Z }.

#[global] Instance COutPoint_eq_dec : EqDecision COutPoint.
Proof. solve_decision. Defined.
#[global] Instance COutPoint_countable : Countable COutPoint.
Proof.
  refine (inj_countable' (fun o => (out_hash o, out_n o))
    (fun p => {| out_hash := fst p; out_n := snd p |}) _). by intros [].
Defined.

Definition COutPoint_null : COutPoint := {| out_hash := zero_blob 32; out_n := u32 (-1) |}.
Definition blob_IsNull (data : list Z) : bool := forallb (fun b => b =? 0) data.
Definition COutPoint_IsNull (o : COutPoint) : bool :=
  blob_IsNull (out_hash o) && (out_n o =? u32 (-1)).

Definition COutPoint_codec : codec COutPoint :=
  iso_codec (fun '(h, n) => {| out_hash := h; out_n := n |}) (fun o => (out_hash o, out_n o))
    (pair_codec uint256_codec u32_codec).

Record CTxIn := { prevout : COutPoint; scriptSig : list Z; nSequence : Z }.

Definition CTxIn_codec : codec CTxIn :=
  iso_codec (fun '(o, (s, n)) => {| prevout := o; scriptSig := s; nSequence := n |})
    (fun i => (prevout i, (scriptSig i, nSequence i)))
    (pair_codec COutPoint_codec (pair_codec bytes_codec u32_codec)).

Definition CTxIn_IsFinal (i : CTxIn) : bool := nSequence i =? 0xffffffff.

Record CTxOut := { nValue : Z; scriptPubKey : list Z }.

#[global] Instance CTxOut_eq_dec : EqDecision CTxOut.
Proof. solve_decision. Defined.

Definition CTxOut_codec : codec CTxOut :=
  iso_codec (fun '(v, s) => {| nValue := v; scriptPubKey := s |})
    (fun o => (nValue o, scriptPubKey o))
    (pair_codec s64_codec bytes_codec).

Definition CTxOut_null : CTxOut := {| nValue := -1; scriptPubKey := [] |}.
Definition CTxOut_IsNull (o : CTxOut) : bool := nValue o =? -1.

(** ** Transactions

    [CMutableTransaction] and [CTransaction] have the same fields; the cached
    hash of the latter is a function of them and is not stored here. *)

Record CTransaction := {
  fOverwintered : bool; tx_nVersion : Z; nVersionGroupId : Z;
  vin : list CTxIn; vout : list CTxOut; nLockTime : Z; nExpiryHeight : Z; valueBalance : Z;
  vShieldedSpend : list SpendDescription; vShieldedOutput : list OutputDescription;
  vJoinSplit : list JSDescription; joinSplitPubKey : list Z; joinSplitSig : list Z;
  bindingSig : list Z
}.

(** The default constructor. *)
Definition CTransaction_default : CTransaction := {|
  fOverwintered := false; tx_nVersion := SPROUT_MIN_CURRENT_VERSION; nVersionGroupId := 0;
  vin := []; vout := []; nLockTime := 0; nExpiryHeight := 0; valueBalance := 0;
  vShieldedSpend := []; vShieldedOutput := []; vJoinSplit := [];
  joinSplitPubKey := zero_blob 32; joinSplitSig := zero_blob 64; bindingSig := zero_blob 64 |}.

(** [CTransaction(const CMutableTransaction&)] copies every field. *)
Definition CTransaction_of_mutable (tx : CTransaction) : CTransaction := {|
  fOverwintered := fOverwintered tx; tx_nVersion := tx_nVersion tx;
  nVersionGroupId := nVersionGroupId tx; vin := vin tx; vout := vout tx;
  nLockTime := nLockTime tx; nExpiryHeight := nExpiryHeight tx; valueBalance := valueBalance tx;
  vShieldedSpend := vShieldedSpend tx; vShieldedOutput := vShieldedOutput tx;
  vJoinSplit := vJoinSplit tx; joinSplitPubKey := joinSplitPubKey tx;
  joinSplitSig := joinSplitSig tx; bindingSig := bindingSig tx |}.

(** [CTransaction(CMutableTransaction&&)]: its initializer list has no
    [bindingSig], which keeps the default member initializer. *)
Definition CTransaction_of_mutable_move (tx : CTransaction) : CTransaction := {|
  fOverwintered := fOverwintered tx; tx_nVersion := tx_nVersion tx;
  nVersionGroupId := nVersionGroupId tx; vin := vin tx; vout := vout tx;
  nLockTime := nLockTime tx; nExpiryHeight := nExpiryHeight tx; valueBalance := valueBalance tx;
  vShieldedSpend := vShieldedSpend tx; vShieldedOutput := vShieldedOutput tx;
  vJoinSplit := vJoinSplit tx; joinSplitPubKey := joinSplitPubKey tx;
  joinSplitSig := joinSplitSig tx; bindingSig := zero_blob 64 |}.

Definition CTransaction_IsNull (tx : CTransaction) : bool :=
  match vin tx, vout tx with [], [] => true | _, _ => false end.

Definition GetHeader (tx : CTransaction) : Z :=
  let header := u32 (tx_nVersion tx) in
  if fOverwintered tx then Z.lor header (Z.shiftl 1 31) else header.

Definition IsCoinBase (tx : CTransaction) : bool :=
  match vin tx with [i] => COutPoint_IsNull (prevout i) | _ => false end.

Definition is_nil {A} (l : list A) : bool := match l with [] => true | _ => false end.

(** The fields after the header, in stream order. *)
Definition tx_body (fOverwintered : bool) (nVersion header : Z) :=
  seq_codec (when_codec fOverwintered u32_codec 0) (fun nVersionGroupId =>
  let isOverwinterV3 := fOverwintered && (nVersionGroupId =? OVERWINTER_VERSION_GROUP_ID)
                        && (nVersion =? OVERWINTER_TX_VERSION) in
  let isSaplingV4 := fOverwintered && (nVersionGroupId =? SAPLING_VERSION_GROUP_ID)
                     && (nVersion =? SAPLING_TX_VERSION) in
  seq_codec (guard_codec (negb (fOverwintered && negb (isOverwinterV3 || isSaplingV4)))
               UnknownTransactionFormat) (fun _ =>
  seq_codec (vector_codec CTxIn_codec) (fun _ =>
  seq_codec (vector_codec CTxOut_codec) (fun _ =>
  seq_codec u32_codec (fun _ =>
  seq_codec (when_codec (isOverwinterV3 || isSaplingV4) u32_codec 0) (fun _ =>
  seq_codec (when_codec isSaplingV4 s64_codec 0) (fun _ =>
  seq_codec (when_codec isSaplingV4 (vector_codec SpendDescription_codec) []) (fun spends =>
  seq_codec (when_codec isSaplingV4 (vector_codec OutputDescription_codec) []) (fun outputs =>
  seq_codec (when_codec (nVersion >=? 2) (vector_codec (JSDescription_codec (s32 header))) [])
    (fun joinsplits =>
  let hasJS := (nVersion >=? 2) && negb (is_nil joinsplits) in
  seq_codec (when_codec hasJS uint256_codec (zero_blob 32)) (fun _ =>
  seq_codec (when_codec hasJS (blob_codec 64) (zero_blob 64)) (fun _ =>
  when_codec (isSaplingV4 && negb (is_nil spends && is_nil outputs)) (blob_codec 64)
    (zero_blob 64))))))))))))).

Definition tx_fields (tx : CTransaction) :=
  (nVersionGroupId tx, (tt, (vin tx, (vout tx, (nLockTime tx, (nExpiryHeight tx, (valueBalance tx,
   (vShieldedSpend tx, (vShieldedOutput tx, (vJoinSplit tx, (joinSplitPubKey tx,
   (joinSplitSig tx, bindingSig tx)))))))))))).

(** [Serialize] *)
Definition CTransaction_Serialize (tx : CTransaction) : writer :=
  let header := GetHeader tx in
  wapp (enc u32_codec header)
    (enc (tx_body (fOverwintered tx) (tx_nVersion tx) header) (tx_fields tx)).

(** [Unserialize] into a default-constructed transaction *)
Definition CTransaction_Unserialize : reader CTransaction :=
  let! header := dec u32_codec in
  let fOverwintered := negb (Z.shiftr header 31 =? 0) in
  let nVersion := Z.land header 0x7FFFFFFF in
  rbind (dec (tx_body fOverwintered nVersion header))
    (fun '(vg, (_, (i, (o, (lock, (exp, (bal, (sp, (out, (js, (pk, (sg, bs)))))))))))) =>
  rret {| fOverwintered := fOverwintered; tx_nVersion := nVersion; nVersionGroupId := vg;
          vin := i; vout := o; nLockTime := lock; nExpiryHeight := exp; valueBalance := bal;
          vShieldedSpend := sp; vShieldedOutput := out; vJoinSplit := js;
          joinSplitPubKey := pk; joinSplitSig := sg; bindingSig := bs |}).

(** [CTransaction(deserialize, s)] delegates to the move constructor. *)
Definition CTransaction_deserialize : reader CTransaction :=
  let! tx := CTransaction_Unserialize in rret (CTransaction_of_mutable_move tx).

(** ** Values

    [None] is the [std::runtime_error] "value out of range".  Sums are computed
    in [int64_t]. *)

(** [acc += v; if (!MoneyRange(v) || !MoneyRange(acc)) throw] over a vector. *)
Fixpoint sum_in_range (acc : Z) (vs : list Z) : option Z :=
  match vs with
  | [] => Some acc
  | v :: vs' =>
      let acc := s64 (acc + v) in
      if negb (MoneyRange v) || negb (MoneyRange acc) then None else sum_in_range acc vs'
  end.

Definition GetValueOut (tx : CTransaction) : option Z :=
  nValueOut ← sum_in_range 0 (map nValue (vout tx));
  nValueOut ←
    (if valueBalance tx <=? 0 then
       let nValueOut := s64 (nValueOut + s64 (- valueBalance tx)) in
       if negb (MoneyRange (s64 (- valueBalance tx))) || negb (MoneyRange nValueOut) then None
       else Some nValueOut
     else Some nValueOut);
  sum_in_range nValueOut (map vpub_old (vJoinSplit tx)).

Definition GetShieldedValueIn (tx : CTransaction) : option Z :=
  nValue ←
    (if valueBalance tx >=? 0 then
       if negb (MoneyRange (valueBalance tx)) || negb (MoneyRange (0 + valueBalance tx)) then None
       else Some (0 + valueBalance tx)
     else Some 0);
  sum_in_range nValue (map vpub_new (vJoinSplit tx)).

(** ** Contracts of the codecs *)

Lemma lead_codec_ok mask :
  mask = G1_PREFIX_MASK \/ mask = G2_PREFIX_MASK -> CodecOk (lead_codec mask).
Proof.
  intros Hm. assert (is_u8 mask /\ Z.land mask 1 = 0 /\ Z.lor mask 1 = mask + 1 /\ mask mod 2 = 0 /\ mask < 128) as (Hu & Ha & Hb & Hc & Hd)
    by (destruct Hm as [-> | ->]; vm_compute; intuition congruence).
  split; cbn [enc dec valid lead_codec].
  - intros y _. exists [if y then mask + 1 else mask]. split_and!.
    + destruct Hm as [-> | ->], y; reflexivity.
    + apply Forall_singleton. unfold is_u8 in *. destruct y; lia.
    + intros rest. unfold rbind. cbn [app]. rewrite readdata8_cons by (unfold is_u8 in *; destruct y; lia).
      destruct Hm as [-> | ->], y; reflexivity.
  - intros s y rest Hs. unfold rbind. destruct (ser_readdata8 s) as [|[b s1]] eqn:E; [done|].
    apply readdata8_inv in E as (-> & Hb8 & Hs1); [|done].
    destruct (Z.eqb_spec (Z.land b (Z.lnot 1)) mask) as [Hland|]; [|done]. cbn [negb].
    intros [= <- <-]. split; [done|]. eexists. split; [done|]. unfold ser_writedata8. cbn [app].
    f_equal.
    assert (b = mask + Z.land b 1) as Hsplit.
    { rewrite <- Hland. rewrite <- Z.ldiff_land. change 1 with (Z.ones 1).
      rewrite Z.ldiff_ones_r, Z.land_ones, Z.shiftl_mul_pow2, Z.shiftr_div_pow2 by lia.
      change (2 ^ 1) with 2. rewrite (Z.div_mod b 2) at 1 by lia. lia. }
    assert (Z.land b 1 = b mod 2) as Hbit by (apply (Z.land_ones b 1); lia).
    pose proof (Z.mod_pos_bound b 2).
    rewrite Hb. rewrite Hsplit at 1. unfold is_u8 in *.
    destruct (Z.eqb_spec (Z.land b 1) 0); cbn [negb]; rewrite u8_id by (unfold is_u8; lia); lia.
Qed.

#[global] Instance uint256_codec_ok : CodecOk uint256_codec.
Proof. apply blob_codec_ok. lia. Qed.
#[global] Instance CompressedG1_codec_ok : CodecOk CompressedG1_codec.
Proof.
  apply iso_codec_ok; [|by intros []..]. pose proof (lead_codec_ok G1_PREFIX_MASK).
  apply pair_codec_ok; [auto|apply blob_codec_ok; lia].
Qed.
#[global] Instance CompressedG2_codec_ok : CodecOk CompressedG2_codec.
Proof.
  apply iso_codec_ok; [|by intros []..]. pose proof (lead_codec_ok G2_PREFIX_MASK).
  apply pair_codec_ok; [auto|apply blob_codec_ok; lia].
Qed.

(** Field tuples and records carry the same data. *)
Ltac tuple_iso := apply iso_codec_ok;
  [apply _ | intros; repeat match goal with p : _ * _ |- _ => destruct p end; reflexivity
  | intros []; reflexivity].

#[global] Instance PHGRProof_codec_ok : CodecOk PHGRProof_codec.
Proof. tuple_iso. Qed.
#[global] Instance groth_codec_ok : CodecOk (blob_codec GROTH_PROOF_SIZE).
Proof. apply blob_codec_ok. done. Qed.
#[global] Instance sig_codec_ok : CodecOk (blob_codec 64).
Proof. apply blob_codec_ok. done. Qed.
#[global] Instance enc_ciphertext_codec_ok : CodecOk (blob_codec ZC_SAPLING_ENCCIPHERTEXT_SIZE).
Proof. apply blob_codec_ok. done. Qed.
#[global] Instance out_ciphertext_codec_ok : CodecOk (blob_codec ZC_SAPLING_OUTCIPHERTEXT_SIZE).
Proof. apply blob_codec_ok. done. Qed.
#[global] Instance note_ciphertext_codec_ok :
  CodecOk (blob_codec (ZC_NOTEPLAINTEXT_SIZE + NOTEENCRYPTION_AUTH_BYTES)).
Proof. apply blob_codec_ok. done. Qed.

#[global] Instance SproutProof_codec_ok useGroth : CodecOk (SproutProof_codec useGroth).
Proof.
  split; unfold SproutProof_codec; cbn [enc dec valid].
  - intros [p|p] Hp; destruct useGroth; try done.
    + destruct (dec_enc (c := PHGRProof_codec) p Hp) as (bs & -> & Hb & Hd). exists bs.
      split_and!; [done..|]. intros rest. unfold rbind. by rewrite Hd.
    + destruct (dec_enc (c := blob_codec GROTH_PROOF_SIZE) p Hp) as (bs & -> & Hb & Hd). exists bs.
      split_and!; [done..|]. intros rest. unfold rbind. by rewrite Hd.
  - intros s p rest Hs. destruct useGroth; unfold rbind.
    + destruct (dec (blob_codec GROTH_PROOF_SIZE) s) as [|[q s']] eqn:E; [done|].
      intros [= <- <-]. by apply (enc_dec (c := blob_codec GROTH_PROOF_SIZE)).
    + destruct (dec PHGRProof_codec s) as [|[q s']] eqn:E; [done|].
      intros [= <- <-]. by apply (enc_dec (c := PHGRProof_codec)).
Qed.

#[global] Instance SpendDescription_codec_ok : CodecOk SpendDescription_codec.
Proof. tuple_iso. Qed.
#[global] Instance OutputDescription_codec_ok : CodecOk OutputDescription_codec.
Proof. tuple_iso. Qed.
#[global] Instance JSDescription_codec_ok version : CodecOk (JSDescription_codec version).
Proof. unfold JSDescription_codec. tuple_iso. Qed.
#[global] Instance COutPoint_codec_ok : CodecOk COutPoint_codec.
Proof. tuple_iso. Qed.
#[global] Instance CTxIn_codec_ok : CodecOk CTxIn_codec.
Proof. tuple_iso. Qed.
#[global] Instance CTxOut_codec_ok : CodecOk CTxOut_codec.
Proof. tuple_iso. Qed.
#[global] Instance tx_body_ok fO nV header : CodecOk (tx_body fO nV header).
Proof. unfold tx_body. cbv zeta. apply _. Qed.

(** ** Headers *)

Definition header_of (fO : bool) (nV : Z) : Z := nV + 2 ^ 31 * (if fO then 1 else 0).

Lemma GetHeader_eq tx :
  0 <= tx_nVersion tx < 2 ^ 31 -> GetHeader tx = header_of (fOverwintered tx) (tx_nVersion tx).
Proof.
  intros Hv. unfold GetHeader, header_of. rewrite u32_id by (unfold is_u32; lia).
  destruct (fOverwintered tx); [|lia]. rewrite Z.shiftl_mul_pow2 by lia.
  rewrite <- Z.lxor_lor, <- Z.add_nocarry_lxor; [lia|..];
    (apply Z.bits_inj'; intros m Hm; rewrite Z.land_spec, Z.bits_0, Z.mul_1_l;
     destruct (decide (m = 31)) as [->|]; [by rewrite (testbit_high (tx_nVersion tx) 31 31) by lia|
     by rewrite Z.pow2_bits_false, andb_false_r by lia]).
Qed.

Lemma header_fields fO nV :
  0 <= nV < 2 ^ 31 -> let h := header_of fO nV in
  is_u32 h /\ negb (Z.shiftr h 31 =? 0) = fO /\ Z.land h 0x7FFFFFFF = nV.
Proof.
  intros Hv h. assert (h = nV + 2 ^ 31 * (if fO then 1 else 0)) as Hh by done. clearbody h.
  split_and!.
  - unfold is_u32. destruct fO; lia.
  - rewrite Z.shiftr_div_pow2 by lia. replace (h / 2 ^ 31) with (if fO then 1 else 0); [by destruct fO|].
    destruct fO; width.
  - change 0x7FFFFFFF with (Z.ones 31). rewrite Z.land_ones by lia. destruct fO; width.
Qed.

Lemma header_split h :
  is_u32 h -> 0 <= Z.land h 0x7FFFFFFF < 2 ^ 31 /\
  header_of (negb (Z.shiftr h 31 =? 0)) (Z.land h 0x7FFFFFFF) = h.
Proof.
  intros Hh. unfold header_of. change 0x7FFFFFFF with (Z.ones 31).
  rewrite Z.land_ones, Z.shiftr_div_pow2 by lia. split; [apply Z.mod_pos_bound; lia|].
  destruct (Z.eqb_spec (h / 2 ^ 31) 0); cbn [negb]; width.
Qed.

(** The values the fields of a transaction can hold in its format: the version
    fits in 31 bits, the format is known, every field is in the range of its
    type, and the fields the format does not carry have their initial values. *)
Definition tx_valid (tx : CTransaction) : Prop :=
  0 <= tx_nVersion tx < 2 ^ 31 /\
  valid (tx_body (fOverwintered tx) (tx_nVersion tx) (header_of (fOverwintered tx) (tx_nVersion tx)))
    (tx_fields tx).

Lemma Unserialize_Serialize tx :
  tx_valid tx -> exists bs, CTransaction_Serialize tx = inr bs /\ is_bytes bs /\
    forall rest, CTransaction_Unserialize (bs ++ rest) = inr (tx, rest).
Proof.
  intros [Hv Hb]. unfold CTransaction_Serialize, CTransaction_Unserialize. rewrite GetHeader_eq by done.
  destruct (header_fields (fOverwintered tx) (tx_nVersion tx) Hv) as (Hu & HfO & HnV).
  set (h := header_of (fOverwintered tx) (tx_nVersion tx)) in *.
  destruct (dec_enc (c := u32_codec) h Hu) as (bh & -> & Hbh & Dh).
  destruct (dec_enc (c := tx_body (fOverwintered tx) (tx_nVersion tx) h) _ Hb) as (bb & -> & Hbb & Db).
  exists (bh ++ bb). split_and!; [done|by apply is_bytes_app|]. intros rest.
  unfold rbind at 1. rewrite <- (assoc_L (++)), Dh, HfO, HnV. unfold rbind. rewrite Db. by destruct tx.
Qed.

Lemma Serialize_Unserialize s tx rest :
  is_bytes s -> CTransaction_Unserialize s = inr (tx, rest) ->
  tx_valid tx /\ exists bs, CTransaction_Serialize tx = inr bs /\ s = bs ++ rest.
Proof.
  intros Hs. unfold CTransaction_Unserialize. unfold rbind at 1.
  destruct (dec u32_codec s) as [|[h s1]] eqn:E1; [done|].
  apply (enc_dec (c := u32_codec)) in E1 as (Hu & bh & Eh & ->); [|done].
  apply is_bytes_app in Hs as [_ Hs1]. destruct (header_split h Hu) as [Hv Hh].
  set (fO := negb (Z.shiftr h 31 =? 0)) in *. set (nV := Z.land h 0x7FFFFFFF) in *.
  unfold rbind. destruct (dec (tx_body fO nV h) s1) as [|[f s2]] eqn:E2; [done|].
  apply (enc_dec (c := tx_body fO nV h)) in E2 as (Hb & bb & Eb & ->); [|done].
  destruct f as [vg [[] [i [o [lock [exp [bal [sp [out [js [pk [sg bs]]]]]]]]]]]].
  intros [= <- <-]. unfold tx_valid, CTransaction_Serialize. rewrite GetHeader_eq by done.
  cbn [fOverwintered tx_nVersion]. rewrite Hh. split; [split; [done|exact Hb]|].
  exists (bh ++ bb). rewrite Eh, (assoc_L (++)). split; [|done].
  change (wapp (inr bh) (enc (tx_body fO nV h)
    (vg, (tt, (i, (o, (lock, (exp, (bal, (sp, (out, (js, (pk, (sg, bs)))))))))))))
    = inr (bh ++ bb)). by rewrite Eb.
Qed.

(** ** Sums of amounts *)

Definition total (l : list Z) : Z := foldr Z.add 0 l.

Lemma MoneyRange_iff v : MoneyRange v = true <-> 0 <= v <= MAX_MONEY.
Proof. unfold MoneyRange. rewrite andb_true_iff, Z.geb_leb, !Z.leb_le. done. Qed.

Lemma total_nonneg l : Forall (fun v => MoneyRange v = true) l -> 0 <= total l.
Proof.
  induction 1 as [|v l Hv _ IH]; [done|]. unfold total in *. simpl.
  apply MoneyRange_iff in Hv. lia.
Qed.

Lemma sum_in_range_iff acc vs r :
  0 <= acc <= MAX_MONEY ->
  sum_in_range acc vs = Some r <->
  Forall (fun v => MoneyRange v = true) vs /\ r = acc + total vs /\ r <= MAX_MONEY.
Proof.
  revert acc. induction vs as [|v vs IH]; intros acc Hacc; cbn [sum_in_range].
  { unfold total. simpl. split; [intros [= <-]; split_and!; [constructor|lia..]|].
    intros (_ & -> & _). f_equal. lia. }
  rewrite Forall_cons. change (total (v :: vs)) with (v + total vs).
  destruct (MoneyRange v) eqn:Ev; cbn [negb orb].
  2:{ split; [done|]. by intros [[? _] _]. }
  apply MoneyRange_iff in Ev as Hv.
  rewrite s64_id by (unfold is_s64; unfold MAX_MONEY, COIN in *; lia).
  destruct (MoneyRange (acc + v)) eqn:Es; cbn [negb].
  - apply MoneyRange_iff in Es. rewrite IH by lia.
    split; intros (H1 & H2 & H3); split_and!; first [tauto|lia].
  - assert (~ (0 <= acc + v <= MAX_MONEY)) as Hn by (rewrite <- MoneyRange_iff; congruence).
    split; [done|]. intros ([_ Hf] & -> & Hr). pose proof (total_nonneg vs Hf). lia.
Qed.

(** ** Properties *)

(** C23: the transaction format is unambiguous.  A byte string decodes to a
    transaction exactly when it starts with that transaction's serialization
    and the transaction is representable in its format; so serialization round
    trips for all four formats (v1, v2, Overwinter v3, Sapling v4) and no second
    encoding of a transaction is accepted. *)
Theorem transaction_codec (s rest : list Z) (tx : CTransaction) (Hs : is_bytes s) :
  CTransaction_Unserialize s = inr (tx, rest) <->
  tx_valid tx /\ exists bs, CTransaction_Serialize tx = inr bs /\ s = bs ++ rest.
Proof.
  split; [by apply Serialize_Unserialize|]. intros [Hv (bs & Hb & ->)].
  destruct (Unserialize_Serialize tx Hv) as (bs' & Hb' & _ & Hd).
  rewrite Hb in Hb'. injection Hb' as <-. apply Hd.
Qed.

(** A small version-1 transaction. *)
Definition sample_tx : CTransaction := {|
  fOverwintered := false; tx_nVersion := 1; nVersionGroupId := 0;
  vin := [{| prevout := {| out_hash := replicate 32 7; out_n := 1 |}; scriptSig := [0x51]; nSequence := 0xffffffff |}];
  vout := [{| nValue := 5 * COIN; scriptPubKey := [0x51; 0x52] |}]; nLockTime := 0; nExpiryHeight := 0; valueBalance := 0;
  vShieldedSpend := []; vShieldedOutput := []; vJoinSplit := [];
  joinSplitPubKey := zero_blob 32; joinSplitSig := zero_blob 64; bindingSig := zero_blob 64 |}.

Definition sample_tx_bytes : list Z :=
  [1; 0; 0; 0; 1] ++ replicate 32 7 ++ [1; 0; 0; 0; 1; 0x51; 255; 255; 255; 255; 1]
  ++ [0; 0x65; 0xcd; 0x1d; 0; 0; 0; 0; 2; 0x51; 0x52; 0; 0; 0; 0].

Lemma transaction_codec_witness :
  CTransaction_Unserialize (sample_tx_bytes ++ [99]) = inr (sample_tx, [99]) /\
  (tx_valid sample_tx /\ exists bs, CTransaction_Serialize sample_tx = inr bs /\
     sample_tx_bytes ++ [99] = bs ++ [99]).
Proof.
  assert (CTransaction_Unserialize (sample_tx_bytes ++ [99]) = inr (sample_tx, [99])) as H
    by (vm_compute; reflexivity).
  split; [exact H|].
  apply (transaction_codec (sample_tx_bytes ++ [99]) [99] sample_tx); [|exact H].
  apply (bool_decide_unpack _). vm_compute. exact I.
Defined.

(** The move constructor of [CTransaction] loses the binding signature: it
    agrees with the copy constructor exactly when that signature is all zero, so
    the deserializing constructor, which delegates to it, does not return the
    transaction that was serialized whenever a binding signature is present. *)
Lemma move_constructor_drops_bindingSig (tx : CTransaction) :
  (CTransaction_of_mutable_move tx = CTransaction_of_mutable tx <-> bindingSig tx = zero_blob 64) /\
  (tx_valid tx -> bindingSig tx <> zero_blob 64 ->
   exists bs, CTransaction_Serialize tx = inr bs /\
     CTransaction_Unserialize bs = inr (tx, []) /\
     CTransaction_deserialize bs <> inr (tx, [])).
Proof.
  split.
  - unfold CTransaction_of_mutable_move, CTransaction_of_mutable. split; [by intros [= <-]|by intros ->].
  - intros Hv Hsig. destruct (Unserialize_Serialize tx Hv) as (bs & Hb & _ & Hd).
    exists bs. specialize (Hd []). rewrite app_nil_r in Hd. split_and!; [done..|].
    unfold CTransaction_deserialize, rbind. rewrite Hd. intros [= E]. apply Hsig.
    by rewrite <- E.
Qed.

(** [GetValueOut] never wraps: it returns a value exactly when every output
    value, every [vpub_old] and the negated negative value balance are in
    [MoneyRange] and their exact sum does not exceed [MAX_MONEY], and then it
    returns that sum; otherwise it throws. *)
Lemma GetValueOut_exact (tx : CTransaction) (v : Z)
  (Hb : is_s64 (valueBalance tx)) :
  GetValueOut tx = Some v <->
  Forall (fun o => MoneyRange (nValue o) = true) (vout tx) /\
  Forall (fun j => MoneyRange (vpub_old j) = true) (vJoinSplit tx) /\
  - MAX_MONEY <= Z.min 0 (valueBalance tx) /\
  v = total (map nValue (vout tx)) - Z.min 0 (valueBalance tx) + total (map vpub_old (vJoinSplit tx)) /\
  v <= MAX_MONEY.
Proof.
  assert (0 <= 0 <= MAX_MONEY) as H00 by (vm_compute; intuition congruence).
  rewrite <- (Forall_map nValue (fun v => MoneyRange v = true)), <- (Forall_map vpub_old (fun v => MoneyRange v = true)).
  unfold GetValueOut. set (outs := map nValue (vout tx)). set (olds := map vpub_old (vJoinSplit tx)).
  destruct (sum_in_range 0 outs) as [t1|] eqn:E1; monad.
  2:{ split; [done|]. intros (H1 & H2 & H3 & -> & H5). pose proof (total_nonneg _ H2).
      assert (sum_in_range 0 outs = Some (0 + total outs)); [|congruence].
      apply sum_in_range_iff; [done|]. split_and!; [done|done|lia]. }
  apply sum_in_range_iff in E1 as (H1 & -> & H1'); [|done]. pose proof (total_nonneg _ H1) as Hnn.
  assert (s64 (- valueBalance tx) = - valueBalance tx \/
          valueBalance tx = - 2 ^ 63 /\ s64 (- valueBalance tx) = - 2 ^ 63) as Hneg by width.
  assert (MAX_MONEY < 2 ^ 60) as HM by reflexivity.
  destruct (Z.leb_spec (valueBalance tx) 0) as [Hle|Hgt]; monad.
  2:{ rewrite sum_in_range_iff by lia. rewrite Z.min_l by lia.
      split; intros; destruct_and!; split_and!; try done; lia. }
  rewrite Z.min_r by lia.
  destruct (MoneyRange (s64 (- valueBalance tx))) eqn:E2; cbn [negb orb].
  2:{ split; [done|]. intros (_ & _ & H3 & _). destruct Hneg as [Hneg|[Hneg _]]; [|lia].
      rewrite Hneg in E2. assert (MoneyRange (- valueBalance tx) = true); [|congruence].
      apply MoneyRange_iff. lia. }
  apply MoneyRange_iff in E2. destruct Hneg as [Hneg|[_ Hneg]]; [|lia]. rewrite Hneg in *.
  rewrite s64_id by (unfold is_s64; lia).
  destruct (MoneyRange (0 + total outs + - valueBalance tx)) eqn:E3; cbn [negb]; monad.
  - apply MoneyRange_iff in E3. rewrite sum_in_range_iff by lia.
    split; intros; destruct_and!; split_and!; try done; lia.
  - split; [done|]. intros (_ & H2 & H3 & -> & H5). pose proof (total_nonneg _ H2).
    assert (MoneyRange (0 + total outs + - valueBalance tx) = true); [|congruence].
    apply MoneyRange_iff. lia.
Qed.

Lemma GetValueOut_exact_witness : GetValueOut sample_tx = Some (5 * COIN).
Proof.
  apply (GetValueOut_exact sample_tx (5 * COIN)).
  - vm_compute. intuition congruence.
  - split; [repeat constructor|]. split; [constructor|]. vm_compute. intuition congruence.
Defined.

(** A transaction with a shielded output and a binding signature. *)
Lemma move_constructor_drops_bindingSig_witness :
  let tx := {| fOverwintered := true; tx_nVersion := 4; nVersionGroupId := SAPLING_VERSION_GROUP_ID;
    vin := []; vout := []; nLockTime := 0; nExpiryHeight := 0; valueBalance := 0;
    vShieldedSpend := []; vShieldedOutput := [
      {| od_cv := zero_blob 32; od_cm := zero_blob 32; od_ephemeralKey := zero_blob 32;
         encCiphertext := zero_blob 580; outCiphertext := zero_blob 80; od_zkproof := zero_blob 192 |}];
    vJoinSplit := []; joinSplitPubKey := zero_blob 32; joinSplitSig := zero_blob 64;
    bindingSig := replicate 64 1 |} in
  exists bs, CTransaction_Serialize tx = inr bs /\ CTransaction_Unserialize bs = inr (tx, []) /\
    CTransaction_deserialize bs <> inr (tx, []).
Proof.
  intros tx. apply (move_constructor_drops_bindingSig tx).
  - assert (exists bs, CTransaction_Serialize tx = inr bs /\ CTransaction_Unserialize bs = inr (tx, [])
      /\ is_bytes bs) as (bs & _ & H & Hb).
    { eexists. split; [vm_compute; reflexivity|]. split; [vm_compute; reflexivity|].
      apply (bool_decide_unpack _). vm_compute. exact I. }
    apply (Serialize_Unserialize bs tx [] Hb H).
  - discriminate.
Defined.

End Transaction.
