(* ===== verification/Script.v ===== *)
(** * Scripts (src/script/script.h, src/script/script.cpp)

    Opcodes, script numbers, script construction and parsing, signature
    operation counting.  A script is its byte list; an iterator into it is the
    list of the bytes still to be read. *)

From stdpp Require Import base list list_numbers numbers option.
From Stdlib Require Import ZArith Lia.
From S2P Require Import Prelude Bytes.
Import Endian.

Module Script.

Definition MAX_SCRIPT_ELEMENT_SIZE : Z := 520.
Definition MAX_SCRIPT_SIZE : Z := 10000.
Definition LOCKTIME_THRESHOLD : Z := 500000000.

(** ** Opcodes (enum opcodetype) *)

Definition OP_0 : Z := 0x00.
Definition OP_FALSE : Z := OP_0.
Definition OP_PUSHDATA1 : Z := 0x4c.
Definition OP_PUSHDATA2 : Z := 0x4d.
Definition OP_PUSHDATA4 : Z := 0x4e.
Definition OP_1NEGATE : Z := 0x4f.
Definition OP_RESERVED : Z := 0x50.
Definition OP_1 : Z := 0x51.
Definition OP_TRUE : Z := OP_1.
Definition OP_2 : Z := 0x52.
Definition OP_3 : Z := 0x53.
Definition OP_4 : Z := 0x54.
Definition OP_5 : Z := 0x55.
Definition OP_6 : Z := 0x56.
Definition OP_7 : Z := 0x57.
Definition OP_8 : Z := 0x58.
Definition OP_9 : Z := 0x59.
Definition OP_10 : Z := 0x5a.
Definition OP_11 : Z := 0x5b.
Definition OP_12 : Z := 0x5c.
Definition OP_13 : Z := 0x5d.
Definition OP_14 : Z := 0x5e.
Definition OP_15 : Z := 0x5f.
Definition OP_16 : Z := 0x60.
Definition OP_NOP : Z := 0x61.
Definition OP_VER : Z := 0x62.
Definition OP_IF : Z := 0x63.
Definition OP_NOTIF : Z := 0x64.
Definition OP_VERIF : Z := 0x65.
Definition OP_VERNOTIF : Z := 0x66.
Definition OP_ELSE : Z := 0x67.
Definition OP_ENDIF : Z := 0x68.
Definition OP_VERIFY : Z := 0x69.
Definition OP_RETURN : Z := 0x6a.
Definition OP_TOALTSTACK : Z := 0x6b.
Definition OP_FROMALTSTACK : Z := 0x6c.
Definition OP_2DROP : Z := 0x6d.
Definition OP_2DUP : Z := 0x6e.
Definition OP_3DUP : Z := 0x6f.
Definition OP_2OVER : Z := 0x70.
Definition OP_2ROT : Z := 0x71.
Definition OP_2SWAP : Z := 0x72.
Definition OP_IFDUP : Z := 0x73.
Definition OP_DEPTH : Z := 0x74.
Definition OP_DROP : Z := 0x75.
Definition OP_DUP : Z := 0x76.
Definition OP_NIP : Z := 0x77.
Definition OP_OVER : Z := 0x78.
Definition OP_PICK : Z := 0x79.
Definition OP_ROLL : Z := 0x7a.
Definition OP_ROT : Z := 0x7b.
Definition OP_SWAP : Z := 0x7c.
Definition OP_TUCK : Z := 0x7d.
Definition OP_CAT : Z := 0x7e.
Definition OP_SUBSTR : Z := 0x7f.
Definition OP_LEFT : Z := 0x80.
Definition OP_RIGHT : Z := 0x81.
Definition OP_SIZE : Z := 0x82.
Definition OP_INVERT : Z := 0x83.
Definition OP_AND : Z := 0x84.
Definition OP_OR : Z := 0x85.
Definition OP_XOR : Z := 0x86.
Definition OP_EQUAL : Z := 0x87.
Definition OP_EQUALVERIFY : Z := 0x88.
Definition OP_RESERVED1 : Z := 0x89.
Definition OP_RESERVED2 : Z := 0x8a.
Definition OP_1ADD : Z := 0x8b.
Definition OP_1SUB : Z := 0x8c.
Definition OP_2MUL : Z := 0x8d.
Definition OP_2DIV : Z := 0x8e.
Definition OP_NEGATE : Z := 0x8f.
Definition OP_ABS : Z := 0x90.
Definition OP_NOT : Z := 0x91.
Definition OP_0NOTEQUAL : Z := 0x92.
Definition OP_ADD : Z := 0x93.
Definition OP_SUB : Z := 0x94.
Definition OP_MUL : Z := 0x95.
Definition OP_DIV : Z := 0x96.
Definition OP_MOD : Z := 0x97.
Definition OP_LSHIFT : Z := 0x98.
Definition OP_RSHIFT : Z := 0x99.
Definition OP_BOOLAND : Z := 0x9a.
Definition OP_BOOLOR : Z := 0x9b.
Definition OP_NUMEQUAL : Z := 0x9c.
Definition OP_NUMEQUALVERIFY : Z := 0x9d.
Definition OP_NUMNOTEQUAL : Z := 0x9e.
Definition OP_LESSTHAN : Z := 0x9f.
Definition OP_GREATERTHAN : Z := 0xa0.
Definition OP_LESSTHANOREQUAL : Z := 0xa1.
Definition OP_GREATERTHANOREQUAL : Z := 0xa2.
Definition OP_MIN : Z := 0xa3.
Definition OP_MAX : Z := 0xa4.
Definition OP_WITHIN : Z := 0xa5.
Definition OP_RIPEMD160 : Z := 0xa6.
Definition OP_SHA1 : Z := 0xa7.
Definition OP_SHA256 : Z := 0xa8.
Definition OP_HASH160 : Z := 0xa9.
Definition OP_HASH256 : Z := 0xaa.
Definition OP_CODESEPARATOR : Z := 0xab.
Definition OP_CHECKSIG : Z := 0xac.
Definition OP_CHECKSIGVERIFY : Z := 0xad.
Definition OP_CHECKMULTISIG : Z := 0xae.
Definition OP_CHECKMULTISIGVERIFY : Z := 0xaf.
Definition OP_NOP1 : Z := 0xb0.
Definition OP_NOP2 : Z := 0xb1.
Definition OP_CHECKLOCKTIMEVERIFY : Z := OP_NOP2.
Definition OP_NOP3 : Z := 0xb2.
Definition OP_NOP4 : Z := 0xb3.
Definition OP_NOP5 : Z := 0xb4.
Definition OP_NOP6 : Z := 0xb5.
Definition OP_NOP7 : Z := 0xb6.
Definition OP_NOP8 : Z := 0xb7.
Definition OP_NOP9 : Z := 0xb8.
Definition OP_NOP10 : Z := 0xb9.
Definition OP_SMALLDATA : Z := 0xf9.
Definition OP_SMALLINTEGER : Z := 0xfa.
Definition OP_PUBKEYS : Z := 0xfb.
Definition OP_PUBKEYHASH : Z := 0xfd.
Definition OP_PUBKEY : Z := 0xfe.
Definition OP_INVALIDOPCODE : Z := 0xff.

(** ** Script numbers (class CScriptNum) *)

Inductive scriptnum_error := ScriptNumOverflow | ScriptNumNonMinimal.

Definition size (v : list Z) : Z := Z.of_nat (length v).
(** [v.back()] of a non-empty vector *)
Definition back_byte (v : list Z) : Z := List.last v 0.
(** [v[i]], 0 when out of range: every use is guarded by a size check *)
Definition at_byte (v : list Z) (i : nat) : Z := nth i v 0.

(** [result |= static_cast<int64_t>(vch[i]) << 8*i] *)
Fixpoint set_vch_loop (i : Z) (vch : list Z) (result : Z) : Z :=
  match vch with
  | [] => result
  | b :: vch' => set_vch_loop (i + 1) vch' (Z.lor result (s64 (Z.shiftl b (8 * i))))
  end.

Definition set_vch (vch : list Z) : Z :=
  match vch with
  | [] => 0
  | _ =>
      let result := set_vch_loop 0 vch 0 in
      if negb (Z.land (back_byte vch) 0x80 =? 0) then
        s64 (- s64 (Z.land result (Z.lnot (u64 (Z.shiftl 0x80 (8 * (size vch - 1)))))))
      else result
  end.

Definition nDefaultMaxNumSize : Z := 4.

Definition CScriptNum_of_vch (vch : list Z) (fRequireMinimal : bool) (nMaxNumSize : Z)
  : scriptnum_error + Z :=
  if size vch >? nMaxNumSize then inl ScriptNumOverflow
  else if fRequireMinimal && (size vch >? 0) && (Z.land (back_byte vch) 0x7f =? 0)
          && ((size vch <=? 1) || (Z.land (at_byte vch (length vch - 2)) 0x80 =? 0))
       then inl ScriptNumNonMinimal
  else inr (set_vch vch).

Definition getint (m_value : Z) : Z :=
  if m_value >? 2 ^ 31 - 1 then 2 ^ 31 - 1
  else if m_value <? - 2 ^ 31 then - 2 ^ 31
  else m_value.

(** [while (absvalue) { push_back(absvalue & 0xff); absvalue >>= 8; }]: eight
    bytes at most. *)
Fixpoint abs_bytes (fuel : nat) (absvalue : Z) : list Z :=
  match fuel with
  | O => []
  | S f =>
      if absvalue =? 0 then []
      else Z.land absvalue 0xff :: abs_bytes f (Z.shiftr absvalue 8)
  end.

Definition serialize (value : Z) : list Z :=
  if value =? 0 then []
  else
    let neg := value <? 0 in
    let absvalue := u64 (if neg then - value else value) in
    let result := abs_bytes 8 absvalue in
    if negb (Z.land (back_byte result) 0x80 =? 0) then
      result ++ [if neg then 0x80 else 0]
    else if neg then
      removelast result ++ [Z.lor (back_byte result) 0x80]
    else result.

(** ** Building scripts *)

(** [CScript& operator<<(const std::vector<unsigned char>&)] *)
Definition push_vector (b : list Z) : list Z :=
  (if size b <? OP_PUSHDATA1 then [u8 (size b)]
   else if size b <=? 0xff then [OP_PUSHDATA1; u8 (size b)]
   else if size b <=? 0xffff then OP_PUSHDATA2 :: WriteLE16 (size b)
   else OP_PUSHDATA4 :: WriteLE32 (size b)) ++ b.

Definition push_int64 (n : Z) : list Z :=
  if (n =? -1) || ((n >=? 1) && (n <=? 16)) then [u8 (n + (OP_1 - 1))]
  else if n =? 0 then [OP_0]
  else push_vector (serialize n).

(** ** Parsing scripts *)

(** [GetOp2]: [None] when it returns false; otherwise the opcode, the pushed
    data and the iterator after them. *)
Definition GetOp2 (pc : list Z) : option (Z * list Z * list Z) :=
  match pc with
  | [] => None
  | opcode :: pc =>
      if opcode <=? OP_PUSHDATA4 then
        '(nSize, pc) ←
          (if opcode <? OP_PUSHDATA1 then Some (opcode, pc)
           else if opcode =? OP_PUSHDATA1 then
             if size pc <? 1 then None else Some (at_byte pc 0, drop 1 pc)
           else if opcode =? OP_PUSHDATA2 then
             if size pc <? 2 then None else Some (ReadLE16 pc, drop 2 pc)
           else
             if size pc <? 4 then None else Some (ReadLE32 pc, drop 4 pc));
        if size pc <? nSize then None
        else Some (opcode, take (Z.to_nat nSize) pc, drop (Z.to_nat nSize) pc)
      else Some (opcode, [], pc)
  end.

Definition DecodeOP_N (opcode : Z) : option Z :=
  if opcode =? OP_0 then Some 0
  else if (opcode >=? OP_1) && (opcode <=? OP_16) then Some (opcode - (OP_1 - 1))
  else None.

Definition EncodeOP_N (n : Z) : option Z :=
  if (n >=? 0) && (n <=? 16) then Some (if n =? 0 then OP_0 else OP_1 + n - 1) else None.

(** The loop of [GetSigOpCount(bool)]; [fuel] is the number of bytes left. *)
Fixpoint sigop_loop (fuel : nat) (fAccurate : bool) (pc : list Z) (lastOpcode n : Z) : Z :=
  match fuel with
  | O => n
  | S f =>
      match GetOp2 pc with
      | None => n
      | Some (opcode, _, pc') =>
          let n :=
            if (opcode =? OP_CHECKSIG) || (opcode =? OP_CHECKSIGVERIFY) then n + 1
            else if (opcode =? OP_CHECKMULTISIG) || (opcode =? OP_CHECKMULTISIGVERIFY) then
              if fAccurate && (lastOpcode >=? OP_1) && (lastOpcode <=? OP_16)
              then n + (lastOpcode - (OP_1 - 1)) else n + 20
            else n in
          sigop_loop f fAccurate pc' opcode n
      end
  end.

Definition GetSigOpCount (script : list Z) (fAccurate : bool) : Z :=
  sigop_loop (length script) fAccurate script OP_INVALIDOPCODE 0.

Definition IsPayToPublicKeyHash (s : list Z) : bool :=
  (size s =? 25) && (at_byte s 0 =? OP_DUP) && (at_byte s 1 =? OP_HASH160) && (at_byte s 2 =? 0x14)
  && (at_byte s 23 =? OP_EQUALVERIFY) && (at_byte s 24 =? OP_CHECKSIG).

Definition IsPayToScriptHash (s : list Z) : bool :=
  (size s =? 23) && (at_byte s 0 =? OP_HASH160) && (at_byte s 1 =? 0x14) && (at_byte s 22 =? OP_EQUAL).

(** The last item a push-only script pushes, [None] when it is not push-only. *)
Fixpoint last_push_loop (fuel : nat) (pc data : list Z) : option (list Z) :=
  match fuel, pc with
  | _, [] => Some data
  | O, _ => None
  | S f, _ =>
      match GetOp2 pc with
      | None => None
      | Some (opcode, data, pc') => if opcode >? OP_16 then None else last_push_loop f pc' data
      end
  end.

(** [GetSigOpCount(const CScript& scriptSig)] *)
Definition GetSigOpCount_p2sh (script scriptSig : list Z) : Z :=
  if negb (IsPayToScriptHash script) then GetSigOpCount script true
  else match last_push_loop (length scriptSig) scriptSig [] with
       | None => 0
       | Some data => GetSigOpCount data true
       end.

Fixpoint push_only_loop (fuel : nat) (pc : list Z) : bool :=
  match fuel, pc with
  | _, [] => true
  | O, _ => false
  | S f, _ =>
      match GetOp2 pc with
      | None => false
      | Some (opcode, _, pc') => if opcode >? OP_16 then false else push_only_loop f pc'
      end
  end.

Definition IsPushOnly (script : list Z) : bool := push_only_loop (length script) script.

Definition IsUnspendable (s : list Z) : bool :=
  ((size s >? 0) && (at_byte s 0 =? OP_RETURN)) || (size s >? MAX_SCRIPT_SIZE).

Inductive ScriptType := UNKNOWN | P2PKH | P2SH.

Definition GetType (s : list Z) : ScriptType :=
  if IsPayToPublicKeyHash s then P2PKH
  else if IsPayToScriptHash s then P2SH
  else UNKNOWN.

Definition AddressHash (s : list Z) : list Z :=
  if IsPayToPublicKeyHash s then take 20 (drop 3 s)
  else if IsPayToScriptHash s then take 20 (drop 2 s)
  else replicate 20 0.

(** ** Script numbers: sign and magnitude *)

Lemma back_snoc l t : back_byte (l ++ [t]) = t.
Proof. apply last_last. Qed.

Lemma lor_low_high x y n : 0 <= n -> 0 <= x < 2 ^ n -> Z.lor x (2 ^ n * y) = x + 2 ^ n * y.
Proof.
  intros Hn Hx. rewrite <- Z.lxor_lor, <- Z.add_nocarry_lxor; [done|..];
    (apply Z.bits_inj'; intros m Hm; rewrite Z.land_spec, Z.bits_0; destruct (decide (m < n));
     [by rewrite Z.mul_comm, Z.mul_pow2_bits_low, andb_false_r by lia
     |by rewrite (testbit_high x n m) by lia]).
Qed.

Lemma set_vch_loop_value vch i r :
  is_bytes vch -> 0 <= i -> i + size vch <= 7 -> 0 <= r < 2 ^ (8 * i) ->
  set_vch_loop i vch r = r + 2 ^ (8 * i) * le_value vch.
Proof.
  intros Hv. revert i r. induction Hv as [|b vch Hb Hv IH]; intros i r Hi Hs Hr; cbn [set_vch_loop le_value].
  { lia. }
  unfold size in *. cbn [length] in Hs. unfold is_u8 in Hb.
  assert (0 < 2 ^ (8 * i)) by (apply Z.pow_pos_nonneg; lia).
  assert (2 ^ (8 * (i + 1)) = 256 * 2 ^ (8 * i)) as Hp.
  { replace (8 * (i + 1)) with (8 + 8 * i) by lia. by rewrite Z.pow_add_r by lia. }
  assert (2 ^ (8 * (i + 1)) <= 2 ^ 56) by (apply Z.pow_le_mono_r; lia).
  rewrite Z.shiftl_mul_pow2, s64_id by (unfold is_s64; nia).
  rewrite (Z.mul_comm b), lor_low_high by lia. rewrite IH by (try nia; lia). rewrite Hp. ring.
Qed.

Lemma set_vch_loop_app l1 l2 i r :
  set_vch_loop i (l1 ++ l2) r = set_vch_loop (i + size l1) l2 (set_vch_loop i l1 r).
Proof.
  revert i r. induction l1 as [|b l1 IH]; intros i r; unfold size in *; cbn [app set_vch_loop length].
  - by rewrite Z.add_0_r.
  - rewrite IH. f_equal. lia.
Qed.

Lemma byte_sign t : is_u8 t -> (Z.land t 0x80 =? 0) = (t <? 128) /\ Z.land t 0x7f = t mod 128.
Proof.
  intros Ht. unfold is_u8 in Ht. split; [|apply (Z.land_ones t 7); lia].
  assert (Forall (fun t => Bool.eqb (Z.land t 0x80 =? 0) (t <? 128) = true) (seqZ 0 256)) as H.
  { vm_compute. repeat (constructor; [done|]). constructor. }
  apply (Forall_lookup_1 _ _ (Z.to_nat t) t) in H; [|apply lookup_seqZ; change (2 ^ 8) with 256 in Ht; lia].
  exact (proj1 (eqb_true_iff _ _) H).
Qed.

Lemma set_vch_cons l : l <> [] -> set_vch l =
  let result := set_vch_loop 0 l 0 in
  if negb (Z.land (back_byte l) 0x80 =? 0) then
    s64 (- s64 (Z.land result (Z.lnot (u64 (Z.shiftl 0x80 (8 * (size l - 1)))))))
  else result.
Proof. by destruct l. Qed.

Lemma clear_bit x k : 0 <= k -> Z.testbit x k = true -> Z.land x (Z.lnot (2 ^ k)) = x - 2 ^ k.
Proof.
  intros Hk Hb. rewrite <- Z.ldiff_land. symmetry. apply Z.sub_nocarry_ldiff.
  apply Z.bits_inj'. intros m Hm. rewrite Z.ldiff_spec, Z.bits_0.
  destruct (decide (m = k)) as [->|]; [by rewrite Hb, andb_false_r|].
  by rewrite Z.pow2_bits_false by lia.
Qed.

(** A number is its magnitude, negated when the top bit of the last byte is
    set. *)
Lemma set_vch_snoc l t :
  is_bytes l -> is_u8 t -> size l <= 7 ->
  set_vch (l ++ [t]) =
  if t <? 128 then le_value l + 256 ^ size l * t
  else - (le_value l + 256 ^ size l * (t - 128)).
Proof.
  intros Hl Ht Hs. rewrite set_vch_cons by (by destruct l). cbv zeta.
  rewrite back_snoc, (proj1 (byte_sign t Ht)), set_vch_loop_app. cbn [set_vch_loop].
  assert (0 <= size l) by (unfold size; lia). pose proof (le_value_range l Hl) as Hv. fold (size l) in Hv.
  rewrite set_vch_loop_value by (done || lia). rewrite Z.mul_0_r, Z.pow_0_r, Z.mul_1_l, !Z.add_0_l.
  assert (256 ^ size l = 2 ^ (8 * size l)) as Hp by (change 256 with (2 ^ 8); by rewrite <- Z.pow_mul_r by lia).
  assert (size (l ++ [t]) - 1 = size l) as -> by (unfold size; rewrite length_app; simpl; lia).
  rewrite Z.shiftl_mul_pow2 by lia. rewrite <- Hp. rewrite Hp in Hv.
  assert (0 < 2 ^ (8 * size l) <= 2 ^ 56) as Hpow
    by (split; [apply Z.pow_pos_nonneg; lia|apply Z.pow_le_mono_r; lia]).
  set (k := size l) in *. unfold is_u8 in Ht. change (2 ^ 8) with 256 in Ht. rewrite Hp.
  destruct (Z.ltb_spec t 128); cbn [negb].
  - rewrite s64_id by (unfold is_s64; nia). rewrite (Z.mul_comm t), lor_low_high by lia. done.
  - rewrite Z.shiftl_mul_pow2 by lia. replace (0x80 * 2 ^ (8 * k)) with (2 ^ (8 * k + 7))
      by (rewrite Z.pow_add_r by lia; lia).
    assert (2 ^ (8 * k + 7) = 128 * 2 ^ (8 * k)) as H7 by (rewrite Z.pow_add_r by lia; lia).
    rewrite (u64_id (2 ^ (8 * k + 7))) by (unfold is_u64; lia).
    assert (exists t', s64 (t * 2 ^ (8 * k)) = 2 ^ (8 * k) * t' /\ (t' = t /\ k < 7 \/ t' = t - 256 /\ k = 7)) as (t' & -> & Ht').
    { destruct (decide (k = 7)) as [->|]; [exists (t - 256); split; [|auto]; change (2 ^ (8 * 7)) with (2 ^ 56); width|].
      exists t. split; [|left; lia]. assert (2 ^ (8 * k) <= 2 ^ 48) by (apply Z.pow_le_mono_r; lia).
      rewrite s64_id by (unfold is_s64; nia). lia. }
    rewrite lor_low_high by lia. rewrite clear_bit; [|lia|].
    + assert (s64 (le_value l + 2 ^ (8 * k) * t' - 2 ^ (8 * k + 7)) = le_value l + 2 ^ (8 * k) * (t - 128)) as ->.
      { rewrite H7. destruct Ht' as [[-> ?]|[-> ->]].
        - assert (2 ^ (8 * k) <= 2 ^ 48) by (apply Z.pow_le_mono_r; lia). rewrite s64_id by (unfold is_s64; nia). lia.
        - change (2 ^ (8 * 7)) with (2 ^ 56) in *. width. }
      apply s64_id. unfold is_s64. nia.
    + rewrite Z.testbit_eqb, Z.eqb_eq by lia. rewrite H7.
      assert ((le_value l + 2 ^ (8 * k) * t') / (128 * 2 ^ (8 * k)) = t' / 128) as ->.
      { rewrite (Z.mul_comm 128), <- Z.div_div by lia. f_equal.
        rewrite Z.add_comm, Z.mul_comm, Z.div_add_l, Z.div_small by lia. lia. }
      destruct Ht' as [[-> ?]|[-> ?]]; zdm.
Qed.

Lemma byte_shift a : 0 <= a -> Z.land a 0xff = a mod 256 /\ Z.shiftr a 8 = a / 256.
Proof. intros Ha. split; [apply (Z.land_ones a 8); lia|by rewrite Z.shiftr_div_pow2 by lia]. Qed.

Lemma abs_bytes_value fuel a :
  0 <= a < 256 ^ Z.of_nat fuel ->
  le_value (abs_bytes fuel a) = a /\ is_bytes (abs_bytes fuel a) /\
  (length (abs_bytes fuel a) <= fuel)%nat /\ (a <> 0 -> 0 < back_byte (abs_bytes fuel a)).
Proof.
  revert a. induction fuel as [|f IH]; intros a Ha; cbn [abs_bytes].
  { simpl in Ha. split_and!; [simpl; lia|constructor|simpl; lia|lia]. }
  rewrite Nat2Z.inj_succ, Z.pow_succ_r in Ha by lia.
  destruct (Z.eqb_spec a 0) as [->|Hn]; [split_and!; [done|constructor|simpl; lia|done]|].
  destruct (byte_shift a) as [-> ->]; [lia|].
  destruct (IH (a / 256)) as (Hv & Hb & Hl & Hlast); [zdm|]. cbn [le_value length].
  rewrite Hv. split_and!; [zdm| |lia|].
  - constructor; [unfold is_u8; zdm|done].
  - intros _. destruct (decide (a / 256 = 0)) as [Hz|Hnz].
    + rewrite Hz. assert (abs_bytes f 0 = []) as -> by (by destruct f).
      unfold back_byte. cbn [List.last]. zdm.
    + specialize (Hlast Hnz). unfold back_byte in *. destruct (abs_bytes f (a / 256)); [simpl in *; lia|done].
Qed.

Lemma abs_bytes_of_value fuel l :
  is_bytes l -> (length l <= fuel)%nat -> (l <> [] -> back_byte l <> 0) ->
  abs_bytes fuel (le_value l) = l.
Proof.
  intros Hl. revert fuel. induction Hl as [|b l Hb Hl IH]; intros fuel Hf Hlast; [by destruct fuel|].
  destruct fuel as [|f]; [simpl in Hf; lia|]. cbn [abs_bytes le_value].
  pose proof (le_value_range l Hl). unfold is_u8 in Hb. change (2 ^ 8) with 256 in Hb.
  assert (b + 256 * le_value l <> 0) as Hne.
  { destruct l as [|c l]; [specialize (Hlast ltac:(done)); unfold back_byte in Hlast; simpl in *; lia|].
    intros Hz. assert (le_value (c :: l) = 0) as Hz' by lia.
    rewrite Hz' in IH. specialize (IH 9%nat). destruct f; [simpl in Hf; lia|].
    specialize (Hlast ltac:(done)). clear IH.
    enough (forall l, is_bytes l -> le_value l = 0 -> back_byte l = 0) as He.
    { apply Hlast. change (back_byte (b :: c :: l)) with (back_byte (c :: l)). by apply He. }
    clear. intros l. induction 1 as [|x l Hx Hl IH]; intros Hz; [done|]. cbn [le_value] in Hz.
    pose proof (le_value_range l Hl). unfold is_u8 in Hx. destruct l; [unfold back_byte; simpl in *; lia|].
    change (back_byte (x :: z :: l)) with (back_byte (z :: l)). apply IH. lia. }
  rewrite (proj2 (Z.eqb_neq _ _) Hne). destruct (byte_shift (b + 256 * le_value l)) as [-> ->]; [lia|].
  replace ((b + 256 * le_value l) mod 256) with b by zdm.
  replace ((b + 256 * le_value l) / 256) with (le_value l) by zdm.
  f_equal. apply IH; [simpl in Hf; lia|]. intros Hn. destruct l; [done|]. apply Hlast. done.
Qed.

(** The canonical shape of an encoded number: empty, or magnitude bytes and a
    last byte whose sign bit is free. *)
Lemma serialize_shape n :
  - 2 ^ 63 < n < 2 ^ 63 -> n <> 0 ->
  exists l t, serialize n = l ++ [t] /\ is_bytes l /\ is_u8 t /\ size l <= 7 /\
    le_value l + 256 ^ size l * (t mod 128) = Z.abs n /\ (t <? 128) = (0 <? n) /\
    (t mod 128 = 0 -> l <> [] /\ 128 <= back_byte l).
Proof.
  intros Hn Hz. unfold serialize. rewrite (proj2 (Z.eqb_neq _ _) Hz).
  replace (u64 (if n <? 0 then - n else n)) with (Z.abs n)
    by (destruct (Z.ltb_spec n 0); rewrite u64_id by (unfold is_u64; lia); lia).
  destruct (abs_bytes_value 8 (Z.abs n)) as (Hv & Hb & Hl & Hlast); [change (256 ^ Z.of_nat 8) with (2 ^ 64); lia|].
  specialize (Hlast ltac:(lia)).
  destruct (abs_bytes 8 (Z.abs n)) as [|x0 r0] using rev_ind; [simpl in Hv; lia|]. clear IHr0.
  rewrite back_snoc in *. apply Forall_app in Hb as [Hr Hx]. rewrite Forall_singleton in Hx.
  rewrite le_value_app in Hv. cbn [le_value] in Hv. fold (size r0) in Hv.
  rewrite length_app in Hl. cbn [length] in Hl.
  rewrite (proj1 (byte_sign x0 Hx)). unfold is_u8 in Hx. change (2 ^ 8) with 256 in Hx.
  pose proof (le_value_range r0 Hr) as Hrv. fold (size r0) in Hrv.
  destruct (Z.ltb_spec x0 128) as [Hlt|Hge]; cbn [negb].
  - assert (size r0 <= 7) by (unfold size; lia).
    destruct (Z.ltb_spec n 0) as [Hneg|Hpos].
    + rewrite removelast_last. exists r0, (Z.lor x0 0x80).
      assert (Z.lor x0 0x80 = x0 + 128) as Hor by (apply (lor_low_high x0 1 7); lia).
      rewrite Hor. split_and!; [done|done|unfold is_u8; lia|done| | |].
      * replace ((x0 + 128) mod 128) with x0 by zdm. lia.
      * rewrite (proj2 (Z.ltb_ge _ _)), (proj2 (Z.ltb_ge _ _)) by lia. done.
      * intros Hm. zdm.
    + exists r0, x0. split_and!; [done|done|unfold is_u8; lia|done| | |].
      * rewrite Z.mod_small by lia. lia.
      * rewrite (proj2 (Z.ltb_lt _ _)), (proj2 (Z.ltb_lt _ _)) by lia. done.
      * intros Hm. rewrite Z.mod_small in Hm; lia.
  - assert (size r0 <= 6) as Hs6.
    { assert (size r0 <= 7) as H7 by (unfold size; lia). destruct (decide (size r0 = 7)) as [E|]; [|unfold size in *; lia].
      rewrite E in *. change (256 ^ 7) with (2 ^ 56) in *. lia. }
    exists (r0 ++ [x0]), (if n <? 0 then 0x80 else 0). split_and!.
    + done.
    + apply Forall_app. split; [done|]. apply Forall_singleton. unfold is_u8. lia.
    + unfold is_u8. destruct (n <? 0); lia.
    + unfold size in *. rewrite length_app. simpl. lia.
    + rewrite le_value_app. cbn [le_value]. fold (size r0). destruct (n <? 0); [change (0x80 mod 128) with 0|change (0 mod 128) with 0]; lia.
    + destruct (Z.ltb_spec n 0); symmetry; [apply Z.ltb_ge|apply Z.ltb_lt]; lia.
    + intros _. rewrite back_snoc. split; [by destruct r0|lia].
Qed.

Lemma set_vch_serialize n : - 2 ^ 63 < n < 2 ^ 63 -> set_vch (serialize n) = n.
Proof.
  intros Hn. destruct (decide (n = 0)) as [->|Hz]; [done|].
  destruct (serialize_shape n Hn Hz) as (l & t & -> & Hl & Ht & Hs & Hv & Hsign & _).
  rewrite set_vch_snoc by done. rewrite Hsign. unfold is_u8 in Ht. change (2 ^ 8) with 256 in Ht.
  destruct (Z.ltb_spec 0 n) as [H0|H0].
  - apply Z.ltb_lt in Hsign. rewrite Z.mod_small in Hv; lia.
  - apply Z.ltb_ge in Hsign. replace (t mod 128) with (t - 128) in Hv by zdm. lia.
Qed.

(** Equal values in canonical shape are equal byte strings. *)
Lemma serialize_set_vch l t :
  is_bytes l -> is_u8 t -> size l <= 7 ->
  (t mod 128 = 0 -> l <> [] /\ 128 <= back_byte l) ->
  serialize (set_vch (l ++ [t])) = l ++ [t].
Proof.
  intros Hl Ht Hs Hmin. rewrite set_vch_snoc by done. unfold is_u8 in Ht. change (2 ^ 8) with 256 in Ht.
  set (mag := le_value l + 256 ^ size l * (t mod 128)).
  pose proof (le_value_range l Hl) as Hv. fold (size l) in Hv.
  assert (0 < 256 ^ size l) as Hp by (apply Z.pow_pos_nonneg; unfold size; lia).
  assert (256 ^ size l <= 2 ^ 56) by (change (2 ^ 56) with (256 ^ 7); apply Z.pow_le_mono_r; lia).
  pose proof (Z.mod_pos_bound t 128) as Hm.
  assert ((if t <? 128 then le_value l + 256 ^ size l * t else - (le_value l + 256 ^ size l * (t - 128)))
          = if t <? 128 then mag else - mag) as ->.
  { unfold mag. destruct (Z.ltb_spec t 128); [by rewrite Z.mod_small by lia|].
    by replace (t mod 128) with (t - 128) by zdm. }
  assert (0 < mag < 2 ^ 63) as Hmag.
  { unfold mag. split; [|nia]. destruct (decide (t mod 128 = 0)) as [E|E]; [|nia].
    destruct (Hmin E) as [Hne Hback]. rewrite E. enough (le_value l <> 0) by lia. intros Hz.
    pose proof (abs_bytes_of_value 8 l Hl) as Ha. rewrite Hz in Ha. cbn in Ha.
    unfold size in Hs. rewrite <- Ha in Hne; [done|lia|lia]. }
  unfold serialize. rewrite (proj2 (Z.eqb_neq _ 0)) by (destruct (t <? 128); lia).
  assert (((if t <? 128 then mag else - mag) <? 0) = negb (t <? 128)) as ->
    by (destruct (t <? 128); cbn [negb]; [apply Z.ltb_ge|apply Z.ltb_lt]; lia).
  replace (u64 (if negb (t <? 128) then - (if t <? 128 then mag else - mag) else if t <? 128 then mag else - mag))
    with mag by (destruct (t <? 128); cbn [negb]; rewrite u64_id by (unfold is_u64; lia); lia).
  destruct (decide (t mod 128 = 0)) as [E|E].
  - destruct (Hmin E) as [Hne Hback].
    assert (abs_bytes 8 mag = l) as ->.
    { unfold mag. rewrite E, Z.mul_0_r, Z.add_0_r. apply abs_bytes_of_value; [done|unfold size in *; lia|lia]. }
    assert (is_u8 (back_byte l)) as Hub.
    { destruct l as [|x l] using rev_ind; [done|]. rewrite back_snoc. apply Forall_app in Hl as [_ Hx].
      by rewrite Forall_singleton in Hx. }
    rewrite (proj1 (byte_sign _ Hub)), (proj2 (Z.ltb_ge _ _)) by lia. cbn [negb]. do 2 f_equal.
    destruct (Z.ltb_spec t 128); cbn [negb]; zdm.
  - assert (abs_bytes 8 mag = l ++ [t mod 128]) as ->.
    { unfold mag. replace (le_value l + 256 ^ size l * (t mod 128)) with (le_value (l ++ [t mod 128])).
      - apply abs_bytes_of_value; [apply Forall_app; split; [done|apply Forall_singleton; unfold is_u8; lia]| |].
        + rewrite length_app. unfold size in *. simpl. lia.
        + intros _. by rewrite back_snoc.
      - rewrite le_value_app. cbn [le_value]. fold (size l). lia. }
    rewrite back_snoc. destruct (byte_sign (t mod 128)) as [-> _]; [unfold is_u8; lia|].
    rewrite (proj2 (Z.ltb_lt _ _)) by lia. cbn [negb].
    destruct (Z.ltb_spec t 128); cbn [negb]; [by rewrite Z.mod_small by lia|].
    rewrite removelast_last. do 2 f_equal.
    transitivity (t mod 128 + 2 ^ 7 * 1); [|zdm]. apply (lor_low_high (t mod 128) 1 7); lia.
Qed.

(** ** Parsing facts *)

(** [GetOp2] always advances, and never past the end. *)
Lemma GetOp2_progress pc opcode data pc' :
  GetOp2 pc = Some (opcode, data, pc') -> (length pc' < length pc)%nat /\ (length data <= length pc)%nat.
Proof.
  destruct pc as [|op pc]; [done|]. cbn [GetOp2].
  destruct (op <=? OP_PUSHDATA4); [|intros [= <- <- <-]; simpl; lia].
  intros H. apply bind_Some in H as ([nSize pc1] & H1 & H2).
  assert (length pc1 <= length pc)%nat as Hle.
  { repeat case_match; simplify_eq; rewrite ?length_drop; lia. }
  destruct (size pc1 <? nSize); [done|]. injection H2 as <- <- <-.
  rewrite length_drop, length_take. cbn [length]. lia.
Qed.

Lemma GetOp2_bytes pc opcode data pc' :
  is_bytes pc -> GetOp2 pc = Some (opcode, data, pc') ->
  is_u8 opcode /\ is_bytes data /\ is_bytes pc'.
Proof.
  intros Hpc. destruct pc as [|op pc]; [done|]. inversion_clear Hpc. cbn [GetOp2].
  destruct (op <=? OP_PUSHDATA4); [|intros [= <- <- <-]; split_and!; [done|constructor|done]].
  intros E. apply bind_Some in E as ([nSize pc1] & H1 & H2).
  assert (is_bytes pc1) as Hb by (repeat case_match; simplify_eq; unfold is_bytes; auto using Forall_drop).
  destruct (size pc1 <? nSize); [done|]. injection H2 as <- <- <-.
  split_and!; [done|by apply Forall_take|by apply Forall_drop].
Qed.

(** The push data follows the size prefix, whatever its width. *)
Lemma GetOp2_data (op nSize : Z) (b rest : list Z) :
  nSize = size b -> op <= OP_PUSHDATA4 -> forall pc,
  (if op <? OP_PUSHDATA1 then Some (op, pc)
   else if op =? OP_PUSHDATA1 then if size pc <? 1 then None else Some (at_byte pc 0, drop 1 pc)
   else if op =? OP_PUSHDATA2 then if size pc <? 2 then None else Some (ReadLE16 pc, drop 2 pc)
   else if size pc <? 4 then None else Some (ReadLE32 pc, drop 4 pc)) = Some (nSize, b ++ rest) ->
  GetOp2 (op :: pc) = Some (op, b, rest).
Proof.
  intros -> Hop pc E. cbn [GetOp2]. rewrite (proj2 (Z.leb_le _ _)) by done. rewrite E. monad.
  unfold size. rewrite length_app, (proj2 (Z.ltb_ge _ _)) by lia. rewrite Nat2Z.id.
  by rewrite take_app_length, drop_app_length.
Qed.

Lemma GetOp2_push b rest :
  size b < 2 ^ 32 -> exists op, GetOp2 (push_vector b ++ rest) = Some (op, b, rest) /\ op <= OP_PUSHDATA4.
Proof.
  intros Hs. assert (0 <= size b) by (unfold size; lia). unfold push_vector, OP_PUSHDATA1.
  destruct (Z.ltb_spec (size b) 0x4c) as [H1|H1].
  { exists (size b). rewrite u8_id by (unfold is_u8; lia). cbn [app].
    split; [|unfold OP_PUSHDATA4; lia]. apply (GetOp2_data _ (size b)); [done|unfold OP_PUSHDATA4; lia|].
    unfold OP_PUSHDATA1. by rewrite (proj2 (Z.ltb_lt _ _)). }
  destruct (Z.leb_spec (size b) 0xff) as [H2|H2].
  { exists OP_PUSHDATA1. rewrite u8_id by (unfold is_u8; lia). cbn [app].
    split; [|done]. apply (GetOp2_data OP_PUSHDATA1 (size b)); [done..|].
    change (OP_PUSHDATA1 <? OP_PUSHDATA1) with false. change (OP_PUSHDATA1 =? OP_PUSHDATA1) with true. cbv iota.
    unfold size at 1. cbn [length]. rewrite (proj2 (Z.ltb_ge _ _)) by lia. done. }
  destruct (Z.leb_spec (size b) 0xffff) as [H3|H3].
  - exists OP_PUSHDATA2. split; [|done]. cbn [app]. rewrite <- (assoc_L (++)).
    apply (GetOp2_data OP_PUSHDATA2 (size b)); [done..|]. unfold WriteLE16, ReadLE16.
    change (OP_PUSHDATA2 <? OP_PUSHDATA1) with false. change (OP_PUSHDATA2 =? OP_PUSHDATA1) with false.
    change (OP_PUSHDATA2 =? OP_PUSHDATA2) with true. cbv iota.
    pose proof (length_le_bytes 2 (size b)) as Hl.
    rewrite take_app_length', drop_app_length' by done. rewrite le_value_bytes.
    rewrite Z.mod_small by (change (256 ^ Z.of_nat 2) with 65536; lia).
    unfold size at 1. rewrite length_app, Hl, (proj2 (Z.ltb_ge _ _)) by lia. done.
  - exists OP_PUSHDATA4. split; [|done]. cbn [app]. rewrite <- (assoc_L (++)).
    apply (GetOp2_data OP_PUSHDATA4 (size b)); [done..|]. unfold WriteLE32, ReadLE32.
    change (OP_PUSHDATA4 <? OP_PUSHDATA1) with false. change (OP_PUSHDATA4 =? OP_PUSHDATA1) with false.
    change (OP_PUSHDATA4 =? OP_PUSHDATA2) with false. cbv iota.
    pose proof (length_le_bytes 4 (size b)) as Hl.
    rewrite take_app_length', drop_app_length' by done. rewrite le_value_bytes.
    rewrite Z.mod_small by (change (256 ^ Z.of_nat 4) with (2 ^ 32); lia).
    unfold size at 1. rewrite length_app, Hl, (proj2 (Z.ltb_ge _ _)) by lia. done.
Qed.

(** ** Properties *)

(** With minimal encoding required, script numbers and their encodings
    correspond one to one: a vector of at most [nMaxNumSize <= 8] bytes is
    accepted as the number [n] exactly when it is [CScriptNum::serialize(n)]. *)
Lemma ScriptNum_canonical (vch : list Z) (nMaxNumSize n : Z)
  (Hb : is_bytes vch) (Hmax : nMaxNumSize <= 8) (Hn : - 2 ^ 63 < n < 2 ^ 63) :
  CScriptNum_of_vch vch true nMaxNumSize = inr n <->
  vch = serialize n /\ size vch <= nMaxNumSize.
Proof.
  unfold CScriptNum_of_vch. rewrite Z.gtb_ltb. destruct (Z.ltb_spec nMaxNumSize (size vch)) as [|Hle].
  { split; [done|]. intros [_ ?]. lia. }
  cbn [andb]. destruct vch as [|t l _] using rev_ind.
  { cbn. split.
    - intros [= <-]. split; [done|exact Hle].
    - intros [He _]. destruct (decide (n = 0)) as [->|Hz]; [done|].
      destruct (serialize_shape n Hn Hz) as (l & t & E & _). rewrite E in He. by destruct l. }
  rewrite back_snoc. apply Forall_app in Hb as [Hl Ht]. rewrite Forall_singleton in Ht.
  rewrite (proj2 (byte_sign t Ht)).
  assert (size (l ++ [t]) = size l + 1) as Hsz by (unfold size; rewrite length_app; simpl; lia).
  assert (0 <= size l) by (unfold size; lia).
  rewrite Hsz in *. rewrite Z.gtb_ltb, (proj2 (Z.ltb_lt 0 _)) by lia. cbn [andb].
  assert (l <> [] -> at_byte (l ++ [t]) (length (l ++ [t]) - 2) = back_byte l /\ is_u8 (back_byte l)) as Hat.
  { intros Hne. destruct l as [|x l _] using rev_ind; [done|]. rewrite back_snoc.
    apply Forall_app in Hl as [_ Hx]. rewrite Forall_singleton in Hx. split; [|done].
    unfold at_byte. rewrite !length_app, <- (assoc_L (++)). cbn [length app].
    replace (length l + 1 + 1 - 2)%nat with (length l) by lia. by rewrite nth_middle. }
  match goal with |- (if ?c then _ else _) = _ <-> _ => assert (c = false <-> (t mod 128 = 0 -> l <> [] /\ 128 <= back_byte l)) as Hmin end.
  { rewrite andb_false_iff, Z.eqb_neq, orb_false_iff, Z.leb_gt. destruct l as [|x l].
    - split; [|intros H1; left; intros Hz; by destruct (H1 Hz)]. intros [?|[H1 _]]; [done|].
      unfold size in H1. simpl in H1. lia.
    - destruct (Hat ltac:(done)) as [-> Hu]. rewrite (proj1 (byte_sign _ Hu)), Z.ltb_ge.
      assert (1 < size (x :: l) + 1) by (unfold size; simpl; lia).
      destruct (decide (t mod 128 = 0)); [|split; [done|by left]].
      split; [intros [?|[_ ?]] ?; done|]. intros Hi. right. split; [done|]. by apply Hi. }
  match goal with |- (if ?c then _ else _) = _ <-> _ => destruct c end.
  - split; [done|]. intros [He _]. exfalso.
    assert (n <> 0) as Hz by (intros ->; by destruct l).
    destruct (serialize_shape n Hn Hz) as (l' & t' & E & _ & _ & _ & _ & _ & Hshape).
    rewrite E in He. apply app_inj_2 in He as [-> [= ->]]; [|done].
    assert (true = false) as Habs by (by apply Hmin). done.
  - split.
    + intros [= <-]. split; [|lia]. symmetry. apply serialize_set_vch; [done|done|lia|by apply Hmin].
    + intros [-> _]. f_equal. by apply set_vch_serialize.
Qed.

Lemma ScriptNum_canonical_witness :
  CScriptNum_of_vch [0xff; 0x80] true 4 = inr (-255) /\ [0xff; 0x80] = serialize (-255) /\
  CScriptNum_of_vch [0x05; 0x00] true 4 = inl ScriptNumNonMinimal.
Proof.
  assert ([0xff; 0x80] = serialize (-255)) as E by reflexivity.
  split; [|split; [exact E|reflexivity]].
  apply (ScriptNum_canonical [0xff; 0x80] 4 (-255)).
  - repeat constructor; discriminate.
  - lia.
  - lia.
  - split; [exact E|vm_compute; discriminate].
Defined.

(** What [CScript << data] appends is parsed back by [GetOp] as one push of
    exactly that data, for every size and whatever follows it. *)
Lemma push_GetOp_roundtrip (b rest : list Z) (Hs : size b < 2 ^ 32) :
  exists op, GetOp2 (push_vector b ++ rest) = Some (op, b, rest) /\ op <= OP_PUSHDATA4.
Proof. by apply GetOp2_push. Qed.

Lemma push_GetOp_roundtrip_witness :
  exists op, GetOp2 (push_vector (replicate 300 7) ++ [OP_DROP]) = Some (op, replicate 300 7, [OP_DROP])
    /\ op <= OP_PUSHDATA4.
Proof. apply (push_GetOp_roundtrip (replicate 300 7) [OP_DROP]). vm_compute. reflexivity. Defined.

End Script.
