(* ===== verification/Interpreter.v ===== *)
(** * The script interpreter (src/script/interpreter.{h,cpp}, script_error.h)

    A stack is a list with its top at the head ([stacktop(-1)] is index 0), as is
    [vfExec].  Every early return of [EvalScript] is a [ScriptError]; exceptions
    ([scriptnum_error], an empty [popstack], [vector::at] out of range) are caught
    there and become [SCRIPT_ERR_UNKNOWN_ERROR].

    What the interpreter calls through virtual methods or other libraries is the
    record [Checker]: signature and lock-time checking, the low-S test of
    libsecp256k1 and the hash functions, with the lengths of their digests as
    the class [CheckerOk]. *)

From stdpp Require Import base list list_numbers numbers option.
From Stdlib Require Import ZArith Lia.
From S2P Require Import Prelude Bytes Script.
Import Endian Script.

Module Interpreter.

(** ** Errors (enum ScriptError) and flags *)

Inductive ScriptError :=
| SCRIPT_ERR_UNKNOWN_ERROR | SCRIPT_ERR_EVAL_FALSE | SCRIPT_ERR_OP_RETURN
| SCRIPT_ERR_SCRIPT_SIZE | SCRIPT_ERR_PUSH_SIZE | SCRIPT_ERR_OP_COUNT | SCRIPT_ERR_STACK_SIZE
| SCRIPT_ERR_SIG_COUNT | SCRIPT_ERR_PUBKEY_COUNT
| SCRIPT_ERR_VERIFY | SCRIPT_ERR_EQUALVERIFY | SCRIPT_ERR_CHECKMULTISIGVERIFY
| SCRIPT_ERR_CHECKSIGVERIFY | SCRIPT_ERR_NUMEQUALVERIFY
| SCRIPT_ERR_BAD_OPCODE | SCRIPT_ERR_DISABLED_OPCODE | SCRIPT_ERR_INVALID_STACK_OPERATION
| SCRIPT_ERR_INVALID_ALTSTACK_OPERATION | SCRIPT_ERR_UNBALANCED_CONDITIONAL
| SCRIPT_ERR_NEGATIVE_LOCKTIME | SCRIPT_ERR_UNSATISFIED_LOCKTIME
| SCRIPT_ERR_SIG_HASHTYPE | SCRIPT_ERR_SIG_DER | SCRIPT_ERR_MINIMALDATA | SCRIPT_ERR_SIG_PUSHONLY
| SCRIPT_ERR_SIG_HIGH_S | SCRIPT_ERR_SIG_NULLDUMMY | SCRIPT_ERR_PUBKEYTYPE | SCRIPT_ERR_CLEANSTACK
| SCRIPT_ERR_DISCOURAGE_UPGRADABLE_NOPS.

#[global] Instance ScriptError_dec : EqDecision ScriptError.
Proof. solve_decision. Defined.

Definition SIGHASH_ALL : Z := 1.
Definition SIGHASH_NONE : Z := 2.
Definition SIGHASH_SINGLE : Z := 3.
Definition SIGHASH_ANYONECANPAY : Z := 0x80.

Definition SCRIPT_VERIFY_NONE : Z := 0.
Definition SCRIPT_VERIFY_P2SH : Z := Z.shiftl 1 0.
Definition SCRIPT_VERIFY_STRICTENC : Z := Z.shiftl 1 1.
Definition SCRIPT_VERIFY_LOW_S : Z := Z.shiftl 1 3.
Definition SCRIPT_VERIFY_NULLDUMMY : Z := Z.shiftl 1 4.
Definition SCRIPT_VERIFY_SIGPUSHONLY : Z := Z.shiftl 1 5.
Definition SCRIPT_VERIFY_MINIMALDATA : Z := Z.shiftl 1 6.
Definition SCRIPT_VERIFY_DISCOURAGE_UPGRADABLE_NOPS : Z := Z.shiftl 1 7.
Definition SCRIPT_VERIFY_CLEANSTACK : Z := Z.shiftl 1 8.
Definition SCRIPT_VERIFY_CHECKLOCKTIMEVERIFY : Z := Z.shiftl 1 9.

(** [flags & f] as a condition *)
Definition has (flags f : Z) : bool := negb (Z.land flags f =? 0).

(** The interpreter's dependencies. *)
Record Checker := {
  CheckSig : list Z -> list Z -> list Z -> Z -> bool;  (* sig, pubkey, scriptCode, branch id *)
  CheckLockTime : Z -> bool;
  CheckLowS : list Z -> bool;
  RIPEMD160 : list Z -> list Z;
  SHA1 : list Z -> list Z;
  SHA256 : list Z -> list Z;
  HASH160 : list Z -> list Z;
  HASH256 : list Z -> list Z
}.

Class CheckerOk (c : Checker) : Prop := {
  RIPEMD160_len v : length (RIPEMD160 c v) = 20%nat;
  SHA1_len v : length (SHA1 c v) = 20%nat;
  SHA256_len v : length (SHA256 c v) = 32%nat;
  HASH160_len v : length (HASH160 c v) = 20%nat;
  HASH256_len v : length (HASH256 c v) = 32%nat
}.

(** ** Early returns *)

Notation "'let?' x ':=' m 'in' k" :=
  (match m with inl e => inl e | inr x => k end)
  (at level 10, x name, m at level 100, k at level 200).

(** [if (c) return set_error(serror, e);] *)
Notation "'fail_if' c 'with' e ';;' k" := (if c then inl e else k)
  (at level 10, c at level 100, e at level 99, k at level 200).

(** ** Encodings *)

Fixpoint CastToBool (vch : list Z) : bool :=
  match vch with
  | [] => false
  | b :: vch' =>
      if negb (b =? 0) then
        (* Can be negative zero *)
        match vch' with [] => if b =? 0x80 then false else true | _ => true end
      else CastToBool vch'
  end.

Definition IsCompressedOrUncompressedPubKey (vchPubKey : list Z) : bool :=
  if size vchPubKey <? 33 then false
  else if at_byte vchPubKey 0 =? 0x04 then
    if negb (size vchPubKey =? 65) then false else true
  else if (at_byte vchPubKey 0 =? 0x02) || (at_byte vchPubKey 0 =? 0x03) then
    if negb (size vchPubKey =? 33) then false else true
  else false.

Definition IsValidSignatureEncoding (sig : list Z) : bool :=
  if size sig <? 9 then false else
  if size sig >? 73 then false else
  if negb (at_byte sig 0 =? 0x30) then false else
  if negb (at_byte sig 1 =? size sig - 3) then false else
  let lenR := at_byte sig 3 in
  if 5 + lenR >=? size sig then false else
  let lenS := at_byte sig (5 + Z.to_nat lenR) in
  if negb (lenR + lenS + 7 =? size sig) then false else
  if negb (at_byte sig 2 =? 0x02) then false else
  if lenR =? 0 then false else
  if negb (Z.land (at_byte sig 4) 0x80 =? 0) then false else
  if (lenR >? 1) && (at_byte sig 4 =? 0x00) && (Z.land (at_byte sig 5) 0x80 =? 0) then false else
  if negb (at_byte sig (Z.to_nat lenR + 4) =? 0x02) then false else
  if lenS =? 0 then false else
  if negb (Z.land (at_byte sig (Z.to_nat lenR + 6)) 0x80 =? 0) then false else
  if (lenS >? 1) && (at_byte sig (Z.to_nat lenR + 6) =? 0x00)
     && (Z.land (at_byte sig (Z.to_nat lenR + 7)) 0x80 =? 0) then false
  else true.

Definition IsDefinedHashtypeSignature (vchSig : list Z) : bool :=
  if size vchSig =? 0 then false
  else
    let nHashType := u8 (Z.land (back_byte vchSig) (Z.lnot SIGHASH_ANYONECANPAY)) in
    if (nHashType <? SIGHASH_ALL) || (nHashType >? SIGHASH_SINGLE) then false else true.

(** Checks that set [serror] on failure, or leave it at the
    [SCRIPT_ERR_UNKNOWN_ERROR] it starts with. *)
Definition check : Type := ScriptError + unit.

Definition IsLowDERSignature (c : Checker) (vchSig : list Z) : check :=
  if negb (IsValidSignatureEncoding vchSig) then inl SCRIPT_ERR_SIG_DER
  else if CheckLowS c (removelast vchSig) then inr tt
  else inl SCRIPT_ERR_UNKNOWN_ERROR.

Definition CheckSignatureEncoding (c : Checker) (vchSig : list Z) (flags : Z) : check :=
  if size vchSig =? 0 then inr tt
  else if negb (IsValidSignatureEncoding vchSig) then inl SCRIPT_ERR_SIG_DER
  else let? _ := (if has flags SCRIPT_VERIFY_LOW_S then IsLowDERSignature c vchSig else inr tt) in
  if has flags SCRIPT_VERIFY_STRICTENC && negb (IsDefinedHashtypeSignature vchSig)
  then inl SCRIPT_ERR_SIG_HASHTYPE else inr tt.

Definition CheckPubKeyEncoding (vchPubKey : list Z) (flags : Z) : check :=
  if has flags SCRIPT_VERIFY_STRICTENC && negb (IsCompressedOrUncompressedPubKey vchPubKey)
  then inl SCRIPT_ERR_PUBKEYTYPE else inr tt.

Definition CheckMinimalPush (data : list Z) (opcode : Z) : bool :=
  if size data =? 0 then opcode =? OP_0
  else if (size data =? 1) && (at_byte data 0 >=? 1) && (at_byte data 0 <=? 16) then
    opcode =? OP_1 + (at_byte data 0 - 1)
  else if (size data =? 1) && (at_byte data 0 =? 0x81) then opcode =? OP_1NEGATE
  else if size data <=? 75 then opcode =? size data
  else if size data <=? 255 then opcode =? OP_PUSHDATA1
  else if size data <=? 65535 then opcode =? OP_PUSHDATA2
  else true.

(** ** Evaluation state: the local variables of [EvalScript] *)

Record eval_state := {
  stack : list (list Z);
  altstack : list (list Z);
  vfExec : list bool;
  nOpCount : Z
}.

Definition with_stack (st : eval_state) (s : list (list Z)) : eval_state :=
  {| stack := s; altstack := altstack st; vfExec := vfExec st; nOpCount := nOpCount st |}.

Definition outcome : Type := ScriptError + eval_state.
Definition vchFalse : list Z := [].
Definition vchTrue : list Z := [1].
Definition of_bool (b : bool) : list Z := if b then vchTrue else vchFalse.

Section eval.
Context (c : Checker) (script : list Z) (flags consensusBranchId : Z).
Let fRequireMinimal : bool := has flags SCRIPT_VERIFY_MINIMALDATA.

(** [CScriptNum(vch, fRequireMinimal, n)]; the exception is caught. *)
Definition num (vch : list Z) (nMaxNumSize : Z) : ScriptError + Z :=
  match CScriptNum_of_vch vch fRequireMinimal nMaxNumSize with
  | inl _ => inl SCRIPT_ERR_UNKNOWN_ERROR
  | inr n => inr n
  end.

Definition pop (st : eval_state) (k : nat) (push : list (list Z)) : outcome :=
  inr (with_stack st (push ++ drop k (stack st))).

(** *** OP_CHECKLOCKTIMEVERIFY and the upgradable NOPs *)
Definition exec_nops (opcode : Z) (st : eval_state) : outcome :=
  if opcode =? OP_CHECKLOCKTIMEVERIFY then
    if negb (has flags SCRIPT_VERIFY_CHECKLOCKTIMEVERIFY) then
      if has flags SCRIPT_VERIFY_DISCOURAGE_UPGRADABLE_NOPS
      then inl SCRIPT_ERR_DISCOURAGE_UPGRADABLE_NOPS else inr st
    else match stack st with
         | [] => inl SCRIPT_ERR_INVALID_STACK_OPERATION
         | top :: _ =>
             let? nLockTime := num top 5 in
             if nLockTime <? 0 then inl SCRIPT_ERR_NEGATIVE_LOCKTIME
             else if negb (CheckLockTime c nLockTime) then inl SCRIPT_ERR_UNSATISFIED_LOCKTIME
             else inr st
         end
  else if has flags SCRIPT_VERIFY_DISCOURAGE_UPGRADABLE_NOPS
  then inl SCRIPT_ERR_DISCOURAGE_UPGRADABLE_NOPS else inr st.

(** *** Control flow *)
Definition exec_control (fExec : bool) (opcode : Z) (st : eval_state) : outcome :=
  if (opcode =? OP_IF) || (opcode =? OP_NOTIF) then
    if fExec then
      match stack st with
      | [] => inl SCRIPT_ERR_UNBALANCED_CONDITIONAL
      | vch :: s =>
          let fValue := CastToBool vch in
          let fValue := if opcode =? OP_NOTIF then negb fValue else fValue in
          inr {| stack := s; altstack := altstack st; vfExec := fValue :: vfExec st;
                 nOpCount := nOpCount st |}
      end
    else inr {| stack := stack st; altstack := altstack st; vfExec := false :: vfExec st;
                nOpCount := nOpCount st |}
  else if opcode =? OP_ELSE then
    match vfExec st with
    | [] => inl SCRIPT_ERR_UNBALANCED_CONDITIONAL
    | f :: r => inr {| stack := stack st; altstack := altstack st; vfExec := negb f :: r;
                       nOpCount := nOpCount st |}
    end
  else if opcode =? OP_ENDIF then
    match vfExec st with
    | [] => inl SCRIPT_ERR_UNBALANCED_CONDITIONAL
    | _ :: r => inr {| stack := stack st; altstack := altstack st; vfExec := r;
                       nOpCount := nOpCount st |}
    end
  else if opcode =? OP_VERIFY then
    match stack st with
    | [] => inl SCRIPT_ERR_INVALID_STACK_OPERATION
    | vch :: s => if CastToBool vch then inr (with_stack st s) else inl SCRIPT_ERR_VERIFY
    end
  else (* OP_RETURN *) inl SCRIPT_ERR_OP_RETURN.

(** *** Stack operations *)
Definition exec_stack (opcode : Z) (st : eval_state) : outcome :=
  let bad := inl SCRIPT_ERR_INVALID_STACK_OPERATION in
  if opcode =? OP_TOALTSTACK then
    match stack st with
    | a :: s => inr {| stack := s; altstack := a :: altstack st; vfExec := vfExec st; nOpCount := nOpCount st |}
    | _ => bad
    end
  else if opcode =? OP_FROMALTSTACK then
    match altstack st with
    | a :: s => inr {| stack := a :: stack st; altstack := s; vfExec := vfExec st; nOpCount := nOpCount st |}
    | _ => inl SCRIPT_ERR_INVALID_ALTSTACK_OPERATION
    end
  else if opcode =? OP_2DROP then
    match stack st with _ :: _ :: s => inr (with_stack st s) | _ => bad end
  else if opcode =? OP_2DUP then
    match stack st with b :: a :: s => inr (with_stack st (b :: a :: b :: a :: s)) | _ => bad end
  else if opcode =? OP_3DUP then
    match stack st with
    | d :: b :: a :: s => inr (with_stack st (d :: b :: a :: d :: b :: a :: s)) | _ => bad end
  else if opcode =? OP_2OVER then
    match stack st with
    | x4 :: x3 :: x2 :: x1 :: s => inr (with_stack st (x2 :: x1 :: x4 :: x3 :: x2 :: x1 :: s)) | _ => bad end
  else if opcode =? OP_2ROT then
    match stack st with
    | x6 :: x5 :: x4 :: x3 :: x2 :: x1 :: s => inr (with_stack st (x2 :: x1 :: x6 :: x5 :: x4 :: x3 :: s))
    | _ => bad end
  else if opcode =? OP_2SWAP then
    match stack st with
    | x4 :: x3 :: x2 :: x1 :: s => inr (with_stack st (x2 :: x1 :: x4 :: x3 :: s)) | _ => bad end
  else if opcode =? OP_IFDUP then
    match stack st with
    | a :: s => inr (if CastToBool a then with_stack st (a :: a :: s) else st) | _ => bad end
  else if opcode =? OP_DEPTH then
    inr (with_stack st (serialize (Z.of_nat (length (stack st))) :: stack st))
  else if opcode =? OP_DROP then
    match stack st with _ :: s => inr (with_stack st s) | _ => bad end
  else if opcode =? OP_DUP then
    match stack st with a :: s => inr (with_stack st (a :: a :: s)) | _ => bad end
  else if opcode =? OP_NIP then
    match stack st with b :: _ :: s => inr (with_stack st (b :: s)) | _ => bad end
  else if opcode =? OP_OVER then
    match stack st with b :: a :: s => inr (with_stack st (a :: b :: a :: s)) | _ => bad end
  else if (opcode =? OP_PICK) || (opcode =? OP_ROLL) then
    match stack st with
    | top :: ((_ :: _) as s) =>
        let? n := num top nDefaultMaxNumSize in
        let n := getint n in
        if (n <? 0) || (n >=? Z.of_nat (length s)) then bad
        else match s !! Z.to_nat n with
             | None => inl SCRIPT_ERR_UNKNOWN_ERROR
             | Some vch =>
                 inr (with_stack st (vch :: (if opcode =? OP_ROLL then delete (Z.to_nat n) s else s)))
             end
    | _ => bad
    end
  else if opcode =? OP_ROT then
    match stack st with
    | x3 :: x2 :: x1 :: s => inr (with_stack st (x1 :: x3 :: x2 :: s)) | _ => bad end
  else if opcode =? OP_SWAP then
    match stack st with x2 :: x1 :: s => inr (with_stack st (x1 :: x2 :: s)) | _ => bad end
  else if opcode =? OP_TUCK then
    match stack st with x2 :: x1 :: s => inr (with_stack st (x2 :: x1 :: x2 :: s)) | _ => bad end
  else (* OP_SIZE *)
    match stack st with a :: s => inr (with_stack st (serialize (size a) :: a :: s)) | _ => bad end.

(** *** Equality and arithmetic *)
Definition exec_equal (opcode : Z) (st : eval_state) : outcome :=
  match stack st with
  | vch2 :: vch1 :: s =>
      let fEqual := bool_decide (vch1 = vch2) in
      if opcode =? OP_EQUALVERIFY then
        if fEqual then inr (with_stack st s) else inl SCRIPT_ERR_EQUALVERIFY
      else inr (with_stack st (of_bool fEqual :: s))
  | _ => inl SCRIPT_ERR_INVALID_STACK_OPERATION
  end.

Definition b2z (b : bool) : Z := if b then 1 else 0.

Definition unary_value (opcode bn : Z) : Z :=
  if opcode =? OP_1ADD then bn + 1
  else if opcode =? OP_1SUB then bn - 1
  else if opcode =? OP_NEGATE then - bn
  else if opcode =? OP_ABS then (if bn <? 0 then - bn else bn)
  else if opcode =? OP_NOT then b2z (bn =? 0)
  else (* OP_0NOTEQUAL *) b2z (negb (bn =? 0)).

Definition exec_unary (opcode : Z) (st : eval_state) : outcome :=
  match stack st with
  | top :: s =>
      let? bn := num top nDefaultMaxNumSize in
      inr (with_stack st (serialize (unary_value opcode bn) :: s))
  | _ => inl SCRIPT_ERR_INVALID_STACK_OPERATION
  end.

Definition binary_value (opcode bn1 bn2 : Z) : Z :=
  if opcode =? OP_ADD then bn1 + bn2
  else if opcode =? OP_SUB then bn1 - bn2
  else if opcode =? OP_BOOLAND then b2z (negb (bn1 =? 0) && negb (bn2 =? 0))
  else if opcode =? OP_BOOLOR then b2z (negb (bn1 =? 0) || negb (bn2 =? 0))
  else if opcode =? OP_NUMEQUAL then b2z (bn1 =? bn2)
  else if opcode =? OP_NUMEQUALVERIFY then b2z (bn1 =? bn2)
  else if opcode =? OP_NUMNOTEQUAL then b2z (negb (bn1 =? bn2))
  else if opcode =? OP_LESSTHAN then b2z (bn1 <? bn2)
  else if opcode =? OP_GREATERTHAN then b2z (bn1 >? bn2)
  else if opcode =? OP_LESSTHANOREQUAL then b2z (bn1 <=? bn2)
  else if opcode =? OP_GREATERTHANOREQUAL then b2z (bn1 >=? bn2)
  else if opcode =? OP_MIN then (if bn1 <? bn2 then bn1 else bn2)
  else (* OP_MAX *) (if bn1 >? bn2 then bn1 else bn2).

Definition exec_binary (opcode : Z) (st : eval_state) : outcome :=
  match stack st with
  | top :: next :: s =>
      let? bn1 := num next nDefaultMaxNumSize in
      let? bn2 := num top nDefaultMaxNumSize in
      let v := serialize (binary_value opcode bn1 bn2) in
      if opcode =? OP_NUMEQUALVERIFY then
        if CastToBool v then inr (with_stack st s) else inl SCRIPT_ERR_NUMEQUALVERIFY
      else inr (with_stack st (v :: s))
  | _ => inl SCRIPT_ERR_INVALID_STACK_OPERATION
  end.

Definition exec_within (st : eval_state) : outcome :=
  match stack st with
  | v3 :: v2 :: v1 :: s =>
      let? bn1 := num v1 nDefaultMaxNumSize in
      let? bn2 := num v2 nDefaultMaxNumSize in
      let? bn3 := num v3 nDefaultMaxNumSize in
      inr (with_stack st (of_bool ((bn2 <=? bn1) && (bn1 <? bn3)) :: s))
  | _ => inl SCRIPT_ERR_INVALID_STACK_OPERATION
  end.

(** *** Crypto *)
Definition exec_hash (opcode : Z) (st : eval_state) : outcome :=
  match stack st with
  | vch :: s =>
      let vchHash :=
        if opcode =? OP_RIPEMD160 then RIPEMD160 c vch
        else if opcode =? OP_SHA1 then SHA1 c vch
        else if opcode =? OP_SHA256 then SHA256 c vch
        else if opcode =? OP_HASH160 then HASH160 c vch
        else (* OP_HASH256 *) HASH256 c vch in
      inr (with_stack st (vchHash :: s))
  | _ => inl SCRIPT_ERR_INVALID_STACK_OPERATION
  end.

(** The two encoding checks and the signature check of a (sig, key) pair. *)
Definition check_sig (vchSig vchPubKey : list Z) : ScriptError + bool :=
  let? _ := CheckSignatureEncoding c vchSig flags in
  let? _ := CheckPubKeyEncoding vchPubKey flags in
  inr (CheckSig c vchSig vchPubKey script consensusBranchId).

Definition exec_checksig (opcode : Z) (st : eval_state) : outcome :=
  match stack st with
  | vchPubKey :: vchSig :: s =>
      let? fSuccess := check_sig vchSig vchPubKey in
      if opcode =? OP_CHECKSIGVERIFY then
        if fSuccess then inr (with_stack st s) else inl SCRIPT_ERR_CHECKSIGVERIFY
      else inr (with_stack st (of_bool fSuccess :: s))
  | _ => inl SCRIPT_ERR_INVALID_STACK_OPERATION
  end.

(** [while (fSuccess && nSigsCount > 0)]; [isig] and [ikey] are the positions
    of the current signature and key below the top.  Every turn uses up a key,
    so [fuel] turns are enough for [fuel] keys. *)
Fixpoint multisig_loop (fuel : nat) (s : list (list Z)) (isig ikey : nat)
  (nSigsCount nKeysCount : Z) : ScriptError + bool :=
  if nSigsCount >? 0 then
    match fuel, s !! (isig - 1)%nat, s !! (ikey - 1)%nat with
    | S f, Some vchSig, Some vchPubKey =>
        let? fOk := check_sig vchSig vchPubKey in
        let isig := if fOk then S isig else isig in
        let nSigsCount := if fOk then nSigsCount - 1 else nSigsCount in
        let ikey := S ikey in
        let nKeysCount := nKeysCount - 1 in
        if nSigsCount >? nKeysCount then inr false
        else multisig_loop f s isig ikey nSigsCount nKeysCount
    | _, _, _ => inl SCRIPT_ERR_UNKNOWN_ERROR
    end
  else inr true.

Definition exec_checkmultisig (opcode : Z) (st : eval_state) : outcome :=
  let s := stack st in
  let len := Z.of_nat (length s) in
  match s !! 0%nat with
  | None => inl SCRIPT_ERR_INVALID_STACK_OPERATION
  | Some vchKeys =>
    let? n := num vchKeys nDefaultMaxNumSize in
    let nKeysCount := getint n in
    fail_if (nKeysCount <? 0) || (nKeysCount >? 20) with SCRIPT_ERR_PUBKEY_COUNT ;;
    let ops := nOpCount st + nKeysCount in
    fail_if ops >? 201 with SCRIPT_ERR_OP_COUNT ;;
    let ikey := 2 in
    let i := 2 + nKeysCount in
    fail_if len <? i with SCRIPT_ERR_INVALID_STACK_OPERATION ;;
    match s !! Z.to_nat (i - 1) with
    | None => inl SCRIPT_ERR_UNKNOWN_ERROR
    | Some vchSigs =>
      let? n := num vchSigs nDefaultMaxNumSize in
      let nSigsCount := getint n in
      fail_if (nSigsCount <? 0) || (nSigsCount >? nKeysCount) with SCRIPT_ERR_SIG_COUNT ;;
      let isig := i + 1 in
      let i := i + 1 + nSigsCount in
      fail_if len <? i with SCRIPT_ERR_INVALID_STACK_OPERATION ;;
      let? fSuccess := multisig_loop (Z.to_nat nKeysCount) s (Z.to_nat isig) (Z.to_nat ikey)
                         nSigsCount nKeysCount in
      (* Clean up stack of actual arguments, then the extra one *)
      match drop (Z.to_nat (i - 1)) s with
      | [] => inl SCRIPT_ERR_INVALID_STACK_OPERATION
      | dummy :: s =>
        fail_if has flags SCRIPT_VERIFY_NULLDUMMY && negb (size dummy =? 0) with SCRIPT_ERR_SIG_NULLDUMMY ;;
        let st' r := {| stack := r; altstack := altstack st; vfExec := vfExec st; nOpCount := ops |} in
        if opcode =? OP_CHECKMULTISIGVERIFY then
          if fSuccess then inr (st' s) else inl SCRIPT_ERR_CHECKMULTISIGVERIFY
        else inr (st' (of_bool fSuccess :: s))
      end
    end
  end.

(** *** The switch *)
Definition exec_opcode (fExec : bool) (opcode : Z) (st : eval_state) : outcome :=
  if (opcode =? OP_1NEGATE) || ((OP_1 <=? opcode) && (opcode <=? OP_16)) then
    inr (with_stack st (serialize (opcode - (OP_1 - 1)) :: stack st))
  else if opcode =? OP_NOP then inr st
  else if (OP_NOP1 <=? opcode) && (opcode <=? OP_NOP10) then exec_nops opcode st
  else if (opcode =? OP_IF) || (opcode =? OP_NOTIF) || (opcode =? OP_ELSE) || (opcode =? OP_ENDIF)
          || (opcode =? OP_VERIFY) || (opcode =? OP_RETURN) then exec_control fExec opcode st
  else if ((OP_TOALTSTACK <=? opcode) && (opcode <=? OP_TUCK)) || (opcode =? OP_SIZE)
  then exec_stack opcode st
  else if (opcode =? OP_EQUAL) || (opcode =? OP_EQUALVERIFY) then exec_equal opcode st
  else if (opcode =? OP_1ADD) || (opcode =? OP_1SUB) || (opcode =? OP_NEGATE) || (opcode =? OP_ABS)
          || (opcode =? OP_NOT) || (opcode =? OP_0NOTEQUAL) then exec_unary opcode st
  else if (opcode =? OP_ADD) || (opcode =? OP_SUB) || ((OP_BOOLAND <=? opcode) && (opcode <=? OP_MAX))
  then exec_binary opcode st
  else if opcode =? OP_WITHIN then exec_within st
  else if (OP_RIPEMD160 <=? opcode) && (opcode <=? OP_HASH256) then exec_hash opcode st
  else if (opcode =? OP_CHECKSIG) || (opcode =? OP_CHECKSIGVERIFY) then exec_checksig opcode st
  else if (opcode =? OP_CHECKMULTISIG) || (opcode =? OP_CHECKMULTISIGVERIFY)
  then exec_checkmultisig opcode st
  else inl SCRIPT_ERR_BAD_OPCODE.

Definition is_disabled (opcode : Z) : bool :=
  existsb (fun o => opcode =? o)
    [OP_CAT; OP_SUBSTR; OP_LEFT; OP_RIGHT; OP_INVERT; OP_AND; OP_OR; OP_XOR; OP_2MUL; OP_2DIV;
     OP_MUL; OP_DIV; OP_MOD; OP_LSHIFT; OP_RSHIFT; OP_CODESEPARATOR].

(** One turn of the loop of [EvalScript]. *)
Definition eval_step (pc : list Z) (st : eval_state) : ScriptError + (list Z * eval_state) :=
  let fExec := forallb id (vfExec st) in
  match GetOp2 pc with
  | None => inl SCRIPT_ERR_BAD_OPCODE
  | Some (opcode, vchPushValue, pc') =>
    fail_if size vchPushValue >? MAX_SCRIPT_ELEMENT_SIZE with SCRIPT_ERR_PUSH_SIZE ;;
    let ops := if opcode >? OP_16 then nOpCount st + 1 else nOpCount st in
    fail_if (opcode >? OP_16) && (ops >? 201) with SCRIPT_ERR_OP_COUNT ;;
    let st := {| stack := stack st; altstack := altstack st; vfExec := vfExec st; nOpCount := ops |} in
    fail_if is_disabled opcode with SCRIPT_ERR_DISABLED_OPCODE ;;
    let? st := (if fExec && (0 <=? opcode) && (opcode <=? OP_PUSHDATA4) then
                  fail_if fRequireMinimal && negb (CheckMinimalPush vchPushValue opcode)
                    with SCRIPT_ERR_MINIMALDATA ;;
                  inr (with_stack st (vchPushValue :: stack st))
                else if fExec || ((OP_IF <=? opcode) && (opcode <=? OP_ENDIF))
                then exec_opcode fExec opcode st
                else inr st) in
    fail_if Z.of_nat (length (stack st)) + Z.of_nat (length (altstack st)) >? 1000
      with SCRIPT_ERR_STACK_SIZE ;;
    inr (pc', st)
  end.

(** [while (pc < pend)]; every turn consumes a byte. *)
Fixpoint eval_loop (fuel : nat) (pc : list Z) (st : eval_state) : option outcome :=
  match pc with
  | [] => Some (inr st)
  | _ =>
      match fuel with
      | O => None
      | S f =>
          match eval_step pc st with
          | inl e => Some (inl e)
          | inr (pc', st') => eval_loop f pc' st'
          end
      end
  end.
End eval.

(** [EvalScript]: the final stack, or the error. *)
Definition EvalScript (c : Checker) (stk : list (list Z)) (script : list Z)
  (flags consensusBranchId : Z) : option (ScriptError + list (list Z)) :=
  if size script >? MAX_SCRIPT_SIZE then Some (inl SCRIPT_ERR_SCRIPT_SIZE)
  else
    r ← eval_loop c script flags consensusBranchId (length script) script
          {| stack := stk; altstack := []; vfExec := []; nOpCount := 0 |};
    Some (let? st := r in
          if negb (match vfExec st with [] => true | _ => false end)
          then inl SCRIPT_ERR_UNBALANCED_CONDITIONAL else inr (stack st)).

(** [stack.empty() || !CastToBool(stack.back())] *)
Definition top_false (stk : list (list Z)) : bool :=
  match stk with [] => true | v :: _ => negb (CastToBool v) end.

(** [None] is a failed assertion. *)
Definition VerifyScript (c : Checker) (scriptSig scriptPubKey : list Z)
  (flags consensusBranchId : Z) : option check :=
  if has flags SCRIPT_VERIFY_SIGPUSHONLY && negb (IsPushOnly scriptSig)
  then Some (inl SCRIPT_ERR_SIG_PUSHONLY) else
  r1 ← EvalScript c [] scriptSig flags consensusBranchId;
  match r1 with
  | inl e => Some (inl e)
  | inr stk1 =>
    r2 ← EvalScript c stk1 scriptPubKey flags consensusBranchId;
    match r2 with
    | inl e => Some (inl e)
    | inr stk2 =>
      if top_false stk2 then Some (inl SCRIPT_ERR_EVAL_FALSE) else
      r3 ← (if has flags SCRIPT_VERIFY_P2SH && IsPayToScriptHash scriptPubKey then
              if negb (IsPushOnly scriptSig) then Some (inl SCRIPT_ERR_SIG_PUSHONLY) else
              match stk1 with
              | [] => None
              | pubKey2 :: stk =>
                  r ← EvalScript c stk pubKey2 flags consensusBranchId;
                  Some (let? stk' := r in
                        if top_false stk' then inl SCRIPT_ERR_EVAL_FALSE else inr stk')
              end
            else Some (inr stk2));
      match r3 with
      | inl e => Some (inl e)
      | inr stk3 =>
        if has flags SCRIPT_VERIFY_CLEANSTACK then
          if negb (has flags SCRIPT_VERIFY_P2SH) then None
          else if negb (length stk3 =? 1)%nat then Some (inl SCRIPT_ERR_CLEANSTACK)
          else Some (inr tt)
        else Some (inr tt)
      end
    end
  end.

(** ** Resource limits *)

(** A stack element within the push limit. *)
Definition elem_ok (v : list Z) : Prop := size v <= MAX_SCRIPT_ELEMENT_SIZE.

(** What an operation may assume and must keep. *)
Record st_ok (st : eval_state) : Prop := {
  ok_stack : Forall elem_ok (stack st);
  ok_altstack : Forall elem_ok (altstack st);
  ok_ops : 0 <= nOpCount st <= 201
}.

Lemma length_abs_bytes fuel a : (length (abs_bytes fuel a) <= fuel)%nat.
Proof.
  revert a. induction fuel as [|f IH]; intros a; cbn [abs_bytes]; [done|].
  destruct (a =? 0); simpl; [lia|]. specialize (IH (Z.shiftr a 8)). lia.
Qed.

Lemma length_serialize n : (length (serialize n) <= 9)%nat.
Proof.
  unfold serialize. pose proof (length_abs_bytes 8 (u64 (if n <? 0 then - n else n))) as Hl.
  destruct (n =? 0); [cbn [length]; lia|]. cbv zeta. generalize dependent (abs_bytes 8 (u64 (if n <? 0 then - n else n))).
  intros r Hl. destruct (negb _); [rewrite length_app; cbn [length]; lia|].
  destruct (n <? 0); [|lia]. rewrite length_app, removelast_firstn_len, length_firstn. cbn [length]. lia.
Qed.

Lemma serialize_elem n : elem_ok (serialize n).
Proof. pose proof (length_serialize n). unfold elem_ok, size, MAX_SCRIPT_ELEMENT_SIZE. lia. Qed.

Lemma of_bool_elem b : elem_ok (of_bool b).
Proof. by destruct b. Qed.

Lemma st_ok_with st s : st_ok st -> Forall elem_ok s -> st_ok (with_stack st s).
Proof. intros [? ? ?] ?. by constructor. Qed.

Create HintDb script discriminated.
#[local] Hint Resolve serialize_elem of_bool_elem st_ok_with Forall_nil_2 Forall_cons_2 ok_altstack ok_ops ok_stack : script.

(** Take an operation apart: split on its tests, keep what succeeds. *)
Ltac op_cases :=
  repeat match goal with
  | H : inl _ = inr _ |- _ => discriminate H
  | H : inr _ = inr _ |- _ => injection H as H
  | H : Forall _ (_ :: _) |- _ => inversion_clear H
  | H : context [if ?b then _ else _] |- _ => destruct b eqn:?
  | H : context [match ?x with _ => _ end] |- _ => destruct x eqn:?
  end; subst; auto 10 with script.

Section limits.
Context (c : Checker) `{!CheckerOk c} (script : list Z) (flags branch : Z).

Lemma hash_elem v opcode : elem_ok
  (if opcode =? OP_RIPEMD160 then RIPEMD160 c v
   else if opcode =? OP_SHA1 then SHA1 c v
   else if opcode =? OP_SHA256 then SHA256 c v
   else if opcode =? OP_HASH160 then HASH160 c v
   else HASH256 c v).
Proof.
  unfold elem_ok, size, MAX_SCRIPT_ELEMENT_SIZE.
  repeat case_match; rewrite ?RIPEMD160_len, ?SHA1_len, ?SHA256_len, ?HASH160_len, ?HASH256_len; lia.
Qed.

Lemma exec_nops_ok opcode st st' : st_ok st -> exec_nops c flags opcode st = inr st' -> st_ok st'.
Proof. intros Hst H. unfold exec_nops in H. op_cases. Qed.

Lemma exec_control_ok fExec opcode st st' :
  st_ok st -> exec_control fExec opcode st = inr st' -> st_ok st'.
Proof.
  intros Hst H. pose proof (ok_stack _ Hst) as Hs. unfold exec_control in H.
  op_cases; constructor; simpl; auto with script; op_cases.
Qed.

Lemma exec_equal_ok opcode st st' : st_ok st -> exec_equal opcode st = inr st' -> st_ok st'.
Proof. intros Hst H. pose proof (ok_stack _ Hst) as Hs. unfold exec_equal in H. op_cases. Qed.

Lemma exec_unary_ok opcode st st' : st_ok st -> exec_unary flags opcode st = inr st' -> st_ok st'.
Proof. intros Hst H. pose proof (ok_stack _ Hst) as Hs. unfold exec_unary in H. op_cases. Qed.

Lemma exec_binary_ok opcode st st' : st_ok st -> exec_binary flags opcode st = inr st' -> st_ok st'.
Proof. intros Hst H. pose proof (ok_stack _ Hst) as Hs. unfold exec_binary in H. op_cases. Qed.

Lemma exec_within_ok st st' : st_ok st -> exec_within flags st = inr st' -> st_ok st'.
Proof. intros Hst H. pose proof (ok_stack _ Hst) as Hs. unfold exec_within in H. op_cases. Qed.

Lemma exec_hash_ok opcode st st' : st_ok st -> exec_hash c opcode st = inr st' -> st_ok st'.
Proof.
  intros Hst. pose proof (ok_stack _ Hst) as Hs. unfold exec_hash.
  destruct (stack st) as [|v s]; [done|]. inversion_clear Hs. intros [= <-].
  apply st_ok_with; [done|]. constructor; [apply hash_elem|done].
Qed.

Lemma exec_checksig_ok opcode st st' :
  st_ok st -> exec_checksig c script flags branch opcode st = inr st' -> st_ok st'.
Proof. intros Hst H. pose proof (ok_stack _ Hst) as Hs. unfold exec_checksig in H. op_cases. Qed.

Lemma exec_stack_ok opcode st st' : st_ok st -> exec_stack flags opcode st = inr st' -> st_ok st'.
Proof.
  intros Hst H. pose proof (ok_stack _ Hst) as Hs. pose proof (ok_altstack _ Hst) as Ha.
  pose proof (ok_ops _ Hst) as Ho. unfold exec_stack in H. cbv zeta in H.
  repeat match type of H with
  | (if (opcode =? OP_PICK) || (opcode =? OP_ROLL) then _ else _) = _ => fail 1
  | (if opcode =? _ then _ else _) = _ => case_match; [op_cases; constructor; simpl; op_cases|]
  end.
  case_match.
  { destruct (stack st) as [|top [|x s]] eqn:Es; [done|done|].
    destruct (num flags top nDefaultMaxNumSize) as [|n]; [done|]. case_match; [done|].
    inversion_clear Hs.
    destruct ((x :: s) !! Z.to_nat (getint n)) as [v|] eqn:Ev; [|done]. injection H as <-.
    apply st_ok_with; [done|]. constructor; [by eapply Forall_lookup_1|].
    destruct (opcode =? OP_ROLL); [by apply Forall_delete|done]. }
  op_cases.
Qed.

Lemma exec_checkmultisig_ok opcode st st' :
  st_ok st -> exec_checkmultisig c script flags branch opcode st = inr st' -> st_ok st'.
Proof.
  intros Hst H. pose proof (ok_stack _ Hst) as Hs. pose proof (ok_ops _ Hst) as Ho.
  unfold exec_checkmultisig in H. cbv zeta in H.
  destruct (stack st !! 0%nat) as [vk|]; [|done]. destruct (num flags vk _) as [|n]; [done|].
  destruct (orb _ _) eqn:Ek; [done|]. apply orb_false_iff in Ek as [Ek _]. apply Z.ltb_ge in Ek.
  destruct (Z.gtb_spec (nOpCount st + getint n) 201); [done|].
  destruct (_ <? _); [done|]. destruct (stack st !! _) as [vs|]; [|done].
  destruct (num flags vs _) as [|n2]; [done|]. destruct (orb _ _); [done|].
  destruct (_ <? _); [done|]. destruct (multisig_loop _ _ _ _ _ _ _ _ _ _) as [|b]; [done|].
  destruct (drop _ (stack st)) as [|d r] eqn:Ed; [done|]. destruct (andb _ _); [done|].
  assert (Forall elem_ok (d :: r)) as Hr by (rewrite <- Ed; by apply Forall_drop).
  inversion_clear Hr. op_cases; constructor; simpl; auto with script; lia.
Qed.

Lemma exec_opcode_ok fExec opcode st st' :
  st_ok st -> exec_opcode c script flags branch fExec opcode st = inr st' -> st_ok st'.
Proof.
  intros Hst. pose proof (ok_stack _ Hst). unfold exec_opcode.
  case_match; [intros [= <-]; auto with script|]. case_match; [by intros [= <-]|].
  case_match; [by apply exec_nops_ok|]. case_match; [by apply exec_control_ok|].
  case_match; [by apply exec_stack_ok|]. case_match; [by apply exec_equal_ok|].
  case_match; [by apply exec_unary_ok|]. case_match; [by apply exec_binary_ok|].
  case_match; [by apply exec_within_ok|]. case_match; [by apply exec_hash_ok|].
  case_match; [by apply exec_checksig_ok|]. case_match; [by apply exec_checkmultisig_ok|]. done.
Qed.

Definition depth (st : eval_state) : Z :=
  Z.of_nat (length (stack st)) + Z.of_nat (length (altstack st)).

Lemma eval_step_ok pc st pc' st' :
  st_ok st -> eval_step c script flags branch pc st = inr (pc', st') ->
  st_ok st' /\ depth st' <= 1000 /\ (length pc' < length pc)%nat.
Proof.
  intros Hst. unfold eval_step. destruct (GetOp2 pc) as [[[opcode data] pc1]|] eqn:Eg; [|done].
  apply GetOp2_progress in Eg as [Hp _].
  rewrite (Z.gtb_ltb (size data)). destruct (Z.ltb_spec MAX_SCRIPT_ELEMENT_SIZE (size data)) as [|Hd]; [done|].
  destruct ((opcode >? OP_16) && _) eqn:Eops; [done|]. destruct (is_disabled opcode); [done|].
  set (st1 := {| stack := stack st; altstack := altstack st; vfExec := vfExec st;
                 nOpCount := if opcode >? OP_16 then nOpCount st + 1 else nOpCount st |}).
  assert (st_ok st1) as Hst1.
  { destruct Hst as [H1 H2 H3]. constructor; [done|done|]. simpl.
    destruct (opcode >? OP_16); [|done]. cbn [andb] in Eops. rewrite Z.gtb_ltb in Eops.
    apply Z.ltb_ge in Eops. lia. }
  pose proof (ok_stack _ Hst1) as Hs1.
  match goal with |- context [match ?r with inl _ => _ | inr _ => _ end] => destruct r as [|st2] eqn:E2; [done|] end.
  assert (st_ok st2) as Hst2.
  { clear Eops. revert E2. case_match; [case_match; [done|]; intros [= <-]; auto with script|].
    case_match; [intros E2; by apply exec_opcode_ok in E2|by intros [= <-]]. }
  rewrite Z.gtb_ltb. destruct (Z.ltb_spec 1000 (Z.of_nat (length (stack st2)) + Z.of_nat (length (altstack st2)))); [done|].
  intros [= <- <-]. unfold depth. auto.
Qed.

Lemma eval_loop_ok fuel pc st :
  (length pc <= fuel)%nat -> st_ok st -> depth st <= 1000 ->
  exists r, eval_loop c script flags branch fuel pc st = Some r /\
    forall st', r = inr st' -> st_ok st' /\ depth st' <= 1000.
Proof.
  revert pc st. induction fuel as [|f IH]; intros pc st Hf Hst Hd.
  { destruct pc; [|simpl in Hf; lia]. exists (inr st). split; [done|]. intros st' E. by injection E as <-. }
  destruct pc as [|b pc].
  { exists (inr st). split; [done|]. intros st' E. by injection E as <-. }
  cbn [eval_loop]. destruct (eval_step c script flags branch (b :: pc) st) as [e|[pc' st']] eqn:E.
  - exists (inl e). split; [done|]. intros st' E'. discriminate E'.
  - apply eval_step_ok in E as (Hok & Hd' & Hl); [|done]. apply IH; [cbn [length] in *; lia|done|done].
Qed.

End limits.

(** ** Single steps *)

Lemma GetOp2_push_small b rest :
  size b < 76 -> GetOp2 (push_vector b ++ rest) = Some (size b, b, rest).
Proof.
  intros Hs. assert (0 <= size b) by (unfold size; lia). unfold push_vector.
  rewrite (proj2 (Z.ltb_lt (size b) OP_PUSHDATA1)) by done. rewrite u8_id by (unfold is_u8; lia).
  cbn [app]. apply (GetOp2_data _ (size b)); [done|unfold OP_PUSHDATA4; lia|].
  by rewrite (proj2 (Z.ltb_lt (size b) OP_PUSHDATA1)).
Qed.

Lemma small_not_disabled op : op <= OP_16 -> is_disabled op = false.
Proof.
  intros Hop. apply not_true_is_false. unfold is_disabled. rewrite existsb_exists.
  intros (o & Ho & E). apply Z.eqb_eq in E as <-. unfold OP_16 in Hop. cbn in Ho.
  unfold OP_CAT, OP_SUBSTR, OP_LEFT, OP_RIGHT, OP_INVERT, OP_AND, OP_OR, OP_XOR, OP_2MUL, OP_2DIV,
    OP_MUL, OP_DIV, OP_MOD, OP_LSHIFT, OP_RSHIFT, OP_CODESEPARATOR in Ho. lia.
Qed.

Section steps.
Context (c : Checker) (script : list Z) (flags branch : Z).

Lemma step_push b rest s alt ops :
  2 <= size b <= 75 -> Z.of_nat (length s) + Z.of_nat (length alt) < 1000 ->
  eval_step c script flags branch (push_vector b ++ rest)
    {| stack := s; altstack := alt; vfExec := []; nOpCount := ops |} =
  inr (rest, {| stack := b :: s; altstack := alt; vfExec := []; nOpCount := ops |}).
Proof.
  intros Hb Hd. unfold eval_step. rewrite GetOp2_push_small by lia.
  rewrite !Z.gtb_ltb. unfold OP_16, MAX_SCRIPT_ELEMENT_SIZE.
  rewrite !(proj2 (Z.ltb_ge _ (size b))) by lia.
  cbn [andb]. rewrite small_not_disabled by (unfold OP_16; lia).
  cbn [vfExec stack altstack nOpCount forallb andb].
  rewrite (proj2 (Z.leb_le 0 _)), (proj2 (Z.leb_le _ OP_PUSHDATA4)) by (unfold OP_PUSHDATA4; lia).
  cbn [andb].
  assert (CheckMinimalPush b (size b) = true) as ->.
  { unfold CheckMinimalPush. rewrite !(proj2 (Z.eqb_neq (size b) _)) by lia. cbn [andb].
    rewrite (proj2 (Z.leb_le _ _)) by lia. apply Z.eqb_refl. }
  rewrite andb_false_r. unfold with_stack. cbn [stack altstack vfExec nOpCount length].
  rewrite Z.gtb_ltb, (proj2 (Z.ltb_ge 1000 _)) by lia. done.
Qed.

(** An executed opcode above [OP_16]. *)
Lemma step_op opcode rest s alt ops :
  OP_16 < opcode -> is_disabled opcode = false -> ops + 1 <= 201 ->
  eval_step c script flags branch (opcode :: rest)
    {| stack := s; altstack := alt; vfExec := []; nOpCount := ops |} =
  let? st := exec_opcode c script flags branch true opcode
               {| stack := s; altstack := alt; vfExec := []; nOpCount := ops + 1 |} in
  fail_if Z.of_nat (length (stack st)) + Z.of_nat (length (altstack st)) >? 1000
    with SCRIPT_ERR_STACK_SIZE ;;
  inr (rest, st).
Proof.
  intros Hop Hdis Hops. unfold eval_step, OP_16 in *. cbn [GetOp2]. unfold OP_PUSHDATA4.
  rewrite (proj2 (Z.leb_gt opcode _)) by lia. rewrite Hdis.
  change (size [] >? MAX_SCRIPT_ELEMENT_SIZE) with false. cbv iota.
  rewrite (Z.gtb_ltb opcode), (proj2 (Z.ltb_lt _ opcode)) by lia. cbn [andb nOpCount].
  rewrite (Z.gtb_ltb (ops + 1)), (proj2 (Z.ltb_ge _ (ops + 1))) by lia.
  cbn [vfExec forallb stack altstack]. unfold OP_PUSHDATA4. rewrite (proj2 (Z.leb_gt opcode _)), andb_false_r by lia. done.
Qed.
End steps.

Lemma eval_loop_step c script flags branch f pc st pc' st' :
  pc <> [] -> eval_step c script flags branch pc st = inr (pc', st') ->
  eval_loop c script flags branch (S f) pc st = eval_loop c script flags branch f pc' st'.
Proof. destruct pc; [done|]. intros _ E. cbn [eval_loop]. by rewrite E. Qed.

Lemma eval_loop_fail c script flags branch f pc st e :
  pc <> [] -> eval_step c script flags branch pc st = inl e ->
  eval_loop c script flags branch (S f) pc st = Some (inl e).
Proof. destruct pc; [done|]. intros _ E. cbn [eval_loop]. by rewrite E. Qed.

(** Expose the fields of the current state. *)
Ltac st_norm := unfold with_stack; cbn [stack altstack vfExec nOpCount].

(** ** Pay to public key hash *)

(** The script [OP_DUP OP_HASH160 <h> OP_EQUALVERIFY OP_CHECKSIG]. *)
Definition p2pkh (h : list Z) : list Z :=
  [OP_DUP; OP_HASH160] ++ push_vector h ++ [OP_EQUALVERIFY; OP_CHECKSIG].

Section p2pkh.
Context (c : Checker) (flags branch : Z) (sig key h : list Z).
Hypothesis Hh : length h = 20%nat.

Lemma eval_p2pkh :
  EvalScript c [key; sig] (p2pkh h) flags branch = Some (
    if bool_decide (HASH160 c key = h) then
      let? b := check_sig c (p2pkh h) flags branch sig key in inr [of_bool b]
    else inl SCRIPT_ERR_EQUALVERIFY).
Proof.
  assert (size h = 20) as Hs by (unfold size; lia).
  assert (length (p2pkh h) = 25%nat) as Hl.
  { unfold p2pkh, push_vector. rewrite Hs. cbn [Z.ltb Z.compare]. simpl. rewrite length_app, Hh. done. }
  unfold EvalScript. replace (size (p2pkh h)) with 25 by (unfold size; lia).
  change (25 >? MAX_SCRIPT_SIZE) with false. cbv iota. rewrite Hl.
  set (scr := p2pkh h). unfold scr at 2. unfold p2pkh. cbn [app].
  erewrite eval_loop_step; [|done|rewrite step_op by done; reflexivity]. st_norm.
  erewrite eval_loop_step; [|done|rewrite step_op by done; reflexivity]. st_norm.
  erewrite eval_loop_step; [|unfold push_vector; rewrite Hs; done|apply step_push; [lia|cbn [length]; lia]].
  destruct (decide (HASH160 c key = h)) as [E|E].
  2:{ rewrite (bool_decide_eq_false_2 _ E). erewrite eval_loop_fail; [reflexivity|done|].
      rewrite step_op by done.
      change (exec_opcode c scr flags branch true OP_EQUALVERIFY ?st) with (exec_equal OP_EQUALVERIFY st).
      unfold exec_equal. cbn [stack]. rewrite bool_decide_eq_false_2 by done. reflexivity. }
  rewrite (bool_decide_eq_true_2 _ E). erewrite eval_loop_step; [|done|].
  2:{ rewrite step_op by done.
      change (exec_opcode c scr flags branch true OP_EQUALVERIFY ?st) with (exec_equal OP_EQUALVERIFY st).
      unfold exec_equal. cbn [stack]. rewrite bool_decide_eq_true_2 by done. reflexivity. }
  st_norm.
  destruct (check_sig c scr flags branch sig key) as [e|b] eqn:Ec.
  - erewrite eval_loop_fail; [reflexivity|done|]. rewrite step_op by done.
    change (exec_opcode c scr flags branch true OP_CHECKSIG ?st) with (exec_checksig c scr flags branch OP_CHECKSIG st).
    unfold exec_checksig. cbn [stack]. rewrite Ec. reflexivity.
  - erewrite eval_loop_step; [|done|].
    2:{ rewrite step_op by done.
        change (exec_opcode c scr flags branch true OP_CHECKSIG ?st) with (exec_checksig c scr flags branch OP_CHECKSIG st).
        unfold exec_checksig. cbn [stack]. rewrite Ec. reflexivity. }
    reflexivity.
Qed.

Hypothesis Hsig : 2 <= size sig <= 75.
Hypothesis Hkey : 2 <= size key <= 75.

Lemma push_ne b rest : push_vector b ++ rest <> [].
Proof. unfold push_vector. by repeat case_match. Qed.

Lemma length_push_small b : size b < 76 -> length (push_vector b) = S (length b).
Proof. intros Hb. unfold push_vector. by rewrite (proj2 (Z.ltb_lt _ OP_PUSHDATA1)). Qed.

Lemma eval_sig_key :
  EvalScript c [] (push_vector sig ++ push_vector key) flags branch = Some (inr [key; sig]).
Proof.
  unfold EvalScript.
  assert (length (push_vector sig ++ push_vector key) = S (S (length sig + length key))) as Hl
    by (rewrite length_app, !length_push_small by lia; lia).
  replace (size (push_vector sig ++ push_vector key) >? MAX_SCRIPT_SIZE) with false
    by (symmetry; rewrite Z.gtb_ltb; apply Z.ltb_ge; unfold size, MAX_SCRIPT_SIZE in *; lia).
  rewrite Hl. set (scr := push_vector sig ++ push_vector key). unfold scr at 2.
  erewrite eval_loop_step; [|apply push_ne|apply step_push; [lia|cbn [length]; lia]].
  rewrite <- (app_nil_r (push_vector key)).
  erewrite eval_loop_step; [|apply push_ne|apply step_push; [lia|cbn [length]; lia]].
  by destruct (length sig + length key)%nat.
Qed.

Lemma sig_key_push_only : IsPushOnly (push_vector sig ++ push_vector key) = true.
Proof.
  unfold IsPushOnly. rewrite length_app, (length_push_small sig), (length_push_small key) by lia.
  replace (S (length sig) + S (length key))%nat with (S (S (length sig + length key))) by lia.
  assert (forall f b rest, size b < 76 ->
    push_only_loop (S f) (push_vector b ++ rest) = push_only_loop f rest) as Hstep.
  { intros f b rest Hb. pose proof (push_ne b rest) as Hne.
    destruct (push_vector b ++ rest) as [|x r] eqn:E; [done|]. cbn [push_only_loop]. rewrite <- E.
    rewrite GetOp2_push_small by done. rewrite Z.gtb_ltb, (proj2 (Z.ltb_ge OP_16 _)) by (unfold OP_16; lia).
    done. }
  rewrite Hstep by lia. rewrite <- (app_nil_r (push_vector key)), Hstep by lia.
  by destruct (length sig + length key)%nat.
Qed.

Lemma p2pkh_not_p2sh : IsPayToScriptHash (p2pkh h) = false.
Proof.
  unfold IsPayToScriptHash. replace (size (p2pkh h)) with 25; [done|].
  unfold p2pkh, size. rewrite !length_app, length_push_small by (unfold size; lia). rewrite Hh. done.
Qed.

Lemma VerifyScript_p2pkh :
  (has flags SCRIPT_VERIFY_CLEANSTACK = true -> has flags SCRIPT_VERIFY_P2SH = true) ->
  VerifyScript c (push_vector sig ++ push_vector key) (p2pkh h) flags branch = Some (
    if bool_decide (HASH160 c key = h) then
      let? b := check_sig c (p2pkh h) flags branch sig key in
      if b then inr tt else inl SCRIPT_ERR_EVAL_FALSE
    else inl SCRIPT_ERR_EQUALVERIFY).
Proof.
  intros Hclean. unfold VerifyScript. rewrite sig_key_push_only, andb_false_r, eval_sig_key. monad.
  rewrite eval_p2pkh. monad. rewrite p2pkh_not_p2sh, andb_false_r.
  case_bool_decide; [|done]. destruct (check_sig _ _ _ _ _ _) as [|[]]; [done| |done].
  cbn [top_false of_bool CastToBool]. monad.
  destruct (has flags SCRIPT_VERIFY_CLEANSTACK); [|done]. rewrite (Hclean eq_refl). done.
Qed.
End p2pkh.

(** ** Multisignature matching *)

Section multisig.
Context (c : Checker) (script : list Z) (flags branch : Z).

(** [s] holds the keys from position [ikey] on and the signatures from [isig]
    on. *)
Lemma multisig_loop_lists fuel s isig ikey sigs keys :
  (1 <= isig)%nat -> (1 <= ikey)%nat -> (length keys <= fuel)%nat -> (length sigs <= length keys)%nat ->
  (forall k sig, sigs !! k = Some sig -> s !! (isig - 1 + k)%nat = Some sig) ->
  (forall k key, keys !! k = Some key -> s !! (ikey - 1 + k)%nat = Some key) ->
  Forall (fun sig => Forall (fun key => exists b, check_sig c script flags branch sig key = inr b) keys) sigs ->
  exists b, multisig_loop c script flags branch fuel s isig ikey
              (Z.of_nat (length sigs)) (Z.of_nat (length keys)) = inr b /\
    (b = true <-> exists keys', keys' `sublist_of` keys /\
       Forall2 (fun sig key => check_sig c script flags branch sig key = inr true) sigs keys').
Proof.
  revert isig ikey sigs keys. induction fuel as [|f IH]; intros isig ikey sigs keys H1 H2 Hf Hle Hs Hk Henc.
  { destruct keys; [|simpl in Hf; lia]. destruct sigs; [|simpl in Hle; lia].
    exists true. split; [done|]. split; [|done]. intros _. exists []. split; [constructor|constructor]. }
  destruct sigs as [|sig sigs].
  { exists true. split; [done|]. split; [|done]. intros _. exists [].
    split; [apply sublist_nil_l|constructor]. }
  destruct keys as [|key keys]; [simpl in Hle; lia|]. cbn [multisig_loop].
  change (Z.of_nat (length (sig :: sigs)) >? 0) with true. cbv iota.
  pose proof (Hs 0%nat sig eq_refl) as Es. pose proof (Hk 0%nat key eq_refl) as Ek.
  rewrite Nat.add_0_r in Es, Ek. rewrite Es, Ek.
  inversion_clear Henc as [|? ? Henc1 Hencs]. inversion_clear Henc1 as [|? ? [b Hb] Henck].
  rewrite Hb. cbv zeta. cbn [length] in *.
  assert (forall k key0, keys !! k = Some key0 -> s !! (S ikey - 1 + k)%nat = Some key0) as Hk'.
  { intros k key0 Hkk. rewrite <- (Hk (S k) key0 Hkk). f_equal. lia. }
  replace (Z.of_nat (S (length keys)) - 1) with (Z.of_nat (length keys)) by lia.
  assert (Forall (fun sig => Forall (fun key => exists b, check_sig c script flags branch sig key = inr b) keys) sigs) as Henc'
    by (eapply Forall_impl; [|exact Hencs]; intros ? HF; by inversion_clear HF).
  destruct b.
  - replace (Z.of_nat (S (length sigs)) - 1) with (Z.of_nat (length sigs)) by lia.
    rewrite Z.gtb_ltb, (proj2 (Z.ltb_ge _ _)) by lia.
    destruct (IH (S isig) (S ikey) sigs keys) as (b & -> & Hiff); try lia; try done.
    { intros k sig0 Hkk. rewrite <- (Hs (S k) sig0 Hkk). f_equal. lia. }
    exists b. split; [done|]. rewrite Hiff. split; intros (keys' & Hsub & HF).
    + exists (key :: keys'). split; [by constructor|by constructor].
    + inversion HF as [|? key0 ? keys0 Hsk HF0]; subst. exists keys0. split; [|done].
      inversion Hsub as [|? ? ? Hsub'|? ? ? Hsub']; subst; [done|].
      transitivity (key0 :: keys0); [by apply sublist_cons|done].
  - rewrite Z.gtb_ltb. destruct (Z.ltb_spec (Z.of_nat (length keys)) (Z.of_nat (S (length sigs)))).
    + exists false. split; [done|]. split; [done|]. intros (keys' & Hsub & HF). exfalso.
      inversion HF as [|? key0 ? keys0 Hsk HF0]; subst. apply Forall2_length in HF0.
      inversion Hsub as [|? ? ? Hsub'|? ? ? Hsub']; subst; [congruence|].
      apply sublist_length in Hsub'. simpl in Hsub'. lia.
    + destruct (IH isig (S ikey) (sig :: sigs) keys) as (b & Eb & Hiff); try lia; try done.
      { simpl. lia. }
      { constructor; [done|]. done. }
      cbn [length] in Eb. rewrite Eb. exists b. split; [done|]. rewrite Hiff. split; intros (keys' & Hsub & HF).
      * exists keys'. split; [by constructor|done].
      * exists keys'. split; [|done]. inversion HF as [|? key0 ? keys0 Hsk HF0]; subst.
        inversion Hsub as [|? ? ? Hsub'|? ? ? Hsub']; subst; [congruence|done].
Qed.
End multisig.

Lemma Forall_sublist {A} (P : A -> Prop) l1 l2 : l1 `sublist_of` l2 -> Forall P l2 -> Forall P l1.
Proof.
  induction 1 as [|x l1 l2 Hs IH|x l1 l2 Hs IH]; intros HF; [done| |];
    inversion_clear HF; [constructor|]; auto.
Qed.

Lemma lookup_S {A} (x : A) l k : (x :: l) !! S k = l !! k.
Proof. done. Qed.

Lemma num_small flags n : 0 <= n <= 20 -> num flags (serialize n) nDefaultMaxNumSize = inr n.
Proof.
  intros Hn. unfold num. generalize (has flags SCRIPT_VERIFY_MINIMALDATA). intros b.
  assert (Forall (fun n => forall b, CScriptNum_of_vch (serialize n) b nDefaultMaxNumSize = inr n) (seqZ 0 21)) as H.
  { let l := eval vm_compute in (seqZ 0 21) in change (seqZ 0 21) with l.
    repeat (constructor; [by intros []|]). constructor. }
  apply (Forall_lookup_1 _ _ (Z.to_nat n) n) in H; [|apply lookup_seqZ; lia].
  cbv beta in H. by rewrite H.
Qed.

(** ** Properties *)

(** A concrete checker to evaluate scripts with. *)
Definition sample_checker : Checker := {|
  CheckSig sig key _ _ := back_byte sig =? back_byte key;
  CheckLockTime _ := true; CheckLowS _ := true;
  RIPEMD160 _ := replicate 20 1; SHA1 _ := replicate 20 2; SHA256 _ := replicate 32 3;
  HASH160 v := replicate 20 (back_byte v); HASH256 _ := replicate 32 5 |}.

#[global] Instance sample_checker_ok : CheckerOk sample_checker.
Proof. by split. Qed.

(** C24: script evaluation always terminates within its script length, and
    succeeds only within the consensus limits: whatever the script, a successful
    evaluation that starts with at most 1000 elements of at most 520 bytes ends
    with at most 1000 elements of at most 520 bytes. *)
Theorem EvalScript_limits (c : Checker) (Hc : CheckerOk c) (stk : list (list Z)) (script : list Z)
  (flags branch : Z) (Hlen : (length stk <= 1000)%nat)
  (Hel : Forall (fun v => size v <= MAX_SCRIPT_ELEMENT_SIZE) stk) :
  exists r, EvalScript c stk script flags branch = Some r /\
    forall stk', r = inr stk' ->
      (length stk' <= 1000)%nat /\ Forall (fun v => size v <= MAX_SCRIPT_ELEMENT_SIZE) stk'.
Proof.
  unfold EvalScript. destruct (size script >? MAX_SCRIPT_SIZE).
  { eexists. split; [done|]. intros stk' E. discriminate E. }
  destruct (eval_loop_ok c script flags branch (length script) script
    {| stack := stk; altstack := []; vfExec := []; nOpCount := 0 |}) as (r & -> & Hr).
  { done. } { constructor; simpl; [done|constructor|lia]. } { unfold depth. simpl. lia. }
  monad. eexists. split; [done|]. intros stk' E. destruct r as [e|st]; [done|].
  destruct (Hr st eq_refl) as [[Hs _ _] Hd]. unfold depth in Hd.
  destruct (negb _); [done|]. injection E as <-. split; [lia|exact Hs].
Qed.

Lemma EvalScript_limits_witness :
  EvalScript sample_checker [[7]] [OP_DUP; OP_ADD] 0 0 = Some (inr [[14]]) /\
  exists r, EvalScript sample_checker [[7]] [OP_DUP; OP_ADD] 0 0 = Some r /\
    forall stk', r = inr stk' -> (length stk' <= 1000)%nat.
Proof.
  split; [vm_compute; reflexivity|].
  destruct (EvalScript_limits sample_checker sample_checker_ok [[7]] [OP_DUP; OP_ADD] 0 0) as (r & Hr & H).
  - simpl. lia.
  - repeat constructor. vm_compute. discriminate.
  - exists r. split; [exact Hr|]. intros stk' E. apply (H stk' E).
Defined.

(** Spending a pay-to-public-key-hash output.  For every set of flags a
    caller may use, [VerifyScript] accepts [<sig> <key>] against
    [OP_DUP OP_HASH160 <h> OP_EQUALVERIFY OP_CHECKSIG] exactly when the key hashes
    to [h], both encodings pass and the signature checks against the script. *)
Lemma p2pkh_spend (c : Checker) (flags branch : Z) (sig key h : list Z)
  (Hh : length h = 20%nat) (Hsig : 2 <= size sig <= 75) (Hkey : 2 <= size key <= 75)
  (Hflags : has flags SCRIPT_VERIFY_CLEANSTACK = true -> has flags SCRIPT_VERIFY_P2SH = true) :
  VerifyScript c (push_vector sig ++ push_vector key) (p2pkh h) flags branch = Some (inr tt) <->
  HASH160 c key = h /\ CheckSignatureEncoding c sig flags = inr tt /\
  CheckPubKeyEncoding key flags = inr tt /\ CheckSig c sig key (p2pkh h) branch = true.
Proof.
  rewrite VerifyScript_p2pkh by done. unfold check_sig. case_bool_decide; [|intuition congruence].
  destruct (CheckSignatureEncoding c sig flags) as [|[]]; [intuition congruence|].
  destruct (CheckPubKeyEncoding key flags) as [|[]]; [intuition congruence|].
  destruct (CheckSig c sig key (p2pkh h) branch); intuition congruence.
Qed.

Lemma p2pkh_spend_witness :
  let sig := [0x30; 6; 2; 1; 1; 2; 1; 1; 1] in
  VerifyScript sample_checker (push_vector sig ++ push_vector [2; 1]) (p2pkh (replicate 20 1)) 0 0
    = Some (inr tt).
Proof.
  intros sig. apply (p2pkh_spend sample_checker 0 0 sig [2; 1] (replicate 20 1)).
  - reflexivity.
  - vm_compute. split; discriminate.
  - vm_compute. split; discriminate.
  - intros H. vm_compute in H. discriminate H.
  - split; [reflexivity|]. split; [reflexivity|]. split; reflexivity.
Defined.

Section multisig.
Context (c : Checker) (script : list Z) (flags branch : Z).

(** Every signature and key passes the encoding checks. *)
Abbreviation encoded sigs keys := (Forall (fun sig => Forall (fun key =>
  CheckSignatureEncoding c sig flags = inr tt /\ CheckPubKeyEncoding key flags = inr tt) keys) sigs).

Lemma check_sig_encoded sig key : CheckSignatureEncoding c sig flags = inr tt -> CheckPubKeyEncoding key flags = inr tt ->
  check_sig c script flags branch sig key = inr (CheckSig c sig key script branch).
Proof. intros E1 E2. unfold check_sig. by rewrite E1, E2. Qed.

Lemma matching_encoded sigs : forall keys, encoded sigs keys ->
  Forall2 (fun sig key => check_sig c script flags branch sig key = inr true) sigs keys <->
  Forall2 (fun sig key => CheckSig c sig key script branch = true) sigs keys.
Proof.
  induction sigs as [|sig sigs IH]; intros [|key keys] HF; try (split; intros H; inversion H; fail); [split; constructor|].
  inversion_clear HF as [|? ? H1 H2]. inversion_clear H1 as [|? ? [E1 E2] H3].
  assert (encoded sigs keys) as H4 by (eapply Forall_impl; [|exact H2]; intros ? HF; by inversion_clear HF).
  pose proof (check_sig_encoded sig key E1 E2) as Hck.
  split; intros H; inversion_clear H; constructor; [congruence|by apply IH|congruence|by apply IH].
Qed.

(** The stack of a well-formed multisig check, top first. *)
Abbreviation multisig_stack keys sigs dummy rest :=
  (serialize (Z.of_nat (length keys)) :: keys ++ serialize (Z.of_nat (length sigs)) :: sigs ++ dummy :: rest).

(** The counts are read back, the loop decides, and the arguments are dropped. *)
Lemma exec_checkmultisig_loop st keys sigs dummy rest b :
  stack st = multisig_stack keys sigs dummy rest ->
  (length keys <= 20)%nat -> (length sigs <= length keys)%nat -> nOpCount st + Z.of_nat (length keys) <= 201 ->
  (has flags SCRIPT_VERIFY_NULLDUMMY = true -> dummy = []) ->
  multisig_loop c script flags branch (length keys) (stack st) (length keys + 3) 2
    (Z.of_nat (length sigs)) (Z.of_nat (length keys)) = inr b ->
  exec_checkmultisig c script flags branch OP_CHECKMULTISIG st =
    inr {| stack := of_bool b :: rest; altstack := altstack st; vfExec := vfExec st;
           nOpCount := nOpCount st + Z.of_nat (length keys) |}.
Proof.
  intros Hst Hn Hm Hops Hdummy Hb. set (n := length keys) in *. set (m := length sigs) in *.
  assert (getint (Z.of_nat n) = Z.of_nat n /\ getint (Z.of_nat m) = Z.of_nat m) as [Gn Gm].
  { unfold getint. split; rewrite Z.gtb_ltb, !(proj2 (Z.ltb_ge _ _)) by lia; done. }
  assert (length (stack st) = (n + m + 3 + length rest)%nat) as Hlen
    by (rewrite Hst; cbn [length]; rewrite length_app; cbn [length]; rewrite length_app; cbn [length]; lia).
  unfold exec_checkmultisig. cbv zeta.
  replace (stack st !! 0%nat) with (Some (serialize (Z.of_nat n))) by (by rewrite Hst).
  rewrite num_small, Gn by lia.
  rewrite !Z.gtb_ltb, !(proj2 (Z.ltb_ge _ _)) by lia. cbn [orb].
  replace (stack st !! Z.to_nat (2 + Z.of_nat n - 1)) with (Some (serialize (Z.of_nat m))).
  2:{ rewrite Hst. replace (Z.to_nat (2 + Z.of_nat n - 1)) with (S n) by lia.
      rewrite lookup_S, lookup_app_r, Nat.sub_diag by lia. done. }
  rewrite num_small, Gm by lia. rewrite !Z.gtb_ltb, !(proj2 (Z.ltb_ge _ _)) by lia. cbn [orb].
  replace (Z.to_nat (Z.of_nat n)) with n by lia.
  replace (Z.to_nat (2 + Z.of_nat n + 1)) with (n + 3)%nat by lia.
  change (Z.to_nat 2) with 2%nat. rewrite Hb.
  replace (Z.to_nat (2 + Z.of_nat n + 1 + Z.of_nat m - 1)) with (S (n + S m)) by lia.
  replace (drop (S (n + S m)) (stack st)) with (dummy :: rest).
  2:{ rewrite Hst. cbn [drop]. rewrite drop_app_ge by lia. replace (n + S m - length keys)%nat with (S m) by lia.
      cbn [drop]. by rewrite drop_app_length' by done. }
  replace (has flags SCRIPT_VERIFY_NULLDUMMY && negb (size dummy =? 0)) with false; [done|].
  symmetry. destruct (has flags SCRIPT_VERIFY_NULLDUMMY) eqn:EN; [|done]. by rewrite (Hdummy eq_refl).
Qed.
End multisig.

(** [OP_CHECKMULTISIG] is a correct m-of-n check: on a stack holding n keys
    and m <= n signatures it consumes exactly its arguments and the extra element,
    and pushes true exactly when the signatures can be matched, in order, with
    distinct keys that verify them. *)
Lemma checkmultisig_correct (c : Checker) (script : list Z) (flags branch : Z) (st : eval_state)
  (keys sigs rest : list (list Z)) (dummy : list Z)
  (Hst : stack st = serialize (Z.of_nat (length keys)) :: keys ++
           serialize (Z.of_nat (length sigs)) :: sigs ++ dummy :: rest)
  (Hn : (length keys <= 20)%nat) (Hm : (length sigs <= length keys)%nat)
  (Hops : nOpCount st + Z.of_nat (length keys) <= 201)
  (Hdummy : has flags SCRIPT_VERIFY_NULLDUMMY = true -> dummy = [])
  (Henc : Forall (fun sig => Forall (fun key =>
            CheckSignatureEncoding c sig flags = inr tt /\ CheckPubKeyEncoding key flags = inr tt) keys) sigs) :
  exists b, exec_checkmultisig c script flags branch OP_CHECKMULTISIG st =
      inr {| stack := of_bool b :: rest; altstack := altstack st; vfExec := vfExec st;
             nOpCount := nOpCount st + Z.of_nat (length keys) |} /\
    (b = true <-> exists keys', keys' `sublist_of` keys /\
       Forall2 (fun sig key => CheckSig c sig key script branch = true) sigs keys').
Proof.
  destruct (multisig_loop_lists c script flags branch (length keys) (stack st) (length keys + 3) 2 sigs keys)
    as (b & Hb & Hiff); [lia|lia|done|done| | | |].
  { intros k sig Hk. rewrite Hst. replace (length keys + 3 - 1 + k)%nat with (S (length keys + S k)) by lia.
    rewrite lookup_S, lookup_app_r by lia. replace (length keys + S k - length keys)%nat with (S k) by lia.
    rewrite lookup_S, lookup_app_l by (by apply lookup_lt_Some in Hk). done. }
  { intros k key Hk. rewrite Hst. replace (2 - 1 + k)%nat with (S k) by lia.
    rewrite lookup_S, lookup_app_l by (by apply lookup_lt_Some in Hk). done. }
  { eapply Forall_impl; [|exact Henc]. intros sig HF. eapply Forall_impl; [|exact HF].
    intros key [E1 E2]. eauto using check_sig_encoded. }
  exists b. split; [by eapply exec_checkmultisig_loop|]. rewrite Hiff.
  split; intros (keys' & Hsub & HF); exists keys'; (split; [done|]); apply matching_encoded in HF || apply matching_encoded; try done;
    (eapply Forall_impl; [|exact Henc]; intros sig HE; by eapply Forall_sublist).
Qed.

Lemma checkmultisig_correct_witness :
  let st := {| stack := [[2]; [2; 7]; [2; 8]; [1]; [0x30; 6; 2; 1; 1; 2; 1; 1; 8]; []; [9]];
               altstack := []; vfExec := []; nOpCount := 1 |} in
  exists b, exec_checkmultisig sample_checker [] 0 0 OP_CHECKMULTISIG st =
    inr {| stack := [of_bool b; [9]]; altstack := []; vfExec := []; nOpCount := 3 |} /\ b = true.
Proof.
  intros st.
  destruct (checkmultisig_correct sample_checker [] 0 0 st [[2; 7]; [2; 8]]
    [[0x30; 6; 2; 1; 1; 2; 1; 1; 8]] [[9]] []) as (b & Hb & Hiff).
  - reflexivity.
  - simpl. lia.
  - simpl. lia.
  - vm_compute. discriminate.
  - reflexivity.
  - repeat constructor.
  - exists b. split; [exact Hb|]. apply Hiff. exists [[2; 8]].
    split; [apply sublist_cons, sublist_skip, sublist_nil|repeat constructor].
Defined.


End Interpreter.
