(* ===== verification/SigHash.v ===== *)
(** * Signature hashes (src/script/interpreter.cpp, from
    [CTransactionSignatureSerializer] to [CheckLockTime])

    What a transparent signature commits to, for the three signature versions.
    BLAKE2b (libsodium), SHA-256d and signature verification (libsecp256k1) are
    parameters.  [std::logic_error] is [LogicError]; a failure of the
    serialization code is [IosFailure]. *)

From stdpp Require Import base list list_numbers numbers option gmap.
From Stdlib Require Import ZArith Lia.
From S2P Require Import Prelude Bytes Serialize Amount Transaction Script Interpreter.
Import Endian Serialize Amount Transaction Script Interpreter.

Module SigHash.

Definition NOT_AN_INPUT : Z := 2 ^ 32 - 1.

Inductive sighash_error := LogicError | IosFailure (e : io_error).

Inductive SigVersion := SIGVERSION_SPROUT | SIGVERSION_OVERWINTER | SIGVERSION_SAPLING.

(** Personalization strings, as their ASCII codes. *)
Definition ZCASH_PREVOUTS_HASH_PERSONALIZATION : list Z :=
  [90; 99; 97; 115; 104; 80; 114; 101; 118; 111; 117; 116; 72; 97; 115; 104].
Definition ZCASH_SEQUENCE_HASH_PERSONALIZATION : list Z :=
  [90; 99; 97; 115; 104; 83; 101; 113; 117; 101; 110; 99; 72; 97; 115; 104].
Definition ZCASH_OUTPUTS_HASH_PERSONALIZATION : list Z :=
  [90; 99; 97; 115; 104; 79; 117; 116; 112; 117; 116; 115; 72; 97; 115; 104].
Definition ZCASH_JOINSPLITS_HASH_PERSONALIZATION : list Z :=
  [90; 99; 97; 115; 104; 74; 83; 112; 108; 105; 116; 115; 72; 97; 115; 104].
Definition ZCASH_SHIELDED_SPENDS_HASH_PERSONALIZATION : list Z :=
  [90; 99; 97; 115; 104; 83; 83; 112; 101; 110; 100; 115; 72; 97; 115; 104].
Definition ZCASH_SHIELDED_OUTPUTS_HASH_PERSONALIZATION : list Z :=
  [90; 99; 97; 115; 104; 83; 79; 117; 116; 112; 117; 116; 72; 97; 115; 104].
(** ["ZcashSigHash"] *)
Definition SIGHASH_PERSONALIZATION : list Z :=
  [90; 99; 97; 115; 104; 83; 105; 103; 72; 97; 115; 104].

Definition SignatureHashVersion (txTo : CTransaction) : SigVersion :=
  if fOverwintered txTo then
    if nVersionGroupId txTo =? SAPLING_VERSION_GROUP_ID then SIGVERSION_SAPLING
    else SIGVERSION_OVERWINTER
  else SIGVERSION_SPROUT.

(** ** The legacy serializer (class CTransactionSignatureSerializer) *)

Section serializer.
Context (txTo : CTransaction) (scriptCode : list Z) (nIn nHashType : Z).
Let fAnyoneCanPay : bool := negb (Z.land nHashType SIGHASH_ANYONECANPAY =? 0).
Let fHashSingle : bool := Z.land nHashType 0x1f =? SIGHASH_SINGLE.
Let fHashNone : bool := Z.land nHashType 0x1f =? SIGHASH_NONE.

Definition SerializeScriptCode : list Z := WriteCompactSize (size scriptCode) ++ scriptCode.

(** [None] is an index out of range or the failed assertion. *)
Definition SerializeInput (nInput : Z) : option writer :=
  let nInput := if fAnyoneCanPay then nIn else nInput in
  txin ← vin txTo !! Z.to_nat nInput;
  if nInput =? NOT_AN_INPUT then None else
  Some (wapp (enc COutPoint_codec (prevout txin))
    (wapp (if negb (nInput =? nIn) then enc bytes_codec [] else inr SerializeScriptCode)
      (if negb (nInput =? nIn) && (fHashSingle || fHashNone) then inr (ser_writedata32 0)
       else inr (ser_writedata32 (nSequence txin))))).

Definition SerializeOutput (nOutput : Z) : option writer :=
  if fHashSingle && negb (nOutput =? nIn) then Some (enc CTxOut_codec CTxOut_null)
  else o ← vout txTo !! Z.to_nat nOutput; Some (enc CTxOut_codec o).

Fixpoint serialize_each (f : Z -> option writer) (i : Z) (n : nat) : option writer :=
  match n with
  | O => Some (inr [])
  | S n' => w ← f i; w' ← serialize_each f (i + 1) n'; Some (wapp w w')
  end.

Definition SignatureSerializer : option writer :=
  let nInputs := if fAnyoneCanPay then 1 else Z.of_nat (length (vin txTo)) in
  let nOutputs := if fHashNone then 0
                  else if fHashSingle then u32 (nIn + 1) else Z.of_nat (length (vout txTo)) in
  ins ← serialize_each SerializeInput 0 (Z.to_nat nInputs);
  outs ← serialize_each SerializeOutput 0 (Z.to_nat nOutputs);
  let js :=
    if tx_nVersion txTo >=? 2 then
      wapp (enc (vector_codec (JSDescription_codec 0)) (vJoinSplit txTo))
        (if is_nil (vJoinSplit txTo) then inr []
         else inr (joinSplitPubKey txTo ++ zero_blob 64))
    else inr [] in
  Some (wapp (inr (ser_writedata32 (tx_nVersion txTo) ++ WriteCompactSize nInputs))
    (wapp ins (wapp (inr (WriteCompactSize nOutputs))
      (wapp outs (wapp (inr (ser_writedata32 (nLockTime txTo))) js))))).
End serializer.

(** ** Component hashes and the signature hash *)

Record PrecomputedTransactionData := {
  hashPrevouts : list Z; hashSequence : list Z; hashOutputs : list Z;
  hashJoinSplits : list Z; hashShieldedSpends : list Z; hashShieldedOutputs : list Z
}.

Section sighash.
(** [blake2b personalization data] and [Hash data] (double SHA-256). *)
Context (blake2b : list Z -> list Z -> list Z) (Hash : list Z -> list Z).

(** [CBLAKE2bWriter ss(...); ss << ...; return ss.GetHash();] *)
Definition blake_writer (pers : list Z) (w : writer) : sighash_error + list Z :=
  match w with inl e => inl (IosFailure e) | inr d => inr (blake2b pers d) end.

Definition GetPrevoutHash (txTo : CTransaction) :=
  blake_writer ZCASH_PREVOUTS_HASH_PERSONALIZATION (enc_all COutPoint_codec (map prevout (vin txTo))).
Definition GetSequenceHash (txTo : CTransaction) :=
  blake_writer ZCASH_SEQUENCE_HASH_PERSONALIZATION (enc_all u32_codec (map nSequence (vin txTo))).
Definition GetOutputsHash (txTo : CTransaction) :=
  blake_writer ZCASH_OUTPUTS_HASH_PERSONALIZATION (enc_all CTxOut_codec (vout txTo)).
Definition GetJoinSplitsHash (txTo : CTransaction) :=
  blake_writer ZCASH_JOINSPLITS_HASH_PERSONALIZATION
    (wapp (enc_all (JSDescription_codec (s32 (GetHeader txTo))) (vJoinSplit txTo))
          (inr (joinSplitPubKey txTo))).
Definition GetShieldedSpendsHash (txTo : CTransaction) :=
  blake_writer ZCASH_SHIELDED_SPENDS_HASH_PERSONALIZATION
    (inr (concat (map (fun d => sd_cv d ++ sd_anchor d ++ sd_nullifier d ++ sd_rk d ++ sd_zkproof d)
                      (vShieldedSpend txTo)))).
Definition GetShieldedOutputsHash (txTo : CTransaction) :=
  blake_writer ZCASH_SHIELDED_OUTPUTS_HASH_PERSONALIZATION
    (enc_all OutputDescription_codec (vShieldedOutput txTo)).

Definition Precompute (txTo : CTransaction) : sighash_error + PrecomputedTransactionData :=
  let? h1 := GetPrevoutHash txTo in
  let? h2 := GetSequenceHash txTo in
  let? h3 := GetOutputsHash txTo in
  let? h4 := GetJoinSplitsHash txTo in
  let? h5 := GetShieldedSpendsHash txTo in
  let? h6 := GetShieldedOutputsHash txTo in
  inr {| hashPrevouts := h1; hashSequence := h2; hashOutputs := h3;
         hashJoinSplits := h4; hashShieldedSpends := h5; hashShieldedOutputs := h6 |}.

(** [b ? (cache ? cache->h : Get(txTo)) : uint256()] *)
Definition component (b : bool) (cached : option (list Z))
  (fresh : sighash_error + list Z) : sighash_error + list Z :=
  if b then match cached with Some h => inr h | None => fresh end else inr (zero_blob 32).

(** The Overwinter and Sapling branch. *)
Definition SignatureHash_v3 (sapling : bool) (scriptCode : list Z) (txTo : CTransaction)
  (nIn nHashType amount consensusBranchId : Z) (cache : option PrecomputedTransactionData)
  : sighash_error + list Z :=
  let anyone := negb (Z.land nHashType SIGHASH_ANYONECANPAY =? 0) in
  let single := Z.land nHashType 0x1f =? SIGHASH_SINGLE in
  let none := Z.land nHashType 0x1f =? SIGHASH_NONE in
  let? hPrev := component (negb anyone) (hashPrevouts <$> cache) (GetPrevoutHash txTo) in
  let? hSeq := component (negb anyone && negb single && negb none) (hashSequence <$> cache)
                 (GetSequenceHash txTo) in
  let? hOut := (if negb single && negb none then
                  match cache with Some c => inr (hashOutputs c) | None => GetOutputsHash txTo end
                else if single && (nIn <? Z.of_nat (length (vout txTo))) then
                  match vout txTo !! Z.to_nat nIn with
                  | Some o => blake_writer ZCASH_OUTPUTS_HASH_PERSONALIZATION (enc CTxOut_codec o)
                  | None => inl LogicError
                  end
                else inr (zero_blob 32)) in
  let? hJS := component (negb (is_nil (vJoinSplit txTo))) (hashJoinSplits <$> cache)
                (GetJoinSplitsHash txTo) in
  let? hSp := component (negb (is_nil (vShieldedSpend txTo))) (hashShieldedSpends <$> cache)
                (GetShieldedSpendsHash txTo) in
  let? hSo := component (negb (is_nil (vShieldedOutput txTo))) (hashShieldedOutputs <$> cache)
                (GetShieldedOutputsHash txTo) in
  let input : writer :=
    if negb (nIn =? NOT_AN_INPUT) then
      match vin txTo !! Z.to_nat nIn with
      | Some i => wapp (enc COutPoint_codec (prevout i))
                    (wapp (enc bytes_codec scriptCode)
                      (inr (ser_writedata64 amount ++ ser_writedata32 (nSequence i))))
      | None => inr []   (* excluded by the range check of SignatureHash *)
      end
    else inr [] in
  blake_writer (SIGHASH_PERSONALIZATION ++ le_bytes 4 consensusBranchId)
    (wapp (inr (ser_writedata32 (GetHeader txTo) ++ ser_writedata32 (nVersionGroupId txTo)
                ++ hPrev ++ hSeq ++ hOut ++ hJS ++ (if sapling then hSp ++ hSo else [])
                ++ ser_writedata32 (nLockTime txTo) ++ ser_writedata32 (nExpiryHeight txTo)
                ++ (if sapling then ser_writedata64 (valueBalance txTo) else [])
                ++ ser_writedata32 nHashType))
          input).

(** [None] is a failed assertion or an index out of range. *)
Definition SignatureHash (scriptCode : list Z) (txTo : CTransaction) (nIn nHashType amount consensusBranchId : Z)
  (cache : option PrecomputedTransactionData) : option (sighash_error + list Z) :=
  if (nIn >=? Z.of_nat (length (vin txTo))) && negb (nIn =? NOT_AN_INPUT) then Some (inl LogicError) else
  match SignatureHashVersion txTo with
  | SIGVERSION_OVERWINTER =>
      Some (SignatureHash_v3 false scriptCode txTo nIn nHashType amount consensusBranchId cache)
  | SIGVERSION_SAPLING =>
      Some (SignatureHash_v3 true scriptCode txTo nIn nHashType amount consensusBranchId cache)
  | SIGVERSION_SPROUT =>
      if (Z.land nHashType 0x1f =? SIGHASH_SINGLE) && (nIn >=? Z.of_nat (length (vout txTo)))
      then Some (inl LogicError)
      else
        w ← SignatureSerializer txTo scriptCode nIn nHashType;
        Some (match w with
              | inl e => inl (IosFailure e)
              | inr d => inr (Hash (d ++ ser_writedata32 nHashType))
              end)
  end.

(** [TransactionSignatureChecker]: [Verify] is [CPubKey::Verify], [IsValid] its
    length test. *)
Context (Verify : list Z -> list Z -> list Z -> bool) (IsValid : list Z -> bool).

Definition TransactionCheckSig (txTo : CTransaction) (nIn amount : Z)
  (cache : option PrecomputedTransactionData) (vchSigIn vchPubKey scriptCode : list Z)
  (consensusBranchId : Z) : option (io_error + bool) :=
  if negb (IsValid vchPubKey) then Some (inr false)
  else if is_nil vchSigIn then Some (inr false)
  else
    let nHashType := back_byte vchSigIn in
    let vchSig := removelast vchSigIn in
    h ← SignatureHash scriptCode txTo nIn nHashType amount consensusBranchId cache;
    Some (match h with
          | inl LogicError => inr false
          | inl (IosFailure e) => inl e
          | inr sighash => inr (Verify vchPubKey sighash vchSig)
          end).
End sighash.

Definition TransactionCheckLockTime (txTo : CTransaction) (nIn : nat) (nLockTime' : Z) : option bool :=
  if negb (((nLockTime txTo <? LOCKTIME_THRESHOLD) && (nLockTime' <? LOCKTIME_THRESHOLD))
           || ((nLockTime txTo >=? LOCKTIME_THRESHOLD) && (nLockTime' >=? LOCKTIME_THRESHOLD)))
  then Some false
  else if nLockTime' >? nLockTime txTo then Some false
  else i ← vin txTo !! nIn; Some (negb (CTxIn_IsFinal i)).

(** ** Facts *)

(** [tx] with the input scripts replaced. *)
Definition with_scriptSigs (tx : CTransaction) (f : CTxIn -> list Z) : CTransaction := {|
  fOverwintered := fOverwintered tx; tx_nVersion := tx_nVersion tx;
  nVersionGroupId := nVersionGroupId tx;
  vin := map (fun i => {| prevout := prevout i; scriptSig := f i; nSequence := nSequence i |}) (vin tx);
  vout := vout tx; nLockTime := nLockTime tx; nExpiryHeight := nExpiryHeight tx;
  valueBalance := valueBalance tx; vShieldedSpend := vShieldedSpend tx;
  vShieldedOutput := vShieldedOutput tx; vJoinSplit := vJoinSplit tx;
  joinSplitPubKey := joinSplitPubKey tx; joinSplitSig := joinSplitSig tx; bindingSig := bindingSig tx |}.

Lemma with_scriptSigs_lookup tx f k :
  vin (with_scriptSigs tx f) !! k =
  (fun i => {| prevout := prevout i; scriptSig := f i; nSequence := nSequence i |}) <$> vin tx !! k.
Proof. apply list_lookup_fmap. Qed.

Lemma SerializeInput_scriptSig tx f scriptCode nIn nHashType k :
  SerializeInput (with_scriptSigs tx f) scriptCode nIn nHashType k =
  SerializeInput tx scriptCode nIn nHashType k.
Proof.
  unfold SerializeInput. rewrite with_scriptSigs_lookup. by destruct (vin tx !! _).
Qed.

Lemma serialize_each_ext f g i n :
  (forall k, f k = g k) -> serialize_each f i n = serialize_each g i n.
Proof.
  intros Hfg. revert i. induction n as [|n IH]; intros i; [done|]. cbn [serialize_each].
  by rewrite Hfg, IH.
Qed.

Lemma SignatureSerializer_scriptSig tx f scriptCode nIn nHashType :
  SignatureSerializer (with_scriptSigs tx f) scriptCode nIn nHashType =
  SignatureSerializer tx scriptCode nIn nHashType.
Proof.
  unfold SignatureSerializer. cbv zeta.
  replace (length (vin (with_scriptSigs tx f))) with (length (vin tx)) by (symmetry; apply length_map).
  rewrite (serialize_each_ext (SerializeInput (with_scriptSigs tx f) scriptCode nIn nHashType)
    (SerializeInput tx scriptCode nIn nHashType)) by (intros; apply SerializeInput_scriptSig).
  reflexivity.
Qed.

(** ** Properties *)

(** Hashing with precomputed component hashes is equivalent to hashing
    from scratch, for every signature version, hash type and input. *)
Lemma SignatureHash_cache (blake2b : list Z -> list Z -> list Z) (Hash : list Z -> list Z)
  (scriptCode : list Z) (tx : CTransaction) (nIn nHashType amount branch : Z)
  (cache : PrecomputedTransactionData) (Hc : Precompute blake2b tx = inr cache) :
  SignatureHash blake2b Hash scriptCode tx nIn nHashType amount branch (Some cache) =
  SignatureHash blake2b Hash scriptCode tx nIn nHashType amount branch None.
Proof.
  unfold Precompute in Hc.
  destruct (GetPrevoutHash blake2b tx) as [|h1] eqn:E1; [done|].
  destruct (GetSequenceHash blake2b tx) as [|h2] eqn:E2; [done|].
  destruct (GetOutputsHash blake2b tx) as [|h3] eqn:E3; [done|].
  destruct (GetJoinSplitsHash blake2b tx) as [|h4] eqn:E4; [done|].
  destruct (GetShieldedSpendsHash blake2b tx) as [|h5] eqn:E5; [done|].
  destruct (GetShieldedOutputsHash blake2b tx) as [|h6] eqn:E6; [done|]. injection Hc as <-.
  unfold SignatureHash, SignatureHash_v3, component. rewrite E1, E2, E3, E4, E5, E6. reflexivity.
Qed.

Lemma SignatureHash_cache_witness :
  exists cache, Precompute (fun p d => take 32 (p ++ d)) sample_tx = inr cache /\
  SignatureHash (fun p d => take 32 (p ++ d)) (take 32) [] sample_tx 0 1 0 7 (Some cache) =
  SignatureHash (fun p d => take 32 (p ++ d)) (take 32) [] sample_tx 0 1 0 7 None.
Proof.
  eexists. split; [vm_compute; reflexivity|].
  apply (SignatureHash_cache (fun p d => take 32 (p ++ d)) (take 32) [] sample_tx 0 1 0 7).
  vm_compute. reflexivity.
Defined.

(** Signature hashes do not depend on the input scripts: filling in or
    changing any [scriptSig] leaves every signature hash of the transaction
    unchanged, so inputs can be signed independently and in any order. *)
Lemma SignatureHash_ignores_scriptSig (blake2b : list Z -> list Z -> list Z) (Hash : list Z -> list Z)
  (scriptCode : list Z) (tx : CTransaction) (f : CTxIn -> list Z) (nIn nHashType amount branch : Z)
  (cache : option PrecomputedTransactionData) :
  SignatureHash blake2b Hash scriptCode (with_scriptSigs tx f) nIn nHashType amount branch cache =
  SignatureHash blake2b Hash scriptCode tx nIn nHashType amount branch cache.
Proof.
  unfold SignatureHash. rewrite SignatureSerializer_scriptSig.
  replace (length (vin (with_scriptSigs tx f))) with (length (vin tx)) by (symmetry; apply length_map).
  destruct (_ && _); [done|].
  assert (forall b, SignatureHash_v3 blake2b b scriptCode (with_scriptSigs tx f) nIn nHashType amount branch cache =
    SignatureHash_v3 blake2b b scriptCode tx nIn nHashType amount branch cache) as Hv3.
  { intros b. unfold SignatureHash_v3. cbv zeta. rewrite with_scriptSigs_lookup.
    replace (GetPrevoutHash blake2b (with_scriptSigs tx f)) with (GetPrevoutHash blake2b tx)
      by (unfold GetPrevoutHash, with_scriptSigs; cbn [vin]; by rewrite map_map).
    replace (GetSequenceHash blake2b (with_scriptSigs tx f)) with (GetSequenceHash blake2b tx)
      by (unfold GetSequenceHash, with_scriptSigs; cbn [vin]; by rewrite map_map).
    by destruct (vin tx !! Z.to_nat nIn). }
  change (SignatureHashVersion (with_scriptSigs tx f)) with (SignatureHashVersion tx).
  by rewrite !Hv3.
Qed.

End SigHash.
