(* ===== verification/Compressor.v ===== *)
(** * Compressed transaction outputs (src/compressor.{h,cpp}, src/pubkey.h)

    The space-saving encoding of outputs in the UTXO database.  Point parsing is
    libsecp256k1's: [uncompress key] is the 65-byte form of a valid public key
    and [None] for an invalid one ([secp256k1_ec_pubkey_parse] followed by
    [secp256k1_ec_pubkey_serialize] with [SECP256K1_EC_UNCOMPRESSED]). *)

From stdpp Require Import base list list_numbers numbers option gmap.
From Stdlib Require Import ZArith Lia.
From S2P Require Import Prelude Bytes Serialize Amount Transaction Script.
Import Endian Serialize Amount Transaction Script.

Module Compressor.

(** ** Public keys (class CPubKey) *)

Definition PUBLIC_KEY_SIZE : Z := 65.
Definition COMPRESSED_PUBLIC_KEY_SIZE : Z := 33.

Definition GetLen (chHeader : Z) : Z :=
  if (chHeader =? 2) || (chHeader =? 3) then COMPRESSED_PUBLIC_KEY_SIZE
  else if (chHeader =? 4) || (chHeader =? 6) || (chHeader =? 7) then PUBLIC_KEY_SIZE
  else 0.

(** The key data set by [Set(pbegin, pend)]; an invalid key is [0xFF]. *)
Definition CPubKey_Set (data : list Z) : list Z :=
  let len := match data with [] => 0 | h :: _ => GetLen h end in
  if negb (len =? 0) && (len =? size data) then data else [0xFF].

Definition CPubKey_size (vch : list Z) : Z := GetLen (at_byte vch 0).
Definition CPubKey_IsValid (vch : list Z) : bool := CPubKey_size vch >? 0.

Section compressor.
Context (uncompress : list Z -> option (list Z)).

Definition IsFullyValid (vch : list Z) : bool :=
  if negb (CPubKey_IsValid vch) then false
  else match uncompress vch with Some _ => true | None => false end.

Definition CPubKey_Decompress (vch : list Z) : option (list Z) :=
  if negb (CPubKey_IsValid vch) then None
  else match uncompress vch with Some pub => Some (CPubKey_Set pub) | None => None end.

(** ** Scripts (class CScriptCompressor) *)

Definition nSpecialScripts : Z := 6.

Definition IsToKeyID (script : list Z) : option (list Z) :=
  if (size script =? 25) && (at_byte script 0 =? OP_DUP) && (at_byte script 1 =? OP_HASH160)
     && (at_byte script 2 =? 20) && (at_byte script 23 =? OP_EQUALVERIFY)
     && (at_byte script 24 =? OP_CHECKSIG)
  then Some (take 20 (drop 3 script)) else None.

Definition IsToScriptID (script : list Z) : option (list Z) :=
  if (size script =? 23) && (at_byte script 0 =? OP_HASH160) && (at_byte script 1 =? 20)
     && (at_byte script 22 =? OP_EQUAL)
  then Some (take 20 (drop 2 script)) else None.

Definition IsToPubKey (script : list Z) : option (list Z) :=
  if (size script =? 35) && (at_byte script 0 =? 33) && (at_byte script 34 =? OP_CHECKSIG)
     && ((at_byte script 1 =? 0x02) || (at_byte script 1 =? 0x03))
  then Some (CPubKey_Set (take 33 (drop 1 script)))
  else if (size script =? 67) && (at_byte script 0 =? 65) && (at_byte script 66 =? OP_CHECKSIG)
          && (at_byte script 1 =? 0x04)
  then let pubkey := CPubKey_Set (take 65 (drop 1 script)) in
       if IsFullyValid pubkey then Some pubkey else None
  else None.

Definition Compress (script : list Z) : option (list Z) :=
  match IsToKeyID script with
  | Some keyID => Some (0x00 :: keyID)
  | None =>
  match IsToScriptID script with
  | Some scriptID => Some (0x01 :: scriptID)
  | None =>
  match IsToPubKey script with
  | Some pubkey =>
      let body := take 32 (drop 1 pubkey) in
      if (at_byte pubkey 0 =? 0x02) || (at_byte pubkey 0 =? 0x03) then Some (at_byte pubkey 0 :: body)
      else if at_byte pubkey 0 =? 0x04 then
        Some (Z.lor 0x04 (Z.land (at_byte pubkey 64) 0x01) :: body)
      else None
  | None => None
  end end end.

Definition GetSpecialSize (nSize : Z) : Z :=
  if (nSize =? 0) || (nSize =? 1) then 20
  else if (nSize =? 2) || (nSize =? 3) || (nSize =? 4) || (nSize =? 5) then 32
  else 0.

(** [None] when [Decompress] returns false (the script is left as it was). *)
Definition Decompress (nSize : Z) (data : list Z) : option (list Z) :=
  if nSize =? 0x00 then
    Some ([OP_DUP; OP_HASH160; 20] ++ take 20 data ++ [OP_EQUALVERIFY; OP_CHECKSIG])
  else if nSize =? 0x01 then
    Some ([OP_HASH160; 20] ++ take 20 data ++ [OP_EQUAL])
  else if (nSize =? 0x02) || (nSize =? 0x03) then
    Some ([33; nSize] ++ take 32 data ++ [OP_CHECKSIG])
  else if (nSize =? 0x04) || (nSize =? 0x05) then
    match CPubKey_Decompress (CPubKey_Set ((nSize - 2) :: take 32 data)) with
    | None => None
    | Some pubkey => Some ([65] ++ take 65 pubkey ++ [OP_CHECKSIG])
    end
  else None.

(** [Serialize]; [None] only if a variable-length integer overran its
    buffer. *)
Definition ScriptCompressor_Serialize (script : list Z) : option (list Z) :=
  match Compress script with
  | Some compr => Some compr
  | None => n ← WriteVarInt 32 (size script + nSpecialScripts); Some (n ++ script)
  end.

(** [Unserialize] into an empty script *)
Definition ScriptCompressor_Unserialize : reader (list Z) :=
  let! nSize := ReadVarInt 32 in
  if nSize <? nSpecialScripts then
    let! vch := read (GetSpecialSize nSize) in
    rret (match Decompress nSize vch with Some script => script | None => [] end)
  else
    let nSize := nSize - nSpecialScripts in
    if nSize >? MAX_SCRIPT_SIZE then
      let! _ := read nSize in rret [OP_RETURN]
    else read nSize.
End compressor.

(** ** Amounts (class CTxOutCompressor) *)

(** [while (((n % 10) == 0) && e < 9) { n /= 10; e++; }] *)
Fixpoint strip_zeros (fuel : nat) (n e : Z) : Z * Z :=
  match fuel with
  | O => (n, e)
  | S f => if (n mod 10 =? 0) && (e <? 9) then strip_zeros f (n / 10) (e + 1) else (n, e)
  end.

(** [None] is the failed assertion. *)
Definition CompressAmount (n : Z) : option Z :=
  if n =? 0 then Some 0
  else
    let '(n, e) := strip_zeros 9 n 0 in
    if e <? 9 then
      let d := n mod 10 in
      if (d >=? 1) && (d <=? 9) then
        Some (u64 (1 + (n / 10 * 9 + d - 1) * 10 + e))
      else None
    else Some (u64 (1 + (n - 1) * 10 + 9)).

(** [while (e) { n *= 10; e--; }] *)
Fixpoint times_ten (e : nat) (n : Z) : Z :=
  match e with O => n | S e' => times_ten e' (u64 (n * 10)) end.

Definition DecompressAmount (x : Z) : Z :=
  if x =? 0 then 0
  else
    let x := x - 1 in
    let e := x mod 10 in
    let x := x / 10 in
    let n := if e <? 9 then u64 (x / 9 * 10 + (x mod 9 + 1)) else u64 (x + 1) in
    times_ten (Z.to_nat e) n.

(** [CTxOutCompressor]: the amount, then the script. *)
Definition TxOutCompressor_Serialize (uncompress : list Z -> option (list Z)) (txout : CTxOut)
  : option (list Z) :=
  nVal ← CompressAmount (u64 (nValue txout));
  v ← WriteVarInt 64 nVal;
  s ← ScriptCompressor_Serialize uncompress (scriptPubKey txout);
  Some (v ++ s).

Definition TxOutCompressor_Unserialize (uncompress : list Z -> option (list Z)) : reader CTxOut :=
  let! nVal := ReadVarInt 64 in
  let! script := ScriptCompressor_Unserialize uncompress in
  rret {| nValue := s64 (DecompressAmount nVal); scriptPubKey := script |}.

(** ** Amount facts *)

Lemma strip_zeros_spec fuel n e :
  0 < n -> 0 <= e -> e + Z.of_nat fuel = 9 ->
  let '(n', e') := strip_zeros fuel n e in
  n = n' * 10 ^ (e' - e) /\ 0 < n' /\ e <= e' <= 9 /\ (e' < 9 -> n' mod 10 <> 0).
Proof.
  revert n e. induction fuel as [|f IH]; intros n e Hn He Hf; cbn [strip_zeros].
  { rewrite Z.sub_diag. split_and!; lia. }
  destruct (Z.eqb_spec (n mod 10) 0) as [Hz|Hz]; cbn [andb].
  - rewrite (proj2 (Z.ltb_lt e 9)) by lia.
    specialize (IH (n / 10) (e + 1)). destruct (strip_zeros f (n / 10) (e + 1)) as [n' e'].
    destruct IH as (H1 & H2 & H3 & H4); [zdm|lia|lia|]. split_and!; try lia.
    replace (e' - e) with (Z.succ (e' - (e + 1))) by lia. rewrite Z.pow_succ_r by lia.
    assert (n = 10 * (n / 10)) as -> by zdm. rewrite H1 at 1. ring.
  - rewrite Z.sub_diag. split_and!; lia.
Qed.

Lemma times_ten_spec e n : 0 <= n -> n * 10 ^ Z.of_nat e < 2 ^ 64 -> times_ten e n = n * 10 ^ Z.of_nat e.
Proof.
  revert n. induction e as [|e IH]; intros n Hn Hlt; cbn [times_ten]; [simpl; lia|].
  rewrite Nat2Z.inj_succ, Z.pow_succ_r in * by lia.
  assert (0 < 10 ^ Z.of_nat e) by (apply Z.pow_pos_nonneg; lia).
  rewrite u64_id by (unfold is_u64; nia). rewrite IH by nia. ring.
Qed.

Lemma amount_roundtrip n :
  0 <= n < 2 ^ 60 -> exists x, CompressAmount n = Some x /\ 0 <= x < 2 ^ 64 /\ DecompressAmount x = n.
Proof.
  intros Hn. unfold CompressAmount. destruct (Z.eqb_spec n 0) as [->|Hz]; [by exists 0|].
  pose proof (strip_zeros_spec 9 n 0) as Hs. destruct (strip_zeros 9 n 0) as [m e].
  destruct Hs as (Hnm & Hm & He & Hmod); [lia..|]. rewrite Z.sub_0_r in Hnm.
  assert (1 <= 10 ^ e) by (apply Z.lt_pred_le; simpl; apply Z.pow_pos_nonneg; lia).
  assert (m <= n) by nia.
  destruct (Z.ltb_spec e 9) as [Hlt|Hge].
  - specialize (Hmod Hlt). pose proof (Z.mod_pos_bound m 10).
    rewrite Z.geb_leb, (proj2 (Z.leb_le 1 _)), (proj2 (Z.leb_le _ 9)) by lia. cbn [andb].
    assert (0 <= m / 10 * 9 + m mod 10 - 1 <= m) by zdm.
    rewrite u64_id by (unfold is_u64; lia). eexists. split_and!; [done|lia|lia|].
    unfold DecompressAmount. rewrite (proj2 (Z.eqb_neq _ 0)) by lia. cbv zeta.
    set (q := m / 10 * 9 + m mod 10 - 1) in *.
    assert ((1 + q * 10 + e - 1) mod 10 = e /\ (1 + q * 10 + e - 1) / 10 = q) as [-> ->] by (clearbody q; split; zdm).
    rewrite (proj2 (Z.ltb_lt e 9)) by done.
    assert (q / 9 = m / 10 /\ q mod 9 = m mod 10 - 1) as [-> ->] by (unfold q; split; zdm).
    replace (m / 10 * 10 + (m mod 10 - 1 + 1)) with m by zdm.
    rewrite u64_id by (unfold is_u64; lia). rewrite times_ten_spec, Z2Nat.id by (rewrite ?Z2Nat.id by lia; lia). lia.
  - assert (e = 9) as -> by lia. rewrite u64_id by (unfold is_u64; lia). eexists. split_and!; [done|lia|lia|].
    unfold DecompressAmount. rewrite (proj2 (Z.eqb_neq _ 0)) by lia. cbv zeta.
    assert ((1 + (m - 1) * 10 + 9 - 1) mod 10 = 9 /\ (1 + (m - 1) * 10 + 9 - 1) / 10 = m - 1) as [-> ->] by (split; zdm).
    change (9 <? 9) with false. cbv iota. rewrite u64_id by (unfold is_u64; lia).
    rewrite times_ten_spec by (change (Z.of_nat (Z.to_nat 9)) with 9; lia).
    change (Z.of_nat (Z.to_nat 9)) with 9. lia.
Qed.

(** ** Script facts *)

(** What the compressor relies on of libsecp256k1: a point with coordinates
    [x], [y] is also the point its compressed form (the parity of [y], and [x])
    stands for. *)
Class PointCompression (uncompress : list Z -> option (list Z)) : Prop := {
  uncompress_parity x y : length x = 32%nat -> length y = 32%nat -> is_bytes (x ++ y) ->
    is_Some (uncompress (4 :: x ++ y)) ->
    uncompress ((2 + back_byte y mod 2) :: x) = Some (4 :: x ++ y)
}.

Lemma ReadVarInt_small k rest : 0 <= k < 128 -> ReadVarInt 32 (k :: rest) = inr (k, rest).
Proof.
  intros Hk. unfold ReadVarInt. cbn [ReadVarInt_loop].
  assert (Z.land k 0x80 = 0) as ->.
  { destruct (byte_sign k) as [H _]; [unfold is_u8; lia|]. rewrite (proj2 (Z.ltb_lt k 128)) in H by lia.
    by apply Z.eqb_eq in H. }
  change (negb (0 =? 0)) with false. cbv iota.
  change 0x7F with (Z.ones 7). rewrite Z.land_ones by lia. change (2 ^ 7) with 128.
  rewrite (Z.mod_small k 128) by lia. change (Z.shiftl 0 7) with 0. rewrite Z.mod_0_l by (apply Z.pow_nonzero; lia).
  by rewrite Z.lor_0_l.
Qed.

Lemma take_drop_pieces (l : list Z) a b :
  (a + b <= length l)%nat -> l = take a l ++ take b (drop a l) ++ drop (a + b) l.
Proof.
  intros Hl. rewrite <- (take_drop a l) at 1. f_equal.
  rewrite <- (take_drop b (drop a l)) at 1. by rewrite drop_drop.
Qed.

(** Match the fixed bytes of a script of known length. *)
Ltac known_length script :=
  repeat (destruct script as [|? script]; [discriminate|]);
  destruct script; [|discriminate].

Lemma IsToKeyID_inv script id :
  IsToKeyID script = Some id ->
  script = [OP_DUP; OP_HASH160; 20] ++ id ++ [OP_EQUALVERIFY; OP_CHECKSIG] /\ length id = 20%nat.
Proof.
  unfold IsToKeyID. destruct (_ && _) eqn:E; [|done]. intros [= <-].
  rewrite !andb_true_iff, !Z.eqb_eq in E. destruct E as (((((Hs & H0) & H1) & H2) & H3) & H4).
  unfold size in Hs. assert (length script = 25%nat) as Hl by lia. clear Hs.
  known_length script. cbn in H0, H1, H2, H3, H4. subst. split; reflexivity.
Qed.

Lemma IsToScriptID_inv script id :
  IsToScriptID script = Some id ->
  script = [OP_HASH160; 20] ++ id ++ [OP_EQUAL] /\ length id = 20%nat.
Proof.
  unfold IsToScriptID. destruct (_ && _) eqn:E; [|done]. intros [= <-].
  rewrite !andb_true_iff, !Z.eqb_eq in E. destruct E as (((Hs & H0) & H1) & H2).
  unfold size in Hs. assert (length script = 23%nat) as Hl by lia. clear Hs.
  known_length script. cbn in H0, H1, H2. subst. split; reflexivity.
Qed.

(** The two kinds of pay-to-public-key scripts that are compressed. *)
Lemma IsToPubKey_inv uncompress script pk :
  IsToPubKey uncompress script = Some pk ->
  (exists p x, (p = 2 \/ p = 3) /\ length x = 32%nat /\ pk = p :: x /\ script = [33] ++ (p :: x) ++ [OP_CHECKSIG]) \/
  (exists x y, length x = 32%nat /\ length y = 32%nat /\ pk = 4 :: x ++ y /\
     script = [65] ++ (4 :: x ++ y) ++ [OP_CHECKSIG] /\ is_Some (uncompress (4 :: x ++ y))).
Proof.
  unfold IsToPubKey. match goal with |- (if ?b then _ else _) = _ -> _ => destruct b eqn:E end.
  - intros [= <-]. left. rewrite !andb_true_iff, orb_true_iff, !Z.eqb_eq in E.
    destruct E as (((Hs & H0) & H34) & H1). unfold size in Hs. assert (length script = 35%nat) as Hl by lia. clear Hs.
    destruct script as [|b0 script]; [done|]. destruct script as [|p script]; [done|].
    cbn in H0, H1. exists p, (take 32 script).
    assert (length script = 33%nat) as Hl' by (simpl in Hl; lia). clear Hl.
    assert (script = take 32 script ++ [OP_CHECKSIG]) as Esc.
    { known_length script. cbn in H34. subst. reflexivity. }
    split_and!; [done|rewrite length_take; lia| |rewrite Esc at 1; by subst].
    cbn [drop take]. unfold CPubKey_Set. 
    assert (GetLen p = 33) as -> by (destruct H1 as [-> | ->]; done).
    unfold size. cbn [length]. rewrite length_take, Hl'. done.
  - match goal with |- (if ?b then _ else _) = _ -> _ => destruct b eqn:E'; [|discriminate] end. rewrite !andb_true_iff, !Z.eqb_eq in E'.
    destruct E' as (((Hs & H0) & H66) & H1). unfold size in Hs. assert (length script = 67%nat) as Hl by lia. clear Hs E.
    destruct script as [|b0 script]; [done|]. destruct script as [|p script]; [done|]. cbn in H0, H1. subst b0 p.
    assert (length script = 65%nat) as Hl' by (simpl in Hl; lia). clear Hl.
    assert (script = take 64 script ++ [OP_CHECKSIG]) as Esc.
    { known_length script. cbn in H66. subst. reflexivity. }
    assert (CPubKey_Set (take 65 (drop 1 (65 :: 4 :: script))) = 4 :: take 64 script) as ->.
    { cbn [drop take]. unfold CPubKey_Set. change (GetLen 4) with 65. unfold size. cbn [length].
      rewrite length_take, Hl'. done. }
    cbv zeta. destruct (IsFullyValid uncompress (4 :: take 64 script)) eqn:Ev; [|done]. intros [= <-]. right.
    exists (take 32 script), (take 32 (drop 32 script)).
    assert (take 32 script ++ take 32 (drop 32 script) = take 64 script) as Ex
      by (rewrite take_take_drop; done).
    rewrite Ex. split_and!; [rewrite length_take; lia|rewrite length_take, length_drop; lia|done|
      rewrite Esc at 1; done|].
    unfold IsFullyValid in Ev. cbn in Ev. destruct (uncompress (4 :: take 64 script)); [eauto|done].
Qed.

(** Reading a special form back: its tag, then its fixed number of bytes. *)
Lemma Unserialize_special uncompress tag body script rest :
  0 <= tag < nSpecialScripts -> Z.of_nat (length body) = GetSpecialSize tag ->
  Decompress uncompress tag body = Some script ->
  ScriptCompressor_Unserialize uncompress ((tag :: body) ++ rest) = inr (script, rest).
Proof.
  unfold nSpecialScripts. intros Ht Hl Hd. unfold ScriptCompressor_Unserialize, rbind. cbn [app].
  rewrite ReadVarInt_small by lia. rewrite (proj2 (Z.ltb_lt tag nSpecialScripts)) by (unfold nSpecialScripts; lia).
  rewrite read_app by done. unfold rret. by rewrite Hd.
Qed.

Lemma Unserialize_plain uncompress script bs rest :
  size script <= MAX_SCRIPT_SIZE -> WriteVarInt 32 (size script + nSpecialScripts) = Some bs ->
  ScriptCompressor_Unserialize uncompress ((bs ++ script) ++ rest) = inr (script, rest).
Proof.
  intros Hs Hw. assert (0 <= size script) by (unfold size; lia). unfold nSpecialScripts, MAX_SCRIPT_SIZE in *.
  destruct (write_varint 32 (size script + 6)) as (bs' & Hw' & _ & Hr); [change (2 ^ Z.of_nat 32) with (2 ^ 32); lia|lia|].
  rewrite Hw in Hw'. injection Hw' as <-. unfold ScriptCompressor_Unserialize, rbind.
  rewrite <- (assoc_L (++)), Hr. unfold nSpecialScripts, MAX_SCRIPT_SIZE.
  rewrite (proj2 (Z.ltb_ge _ 6)) by lia. replace (size script + 6 - 6) with (size script) by lia.
  rewrite Z.gtb_ltb, (proj2 (Z.ltb_ge _ _)) by lia. by apply read_app.
Qed.

Lemma script_roundtrip uncompress script rest :
  PointCompression uncompress -> is_bytes script -> size script <= MAX_SCRIPT_SIZE ->
  exists bs, ScriptCompressor_Serialize uncompress script = Some bs /\
    ScriptCompressor_Unserialize uncompress (bs ++ rest) = inr (script, rest).
Proof.
  intros Hsecp Hb Hs. unfold ScriptCompressor_Serialize, Compress.
  destruct (IsToKeyID script) as [id|] eqn:E1.
  { apply IsToKeyID_inv in E1 as [-> Hid]. eexists. split; [done|].
    apply Unserialize_special; [done|rewrite Hid; done|]. unfold Decompress. cbn [Z.eqb].
    by rewrite take_ge by lia. }
  destruct (IsToScriptID script) as [id|] eqn:E2.
  { apply IsToScriptID_inv in E2 as [-> Hid]. eexists. split; [done|].
    apply Unserialize_special; [done|rewrite Hid; done|]. unfold Decompress. cbn [Z.eqb].
    by rewrite take_ge by lia. }
  assert (exists bs, (n ← WriteVarInt 32 (size script + nSpecialScripts); Some (n ++ script)) = Some bs /\
    ScriptCompressor_Unserialize uncompress (bs ++ rest) = inr (script, rest)) as Hplain.
  { assert (0 <= size script) by (unfold size; lia). unfold MAX_SCRIPT_SIZE in Hs.
    destruct (write_varint 32 (size script + nSpecialScripts)) as (bs & Hw & _ & _);
      [unfold nSpecialScripts; change (2 ^ Z.of_nat 32) with (2 ^ 32); lia|lia|].
    rewrite Hw. monad. eexists. split; [done|]. by apply Unserialize_plain. }
  destruct (IsToPubKey uncompress script) as [pk|] eqn:E3; [|exact Hplain].
  apply IsToPubKey_inv in E3 as [(p & x & Hp & Hx & -> & ->)|(x & y & Hx & Hy & -> & -> & Hval)].
  - change (at_byte (p :: x) 0) with p. change (drop 1 (p :: x)) with x. rewrite take_ge by lia.
    replace ((p =? 2) || (p =? 3)) with true by (by destruct Hp as [-> | ->]). eexists. split; [done|].
    apply Unserialize_special; [unfold nSpecialScripts; lia|destruct Hp as [-> | ->]; rewrite Hx; done|].
    unfold Decompress. destruct Hp as [-> | ->]; cbn [Z.eqb Pos.eqb orb]; by rewrite take_ge by lia.
  - change (at_byte (4 :: x ++ y) 0) with 4. change (drop 1 (4 :: x ++ y)) with (x ++ y).
    cbn [Z.eqb Pos.eqb orb]. rewrite take_app_length' by done.
    assert (at_byte (4 :: x ++ y) 64 = back_byte y) as ->.
    { unfold at_byte. cbn [nth]. rewrite app_nth2 by lia. rewrite Hx.
      clear -Hy. known_length y. reflexivity. }
    assert (is_bytes (x ++ y)) as Hxy.
    { apply Forall_app in Hb as [_ Hb]. apply Forall_app in Hb as [Hb _]. by inversion_clear Hb. }
    set (b := back_byte y). assert (Z.lor 4 (Z.land b 1) = 4 + b mod 2 /\ 0 <= b mod 2 < 2) as [-> Hbit].
    { change 1 with (Z.ones 1). rewrite Z.land_ones by lia. change (2 ^ 1) with 2.
      pose proof (Z.mod_pos_bound b 2) as Hm. destruct (decide (b mod 2 = 0)) as [->|]; [done|].
      by replace (b mod 2) with 1 by lia. }
    eexists. split; [done|]. apply Unserialize_special.
    + unfold nSpecialScripts. lia.
    + rewrite Hx. unfold GetSpecialSize. destruct (decide (b mod 2 = 0)) as [->|]; [done|].
      by replace (b mod 2) with 1 by lia.
    + unfold Decompress. replace ((4 + b mod 2 =? 4) || (4 + b mod 2 =? 5)) with true
        by (destruct (decide (b mod 2 = 0)) as [->|]; [done|by replace (b mod 2) with 1 by lia]).
      rewrite !(proj2 (Z.eqb_neq (4 + b mod 2) _)) by lia. cbn [orb]. rewrite take_ge by lia.
      replace (4 + b mod 2 - 2) with (2 + b mod 2) by lia.
      assert (CPubKey_Set ((2 + b mod 2) :: x) = (2 + b mod 2) :: x /\ CPubKey_IsValid ((2 + b mod 2) :: x) = true) as [-> Hv].
      { unfold CPubKey_Set, CPubKey_IsValid, CPubKey_size, size. cbn [length]. rewrite Hx.
        change (at_byte ((2 + b mod 2) :: x) 0) with (2 + b mod 2).
        destruct (decide (b mod 2 = 0)) as [->|]; [done|]. by replace (b mod 2) with 1 by lia. }
      unfold CPubKey_Decompress. rewrite Hv. cbn [negb]. pose proof (uncompress_parity x y Hx Hy Hxy Hval) as Hu.
      fold b in Hu. rewrite Hu.
      assert (CPubKey_Set (4 :: x ++ y) = 4 :: x ++ y) as ->.
      { unfold CPubKey_Set, size. change (GetLen 4) with 65. cbn [length]. by rewrite length_app, Hx, Hy. }
      rewrite take_ge; [done|]. cbn [length]. rewrite length_app. lia.
Qed.

(** ** Properties *)

(** Amount compression is lossless: every amount below 2^60 (well above
    [MAX_MONEY]) compresses without wrap-around or failed assertion to a 64-bit
    number that decompresses to it. *)
Lemma CompressAmount_roundtrip (n : Z) (Hn : 0 <= n < 2 ^ 60) :
  exists x, CompressAmount n = Some x /\ is_u64 x /\ DecompressAmount x = n.
Proof. by apply amount_roundtrip. Qed.

Lemma CompressAmount_roundtrip_witness :
  CompressAmount (50 * COIN) = Some 50 /\
  exists x, CompressAmount (50 * COIN) = Some x /\ is_u64 x /\ DecompressAmount x = 50 * COIN.
Proof.
  split; [vm_compute; reflexivity|].
  apply (CompressAmount_roundtrip (50 * COIN)). vm_compute. split; congruence.
Defined.

(** Compressed outputs round trip: for every script of at most
    [MAX_SCRIPT_SIZE] bytes, in each special form and in the plain one, and every
    amount in [MoneyRange], the compressed output is read back unchanged and
    exactly its bytes are consumed. *)
Lemma TxOutCompressor_roundtrip (uncompress : list Z -> option (list Z)) (txout : CTxOut) (rest : list Z)
  (Hsecp : PointCompression uncompress) (Hv : MoneyRange (nValue txout) = true)
  (Hb : is_bytes (scriptPubKey txout)) (Hs : size (scriptPubKey txout) <= MAX_SCRIPT_SIZE) :
  exists bs, TxOutCompressor_Serialize uncompress txout = Some bs /\
    TxOutCompressor_Unserialize uncompress (bs ++ rest) = inr (txout, rest).
Proof.
  apply MoneyRange_iff in Hv. assert (MAX_MONEY < 2 ^ 60) by reflexivity.
  unfold TxOutCompressor_Serialize, TxOutCompressor_Unserialize.
  rewrite u64_id by (unfold is_u64; lia).
  destruct (amount_roundtrip (nValue txout)) as (x & -> & Hx & Hdx); [lia|]. monad.
  destruct (write_varint 64 x) as (v & -> & _ & Hrv); [exact Hx|lia|]. monad.
  destruct (script_roundtrip uncompress (scriptPubKey txout) rest Hsecp Hb Hs) as (s & -> & Hrs). monad.
  eexists. split; [done|]. unfold rbind. rewrite <- (assoc_L (++)), Hrv, Hrs, Hdx.
  rewrite s64_id by (unfold is_s64; lia). by destruct txout.
Qed.

(** A toy point set to instantiate the parameter: [y] is its parity bit. *)
Definition toy_uncompress (key : list Z) : option (list Z) :=
  match key with
  | h :: x =>
      if (h =? 2) || (h =? 3) then Some (4 :: x ++ replicate 31 0 ++ [h - 2])
      else if bool_decide (drop 32 x = replicate 31 0 ++ [0] \/ drop 32 x = replicate 31 0 ++ [1])
      then Some key else None
  | [] => None
  end.

#[global] Instance toy_point_compression : PointCompression toy_uncompress.
Proof.
  constructor. intros x y Hx Hy _ [z Hz]. cbn [toy_uncompress Z.eqb Pos.eqb orb] in Hz.
  rewrite drop_app_length' in Hz by done. case_bool_decide as Hd; [|done].
  by destruct Hd as [-> | ->].
Qed.

Lemma TxOutCompressor_roundtrip_witness :
  let o := {| nValue := 3 * COIN;
              scriptPubKey := [65; 4] ++ replicate 32 9 ++ replicate 31 0 ++ [1; OP_CHECKSIG] |} in
  exists bs, TxOutCompressor_Serialize toy_uncompress o = Some bs /\
    TxOutCompressor_Unserialize toy_uncompress (bs ++ [7]) = inr (o, [7]) /\ length bs = 34%nat.
Proof.
  intros o.
  destruct (TxOutCompressor_roundtrip toy_uncompress o [7]) as (bs & H1 & H2).
  - exact toy_point_compression.
  - reflexivity.
  - apply (bool_decide_unpack _). vm_compute. exact I.
  - vm_compute. discriminate.
  - exists bs. split; [exact H1|]. split; [exact H2|].
    vm_compute in H1. injection H1 as <-. reflexivity.
Defined.

End Compressor.
