(* ===== verification/Merkle.v ===== *)
(** * Blocks and merkle trees (src/primitives/block.{h,cpp}, src/merkleblock.{h,cpp})

    The merkle tree of a block, its branches, and the partial trees sent to
    lightweight clients.  The double SHA-256 [Hash] is a parameter of which only
    the output length is assumed; security statements are reductions that end in
    an explicit collision of [Hash].  A [uint256] is its 32 bytes; an index
    outside its vector is [None].  The [int] indices into [vMerkleTree] stay
    below [2 * vtx.size() + 32], and the theorems bound [vtx.size()] so that they
    fit. *)

From stdpp Require Import base list list_numbers numbers option gmap.
From Stdlib Require Import ZArith Lia.
From S2P Require Import Prelude Bytes Serialize Amount Transaction Chain.
Import Endian Serialize Transaction.

Module Merkle.

(** class CBlock; [txids] are the transactions' cached hashes *)
Record CBlock := {
  header : BlockIndex.CBlockHeader;
  vtx : list CTransaction;
  vMerkleTree : list (list Z)
}.

Definition set_vMerkleTree (b : CBlock) (t : list (list Z)) : CBlock :=
  {| header := header b; vtx := vtx b; vMerkleTree := t |}.

(** [v[i]], undefined behaviour out of range *)
Definition vec_at {A} (v : list A) (i : Z) : option A :=
  if 0 <=? i then v !! Z.to_nat i else None.

Definition uint256_zero : list Z := zero_blob 32.

Section merkle.
Context (Hash : list Z -> list Z) (GetHash : CTransaction -> list Z).

(** ** CBlock::BuildMerkleTree *)

(** [for (int i = 0; i < nSize; i += 2)] *)
Fixpoint level_loop (fuel : nat) (j i nSize : Z) (t : list (list Z)) (mutated : bool)
  : option (list (list Z) * bool) :=
  match fuel with
  | O => None
  | S fuel' =>
      if i <? nSize then
        let i2 := Z.min (i + 1) (nSize - 1) in
        a ← vec_at t (j + i);
        b ← vec_at t (j + i2);
        let mutated' :=
          if (i2 =? i + 1) && (i2 + 1 =? nSize) && bool_decide (a = b) then true else mutated in
        level_loop fuel' j (i + 2) nSize (t ++ [Hash (a ++ b)]) mutated'
      else Some (t, mutated)
  end.

(** [for (int nSize = vtx.size(); nSize > 1; nSize = (nSize + 1) / 2)] *)
Fixpoint tree_loop (fuel : nat) (j nSize : Z) (t : list (list Z)) (mutated : bool)
  : option (list (list Z) * bool) :=
  match fuel with
  | O => None
  | S fuel' =>
      if 1 <? nSize then
        r ← level_loop (S (Z.to_nat nSize)) j 0 nSize t mutated;
        tree_loop fuel' (j + nSize) ((nSize + 1) / 2) (fst r) (snd r)
      else Some (t, mutated)
  end.

(** The block with its cached tree, the root and [*fMutated]. *)
Definition BuildMerkleTree (b : CBlock) : option (CBlock * list Z * bool) :=
  let leaves := map GetHash (vtx b) in
  r ← tree_loop (S (length leaves)) 0 (s32 (Z.of_nat (length (vtx b)))) leaves false;
  Some (set_vMerkleTree b (fst r), default uint256_zero (last (fst r)), snd r).

(** ** CBlock::GetMerkleBranch, CBlock::CheckMerkleBranch *)

Fixpoint branch_loop (fuel : nat) (j nSize nIndex : Z) (t : list (list Z))
  : option (list (list Z)) :=
  match fuel with
  | O => None
  | S fuel' =>
      if 1 <? nSize then
        let i := Z.min (Z.lxor nIndex 1) (nSize - 1) in
        h ← vec_at t (j + i);
        br ← branch_loop fuel' (j + nSize) ((nSize + 1) / 2) (Z.shiftr nIndex 1) t;
        Some (h :: br)
      else Some []
  end.

Definition GetMerkleBranch (b : CBlock) (nIndex : Z) : option (CBlock * list (list Z)) :=
  b' ← (match vMerkleTree b with
        | [] => r ← BuildMerkleTree b; Some (fst (fst r))
        | _ => Some b
        end);
  br ← branch_loop (S (length (vtx b'))) 0 (s32 (Z.of_nat (length (vtx b')))) nIndex (vMerkleTree b');
  Some (b', br).

Fixpoint check_loop (hash : list Z) (vMerkleBranch : list (list Z)) (nIndex : Z) : list Z :=
  match vMerkleBranch with
  | [] => hash
  | it :: rest =>
      check_loop (if negb (Z.land nIndex 1 =? 0) then Hash (it ++ hash) else Hash (hash ++ it))
        rest (Z.shiftr nIndex 1)
  end.

Definition CheckMerkleBranch (hash : list Z) (vMerkleBranch : list (list Z)) (nIndex : Z) : list Z :=
  if nIndex =? -1 then uint256_zero else check_loop hash vMerkleBranch nIndex.

(** ** class CPartialMerkleTree *)

Definition MAX_BLOCK_SIZE : Z := 2000000.

Record CPartialMerkleTree := {
  nTransactions : Z; vBits : list bool; vHash : list (list Z); fBad : bool
}.

Definition CalcTreeWidth (nTransactions : Z) (height : nat) : Z :=
  Z.shiftr (u32 (nTransactions + Z.shiftl 1 (Z.of_nat height) - 1)) (Z.of_nat height).

Fixpoint CalcHash (n : Z) (height : nat) (pos : Z) (vTxid : list (list Z)) : option (list Z) :=
  match height with
  | O => vec_at vTxid pos
  | S h =>
      hl ← CalcHash n h (pos * 2) vTxid;
      hr ← (if pos * 2 + 1 <? CalcTreeWidth n h then CalcHash n h (pos * 2 + 1) vTxid
               else Some hl);
      Some (Hash (hl ++ hr))
  end.

(** [for (p = pos << height; p < (pos+1) << height && p < nTransactions; p++)] *)
Fixpoint match_loop (fuel : nat) (p hi n : Z) (vMatch : list bool) (fParentOfMatch : bool)
  : option bool :=
  match fuel with
  | O => None
  | S fuel' =>
      if (p <? hi) && (p <? n) then
        m ← vec_at vMatch p;
        match_loop fuel' (p + 1) hi n vMatch (fParentOfMatch || m)
      else Some fParentOfMatch
  end.

(** [vBits] and [vHash] are extended in place: the pair is threaded. *)
Fixpoint TraverseAndBuild (n : Z) (height : nat) (pos : Z) (vTxid : list (list Z))
    (vMatch : list bool) (st : list bool * list (list Z)) : option (list bool * list (list Z)) :=
  fParentOfMatch ← match_loop (S (Z.to_nat (Z.shiftl 1 (Z.of_nat height))))
                     (Z.shiftl pos (Z.of_nat height)) (Z.shiftl (pos + 1) (Z.of_nat height)) n vMatch false;
  let bits := fst st ++ [fParentOfMatch] in
  match height with
  | O => h ← CalcHash n O pos vTxid; Some (bits, snd st ++ [h])
  | S h' =>
      if negb fParentOfMatch then h ← CalcHash n (S h') pos vTxid; Some (bits, snd st ++ [h])
      else
        st1 ← TraverseAndBuild n h' (pos * 2) vTxid vMatch (bits, snd st);
        if pos * 2 + 1 <? CalcTreeWidth n h'
        then TraverseAndBuild n h' (pos * 2 + 1) vTxid vMatch st1
        else Some st1
  end.

(** [while (CalcTreeWidth(nHeight) > 1) nHeight++;] *)
Fixpoint height_loop (fuel : nat) (n : Z) (nHeight : nat) : option nat :=
  match fuel with
  | O => None
  | S fuel' =>
      if 1 <? CalcTreeWidth n nHeight then height_loop fuel' n (S nHeight) else Some nHeight
  end.

Definition CPartialMerkleTree_of (vTxid : list (list Z)) (vMatch : list bool)
  : option CPartialMerkleTree :=
  let n := u32 (Z.of_nat (length vTxid)) in
  nHeight ← height_loop 33 n 0;
  r ← TraverseAndBuild n nHeight 0 vTxid vMatch ([], []);
  Some {| nTransactions := n; vBits := fst r; vHash := snd r; fBad := false |}.

Definition CPartialMerkleTree_default : CPartialMerkleTree :=
  {| nTransactions := 0; vBits := []; vHash := []; fBad := true |}.

(** The variables [TraverseAndExtract] updates. *)
Record extract_state := {
  nBitsUsed : nat; nHashUsed : nat; matches : list (list Z); bad : bool
}.

Fixpoint TraverseAndExtract (t : CPartialMerkleTree) (height : nat) (pos : Z) (st : extract_state)
  : list Z * extract_state :=
  let failed s := {| nBitsUsed := nBitsUsed s; nHashUsed := nHashUsed s; matches := matches s; bad := true |} in
  match vBits t !! nBitsUsed st with
  | None => (uint256_zero, failed st)
  | Some fParentOfMatch =>
      let st := {| nBitsUsed := S (nBitsUsed st); nHashUsed := nHashUsed st;
                   matches := matches st; bad := bad st |} in
      let leaf (at_zero : bool) :=
        match vHash t !! nHashUsed st with
        | None => (uint256_zero, failed st)
        | Some hash =>
            (hash, {| nBitsUsed := nBitsUsed st; nHashUsed := S (nHashUsed st);
                      matches := if at_zero && fParentOfMatch then matches st ++ [hash] else matches st;
                      bad := bad st |})
        end in
      match height with
      | O => leaf true
      | S h =>
          if negb fParentOfMatch then leaf false
          else
            let '(hl, st1) := TraverseAndExtract t h (pos * 2) st in
            if pos * 2 + 1 <? CalcTreeWidth (nTransactions t) h then
              let '(hr, st2) := TraverseAndExtract t h (pos * 2 + 1) st1 in
              (Hash (hl ++ hr), if bool_decide (hr = hl) then failed st2 else st2)
            else (Hash (hl ++ hl), st1)
      end
  end.

(** The root (zero on failure) and [vMatch]; [fBad] of the object is or-ed in. *)
Definition ExtractMatches (t : CPartialMerkleTree) : option (list Z * list (list Z)) :=
  if nTransactions t =? 0 then Some (uint256_zero, [])
  else if nTransactions t >? MAX_BLOCK_SIZE / 60 then Some (uint256_zero, [])
  else if Z.of_nat (length (vHash t)) >? nTransactions t then Some (uint256_zero, [])
  else if (length (vBits t) <? length (vHash t))%nat then Some (uint256_zero, [])
  else
    nHeight ← height_loop 33 (nTransactions t) 0;
    let '(hashMerkleRoot, st) :=
      TraverseAndExtract t nHeight 0 {| nBitsUsed := 0; nHashUsed := 0; matches := []; bad := fBad t |} in
    if bad st then Some (uint256_zero, matches st)
    else if negb ((nBitsUsed st + 7) / 8 =? (length (vBits t) + 7) / 8)%nat then Some (uint256_zero, matches st)
    else if negb (nHashUsed st =? length (vHash t))%nat then Some (uint256_zero, matches st)
    else Some (hashMerkleRoot, matches st).

(** ** The reference tree

    [pair_up] computes the next level, duplicating an odd last hash; [level k]
    is the k-th level above the leaves. *)

Fixpoint pair_up (l : list (list Z)) : list (list Z) :=
  match l with
  | a :: b :: l' => Hash (a ++ b) :: pair_up l'
  | [a] => [Hash (a ++ a)]
  | [] => []
  end.

Fixpoint level (k : nat) (l : list (list Z)) : list (list Z) :=
  match k with O => l | S k' => level k' (pair_up l) end.

Definition merkle_height (n : nat) : nat := Nat.log2_up n.

Definition merkle_root (l : list (list Z)) : list Z :=
  default uint256_zero (head (level (merkle_height (length l)) l)).

(** The last two hashes of an even level coincide. *)
Fixpoint tail_dup (l : list (list Z)) : bool :=
  match l with
  | [a; b] => bool_decide (a = b)
  | _ :: _ :: l' => tail_dup l'
  | _ => false
  end.

Fixpoint tree_nodes (d : nat) (l : list (list Z)) : list (list Z) :=
  match d with O => l | S d' => l ++ tree_nodes d' (pair_up l) end.

Fixpoint mutated_below (d : nat) (l : list (list Z)) : bool :=
  match d with O => false | S d' => tail_dup l || mutated_below d' (pair_up l) end.

Lemma pair_ind (P : list (list Z) -> Prop) :
  P [] -> (forall a, P [a]) -> (forall a b l, P l -> P (a :: b :: l)) -> forall l, P l.
Proof.
  intros H0 H1 H2. fix IH 1. intros [|a [|b l]]; [done|done|]. apply H2, IH.
Qed.

Lemma length_pair_up l : length (pair_up l) = ((length l + 1) / 2)%nat.
Proof.
  induction l as [| |a b l IH] using pair_ind; [done|done|].
  cbn [pair_up length]. rewrite IH.
  replace (S (S (length l)) + 1)%nat with (1 * 2 + (length l + 1))%nat by lia.
  rewrite Nat.div_add_l by lia. lia.
Qed.

Lemma height_step n : (1 < n)%nat -> merkle_height n = S (merkle_height ((n + 1) / 2)).
Proof.
  intros Hn. unfold merkle_height. destruct (Nat.Even_or_Odd n) as [[k ->]|[k ->]].
  - replace ((2 * k + 1) / 2)%nat with k by (apply (Nat.div_unique _ 2 _ 1); lia). apply Nat.log2_up_double. lia.
  - replace ((2 * k + 1 + 1) / 2)%nat with (k + 1)%nat by (apply (Nat.div_unique _ 2 _ 0); lia).
    rewrite Nat.log2_up_succ_double by lia. rewrite (Nat.log2_up_eqn (k + 1)) by lia.
    by replace (Nat.pred (k + 1)) with k by lia.
Qed.

Lemma vec_at_app {A} (pre rest : list A) (x : A) i :
  i = Z.of_nat (length pre) -> vec_at (pre ++ x :: rest) i = Some x.
Proof.
  intros ->. unfold vec_at. rewrite (proj2 (Z.leb_le _ _)) by lia.
  rewrite Nat2Z.id. by rewrite list_lookup_middle.
Qed.

Lemma level_loop_spec rest : forall fuel j i nSize pre done m,
  (length rest < fuel)%nat ->
  Z.of_nat (length pre) = j + i -> 0 <= i -> 0 <= j -> nSize = i + Z.of_nat (length rest) ->
  level_loop fuel j i nSize (pre ++ rest ++ done) m =
    Some (pre ++ rest ++ done ++ pair_up rest, m || tail_dup rest).
Proof.
  induction rest as [|a|a b rest IH] using pair_ind;
    intros [|fuel] j i nSize pre done m Hf Hj Hi Hj0 Hn; cbn [length] in *; try lia.
  - cbn [level_loop]. rewrite (proj2 (Z.ltb_ge _ _)) by lia. simpl. by rewrite app_nil_r, orb_false_r.
  - destruct fuel as [|fuel]; [lia|]. cbn [level_loop].
    rewrite (proj2 (Z.ltb_lt i nSize)) by lia.
    replace (Z.min (i + 1) (nSize - 1)) with i by lia. cbn [app].
    rewrite !vec_at_app by lia. monad.
    rewrite (proj2 (Z.eqb_neq i (i + 1))) by lia. cbn [andb].
    rewrite (proj2 (Z.ltb_ge _ _)) by lia. cbn [pair_up tail_dup].
    rewrite orb_false_r. by rewrite <- app_assoc.
  - cbn [level_loop].
    rewrite (proj2 (Z.ltb_lt i nSize)) by lia.
    replace (Z.min (i + 1) (nSize - 1)) with (i + 1) by lia. cbn [app].
    rewrite (vec_at_app pre (b :: rest ++ done) a (j + i)) by lia. monad.
    replace (pre ++ a :: b :: rest ++ done) with ((pre ++ [a]) ++ b :: rest ++ done)
      by (by rewrite <- app_assoc).
    rewrite vec_at_app by (rewrite length_app; cbn; lia). monad.
    rewrite (proj2 (Z.eqb_eq _ _) eq_refl). cbn [andb].
    replace (((pre ++ [a]) ++ b :: rest ++ done) ++ [Hash (a ++ b)])
      with ((pre ++ [a; b]) ++ rest ++ (done ++ [Hash (a ++ b)]))
      by (rewrite <- !app_assoc; cbn; by rewrite <- !app_assoc).
    rewrite IH by (rewrite ?length_app; cbn [length]; lia).
    f_equal. f_equal.
    + cbn [pair_up]. rewrite <- ?app_assoc. cbn [app]. by rewrite <- ?app_assoc.
    + cbn [tail_dup]. destruct rest as [|c rest].
      * rewrite (proj2 (Z.eqb_eq (i + 1 + 1) nSize)) by (cbn in Hn; lia). cbn [andb].
        case_bool_decide; destruct m; done.
      * rewrite (proj2 (Z.eqb_neq (i + 1 + 1) nSize)) by (cbn [length] in Hn; lia). done.
Qed.

Lemma half_up n : (Z.of_nat n + 1) / 2 = Z.of_nat ((n + 1) / 2).
Proof. rewrite Nat2Z.inj_div. by rewrite Nat2Z.inj_add. Qed.

Lemma half_up_lt n : (1 < n)%nat -> ((n + 1) / 2 < n)%nat.
Proof. intros Hn. apply Nat.Div0.div_lt_upper_bound. lia. Qed.

Lemma tree_loop_spec fuel : forall l pre m,
  (length l < fuel)%nat ->
  tree_loop fuel (Z.of_nat (length pre)) (Z.of_nat (length l)) (pre ++ l) m =
    Some (pre ++ tree_nodes (merkle_height (length l)) l,
          m || mutated_below (merkle_height (length l)) l).
Proof.
  induction fuel as [|fuel IH]; intros l pre m Hf; [lia|]. cbn [tree_loop].
  destruct (decide (1 < length l)%nat) as [Hl|Hl].
  - rewrite (proj2 (Z.ltb_lt _ _)) by lia.
    replace (pre ++ l) with (pre ++ l ++ []) by (by rewrite app_nil_r).
    rewrite level_loop_spec by lia. monad. cbn [fst snd app].
    rewrite half_up, <- length_pair_up, <- Nat2Z.inj_add, <- length_app, app_assoc.
    rewrite IH by (rewrite length_pair_up; pose proof (half_up_lt _ Hl); lia).
    rewrite (height_step (length l)) by done. rewrite <- length_pair_up.
    cbn [tree_nodes mutated_below]. by rewrite <- app_assoc, orb_assoc.
  - rewrite (proj2 (Z.ltb_ge _ _)) by lia.
    assert (merkle_height (length l) = 0%nat) as -> by (destruct (length l) as [|[|]]; [done|done|lia]).
    cbn [tree_nodes mutated_below]. by rewrite orb_false_r.
Qed.

(** A level below the top is followed, in the node list, by the levels above it. *)
Lemma last_tree_nodes d : forall l,
  (0 < length l)%nat -> (length (level d l) = 1)%nat -> last (tree_nodes d l) = head (level d l).
Proof.
  induction d as [|d IH]; intros l Hl H1; cbn [tree_nodes level] in *.
  - by destruct l as [|a [|]].
  - assert (0 < length (pair_up l))%nat as Hp by (rewrite length_pair_up; apply Nat.div_str_pos; lia).
    specialize (IH _ Hp H1). rewrite last_app. rewrite IH.
    destruct (level d (pair_up l)) as [|x xs] eqn:E; [by cbn in H1|done].
Qed.

Lemma level_top l :
  (0 < length l)%nat -> length (level (merkle_height (length l)) l) = 1%nat.
Proof.
  remember (length l) as n eqn:En. revert l En.
  induction n as [n IH] using lt_wf_ind. intros l -> Hl.
  destruct (decide (1 < length l)%nat) as [H1|H1].
  - rewrite height_step by done. cbn [level]. rewrite <- length_pair_up.
    apply (IH (length (pair_up l))); [|done|].
    + rewrite length_pair_up. by apply half_up_lt.
    + rewrite length_pair_up. apply Nat.div_str_pos. lia.
  - assert (length l = 1%nat) as E by lia. rewrite E. exact E.
Qed.

(** [BuildMerkleTree] returns the reference root and caches every level. *)
Lemma BuildMerkleTree_spec b :
  Z.of_nat (length (vtx b)) < 2 ^ 29 ->
  let l := map GetHash (vtx b) in let d := merkle_height (length l) in
  BuildMerkleTree b =
    Some (set_vMerkleTree b (tree_nodes d l), merkle_root l, mutated_below d l).
Proof.
  intros Hn l d. unfold BuildMerkleTree. fold l.
  rewrite s32_id by (change (2 ^ 29) with 536870912 in Hn; width).
  replace (length (vtx b)) with (length l) by apply length_map.
  pose proof (tree_loop_spec (S (length l)) l [] false) as E. cbn [length app orb] in E.
  change (Z.of_nat 0) with 0 in E. rewrite E by lia. monad. cbn [fst snd].
  do 3 f_equal. unfold merkle_root. fold d.
  destruct (decide (0 < length l)%nat) as [Hl|Hl].
  - by rewrite last_tree_nodes by (try apply level_top; done).
  - by destruct l; [|cbn in Hl; lia].
Qed.

(** ** Branches *)

Lemma sibling_even k : Z.lxor (Z.of_nat (2 * k)) 1 = Z.of_nat (2 * k) + 1.
Proof.
  replace (Z.of_nat (2 * k)) with (2 * Z.of_nat k) by lia.
  by destruct (Z.of_nat k) as [|[p|p|]|[p|p|]] eqn:E; try lia.
Qed.
Lemma sibling_odd k : Z.lxor (Z.of_nat (2 * k + 1)) 1 = Z.of_nat (2 * k).
Proof.
  replace (Z.of_nat (2 * k + 1)) with (2 * Z.of_nat k + 1) by lia.
  replace (Z.of_nat (2 * k)) with (2 * Z.of_nat k) by lia.
  by destruct (Z.of_nat k) as [|[p|p|]|[p|p|]] eqn:E; try lia.
Qed.

(** The node above position [i] hashes [i] with its sibling. *)
Lemma pair_up_lookup l : forall k,
  (2 * k < length l)%nat ->
  exists a b, l !! (2 * k)%nat = Some a /\ l !! Nat.min (2 * k + 1) (length l - 1) = Some b /\
    pair_up l !! k = Some (Hash (a ++ b)).
Proof.
  induction l as [|a|a b l IH] using pair_ind; intros k Hk; cbn [length] in Hk; [lia| |].
  - replace k with 0%nat by lia. by exists a, a.
  - destruct k as [|k].
    + exists a, b. split; [done|]. split; [|done]. cbn [length].
      by replace (Nat.min (2 * 0 + 1) (S (S (length l)) - 1)) with 1%nat by lia.
    + destruct (IH k) as (x & y & Hx & Hy & Hp); [lia|]. exists x, y. cbn [length].
      replace (2 * S k)%nat with (S (S (2 * k))) by lia. split; [done|]. split; [|done].
      by replace (Nat.min (S (S (2 * k)) + 1) (S (S (length l)) - 1))
        with (S (S (Nat.min (2 * k + 1) (length l - 1)))) by lia.
Qed.

Lemma vec_at_offset {A} (pre l rest : list A) (s : nat) x :
  l !! s = Some x -> vec_at (pre ++ l ++ rest) (Z.of_nat (length pre) + Z.of_nat s) = Some x.
Proof.
  intros Hs. unfold vec_at. rewrite (proj2 (Z.leb_le _ _)) by lia.
  replace (Z.to_nat (Z.of_nat (length pre) + Z.of_nat s)) with (length pre + s)%nat by lia.
  rewrite lookup_app_r by lia. replace (length pre + s - length pre)%nat with s by lia.
  rewrite lookup_app_l; [done|]. by eapply lookup_lt_Some.
Qed.

(** One step of a branch: the sibling that is read, the bit that is tested and
    the parent that results. *)
Lemma branch_step l i x :
  (1 < length l)%nat -> l !! i = Some x ->
  exists s sib, Z.min (Z.lxor (Z.of_nat i) 1) (Z.of_nat (length l) - 1) = Z.of_nat s /\
    l !! s = Some sib /\ Z.shiftr (Z.of_nat i) 1 = Z.of_nat (i / 2) /\
    pair_up l !! (i / 2)%nat =
      Some (if negb (Z.land (Z.of_nat i) 1 =? 0) then Hash (sib ++ x) else Hash (x ++ sib)).
Proof.
  intros Hl Hx. pose proof (lookup_lt_Some _ _ _ Hx) as Hi.
  rewrite Z.shiftr_div_pow2 by lia. change (2 ^ 1) with 2.
  change (Z.land (Z.of_nat i) 1) with (Z.land (Z.of_nat i) (Z.ones 1)). rewrite Z.land_ones by lia.
  change (2 ^ 1) with 2.
  assert (Z.of_nat i / 2 = Z.of_nat (i / 2)) as -> by (by rewrite Nat2Z.inj_div).
  destruct (Nat.Even_or_Odd i) as [[k ->]|[k ->]].
  - replace ((2 * k) / 2)%nat with k by (apply (Nat.div_unique _ 2 _ 0); lia).
    replace (Z.of_nat (2 * k) mod 2) with 0 by (apply (Z.mod_unique_pos _ _ (Z.of_nat k)); lia).
    cbn [Z.eqb negb]. destruct (pair_up_lookup l k Hi) as (a & b & Ha & Hb & Hp).
    exists (Nat.min (2 * k + 1) (length l - 1)), b. rewrite sibling_even.
    split; [lia|]. split; [done|]. split; [done|]. rewrite Hp. by simplify_eq.
  - replace ((2 * k + 1) / 2)%nat with k by (apply (Nat.div_unique _ 2 _ 1); lia).
    replace (Z.of_nat (2 * k + 1) mod 2) with 1 by (apply (Z.mod_unique_pos _ _ (Z.of_nat k)); lia).
    cbn [Z.eqb negb]. destruct (pair_up_lookup l k ltac:(lia)) as (a & b & Ha & Hb & Hp).
    exists (2 * k)%nat, a. rewrite sibling_odd.
    split; [lia|]. split; [done|]. split; [done|]. rewrite Hp.
    replace (Nat.min (2 * k + 1) (length l - 1)) with (2 * k + 1)%nat in Hb by lia. by simplify_eq.
Qed.

Lemma branch_loop_spec fuel : forall l pre rest i x,
  (length l < fuel)%nat -> l !! i = Some x ->
  let d := merkle_height (length l) in
  exists br,
    branch_loop fuel (Z.of_nat (length pre)) (Z.of_nat (length l)) (Z.of_nat i)
      (pre ++ tree_nodes d l ++ rest) = Some br /\
    head (level d l) = Some (check_loop x br (Z.of_nat i)).
Proof.
  induction fuel as [|fuel IH]; intros l pre rest i x Hf Hx d; [lia|]. cbn [branch_loop].
  destruct (decide (1 < length l)%nat) as [Hl|Hl].
  - rewrite (proj2 (Z.ltb_lt _ _)) by lia.
    destruct (branch_step l i x Hl Hx) as (s & sib & Hs & Hsib & Hsh & Hp).
    rewrite Hs, Hsh, half_up, <- length_pair_up, <- Nat2Z.inj_add. subst d.
    rewrite (height_step (length l)) by done. rewrite <- length_pair_up. cbn [tree_nodes level].
    rewrite <- app_assoc.
    rewrite (vec_at_offset _ _ _ s sib Hsib). monad.
    assert (length (pair_up l) < fuel)%nat as Hf'
      by (rewrite length_pair_up; pose proof (half_up_lt _ Hl); lia).
    destruct (IH (pair_up l) (pre ++ l) rest (i / 2)%nat _ Hf' Hp) as (br & Hbr & Hroot).
    rewrite length_app, <- app_assoc in Hbr. rewrite Hbr. monad.
    exists (sib :: br). split; [done|]. rewrite Hroot. cbn [check_loop]. by rewrite Hsh.
  - rewrite (proj2 (Z.ltb_ge _ _)) by lia. exists []. split; [done|]. subst d.
    pose proof (lookup_lt_Some _ _ _ Hx) as Hi.
    destruct l as [|y [|]]; cbn [length] in *; [lia| |lia].
    by destruct i; [|done]; cbn in Hx |- *.
Qed.

(** ** Collisions

    The security statements are reductions to this. *)

Definition collision : Prop := exists x y, x <> y /\ Hash x = Hash y.

Definition hashes (l : list (list Z)) : Prop := Forall (fun x => length x = 32%nat) l.

Context (Hash_length : forall x, length (Hash x) = 32%nat).

Lemma hash_pair_inj a b c d :
  length a = 32%nat -> length c = 32%nat -> Hash (a ++ b) = Hash (c ++ d) ->
  (a = c /\ b = d) \/ collision.
Proof.
  intros Ha Hc E. destruct (decide (a ++ b = c ++ d)) as [Heq|Hne].
  - left. apply app_inj_1; [lia|done].
  - right. by exists (a ++ b), (c ++ d).
Qed.

Lemma hashes_pair_up l : hashes (pair_up l).
Proof. unfold hashes. induction l as [| |a b l IH] using pair_ind; cbn [pair_up]; auto. Qed.

Lemma hashes_level k l : hashes l -> hashes (level k l).
Proof. revert l. induction k; intros l Hl; [done|]. apply IHk, hashes_pair_up. Qed.

Lemma pair_up_inj l1 : forall l2,
  hashes l1 -> hashes l2 -> tail_dup l1 = false -> tail_dup l2 = false ->
  pair_up l1 = pair_up l2 -> l1 = l2 \/ collision.
Proof.
  unfold hashes. induction l1 as [|a|a b l1 IH] using pair_ind;
    intros [|c [|d l2]] H1 H2 D1 D2 E; try discriminate E; [by left| | | |];
    cbn [pair_up] in E; pose proof (f_equal (@List.tl _) E) as Erest;
    apply (f_equal (List.hd [])) in E; cbn [List.tl List.hd] in E, Erest; decompose_Forall_hyps;
    (apply hash_pair_inj in E as [[? ?]|Hc]; [subst|by right|done|done]).
  - by left.
  - destruct l2 as [|? [|]]; try discriminate Erest. cbn in D2. by case_bool_decide.
  - destruct l1 as [|? [|]]; try discriminate Erest. cbn in D1. by case_bool_decide.
  - destruct (IH l2) as [->|Hc]; auto.
    + destruct l1; [done|by cbn in D1].
    + destruct l2; [done|by cbn in D2].
Qed.

Lemma level_inj k : forall l1 l2,
  hashes l1 -> hashes l2 -> mutated_below k l1 = false -> mutated_below k l2 = false ->
  level k l1 = level k l2 -> l1 = l2 \/ collision.
Proof.
  induction k as [|k IH]; intros l1 l2 H1 H2 M1 M2 E; [by left|]. cbn [level mutated_below] in *.
  apply orb_false_iff in M1 as [D1 M1], M2 as [D2 M2].
  destruct (IH _ _ (hashes_pair_up l1) (hashes_pair_up l2) M1 M2 E) as [Ep|Hc]; [|by right].
  by apply pair_up_inj.
Qed.

Lemma level_add m k l : level (m + k) l = level k (level m l).
Proof. revert l. induction m as [|m IH]; intros l; [done|]. apply IH. Qed.

Lemma mutated_below_add m k l :
  mutated_below (m + k) l = mutated_below m l || mutated_below k (level m l).
Proof.
  revert l. induction m as [|m IH]; intros l; [done|]. cbn [mutated_below level plus].
  by rewrite IH, orb_assoc.
Qed.

Lemma pair_up_inner l : hashes l -> Forall (fun y => exists x, length x = 64%nat /\ y = Hash x) (pair_up l).
Proof.
  unfold hashes. induction l as [|a|a b l IH] using pair_ind; intros Hl; cbn [pair_up];
    decompose_Forall_hyps; constructor; auto.
  - exists (a ++ a). by rewrite length_app; split; [lia|].
  - exists (a ++ b). by rewrite length_app; split; [lia|].
Qed.

Lemma level_inner k l y :
  hashes l -> y ∈ level (S k) l -> exists x, length x = 64%nat /\ y = Hash x.
Proof.
  replace (S k) with (k + 1)%nat by lia. rewrite level_add. cbn [level].
  intros Hl Hy. pose proof (pair_up_inner _ (hashes_level k l Hl)) as H.
  rewrite List.Forall_forall in H. apply H. by apply list_elem_of_In.
Qed.

(** Two unmutated trees with one root have the same leaves, unless a collision
    or a leaf that is itself an inner node is exhibited. *)
Lemma same_root_le l1 l2 :
  hashes l1 -> hashes l2 -> (0 < length l1)%nat -> (0 < length l2)%nat ->
  let d1 := merkle_height (length l1) in let d2 := merkle_height (length l2) in
  (d1 <= d2)%nat -> mutated_below d1 l1 = false -> mutated_below d2 l2 = false ->
  merkle_root l1 = merkle_root l2 ->
  l1 = l2 \/ collision \/ exists x, length x = 64%nat /\ Hash x ∈ l1.
Proof.
  intros H1 H2 P1 P2 d1 d2 Hd M1 M2 E.
  assert (level d1 l1 = level d2 l2) as El.
  { unfold merkle_root in E. fold d1 d2 in E.
    pose proof (level_top l1 P1) as T1. pose proof (level_top l2 P2) as T2. fold d1 in T1. fold d2 in T2.
    destruct (level d1 l1) as [|x [|]]; cbn in T1; try lia.
    destruct (level d2 l2) as [|y [|]]; cbn in T2; try lia. by cbn in E; subst. }
  replace d2 with ((d2 - d1) + d1)%nat in El, M2 by lia.
  rewrite level_add in El. rewrite mutated_below_add in M2. apply orb_false_iff in M2 as [_ M2].
  destruct (level_inj d1 l1 (level (d2 - d1) l2) H1) as [Eq|Hc]; auto; [by apply hashes_level|].
  destruct (d2 - d1)%nat as [|k] eqn:Ek; [by left|]. right. right.
  destruct l1 as [|y l1]; [cbn in P1; lia|].
  destruct (level_inner k l2 y H2) as (x & Hx & ->).
  { rewrite <- Eq. constructor. }
  exists x. split; [done|]. constructor.
Qed.

(** ** Partial trees

    Heights stay at most 16 because a block has at most
    [MAX_BLOCK_SIZE / 60 = 33333] transactions. *)

Lemma level_S k l : level (S k) l = pair_up (level k l).
Proof. replace (S k) with (k + 1)%nat by lia. by rewrite level_add. Qed.

Lemma length_level k l :
  Z.of_nat (length (level k l)) = (Z.of_nat (length l) + 2 ^ Z.of_nat k - 1) / 2 ^ Z.of_nat k.
Proof.
  induction k as [|k IH].
  - change (2 ^ Z.of_nat 0) with 1. rewrite Z.div_1_r. cbn [level]. lia.
  - rewrite level_S, length_pair_up, <- half_up, IH.
    rewrite Nat2Z.inj_succ, Z.pow_succ_r by lia.
    set (n := Z.of_nat (length l)). set (w := 2 ^ Z.of_nat k).
    assert (0 < w) by (unfold w; apply Z.pow_pos_nonneg; lia).
    rewrite (Z.mul_comm 2 w), <- Z.div_div by lia. f_equal.
    replace (n + w * 2 - 1) with (n + w - 1 + 1 * w) by lia. by rewrite Z.div_add by lia.
Qed.

Lemma CalcTreeWidth_spec l h :
  Z.of_nat (length l) <= 33333 -> (h <= 16)%nat ->
  CalcTreeWidth (Z.of_nat (length l)) h = Z.of_nat (length (level h l)).
Proof.
  intros Hn Hh. rewrite length_level. unfold CalcTreeWidth.
  rewrite Z.shiftl_mul_pow2, Z.mul_1_l, Z.shiftr_div_pow2 by lia. f_equal.
  assert (1 <= 2 ^ Z.of_nat h <= 2 ^ 16).
  { split; [apply (Z.pow_le_mono_r 2 0); lia|apply Z.pow_le_mono_r; lia]. }
  change (2 ^ 16) with 65536 in *. apply u32_id. unfold is_u32. change (2 ^ 32) with 4294967296. lia.
Qed.

Lemma length_level_lt k l pos :
  (pos < length (level (S k) l))%nat -> (2 * pos < length (level k l))%nat.
Proof.
  rewrite level_S, length_pair_up. intros H.
  assert (2 * ((length (level k l) + 1) / 2) <= length (level k l) + 1)%nat
    by (apply Nat.Div0.mul_div_le). lia.
Qed.

Lemma CalcHash_spec l h pos :
  Z.of_nat (length l) <= 33333 -> (h <= 16)%nat -> (pos < length (level h l))%nat ->
  CalcHash (Z.of_nat (length l)) h (Z.of_nat pos) l = level h l !! pos.
Proof.
  intros Hn. revert pos. induction h as [|h IH]; intros pos Hh Hp.
  - cbn [CalcHash level]. unfold vec_at. rewrite (proj2 (Z.leb_le _ _)) by lia. by rewrite Nat2Z.id.
  - pose proof (length_level_lt h l pos Hp) as Hp'. cbn [CalcHash].
    replace (Z.of_nat pos * 2) with (Z.of_nat (2 * pos)) by lia.
    replace (Z.of_nat (2 * pos) + 1) with (Z.of_nat (2 * pos + 1)) by lia.
    rewrite CalcTreeWidth_spec, level_S by lia.
    destruct (pair_up_lookup (level h l) pos Hp') as (a & b & Ha & Hb & ->).
    rewrite (IH (2 * pos)%nat), Ha by lia. monad. destruct (Z.ltb_spec (Z.of_nat (2 * pos + 1)) (Z.of_nat (length (level h l)))).
    + rewrite IH by lia. rewrite Nat.min_l in Hb by lia. by rewrite Hb.
    + rewrite Nat.min_r in Hb by lia. replace (length (level h l) - 1)%nat with (2 * pos)%nat in Hb by lia.
      by simplify_eq.
Qed.

(** Distinct leaves give distinct nodes on every level. *)
Lemma node_inj h : forall l p q x,
  hashes l -> NoDup l -> level h l !! p = Some x -> level h l !! q = Some x -> p = q \/ collision.
Proof.
  induction h as [|h IH]; intros l p q x Hl Hd Hp Hq.
  - left. by eapply NoDup_lookup.
  - pose proof (length_level_lt h l p (lookup_lt_Some _ _ _ Hp)) as Lp.
    pose proof (length_level_lt h l q (lookup_lt_Some _ _ _ Hq)) as Lq.
    rewrite level_S in Hp, Hq.
    destruct (pair_up_lookup _ p Lp) as (a & b & Ha & _ & Ep).
    destruct (pair_up_lookup _ q Lq) as (c & d & Hc & _ & Eq).
    rewrite Ep in Hp. rewrite Eq in Hq. injection Hp as <-. injection Hq as Hh.
    pose proof (hashes_level h l Hl) as Hall. unfold hashes in Hall. rewrite Forall_lookup in Hall.
    apply hash_pair_inj in Hh as [[-> _]|Hc']; [|by right|by eapply Hall|by eapply Hall].
    destruct (IH l _ _ _ Hl Hd Ha Hc) as [|Hcol]; [left; lia|by right].
Qed.

(** The leaves below a node, and those of them that are marked. *)
Definition window {A} (h pos : nat) (l : list A) : list A := take (2 ^ h) (drop (pos * 2 ^ h) l).
Fixpoint select (l : list (list Z)) (m : list bool) : list (list Z) :=
  match l, m with
  | x :: l', b :: m' => if b then x :: select l' m' else select l' m'
  | _, _ => []
  end.

Lemma select_app l1 l2 m1 m2 :
  length l1 = length m1 -> select (l1 ++ l2) (m1 ++ m2) = select l1 m1 ++ select l2 m2.
Proof.
  revert m1. induction l1 as [|x l1 IH]; intros [|b m1] H; try discriminate H; [done|].
  cbn [app select]. rewrite IH by (cbn in H; lia). by destruct b.
Qed.

Lemma select_none l m : existsb id m = false -> select l m = [].
Proof.
  revert l. induction m as [|b m IH]; intros [|x l] H; try done. cbn in H |- *.
  apply orb_false_iff in H as [-> H]. by apply IH.
Qed.

Lemma window_S {A} h pos (l : list A) :
  window (S h) pos l = window h (2 * pos) l ++ window h (2 * pos + 1) l.
Proof.
  unfold window. rewrite Nat.pow_succ_r'.
  replace (2 * 2 ^ h)%nat with (2 ^ h + 2 ^ h)%nat by lia. rewrite <- take_take_drop.
  rewrite drop_drop. f_equal; [|f_equal]; do 2 f_equal; lia.
Qed.

Lemma level_cover h l : (length l <= length (level h l) * 2 ^ h)%nat.
Proof.
  induction h as [|h IH]; [cbn; lia|]. rewrite level_S, length_pair_up, Nat.pow_succ_r'.
  pose proof (Nat.div_mod (length (level h l) + 1) 2 ltac:(lia)).
  pose proof (Nat.mod_upper_bound (length (level h l) + 1) 2 ltac:(lia)). nia.
Qed.

Lemma level_inside h l pos : (pos < length (level h l) -> pos * 2 ^ h < length l)%nat.
Proof.
  revert pos. induction h as [|h IH]; intros pos Hp; [cbn in *; lia|].
  apply length_level_lt, IH in Hp. rewrite Nat.pow_succ_r'. lia.
Qed.

Lemma window_beyond {A} h pos (l : list A) : (length l <= pos * 2 ^ h)%nat -> window h pos l = [].
Proof. intros H. unfold window. rewrite drop_ge by done. by rewrite take_nil. Qed.

Lemma length_window {A B} h pos (l : list A) (m : list B) :
  length l = length m -> length (window h pos l) = length (window h pos m).
Proof. intros H. unfold window. rewrite !length_take, !length_drop. lia. Qed.

Lemma match_loop_spec vMatch fuel : forall p hi acc,
  (p <= hi)%nat -> (hi - p < fuel)%nat ->
  match_loop fuel (Z.of_nat p) (Z.of_nat hi) (Z.of_nat (length vMatch)) vMatch acc =
    Some (acc || existsb id (take (hi - p) (drop p vMatch))).
Proof.
  induction fuel as [|fuel IH]; intros p hi acc Hp Hf; [lia|]. cbn [match_loop].
  destruct (decide (p < hi)%nat) as [H1|H1]; [destruct (decide (p < length vMatch)%nat) as [H2|H2]|].
  - rewrite (proj2 (Z.ltb_lt (Z.of_nat p) (Z.of_nat hi))), (proj2 (Z.ltb_lt (Z.of_nat p) (Z.of_nat (length vMatch)))) by lia.
    cbn [andb]. destruct (lookup_lt_is_Some_2 _ _ H2) as [m Hm].
    unfold vec_at. rewrite (proj2 (Z.leb_le _ _)) by lia. rewrite Nat2Z.id, Hm. monad.
    replace (Z.of_nat p + 1) with (Z.of_nat (S p)) by lia. rewrite IH by lia.
    rewrite (drop_S _ _ _ Hm). replace (hi - p)%nat with (S (hi - S p)) by lia.
    cbn [firstn existsb id]. by rewrite orb_assoc.
  - rewrite (proj2 (Z.ltb_ge (Z.of_nat p) (Z.of_nat (length vMatch)))) by lia. rewrite andb_false_r.
    rewrite drop_ge by lia. by rewrite take_nil, orb_false_r.
  - rewrite (proj2 (Z.ltb_ge (Z.of_nat p) (Z.of_nat hi))) by lia. cbn [andb].
    replace (hi - p)%nat with 0%nat by lia. by rewrite take_0, orb_false_r.
Qed.

(** The flag bit of a node. *)
Lemma flag_spec vMatch h pos :
  match_loop (S (Z.to_nat (Z.shiftl 1 (Z.of_nat h)))) (Z.shiftl (Z.of_nat pos) (Z.of_nat h))
    (Z.shiftl (Z.of_nat pos + 1) (Z.of_nat h)) (Z.of_nat (length vMatch)) vMatch false =
  Some (existsb id (window h pos vMatch)).
Proof.
  rewrite !Z.shiftl_mul_pow2, Z.mul_1_l by lia.
  assert (2 ^ Z.of_nat h = Z.of_nat (2 ^ h)) as -> by (by rewrite Nat2Z.inj_pow).
  replace (Z.of_nat pos * Z.of_nat (2 ^ h)) with (Z.of_nat (pos * 2 ^ h)) by lia.
  replace ((Z.of_nat pos + 1) * Z.of_nat (2 ^ h)) with (Z.of_nat (pos * 2 ^ h + 2 ^ h)) by lia.
  rewrite Nat2Z.id, match_loop_spec by lia. cbn [orb]. unfold window. do 3 f_equal. lia.
Qed.

Lemma drop_cons_inv {A} n (l : list A) x r : drop n l = x :: r -> l !! n = Some x /\ drop (S n) l = r.
Proof.
  intros H. split.
  - rewrite <- (Nat.add_0_r n), <- lookup_drop, H. done.
  - replace (S n) with (n + 1)%nat by lia. rewrite <- drop_drop, H. done.
Qed.

Lemma drop_app_inv {A} n (l a r : list A) : drop n l = a ++ r -> drop (n + length a) l = r.
Proof. intros H. rewrite <- drop_drop, H. apply drop_app_length. Qed.

(** Reading back the bits [bs] and hashes [hs] of a node from any position of a
    partial tree consumes them, returns the node and reports [sel]. *)
Definition extracts (n : Z) (h pos : nat) (bs : list bool) (hs : list (list Z)) (x : list Z)
    (sel : list (list Z)) : Prop :=
  forall t s restb resth,
    nTransactions t = n ->
    drop (nBitsUsed s) (vBits t) = bs ++ restb -> drop (nHashUsed s) (vHash t) = hs ++ resth ->
    TraverseAndExtract t h (Z.of_nat pos) s =
      (x, {| nBitsUsed := nBitsUsed s + length bs; nHashUsed := nHashUsed s + length hs;
             matches := matches s ++ sel; bad := bad s |}).

Lemma extracts_leaf n pos m x : extracts n 0 pos [m] [x] x (if m then [x] else []).
Proof.
  intros t s restb resth Hn Hb Hh. cbn [app] in Hb, Hh.
  apply drop_cons_inv in Hb as [Hb _], Hh as [Hh _]. cbn [TraverseAndExtract].
  rewrite Hb. cbn [nHashUsed nBitsUsed matches bad]. rewrite Hh. cbn [andb length].
  f_equal. f_equal; [lia|lia|]. destruct m; [done|by rewrite app_nil_r].
Qed.

Lemma extracts_pruned n h pos x : extracts n (S h) pos [false] [x] x [].
Proof.
  intros t s restb resth Hn Hb Hh. cbn [app] in Hb, Hh.
  apply drop_cons_inv in Hb as [Hb _], Hh as [Hh _]. cbn [TraverseAndExtract].
  rewrite Hb. cbn [negb nHashUsed nBitsUsed matches bad]. rewrite Hh. cbn [andb length].
  f_equal. f_equal; [lia|lia|]. by rewrite app_nil_r.
Qed.

(** Rewrite a recursive call with its [extracts] fact, whatever its state. *)
Ltac extract_call E Hn Hb Hh :=
  match goal with
  | |- context [TraverseAndExtract ?t ?h ?p ?s] => rewrite (E t s _ _ Hn Hb Hh)
  end; cbn [nBitsUsed nHashUsed matches bad].

Lemma extracts_pair l h pos bs1 hs1 a sel1 bs2 hs2 b sel2 :
  Z.of_nat (length l) <= 33333 -> (h <= 16)%nat -> (2 * pos + 1 < length (level h l))%nat -> b <> a ->
  extracts (Z.of_nat (length l)) h (2 * pos) bs1 hs1 a sel1 ->
  extracts (Z.of_nat (length l)) h (2 * pos + 1) bs2 hs2 b sel2 ->
  extracts (Z.of_nat (length l)) (S h) pos (true :: bs1 ++ bs2) (hs1 ++ hs2) (Hash (a ++ b)) (sel1 ++ sel2).
Proof.
  intros Hl Hh Hw Hab E1 E2 t s restb resth Hn Hb Hhs.
  cbn [app] in Hb. apply drop_cons_inv in Hb as [Hb Hrest].
  rewrite <- app_assoc in Hrest, Hhs. cbn [TraverseAndExtract]. rewrite Hb. cbn [negb].
  replace (Z.of_nat pos * 2) with (Z.of_nat (2 * pos)) by lia.
  extract_call E1 Hn Hrest Hhs.
  rewrite Hn, CalcTreeWidth_spec by lia.
  replace (Z.of_nat (2 * pos) + 1) with (Z.of_nat (2 * pos + 1)) by lia.
  rewrite (proj2 (Z.ltb_lt _ _)) by lia.
  apply drop_app_inv in Hrest, Hhs.
  extract_call E2 Hn Hrest Hhs.
  rewrite bool_decide_eq_false_2 by done. rewrite <- app_assoc. cbn [length]. rewrite !length_app.
  f_equal. f_equal; lia.
Qed.

Lemma extracts_single l h pos bs1 hs1 a sel1 :
  Z.of_nat (length l) <= 33333 -> (h <= 16)%nat -> (length (level h l) <= 2 * pos + 1)%nat ->
  extracts (Z.of_nat (length l)) h (2 * pos) bs1 hs1 a sel1 ->
  extracts (Z.of_nat (length l)) (S h) pos (true :: bs1) hs1 (Hash (a ++ a)) sel1.
Proof.
  intros Hl Hh Hw E1 t s restb resth Hn Hb Hhs.
  cbn [app] in Hb. apply drop_cons_inv in Hb as [Hb Hrest].
  cbn [TraverseAndExtract]. rewrite Hb. cbn [negb].
  replace (Z.of_nat pos * 2) with (Z.of_nat (2 * pos)) by lia.
  extract_call E1 Hn Hrest Hhs.
  rewrite Hn, CalcTreeWidth_spec by lia.
  rewrite (proj2 (Z.ltb_ge _ _)) by lia. cbn [length]. f_equal. f_equal; lia.
Qed.

(** What [TraverseAndBuild] appends for a node, and that it can be read back. *)
Definition builds (l : list (list Z)) (vMatch : list bool) (h pos : nat) : Prop :=
  exists bs hs x,
    (forall st, TraverseAndBuild (Z.of_nat (length l)) h (Z.of_nat pos) l vMatch st =
       Some (fst st ++ bs, snd st ++ hs)) /\
    level h l !! pos = Some x /\
    (length hs <= length bs)%nat /\ (length hs <= length (window h pos l))%nat /\
    (collision \/
     extracts (Z.of_nat (length l)) h pos bs hs x (select (window h pos l) (window h pos vMatch))).

Section build.
Context (l : list (list Z)) (vMatch : list bool).
Context (Hn : Z.of_nat (length l) <= 33333) (Hm : length vMatch = length l).
Context (Hl : hashes l) (Hd : NoDup l).

Lemma window_nonempty h pos : (pos < length (level h l))%nat -> (1 <= length (window h pos l))%nat.
Proof.
  intros Hp. pose proof (level_inside h l pos Hp). unfold window. rewrite length_take, length_drop.
  pose proof (Nat.pow_nonzero 2 h ltac:(lia)). lia.
Qed.

Lemma builds_leaf pos : (pos < length l)%nat -> builds l vMatch 0 pos.
Proof.
  intros Hp. destruct (lookup_lt_is_Some_2 l pos Hp) as [x Hx].
  destruct (lookup_lt_is_Some_2 vMatch pos ltac:(lia)) as [m Hmx].
  assert (window 0 pos l = [x] /\ window 0 pos vMatch = [m]) as [Wl Wm].
  { unfold window. rewrite Nat.pow_0_r, Nat.mul_1_r, (drop_S _ _ _ Hx), (drop_S _ _ _ Hmx). done. }
  exists [m], [x], x. split; [|split; [done|split; [done|split; [by rewrite Wl|]]]].
  - intros st. cbn [TraverseAndBuild]. rewrite <- Hm at 1. rewrite flag_spec, Wm. monad.
    rewrite (CalcHash_spec l 0 pos) by (cbn [level]; lia). cbn [level]. rewrite Hx. monad.
    cbn [existsb id]. by rewrite orb_false_r.
  - right. rewrite Wl, Wm. cbn [select]. apply extracts_leaf.
Qed.

Lemma builds_node h pos :
  (S h <= 16)%nat -> (pos < length (level (S h) l))%nat ->
  builds l vMatch h (2 * pos) ->
  ((2 * pos + 1 < length (level h l))%nat -> builds l vMatch h (2 * pos + 1)) ->
  builds l vMatch (S h) pos.
Proof.
  intros Hh Hp (bs1 & hs1 & a & T1 & La & G1 & W1 & E1) H2.
  pose proof (length_level_lt h l pos Hp) as Hp'.
  destruct (pair_up_lookup (level h l) pos Hp') as (a' & b & Ha & Hb & Hx). rewrite La in Ha.
  injection Ha as <-. rewrite <- level_S in Hx.
  destruct (existsb id (window (S h) pos vMatch)) eqn:Ef.
  2:{ exists [false], [Hash (a ++ b)], (Hash (a ++ b)).
      split; [|split; [done|split; [done|split; [by apply window_nonempty|]]]].
      - intros st. cbn [TraverseAndBuild]. rewrite <- Hm at 1. rewrite flag_spec, Ef. monad. cbn [negb].
        rewrite CalcHash_spec, Hx by lia. done.
      - right. rewrite select_none by done. apply extracts_pruned. }
  destruct (decide (2 * pos + 1 < length (level h l))%nat) as [Hw|Hw].
  - destruct (H2 Hw) as (bs2 & hs2 & b' & T2 & Lb & G2 & W2 & E2).
    rewrite Nat.min_l in Hb by lia. rewrite Lb in Hb. injection Hb as ->.
    exists (true :: bs1 ++ bs2), (hs1 ++ hs2), (Hash (a ++ b)).
    split; [|split; [done|split; [|split]]].
    + intros st. cbn [TraverseAndBuild]. rewrite <- Hm at 1. rewrite flag_spec, Ef. monad. cbn [negb].
      replace (Z.of_nat pos * 2) with (Z.of_nat (2 * pos)) by lia. rewrite T1. monad.
      rewrite CalcTreeWidth_spec by lia.
      replace (Z.of_nat (2 * pos) + 1) with (Z.of_nat (2 * pos + 1)) by lia.
      rewrite (proj2 (Z.ltb_lt _ _)) by lia. rewrite T2. cbn [fst snd]. by rewrite <- !app_assoc.
    + cbn [length]. rewrite !length_app. lia.
    + rewrite window_S, !length_app. lia.
    + destruct E1 as [|E1]; [by left|]. destruct E2 as [|E2]; [by left|].
      destruct (decide (b = a)) as [->|Hne].
      { destruct (node_inj h l _ _ _ Hl Hd La Lb) as [|]; [lia|by left]. }
      right. rewrite !window_S, select_app by (apply length_window; done).
      apply extracts_pair; done || lia.
  - rewrite Nat.min_r in Hb by lia. replace (length (level h l) - 1)%nat with (2 * pos)%nat in Hb by lia.
    rewrite La in Hb. injection Hb as <-.
    exists (true :: bs1), hs1, (Hash (a ++ a)). split; [|split; [done|split; [|split]]].
    + intros st. cbn [TraverseAndBuild]. rewrite <- Hm at 1. rewrite flag_spec, Ef. monad. cbn [negb].
      replace (Z.of_nat pos * 2) with (Z.of_nat (2 * pos)) by lia. rewrite T1. monad.
      rewrite CalcTreeWidth_spec by lia. rewrite (proj2 (Z.ltb_ge _ _)) by lia.
      cbn [fst snd]. by rewrite <- app_assoc.
    + cbn [length]. lia.
    + rewrite window_S, length_app. lia.
    + destruct E1 as [|E1]; [by left|right].
      assert (length l <= (2 * pos + 1) * 2 ^ h)%nat as Hcov
        by (pose proof (level_cover h l); nia).
      rewrite !window_S, !(window_beyond h (2 * pos + 1)) by lia. rewrite !app_nil_r.
      apply extracts_single; done || lia.
Qed.

Lemma builds_all h : forall pos, (h <= 16)%nat -> (pos < length (level h l))%nat -> builds l vMatch h pos.
Proof.
  induction h as [|h IH]; intros pos Hh Hp; [by apply builds_leaf|].
  pose proof (length_level_lt h l pos Hp). apply builds_node; try done.
  - apply IH; lia.
  - intros. apply IH; lia.
Qed.

End build.

Lemma height_level k l :
  (k <= merkle_height (length l))%nat ->
  merkle_height (length (level k l)) = (merkle_height (length l) - k)%nat.
Proof.
  revert l. induction k as [|k IH]; intros l Hk; [cbn [level]; lia|]. cbn [level].
  destruct (decide (1 < length l)%nat) as [Hl|Hl].
  - rewrite (height_step (length l)) in Hk |- * by done. rewrite <- length_pair_up in *.
    rewrite IH; lia.
  - exfalso. destruct (length l) as [|[|]]; cbn in Hk; lia.
Qed.

Lemma height_bound n : Z.of_nat n <= 33333 -> (merkle_height n <= 16)%nat.
Proof.
  intros Hn. destruct n as [|n]; [cbn; lia|]. apply Nat.log2_up_le_pow2; [lia|].
  apply Nat2Z.inj_le. rewrite Nat2Z.inj_pow. change (Z.of_nat 2 ^ Z.of_nat 16) with 65536. lia.
Qed.

Lemma height_loop_spec (l : list (list Z)) fuel k :
  (0 < length l)%nat -> Z.of_nat (length l) <= 33333 -> (k <= merkle_height (length l))%nat ->
  (merkle_height (length l) - k < fuel)%nat ->
  height_loop fuel (Z.of_nat (length l)) k = Some (merkle_height (length l)).
Proof.
  intros Hl Hn. pose proof (height_bound (length l) ltac:(lia)) as Hb. revert k.
  induction fuel as [|fuel IH]; intros k Hk Hf; [lia|]. cbn [height_loop].
  rewrite CalcTreeWidth_spec by lia. pose proof (height_level k l Hk) as Hh.
  destruct (decide (k = merkle_height (length l))) as [->|Hne].
  - rewrite level_top by done. done.
  - rewrite (proj2 (Z.ltb_lt _ _)); [apply IH; lia|].
    destruct (length (level k l)) as [|[|w]] eqn:E; [cbn in Hh; lia|cbn in Hh; lia|lia].
Qed.

Lemma root_top l x :
  level (merkle_height (length l)) l !! 0%nat = Some x -> merkle_root l = x.
Proof. intros H. unfold merkle_root. by rewrite head_lookup, H. Qed.

(** *** Soundness of extraction *)

Lemma extract_bad_mono t h : forall pos s x s',
  TraverseAndExtract t h pos s = (x, s') -> bad s' = false -> bad s = false.
Proof.
  induction h as [|h IH]; intros pos s x s' E Hb; cbn [TraverseAndExtract] in E;
    destruct (vBits t !! nBitsUsed s) as [f|]; try by (simplify_eq/=).
  - cbn [nHashUsed] in E. destruct (vHash t !! nHashUsed s); by simplify_eq/=.
  - destruct f; cbn [negb nHashUsed] in E; [|destruct (vHash t !! nHashUsed s); by simplify_eq/=].
    destruct (TraverseAndExtract t h (pos * 2) _) as [hl s1] eqn:E1.
    enough (bad s1 = false) as H1 by (by apply (IH _ _ _ _ E1 H1)).
    destruct (_ <? _); [|by simplify_eq].
    destruct (TraverseAndExtract t h (pos * 2 + 1) s1) as [hr s2] eqn:E2.
    apply (IH _ _ _ _ E2). case_bool_decide; by simplify_eq/=.
Qed.

Lemma extract_length t h : forall pos s x s',
  hashes (vHash t) -> TraverseAndExtract t h pos s = (x, s') -> length x = 32%nat.
Proof.
  intros pos s x s' Ht. unfold hashes in Ht. rewrite Forall_lookup in Ht.
  destruct h as [|h]; cbn [TraverseAndExtract]; destruct (vBits t !! nBitsUsed s) as [f|];
    try (intros ?; simplify_eq; done).
  - cbn [nHashUsed]. destruct (vHash t !! nHashUsed s) eqn:E; intros; simplify_eq; [by eapply Ht|done].
  - destruct f; cbn [negb nHashUsed].
    + destruct (TraverseAndExtract t h (pos * 2) _) as [hl s1]. destruct (_ <? _).
      * destruct (TraverseAndExtract t h (pos * 2 + 1) s1) as [hr s2]. intros; simplify_eq. apply Hash_length.
      * intros; simplify_eq. apply Hash_length.
    + destruct (vHash t !! nHashUsed s) eqn:E; intros; simplify_eq; [by eapply Ht|done].
Qed.

(** If a subtree hashes to the node of the real tree, what it reports are leaves
    of the real tree. *)
Lemma extract_sound t l :
  nTransactions t = Z.of_nat (length l) -> Z.of_nat (length l) <= 33333 ->
  hashes l -> hashes (vHash t) ->
  forall h pos s x s', (h <= 16)%nat -> level h l !! pos = Some x ->
    TraverseAndExtract t h (Z.of_nat pos) s = (x, s') -> bad s' = false ->
    collision \/ exists new, matches s' = matches s ++ new /\ Forall (.∈ l) new.
Proof.
  intros Hn Hle Hl Ht. induction h as [|h IH]; intros pos s x s' Hh Hx E Hb; cbn [TraverseAndExtract] in E;
    destruct (vBits t !! nBitsUsed s) as [f|]; try by (simplify_eq/=).
  - cbn [nHashUsed] in E. destruct (vHash t !! nHashUsed s) as [y|]; simplify_eq/=. right. destruct f; cbn.
    + exists [x]. split; [done|]. constructor; [|done]. by eapply list_elem_of_lookup_2.
    + exists []. by rewrite app_nil_r.
  - destruct f; cbn [negb nHashUsed] in E; [|destruct (vHash t !! nHashUsed s); simplify_eq/=].
    2:{ right. exists []. by rewrite app_nil_r. }
    pose proof (length_level_lt h l pos (lookup_lt_Some _ _ _ Hx)) as Hp.
    rewrite level_S in Hx. destruct (pair_up_lookup _ pos Hp) as (a & b & Ha & Hb' & Hx').
    rewrite Hx' in Hx. injection Hx as <-.
    pose proof (hashes_level h l Hl) as Hall. unfold hashes in Hall. rewrite Forall_lookup in Hall.
    replace (Z.of_nat pos * 2) with (Z.of_nat (2 * pos)) in E by lia.
    destruct (TraverseAndExtract t h (Z.of_nat (2 * pos)) _) as [hl s1] eqn:E1.
    pose proof (extract_length _ _ _ _ _ _ Ht E1) as Hhl.
    rewrite Hn, CalcTreeWidth_spec in E by lia.
    replace (Z.of_nat (2 * pos) + 1) with (Z.of_nat (2 * pos + 1)) in E by lia.
    destruct (Z.ltb_spec (Z.of_nat (2 * pos + 1)) (Z.of_nat (length (level h l)))).
    + destruct (TraverseAndExtract t h (Z.of_nat (2 * pos + 1)) s1) as [hr s2] eqn:E2.
      injection E as Eh Es. assert (s2 = s') as -> by (case_bool_decide; [by subst s'|done]).
      apply hash_pair_inj in Eh as [[-> ->]|Hc]; [|by left|done|by eapply Hall].
      rewrite Nat.min_l in Hb' by lia.
      pose proof (extract_bad_mono _ _ _ _ _ _ E2 Hb) as Hb1.
      destruct (IH _ _ _ _ ltac:(lia) Ha E1 Hb1) as [|(n1 & M1 & F1)]; [by left|].
      destruct (IH _ _ _ _ ltac:(lia) Hb' E2 Hb) as [|(n2 & M2 & F2)]; [by left|].
      right. exists (n1 ++ n2). rewrite M2, M1, <- app_assoc. cbn [matches].
      split; [done|]. by apply Forall_app_2.
    + injection E as Eh <-.
      apply hash_pair_inj in Eh as [[-> _]|Hc]; [|by left|done|by eapply Hall].
      destruct (IH _ _ _ _ ltac:(lia) Ha E1 Hb) as [|(n1 & M1 & F1)]; [by left|].
      right. by exists n1.
Qed.

End merkle.

(** A concrete hash function and block, for the instances below. *)
Definition sample_hash (x : list Z) : list Z :=
  fold_right (fun b acc => (b + 257 * acc) mod 2 ^ 61) 7 x :: replicate 31 0.
Definition sample_leaf (k : Z) : CTransaction :=
  {| fOverwintered := false; tx_nVersion := 1; nVersionGroupId := 0; vin := []; vout := [];
     nLockTime := k; nExpiryHeight := 0; valueBalance := 0; vShieldedSpend := []; vShieldedOutput := [];
     vJoinSplit := []; joinSplitPubKey := zero_blob 32; joinSplitSig := zero_blob 64;
     bindingSig := zero_blob 64 |}.
Definition sample_txid (tx : CTransaction) : list Z := nLockTime tx :: replicate 31 0.
Definition sample_merkle_block : CBlock :=
  {| header := {| BlockIndex.hdr_nVersion := 4; BlockIndex.hdr_hashPrevBlock := zero_blob 32;
                  BlockIndex.hdr_hashMerkleRoot := zero_blob 32;
                  BlockIndex.hdr_hashFinalSaplingRoot := zero_blob 32;
                  BlockIndex.hdr_nTime := 0; BlockIndex.hdr_nBits := 0; BlockIndex.hdr_nNonce := zero_blob 32 |};
     vtx := map sample_leaf [1; 2; 3; 4; 5]; vMerkleTree := [] |}.

Lemma sample_hash_length x : length (sample_hash x) = 32%nat.
Proof. done. Qed.

(** Merkle branches verify.  For every block and every transaction in it,
    the branch that [GetMerkleBranch] returns (whether the tree is built now or
    was cached) makes [CheckMerkleBranch] recompute, from that transaction's
    hash, exactly the root [BuildMerkleTree] returns, which is the root of the
    reference tree. *)
Lemma merkle_branch_verifies (Hash : list Z -> list Z) (GetHash : CTransaction -> list Z)
    (b : CBlock) (i : nat) (tx : CTransaction)
    (Hn : Z.of_nat (length (vtx b)) < 2 ^ 29) (Htx : vtx b !! i = Some tx)
    (Hcache : vMerkleTree b = [] \/ exists b0 r m, BuildMerkleTree Hash GetHash b0 = Some (b, r, m)) :
  exists b' br m,
    GetMerkleBranch Hash GetHash b (Z.of_nat i) = Some (b', br) /\
    BuildMerkleTree Hash GetHash b = Some (b', merkle_root Hash (map GetHash (vtx b)), m) /\
    CheckMerkleBranch Hash (GetHash tx) br (Z.of_nat i) = merkle_root Hash (map GetHash (vtx b)).
Proof.
  set (l := map GetHash (vtx b)). set (t := tree_nodes Hash (merkle_height (length l)) l).
  assert (l !! i = Some (GetHash tx)) as Hx by (unfold l; by rewrite list_lookup_fmap, Htx).
  assert (Hbuilt : (match vMerkleTree b with
                    | [] => r ← BuildMerkleTree Hash GetHash b; Some (fst (fst r))
                    | _ => Some b end) = Some (set_vMerkleTree b t)).
  { destruct (vMerkleTree b) as [|y ys] eqn:Ec; [by rewrite BuildMerkleTree_spec|].
    destruct Hcache as [|(b0 & r & m & Hb0)]; [done|].
    assert (vtx b = vtx b0) as Ev.
    { unfold BuildMerkleTree in Hb0. destruct (tree_loop _ _ _ _ _ _); [|done].
      cbn in Hb0. by injection Hb0 as <- <- <-. }
    rewrite BuildMerkleTree_spec in Hb0 by (by rewrite <- Ev). injection Hb0 as Hb0 _ _.
    rewrite <- Ev in Hb0. fold l t in Hb0. rewrite <- Hb0 at 1. by rewrite <- Hb0. }
  unfold GetMerkleBranch. rewrite Hbuilt. monad. cbn [vtx vMerkleTree set_vMerkleTree].
  rewrite s32_id by (change (2 ^ 29) with 536870912 in Hn; width).
  replace (length (vtx b)) with (length l) by apply length_map.
  destruct (branch_loop_spec Hash (S (length l)) l [] [] i _ ltac:(lia) Hx) as (br & Hbr & Hroot).
  cbn [app length] in Hbr. rewrite app_nil_r in Hbr. fold t in Hbr.
  change (Z.of_nat 0) with 0 in Hbr. rewrite Hbr. monad.
  exists (set_vMerkleTree b t), br, (mutated_below Hash (merkle_height (length l)) l).
  split; [done|]. split; [by rewrite BuildMerkleTree_spec|].
  unfold CheckMerkleBranch. rewrite (proj2 (Z.eqb_neq _ _)) by lia.
  unfold merkle_root. by rewrite Hroot.
Qed.

Lemma merkle_branch_verifies_witness :
  exists b' br m,
    GetMerkleBranch sample_hash sample_txid sample_merkle_block (Z.of_nat 4) = Some (b', br) /\
    BuildMerkleTree sample_hash sample_txid sample_merkle_block =
      Some (b', merkle_root sample_hash (map sample_txid (vtx sample_merkle_block)), m) /\
    CheckMerkleBranch sample_hash (sample_txid (sample_leaf 5)) br (Z.of_nat 4) =
      merkle_root sample_hash (map sample_txid (vtx sample_merkle_block)).
Proof. apply merkle_branch_verifies; [by vm_compute|done|by left]. Defined.

(** C20: the duplicate-transaction defence.  If two non-empty blocks have the same
    merkle root and [BuildMerkleTree] reports neither as mutated, they contain
    the same transaction ids in the same order, unless a collision of [Hash] is
    exhibited, or a 64-byte string hashes to a transaction id of one of them. *)
Theorem merkle_root_binding (Hash : list Z -> list Z) (GetHash : CTransaction -> list Z)
    (b1 b1' b2 b2' : CBlock) (root : list Z)
    (HL : forall x, length (Hash x) = 32%nat) (HG : forall tx, length (GetHash tx) = 32%nat)
    (Hn1 : 0 < Z.of_nat (length (vtx b1)) < 2 ^ 29) (Hn2 : 0 < Z.of_nat (length (vtx b2)) < 2 ^ 29)
    (H1 : BuildMerkleTree Hash GetHash b1 = Some (b1', root, false))
    (H2 : BuildMerkleTree Hash GetHash b2 = Some (b2', root, false)) :
  map GetHash (vtx b1) = map GetHash (vtx b2) \/
  collision Hash \/
  exists x, length x = 64%nat /\ (Hash x ∈ map GetHash (vtx b1) \/ Hash x ∈ map GetHash (vtx b2)).
Proof.
  rewrite BuildMerkleTree_spec in H1, H2 by lia. injection H1 as _ R1 M1. injection H2 as _ R2 M2.
  rewrite <- R1 in R2. clear root R1 b1' b2'.
  assert (forall b, hashes (map GetHash (vtx b))) as Hh.
  { intros b. apply Forall_forall. intros x (tx & -> & _)%list_elem_of_fmap. apply HG. }
  assert (forall b, 0 < Z.of_nat (length (vtx b)) -> (0 < length (map GetHash (vtx b)))%nat) as Hp
    by (intros b; rewrite length_map; lia).
  destruct (Nat.le_ge_cases (merkle_height (length (map GetHash (vtx b1))))
              (merkle_height (length (map GetHash (vtx b2))))) as [Hd|Hd].
  - destruct (same_root_le Hash HL _ _ (Hh b1) (Hh b2) (Hp b1 ltac:(lia)) (Hp b2 ltac:(lia)) Hd M1 M2 (eq_sym R2))
      as [|[|(x & Hx & Hin)]]; eauto 6.
  - destruct (same_root_le Hash HL _ _ (Hh b2) (Hh b1) (Hp b2 ltac:(lia)) (Hp b1 ltac:(lia)) Hd M2 M1 R2)
      as [|[|(x & Hx & Hin)]]; eauto 6.
Qed.

Definition sample_built : CBlock :=
  match BuildMerkleTree sample_hash sample_txid sample_merkle_block with
  | Some (b, _, _) => b
  | None => sample_merkle_block
  end.

Lemma merkle_root_binding_witness :
  map sample_txid (vtx sample_merkle_block) = map sample_txid (vtx sample_merkle_block) \/
  collision sample_hash \/
  exists x, length x = 64%nat /\
    (sample_hash x ∈ map sample_txid (vtx sample_merkle_block) \/
     sample_hash x ∈ map sample_txid (vtx sample_merkle_block)).
Proof.
  apply (merkle_root_binding sample_hash sample_txid sample_merkle_block sample_built
           sample_merkle_block sample_built
           (merkle_root sample_hash (map sample_txid (vtx sample_merkle_block)))
           sample_hash_length (fun _ => eq_refl));
    vm_compute; try done; by split.
Defined.

(** Filtered blocks are complete.  For every list of distinct transaction ids
    a block can hold and every selection of them, the partial tree built from it
    yields, on extraction, the merkle root of the whole list and exactly the
    selected ids in order, unless a collision of [Hash] is exhibited. *)
Lemma partial_merkle_complete (Hash : list Z -> list Z) (vTxid : list (list Z)) (vMatch : list bool)
    (HL : forall x, length (Hash x) = 32%nat) (Hh : hashes vTxid) (Hd : NoDup vTxid)
    (Hn : 0 < Z.of_nat (length vTxid) <= MAX_BLOCK_SIZE / 60) (Hm : length vMatch = length vTxid) :
  exists t, CPartialMerkleTree_of Hash vTxid vMatch = Some t /\
    (ExtractMatches Hash t = Some (merkle_root Hash vTxid, select vTxid vMatch) \/ collision Hash).
Proof.
  change (MAX_BLOCK_SIZE / 60) with 33333 in Hn. set (l := vTxid) in *. set (d := merkle_height (length l)).
  pose proof (height_bound (length l) ltac:(lia)) as Hb. fold d in Hb.
  assert (length (level Hash d l) = 1%nat) as Ht by (apply level_top; lia).
  destruct (builds_all Hash HL l vMatch ltac:(lia) Hm Hh Hd d 0 Hb ltac:(lia))
    as (bs & hs & x & HT & Hx & G & W & E).
  assert (length (window d 0 l) <= length l)%nat by (unfold window; rewrite length_take, length_drop; lia).
  assert (forall A (m : list A), length m = length l -> window d 0 m = m) as Hwin.
  { intros A m Em. unfold window. cbn [Nat.mul]. rewrite drop_0. apply take_ge. rewrite Em.
    pose proof (level_cover Hash d l) as Hc. rewrite Ht in Hc. lia. }
  assert (u32 (Z.of_nat (length l)) = Z.of_nat (length l)) as Hu by (apply u32_id; width).
  assert (height_loop 33 (Z.of_nat (length l)) 0 = Some d) as Hhl
    by (apply (height_loop_spec Hash); try lia; fold d; lia).
  unfold CPartialMerkleTree_of. rewrite Hu, Hhl. monad. change 0 with (Z.of_nat 0). rewrite HT. monad.
  cbn [fst snd app]. eexists. split; [done|]. destruct E as [|E]; [by right|left].
  unfold ExtractMatches. cbn [nTransactions vHash vBits fBad]. change (MAX_BLOCK_SIZE / 60) with 33333.
  rewrite (proj2 (Z.eqb_neq _ _)) by lia.
  rewrite !Z.gtb_ltb, (proj2 (Z.ltb_ge 33333 _)), (proj2 (Z.ltb_ge (Z.of_nat (length l)) _)) by lia.
  rewrite (proj2 (Nat.ltb_ge _ _)) by lia. rewrite Hhl. monad. change 0 with (Z.of_nat 0).
  match goal with |- context [TraverseAndExtract Hash ?t d _ ?s] =>
    rewrite (E t s [] []) by (try done; cbn; by rewrite app_nil_r) end.
  cbn [bad nBitsUsed nHashUsed matches app Nat.add]. rewrite !Nat.eqb_refl. cbn [negb].
  by rewrite (root_top Hash l x Hx), !Hwin.
Qed.

Definition sample_ids : list (list Z) := map (fun k => k :: replicate 31 0) [1; 2; 3; 4; 5].

Lemma partial_merkle_complete_witness :
  exists t, CPartialMerkleTree_of sample_hash sample_ids [false; true; false; false; true] = Some t /\
    (ExtractMatches sample_hash t =
       Some (merkle_root sample_hash sample_ids, select sample_ids [false; true; false; false; true]) \/
     collision sample_hash).
Proof.
  apply (partial_merkle_complete sample_hash sample_ids [false; true; false; false; true] sample_hash_length).
  - repeat constructor.
  - apply (bool_decide_unpack _). by vm_compute.
  - by vm_compute.
  - done.
Defined.

(** C21: filtered blocks are sound.  If extraction from a partial tree received
    from a peer yields the (non-zero) merkle root of a block with as many
    transactions as the tree claims, then every reported id is a transaction id
    of that block, unless a collision of [Hash] is exhibited. *)
Theorem partial_merkle_sound (Hash : list Z -> list Z) (vTxid : list (list Z)) (t : CPartialMerkleTree)
    (matched : list (list Z))
    (HL : forall x, length (Hash x) = 32%nat) (Hh : hashes vTxid) (Ht : hashes (vHash t))
    (Hn : nTransactions t = Z.of_nat (length vTxid))
    (Hroot : merkle_root Hash vTxid <> uint256_zero)
    (HE : ExtractMatches Hash t = Some (merkle_root Hash vTxid, matched)) :
  Forall (.∈ vTxid) matched \/ collision Hash.
Proof.
  unfold ExtractMatches in HE. change (MAX_BLOCK_SIZE / 60) with 33333 in HE.
  repeat (case_match; [by simplify_eq|]).
  rewrite Hn, !Z.gtb_ltb, ?Z.ltb_ge, ?Z.eqb_neq in *. set (d := merkle_height (length vTxid)).
  pose proof (height_bound (length vTxid) ltac:(lia)) as Hb. fold d in Hb.
  rewrite (height_loop_spec Hash vTxid) in HE by (fold d; lia). cbn [mbind option_bind] in HE. fold d in HE.
  destruct (TraverseAndExtract Hash t d 0 _) as [root st] eqn:E.
  destruct (bad st) eqn:Hbad; [by simplify_eq|].
  repeat (case_match; [by simplify_eq|]). simplify_eq.
  pose proof (level_top Hash vTxid ltac:(lia)) as Htop. fold d in Htop.
  destruct (level Hash d vTxid) as [|x [|]] eqn:El; cbn in Htop; try lia.
  assert (level Hash d vTxid !! 0%nat = Some x) as Hx by (by rewrite El).
  pose proof (root_top Hash vTxid x Hx) as Er.
  rewrite Er in E. destruct (extract_sound Hash HL t vTxid Hn ltac:(lia) Hh Ht d 0 _ x st Hb Hx E Hbad)
    as [|(new & Hmt & Hin)]; [by right|left]. by rewrite Hmt.
Qed.

Definition sample_partial : CPartialMerkleTree :=
  default CPartialMerkleTree_default
    (CPartialMerkleTree_of sample_hash sample_ids [false; true; false; false; true]).

Lemma partial_merkle_sound_witness :
  Forall (.∈ sample_ids) [2 :: replicate 31 0; 5 :: replicate 31 0] \/ collision sample_hash.
Proof.
  apply (partial_merkle_sound sample_hash sample_ids sample_partial _ sample_hash_length).
  - repeat constructor.
  - apply (bool_decide_unpack _). by vm_compute.
  - by vm_compute.
  - apply (bool_decide_unpack _). by vm_compute.
  - by vm_compute.
Defined.

End Merkle.
