(* ===== verification/NoteTree.v ===== *)
(** * Note commitment trees (src/zcash/IncrementalMerkleTree.{hpp,cpp})

    [IncrementalMerkleTree<Depth, Hash>] keeps only the right-most leaves and the
    collapsed left subtrees of a fixed-depth tree; [IncrementalWitness] follows
    one leaf while later leaves are appended.  The abstract value of both is the
    list of leaves; [node d l] is the root of the depth-[d] tree whose leaves are
    [l] padded with empty leaves.  [Hash::combine] and [Hash::EmptyRoot] (SHA-256
    or Pedersen hashes and their tables of constants) are parameters; the one
    thing assumed of them is that the table of empty roots is consistent.
    Thrown exceptions are [None]. *)

From stdpp Require Import base list list_numbers numbers option.
From Stdlib Require Import ZArith Lia.
From S2P Require Import Prelude.

Module NoteTree.

Section tree.
Context {H : Type} (combine : H -> H -> nat -> H) (EmptyRoot : nat -> H) (Depth : nat).

Record IncrementalMerkleTree := { left : option H; right : option H; parents : list (option H) }.

Definition empty_tree : IncrementalMerkleTree := {| left := None; right := None; parents := [] |}.

(** PathFiller::next *)
Definition filler_next (queue : list H) (depth : nat) : H * list H :=
  match queue with
  | h :: queue' => (h, queue')
  | [] => (EmptyRoot depth, [])
  end.

Definition wfcheck (t : IncrementalMerkleTree) : bool :=
  if (Depth <=? length (parents t))%nat then false
  else if match list.last (parents t) with Some None => true | _ => false end then false
  else match left t, right t with
       | None, Some _ => false
       | None, None => (length (parents t) =? 0)%nat
       | _, _ => true
       end.

Definition tree_last (t : IncrementalMerkleTree) : option H :=
  match right t with Some r => Some r | None => left t end.

(** [ret += (1 << (i+1))], the shift at the width of [int] *)
Fixpoint size_loop (i : nat) (ps : list (option H)) (ret : Z) : Z :=
  match ps with
  | [] => ret
  | p :: ps' =>
      size_loop (S i) ps'
        (match p with Some _ => u64 (ret + s32 (Z.shiftl 1 (Z.of_nat (S i)))) | None => ret end)
  end.

Definition size (t : IncrementalMerkleTree) : Z :=
  let one (o : option H) := match o with Some _ => 1 | None => 0 end in
  size_loop 0 (parents t) (one (left t) + one (right t)).

(** [parents.size() != (depth - 1)] compares [size_t]s *)
Definition is_complete (t : IncrementalMerkleTree) (depth : nat) : bool :=
  match left t, right t with
  | Some _, Some _ =>
      (Z.of_nat (length (parents t)) =? u64 (Z.of_nat depth - 1)) &&
      forallb (fun p => match p with Some _ => true | None => false end) (parents t)
  | _, _ => false
  end.

(** The loop [for (size_t i = 0; i < Depth; i++)] of [append], from index [i]. *)
Fixpoint propagate (fuel i : nat) (ps : list (option H)) (combined : H) : list (option H) :=
  match fuel with
  | O => ps
  | S fuel' =>
      match ps with
      | [] => [Some combined]
      | None :: ps' => Some combined :: ps'
      | Some p :: ps' => None :: propagate fuel' (S i) ps' (combine p combined (S i))
      end
  end.

Definition append (t : IncrementalMerkleTree) (obj : H) : option IncrementalMerkleTree :=
  if is_complete t Depth then None
  else Some
    match left t, right t with
    | None, r => {| left := Some obj; right := r; parents := parents t |}
    | Some l, None => {| left := Some l; right := Some obj; parents := parents t |}
    | Some l, Some r =>
        {| left := Some obj; right := None;
           parents := propagate Depth 0 (parents t) (combine l r 0) |}
    end.

Fixpoint next_depth_loop (d : nat) (ps : list (option H)) (skip : nat) : nat :=
  match ps with
  | [] => d + skip
  | None :: ps' => match skip with O => d | S skip' => next_depth_loop (S d) ps' skip' end
  | Some _ :: ps' => next_depth_loop (S d) ps' skip
  end.

Definition next_depth (t : IncrementalMerkleTree) (skip : nat) : nat :=
  let right_and_parents skip :=
    match right t with
    | None => match skip with O => O | S skip' => next_depth_loop 1 (parents t) skip' end
    | Some _ => next_depth_loop 1 (parents t) skip
    end in
  match left t with
  | None => match skip with O => O | S skip' => right_and_parents skip' end
  | Some _ => right_and_parents skip
  end.

(** The two loops of [root]: over [parents], then [while (d < depth)]. *)
Fixpoint fill_loop (n d : nat) (root : H) (queue : list H) : H :=
  match n with
  | O => root
  | S n' => let '(h, queue') := filler_next queue d in
            fill_loop n' (S d) (combine root h d) queue'
  end.

Fixpoint root_loop (depth d : nat) (ps : list (option H)) (root : H) (queue : list H) : H :=
  match ps with
  | [] => fill_loop (depth - d) d root queue
  | Some p :: ps' => root_loop depth (S d) ps' (combine p root d) queue
  | None :: ps' => let '(h, queue') := filler_next queue d in
                   root_loop depth (S d) ps' (combine root h d) queue'
  end.

Definition take_or_next (o : option H) (queue : list H) : H * list H :=
  match o with Some h => (h, queue) | None => filler_next queue 0 end.

Definition root_at (t : IncrementalMerkleTree) (depth : nat) (filler_hashes : list H) : H :=
  let '(combine_left, q1) := take_or_next (left t) filler_hashes in
  let '(combine_right, q2) := take_or_next (right t) q1 in
  root_loop depth 1 (parents t) (combine combine_left combine_right 0) q2.

Definition root (t : IncrementalMerkleTree) : H := root_at t Depth [].

(** [path]: the authentication path from the last leaf, leaf level first, as
    pairs of the index bit and the sibling.  The C++ code reverses both vectors
    and expands the hashes into bits for the circuit. *)
Fixpoint fill_path (n d : nat) (queue : list H) : list (bool * H) :=
  match n with
  | O => []
  | S n' => let '(h, queue') := filler_next queue d in (false, h) :: fill_path n' (S d) queue'
  end.

Fixpoint path_loop (d : nat) (ps : list (option H)) (queue : list H) : list (bool * H) :=
  match ps with
  | [] => fill_path (Depth - d) d queue
  | Some p :: ps' => (true, p) :: path_loop (S d) ps' queue
  | None :: ps' => let '(h, queue') := filler_next queue d in (false, h) :: path_loop (S d) ps' queue'
  end.

Definition path_at (t : IncrementalMerkleTree) (filler_hashes : list H) : option (list (bool * H)) :=
  match left t with
  | None => None
  | Some l =>
      Some match right t with
           | Some _ => (true, l) :: path_loop 1 (parents t) filler_hashes
           | None => let '(h, q) := filler_next filler_hashes 0 in
                     (false, h) :: path_loop 1 (parents t) q
           end
  end.

(** ** IncrementalWitness *)

Record IncrementalWitness := {
  tree : IncrementalMerkleTree;
  filled : list H;
  cursor : option IncrementalMerkleTree;
  cursor_depth : nat
}.

Definition witness (t : IncrementalMerkleTree) : IncrementalWitness :=
  {| tree := t; filled := []; cursor := None; cursor_depth := 0 |}.

Definition partial_path (w : IncrementalWitness) : list H :=
  match cursor w with
  | Some c => filled w ++ [root_at c (cursor_depth w) []]
  | None => filled w
  end.

Definition witness_path (w : IncrementalWitness) : option (list (bool * H)) :=
  path_at (tree w) (partial_path w).
Definition element (w : IncrementalWitness) : option H := tree_last (tree w).
Definition position (w : IncrementalWitness) : Z := u64 (size (tree w) - 1).
Definition witness_root (w : IncrementalWitness) : H := root_at (tree w) Depth (partial_path w).

Definition witness_append (w : IncrementalWitness) (obj : H) : option IncrementalWitness :=
  match cursor w with
  | Some c =>
      c' ← append c obj;
      Some (if is_complete c' (cursor_depth w)
            then {| tree := tree w; filled := filled w ++ [root_at c' (cursor_depth w) []];
                    cursor := None; cursor_depth := cursor_depth w |}
            else {| tree := tree w; filled := filled w; cursor := Some c';
                    cursor_depth := cursor_depth w |})
  | None =>
      let cd := next_depth (tree w) (length (filled w)) in
      if (Depth <=? cd)%nat then None
      else if (cd =? 0)%nat then
        Some {| tree := tree w; filled := filled w ++ [obj]; cursor := None; cursor_depth := cd |}
      else
        c ← append empty_tree obj;
        Some {| tree := tree w; filled := filled w; cursor := Some c; cursor_depth := cd |}
  end.

Fixpoint append_all (t : IncrementalMerkleTree) (l : list H) : option IncrementalMerkleTree :=
  match l with
  | [] => Some t
  | x :: l' => t' ← append t x; append_all t' l'
  end.

Fixpoint witness_append_all (w : IncrementalWitness) (l : list H) : option IncrementalWitness :=
  match l with
  | [] => Some w
  | x :: l' => w' ← witness_append w x; witness_append_all w' l'
  end.

(** Recompute a root from a leaf and its path, leaf level first. *)
Fixpoint path_root (d : nat) (x : H) (p : list (bool * H)) : H :=
  match p with
  | [] => x
  | (b, h) :: p' => path_root (S d) (if b then combine h x d else combine x h d) p'
  end.

(** ** The reference tree *)

Fixpoint node (d : nat) (l : list H) : H :=
  match d with
  | O => match l with x :: _ => x | [] => EmptyRoot 0 end
  | S d' => combine (node d' (take (2 ^ d') l)) (node d' (drop (2 ^ d') l)) d'
  end.

Context (EmptyRoot_step : forall d, EmptyRoot (S d) = combine (EmptyRoot d) (EmptyRoot d) d).
Context (Depth_pos : (1 <= Depth < 64)%nat).

Lemma node_nil d : node d [] = EmptyRoot d.
Proof.
  induction d as [|d IH]; [done|]. cbn [node]. rewrite take_nil, drop_nil, IH. by rewrite EmptyRoot_step.
Qed.

Lemma node_app d l1 l2 : length l1 = (2 ^ d)%nat -> node (S d) (l1 ++ l2) = combine (node d l1) (node d l2) d.
Proof. intros E. cbn [node]. by rewrite <- E, take_app_length, drop_app_length. Qed.

Lemma node_short d l : (length l <= 2 ^ d)%nat -> node (S d) l = combine (node d l) (EmptyRoot d) d.
Proof. intros E. cbn [node]. by rewrite take_ge, drop_ge, node_nil by lia. Qed.

(** ** Representation of a leaf list by the collapsed subtrees *)

Fixpoint rep (d : nat) (ps : list (option H)) (m : list H) : Prop :=
  match ps with
  | [] => m = []
  | None :: ps' => rep (S d) ps' m
  | Some h :: ps' =>
      exists m1 m2, m = m1 ++ m2 /\ length m2 = (2 ^ d)%nat /\ h = node d m2 /\ rep (S d) ps' m1
  end.

(** The last parent is present. *)
Definition canonical (ps : list (option H)) : Prop := list.last ps <> Some None.

Definition rep_tree (t : IncrementalMerkleTree) (l : list H) : Prop :=
  canonical (parents t) /\
  match left t, right t with
  | None, None => l = [] /\ parents t = []
  | None, Some _ => False
  | Some a, None => exists m, l = m ++ [a] /\ rep 1 (parents t) m
  | Some a, Some b => exists m, l = m ++ [a; b] /\ rep 1 (parents t) m
  end.

Ltac pow2 := rewrite ?Nat.add_succ_r, ?Nat.add_0_r, ?Nat.pow_succ_r' in *.

Lemma pow2_pos d : (1 <= 2 ^ d)%nat.
Proof. pose proof (Nat.pow_nonzero 2 d ltac:(lia)). lia. Qed.

Lemma rep_le d ps m : rep d ps m -> (length m + 2 ^ d <= 2 ^ (d + length ps))%nat.
Proof.
  revert d m. induction ps as [|[h|] ps IH]; intros d m Hr; cbn [rep length] in *.
  - subst m. pow2. cbn. lia.
  - destruct Hr as (m1 & m2 & -> & Hm2 & _ & Hr). apply IH in Hr. rewrite length_app.
    cbn [Nat.add] in Hr. pow2. lia.
  - apply IH in Hr. cbn [Nat.add] in Hr. pow2. lia.
Qed.

Definition all_present (ps : list (option H)) : bool :=
  forallb (fun p => match p with Some _ => true | None => false end) ps.

Lemma rep_full d ps m :
  rep d ps m -> (length m + 2 ^ d = 2 ^ (d + length ps))%nat <-> all_present ps = true.
Proof.
  revert d m. induction ps as [|[h|] ps IH]; intros d m Hr; cbn [rep length all_present forallb] in *.
  - subst m. pow2. by cbn.
  - destruct Hr as (m1 & m2 & -> & Hm2 & _ & Hr). apply IH in Hr. rewrite length_app.
    cbn [Nat.add] in Hr. fold (all_present ps). rewrite <- Hr. pow2. lia.
  - apply rep_le in Hr. cbn [Nat.add] in Hr. pow2. pose proof (pow2_pos d). split; [lia|done].
Qed.

Lemma canonical_cons p ps : ps <> [] -> canonical (p :: ps) <-> canonical ps.
Proof. unfold canonical. by destruct ps. Qed.

Lemma rep_ge d ps m :
  rep d ps m -> canonical ps -> ps <> [] -> (2 ^ (d + length ps) <= 2 * length m)%nat.
Proof.
  revert d m. induction ps as [|p ps IH]; intros d m Hr Hc Hne; [done|].
  destruct (decide (ps = [])) as [->|Hps].
  - destruct p as [h|]; [|by exfalso; apply Hc]. cbn [rep length] in *.
    destruct Hr as (m1 & m2 & -> & Hm2 & _ & ->). cbn [app]. pow2. lia.
  - rewrite canonical_cons in Hc by done. destruct p as [h|]; cbn [rep length] in *.
    + destruct Hr as (m1 & m2 & -> & Hm2 & _ & Hr). apply IH in Hr; [|done|done]. rewrite length_app.
      cbn [Nat.add] in Hr. pow2. lia.
    + apply IH in Hr; [|done|done]. cbn [Nat.add] in Hr. pow2. lia.
Qed.

Lemma propagate_nonempty fuel i ps c : (0 < fuel)%nat -> propagate fuel i ps c <> [].
Proof. destruct fuel; [lia|]. by destruct ps as [|[]]. Qed.

Lemma propagate_spec fuel : forall i ps m1 m2,
  (length ps < fuel)%nat -> canonical ps -> rep (S i) ps m1 -> length m2 = (2 ^ S i)%nat ->
  let ps' := propagate fuel i ps (node (S i) m2) in
  rep (S i) ps' (m1 ++ m2) /\ canonical ps'.
Proof.
  induction fuel as [|fuel IH]; intros i ps m1 m2 Hf Hc Hr Hm2; [lia|]. cbn [propagate].
  destruct ps as [|[p|] ps]; cbn [rep length] in *.
  - subst m1. split; [|done]. by exists [], m2.
  - destruct Hr as (m0 & mp & -> & Hmp & -> & Hr).
    assert (canonical ps) as Hc'.
    { destruct (decide (ps = [])) as [->|]; [done|by rewrite canonical_cons in Hc]. }
    destruct (IH (S i) ps m0 (mp ++ m2)) as [Hrep Hcan]; [lia|done|done| |].
    { rewrite length_app, Hmp, Hm2, (Nat.pow_succ_r' 2 (S i)). lia. }
    rewrite (node_app (S i)) in Hrep, Hcan by done. rewrite <- app_assoc. split; [done|].
    apply canonical_cons; [|done]. apply propagate_nonempty. lia.
  - assert (canonical (Some (node (S i) m2) :: ps)).
    { destruct (decide (ps = [])) as [->|]; [done|].
      rewrite canonical_cons in Hc by done. by apply canonical_cons. }
    split; [|done]. by exists m1, m2.
Qed.

(** A tree that represents [l] has room in its [parents] vector. *)
Lemma rep_room t l depth :
  (1 <= depth)%nat -> rep_tree t l -> (length l <= 2 ^ depth)%nat -> (length (parents t) < depth)%nat.
Proof.
  intros Hd [Hc Ht] Hl.
  assert (parents t = [] \/ exists m, rep 1 (parents t) m /\ (length m < length l)%nat) as [->|(m & Hm & Hlt)].
  { destruct (left t) as [a|], (right t) as [b|]; [| |done|].
    - destruct Ht as (m & -> & Hr). right. exists m. split; [done|]. rewrite length_app. cbn. lia.
    - destruct Ht as (m & -> & Hr). right. exists m. split; [done|]. rewrite length_app. cbn. lia.
    - left. apply Ht. }
  - cbn. lia.
  - destruct (decide (parents t = [])) as [->|Hne]; [cbn; lia|].
    apply rep_ge in Hm; [|done|done]. cbn [Nat.add] in Hm. pow2.
    apply (Nat.pow_lt_mono_r_iff 2); lia.
Qed.

Lemma complete_iff t l depth :
  (1 <= depth < 64)%nat -> rep_tree t l -> (length l <= 2 ^ depth)%nat ->
  is_complete t depth = true <-> length l = (2 ^ depth)%nat.
Proof.
  intros Hd Ht Hl. pose proof (rep_room t l depth ltac:(lia) Ht Hl) as Hroom.
  assert (u64 (Z.of_nat depth - 1) = Z.of_nat (depth - 1)) as Hu by width.
  destruct depth as [|k]; [lia|]. replace (S k - 1)%nat with k in Hu by lia.
  destruct Ht as [Hc Ht]. unfold is_complete. rewrite Hu.
  pose proof (Nat.pow_le_mono_r 2 (S (length (parents t))) (S k) ltac:(lia) ltac:(lia)) as Hmono.
  destruct (left t) as [a|], (right t) as [b|]; [| |done|].
  - destruct Ht as (m & -> & Hr). rewrite length_app. cbn [length].
    pose proof (rep_full _ _ _ Hr) as Hf. pose proof (rep_le _ _ _ Hr) as Hle. cbn [Nat.add] in Hf, Hle.
    change (2 ^ 1)%nat with 2%nat in *. fold (all_present (parents t)).
    rewrite andb_true_iff, Z.eqb_eq, Nat2Z.inj_iff. split.
    + intros [<- Hall]. apply Hf in Hall. lia.
    + intros Heq. assert (k <= length (parents t))%nat as Hk.
      { apply le_S_n. apply (Nat.pow_le_mono_r_iff 2); lia. }
      assert (length (parents t) = k) as Ek by lia. split; [done|]. apply Hf. rewrite Ek. lia.
  - destruct Ht as (m & -> & Hr). apply rep_le in Hr. rewrite length_app. cbn [length Nat.add] in *.
    change (2 ^ 1)%nat with 2%nat in *. split; [done|lia].
  - destruct Ht as [-> _]. pose proof (pow2_pos (S k)). split; [done|cbn [length]; lia].
Qed.

Lemma append_spec t l x :
  rep_tree t l -> (length l < 2 ^ Depth)%nat ->
  exists t', append t x = Some t' /\ rep_tree t' (l ++ [x]).
Proof.
  intros Ht Hl. pose proof (rep_room t l Depth ltac:(lia) Ht ltac:(lia)) as Hroom.
  unfold append. destruct (is_complete t Depth) eqn:Ec.
  { apply (complete_iff t l) in Ec; [lia|lia|done|lia]. }
  eexists. split; [done|]. destruct Ht as [Hc Ht].
  destruct (left t) as [a|] eqn:El, (right t) as [b|] eqn:Er; [| |done|].
  - destruct Ht as (m & -> & Hr).
    destruct (propagate_spec Depth 0 (parents t) m [a; b] Hroom Hc Hr eq_refl) as [Hrep Hcan].
    split; [done|]. cbn [left right parents]. by exists (m ++ [a; b]).
  - destruct Ht as (m & -> & Hr). split; [done|]. cbn [left right parents]. exists m.
    by rewrite <- app_assoc.
  - destruct Ht as [-> Hp]. split; [by cbn|]. cbn [left right parents]. exists []. by rewrite Hp.
Qed.

Lemma append_full t l x : rep_tree t l -> length l = (2 ^ Depth)%nat -> append t x = None.
Proof.
  intros Ht Hl. unfold append. by rewrite (proj2 (complete_iff t l Depth ltac:(lia) Ht ltac:(lia)) Hl).
Qed.

Lemma rep_empty : rep_tree empty_tree [].
Proof. by split. Qed.

Lemma append_all_spec l : forall t l0,
  rep_tree t l0 -> (length l0 + length l <= 2 ^ Depth)%nat ->
  exists t', append_all t l = Some t' /\ rep_tree t' (l0 ++ l).
Proof.
  induction l as [|x l IH]; intros t l0 Ht Hl; cbn [append_all length] in *.
  - exists t. by rewrite app_nil_r.
  - destruct (append_spec t l0 x Ht ltac:(lia)) as (t1 & -> & Ht1). monad.
    destruct (IH t1 _ Ht1) as (t' & -> & Ht'); [rewrite length_app; cbn; lia|].
    exists t'. by rewrite <- app_assoc in Ht'.
Qed.

(** The leaf count, below 2^31 leaves (the shift in [size] is an [int]). *)
Lemma size_loop_spec ps : forall i m ret,
  rep (S i) ps m -> 0 <= ret -> ret + Z.of_nat (length m) < 2 ^ 31 ->
  size_loop i ps ret = ret + Z.of_nat (length m).
Proof.
  induction ps as [|[h|] ps IH]; intros i m ret Hr Hret Hb; cbn [rep size_loop] in *.
  - subst m. cbn. lia.
  - destruct Hr as (m1 & m2 & -> & Hm2 & _ & Hr). rewrite length_app, Hm2, Nat2Z.inj_add in *.
    assert (Z.shiftl 1 (Z.of_nat (S i)) = Z.of_nat (2 ^ S i)) as ->.
    { rewrite Z.shiftl_mul_pow2, Z.mul_1_l by lia. by rewrite Nat2Z.inj_pow. }
    rewrite s32_id, u64_id by width. rewrite (IH _ m1) by (done || lia). lia.
  - by apply IH.
Qed.

Lemma size_spec t l : rep_tree t l -> Z.of_nat (length l) < 2 ^ 31 -> size t = Z.of_nat (length l).
Proof.
  intros [_ Ht] Hl. unfold size. destruct (left t) as [a|], (right t) as [b|]; [| |done|].
  - destruct Ht as (m & -> & Hr). rewrite length_app in *. cbn [length] in *. rewrite (size_loop_spec _ 0 m); [lia|done|lia|lia].
  - destruct Ht as (m & -> & Hr). rewrite length_app in *. cbn [length] in *. rewrite (size_loop_spec _ 0 m); [lia|done|lia|lia].
  - by destruct Ht as [-> ->].
Qed.

Lemma wfcheck_spec t l : rep_tree t l -> (length l <= 2 ^ Depth)%nat -> wfcheck t = true.
Proof.
  intros Ht Hl. unfold wfcheck. rewrite (proj2 (Nat.leb_gt _ _)) by (apply (rep_room t l); [lia|done|done]).
  destruct Ht as [Hc Ht]. unfold canonical in Hc.
  destruct (list.last (parents t)) as [[|]|]; [|done|];
    destruct (left t), (right t); try done; destruct Ht as [_ ->]; done.
Qed.

(** ** Roots with fillers

    [fills ds q f]: the queue [q] holds the roots of consecutive segments of the
    later leaves [f], for the subtrees of depths [ds]. *)

Fixpoint fills (ds : list nat) (q f : list H) {struct q} : Prop :=
  match q, ds with
  | [], _ => f = []
  | _ :: _, [] => False
  | h :: q', d :: ds' => h = node d (take (2 ^ d) f) /\ fills ds' q' (drop (2 ^ d) f)
  end.

(** The depths of the missing right siblings, leaf level first. *)
Fixpoint slots_from (depth d : nat) (ps : list (option H)) : list nat :=
  match ps with
  | [] => seq d (depth - d)
  | None :: ps' => d :: slots_from depth (S d) ps'
  | Some _ :: ps' => slots_from depth (S d) ps'
  end.

Definition missing (o : option H) : list nat := match o with None => [O] | Some _ => [] end.
Definition slots (depth : nat) (t : IncrementalMerkleTree) : list nat :=
  missing (left t) ++ missing (right t) ++ slots_from depth 1 (parents t).

Lemma filler_spec d ds q f :
  fills (d :: ds) q f ->
  exists q', filler_next q d = (node d (take (2 ^ d) f), q') /\ fills ds q' (drop (2 ^ d) f).
Proof.
  destruct q as [|h q]; cbn [fills filler_next].
  - intros ->. exists []. by rewrite take_nil, drop_nil, node_nil.
  - intros [-> Hf]. by exists q.
Qed.

(** Extending a subtree by the segment that follows it. *)
Lemma node_extend d cur f :
  (length cur <= 2 ^ d)%nat -> f = [] \/ length cur = (2 ^ d)%nat ->
  let cur' := cur ++ take (2 ^ d) f in
  combine (node d cur) (node d (take (2 ^ d) f)) d = node (S d) cur' /\
  (length cur' <= 2 ^ S d)%nat /\
  (drop (2 ^ d) f = [] \/ length cur' = (2 ^ S d)%nat).
Proof.
  intros Hc Hf cur'. unfold cur'. rewrite length_app, length_take, Nat.pow_succ_r'.
  split; [|split; [lia|]].
  - destruct Hf as [->|Hf]; [|by rewrite node_app].
    rewrite take_nil, app_nil_r, node_nil. by rewrite node_short.
  - destruct Hf as [->|Hf]; [left; apply drop_nil|].
    destruct (decide (length f <= 2 ^ d)%nat); [left; by apply drop_ge|right; lia].
Qed.

Lemma fill_loop_spec n : forall d cur f q,
  (length cur <= 2 ^ d)%nat -> f = [] \/ length cur = (2 ^ d)%nat -> fills (seq d n) q f ->
  fill_loop n d (node d cur) q = node (d + n) (cur ++ f).
Proof.
  induction n as [|n IH]; intros d cur f q Hc Hf Hq; cbn [fill_loop seq] in *.
  - assert (f = []) as -> by (by destruct q). by rewrite app_nil_r, Nat.add_0_r.
  - destruct (filler_spec _ _ _ _ Hq) as (q' & -> & Hq').
    destruct (node_extend d cur f Hc Hf) as (-> & Hc' & Hf'). rewrite (IH _ _ _ _ Hc' Hf' Hq').
    rewrite <- app_assoc, take_drop. f_equal. lia.
Qed.

Lemma root_loop_spec depth ps : forall d m cur f q,
  (d + length ps <= depth)%nat -> rep d ps m ->
  (length cur <= 2 ^ d)%nat -> f = [] \/ length cur = (2 ^ d)%nat ->
  fills (slots_from depth d ps) q f ->
  root_loop depth d ps (node d cur) q = node depth (m ++ cur ++ f).
Proof.
  induction ps as [|[p|] ps IH]; intros d m cur f q Hd Hr Hc Hf Hq; cbn [root_loop rep slots_from length] in *.
  - subst m. rewrite (fill_loop_spec _ _ _ _ _ Hc Hf Hq). cbn [app]. f_equal. lia.
  - destruct Hr as (m1 & m2 & -> & Hm2 & -> & Hr). rewrite <- node_app by done.
    rewrite (IH (S d) m1 (m2 ++ cur) f q); [by rewrite <- !app_assoc|lia|done| |destruct Hf as [|Hf]; [by left|right]|done];
      rewrite length_app, Nat.pow_succ_r'; lia.
  - destruct (filler_spec _ _ _ _ Hq) as (q' & -> & Hq').
    destruct (node_extend d cur f Hc Hf) as (-> & Hc' & Hf').
    rewrite (IH (S d) m _ _ q' ltac:(lia) Hr Hc' Hf' Hq').
    by rewrite <- (app_assoc cur), take_drop.
Qed.

Lemma root_at_spec t l depth q f :
  rep_tree t l -> (length (parents t) < depth)%nat -> fills (slots depth t) q f ->
  root_at t depth q = node depth (l ++ f).
Proof.
  intros [_ Ht] Hd Hq. unfold root_at, slots, take_or_next in *.
  destruct (left t) as [a|], (right t) as [b|]; cbn [missing app] in Hq; [| |done|].
  - destruct Ht as (m & -> & Hr). rewrite <- app_assoc.
    apply (root_loop_spec depth (parents t) 1 m [a; b]); cbn; done || lia || by right.
  - destruct Ht as (m & -> & Hr). rewrite <- app_assoc.
    destruct (filler_spec _ _ _ _ Hq) as (q' & -> & Hq').
    destruct (node_extend 0 [a] f) as (Heq & Hc & Hf); [cbn; lia|by right|].
    change (node 0 [a]) with a in Heq. rewrite Heq.
    rewrite (root_loop_spec depth (parents t) 1 m _ _ q' ltac:(lia) Hr Hc Hf Hq').
    by rewrite <- (app_assoc [a]), take_drop.
  - destruct Ht as [-> Hp]. rewrite Hp in *.
    destruct (filler_spec _ _ _ _ Hq) as (q1 & -> & Hq1).
    destruct (filler_spec _ _ _ _ Hq1) as (q2 & -> & Hq2).
    destruct (node_extend 0 (take 1 f) (drop 1 f)) as (Heq & Hc & Hf).
    { rewrite length_take. change (2 ^ 0)%nat with 1%nat. lia. }
    { destruct f; [by left|right]. cbn. by rewrite take_0. }
    change (2 ^ 0)%nat with 1%nat in *. rewrite Heq.
    rewrite (root_loop_spec depth [] 1 [] _ _ q2 ltac:(cbn in *; lia) eq_refl Hc Hf Hq2).
    by rewrite <- app_assoc, !take_drop.
Qed.

Lemma fills_nil ds : fills ds [] [].
Proof. done. Qed.

Lemma root_spec t l depth :
  rep_tree t l -> (1 <= depth)%nat -> (length l <= 2 ^ depth)%nat -> root_at t depth [] = node depth l.
Proof.
  intros Ht Hd Hl. rewrite <- (app_nil_r l) at 1.
  apply root_at_spec; [done|by apply (rep_room t l)|apply fills_nil].
Qed.

(** ** Witnesses *)

Definition capacity (ds : list nat) : nat := foldr (fun d s => (2 ^ d + s)%nat) 0%nat ds.

Lemma capacity_seq n d : (2 ^ d + capacity (seq d n) = 2 ^ (d + n))%nat.
Proof.
  revert d. induction n as [|n IH]; intros d; cbn [seq capacity foldr]; [by rewrite !Nat.add_0_r|].
  fold (capacity (seq (S d) n)). specialize (IH (S d)). rewrite Nat.pow_succ_r' in IH.
  replace (d + S n)%nat with (S d + n)%nat by lia. lia.
Qed.

Lemma capacity_slots_from depth ps : forall d m,
  (d + length ps <= depth)%nat -> rep d ps m ->
  (length m + 2 ^ d + capacity (slots_from depth d ps) = 2 ^ depth)%nat.
Proof.
  induction ps as [|[p|] ps IH]; intros d m Hd Hr; cbn [rep slots_from length] in *.
  - subst m. pose proof (capacity_seq (depth - d) d) as E.
    replace (d + (depth - d))%nat with depth in E by lia. cbn [length]. lia.
  - destruct Hr as (m1 & m2 & -> & Hm2 & _ & Hr). specialize (IH (S d) m1 ltac:(lia) Hr).
    rewrite length_app. rewrite Nat.pow_succ_r' in IH. lia.
  - specialize (IH (S d) m ltac:(lia) Hr). rewrite Nat.pow_succ_r' in IH.
    cbn [capacity foldr]. fold (capacity (slots_from depth (S d) ps)). lia.
Qed.

Lemma capacity_slots t l :
  rep_tree t l -> (length l <= 2 ^ Depth)%nat ->
  (length l + capacity (slots Depth t) = 2 ^ Depth)%nat.
Proof.
  intros Ht Hl. pose proof (rep_room t l Depth ltac:(lia) Ht Hl) as Hroom. destruct Ht as [_ Ht]. unfold slots.
  destruct (left t) as [a|], (right t) as [b|]; cbn [missing app capacity foldr]; [| |done|];
    try (destruct Ht as (m & -> & Hr);
         pose proof (capacity_slots_from Depth (parents t) 1 m ltac:(lia) Hr) as E;
         rewrite length_app; cbn [length]; change (2 ^ 1)%nat with 2%nat in E;
         change (2 ^ 0)%nat with 1%nat; unfold capacity in E; lia).
  destruct Ht as [-> Hp]. rewrite Hp.
  pose proof (capacity_slots_from Depth [] 1 [] ltac:(cbn; lia) eq_refl) as E.
  change (2 ^ 1)%nat with 2%nat in E. change (2 ^ 0)%nat with 1%nat. unfold capacity in E. cbn [length] in *. lia.
Qed.

Lemma slots_from_lt depth ps : forall d k x,
  (d + length ps <= depth)%nat -> slots_from depth d ps !! k = Some x -> (x < depth)%nat.
Proof.
  induction ps as [|[p|] ps IH]; intros d k x Hd Hk; cbn [slots_from length] in *.
  - apply lookup_seq in Hk. lia.
  - eapply IH; [|done]. lia.
  - destruct k as [|k]; cbn in Hk; [injection Hk as <-; lia|]. eapply IH; [|done]. lia.
Qed.

Lemma next_depth_loop_spec ps : forall d k,
  (d + length ps <= Depth)%nat ->
  match slots_from Depth d ps !! k with
  | Some x => next_depth_loop d ps k = x
  | None => (Depth <= next_depth_loop d ps k)%nat
  end.
Proof.
  induction ps as [|[p|] ps IH]; intros d k Hd; cbn [slots_from next_depth_loop length] in *.
  - destruct (seq d (Depth - d) !! k) as [x|] eqn:E.
    + apply lookup_seq in E. lia.
    + apply lookup_ge_None in E. rewrite length_seq in E. lia.
  - apply IH. lia.
  - destruct k as [|k]; cbn; [done|]. apply IH. lia.
Qed.

Lemma next_depth_spec t k :
  (length (parents t) < Depth)%nat ->
  match slots Depth t !! k with
  | Some x => next_depth t k = x /\ (x < Depth)%nat
  | None => (Depth <= next_depth t k)%nat
  end.
Proof.
  intros Hd. unfold slots, next_depth.
  assert (forall j, match slots_from Depth 1 (parents t) !! j with
                    | Some x => next_depth_loop 1 (parents t) j = x /\ (x < Depth)%nat
                    | None => (Depth <= next_depth_loop 1 (parents t) j)%nat end) as Hloop.
  { intros j. pose proof (next_depth_loop_spec (parents t) 1 j ltac:(lia)) as Hj.
    destruct (slots_from Depth 1 (parents t) !! j) eqn:E; [|done]. split; [done|].
    eapply slots_from_lt; [|done]. lia. }
  destruct (left t), (right t), k as [|[|k]]; cbn [missing app]; try apply Hloop; cbn; split; lia || done.
Qed.

(** The subtrees that have filled up completely. *)
Fixpoint filled_ok (ds : list nat) (hs f : list H) {struct hs} : Prop :=
  match hs, ds with
  | [], _ => f = []
  | _ :: _, [] => False
  | h :: hs', d :: ds' =>
      exists s f', f = s ++ f' /\ length s = (2 ^ d)%nat /\ h = node d s /\ filled_ok ds' hs' f'
  end.

Lemma filled_ok_fills hs : forall ds fd d fc,
  filled_ok ds hs fd -> ds !! length hs = Some d -> (length fc <= 2 ^ d)%nat ->
  fills ds (hs ++ [node d fc]) (fd ++ fc).
Proof.
  induction hs as [|h hs IH]; intros [|d0 ds] fd d fc Hok Hd Hfc; cbn [filled_ok length app] in *; try done.
  - subst fd. cbn in Hd. injection Hd as ->. cbn [app fills]. rewrite take_ge, drop_ge by done. done.
  - destruct Hok as (s & f' & -> & Hs & -> & Hok). cbn [fills]. rewrite <- app_assoc, <- Hs.
    rewrite take_app_length, drop_app_length. split; [done|]. by apply IH.
Qed.

Lemma filled_ok_done ds hs fd : filled_ok ds hs fd -> fills ds hs fd.
Proof.
  revert ds fd. induction hs as [|h hs IH]; intros [|d0 ds] fd Hok; cbn [filled_ok fills] in *; try done.
  destruct Hok as (s & f' & -> & Hs & -> & Hok). rewrite <- Hs, take_app_length, drop_app_length. auto.
Qed.

Lemma filled_ok_snoc hs : forall ds fd d s,
  filled_ok ds hs fd -> ds !! length hs = Some d -> length s = (2 ^ d)%nat ->
  filled_ok ds (hs ++ [node d s]) (fd ++ s).
Proof.
  induction hs as [|h hs IH]; intros [|d0 ds] fd d s Hok Hd Hs; cbn [filled_ok length app] in *; try done.
  - subst fd. cbn in Hd. injection Hd as ->. exists s, []. by rewrite app_nil_r.
  - destruct Hok as (s0 & f' & -> & Hs0 & -> & Hok). exists s0, (f' ++ s). rewrite <- app_assoc.
    by repeat split; [|apply IH].
Qed.

Lemma filled_ok_capacity hs : forall ds fd,
  filled_ok ds hs fd -> ds !! length hs = None -> length fd = capacity ds.
Proof.
  induction hs as [|h hs IH]; intros [|d ds] fd Hok Hn; cbn [filled_ok length capacity foldr] in *; try done.
  - by subst.
  - destruct Hok as (s & f' & -> & Hs & _ & Hok). rewrite length_app, Hs.
    by rewrite (IH ds f' Hok Hn).
Qed.

(** [w] witnesses the last leaf of [l] in a tree to which [f] has been appended. *)
Definition witness_rep (w : IncrementalWitness) (l f : list H) : Prop :=
  rep_tree (tree w) l /\ (length l <= 2 ^ Depth)%nat /\
  exists fd fc, f = fd ++ fc /\ filled_ok (slots Depth (tree w)) (filled w) fd /\
    match cursor w with
    | None => fc = []
    | Some c => slots Depth (tree w) !! length (filled w) = Some (cursor_depth w) /\
                (1 <= cursor_depth w < Depth)%nat /\ rep_tree c fc /\ (length fc < 2 ^ cursor_depth w)%nat
    end.

Lemma witness_rep_fills w l f :
  witness_rep w l f -> fills (slots Depth (tree w)) (partial_path w) f.
Proof.
  intros (Ht & Hl & fd & fc & -> & Hok & Hc). unfold partial_path. destruct (cursor w) as [c|].
  - destruct Hc as (Hd & Hcd & Hrep & Hlen). rewrite (root_spec c fc) by (done || lia).
    apply filled_ok_fills; [done|done|lia].
  - subst fc. rewrite app_nil_r. by apply filled_ok_done.
Qed.

Lemma witness_root_spec w l f : witness_rep w l f -> witness_root w = node Depth (l ++ f).
Proof.
  intros Hw. pose proof (witness_rep_fills _ _ _ Hw) as Hf. destruct Hw as (Ht & Hl & _).
  apply root_at_spec; [done| |done]. apply (rep_room _ l); [lia|done|done].
Qed.

Lemma witness_append_spec w l f x :
  witness_rep w l f -> (length l + length f < 2 ^ Depth)%nat ->
  exists w', witness_append w x = Some w' /\ tree w' = tree w /\ witness_rep w' l (f ++ [x]).
Proof.
  intros (Ht & Hl & fd & fc & -> & Hok & Hc) Hlt. unfold witness_append.
  destruct (cursor w) as [c|] eqn:Ecur.
  - destruct Hc as (Hd & Hcd & Hrep & Hlen).
    assert (2 ^ cursor_depth w <= 2 ^ Depth)%nat by (apply Nat.pow_le_mono_r; lia).
    destruct (append_spec c fc x Hrep ltac:(lia)) as (c' & -> & Hrep'). monad.
    assert (length (fc ++ [x]) <= 2 ^ cursor_depth w)%nat as Hle by (rewrite length_app; cbn; lia).
    pose proof (complete_iff c' (fc ++ [x]) (cursor_depth w) ltac:(lia) Hrep' Hle) as Hiff.
    eexists. split; [done|]. destruct (is_complete c' (cursor_depth w)); (split; [done|]);
      (split; [done|split; [done|]]); cbn [tree filled cursor cursor_depth]; rewrite <- app_assoc.
    + exists (fd ++ (fc ++ [x])), []. split; [by rewrite app_nil_r|]. split; [|done].
      rewrite (root_spec c' (fc ++ [x])) by (done || lia). apply filled_ok_snoc; try done. by apply Hiff.
    + exists fd, (fc ++ [x]). split; [done|]. split; [done|]. split; [done|]. split; [done|]. split; [done|].
      destruct (decide (length (fc ++ [x]) = 2 ^ cursor_depth w)%nat) as [E|]; [|lia].
      by apply Hiff in E.
  - subst fc. rewrite app_nil_r in *.
    pose proof (rep_room _ l Depth ltac:(lia) Ht Hl) as Hroom.
    pose proof (next_depth_spec (tree w) (length (filled w)) Hroom) as Hnd.
    destruct (slots Depth (tree w) !! length (filled w)) as [cd|] eqn:Es.
    2:{ pose proof (filled_ok_capacity _ _ _ Hok Es). pose proof (capacity_slots _ l Ht Hl). lia. }
    destruct Hnd as [-> Hcd]. rewrite (proj2 (Nat.leb_gt _ _)) by done.
    destruct (Nat.eqb_spec cd 0) as [->|Hne].
    + eexists. split; [done|]. split; [done|]. split; [done|]. split; [done|]. exists (fd ++ [x]), [].
      cbn [tree filled cursor]. split; [by rewrite app_nil_r|]. split; [|done].
      change x with (node 0 [x]) at 1. by apply filled_ok_snoc.
    + destruct (append_spec empty_tree [] x rep_empty) as (c & -> & Hrep); [cbn; apply pow2_pos|]. monad.
      eexists. split; [done|]. split; [done|]. split; [done|]. split; [done|]. exists fd, [x].
      cbn [tree filled cursor cursor_depth]. split; [done|]. split; [done|]. split; [done|].
      split; [lia|]. split; [done|]. cbn [length]. destruct cd as [|cd]; [done|].
      rewrite Nat.pow_succ_r'. pose proof (pow2_pos cd). lia.
Qed.

Lemma witness_append_all_spec g : forall w l f,
  witness_rep w l f -> (length l + length f + length g <= 2 ^ Depth)%nat ->
  exists w', witness_append_all w g = Some w' /\ tree w' = tree w /\ witness_rep w' l (f ++ g).
Proof.
  induction g as [|x g IH]; intros w l f Hw Hl; cbn [witness_append_all length] in *.
  - exists w. by rewrite app_nil_r.
  - destruct (witness_append_spec w l f x Hw ltac:(lia)) as (w1 & -> & E1 & Hw1). monad.
    destruct (IH w1 l _ Hw1) as (w' & -> & E' & Hw'); [rewrite length_app; cbn; lia|].
    exists w'. rewrite <- app_assoc in Hw'. by rewrite E', E1.
Qed.

(** Recomputing along [path] retraces [root]. *)
Lemma fill_path_root n : forall d r q, path_root d r (fill_path n d q) = fill_loop n d r q.
Proof.
  induction n as [|n IH]; intros d r q; [done|]. cbn [fill_path fill_loop].
  destruct (filler_next q d) as [h q']. cbn [path_root]. apply IH.
Qed.

Lemma path_loop_root ps : forall d r q, path_root d r (path_loop d ps q) = root_loop Depth d ps r q.
Proof.
  induction ps as [|[p|] ps IH]; intros d r q; cbn [path_loop root_loop].
  - apply fill_path_root.
  - apply IH.
  - destruct (filler_next q d) as [h q']. apply IH.
Qed.

Lemma path_at_root t q x :
  left t <> None -> tree_last t = Some x ->
  exists p, path_at t q = Some p /\ path_root 0 x p = root_at t Depth q.
Proof.
  unfold tree_last, path_at, root_at, take_or_next. intros Hl Hx.
  destruct (left t) as [a|]; [|done]. destruct (right t) as [b|].
  - injection Hx as <-. eexists. split; [done|]. cbn [path_root]. apply path_loop_root.
  - injection Hx as <-. destruct (filler_next q 0) as [h q']. eexists. split; [done|].
    cbn [path_root]. apply path_loop_root.
Qed.

End tree.

(** A concrete hash for the instances below. *)
Definition sample_combine (a b : Z) (d : nat) : Z := (3 * a + 5 * b + 7 * Z.of_nat d + 1) mod 1000003.
Fixpoint sample_empty (d : nat) : Z :=
  match d with O => 1 | S d' => sample_combine (sample_empty d') (sample_empty d') d' end.

(** C18: the incremental note commitment tree is equivalent to the full tree: after
    appending any list of at most 2^Depth commitments, one at a time, the root
    is the root of the full depth-Depth tree over those leaves padded with empty
    leaves, the state is canonical, its size is the number of leaves (below
    2^31), and appending to a full tree is refused. *)
Theorem note_tree_equivalent {H : Type} (combine : H -> H -> nat -> H) (EmptyRoot : nat -> H) (Depth : nat)
    (Hempty : forall d, EmptyRoot (S d) = combine (EmptyRoot d) (EmptyRoot d) d)
    (HD : (1 <= Depth < 64)%nat) (l : list H) (Hl : (length l <= 2 ^ Depth)%nat) :
  exists t, append_all combine Depth empty_tree l = Some t /\
    root combine EmptyRoot Depth t = node combine EmptyRoot Depth l /\
    wfcheck Depth t = true /\
    (Z.of_nat (length l) < 2 ^ 31 -> size t = Z.of_nat (length l)) /\
    (length l = (2 ^ Depth)%nat -> forall x, append combine Depth t x = None).
Proof.
  destruct (append_all_spec combine EmptyRoot Depth HD l empty_tree [] (rep_empty combine EmptyRoot) Hl)
    as (t & Ht & Hrep).
  exists t. split; [done|]. split; [by apply (root_spec combine EmptyRoot Depth Hempty HD); try lia|].
  split; [by apply (wfcheck_spec combine EmptyRoot Depth HD t l)|].
  split; [by apply (size_spec combine EmptyRoot Depth HD t l)|].
  intros Hfull x. by apply (append_full combine EmptyRoot Depth HD t l).
Qed.

Lemma note_tree_equivalent_witness :
  exists t, append_all sample_combine 3 empty_tree [11; 12; 13; 14; 15] = Some t /\
    root sample_combine sample_empty 3 t = node sample_combine sample_empty 3 [11; 12; 13; 14; 15] /\
    wfcheck 3 t = true /\
    (Z.of_nat 5 < 2 ^ 31 -> size t = Z.of_nat 5) /\
    (5%nat = (2 ^ 3)%nat -> forall x, append sample_combine 3 t x = None).
Proof.
  apply (note_tree_equivalent sample_combine sample_empty 3 (fun d => eq_refl)); cbn; lia.
Defined.

(** C19: witnesses stay correct.  A witness taken for the last commitment of any
    non-empty tree and updated with every later commitment (never refused while
    the tree has room) has the root of the grown tree, still points at its
    commitment, and its authentication path recomputes that root from it. *)
Theorem note_witness_follows_tree {H : Type} (combine : H -> H -> nat -> H) (EmptyRoot : nat -> H)
    (Depth : nat) (Hempty : forall d, EmptyRoot (S d) = combine (EmptyRoot d) (EmptyRoot d) d)
    (HD : (1 <= Depth < 64)%nat) (l f : list H) (x : H)
    (Hl : (length (l ++ [x]) + length f <= 2 ^ Depth)%nat) :
  exists t t' w p,
    append_all combine Depth empty_tree (l ++ [x]) = Some t /\
    append_all combine Depth t f = Some t' /\
    witness_append_all combine EmptyRoot Depth (witness t) f = Some w /\
    witness_root combine EmptyRoot Depth w = root combine EmptyRoot Depth t' /\
    element w = Some x /\
    witness_path combine EmptyRoot Depth w = Some p /\
    path_root combine 0 x p = root combine EmptyRoot Depth t'.
Proof.
  destruct (append_all_spec combine EmptyRoot Depth HD (l ++ [x]) empty_tree [] (rep_empty combine EmptyRoot))
    as (t & Ht & Hrep); [cbn [length]; lia|]. cbn [app] in Hrep.
  destruct (append_all_spec combine EmptyRoot Depth HD f t _ Hrep Hl) as (t' & Ht' & Hrep').
  assert (witness_rep combine EmptyRoot Depth (witness t) (l ++ [x]) []) as Hw0.
  { split; [done|]. split; [lia|]. by exists [], []. }
  destruct (witness_append_all_spec combine EmptyRoot Depth Hempty HD f _ _ _ Hw0) as (w & Hw & Etree & Hwrep);
    [cbn [length]; lia|]. cbn [app] in Hwrep.
  assert (witness_root combine EmptyRoot Depth w = root combine EmptyRoot Depth t') as Hroot.
  { rewrite (witness_root_spec combine EmptyRoot Depth Hempty HD w _ f Hwrep).
    symmetry. apply (root_spec combine EmptyRoot Depth Hempty HD); [done|lia|]. rewrite length_app. lia. }
  assert (tree_last t = Some x /\ left t <> None) as [Hlast Hleft].
  { unfold tree_last. destruct Hrep as [_ Hr].
    destruct (left t) as [a|], (right t) as [b|]; [| |done|].
    - destruct Hr as (m & Hr & _). change [a; b] with ([a] ++ [b]) in Hr. rewrite app_assoc in Hr.
      by apply app_inj_2 in Hr as [_ [= <-]].
    - destruct Hr as (m & Hr & _). by apply app_inj_2 in Hr as [_ [= <-]].
    - destruct Hr as [Hr _]. by destruct l. }
  destruct (path_at_root combine EmptyRoot Depth t (partial_path combine EmptyRoot w) x Hleft Hlast)
    as (p & Hp & Hproot).
  exists t, t', w, p. unfold element, witness_path. rewrite Etree. cbn [witness tree].
  do 5 (split; [done|]). split; [done|]. rewrite Hproot, <- Hroot. unfold witness_root. by rewrite Etree.
Qed.

Lemma note_witness_follows_tree_witness :
  exists t t' w p,
    append_all sample_combine 3 empty_tree ([11; 12] ++ [13]) = Some t /\
    append_all sample_combine 3 t [21; 22; 23] = Some t' /\
    witness_append_all sample_combine sample_empty 3 (witness t) [21; 22; 23] = Some w /\
    witness_root sample_combine sample_empty 3 w = root sample_combine sample_empty 3 t' /\
    element w = Some 13 /\
    witness_path sample_combine sample_empty 3 w = Some p /\
    path_root sample_combine 0 13 p = root sample_combine sample_empty 3 t'.
Proof.
  apply (note_witness_follows_tree sample_combine sample_empty 3 (fun d => eq_refl)); cbn; lia.
Defined.

End NoteTree.
