(* ===== verification/Coins.v ===== *)
(** * The unspent transaction output set (src/coins.{h,cpp}, src/txdb.cpp)

    [CCoins] is the pruned form of a transaction; a [CCoinsView] is the
    polymorphic interface to the set of unspent outputs, nullifiers and note
    tree anchors.  The interface is a type class, [CCoinsViewDB] (the database)
    and [CCoinsViewCache] (a write-back cache over any other view) are its
    instances.  Reads fill caches, so every method passes the state of the view;
    a failed [assert] is [None].  The key-value store under [CCoinsViewDB] is a
    finite map per record type.  Memory accounting ([cachedCoinsUsage]) is left
    out. *)

From stdpp Require Import base list list_numbers numbers option gmap.
From Stdlib Require Import ZArith Lia.
From S2P Require Import Prelude Bytes Serialize Amount Transaction Script NoteTree.
Import Transaction.

Module Coins.

(** ** class CCoins *)

Record CCoins := { fCoinBase : bool; vout : list CTxOut; nHeight : Z; nVersion : Z }.

#[global] Instance CCoins_eq_dec : EqDecision CCoins.
Proof. solve_decision. Defined.

Definition Clear (c : CCoins) : CCoins := {| fCoinBase := false; vout := []; nHeight := 0; nVersion := 0 |}.
Definition CCoins_empty : CCoins := {| fCoinBase := false; vout := []; nHeight := 0; nVersion := 0 |}.

Definition set_vout (c : CCoins) (v : list CTxOut) : CCoins :=
  {| fCoinBase := fCoinBase c; vout := v; nHeight := nHeight c; nVersion := nVersion c |}.

(** [while (vout.size() > 0 && vout.back().IsNull()) vout.pop_back();] on the
    reversed vector *)
Fixpoint pop_nulls (rev_vout : list CTxOut) : list CTxOut :=
  match rev_vout with
  | o :: rest => if CTxOut_IsNull o then pop_nulls rest else rev_vout
  | [] => []
  end.
Definition Cleanup (c : CCoins) : CCoins := set_vout c (reverse (pop_nulls (reverse (vout c)))).

Definition ClearUnspendable (c : CCoins) : CCoins :=
  Cleanup (set_vout c (map (fun o => if Script.IsUnspendable (scriptPubKey o) then CTxOut_null else o) (vout c))).

Definition FromTx (tx : CTransaction) (nHeightIn : Z) : CCoins :=
  ClearUnspendable {| fCoinBase := IsCoinBase tx; vout := Transaction.vout tx;
                      nHeight := nHeightIn; nVersion := tx_nVersion tx |}.

Definition IsAvailable (c : CCoins) (nPos : Z) : bool :=
  match vout c !! Z.to_nat nPos with Some o => negb (CTxOut_IsNull o) | None => false end.

Definition IsPruned (c : CCoins) : bool := forallb CTxOut_IsNull (vout c).

(** The return value and the updated coins. *)
Definition Spend (c : CCoins) (nPos : Z) : bool * CCoins :=
  match vout c !! Z.to_nat nPos with
  | Some o => if CTxOut_IsNull o then (false, c)
              else (true, Cleanup (set_vout c (<[Z.to_nat nPos := CTxOut_null]> (vout c))))
  | None => (false, c)
  end.

(** [operator==]: pruned objects are all equal *)
Definition coins_eqb (a b : CCoins) : bool :=
  if IsPruned a && IsPruned b then true else bool_decide (a = b).

(** ** Cache entries *)

Definition DIRTY : Z := 1.
Definition FRESH : Z := 2.

Inductive ShieldedType := SPROUT | SAPLING.
#[global] Instance ShieldedType_eq_dec : EqDecision ShieldedType.
Proof. solve_decision. Defined.

Definition Tree : Type := @NoteTree.IncrementalMerkleTree (list Z).

Record CCoinsCacheEntry := { coins : CCoins; flags : Z }.
Record CAnchorsCacheEntry := { a_entered : bool; a_tree : Tree; a_flags : Z }.
Record CNullifiersCacheEntry := { n_entered : bool; n_flags : Z }.

Definition has_flag (f flag : Z) : bool := negb (Z.land f flag =? 0).

Abbreviation CCoinsMap := (gmap (list Z) CCoinsCacheEntry).
Abbreviation CAnchorsMap := (gmap (list Z) CAnchorsCacheEntry).
Abbreviation CNullifiersMap := (gmap (list Z) CNullifiersCacheEntry).

(** The arguments of [BatchWrite]. *)
Record batch := {
  mapCoins : CCoinsMap;
  b_hashBlock : list Z; b_hashSproutAnchor : list Z; b_hashSaplingAnchor : list Z;
  mapSproutAnchors : CAnchorsMap; mapSaplingAnchors : CAnchorsMap;
  mapSproutNullifiers : CNullifiersMap; mapSaplingNullifiers : CNullifiersMap
}.

(** ** class CCoinsView

    [GetSproutAnchorAt] and [GetSaplingAnchorAt] are [GetAnchorAt] at the two
    types. *)

Class CCoinsView (V : Type) := {
  GetAnchorAt : ShieldedType -> list Z -> V -> option Tree * V;
  GetNullifier : list Z -> ShieldedType -> V -> bool * V;
  GetCoins : list Z -> V -> option CCoins * V;
  HaveCoins : list Z -> V -> bool * V;
  GetBestBlock : V -> list Z * V;
  GetBestAnchor : ShieldedType -> V -> list Z * V;
  BatchWrite : batch -> V -> option V
}.

(** ** class CCoinsViewCache : CCoinsViewBacked *)

Record CCoinsViewCache (B : Type) := MkCache {
  base : B;
  hasModifier : bool;
  hashBlock : list Z;
  cacheCoins : CCoinsMap;
  hashSproutAnchor : list Z; hashSaplingAnchor : list Z;
  cacheSproutAnchors : CAnchorsMap; cacheSaplingAnchors : CAnchorsMap;
  cacheSproutNullifiers : CNullifiersMap; cacheSaplingNullifiers : CNullifiersMap
}.
Arguments MkCache {B}. Arguments base {B}. Arguments hasModifier {B}. Arguments hashBlock {B}.
Arguments cacheCoins {B}. Arguments hashSproutAnchor {B}. Arguments hashSaplingAnchor {B}.
Arguments cacheSproutAnchors {B}. Arguments cacheSaplingAnchors {B}.
Arguments cacheSproutNullifiers {B}. Arguments cacheSaplingNullifiers {B}.

Definition null256 : list Z := zero_blob 32.

(** ** The note trees of the two pools

    [Hash::combine] and [Hash::EmptyRoot] of the two instantiations of
    [IncrementalMerkleTree]. *)

Record tree_hash := {
  hash_combine : ShieldedType -> list Z -> list Z -> nat -> list Z;
  hash_EmptyRoot : ShieldedType -> nat -> list Z
}.

Definition INCREMENTAL_MERKLE_TREE_DEPTH : nat := 29.
Definition SAPLING_INCREMENTAL_MERKLE_TREE_DEPTH : nat := 32.
Definition tree_depth (ty : ShieldedType) : nat :=
  match ty with SPROUT => INCREMENTAL_MERKLE_TREE_DEPTH | SAPLING => SAPLING_INCREMENTAL_MERKLE_TREE_DEPTH end.
Definition tree_root (th : tree_hash) (ty : ShieldedType) (t : Tree) : list Z :=
  NoteTree.root (hash_combine th ty) (hash_EmptyRoot th ty) (tree_depth ty) t.
Definition empty_root (th : tree_hash) (ty : ShieldedType) : list Z := hash_EmptyRoot th ty (tree_depth ty).
Definition tree_append (th : tree_hash) (ty : ShieldedType) (t : Tree) (cm : list Z) : option Tree :=
  NoteTree.append (hash_combine th ty) (tree_depth ty) t cm.

(** What the code relies on: the table of empty roots is the table of roots of
    empty trees, and no root is the null hash. *)
Class TreeHashOk (th : tree_hash) := {
  EmptyRoot_step ty d :
    hash_EmptyRoot th ty (S d) = hash_combine th ty (hash_EmptyRoot th ty d) (hash_EmptyRoot th ty d) d;
  empty_root_not_null ty : blob_IsNull (empty_root th ty) = false
}.

(** ** Batch writes

    The loops over the entries of a child's map: each iteration looks at one
    child entry and at the parent's slot for the same key, and leaves the new
    slot; [None] is a failed assertion. *)

Section batch_loop.
Context {E P : Type} (body : E -> option P -> option (option P)).

Definition batch_step (acc : option (gmap (list Z) P)) (kv : list Z * E) : option (gmap (list Z) P) :=
  parent ← acc;
  slot ← body (snd kv) (parent !! fst kv);
  Some (partial_alter (fun _ => slot) (fst kv) parent).

Definition batch_loop (child : gmap (list Z) E) (parent : gmap (list Z) P) : option (gmap (list Z) P) :=
  fold_left batch_step (map_to_list child) (Some parent).
End batch_loop.

Section cache.
Context {B : Type} `{CCoinsView B} (th : tree_hash).

Definition new_cache (b : B) : CCoinsViewCache B :=
  MkCache b false null256 ∅ null256 null256 ∅ ∅ ∅ ∅.

(** Field updates. *)
Definition set_base (c : CCoinsViewCache B) (b : B) : CCoinsViewCache B :=
  MkCache b (hasModifier c) (hashBlock c) (cacheCoins c) (hashSproutAnchor c) (hashSaplingAnchor c)
    (cacheSproutAnchors c) (cacheSaplingAnchors c) (cacheSproutNullifiers c) (cacheSaplingNullifiers c).
Definition set_hasModifier (c : CCoinsViewCache B) (m : bool) : CCoinsViewCache B :=
  MkCache (base c) m (hashBlock c) (cacheCoins c) (hashSproutAnchor c) (hashSaplingAnchor c)
    (cacheSproutAnchors c) (cacheSaplingAnchors c) (cacheSproutNullifiers c) (cacheSaplingNullifiers c).
Definition set_hashBlock (c : CCoinsViewCache B) (h : list Z) : CCoinsViewCache B :=
  MkCache (base c) (hasModifier c) h (cacheCoins c) (hashSproutAnchor c) (hashSaplingAnchor c)
    (cacheSproutAnchors c) (cacheSaplingAnchors c) (cacheSproutNullifiers c) (cacheSaplingNullifiers c).
Definition set_cacheCoins (c : CCoinsViewCache B) (m : CCoinsMap) : CCoinsViewCache B :=
  MkCache (base c) (hasModifier c) (hashBlock c) m (hashSproutAnchor c) (hashSaplingAnchor c)
    (cacheSproutAnchors c) (cacheSaplingAnchors c) (cacheSproutNullifiers c) (cacheSaplingNullifiers c).

Definition hashAnchor (ty : ShieldedType) (c : CCoinsViewCache B) : list Z :=
  match ty with SPROUT => hashSproutAnchor c | SAPLING => hashSaplingAnchor c end.
Definition cacheAnchors (ty : ShieldedType) (c : CCoinsViewCache B) : CAnchorsMap :=
  match ty with SPROUT => cacheSproutAnchors c | SAPLING => cacheSaplingAnchors c end.
Definition cacheNullifiers (ty : ShieldedType) (c : CCoinsViewCache B) : CNullifiersMap :=
  match ty with SPROUT => cacheSproutNullifiers c | SAPLING => cacheSaplingNullifiers c end.

Definition set_hashAnchor (ty : ShieldedType) (c : CCoinsViewCache B) (h : list Z) : CCoinsViewCache B :=
  MkCache (base c) (hasModifier c) (hashBlock c) (cacheCoins c)
    (match ty with SPROUT => h | SAPLING => hashSproutAnchor c end)
    (match ty with SPROUT => hashSaplingAnchor c | SAPLING => h end)
    (cacheSproutAnchors c) (cacheSaplingAnchors c) (cacheSproutNullifiers c) (cacheSaplingNullifiers c).
Definition set_cacheAnchors (ty : ShieldedType) (c : CCoinsViewCache B) (m : CAnchorsMap) : CCoinsViewCache B :=
  MkCache (base c) (hasModifier c) (hashBlock c) (cacheCoins c) (hashSproutAnchor c) (hashSaplingAnchor c)
    (match ty with SPROUT => m | SAPLING => cacheSproutAnchors c end)
    (match ty with SPROUT => cacheSaplingAnchors c | SAPLING => m end)
    (cacheSproutNullifiers c) (cacheSaplingNullifiers c).
Definition set_cacheNullifiers (ty : ShieldedType) (c : CCoinsViewCache B) (m : CNullifiersMap) : CCoinsViewCache B :=
  MkCache (base c) (hasModifier c) (hashBlock c) (cacheCoins c) (hashSproutAnchor c) (hashSaplingAnchor c)
    (cacheSproutAnchors c) (cacheSaplingAnchors c)
    (match ty with SPROUT => m | SAPLING => cacheSproutNullifiers c end)
    (match ty with SPROUT => cacheSaplingNullifiers c | SAPLING => m end).

(** *** Reads *)

(** FetchCoins: the cached entry, if any *)
Definition FetchCoins (txid : list Z) (c : CCoinsViewCache B) : option CCoinsCacheEntry * CCoinsViewCache B :=
  match cacheCoins c !! txid with
  | Some e => (Some e, c)
  | None =>
      let '(r, b') := GetCoins txid (base c) in
      match r with
      | None => (None, set_base c b')
      | Some tmp =>
          let e := {| coins := tmp; flags := if IsPruned tmp then FRESH else 0 |} in
          (Some e, set_cacheCoins (set_base c b') (<[txid := e]> (cacheCoins c)))
      end
  end.

Definition cache_GetCoins (txid : list Z) (c : CCoinsViewCache B) : option CCoins * CCoinsViewCache B :=
  let '(r, c') := FetchCoins txid c in (coins <$> r, c').

Definition AccessCoins := cache_GetCoins.

Definition cache_HaveCoins (txid : list Z) (c : CCoinsViewCache B) : bool * CCoinsViewCache B :=
  let '(r, c') := FetchCoins txid c in
  (match r with Some e => negb (bool_decide (vout (coins e) = [])) | None => false end, c').

Definition cache_GetAnchorAt (ty : ShieldedType) (rt : list Z) (c : CCoinsViewCache B)
  : option Tree * CCoinsViewCache B :=
  match cacheAnchors ty c !! rt with
  | Some e => (if a_entered e then Some (a_tree e) else None, c)
  | None =>
      let '(r, b') := GetAnchorAt ty rt (base c) in
      match r with
      | None => (None, set_base c b')
      | Some tree =>
          (Some tree,
           set_cacheAnchors ty (set_base c b')
             (<[rt := {| a_entered := true; a_tree := tree; a_flags := 0 |}]> (cacheAnchors ty c)))
      end
  end.

Definition cache_GetNullifier (nf : list Z) (ty : ShieldedType) (c : CCoinsViewCache B)
  : bool * CCoinsViewCache B :=
  match cacheNullifiers ty c !! nf with
  | Some e => (n_entered e, c)
  | None =>
      let '(tmp, b') := GetNullifier nf ty (base c) in
      (tmp, set_cacheNullifiers ty (set_base c b')
              (<[nf := {| n_entered := tmp; n_flags := 0 |}]> (cacheNullifiers ty c)))
  end.

Definition cache_GetBestBlock (c : CCoinsViewCache B) : list Z * CCoinsViewCache B :=
  if blob_IsNull (hashBlock c)
  then let '(h, b') := GetBestBlock (base c) in (h, set_hashBlock (set_base c b') h)
  else (hashBlock c, c).

Definition cache_GetBestAnchor (ty : ShieldedType) (c : CCoinsViewCache B) : list Z * CCoinsViewCache B :=
  if blob_IsNull (hashAnchor ty c)
  then let '(h, b') := GetBestAnchor ty (base c) in (h, set_hashAnchor ty (set_base c b') h)
  else (hashAnchor ty c, c).

(** *** Modifiers *)

(** ModifyCoins, with the CCoinsModifier constructor *)
Definition ModifyCoins (txid : list Z) (c : CCoinsViewCache B) : option (CCoinsViewCache B) :=
  if hasModifier c then None
  else
    let '(e, c') :=
      match cacheCoins c !! txid with
      | Some e => (e, c)
      | None =>
          let '(r, b') := GetCoins txid (base c) in
          (match r with
           | None => {| coins := CCoins_empty; flags := FRESH |}
           | Some cs => {| coins := cs; flags := if IsPruned cs then FRESH else 0 |}
           end, set_base c b')
      end in
    Some (set_hasModifier
      (set_cacheCoins c' (<[txid := {| coins := coins e; flags := Z.lor (flags e) DIRTY |}]> (cacheCoins c'))) true).

Definition ModifyNewCoins (txid : list Z) (c : CCoinsViewCache B) : option (CCoinsViewCache B) :=
  if hasModifier c then None
  else
    Some (set_hasModifier
      (set_cacheCoins c (<[txid := {| coins := CCoins_empty; flags := Z.lor FRESH DIRTY |}]> (cacheCoins c))) true).

(** Access through the modifier: [f] runs on the referenced coins. *)
Definition modifier_run {A} (txid : list Z) (f : CCoins -> option (A * CCoins)) (c : CCoinsViewCache B)
  : option (A * CCoinsViewCache B) :=
  e ← cacheCoins c !! txid;
  r ← f (coins e);
  Some (fst r, set_cacheCoins c (<[txid := {| coins := snd r; flags := flags e |}]> (cacheCoins c))).

(** CCoinsModifier::~CCoinsModifier *)
Definition modifier_destroy (txid : list Z) (c : CCoinsViewCache B) : option (CCoinsViewCache B) :=
  if negb (hasModifier c) then None
  else
    let c := set_hasModifier c false in
    e ← cacheCoins c !! txid;
    let cs := Cleanup (coins e) in
    Some (if has_flag (flags e) FRESH && IsPruned cs
          then set_cacheCoins c (delete txid (cacheCoins c))
          else set_cacheCoins c (<[txid := {| coins := cs; flags := flags e |}]> (cacheCoins c))).

(** A block in which [CCoinsModifier coins = ModifyCoins(txid)] is in scope. *)
Definition with_coins {A} (txid : list Z) (f : CCoins -> option (A * CCoins)) (c : CCoinsViewCache B)
  : option (A * CCoinsViewCache B) :=
  c1 ← ModifyCoins txid c;
  r ← modifier_run txid f c1;
  c2 ← modifier_destroy txid (snd r);
  Some (fst r, c2).
Definition with_new_coins (txid : list Z) (f : CCoins -> CCoins) (c : CCoinsViewCache B)
  : option (CCoinsViewCache B) :=
  c1 ← ModifyNewCoins txid c;
  r ← modifier_run txid (fun cs => Some (tt, f cs)) c1;
  modifier_destroy txid (snd r).

(** *** Anchors and nullifiers *)

(** AbstractPushAnchor *)
Definition PushAnchor (ty : ShieldedType) (tree : Tree) (c : CCoinsViewCache B) : CCoinsViewCache B :=
  let newrt := tree_root th ty tree in
  let '(currentRoot, c) := cache_GetBestAnchor ty c in
  if bool_decide (currentRoot = newrt) then c
  else
    set_hashAnchor ty
      (set_cacheAnchors ty c
         (<[newrt := {| a_entered := true; a_tree := tree; a_flags := DIRTY |}]> (cacheAnchors ty c))) newrt.

(** AbstractPopAnchor, with BringBestAnchorIntoCache *)
Definition PopAnchor (newrt : list Z) (ty : ShieldedType) (c : CCoinsViewCache B) : option (CCoinsViewCache B) :=
  let '(currentRoot, c) := cache_GetBestAnchor ty c in
  if bool_decide (currentRoot = newrt) then Some c
  else
    let '(r, c) := cache_GetAnchorAt ty currentRoot c in
    _ ← r;
    e ← cacheAnchors ty c !! currentRoot;
    Some (set_hashAnchor ty
      (set_cacheAnchors ty c
         (<[currentRoot := {| a_entered := false; a_tree := a_tree e; a_flags := DIRTY |}]> (cacheAnchors ty c))) newrt).

(** One iteration of the loops of SetNullifiers. *)
Definition set_nullifier (ty : ShieldedType) (spent : bool) (c : CCoinsViewCache B) (nf : list Z)
  : CCoinsViewCache B :=
  let old := match cacheNullifiers ty c !! nf with Some e => n_flags e | None => 0 end in
  set_cacheNullifiers ty c
    (<[nf := {| n_entered := spent; n_flags := Z.lor old DIRTY |}]> (cacheNullifiers ty c)).

Definition SetNullifiers (tx : CTransaction) (spent : bool) (c : CCoinsViewCache B) : CCoinsViewCache B :=
  let c := fold_left (set_nullifier SPROUT spent) (concat (map nullifiers (vJoinSplit tx))) c in
  fold_left (set_nullifier SAPLING spent) (map sd_nullifier (vShieldedSpend tx)) c.

Definition SetBestBlock (h : list Z) (c : CCoinsViewCache B) : CCoinsViewCache B := set_hashBlock c h.

(** *** Writing a child's changes into this cache *)

(** The body of the first loop of CCoinsViewCache::BatchWrite. *)
Definition batch_coins (child : CCoinsCacheEntry) (us : option CCoinsCacheEntry)
  : option (option CCoinsCacheEntry) :=
  if negb (has_flag (flags child) DIRTY) then Some us
  else match us with
  | None =>
      if negb (IsPruned (coins child)) then
        if has_flag (flags child) FRESH
        then Some (Some {| coins := coins child; flags := Z.lor DIRTY FRESH |})
        else None
      else Some None
  | Some e =>
      if has_flag (flags e) FRESH && IsPruned (coins child) then Some None
      else Some (Some {| coins := coins child; flags := Z.lor (flags e) DIRTY |})
  end.

(** The body of ::BatchWriteAnchors. *)
Definition BatchWriteAnchors (child : CAnchorsCacheEntry) (us : option CAnchorsCacheEntry)
  : option (option CAnchorsCacheEntry) :=
  if negb (has_flag (a_flags child) DIRTY) then Some us
  else match us with
  | None => Some (Some {| a_entered := a_entered child; a_tree := a_tree child; a_flags := DIRTY |})
  | Some e =>
      if bool_decide (a_entered e <> a_entered child)
      then Some (Some {| a_entered := a_entered child; a_tree := a_tree e; a_flags := Z.lor (a_flags e) DIRTY |})
      else Some (Some e)
  end.

(** The body of ::BatchWriteNullifiers. *)
Definition BatchWriteNullifiers (child : CNullifiersCacheEntry) (us : option CNullifiersCacheEntry)
  : option (option CNullifiersCacheEntry) :=
  if negb (has_flag (n_flags child) DIRTY) then Some us
  else match us with
  | None => Some (Some {| n_entered := n_entered child; n_flags := DIRTY |})
  | Some e =>
      if bool_decide (n_entered e <> n_entered child)
      then Some (Some {| n_entered := n_entered child; n_flags := Z.lor (n_flags e) DIRTY |})
      else Some (Some e)
  end.

Definition cache_BatchWrite (bt : batch) (c : CCoinsViewCache B) : option (CCoinsViewCache B) :=
  if hasModifier c then None
  else
    coins' ← batch_loop batch_coins (mapCoins bt) (cacheCoins c);
    sprout' ← batch_loop BatchWriteAnchors (mapSproutAnchors bt) (cacheSproutAnchors c);
    sapling' ← batch_loop BatchWriteAnchors (mapSaplingAnchors bt) (cacheSaplingAnchors c);
    nsprout' ← batch_loop BatchWriteNullifiers (mapSproutNullifiers bt) (cacheSproutNullifiers c);
    nsapling' ← batch_loop BatchWriteNullifiers (mapSaplingNullifiers bt) (cacheSaplingNullifiers c);
    Some (MkCache (base c) false (b_hashBlock bt) coins'
            (b_hashSproutAnchor bt) (b_hashSaplingAnchor bt) sprout' sapling' nsprout' nsapling').

Definition Flush (c : CCoinsViewCache B) : option (CCoinsViewCache B) :=
  b' ← BatchWrite {| mapCoins := cacheCoins c; b_hashBlock := hashBlock c;
                     b_hashSproutAnchor := hashSproutAnchor c; b_hashSaplingAnchor := hashSaplingAnchor c;
                     mapSproutAnchors := cacheSproutAnchors c; mapSaplingAnchors := cacheSaplingAnchors c;
                     mapSproutNullifiers := cacheSproutNullifiers c;
                     mapSaplingNullifiers := cacheSaplingNullifiers c |} (base c);
  Some (MkCache b' (hasModifier c) (hashBlock c) ∅ (hashSproutAnchor c) (hashSaplingAnchor c) ∅ ∅ ∅ ∅).

(** *** Questions about a transaction *)

Definition GetOutputFor (input : CTxIn) (c : CCoinsViewCache B) : option (CTxOut * CCoinsViewCache B) :=
  let '(r, c') := AccessCoins (out_hash (prevout input)) c in
  cs ← r;
  if IsAvailable cs (out_n (prevout input))
  then o ← vout cs !! Z.to_nat (out_n (prevout input)); Some (o, c')
  else None.

(** The loop of GetValueIn, in [int64_t]. *)
Fixpoint value_in_loop (ins : list CTxIn) (nResult : Z) (c : CCoinsViewCache B)
  : option (Z * CCoinsViewCache B) :=
  match ins with
  | [] => Some (nResult, c)
  | i :: ins' =>
      r ← GetOutputFor i c;
      value_in_loop ins' (s64 (nResult + nValue (fst r))) (snd r)
  end.

Definition GetValueIn (tx : CTransaction) (c : CCoinsViewCache B) : option (Z * CCoinsViewCache B) :=
  if IsCoinBase tx then Some (0, c)
  else
    r ← value_in_loop (vin tx) 0 c;
    sh ← GetShieldedValueIn tx;
    Some (s64 (fst r + sh), snd r).

Fixpoint any_nullifier (ty : ShieldedType) (nfs : list (list Z)) (c : CCoinsViewCache B)
  : bool * CCoinsViewCache B :=
  match nfs with
  | [] => (false, c)
  | nf :: nfs' =>
      let '(b, c) := cache_GetNullifier nf ty c in
      if b then (true, c) else any_nullifier ty nfs' c
  end.

Fixpoint append_commitments (t : Tree) (cms : list (list Z)) : option Tree :=
  match cms with
  | [] => Some t
  | cm :: cms' => t' ← tree_append th SPROUT t cm; append_commitments t' cms'
  end.

(** The first loop of HaveShieldedRequirements.  [None] is the exception of
    [append] on a full tree; [unordered_map::insert] keeps an existing entry. *)
Fixpoint joinsplit_requirements (js : list JSDescription) (intermediates : gmap (list Z) Tree)
    (c : CCoinsViewCache B) : option (bool * CCoinsViewCache B) :=
  match js with
  | [] => Some (true, c)
  | j :: js' =>
      let '(spent, c) := any_nullifier SPROUT (nullifiers j) c in
      if spent then Some (false, c)
      else
        let '(r, c) :=
          match intermediates !! anchor j with
          | Some t => (Some t, c)
          | None => cache_GetAnchorAt SPROUT (anchor j) c
          end in
        match r with
        | None => Some (false, c)
        | Some t =>
            t' ← append_commitments t (commitments j);
            let rt := tree_root th SPROUT t' in
            joinsplit_requirements js'
              (match intermediates !! rt with Some _ => intermediates | None => <[rt := t']> intermediates end) c
        end
  end.

Fixpoint spend_requirements (ss : list SpendDescription) (c : CCoinsViewCache B) : bool * CCoinsViewCache B :=
  match ss with
  | [] => (true, c)
  | s :: ss' =>
      let '(spent, c) := cache_GetNullifier (sd_nullifier s) SAPLING c in
      if spent then (false, c)
      else
        let '(r, c) := cache_GetAnchorAt SAPLING (sd_anchor s) c in
        match r with None => (false, c) | Some _ => spend_requirements ss' c end
  end.

Definition HaveShieldedRequirements (tx : CTransaction) (c : CCoinsViewCache B)
  : option (bool * CCoinsViewCache B) :=
  match joinsplit_requirements (vJoinSplit tx) ∅ c with
  | Some (true, c) => Some (spend_requirements (vShieldedSpend tx) c)
  | r => r
  end.

Fixpoint have_inputs_loop (ins : list CTxIn) (c : CCoinsViewCache B) : bool * CCoinsViewCache B :=
  match ins with
  | [] => (true, c)
  | i :: ins' =>
      let '(r, c) := AccessCoins (out_hash (prevout i)) c in
      match r with
      | Some cs => if IsAvailable cs (out_n (prevout i)) then have_inputs_loop ins' c else (false, c)
      | None => (false, c)
      end
  end.
Definition HaveInputs (tx : CTransaction) (c : CCoinsViewCache B) : bool * CCoinsViewCache B :=
  if IsCoinBase tx then (true, c) else have_inputs_loop (vin tx) c.

#[export] Instance CCoinsViewCache_view : CCoinsView (CCoinsViewCache B) := {
  GetAnchorAt := cache_GetAnchorAt;
  GetNullifier := cache_GetNullifier;
  GetCoins := cache_GetCoins;
  HaveCoins := cache_HaveCoins;
  GetBestBlock := cache_GetBestBlock;
  GetBestAnchor := cache_GetBestAnchor;
  BatchWrite := cache_BatchWrite
}.

End cache.

(** ** class CCoinsViewDB

    One map per record type of the key-value store (the key prefixes ['c'],
    ['A'], ['Z'], ['s'], ['S'], ['B'], ['a'], ['z']). *)

Record CCoinsViewDB := {
  db_coins : gmap (list Z) CCoins;
  db_anchors : ShieldedType -> gmap (list Z) Tree;
  db_nullifiers : ShieldedType -> gmap (list Z) bool;
  db_best_block : option (list Z);
  db_best_anchor : ShieldedType -> option (list Z)
}.

Section db.
Context (th : tree_hash).

Definition db_GetAnchorAt (ty : ShieldedType) (rt : list Z) (d : CCoinsViewDB) : option Tree * CCoinsViewDB :=
  (if bool_decide (rt = empty_root th ty) then Some NoteTree.empty_tree else db_anchors d ty !! rt, d).

(** [db.Read] succeeds when the record exists, whatever [spent] it holds. *)
Definition db_GetNullifier (nf : list Z) (ty : ShieldedType) (d : CCoinsViewDB) : bool * CCoinsViewDB :=
  (bool_decide (is_Some (db_nullifiers d ty !! nf)), d).

Definition db_GetCoins (txid : list Z) (d : CCoinsViewDB) : option CCoins * CCoinsViewDB := (db_coins d !! txid, d).

Definition db_HaveCoins (txid : list Z) (d : CCoinsViewDB) : bool * CCoinsViewDB :=
  (bool_decide (is_Some (db_coins d !! txid)), d).

Definition db_GetBestBlock (d : CCoinsViewDB) : list Z * CCoinsViewDB :=
  (default null256 (db_best_block d), d).

Definition db_GetBestAnchor (ty : ShieldedType) (d : CCoinsViewDB) : list Z * CCoinsViewDB :=
  (default (empty_root th ty) (db_best_anchor d ty), d).

(** The bodies of the loops of CCoinsViewDB::BatchWrite: [Erase] empties the
    record's slot and [Write] fills it. *)
Definition db_write_coins (child : CCoinsCacheEntry) (us : option CCoins) : option (option CCoins) :=
  if negb (has_flag (flags child) DIRTY) then Some us
  else if IsPruned (coins child) then Some None else Some (Some (coins child)).

Definition db_BatchWriteNullifiers (child : CNullifiersCacheEntry) (us : option bool) : option (option bool) :=
  if negb (has_flag (n_flags child) DIRTY) then Some us
  else if negb (n_entered child) then Some None else Some (Some true).

(** The key is compared with [Tree::empty_root()], so the child entry is paired
    with its key. *)
Definition db_BatchWriteAnchors (ty : ShieldedType) (child : list Z * CAnchorsCacheEntry) (us : option Tree)
  : option (option Tree) :=
  if negb (has_flag (a_flags (snd child)) DIRTY) then Some us
  else if negb (a_entered (snd child)) then Some None
  else if bool_decide (fst child <> empty_root th ty) then Some (Some (a_tree (snd child))) else Some us.

Definition with_keys {E} (m : gmap (list Z) E) : gmap (list Z) (list Z * E) := map_imap (fun k e => Some (k, e)) m.

Definition write_hash (h : list Z) (old : option (list Z)) : option (list Z) :=
  if blob_IsNull h then old else Some h.

Definition db_BatchWrite (bt : batch) (d : CCoinsViewDB) : option CCoinsViewDB :=
  coins' ← batch_loop db_write_coins (mapCoins bt) (db_coins d);
  sprout' ← batch_loop (db_BatchWriteAnchors SPROUT) (with_keys (mapSproutAnchors bt)) (db_anchors d SPROUT);
  sapling' ← batch_loop (db_BatchWriteAnchors SAPLING) (with_keys (mapSaplingAnchors bt)) (db_anchors d SAPLING);
  nsprout' ← batch_loop db_BatchWriteNullifiers (mapSproutNullifiers bt) (db_nullifiers d SPROUT);
  nsapling' ← batch_loop db_BatchWriteNullifiers (mapSaplingNullifiers bt) (db_nullifiers d SAPLING);
  Some {| db_coins := coins';
          db_anchors := fun ty => match ty with SPROUT => sprout' | SAPLING => sapling' end;
          db_nullifiers := fun ty => match ty with SPROUT => nsprout' | SAPLING => nsapling' end;
          db_best_block := write_hash (b_hashBlock bt) (db_best_block d);
          db_best_anchor := fun ty => match ty with
            | SPROUT => write_hash (b_hashSproutAnchor bt) (db_best_anchor d SPROUT)
            | SAPLING => write_hash (b_hashSaplingAnchor bt) (db_best_anchor d SAPLING) end |}.

Definition CCoinsViewDB_view : CCoinsView CCoinsViewDB := {|
  GetAnchorAt := db_GetAnchorAt;
  GetNullifier := db_GetNullifier;
  GetCoins := db_GetCoins;
  HaveCoins := db_HaveCoins;
  GetBestBlock := db_GetBestBlock;
  GetBestAnchor := db_GetBestAnchor;
  BatchWrite := db_BatchWrite
|}.

End db.

End Coins.
