(* ===== verification/CoinsFacts.v ===== *)
(** * The coins cache refines an abstract set of unspent outputs

    The abstract state [utxo] says, for every transaction id, nullifier and
    anchor, what the view answers.  [ViewModel] and [CCoinsViewOk] are the
    contract of the [CCoinsView] interface: reads return the abstract answers
    and change nothing, [BatchWrite] applies a child's dirty entries.  The
    database satisfies the contract, and so does a cache over any view that
    satisfies it; the lemmas about the cache's operations are proved against
    the contract of its base only. *)

From stdpp Require Import base list list_numbers numbers option gmap.
From Stdlib Require Import ZArith Lia.
From S2P Require Import Prelude Bytes Serialize Amount Transaction Script NoteTree Coins.
Import Transaction Coins.

Module CoinsFacts.

(** ** Coins *)

(** No trailing spent output: the shape [Cleanup] leaves. *)
Definition clean (cs : CCoins) : Prop :=
  match list.last (vout cs) with Some o => CTxOut_IsNull o = false | None => True end.

(** Pruned coins all mean "nothing unspent". *)
Definition norm (cs : CCoins) : option CCoins := if IsPruned cs then None else Some cs.

Lemma pop_nulls_spec l : exists n, l = n ++ pop_nulls l /\ forallb CTxOut_IsNull n = true.
Proof.
  induction l as [|o l (n & E & Hn)]; [by exists []|]. cbn [pop_nulls].
  destruct (CTxOut_IsNull o) eqn:Ho; [|by exists []].
  exists (o :: n). cbn [app forallb]. by rewrite Ho, <- E.
Qed.

Lemma pop_nulls_head l : match pop_nulls l with o :: _ => CTxOut_IsNull o = false | [] => True end.
Proof. induction l as [|o l IH]; [done|]. cbn [pop_nulls]. by destruct (CTxOut_IsNull o) eqn:Ho. Qed.

Lemma Cleanup_vout cs : exists n, vout cs = vout (Cleanup cs) ++ n /\ forallb CTxOut_IsNull n = true.
Proof.
  destruct (pop_nulls_spec (reverse (vout cs))) as (n & E & Hn). exists (reverse n). split.
  - cbn [Cleanup set_vout vout]. rewrite <- reverse_app, <- E. by rewrite reverse_involutive.
  - apply forallb_forall. intros x Hx%list_elem_of_In. rewrite elem_of_reverse in Hx.
    rewrite forallb_forall in Hn. apply Hn. by apply list_elem_of_In.
Qed.

Lemma Cleanup_clean cs : clean (Cleanup cs).
Proof.
  unfold clean. cbn [Cleanup set_vout vout]. pose proof (pop_nulls_head (reverse (vout cs))) as Hh.
  destruct (pop_nulls _) as [|o l]; [done|]. by rewrite reverse_cons, last_snoc.
Qed.

Lemma clean_Cleanup cs : clean cs -> Cleanup cs = cs.
Proof.
  unfold clean. intros Hc. destruct cs as [cb v h n]. unfold Cleanup, set_vout. cbn [vout] in *. f_equal.
  destruct v as [|o v _] using rev_ind; [done|]. rewrite last_snoc in Hc. rewrite reverse_snoc. cbn [pop_nulls].
  by rewrite Hc, reverse_cons, reverse_involutive.
Qed.

Lemma IsPruned_Cleanup cs : IsPruned (Cleanup cs) = IsPruned cs.
Proof.
  destruct (Cleanup_vout cs) as (n & E & Hn). unfold IsPruned at 2. by rewrite E, forallb_app, Hn, andb_true_r.
Qed.

Lemma clean_pruned cs : clean cs -> IsPruned cs = bool_decide (vout cs = []).
Proof.
  unfold clean, IsPruned. intros Hc. destruct (vout cs) as [|o v _] using rev_ind; [done|].
  rewrite last_snoc in Hc. rewrite forallb_app. cbn [forallb]. rewrite Hc, andb_false_r.
  symmetry. apply bool_decide_eq_false. by destruct v.
Qed.

Lemma norm_None cs : norm cs = None <-> IsPruned cs = true.
Proof. unfold norm. by destruct (IsPruned cs). Qed.
Lemma norm_Some cs cs' : norm cs = Some cs' <-> cs' = cs /\ IsPruned cs = false.
Proof. unfold norm. destruct (IsPruned cs); naive_solver. Qed.

(** ** Flags *)

Lemma has_flag_lor f g h : has_flag (Z.lor f g) h = has_flag f h || has_flag g h.
Proof.
  unfold has_flag. rewrite Z.land_lor_distr_l. apply eq_true_iff_eq.
  rewrite orb_true_iff, !negb_true_iff, !Z.eqb_neq, Z.lor_eq_0_iff. lia.
Qed.
Lemma has_flag_dirty_lor f : has_flag (Z.lor f DIRTY) DIRTY = true.
Proof. rewrite has_flag_lor. apply orb_true_r. Qed.
Lemma has_flag_fresh_lor f : has_flag (Z.lor f DIRTY) FRESH = has_flag f FRESH.
Proof. rewrite has_flag_lor. apply orb_false_r. Qed.

(** ** Batch loops

    Every key is visited once, so the loop acts slot by slot. *)

Section batch_loop_facts.
Context {E P : Type} (body : E -> option P -> option (option P)).

Lemma batch_fold_spec kvs : forall parent : gmap (list Z) P,
  NoDup (fst <$> kvs) ->
  (forall k e, (k, e) ∈ kvs -> is_Some (body e (parent !! k))) ->
  exists m, fold_left (batch_step body) kvs (Some parent) = Some m /\
    (forall k, (forall e, (k, e) ∉ kvs) -> m !! k = parent !! k) /\
    (forall k e, (k, e) ∈ kvs -> body e (parent !! k) = Some (m !! k)).
Proof.
  induction kvs as [|[k e] kvs IH]; intros parent Hnd Hb; cbn [fold_left].
  { exists parent. split; [done|]. split; [done|]. by intros ?? ?%not_elem_of_nil. }
  cbn in Hnd. apply NoDup_cons in Hnd as [Hk Hnd].
  destruct (Hb k e) as [slot Hslot]; [left|].
  unfold batch_step at 2. monad. cbn [fst snd]. rewrite Hslot. monad.
  assert (forall j e', (j, e') ∈ kvs -> j <> k) as Hne.
  { intros j e' Hin ->. apply Hk. apply list_elem_of_fmap. by exists (k, e'). }
  destruct (IH (partial_alter (fun _ => slot) k parent) Hnd) as (m & Hm & Hout & Hin).
  { intros j e' Hj. rewrite lookup_partial_alter_ne by (intros ->; by eapply Hne). apply Hb. by right. }
  exists m. split; [done|]. split.
  - intros j Hj. rewrite Hout by (intros e' Hin'; apply (Hj e'); by right).
    apply lookup_partial_alter_ne. intros ->. apply (Hj e). left.
  - intros j e' [[= -> ->]|Hj]%elem_of_cons.
    + rewrite Hout by (intros e'' Hin'; by eapply Hne). by rewrite lookup_partial_alter_eq.
    + pose proof (Hin _ _ Hj) as Hin'.
      rewrite lookup_partial_alter_ne in Hin' by (intros ->; by eapply Hne). done.
Qed.

Lemma batch_loop_spec (child : gmap (list Z) E) (parent : gmap (list Z) P) :
  (forall k e, child !! k = Some e -> is_Some (body e (parent !! k))) ->
  exists m, batch_loop body child parent = Some m /\
    forall k, match child !! k with
              | Some e => body e (parent !! k) = Some (m !! k)
              | None => m !! k = parent !! k
              end.
Proof.
  intros Hb. destruct (batch_fold_spec (map_to_list child) parent) as (m & Hm & Hout & Hin).
  { apply NoDup_fst_map_to_list. }
  { intros k e Hke%elem_of_map_to_list. by apply Hb. }
  exists m. split; [done|]. intros k. destruct (child !! k) as [e|] eqn:Ek.
  - by apply Hin, elem_of_map_to_list.
  - apply Hout. intros e Hke%elem_of_map_to_list. congruence.
Qed.
End batch_loop_facts.


(** ** The abstract state *)

Record utxo := {
  u_coins : list Z -> option CCoins;
  u_null : ShieldedType -> list Z -> bool;
  u_anchor : ShieldedType -> list Z -> bool;
  u_block : list Z;
  u_best : ShieldedType -> list Z
}.

#[export] Instance utxo_equiv : Equiv utxo := fun a b =>
  (forall k, u_coins a k = u_coins b k) /\ (forall ty k, u_null a ty k = u_null b ty k) /\
  (forall ty k, u_anchor a ty k = u_anchor b ty k) /\ u_block a = u_block b /\
  (forall ty, u_best a ty = u_best b ty).

#[export] Instance utxo_equivalence : Equivalence (≡@{utxo}).
Proof.
  split.
  - intros a. by repeat split.
  - intros a b (H1 & H2 & H3 & H4 & H5). by repeat split.
  - intros a b c (H1 & H2 & H3 & H4 & H5) (J1 & J2 & J3 & J4 & J5).
    repeat split; intros; etrans; eauto.
Qed.

Definition upd_coins (txid : list Z) (r : option CCoins) (u : utxo) : utxo := {|
  u_coins := fun k => if decide (k = txid) then r else u_coins u k;
  u_null := u_null u; u_anchor := u_anchor u; u_block := u_block u; u_best := u_best u |}.
Definition upd_null (ty : ShieldedType) (nf : list Z) (b : bool) (u : utxo) : utxo := {|
  u_coins := u_coins u;
  u_null := fun ty' k => if decide (ty' = ty /\ k = nf) then b else u_null u ty' k;
  u_anchor := u_anchor u; u_block := u_block u; u_best := u_best u |}.
Definition upd_anchor (ty : ShieldedType) (rt : list Z) (b : bool) (best : list Z) (u : utxo) : utxo := {|
  u_coins := u_coins u; u_null := u_null u;
  u_anchor := fun ty' k => if decide (ty' = ty /\ k = rt) then b else u_anchor u ty' k;
  u_block := u_block u;
  u_best := fun ty' => if decide (ty' = ty) then best else u_best u ty' |}.
Definition upd_block (h : list Z) (u : utxo) : utxo := {|
  u_coins := u_coins u; u_null := u_null u; u_anchor := u_anchor u; u_block := h; u_best := u_best u |}.

(** A new tree state becomes the best anchor; the current one is withdrawn. *)
Definition push_anchor (ty : ShieldedType) (rt : list Z) (u : utxo) : utxo :=
  if bool_decide (u_best u ty = rt) then u else upd_anchor ty rt true rt u.
Definition pop_anchor (ty : ShieldedType) (rt : list Z) (u : utxo) : utxo :=
  if bool_decide (u_best u ty = rt) then u else upd_anchor ty (u_best u ty) false rt u.

Definition tx_nullifiers (tx : CTransaction) : list (ShieldedType * list Z) :=
  map (pair SPROUT) (concat (map nullifiers (vJoinSplit tx))) ++
  map (pair SAPLING) (map sd_nullifier (vShieldedSpend tx)).
Definition set_nulls (nfs : list (ShieldedType * list Z)) (b : bool) (u : utxo) : utxo :=
  fold_left (fun u x => upd_null (fst x) (snd x) b u) nfs u.

(** Split an equivalence of abstract states into its components. *)
Ltac utxo_split := repeat split; cbn [u_coins u_null u_anchor u_block u_best upd_coins upd_null upd_anchor upd_block].

#[export] Instance upd_coins_proper k r : Proper ((≡) ==> (≡)) (upd_coins k r).
Proof. intros a b (H1 & H2 & H3 & H4 & H5). utxo_split; intros; try case_decide; auto. Qed.
#[export] Instance upd_null_proper ty k r : Proper ((≡) ==> (≡)) (upd_null ty k r).
Proof. intros a b (H1 & H2 & H3 & H4 & H5). utxo_split; intros; try case_decide; auto. Qed.
#[export] Instance upd_anchor_proper ty k r h : Proper ((≡) ==> (≡)) (upd_anchor ty k r h).
Proof. intros a b (H1 & H2 & H3 & H4 & H5). utxo_split; intros; try case_decide; auto. Qed.
#[export] Instance upd_block_proper h : Proper ((≡) ==> (≡)) (upd_block h).
Proof. intros a b (H1 & H2 & H3 & H4 & H5). utxo_split; intros; auto. Qed.
#[export] Instance push_anchor_proper ty k : Proper ((≡) ==> (≡)) (push_anchor ty k).
Proof.
  intros a b E. unfold push_anchor. pose proof E as (_ & _ & _ & _ & ->). case_bool_decide; by rewrite E.
Qed.
#[export] Instance pop_anchor_proper ty k : Proper ((≡) ==> (≡)) (pop_anchor ty k).
Proof.
  intros a b E. unfold pop_anchor. pose proof E as (_ & _ & _ & _ & ->). case_bool_decide; by rewrite E.
Qed.
#[export] Instance set_nulls_proper nfs b : Proper ((≡) ==> (≡)) (set_nulls nfs b).
Proof.
  unfold set_nulls. induction nfs as [|x nfs IH]; intros u u' E; [done|]. cbn [fold_left]. apply IH. by rewrite E.
Qed.

Lemma upd_coins_same k r u : u_coins u k = r -> upd_coins k r u ≡ u.
Proof. intros <-. utxo_split; intros; try done. by case_decide; subst. Qed.
Lemma upd_null_same ty k r u : u_null u ty k = r -> upd_null ty k r u ≡ u.
Proof. intros <-. utxo_split; intros; try done. by case_decide; [destruct_and!; subst|]. Qed.
Lemma upd_anchor_same ty k r u : u_anchor u ty k = r -> upd_anchor ty k r (u_best u ty) u ≡ u.
Proof. intros <-. utxo_split; intros; try done; case_decide; destruct_and?; by subst. Qed.

(** ** The contract of the interface *)

Class ViewModel (V : Type) := {
  view : V -> utxo;
  view_wf : V -> Prop;
  pulled : V -> list Z -> Prop   (** the view itself holds a record for the txid *)
}.

Section contract.
Context {V : Type} `{CCoinsView V} `{ViewModel V}.

(** What a read may do to the state. *)
Definition reads (v v' : V) : Prop :=
  view_wf v' /\ view v' ≡ view v /\ forall k, pulled v k -> pulled v' k.

Definition batch_anchors (bt : batch) (ty : ShieldedType) : CAnchorsMap :=
  match ty with SPROUT => mapSproutAnchors bt | SAPLING => mapSaplingAnchors bt end.
Definition batch_nullifiers (bt : batch) (ty : ShieldedType) : CNullifiersMap :=
  match ty with SPROUT => mapSproutNullifiers bt | SAPLING => mapSaplingNullifiers bt end.
Definition batch_best (bt : batch) (ty : ShieldedType) : list Z :=
  match ty with SPROUT => b_hashSproutAnchor bt | SAPLING => b_hashSaplingAnchor bt end.

(** What a view may assume of the batch it is given. *)
Definition batch_ok (th : tree_hash) (v : V) (bt : batch) : Prop :=
  (forall k e, mapCoins bt !! k = Some e -> has_flag (flags e) DIRTY = true ->
     clean (coins e) /\ (if has_flag (flags e) FRESH then u_coins (view v) k = None else pulled v k)) /\
  (forall ty k e, batch_anchors bt ty !! k = Some e -> has_flag (a_flags e) DIRTY = true ->
     tree_root th ty (a_tree e) = k /\ (k = empty_root th ty -> a_entered e = true)) /\
  blob_IsNull (b_hashBlock bt) = false /\ (forall ty, blob_IsNull (batch_best bt ty) = false).

Definition apply_batch (bt : batch) (u : utxo) : utxo := {|
  u_coins := fun k => match mapCoins bt !! k with
    | Some e => if has_flag (flags e) DIRTY then norm (coins e) else u_coins u k
    | None => u_coins u k end;
  u_null := fun ty k => match batch_nullifiers bt ty !! k with
    | Some e => if has_flag (n_flags e) DIRTY then n_entered e else u_null u ty k
    | None => u_null u ty k end;
  u_anchor := fun ty k => match batch_anchors bt ty !! k with
    | Some e => if has_flag (a_flags e) DIRTY then a_entered e else u_anchor u ty k
    | None => u_anchor u ty k end;
  u_block := b_hashBlock bt;
  u_best := batch_best bt |}.

Class CCoinsViewOk (th : tree_hash) := {
  GetCoins_ok v k r v' : view_wf v -> GetCoins k v = (r, v') ->
    reads v v' /\ (r ≫= norm) = u_coins (view v) k /\
    forall cs, r = Some cs -> clean cs /\ (IsPruned cs = false -> pulled v' k);
  HaveCoins_ok v k r v' : view_wf v -> HaveCoins k v = (r, v') ->
    reads v v' /\ r = bool_decide (is_Some (u_coins (view v) k));
  GetNullifier_ok v ty k r v' : view_wf v -> GetNullifier k ty v = (r, v') ->
    reads v v' /\ r = u_null (view v) ty k;
  GetAnchorAt_ok v ty k r v' : view_wf v -> GetAnchorAt ty k v = (r, v') ->
    reads v v' /\ bool_decide (is_Some r) = u_anchor (view v) ty k /\
    forall t, r = Some t -> tree_root th ty t = k;
  empty_anchor_ok v ty : view_wf v -> u_anchor (view v) ty (empty_root th ty) = true;
  GetBestBlock_ok v r v' : view_wf v -> GetBestBlock v = (r, v') -> reads v v' /\ r = u_block (view v);
  GetBestAnchor_ok v ty r v' : view_wf v -> GetBestAnchor ty v = (r, v') -> reads v v' /\ r = u_best (view v) ty;
  BatchWrite_ok v bt : view_wf v -> batch_ok th v bt ->
    exists v', BatchWrite bt v = Some v' /\ view_wf v' /\ view v' ≡ apply_batch bt (view v)
}.
End contract.


(** ** The database satisfies the contract *)

Section db_facts.
Context (th : tree_hash) `{TreeHashOk th}.

#[local] Existing Instance CCoinsViewDB_view | 0.

#[export] Instance db_model : ViewModel CCoinsViewDB := {
  view d := {|
    u_coins := fun k => db_coins d !! k;
    u_null := fun ty k => bool_decide (is_Some (db_nullifiers d ty !! k));
    u_anchor := fun ty k => bool_decide (k = empty_root th ty \/ is_Some (db_anchors d ty !! k));
    u_block := default null256 (db_best_block d);
    u_best := fun ty => default (empty_root th ty) (db_best_anchor d ty) |};
  view_wf d :=
    map_Forall (fun _ cs => clean cs /\ IsPruned cs = false) (db_coins d) /\
    forall ty, map_Forall (fun k t => tree_root th ty t = k) (db_anchors d ty);
  pulled d k := True
}.

Lemma tree_depth_range ty : (1 <= tree_depth ty < 64)%nat.
Proof. destruct ty; cbv [tree_depth INCREMENTAL_MERKLE_TREE_DEPTH SAPLING_INCREMENTAL_MERKLE_TREE_DEPTH]; lia. Qed.

Lemma root_empty_tree ty : tree_root th ty NoteTree.empty_tree = empty_root th ty.
Proof.
  unfold tree_root, empty_root, NoteTree.root.
  pose proof (tree_depth_range ty) as Hd.
  rewrite (NoteTree.root_spec _ _ (tree_depth ty) (EmptyRoot_step ty) Hd _ [] (tree_depth ty)).
  - apply NoteTree.node_nil. apply EmptyRoot_step.
  - apply NoteTree.rep_empty.
  - lia.
  - apply Nat.le_0_l.
Qed.

Lemma db_reads (d : CCoinsViewDB) : view_wf d -> reads d d.
Proof. intros Hd. split; [done|]. by split. Qed.

Lemma with_keys_lookup {E} (m : gmap (list Z) E) k : with_keys m !! k = pair k <$> m !! k.
Proof. unfold with_keys. rewrite map_lookup_imap. by destruct (m !! k). Qed.

Lemma db_coins_loop d bt : view_wf d -> batch_ok th d bt ->
  exists m, batch_loop db_write_coins (mapCoins bt) (db_coins d) = Some m /\
    map_Forall (fun _ cs => clean cs /\ IsPruned cs = false) m /\
    forall k, m !! k = u_coins (apply_batch bt (view d)) k.
Proof.
  intros [Hd _] [Hb _]. destruct (batch_loop_spec db_write_coins (mapCoins bt) (db_coins d)) as (m & Hm & Hk).
  { intros k e _. unfold db_write_coins. repeat case_match; eauto. }
  exists m. split; [done|]. unfold db_write_coins in Hk. split.
  - intros k cs Ecs. specialize (Hk k). specialize (Hb k). destruct (mapCoins bt !! k) as [e|].
    + rewrite Ecs in Hk. destruct (has_flag (flags e) DIRTY) eqn:Hf; cbn [negb] in Hk; [|injection Hk as Hk; by apply (Hd k)].
      destruct (IsPruned (coins e)) eqn:Hp; [done|]. injection Hk as <-. split; [by apply (Hb e)|done].
    + rewrite Ecs in Hk. by apply (Hd k).
  - intros k. specialize (Hk k). cbn. unfold norm. repeat case_match; simplify_eq/=; congruence.
Qed.

Lemma db_anchors_loop d bt ty : view_wf d -> batch_ok th d bt ->
  exists m, batch_loop (db_BatchWriteAnchors th ty) (with_keys (batch_anchors bt ty)) (db_anchors d ty) = Some m /\
    map_Forall (fun k t => tree_root th ty t = k) m /\
    forall k, bool_decide (k = empty_root th ty \/ is_Some (m !! k)) = u_anchor (apply_batch bt (view d)) ty k.
Proof.
  intros [_ Hd] (_ & Hb & _). specialize (Hd ty). specialize (Hb ty).
  destruct (batch_loop_spec (db_BatchWriteAnchors th ty) (with_keys (batch_anchors bt ty)) (db_anchors d ty))
    as (m & Hm & Hk).
  { intros k e _. unfold db_BatchWriteAnchors. repeat case_match; eauto. }
  exists m. split; [done|]. unfold db_BatchWriteAnchors in Hk.
  assert (forall k, match batch_anchors bt ty !! k with
    | Some e => if has_flag (a_flags e) DIRTY then
                  if a_entered e then
                    m !! k = if bool_decide (k = empty_root th ty) then db_anchors d ty !! k else Some (a_tree e)
                  else m !! k = None
                else m !! k = db_anchors d ty !! k
    | None => m !! k = db_anchors d ty !! k end) as Hs.
  { intros k. specialize (Hk k). rewrite with_keys_lookup in Hk.
    destruct (batch_anchors bt ty !! k) as [e|]; [|done]. cbn in Hk.
    destruct (has_flag (a_flags e) DIRTY), (a_entered e); cbn in Hk; try congruence.
    repeat case_bool_decide; congruence. }
  clear Hk. split.
  - intros k t Et. specialize (Hs k). specialize (Hb k). rewrite Et in Hs.
    destruct (batch_anchors bt ty !! k) as [e|]; [|by apply Hd].
    destruct (has_flag (a_flags e) DIRTY) eqn:Hf, (a_entered e); try (by apply Hd).
    case_bool_decide; [by apply Hd|]. injection Hs as ->. by apply (Hb e).
  - intros k. specialize (Hs k). specialize (Hb k). cbn.
    destruct (batch_anchors bt ty !! k) as [e|]; [|by rewrite Hs].
    destruct (has_flag (a_flags e) DIRTY) eqn:Hf; [|by destruct (a_entered e); rewrite Hs].
    destruct (Hb e eq_refl Hf) as [_ He].
    destruct (a_entered e); rewrite Hs.
    + apply bool_decide_eq_true. case_bool_decide; [by left|right; eauto].
    + apply bool_decide_eq_false. intros [Hek|[? [=]]]. by specialize (He Hek).
Qed.

Lemma db_nullifiers_loop d bt ty :
  exists m, batch_loop db_BatchWriteNullifiers (batch_nullifiers bt ty) (db_nullifiers d ty) = Some m /\
    forall k, bool_decide (is_Some (m !! k)) = u_null (apply_batch bt (view d)) ty k.
Proof.
  destruct (batch_loop_spec db_BatchWriteNullifiers (batch_nullifiers bt ty) (db_nullifiers d ty)) as (m & Hm & Hk).
  { intros k e _. unfold db_BatchWriteNullifiers. repeat case_match; eauto. }
  exists m. split; [done|]. intros k. specialize (Hk k). cbn. unfold db_BatchWriteNullifiers in Hk.
  destruct (batch_nullifiers bt ty !! k) as [e|]; [|by rewrite Hk].
  destruct (has_flag (n_flags e) DIRTY); cbn [negb] in Hk; [|injection Hk as Hk; by rewrite Hk].
  by destruct (n_entered e); injection Hk as <-.
Qed.

Lemma db_BatchWrite_ok d bt : view_wf d -> batch_ok th d bt ->
  exists d', db_BatchWrite th bt d = Some d' /\ view_wf d' /\ view d' ≡ apply_batch bt (view d).
Proof.
  intros Hd Hb. destruct (db_coins_loop d bt Hd Hb) as (m & Hm & Hwf & Hv).
  destruct (db_anchors_loop d bt SPROUT Hd Hb) as (a1 & Ha1 & Hwf1 & Hv1).
  destruct (db_anchors_loop d bt SAPLING Hd Hb) as (a2 & Ha2 & Hwf2 & Hv2).
  destruct (db_nullifiers_loop d bt SPROUT) as (n1 & Hn1 & Hw1).
  destruct (db_nullifiers_loop d bt SAPLING) as (n2 & Hn2 & Hw2).
  destruct Hb as (_ & _ & Hblk & Hbest). cbn [batch_anchors batch_nullifiers] in *.
  pose proof (Hbest SPROUT) as B1. pose proof (Hbest SAPLING) as B2. cbn [batch_best] in B1, B2.
  unfold db_BatchWrite, write_hash. rewrite Hm, Hblk, B1, B2. monad. rewrite Ha1. monad. rewrite Ha2. monad.
  rewrite Hn1. monad. rewrite Hn2. monad.
  eexists. split; [done|]. split; [split; [done|by intros []]|].
  split; [|split; [|split; [|split]]]; cbn [view db_model u_coins u_null u_anchor u_block u_best
    db_coins db_anchors db_nullifiers db_best_block db_best_anchor].
  - done.
  - intros [] k; [apply Hw1|apply Hw2].
  - intros [] k; [apply Hv1|apply Hv2].
  - done.
  - by intros [].
Qed.

#[export] Instance CCoinsViewDB_ok : CCoinsViewOk (V := CCoinsViewDB) (H := CCoinsViewDB_view th) th.
Proof.
  split.
  - intros d k r d' Hd [= <- <-]. split; [by apply db_reads|].
    destruct Hd as [Hc _]. split.
    + cbn. destruct (db_coins d !! k) as [cs|] eqn:E; [|done]. cbn. apply Hc in E as [_ E].
      by apply norm_Some.
    + intros cs E. apply Hc in E as [E _]. done.
  - intros d k r d' Hd [= <- <-]. split; [by apply db_reads|done].
  - intros d ty k r d' Hd [= <- <-]. split; [by apply db_reads|done].
  - intros d ty k r d' Hd [= <- <-]. split; [by apply db_reads|]. split.
    + cbn. apply bool_decide_ext. case_bool_decide; naive_solver.
    + case_bool_decide as E; [intros t [= <-]; by rewrite E, root_empty_tree|].
      intros t Ht. destruct Hd as [_ Ha]. by apply (Ha ty) in Ht.
  - intros d ty _. cbn. apply bool_decide_eq_true. by left.
  - intros d r d' Hd [= <- <-]. split; [by apply db_reads|done].
  - intros d ty r d' Hd [= <- <-]. split; [by apply db_reads|done].
  - apply db_BatchWrite_ok.
Qed.
End db_facts.


(** ** A cache over a view that satisfies the contract *)

Section cache_facts.
Context {B : Type} `{CCoinsView B} `{!ViewModel B} (th : tree_hash) `{!CCoinsViewOk (V := B) th}.

Implicit Types (c : CCoinsViewCache B) (b : B).

(** What each kind of cache entry says about the base. *)
Definition coin_entry_ok b (k : list Z) (e : CCoinsCacheEntry) : Prop :=
  clean (coins e) /\
  (if has_flag (flags e) FRESH then u_coins (view b) k = None else pulled b k) /\
  (has_flag (flags e) DIRTY = false -> norm (coins e) = u_coins (view b) k).
Definition anchor_entry_ok b (ty : ShieldedType) (k : list Z) (e : CAnchorsCacheEntry) : Prop :=
  tree_root th ty (a_tree e) = k /\
  (k = empty_root th ty -> a_entered e = true) /\
  (has_flag (a_flags e) DIRTY = false -> a_entered e = u_anchor (view b) ty k).
Definition null_entry_ok b (ty : ShieldedType) (k : list Z) (e : CNullifiersCacheEntry) : Prop :=
  has_flag (n_flags e) DIRTY = false -> n_entered e = u_null (view b) ty k.

#[export] Instance cache_model : ViewModel (CCoinsViewCache B) := {
  view c := {|
    u_coins := fun k => match cacheCoins c !! k with Some e => norm (coins e) | None => u_coins (view (base c)) k end;
    u_null := fun ty k => match cacheNullifiers ty c !! k with
      | Some e => n_entered e | None => u_null (view (base c)) ty k end;
    u_anchor := fun ty k => match cacheAnchors ty c !! k with
      | Some e => a_entered e | None => u_anchor (view (base c)) ty k end;
    u_block := if blob_IsNull (hashBlock c) then u_block (view (base c)) else hashBlock c;
    u_best := fun ty => if blob_IsNull (hashAnchor ty c) then u_best (view (base c)) ty else hashAnchor ty c |};
  view_wf c :=
    view_wf (base c) /\ hasModifier c = false /\
    map_Forall (coin_entry_ok (base c)) (cacheCoins c) /\
    (forall ty, map_Forall (anchor_entry_ok (base c) ty) (cacheAnchors ty c)) /\
    (forall ty, map_Forall (null_entry_ok (base c) ty) (cacheNullifiers ty c));
  pulled c k := is_Some (cacheCoins c !! k)
}.

(** The cache is well formed, its base shows [u0] and it shows [u]. *)
Definition tracks c (u0 u : utxo) : Prop := view_wf c /\ view (base c) ≡ u0 /\ view c ≡ u.

(** *** Reads of the base *)

Lemma coin_entry_reads b b' k e : reads b b' -> coin_entry_ok b k e -> coin_entry_ok b' k e.
Proof.
  intros (_ & (Ec & _) & Hp) (H1 & H2 & H3). split; [done|]. split.
  - destruct (has_flag _ FRESH); [by rewrite Ec|auto].
  - intros. rewrite Ec. auto.
Qed.
Lemma anchor_entry_reads b b' ty k e : reads b b' -> anchor_entry_ok b ty k e -> anchor_entry_ok b' ty k e.
Proof. intros (_ & (_ & _ & Ea & _) & _) (H1 & H2 & H3). split; [done|]. split; [done|]. intros. rewrite Ea. auto. Qed.
Lemma null_entry_reads b b' ty k e : reads b b' -> null_entry_ok b ty k e -> null_entry_ok b' ty k e.
Proof. intros (_ & (_ & En & _) & _) H1 Hd. rewrite En. by apply H1. Qed.

Lemma cacheAnchors_set ty ty' c m :
  cacheAnchors ty' (set_cacheAnchors ty c m) = if decide (ty' = ty) then m else cacheAnchors ty' c.
Proof. by destruct ty, ty'. Qed.
Lemma cacheNullifiers_set ty ty' c m :
  cacheNullifiers ty' (set_cacheNullifiers ty c m) = if decide (ty' = ty) then m else cacheNullifiers ty' c.
Proof. by destruct ty, ty'. Qed.
Lemma hashAnchor_set ty ty' c h :
  hashAnchor ty' (set_hashAnchor ty c h) = if decide (ty' = ty) then h else hashAnchor ty' c.
Proof. by destruct ty, ty'. Qed.

(** A read of the base alone is a read of the cache. *)
Lemma set_base_reads c b' : view_wf c -> reads (base c) b' -> reads c (set_base c b').
Proof.
  intros (Hb & Hm & Hc & Ha & Hn) Hr. pose proof Hr as (Hb' & (E1 & E2 & E3 & E4 & E5) & Hp). split; [|split].
  - split; [done|]. split; [done|]. split; [|split].
    + intros k e Ek. eapply coin_entry_reads; [done|]. by apply Hc.
    + intros ty k e Ek. eapply anchor_entry_reads; [done|]. by apply Ha; destruct ty.
    + intros ty k e Ek. eapply null_entry_reads; [done|]. by apply Hn; destruct ty.
  - utxo_split; cbn; intros.
    + by rewrite E1.
    + by destruct ty; cbn; rewrite E2.
    + by destruct ty; cbn; rewrite E3.
    + by rewrite E4.
    + by destruct ty; cbn; rewrite E5.
  - done.
Qed.

(** *** Writing one slot of the cache *)

Lemma put_coins c k e : view_wf c -> coin_entry_ok (base c) k e ->
  view_wf (set_cacheCoins c (<[k := e]> (cacheCoins c))) /\
  view (set_cacheCoins c (<[k := e]> (cacheCoins c))) ≡ upd_coins k (norm (coins e)) (view c).
Proof.
  intros (Hb & Hm & Hc & Ha & Hn) He. split.
  - split; [done|]. split; [done|]. split; [by apply map_Forall_insert_2|]. split; intros []; [apply (Ha SPROUT)|apply (Ha SAPLING)|apply (Hn SPROUT)|apply (Hn SAPLING)].
  - utxo_split; cbn; intros; try (by destruct ty). case_decide; subst.
    + by rewrite lookup_insert_eq.
    + by rewrite lookup_insert_ne.
Qed.

Lemma drop_coins c k : view_wf c -> u_coins (view (base c)) k = None ->
  view_wf (set_cacheCoins c (delete k (cacheCoins c))) /\
  view (set_cacheCoins c (delete k (cacheCoins c))) ≡ upd_coins k None (view c).
Proof.
  intros (Hb & Hm & Hc & Ha & Hn) He. split.
  - split; [done|]. split; [done|]. split; [by apply map_Forall_delete|]. split; intros []; [apply (Ha SPROUT)|apply (Ha SAPLING)|apply (Hn SPROUT)|apply (Hn SAPLING)].
  - utxo_split; cbn; intros; try (by destruct ty). case_decide; subst.
    + by rewrite lookup_delete_eq.
    + by rewrite lookup_delete_ne.
Qed.

Lemma put_anchor c ty k e : view_wf c -> anchor_entry_ok (base c) ty k e ->
  view_wf (set_cacheAnchors ty c (<[k := e]> (cacheAnchors ty c))) /\
  view (set_cacheAnchors ty c (<[k := e]> (cacheAnchors ty c))) ≡
    upd_anchor ty k (a_entered e) (u_best (view c) ty) (view c).
Proof.
  intros (Hb & Hm & Hc & Ha & Hn) He. split.
  - split; [by destruct ty|]. split; [by destruct ty|]. split; [by destruct ty|]. split.
    + intros ty'. rewrite cacheAnchors_set. case_decide; subst; [|by destruct ty]. by apply map_Forall_insert_2; destruct ty.
    + intros ty'. by destruct ty, ty'; [apply (Hn SPROUT)|apply (Hn SAPLING)|apply (Hn SPROUT)|apply (Hn SAPLING)].
  - utxo_split; cbn; intros; try (by destruct ty, ty0); try (by destruct ty).
    rewrite cacheAnchors_set. destruct (decide (ty0 = ty)) as [->|Hne].
    + rewrite lookup_insert. by repeat case_decide; naive_solver.
    + rewrite decide_False by naive_solver. by destruct ty.
Qed.

Lemma put_nullifier c ty k e : view_wf c -> null_entry_ok (base c) ty k e ->
  view_wf (set_cacheNullifiers ty c (<[k := e]> (cacheNullifiers ty c))) /\
  view (set_cacheNullifiers ty c (<[k := e]> (cacheNullifiers ty c))) ≡ upd_null ty k (n_entered e) (view c).
Proof.
  intros (Hb & Hm & Hc & Ha & Hn) He. split.
  - split; [by destruct ty|]. split; [by destruct ty|]. split; [by destruct ty|]. split.
    + intros ty'. by destruct ty, ty'; [apply (Ha SPROUT)|apply (Ha SAPLING)|apply (Ha SPROUT)|apply (Ha SAPLING)].
    + intros ty'. rewrite cacheNullifiers_set. case_decide; subst; [|by destruct ty]. by apply map_Forall_insert_2; destruct ty.
  - utxo_split; cbn; intros; try (by destruct ty, ty0); try (by destruct ty).
    rewrite cacheNullifiers_set. destruct (decide (ty0 = ty)) as [->|Hne].
    + rewrite lookup_insert. by repeat case_decide; naive_solver.
    + rewrite decide_False by naive_solver. by destruct ty.
Qed.

(** *** The cache's reads *)

Definition creads c c' : Prop := reads c c' /\ view (base c') ≡ view (base c).

Lemma tracks_reads c c' u0 u : tracks c u0 u -> creads c c' -> tracks c' u0 u.
Proof. intros (Hwf & E0 & E) [(Hwf' & E' & _) E0']. split; [done|]. by rewrite E0', E'. Qed.

Lemma creads_refl c : view_wf c -> creads c c.
Proof. intros Hc. split; [|done]. split; [done|]. by split. Qed.

Lemma creads_base c b' : view_wf c -> reads (base c) b' -> creads c (set_base c b').
Proof. intros Hc Hr. split; [by apply set_base_reads|]. by destruct Hr as (_ & E & _). Qed.

(** Filling a slot with what the base says is still a read. *)
Lemma creads_fill c b' c' :
  view_wf c -> reads (base c) b' -> view_wf c' -> base c' = b' ->
  view c' ≡ view (set_base c b') ->
  (forall k, is_Some (cacheCoins c !! k) -> is_Some (cacheCoins c' !! k)) -> creads c c'.
Proof.
  intros Hc Hr Hc' Hb E Hp. destruct (creads_base c b' Hc Hr) as [(_ & E' & _) E0].
  split; [|rewrite Hb; apply E0]. split; [done|]. split; [by rewrite E|done].
Qed.

Lemma FetchCoins_ok c k r c' : view_wf c -> FetchCoins k c = (r, c') ->
  creads c c' /\ (r ≫= norm ∘ coins) = u_coins (view c) k /\
  (forall e, r = Some e -> clean (coins e) /\ is_Some (cacheCoins c' !! k)).
Proof.
  intros Hc Hf. unfold FetchCoins in Hf. destruct (cacheCoins c !! k) as [e|] eqn:Ek.
  { injection Hf as <- <-. split; [by apply creads_refl|]. split; [cbn; by rewrite Ek|].
    intros e' [= <-]. split; [|by eexists]. destruct Hc as (_ & _ & Hc & _). by apply Hc in Ek as [? _]. }
  destruct (GetCoins k (base c)) as [o b'] eqn:Eg.
  destruct (GetCoins_ok _ _ _ _ (proj1 Hc) Eg) as (Hr & Ho & Hcl). cbn. rewrite Ek, <- Ho.
  destruct o as [tmp|]; injection Hf as <- <-; [|split; [by apply creads_base|done]].
  destruct (Hcl tmp eq_refl) as [Hclean Hpull]. cbn [mbind option_bind] in Ho |- *.
  pose proof Hr as (_ & (E1 & _) & _).
  assert (coin_entry_ok b' k {| coins := tmp; flags := if IsPruned tmp then FRESH else 0 |}) as He.
  { split; [done|]. cbn [flags coins]. split; [|by rewrite E1].
    destruct (IsPruned tmp) eqn:Hp; cbn; [|by apply Hpull]. rewrite E1, <- Ho. by apply norm_None. }
  destruct (put_coins (set_base c b') k _ (proj1 (set_base_reads c b' Hc Hr)) He) as [Hwf Hv]. split; [|split].
  - apply (creads_fill c b'); [done|done|exact Hwf|done| |].
    + etrans; [exact Hv|]. apply upd_coins_same. cbn. by rewrite Ek, E1.
    + intros j Hj. cbn. rewrite lookup_insert. by case_decide.
  - done.
  - intros e [= <-]. split; [done|]. cbn. rewrite lookup_insert_eq. by eexists.
Qed.

Lemma cache_GetCoins_ok c k r c' : view_wf c -> cache_GetCoins k c = (r, c') ->
  creads c c' /\ (r ≫= norm) = u_coins (view c) k /\
  (forall cs, r = Some cs -> clean cs /\ is_Some (cacheCoins c' !! k)).
Proof.
  unfold cache_GetCoins. intros Hc Hg. destruct (FetchCoins k c) as [o c1] eqn:Ef. injection Hg as <- <-.
  destruct (FetchCoins_ok _ _ _ _ Hc Ef) as (Hr & Ho & Hcl). split; [done|].
  split; [by destruct o|]. destruct o; [|done]. intros cs [= <-]. by apply Hcl.
Qed.

Lemma cache_HaveCoins_ok c k r c' : view_wf c -> cache_HaveCoins k c = (r, c') ->
  creads c c' /\ r = bool_decide (is_Some (u_coins (view c) k)).
Proof.
  unfold cache_HaveCoins. intros Hc Hg. destruct (FetchCoins k c) as [o c1] eqn:Ef. injection Hg as <- <-.
  destruct (FetchCoins_ok _ _ _ _ Hc Ef) as (Hr & Ho & Hcl). split; [done|]. rewrite <- Ho.
  destruct o as [e|]; [|done]. cbn. destruct (Hcl e eq_refl) as [He _].
  rewrite <- clean_pruned by done. unfold norm. by destruct (IsPruned (coins e)).
Qed.

Lemma cache_GetNullifier_ok c ty k r c' : view_wf c -> cache_GetNullifier k ty c = (r, c') ->
  creads c c' /\ r = u_null (view c) ty k.
Proof.
  unfold cache_GetNullifier. intros Hc Hg. destruct (cacheNullifiers ty c !! k) as [e|] eqn:Ek.
  { injection Hg as <- <-. split; [by apply creads_refl|]. cbn. by rewrite Ek. }
  destruct (GetNullifier k ty (base c)) as [o b'] eqn:Eg. injection Hg as <- <-.
  destruct (GetNullifier_ok _ _ _ _ _ (proj1 Hc) Eg) as (Hr & ->). pose proof Hr as (_ & (_ & E1 & _) & _).
  destruct (put_nullifier (set_base c b') ty k {| n_entered := u_null (view (base c)) ty k; n_flags := 0 |}
              (proj1 (set_base_reads c b' Hc Hr))) as [Hwf Hv]; [intros _; by rewrite E1|].
  replace (cacheNullifiers ty (set_base c b')) with (cacheNullifiers ty c) in Hwf, Hv by by destruct ty.
  split; [|cbn; by rewrite Ek]. apply (creads_fill c b'); [done|done|exact Hwf|by destruct ty| |by destruct ty].
  etrans; [exact Hv|]. apply upd_null_same. cbn.
  replace (cacheNullifiers ty (set_base c b')) with (cacheNullifiers ty c) by by destruct ty. by rewrite Ek, E1.
Qed.

Lemma cache_GetAnchorAt_ok c ty k r c' : view_wf c -> cache_GetAnchorAt ty k c = (r, c') ->
  creads c c' /\ bool_decide (is_Some r) = u_anchor (view c) ty k /\
  (forall t, r = Some t -> tree_root th ty t = k /\ is_Some (cacheAnchors ty c' !! k)).
Proof.
  unfold cache_GetAnchorAt. intros Hc Hg. destruct (cacheAnchors ty c !! k) as [e|] eqn:Ek.
  { injection Hg as <- <-. split; [by apply creads_refl|]. cbn. rewrite Ek. split; [by destruct (a_entered e)|].
    intros t Ht. destruct (a_entered e); [|done]. injection Ht as <-.
    destruct Hc as (_ & _ & _ & Ha & _). split; [by apply (Ha ty k e)|by eexists]. }
  destruct (GetAnchorAt ty k (base c)) as [o b'] eqn:Eg.
  destruct (GetAnchorAt_ok _ _ _ _ _ (proj1 Hc) Eg) as (Hr & Ho & Hroot). pose proof Hr as (_ & (_ & _ & E1 & _) & _).
  cbn. rewrite Ek, <- Ho. destruct o as [tree|]; injection Hg as <- <-; [|split; [by apply creads_base|done]].
  cbn in Ho. destruct (put_anchor (set_base c b') ty k {| a_entered := true; a_tree := tree; a_flags := 0 |}
              (proj1 (set_base_reads c b' Hc Hr))) as [Hwf Hv].
  { split; [by apply Hroot|]. split; [done|]. intros _. by rewrite E1, <- Ho. }
  replace (cacheAnchors ty (set_base c b')) with (cacheAnchors ty c) in Hwf, Hv by by destruct ty.
  split; [|split; [done|]].
  - apply (creads_fill c b'); [done|done|exact Hwf|by destruct ty| |by destruct ty].
    etrans; [exact Hv|]. apply upd_anchor_same. cbn.
    replace (cacheAnchors ty (set_base c b')) with (cacheAnchors ty c) by by destruct ty. by rewrite Ek, E1, <- Ho.
  - intros t [= <-]. split; [by apply Hroot|]. rewrite cacheAnchors_set, decide_True by done.
    rewrite lookup_insert_eq. by eexists.
Qed.


Lemma put_hashBlock c h : view_wf c ->
  view_wf (set_hashBlock c h) /\
  view (set_hashBlock c h) ≡ upd_block (if blob_IsNull h then u_block (view (base c)) else h) (view c).
Proof.
  intros (Hb & Hm & Hc & Ha & Hn). split; [|utxo_split; cbn; intros; by try destruct ty].
  split; [done|]. split; [done|]. split; [done|].
  split; intros []; [apply (Ha SPROUT)|apply (Ha SAPLING)|apply (Hn SPROUT)|apply (Hn SAPLING)].
Qed.

Lemma put_hashAnchor c ty h : view_wf c ->
  view_wf (set_hashAnchor ty c h) /\
  forall u, view c ≡ u ->
    view (set_hashAnchor ty c h) ≡
      {| u_coins := u_coins u; u_null := u_null u; u_anchor := u_anchor u; u_block := u_block u;
         u_best := fun ty' => if decide (ty' = ty) then if blob_IsNull h then u_best (view (base c)) ty else h
                              else u_best u ty' |}.
Proof.
  intros (Hb & Hm & Hc & Ha & Hn). split.
  - split; [by destruct ty|]. split; [by destruct ty|]. split; [by destruct ty|].
    split; intros ty'; [pose proof (Ha ty') as Hx|pose proof (Hn ty') as Hx]; by destruct ty, ty'.
  - intros u (E1 & E2 & E3 & E4 & E5). utxo_split; intros.
    + rewrite <- E1. by destruct ty.
    + rewrite <- E2. by destruct ty, ty0.
    + rewrite <- E3. by destruct ty, ty0.
    + rewrite <- E4. by destruct ty.
    + cbn [view cache_model u_best]. rewrite hashAnchor_set. case_decide; subst; [by destruct ty|].
      rewrite <- E5. by destruct ty, ty0.
Qed.

Lemma cache_GetBestBlock_ok c r c' : view_wf c -> cache_GetBestBlock c = (r, c') ->
  creads c c' /\ r = u_block (view c).
Proof.
  unfold cache_GetBestBlock. intros Hc Hg. cbn. destruct (blob_IsNull (hashBlock c)) eqn:En.
  2: { injection Hg as <- <-. split; [by apply creads_refl|done]. }
  destruct (GetBestBlock (base c)) as [o b'] eqn:Eg. injection Hg as <- <-.
  destruct (GetBestBlock_ok _ _ _ (proj1 Hc) Eg) as (Hr & ->). pose proof Hr as (_ & (_ & _ & _ & E1 & _) & _).
  destruct (put_hashBlock (set_base c b') (u_block (view (base c))) (proj1 (set_base_reads c b' Hc Hr))) as [Hwf Hv].
  split; [|done]. apply (creads_fill c b'); [done|done|exact Hwf|done| |done].
  etrans; [exact Hv|]. utxo_split; try done. cbn [base set_base view cache_model u_block hashBlock].
  rewrite En, E1. by case_match.
Qed.

Lemma cache_GetBestAnchor_ok c ty r c' : view_wf c -> cache_GetBestAnchor ty c = (r, c') ->
  creads c c' /\ r = u_best (view c) ty.
Proof.
  unfold cache_GetBestAnchor. intros Hc Hg. cbn. destruct (blob_IsNull (hashAnchor ty c)) eqn:En.
  2: { injection Hg as <- <-. split; [by apply creads_refl|done]. }
  destruct (GetBestAnchor ty (base c)) as [o b'] eqn:Eg. injection Hg as <- <-.
  destruct (GetBestAnchor_ok _ _ _ _ (proj1 Hc) Eg) as (Hr & ->). pose proof Hr as (_ & (_ & _ & _ & _ & E1) & _).
  destruct (put_hashAnchor (set_base c b') ty (u_best (view (base c)) ty) (proj1 (set_base_reads c b' Hc Hr)))
    as [Hwf Hv].
  split; [|done]. apply (creads_fill c b'); [done|done|exact Hwf|by destruct ty| |by destruct ty].
  etrans; [by apply Hv|]. utxo_split; try done. intros ty'. case_decide; subst; [|done].
  cbn [base set_base view cache_model u_best]. rewrite E1.
  replace (hashAnchor ty (set_base c b')) with (hashAnchor ty c) by by destruct ty. rewrite En. by case_match.
Qed.

(** *** The modifiers *)

Lemma set_hasModifier_cancel c m : hasModifier c = m -> set_hasModifier (set_hasModifier c true) m = c.
Proof. intros <-. by destruct c. Qed.



(** From the modifier's constructor to its destructor, whatever the entry was. *)
Lemma modifier_scope {A} c k (f : CCoins -> option (A * CCoins)) fl cs a cs' :
  view_wf c -> f cs = Some (a, cs') -> has_flag fl DIRTY = true ->
  (if has_flag fl FRESH then u_coins (view (base c)) k = None else pulled (base c) k) ->
  exists c3 c',
    modifier_run k f (set_hasModifier (set_cacheCoins c
      (<[k := {| coins := cs; flags := fl |}]> (cacheCoins c))) true) = Some (a, c3) /\
    modifier_destroy k c3 = Some c' /\
    view_wf c' /\ base c' = base c /\ view c' ≡ upd_coins k (norm (Cleanup cs')) (view c).
Proof.
  intros Hc Hf Hd Hfr. unfold modifier_run, modifier_destroy.
  cbn [cacheCoins set_hasModifier set_cacheCoins]. rewrite lookup_insert_eq. monad. cbn [coins flags]. rewrite Hf.
  monad. cbn [fst snd]. eexists _, _. split; [reflexivity|].
  cbn [cacheCoins hasModifier set_hasModifier set_cacheCoins negb]. rewrite insert_insert_eq, lookup_insert_eq.
  monad. cbn [coins flags]. split; [reflexivity|]. pose proof (proj1 (proj2 Hc)) as Hm.
  destruct (has_flag fl FRESH && IsPruned (Cleanup cs')) eqn:Hcase.
  - apply andb_true_iff in Hcase as [Hfl Hp]. rewrite Hfl in Hfr.
    unfold set_hasModifier, set_cacheCoins. cbn. rewrite delete_insert_eq.
    destruct (drop_coins c k Hc Hfr) as [Hwf Hv]. unfold set_cacheCoins in Hwf, Hv. rewrite Hm in Hwf, Hv.
    split; [done|]. split; [done|]. by rewrite (proj2 (norm_None _) Hp).
  - unfold set_hasModifier, set_cacheCoins. cbn. rewrite insert_insert_eq.
    destruct (put_coins c k {| coins := Cleanup cs'; flags := fl |} Hc) as [Hwf Hv].
    { split; [apply Cleanup_clean|]. split; [done|]. cbn [flags]. congruence. }
    unfold set_cacheCoins in Hwf, Hv. rewrite Hm in Hwf, Hv. by split.
Qed.

Lemma ModifyCoins_ok c k : view_wf c ->
  exists c1 cs fl, ModifyCoins k c = Some (set_hasModifier (set_cacheCoins c1
      (<[k := {| coins := cs; flags := fl |}]> (cacheCoins c1))) true) /\
    creads c c1 /\ clean cs /\ norm cs = u_coins (view c) k /\ has_flag fl DIRTY = true /\
    (if has_flag fl FRESH then u_coins (view (base c1)) k = None else pulled (base c1) k).
Proof.
  intros Hc. pose proof Hc as (Hb & Hm & He & _). unfold ModifyCoins. rewrite Hm.
  destruct (cacheCoins c !! k) as [e|] eqn:Ek.
  - apply He in Ek as He'. destruct He' as (Hcl & Hfr & _).
    exists c, (coins e), (Z.lor (flags e) DIRTY). split; [done|]. split; [by apply creads_refl|]. split; [done|].
    cbn. rewrite Ek, has_flag_dirty_lor, has_flag_fresh_lor. done.
  - destruct (GetCoins k (base c)) as [r b'] eqn:Eg. destruct (GetCoins_ok _ _ _ _ Hb Eg) as (Hr & Ho & Hcl).
    pose proof Hr as (_ & (E1 & _) & _).
    eexists (set_base c b'), _, _. split; [reflexivity|]. split; [by apply creads_base|].
    rewrite has_flag_dirty_lor, has_flag_fresh_lor. cbn. rewrite Ek.
    destruct r as [cs|]; cbn in Ho |- *.
    + destruct (Hcl cs eq_refl) as [Hclean Hpull]. split; [done|]. split; [done|]. split; [done|].
      destruct (IsPruned cs) eqn:Hp; cbn; [|by apply Hpull]. rewrite E1, <- Ho. by apply norm_None.
    + split; [done|]. split; [done|]. split; [done|]. by rewrite E1.
Qed.

Lemma with_coins_ok {A} c k (f : CCoins -> option (A * CCoins)) a o u0 u :
  tracks c u0 u ->
  (forall cs, clean cs -> norm cs = u_coins u k ->
     exists cs', f cs = Some (a, cs') /\ norm (Cleanup cs') = o) ->
  exists c', with_coins k f c = Some (a, c') /\ tracks c' u0 (upd_coins k o u).
Proof.
  intros (Hc & E0 & E) Hf. destruct (ModifyCoins_ok c k Hc) as (c1 & cs & fl & Hm & [(Hc1 & E1 & _) E01] & Hcl & Hn & Hd & Hfr).
  destruct (Hf cs Hcl) as (cs' & Hfcs & Ho); [rewrite Hn; apply E|].
  destruct (modifier_scope c1 k f fl cs a cs' Hc1 Hfcs Hd Hfr) as (c3 & c' & Hrun & Hdes & Hwf & Hb & Hv).
  exists c'. unfold with_coins. rewrite Hm. monad. rewrite Hrun. monad. cbn [fst snd]. rewrite Hdes. monad.
  split; [done|]. split; [done|]. split; [by rewrite Hb, E01|]. by rewrite Hv, Ho, E1, E.
Qed.

Lemma with_new_coins_ok c k f u0 u :
  tracks c u0 u -> u_coins u0 k = None ->
  exists c', with_new_coins k f c = Some c' /\ tracks c' u0 (upd_coins k (norm (Cleanup (f CCoins_empty))) u).
Proof.
  intros (Hc & E0 & E) Hnew. pose proof (proj1 (proj2 Hc)) as Hm.
  destruct (modifier_scope c k (fun cs => Some (tt, f cs)) (Z.lor FRESH DIRTY) CCoins_empty tt (f CCoins_empty) Hc)
    as (c3 & c' & Hrun & Hdes & Hwf & Hb & Hv); [done|done|cbn; rewrite <- Hnew; apply E0|].
  exists c'. unfold with_new_coins, ModifyNewCoins. rewrite Hm. monad. rewrite Hrun. monad. cbn [snd].
  split; [done|]. split; [done|]. split; [by rewrite Hb|]. by rewrite Hv, E.
Qed.

(** *** Anchors, nullifiers and the best block *)

Lemma PushAnchor_ok c ty t u0 u : tracks c u0 u -> blob_IsNull (tree_root th ty t) = false ->
  tracks (PushAnchor th ty t c) u0 (push_anchor ty (tree_root th ty t) u).
Proof.
  intros Ht Hnull. unfold PushAnchor. destruct (cache_GetBestAnchor ty c) as [cur c1] eqn:Eg.
  destruct (cache_GetBestAnchor_ok _ _ _ _ (proj1 Ht) Eg) as (Hr & ->). pose proof (tracks_reads _ _ _ _ Ht Hr) as Ht1.
  destruct Ht as (_ & _ & E). pose proof E as (_ & _ & _ & _ & ->). unfold push_anchor.
  case_bool_decide; [done|]. destruct Ht1 as (Hc1 & E0 & E1).
  destruct (put_anchor c1 ty (tree_root th ty t) {| a_entered := true; a_tree := t; a_flags := DIRTY |} Hc1)
    as [Hwf Hv]; [by split|].
  destruct (put_hashAnchor _ ty (tree_root th ty t) Hwf) as [Hwf' Hv'].
  split; [done|]. split; [by destruct ty|]. etrans; [by apply Hv'|]. rewrite Hnull.
  pose proof E1 as (F1 & F2 & F3 & F4 & F5).
  utxo_split; intros; try (case_decide; [done|]); try done; apply F2 || apply F3 || apply F5.
Qed.

Lemma PopAnchor_ok c ty rt u0 u : tracks c u0 u -> blob_IsNull rt = false ->
  (u_best u ty <> rt -> u_anchor u ty (u_best u ty) = true /\ u_best u ty <> empty_root th ty) ->
  exists c', PopAnchor rt ty c = Some c' /\ tracks c' u0 (pop_anchor ty rt u).
Proof.
  intros Ht Hnull Hbest. unfold PopAnchor. destruct (cache_GetBestAnchor ty c) as [cur c1] eqn:Eg.
  destruct (cache_GetBestAnchor_ok _ _ _ _ (proj1 Ht) Eg) as (Hr & ->). pose proof (tracks_reads _ _ _ _ Ht Hr) as Ht1.
  destruct Ht as (_ & _ & E). pose proof E as (_ & _ & _ & _ & ->). unfold pop_anchor.
  case_bool_decide as Hne; [by eexists|]. destruct (Hbest Hne) as [Hent Hnemp].
  destruct (cache_GetAnchorAt ty (u_best u ty) c1) as [r c2] eqn:Ea.
  destruct (cache_GetAnchorAt_ok _ _ _ _ _ (proj1 Ht1) Ea) as (Hr2 & Hs & Hin).
  destruct Ht1 as (Hc1 & E0 & E1). pose proof E1 as (_ & _ & Fa & _). rewrite Fa, Hent in Hs.
  apply bool_decide_eq_true in Hs as [t ->]. destruct (Hin t eq_refl) as [_ [e He]]. rewrite He. monad.
  eexists. split; [done|].
  destruct (tracks_reads _ _ _ _ (conj Hc1 (conj E0 E1)) Hr2) as (Hc2 & E02 & E2).
  destruct (put_anchor c2 ty (u_best u ty) {| a_entered := false; a_tree := a_tree e; a_flags := DIRTY |} Hc2)
    as [Hwf Hv].
  { split; [|by split]. destruct Hc2 as (_ & _ & _ & Ha & _). by apply (Ha ty) in He as [? _]. }
  destruct (put_hashAnchor _ ty rt Hwf) as [Hwf' Hv'].
  split; [done|]. split; [by destruct ty|]. etrans; [by apply Hv'|]. rewrite Hnull.
  pose proof E2 as (F1 & F2 & F3 & F4 & F5).
  utxo_split; intros; try (case_decide; [done|]); try done; apply F2 || apply F3 || apply F5.
Qed.

Lemma set_nullifier_ok c ty (b : bool) nf u0 u : tracks c u0 u -> tracks (set_nullifier ty b c nf) u0 (upd_null ty nf b u).
Proof.
  intros (Hc & E0 & E). unfold set_nullifier.
  match goal with |- tracks (set_cacheNullifiers ty c (<[nf := ?e]> _)) _ _ =>
    destruct (put_nullifier c ty nf e Hc) as [Hwf Hv] end.
  { intros Hd. cbn [n_flags] in Hd. by rewrite has_flag_dirty_lor in Hd. }
  split; [done|]. split; [by destruct ty|]. by rewrite Hv, E.
Qed.

Lemma set_nullifier_fold ty (b : bool) nfs : forall c u0 u, tracks c u0 u ->
  tracks (fold_left (set_nullifier ty b) nfs c) u0 (set_nulls (map (pair ty) nfs) b u).
Proof.
  unfold set_nulls. induction nfs as [|nf nfs IH]; intros c u0 u Ht; [done|]. cbn [fold_left map fst snd].
  by apply IH, set_nullifier_ok.
Qed.

Lemma SetNullifiers_ok c tx (b : bool) u0 u : tracks c u0 u ->
  tracks (SetNullifiers tx b c) u0 (set_nulls (tx_nullifiers tx) b u).
Proof.
  intros Ht. unfold SetNullifiers, tx_nullifiers. unfold set_nulls. rewrite fold_left_app.
  by apply set_nullifier_fold, set_nullifier_fold.
Qed.

Lemma SetBestBlock_ok c h u0 u : tracks c u0 u -> blob_IsNull h = false ->
  tracks (SetBestBlock h c) u0 (upd_block h u).
Proof.
  intros (Hc & E0 & E) Hnull. destruct (put_hashBlock c h Hc) as [Hwf Hv]. split; [done|]. split; [done|].
  unfold SetBestBlock. by rewrite Hv, Hnull, E.
Qed.


(** *** Batches written into the cache, and out of it *)

Lemma cache_coins_loop c bt : view_wf c -> batch_ok th c bt ->
  exists m, batch_loop batch_coins (mapCoins bt) (cacheCoins c) = Some m /\
    map_Forall (coin_entry_ok (base c)) m /\
    forall k, match m !! k with Some e => norm (coins e) | None => u_coins (view (base c)) k end =
              u_coins (apply_batch bt (view c)) k.
Proof.
  intros (_ & _ & Hc & _) [Hb _].
  assert (forall k e, mapCoins bt !! k = Some e ->
    exists slot, batch_coins e (cacheCoins c !! k) = Some slot /\
      (forall e', slot = Some e' -> coin_entry_ok (base c) k e') /\
      match slot with Some e' => norm (coins e') | None => u_coins (view (base c)) k end =
      if has_flag (flags e) DIRTY then norm (coins e) else u_coins (view c) k) as Hstep.
  { intros k e Ek. specialize (Hb k e Ek). unfold batch_coins. cbn in Hb |- *.
    destruct (has_flag (flags e) DIRTY) eqn:Hd; cbn [negb].
    2: { eexists. split; [done|]. split; [|done]. intros e' Ee'. by apply Hc. }
    destruct (Hb eq_refl) as [Hcl Hfr]. destruct (cacheCoins c !! k) as [e0|] eqn:E0.
    - destruct (Hc _ _ E0) as (Hcl0 & Hfr0 & Hd0).
      destruct (has_flag (flags e0) FRESH && IsPruned (coins e)) eqn:Hcase.
      + apply andb_true_iff in Hcase as [Hf0 Hp]. rewrite Hf0 in Hfr0. exists None. split; [done|]. split; [done|].
        by rewrite Hfr0, (proj2 (norm_None _) Hp).
      + eexists. split; [done|]. split; [|done]. intros e' [= <-]. split; [done|].
        cbn [flags coins]. rewrite has_flag_fresh_lor, has_flag_dirty_lor. done.
    - destruct (has_flag (flags e) FRESH); [|by destruct Hfr].
      destruct (IsPruned (coins e)) eqn:Hp; cbn [negb]; eexists; (split; [done|]); (split; [|]).
      + done.
      + by rewrite Hfr, (proj2 (norm_None _) Hp).
      + intros e' [= <-]. split; [done|]. split; [exact Hfr|done].
      + done. }
  destruct (batch_loop_spec batch_coins (mapCoins bt) (cacheCoins c)) as (m & Hm & Hk).
  { intros k e Ek. destruct (Hstep k e Ek) as (slot & -> & _). by eexists. }
  exists m. split; [done|]. split.
  - intros k e' Ee'. specialize (Hk k). destruct (mapCoins bt !! k) as [e|] eqn:Ek.
    + destruct (Hstep k e Ek) as (slot & Es & Hok & _). apply Hok. congruence.
    + apply Hc. congruence.
  - intros k. specialize (Hk k). unfold apply_batch. cbn [u_coins]. destruct (mapCoins bt !! k) as [e|] eqn:Ek.
    + destruct (Hstep k e Ek) as (slot & Es & _ & Hv). rewrite <- Hv. rewrite Es in Hk. by injection Hk as <-.
    + by rewrite Hk.
Qed.

Lemma cache_anchors_loop c bt ty : view_wf c -> batch_ok th c bt ->
  exists m, batch_loop BatchWriteAnchors (batch_anchors bt ty) (cacheAnchors ty c) = Some m /\
    map_Forall (anchor_entry_ok (base c) ty) m /\
    forall k, match m !! k with Some e => a_entered e | None => u_anchor (view (base c)) ty k end =
              u_anchor (apply_batch bt (view c)) ty k.
Proof.
  intros (_ & _ & _ & Hc & _) (_ & Hb & _). specialize (Hb ty). specialize (Hc ty).
  destruct (batch_loop_spec BatchWriteAnchors (batch_anchors bt ty) (cacheAnchors ty c)) as (m & Hm & Hk).
  { intros k e _. unfold BatchWriteAnchors. repeat case_match; eauto. }
  exists m. split; [done|]. unfold BatchWriteAnchors in Hk. split.
  - intros k e' Ee'. specialize (Hk k). rewrite Ee' in Hk. destruct (batch_anchors bt ty !! k) as [e|] eqn:Ek; [|by apply Hc].
    specialize (Hb k e Ek). destruct (has_flag (a_flags e) DIRTY) eqn:Hd; cbn [negb] in Hk; [|injection Hk as Hk; by apply Hc].
    destruct (Hb eq_refl) as [Hroot Hemp]. destruct (cacheAnchors ty c !! k) as [e0|] eqn:E0.
    + destruct (Hc _ _ E0) as (Hr0 & He0 & _). case_bool_decide; injection Hk as <-; [|by apply Hc].
      split; [done|]. split; [done|]. cbn [a_flags]. by rewrite has_flag_dirty_lor.
    + injection Hk as <-. by split.
  - intros k. specialize (Hk k). cbn. destruct (batch_anchors bt ty !! k) as [e|]; [|by rewrite Hk].
    destruct (has_flag (a_flags e) DIRTY); cbn [negb] in Hk; [|injection Hk as Hk; by rewrite Hk].
    destruct (cacheAnchors ty c !! k) as [e0|]; [case_bool_decide as Hx|]; injection Hk as <-; try done.
Qed.

Lemma cache_nullifiers_loop c bt ty : view_wf c ->
  exists m, batch_loop BatchWriteNullifiers (batch_nullifiers bt ty) (cacheNullifiers ty c) = Some m /\
    map_Forall (null_entry_ok (base c) ty) m /\
    forall k, match m !! k with Some e => n_entered e | None => u_null (view (base c)) ty k end =
              u_null (apply_batch bt (view c)) ty k.
Proof.
  intros (_ & _ & _ & _ & Hc). specialize (Hc ty).
  destruct (batch_loop_spec BatchWriteNullifiers (batch_nullifiers bt ty) (cacheNullifiers ty c)) as (m & Hm & Hk).
  { intros k e _. unfold BatchWriteNullifiers. repeat case_match; eauto. }
  exists m. split; [done|]. unfold BatchWriteNullifiers in Hk. split.
  - intros k e' Ee'. specialize (Hk k). rewrite Ee' in Hk. destruct (batch_nullifiers bt ty !! k) as [e|]; [|by apply Hc].
    destruct (has_flag (n_flags e) DIRTY) eqn:Hd; cbn [negb] in Hk; [|injection Hk as Hk; by apply Hc].
    destruct (cacheNullifiers ty c !! k) as [e0|] eqn:E0; [case_bool_decide|]; injection Hk as <-; try (by apply Hc).
    + intros Hd'. cbn [n_flags] in Hd'. by rewrite has_flag_dirty_lor in Hd'.
    + by intros Hd'.
  - intros k. specialize (Hk k). cbn. destruct (batch_nullifiers bt ty !! k) as [e|]; [|by rewrite Hk].
    destruct (has_flag (n_flags e) DIRTY); cbn [negb] in Hk; [|injection Hk as Hk; by rewrite Hk].
    destruct (cacheNullifiers ty c !! k) as [e0|]; [case_bool_decide as Hx|]; injection Hk as <-; try done.
Qed.

Lemma cache_BatchWrite_ok c bt : view_wf c -> batch_ok th c bt ->
  exists c', cache_BatchWrite bt c = Some c' /\ view_wf c' /\ view c' ≡ apply_batch bt (view c).
Proof.
  intros Hc Hb. destruct (cache_coins_loop c bt Hc Hb) as (m & Hm & Hwf & Hv).
  destruct (cache_anchors_loop c bt SPROUT Hc Hb) as (a1 & Ha1 & Hwf1 & Hv1).
  destruct (cache_anchors_loop c bt SAPLING Hc Hb) as (a2 & Ha2 & Hwf2 & Hv2).
  destruct (cache_nullifiers_loop c bt SPROUT Hc) as (n1 & Hn1 & Hwn1 & Hw1).
  destruct (cache_nullifiers_loop c bt SAPLING Hc) as (n2 & Hn2 & Hwn2 & Hw2).
  destruct Hb as (_ & _ & Hblk & Hbest). cbn [batch_anchors batch_nullifiers cacheAnchors cacheNullifiers] in *.
  pose proof Hc as (Hbase & Hmod & _). unfold cache_BatchWrite. rewrite Hmod, Hm. monad. rewrite Ha1. monad.
  rewrite Ha2. monad. rewrite Hn1. monad. rewrite Hn2. monad.
  eexists. split; [done|]. split.
  - split; [done|]. split; [done|]. split; [done|]. by split; intros [].
  - split; [|split; [|split; [|split]]]; cbn [view cache_model u_coins u_null u_anchor u_block u_best cacheCoins hashBlock].
    + done.
    + intros [] k; [apply Hw1|apply Hw2].
    + intros [] k; [apply Hv1|apply Hv2].
    + by rewrite Hblk.
    + intros ty. pose proof (Hbest ty) as Hn. by destruct ty; cbn in Hn |- *; rewrite Hn.
Qed.

#[export] Instance CCoinsViewCache_ok : CCoinsViewOk (V := CCoinsViewCache B) th.
Proof.
  split.
  - intros c k r c' Hc Hg. destruct (cache_GetCoins_ok c k r c' Hc Hg) as ([Hr _] & Ho & Hcl).
    split; [done|]. split; [done|]. intros cs Hcs. split; [by apply Hcl|]. intros _. by apply (Hcl cs).
  - intros c k r c' Hc Hg. by destruct (cache_HaveCoins_ok c k r c' Hc Hg) as ([Hr _] & Ho).
  - intros c ty k r c' Hc Hg. by destruct (cache_GetNullifier_ok c ty k r c' Hc Hg) as ([Hr _] & Ho).
  - intros c ty k r c' Hc Hg. destruct (cache_GetAnchorAt_ok c ty k r c' Hc Hg) as ([Hr _] & Ho & Hroot).
    split; [done|]. split; [done|]. intros t Ht. by apply Hroot.
  - intros c ty (Hb & _ & _ & Ha & _). cbn. destruct (cacheAnchors ty c !! _) as [e|] eqn:E.
    + apply (Ha ty) in E as (_ & E & _). by apply E.
    + by apply (empty_anchor_ok (th := th)).
  - intros c r c' Hc Hg. by destruct (cache_GetBestBlock_ok c r c' Hc Hg) as ([Hr _] & Ho).
  - intros c ty r c' Hc Hg. by destruct (cache_GetBestAnchor_ok c ty r c' Hc Hg) as ([Hr _] & Ho).
  - apply cache_BatchWrite_ok.
Qed.

Lemma new_cache_ok b : view_wf b -> tracks (new_cache b) (view b) (view b).
Proof.
  intros Hb. split; [|split; [done|]].
  - split; [done|]. split; [done|]. split; [apply map_Forall_empty|]. split; intros []; apply map_Forall_empty.
  - utxo_split; cbn; intros; by try destruct ty.
Qed.

Definition hashes_loaded c : Prop :=
  blob_IsNull (hashBlock c) = false /\ forall ty, blob_IsNull (hashAnchor ty c) = false.

Lemma Flush_ok c u0 u : tracks c u0 u -> hashes_loaded c ->
  exists c', Flush c = Some c' /\ tracks c' u u.
Proof.
  intros (Hc & E0 & E) [Hblk Hbest]. pose proof Hc as (Hb & Hm & Hcs & Has & Hns). unfold Flush.
  match goal with |- context [BatchWrite ?x _] => set (bt := x) end.
  destruct (BatchWrite_ok (base c) bt Hb) as (b' & -> & Hwf & Hv).
  { split; [|split; [|split; [done|]]].
    - intros k e Ek Hd. by apply Hcs in Ek as (? & ? & _).
    - intros ty k e Ek _. destruct (Has ty k e) as (? & ? & _); [by destruct ty|done].
    - intros ty. rewrite <- (Hbest ty). by destruct ty. }
  monad. eexists. split; [done|].
  assert (apply_batch bt (view (base c)) ≡ view c) as Hbt.
  { split; [|split; [|split; [|split]]]; cbn [view cache_model u_coins u_null u_anchor u_block u_best apply_batch bt mapCoins b_hashBlock].
    - intros k. destruct (cacheCoins c !! k) as [e|] eqn:Ek; [|done]. apply Hcs in Ek as (_ & _ & Hd).
      destruct (has_flag (flags e) DIRTY); [done|]. symmetry. by apply Hd.
    - intros ty k. replace (batch_nullifiers bt ty) with (cacheNullifiers ty c) by by destruct ty.
      destruct (cacheNullifiers ty c !! k) as [e|] eqn:Ek; [|done]. apply Hns in Ek as Hd.
      unfold null_entry_ok in Hd. destruct (has_flag (n_flags e) DIRTY); [done|]. symmetry. by apply Hd.
    - intros ty k. replace (batch_anchors bt ty) with (cacheAnchors ty c) by by destruct ty.
      destruct (cacheAnchors ty c !! k) as [e|] eqn:Ek; [|done]. apply Has in Ek as (_ & _ & Hd).
      destruct (has_flag (a_flags e) DIRTY); [done|]. symmetry. by apply Hd.
    - by rewrite Hblk.
    - intros ty. rewrite Hbest. by destruct ty. }
  assert (view b' ≡ u) as Eb by (by rewrite Hv, Hbt, E).
  split; [|split; [done|]].
  - split; [done|]. split; [done|]. split; [apply map_Forall_empty|]. split; intros []; apply map_Forall_empty.
  - pose proof E as (_ & _ & _ & F4 & F5). cbn [view cache_model u_block u_best] in F4, F5.
    rewrite <- Eb. pose proof Eb as (_ & _ & _ & G4 & G5).
    utxo_split; cbn; intros; try (by destruct ty).
    + rewrite Hblk in F4. change (forallb _ (hashBlock c)) with (blob_IsNull (hashBlock c)). rewrite Hblk. congruence.
    + specialize (F5 ty). specialize (G5 ty). specialize (Hbest ty). rewrite Hbest in F5.
      destruct ty; cbn [hashAnchor hashSproutAnchor hashSaplingAnchor] in Hbest, F5 |- *; rewrite Hbest; congruence.
Qed.

End cache_facts.


(** ** Sequences of operations *)

Inductive cache_op :=
| OpGetCoins (txid : list Z)
| OpHaveCoins (txid : list Z)
| OpGetNullifier (ty : ShieldedType) (nf : list Z)
| OpGetAnchorAt (ty : ShieldedType) (rt : list Z)
| OpGetBestBlock
| OpGetBestAnchor (ty : ShieldedType)
| OpModifyCoins (txid : list Z) (f : CCoins -> CCoins)
| OpModifyNewCoins (txid : list Z) (f : CCoins -> CCoins)
| OpPushAnchor (ty : ShieldedType) (t : Tree)
| OpPopAnchor (ty : ShieldedType) (rt : list Z)
| OpSetNullifiers (tx : CTransaction) (spent : bool)
| OpSetBestBlock (h : list Z).

Inductive answer := ACoins (r : option CCoins) | ABool (b : bool) | AHash (h : list Z) | ADone.

Definition run_op {B} `{CCoinsView B} (th : tree_hash) (op : cache_op) (c : CCoinsViewCache B)
  : option (answer * CCoinsViewCache B) :=
  match op with
  | OpGetCoins k => let '(r, c') := cache_GetCoins k c in Some (ACoins (r ≫= norm), c')
  | OpHaveCoins k => let '(r, c') := cache_HaveCoins k c in Some (ABool r, c')
  | OpGetNullifier ty k => let '(r, c') := cache_GetNullifier k ty c in Some (ABool r, c')
  | OpGetAnchorAt ty k => let '(r, c') := cache_GetAnchorAt ty k c in Some (ABool (bool_decide (is_Some r)), c')
  | OpGetBestBlock => let '(r, c') := cache_GetBestBlock c in Some (AHash r, c')
  | OpGetBestAnchor ty => let '(r, c') := cache_GetBestAnchor ty c in Some (AHash r, c')
  | OpModifyCoins k f => r ← with_coins k (fun cs => Some (tt, f cs)) c; Some (ADone, snd r)
  | OpModifyNewCoins k f => c' ← with_new_coins k f c; Some (ADone, c')
  | OpPushAnchor ty t => Some (ADone, PushAnchor th ty t c)
  | OpPopAnchor ty k => c' ← PopAnchor k ty c; Some (ADone, c')
  | OpSetNullifiers tx b => Some (ADone, SetNullifiers tx b c)
  | OpSetBestBlock h => Some (ADone, SetBestBlock h c)
  end.

Fixpoint run_ops {B} `{CCoinsView B} (th : tree_hash) (ops : list cache_op) (c : CCoinsViewCache B)
  : option (list answer * CCoinsViewCache B) :=
  match ops with
  | [] => Some ([], c)
  | op :: ops' => r ← run_op th op c; rs ← run_ops th ops' (snd r); Some (fst r :: fst rs, snd rs)
  end.

Definition spec_op (th : tree_hash) (op : cache_op) (u : utxo) : answer * utxo :=
  match op with
  | OpGetCoins k => (ACoins (u_coins u k), u)
  | OpHaveCoins k => (ABool (bool_decide (is_Some (u_coins u k))), u)
  | OpGetNullifier ty k => (ABool (u_null u ty k), u)
  | OpGetAnchorAt ty k => (ABool (u_anchor u ty k), u)
  | OpGetBestBlock => (AHash (u_block u), u)
  | OpGetBestAnchor ty => (AHash (u_best u ty), u)
  | OpModifyCoins k f => (ADone, upd_coins k (norm (Cleanup (f (default CCoins_empty (u_coins u k))))) u)
  | OpModifyNewCoins k f => (ADone, upd_coins k (norm (Cleanup (f CCoins_empty))) u)
  | OpPushAnchor ty t => (ADone, push_anchor ty (tree_root th ty t) u)
  | OpPopAnchor ty k => (ADone, pop_anchor ty k u)
  | OpSetNullifiers tx b => (ADone, set_nulls (tx_nullifiers tx) b u)
  | OpSetBestBlock h => (ADone, upd_block h u)
  end.

Fixpoint spec_ops (th : tree_hash) (ops : list cache_op) (u : utxo) : list answer * utxo :=
  match ops with
  | [] => ([], u)
  | op :: ops' =>
      let '(a, u') := spec_op th op u in
      let '(rs, u'') := spec_ops th ops' u' in (a :: rs, u'')
  end.

(** When the code may call an operation, the base showing [u0]:
    a modification does not look at what is left of pruned coins; new coins are
    new to the base ([ModifyNewCoins] marks the entry as fresh without looking);
    hashes are not null; the anchor that is withdrawn is one the chain added. *)
Definition op_ok (th : tree_hash) (u0 u : utxo) (op : cache_op) : Prop :=
  match op with
  | OpModifyCoins k f =>
      u_coins u k = None ->
      forall cs, clean cs -> IsPruned cs = true -> norm (Cleanup (f cs)) = norm (Cleanup (f CCoins_empty))
  | OpModifyNewCoins k _ => u_coins u0 k = None
  | OpPushAnchor ty t => blob_IsNull (tree_root th ty t) = false
  | OpPopAnchor ty rt =>
      blob_IsNull rt = false /\
      (u_best u ty <> rt -> u_anchor u ty (u_best u ty) = true /\ u_best u ty <> empty_root th ty)
  | OpSetBestBlock h => blob_IsNull h = false
  | _ => True
  end.

Fixpoint ops_ok (th : tree_hash) (u0 u : utxo) (ops : list cache_op) : Prop :=
  match ops with
  | [] => True
  | op :: ops' => op_ok th u0 u op /\ ops_ok th u0 (snd (spec_op th op u)) ops'
  end.

Section ops_facts.
Context {B : Type} `{CCoinsView B} `{!ViewModel B} (th : tree_hash) `{!CCoinsViewOk (V := B) th}.

Lemma run_op_read {A} (c : CCoinsViewCache B) (f : A -> answer) (m : A * CCoinsViewCache B) a u0 u :
  tracks th c u0 u -> (forall r c', m = (r, c') -> creads th c c' /\ f r = a) ->
  exists c', (let '(r, c') := m in Some (f r, c')) = Some (a, c') /\ tracks th c' u0 u.
Proof.
  intros Ht Hm. destruct m as [r c']. destruct (Hm r c' eq_refl) as [Hr <-]. exists c'.
  split; [done|]. by eapply tracks_reads.
Qed.

Lemma run_op_ok (c : CCoinsViewCache B) op u0 u : tracks th c u0 u -> op_ok th u0 u op ->
  exists c', run_op th op c = Some (fst (spec_op th op u), c') /\ tracks th c' u0 (snd (spec_op th op u)).
Proof.
  intros Ht Hok. pose proof Ht as (Hc & E0 & (E1 & E2 & E3 & E4 & E5)).
  destruct op as [k|k|ty k|ty k| |ty|k f|k f|ty t|ty k|tx b|h]; cbn [run_op spec_op fst snd op_ok] in *.
  - apply (run_op_read c (fun r => ACoins (r ≫= norm))); [done|]. intros r c' Hg.
    destruct (cache_GetCoins_ok th c k r c' Hc Hg) as (Hr & -> & _). by rewrite E1.
  - apply (run_op_read c ABool); [done|]. intros r c' Hg.
    destruct (cache_HaveCoins_ok th c k r c' Hc Hg) as (Hr & ->). by rewrite E1.
  - apply (run_op_read c ABool); [done|]. intros r c' Hg.
    destruct (cache_GetNullifier_ok th c ty k r c' Hc Hg) as (Hr & ->). by rewrite E2.
  - apply (run_op_read c (fun r => ABool (bool_decide (is_Some r)))); [done|]. intros r c' Hg.
    destruct (cache_GetAnchorAt_ok th c ty k r c' Hc Hg) as (Hr & -> & _). by rewrite E3.
  - apply (run_op_read c AHash); [done|]. intros r c' Hg.
    destruct (cache_GetBestBlock_ok th c r c' Hc Hg) as (Hr & ->). by rewrite E4.
  - apply (run_op_read c AHash); [done|]. intros r c' Hg.
    destruct (cache_GetBestAnchor_ok th c ty r c' Hc Hg) as (Hr & ->). by rewrite E5.
  - destruct (with_coins_ok th c k (fun cs => Some (tt, f cs)) tt
      (norm (Cleanup (f (default CCoins_empty (u_coins u k))))) u0 u Ht) as (c' & -> & Ht').
    { intros cs Hcl Hn. eexists. split; [done|]. destruct (u_coins u k) as [cs0|].
      - by apply norm_Some in Hn as [-> _].
      - apply Hok; [done|done|]. by apply norm_None. }
    by exists c'.
  - destruct (with_new_coins_ok th c k f u0 u Ht Hok) as (c' & -> & Ht'). by exists c'.
  - eexists. split; [done|]. by apply PushAnchor_ok.
  - destruct Hok as [Hn Hb]. destruct (PopAnchor_ok th c ty k u0 u Ht Hn Hb) as (c' & -> & Ht'). by exists c'.
  - eexists. split; [done|]. by apply SetNullifiers_ok.
  - eexists. split; [done|]. by apply SetBestBlock_ok.
Qed.

Lemma run_ops_ok ops : forall (c : CCoinsViewCache B) u0 u, tracks th c u0 u -> ops_ok th u0 u ops ->
  exists c', run_ops th ops c = Some (fst (spec_ops th ops u), c') /\ tracks th c' u0 (snd (spec_ops th ops u)).
Proof.
  induction ops as [|op ops IH]; intros c u0 u Ht Hok; cbn [run_ops spec_ops]; [by exists c|].
  destruct Hok as [Hop Hops]. destruct (run_op_ok c op u0 u Ht Hop) as (c1 & -> & Ht1). monad. cbn [fst snd].
  destruct (spec_op th op u) as [a u1]. cbn [fst snd] in *.
  destruct (IH c1 u0 u1 Ht1 Hops) as (c2 & -> & Ht2). monad. cbn [fst snd].
  destruct (spec_ops th ops u1) as [rs u2]. by exists c2.
Qed.
End ops_facts.

(** C3: the coins cache refines the abstract set of unspent outputs.  Over any
    view that satisfies the contract of the interface (the database, or again a
    cache), every sequence of reads and modifications the code may make runs
    without a failed assertion, gives exactly the answers of the abstract set,
    leaves what the base shows unchanged, and once the three best hashes are
    loaded [Flush] makes the base show the final abstract state. *)
Theorem coins_cache_refines {B : Type} `{CCoinsView B} `{!ViewModel B} (th : tree_hash)
    `{!CCoinsViewOk (V := B) th} (b : B) (ops : list cache_op)
    (Hb : view_wf b) (Hops : ops_ok th (view b) (view b) ops) :
  exists c, run_ops th ops (new_cache b) = Some (fst (spec_ops th ops (view b)), c) /\
    view (base c) ≡ view b /\
    (hashes_loaded c -> exists c', Flush c = Some c' /\
       view_wf (base c') /\ view (base c') ≡ snd (spec_ops th ops (view b))).
Proof.
  destruct (run_ops_ok th ops (new_cache b) (view b) (view b)) as (c & Hrun & Ht);
    [by apply new_cache_ok|done|].
  exists c. split; [done|]. split; [apply Ht|]. intros Hh.
  destruct (Flush_ok th c _ _ Ht Hh) as (c' & Hf & ((Hwf & _) & Hv & _)). by exists c'.
Qed.

(** A concrete instance: a cache over a cache over the empty database. *)
Definition sample_hash : tree_hash := {|
  hash_combine := fun _ a b _ => if bool_decide (a = b) then a else replicate 32 7;
  hash_EmptyRoot := fun _ _ => replicate 32 1
|}.
#[export] Instance sample_hash_ok : TreeHashOk sample_hash.
Proof. by split; intros; [|vm_compute]. Qed.

Definition sample_db : CCoinsViewDB := {|
  db_coins := ∅; db_anchors := fun _ => ∅; db_nullifiers := fun _ => ∅;
  db_best_block := None; db_best_anchor := fun _ => None |}.
Definition sample_coins (cs : CCoins) : CCoins :=
  {| fCoinBase := false; vout := [{| nValue := 5; scriptPubKey := [] |}]; nHeight := 7; nVersion := 1 |}.
Definition sample_tree : Tree := {| NoteTree.left := Some (replicate 32 9); NoteTree.right := None; NoteTree.parents := [] |}.
Definition sample_ops : list cache_op :=
  [OpHaveCoins [3]; OpModifyNewCoins [3] sample_coins; OpHaveCoins [3]; OpPushAnchor SPROUT sample_tree;
   OpGetAnchorAt SPROUT (replicate 32 7); OpModifyCoins [3] (fun cs => snd (Spend cs 0)); OpHaveCoins [3];
   OpPopAnchor SPROUT (replicate 32 1); OpGetBestAnchor SAPLING; OpSetBestBlock (replicate 32 4)].

#[local] Instance sample_view : CCoinsView CCoinsViewDB := CCoinsViewDB_view sample_hash.
#[local] Instance sample_model : ViewModel CCoinsViewDB := db_model sample_hash.
#[local] Instance sample_ok : CCoinsViewOk (V := CCoinsViewDB) sample_hash := CCoinsViewDB_ok sample_hash.
#[local] Instance sample_cache_model : ViewModel (CCoinsViewCache CCoinsViewDB) := cache_model sample_hash.

Lemma sample_db_wf : view_wf sample_db.
Proof. split; [apply map_Forall_empty|intros ty; apply map_Forall_empty]. Qed.

Lemma coins_cache_refines_witness :
  exists c, run_ops sample_hash sample_ops (new_cache (new_cache sample_db)) =
      Some ([ABool false; ADone; ABool true; ADone; ABool true; ADone; ABool false; ADone;
             AHash (replicate 32 1); ADone], c) /\
    exists c', Flush c = Some c' /\ u_block (view (base c')) = replicate 32 4.
Proof.
  destruct (coins_cache_refines sample_hash (new_cache sample_db) sample_ops) as (c & Hrun & _ & Hf).
  - apply (new_cache_ok sample_hash), sample_db_wf.
  - repeat split; try (intros; vm_compute; congruence).
  - exists c. split; [rewrite Hrun; by vm_compute|].
    destruct Hf as (c' & Hc' & _ & (_ & _ & _ & Hblk & _)).
    { vm_compute in Hrun. injection Hrun as <-. split; [by vm_compute|by intros []; vm_compute]. }
    exists c'. split; [done|]. rewrite Hblk. by vm_compute.
Defined.

End CoinsFacts.
