(* ===== verification/TxCheck.v ===== *)
(** * Transaction checks (src/main.cpp, src/consensus/validation.h)

    The context-free and the height-dependent checks of a transaction.  A check
    takes the validation state it reports into and returns [true] or [false]
    with the new state; [None] is an exception or a failed assertion.  Proofs
    and signatures of the shielded protocol (zk-SNARK verification, libsodium,
    librustzcash with its verification context) are parameters. *)

From stdpp Require Import base list list_numbers numbers option strings.
From Stdlib Require Import ZArith Lia.
From S2P Require Import Prelude Bytes Params Serialize Amount Transaction Script Interpreter SigHash.
Import Serialize Transaction Amount Consensus.
#[local] Open Scope Z_scope.

Module TxCheck.

(** ** class CValidationState *)

Definition REJECT_MALFORMED : Z := 0x01.
Definition REJECT_INVALID : Z := 0x10.
Definition REJECT_OBSOLETE : Z := 0x11.
Definition REJECT_DUPLICATE : Z := 0x12.
Definition REJECT_NONSTANDARD : Z := 0x40.

Inductive mode_state := MODE_VALID | MODE_INVALID | MODE_ERROR.
#[global] Instance mode_state_eq_dec : EqDecision mode_state.
Proof. solve_decision. Defined.

Record CValidationState := {
  mode : mode_state; nDoS : Z; strRejectReason : string; chRejectCode : Z; corruptionPossible : bool
}.

Definition CValidationState_init : CValidationState :=
  {| mode := MODE_VALID; nDoS := 0; strRejectReason := ""; chRejectCode := 0; corruptionPossible := false |}.

(** The state after [DoS]; its result is the caller's [ret]. *)
Definition DoS (st : CValidationState) (level : Z) (code : Z) (reason : string) (corruptionIn : bool)
  : CValidationState :=
  match mode st with
  | MODE_ERROR => {| mode := MODE_ERROR; nDoS := nDoS st; strRejectReason := reason; chRejectCode := code;
                     corruptionPossible := corruptionIn |}
  | _ => {| mode := MODE_INVALID; nDoS := s32 (nDoS st + level); strRejectReason := reason;
            chRejectCode := code; corruptionPossible := corruptionIn |}
  end.
Definition Invalid (st : CValidationState) (code : Z) (reason : string) : CValidationState := DoS st 0 code reason false.
Definition Error (st : CValidationState) (reason : string) : CValidationState :=
  {| mode := MODE_ERROR; nDoS := nDoS st;
     strRejectReason := match mode st with MODE_VALID => reason | _ => strRejectReason st end;
     chRejectCode := chRejectCode st; corruptionPossible := corruptionPossible st |}.
Definition IsValid (st : CValidationState) : bool := bool_decide (mode st = MODE_VALID).
Definition IsInvalid (st : CValidationState) : bool := bool_decide (mode st = MODE_INVALID).
Definition IsError (st : CValidationState) : bool := bool_decide (mode st = MODE_ERROR).

Definition checker : Type := CValidationState -> option (bool * CValidationState).

(** [return true], [return state.DoS(level, error(...), code, reason)], and
    [if (!a) return false; b]. *)
Definition pass : checker := fun st => Some (true, st).
Definition reject (level code : Z) (reason : string) : checker := fun st => Some (false, DoS st level code reason false).
Definition invalid (level : Z) (reason : string) : checker := reject level REJECT_INVALID reason.
Definition and_then (a b : checker) : checker := fun st =>
  match a st with
  | Some (true, st') => b st'
  | r => r
  end.
Definition throws : checker := fun _ => None.

(** ** Constants (src/consensus/consensus.h, src/main.h) *)

Definition SPROUT_MIN_TX_VERSION : Z := 1.
Definition OVERWINTER_MIN_TX_VERSION : Z := 3.
Definition OVERWINTER_MAX_TX_VERSION : Z := 3.
Definition SAPLING_MIN_TX_VERSION : Z := 4.
Definition SAPLING_MAX_TX_VERSION : Z := 4.
Definition MAX_BLOCK_SIGOPS : Z := 20000.
Definition MAX_TX_SIZE_BEFORE_SAPLING : Z := 100000.
Definition MAX_TX_SIZE_AFTER_SAPLING : Z := 2000000.
Definition TX_EXPIRY_HEIGHT_THRESHOLD : Z := 500000000.
Definition TX_EXPIRING_SOON_THRESHOLD : Z := 3.
Definition LOCKTIME_MEDIAN_TIME_PAST : Z := Z.shiftl 1 1.

(** ** Lock time and expiry *)

Definition IsFinalTx (tx : CTransaction) (nBlockHeight nBlockTime : Z) : bool :=
  if nLockTime tx =? 0 then true
  else if nLockTime tx <? (if nLockTime tx <? Script.LOCKTIME_THRESHOLD then nBlockHeight else nBlockTime) then true
  else forallb CTxIn_IsFinal (vin tx).

Definition IsExpiredTx (tx : CTransaction) (nBlockHeight : Z) : bool :=
  if (nExpiryHeight tx =? 0) || IsCoinBase tx then false
  else u32 nBlockHeight >? nExpiryHeight tx.

(** [nNextBlockHeight + TX_EXPIRING_SOON_THRESHOLD] is unsigned, the parameter it
    is passed for is [int]. *)
Definition IsExpiringSoonTx (tx : CTransaction) (nNextBlockHeight : Z) : bool :=
  IsExpiredTx tx (s32 (u32 (nNextBlockHeight + TX_EXPIRING_SOON_THRESHOLD))).

(** [chainActive.Height()], [chainActive.Tip()->GetMedianTimePast()] and
    [GetAdjustedTime()] are arguments. *)
Definition CheckFinalTx (tx : CTransaction) (flags height median_time adjusted_time : Z) : bool :=
  let flags := Z.max flags 0 in
  let nBlockHeight := height + 1 in
  let nBlockTime := if negb (Z.land flags LOCKTIME_MEDIAN_TIME_PAST =? 0) then median_time else adjusted_time in
  IsFinalTx tx nBlockHeight nBlockTime.

Definition GetLegacySigOpCount (tx : CTransaction) : Z :=
  let n := fold_left (fun n i => u32 (n + Script.GetSigOpCount (scriptSig i) false)) (vin tx) 0 in
  fold_left (fun n o => u32 (n + Script.GetSigOpCount (scriptPubKey o) false)) (vout tx) n.

(** [::GetSerializeSize(tx, SER_NETWORK, PROTOCOL_VERSION)] *)
Definition GetSerializeSize (tx : CTransaction) : option Z :=
  match CTransaction_Serialize tx with inr bs => Some (Script.size bs) | inl _ => None end.

(** ** CheckTransactionWithoutProofVerification *)

Definition check_version (tx : CTransaction) (k : checker) : checker :=
  if negb (fOverwintered tx) && (tx_nVersion tx <? SPROUT_MIN_TX_VERSION)
  then invalid 100 "bad-txns-version-too-low"
  else if fOverwintered tx then
    if tx_nVersion tx <? OVERWINTER_MIN_TX_VERSION then invalid 100 "bad-tx-overwinter-version-too-low"
    else if negb (nVersionGroupId tx =? OVERWINTER_VERSION_GROUP_ID) &&
            negb (nVersionGroupId tx =? SAPLING_VERSION_GROUP_ID)
    then invalid 100 "bad-tx-version-group-id"
    else if nExpiryHeight tx >=? TX_EXPIRY_HEIGHT_THRESHOLD then invalid 100 "bad-tx-expiry-height-too-high"
    else k
  else k.

(** The loop over [tx.vout]; the running total goes to the continuation. *)
Fixpoint check_outputs (outs : list CTxOut) (nValueOut : Z) (k : Z -> checker) : checker :=
  match outs with
  | [] => k nValueOut
  | o :: outs' =>
      if nValue o <? 0 then invalid 100 "bad-txns-vout-negative"
      else if nValue o >? MAX_MONEY then invalid 100 "bad-txns-vout-toolarge"
      else
        let nValueOut := s64 (nValueOut + nValue o) in
        if negb (MoneyRange nValueOut) then invalid 100 "bad-txns-txouttotal-toolarge"
        else check_outputs outs' nValueOut k
  end.

Definition check_value_balance (tx : CTransaction) (nValueOut : Z) (k : Z -> checker) : checker :=
  if is_nil (vShieldedSpend tx) && is_nil (vShieldedOutput tx) && negb (valueBalance tx =? 0)
  then invalid 100 "bad-txns-valuebalance-nonzero"
  else if (valueBalance tx >? MAX_MONEY) || (valueBalance tx <? - MAX_MONEY)
  then invalid 100 "bad-txns-valuebalance-toolarge"
  else if valueBalance tx <=? 0 then
    let nValueOut := s64 (nValueOut + - valueBalance tx) in
    if negb (MoneyRange nValueOut) then invalid 100 "bad-txns-txouttotal-toolarge" else k nValueOut
  else k nValueOut.

Fixpoint check_joinsplit_values (js : list JSDescription) (nValueOut : Z) (k : checker) : checker :=
  match js with
  | [] => k
  | j :: js' =>
      if vpub_old j <? 0 then invalid 100 "bad-txns-vpub_old-negative"
      else if vpub_new j <? 0 then invalid 100 "bad-txns-vpub_new-negative"
      else if vpub_old j >? MAX_MONEY then invalid 100 "bad-txns-vpub_old-toolarge"
      else if vpub_new j >? MAX_MONEY then invalid 100 "bad-txns-vpub_new-toolarge"
      else if negb (vpub_new j =? 0) && negb (vpub_old j =? 0) then invalid 100 "bad-txns-vpubs-both-nonzero"
      else
        let nValueOut := s64 (nValueOut + vpub_old j) in
        if negb (MoneyRange nValueOut) then invalid 100 "bad-txns-txouttotal-toolarge"
        else check_joinsplit_values js' nValueOut k
  end.

Fixpoint check_joinsplit_ins (js : list JSDescription) (nValueIn : Z) (k : Z -> checker) : checker :=
  match js with
  | [] => k nValueIn
  | j :: js' =>
      let nValueIn := s64 (nValueIn + vpub_new j) in
      if negb (MoneyRange (vpub_new j)) || negb (MoneyRange nValueIn)
      then invalid 100 "bad-txns-txintotal-toolarge"
      else check_joinsplit_ins js' nValueIn k
  end.

Definition check_value_in (tx : CTransaction) (k : checker) : checker :=
  check_joinsplit_ins (vJoinSplit tx) 0 (fun nValueIn =>
    if valueBalance tx >=? 0 then
      let nValueIn := s64 (nValueIn + valueBalance tx) in
      if negb (MoneyRange nValueIn) then invalid 100 "bad-txns-txintotal-toolarge" else k
    else k).

(** The loops over a growing [std::set]: [if (seen.count(x)) return ...; seen.insert(x)]. *)
Fixpoint check_duplicates {A} `{EqDecision A} (xs : list A) (seen : list A) (bad k : checker) : checker :=
  match xs with
  | [] => k
  | x :: xs' => if bool_decide (x ∈ seen) then bad else check_duplicates xs' (x :: seen) bad k
  end.

Definition check_coinbase (tx : CTransaction) : checker :=
  if IsCoinBase tx then
    if negb (is_nil (vJoinSplit tx)) then invalid 100 "bad-cb-has-joinsplits"
    else if negb (is_nil (vShieldedSpend tx)) then invalid 100 "bad-cb-has-spend-description"
    else if negb (is_nil (vShieldedOutput tx)) then invalid 100 "bad-cb-has-output-description"
    else match vin tx with
    | [] => throws
    | i :: _ =>
        if (Script.size (scriptSig i) <? 2) || (Script.size (scriptSig i) >? 100)
        then invalid 100 "bad-cb-length" else pass
    end
  else if existsb (fun i => COutPoint_IsNull (prevout i)) (vin tx) then invalid 10 "bad-txns-prevout-null"
  else pass.

Definition CheckTransactionWithoutProofVerification (tx : CTransaction) : checker :=
  check_version tx (
  if is_nil (vin tx) && is_nil (vJoinSplit tx) && is_nil (vShieldedSpend tx)
  then invalid 10 "bad-txns-vin-empty"
  else if is_nil (vout tx) && is_nil (vJoinSplit tx) && is_nil (vShieldedOutput tx)
  then invalid 10 "bad-txns-vout-empty"
  else match GetSerializeSize tx with
  | None => throws
  | Some sz =>
      if sz >? MAX_TX_SIZE_AFTER_SAPLING then invalid 100 "bad-txns-oversize"
      else
        check_outputs (vout tx) 0 (fun nValueOut =>
        check_value_balance tx nValueOut (fun nValueOut =>
        check_joinsplit_values (vJoinSplit tx) nValueOut (
        check_value_in tx (
        check_duplicates (map prevout (vin tx)) [] (invalid 100 "bad-txns-inputs-duplicate") (
        check_duplicates (concat (map nullifiers (vJoinSplit tx))) []
          (invalid 100 "bad-joinsplits-nullifiers-duplicate") (
        check_duplicates (map sd_nullifier (vShieldedSpend tx)) []
          (invalid 100 "bad-spend-description-nullifiers-duplicate") (
        check_coinbase tx)))))))
  end).


(** ** CheckTransaction and ContextualCheckTransaction *)

Section contextual.
(** [joinsplit.Verify] with the parameters, the verifier and [tx.joinSplitPubKey] *)
Context (joinsplit_Verify : JSDescription -> list Z -> bool).

Fixpoint check_proofs (js : list JSDescription) (pubKey : list Z) : checker :=
  match js with
  | [] => pass
  | j :: js' =>
      if negb (joinsplit_Verify j pubKey) then invalid 100 "bad-txns-joinsplit-verification-failed"
      else check_proofs js' pubKey
  end.

(** The counter [transactionsValidated] is left out. *)
Definition CheckTransaction (tx : CTransaction) : checker :=
  and_then (CheckTransactionWithoutProofVerification tx) (check_proofs (vJoinSplit tx) (joinSplitPubKey tx)).

Context (params : Params).
Context (blake2b : list Z -> list Z -> list Z) (Hash : list Z -> list Z).
(** [crypto_sign_verify_detached(sig, msg, 32, pk) == 0] and the functions of
    librustzcash, with the verification context they thread. *)
Context (crypto_sign_verify_detached : list Z -> list Z -> list Z -> bool).
Context {Ctx : Type} (verification_ctx_init : Ctx).
Context (sapling_check_spend : Ctx -> SpendDescription -> list Z -> bool * Ctx).
Context (sapling_check_output : Ctx -> OutputDescription -> bool * Ctx).
Context (sapling_final_check : Ctx -> Z -> list Z -> list Z -> bool).

(** The version rules of the epoch, up to "Rules that apply to Overwinter or later". *)
Definition contextual_version (tx : CTransaction) (dosLevel : Z) (ibd overwinterActive saplingActive : bool)
    (k : checker) : checker :=
  let isSprout := negb overwinterActive in
  if isSprout && fOverwintered tx then invalid (if ibd then 0 else dosLevel) "tx-overwinter-not-active"
  else if saplingActive then
    if (tx_nVersion tx >=? SAPLING_MIN_TX_VERSION) && negb (fOverwintered tx)
    then invalid dosLevel "tx-overwintered-flag-not-set"
    else if fOverwintered tx && negb (nVersionGroupId tx =? SAPLING_VERSION_GROUP_ID)
    then invalid (if ibd then 0 else dosLevel) "bad-sapling-tx-version-group-id"
    else if fOverwintered tx && (tx_nVersion tx <? SAPLING_MIN_TX_VERSION)
    then invalid 100 "bad-tx-sapling-version-too-low"
    else if fOverwintered tx && (tx_nVersion tx >? SAPLING_MAX_TX_VERSION)
    then invalid 100 "bad-tx-sapling-version-too-high"
    else k
  else if overwinterActive then
    if (tx_nVersion tx >=? OVERWINTER_MIN_TX_VERSION) && negb (fOverwintered tx)
    then invalid dosLevel "tx-overwinter-flag-not-set"
    else if fOverwintered tx && negb (nVersionGroupId tx =? OVERWINTER_VERSION_GROUP_ID)
    then invalid (if ibd then 0 else dosLevel) "bad-overwinter-tx-version-group-id"
    else if fOverwintered tx && (tx_nVersion tx >? OVERWINTER_MAX_TX_VERSION)
    then invalid 100 "bad-tx-overwinter-version-too-high"
    else k
  else k.

Definition contextual_expiry_size (tx : CTransaction) (nHeight dosLevel : Z) (overwinterActive saplingActive : bool)
    (k : checker) : checker :=
  if overwinterActive && negb (fOverwintered tx) then invalid dosLevel "tx-overwinter-active"
  else if overwinterActive && IsExpiredTx tx nHeight then
    invalid (if IsExpiredTx tx (nHeight - 1) then dosLevel else 0) "tx-overwinter-expired"
  else if negb saplingActive then
    match GetSerializeSize tx with
    | None => throws
    | Some sz => if sz >? MAX_TX_SIZE_BEFORE_SAPLING then invalid 100 "bad-txns-oversize" else k
    end
  else k.

Fixpoint check_spends (ctx : Ctx) (ss : list SpendDescription) (msg : list Z) (k : Ctx -> checker) : checker :=
  match ss with
  | [] => k ctx
  | s :: ss' =>
      let '(ok, ctx) := sapling_check_spend ctx s msg in
      if negb ok then invalid 100 "bad-txns-sapling-spend-description-invalid" else check_spends ctx ss' msg k
  end.

Fixpoint check_shielded_outputs (ctx : Ctx) (os : list OutputDescription) (k : Ctx -> checker) : checker :=
  match os with
  | [] => k ctx
  | o :: os' =>
      let '(ok, ctx) := sapling_check_output ctx o in
      if negb ok then invalid 100 "bad-txns-sapling-output-description-invalid" else check_shielded_outputs ctx os' k
  end.

Definition check_shielded_sigs (tx : CTransaction) (ibd : bool) (dataToBeSigned : list Z) : checker :=
  let sapling : checker :=
    if negb (is_nil (vShieldedSpend tx)) || negb (is_nil (vShieldedOutput tx)) then
      check_spends verification_ctx_init (vShieldedSpend tx) dataToBeSigned (fun ctx =>
      check_shielded_outputs ctx (vShieldedOutput tx) (fun ctx =>
      if negb (sapling_final_check ctx (valueBalance tx) (bindingSig tx) dataToBeSigned)
      then invalid 100 "bad-txns-sapling-binding-signature-invalid" else pass))
    else pass in
  if negb (is_nil (vJoinSplit tx)) &&
     negb (crypto_sign_verify_detached (joinSplitSig tx) dataToBeSigned (joinSplitPubKey tx))
  then invalid (if ibd then 0 else 100) "bad-txns-invalid-joinsplit-signature"
  else sapling.

(** [isInitBlockDownload] is evaluated once, as the argument [ibd]. *)
Definition ContextualCheckTransaction (tx : CTransaction) (nHeight dosLevel : Z) (ibd : bool) : checker :=
  match NetworkUpgradeActive params nHeight UPGRADE_OVERWINTER,
        NetworkUpgradeActive params nHeight UPGRADE_SAPLING,
        CurrentEpochBranchId nHeight params with
  | Some overwinterActive, Some saplingActive, Some consensusBranchId =>
      contextual_version tx dosLevel ibd overwinterActive saplingActive (
      contextual_expiry_size tx nHeight dosLevel overwinterActive saplingActive (
      if negb (is_nil (vJoinSplit tx)) || negb (is_nil (vShieldedSpend tx)) || negb (is_nil (vShieldedOutput tx))
      then
        match SigHash.SignatureHash blake2b Hash [] tx SigHash.NOT_AN_INPUT Interpreter.SIGHASH_ALL 0
                consensusBranchId None with
        | None => throws
        | Some (inl SigHash.LogicError) => invalid 100 "error-computing-signature-hash"
        | Some (inl (SigHash.IosFailure _)) => throws
        | Some (inr dataToBeSigned) => check_shielded_sigs tx ibd dataToBeSigned
        end
      else pass))
  | _, _, _ => throws
  end.

End contextual.


(** ** What the checks decide *)

(** [k] accepts exactly when [P] holds, leaving the state alone, and otherwise
    reports a consensus violation worth 10 or 100 misbehaviour points. *)
Definition decides (k : checker) (P : Prop) : Prop := forall st,
  (P /\ k st = Some (true, st)) \/
  (~ P /\ exists level reason, (level = 10 \/ level = 100) /\
     k st = Some (false, DoS st level REJECT_INVALID reason false)).

Lemma decides_pass : decides pass True.
Proof. intros st. by left. Qed.
Lemma decides_iff k P Q : (P <-> Q) -> decides k P -> decides k Q.
Proof. intros E Hk st. destruct (Hk st) as [[? ?]|[? ?]]; [left|right]; tauto. Qed.
Lemma decides_if (b : bool) level reason k P :
  level = 10 \/ level = 100 -> (b = false -> decides k P) ->
  decides (if b then invalid level reason else k) (b = false /\ P).
Proof.
  intros Hl Hk st. destruct b.
  - right. split; [by intros [? _]|]. by exists level, reason.
  - destruct (Hk eq_refl st) as [[? ?]|[? ?]]; [left|right]; tauto.
Qed.

(** Walk down a chain of [if bad then invalid ... else ...]. *)
Ltac decide_ifs := repeat (apply decides_if; [by auto|intros ?]).

Definition version_rules (tx : CTransaction) : Prop :=
  if fOverwintered tx then
    OVERWINTER_MIN_TX_VERSION <= tx_nVersion tx /\
    (nVersionGroupId tx = OVERWINTER_VERSION_GROUP_ID \/ nVersionGroupId tx = SAPLING_VERSION_GROUP_ID) /\
    nExpiryHeight tx < TX_EXPIRY_HEIGHT_THRESHOLD
  else SPROUT_MIN_TX_VERSION <= tx_nVersion tx.

Lemma check_version_decides tx k P : decides k P -> decides (check_version tx k) (version_rules tx /\ P).
Proof.
  intros Hk. unfold check_version, version_rules. destruct (fOverwintered tx); cbn [negb andb].
  - eapply decides_iff; [|decide_ifs; exact Hk].
    rewrite andb_false_iff, !negb_false_iff, Z.ltb_ge, !Z.eqb_eq, Z.geb_leb, Z.leb_gt. tauto.
  - eapply decides_iff; [|decide_ifs; exact Hk]. rewrite Z.ltb_ge. tauto.
Qed.

Lemma check_outputs_decides outs : forall acc (k : Z -> checker) P, 0 <= acc <= MAX_MONEY ->
  (forall v, 0 <= v <= MAX_MONEY -> decides (k v) (P v)) ->
  decides (check_outputs outs acc k) (exists v, sum_in_range acc (map nValue outs) = Some v /\ P v).
Proof.
  induction outs as [|o outs IH]; intros acc k P Hacc Hk; cbn [check_outputs sum_in_range map].
  { eapply decides_iff; [|by apply Hk]. split; [by exists acc|]. by intros (? & [= <-] & ?). }
  eapply decides_iff; [|decide_ifs; apply IH; [|exact Hk]].
  - rewrite Z.ltb_ge, Z.gtb_ltb, Z.ltb_ge, negb_false_iff. pose proof (MoneyRange_iff (nValue o)) as Hr.
    destruct (MoneyRange (nValue o)), (MoneyRange (s64 (acc + nValue o))); cbn [negb orb]; naive_solver.
  - apply MoneyRange_iff. by apply negb_false_iff.
Qed.

Definition balance_rules (tx : CTransaction) : Prop :=
  (vShieldedSpend tx = [] -> vShieldedOutput tx = [] -> valueBalance tx = 0) /\
  - MAX_MONEY <= valueBalance tx <= MAX_MONEY.

Lemma is_nil_true {A} (l : list A) : is_nil l = true <-> l = [].
Proof. by destruct l. Qed.
Lemma is_nil_false {A} (l : list A) : is_nil l = false <-> l <> [].
Proof. by destruct l. Qed.

Lemma check_value_balance_decides tx acc (k : Z -> checker) P : 0 <= acc <= MAX_MONEY ->
  (balance_rules tx -> forall v, 0 <= v <= MAX_MONEY -> decides (k v) (P v)) ->
  decides (check_value_balance tx acc k)
    (balance_rules tx /\ acc + Z.max 0 (- valueBalance tx) <= MAX_MONEY /\ P (acc + Z.max 0 (- valueBalance tx))).
Proof.
  intros Hacc Hk. unfold check_value_balance.
  assert (MAX_MONEY < 2 ^ 62) as HM by (unfold MAX_MONEY, COIN; lia).
  set (Q := acc + Z.max 0 (- valueBalance tx) <= MAX_MONEY /\ P (acc + Z.max 0 (- valueBalance tx))).
  match goal with |- decides (if ?b1 then _ else if ?b2 then _ else _) _ =>
    assert (b1 = false /\ b2 = false <-> balance_rules tx) as Hb end.
  { unfold balance_rules. rewrite orb_false_iff, Z.gtb_ltb, !Z.ltb_ge.
    destruct (vShieldedSpend tx), (vShieldedOutput tx); cbn [is_nil andb]; rewrite ?negb_false_iff, ?Z.eqb_eq;
      intuition (try congruence; try lia). }
  eapply decides_iff; [|apply decides_if; [by auto|intros Hr1]; apply decides_if; [by auto|intros Hr2]].
  { instantiate (1 := Q). tauto. }
  specialize (Hk (proj1 Hb (conj Hr1 Hr2))). apply proj1 in Hb. destruct (Hb (conj Hr1 Hr2)) as [_ Hrange].
  destruct (valueBalance tx <=? 0) eqn:E; [rewrite Z.leb_le in E|rewrite Z.leb_gt in E]; subst Q.
  - rewrite s64_id by (unfold is_s64; lia). rewrite Z.max_r by lia. eapply decides_iff; [|decide_ifs; apply Hk].
    + rewrite negb_false_iff, MoneyRange_iff. intuition lia.
    + apply MoneyRange_iff. by apply negb_false_iff.
  - rewrite Z.max_l, Z.add_0_r by lia. eapply decides_iff; [|by apply Hk]. intuition lia.
Qed.

Definition joinsplit_rules (j : JSDescription) : Prop :=
  0 <= vpub_old j <= MAX_MONEY /\ 0 <= vpub_new j <= MAX_MONEY /\ (vpub_new j = 0 \/ vpub_old j = 0).

Lemma check_joinsplit_values_decides js : forall acc k P, 0 <= acc <= MAX_MONEY -> decides k P ->
  decides (check_joinsplit_values js acc k)
    (Forall joinsplit_rules js /\ acc + total (map vpub_old js) <= MAX_MONEY /\ P).
Proof.
  assert (MAX_MONEY < 2 ^ 62) as HM by (unfold MAX_MONEY, COIN; lia).
  induction js as [|j js IH]; intros acc k P Hacc Hk; cbn [check_joinsplit_values map].
  { eapply decides_iff; [|exact Hk]. change (total []) with 0. rewrite Forall_nil. intuition lia. }
  change (total (vpub_old j :: map vpub_old js)) with (vpub_old j + total (map vpub_old js)).
  assert (0 <= total (map vpub_old js) \/ ~ Forall joinsplit_rules js) as Ht.
  { destruct (decide (0 <= total (map vpub_old js))); [by left|right]. intros Hf. apply n, total_nonneg.
    apply Forall_map. eapply Forall_impl; [exact Hf|]. intros x (Hx & _). cbn. by apply MoneyRange_iff. }
  eapply decides_iff; [|decide_ifs; apply IH; [|exact Hk]].
  - rewrite Forall_cons, !Z.gtb_ltb, !Z.ltb_ge, andb_false_iff, !negb_false_iff, !Z.eqb_eq, MoneyRange_iff.
    unfold joinsplit_rules at 2. split.
    + intros (H1 & H2 & H3 & H4 & H5 & H6 & H7 & H8 & H9). rewrite s64_id in H6, H8 by (unfold is_s64; lia).
      intuition lia.
    + intros ((((? & ?) & (? & ?) & ?) & ?) & ? & ?). rewrite s64_id by (unfold is_s64; lia). intuition lia.
  - apply MoneyRange_iff. by apply negb_false_iff.
Qed.

Lemma check_joinsplit_ins_decides js : forall acc (k : Z -> checker) P, 0 <= acc <= MAX_MONEY ->
  (forall v, 0 <= v <= MAX_MONEY -> decides (k v) (P v)) ->
  decides (check_joinsplit_ins js acc k) (exists v, sum_in_range acc (map vpub_new js) = Some v /\ P v).
Proof.
  induction js as [|j js IH]; intros acc k P Hacc Hk; cbn [check_joinsplit_ins sum_in_range map].
  { eapply decides_iff; [|by apply Hk]. split; [by exists acc|]. by intros (? & [= <-] & ?). }
  eapply decides_iff; [|decide_ifs; apply IH; [|exact Hk]].
  - destruct (negb (MoneyRange (vpub_new j)) || negb (MoneyRange (s64 (acc + vpub_new j)))); naive_solver.
  - apply MoneyRange_iff. match goal with E : _ || _ = false |- _ => apply orb_false_iff in E as [_ E] end.
    by apply negb_false_iff.
Qed.

Lemma check_duplicates_decides {A} `{EqDecision A} (xs : list A) reason : forall seen k P, decides k P ->
  decides (check_duplicates xs seen (invalid 100 reason) k)
    (NoDup xs /\ (forall x, x ∈ xs -> x ∉ seen) /\ P).
Proof.
  induction xs as [|x xs IH]; intros seen k P Hk; cbn [check_duplicates].
  { eapply decides_iff; [|exact Hk]. split; [|tauto]. intros HP. split; [constructor|]. split; [|done].
    by intros x ?%not_elem_of_nil. }
  eapply decides_iff; [|decide_ifs; apply IH, Hk].
  rewrite bool_decide_eq_false, NoDup_cons. split.
  - intros (Hx & Hnd & Hs & HP). split; [split; [intros Hin; apply (Hs x Hin); left|done]|]. split; [|done].
    intros y [->|Hy]%elem_of_cons; [done|]. intros Hin. apply (Hs y Hy). by right.
  - intros ((Hx & Hnd) & Hs & HP). split; [apply Hs; left|]. split; [done|]. split; [|done].
    intros y Hy [->|Hin]%elem_of_cons; [done|]. apply (Hs y); [by right|done].
Qed.

Definition coinbase_rules (tx : CTransaction) : Prop :=
  if IsCoinBase tx then
    vJoinSplit tx = [] /\ vShieldedSpend tx = [] /\ vShieldedOutput tx = [] /\
    exists i, vin tx = [i] /\ 2 <= Script.size (scriptSig i) <= 100
  else Forall (fun i => COutPoint_IsNull (prevout i) = false) (vin tx).

Lemma check_coinbase_decides tx : decides (check_coinbase tx) (coinbase_rules tx).
Proof.
  unfold check_coinbase, coinbase_rules. destruct (IsCoinBase tx) eqn:Ecb.
  - unfold IsCoinBase in Ecb. destruct (vin tx) as [|i [|]]; try done.
    eapply decides_iff; [|decide_ifs; exact decides_pass].
    rewrite !negb_false_iff, !is_nil_true, orb_false_iff, Z.gtb_ltb, !Z.ltb_ge. split.
    + intros (? & ? & ? & ? & _). eauto 10 with lia.
    + intros (? & ? & ? & ? & [= <-] & ?). intuition lia.
  - eapply decides_iff; [|decide_ifs; exact decides_pass].
    rewrite <- not_true_iff_false, existsb_exists, Forall_forall. split.
    + intros [Hn _] i Hi. apply not_true_iff_false. intros Ht. apply Hn. exists i. by rewrite <- list_elem_of_In.
    + intros Hf. split; [|done]. intros (i & Hi%list_elem_of_In & Ht). specialize (Hf i Hi). congruence.
Qed.


(** The consensus rules for a transaction of serialized size [sz], out of context. *)
Record tx_rules (tx : CTransaction) (sz : Z) : Prop := {
  rule_version : version_rules tx;
  rule_vin : vin tx <> [] \/ vJoinSplit tx <> [] \/ vShieldedSpend tx <> [];
  rule_vout : vout tx <> [] \/ vJoinSplit tx <> [] \/ vShieldedOutput tx <> [];
  rule_size : sz <= MAX_TX_SIZE_AFTER_SAPLING;
  rule_outputs : Forall (fun o => 0 <= nValue o <= MAX_MONEY) (vout tx);
  rule_balance : balance_rules tx;
  rule_joinsplits : Forall joinsplit_rules (vJoinSplit tx);
  rule_value_out : total (map nValue (vout tx)) + Z.max 0 (- valueBalance tx)
                   + total (map vpub_old (vJoinSplit tx)) <= MAX_MONEY;
  rule_value_in : total (map vpub_new (vJoinSplit tx)) + Z.max 0 (valueBalance tx) <= MAX_MONEY;
  rule_inputs : NoDup (map prevout (vin tx));
  rule_joinsplit_nullifiers : NoDup (concat (map nullifiers (vJoinSplit tx)));
  rule_spend_nullifiers : NoDup (map sd_nullifier (vShieldedSpend tx));
  rule_coinbase : coinbase_rules tx
}.

Lemma check_value_in_decides tx k P : balance_rules tx -> decides k P ->
  decides (check_value_in tx k)
    ((exists v, sum_in_range 0 (map vpub_new (vJoinSplit tx)) = Some v /\ v + Z.max 0 (valueBalance tx) <= MAX_MONEY) /\ P).
Proof.
  intros [_ Hb] Hk. assert (MAX_MONEY < 2 ^ 62) as HM by (unfold MAX_MONEY, COIN; lia).
  eapply decides_iff; [|apply (check_joinsplit_ins_decides _ _ _ (fun v => v + Z.max 0 (valueBalance tx) <= MAX_MONEY /\ P))].
  - naive_solver.
  - unfold MAX_MONEY, COIN. lia.
  - intros v Hv. rewrite Z.geb_leb. destruct (0 <=? valueBalance tx) eqn:E; [rewrite Z.leb_le in E|rewrite Z.leb_gt in E].
    + rewrite s64_id by (unfold is_s64; lia). rewrite Z.max_r by lia.
      eapply decides_iff; [|decide_ifs; exact Hk]. rewrite negb_false_iff, MoneyRange_iff. intuition lia.
    + rewrite Z.max_l by lia. eapply decides_iff; [|exact Hk]. intuition lia.
Qed.

Lemma sum_in_range_total vs Q :
  (exists v, sum_in_range 0 vs = Some v /\ Q v) <->
  Forall (fun v => 0 <= v <= MAX_MONEY) vs /\ total vs <= MAX_MONEY /\ Q (total vs).
Proof.
  assert (0 <= 0 <= MAX_MONEY) as H0 by (unfold MAX_MONEY, COIN; lia).
  assert (Forall (fun v => MoneyRange v = true) vs <-> Forall (fun v => 0 <= v <= MAX_MONEY) vs) as HF.
  { split; intros Hf; (eapply Forall_impl; [exact Hf|]); intros v; apply MoneyRange_iff. }
  rewrite <- HF. split.
  - intros (v & Hs & HQ). apply (sum_in_range_iff 0 vs v H0) in Hs as (Hf & -> & Hm). done.
  - intros (Hf & Hm & HQ). exists (total vs). split; [|done]. by apply (sum_in_range_iff 0 vs _ H0).
Qed.

(** The part of the function after the value checks. *)
Lemma check_tail_decides tx :
  decides
    (check_duplicates (map prevout (vin tx)) [] (invalid 100 "bad-txns-inputs-duplicate") (
     check_duplicates (concat (map nullifiers (vJoinSplit tx))) []
       (invalid 100 "bad-joinsplits-nullifiers-duplicate") (
     check_duplicates (map sd_nullifier (vShieldedSpend tx)) []
       (invalid 100 "bad-spend-description-nullifiers-duplicate") (check_coinbase tx))))
    (NoDup (map prevout (vin tx)) /\ NoDup (concat (map nullifiers (vJoinSplit tx))) /\
     NoDup (map sd_nullifier (vShieldedSpend tx)) /\ coinbase_rules tx).
Proof.
  eapply decides_iff; [|do 3 apply check_duplicates_decides; apply check_coinbase_decides].
  split; [tauto|]. intros (H1 & H2 & H3 & H4).
  split_and!; first [done|intros ? _; apply not_elem_of_nil].
Qed.

Lemma CheckTransactionWithoutProofVerification_decides tx sz : GetSerializeSize tx = Some sz ->
  decides (CheckTransactionWithoutProofVerification tx) (tx_rules tx sz).
Proof.
  intros Hsz. unfold CheckTransactionWithoutProofVerification. rewrite Hsz.
  assert (0 <= 0 <= MAX_MONEY) as H0 by (unfold MAX_MONEY, COIN; lia).
  eapply decides_iff; [|apply check_version_decides; decide_ifs;
    apply check_outputs_decides; [exact H0|]; intros v Hv; apply check_value_balance_decides; [exact Hv|];
    intros Hbal v' Hv'; apply check_joinsplit_values_decides; [exact Hv'|];
    apply check_value_in_decides; [exact Hbal|]; apply check_tail_decides].
  cbv beta. rewrite !sum_in_range_total. rewrite Z.gtb_ltb, Z.ltb_ge, !andb_false_iff, !is_nil_false. split.
  - intros (? & ? & ? & ? & Hout & ? & ? & ? & ? & ? & (? & ? & ?) & ? & ? & ? & ?).
    split; try done; try tauto. by apply Forall_map in Hout.
  - intros [? ? ? ? Hout ? Hjs Hvo Hvi ? ? ? ?].
    assert (0 <= total (map vpub_old (vJoinSplit tx))).
    { apply total_nonneg, Forall_map. eapply Forall_impl; [exact Hjs|]. intros j (? & _). by apply MoneyRange_iff. }
    assert (Forall (fun v => 0 <= v <= MAX_MONEY) (map vpub_new (vJoinSplit tx))) as Hnew.
    { apply Forall_map. eapply Forall_impl; [exact Hjs|]. intros j (_ & ? & _). done. }
    split_and!; try done; try tauto; try lia. by apply Forall_map.
Qed.

Lemma sum_in_range_Some acc vs : 0 <= acc <= MAX_MONEY -> Forall (fun v => 0 <= v <= MAX_MONEY) vs ->
  acc + total vs <= MAX_MONEY -> sum_in_range acc vs = Some (acc + total vs).
Proof.
  intros Ha Hf Ht. apply sum_in_range_iff; [done|]. split; [|done].
  eapply Forall_impl; [exact Hf|]. intros v. apply MoneyRange_iff.
Qed.

Lemma rules_values tx sz : tx_rules tx sz -> is_Some (GetValueOut tx) /\ is_Some (GetShieldedValueIn tx).
Proof.
  assert (0 <= 0 <= MAX_MONEY /\ MAX_MONEY < 2 ^ 62) as [H0 HM] by (unfold MAX_MONEY, COIN; lia).
  intros [? ? ? ? Hout [_ Hbal] Hjs Hvo Hvi ? ? ? ?].
  assert (Forall (fun v => 0 <= v <= MAX_MONEY) (map nValue (vout tx))) as Ho by by apply Forall_map.
  assert (Forall (fun v => 0 <= v <= MAX_MONEY) (map vpub_new (vJoinSplit tx))) as Hnew.
  { apply Forall_map. eapply Forall_impl; [exact Hjs|]. intros j (_ & ? & _). done. }
  assert (Forall (fun v => 0 <= v <= MAX_MONEY) (map vpub_old (vJoinSplit tx))) as Hold.
  { apply Forall_map. eapply Forall_impl; [exact Hjs|]. intros j (? & _). done. }
  assert (forall vs, Forall (fun v => 0 <= v <= MAX_MONEY) vs -> 0 <= total vs) as Hnn.
  { intros vs Hf. apply total_nonneg. eapply Forall_impl; [exact Hf|]. intros v. apply MoneyRange_iff. }
  pose proof (Hnn _ Ho). pose proof (Hnn _ Hnew). pose proof (Hnn _ Hold).
  unfold GetValueOut, GetShieldedValueIn. rewrite sum_in_range_Some by (try done; lia). monad. rewrite Z.geb_leb. split.
  - destruct (valueBalance tx <=? 0) eqn:E; [rewrite Z.leb_le in E|rewrite Z.leb_gt in E].
    + rewrite !(s64_id (- valueBalance tx)) by (unfold is_s64; lia). rewrite s64_id by (unfold is_s64; lia).
      rewrite !(proj2 (MoneyRange_iff _)) by lia. cbn [negb orb]. monad.
      rewrite sum_in_range_Some by (try done; lia). by eexists.
    + monad. rewrite sum_in_range_Some by (try done; lia). by eexists.
  - destruct (0 <=? valueBalance tx) eqn:E; [rewrite Z.leb_le in E|rewrite Z.leb_gt in E].
    + rewrite !(proj2 (MoneyRange_iff _)) by lia. cbn [negb orb]. monad.
      rewrite sum_in_range_Some by (try done; lia). by eexists.
    + monad. rewrite sum_in_range_Some by (try done; lia). by eexists.
Qed.

(** C16: the context-free transaction check decides exactly the stated consensus
    rules: a serializable transaction that satisfies them is accepted with the
    validation state untouched, any other is rejected as invalid with 10 or 100
    misbehaviour points; and the values of an accepted transaction never make
    [GetValueOut] or [GetShieldedValueIn] throw. *)
Theorem CheckTransaction_decides (tx : CTransaction) (sz : Z) (st : CValidationState)
    (Hsz : GetSerializeSize tx = Some sz) :
  (tx_rules tx sz /\ CheckTransactionWithoutProofVerification tx st = Some (true, st) /\
   is_Some (GetValueOut tx) /\ is_Some (GetShieldedValueIn tx)) \/
  (~ tx_rules tx sz /\ exists level reason, (level = 10 \/ level = 100) /\
   CheckTransactionWithoutProofVerification tx st = Some (false, DoS st level REJECT_INVALID reason false)).
Proof.
  destruct (CheckTransactionWithoutProofVerification_decides tx sz Hsz st) as [[Hr Hc]|Hn]; [left|by right].
  split; [done|]. split; [done|]. by apply (rules_values tx sz).
Qed.


(** A Sapling transaction without shielded parts. *)
Definition sample_v4 : CTransaction := {|
  fOverwintered := true; tx_nVersion := 4; nVersionGroupId := SAPLING_VERSION_GROUP_ID;
  vin := vin sample_tx; vout := vout sample_tx; nLockTime := 0; nExpiryHeight := 20; valueBalance := 0;
  vShieldedSpend := []; vShieldedOutput := []; vJoinSplit := [];
  joinSplitPubKey := zero_blob 32; joinSplitSig := zero_blob 64; bindingSig := zero_blob 64 |}.

Lemma sample_v4_accepted :
  CheckTransactionWithoutProofVerification sample_v4 CValidationState_init = Some (true, CValidationState_init).
Proof. vm_compute. reflexivity. Qed.

Lemma CheckTransaction_decides_witness : tx_rules sample_v4 82.
Proof.
  destruct (CheckTransaction_decides sample_v4 82 CValidationState_init) as [(Hr & _)|(_ & l & r & _ & Hc)].
  - vm_compute. reflexivity.
  - exact Hr.
  - rewrite sample_v4_accepted in Hc. discriminate Hc.
Defined.

Lemma accepted_rules tx st st' : CheckTransactionWithoutProofVerification tx st = Some (true, st') ->
  st' = st /\ exists sz, GetSerializeSize tx = Some sz /\ tx_rules tx sz.
Proof.
  intros H1. destruct (GetSerializeSize tx) as [sz|] eqn:Hsz.
  - destruct (CheckTransactionWithoutProofVerification_decides tx sz Hsz st) as [[Hr Hc]|(_ & l & r & _ & Hc)];
      rewrite Hc in H1; [|done]. injection H1 as <-. split; [done|]. by exists sz.
  - exfalso. unfold CheckTransactionWithoutProofVerification in H1. rewrite Hsz in H1.
    unfold check_version in H1. by repeat case_match.
Qed.

(** An [if bad then reject else k] that accepted took the second branch. *)
Lemma if_accepted (b : bool) level reason (k : checker) st st' :
  (if b then invalid level reason else k) st = Some (true, st') -> b = false /\ k st = Some (true, st').
Proof. by destruct b. Qed.

Ltac accepted_ifs H :=
  repeat (let E := fresh "E" in apply if_accepted in H as [E H]).

Lemma contextual_version_accepted tx dosLevel ibd ow sa k st st' :
  contextual_version tx dosLevel ibd ow sa k st = Some (true, st') ->
  k st = Some (true, st') /\ (ow = false -> fOverwintered tx = false) /\
  (ow = true -> sa = true -> fOverwintered tx = true ->
     nVersionGroupId tx = SAPLING_VERSION_GROUP_ID /\ tx_nVersion tx = 4) /\
  (ow = true -> sa = false -> fOverwintered tx = true ->
     nVersionGroupId tx = OVERWINTER_VERSION_GROUP_ID /\ tx_nVersion tx <= 3).
Proof.
  unfold contextual_version, SAPLING_MIN_TX_VERSION, SAPLING_MAX_TX_VERSION, OVERWINTER_MAX_TX_VERSION.
  intros H. apply if_accepted in H as [E0 H].
  destruct sa; [|destruct ow]; accepted_ifs H; (split; [done|]).
  - split; [intros ->; by cbn in E0|]. split; [|done]. intros -> _ HO. rewrite HO in *. cbn [andb] in *.
    apply negb_false_iff, Z.eqb_eq in E1. rewrite Z.ltb_ge in E2. rewrite Z.gtb_ltb, Z.ltb_ge in E3. split; [done|lia].
  - split; [done|]. split; [done|]. intros _ _ HO. rewrite HO in *. cbn [andb] in *.
    apply negb_false_iff, Z.eqb_eq in E1. rewrite Z.gtb_ltb, Z.ltb_ge in E2. by split.
  - split; [|done]. intros _. by cbn in E0.
Qed.

Lemma contextual_expiry_size_accepted tx nHeight dosLevel ow sa k st st' :
  contextual_expiry_size tx nHeight dosLevel ow sa k st = Some (true, st') ->
  (ow = true -> fOverwintered tx = true /\ IsExpiredTx tx nHeight = false) /\
  (sa = false -> exists sz, GetSerializeSize tx = Some sz /\ sz <= MAX_TX_SIZE_BEFORE_SAPLING).
Proof.
  unfold contextual_expiry_size. intros H. apply if_accepted in H as [E0 H]. apply if_accepted in H as [E1 H]. split.
  - intros ->. cbn [andb] in E0, E1. by apply negb_false_iff in E0.
  - intros ->. cbn [negb] in H. destruct (GetSerializeSize tx) as [sz|]; [|done].
    apply if_accepted in H as [E2 _]. exists sz. split; [done|]. by rewrite Z.gtb_ltb, Z.ltb_ge in E2.
Qed.

Lemma and_then_accepted a b st st' : and_then a b st = Some (true, st') ->
  exists st1, a st = Some (true, st1) /\ b st1 = Some (true, st').
Proof. unfold and_then. destruct (a st) as [[[] st1]|]; [|done..]. eauto. Qed.

Lemma check_proofs_accepted verify js key st st' : check_proofs verify js key st = Some (true, st') ->
  st' = st /\ Forall (fun j => verify j key = true) js.
Proof.
  revert st. induction js as [|j js IH]; intros st H; cbn [check_proofs] in H; [by injection H as <-|].
  apply if_accepted in H as [E H]. apply negb_false_iff in E. destruct (IH _ H) as [-> Hf]. split; [done|by constructor].
Qed.

Lemma CheckTransaction_accepted verify tx st st' : CheckTransaction verify tx st = Some (true, st') ->
  st' = st /\ (exists sz, GetSerializeSize tx = Some sz /\ tx_rules tx sz) /\
  Forall (fun j => verify j (joinSplitPubKey tx) = true) (vJoinSplit tx).
Proof.
  intros (st1 & H1 & H2)%and_then_accepted. apply accepted_rules in H1 as [-> Hr].
  by apply check_proofs_accepted in H2 as [-> Hf].
Qed.

(** C17: a transaction that passes both checks has the format of its epoch: before
    Overwinter it is not overwintered, under Overwinter it is version 3 with the
    Overwinter group id, under Sapling version 4 with the Sapling group id; it
    has not expired at that height, and before Sapling it is at most 100000
    bytes. *)
Theorem accepted_tx_matches_epoch {Ctx : Type} (params : Params) blake2b Hash sigverify (ctx : Ctx)
    check_spend check_output final_check (tx : CTransaction) (nHeight dosLevel : Z) (ibd ow sa : bool)
    (st st1 st2 : CValidationState)
    (How : NetworkUpgradeActive params nHeight UPGRADE_OVERWINTER = Some ow)
    (Hsa : NetworkUpgradeActive params nHeight UPGRADE_SAPLING = Some sa)
    (H1 : CheckTransactionWithoutProofVerification tx st = Some (true, st1))
    (H2 : ContextualCheckTransaction params blake2b Hash sigverify ctx check_spend check_output final_check
            tx nHeight dosLevel ibd st1 = Some (true, st2)) :
  (if ow then
     fOverwintered tx = true /\ IsExpiredTx tx nHeight = false /\
     if sa then nVersionGroupId tx = SAPLING_VERSION_GROUP_ID /\ tx_nVersion tx = 4
     else nVersionGroupId tx = OVERWINTER_VERSION_GROUP_ID /\ tx_nVersion tx = 3
   else fOverwintered tx = false /\ 1 <= tx_nVersion tx) /\
  (sa = false -> exists sz, GetSerializeSize tx = Some sz /\ sz <= 100000).
Proof.
  destruct (accepted_rules _ _ _ H1) as (_ & sz & _ & Hr). pose proof (rule_version _ _ Hr) as Hv.
  unfold ContextualCheckTransaction in H2. rewrite How, Hsa in H2.
  destruct (CurrentEpochBranchId nHeight params) as [id|]; [|done].
  apply contextual_version_accepted in H2 as (H2 & V0 & V1 & V2).
  apply contextual_expiry_size_accepted in H2 as (X1 & X2). split; [|done].
  unfold version_rules, OVERWINTER_MIN_TX_VERSION, SPROUT_MIN_TX_VERSION in Hv.
  destruct ow.
  - destruct (X1 eq_refl) as [HO HE]. rewrite HO in Hv. destruct Hv as (Hv & _). split; [done|]. split; [done|].
    destruct sa; [by apply V1|]. destruct V2 as [Hg Hle]; [done..|]. split; [done|]. clear - Hv Hle. lia.
  - rewrite (V0 eq_refl) in *. done.
Qed.

Lemma accepted_tx_matches_epoch_witness :
  fOverwintered sample_v4 = true /\ IsExpiredTx sample_v4 5 = false /\
  nVersionGroupId sample_v4 = SAPLING_VERSION_GROUP_ID /\ tx_nVersion sample_v4 = 4.
Proof.
  refine (proj1 (accepted_tx_matches_epoch CMainParams (fun _ d => d) (fun d => d) (fun _ _ _ => true) tt
    (fun c _ _ => (true, c)) (fun c _ => (true, c)) (fun _ _ _ _ => true) sample_v4 5 100 false true true
    CValidationState_init CValidationState_init CValidationState_init _ _ sample_v4_accepted _));
    vm_compute; reflexivity.
Defined.

End TxCheck.
