(* ===== verification/BlockCheck.v ===== *)
(** * Block checks (src/main.cpp, src/checkpoints.cpp)

    The checks of a block header and of a block that do not need the coins
    database: [CheckBlockHeader], [CheckBlock], [ContextualCheckBlockHeader] and
    [ContextualCheckBlock].  The hash functions, the adjusted clock and the reward
    scripts of the chain parameters are arguments; the block index is the heap of
    the BlockIndex component. *)

From stdpp Require Import base list list_numbers numbers option gmap strings.
From Stdlib Require Import ZArith Lia.
From S2P Require Import Prelude Bytes Params Chain ChainFacts Pow Serialize Amount Transaction Script.
From S2P Require Import Interpreter SigHash Merkle TxCheck.
Import Serialize Transaction Amount Consensus TxCheck.
#[local] Open Scope Z_scope.

Module BlockCheck.

Definition MIN_BLOCK_VERSION : Z := 4.
Definition MAX_BLOCK_SIZE : Z := 2000000.

(** ** Serialization of blocks *)

(** [int32_t] is written through [uint32_t]. *)
Definition s32_codec : codec Z := iso_codec s32 u32 u32_codec.

Definition CBlockHeader_codec : codec BlockIndex.CBlockHeader :=
  iso_codec
    (fun '(v, (p, (m, (f, (t, (b, n)))))) =>
       {| BlockIndex.hdr_nVersion := v; BlockIndex.hdr_hashPrevBlock := p; BlockIndex.hdr_hashMerkleRoot := m;
          BlockIndex.hdr_hashFinalSaplingRoot := f; BlockIndex.hdr_nTime := t; BlockIndex.hdr_nBits := b;
          BlockIndex.hdr_nNonce := n |})
    (fun h => (BlockIndex.hdr_nVersion h, (BlockIndex.hdr_hashPrevBlock h, (BlockIndex.hdr_hashMerkleRoot h,
      (BlockIndex.hdr_hashFinalSaplingRoot h, (BlockIndex.hdr_nTime h, (BlockIndex.hdr_nBits h,
       BlockIndex.hdr_nNonce h)))))))
    (pair_codec s32_codec (pair_codec uint256_codec (pair_codec uint256_codec (pair_codec uint256_codec
      (pair_codec u32_codec (pair_codec u32_codec uint256_codec)))))).

Fixpoint serialize_txs (l : list CTransaction) : writer :=
  match l with [] => inr [] | tx :: l' => wapp (CTransaction_Serialize tx) (serialize_txs l') end.
Definition CBlock_Serialize (b : Merkle.CBlock) : writer :=
  wapp (enc CBlockHeader_codec (Merkle.header b))
    (wapp (inr (WriteCompactSize (Z.of_nat (length (Merkle.vtx b))))) (serialize_txs (Merkle.vtx b))).
Definition block_size (b : Merkle.CBlock) : option Z :=
  match CBlock_Serialize b with inr bs => Some (Script.size bs) | inl _ => None end.

(** ** CheckBlockHeader and CheckBlock *)

Section check_block.
Context (params : Params) (hashGenesisBlock : list Z).
(** [block.GetPoWHash_cached()], [block.GetHash()], [tx.GetHash()], double SHA-256,
    and [joinsplit.Verify]. *)
Context (GetPoWHash GetHash : BlockIndex.CBlockHeader -> list Z) (tx_GetHash : CTransaction -> list Z).
Context (Hash : list Z -> list Z) (joinsplit_Verify : JSDescription -> list Z -> bool).

Definition reject_corrupt (level : Z) (reason : string) : checker :=
  fun st => Some (false, DoS st level REJECT_INVALID reason true).

Definition CheckBlockHeader (block : BlockIndex.CBlockHeader) (adjusted_time : Z) (fCheckPOW : bool) : checker :=
  if BlockIndex.hdr_nVersion block <? MIN_BLOCK_VERSION then invalid 100 "version-too-low"
  else if fCheckPOW && negb (Pow.CheckProofOfWork (GetPoWHash block) (BlockIndex.hdr_nBits block) params)
  then invalid 50 "high-hash"
  else if BlockIndex.hdr_nTime block >? adjusted_time + 2 * 60 * 60 then invalid 0 "time-too-new"
  else pass.

(** The merkle tree is built into the (mutable) block, whose tree no later check reads. *)
Definition check_merkle_root (block : Merkle.CBlock) (k : checker) : checker :=
  match Merkle.BuildMerkleTree Hash tx_GetHash block with
  | None => throws
  | Some (_, hashMerkleRoot2, mutated) =>
      if bool_decide (BlockIndex.hdr_hashMerkleRoot (Merkle.header block) <> hashMerkleRoot2)
      then reject_corrupt 100 "bad-txnmrklroot"
      else if (mutated : bool) then reject_corrupt 100 "bad-txns-duplicate"
      else k
  end.

Fixpoint check_transactions (txs : list CTransaction) : checker :=
  match txs with
  | [] => pass
  | tx :: txs' => and_then (CheckTransaction joinsplit_Verify tx) (check_transactions txs')
  end.

Definition CheckBlock (block : Merkle.CBlock) (adjusted_time : Z) (fCheckPOW fCheckMerkleRoot : bool) : checker :=
  and_then (CheckBlockHeader (Merkle.header block) adjusted_time fCheckPOW) (
  (if fCheckMerkleRoot then check_merkle_root block else fun k => k) (
  let vtx := Merkle.vtx block in
  if is_nil vtx || (Z.of_nat (length vtx) >? MAX_BLOCK_SIZE) then invalid 100 "bad-blk-length"
  else match block_size block with
  | None => throws
  | Some sz =>
      if sz >? MAX_BLOCK_SIZE then invalid 100 "bad-blk-length"
      else if match vtx with tx :: _ => negb (IsCoinBase tx) | [] => true end then invalid 100 "bad-cb-missing"
      else if existsb IsCoinBase (tail vtx) then invalid 100 "bad-cb-multiple"
      else
        and_then (check_transactions vtx) (
        let nSigOps := fold_left (fun n tx => u32 (n + GetLegacySigOpCount tx)) vtx 0 in
        if nSigOps >? MAX_BLOCK_SIGOPS then reject_corrupt 100 "bad-blk-sigops" else pass)
  end)).

(** ** Checkpoints::GetLastCheckpoint *)

(** [mapCheckpoints] in increasing height; the loop runs over it reversed. *)
Fixpoint last_checkpoint_loop (l : list (Z * list Z)) (mapBlockIndex : gmap (list Z) nat) : option nat :=
  match l with
  | [] => None
  | (_, hash) :: l' =>
      match mapBlockIndex !! hash with
      | Some p => Some p
      | None => last_checkpoint_loop l' mapBlockIndex
      end
  end.
Definition GetLastCheckpoint (mapCheckpoints : list (Z * list Z)) (mapBlockIndex : gmap (list Z) nat) : option nat :=
  last_checkpoint_loop (rev mapCheckpoints) mapBlockIndex.

(** ** ContextualCheckBlockHeader and ContextualCheckBlock *)

Context (m : gmap nat BlockIndex.CBlockIndex).

(** [pcheckpoint] is the result of [GetLastCheckpoint], or [None] when checkpoints are disabled. *)
Definition ContextualCheckBlockHeader (block : BlockIndex.CBlockHeader) (pindexPrev pcheckpoint : option nat) : checker :=
  if bool_decide (GetHash block = hashGenesisBlock) then pass
  else match pindexPrev with
  | None => throws
  | Some p =>
      match m !! p, Pow.GetNextWorkRequired m (Some p) (Some block) params with
      | Some prev, Some required =>
          let nHeight := BlockIndex.nHeight prev + 1 in
          let below_checkpoint :=
            match pcheckpoint ≫= (m !!.) with Some cp => nHeight <? BlockIndex.nHeight cp | None => false end in
          if negb (BlockIndex.hdr_nBits block =? required) then invalid 100 "bad-diffbits"
          else match BlockIndex.GetMedianTimePast m p with
          | None => throws
          | Some past =>
              if BlockIndex.hdr_nTime block <=? past then invalid 0 "time-too-old"
              else if below_checkpoint then reject 100 0 ""
              else if BlockIndex.hdr_nVersion block <? 4 then reject 0 REJECT_OBSOLETE "bad-version"
              else pass
          end
      | _, _ => throws
      end
  end.

(** [ContextualCheckTransaction(tx, state, chainparams, nHeight, 100)] *)
Context (contextual : CTransaction -> Z -> checker).

Fixpoint check_final_txs (txs : list CTransaction) (nHeight cutoff : Z) (k : checker) : checker :=
  match txs with
  | [] => k
  | tx :: txs' =>
      and_then (contextual tx nHeight) (
      if negb (IsFinalTx tx nHeight cutoff) then invalid 10 "bad-txns-nonfinal"
      else check_final_txs txs' nHeight cutoff k)
  end.

(** A reward output: at or above [percentage] of the subsidy, to [script]. *)
Definition has_reward (outs : list CTxOut) (script : list Z) (subsidy percentage : Z) : bool :=
  existsb (fun o => bool_decide (scriptPubKey o = script) && (nValue o >=? Z.quot (subsidy * percentage) 100)) outs.

(** The reward scripts of the chain parameters at a height. *)
Context (GetPorRewardScriptAtHeight GetMasternodeRewardScriptAtHeight GetPlatformDevFundScriptAtHeight : Z -> list Z).

(** One of the three reward checks; [coinbase] is [block.vtx[0]]. *)
Definition check_reward (required : bool) (coinbase : option CTransaction) (script : list Z)
    (subsidy percentage : Z) (reason : string) (k : checker) : checker :=
  if required then
    match coinbase with
    | None => throws
    | Some tx => if negb (has_reward (vout tx) script subsidy percentage) then invalid 100 reason else k
    end
  else k.

Definition check_rewards (coinbase : option CTransaction) (nHeight : Z) : checker :=
  let subsidy := GetBlockSubsidy nHeight params in
  let started := nHeight >=? nSubsidySlowStartHeight params in
  check_reward (started && (nHeight <=? GetLastPorRewardBlockHeight params)) coinbase
    (GetPorRewardScriptAtHeight nHeight) subsidy (nPorRewardPercentage params) "cb-no-por-reward" (
  check_reward (started && (nHeight <=? GetLastMasternodeRewardBlockHeight params)) coinbase
    (GetMasternodeRewardScriptAtHeight nHeight) subsidy (nMasternodeRewardPercentage params) "cb-no-mn-reward" (
  check_reward (started && (nHeight <=? GetLastPlatformDevFundBlockHeight params)) coinbase
    (GetPlatformDevFundScriptAtHeight nHeight) subsidy (nPlatformDevFundPercentage params) "cb-no-dev-fund"
    pass)).

Definition check_coinbase_height (vtx : list CTransaction) (nHeight : Z) (k : checker) : checker :=
  if nHeight >? 0 then
    match i ← head vtx; head (vin i) with
    | None => throws
    | Some i =>
        let expect := Script.push_int64 nHeight in
        if (Script.size (scriptSig i) <? Script.size expect) ||
           negb (bool_decide (take (length expect) (scriptSig i) = expect))
        then invalid 100 "bad-cb-height" else k
    end
  else k.

(** [nLockTimeFlags] is 0, so the cutoff is the block's own time. *)
Definition ContextualCheckBlock (block : Merkle.CBlock) (pindexPrev : option nat) : checker :=
  match (match pindexPrev with None => Some 0 | Some p => b ← m !! p; Some (BlockIndex.nHeight b + 1) end) with
  | None => throws
  | Some nHeight =>
      check_final_txs (Merkle.vtx block) nHeight (BlockIndex.hdr_nTime (Merkle.header block)) (
      check_coinbase_height (Merkle.vtx block) nHeight (
      check_rewards (head (Merkle.vtx block)) nHeight))
  end.

End check_block.

(** ** What [CheckBlock] guarantees *)

Section check_block_facts.
Context (params : Params) (GetPoWHash : BlockIndex.CBlockHeader -> list Z) (tx_GetHash : CTransaction -> list Z).
Context (Hash : list Z -> list Z) (joinsplit_Verify : JSDescription -> list Z -> bool).

(** A block that may be connected, as far as its contents tell. *)
Record block_rules (block : Merkle.CBlock) (adjusted_time : Z) (pow merkle : bool) : Prop := {
  rule_block_version : MIN_BLOCK_VERSION <= BlockIndex.hdr_nVersion (Merkle.header block);
  rule_pow : pow = true ->
    Pow.CheckProofOfWork (GetPoWHash (Merkle.header block)) (BlockIndex.hdr_nBits (Merkle.header block)) params = true;
  rule_time : BlockIndex.hdr_nTime (Merkle.header block) <= adjusted_time + 7200;
  rule_merkle : merkle = true -> exists b', Merkle.BuildMerkleTree Hash tx_GetHash block =
    Some (b', BlockIndex.hdr_hashMerkleRoot (Merkle.header block), false);
  rule_block_size : exists sz, block_size block = Some sz /\ sz <= MAX_BLOCK_SIZE;
  rule_coinbase_first : exists cb txs, Merkle.vtx block = cb :: txs /\ IsCoinBase cb = true /\
    Forall (fun tx => IsCoinBase tx = false) txs;
  rule_txs : Forall (fun tx => (exists sz, GetSerializeSize tx = Some sz /\ tx_rules tx sz) /\
    Forall (fun j => joinsplit_Verify j (joinSplitPubKey tx) = true) (vJoinSplit tx)) (Merkle.vtx block);
  rule_sigops : fold_left (fun n tx => u32 (n + GetLegacySigOpCount tx)) (Merkle.vtx block) 0 <= MAX_BLOCK_SIGOPS
}.

Lemma if_corrupt_accepted (b : bool) level reason (k : checker) st st' :
  (if b then reject_corrupt level reason else k) st = Some (true, st') -> b = false /\ k st = Some (true, st').
Proof. by destruct b. Qed.

Lemma check_transactions_accepted txs : forall st st',
  check_transactions joinsplit_Verify txs st = Some (true, st') ->
  st' = st /\ Forall (fun tx => (exists sz, GetSerializeSize tx = Some sz /\ tx_rules tx sz) /\
    Forall (fun j => joinsplit_Verify j (joinSplitPubKey tx) = true) (vJoinSplit tx)) txs.
Proof.
  induction txs as [|tx txs IH]; intros st st' H; cbn [check_transactions] in H; [by injection H as <-|].
  apply and_then_accepted in H as (st1 & H1 & H2). apply CheckTransaction_accepted in H1 as (-> & Hr).
  destruct (IH _ _ H2) as [-> Hf]. split; [done|by constructor].
Qed.

Lemma CheckBlock_accepted block adjusted_time pow merkle st st' :
  CheckBlock params GetPoWHash tx_GetHash Hash joinsplit_Verify block adjusted_time pow merkle st = Some (true, st') ->
  st' = st /\ block_rules block adjusted_time pow merkle.
Proof.
  intros (st1 & Hh & H)%and_then_accepted. unfold CheckBlockHeader in Hh. accepted_ifs Hh. injection Hh as <-.
  assert (forall k, (if merkle then check_merkle_root tx_GetHash Hash block else fun k => k) k st = Some (true, st') ->
    (merkle = true -> exists b', Merkle.BuildMerkleTree Hash tx_GetHash block =
       Some (b', BlockIndex.hdr_hashMerkleRoot (Merkle.header block), false)) /\ k st = Some (true, st')) as Hm.
  { intros k Hk. destruct merkle; [|done]. unfold check_merkle_root in Hk.
    destruct (Merkle.BuildMerkleTree _ _ _) as [[[b' root] mut]|]; [|done].
    apply if_corrupt_accepted in Hk as [Er Hk]. apply if_corrupt_accepted in Hk as [-> Hk].
    apply bool_decide_eq_false in Er. apply dec_stable in Er. subst root. split; [|done]. by exists b'. }
  apply Hm in H as [Hmerkle H]. clear Hm. cbv zeta in H. apply if_accepted in H as [E2 H].
  apply orb_false_iff in E2 as [E2 _]. destruct (block_size block) as [sz|] eqn:Esz; [|done].
  apply if_accepted in H as [E3 H]. apply if_accepted in H as [E4 H]. apply if_accepted in H as [E5 H].
  apply and_then_accepted in H as (st2 & Ht & H). apply check_transactions_accepted in Ht as [-> Htx].
  apply if_corrupt_accepted in H as [E6 H]. injection H as <-. split; [done|]. split.
  - by rewrite Z.ltb_ge in E.
  - intros ->. cbn [andb] in E0. by apply negb_false_iff in E0.
  - rewrite Z.gtb_ltb, Z.ltb_ge in E1. done.
  - done.
  - exists sz. split; [done|]. by rewrite Z.gtb_ltb, Z.ltb_ge in E3.
  - destruct (Merkle.vtx block) as [|cb txs]; [done|]. apply negb_false_iff in E4. exists cb, txs. split; [done|].
    split; [done|]. cbn [tail] in E5. apply Forall_forall. intros tx Hin. apply not_true_iff_false. intros Hcb.
    apply not_true_iff_false in E5. apply E5, existsb_exists. exists tx. by rewrite <- list_elem_of_In.
  - done.
  - by rewrite Z.gtb_ltb, Z.ltb_ge in E6.
Qed.
End check_block_facts.

End BlockCheck.
