(* ===== verification/Connect.v ===== *)
(** * Connecting and disconnecting blocks (src/main.cpp, src/undo.h)

    [UpdateCoins] applies a transaction to the coins view and records undo data,
    [CheckTxInputs] and [ContextualCheckInputs] check its inputs, [ConnectBlock]
    runs a block, [ApplyTxInUndo] and [DisconnectBlock] take it back.  [None] is a
    failed assertion, an exception or an index out of range.  The script checker
    is a parameter that returns the text of the script error, if any; reading and
    writing undo data on disk are parameters; the optional address, spent,
    timestamp and transaction indexes, which do not touch the view, are off. *)

From stdpp Require Import base list list_numbers numbers option gmap strings.
From Stdlib Require Import ZArith Lia.
From S2P Require Import Prelude Bytes Params Chain ChainFacts Pow Serialize Amount Transaction Script.
From S2P Require Import Interpreter SigHash Merkle NoteTree Coins CoinsFacts TxCheck BlockCheck.
Import Serialize Transaction Amount Consensus Coins TxCheck.
#[local] Open Scope Z_scope.

Module Connect.

(** ** Undo data *)

Record CTxInUndo := { txout : CTxOut; un_fCoinBase : bool; un_nHeight : Z; un_nVersion : Z }.
Record CTxUndo := { vprevout : list CTxInUndo }.
Record CBlockUndo := { vtxundo : list CTxUndo; old_sprout_tree_root : list Z }.

(** [CTxInUndo(txoutIn)] with its default arguments *)
Definition CTxInUndo_of (o : CTxOut) : CTxInUndo :=
  {| txout := o; un_fCoinBase := false; un_nHeight := 0; un_nVersion := 0 |}.

(** The first lines of [ConnectBlock]: script checks are skipped for the
    ancestors of the last checkpoint. *)
Definition needs_expensive_checks (fCheckpointsEnabled : bool) (mapCheckpoints : list (Z * list Z))
    (mapBlockIndex : gmap (list Z) nat) (m : gmap nat BlockIndex.CBlockIndex) (pindex : nat) (nHeight : Z) : option bool :=
  if fCheckpointsEnabled then
    match BlockCheck.GetLastCheckpoint mapCheckpoints mapBlockIndex with
    | Some cp => a ← BlockIndex.GetAncestor m cp nHeight; Some (negb (bool_decide (a = Some pindex)))
    | None => Some true
    end
  else Some true.

Section connect.
Context {B : Type} `{CCoinsView B} (th : tree_hash) (tx_GetHash : CTransaction -> list Z).

(** ** UpdateCoins *)

(** The body of the loop over the inputs, on the coins of the modifier. *)
Definition spend_input (nPos : Z) (cs : CCoins) : option (CTxInUndo * CCoins) :=
  match vout cs !! Z.to_nat nPos with
  | None => None
  | Some o =>
      if CTxOut_IsNull o then None
      else
        let '(_, cs') := Spend cs nPos in
        Some (if bool_decide (vout cs' = [])
              then {| txout := o; un_fCoinBase := fCoinBase cs'; un_nHeight := u32 (nHeight cs');
                      un_nVersion := nVersion cs' |}
              else CTxInUndo_of o, cs')
  end.

Fixpoint spend_inputs (ins : list CTxIn) (c : CCoinsViewCache B) : option (list CTxInUndo * CCoinsViewCache B) :=
  match ins with
  | [] => Some ([], c)
  | i :: ins' =>
      r ← with_coins (out_hash (prevout i)) (spend_input (out_n (prevout i))) c;
      rs ← spend_inputs ins' (snd r);
      Some (fst r :: fst rs, snd rs)
  end.

Definition UpdateCoins (tx : CTransaction) (nHeight : Z) (c : CCoinsViewCache B)
  : option (CTxUndo * CCoinsViewCache B) :=
  r ← (if IsCoinBase tx then Some ([], c) else spend_inputs (vin tx) c);
  let c := SetNullifiers tx true (snd r) in
  c ← with_new_coins (tx_GetHash tx) (fun _ => FromTx tx nHeight) c;
  Some ({| vprevout := fst r |}, c).

(** ** GetP2SHSigOpCount *)

Fixpoint p2sh_sigops (ins : list CTxIn) (nSigOps : Z) (c : CCoinsViewCache B) : option (Z * CCoinsViewCache B) :=
  match ins with
  | [] => Some (nSigOps, c)
  | i :: ins' =>
      r ← GetOutputFor i c;
      let script := scriptPubKey (fst r) in
      p2sh_sigops ins'
        (if Script.IsPayToScriptHash script
         then u32 (nSigOps + Script.GetSigOpCount_p2sh script (scriptSig i)) else nSigOps) (snd r)
  end.
Definition GetP2SHSigOpCount (tx : CTransaction) (c : CCoinsViewCache B) : option (Z * CCoinsViewCache B) :=
  if IsCoinBase tx then Some (0, c) else p2sh_sigops (vin tx) 0 c.

(** ** Consensus::CheckTxInputs *)

Context (params : Params) (fCoinbaseEnforcedProtectionEnabled : bool).

(** A check that also threads the view. *)
Definition vchecker : Type :=
  CValidationState -> CCoinsViewCache B -> option (bool * CValidationState * CCoinsViewCache B).
Definition vreject (level code : Z) (reason : string) : vchecker :=
  fun st c => Some (false, DoS st level code reason false, c).

Definition premature (tx : CTransaction) (cs : CCoins) (nSpendHeight : Z) : option string :=
  if fCoinBase cs then
    if nSpendHeight - nHeight cs <? nCoinbaseMaturity params then Some "bad-txns-premature-spend-of-coinbase"%string
    else if fCoinbaseEnforcedProtectionEnabled && fCoinbaseMustBeProtected params && negb (is_nil (Transaction.vout tx))
    then Some "bad-txns-coinbase-spend-has-transparent-outputs"%string
    else None
  else None.

Fixpoint input_values (tx : CTransaction) (ins : list CTxIn) (nSpendHeight nValueIn : Z) (k : Z -> vchecker) : vchecker :=
  match ins with
  | [] => k nValueIn
  | i :: ins' => fun st c =>
      let '(r, c) := AccessCoins (out_hash (prevout i)) c in
      cs ← r;
      match premature tx cs nSpendHeight with
      | Some reason => vreject 0 REJECT_INVALID reason st c
      | None =>
          o ← vout cs !! Z.to_nat (out_n (prevout i));
          let nValueIn := s64 (nValueIn + nValue o) in
          if negb (MoneyRange (nValue o)) || negb (MoneyRange nValueIn)
          then vreject 100 REJECT_INVALID "bad-txns-inputvalues-outofrange" st c
          else input_values tx ins' nSpendHeight nValueIn k st c
      end
  end.

Definition CheckTxInputs (tx : CTransaction) (nSpendHeight : Z) : vchecker := fun st c =>
  let '(have, c) := HaveInputs tx c in
  if negb have then vreject 0 0 "" st c
  else
    match HaveShieldedRequirements th tx c with
    | None => None
    | Some (false, c) => vreject 0 0 "" st c
    | Some (true, c) =>
        input_values tx (vin tx) nSpendHeight 0 (fun nValueIn st c =>
          shielded ← GetShieldedValueIn tx;
          let nValueIn := s64 (nValueIn + shielded) in
          if negb (MoneyRange nValueIn) then vreject 100 REJECT_INVALID "bad-txns-inputvalues-outofrange" st c
          else
            out ← GetValueOut tx;
            if nValueIn <? out then vreject 100 REJECT_INVALID "bad-txns-in-belowout" st c
            else
              let nTxFee := s64 (nValueIn - out) in
              if nTxFee <? 0 then vreject 100 REJECT_INVALID "bad-txns-fee-negative" st c
              else if negb (MoneyRange (s64 (0 + nTxFee)))
              then vreject 100 REJECT_INVALID "bad-txns-fee-outofrange" st c
              else Some (true, st, c)) st c
    end.

(** ** ContextualCheckInputs *)

Definition MANDATORY_SCRIPT_VERIFY_FLAGS : Z := Interpreter.SCRIPT_VERIFY_P2SH.
Definition STANDARD_SCRIPT_VERIFY_FLAGS : Z :=
  Z.lor (Z.lor (Z.lor (Z.lor (Z.lor (Z.lor (Z.lor MANDATORY_SCRIPT_VERIFY_FLAGS
    Interpreter.SCRIPT_VERIFY_STRICTENC) Interpreter.SCRIPT_VERIFY_MINIMALDATA) Interpreter.SCRIPT_VERIFY_NULLDUMMY)
    Interpreter.SCRIPT_VERIFY_DISCOURAGE_UPGRADABLE_NOPS) Interpreter.SCRIPT_VERIFY_CLEANSTACK)
    Interpreter.SCRIPT_VERIFY_CHECKLOCKTIMEVERIFY) Interpreter.SCRIPT_VERIFY_LOW_S.
Definition STANDARD_NOT_MANDATORY_VERIFY_FLAGS : Z :=
  Z.land STANDARD_SCRIPT_VERIFY_FLAGS (Z.lnot MANDATORY_SCRIPT_VERIFY_FLAGS).

(** [CScriptCheck]: the output being spent, the transaction, the input index and
    the flags; the error text of a failed check. *)
Context (script_check : CTxOut -> CTransaction -> nat -> Z -> option string).

(** The loop over the inputs, from index [i].  With [threads] ([pvChecks]) the
    checks are returned to be run later. *)
Fixpoint script_checks (n i : nat) (threads : bool) (tx : CTransaction) (flags : Z)
    (st : CValidationState) (c : CCoinsViewCache B)
  : option (bool * CValidationState * list (option string) * CCoinsViewCache B) :=
  match n with
  | O => Some (true, st, [], c)
  | S n' =>
      input ← vin tx !! i;
      let '(r, c) := AccessCoins (out_hash (prevout input)) c in
      cs ← r;
      o ← vout cs !! Z.to_nat (out_n (prevout input));
      let check := script_check o tx i flags in
      if threads then
        '(b, st, checks, c) ← script_checks n' (S i) threads tx flags st c;
        Some (b, st, check :: checks, c)
      else
        match check with
        | None => script_checks n' (S i) threads tx flags st c
        | Some err =>
            if negb (Z.land flags STANDARD_NOT_MANDATORY_VERIFY_FLAGS =? 0) &&
               match script_check o tx i (Z.land flags (Z.lnot STANDARD_NOT_MANDATORY_VERIFY_FLAGS)) with
               | None => true | Some _ => false end
            then Some (false, Invalid st REJECT_NONSTANDARD
                         ("non-mandatory-script-verify-flag (" +:+ err +:+ ")"), [], c)
            else Some (false, DoS st 100 REJECT_INVALID
                         ("mandatory-script-verify-flag-failed (" +:+ err +:+ ")") false, [], c)
        end
  end.

Definition ContextualCheckInputs (tx : CTransaction) (fScriptChecks threads : bool) (flags nSpendHeight : Z)
    (st : CValidationState) (c : CCoinsViewCache B)
  : option (bool * CValidationState * list (option string) * CCoinsViewCache B) :=
  if IsCoinBase tx then Some (true, st, [], c)
  else
    '(ok, st, c) ← CheckTxInputs tx nSpendHeight st c;
    if negb ok then Some (false, st, [], c)
    else if fScriptChecks then script_checks (length (vin tx)) 0 threads tx flags st c
    else Some (true, st, [], c).

(** ** ConnectBlock *)

Definition block_script_flags : Z :=
  Z.lor Interpreter.SCRIPT_VERIFY_P2SH Interpreter.SCRIPT_VERIFY_CHECKLOCKTIMEVERIFY.

(** The local variables of the loop over the transactions. *)
Record connect_state := {
  cs_view : CCoinsViewCache B;
  nFees : Z;
  nSigOps : Z;
  undos : list CTxUndo;
  sprout_tree : Tree;
  sapling_tree : Tree;
  pending : list (option string)   (** the script checks handed to the queue *)
}.

Fixpoint append_all (ty : ShieldedType) (t : Tree) (cms : list (list Z)) : option Tree :=
  match cms with
  | [] => Some t
  | cm :: cms' => t' ← tree_append th ty t cm; append_all ty t' cms'
  end.

Context (mapBlockIndex : gmap (list Z) nat) (m : gmap nat BlockIndex.CBlockIndex).

Definition GetSpendHeight (c : CCoinsViewCache B) : option (Z * CCoinsViewCache B) :=
  let '(best, c) := cache_GetBestBlock c in
  p ← mapBlockIndex !! best;
  pindexPrev ← m !! p;
  Some (BlockIndex.nHeight pindexPrev + 1, c).

(** The checks of one transaction that is not a coinbase: [inl] is a return of
    [false] with the state, [inr] the new view, fees, sigops and script checks. *)
Definition connect_inputs (tx : CTransaction) (fExpensiveChecks threads : bool) (nFees nSigOps : Z)
    (st : CValidationState) (c : CCoinsViewCache B)
  : option (CValidationState + CCoinsViewCache B * Z * Z * CValidationState * list (option string)) :=
  let '(have, c) := HaveInputs tx c in
  if negb have then Some (inl (DoS st 100 REJECT_INVALID "bad-txns-inputs-missingorspent" false))
  else
    '(met, c) ← HaveShieldedRequirements th tx c;
    if negb met then Some (inl (DoS st 100 REJECT_INVALID "bad-txns-joinsplit-requirements-not-met" false))
    else
      '(p2sh, c) ← GetP2SHSigOpCount tx c;
      let nSigOps := u32 (nSigOps + p2sh) in
      if nSigOps >? MAX_BLOCK_SIGOPS then Some (inl (DoS st 100 REJECT_INVALID "bad-blk-sigops" false))
      else
        '(value_in, c) ← GetValueIn tx c;
        value_out ← GetValueOut tx;
        let nFees := s64 (nFees + s64 (value_in - value_out)) in
        '(nSpendHeight, c) ← GetSpendHeight c;
        '(ok, st, checks, c) ← ContextualCheckInputs tx fExpensiveChecks threads block_script_flags nSpendHeight st c;
        if (ok : bool) then Some (inr (c, nFees, nSigOps, st, checks)) else Some (inl st).

(** One iteration, for [block.vtx[i]] at height [nHeight]. *)
Definition connect_tx (first : bool) (tx : CTransaction) (nHeight : Z) (fExpensiveChecks threads : bool)
    (st : CValidationState) (s : connect_state) : option (CValidationState + CValidationState * connect_state) :=
  let nSigOps := u32 (nSigOps s + GetLegacySigOpCount tx) in
  if nSigOps >? MAX_BLOCK_SIGOPS then Some (inl (DoS st 100 REJECT_INVALID "bad-blk-sigops" false))
  else
    r ← (if IsCoinBase tx then Some (inr (cs_view s, nFees s, nSigOps, st, []))
         else connect_inputs tx fExpensiveChecks threads (nFees s) nSigOps st (cs_view s));
    match r with
    | inl st => Some (inl st)
    | inr (c, fees, nSigOps, st, checks) =>
        '(undo, c) ← UpdateCoins tx nHeight c;
        sprout ← append_all SPROUT (sprout_tree s) (concat (map commitments (vJoinSplit tx)));
        sapling ← append_all SAPLING (sapling_tree s) (map od_cm (vShieldedOutput tx));
        Some (inr (st, {| cs_view := c; nFees := fees; nSigOps := nSigOps;
                          undos := if (first : bool) then undos s else undos s ++ [undo];
                          sprout_tree := sprout; sapling_tree := sapling; pending := pending s ++ checks |}))
    end.

Fixpoint connect_loop (first : bool) (txs : list CTransaction) (nHeight : Z) (fExpensiveChecks threads : bool)
    (st : CValidationState) (s : connect_state) : option (CValidationState + CValidationState * connect_state) :=
  match txs with
  | [] => Some (inr (st, s))
  | tx :: txs' =>
      r ← connect_tx first tx nHeight fExpensiveChecks threads st s;
      match r with
      | inl st => Some (inl st)
      | inr (st, s) => connect_loop false txs' nHeight fExpensiveChecks threads st s
      end
  end.

(** The check of [bad-txns-BIP30]. *)
Fixpoint check_bip30 (txs : list CTransaction) (c : CCoinsViewCache B) : bool * CCoinsViewCache B :=
  match txs with
  | [] => (true, c)
  | tx :: txs' =>
      let '(r, c) := AccessCoins (tx_GetHash tx) c in
      match r with
      | Some cs => if negb (IsPruned cs) then (false, c) else check_bip30 txs' c
      | None => check_bip30 txs' c
      end
  end.

(** A reward output of exactly the share of the subsidy plus the share of the fees. *)
Definition pays_exactly (outs : list CTxOut) (script : list Z) (subsidy fees percentage txPercentage : Z) : bool :=
  existsb (fun o => bool_decide (scriptPubKey o = script) &&
    (nValue o =? s64 (Z.quot (s64 (subsidy * percentage)) 100 + Z.quot (s64 (fees * txPercentage)) 100))) outs.

Context (GetPorRewardScriptAtHeight GetMasternodeRewardScriptAtHeight GetPlatformDevFundScriptAtHeight : Z -> list Z).

(** The three reward checks; the reason of the first that fails. *)
Definition reward_failure (coinbase : CTransaction) (nHeight subsidy fees : Z) : option string :=
  let started := nHeight >=? nSubsidySlowStartHeight params in
  let outs := Transaction.vout coinbase in
  if started && (nHeight <=? GetLastPorRewardBlockHeight params) &&
     negb (pays_exactly outs (GetPorRewardScriptAtHeight nHeight) subsidy fees
             (nPorRewardPercentage params) (nPorRewardTxPercentage params))
  then Some "cb-no-por-fee-reward"%string
  else if started && (nHeight <=? GetLastMasternodeRewardBlockHeight params) &&
     negb (pays_exactly outs (GetMasternodeRewardScriptAtHeight nHeight) subsidy fees
             (nMasternodeRewardPercentage params) (nMasternodeRewardTxPercentage params))
  then Some "cb-no-mn-fee-reward"%string
  else if started && (nHeight <=? GetLastPlatformDevFundBlockHeight params) &&
     negb (pays_exactly outs (GetPlatformDevFundScriptAtHeight nHeight) subsidy fees
             (nPlatformDevFundPercentage params) (nPlatformDevFundTxPercentage params))
  then Some "cb-no-dev-fee-fund"%string
  else None.

(** From "view.PushAnchor(sprout_tree)" to [control.Wait()]: the anchors, the Sapling
    root, the coinbase value and rewards, and the queued script checks; [inl] is a
    return of [false]. *)
Definition finish_block (block : Merkle.CBlock) (nHeight : Z) (old_root : list Z) (st : CValidationState)
    (s : connect_state) : option (CValidationState + CValidationState * CBlockUndo * CCoinsViewCache B) :=
  let c := PushAnchor th SPROUT (sprout_tree s) (cs_view s) in
  let c := PushAnchor th SAPLING (sapling_tree s) c in
  let undo := {| vtxundo := undos s; old_sprout_tree_root := old_root |} in
  sapling_active ← NetworkUpgradeActive params nHeight UPGRADE_SAPLING;
  if sapling_active &&
     negb (bool_decide (BlockIndex.hdr_hashFinalSaplingRoot (Merkle.header block) = tree_root th SAPLING (sapling_tree s)))
  then Some (inl (DoS st 100 REJECT_INVALID "bad-sapling-root-in-block" false))
  else
    let subsidy := GetBlockSubsidy nHeight params in
    let blockReward := s64 (nFees s + subsidy) in
    coinbase ← head (Merkle.vtx block);
    value_out ← GetValueOut coinbase;
    if value_out >? blockReward then Some (inl (DoS st 100 REJECT_INVALID "bad-cb-amount" false))
    else match reward_failure coinbase nHeight subsidy (nFees s) with
    | Some reason => Some (inl (DoS st 100 REJECT_INVALID reason false))
    | None =>
        if forallb (fun r => match r with None => true | Some _ => false end) (pending s)
        then Some (inr (st, undo, c))
        else Some (inl (DoS st 100 0 "" false))
    end.

(** [CheckBlock] with the verifier, the clock and the flags of the call. *)
Context (check_block : Merkle.CBlock -> checker).
Context (hashGenesisBlock : list Z) (block_GetHash : BlockIndex.CBlockHeader -> list Z) (fZIP209Enabled : bool).

(** A shielded pool whose known balance is negative. *)
Definition negative_pool (v : option Z) : bool := match v with Some n => n <? 0 | None => false end.

(** Assignments to the fields of [*pindex]. *)
Definition set_sprout_roots (b : BlockIndex.CBlockIndex) (anchor final : list Z) : BlockIndex.CBlockIndex := {|
  BlockIndex.phashBlock := BlockIndex.phashBlock b; BlockIndex.pprev := BlockIndex.pprev b;
  BlockIndex.pskip := BlockIndex.pskip b; BlockIndex.nHeight := BlockIndex.nHeight b;
  BlockIndex.nFile := BlockIndex.nFile b; BlockIndex.nDataPos := BlockIndex.nDataPos b;
  BlockIndex.nUndoPos := BlockIndex.nUndoPos b; BlockIndex.nChainWork := BlockIndex.nChainWork b;
  BlockIndex.nTx := BlockIndex.nTx b; BlockIndex.nChainTx := BlockIndex.nChainTx b;
  BlockIndex.nStatus := BlockIndex.nStatus b; BlockIndex.nCachedBranchId := BlockIndex.nCachedBranchId b;
  BlockIndex.hashSproutAnchor := anchor; BlockIndex.hashFinalSproutRoot := final;
  BlockIndex.nSproutValue := BlockIndex.nSproutValue b; BlockIndex.nChainSproutValue := BlockIndex.nChainSproutValue b;
  BlockIndex.nSaplingValue := BlockIndex.nSaplingValue b; BlockIndex.nChainSaplingValue := BlockIndex.nChainSaplingValue b;
  BlockIndex.nVersion := BlockIndex.nVersion b; BlockIndex.hashMerkleRoot := BlockIndex.hashMerkleRoot b;
  BlockIndex.hashFinalSaplingRoot := BlockIndex.hashFinalSaplingRoot b; BlockIndex.nTime := BlockIndex.nTime b;
  BlockIndex.nBits := BlockIndex.nBits b; BlockIndex.nNonce := BlockIndex.nNonce b;
  BlockIndex.nSequenceId := BlockIndex.nSequenceId b |}.
Definition set_undo_status (b : BlockIndex.CBlockIndex) (undoPos status : Z) (branch : option Z) : BlockIndex.CBlockIndex := {|
  BlockIndex.phashBlock := BlockIndex.phashBlock b; BlockIndex.pprev := BlockIndex.pprev b;
  BlockIndex.pskip := BlockIndex.pskip b; BlockIndex.nHeight := BlockIndex.nHeight b;
  BlockIndex.nFile := BlockIndex.nFile b; BlockIndex.nDataPos := BlockIndex.nDataPos b;
  BlockIndex.nUndoPos := undoPos; BlockIndex.nChainWork := BlockIndex.nChainWork b;
  BlockIndex.nTx := BlockIndex.nTx b; BlockIndex.nChainTx := BlockIndex.nChainTx b;
  BlockIndex.nStatus := status; BlockIndex.nCachedBranchId := branch;
  BlockIndex.hashSproutAnchor := BlockIndex.hashSproutAnchor b; BlockIndex.hashFinalSproutRoot := BlockIndex.hashFinalSproutRoot b;
  BlockIndex.nSproutValue := BlockIndex.nSproutValue b; BlockIndex.nChainSproutValue := BlockIndex.nChainSproutValue b;
  BlockIndex.nSaplingValue := BlockIndex.nSaplingValue b; BlockIndex.nChainSaplingValue := BlockIndex.nChainSaplingValue b;
  BlockIndex.nVersion := BlockIndex.nVersion b; BlockIndex.hashMerkleRoot := BlockIndex.hashMerkleRoot b;
  BlockIndex.hashFinalSaplingRoot := BlockIndex.hashFinalSaplingRoot b; BlockIndex.nTime := BlockIndex.nTime b;
  BlockIndex.nBits := BlockIndex.nBits b; BlockIndex.nNonce := BlockIndex.nNonce b;
  BlockIndex.nSequenceId := BlockIndex.nSequenceId b |}.

(** [FindUndoPos] and [UndoWriteToDisk] for the file [nFile] and the parent's hash: the
    error reported, or the position written. *)
Context (write_undo : Z -> CBlockUndo -> list Z -> string + Z).

(** "Write undo information to disk": position and status of the undo data, cached
    branch id, validity. *)
Definition record_valid (pindex : BlockIndex.CBlockIndex) (pprev : option BlockIndex.CBlockIndex) (undo : CBlockUndo)
    (st : CValidationState) : option (CValidationState + BlockIndex.CBlockIndex) :=
  let no_pos := BlockIndex.CDiskBlockPos_IsNull (BlockIndex.GetUndoPos pindex) in
  valid ← BlockIndex.IsValid pindex BlockIndex.BLOCK_VALID_SCRIPTS;
  if no_pos || negb valid then
    written ← (if no_pos then
                 p ← pprev; h ← BlockIndex.GetBlockHash p;
                 match write_undo (BlockIndex.nFile pindex) undo h with
                 | inl message => Some (inl (Error st message))
                 | inr nPos => Some (inr (nPos, Z.lor (BlockIndex.nStatus pindex) BlockIndex.BLOCK_HAVE_UNDO))
                 end
               else Some (inr (BlockIndex.nUndoPos pindex, BlockIndex.nStatus pindex)));
    match written with
    | inl st => Some (inl st)
    | inr (undoPos, status) =>
        '(status, branch) ←
          (if IsActivationHeightForAnyUpgrade (BlockIndex.nHeight pindex) params then
             branch ← CurrentEpochBranchId (BlockIndex.nHeight pindex) params;
             Some (Z.lor status BlockIndex.BLOCK_ACTIVATES_UPGRADE, Some branch)
           else match pprev with
                | Some p => Some (status, BlockIndex.nCachedBranchId p)
                | None => Some (status, BlockIndex.nCachedBranchId pindex)
                end);
        '(status, _) ← BlockIndex.RaiseValidity status BlockIndex.BLOCK_VALID_SCRIPTS;
        Some (inr (set_undo_status pindex undoPos status branch))
    end
  else Some (inr pindex).

(** [pindex] and [pprev] are the block's index entry and its parent.  [inl] is a
    return of [false] with the state and the index entry; the caller then drops
    the view.  Without [fJustCheck] the block becomes the view's best block and
    its index entry records the roots, the undo data and its validity. *)
Definition ConnectBlock (block : Merkle.CBlock) (pindex : BlockIndex.CBlockIndex)
    (pprev : option BlockIndex.CBlockIndex) (fExpensiveChecks threads fJustCheck : bool)
    (st : CValidationState) (c : CCoinsViewCache B)
  : option (CValidationState * BlockIndex.CBlockIndex +
            CValidationState * CBlockUndo * BlockIndex.CBlockIndex * CCoinsViewCache B) :=
  let no_undo := {| vtxundo := []; old_sprout_tree_root := null256 |} in
  '(ok, st) ← check_block block st;
  if negb ok then Some (inl (st, pindex))
  else
    hashPrevBlock ← match pprev with None => Some null256 | Some p => BlockIndex.GetBlockHash p end;
    let '(best, c) := cache_GetBestBlock c in
    if negb (bool_decide (hashPrevBlock = best)) then None
    else if bool_decide (block_GetHash (Merkle.header block) = hashGenesisBlock) then
      if fJustCheck then Some (inr (st, no_undo, pindex, c))
      else
        h ← BlockIndex.GetBlockHash pindex;
        let root := tree_root th SPROUT NoteTree.empty_tree in
        Some (inr (st, no_undo, set_sprout_roots pindex root root, SetBestBlock h c))
    else if fZIP209Enabled && negative_pool (BlockIndex.nChainSproutValue pindex)
    then Some (inl (DoS st 100 REJECT_INVALID "turnstile-violation-sprout-shielded-pool" false, pindex))
    else if fZIP209Enabled && negative_pool (BlockIndex.nChainSaplingValue pindex)
    then Some (inl (DoS st 100 REJECT_INVALID "turnstile-violation-sapling-shielded-pool" false, pindex))
    else
      let '(new, c) := check_bip30 (Merkle.vtx block) c in
      if negb new then Some (inl (DoS st 100 REJECT_INVALID "bad-txns-BIP30" false, pindex))
      else
        let '(old_sprout_root, c) := cache_GetBestAnchor SPROUT c in
        let pindex := if fJustCheck then pindex
                      else set_sprout_roots pindex old_sprout_root (BlockIndex.hashFinalSproutRoot pindex) in
        let '(sprout, c) := cache_GetAnchorAt SPROUT old_sprout_root c in
        sprout ← sprout;
        if negb (bool_decide (tree_root th SPROUT sprout = old_sprout_root)) then None
        else
          let '(old_sapling_root, c) := cache_GetBestAnchor SAPLING c in
          let '(sapling, c) := cache_GetAnchorAt SAPLING old_sapling_root c in
          sapling ← sapling;
          r ← connect_loop true (Merkle.vtx block) (BlockIndex.nHeight pindex) fExpensiveChecks threads st
                {| cs_view := c; nFees := 0; nSigOps := 0; undos := []; sprout_tree := sprout;
                   sapling_tree := sapling; pending := [] |};
          match r with
          | inl st => Some (inl (st, pindex))
          | inr (st, s) =>
              let pindex := if fJustCheck then pindex
                            else set_sprout_roots pindex old_sprout_root (tree_root th SPROUT (sprout_tree s)) in
              r ← finish_block block (BlockIndex.nHeight pindex) old_sprout_root st s;
              match r with
              | inl st => Some (inl (st, pindex))
              | inr (st, undo, c) =>
                  if fJustCheck then Some (inr (st, undo, pindex, c))
                  else
                    r ← record_valid pindex pprev undo st;
                    match r with
                    | inl st => Some (inl (st, pindex))
                    | inr pindex =>
                        h ← BlockIndex.GetBlockHash pindex;
                        Some (inr (st, undo, pindex, SetBestBlock h c))
                    end
              end
          end.

(** ** ApplyTxInUndo *)

(** On the coins of the modifier: [fClean] and the new coins. *)
Definition apply_undo (undo : CTxInUndo) (n : Z) (cs : CCoins) : option (bool * CCoins) :=
  let '(fClean, cs) :=
    if negb (un_nHeight undo =? 0)
    then (IsPruned cs, {| fCoinBase := un_fCoinBase undo; vout := []; nHeight := s32 (un_nHeight undo);
                          nVersion := un_nVersion undo |})
    else (negb (IsPruned cs), cs) in
  let fClean := fClean && negb (IsAvailable cs n) in
  let v := if Z.of_nat (length (vout cs)) <? u32 (n + 1)
           then vout cs ++ replicate (Z.to_nat (u32 (n + 1)) - length (vout cs)) CTxOut_null else vout cs in
  if Z.of_nat (length v) <=? n then None
  else Some (fClean, set_vout cs (<[Z.to_nat n := txout undo]> v)).

Definition ApplyTxInUndo (undo : CTxInUndo) (out : COutPoint) (c : CCoinsViewCache B)
  : option (bool * CCoinsViewCache B) :=
  with_coins (out_hash out) (apply_undo undo (out_n out)) c.

(** ** DisconnectBlock *)

Inductive DisconnectResult := DISCONNECT_OK | DISCONNECT_UNCLEAN | DISCONNECT_FAILED.

(** The block in which [outs] is in scope: compare with the block's outputs and clear. *)
Definition remove_outputs (tx : CTransaction) (height : Z) (cs : CCoins) : option (bool * CCoins) :=
  let outs := ClearUnspendable cs in
  let outsBlock := FromTx tx height in
  let outs := if nVersion outsBlock <? 0
              then {| fCoinBase := fCoinBase outs; vout := vout outs; nHeight := nHeight outs;
                      nVersion := nVersion outsBlock |} else outs in
  Some (coins_eqb outs outsBlock, Clear outs).

(** [for (unsigned int j = tx.vin.size(); j-- > 0;)] over the inputs with their
    undo data, last input first *)
Fixpoint restore_inputs (l : list (CTxIn * CTxInUndo)) (fClean : bool) (c : CCoinsViewCache B)
  : option (bool * CCoinsViewCache B) :=
  match l with
  | [] => Some (fClean, c)
  | (i, undo) :: l' =>
      '(ok, c) ← ApplyTxInUndo undo (prevout i) c;
      restore_inputs l' (if (ok : bool) then fClean else false) c
  end.

(** One iteration of the loop; [undo] is [None] for the coinbase ([i == 0]).  The
    first component is [false] when the block and its undo data disagree. *)
Definition disconnect_tx (tx : CTransaction) (undo : option CTxUndo) (height : Z) (fClean : bool)
    (c : CCoinsViewCache B) : option (bool * bool * CCoinsViewCache B) :=
  '(same, c) ← with_coins (tx_GetHash tx) (remove_outputs tx height) c;
  let fClean := fClean && same in
  let c := SetNullifiers tx false c in
  match undo with
  | None => Some (true, fClean, c)
  | Some txundo =>
      if negb (Nat.eqb (length (vprevout txundo)) (length (vin tx))) then Some (false, fClean, c)
      else
        '(fClean, c) ← restore_inputs (rev (zip (vin tx) (vprevout txundo))) fClean c;
        Some (true, fClean, c)
  end.

(** The loop over [(block.vtx[i], vtxundo[i-1])], last transaction first. *)
Fixpoint disconnect_loop (l : list (CTransaction * option CTxUndo)) (height : Z) (fClean : bool)
    (c : CCoinsViewCache B) : option (bool * bool * CCoinsViewCache B) :=
  match l with
  | [] => Some (true, fClean, c)
  | (tx, undo) :: l' =>
      '(ok, fClean, c) ← disconnect_tx tx undo height fClean c;
      if (ok : bool) then disconnect_loop l' height fClean c else Some (false, fClean, c)
  end.

(** [UndoReadFromDisk] at the position recorded in the index, with the parent's hash. *)
Context (UndoReadFromDisk : BlockIndex.CDiskBlockPos -> list Z -> option CBlockUndo).

Definition DisconnectBlock (block : Merkle.CBlock) (pindex pprev : BlockIndex.CBlockIndex)
    (c : CCoinsViewCache B) : option (DisconnectResult * CCoinsViewCache B) :=
  h ← BlockIndex.GetBlockHash pindex;
  let '(best, c) := cache_GetBestBlock c in
  if negb (bool_decide (h = best)) then None
  else if BlockIndex.CDiskBlockPos_IsNull (BlockIndex.GetUndoPos pindex) then Some (DISCONNECT_FAILED, c)
  else
    prev_hash ← BlockIndex.GetBlockHash pprev;
    match UndoReadFromDisk (BlockIndex.GetUndoPos pindex) prev_hash with
    | None => Some (DISCONNECT_FAILED, c)
    | Some blockUndo =>
        if negb (Nat.eqb (length (vtxundo blockUndo) + 1) (length (Merkle.vtx block)))
        then Some (DISCONNECT_FAILED, c)
        else
          '(ok, fClean, c) ← disconnect_loop
            (rev (zip (Merkle.vtx block) (None :: map Some (vtxundo blockUndo))))
            (BlockIndex.nHeight pindex) true c;
          if negb ok then Some (DISCONNECT_FAILED, c)
          else
            c ← PopAnchor (old_sprout_tree_root blockUndo) SPROUT c;
            sapling_active ← NetworkUpgradeActive params (BlockIndex.nHeight pprev) UPGRADE_SAPLING;
            c ← PopAnchor (if (sapling_active : bool) then BlockIndex.hashFinalSaplingRoot pprev
                           else empty_root th SAPLING) SAPLING c;
            let c := SetBestBlock prev_hash c in
            Some (if (fClean : bool) then DISCONNECT_OK else DISCONNECT_UNCLEAN, c)
    end.

End connect.

End Connect.
