(* ===== verification/ConnectFacts.v ===== *)
(** * Disconnecting a block undoes connecting it

    The proofs about the Connect component: what each step does to the abstract
    set of unspent outputs, and that the undo data takes it back. *)

From stdpp Require Import base list list_numbers numbers option gmap strings.
From Stdlib Require Import ZArith Lia.
From S2P Require Import Prelude Bytes Params Chain ChainFacts Pow Serialize Amount Transaction Script.
From S2P Require Import Interpreter SigHash Merkle NoteTree Coins CoinsFacts TxCheck BlockCheck Connect.
Import Serialize Transaction Amount Consensus Coins CoinsFacts TxCheck Connect.
#[local] Open Scope Z_scope.

Module ConnectFacts.

(** ** Coins and their undo data *)

(** Coins as the chain holds them: no trailing spent output, spent outputs exactly
    null, a positive [int] height. *)
Definition coins_wf (cs : CCoins) : Prop :=
  clean cs /\ (forall o, o ∈ vout cs -> CTxOut_IsNull o = true -> o = CTxOut_null) /\
  0 < nHeight cs < 2 ^ 31 /\ Z.of_nat (length (vout cs)) < 2 ^ 32.

Lemma nulls_replicate l :
  (forall o, o ∈ l -> CTxOut_IsNull o = true -> o = CTxOut_null) -> forallb CTxOut_IsNull l = true ->
  l = replicate (length l) CTxOut_null.
Proof.
  intros Hex Hall. symmetry. apply replicate_as_Forall. split; [done|]. apply Forall_forall. intros o Ho.
  symmetry. apply Hex; [done|]. rewrite forallb_forall in Hall. apply Hall. by apply list_elem_of_In.
Qed.

(** Spending output [N] and resizing back gives the vector with [N] nulled. *)
Lemma resize_back cs N o : coins_wf cs -> vout cs !! N = Some o -> CTxOut_IsNull o = false ->
  let w := vout (Cleanup (set_vout cs (<[N := CTxOut_null]> (vout cs)))) in
  (w !! N = None \/ w !! N = Some CTxOut_null) /\
  (if decide (length w < N + 1)%nat then w ++ replicate (N + 1 - length w) CTxOut_null else w) =
  <[N := CTxOut_null]> (vout cs).
Proof.
  intros (Hcl & Hex & _ & _) Ho Hnn w.
  destruct (Cleanup_vout (set_vout cs (<[N := CTxOut_null]> (vout cs)))) as (n & E & Hn).
  fold w in E. cbn [set_vout vout] in E. apply lookup_lt_Some in Ho as HN.
  assert (length w + length n = length (vout cs))%nat as Hlen.
  { rewrite <- length_app, <- E. apply length_insert. }
  assert (n = [] \/ (N + 1 = length (vout cs))%nat) as Hcase.
  { destruct n as [|x n]; [by left|right]. destruct (decide (N + 1 = length (vout cs))%nat) as [|Hne]; [done|exfalso].
    unfold clean in Hcl.
    assert (list.last (<[N:=CTxOut_null]> (vout cs)) = list.last (vout cs)) as Hl.
    { rewrite !last_lookup, length_insert. apply list_lookup_insert_ne. lia. }
    rewrite E, last_app_cons in Hl.
    destruct (list.last (x :: n)) as [z|] eqn:Ez; [|by apply last_None in Ez].
    rewrite <- Hl in Hcl. rewrite forallb_forall in Hn.
    assert (CTxOut_IsNull z = true) by (apply Hn, list_elem_of_In, last_Some_elem_of; done). congruence. }
  assert (<[N:=CTxOut_null]> (vout cs) !! N = Some CTxOut_null) as HNn by (apply list_lookup_insert_eq; lia).
  assert (forall x, x ∈ n -> CTxOut_IsNull x = true -> x = CTxOut_null) as Hin.
  { intros x Hx Hxn. assert (x ∈ <[N:=CTxOut_null]> (vout cs)) as Hx' by (rewrite E; set_solver).
    apply list_elem_of_lookup in Hx' as [j Hj]. destruct (decide (j = N)) as [->|Hj'].
    - congruence.
    - rewrite list_lookup_insert_ne in Hj by done. apply Hex; [|done]. by eapply list_elem_of_lookup_2. }
  split.
  - destruct (w !! N) eqn:Ew; [right|by left]. rewrite E, lookup_app, Ew in HNn. congruence.
  - destruct Hcase as [->|HN1].
    + rewrite app_nil_r in E. rewrite <- E, length_insert. rewrite decide_False; [done|]. lia.
    + rewrite E. case_decide as Hd.
      * f_equal. rewrite (nulls_replicate n) by (try done; by apply Hin). f_equal. lia.
      * destruct n; [by rewrite app_nil_r|]. cbn [length] in Hlen. lia.
Qed.


Lemma spend_wf cs n undo cs' : coins_wf cs -> spend_input n cs = Some (undo, cs') -> coins_wf cs'.
Proof.
  intros (Hcl & Hex & Hh & Hlen) Hs. unfold spend_input, Spend in Hs.
  destruct (vout cs !! Z.to_nat n) as [o|] eqn:Eo; [|done]. destruct (CTxOut_IsNull o); [done|].
  injection Hs as _ <-. destruct (Cleanup_vout (set_vout cs (<[Z.to_nat n:=CTxOut_null]> (vout cs)))) as (m & E & _).
  cbn [set_vout vout] in E. split; [apply Cleanup_clean|]. split; [|split; [done|]].
  - intros x Hx Hn. assert (x ∈ <[Z.to_nat n:=CTxOut_null]> (vout cs)) as Hx' by (rewrite E; set_solver).
    apply list_elem_of_lookup in Hx' as [j Hj]. destruct (decide (j = Z.to_nat n)) as [->|Hj'].
    + rewrite list_lookup_insert_eq in Hj by (by eapply lookup_lt_Some). congruence.
    + rewrite list_lookup_insert_ne in Hj by done. apply Hex; [|done]. by eapply list_elem_of_lookup_2.
  - apply (f_equal length) in E. rewrite length_insert, length_app in E. lia.
Qed.

(** The undo data of a spent output puts it back. *)
Lemma undo_spend cs n undo cs' cs1 : coins_wf cs -> 0 <= n -> spend_input n cs = Some (undo, cs') ->
  clean cs1 -> norm cs1 = norm cs' ->
  exists cs2, apply_undo undo n cs1 = Some (true, cs2) /\ norm (Cleanup cs2) = Some cs.
Proof.
  intros Hwf Hn Hs Hcl1 Hnorm. pose proof Hwf as (Hcl & Hex & Hh & Hlen). unfold spend_input, Spend in Hs.
  set (N := Z.to_nat n) in *. destruct (vout cs !! N) as [o|] eqn:Eo; [|done].
  destruct (CTxOut_IsNull o) eqn:Enn; [done|]. injection Hs as Eu <-.
  destruct (resize_back cs N o Hwf Eo Enn) as [Havail Hback].
  set (cs' := Cleanup _) in *. assert (clean cs') as Hcl' by apply Cleanup_clean.
  assert (fCoinBase cs' = fCoinBase cs /\ nHeight cs' = nHeight cs /\ nVersion cs' = nVersion cs) as (F1 & F2 & F3) by done.
  change (reverse (pop_nulls (reverse (<[N:=CTxOut_null]> (vout cs))))) with (vout cs') in Eu.
  clearbody cs'. apply lookup_lt_Some in Eo as HN.
  assert (u32 (n + 1) = Z.of_nat (N + 1)) as Hu by (rewrite u32_id; [lia|unfold is_u32; lia]).
  assert (norm (Cleanup cs) = Some cs) as Hres.
  { rewrite clean_Cleanup by done. apply norm_Some. split; [done|]. apply not_true_iff_false.
    unfold IsPruned. rewrite forallb_forall. intros Hall. specialize (Hall o).
    rewrite Hall in Enn; [done|]. apply list_elem_of_In. by eapply list_elem_of_lookup_2. }
  assert (forall cs0, vout cs0 = vout cs' -> fCoinBase cs0 = fCoinBase cs -> nHeight cs0 = nHeight cs ->
            nVersion cs0 = nVersion cs ->
    let v := if Z.of_nat (length (vout cs0)) <? u32 (n + 1)
             then vout cs0 ++ replicate (Z.to_nat (u32 (n + 1)) - length (vout cs0)) CTxOut_null else vout cs0 in
    (Z.of_nat (length v) <=? n) = false /\ set_vout cs0 (<[N := o]> v) = cs) as Hput.
  { intros cs0 Ev Ec Eh En. rewrite Ev, Hu, Nat2Z.id.
    replace (if Z.of_nat (length (vout cs')) <? Z.of_nat (N + 1) then _ else _) with (<[N := CTxOut_null]> (vout cs)).
    - cbv zeta. rewrite length_insert. split; [apply Z.leb_gt; lia|]. unfold set_vout. rewrite list_insert_insert_eq.
      rewrite list_insert_id by done. rewrite Ec, Eh, En. by destruct cs.
    - rewrite <- Hback. destruct (decide _); [rewrite (proj2 (Z.ltb_lt _ _))|rewrite (proj2 (Z.ltb_ge _ _))]; [done|lia|done|lia]. }
  assert (forall v0, v0 = vout cs' -> match v0 !! N with Some o' => negb (CTxOut_IsNull o') | None => false end = false) as Hav.
  { intros v0 ->. by destruct Havail as [->| ->]. }
  unfold apply_undo. fold N. destruct (decide (vout cs' = [])) as [Hnil|Hne].
  - rewrite bool_decide_true in Eu by done. rewrite <- Eu. cbn [un_nHeight un_fCoinBase un_nVersion txout].
    rewrite u32_id by (unfold is_u32; lia). rewrite (proj2 (Z.eqb_neq (nHeight cs) 0)) by lia. cbn [negb].
    assert (IsPruned cs1 = true) as ->.
    { apply norm_None. rewrite Hnorm. apply norm_None. rewrite clean_pruned by done. by apply bool_decide_true. }
    match goal with |- context [IsAvailable ?c n] => change (IsAvailable c n) with false end. cbn [negb andb].
    match goal with |- context [set_vout ?c _] => destruct (Hput c) as [-> ->] end;
      [by rewrite Hnil|done| |done|by eexists].
    cbn [nHeight]. apply s32_id. unfold is_s32. lia.
  - rewrite bool_decide_false in Eu by done. rewrite <- Eu. cbn [un_nHeight txout CTxInUndo_of]. cbn [Z.eqb negb].
    assert (norm cs' = Some cs') as Hn'.
    { apply norm_Some. split; [done|]. rewrite clean_pruned by done. by apply bool_decide_false. }
    rewrite Hn' in Hnorm. apply norm_Some in Hnorm as [<- Hp]. rewrite Hp. unfold IsAvailable. fold N.
    rewrite (Hav (vout cs')) by done. cbn [negb andb].
    destruct (Hput cs') as [-> ->]; [done..|]. by eexists.
Qed.


(** ** Transactions *)

Definition utxo_wf (u : utxo) : Prop := forall k cs, u_coins u k = Some cs -> coins_wf cs.

#[export] Instance utxo_wf_proper : Proper ((≡) ==> iff) utxo_wf.
Proof. intros a b (E & _). unfold utxo_wf. split; intros Hw k cs Hk; apply (Hw k cs); [by rewrite E|by rewrite <- E]. Qed.

Definition mark_unspendable (o : CTxOut) : CTxOut :=
  if Script.IsUnspendable (scriptPubKey o) then CTxOut_null else o.

Lemma ClearUnspendable_eq cs : ClearUnspendable cs = Cleanup (set_vout cs (map mark_unspendable (vout cs))).
Proof. done. Qed.

Lemma mark_idem o : mark_unspendable (mark_unspendable o) = mark_unspendable o.
Proof. unfold mark_unspendable. destruct (Script.IsUnspendable (scriptPubKey o)) eqn:E; [done|by rewrite E]. Qed.

Lemma FromTx_clean tx h : clean (FromTx tx h).
Proof. apply Cleanup_clean. Qed.

Lemma ClearUnspendable_FromTx tx h : ClearUnspendable (FromTx tx h) = FromTx tx h.
Proof.
  rewrite ClearUnspendable_eq. replace (set_vout _ _) with (FromTx tx h); [apply clean_Cleanup, FromTx_clean|].
  unfold FromTx. rewrite ClearUnspendable_eq. set (X := {| fCoinBase := _ |}).
  destruct (Cleanup_vout (set_vout X (map mark_unspendable (vout X)))) as (n & E & _). cbn [set_vout vout] in E.
  unfold set_vout at 2. unfold Cleanup, set_vout in E |- *. cbn [vout fCoinBase nHeight nVersion] in *. f_equal.
  set (w := reverse _) in *. symmetry. transitivity (take (length w) (map mark_unspendable (map mark_unspendable (vout X)))).
  - rewrite E, map_app, take_app_le by (by rewrite length_map). rewrite take_ge by (rewrite length_map; lia). done.
  - rewrite map_map. rewrite (map_ext _ _ mark_idem), E. by rewrite take_app_length.
Qed.

Lemma IsPruned_ClearUnspendable cs : IsPruned cs = true -> IsPruned (ClearUnspendable cs) = true.
Proof.
  rewrite ClearUnspendable_eq, IsPruned_Cleanup. unfold IsPruned. cbn [set_vout vout]. rewrite !forallb_forall.
  intros Hall o (o' & <- & Ho')%in_map_iff. unfold mark_unspendable. case_match; [done|]. by apply Hall.
Qed.

Lemma remove_outputs_ok tx h cs : norm cs = norm (FromTx tx h) ->
  exists cs', remove_outputs tx h cs = Some (true, cs') /\ norm (Cleanup cs') = None.
Proof.
  intros Hn. unfold remove_outputs. exists CCoins_empty. split; [|done]. f_equal. apply pair_eq. split; [|done]. unfold coins_eqb.
  destruct (IsPruned (FromTx tx h)) eqn:Hp.
  - rewrite (proj2 (norm_None _) Hp) in Hn. apply norm_None in Hn. apply IsPruned_ClearUnspendable in Hn.
    destruct (nVersion (FromTx tx h) <? 0);
      [match goal with |- context [IsPruned {| fCoinBase := ?a; vout := ?v; nHeight := ?b; nVersion := ?d |}] =>
         change (IsPruned {| fCoinBase := a; vout := v; nHeight := b; nVersion := d |})
           with (IsPruned (ClearUnspendable cs)) end|]; by rewrite Hn.
  - unfold norm at 2 in Hn. rewrite Hp in Hn. apply norm_Some in Hn as [<- _].
    rewrite ClearUnspendable_FromTx, andb_false_r.
    apply bool_decide_eq_true. destruct (nVersion (FromTx tx h) <? 0); [|done]. by destruct (FromTx tx h).
Qed.

Lemma spend_available n cs undo cs' : spend_input n cs = Some (undo, cs') -> IsPruned cs = false /\ clean cs'.
Proof.
  unfold spend_input, Spend. destruct (vout cs !! Z.to_nat n) as [o|] eqn:Eo; [|done].
  destruct (CTxOut_IsNull o) eqn:En; [done|]. intros [= _ <-]. split; [|apply Cleanup_clean].
  apply not_true_iff_false. unfold IsPruned. rewrite forallb_forall. intros Hall. rewrite Hall in En; [done|].
  apply list_elem_of_In. by eapply list_elem_of_lookup_2.
Qed.

(** The effect of spending inputs, with the undo data it leaves. *)
Inductive spent : utxo -> list CTxIn -> list CTxInUndo -> utxo -> Prop :=
| spent_nil u u' : u ≡ u' -> spent u [] [] u'
| spent_cons u i ins cs undo undos cs' u' :
    u_coins u (out_hash (prevout i)) = Some cs ->
    spend_input (out_n (prevout i)) cs = Some (undo, cs') ->
    spent (upd_coins (out_hash (prevout i)) (norm cs') u) ins undos u' ->
    spent u (i :: ins) (undo :: undos) u'.

Lemma spent_wf u ins undos u' : spent u ins undos u' -> utxo_wf u -> utxo_wf u'.
Proof.
  induction 1 as [u u' E|u i ins cs undo undos cs' u' Hcs Hs _ IH]; intros Hwf; [by rewrite <- E|].
  apply IH. intros k cs0. cbn. case_decide; [|apply Hwf]. intros [-> _]%norm_Some.
  eapply spend_wf; [|exact Hs]. by eapply Hwf.
Qed.

(** Spending changes nothing but the coins, and never creates any. *)
Lemma spent_frame u ins undos u' : spent u ins undos u' ->
  (forall k, u_coins u k = None -> u_coins u' k = None) /\
  (forall ty k, u_null u' ty k = u_null u ty k) /\ (forall ty k, u_anchor u' ty k = u_anchor u ty k) /\
  u_block u' = u_block u /\ (forall ty, u_best u' ty = u_best u ty).
Proof.
  induction 1 as [u u' (E1 & E2 & E3 & E4 & E5)|u i ins cs undo undos cs' u' Hcs Hs _ (I1 & I2 & I3 & I4 & I5)].
  - split; [intros k; by rewrite E1|]. done.
  - split; [|done]. intros k Hk. apply I1. cbn. case_decide; [congruence|done].
Qed.

Lemma spent_length u ins undos u' : spent u ins undos u' -> length undos = length ins.
Proof. by induction 1; cbn; [|f_equal]. Qed.

(** The effect of one transaction at height [h]. *)
Definition tx_applied (tx_GetHash : CTransaction -> list Z) (h : Z) (u : utxo) (tx : CTransaction)
    (undos : list CTxInUndo) (u' : utxo) : Prop :=
  exists u1, (if IsCoinBase tx then u ≡ u1 /\ undos = [] else spent u (vin tx) undos u1) /\
    u' ≡ upd_coins (tx_GetHash tx) (norm (FromTx tx h)) (set_nulls (tx_nullifiers tx) true u1).

(** ** Anchors and the best block are independent of the coins *)

(** The coins and nullifiers of [u] under the anchors and best block of [v]. *)
Definition with_chain (v u : utxo) : utxo := {|
  u_coins := u_coins u; u_null := u_null u; u_anchor := u_anchor v; u_block := u_block v; u_best := u_best v |}.

#[export] Instance with_chain_proper : Proper ((≡) ==> (≡) ==> (≡)) with_chain.
Proof. intros a b (A1 & A2 & A3 & A4 & A5) c d (C1 & C2 & C3 & C4 & C5). by split; [|split; [|split; [|split]]]. Qed.

Lemma with_chain_self u : with_chain u u ≡ u.
Proof. by split; [|split; [|split; [|split]]]. Qed.

Lemma set_nulls_chain v nfs b : forall u, set_nulls nfs b (with_chain v u) = with_chain v (set_nulls nfs b u).
Proof.
  unfold set_nulls. induction nfs as [|x nfs IH]; intros u; [done|]. cbn [fold_left]. rewrite <- IH. done.
Qed.

Lemma spent_chain v u ins undos u' : spent u ins undos u' -> spent (with_chain v u) ins undos (with_chain v u').
Proof.
  induction 1 as [u u' E|u i ins cs undo undos cs' u' Hcs Hs _ IH]; [constructor; by rewrite E|].
  econstructor; [exact Hcs|exact Hs|exact IH].
Qed.

Lemma tx_applied_chain tx_GetHash v h u tx undo u' :
  tx_applied tx_GetHash h u tx undo u' -> tx_applied tx_GetHash h (with_chain v u) tx undo (with_chain v u').
Proof.
  intros (u1 & Hsp & E). exists (with_chain v u1). split.
  - destruct (IsCoinBase tx); [destruct Hsp as [E1 ->]; by rewrite E1|]. by apply spent_chain.
  - rewrite set_nulls_chain. rewrite E. done.
Qed.

Lemma with_chain_push ty r v u : with_chain (push_anchor ty r v) u ≡ push_anchor ty r (with_chain v u).
Proof. unfold push_anchor. cbn [with_chain u_best]. by case_bool_decide. Qed.

Lemma with_chain_block h v u : with_chain (upd_block h v) u ≡ upd_block h (with_chain v u).
Proof. done. Qed.

Lemma u_best_push ty ty' r u :
  u_best (push_anchor ty r u) ty' = if decide (ty' = ty) then r else u_best u ty'.
Proof. unfold push_anchor. case_bool_decide; cbn; case_decide; congruence. Qed.

Lemma u_anchor_push ty r u : u_best u ty <> r -> u_anchor (push_anchor ty r u) ty r = true.
Proof. intros Hne. unfold push_anchor. rewrite bool_decide_false by done. cbn. by rewrite decide_True. Qed.

Lemma u_anchor_push_ne ty ty' r k u : ty' <> ty -> u_anchor (push_anchor ty r u) ty' k = u_anchor u ty' k.
Proof. intros Hne. unfold push_anchor. case_bool_decide; [done|]. cbn. rewrite decide_False; [done|naive_solver]. Qed.

Lemma pop_push ty r u : u_best u ty = r \/ u_anchor u ty r = false ->
  pop_anchor ty (u_best u ty) (push_anchor ty r u) ≡ u.
Proof.
  intros Hor. unfold pop_anchor. rewrite u_best_push, decide_True by done. unfold push_anchor.
  destruct (decide (u_best u ty = r)) as [<-|Hne].
  - by rewrite !bool_decide_true.
  - rewrite !bool_decide_false by done. destruct Hor as [?|Hf]; [done|].
    utxo_split; intros; try done; repeat case_decide; try done; destruct_and?; by subst.
Qed.

Lemma pop_push_comm r x u : pop_anchor SPROUT x (push_anchor SAPLING r u) ≡ push_anchor SAPLING r (pop_anchor SPROUT x u).
Proof.
  unfold pop_anchor. rewrite u_best_push, decide_False by done. unfold push_anchor.
  repeat (case_bool_decide; cbn in *); simplify_eq; utxo_split; intros; repeat case_decide; destruct_and?; simplify_eq; done.
Qed.

Lemma pop_block ty x h u : pop_anchor ty x (upd_block h u) ≡ upd_block h (pop_anchor ty x u).
Proof. unfold pop_anchor. cbn. by case_bool_decide. Qed.

Lemma block_back u h : upd_block (u_block u) (upd_block h u) ≡ u.
Proof. by split; [|split; [|split; [|split]]]. Qed.

Section cache.
Context {B : Type} `{CCoinsView B} `{!ViewModel B} (th : tree_hash) `{!CCoinsViewOk (V := B) th}.
Context (tx_GetHash : CTransaction -> list Z).
Implicit Types (c : CCoinsViewCache B).

Lemma with_coins_inv {A} c k (f : CCoins -> option (A * CCoins)) a c' u0 u :
  tracks th c u0 u -> with_coins k f c = Some (a, c') ->
  exists cs cs', clean cs /\ norm cs = u_coins u k /\ f cs = Some (a, cs') /\
    tracks th c' u0 (upd_coins k (norm (Cleanup cs')) u).
Proof.
  intros (Hc & E0 & E) Hw.
  destruct (ModifyCoins_ok th c k Hc) as (c1 & cs & fl & Hm & [(Hc1 & E1 & _) E01] & Hcl & Hn & Hd & Hfr).
  unfold with_coins in Hw. rewrite Hm in Hw. monad_in Hw.
  destruct (f cs) as [[a' cs']|] eqn:Hf.
  2: { exfalso. unfold modifier_run in Hw. cbn [cacheCoins set_hasModifier set_cacheCoins] in Hw.
       rewrite lookup_insert_eq in Hw. cbn [mbind option_bind coins] in Hw. by rewrite Hf in Hw. }
  destruct (modifier_scope th c1 k f fl cs a' cs' Hc1 Hf Hd Hfr) as (c3 & c4 & Hrun & Hdes & Hwf & Hb & Hv).
  rewrite Hrun in Hw. monad_in Hw. rewrite Hdes in Hw. monad_in Hw.
  injection Hw as -> ->. exists cs, cs'. split; [done|]. split; [rewrite Hn; apply E|]. split; [done|].
  split; [done|]. split; [by rewrite Hb, E01|]. by rewrite Hv, E1, E.
Qed.

Lemma spend_inputs_spent ins : forall c undos c' u0 u,
  tracks th c u0 u -> spend_inputs ins c = Some (undos, c') ->
  exists u', tracks th c' u0 u' /\ spent u ins undos u'.
Proof.
  induction ins as [|i ins IH]; intros c undos c' u0 u Ht Hs; cbn [spend_inputs] in Hs.
  { injection Hs as <- <-. exists u. split; [done|]. by constructor. }
  destruct (with_coins _ _ c) as [[undo c1]|] eqn:Ew; [|done]. monad_in Hs.
  destruct (spend_inputs ins c1) as [[undos1 c2]|] eqn:Es; [|done]. monad_in Hs.
  injection Hs as <- <-. destruct (with_coins_inv _ _ _ _ _ _ _ Ht Ew) as (cs & cs' & Hcl & Hn & Hsp & Ht1).
  destruct (spend_available _ _ _ _ Hsp) as [Hp Hcl']. rewrite clean_Cleanup in Ht1 by done.
  destruct (IH _ _ _ _ _ Ht1 Es) as (u' & Ht2 & Hspent). exists u'. split; [done|].
  econstructor; [|exact Hsp|exact Hspent]. rewrite <- Hn. by apply norm_Some.
Qed.

Lemma restore_inputs_app l1 : forall l2 b c,
  restore_inputs (l1 ++ l2) b c = r ← restore_inputs l1 b c; restore_inputs l2 (fst r) (snd r).
Proof.
  induction l1 as [|[i u] l1 IH]; intros l2 b c; cbn [restore_inputs app]; [done|].
  destruct (ApplyTxInUndo u (prevout i) c) as [[ok c1]|]; [|done]. cbn [mbind option_bind]. apply IH.
Qed.

Lemma restore_inputs_ok u ins undos u' : spent u ins undos u' -> utxo_wf u ->
  Forall (fun i => 0 <= out_n (prevout i)) ins -> forall c u0, tracks th c u0 u' ->
  exists c', restore_inputs (rev (zip ins undos)) true c = Some (true, c') /\ tracks th c' u0 u.
Proof.
  induction 1 as [u u' E|u i ins cs undo undos cs' u' Hcs Hs Hspent IH]; intros Hwf Hpos c u0 Ht.
  { exists c. split; [done|]. destruct Ht as (? & ? & Hv). split; [done|]. split; [done|]. by rewrite Hv. }
  apply Forall_cons in Hpos as [Hi Hpos]. destruct (spend_available _ _ _ _ Hs) as [_ Hcl'].
  destruct (IH) with (c := c) (u0 := u0) as (c1 & Hr & Ht1); [|done|done|].
  { intros k cs0. cbn. case_decide; [|apply Hwf]. intros [-> _]%norm_Some. eapply spend_wf; [|exact Hs]. by eapply Hwf. }
  cbn [zip_with rev]. rewrite restore_inputs_app, Hr. cbn [mbind option_bind fst snd restore_inputs].
  unfold ApplyTxInUndo.
  destruct (with_coins_ok th c1 (out_hash (prevout i)) (apply_undo undo (out_n (prevout i))) true (Some cs) u0 _ Ht1)
    as (c' & -> & Ht').
  { intros cs1 Hcl1 Hn1. cbn in Hn1. rewrite decide_True in Hn1 by done. eapply undo_spend; try done. by eapply Hwf. }
  cbn [mbind option_bind]. exists c'. split; [done|]. destruct Ht' as (? & ? & Hv). split; [done|]. split; [done|].
  rewrite Hv. utxo_split; intros; try done. case_decide; [by subst|done].
Qed.

Lemma UpdateCoins_applied c tx h undo c' u0 u :
  tracks th c u0 u -> u_coins u0 (tx_GetHash tx) = None ->
  UpdateCoins tx_GetHash tx h c = Some (undo, c') ->
  exists u', tracks th c' u0 u' /\ tx_applied tx_GetHash h u tx (vprevout undo) u'.
Proof.
  intros Ht Hnew Hu. unfold UpdateCoins in Hu.
  destruct (if IsCoinBase tx then Some ([], c) else spend_inputs (vin tx) c) as [[undos c1]|] eqn:Es; [|done].
  monad_in Hu.
  assert (exists u1, tracks th c1 u0 u1 /\ if IsCoinBase tx then u ≡ u1 /\ undos = [] else spent u (vin tx) undos u1)
    as (u1 & Ht1 & Hsp).
  { destruct (IsCoinBase tx); [injection Es as <- <-; by exists u|]. by eapply spend_inputs_spent. }
  destruct (with_new_coins_ok th _ (tx_GetHash tx) (fun _ => FromTx tx h) _ _ (SetNullifiers_ok th _ tx true _ _ Ht1) Hnew)
    as (c2 & Hw & Ht2).
  rewrite Hw in Hu. monad_in Hu. injection Hu as <- <-. rewrite clean_Cleanup in Ht2 by apply FromTx_clean.
  eexists. split; [exact Ht2|]. by exists u1.
Qed.

Lemma set_nulls_lookup nfs b : forall u ty k,
  u_null (set_nulls nfs b u) ty k = if decide ((ty, k) ∈ nfs) then b else u_null u ty k.
Proof.
  unfold set_nulls. induction nfs as [|[ty0 k0] nfs IH]; intros u ty k; cbn [fold_left fst snd].
  - rewrite decide_False; [done|]. apply not_elem_of_nil.
  - rewrite IH. cbn [upd_null u_null]. repeat case_decide; set_solver.
Qed.

Lemma set_nulls_frame nfs b : forall u,
  (forall k, u_coins (set_nulls nfs b u) k = u_coins u k) /\
  (forall ty k, u_anchor (set_nulls nfs b u) ty k = u_anchor u ty k) /\
  u_block (set_nulls nfs b u) = u_block u /\ (forall ty, u_best (set_nulls nfs b u) ty = u_best u ty).
Proof. unfold set_nulls. induction nfs as [|x nfs IH]; intros u; [done|]. exact (IH (upd_null (fst x) (snd x) b u)). Qed.

(** Taking back the outputs and nullifiers of a transaction. *)
Lemma untouch k r nfs u : u_coins u k = None -> (forall ty nf, (ty, nf) ∈ nfs -> u_null u ty nf = false) ->
  set_nulls nfs false (upd_coins k None (upd_coins k r (set_nulls nfs true u))) ≡ u.
Proof.
  intros Hk Hn. destruct (set_nulls_frame nfs true u) as (F1 & F2 & F3 & F4).
  destruct (set_nulls_frame nfs false (upd_coins k None (upd_coins k r (set_nulls nfs true u)))) as (G1 & G2 & G3 & G4).
  split; [|split; [|split; [|split]]].
  - intros j. rewrite G1. cbn. case_decide; [by subst|done].
  - intros ty nf. rewrite set_nulls_lookup. case_decide as Hin; [by rewrite Hn|].
    cbn [upd_coins u_null]. rewrite set_nulls_lookup. by rewrite decide_False.
  - intros ty j. rewrite G2. cbn. apply F2.
  - rewrite G3. cbn. apply F3.
  - intros ty. rewrite G4. cbn. apply F4.
Qed.

Lemma disconnect_tx_ok c tx h undos first u0 u u' :
  tx_applied tx_GetHash h u tx undos u' -> utxo_wf u -> u_coins u (tx_GetHash tx) = None ->
  (forall ty nf, (ty, nf) ∈ tx_nullifiers tx -> u_null u ty nf = false) ->
  Forall (fun i => 0 <= out_n (prevout i)) (vin tx) -> IsCoinBase tx = first -> tracks th c u0 u' ->
  exists c', disconnect_tx tx_GetHash tx (if first then None else Some {| vprevout := undos |}) h true c =
      Some (true, true, c') /\ tracks th c' u0 u.
Proof.
  intros (u1 & Hsp & E') Hwf Hnew Hnf Hpos Hfirst Ht. unfold disconnect_tx.
  assert (u_coins u1 (tx_GetHash tx) = None /\ forall ty nf, (ty, nf) ∈ tx_nullifiers tx -> u_null u1 ty nf = false)
    as [Hnew1 Hnf1].
  { destruct (IsCoinBase tx).
    - destruct Hsp as [(E1 & E2 & _) _]. split; [by rewrite <- E1|]. intros. rewrite <- E2. by apply Hnf.
    - destruct (spent_frame _ _ _ _ Hsp) as (S1 & S2 & _). split; [by apply S1|]. intros. rewrite S2. by apply Hnf. }
  destruct (with_coins_ok th c (tx_GetHash tx) (remove_outputs tx h) true None u0 u' Ht) as (c1 & -> & Ht1).
  { intros cs _ Hn. apply remove_outputs_ok. rewrite Hn. destruct E' as (E' & _). rewrite E'. cbn. by rewrite decide_True. }
  monad. cbn [andb]. pose proof (SetNullifiers_ok th c1 tx false _ _ Ht1) as Ht2.
  assert (tracks th (SetNullifiers tx false c1) u0 u1) as Ht3.
  { destruct Ht2 as (? & ? & Hv). split; [done|]. split; [done|]. rewrite Hv, E'. by apply untouch. }
  destruct (IsCoinBase tx); subst first.
  - destruct Hsp as [E _]. exists (SetNullifiers tx false c1). split; [done|].
    destruct Ht3 as (? & ? & Hv). split; [done|]. split; [done|]. by rewrite Hv, E.
  - cbn [vprevout]. rewrite (spent_length _ _ _ _ Hsp), Nat.eqb_refl. cbn [negb].
    destruct (restore_inputs_ok _ _ _ _ Hsp Hwf Hpos _ _ Ht3) as (c' & -> & Ht'). monad. by exists c'.
Qed.

(** *** Checks only read the view *)

Lemma AccessCoins_ok c k r c' u0 u : tracks th c u0 u -> AccessCoins k c = (r, c') ->
  tracks th c' u0 u /\ (r ≫= norm) = u_coins u k.
Proof.
  intros Ht Ha. destruct (cache_GetCoins_ok th c k r c' (proj1 Ht) Ha) as (Hr & Ho & _).
  split; [by eapply tracks_reads|]. rewrite Ho. apply Ht.
Qed.

Lemma any_nullifier_ok ty nfs : forall c b c' u0 u, tracks th c u0 u -> any_nullifier ty nfs c = (b, c') ->
  tracks th c' u0 u /\ (b = false -> forall nf, nf ∈ nfs -> u_null u ty nf = false).
Proof.
  induction nfs as [|nf nfs IH]; intros c b c' u0 u Ht Ha; cbn [any_nullifier] in Ha.
  { injection Ha as <- <-. split; [done|]. by intros _ nf ?%not_elem_of_nil. }
  destruct (cache_GetNullifier nf ty c) as [b1 c1] eqn:Eg.
  destruct (cache_GetNullifier_ok th c ty nf b1 c1 (proj1 Ht) Eg) as (Hr & Hb).
  pose proof (tracks_reads th _ _ _ _ Ht Hr) as Ht1. destruct Ht as (_ & _ & (_ & E & _)). rewrite E in Hb.
  destruct b1; [injection Ha as <- <-; by split|]. destruct (IH _ _ _ _ _ Ht1 Ha) as [Ht' Hf]. split; [done|].
  intros Hbf x [->|Hx]%elem_of_cons; [done|by apply Hf].
Qed.

Lemma cache_GetAnchorAt_tracks c ty k r c' u0 u : tracks th c u0 u -> cache_GetAnchorAt ty k c = (r, c') ->
  tracks th c' u0 u /\ (forall t, r = Some t -> tree_root th ty t = k) /\ bool_decide (is_Some r) = u_anchor u ty k.
Proof.
  intros Ht Ha. destruct (cache_GetAnchorAt_ok th c ty k r c' (proj1 Ht) Ha) as (Hr & Ho & Hroot).
  split; [by eapply tracks_reads|]. split; [intros t Er; by apply Hroot|]. rewrite Ho. apply Ht.
Qed.

Lemma joinsplit_requirements_ok js : forall im c b c' u0 u, tracks th c u0 u ->
  joinsplit_requirements th js im c = Some (b, c') ->
  tracks th c' u0 u /\ (b = true -> forall nf, nf ∈ concat (map nullifiers js) -> u_null u SPROUT nf = false).
Proof.
  induction js as [|j js IH]; intros im c b c' u0 u Ht Hj; cbn [joinsplit_requirements] in Hj.
  { injection Hj as <- <-. split; [done|]. by intros _ nf ?%not_elem_of_nil. }
  destruct (any_nullifier SPROUT (nullifiers j) c) as [sp c1] eqn:En.
  destruct (any_nullifier_ok _ _ _ _ _ _ _ Ht En) as [Ht1 Hnf]. destruct sp; [injection Hj as <- <-; by split|].
  assert (exists r c2, (match im !! anchor j with Some t => (Some t, c1) | None => cache_GetAnchorAt SPROUT (anchor j) c1 end)
            = (r, c2) /\ tracks th c2 u0 u) as (r & c2 & Er & Ht2).
  { destruct (im !! anchor j); [by eexists _, _|]. destruct (cache_GetAnchorAt _ _ c1) as [r c2] eqn:Ea.
    exists r, c2. split; [done|]. by eapply cache_GetAnchorAt_tracks. }
  rewrite Er in Hj. destruct r as [t|]; [|injection Hj as <- <-; by split].
  destruct (append_commitments th t (commitments j)) as [t'|]; [|done]. monad_in Hj.
  destruct (IH _ _ _ _ _ _ Ht2 Hj) as [Ht' Hf]. split; [done|]. intros Hb nf. cbn [map concat].
  intros [Hin|Hin]%elem_of_app; [by apply Hnf|by apply Hf].
Qed.

Lemma spend_requirements_ok ss : forall c b c' u0 u, tracks th c u0 u ->
  spend_requirements ss c = (b, c') ->
  tracks th c' u0 u /\ (b = true -> forall nf, nf ∈ map sd_nullifier ss -> u_null u SAPLING nf = false).
Proof.
  induction ss as [|s ss IH]; intros c b c' u0 u Ht Hs; cbn [spend_requirements] in Hs.
  { injection Hs as <- <-. split; [done|]. by intros _ nf ?%not_elem_of_nil. }
  destruct (cache_GetNullifier (sd_nullifier s) SAPLING c) as [b1 c1] eqn:Eg.
  destruct (cache_GetNullifier_ok th c SAPLING _ b1 c1 (proj1 Ht) Eg) as (Hr & Hb).
  pose proof (tracks_reads th _ _ _ _ Ht Hr) as Ht1. destruct Ht as (_ & _ & (_ & E & _)). rewrite E in Hb.
  destruct b1; [injection Hs as <- <-; by split|].
  destruct (cache_GetAnchorAt SAPLING (sd_anchor s) c1) as [r c2] eqn:Ea.
  destruct (cache_GetAnchorAt_tracks _ _ _ _ _ _ _ Ht1 Ea) as (Ht2 & _).
  destruct r; [|injection Hs as <- <-; by split]. destruct (IH _ _ _ _ _ Ht2 Hs) as [Ht' Hf]. split; [done|].
  intros Hbt nf. cbn [map]. intros [->|Hx]%elem_of_cons; [done|by apply Hf].
Qed.

Lemma HaveShieldedRequirements_ok c tx b c' u0 u : tracks th c u0 u ->
  HaveShieldedRequirements th tx c = Some (b, c') ->
  tracks th c' u0 u /\ (b = true -> forall ty nf, (ty, nf) ∈ tx_nullifiers tx -> u_null u ty nf = false).
Proof.
  intros Ht Hs. unfold HaveShieldedRequirements in Hs.
  destruct (joinsplit_requirements th (vJoinSplit tx) ∅ c) as [[b1 c1]|] eqn:Ej; [|done].
  destruct (joinsplit_requirements_ok _ _ _ _ _ _ _ Ht Ej) as [Ht1 Hj].
  destruct b1; [|injection Hs as <- <-; by split]. injection Hs as Hs.
  destruct (spend_requirements_ok _ _ _ _ _ _ Ht1 Hs) as [Ht' Hsp]. split; [done|]. intros Hb ty nf.
  unfold tx_nullifiers. intros [Hin|Hin]%elem_of_app; apply list_elem_of_fmap in Hin as (x & [= -> ->] & Hx);
    [by apply Hj|by apply Hsp].
Qed.


(** *** The values of the inputs *)

(** [o] is the unspent output that input [i] refers to. *)
Definition unspent (u : utxo) (i : CTxIn) (o : CTxOut) : Prop :=
  exists cs, u_coins u (out_hash (prevout i)) = Some cs /\
    vout cs !! Z.to_nat (out_n (prevout i)) = Some o /\ CTxOut_IsNull o = false.

Lemma unspent_fun u i o o' : unspent u i o -> unspent u i o' -> o = o'.
Proof. intros (cs & E & Eo & _) (cs' & E' & Eo' & _). congruence. Qed.

Lemma Forall2_unspent_fun u ins outs outs' :
  Forall2 (unspent u) ins outs -> Forall2 (unspent u) ins outs' -> outs = outs'.
Proof.
  intros H1. revert outs'. induction H1 as [|i o ins outs Hi _ IH]; intros outs' H2; inversion H2; subst; [done|].
  f_equal; [by eapply unspent_fun|by apply IH].
Qed.

Lemma access_unspent c i cs c' o u0 u : tracks th c u0 u -> AccessCoins (out_hash (prevout i)) c = (Some cs, c') ->
  vout cs !! Z.to_nat (out_n (prevout i)) = Some o -> CTxOut_IsNull o = false ->
  u_coins u (out_hash (prevout i)) = Some cs /\ unspent u i o.
Proof.
  intros Ht Ha Eo En. destruct (AccessCoins_ok _ _ _ _ _ _ Ht Ha) as [_ Hn]. cbn in Hn.
  assert (IsPruned cs = false) as Hp.
  { apply not_true_iff_false. unfold IsPruned. rewrite forallb_forall. intros Hall. rewrite Hall in En; [done|].
    apply list_elem_of_In. by eapply list_elem_of_lookup_2. }
  assert (u_coins u (out_hash (prevout i)) = Some cs) as E by (rewrite <- Hn; by apply norm_Some).
  split; [done|]. by exists cs.
Qed.

Lemma GetOutputFor_ok c i o c' u0 u : tracks th c u0 u -> GetOutputFor i c = Some (o, c') ->
  tracks th c' u0 u /\ unspent u i o.
Proof.
  intros Ht Hg. unfold GetOutputFor in Hg. destruct (AccessCoins _ c) as [[cs|] c1] eqn:Ea; [|done]. monad_in Hg.
  unfold IsAvailable in Hg. destruct (vout cs !! _) as [o'|] eqn:Eo; [|done].
  destruct (CTxOut_IsNull o') eqn:En; [done|]. cbn in Hg. injection Hg as <- <-.
  split; [by eapply AccessCoins_ok|]. by eapply access_unspent.
Qed.

Lemma have_inputs_loop_ok ins : forall c b c' u0 u, tracks th c u0 u -> have_inputs_loop ins c = (b, c') -> tracks th c' u0 u.
Proof.
  induction ins as [|i ins IH]; intros c b c' u0 u Ht Hh; cbn [have_inputs_loop] in Hh; [by injection Hh as <- <-|].
  destruct (AccessCoins _ c) as [r c1] eqn:Ea. destruct (AccessCoins_ok _ _ _ _ _ _ Ht Ea) as [Ht1 _].
  destruct r; [destruct (IsAvailable _ _)|]; try (by injection Hh as <- <-). by eapply IH.
Qed.
Lemma HaveInputs_ok c tx b c' u0 u : tracks th c u0 u -> HaveInputs tx c = (b, c') -> tracks th c' u0 u.
Proof. intros Ht. unfold HaveInputs. destruct (IsCoinBase tx); [by intros [= <- <-]|]. by apply have_inputs_loop_ok. Qed.

Definition sum64 (acc : Z) (outs : list CTxOut) : Z := fold_left (fun a o => s64 (a + nValue o)) outs acc.

Lemma sum64_total outs : forall acc, 0 <= acc -> Forall (fun o => 0 <= nValue o) outs ->
  acc + total (map nValue outs) < 2 ^ 63 -> sum64 acc outs = acc + total (map nValue outs).
Proof.
  induction outs as [|o outs IH]; intros acc Ha Hf Ht; cbn [sum64 fold_left map] in *.
  { change (total []) with 0. lia. }
  change (total (nValue o :: map nValue outs)) with (nValue o + total (map nValue outs)) in *.
  apply Forall_cons in Hf as [Ho Hf].
  assert (0 <= total (map nValue outs)).
  { clear - Hf. induction Hf as [|x l Hx _ IHl]; [done|]. cbn [map]. 
    change (total (nValue x :: map nValue l)) with (nValue x + total (map nValue l)). lia. }
  rewrite s64_id by (unfold is_s64; lia). fold (sum64 (acc + nValue o) outs). rewrite IH by (try done; lia). lia.
Qed.

Lemma value_in_loop_ok ins : forall acc c v c' u0 u, tracks th c u0 u -> value_in_loop ins acc c = Some (v, c') ->
  tracks th c' u0 u /\ exists outs, Forall2 (unspent u) ins outs /\ v = sum64 acc outs.
Proof.
  induction ins as [|i ins IH]; intros acc c v c' u0 u Ht Hv; cbn [value_in_loop] in Hv.
  { injection Hv as <- <-. split; [done|]. by exists []. }
  destruct (GetOutputFor i c) as [[o c1]|] eqn:Eg; [|done]. monad_in Hv.
  destruct (GetOutputFor_ok _ _ _ _ _ _ Ht Eg) as [Ht1 Ho]. destruct (IH _ _ _ _ _ _ Ht1 Hv) as [Ht' (outs & Hf & ->)].
  split; [done|]. exists (o :: outs). split; [by constructor|done].
Qed.

Lemma GetValueIn_ok c tx v c' u0 u : IsCoinBase tx = false -> tracks th c u0 u -> GetValueIn tx c = Some (v, c') ->
  tracks th c' u0 u /\ exists outs sh, Forall2 (unspent u) (vin tx) outs /\ GetShieldedValueIn tx = Some sh /\
    v = s64 (sum64 0 outs + sh).
Proof.
  intros Hcb Ht Hv. unfold GetValueIn in Hv. rewrite Hcb in Hv.
  destruct (value_in_loop (vin tx) 0 c) as [[v1 c1]|] eqn:El; [|done]. monad_in Hv.
  destruct (GetShieldedValueIn tx) as [sh|]; [|done]. monad_in Hv. injection Hv as <- <-.
  destruct (value_in_loop_ok _ _ _ _ _ _ _ Ht El) as [Ht' (outs & Hf & ->)]. split; [done|]. by exists outs, sh.
Qed.

Lemma p2sh_sigops_ok ins : forall n c v c' u0 u, tracks th c u0 u -> p2sh_sigops ins n c = Some (v, c') -> tracks th c' u0 u.
Proof.
  induction ins as [|i ins IH]; intros n c v c' u0 u Ht Hv; cbn [p2sh_sigops] in Hv; [by injection Hv as <- <-|].
  destruct (GetOutputFor i c) as [[o c1]|] eqn:Eg; [|done]. monad_in Hv.
  destruct (GetOutputFor_ok _ _ _ _ _ _ Ht Eg) as [Ht1 _]. by eapply IH.
Qed.
Lemma GetP2SHSigOpCount_ok c tx v c' u0 u : tracks th c u0 u -> GetP2SHSigOpCount tx c = Some (v, c') -> tracks th c' u0 u.
Proof. intros Ht. unfold GetP2SHSigOpCount. destruct (IsCoinBase tx); [by intros [= <- <-]|]. by apply p2sh_sigops_ok. Qed.

Context (params : Params) (enforced : bool).

Definition mature (u : utxo) (tx : CTransaction) (nSpendHeight : Z) (i : CTxIn) : Prop :=
  exists cs, u_coins u (out_hash (prevout i)) = Some cs /\ premature params enforced tx cs nSpendHeight = None.

Lemma input_values_ok tx ins : forall h acc (k : Z -> vchecker) st st' c c' u0 u, 0 <= acc <= MAX_MONEY ->
  tracks th c u0 u -> input_values params enforced tx ins h acc k st c = Some (true, st', c') ->
  exists outs c1, tracks th c1 u0 u /\ Forall2 (unspent u) ins outs /\ Forall (mature u tx h) ins /\
    Forall (fun o => 0 <= nValue o) outs /\ acc + total (map nValue outs) <= MAX_MONEY /\
    k (acc + total (map nValue outs)) st c1 = Some (true, st', c').
Proof.
  assert (MAX_MONEY < 2 ^ 62) as HM by (unfold MAX_MONEY, COIN; lia).
  induction ins as [|i ins IH]; intros h acc k st st' c c' u0 u Hacc Ht Hv; cbn [input_values] in Hv.
  { exists [], c. change (total (map nValue [])) with 0. rewrite Z.add_0_r. split_and!; try done; lia. }
  destruct (AccessCoins _ c) as [[cs|] c1] eqn:Ea; [|done]. monad_in Hv.
  destruct (premature params enforced tx cs h) eqn:Hp; [done|].
  destruct (vout cs !! _) as [o|] eqn:Eo; [|done]. monad_in Hv.
  destruct (MoneyRange (nValue o)) eqn:Em; [|done]. apply MoneyRange_iff in Em.
  rewrite s64_id in Hv by (unfold is_s64; lia). destruct (MoneyRange (acc + nValue o)) eqn:Es; [|done]. cbn [negb orb] in Hv.
  apply MoneyRange_iff in Es. destruct (AccessCoins_ok _ _ _ _ _ _ Ht Ea) as [Ht1 _].
  destruct (access_unspent c i cs c1 o u0 u Ht Ea Eo) as [Ecs Hun].
  { unfold CTxOut_IsNull. apply Z.eqb_neq. lia. }
  destruct (IH _ _ _ _ _ _ _ _ _ Es Ht1 Hv) as (outs & c2 & Ht2 & Hf & Hm & Hnn & Htot & Hk).
  exists (o :: outs), c2. cbn [map]. change (total (nValue o :: map nValue outs)) with (nValue o + total (map nValue outs)).
  rewrite Z.add_assoc. split; [done|]. split; [by constructor|]. split; [constructor; [by exists cs|done]|].
  split; [constructor; [lia|done]|]. split; [lia|done].
Qed.

(** The inputs of [tx] are unspent and mature, no note is spent twice, and they
    exceed the outputs by [fee]. *)
Definition inputs_pay (u : utxo) (tx : CTransaction) (nSpendHeight fee : Z) : Prop :=
  exists outs shielded out,
    Forall2 (unspent u) (vin tx) outs /\ Forall (mature u tx nSpendHeight) (vin tx) /\
    (forall ty nf, (ty, nf) ∈ tx_nullifiers tx -> u_null u ty nf = false) /\
    GetShieldedValueIn tx = Some shielded /\ GetValueOut tx = Some out /\
    Forall (fun o => 0 <= nValue o) outs /\ total (map nValue outs) <= MAX_MONEY /\
    0 <= total (map nValue outs) + shielded <= MAX_MONEY /\
    fee = total (map nValue outs) + shielded - out /\ 0 <= fee <= MAX_MONEY.

Lemma shielded_value_range tx v : GetShieldedValueIn tx = Some v -> 0 <= v <= MAX_MONEY.
Proof.
  unfold GetShieldedValueIn. intros Hv.
  match type of Hv with (?m ≫= _ = _) => destruct m as [a|] eqn:Ea; [|done] end. monad_in Hv.
  assert (0 <= a <= MAX_MONEY) as Ha.
  { destruct (valueBalance tx >=? 0); [|injection Ea as <-; unfold MAX_MONEY, COIN; lia].
    destruct (MoneyRange (valueBalance tx)) eqn:E1; [|done]. apply MoneyRange_iff in E1.
    cbn in Ea. case_match; [done|]. injection Ea as <-. lia. }
  apply (sum_in_range_iff a _ v Ha) in Hv as (Hf & -> & Hm). pose proof (total_nonneg _ Hf). lia.
Qed.

Lemma value_out_range tx v : GetValueOut tx = Some v -> 0 <= v <= MAX_MONEY.
Proof.
  assert (0 <= 0 <= MAX_MONEY) as H0 by (unfold MAX_MONEY, COIN; lia).
  unfold GetValueOut. intros Hv. destruct (sum_in_range 0 _) as [a|] eqn:Ea; [|done]. monad_in Hv.
  apply (sum_in_range_iff 0 _ a H0) in Ea as (Hf & -> & Hm). pose proof (total_nonneg _ Hf) as Hnn.
  match type of Hv with (?m ≫= _ = _) => destruct m as [b|] eqn:Eb; [|done] end. monad_in Hv.
  assert (0 <= b <= MAX_MONEY) as Hb.
  { destruct (valueBalance tx <=? 0); [|injection Eb as <-; lia].
    destruct (MoneyRange (s64 (- valueBalance tx))); [|done]. cbn [negb orb] in Eb.
    destruct (MoneyRange (s64 _)) eqn:E2 in Eb; [|done]. injection Eb as <-. by apply MoneyRange_iff. }
  apply (sum_in_range_iff b _ v Hb) in Hv as (Hf' & -> & Hm'). pose proof (total_nonneg _ Hf'). lia.
Qed.

Lemma CheckTxInputs_ok c tx h st st' c' u0 u : tracks th c u0 u ->
  CheckTxInputs th params enforced tx h st c = Some (true, st', c') ->
  st' = st /\ tracks th c' u0 u /\ exists fee, inputs_pay u tx h fee.
Proof.
  assert (MAX_MONEY < 2 ^ 62) as HM by (unfold MAX_MONEY, COIN; lia).
  intros Ht Hc. unfold CheckTxInputs in Hc. destruct (HaveInputs tx c) as [have c1] eqn:Eh.
  pose proof (HaveInputs_ok _ _ _ _ _ _ Ht Eh) as Ht1. destruct have; [|done]. cbn [negb] in Hc.
  destruct (HaveShieldedRequirements th tx c1) as [[met c2]|] eqn:Es; [|done].
  destruct (HaveShieldedRequirements_ok _ _ _ _ _ _ Ht1 Es) as [Ht2 Hnf]. destruct met; [|done].
  apply (input_values_ok _ _ _ _ _ _ _ _ _ u0 u) in Hc as (outs & c3 & Ht3 & Hf & Hm & Hnn & Htot & Hk);
    [|unfold MAX_MONEY, COIN; lia|done].
  destruct (GetShieldedValueIn tx) as [sh|] eqn:Esh; [|done]. monad_in Hk.
  pose proof (shielded_value_range _ _ Esh) as Hsh.
  assert (0 <= total (map nValue outs)) as H0.
  { clear - Hnn. induction Hnn as [|x l Hx _ IHl]; [done|]. cbn [map].
    change (total (nValue x :: map nValue l)) with (nValue x + total (map nValue l)). lia. }
  rewrite Z.add_0_l in *. rewrite s64_id in Hk by (unfold is_s64; lia).
  destruct (MoneyRange (total (map nValue outs) + sh)) eqn:Er; [|done]. apply MoneyRange_iff in Er. cbn [negb] in Hk.
  destruct (GetValueOut tx) as [out|] eqn:Eo; [|done]. monad_in Hk. pose proof (value_out_range _ _ Eo) as Hout.
  destruct (total (map nValue outs) + sh <? out) eqn:El; [done|]. rewrite Z.ltb_ge in El.
  rewrite (s64_id (_ - _)) in Hk by (unfold is_s64; lia). destruct (_ <? 0) in Hk; [done|].
  destruct (negb _) in Hk; [done|]. injection Hk as <- <-. split; [done|]. split; [done|].
  exists (total (map nValue outs) + sh - out), outs, sh, out. split_and!; try done; try lia. by apply Hnf.
Qed.


(** *** The loop over the block's transactions *)

Context (script_check : CTxOut -> CTransaction -> nat -> Z -> option string).
Context (mapBlockIndex : gmap (list Z) nat) (m : gmap nat BlockIndex.CBlockIndex).

Lemma script_checks_ok n : forall i threads tx flags st c ok st' checks c' u0 u, tracks th c u0 u ->
  script_checks script_check n i threads tx flags st c = Some (ok, st', checks, c') ->
  tracks th c' u0 u /\ (ok = true -> st' = st).
Proof.
  induction n as [|n IH]; intros i threads tx flags st c ok st' checks c' u0 u Ht Hs; cbn [script_checks] in Hs.
  { injection Hs as <- <- <- <-. done. }
  destruct (vin tx !! i) as [input|]; [|done]. monad_in Hs.
  destruct (AccessCoins _ c) as [[cs|] c1] eqn:Ea; [|done]. monad_in Hs. destruct (AccessCoins_ok _ _ _ _ _ _ Ht Ea) as [Ht1 _].
  destruct (vout cs !! _) as [o|]; [|done]. monad_in Hs. destruct threads.
  - destruct (script_checks _ n (S i) _ _ _ _ c1) as [[[[b1 st1] ch1] c2]|] eqn:Er; [|done]. monad_in Hs.
    injection Hs as <- <- <- <-. by eapply IH.
  - destruct (script_check o tx i flags); [|by eapply IH]. case_match; injection Hs as <- <- <- <-; by split.
Qed.

Lemma ContextualCheckInputs_ok c tx fs threads flags h st ok st' checks c' u0 u : IsCoinBase tx = false ->
  tracks th c u0 u ->
  ContextualCheckInputs th params enforced script_check tx fs threads flags h st c = Some (ok, st', checks, c') ->
  tracks th c' u0 u \/ ok = false.
Proof.
  intros Hcb Ht Hc. unfold ContextualCheckInputs in Hc. rewrite Hcb in Hc.
  destruct (CheckTxInputs _ _ _ tx h st c) as [[[ok1 st1] c1]|] eqn:Ec; [|done]. monad_in Hc.
  destruct ok1; [|injection Hc as <- _ _ _; by right]. cbn [negb] in Hc.
  destruct (CheckTxInputs_ok _ _ _ _ _ _ _ _ Ht Ec) as (-> & Ht1 & _).
  destruct fs; [|injection Hc as <- <- <- <-; by left]. left. by eapply script_checks_ok.
Qed.

Lemma ContextualCheckInputs_pays c tx fs threads flags h st st' checks c' u0 u : IsCoinBase tx = false ->
  tracks th c u0 u ->
  ContextualCheckInputs th params enforced script_check tx fs threads flags h st c = Some (true, st', checks, c') ->
  st' = st /\ tracks th c' u0 u /\ exists fee, inputs_pay u tx h fee.
Proof.
  intros Hcb Ht Hc. unfold ContextualCheckInputs in Hc. rewrite Hcb in Hc.
  destruct (CheckTxInputs _ _ _ tx h st c) as [[[ok1 st1] c1]|] eqn:Ec; [|done]. monad_in Hc.
  destruct ok1; [|done]. cbn [negb] in Hc. destruct (CheckTxInputs_ok _ _ _ _ _ _ _ _ Ht Ec) as (-> & Ht1 & Hpay).
  destruct fs; [|injection Hc as <- <- <-; done].
  destruct (script_checks_ok _ _ _ _ _ _ _ _ _ _ _ _ _ Ht1 Hc) as [Ht' Hst]. by rewrite Hst.
Qed.

Lemma GetSpendHeight_ok c h c' u0 u : tracks th c u0 u -> GetSpendHeight mapBlockIndex m c = Some (h, c') ->
  tracks th c' u0 u /\ exists p b, mapBlockIndex !! u_block u = Some p /\ m !! p = Some b /\ h = BlockIndex.nHeight b + 1.
Proof.
  intros Ht Hg. unfold GetSpendHeight in Hg. destruct (cache_GetBestBlock c) as [best c1] eqn:Eb.
  destruct (cache_GetBestBlock_ok th c best c1 (proj1 Ht) Eb) as (Hr & ->).
  pose proof (tracks_reads th _ _ _ _ Ht Hr) as Ht1. destruct Ht as (_ & _ & (_ & _ & _ & E & _)). rewrite E in Hg.
  destruct (mapBlockIndex !! u_block u) as [p|]; [|done]. monad_in Hg. destruct (m !! p) as [b|] eqn:Ep; [|done]. monad_in Hg.
  injection Hg as <- <-. split; [done|]. by exists p, b.
Qed.

(** [fee] is what the transaction pays, spending at the height after the view's best block. *)
Definition fee_paid (u : utxo) (tx : CTransaction) (fee : Z) : Prop :=
  if IsCoinBase tx then fee = 0
  else exists p b, mapBlockIndex !! u_block u = Some p /\ m !! p = Some b /\
         inputs_pay u tx (BlockIndex.nHeight b + 1) fee.

Lemma connect_inputs_ok c tx fe threads fees sigops st c' fees' sigops' st' checks u0 u : IsCoinBase tx = false ->
  tracks th c u0 u ->
  connect_inputs th params enforced script_check mapBlockIndex m tx fe threads fees sigops st c =
    Some (inr (c', fees', sigops', st', checks)) ->
  st' = st /\ tracks th c' u0 u /\ exists fee, fee_paid u tx fee /\ fees' = s64 (fees + fee).
Proof.
  assert (MAX_MONEY < 2 ^ 62) as HM by (unfold MAX_MONEY, COIN; lia).
  intros Hcb Ht Hc. unfold connect_inputs in Hc. destruct (HaveInputs tx c) as [have c1] eqn:Eh.
  pose proof (HaveInputs_ok _ _ _ _ _ _ Ht Eh) as Ht1. destruct have; [|done]. cbn [negb] in Hc.
  destruct (HaveShieldedRequirements th tx c1) as [[met c2]|] eqn:Es; [|done]. monad_in Hc.
  destruct (HaveShieldedRequirements_ok _ _ _ _ _ _ Ht1 Es) as [Ht2 _]. destruct met; [|done]. cbn [negb] in Hc.
  destruct (GetP2SHSigOpCount tx c2) as [[p2sh c3]|] eqn:Ep; [|done]. monad_in Hc.
  pose proof (GetP2SHSigOpCount_ok _ _ _ _ _ _ Ht2 Ep) as Ht3. destruct (_ >? _) in Hc; [done|].
  destruct (GetValueIn tx c3) as [[vi c4]|] eqn:Ev; [|done]. monad_in Hc.
  destruct (GetValueIn_ok _ _ _ _ _ _ Hcb Ht3 Ev) as [Ht4 (outs & sh & Hun & Hsh & ->)].
  destruct (GetValueOut tx) as [vo|] eqn:Eo; [|done]. monad_in Hc.
  destruct (GetSpendHeight mapBlockIndex m c4) as [[h c5]|] eqn:Eg; [|done]. monad_in Hc.
  destruct (GetSpendHeight_ok _ _ _ _ _ Ht4 Eg) as [Ht5 (p & b & Hp & Hb & ->)].
  destruct (ContextualCheckInputs _ _ _ _ tx _ _ _ _ st c5) as [[[[ok st1] ch] c6]|] eqn:Ec; [|done]. monad_in Hc.
  destruct ok; [|done]. injection Hc as <- <- _ <- _.
  destruct (ContextualCheckInputs_pays _ _ _ _ _ _ _ _ _ _ _ _ Hcb Ht5 Ec) as (-> & Ht6 & fee & Hpay).
  split; [done|]. split; [done|]. exists fee. unfold fee_paid. rewrite Hcb. split; [by exists p, b|].
  destruct Hpay as (outs' & sh' & vo' & Hun' & _ & _ & Hsh' & Eo' & Hnn & Htot & Hr & -> & Hfee).
  rewrite Hsh in Hsh'. rewrite Eo in Eo'. injection Hsh' as <-. injection Eo' as <-.
  rewrite (Forall2_unspent_fun _ _ _ _ Hun Hun') in *. rewrite sum64_total by (try done; lia).
  rewrite Z.add_0_l. pose proof (value_out_range _ _ Eo).
  rewrite (s64_id (_ + sh)) by (unfold is_s64; lia). by rewrite (s64_id (_ - vo)) by (unfold is_s64; lia).
Qed.

(** The effect of a list of transactions: undo data and fee of each. *)
Inductive txs_applied (h : Z) : utxo -> list CTransaction -> list (list CTxInUndo) -> list Z -> utxo -> Prop :=
| txs_nil u u' : u ≡ u' -> txs_applied h u [] [] [] u'
| txs_cons u tx txs undo undos fee fees u1 u' :
    tx_applied tx_GetHash h u tx undo u1 -> u_coins u (tx_GetHash tx) = None ->
    (forall ty nf, (ty, nf) ∈ tx_nullifiers tx -> u_null u ty nf = false) -> fee_paid u tx fee ->
    txs_applied h u1 txs undos fees u' -> txs_applied h u (tx :: txs) (undo :: undos) (fee :: fees) u'.

Lemma tx_applied_frame h u tx undo u' : tx_applied tx_GetHash h u tx undo u' ->
  (forall k, k <> tx_GetHash tx -> u_coins u k = None -> u_coins u' k = None) /\
  (forall ty k, u_anchor u' ty k = u_anchor u ty k) /\ u_block u' = u_block u /\
  (forall ty, u_best u' ty = u_best u ty).
Proof.
  intros (u1 & Hsp & E). destruct (set_nulls_frame (tx_nullifiers tx) true u1) as (F1 & F2 & F3 & F4).
  assert ((forall k, u_coins u k = None -> u_coins u1 k = None) /\
    (forall ty k, u_anchor u1 ty k = u_anchor u ty k) /\ u_block u1 = u_block u /\ (forall ty, u_best u1 ty = u_best u ty))
    as (S1 & S2 & S3 & S4).
  { destruct (IsCoinBase tx).
    - destruct Hsp as [(E1 & E2 & E3 & E4 & E5) _]. split; [intros k; by rewrite E1|]. done.
    - destruct (spent_frame _ _ _ _ Hsp) as (? & ? & ? & ? & ?). done. }
  destruct E as (E1 & E2 & E3 & E4 & E5). split; [|split; [|split]].
  - intros k Hk Hn. rewrite E1. cbn. rewrite decide_False by done. rewrite F1. by apply S1.
  - intros ty k. rewrite E3. cbn. rewrite F2. apply S2.
  - rewrite E4. cbn. rewrite F3. apply S3.
  - intros ty. rewrite E5. cbn. rewrite F4. apply S4.
Qed.

Definition sum_fees (acc : Z) (fees : list Z) : Z := fold_left (fun a f => s64 (a + f)) fees acc.

(** What [CheckBlock] and the chain guarantee of the transactions of a block. *)
Definition block_txs_ok (u0 : utxo) (txs : list CTransaction) : Prop :=
  NoDup (map tx_GetHash txs) /\
  Forall (fun tx => u_coins u0 (tx_GetHash tx) = None /\ (IsCoinBase tx = true -> tx_nullifiers tx = [])) txs.

Lemma connect_tx_ok first tx h fe threads st s st' s' u0 u :
  tracks th (cs_view s) u0 u -> u_coins u0 (tx_GetHash tx) = None -> (IsCoinBase tx = true -> tx_nullifiers tx = []) ->
  connect_tx th tx_GetHash params enforced script_check mapBlockIndex m first tx h fe threads st s = Some (inr (st', s')) ->
  exists u' undo fee, st' = st /\ tracks th (cs_view s') u0 u' /\ tx_applied tx_GetHash h u tx undo u' /\ fee_paid u tx fee /\
    (forall ty nf, (ty, nf) ∈ tx_nullifiers tx -> u_null u ty nf = false) /\
    nFees s' = (if IsCoinBase tx then nFees s else s64 (nFees s + fee)) /\
    undos s' = if first then undos s else undos s ++ [{| vprevout := undo |}].
Proof.
  intros Ht Hnew Hcbn Hc. unfold connect_tx in Hc. destruct (_ >? _) in Hc; [done|].
  match type of Hc with ((if _ then ?a else ?b) ≫= _ = _) =>
    destruct (if IsCoinBase tx then a else b) as [[?|[[[[c1 fees1] sig1] st1] ch1]]|] eqn:Er end; [done| |done].
  monad_in Hc.
  assert (st1 = st /\ tracks th c1 u0 u /\ exists fee, fee_paid u tx fee /\
    (forall ty nf, (ty, nf) ∈ tx_nullifiers tx -> u_null u ty nf = false) /\
    fees1 = if IsCoinBase tx then nFees s else s64 (nFees s + fee)) as (-> & Ht1 & fee & Hfee & Hnf & ->).
  { destruct (IsCoinBase tx) eqn:Ecb.
    - injection Er as <- <- _ <- _. split; [done|]. split; [done|]. exists 0. unfold fee_paid. rewrite Ecb, Hcbn by done.
      split; [done|]. split; [|done]. by intros ty nf ?%not_elem_of_nil.
    - destruct (connect_inputs_ok _ _ _ _ _ _ _ _ _ _ _ _ _ _ Ecb Ht Er) as (-> & Ht1 & fee & Hfee & ->).
      split; [done|]. split; [done|]. exists fee. split; [done|]. split; [|done].
      unfold fee_paid in Hfee. rewrite Ecb in Hfee. by destruct Hfee as (? & ? & _ & _ & ? & ? & ? & _ & _ & ? & _). }
  destruct (UpdateCoins tx_GetHash tx h c1) as [[undo c2]|] eqn:Eu; [|done]. monad_in Hc.
  destruct (append_all th SPROUT _ _) as [t1|]; [|done]. monad_in Hc.
  destruct (append_all th SAPLING _ _) as [t2|]; [|done]. monad_in Hc. injection Hc as <- <-.
  destruct (UpdateCoins_applied _ _ _ _ _ _ _ Ht1 Hnew Eu) as (u' & Ht2 & Happ).
  exists u', (vprevout undo), fee. split; [done|]. split; [done|]. split; [done|]. split; [done|]. split; [done|]. split; [done|].
  destruct first; [done|]. by destruct undo.
Qed.

Lemma connect_loop_ok txs : forall first h fe threads st s st' s' u0 u,
  tracks th (cs_view s) u0 u -> block_txs_ok u0 txs -> Forall (fun tx => u_coins u (tx_GetHash tx) = None) txs ->
  connect_loop th tx_GetHash params enforced script_check mapBlockIndex m first txs h fe threads st s = Some (inr (st', s')) ->
  exists u' us fees, st' = st /\ tracks th (cs_view s') u0 u' /\ txs_applied h u txs us fees u' /\
    nFees s' = fold_left (fun a x => if IsCoinBase (fst x) then a else s64 (a + snd x)) (zip txs fees) (nFees s) /\
    undos s' = undos s ++ map Build_CTxUndo (if first then tail us else us).
Proof.
  induction txs as [|tx txs IH]; intros first h fe threads st s st' s' u0 u Ht [Hnd Hok] Hnone Hc; cbn [connect_loop] in Hc.
  { injection Hc as <- <-. exists u, [], []. split; [done|]. split; [done|]. split; [by constructor|]. split; [done|].
    destruct first; by rewrite app_nil_r. }
  destruct (connect_tx _ _ _ _ _ _ _ first tx h fe threads st s) as [[?|[st1 s1]]|] eqn:Et; [done| |done]. monad_in Hc.
  cbn [map] in Hnd. apply NoDup_cons in Hnd as [Hnin Hnd]. apply Forall_cons in Hok as [[Hnew Hcbn] Hok].
  apply Forall_cons in Hnone as [Hn Hnone].
  destruct (connect_tx_ok _ _ _ _ _ _ _ _ _ _ _ Ht Hnew Hcbn Et) as (u1 & undo & fee & -> & Ht1 & Happ & Hfee & Hnf & Hfees & Hundo).
  destruct (tx_applied_frame _ _ _ _ _ Happ) as (Fc & _).
  assert (Forall (fun tx => u_coins u1 (tx_GetHash tx) = None) txs) as Hnone1.
  { apply Forall_forall. intros tx' Htx'. apply Fc.
    - intros E. apply Hnin. rewrite <- E. by apply list_elem_of_fmap_2.
    - rewrite Forall_forall in Hnone. by apply Hnone. }
  destruct (IH _ _ _ _ _ _ _ _ _ _ Ht1 (conj Hnd Hok) Hnone1 Hc) as (u' & us & fees & -> & Ht' & Happs & Hf' & Hu').
  exists u', (undo :: us), (fee :: fees). split; [done|]. split; [done|]. split; [by econstructor|]. split.
  - cbn [zip_with fold_left fst snd]. by rewrite Hf', Hfees.
  - rewrite Hu', Hundo. destruct first; [done|]. by rewrite <- app_assoc.
Qed.


Lemma check_bip30_ok txs : forall c b c' u0 u, tracks th c u0 u -> check_bip30 tx_GetHash txs c = (b, c') ->
  tracks th c' u0 u /\ (b = true -> Forall (fun tx => u_coins u (tx_GetHash tx) = None) txs).
Proof.
  induction txs as [|tx txs IH]; intros c b c' u0 u Ht Hb; cbn [check_bip30] in Hb.
  { injection Hb as <- <-. split; [done|]. by constructor. }
  destruct (AccessCoins _ c) as [r c1] eqn:Ea. destruct (AccessCoins_ok _ _ _ _ _ _ Ht Ea) as [Ht1 Hn].
  assert (Hb' : (exists cs, r = Some cs /\ IsPruned cs = false /\ b = false /\ c' = c1) \/
          (u_coins u (tx_GetHash tx) = None /\ check_bip30 tx_GetHash txs c1 = (b, c'))).
  { destruct r as [cs|]; [|by right]. destruct (IsPruned cs) eqn:Hp; cbn [negb] in Hb.
    - right. split; [|done]. rewrite <- Hn. by apply norm_None.
    - left. injection Hb as <- <-. by exists cs. }
  destruct Hb' as [(cs & -> & _ & -> & ->)|[Hnone Hb']]; [by split|].
  destruct (IH _ _ _ _ _ Ht1 Hb') as [Ht' Hf]. split; [done|]. intros Hbt. constructor; [done|by apply Hf].
Qed.

(** Transactions whose outputs can be stored and taken back. *)
Definition tx_storable (tx : CTransaction) : Prop :=
  Forall (fun o => 0 <= nValue o) (Transaction.vout tx) /\ Z.of_nat (length (Transaction.vout tx)) < 2 ^ 32 /\
  Forall (fun i => 0 <= out_n (prevout i)) (vin tx).

Lemma FromTx_wf tx h : tx_storable tx -> 0 < h < 2 ^ 31 -> coins_wf (FromTx tx h).
Proof.
  intros (Hv & Hlen & _) Hh. unfold FromTx. rewrite ClearUnspendable_eq. set (X := {| fCoinBase := _ |}).
  destruct (Cleanup_vout (set_vout X (map mark_unspendable (vout X)))) as (n & E & _).
  change (vout (set_vout X (map mark_unspendable (vout X)))) with (map mark_unspendable (Transaction.vout tx)) in E.
  split; [apply Cleanup_clean|]. split; [|split; [done|]].
  - intros o Ho Hn. assert (o ∈ map mark_unspendable (Transaction.vout tx)) as Ho' by (rewrite E; set_solver).
    apply list_elem_of_fmap in Ho' as (o' & -> & Ho'). unfold mark_unspendable in *. case_match; [done|].
    rewrite Forall_forall in Hv. specialize (Hv o' Ho'). unfold CTxOut_IsNull in Hn. apply Z.eqb_eq in Hn. lia.
  - apply (f_equal length) in E. rewrite length_map, length_app in E. lia.
Qed.

Lemma tx_applied_wf h u tx undo u' : tx_applied tx_GetHash h u tx undo u' -> utxo_wf u -> tx_storable tx ->
  0 < h < 2 ^ 31 -> utxo_wf u'.
Proof.
  intros (u1 & Hsp & E) Hwf Htx Hh. rewrite E.
  assert (utxo_wf u1) as Hwf1.
  { destruct (IsCoinBase tx); [destruct Hsp as [E1 _]; by rewrite <- E1|]. by eapply spent_wf. }
  intros k cs. cbn. case_decide.
  - intros [-> _]%norm_Some. by apply FromTx_wf.
  - rewrite (proj1 (set_nulls_frame _ _ _)). apply Hwf1.
Qed.

Fixpoint undo_list (first : bool) (us : list (list CTxInUndo)) : list (option CTxUndo) :=
  match us with
  | [] => []
  | x :: us' => (if first then None else Some {| vprevout := x |}) :: undo_list false us'
  end.

Fixpoint coinbase_first (first : bool) (txs : list CTransaction) : Prop :=
  match txs with [] => True | tx :: txs' => IsCoinBase tx = first /\ coinbase_first false txs' end.

Lemma disconnect_loop_app l1 : forall l2 h b c,
  disconnect_loop tx_GetHash (l1 ++ l2) h b c =
  r ← disconnect_loop tx_GetHash l1 h b c;
  if (fst (fst r) : bool) then disconnect_loop tx_GetHash l2 h (snd (fst r)) (snd r) else Some r.
Proof.
  induction l1 as [|[tx o] l1 IH]; intros l2 h b c; cbn [disconnect_loop app]; [done|].
  destruct (disconnect_tx tx_GetHash tx o h b c) as [[[ok cl] c1]|]; [|done]. monad. destruct ok; [apply IH|done].
Qed.

(** The anchors and best block play no part: [v] gives them. *)
Lemma disconnect_loop_ok v h u txs us fees u' : txs_applied h u txs us fees u' -> 0 < h < 2 ^ 31 ->
  forall first, utxo_wf u -> Forall tx_storable txs -> coinbase_first first txs ->
  forall c u0, tracks th c u0 (with_chain v u') ->
  exists c', disconnect_loop tx_GetHash (rev (zip txs (undo_list first us))) h true c = Some (true, true, c') /\
    tracks th c' u0 (with_chain v u).
Proof.
  intros Happ Hh. induction Happ as [u u' E|u tx txs undo undos fee fees u1 u' Htx Hnew Hnf Hfee _ IH];
    intros first Hwf Hok Hcb c u0 Ht.
  { exists c. split; [done|]. destruct Ht as (? & ? & Hv). split; [done|]. split; [done|]. by rewrite Hv, E. }
  apply Forall_cons in Hok as [Hst Hok]. destruct Hcb as [Hfirst Hcb].
  destruct (IH false) with (c := c) (u0 := u0) as (c1 & Hd & Ht1); [by eapply tx_applied_wf|done..|].
  cbn [undo_list zip_with rev]. rewrite disconnect_loop_app, Hd. monad. cbn [fst snd disconnect_loop].
  destruct (disconnect_tx_ok c1 tx h undo first u0 (with_chain v u) (with_chain v u1)) as (c' & -> & Ht');
    [by apply tx_applied_chain|exact Hwf|exact Hnew|exact Hnf|apply Hst|done|done|].
  monad. by exists c'.
Qed.

Lemma txs_applied_frame h u txs us fees u' : txs_applied h u txs us fees u' ->
  (forall ty k, u_anchor u' ty k = u_anchor u ty k) /\ u_block u' = u_block u /\ (forall ty, u_best u' ty = u_best u ty).
Proof.
  induction 1 as [u u' (E1 & E2 & E3 & E4 & E5)|u tx txs undo undos fee fees u1 u' Htx _ _ _ _ (I1 & I2 & I3)]; [done|].
  destruct (tx_applied_frame _ _ _ _ _ Htx) as (_ & F1 & F2 & F3). split; [intros; by rewrite I1, F1|].
  split; [by rewrite I2, F2|]. intros. by rewrite I3, F3.
Qed.

Lemma txs_applied_length h u txs us fees u' : txs_applied h u txs us fees u' -> length us = length txs /\ length fees = length txs.
Proof. induction 1 as [|u tx txs undo undos fee fees u1 u' _ _ _ _ _ [IH1 IH2]]; [done|]. cbn. by rewrite IH1, IH2. Qed.

(** *** The whole of ConnectBlock *)

Context (root_not_null : forall ty t, blob_IsNull (tree_root th ty t) = false).
Context (por mn dev : Z -> list Z) (check_block : Merkle.CBlock -> checker) (hashGenesisBlock : list Z).
Context (block_GetHash : BlockIndex.CBlockHeader -> list Z) (zip209 : bool).

(** What a successful [finish_block] has checked. *)
Lemma finish_block_ok block h old st s st' undo c' u0 u :
  tracks th (cs_view s) u0 u ->
  finish_block th params por mn dev block h old st s = Some (inr (st', undo, c')) ->
  st' = st /\ undo = {| vtxundo := undos s; old_sprout_tree_root := old |} /\
  tracks th c' u0 (push_anchor SAPLING (tree_root th SAPLING (sapling_tree s))
                     (push_anchor SPROUT (tree_root th SPROUT (sprout_tree s)) u)) /\
  (exists cb vo, head (Merkle.vtx block) = Some cb /\ GetValueOut cb = Some vo /\
     vo <= s64 (nFees s + GetBlockSubsidy h params) /\
     reward_failure params por mn dev cb h (GetBlockSubsidy h params) (nFees s) = None) /\
  Forall (fun r => r = None) (pending s).
Proof.
  intros Ht Hf. unfold finish_block in Hf.
  destruct (NetworkUpgradeActive params h UPGRADE_SAPLING) as [sa|]; [|done]. monad_in Hf.
  destruct (sa && _); [done|]. destruct (head (Merkle.vtx block)) as [cb|]; [|done]. monad_in Hf.
  destruct (GetValueOut cb) as [vo|] eqn:Evo; [|done]. monad_in Hf.
  destruct (vo >? _) eqn:Egt; [done|]. rewrite Z.gtb_ltb, Z.ltb_ge in Egt.
  destruct (reward_failure _ _ _ _ cb h _ _) eqn:Er; [done|].
  destruct (forallb _ (pending s)) eqn:Ep; [|done]. injection Hf as <- <- <-.
  split; [done|]. split; [done|]. split.
  - pose proof (PushAnchor_ok th _ SPROUT (sprout_tree s) _ _ Ht (root_not_null _ _)) as Hp.
    exact (PushAnchor_ok th _ SAPLING (sapling_tree s) _ _ Hp (root_not_null _ _)).
  - split; [by exists cb, vo|]. rewrite forallb_forall in Ep. apply Forall_forall. intros r Hr.
    apply list_elem_of_In, Ep in Hr. by destruct r.
Qed.

(** What [ConnectBlock] leaves in the index entry: the same block, in the same file,
    with undo data. *)
Definition index_kept (b b' : BlockIndex.CBlockIndex) : Prop :=
  BlockIndex.GetBlockHash b' = BlockIndex.GetBlockHash b /\ BlockIndex.nHeight b' = BlockIndex.nHeight b /\
  (BlockIndex.nFile b <> -1 -> BlockIndex.CDiskBlockPos_IsNull (BlockIndex.GetUndoPos b') = false).

Lemma land_bit4 x : (Z.land x BlockIndex.BLOCK_HAVE_UNDO =? 0) = negb (Z.testbit x 4).
Proof.
  change BlockIndex.BLOCK_HAVE_UNDO with (2 ^ 4). destruct (Z.testbit x 4) eqn:E; cbn [negb].
  - apply Z.eqb_neq. intros Hx. apply (f_equal (fun y => Z.testbit y 4)) in Hx.
    rewrite Z.land_spec, Z.pow2_bits_true, E in Hx by lia. done.
  - apply Z.eqb_eq, Z.bits_inj'. intros n Hn. rewrite Z.land_spec, Z.bits_0.
    destruct (decide (n = 4)) as [->|]; [by rewrite E|]. rewrite Z.pow2_bits_false by lia. apply andb_false_r.
Qed.

Lemma UndoPos_not_null b : BlockIndex.CDiskBlockPos_IsNull (BlockIndex.GetUndoPos b) = false <->
  Z.testbit (BlockIndex.nStatus b) 4 = true /\ BlockIndex.nFile b <> -1.
Proof.
  unfold BlockIndex.GetUndoPos. rewrite land_bit4, negb_involutive.
  destruct (Z.testbit _ 4); unfold BlockIndex.CDiskBlockPos_IsNull; cbn [BlockIndex.pos_nFile]; [|split; [done|by intros []]].
  rewrite Z.eqb_neq. naive_solver.
Qed.

Lemma RaiseValidity_keeps status up status' r : BlockIndex.RaiseValidity status BlockIndex.BLOCK_VALID_SCRIPTS = Some (status', r) ->
  up = Z.testbit status 4 -> Z.testbit status' 4 = up.
Proof.
  unfold BlockIndex.RaiseValidity. intros Hx ->. destruct (negb _); [done|]. destruct (negb _); [by injection Hx as <- _|].
  destruct (_ <? _); [|by injection Hx as <- _]. injection Hx as <- _. rewrite Z.lor_spec, Z.land_spec.
  change (Z.testbit BlockIndex.BLOCK_VALID_SCRIPTS 4) with false.
  replace (Z.testbit (u32 (Z.lnot BlockIndex.BLOCK_VALID_MASK)) 4) with true by (vm_compute; reflexivity).
  by rewrite andb_true_r, orb_false_r.
Qed.

Lemma record_valid_ok write_undo b pprev undo st b' :
  record_valid params write_undo b pprev undo st = Some (inr b') -> index_kept b b'.
Proof.
  unfold record_valid, index_kept. intros Hx. destruct (BlockIndex.IsValid b _) as [valid|]; [|done]. monad_in Hx.
  destruct (BlockIndex.CDiskBlockPos_IsNull (BlockIndex.GetUndoPos b) || negb valid) eqn:Eb.
  2: { injection Hx as <-. apply orb_false_iff in Eb as [Eb _]. done. }
  match type of Hx with (?m ≫= _ = _) => destruct m as [[?|[pos status]]|] eqn:Ew; [done| |done] end. monad_in Hx.
  match type of Hx with (?m ≫= _ = _) => destruct m as [[status1 branch]|] eqn:Es; [|done] end. monad_in Hx.
  destruct (BlockIndex.RaiseValidity status1 _) as [[status2 r]|] eqn:Er; [|done]. monad_in Hx. injection Hx as <-.
  split; [done|]. split; [done|]. intros Hf. apply UndoPos_not_null. cbn [set_undo_status BlockIndex.nStatus BlockIndex.nFile].
  split; [|done]. eapply RaiseValidity_keeps; [exact Er|].
  assert (Z.testbit status 4 = true) as Hs.
  { destruct (BlockIndex.CDiskBlockPos_IsNull _) eqn:En.
    - destruct pprev as [p|]; [|done]. monad_in Ew. destruct (BlockIndex.GetBlockHash p); [|done]. monad_in Ew.
      destruct (write_undo _ _ _); [done|]. injection Ew as _ <-. rewrite Z.lor_spec. apply orb_true_r.
    - injection Ew as _ <-. by apply UndoPos_not_null in En as []. }
  destruct (IsActivationHeightForAnyUpgrade _ _).
  - destruct (CurrentEpochBranchId _ _); [|done]. monad_in Es. injection Es as <- _. by rewrite Z.lor_spec, Hs.
  - destruct pprev; injection Es as <- _; done.
Qed.

Lemma ConnectBlock_ok write_undo block pindex pprev fe threads st st' undo pindex' c c' u :
  tracks th c u u -> NoDup (map tx_GetHash (Merkle.vtx block)) ->
  Forall (fun tx => IsCoinBase tx = true -> tx_nullifiers tx = []) (Merkle.vtx block) ->
  block_GetHash (Merkle.header block) <> hashGenesisBlock ->
  (forall hsh, BlockIndex.GetBlockHash pindex = Some hsh -> blob_IsNull hsh = false) ->
  ConnectBlock th tx_GetHash params enforced script_check mapBlockIndex m por mn dev check_block hashGenesisBlock
    block_GetHash zip209 write_undo block pindex (Some pprev) fe threads false st c = Some (inr (st', undo, pindex', c')) ->
  index_kept pindex pindex' /\
  exists h u1 us fees hsh r1 r2 cb vo st1,
    check_block block st = Some (true, st1) /\ h = BlockIndex.nHeight pindex /\
    BlockIndex.GetBlockHash pindex = Some hsh /\ BlockIndex.GetBlockHash pprev = Some (u_block u) /\
    txs_applied h u (Merkle.vtx block) us fees u1 /\
    undo = {| vtxundo := map Build_CTxUndo (tail us); old_sprout_tree_root := u_best u SPROUT |} /\
    tracks th c' u (upd_block hsh (push_anchor SAPLING r2 (push_anchor SPROUT r1 u1))) /\
    head (Merkle.vtx block) = Some cb /\ GetValueOut cb = Some vo /\
    vo <= s64 (fold_left (fun a x => if IsCoinBase (fst x) then a else s64 (a + snd x)) (zip (Merkle.vtx block) fees) 0
               + GetBlockSubsidy h params).
Proof.
  intros Ht Hnd Hcbn Hgen Hhash Hc. unfold ConnectBlock in Hc.
  destruct (check_block block st) as [[ok st1]|] eqn:Ecb; [|done]. monad_in Hc. destruct ok; [|done]. cbn [negb] in Hc.
  destruct (BlockIndex.GetBlockHash pprev) as [prev|] eqn:Eprev; [|done]. monad_in Hc.
  destruct (cache_GetBestBlock c) as [best c1] eqn:Eb. destruct (cache_GetBestBlock_ok th _ _ _ (proj1 Ht) Eb) as (Hr1 & Hbest).
  pose proof (tracks_reads th _ _ _ _ Ht Hr1) as Ht1. rewrite (proj1 (proj2 (proj2 (proj2 (proj2 (proj2 Ht)))))) in Hbest.
  case_bool_decide as Eprev'; [|done]. cbn [negb] in Hc. rewrite bool_decide_false in Hc by done.
  destruct (zip209 && negative_pool (BlockIndex.nChainSproutValue pindex)); [done|].
  destruct (zip209 && negative_pool (BlockIndex.nChainSaplingValue pindex)); [done|].
  destruct (check_bip30 tx_GetHash (Merkle.vtx block) c1) as [new c2] eqn:Ebip.
  destruct (check_bip30_ok _ _ _ _ _ _ Ht1 Ebip) as [Ht2 Hnew]. destruct new; [|done]. cbn [negb] in Hc. specialize (Hnew eq_refl).
  destruct (cache_GetBestAnchor SPROUT c2) as [old c3] eqn:Eo. destruct (cache_GetBestAnchor_ok th _ _ _ _ (proj1 Ht2) Eo) as (Hr3 & Hold).
  pose proof (tracks_reads th _ _ _ _ Ht2 Hr3) as Ht3. rewrite (proj2 (proj2 (proj2 (proj2 (proj2 (proj2 Ht2)))))) in Hold. subst old.
  destruct (cache_GetAnchorAt SPROUT (u_best u SPROUT) c3) as [t1 c4] eqn:Ea1.
  destruct (cache_GetAnchorAt_tracks _ _ _ _ _ _ _ Ht3 Ea1) as (Ht4 & _). destruct t1 as [t1|]; [|done]. monad_in Hc.
  destruct (negb (bool_decide (tree_root th SPROUT t1 = _))); [done|].
  destruct (cache_GetBestAnchor SAPLING c4) as [old2 c5] eqn:Eo2. destruct (cache_GetBestAnchor_ok th _ _ _ _ (proj1 Ht4) Eo2) as (Hr5 & _).
  pose proof (tracks_reads th _ _ _ _ Ht4 Hr5) as Ht5.
  destruct (cache_GetAnchorAt SAPLING old2 c5) as [t2 c6] eqn:Ea2.
  destruct (cache_GetAnchorAt_tracks _ _ _ _ _ _ _ Ht5 Ea2) as (Ht6 & _). destruct t2 as [t2|]; [|done]. monad_in Hc.
  match type of Hc with (connect_loop _ _ _ _ _ _ _ _ _ _ _ _ _ ?s0 ≫= _ = _) => set (s := s0) in * end.
  destruct (connect_loop _ _ _ _ _ _ _ _ _ _ _ _ _ s) as [[?|[st2 s']]|] eqn:El; [done| |done]. monad_in Hc.
  assert (block_txs_ok u (Merkle.vtx block)) as Hok.
  { split; [done|]. rewrite Forall_forall in Hnew, Hcbn |- *. intros tx Hin. split; [by apply Hnew|by apply Hcbn]. }
  destruct (connect_loop_ok _ _ _ _ _ _ s _ _ u u Ht6 Hok Hnew El) as (u1 & us & fees & -> & Ht7 & Happ & Hfees & Hundos).
  destruct (finish_block _ _ _ _ _ _ _ _ _ s') as [[?|[[st3 undo'] c7]]|] eqn:Ef; [done| |done]. monad_in Hc.
  destruct (finish_block_ok _ _ _ _ _ _ _ _ _ _ Ht7 Ef) as (-> & -> & Ht8 & (cb & vo & Hcb & Hvo & Hle & _) & _).
  destruct (record_valid _ _ _ _ _ _) as [[?|pindex1]|] eqn:Erec; [done| |done]. monad_in Hc.
  apply record_valid_ok in Erec as (Eh' & Ehh & Epos).
  match type of Eh' with (_ = ?g) => change g with (BlockIndex.GetBlockHash pindex) in Eh' end.
  destruct (BlockIndex.GetBlockHash pindex1) as [hsh|] eqn:Eh; [|done]. monad_in Hc. injection Hc as <- <- <- <-.
  symmetry in Eh'. split; [by split; [rewrite Eh|split]|].
  cbn [nFees undos s] in Hfees, Hundos. rewrite Hfees in Hle.
  exists (BlockIndex.nHeight pindex), u1, us, fees, hsh, (tree_root th SPROUT (sprout_tree s')),
    (tree_root th SAPLING (sapling_tree s')), cb, vo, st1.
  split; [done|]. split; [done|]. split; [done|]. split; [congruence|]. split; [done|].
  split; [by rewrite Hundos|]. split; [|done]. apply SetBestBlock_ok; [done|by apply Hhash].
Qed.

End cache.


(** ** The block as a whole *)

(** The indices and counts of a transaction fit their C++ types. *)
Definition tx_typed (tx : CTransaction) : Prop :=
  Z.of_nat (length (Transaction.vout tx)) < 2 ^ 32 /\ Forall (fun i => 0 <= out_n (prevout i)) (vin tx).

Lemma rules_storable tx sz : tx_rules tx sz -> tx_typed tx -> tx_storable tx.
Proof.
  intros Hr [Hl Hi]. split; [|by split]. eapply Forall_impl; [exact (rule_outputs _ _ Hr)|]. intros o [? _]. done.
Qed.

Lemma rules_coinbase_nullifiers tx sz : tx_rules tx sz -> IsCoinBase tx = true -> tx_nullifiers tx = [].
Proof.
  intros Hr Hcb. pose proof (rule_coinbase _ _ Hr) as Hc. unfold coinbase_rules in Hc. rewrite Hcb in Hc.
  destruct Hc as (Hj & Hs & _). unfold tx_nullifiers. by rewrite Hj, Hs.
Qed.

Lemma coinbase_first_of cb txs : IsCoinBase cb = true -> Forall (fun tx => IsCoinBase tx = false) txs ->
  coinbase_first true (cb :: txs).
Proof. intros Hcb Hf. split; [done|]. induction Hf; by split. Qed.

Lemma undo_list_false us : undo_list false us = map Some (map Build_CTxUndo us).
Proof. induction us as [|x us IH]; [done|]. cbn. by rewrite IH. Qed.

Section block.
Context {B : Type} `{CCoinsView B} `{!ViewModel B} (th : tree_hash) `{!CCoinsViewOk (V := B) th}.
Context (root_not_null : forall ty t, blob_IsNull (tree_root th ty t) = false).
Context (params : Params) (enforced zip209 : bool) (hashGenesisBlock : list Z).
Context (tx_GetHash : CTransaction -> list Z) (block_GetHash GetPoWHash : BlockIndex.CBlockHeader -> list Z).
Context (Hash : list Z -> list Z) (joinsplit_Verify : JSDescription -> list Z -> bool).
Context (script_check : CTxOut -> CTransaction -> nat -> Z -> option string).
Context (por mn dev : Z -> list Z) (adjusted_time : Z).
Context (mapBlockIndex : gmap (list Z) nat) (m : gmap nat BlockIndex.CBlockIndex).
Context (write_undo : Z -> CBlockUndo -> list Z -> string + Z).

(** [ConnectBlock] of a block that is really connected, with all of [CheckBlock]. *)
Definition connect (block : Merkle.CBlock) (pindex pprev : BlockIndex.CBlockIndex) (fe threads : bool)
    (st : CValidationState) (c : CCoinsViewCache B) :
    option (CValidationState * BlockIndex.CBlockIndex +
            CValidationState * CBlockUndo * BlockIndex.CBlockIndex * CCoinsViewCache B) :=
  ConnectBlock th tx_GetHash params enforced script_check mapBlockIndex m por mn dev
    (fun b => BlockCheck.CheckBlock params GetPoWHash tx_GetHash Hash joinsplit_Verify b adjusted_time true true)
    hashGenesisBlock block_GetHash zip209 write_undo block pindex (Some pprev) fe threads false st c.

(** The circumstances in which [ConnectBlock] runs: not on the genesis block,
    distinct transaction ids, a block hash that is not null, a positive height. *)
Record connecting (block : Merkle.CBlock) (pindex : BlockIndex.CBlockIndex) : Prop := {
  not_genesis : block_GetHash (Merkle.header block) <> hashGenesisBlock;
  distinct_ids : NoDup (map tx_GetHash (Merkle.vtx block));
  typed_txs : Forall tx_typed (Merkle.vtx block);
  block_hash : exists h, BlockIndex.GetBlockHash pindex = Some h /\ blob_IsNull h = false;
  positive_height : 0 < BlockIndex.nHeight pindex < 2 ^ 31
}.

Lemma connect_ok block pindex pprev fe threads st st' undo pindex' c c' u :
  tracks th c u u -> connecting block pindex ->
  connect block pindex pprev fe threads st c = Some (inr (st', undo, pindex', c')) ->
  BlockCheck.block_rules params GetPoWHash tx_GetHash Hash joinsplit_Verify block adjusted_time true true /\
  index_kept pindex pindex' /\
  exists u1 us fees hsh r1 r2 cb vo,
    BlockIndex.GetBlockHash pindex = Some hsh /\ BlockIndex.GetBlockHash pprev = Some (u_block u) /\
    txs_applied tx_GetHash params enforced mapBlockIndex m (BlockIndex.nHeight pindex) u (Merkle.vtx block) us fees u1 /\
    undo = {| vtxundo := map Build_CTxUndo (tail us); old_sprout_tree_root := u_best u SPROUT |} /\
    tracks th c' u (upd_block hsh (push_anchor SAPLING r2 (push_anchor SPROUT r1 u1))) /\
    head (Merkle.vtx block) = Some cb /\ GetValueOut cb = Some vo /\
    vo <= s64 (fold_left (fun a x => if IsCoinBase (fst x) then a else s64 (a + snd x)) (zip (Merkle.vtx block) fees) 0
               + GetBlockSubsidy (BlockIndex.nHeight pindex) params).
Proof.
  intros Ht [Hgen Hids Htyped (h & Eh & Hh) Hpos] Hc.
  assert (exists st1, BlockCheck.CheckBlock params GetPoWHash tx_GetHash Hash joinsplit_Verify block adjusted_time true true st
            = Some (true, st1)) as [st1 Hcheck].
  { unfold connect, ConnectBlock in Hc. destruct (BlockCheck.CheckBlock _ _ _ _ _ _ _ _ _ st) as [[[] st1]|]; [by exists st1|done..]. }
  apply BlockCheck.CheckBlock_accepted in Hcheck as [_ Hrules]. split; [done|].
  assert (Forall (fun tx => IsCoinBase tx = true -> tx_nullifiers tx = []) (Merkle.vtx block)) as Hcbn.
  { eapply Forall_impl; [exact (BlockCheck.rule_txs _ _ _ _ _ _ _ _ _ Hrules)|]. intros tx ((sz & _ & Hr) & _).
    by eapply rules_coinbase_nullifiers. }
  assert (forall hsh, BlockIndex.GetBlockHash pindex = Some hsh -> blob_IsNull hsh = false) as Hhash by (intros; congruence).
  unfold connect in Hc.
  destruct (ConnectBlock_ok th tx_GetHash params enforced script_check mapBlockIndex m root_not_null por mn dev _
    hashGenesisBlock block_GetHash zip209 write_undo block pindex pprev fe threads st st' undo pindex' c c' u Ht Hids Hcbn Hgen Hhash Hc)
    as (Hkept & h' & u1 & us & fees & hsh & r1 & r2 & cb & vo & st2 & _ & -> & E1 & E2 & E3 & E4 & E5 & E6 & E7 & E8).
  split; [done|]. by exists u1, us, fees, hsh, r1, r2, cb, vo.
Qed.

Context (UndoReadFromDisk : BlockIndex.CDiskBlockPos -> list Z -> option CBlockUndo).

(** The block's roots are new, or unchanged: popping them back is safe. *)
Definition roots_fresh (u u' : utxo) : Prop :=
  forall ty, u_best u' ty = u_best u ty \/ u_anchor u ty (u_best u' ty) = false.

(** The Sapling root the parent's index entry records is the view's. *)
Definition parent_root (u : utxo) (pprev : BlockIndex.CBlockIndex) : Prop :=
  exists active, NetworkUpgradeActive params (BlockIndex.nHeight pprev) UPGRADE_SAPLING = Some active /\
    u_best u SAPLING = if active then BlockIndex.hashFinalSaplingRoot pprev else empty_root th SAPLING.

Lemma tracks_equiv (c : CCoinsViewCache B) u0 u u' : tracks th c u0 u -> u ≡ u' -> tracks th c u0 u'.
Proof. intros (? & ? & E) E'. split; [done|]. split; [done|]. by rewrite E. Qed.

Lemma GetBestBlock_tracks (c : CCoinsViewCache B) r c' u0 u : tracks th c u0 u -> cache_GetBestBlock c = (r, c') ->
  tracks th c' u0 u /\ r = u_block u.
Proof.
  intros Ht Hg. destruct (cache_GetBestBlock_ok th _ _ _ (proj1 Ht) Hg) as (Hr & ->). split; [by eapply tracks_reads|].
  apply Ht.
Qed.

Lemma block_txs_undone block pindex u us fees u1 (c : CCoinsViewCache B) u2 hsh r1 r2 :
  utxo_wf u -> connecting block pindex ->
  BlockCheck.block_rules params GetPoWHash tx_GetHash Hash joinsplit_Verify block adjusted_time true true ->
  txs_applied tx_GetHash params enforced mapBlockIndex m (BlockIndex.nHeight pindex) u (Merkle.vtx block) us fees u1 ->
  tracks th c u2 (upd_block hsh (push_anchor SAPLING r2 (push_anchor SPROUT r1 u1))) ->
  S (length (tail us)) = length (Merkle.vtx block) /\
  exists c', disconnect_loop tx_GetHash (rev (zip (Merkle.vtx block) (None :: map Some (map Build_CTxUndo (tail us)))))
      (BlockIndex.nHeight pindex) true c = Some (true, true, c') /\
    tracks th c' u2 (upd_block hsh (push_anchor SAPLING r2 (push_anchor SPROUT r1 u))).
Proof.
  intros Hwf [_ _ Htyped _ Hpos] Hrules Happ Ht.
  destruct (BlockCheck.rule_coinbase_first _ _ _ _ _ _ _ _ _ Hrules) as (cb & txs & Evtx & Hcb & Hncb).
  destruct (txs_applied_length _ _ _ _ _ _ _ _ _ _ _ Happ) as [Hlen _].
  destruct us as [|x us]; [rewrite Evtx in Hlen; done|]. cbn [tail length] in *. split; [done|].
  destruct (txs_applied_frame _ _ _ _ _ _ _ _ _ _ _ Happ) as (Fa & Fblk & Fb).
  set (v := upd_block hsh (push_anchor SAPLING r2 (push_anchor SPROUT r1 u1))) in *.
  assert (with_chain u1 u ≡ u) as Echain by (split; [|split; [|split; [|split]]]; done).
  assert (Forall tx_storable (Merkle.vtx block)) as Hstor.
  { pose proof (BlockCheck.rule_txs _ _ _ _ _ _ _ _ _ Hrules) as Hr. rewrite Forall_forall in Hr, Htyped |- *.
    intros tx Hin. destruct (Hr tx Hin) as ((sz & _ & Htx) & _). by eapply rules_storable; [|apply Htyped]. }
  destruct (disconnect_loop_ok th tx_GetHash params enforced script_check mapBlockIndex m v _ _ _ _ _ _ Happ Hpos true Hwf Hstor) with (c := c) (u0 := u2)
    as (c' & Hl & Ht').
  - rewrite Evtx. by apply coinbase_first_of.
  - eapply tracks_equiv; [exact Ht|]. symmetry. unfold v at 1. by rewrite with_chain_block, !with_chain_push, with_chain_self.
  - exists c'. cbn [undo_list] in Hl. rewrite undo_list_false in Hl. split; [done|].
    eapply tracks_equiv; [exact Ht'|]. unfold v. by rewrite with_chain_block, !with_chain_push, Echain.
Qed.

Lemma block_anchors_undone (c : CCoinsViewCache B) u2 hsh r1 r2 u :
  (forall ty, u_anchor u ty (empty_root th ty) = true) -> (forall ty, blob_IsNull (u_best u ty) = false) ->
  blob_IsNull (u_block u) = false ->
  r1 = u_best u SPROUT \/ u_anchor u SPROUT r1 = false -> r2 = u_best u SAPLING \/ u_anchor u SAPLING r2 = false ->
  tracks th c u2 (upd_block hsh (push_anchor SAPLING r2 (push_anchor SPROUT r1 u))) ->
  exists c1 c2, PopAnchor (u_best u SPROUT) SPROUT c = Some c1 /\ PopAnchor (u_best u SAPLING) SAPLING c1 = Some c2 /\
    tracks th (SetBestBlock (u_block u) c2) u2 u.
Proof.
  intros Hemp Hbest Hnn Hf1 Hf2 Ht.
  assert (forall ty r, r = u_best u ty \/ u_anchor u ty r = false -> r <> u_best u ty -> r <> empty_root th ty) as Hne.
  { intros ty r [->|Hf] Hr; [done|]. intros ->. rewrite Hemp in Hf. done. }
  destruct (PopAnchor_ok th c SPROUT (u_best u SPROUT) u2 _ Ht (Hbest _)) as (c1 & H1 & Ht1).
  { cbn [upd_block u_best u_anchor]. rewrite !u_best_push. cbn. intros Hr. split; [|by apply Hne].
    rewrite u_anchor_push_ne by done. by apply u_anchor_push. }
  apply (tracks_equiv _ _ _ (upd_block hsh (push_anchor SAPLING r2 u))) in Ht1.
  2: { rewrite pop_block, pop_push_comm, pop_push; [done|naive_solver]. }
  destruct (PopAnchor_ok th c1 SAPLING (u_best u SAPLING) u2 _ Ht1 (Hbest _)) as (c2 & H2 & Ht2).
  { cbn [upd_block u_best u_anchor]. rewrite !u_best_push. cbn. intros Hr. split; [|by apply Hne]. by apply u_anchor_push. }
  exists c1, c2. split; [done|]. split; [done|].
  eapply tracks_equiv; [apply SetBestBlock_ok; [exact Ht2|done]|].
  rewrite pop_block, pop_push by naive_solver. apply block_back.
Qed.

(** What a cache shows. *)
Definition cache_shows (c : CCoinsViewCache B) : utxo := view (ViewModel := cache_model th) c.

(** C1: disconnecting a block undoes connecting it.  If [ConnectBlock] accepts a
    block on a view that shows [u], then [DisconnectBlock], run with the undo
    data it produced on any cache that shows the resulting state, reports
    [DISCONNECT_OK] and leaves the cache showing [u] again: coins with their
    metadata, nullifiers, anchors, best anchors and best block.  Conditions: [u] is
    well formed (coins pruned and in range, best block and anchors set), the block is
    not the genesis block and its transaction ids differ, the note commitment roots it
    adds are new, the parent's index entry holds the current Sapling root, and the undo
    data is read back as it was written. *)
Theorem disconnect_undoes_connect (block : Merkle.CBlock) (pindex pprev : BlockIndex.CBlockIndex) (fe threads : bool)
    (st st' : CValidationState) (undo : CBlockUndo) (pindex' : BlockIndex.CBlockIndex) (c c' c2 : CCoinsViewCache B) (u u2 : utxo)
    (Ht : tracks th c u u) (Hwf : utxo_wf u) (Hnn : blob_IsNull (u_block u) = false)
    (Hbest : forall ty, blob_IsNull (u_best u ty) = false)
    (Hb : connecting block pindex)
    (Hconn : connect block pindex pprev fe threads st c = Some (inr (st', undo, pindex', c')))
    (Hfresh : roots_fresh u (cache_shows c')) (Hsap : parent_root u pprev)
    (Hfile : BlockIndex.nFile pindex <> -1)
    (Hundo : UndoReadFromDisk (BlockIndex.GetUndoPos pindex') (u_block u) = Some undo)
    (Ht2 : tracks th c2 u2 (cache_shows c')) :
  exists c3, DisconnectBlock th tx_GetHash params UndoReadFromDisk block pindex' pprev c2 = Some (DISCONNECT_OK, c3) /\
    tracks th c3 u2 u.
Proof.
  destruct (connect_ok _ _ _ _ _ _ _ _ _ _ _ _ Ht Hb Hconn)
    as (Hrules & (Ehash & Eheight & Epos) & u1 & us & fees & hsh & r1 & r2 & cb & vo & Eh & Eprev & Happ & -> & (_ & _ & Ev) & _).
  unfold cache_shows in *.
  assert (u_best (view (ViewModel := cache_model th) c') SPROUT = r1 /\ u_best (view (ViewModel := cache_model th) c') SAPLING = r2) as [Er1 Er2].
  { destruct Ev as (_ & _ & _ & _ & Ebest). by split; rewrite Ebest; cbn [upd_block u_best]; rewrite !u_best_push. }
  pose proof (Hfresh SPROUT) as Hf1. pose proof (Hfresh SAPLING) as Hf2. rewrite Er1 in Hf1. rewrite Er2 in Hf2.
  assert (forall ty, u_anchor u ty (empty_root th ty) = true) as Hemp.
  { intros ty. destruct Ht as (Hc & _ & (_ & _ & Ea & _)). rewrite <- Ea. by apply (empty_anchor_ok (th := th)). }
  destruct Hsap as (active & Hactive & Hsap). unfold DisconnectBlock. rewrite Ehash, Eh. monad.
  destruct (cache_GetBestBlock c2) as [best c4] eqn:Eb. destruct (GetBestBlock_tracks _ _ _ _ _ Ht2 Eb) as [Ht4 ->].
  rewrite (proj1 (proj2 (proj2 (proj2 Ev)))). cbn [upd_block u_block]. rewrite bool_decide_true by done. cbn [negb].
  rewrite (Epos Hfile), Eprev. monad. rewrite Hundo, Eheight. cbn [vtxundo old_sprout_tree_root].
  destruct (block_txs_undone _ _ _ _ _ _ _ _ _ _ _ Hwf Hb Hrules Happ (tracks_equiv _ _ _ _ Ht4 Ev)) as (Hlen & c5 & Hl & Ht5).
  rewrite length_map, Nat.add_1_r, Hlen, Nat.eqb_refl. cbn [negb]. rewrite Hl. monad. cbn [negb].
  destruct (block_anchors_undone _ _ _ _ _ _ Hemp Hbest Hnn Hf1 Hf2 Ht5) as (c6 & c7 & Hp1 & Hp2 & Ht7).
  rewrite Hp1. monad. rewrite Hactive. monad. rewrite <- Hsap, Hp2. monad. eexists. split; [done|exact Ht7].
Qed.

Lemma push_frame ty r u : u_coins (push_anchor ty r u) = u_coins u /\ u_null (push_anchor ty r u) = u_null u.
Proof. unfold push_anchor. by case_decide. Qed.

(** The running sum of the fees is their total while it fits an [int64_t]. *)
Lemma fees_sum h u txs us fees u' : 
  txs_applied tx_GetHash params enforced mapBlockIndex m h u txs us fees u' -> forall acc,
  0 <= acc -> acc + total fees < 2 ^ 62 ->
  0 <= total fees /\
  fold_left (fun a x => if IsCoinBase (fst x) then a else s64 (a + snd x)) (zip txs fees) acc = acc + total fees.
Proof.
  induction 1 as [|u tx txs undo undos fee fees u1 u' _ _ _ Hfee _ IH]; intros acc Ha Hb.
  { cbn. change (total []) with 0. lia. }
  change (total (fee :: fees)) with (fee + total fees) in *.
  assert (0 <= fee /\ (IsCoinBase tx = true -> fee = 0)) as [Hf Hcb].
  { unfold fee_paid in Hfee. destruct (IsCoinBase tx); [lia|]. split; [|done].
    destruct Hfee as (p & b & _ & _ & outs & sh & out & Hp). intuition lia. }
  assert (0 <= total fees) as Hnn.
  { destruct (Z.le_gt_cases 0 (total fees)) as [|Hneg]; [done|]. destruct (IH 0); lia. }
  destruct (IH (acc + fee)) as [_ IH']; [lia..|]. split; [lia|].
  cbn [zip zip_with fold_left fst snd]. destruct (IsCoinBase tx).
  - rewrite (Hcb eq_refl), Z.add_0_r in IH'. rewrite (Hcb eq_refl). rewrite IH'. lia.
  - rewrite s64_id by (unfold is_s64; lia). rewrite IH'. lia.
Qed.

(** C2: no inflation.  When [ConnectBlock] accepts a block, every transaction but
    the coinbase spends outputs that are unspent and mature in the state its
    predecessors left, reveals no nullifier already revealed, and pays a fee
    that is the value it spends (with what it takes out of the shielded pools)
    less the value it creates (with what it puts into them), never negative; no
    transaction replaces unspent outputs; and the coinbase creates at most the
    block subsidy plus all these fees, as long as the fees add up to less than
    2^62 (the code sums them without a range check). *)
Theorem connect_no_inflation (block : Merkle.CBlock) (pindex pprev : BlockIndex.CBlockIndex) (fe threads : bool)
    (st st' : CValidationState) (undo : CBlockUndo) (pindex' : BlockIndex.CBlockIndex) (c c' : CCoinsViewCache B) (u : utxo)
    (Ht : tracks th c u u) (Hb : connecting block pindex)
    (Hsub : MoneyRange (GetBlockSubsidy (BlockIndex.nHeight pindex) params) = true)
    (Hconn : connect block pindex pprev fe threads st c = Some (inr (st', undo, pindex', c'))) :
  exists us fees u1 cb vo,
    txs_applied tx_GetHash params enforced mapBlockIndex m (BlockIndex.nHeight pindex) u (Merkle.vtx block) us fees u1 /\
    (forall k, u_coins (cache_shows c') k = u_coins u1 k) /\
    (forall ty nf, u_null (cache_shows c') ty nf = u_null u1 ty nf) /\
    head (Merkle.vtx block) = Some cb /\ IsCoinBase cb = true /\ GetValueOut cb = Some vo /\
    (total fees < 2 ^ 62 -> vo <= GetBlockSubsidy (BlockIndex.nHeight pindex) params + total fees).
Proof.
  destruct (connect_ok _ _ _ _ _ _ _ _ _ _ _ _ Ht Hb Hconn)
    as (Hrules & (Ehash & Eheight & Epos) & u1 & us & fees & hsh & r1 & r2 & cb & vo & Eh & Eprev & Happ & -> & (_ & _ & Ev) & Hcb & Hvo & Hle).
  destruct (BlockCheck.rule_coinbase_first _ _ _ _ _ _ _ _ _ Hrules) as (cb' & txs & Evtx & Hiscb & _).
  exists us, fees, u1, cb, vo. split; [done|]. destruct Ev as (Ec & En & _).
  destruct (push_frame SPROUT r1 u1) as [C1 N1]. destruct (push_frame SAPLING r2 (push_anchor SPROUT r1 u1)) as [C2 N2].
  unfold cache_shows. split; [intros k; rewrite (Ec k); cbn [upd_block u_coins]; by rewrite C2, C1|].
  split; [intros ty nf; rewrite (En ty nf); cbn [upd_block u_null]; by rewrite N2, N1|]. split; [done|].
  split; [rewrite Evtx in Hcb; by injection Hcb as <-|]. split; [done|]. intros Htot.
  apply MoneyRange_iff in Hsub. assert (MAX_MONEY < 2 ^ 62) as HM by (unfold MAX_MONEY, COIN; lia).
  destruct (fees_sum _ _ _ _ _ _ Happ 0) as [Hnn Hsum]; [lia..|]. rewrite Hsum, Z.add_0_l in Hle.
  rewrite s64_id in Hle by (unfold is_s64; lia). lia.
Qed.

End block.

(** ** A concrete block *)

(** A hash none of whose trees has the null root. *)
Definition sample_hash : tree_hash := {|
  hash_combine := fun _ a b _ => if bool_decide (a = b) && negb (blob_IsNull a) then a else replicate 32 7;
  hash_EmptyRoot := fun _ _ => replicate 32 1
|}.
#[local] Instance sample_hash_ok : TreeHashOk sample_hash.
Proof. by split; intros; vm_compute. Qed.

Lemma sample_combine_not_null ty a b d : blob_IsNull (hash_combine sample_hash ty a b d) = false.
Proof. cbn [hash_combine sample_hash]. destruct (bool_decide _); [|done]. by destruct (blob_IsNull a) eqn:E. Qed.

Lemma sample_root_not_null ty t : blob_IsNull (tree_root sample_hash ty t) = false.
Proof.
  assert (forall n d r q, blob_IsNull r = false ->
    blob_IsNull (NoteTree.fill_loop (hash_combine sample_hash ty) (hash_EmptyRoot sample_hash ty) n d r q) = false) as Hfill.
  { induction n as [|n IH]; intros d r q Hr; [done|]. cbn [NoteTree.fill_loop].
    destruct (NoteTree.filler_next _ q d). apply IH, sample_combine_not_null. }
  unfold tree_root, NoteTree.root, NoteTree.root_at.
  destruct (NoteTree.take_or_next _ (NoteTree.left t) []) as [l q1]. destruct (NoteTree.take_or_next _ (NoteTree.right t) q1) as [r q2].
  pose proof (sample_combine_not_null ty l r 0) as Hr. revert Hr q2. generalize (hash_combine sample_hash ty l r 0) as x.
  generalize 1%nat. induction (NoteTree.parents t) as [|[p|] ps IH]; intros d x Hx q; cbn [NoteTree.root_loop].
  - by apply Hfill.
  - apply IH, sample_combine_not_null.
  - destruct (NoteTree.filler_next _ q d). apply IH, sample_combine_not_null.
Qed.

(** A chain whose tip, at height 9, left one output of 5 coins unspent. *)
Definition sample_prev_hash : list Z := replicate 32 4.
Definition sample_coin : CCoins := {|
  fCoinBase := false; vout := [CTxOut_null; {| nValue := 5 * COIN; scriptPubKey := [0x51] |}];
  nHeight := 3; nVersion := 1 |}.
Definition sample_db : CCoinsViewDB := {|
  db_coins := {[ replicate 32 7 := sample_coin ]}; db_anchors := fun _ => ∅; db_nullifiers := fun _ => ∅;
  db_best_block := Some sample_prev_hash; db_best_anchor := fun _ => None |}.

#[local] Instance sample_view : CCoinsView CCoinsViewDB := CCoinsViewDB_view sample_hash.
#[local] Instance sample_model : ViewModel CCoinsViewDB := db_model sample_hash.
#[local] Instance sample_ok : CCoinsViewOk (V := CCoinsViewDB) sample_hash := CCoinsViewDB_ok sample_hash.

(** A block at height 10: a coinbase that takes the fee of one coin, and a
    transaction that spends the output. *)
Definition sample_transfer (ins : list CTxIn) (value lock : Z) : CTransaction := {|
  fOverwintered := false; tx_nVersion := 1; nVersionGroupId := 0; vin := ins;
  Transaction.vout := [{| nValue := value; scriptPubKey := [0x52] |}]; nLockTime := lock; nExpiryHeight := 0; valueBalance := 0;
  vShieldedSpend := []; vShieldedOutput := []; vJoinSplit := [];
  joinSplitPubKey := zero_blob 32; joinSplitSig := zero_blob 64; bindingSig := zero_blob 64 |}.
Definition sample_txs : list CTransaction := [
  sample_transfer [{| prevout := {| out_hash := replicate 32 0; out_n := 0xffffffff |}; scriptSig := [0x5a; 0x00];
                      nSequence := 0xffffffff |}] (1 * COIN) 1;
  sample_transfer [{| prevout := {| out_hash := replicate 32 7; out_n := 1 |}; scriptSig := []; nSequence := 0xffffffff |}]
    (4 * COIN) 2].
Definition sample_header (root : list Z) : BlockIndex.CBlockHeader := {|
  BlockIndex.hdr_nVersion := 4; BlockIndex.hdr_hashPrevBlock := sample_prev_hash; BlockIndex.hdr_hashMerkleRoot := root;
  BlockIndex.hdr_hashFinalSaplingRoot := replicate 32 1; BlockIndex.hdr_nTime := 1000;
  BlockIndex.hdr_nBits := 0x1f07ffff; BlockIndex.hdr_nNonce := zero_blob 32 |}.
Definition sample_txid (tx : CTransaction) : list Z := nLockTime tx :: replicate 31 2.
Definition sample_block : Merkle.CBlock := {|
  Merkle.header := sample_header (Merkle.merkle_root Merkle.sample_hash (map sample_txid sample_txs));
  Merkle.vtx := sample_txs; Merkle.vMerkleTree := [] |}.
Definition sample_index (hash : list Z) (height : Z) : BlockIndex.CBlockIndex := {|
  BlockIndex.phashBlock := Some hash; BlockIndex.pprev := None; BlockIndex.pskip := None; BlockIndex.nHeight := height;
  BlockIndex.nFile := 0; BlockIndex.nDataPos := 8; BlockIndex.nUndoPos := 0; BlockIndex.nChainWork := zero_blob 32;
  BlockIndex.nTx := 1; BlockIndex.nChainTx := 1; BlockIndex.nStatus := BlockIndex.BLOCK_VALID_TRANSACTIONS;
  BlockIndex.nCachedBranchId := None; BlockIndex.hashSproutAnchor := zero_blob 32;
  BlockIndex.hashFinalSproutRoot := zero_blob 32; BlockIndex.nSproutValue := None; BlockIndex.nChainSproutValue := None;
  BlockIndex.nSaplingValue := 0; BlockIndex.nChainSaplingValue := None; BlockIndex.nVersion := 4;
  BlockIndex.hashMerkleRoot := zero_blob 32; BlockIndex.hashFinalSaplingRoot := replicate 32 1;
  BlockIndex.nTime := 900; BlockIndex.nBits := 0x1f07ffff; BlockIndex.nNonce := zero_blob 32;
  BlockIndex.nSequenceId := 0 |}.
Definition sample_prev : BlockIndex.CBlockIndex := sample_index sample_prev_hash 9.
Definition sample_tip : BlockIndex.CBlockIndex := sample_index (replicate 32 5) 10.
Definition sample_connect :
    option (CValidationState * BlockIndex.CBlockIndex +
            CValidationState * CBlockUndo * BlockIndex.CBlockIndex * CCoinsViewCache CCoinsViewDB) :=
  connect sample_hash CMainParams true true (replicate 32 6) sample_txid (fun _ => replicate 32 5)
    (fun _ => zero_blob 32) Merkle.sample_hash (fun _ _ => true) (fun _ _ _ _ => None)
    (fun _ => []) (fun _ => []) (fun _ => []) 1000 {[ sample_prev_hash := 0%nat ]} {[ 0%nat := sample_prev ]}
    (fun _ _ _ => inr 8) sample_block sample_tip sample_prev true false CValidationState_init (new_cache sample_db).
Definition sample_undo : CBlockUndo :=
  match sample_connect with Some (inr (_, undo, _, _)) => undo
  | _ => {| vtxundo := []; old_sprout_tree_root := null256 |} end.
Definition sample_tip' : BlockIndex.CBlockIndex :=
  match sample_connect with Some (inr (_, _, b, _)) => b | _ => sample_tip end.
Definition sample_connected : CCoinsViewCache CCoinsViewDB :=
  match sample_connect with Some (inr (_, _, _, c)) => c | _ => new_cache sample_db end.

Lemma sample_connect_eq : sample_connect = Some (inr (CValidationState_init, sample_undo, sample_tip', sample_connected)).
Proof. vm_compute. reflexivity. Qed.

Lemma sample_connecting : connecting (replicate 32 6) sample_txid (fun _ => replicate 32 5) sample_block sample_tip.
Proof.
  split.
  - by vm_compute.
  - apply (bool_decide_unpack _). vm_compute. exact I.
  - repeat constructor; vm_compute; congruence.
  - exists (replicate 32 5). split; by vm_compute.
  - by vm_compute.
Qed.

Lemma sample_tracks : tracks sample_hash (new_cache sample_db) (view sample_db) (view sample_db).
Proof. apply (new_cache_ok sample_hash). split; [by apply map_Forall_singleton|intros ty; apply map_Forall_empty]. Qed.

Lemma sample_wf : utxo_wf (view sample_db).
Proof.
  intros k cs Hk. change (({[ replicate 32 7 := sample_coin ]} : gmap (list Z) CCoins) !! k = Some cs) in Hk.
  apply lookup_singleton_Some in Hk as [_ <-].
  split; [by vm_compute|]. split; [|split; by vm_compute].
  intros o Ho. apply elem_of_cons in Ho as [->|Ho]; [done|]. apply list_elem_of_singleton in Ho as ->. by vm_compute.
Qed.

Lemma sample_connected_tracks :
  tracks sample_hash sample_connected (view sample_db) (cache_shows sample_hash sample_connected).
Proof.
  pose proof (connect_ok (B := CCoinsViewDB) (H := sample_view) sample_hash sample_root_not_null CMainParams true true (replicate 32 6) sample_txid
      (fun _ => replicate 32 5) (fun _ => zero_blob 32) Merkle.sample_hash (fun _ _ => true) (fun _ _ _ _ => None)
      (fun _ => []) (fun _ => []) (fun _ => []) 1000 {[ sample_prev_hash := 0%nat ]} {[ 0%nat := sample_prev ]}
      (fun _ _ _ => inr 8) sample_block sample_tip sample_prev true false CValidationState_init CValidationState_init sample_undo sample_tip'
      (new_cache sample_db) sample_connected (view sample_db) sample_tracks sample_connecting) as Hok.
  pose proof sample_connect_eq as Heq. unfold sample_connect in Heq.
  destruct (Hok Heq) as (_ & _ & ? & ? & ? & ? & ? & ? & ? & ? & _ & _ & _ & _ & (Hw & Hv & _) & _).
  split; [exact Hw|]. split; [exact Hv|reflexivity].
Qed.

Lemma disconnect_undoes_connect_witness :
  exists c3, DisconnectBlock sample_hash sample_txid CMainParams (fun _ _ => Some sample_undo) sample_block sample_tip' sample_prev
      sample_connected = Some (DISCONNECT_OK, c3) /\ tracks sample_hash c3 (view sample_db) (view sample_db).
Proof.
  apply (disconnect_undoes_connect sample_hash sample_root_not_null CMainParams true true (replicate 32 6) sample_txid
    (fun _ => replicate 32 5) (fun _ => zero_blob 32) Merkle.sample_hash (fun _ _ => true) (fun _ _ _ _ => None)
    (fun _ => []) (fun _ => []) (fun _ => []) 1000 {[ sample_prev_hash := 0%nat ]} {[ 0%nat := sample_prev ]}
    (fun _ _ _ => inr 8) (fun _ _ => Some sample_undo)
    sample_block sample_tip sample_prev true false CValidationState_init CValidationState_init sample_undo sample_tip'
    (new_cache sample_db) sample_connected sample_connected (view sample_db) (view sample_db) sample_tracks sample_wf).
  - by vm_compute.
  - intros []; by vm_compute.
  - exact sample_connecting.
  - pose proof sample_connect_eq as Heq. unfold sample_connect in Heq. exact Heq.
  - intros []; left; by vm_compute.
  - exists true. split; by vm_compute.
  - by vm_compute.
  - reflexivity.
  - exact sample_connected_tracks.
Defined.

Lemma connect_no_inflation_witness :
  exists us fees u1 cb vo,
    txs_applied sample_txid CMainParams true {[ sample_prev_hash := 0%nat ]} {[ 0%nat := sample_prev ]} 10
      (view sample_db) sample_txs us fees u1 /\
    head sample_txs = Some cb /\ GetValueOut cb = Some vo /\
    (total fees < 2 ^ 62 -> vo <= GetBlockSubsidy 10 CMainParams + total fees).
Proof.
  destruct (connect_no_inflation (B := CCoinsViewDB) (H := sample_view) sample_hash sample_root_not_null CMainParams true true (replicate 32 6) sample_txid
    (fun _ => replicate 32 5) (fun _ => zero_blob 32) Merkle.sample_hash (fun _ _ => true) (fun _ _ _ _ => None)
    (fun _ => []) (fun _ => []) (fun _ => []) 1000 {[ sample_prev_hash := 0%nat ]} {[ 0%nat := sample_prev ]}
    (fun _ _ _ => inr 8) sample_block sample_tip sample_prev true false CValidationState_init CValidationState_init sample_undo sample_tip'
    (new_cache sample_db) sample_connected (view sample_db) sample_tracks sample_connecting)
    as (us & fees & u1 & cb & vo & Happ & _ & _ & Hcb & _ & Hvo & Hle).
  - by vm_compute.
  - pose proof sample_connect_eq as Heq. unfold sample_connect in Heq. exact Heq.
  - exists us, fees, u1, cb, vo. split; [exact Happ|]. split; [exact Hcb|]. split; [exact Hvo|]. exact Hle.
Defined.

End ConnectFacts.
