(* ===== verification/CheckQueue.v ===== *)
(** * The parallel verification queue (src/checkqueue.h)

    [CCheckQueue] runs script checks on worker threads; the master adds batches of
    checks, joins the workers in [Wait], and gets the conjunction of all results.
    The shared fields are guarded by one mutex, so a critical section is one
    step; [thread_step] is the code from one release of the mutex to the next.
    A system is the shared state, the master, the workers, and (a ghost) the
    checks added since the last [Wait] returned; [step] interleaves them, with
    threads starting and spurious wake-ups at any time.

    The theorems hold for every interleaving: [Wait] returns exactly the
    conjunction of the checks added, no wake-up is lost, every run of [Wait]
    takes a bounded number of steps, and the queue is idle again afterwards. *)

From stdpp Require Import base list list_numbers numbers option relations.
From Stdlib Require Import ZArith Lia Bool.
From S2P Require Import Prelude.
#[local] Open Scope Z_scope.

Module CheckQueue.

Section queue.
(** A check and its [operator()]. *)
Context {T : Type} (run : T -> bool).

(** The fields of [CCheckQueue] that the mutex guards. *)
Record CCheckQueue := {
  queue : list T;
  nIdle : Z;
  nTotal : Z;
  fAllOk : bool;
  nTodo : Z;
  fQuit : bool;
  nBatchSize : Z
}.

Definition CCheckQueue_init (nBatchSizeIn : Z) : CCheckQueue :=
  {| queue := []; nIdle := 0; nTotal := 0; fAllOk := true; nTodo := 0; fQuit := false; nBatchSize := nBatchSizeIn |}.

(** Where a thread is in [Loop]: about to lock the mutex at the top of the loop, with
    its locals [nNow] and [fOk]; executing its batch; blocked in [cond.wait];
    notified and about to lock the mutex again; returned. *)
Inductive thread :=
| Enter (nNow : Z) (fOk : bool)
| Work (vChecks : list T) (nNow : Z) (fOk : bool)
| Waiting
| Woken
| Returned (fRet : bool).

(** "first do the clean-up of the previous loop run", or the first iteration; the
    flag says that [condMaster] is notified. *)
Definition clean_up (fMaster : bool) (nNow : Z) (fOk : bool) (q : CCheckQueue) : bool * CCheckQueue :=
  if negb (nNow =? 0) then
    let nTodo := u32 (nTodo q - nNow) in
    ((nTodo =? 0) && negb fMaster,
     {| queue := queue q; nIdle := nIdle q; nTotal := nTotal q; fAllOk := fAllOk q && fOk; nTodo := nTodo;
        fQuit := fQuit q; nBatchSize := nBatchSize q |})
  else
    (false,
     {| queue := queue q; nIdle := nIdle q; nTotal := nTotal q + 1; fAllOk := fAllOk q; nTodo := nTodo q;
        fQuit := fQuit q; nBatchSize := nBatchSize q |}).

(** The size of the next batch. *)
Definition batch_size (q : CCheckQueue) : Z :=
  Z.max 1 (Z.min (nBatchSize q) (u32 (Z.of_nat (length (queue q))) / u32 (nTotal q + nIdle q + 1))).

(** From [while (queue.empty())] to the end of the critical section: return, wait,
    or take a batch from the back of the queue. *)
Definition take_work (fMaster : bool) (q : CCheckQueue) : thread * CCheckQueue :=
  match queue q with
  | [] =>
      if (fMaster || fQuit q) && (nTodo q =? 0) then
        (Returned (fAllOk q),
         {| queue := []; nIdle := nIdle q; nTotal := nTotal q - 1; fAllOk := if fMaster then true else fAllOk q;
            nTodo := nTodo q; fQuit := fQuit q; nBatchSize := nBatchSize q |})
      else
        (Waiting,
         {| queue := []; nIdle := nIdle q + 1; nTotal := nTotal q; fAllOk := fAllOk q; nTodo := nTodo q;
            fQuit := fQuit q; nBatchSize := nBatchSize q |})
  | _ =>
      let nNow := batch_size q in
      let keep := (length (queue q) - Z.to_nat nNow)%nat in
      (Work (rev (drop keep (queue q))) nNow (fAllOk q),
       {| queue := take keep (queue q); nIdle := nIdle q; nTotal := nTotal q; fAllOk := fAllOk q; nTodo := nTodo q;
          fQuit := fQuit q; nBatchSize := nBatchSize q |})
  end.

(** The next step of a thread, if it is not blocked or finished: whether it notifies
    the master, its new place and the new shared state. *)
Definition thread_step (fMaster : bool) (t : thread) (q : CCheckQueue) : option (bool * thread * CCheckQueue) :=
  match t with
  | Enter nNow fOk =>
      let '(notify, q) := clean_up fMaster nNow fOk q in
      let '(t, q) := take_work fMaster q in
      Some (notify, t, q)
  | Woken =>
      let q := {| queue := queue q; nIdle := nIdle q - 1; nTotal := nTotal q; fAllOk := fAllOk q; nTodo := nTodo q;
                  fQuit := fQuit q; nBatchSize := nBatchSize q |} in
      let '(t, q) := take_work fMaster q in
      Some (false, t, q)
  | Work (check :: vChecks) nNow fOk => Some (false, Work vChecks nNow (if fOk then run check else fOk), q)
  | Work [] nNow fOk => Some (false, Enter nNow fOk, q)
  | Waiting | Returned _ => None
  end.

(** [Add] *)
Definition Add (vChecks : list T) (q : CCheckQueue) : CCheckQueue :=
  {| queue := queue q ++ vChecks; nIdle := nIdle q; nTotal := nTotal q; fAllOk := fAllOk q;
     nTodo := u32 (nTodo q + Z.of_nat (length vChecks)); fQuit := fQuit q; nBatchSize := nBatchSize q |}.

Definition IsIdle (q : CCheckQueue) : bool :=
  (nTotal q =? nIdle q) && (nTodo q =? 0) && Bool.eqb (fAllOk q) true.

(** ** The system of threads *)

(** The master is outside [Wait] or in its [Loop(true)]. *)
Inductive master_state := Outside | Inside (t : thread).

Record sys := { shared : CCheckQueue; master : master_state; workers : list thread; added : list T }.

Definition sys_init (nBatchSizeIn : Z) : sys :=
  {| shared := CCheckQueue_init nBatchSizeIn; master := Outside; workers := []; added := [] |}.

Definition wake (t : thread) : thread := match t with Waiting => Woken | _ => t end.
Definition wake_master (m : master_state) : master_state :=
  match m with Inside t => Inside (wake t) | Outside => Outside end.

(** [notify_one] and [notify_all] on [condWorker] after [n] checks were added. *)
Inductive notified : nat -> list thread -> list thread -> Prop :=
| notify_none ws : notified 0 ws ws
| notify_one_of ws i : ws !! i = Some Waiting -> notified 1 ws (<[i := Woken]> ws)
| notify_one_lost ws : Waiting ∉ ws -> notified 1 ws ws
| notify_all n ws : (2 <= n)%nat -> notified n ws (map wake ws).

(** Steps of the threads in [Loop] (the program), and of everything else. *)
Inductive loop_step : sys -> sys -> Prop :=
| worker_step s i t notify t' q :
    workers s !! i = Some t -> thread_step false t (shared s) = Some (notify, t', q) ->
    loop_step s {| shared := q; master := if notify : bool then wake_master (master s) else master s;
                   workers := <[i := t']> (workers s); added := added s |}
| master_step s t notify t' q :
    master s = Inside t -> thread_step true t (shared s) = Some (notify, t', q) ->
    loop_step s {| shared := q; master := Inside t'; workers := workers s; added := added s |}.

Inductive wake_step : sys -> sys -> Prop :=
| start_worker s :
    wake_step s {| shared := shared s; master := master s; workers := workers s ++ [Enter 0 true]; added := added s |}
| spurious_worker s i :
    workers s !! i = Some Waiting ->
    wake_step s {| shared := shared s; master := master s; workers := <[i := Woken]> (workers s); added := added s |}
| spurious_master s :
    master s = Inside Waiting ->
    wake_step s {| shared := shared s; master := Inside Woken; workers := workers s; added := added s |}.

Inductive client_step : sys -> sys -> Prop :=
| master_add s vChecks ws :
    master s = Outside -> notified (length vChecks) (workers s) ws ->
    client_step s {| shared := Add vChecks (shared s); master := Outside; workers := ws; added := added s ++ vChecks |}
| master_wait s :
    master s = Outside ->
    client_step s {| shared := shared s; master := Inside (Enter 0 true); workers := workers s; added := added s |}
| master_return s b :
    master s = Inside (Returned b) ->
    client_step s {| shared := shared s; master := Outside; workers := workers s; added := [] |}.

Definition step (s s' : sys) : Prop := loop_step s s' \/ wake_step s s' \/ client_step s s'.

(** Runs in which fewer than 2^32 checks are added at a time. *)
Definition bounded (s : sys) : Prop := Z.of_nat (length (added s)) < 2 ^ 32.
Definition reachable (nBatchSizeIn : Z) : sys -> Prop :=
  rtc (fun s s' => step s s' /\ bounded s') (sys_init nBatchSizeIn).


(** ** The invariant *)

(** What a thread holds: checks taken and not yet accounted for, the conjunction of
    its results, whether it counts as a worker and as idle. *)
Definition owed (t : thread) : Z :=
  match t with Enter n _ | Work _ n _ => n | _ => 0 end.
Definition verdict (t : thread) : bool :=
  match t with
  | Enter n fOk => if n =? 0 then true else fOk
  | Work vChecks _ fOk => fOk && forallb run vChecks
  | _ => true
  end.
Definition counted (t : thread) : Z :=
  match t with Enter n _ => if n =? 0 then 0 else 1 | Returned _ => 0 | _ => 1 end.
Definition idle (t : thread) : Z := match t with Waiting | Woken => 1 | _ => 0 end.
Definition thread_ok (t : thread) : Prop :=
  match t with Enter n _ => 0 <= n | Work _ n _ => 1 <= n | _ => True end.

Fixpoint zsum (f : thread -> Z) (l : list thread) : Z :=
  match l with [] => 0 | t :: l' => f t + zsum f l' end.

#[local] Instance zsum_perm f : Proper ((≡ₚ) ==> eq) (zsum f).
Proof. induction 1; cbn; lia. Qed.
#[local] Instance forallb_perm (f : thread -> bool) : Proper ((≡ₚ) ==> eq) (forallb f).
Proof. induction 1; cbn; [done|congruence|destruct (f _), (f _); done|congruence]. Qed.

Lemma thread_sum_app f l k : zsum f (l ++ k) = zsum f l + zsum f k.
Proof. induction l as [|t l IH]; cbn; lia. Qed.

(** One thread of a list, the rest unchanged. *)
Lemma focus (l : list thread) i t : l !! i = Some t ->
  exists rest, l ≡ₚ t :: rest /\ forall t', <[i := t']> l ≡ₚ t' :: rest.
Proof.
  intros Hi. exists (take i l ++ drop (S i) l). apply lookup_lt_Some in Hi as Hlt. split.
  - rewrite <- (take_drop_middle l i t Hi) at 1. by rewrite Permutation_middle.
  - intros t'. rewrite insert_take_drop by done. by rewrite Permutation_middle.
Qed.

Definition threads (s : sys) : list thread :=
  match master s with Outside => workers s | Inside t => t :: workers s end.

(** The account of the shared state against the threads [ts] and [k] more that are
    in their critical section, for the checks [l]. *)
Record account (k : Z) (q : CCheckQueue) (ts : list thread) (l : list T) : Prop := {
  acc_threads : Forall thread_ok ts;
  acc_todo : nTodo q = Z.of_nat (length (queue q)) + zsum owed ts;
  acc_bound : nTodo q < 2 ^ 32;
  acc_total : nTotal q = k + zsum counted ts;
  acc_idle : nIdle q = zsum idle ts;
  acc_verdict : fAllOk q && forallb run (queue q) && forallb verdict ts = forallb run l;
  acc_quit : fQuit q = false
}.

#[local] Instance account_perm k q : Proper ((≡ₚ) ==> eq ==> iff) (account k q).
Proof.
  assert (forall ts ts' l, ts ≡ₚ ts' -> account k q ts l -> account k q ts' l) as H.
  { intros ts ts' l E [H1 H2 H3 H4 H5 H6 H7]. split; [by rewrite <- E|by rewrite <- E|done|by rewrite <- E..|done]. }
  intros ts ts' E l l' <-. split; apply H; [done|by symmetry].
Qed.

Lemma owed_nonneg ts : Forall thread_ok ts -> 0 <= zsum owed ts.
Proof. induction 1 as [|[n ?|? n ?| | |?] ts Ht _ IH]; cbn in *; lia. Qed.

(** With nothing left to do, no thread holds a check. *)
Lemma owed_zero ts : Forall thread_ok ts -> zsum owed ts = 0 -> Forall (fun t => owed t = 0) ts.
Proof.
  induction 1 as [|t ts Ht Hts IH]; [constructor|]. cbn. intros Hz. pose proof (owed_nonneg ts Hts).
  assert (0 <= owed t) by (destruct t; cbn in *; lia). constructor; [lia|apply IH; lia].
Qed.

Lemma owed_zero_thread t : thread_ok t -> owed t = 0 -> verdict t = true /\ idle t = counted t.
Proof. destruct t as [n ?|? n ?| | |?]; cbn; intros Hok Hz; [by subst|lia|done|done|done]. Qed.

Lemma settled ts : Forall thread_ok ts -> zsum owed ts = 0 -> forallb verdict ts = true /\ zsum idle ts = zsum counted ts.
Proof.
  intros Hok Hz. pose proof (owed_zero ts Hok Hz) as Ho. clear Hz. induction Hok as [|t ts Ht _ IH]; [done|].
  inversion_clear Ho as [|? ? H1 H2]. destruct (IH H2) as [E1 E2]. destruct (owed_zero_thread t Ht H1) as [E3 E4].
  cbn. rewrite E1, E3, E2, E4. done.
Qed.

(** *** Preservation *)

Lemma batch_size_range q : queue q <> [] ->
  1 <= batch_size q /\ (1 <= Z.to_nat (batch_size q))%nat.
Proof. intros _. unfold batch_size. lia. Qed.

Lemma batch_fits q : Z.of_nat (length (queue q)) < 2 ^ 32 -> queue q <> [] ->
  (Z.to_nat (batch_size q) <= length (queue q))%nat.
Proof.
  intros Hl Hne. assert (1 <= length (queue q))%nat by (destruct (queue q); [done|cbn; lia]).
  unfold batch_size. rewrite (u32_id (Z.of_nat _)) by (unfold is_u32; lia).
  set (d := u32 _). assert (0 <= d) by apply u32_range.
  assert (Z.of_nat (length (queue q)) / d <= Z.of_nat (length (queue q))).
  { destruct (decide (d = 0)) as [->|]; [rewrite Z.div_0_r; lia|]. apply Z.div_le_upper_bound; nia. }
  lia.
Qed.

Lemma forallb_rev (l : list T) : forallb run (rev l) = forallb run l.
Proof. induction l as [|x l IH]; [done|]. cbn. rewrite forallb_app, IH. cbn. destruct (run x), (forallb run l); done. Qed.

Lemma take_work_ok fMaster q rest l t q' : account 1 q rest l -> take_work fMaster q = (t, q') ->
  nTodo q' = nTodo q /\
  if match t with Returned _ => true | _ => false end
  then t = Returned (forallb run l) /\ fMaster = true /\ nTodo q = 0 /\ account 0 q' (t :: rest) []
  else account 0 q' (t :: rest) l /\ (t = Waiting -> fMaster = true -> nTodo q' <> 0).
Proof.
  intros [H1 H2 H3 H4 H5 H6 H7] Ht. pose proof (owed_nonneg rest H1) as Hnn. unfold take_work in Ht.
  destruct (queue q) as [|x xs] eqn:Eq.
  - cbn in H6, H2. rewrite H7, orb_false_r in Ht. destruct (fMaster && (nTodo q =? 0)) eqn:Eb.
    + injection Ht as <- <-. apply andb_true_iff in Eb as [-> Ez]. apply Z.eqb_eq in Ez. split; [done|].
      destruct (settled rest H1) as [Sv Si]; [lia|]. rewrite Sv, !andb_true_r in H6. rewrite H6. split; [done|].
      split; [done|]. split; [done|]. split; cbn; [by constructor|lia|lia|lia|lia| |done]. by rewrite Sv.
    + injection Ht as <- <-. split; [done|]. split; [split; cbn; [by constructor|lia|lia|lia|lia|done|done]|].
      intros _ ->. cbn in Eb. by apply Z.eqb_neq in Eb.
  - rewrite <- Eq in *. assert (queue q <> []) as Hne by (by rewrite Eq).
    destruct (batch_size_range q Hne) as [Hb1 Hb2]. assert (Z.of_nat (length (queue q)) < 2 ^ 32) as Hlt by lia.
    pose proof (batch_fits q Hlt Hne) as Hb3. rewrite Eq in Ht. rewrite <- Eq in Ht. injection Ht as <- <-. split; [done|].
    split; [|done]. set (k := (length (queue q) - Z.to_nat (batch_size q))%nat).
    split; cbn; [by constructor|rewrite length_take; lia|lia|lia|lia| |done].
    rewrite <- H6. rewrite <- (take_drop k (queue q)) at 3. rewrite forallb_app, forallb_rev.
    destruct (fAllOk q), (forallb run (take k (queue q))), (forallb run (drop k (queue q))), (forallb verdict rest); done.
Qed.

Lemma clean_up_ok fMaster n fOk q rest l notify q' :
  account 0 q (Enter n fOk :: rest) l -> clean_up fMaster n fOk q = (notify, q') ->
  account 1 q' rest l /\ nTodo q' <= nTodo q /\
  (nTodo q' = 0 -> nTodo q = 0 \/ fMaster = true \/ notify = true).
Proof.
  intros [H1 H2 H3 H4 H5 H6 H7] Hc. inversion_clear H1 as [|? ? Hok Hrest]. pose proof (owed_nonneg rest Hrest) as Hnn.
  cbn in Hok, H2, H4, H5, H6. unfold clean_up in Hc. destruct (Z.eqb_spec n 0) as [->|Hn]; cbn [negb] in Hc.
  - injection Hc as <- <-. cbn. split; [|lia]. split; cbn; [done|lia|lia|lia|lia|done|done].
  - injection Hc as <- <-. cbn. rewrite u32_id by (unfold is_u32; lia). split; [|split; [lia|]].
    + split; cbn; [done|lia|lia|lia|lia| |done]. rewrite <- H6.
      destruct (fAllOk q), fOk, (forallb run (queue q)), (forallb verdict rest); done.
    + intros ->. destruct fMaster; auto.
Qed.

(** What one step of a thread does to the account. *)
Lemma thread_step_ok fMaster t q rest l notify t' q' :
  account 0 q (t :: rest) l -> thread_step fMaster t q = Some (notify, t', q') ->
  (nTodo q' <= nTodo q /\ (nTodo q' = 0 -> nTodo q = 0 \/ fMaster = true \/ notify = true)) /\
  if match t' with Returned _ => true | _ => false end
  then t' = Returned (forallb run l) /\ fMaster = true /\ nTodo q' = 0 /\ account 0 q' (t' :: rest) []
  else account 0 q' (t' :: rest) l /\ (t' = Waiting -> fMaster = true -> nTodo q' <> 0).
Proof.
  intros Ha Hs. destruct t as [n fOk|[|c cs] n fOk| | |b]; cbn in Hs; try done.
  - destruct (clean_up fMaster n fOk q) as [ntf q1] eqn:Ec. destruct (take_work fMaster q1) as [t1 q2] eqn:Et.
    injection Hs as <- <- <-. destruct (clean_up_ok _ _ _ _ _ _ _ _ Ha Ec) as (Ha1 & Hle & Hz).
    destruct (take_work_ok _ _ _ _ _ _ Ha1 Et) as (E & Hr). rewrite E. split; [done|].
    destruct t1; cbn in Hr |- *; rewrite ?E in Hr; done.
  - injection Hs as <- <- <-. destruct Ha as [H1 H2 H3 H4 H5 H6 H7]. inversion_clear H1 as [|? ? Hok Hrest].
    cbn in Hok, H2, H4, H5, H6. split; [split; [lia|auto]|]. split; [|done].
    split; cbn; [constructor; [cbn; lia|done]|lia|lia| |lia| |done];
      rewrite (proj2 (Z.eqb_neq n 0)) by lia; [lia|]. by rewrite <- H6, andb_true_r.
  - injection Hs as <- <- <-. destruct Ha as [H1 H2 H3 H4 H5 H6 H7]. inversion_clear H1 as [|? ? Hok Hrest].
    cbn in Hok, H2, H4, H5, H6. split; [split; [lia|auto]|]. split; [|done].
    split; cbn; [by constructor|lia|lia|lia|lia| |done]. rewrite <- H6. by destruct fOk, (run c).
  - destruct (take_work fMaster _) as [t1 q2] eqn:Et. injection Hs as <- <- <-.
    assert (account 1 {| queue := queue q; nIdle := nIdle q - 1; nTotal := nTotal q; fAllOk := fAllOk q; nTodo := nTodo q;
                  fQuit := fQuit q; nBatchSize := nBatchSize q |} rest l) as Ha1.
    { destruct Ha as [H1 H2 H3 H4 H5 H6 H7]. inversion_clear H1. cbn in *. split; cbn; [done|lia|lia|lia|lia|done|done]. }
    destruct (take_work_ok _ _ _ _ _ _ Ha1 Et) as (E & Hr). cbn [nTodo] in E, Hr. rewrite E.
    split; [split; [lia|auto]|]. destruct t1; cbn in Hr |- *; rewrite ?E in Hr; done.
Qed.


(** A thread waits only when the queue is empty, and only [Add] fills it. *)
Lemma thread_step_queue fMaster t q notify t' q' : thread_step fMaster t q = Some (notify, t', q') ->
  (queue q = [] -> queue q' = []) /\ (t' = Waiting -> queue q' = []).
Proof.
  assert (forall q1 t1 q2, take_work fMaster q1 = (t1, q2) ->
    (queue q1 = [] -> queue q2 = []) /\ (t1 = Waiting -> queue q2 = [])) as Htake.
  { intros q1 t1 q2. unfold take_work. destruct (queue q1) as [|x xs] eqn:E; [|by intros [= <- <-]].
    destruct (_ && _); by intros [= <- <-]. }
  intros Hs. destruct t as [n ok|[|c cs] n ok| | |b]; cbn in Hs; try done; try (by injection Hs as <- <- <-).
  - destruct (clean_up fMaster n ok q) as [ntf q1] eqn:Ec. destruct (take_work fMaster q1) as [t1 q2] eqn:Et.
    injection Hs as <- <- <-. destruct (Htake _ _ _ Et) as [H1 H2]. split; [|done]. intros Hq. apply H1.
    unfold clean_up in Ec. destruct (negb (n =? 0)); by injection Ec as <- <-.
  - destruct (take_work fMaster _) as [t1 q2] eqn:Et. injection Hs as <- <- <-. by destruct (Htake _ _ _ Et).
Qed.

(** *** The invariant of the system *)

(** The checks the shared state still accounts for. *)
Definition open_checks (s : sys) : list T :=
  match master s with Inside (Returned _) => [] | _ => added s end.
(** Nothing was added since [Wait] last returned. *)
Definition at_rest (s : sys) : Prop :=
  match master s with Inside (Returned _) => True | Outside => added s = [] | _ => False end.

Record inv (s : sys) : Prop := {
  inv_account : account 0 (shared s) (threads s) (open_checks s);
  inv_result : forall b, master s = Inside (Returned b) -> b = forallb run (added s);
  inv_waiting : master s = Inside Waiting -> nTodo (shared s) <> 0 /\ queue (shared s) = [];
  inv_rest : at_rest s -> nTodo (shared s) = 0;
  inv_todo : nTodo (shared s) <= Z.of_nat (length (added s))
}.

Lemma wake_ok t : owed (wake t) = owed t /\ verdict (wake t) = verdict t /\ counted (wake t) = counted t /\
  idle (wake t) = idle t /\ (thread_ok t -> thread_ok (wake t)).
Proof. by destruct t. Qed.

(** Two lists of threads that differ only in who has been notified. *)
Definition same_threads (ts ts' : list thread) : Prop := Forall2 (fun t t' => t' = t \/ t' = wake t) ts ts'.

Lemma account_wake k q ts ts' l : same_threads ts ts' -> account k q ts l -> account k q ts' l.
Proof.
  intros Hs [H1 H2 H3 H4 H5 H6 H7].
  assert (zsum owed ts' = zsum owed ts /\ zsum counted ts' = zsum counted ts /\ zsum idle ts' = zsum idle ts /\
    forallb verdict ts' = forallb verdict ts /\ Forall thread_ok ts') as (E1 & E2 & E3 & E4 & E5).
  { clear -Hs H1. induction Hs as [|t t' ts ts' Ht _ IH]; [done|]. inversion_clear H1 as [|? ? Hok Hts].
    destruct (IH Hts) as (E1 & E2 & E3 & E4 & E5). destruct (wake_ok t) as (W1 & W2 & W3 & W4 & W5).
    cbn. rewrite E1, E2, E3, E4. destruct Ht as [-> | ->]; [by split_and!; try constructor|].
    rewrite W1, W2, W3, W4. split_and!; try constructor; auto. }
  split; [done|by rewrite E1|done|by rewrite E2|by rewrite E3|by rewrite E4|done].
Qed.

Lemma same_threads_refl ts : same_threads ts ts.
Proof. apply Forall_Forall2_diag, Forall_true. auto. Qed.

Lemma same_threads_insert ts i : ts !! i = Some Waiting -> same_threads ts (<[i := Woken]> ts).
Proof.
  revert i. induction ts as [|t ts IH]; intros [|i] Hi; [done|done|injection Hi as ->|].
  - constructor; [by right|apply same_threads_refl].
  - constructor; [by left|by apply IH].
Qed.

Lemma notified_same n ws ws' : notified n ws ws' -> same_threads ws ws'.
Proof.
  destruct 1; [apply same_threads_refl|by apply same_threads_insert|apply same_threads_refl|].
  unfold same_threads. rewrite Forall2_fmap_r. apply Forall_Forall2_diag, Forall_true. auto.
Qed.

(** A thread of the system takes its step. *)
Lemma inv_worker s i t notify t' q : inv s -> workers s !! i = Some t -> thread_step false t (shared s) = Some (notify, t', q) ->
  inv {| shared := q; master := if notify : bool then wake_master (master s) else master s;
         workers := <[i := t']> (workers s); added := added s |}.
Proof.
  intros [I1 I2 I3 I4 I5] Hi Hs. destruct (focus _ _ _ Hi) as (rest & E & E').
  set (ms := match master s with Outside => [] | Inside tm => [tm] end).
  assert (threads s ≡ₚ t :: rest ++ ms) as Et.
  { unfold threads, ms. destruct (master s); rewrite E; [by rewrite app_nil_r|]. by rewrite <- Permutation_cons_append, Permutation_swap. }
  rewrite Et in I1. destruct (thread_step_ok _ _ _ _ _ _ _ _ I1 Hs) as ([Hle Hz] & Hr).
  assert (account 0 q (t' :: rest ++ ms) (open_checks s)) as Hacc.
  { destruct t'; cbn in Hr; [apply Hr..|]. by destruct Hr as (_ & ? & _). }
  assert (0 <= nTodo q) as Hq0.
  { pose proof (acc_todo _ _ _ _ Hacc) as Ha. pose proof (owed_nonneg _ (acc_threads _ _ _ _ Hacc)). lia. }
  set (m' := if notify then wake_master (master s) else master s).
  assert (m' = master s \/ m' = wake_master (master s)) as Hm' by (unfold m'; destruct notify; auto).
  assert (forall b, m' = Inside (Returned b) <-> master s = Inside (Returned b)) as HR.
  { intros b. destruct Hm' as [->| ->]; [done|]. destruct (master s) as [|[]]; cbn; naive_solver. }
  split; cbn [shared master workers added].
  - assert (open_checks {| shared := q; master := m'; workers := <[i:=t']> (workers s); added := added s |} = open_checks s) as ->.
    { unfold open_checks. cbn. destruct Hm' as [->| ->]; [done|]. by destruct (master s) as [|[]]. }
    apply (account_wake _ _ (match master s with Outside => <[i:=t']> (workers s) | Inside tm => tm :: <[i:=t']> (workers s) end)).
    + unfold threads. cbn. destruct Hm' as [->| ->]; [apply same_threads_refl|].
      destruct (master s); cbn; [apply same_threads_refl|]. constructor; [by right|apply same_threads_refl].
    + unfold ms in Hacc. destruct (master s); rewrite E'; [by rewrite app_nil_r in Hacc|].
      by rewrite <- Permutation_cons_append, Permutation_swap in Hacc.
  - intros b Hb. by apply I2, HR.
  - intros Hw. assert (master s = Inside Waiting /\ notify = false) as [Hwm Hn].
    { unfold m' in Hw. destruct notify; [|done]. destruct (master s) as [|[]]; cbn in Hw; done. }
    destruct (I3 Hwm) as [Hz0 Hq]. split; [|by apply (proj1 (thread_step_queue _ _ _ _ _ _ Hs))].
    intros Hq0'. destruct (Hz Hq0') as [|[|]]; congruence.
  - intros Hrest. assert (nTodo (shared s) = 0) as E0; [|lia]. apply I4. unfold at_rest in *. cbn in Hrest.
    destruct Hm' as [Em|Em]; rewrite Em in Hrest; [done|]. by destruct (master s) as [|[]].
  - lia.
Qed.

Lemma inv_master s t notify t' q : inv s -> master s = Inside t -> thread_step true t (shared s) = Some (notify, t', q) ->
  inv {| shared := q; master := Inside t'; workers := workers s; added := added s |}.
Proof.
  intros [I1 I2 I3 I4 I5] Hm Hs. unfold threads in I1. rewrite Hm in I1.
  assert (open_checks s = added s) as Eo by (unfold open_checks; rewrite Hm; destruct t; done).
  rewrite Eo in I1. destruct (thread_step_ok _ _ _ _ _ _ _ _ I1 Hs) as ([Hle Hz] & Hr).
  destruct t' as [n ok|v n ok| | |b]; cbn in Hr.
  1-4: destruct Hr as [Hacc Hwait]; split; cbn; [exact Hacc|done| |done|lia]; intros [=].
  { split; [by apply Hwait|by apply (proj2 (thread_step_queue _ _ _ _ _ _ Hs))]. }
  destruct Hr as ([= ->] & _ & E0 & Hacc). split; cbn; [exact Hacc|by intros b [= <-]|done|done|lia].
Qed.

Lemma inv_wake s s' : inv s -> wake_step s s' -> inv s'.
Proof.
  intros [I1 I2 I3 I4 I5] Hs. destruct Hs as [s|s i Hi|s Hm].
  - split; cbn; [|done..]. assert (threads {| shared := shared s; master := master s; workers := workers s ++ [Enter 0 true];
      added := added s |} ≡ₚ Enter 0 true :: threads s) as ->.
    { unfold threads. cbn. destruct (master s); rewrite <- Permutation_cons_append; [done|apply Permutation_swap]. }
    change (open_checks _) with (open_checks s). destruct I1 as [H1 H2 H3 H4 H5 H6 H7].
    split; cbn; [by constructor|lia|lia|lia|lia|done|done].
  - split; cbn; [|done..]. change (open_checks _) with (open_checks s). apply (account_wake _ _ (threads s)); [|done].
    unfold threads. cbn. destruct (master s); [by apply same_threads_insert|]. constructor; [by left|by apply same_threads_insert].
  - split; cbn; [|done..|lia]. unfold open_checks, threads in *. cbn. rewrite Hm in I1.
    eapply account_wake; [|exact I1]. constructor; [by right|apply same_threads_refl].
Qed.

Lemma inv_client s s' : inv s -> client_step s s' -> bounded s' -> inv s'.
Proof.
  intros [I1 I2 I3 I4 I5] Hs Hb. unfold open_checks, threads, at_rest in *.
  destruct Hs as [s vs ws Hm Hn|s Hm|s b Hm]; rewrite Hm in *.
  - assert (account 0 (shared s) ws (added s)) as [H1 H2 H3 H4 H5 H6 H7]
      by (eapply account_wake; [eapply notified_same, Hn|exact I1]).
    unfold bounded in Hb. cbn in Hb. rewrite length_app in Hb. pose proof (owed_nonneg ws H1).
    split; cbn; [|done|done| |].
    + split; cbn; [done| | |lia|lia| |done].
      * rewrite u32_id by (unfold is_u32; lia). rewrite length_app. lia.
      * apply u32_range.
      * rewrite !forallb_app, <- H6. destruct (fAllOk (shared s)), (forallb run (queue _)), (forallb run vs), (forallb verdict ws); done.
    + intros E. apply app_nil in E as [E ->]. rewrite (I4 E). done.
    + rewrite u32_id by (unfold is_u32; lia). rewrite length_app. lia.
  - split; cbn; [|done|done|done|lia]. destruct I1 as [H1 H2 H3 H4 H5 H6 H7].
    split; cbn; [by constructor|lia|lia|lia|lia|done|done].
  - split; cbn; [|done|done|intros _; by apply I4|rewrite (I4 I); lia].
    destruct I1 as [H1 H2 H3 H4 H5 H6 H7]. inversion_clear H1. cbn in *.
    split; cbn; [done|lia|lia|lia|lia|done|done].
Qed.

Lemma inv_step s s' : inv s -> step s s' -> bounded s' -> inv s'.
Proof.
  intros Hi [Hs|[Hs|Hs]] Hb; [|by eapply inv_wake|by eapply inv_client].
  destruct Hs as [s i t ntf t' q Hw Ht|s t ntf t' q Hm Ht]; [by eapply inv_worker|by eapply inv_master].
Qed.

Lemma reachable_inv n s : reachable n s -> inv s.
Proof.
  intros Hr. unfold reachable in Hr. assert (inv (sys_init n)) as H0.
  { split; [|done|done|done|done]. split; [constructor|done..]. }
  revert H0. induction Hr as [|s s1 s2 [Hs Hb] _ IH]; [done|]. intros Hi. apply IH. by eapply inv_step.
Qed.


(** *** Progress and termination *)

Lemma owed_some ts : zsum owed ts <> 0 -> exists i t, ts !! i = Some t /\ owed t <> 0.
Proof.
  induction ts as [|t ts IH]; cbn; [done|]. intros Hz. destruct (decide (owed t = 0)) as [E|E].
  - destruct IH as (i & t' & Hi & Ht); [lia|]. by exists (S i), t'.
  - by exists 0%nat, t.
Qed.

Lemma thread_enabled fMaster t q : t <> Waiting -> (forall b, t <> Returned b) -> is_Some (thread_step fMaster t q).
Proof.
  intros Hw Hr. destruct t as [n ok|[|c cs] n ok| | |b]; cbn.
  - destruct (clean_up fMaster n ok q) as [ntf q1]. destruct (take_work fMaster q1). by eexists.
  - by eexists.
  - by eexists.
  - done.
  - destruct (take_work fMaster _). by eexists.
  - by destruct (Hr b).
Qed.

(** No wake-up is lost: while [Wait] has not returned, some thread can step. *)
Lemma wait_progress s t : inv s -> master s = Inside t -> (forall b, t <> Returned b) -> exists s', loop_step s s'.
Proof.
  intros [I1 I2 I3 I4 I5] Hm Hr. assert (t = Waiting \/ t <> Waiting) as [->|Ht] by (destruct t; auto).
  - destruct (I3 Hm) as [Hz Hq]. destruct I1 as [H1 H2 _ _ _ _ _]. unfold threads in *. rewrite Hm in *. cbn in H2.
    rewrite Hq in H2. cbn in H2. destruct (owed_some (workers s)) as (i & tw & Hi & Ho); [lia|].
    destruct (thread_enabled false tw (shared s)) as [[[ntf t'] q] Hs]; [by intros ->|by intros b ->|].
    eexists. by eapply worker_step.
  - destruct (thread_enabled true t (shared s)) as [[[ntf t'] q] Hs]; [done|done|]. eexists. by eapply master_step.
Qed.

(** A bound on the steps a thread can still take, and with it the queue. *)
Definition weight (t : thread) : nat :=
  match t with
  | Enter _ _ => 5
  | Work vChecks _ _ => 6 + length vChecks
  | Waiting => 2
  | Woken => 3
  | Returned _ => 0
  end.
Definition potential (s : sys) : nat :=
  10 * length (queue (shared s)) + sum_list_with weight (threads s).

Lemma take_work_weight fMaster q t q' : take_work fMaster q = (t, q') ->
  (weight t + 10 * length (queue q') <= 2 + 10 * length (queue q))%nat.
Proof.
  unfold take_work. destruct (queue q) as [|x xs] eqn:E.
  - destruct (_ && _); intros [= <- <-]; cbn; lia.
  - rewrite <- E. assert (queue q <> []) as Hne by (by rewrite E). destruct (batch_size_range q Hne) as [_ Hb].
    assert (1 <= length (queue q))%nat by (rewrite E; cbn; lia).
    intros [= <- <-]. cbn [weight queue]. rewrite length_rev, length_drop, length_take. lia.
Qed.

Lemma thread_step_weight fMaster t q notify t' q' : thread_step fMaster t q = Some (notify, t', q') ->
  (weight t' + 10 * length (queue q') + (if notify then 2 else 1) <= weight t + 10 * length (queue q))%nat.
Proof.
  intros Hs. destruct t as [n ok|[|c cs] n ok| | |b]; cbn in Hs; try done.
  - destruct (clean_up fMaster n ok q) as [ntf q1] eqn:Ec. destruct (take_work fMaster q1) as [t1 q2] eqn:Et.
    injection Hs as <- <- <-. apply take_work_weight in Et.
    assert (queue q1 = queue q) as Eq by (unfold clean_up in Ec; destruct (negb (n =? 0)); by injection Ec as <- <-).
    rewrite Eq in Et. cbn [weight]. destruct ntf; lia.
  - injection Hs as <- <- <-. cbn. lia.
  - injection Hs as <- <- <-. cbn. lia.
  - destruct (take_work fMaster _) as [t1 q2] eqn:Et. injection Hs as <- <- <-. apply take_work_weight in Et.
    cbn [queue weight] in *. lia.
Qed.

Lemma sum_weight_insert ts i t t' : ts !! i = Some t ->
  (sum_list_with weight (<[i := t']> ts) + weight t = sum_list_with weight ts + weight t')%nat.
Proof.
  revert i. induction ts as [|x ts IH]; intros [|i] Hi; [done|done| |].
  - injection Hi as ->. cbn. lia.
  - specialize (IH i Hi). change (<[S i := t']> (x :: ts)) with (x :: <[i := t']> ts). cbn [sum_list_with]. lia.
Qed.

Lemma loop_step_potential s s' : loop_step s s' -> (potential s' < potential s)%nat.
Proof.
  destruct 1 as [s i t ntf t' q Hi Hs|s t ntf t' q Hm Hs]; apply thread_step_weight in Hs; unfold potential, threads; cbn [shared master workers].
  - pose proof (sum_weight_insert _ _ _ t' Hi). destruct ntf; [|destruct (master s); cbn; lia].
    destruct (master s) as [|[]]; cbn; lia.
  - rewrite Hm. cbn. destruct ntf; lia.
Qed.

Lemma wake_step_potential s s' : wake_step s s' -> (potential s' <= potential s + 5)%nat.
Proof.
  destruct 1 as [s|s i Hi|s Hm]; unfold potential, threads; cbn [shared master workers].
  - destruct (master s); cbn; rewrite sum_list_with_app; cbn; lia.
  - pose proof (sum_weight_insert _ _ _ Woken Hi). cbn in *. destruct (master s); cbn; lia.
  - rewrite Hm. cbn. lia.
Qed.

(** Runs of [k] steps of the threads in [Loop] and [e] wake-ups and thread starts. *)
Inductive runs : nat -> nat -> sys -> sys -> Prop :=
| runs_refl s : runs 0 0 s s
| runs_loop k e s s1 s2 : loop_step s s1 -> runs k e s1 s2 -> runs (S k) e s s2
| runs_wake k e s s1 s2 : wake_step s s1 -> runs k e s1 s2 -> runs k (S e) s s2.

Lemma runs_potential k e s s' : runs k e s s' -> (k + potential s' <= potential s + 5 * e)%nat.
Proof.
  induction 1 as [s|k e s s1 s2 Hs _ IH|k e s s1 s2 Hs _ IH]; [lia| |].
  - apply loop_step_potential in Hs. lia.
  - apply wake_step_potential in Hs. lia.
Qed.

Lemma step_added s s' : loop_step s s' \/ wake_step s s' -> added s' = added s /\ (master s = Outside <-> master s' = Outside).
Proof.
  intros [H|H]; destruct H as [s i t ntf t' q Hi Hs|s t ntf t' q Hm Hs] || destruct H as [s|s i Hi|s Hm]; cbn; try done.
  - destruct ntf; [|done]. by destruct (master s).
  - by rewrite Hm.
  - by rewrite Hm.
Qed.

Lemma runs_inv k e s s' : runs k e s s' -> bounded s -> inv s ->
  inv s' /\ added s' = added s /\ (master s = Outside <-> master s' = Outside).
Proof.
  induction 1 as [s|k e s s1 s2 Hs _ IH|k e s s1 s2 Hs _ IH]; intros Hb Hi; [done| |].
  - destruct (step_added s s1 (or_introl Hs)) as [Ea Em]. assert (bounded s1) as Hb1 by (unfold bounded; by rewrite Ea).
    destruct IH as (Hi' & Ea' & Em'); [done|eapply inv_step; [exact Hi|by left|done]|]. split; [done|]. split; [congruence|tauto].
  - destruct (step_added s s1 (or_intror Hs)) as [Ea Em]. assert (bounded s1) as Hb1 by (unfold bounded; by rewrite Ea).
    destruct IH as (Hi' & Ea' & Em'); [done|eapply inv_step; [exact Hi|right; by left|done]|]. split; [done|]. split; [congruence|tauto].
Qed.

Lemma reachable_bounded n s : reachable n s -> bounded s.
Proof.
  intros Hr. unfold reachable in Hr. assert (bounded (sys_init n)) as H0 by done.
  revert H0. induction Hr as [|s s1 s2 [_ Hb] _ IH]; auto.
Qed.

Lemma rest_idle s : inv s -> at_rest s -> IsIdle (shared s) = true /\ queue (shared s) = [].
Proof.
  intros [I1 I2 I3 I4 I5] Hrest. pose proof (I4 Hrest) as Hz. destruct I1 as [H1 H2 H3 H4 H5 H6 H7].
  pose proof (owed_nonneg _ H1). assert (open_checks s = []) as Eo.
  { unfold at_rest, open_checks in *. by destruct (master s) as [|[]]. }
  destruct (settled _ H1) as [_ Si]; [lia|]. rewrite Eo in H6. cbn [forallb] in H6. split.
  - unfold IsIdle. rewrite H4, H5, Si, Z.add_0_l, Z.eqb_refl, Hz. cbn [Z.eqb andb].
    by destruct (fAllOk (shared s)).
  - destruct (queue (shared s)); [done|]. cbn in H2. lia.
Qed.

End queue.
(** C11: parallel script checking is correct under every interleaving of the
    workers: when [Wait] returns, its result is the conjunction of all checks
    added since it last returned, no matter which thread ran which check and
    which checks were skipped after a failure; and whenever nothing was added
    since then, the queue is empty and [IsIdle] holds, so that the assertion in
    the constructor of [CCheckQueueControl] does not fail. *)
Theorem check_queue_safe {T : Type} (run : T -> bool) (nBatchSizeIn : Z) (s : sys) (Hr : reachable run nBatchSizeIn s) :
  (forall b, master s = Inside (Returned b) -> b = forallb run (added s)) /\
  (at_rest s -> IsIdle (shared s) = true /\ queue (shared s) = []).
Proof.
  apply reachable_inv in Hr as Hi. split; [apply Hi|]. by apply (rest_idle run).
Qed.

(** C12: [Wait] always finishes.  From any reachable state in which the master is in
    [Wait], a run takes at most [potential s] steps of the threads, plus five
    for every spurious wake-up or thread start in between, and as long as the
    master has not returned some thread can take a step (no wake-up is lost);
    when it returns, it returns the conjunction of the checks added. *)
Theorem check_queue_terminates {T : Type} (run : T -> bool) (nBatchSizeIn : Z) (s : sys) (t : thread)
    (Hr : reachable run nBatchSizeIn s) (Hm : master s = Inside t) (k e : nat) (s' : sys) (Hruns : runs run k e s s') :
  (k <= potential s + 5 * e)%nat /\
  ((exists s'', loop_step run s' s'') \/ exists b, master s' = Inside (Returned b) /\ b = forallb run (added s)).
Proof.
  split; [apply runs_potential in Hruns; lia|].
  destruct (runs_inv run _ _ _ _ Hruns (reachable_bounded run _ _ Hr) (reachable_inv run _ _ Hr)) as (Hi & Ea & Eo).
  destruct (master s') as [|t'] eqn:Hm'; [by rewrite (proj2 Eo eq_refl) in Hm|].
  destruct t' as [n ok|v n ok| | |b].
  1-4: left; by eapply wait_progress.
  right. exists b. split; [done|]. rewrite <- Ea. by apply (inv_result run s' Hi).
Qed.

(** A schedule names who takes the next step of [Loop]: the master or a worker. *)
Fixpoint schedule {T : Type} (run : T -> bool) (l : list (option nat)) (s : sys) : option sys :=
  match l with
  | [] => Some s
  | None :: l' =>
      match master s with
      | Inside t =>
          '(_, t', q) ← thread_step run true t (shared s);
          schedule run l' {| shared := q; master := Inside t'; workers := workers s; added := added s |}
      | Outside => None
      end
  | Some i :: l' =>
      t ← workers s !! i;
      '(notify, t', q) ← thread_step run false t (shared s);
      schedule run l' {| shared := q; master := if notify : bool then wake_master (master s) else master s;
                         workers := <[i := t']> (workers s); added := added s |}
  end.

Lemma schedule_steps {T : Type} (run : T -> bool) l : forall s s', schedule run l s = Some s' -> bounded s ->
  rtc (fun s s' => step run s s' /\ bounded s') s s'.
Proof.
  induction l as [|[i|] l IH]; intros s s' Hs Hb; cbn in Hs; [injection Hs as <-; apply rtc_refl| |].
  - destruct (workers s !! i) as [t|] eqn:Hi; [|done]. monad_in Hs.
    destruct (thread_step run false t (shared s)) as [[[ntf t'] q]|] eqn:Ht; [|done]. monad_in Hs.
    eapply rtc_l; [split; [left; by eapply worker_step|]|by apply IH]. done.
  - destruct (master s) as [|t] eqn:Hm; [done|].
    destruct (thread_step run true t (shared s)) as [[[ntf t'] q]|] eqn:Ht; [|done]. monad_in Hs.
    eapply rtc_l; [split; [left; by eapply master_step|]|by apply IH]. done.
Qed.

Lemma schedule_runs {T : Type} (run : T -> bool) l : forall s s', schedule run l s = Some s' -> runs run (length l) 0 s s'.
Proof.
  induction l as [|[i|] l IH]; intros s s' Hs; cbn in Hs; [injection Hs as <-; apply runs_refl| |].
  - destruct (workers s !! i) as [t|] eqn:Hi; [|done]. monad_in Hs.
    destruct (thread_step run false t (shared s)) as [[[ntf t'] q]|] eqn:Ht; [|done]. monad_in Hs.
    eapply runs_loop; [by eapply worker_step|by apply IH].
  - destruct (master s) as [|t] eqn:Hm; [done|].
    destruct (thread_step run true t (shared s)) as [[[ntf t'] q]|] eqn:Ht; [|done]. monad_in Hs.
    eapply runs_loop; [by eapply master_step|by apply IH].
Qed.

(** One worker and the master share three checks, the second of which fails. *)
Definition sample_waiting : sys (T := bool) := {|
  shared := {| queue := []; nIdle := 1; nTotal := 1; fAllOk := true; nTodo := 0; fQuit := false; nBatchSize := 128 |};
  master := Outside; workers := [Waiting]; added := [] |}.
Definition sample_added : sys (T := bool) := {|
  shared := Add [true; false; true] (shared sample_waiting); master := Inside (Enter 0 true);
  workers := [Woken]; added := [true; false; true] |}.
Definition sample_end : sys (T := bool) := {|
  shared := {| queue := []; nIdle := 1; nTotal := 1; fAllOk := true; nTodo := 0; fQuit := false; nBatchSize := 128 |};
  master := Inside (Returned false); workers := [Waiting]; added := [true; false; true] |}.

Definition sample_schedule : list (option nat) := [None] ++ replicate 7 (Some 0%nat) ++ replicate 3 None.

Lemma added_reachable : reachable id 128 sample_added.
Proof.
  eapply rtc_l; [split; [right; left; apply start_worker|done]|].
  transitivity sample_waiting; [eapply (schedule_steps id [Some 0%nat]); [vm_compute; reflexivity|done]|].
  eapply rtc_l.
  { split; [right; right; eapply (master_add _ [true; false; true] [Woken]); [done|apply (notify_all 3 [Waiting]); lia]|done]. }
  apply rtc_once. split; [right; right; by apply master_wait|done].
Qed.

Lemma sample_reachable : reachable id 128 sample_end.
Proof.
  unfold reachable. etransitivity; [exact added_reachable|].
  apply (schedule_steps id sample_schedule sample_added); [vm_compute; reflexivity|done].
Qed.

Lemma check_queue_safe_witness : false = forallb id (added sample_end) /\ IsIdle (shared sample_end) = true.
Proof.
  destruct (check_queue_safe id 128 sample_end sample_reachable) as [Hb Hrest].
  split; [apply Hb; reflexivity|apply Hrest; exact I].
Defined.

(** Eleven steps from the call of [Wait] to its return. *)
Lemma check_queue_terminates_witness :
  runs id 11 0 sample_added sample_end /\ (11 <= potential sample_added + 5 * 0)%nat /\
  ((exists s'', loop_step id sample_end s'') \/ exists b, master sample_end = Inside (Returned b) /\ b = forallb id [true; false; true]).
Proof.
  assert (runs id 11 0 sample_added sample_end) as Hr by (apply (schedule_runs id sample_schedule); vm_compute; reflexivity).
  split; [exact Hr|]. apply (check_queue_terminates id 128 sample_added (Enter 0 true) added_reachable eq_refl 11 0 sample_end Hr).
Defined.

End CheckQueue.
