(* ===== verification/MempoolLimit.v ===== *)
(** * Limiting the memory pool (src/mempool_limit.{h,cpp}, [GetRand] of src/random.cpp)

    [RecentlyEvictedList] remembers the transactions evicted lately;
    [WeightedTxTree] keeps the pool's transactions in an array-shaped binary tree
    whose nodes carry the weight of their descendants, from which a transaction is
    drawn with a probability proportional to its eviction weight.  Sums of weights
    are [int64_t] and wrap through [s64]; an access outside a vector is [None].
    Vector indices are [nat]: [fromIndex * 2 + 2] stays far below [2^64] for a
    vector that fits in memory.  Heap usage of a transaction depends on the
    capacities of its vectors and is a parameter, as is the source of entropy. *)

From stdpp Require Import base list list_numbers numbers option gmap.
From Stdlib Require Import ZArith Lia.
From S2P Require Import Prelude Serialize Amount Transaction Script.
Import Transaction.

Definition DEFAULT_MEMPOOL_TOTAL_COST_LIMIT : Z := 80000000.
Definition DEFAULT_MEMPOOL_EVICTION_MEMORY_MINUTES : Z := 60.
Definition EVICTION_MEMORY_ENTRIES : Z := 40000.
Definition MIN_TX_COST : Z := 4000.
Definition LOW_FEE_PENALTY : Z := 16000.
Definition DEFAULT_FEE : Z := 10000.

(** ** GetRand

    [entropy] are the 64-bit words [GetRandBytes] delivers; the loop goes on
    ([None]) when every one of them is out of range. *)

Fixpoint rand_loop (nRange : Z) (entropy : list Z) : option (Z * list Z) :=
  match entropy with
  | [] => None
  | nRand :: entropy' => if nRand >=? nRange then rand_loop nRange entropy' else Some (nRand, entropy')
  end.
Definition GetRand (nMax : Z) (entropy : list Z) : option (Z * list Z) :=
  if nMax =? 0 then Some (0, entropy)
  else
    let nRange := (2 ^ 64 - 1) / nMax * nMax in
    '(nRand, entropy) ← rand_loop nRange entropy;
    Some (nRand mod nMax, entropy).

(** ** class RecentlyEvictedList *)

Module RecentlyEvictedList.

Record RecentlyEvictedList := {
  capacity : Z; timeToKeep : Z;
  txIdsAndTimes : list (list Z * Z);
  txIdSet : gset (list Z)
}.

(** The constructor with its [assert]. *)
Definition make_evicted (capacity_ timeToKeep_ : Z) : option RecentlyEvictedList :=
  if capacity_ <=? EVICTION_MEMORY_ENTRIES
  then Some {| capacity := capacity_; timeToKeep := timeToKeep_; txIdsAndTimes := []; txIdSet := ∅ |}
  else None.

Definition set_queue (r : RecentlyEvictedList) (q : list (list Z * Z)) (s : gset (list Z)) : RecentlyEvictedList :=
  {| capacity := capacity r; timeToKeep := timeToKeep r; txIdsAndTimes := q; txIdSet := s |}.

Fixpoint prune_loop (now timeToKeep : Z) (q : list (list Z * Z)) (s : gset (list Z))
  : list (list Z * Z) * gset (list Z) :=
  match q with
  | (id, t) :: q' =>
      if s64 (now - t) >? timeToKeep then prune_loop now timeToKeep q' (s ∖ {[id]}) else (q, s)
  | [] => (q, s)
  end.
(** [now] is [GetAdjustedTime()]. *)
Definition pruneList (now : Z) (r : RecentlyEvictedList) : RecentlyEvictedList :=
  if bool_decide (txIdSet r = ∅) then r
  else let '(q, s) := prune_loop now (timeToKeep r) (txIdsAndTimes r) (txIdSet r) in set_queue r q s.

(** The two readings of the clock in [add_evicted]: [now] in [pruneList], [now'] for the
    new entry.  [front()] of an empty deque is undefined. *)
Definition add_evicted (now now' : Z) (txId : list Z) (r : RecentlyEvictedList) : option RecentlyEvictedList :=
  let r := pruneList now r in
  r ← (if Z.of_nat (length (txIdsAndTimes r)) =? capacity r then
         match txIdsAndTimes r with
         | [] => None
         | (id, _) :: q => Some (set_queue r q (txIdSet r ∖ {[id]}))
         end
       else Some r);
  Some (set_queue r (txIdsAndTimes r ++ [(txId, now')]) (txIdSet r ∪ {[txId]})).

Definition contains (now : Z) (txId : list Z) (r : RecentlyEvictedList) : bool * RecentlyEvictedList :=
  let r := pruneList now r in (bool_decide (txId ∈ txIdSet r), r).

End RecentlyEvictedList.

(** ** struct TxWeight, struct WeightedTxInfo *)

Record TxWeight := { cost : Z; evictionWeight : Z }.
#[global] Instance TxWeight_eq_dec : EqDecision TxWeight.
Proof. solve_decision. Defined.
Definition ZERO_WEIGHT : TxWeight := {| cost := 0; evictionWeight := 0 |}.
Definition TxWeight_add (a b : TxWeight) : TxWeight :=
  {| cost := s64 (cost a + cost b); evictionWeight := s64 (evictionWeight a + evictionWeight b) |}.
Definition TxWeight_negate (a : TxWeight) : TxWeight :=
  {| cost := s64 (- cost a); evictionWeight := s64 (- evictionWeight a) |}.

Record WeightedTxInfo := { txId : list Z; txWeight : TxWeight }.

(** [GetSerializeSize(X(), SER_NETWORK, PROTOCOL_VERSION)] for the default
    objects of the three kinds of descriptions. *)
Definition PROTOCOL_VERSION : Z := 170009.
Definition JSDescription_default : JSDescription := {|
  vpub_old := 0; vpub_new := 0; anchor := zero_blob 32; nullifiers := replicate 2 (zero_blob 32);
  commitments := replicate 2 (zero_blob 32); ephemeralKey := zero_blob 32;
  ciphertexts := replicate 2 (zero_blob 601); randomSeed := zero_blob 32; macs := replicate 2 (zero_blob 32);
  proof := let g1 := {| y_lsb := false; g1_x := zero_blob 32 |} in
           SproutPHGR {| g_A := g1; g_A_prime := g1; g_B := {| y_gt := false; g2_x := zero_blob 64 |};
                         g_B_prime := g1; g_C := g1; g_C_prime := g1; g_K := g1; g_H := g1 |} |}.
Definition SpendDescription_default : SpendDescription := {|
  sd_cv := zero_blob 32; sd_anchor := zero_blob 32; sd_nullifier := zero_blob 32; sd_rk := zero_blob 32;
  sd_zkproof := zero_blob 192; spendAuthSig := zero_blob 64 |}.
Definition OutputDescription_default : OutputDescription := {|
  od_cv := zero_blob 32; od_cm := zero_blob 32; od_ephemeralKey := zero_blob 32;
  encCiphertext := zero_blob 580; outCiphertext := zero_blob 80; od_zkproof := zero_blob 192 |}.
Definition written (w : Serialize.writer) : Z := match w with inr bs => Z.of_nat (length bs) | inl _ => 0 end.
Definition JOINSPLIT_SIZE : Z :=
  written (Serialize.enc (JSDescription_codec PROTOCOL_VERSION) JSDescription_default).
Definition OUTPUTDESCRIPTION_SIZE : Z := written (Serialize.enc OutputDescription_codec OutputDescription_default).
Definition SPENDDESCRIPTION_SIZE : Z := written (Serialize.enc SpendDescription_codec SpendDescription_default).

(** [WeightedTxInfo::from]; [memory] is [RecursiveDynamicUsage]. *)
Definition WeightedTxInfo_from (memory : CTransaction -> Z) (tx_GetHash : CTransaction -> list Z)
    (tx : CTransaction) (fee : Z) : WeightedTxInfo :=
  let memUsage := memory tx in
  let memUsage := u64 (memUsage + Z.of_nat (length (vJoinSplit tx)) * JOINSPLIT_SIZE) in
  let memUsage := u64 (memUsage + Z.of_nat (length (vShieldedOutput tx)) * OUTPUTDESCRIPTION_SIZE) in
  let memUsage := u64 (memUsage + Z.of_nat (length (vShieldedSpend tx)) * SPENDDESCRIPTION_SIZE) in
  let cost := Z.max (s64 memUsage) MIN_TX_COST in
  let evictionWeight := if fee <? DEFAULT_FEE then s64 (cost + LOW_FEE_PENALTY) else cost in
  {| txId := tx_GetHash tx; txWeight := {| cost := cost; evictionWeight := evictionWeight |} |}.

Lemma description_sizes : JOINSPLIT_SIZE = 1802 /\ OUTPUTDESCRIPTION_SIZE = 948 /\ SPENDDESCRIPTION_SIZE = 384.
Proof. by vm_compute. Qed.

(** ** class WeightedTxTree *)

Module WeightedTxTree.

Record WeightedTxTree := {
  capacity : Z; size : nat;
  txIdAndWeights : list WeightedTxInfo;
  childWeights : list TxWeight;
  txIdToIndexMap : gmap (list Z) nat
}.

Definition make_tree (capacity_ : Z) : option WeightedTxTree :=
  if capacity_ >=? 0
  then Some {| capacity := capacity_; size := 0; txIdAndWeights := []; childWeights := []; txIdToIndexMap := ∅ |}
  else None.

Definition set_childWeights (t : WeightedTxTree) (w : list TxWeight) : WeightedTxTree :=
  {| capacity := capacity t; size := size t; txIdAndWeights := txIdAndWeights t; childWeights := w;
     txIdToIndexMap := txIdToIndexMap t |}.

Definition getWeightAt (t : WeightedTxTree) (index : nat) : option TxWeight :=
  if (index <? size t)%nat then
    info ← txIdAndWeights t !! index; child ← childWeights t !! index; Some (TxWeight_add (txWeight info) child)
  else Some ZERO_WEIGHT.

(** The fuel [fromIndex] bounds the turns of the loop, whose index decreases. *)
Fixpoint back_loop (fuel fromIndex : nat) (weightDelta : TxWeight) (w : list TxWeight) : option (list TxWeight) :=
  match fromIndex with
  | O => Some w
  | S n =>
      match fuel with
      | O => None
      | S fuel =>
          let fromIndex := (n / 2)%nat in
          c ← w !! fromIndex;
          back_loop fuel fromIndex weightDelta (<[fromIndex := TxWeight_add c weightDelta]> w)
      end
  end.
Definition backPropagate (fromIndex : nat) (weightDelta : TxWeight) (t : WeightedTxTree) : option WeightedTxTree :=
  w ← back_loop fromIndex fromIndex weightDelta (childWeights t); Some (set_childWeights t w).

(** [leftWeight] and [rightWeight] are [int]. *)
Fixpoint find_loop (t : WeightedTxTree) (fuel fromIndex : nat) (weightToFind : Z) : option nat :=
  match fuel with
  | O => None
  | S fuel =>
      left ← getWeightAt t (fromIndex * 2 + 1);
      node ← getWeightAt t fromIndex;
      right ← getWeightAt t (fromIndex * 2 + 2);
      let leftWeight := s32 (evictionWeight left) in
      let rightWeight := s32 (s64 (evictionWeight node - evictionWeight right)) in
      if weightToFind <? leftWeight then find_loop t fuel (fromIndex * 2 + 1) weightToFind
      else if weightToFind <? rightWeight then Some fromIndex
      else find_loop t fuel (fromIndex * 2 + 2) (s64 (weightToFind - rightWeight))
  end.
(** No path of the tree is longer than [size]. *)
Definition findByEvictionWeight (t : WeightedTxTree) (fromIndex : nat) (weightToFind : Z) : option nat :=
  find_loop t (size t) fromIndex weightToFind.

Definition getTotalWeight (t : WeightedTxTree) : option TxWeight := getWeightAt t 0.

Definition add (info : WeightedTxInfo) (t : WeightedTxTree) : option WeightedTxTree :=
  if bool_decide (is_Some (txIdToIndexMap t !! txId info)) then Some t
  else
    t ← backPropagate (size t) (txWeight info)
          {| capacity := capacity t; size := size t; txIdAndWeights := txIdAndWeights t ++ [info];
             childWeights := childWeights t ++ [ZERO_WEIGHT];
             txIdToIndexMap := <[txId info := size t]> (txIdToIndexMap t) |};
    Some {| capacity := capacity t; size := size t + 1; txIdAndWeights := txIdAndWeights t;
            childWeights := childWeights t; txIdToIndexMap := txIdToIndexMap t |}.

Definition pop_back {A} (l : list A) : list A := take (length l - 1) l.

(** The block under [if (removeIndex < size)]. *)
Definition move_last (removeIndex : nat) (lastChildWeight : TxWeight) (t : WeightedTxTree) : option WeightedTxTree :=
  old ← txIdAndWeights t !! removeIndex;
  let weightDelta := TxWeight_add lastChildWeight (TxWeight_negate (txWeight old)) in
  last ← txIdAndWeights t !! size t;
  backPropagate removeIndex weightDelta
    {| capacity := capacity t; size := size t; txIdAndWeights := <[removeIndex := last]> (txIdAndWeights t);
       childWeights := childWeights t; txIdToIndexMap := <[txId last := removeIndex]> (txIdToIndexMap t) |}.

Definition remove (txId : list Z) (t : WeightedTxTree) : option WeightedTxTree :=
  match txIdToIndexMap t !! txId with
  | None => Some t
  | Some removeIndex =>
      let t := {| capacity := capacity t; size := size t - 1; txIdAndWeights := txIdAndWeights t;
                  childWeights := childWeights t; txIdToIndexMap := txIdToIndexMap t |} in
      last ← txIdAndWeights t !! size t;
      let lastChildWeight := txWeight last in
      t ← backPropagate (size t) (TxWeight_negate lastChildWeight) t;
      t ← (if (removeIndex <? size t)%nat then move_last removeIndex lastChildWeight t else Some t);
      Some {| capacity := capacity t; size := size t; txIdAndWeights := pop_back (txIdAndWeights t);
              childWeights := pop_back (childWeights t);
              txIdToIndexMap := base.delete txId (txIdToIndexMap t) |}
  end.

(** The transaction dropped, if any. *)
Definition maybeDropRandom (entropy : list Z) (t : WeightedTxTree)
  : option (option (list Z) * WeightedTxTree * list Z) :=
  totalTxWeight ← getTotalWeight t;
  if cost totalTxWeight <=? capacity t then Some (None, t, entropy)
  else
    '(r, entropy) ← GetRand (u64 (evictionWeight totalTxWeight)) entropy;
    let randomWeight := s32 r in
    i ← findByEvictionWeight t 0 randomWeight;
    drop ← txIdAndWeights t !! i;
    t ← remove (txId drop) t;
    Some (Some (txId drop), t, entropy).

End WeightedTxTree.
