(* ===== verification/MempoolLimitFacts.v ===== *)
(** * Facts about the eviction structures (see MempoolLimit.v)

    The array behind [WeightedTxTree] is a complete binary tree: [balanced] says
    that every node carries the weight of its two subtrees, and the in-order walk
    of the tree relates that to the plain sum of the weights and to the intervals
    on which [findByEvictionWeight] picks a transaction.  The structure refines a
    finite map from transaction ids to weights. *)

From stdpp Require Import base list list_numbers numbers option gmap.
From Stdlib Require Import ZArith Lia Setoid Morphisms.
From S2P Require Import Prelude MempoolLimit.

(** ** Congruence of 64-bit integers *)

Module Cong.

Definition cong (a b : Z) : Prop := u64 a = u64 b.
Infix "≡64" := cong (at level 70).

#[global] Instance cong_equiv : Equivalence cong.
Proof. split; unfold cong; [done|by intros ? ?|by intros ? ? ? -> ->]. Qed.
#[global] Instance add_proper : Proper (cong ==> cong ==> cong) Z.add.
Proof.
  unfold cong, u64. intros a a' Ha b b' Hb. rewrite (Z.add_mod a b), (Z.add_mod a' b') by done. by rewrite Ha, Hb.
Qed.
#[global] Instance opp_proper : Proper (cong ==> cong) Z.opp.
Proof.
  unfold cong, u64. intros a a' Ha. rewrite <- (Z.sub_0_l a), <- (Z.sub_0_l a').
  rewrite (Zminus_mod 0 a), (Zminus_mod 0 a'). by rewrite Ha.
Qed.

Lemma s64_cong a : s64 a ≡64 a.
Proof.
  unfold cong, u64, s64. rewrite Zminus_mod_idemp_l. f_equal. lia.
Qed.
Lemma cong_exact a b : is_s64 a -> is_s64 b -> a ≡64 b -> a = b.
Proof. unfold cong. intros. width. Qed.
Lemma cong_s64 a b : a ≡64 b -> s64 a = s64 b.
Proof. intros H. apply cong_exact; auto with width. by rewrite !s64_cong. Qed.

End Cong.
Import Cong.

(** ** Subtrees of an array-shaped binary tree *)

Module Heap.

(** The nodes of the subtree at [i], in order, for an array of [n] nodes. *)
Fixpoint inorder (n fuel i : nat) : list nat :=
  match fuel with
  | O => []
  | S fuel =>
      if (i <? n)%nat then inorder n fuel (i * 2 + 1) ++ i :: inorder n fuel (i * 2 + 2) else []
  end.

(** [j] lies below [i]: numbered from one, ancestors are the binary prefixes. *)
Definition below (i j : nat) : Prop := exists k, ((j + 1) / 2 ^ k = i + 1)%nat.

Lemma below_le i j : below i j -> (i <= j)%nat.
Proof.
  intros [k Hk]. enough (i + 1 <= j + 1)%nat by lia. rewrite <- Hk.
  apply Nat.Div0.div_le_upper_bound. pose proof (Nat.pow_nonzero 2 k). nia.
Qed.
Lemma below_step i j : below i j <-> i = j \/ below (i * 2 + 1) j \/ below (i * 2 + 2) j.
Proof.
  unfold below. split.
  - intros [[|k] Hk].
    + left. rewrite Nat.pow_0_r, Nat.div_1_r in Hk. lia.
    + right. rewrite Nat.pow_succ_r', Nat.mul_comm, <- Nat.Div0.div_div in Hk.
      set (q := ((j + 1) / 2 ^ k)%nat) in *. pose proof (Nat.div_mod_eq q 2). pose proof (Nat.mod_upper_bound q 2).
      assert (q = i * 2 + 1 + 1 \/ q = i * 2 + 2 + 1)%nat as [E|E] by lia; [left|right]; by exists k.
  - intros [->|[[k Hk]|[k Hk]]]; [exists 0%nat; by rewrite Nat.pow_0_r, Nat.div_1_r|exists (S k)..];
      rewrite Nat.pow_succ_r', Nat.mul_comm, <- Nat.Div0.div_div, Hk;
      [replace (i * 2 + 1 + 1)%nat with ((i + 1) * 2)%nat by lia; apply Nat.div_mul; lia|].
    replace (i * 2 + 2 + 1)%nat with (1 + (i + 1) * 2)%nat by lia. by rewrite Nat.div_add by lia.
Qed.
Lemma below_root j : below 0 j.
Proof.
  exists (Nat.log2 (j + 1)). destruct (Nat.log2_spec (j + 1)) as [H1 H2]; [lia|].
  rewrite Nat.pow_succ_r' in H2. symmetry. apply (Nat.div_unique _ _ _ (j + 1 - 2 ^ Nat.log2 (j + 1))); lia.
Qed.
Lemma below_siblings i j : below (i * 2 + 1) j -> below (i * 2 + 2) j -> False.
Proof.
  assert (forall a k m, (k < m)%nat -> (2 * (a / 2 ^ m) <= a / 2 ^ k)%nat) as Hd.
  { intros a k m Hk. replace m with (k + S (m - k - 1))%nat by lia.
    rewrite Nat.pow_add_r, <- Nat.Div0.div_div, Nat.pow_succ_r', <- Nat.Div0.div_div.
    set (q := (a / 2 ^ k)%nat). pose proof (Nat.Div0.mul_div_le q 2).
    enough (q / 2 / 2 ^ (m - k - 1) <= q / 2)%nat by lia.
    apply Nat.Div0.div_le_upper_bound. pose proof (Nat.pow_nonzero 2 (m - k - 1)). nia. }
  intros [k Hk] [m Hm]. destruct (Nat.lt_trichotomy k m) as [H|[->|H]]; [|lia|];
    [pose proof (Hd (j + 1)%nat k m H)|pose proof (Hd (j + 1)%nat m k H)]; lia.
Qed.

Lemma elem_of_inorder n fuel : forall i j, (n <= i + fuel)%nat ->
  j ∈ inorder n fuel i <-> (j < n)%nat /\ below i j.
Proof.
  induction fuel as [|fuel IH]; intros i j Hf; cbn [inorder].
  - split; [by intros ?%elem_of_nil|]. intros [Hj H%below_le]. lia.
  - destruct (Nat.ltb_spec i n).
    + rewrite elem_of_app, elem_of_cons, !IH, (below_step i) by lia.
      split; [intros [[]|[->|[]]]; auto|intros [? [->|[]]]; auto].
    + split; [by intros ?%elem_of_nil|]. intros [Hj H1%below_le]. lia.
Qed.
Lemma NoDup_inorder n fuel : forall i, (n <= i + fuel)%nat -> NoDup (inorder n fuel i).
Proof.
  induction fuel as [|fuel IH]; intros i Hf; cbn [inorder]; [constructor|].
  destruct (Nat.ltb_spec i n); [|constructor].
  assert (forall j, below (i * 2 + 1) j -> i <> j) as H1 by (intros j ?%below_le; lia).
  assert (forall j, below (i * 2 + 2) j -> i <> j) as H2 by (intros j ?%below_le; lia).
  apply NoDup_app. split_and!; [apply IH; lia| |apply NoDup_cons; split; [|apply IH; lia]].
  - intros j Hj Hj'. rewrite elem_of_inorder in Hj by lia. rewrite elem_of_cons, elem_of_inorder in Hj' by lia.
    destruct Hj as [_ Hj], Hj' as [->|[_ Hj']]; [by apply (H1 i)|]. by apply (below_siblings i j).
  - rewrite elem_of_inorder by lia. intros [_ ?]. by apply (H2 i).
Qed.
(** The walk from the root visits every node once. *)
Lemma inorder_root n : inorder n n 0 ≡ₚ seq 0 n.
Proof.
  apply NoDup_Permutation; [apply NoDup_inorder; lia|apply NoDup_seq|].
  intros j. rewrite elem_of_inorder, elem_of_seq by lia. pose proof (below_root j).
  split; [intros [? _]; lia|intros; split; [lia|done]].
Qed.

End Heap.
Import Heap.

(** ** Weights of the nodes, for one of the two components of [TxWeight] *)

Module TreeWeights.
Import WeightedTxTree.

(** [cost] or [evictionWeight]. *)
Class Component (pr : TxWeight -> Z) : Prop := {
  pr_add a b : pr (TxWeight_add a b) = s64 (pr a + pr b);
  pr_negate a : pr (TxWeight_negate a) = s64 (- pr a);
  pr_zero : pr ZERO_WEIGHT = 0
}.
#[global] Instance cost_component : Component cost.
Proof. by split. Qed.
#[global] Instance evictionWeight_component : Component evictionWeight.
Proof. by split. Qed.

Definition zsum (l : list Z) : Z := foldr Z.add 0 l.
Lemma zsum_app l k : zsum (l ++ k) = zsum l + zsum k.
Proof. induction l as [|x l IH]; simpl; [done|]. rewrite IH. lia. Qed.
#[global] Instance zsum_perm : Proper ((≡ₚ) ==> eq) zsum.
Proof. induction 1; simpl; lia. Qed.

Section component.
Context (pr : TxWeight -> Z) `{!Component pr}.

Definition own (xs : list WeightedTxInfo) (i : nat) : Z := default 0 ((fun x => pr (txWeight x)) <$> xs !! i).
Definition child (w : list TxWeight) (i : nat) : Z := default 0 (pr <$> w !! i).
(** The subtree at [i] weighs this much, for the first [n] nodes. *)
Definition node (n : nat) (xs : list WeightedTxInfo) (w : list TxWeight) (i : nat) : Z :=
  if (i <? n)%nat then own xs i + child w i else 0.

(** Every node carries the weight of its subtrees, where [delta] is still owed
    to the parent of [from]. *)
Definition owing (from : nat) (delta : Z) (n : nat) (xs : list WeightedTxInfo) (w : list TxWeight) : Prop :=
  forall i, (i < n)%nat ->
    child w i + (if (0 <? from)%nat && (i =? (from - 1) / 2)%nat then delta else 0)
      ≡64 node n xs w (i * 2 + 1) + node n xs w (i * 2 + 2).
Definition balanced (n : nat) (xs : list WeightedTxInfo) (w : list TxWeight) : Prop :=
  forall i, (i < n)%nat -> child w i ≡64 node n xs w (i * 2 + 1) + node n xs w (i * 2 + 2).

Lemma owing_zero delta n xs w : owing 0 delta n xs w <-> balanced n xs w.
Proof. split; intros H i Hi; specialize (H i Hi); simpl in *; by rewrite Z.add_0_r in *. Qed.

Lemma child_insert w p c i : (p < length w)%nat -> child (<[p := c]> w) i = if (i =? p)%nat then pr c else child w i.
Proof.
  intros Hp. unfold child. destruct (Nat.eqb_spec i p) as [->|Hne].
  - by rewrite list_lookup_insert_eq.
  - by rewrite list_lookup_insert_ne.
Qed.

Lemma parent_child i n : (i = n / 2 <-> n + 1 = i * 2 + 1 \/ n + 1 = i * 2 + 2)%nat.
Proof.
  pose proof (Nat.div_mod_eq n 2). pose proof (Nat.mod_upper_bound n 2). lia.
Qed.

(** One turn of the loop hands the debt to the next ancestor. *)
Lemma owing_step n xs w m c delta :
  (m / 2 < n)%nat -> w !! (m / 2)%nat = Some c ->
  owing (S m) (pr delta) n xs w -> owing (m / 2) (pr delta) n xs (<[(m / 2)%nat := TxWeight_add c delta]> w).
Proof.
  intros Hn Hc H i Hi. apply lookup_lt_Some in Hc as Hl. set (p := (m / 2)%nat) in *.
  assert (forall k, node n xs (<[p := TxWeight_add c delta]> w) k ≡64
            node n xs w k + (if (k =? p)%nat then pr delta else 0)) as Hnode.
  { intros k. unfold node. destruct (Nat.ltb_spec k n).
    - rewrite child_insert by done. destruct (Nat.eqb_spec k p) as [->|]; [|by rewrite Z.add_0_r].
      unfold child. rewrite Hc. simpl. rewrite pr_add, s64_cong. by rewrite Z.add_assoc.
    - destruct (Nat.eqb_spec k p); [lia|done]. }
  rewrite !Hnode, child_insert by done. specialize (H i Hi).
  rewrite (Nat.sub_succ m 0), Nat.sub_0_r in H. change (0 <? S m)%nat with true in H. cbn [andb] in H.
  fold p in H.
  assert ((if (i =? p)%nat then pr (TxWeight_add c delta) else child w i) ≡64
          child w i + (if (i =? p)%nat then pr delta else 0)) as ->.
  { destruct (Nat.eqb_spec i p) as [E|]; [|by rewrite Z.add_0_r].
    rewrite E. unfold child. rewrite Hc. simpl. by rewrite pr_add, s64_cong. }
  rewrite H.
  assert ((if (0 <? p)%nat && (i =? (p - 1) / 2)%nat then pr delta else 0) =
          (if (i * 2 + 1 =? p)%nat then pr delta else 0) + (if (i * 2 + 2 =? p)%nat then pr delta else 0)) as ->.
  { pose proof (parent_child i (p - 1)). destruct (Nat.ltb_spec 0 p), (Nat.eqb_spec i ((p - 1) / 2)),
      (Nat.eqb_spec (i * 2 + 1) p), (Nat.eqb_spec (i * 2 + 2) p); simpl; lia. }
  unfold cong. f_equal. lia.
Qed.

Lemma back_loop_balanced fuel : forall from delta w w' n xs,
  back_loop fuel from delta w = Some w' -> (from <= n)%nat -> owing from (pr delta) n xs w -> balanced n xs w'.
Proof.
  induction fuel as [|fuel IH]; intros [|m] delta w w' n xs Hb Hn H; cbn [back_loop] in Hb;
    [injection Hb as <-; by apply owing_zero in H|done|injection Hb as <-; by apply owing_zero in H|].
  assert (m / 2 <= m)%nat by (apply Nat.Div0.div_le_upper_bound; lia).
  destruct (w !! (m / 2)%nat) as [c|] eqn:Ec; monad_in Hb; [|done].
  eapply IH; [exact Hb|lia|]. apply owing_step; [lia|done..].
Qed.

(** The subtree weights are the sums over the in-order walk. *)
Lemma node_inorder n xs w fuel : balanced n xs w -> forall i, (n <= i + fuel)%nat ->
  node n xs w i ≡64 zsum (map (own xs) (inorder n fuel i)).
Proof.
  intros Hb. induction fuel as [|fuel IH]; intros i Hi; cbn [inorder]; unfold node at 1.
  - destruct (Nat.ltb_spec i n); [lia|done].
  - destruct (Nat.ltb_spec i n); [|done].
    rewrite map_app, zsum_app. cbn [map]. change (zsum (own xs i :: ?l)) with (own xs i + zsum l).
    rewrite (Hb i) by done. rewrite (IH (i * 2 + 1)%nat), (IH (i * 2 + 2)%nat) by lia. unfold cong. f_equal. lia.
Qed.

Lemma own_list xs : map (own xs) (seq 0 (length xs)) = map (fun x => pr (txWeight x)) xs.
Proof.
  apply list_eq. intros i. rewrite !list_lookup_fmap. destruct (decide (i < length xs)%nat).
  - rewrite lookup_seq_lt by done. simpl. unfold own.
    destruct (xs !! i) eqn:E; [done|]. apply lookup_ge_None in E. lia.
  - rewrite lookup_seq_ge, lookup_ge_None_2 by lia. done.
Qed.

End component.

Lemma back_loop_total fuel : forall from delta w, (from <= fuel)%nat -> (from <= length w)%nat ->
  exists w', back_loop fuel from delta w = Some w' /\ length w' = length w.
Proof.
  induction fuel as [|fuel IH]; intros [|m] delta w Hf Hw; cbn [back_loop]; [by eexists|lia|by eexists|].
  assert (m / 2 <= m)%nat by (apply Nat.Div0.div_le_upper_bound; lia).
  destruct (lookup_lt_is_Some_2 w (m / 2)) as [c Hc]; [lia|]. rewrite Hc. monad.
  destruct (IH (m / 2)%nat delta (<[(m / 2)%nat := TxWeight_add c delta]> w)) as (w' & Hw' & Hl);
    [lia|rewrite length_insert; lia|].
  exists w'. split; [done|]. by rewrite Hl, length_insert.
Qed.

End TreeWeights.

(** ** The tree refines a finite map *)

Module WeightedTxTreeFacts.
Import WeightedTxTree TreeWeights.

(** [txIdToIndexMap] locates every transaction; so ids are unique. *)
Definition indexed (xs : list WeightedTxInfo) (m : gmap (list Z) nat) : Prop :=
  forall id i, m !! id = Some i <-> exists x, xs !! i = Some x /\ txId x = id.

Record valid (t : WeightedTxTree) : Prop := {
  v_infos : length (txIdAndWeights t) = size t;
  v_children : length (childWeights t) = size t;
  v_index : indexed (txIdAndWeights t) (txIdToIndexMap t);
  v_cost : balanced cost (size t) (txIdAndWeights t) (childWeights t);
  v_eviction : balanced evictionWeight (size t) (txIdAndWeights t) (childWeights t)
}.

(** The collection: the weight of every transaction held. *)
Definition weights_of (xs : list WeightedTxInfo) (m : gmap (list Z) nat) : gmap (list Z) TxWeight :=
  omap (fun i => txWeight <$> xs !! i) m.
Definition weights (t : WeightedTxTree) : gmap (list Z) TxWeight :=
  weights_of (txIdAndWeights t) (txIdToIndexMap t).

Lemma weights_of_lookup xs m id : weights_of xs m !! id = (i ← m !! id; txWeight <$> xs !! i).
Proof. apply lookup_omap. Qed.

Lemma indexed_iff xs m id w : indexed xs m ->
  weights_of xs m !! id = Some w <-> exists i x, xs !! i = Some x /\ txId x = id /\ txWeight x = w.
Proof.
  intros Hi. rewrite weights_of_lookup. split.
  - intros (i & Hm & Hx)%bind_Some. apply Hi in Hm as (x & Hx' & Hid).
    rewrite Hx' in Hx. exists i, x. by injection Hx as <-.
  - intros (i & x & Hx & Hid & Hw).
    assert (m !! id = Some i) as -> by (apply Hi; by exists x). monad. rewrite Hx. simpl. by rewrite Hw.
Qed.

Lemma indexed_unique xs m i j x y : indexed xs m -> xs !! i = Some x -> xs !! j = Some y -> txId x = txId y -> i = j.
Proof.
  intros Hi Hx Hy Hid. assert (m !! txId x = Some i) as H1 by (apply Hi; by exists x).
  assert (m !! txId x = Some j) as H2 by (apply Hi; by exists y). congruence.
Qed.

Lemma indexed_push xs m info : indexed xs m -> m !! txId info = None ->
  indexed (xs ++ [info]) (<[txId info := length xs]> m).
Proof.
  intros Hm Hin id i. rewrite lookup_insert_Some. split.
  - intros [[<- <-]|[Hne Hi]].
    + exists info. by rewrite lookup_app_r, Nat.sub_diag by lia.
    + apply Hm in Hi as (x & Hx & Hid). exists x. split; [|done]. by apply lookup_app_l_Some.
  - intros (x & Hx & Hid). apply lookup_app_Some in Hx as [Hx|[Hge Hx]].
    + right. assert (m !! id = Some i) as Hi by (apply Hm; by exists x). split; [congruence|done].
    + apply list_lookup_singleton_Some in Hx as [Hi ->]. left. split; [done|lia].
Qed.

Lemma weights_push xs m info : indexed xs m -> m !! txId info = None ->
  weights_of (xs ++ [info]) (<[txId info := length xs]> m) = <[txId info := txWeight info]> (weights_of xs m).
Proof.
  intros Hm Hin. apply map_eq. intros id. rewrite weights_of_lookup. destruct (decide (id = txId info)) as [->|Hne].
  - rewrite !lookup_insert_eq. monad. by rewrite lookup_app_r, Nat.sub_diag by lia.
  - rewrite !lookup_insert_ne, weights_of_lookup by done. destruct (m !! id) as [i|] eqn:Ei; [|done]. monad.
    apply Hm in Ei as (x & Hx & _). by rewrite Hx, (lookup_app_l_Some _ _ _ _ Hx).
Qed.

(** The last transaction takes the place of the one removed. *)
Lemma lookup_moved xs n k (last : WeightedTxInfo) i y : length xs = S n -> (k <= n)%nat -> xs !! n = Some last ->
  take n (<[k := last]> xs) !! i = Some y <-> (i < n)%nat /\ (i = k /\ y = last \/ i <> k /\ xs !! i = Some y).
Proof.
  intros Hl Hk Hn. rewrite lookup_take_Some, list_lookup_insert_Some. split.
  - intros [[(-> & -> & _)|[Hne Hy]] Hi]; auto.
  - intros [Hi [[-> ->]|[Hne Hy]]]; split; try done; [left|right; auto]. split_and!; [done..|lia].
Qed.

Lemma indexed_remove xs m n x k last : indexed xs m -> length xs = S n -> xs !! n = Some last -> xs !! k = Some x ->
  indexed (take n (<[k := last]> xs)) (delete (txId x) (if (k <? n)%nat then <[txId last := k]> m else m)).
Proof.
  intros Hm Hl Hn Hk id i. apply lookup_lt_Some in Hk as Hkl.
  pose proof (indexed_unique xs m) as Hu. rewrite lookup_delete_Some.
  assert (forall y, txId y <> txId x -> xs !! i = Some y -> i <> k) as Hne by (intros y H1 H2 ->; congruence).
  setoid_rewrite lookup_moved; [|done|lia|done]. destruct (Nat.ltb_spec k n).
  - rewrite lookup_insert_Some. split.
    + intros [Hid [[<- <-]|[Hl' Hi]]]; [by exists last; auto|].
      apply Hm in Hi as (y & Hy & <-). exists y. split; [|done]. split; [|right; split; [|done]; by apply (Hne y)].
      apply lookup_lt_Some in Hy as ?. enough (i <> n) by lia. intros ->. congruence.
    + intros (y & [Hi [[-> ->]|[Hik Hy]]] & <-).
      * split; [|by left]. intros E. assert (k = n) by (by eapply Hu). lia.
      * split; [intros E; apply Hik; by eapply Hu|]. right. split; [|apply Hm; by exists y].
        intros E. assert (n = i) by (by eapply Hu). lia.
  - assert (k = n) as -> by lia. split.
    + intros [Hid Hi]. apply Hm in Hi as (y & Hy & <-). exists y. split; [|done].
      apply lookup_lt_Some in Hy as ?. assert (i <> n) by (by apply (Hne y)). split; [lia|]. by right.
    + intros (y & [Hi [[-> ->]|[Hik Hy]]] & <-); [lia|].
      split; [intros E; apply Hik; by eapply Hu|]. apply Hm. by exists y.
Qed.

Lemma weights_remove xs m n x k last : indexed xs m -> length xs = S n -> xs !! n = Some last -> xs !! k = Some x ->
  weights_of (take n (<[k := last]> xs)) (delete (txId x) (if (k <? n)%nat then <[txId last := k]> m else m)) =
  delete (txId x) (weights_of xs m).
Proof.
  intros Hm Hl Hn Hk. apply lookup_lt_Some in Hk as Hkl. pose proof (indexed_remove xs m n x k last Hm Hl Hn Hk) as Hm'.
  apply map_eq. intros id. apply option_eq. intros w. rewrite lookup_delete_Some, !indexed_iff by done.
  setoid_rewrite lookup_moved; [|done|lia|done]. split.
  - intros (i & y & [Hi [[-> ->]|[Hik Hy]]] & <- & <-).
    + split; [intros E; assert (k = n) by (by apply (indexed_unique xs m k n x last)); lia|by exists n, last].
    + split; [intros E; apply Hik; by apply (indexed_unique xs m i k y x)|by exists i, y].
  - intros [Hid (i & y & Hy & <- & <-)]. assert (i <> k) by (intros ->; congruence).
    apply lookup_lt_Some in Hy as ?. destruct (decide (i = n)) as [->|].
    + exists k, y. split; [|done]. split; [lia|]. left. split; [done|congruence].
    + exists i, y. split; [|done]. split; [lia|]. by right.
Qed.

Lemma make_valid c t : make_tree c = Some t -> valid t /\ weights t = ∅ /\ capacity t = c.
Proof.
  unfold make_tree. destruct (c >=? 0); [|done]. intros [= <-]. split; [|split; [|done]].
  - split; simpl; [done..| | |]; [|intros i Hi; simpl in Hi; lia..].
    intros id i. rewrite lookup_empty. split; [done|]. intros (x & Hx & _). by rewrite lookup_nil in Hx.
  - apply map_eq. intros id. unfold weights. by rewrite weights_of_lookup, !lookup_empty.
Qed.

(** The weights of the whole collection. *)
Lemma total_weight (pr : TxWeight -> Z) `{!Component pr} t : valid t ->
  balanced pr (size t) (txIdAndWeights t) (childWeights t) ->
  exists w, getTotalWeight t = Some w /\
    pr w = s64 (zsum (map (fun x => pr (txWeight x)) (txIdAndWeights t))).
Proof.
  intros Hv Hb. pose proof (node_inorder pr _ _ _ (size t) Hb 0) as H. specialize (H ltac:(lia)).
  rewrite inorder_root, <- (v_infos t Hv) in H. rewrite own_list in H.
  unfold getTotalWeight, getWeightAt. unfold node in H. rewrite (v_infos t Hv) in H.
  destruct (Nat.ltb_spec 0 (size t)) as [Hs|Hs].
  - destruct (lookup_lt_is_Some_2 (txIdAndWeights t) 0) as [x Hx]; [rewrite v_infos; done|].
    destruct (lookup_lt_is_Some_2 (childWeights t) 0) as [c Hc]; [rewrite v_children; done|].
    rewrite Hx, Hc. monad. eexists. split; [done|]. rewrite pr_add. apply cong_s64.
    rewrite <- H. unfold own, child. by rewrite Hx, Hc.
  - eexists. split; [done|]. rewrite pr_zero. symmetry. apply cong_exact; [auto with width|done|].
    rewrite s64_cong. by symmetry.
Qed.


(** ** The three changes of the array *)

Lemma node_change pr n n' xs xs' w w' p d :
  (forall k, node pr n' xs' w' k ≡64 node pr n xs w k + (if (k =? p)%nat then d else 0)) ->
  (forall k, (k < n')%nat -> child pr w' k ≡64 child pr w k) ->
  (forall k, (k < n')%nat -> child pr w k ≡64 node pr n xs w (k * 2 + 1) + node pr n xs w (k * 2 + 2)) ->
  owing pr p d n' xs' w'.
Proof.
  intros Hnode Hchild Hb i Hi. rewrite !Hnode, Hchild, (Hb i) by done.
  replace (if (0 <? p)%nat && (i =? (p - 1) / 2)%nat then d else 0)
    with ((if (i * 2 + 1 =? p)%nat then d else 0) + (if (i * 2 + 2 =? p)%nat then d else 0)).
  { unfold cong. f_equal. lia. }
  pose proof (parent_child i (p - 1)). destruct (Nat.ltb_spec 0 p), (Nat.eqb_spec i ((p - 1) / 2)),
    (Nat.eqb_spec (i * 2 + 1) p), (Nat.eqb_spec (i * 2 + 2) p); simpl; lia.
Qed.

Section changes.
Context (pr : TxWeight -> Z) `{!Component pr}.

Lemma child_out w i : (length w <= i)%nat -> child pr w i = 0.
Proof. intros H. unfold child. by rewrite lookup_ge_None_2. Qed.
Lemma child_push w i : child pr (w ++ [ZERO_WEIGHT]) i = child pr w i.
Proof.
  unfold child. destruct (decide (i < length w)%nat); [by rewrite lookup_app_l|].
  rewrite lookup_app_r, (lookup_ge_None_2 w) by lia. destruct (i - length w)%nat; simpl; [apply pr_zero|done].
Qed.
Lemma node_out n xs w i : (n <= i)%nat -> node pr n xs w i = 0.
Proof. intros H. unfold node. by destruct (Nat.ltb_spec i n); [lia|]. Qed.

Lemma owing_push xs w x n : length xs = n -> length w = n -> balanced pr n xs w ->
  owing pr n (pr (txWeight x)) (S n) (xs ++ [x]) (w ++ [ZERO_WEIGHT]).
Proof.
  intros Hx Hw Hb. apply (node_change pr n _ xs _ w).
  - intros k. unfold node. destruct (Nat.ltb_spec k (S n)), (Nat.ltb_spec k n), (Nat.eqb_spec k n); try lia; try done.
    + rewrite child_push. unfold own. rewrite lookup_app_l by lia. by rewrite Z.add_0_r.
    + subst k. rewrite child_push, (child_out w n) by lia. unfold own.
      rewrite lookup_app_r, Hx, Nat.sub_diag by lia. simpl. by rewrite Z.add_0_r.
  - intros k _. by rewrite child_push.
  - intros k Hk. destruct (decide (k = n)) as [->|]; [|apply Hb; lia].
    by rewrite (child_out w n), !node_out by lia.
Qed.

Lemma owing_pop xs w x n : length xs = S n -> length w = S n -> xs !! n = Some x -> balanced pr (S n) xs w ->
  owing pr n (pr (TxWeight_negate (txWeight x))) n xs w.
Proof.
  intros Hx Hw Hlast Hb. apply (node_change pr (S n) _ xs _ w); [|done|intros k Hk; apply Hb; lia].
  intros k. unfold node at 1. destruct (Nat.ltb_spec k n), (Nat.eqb_spec k n); try lia.
  - unfold node. destruct (Nat.ltb_spec k (S n)); [|lia]. by rewrite Z.add_0_r.
  - subst k. unfold node. destruct (Nat.ltb_spec n (S n)); [|lia].
    rewrite (Hb n) by lia. rewrite !node_out by lia. unfold own. rewrite Hlast. simpl.
    rewrite pr_negate, s64_cong. unfold cong. f_equal. lia.
  - by rewrite node_out by lia.
Qed.

Lemma owing_replace xs w old last n k : balanced pr n xs w -> (k < n)%nat -> xs !! k = Some old ->
  owing pr k (pr (TxWeight_add (txWeight last) (TxWeight_negate (txWeight old)))) n (<[k := last]> xs) w.
Proof.
  intros Hb Hk Hold. apply lookup_lt_Some in Hold as Hl. apply (node_change pr n _ xs _ w); [|done|done].
  intros j. unfold node. destruct (Nat.ltb_spec j n); [|by destruct (Nat.eqb_spec j k); [lia|]].
  unfold own. destruct (Nat.eqb_spec j k) as [->|].
  - rewrite list_lookup_insert_eq, Hold by done. simpl. rewrite pr_add, pr_negate, !s64_cong. unfold cong. f_equal. lia.
  - rewrite list_lookup_insert_ne by done. by rewrite Z.add_0_r.
Qed.

Lemma balanced_take n xs w : balanced pr n xs w -> balanced pr n (take n xs) (take n w).
Proof.
  intros Hb i Hi. assert (forall k, (k < n)%nat -> child pr (take n w) k = child pr w k) as Hc
    by (intros k Hk; unfold child; by rewrite lookup_take_lt).
  assert (forall k, node pr n (take n xs) (take n w) k = node pr n xs w k) as Hnode.
  { intros k. unfold node. destruct (Nat.ltb_spec k n); [|done]. rewrite Hc by done.
    unfold own. by rewrite lookup_take_lt. }
  rewrite !Hnode, Hc by done. by apply Hb.
Qed.

End changes.

Lemma backPropagate_ok from delta t : (from <= length (childWeights t))%nat -> exists w',
  backPropagate from delta t = Some (set_childWeights t w') /\ length w' = length (childWeights t) /\
  forall pr, Component pr -> forall n xs, (from <= n)%nat -> owing pr from (pr delta) n xs (childWeights t) -> balanced pr n xs w'.
Proof.
  intros Hf. destruct (back_loop_total from from delta (childWeights t)) as (w' & Hw & Hl); [lia|done|].
  exists w'. unfold backPropagate. rewrite Hw. split; [done|]. split; [done|].
  intros pr Hpr n xs Hn Ho. by eapply back_loop_balanced.
Qed.

(** ** Adding a transaction *)

Lemma tree_add_ok info t : valid t -> exists t', add info t = Some t' /\ valid t' /\ capacity t' = capacity t /\
  weights t' = (match weights t !! txId info with Some _ => weights t | None => <[txId info := txWeight info]> (weights t) end).
Proof.
  intros Hv. unfold add. unfold weights at 2. rewrite weights_of_lookup. case_bool_decide as Hin.
  { exists t. split; [done|]. split; [done|]. split; [done|]. destruct Hin as [i Hi]. rewrite Hi. monad.
    apply (v_index t Hv) in Hi as (x & Hx & _). by rewrite Hx. }
  apply eq_None_not_Some in Hin. rewrite Hin.
  destruct (backPropagate_ok (size t) (txWeight info)
    {| capacity := capacity t; size := size t; txIdAndWeights := txIdAndWeights t ++ [info];
       childWeights := childWeights t ++ [ZERO_WEIGHT];
       txIdToIndexMap := <[txId info := size t]> (txIdToIndexMap t) |}) as (w' & Hb & Hl & Hbal).
  { simpl. rewrite length_app, (v_children t Hv). lia. }
  rewrite Hb. monad. eexists. split; [done|]. cbn [childWeights] in Hl, Hbal.
  rewrite length_app, (v_children t Hv) in Hl. simpl in Hl.
  split; [|split; [done|]].
  - split; simpl; replace (size t + 1)%nat with (S (size t)) by lia; [rewrite length_app, (v_infos t Hv); simpl; lia|lia| | |].
    + rewrite <- (v_infos t Hv). apply indexed_push; [apply v_index, Hv|done].
    + apply Hbal; [apply _|lia|]. apply owing_push; auto using v_infos, v_children, v_cost. apply _.
    + apply Hbal; [apply _|lia|]. apply owing_push; auto using v_infos, v_children, v_eviction. apply _.
  - unfold weights. simpl. rewrite <- (v_infos t Hv). apply weights_push; [apply v_index, Hv|done].
Qed.

(** ** Removing a transaction *)

(** What [remove] leaves in the array when the transaction sits at [k]. *)
Lemma pop_back_take {A} (l : list A) n : length l = S n -> pop_back l = take n l.
Proof. intros H. unfold pop_back. by rewrite H, Nat.sub_succ, Nat.sub_0_r. Qed.

Lemma remove_present t id k x n : valid t -> size t = S n -> txIdAndWeights t !! k = Some x -> txId x = id ->
  exists last w, txIdAndWeights t !! n = Some last /\ remove id t = Some
    {| capacity := capacity t; size := n; txIdAndWeights := take n (<[k := last]> (txIdAndWeights t)); childWeights := take n w;
       txIdToIndexMap := delete id (if (k <? n)%nat then <[txId last := k]> (txIdToIndexMap t) else txIdToIndexMap t) |} /\
    length w = S n /\
    balanced cost n (<[k := last]> (txIdAndWeights t)) w /\ balanced evictionWeight n (<[k := last]> (txIdAndWeights t)) w.
Proof.
  intros Hv Hs Hk Hid. pose proof (v_infos t Hv) as Hx. pose proof (v_children t Hv) as Hw. rewrite Hs in Hx, Hw.
  apply lookup_lt_Some in Hk as Hkl. destruct (lookup_lt_is_Some_2 (txIdAndWeights t) n) as [last Hlast]; [lia|].
  unfold remove. rewrite (proj2 (v_index t Hv id k)) by (by exists x). cbn [size txIdAndWeights]. rewrite Hs, Nat.sub_succ, Nat.sub_0_r, Hlast. monad.
  match goal with |- context [backPropagate n ?d ?t0] => destruct (backPropagate_ok n d t0) as (w1 & Hb1 & Hl1 & Hbal1) end; [simpl; lia|].
  rewrite Hb1. monad. cbn [size set_childWeights childWeights] in *. rewrite Hw in Hl1.
  assert (forall pr, Component pr -> balanced pr (S n) (txIdAndWeights t) (childWeights t) -> balanced pr n (txIdAndWeights t) w1) as Hb.
  { intros pr Hpr Hb. apply (Hbal1 pr Hpr); [done|]. by apply owing_pop. }
  pose proof (v_cost t Hv) as Hc. pose proof (v_eviction t Hv) as He. rewrite Hs in Hc, He.
  apply (Hb _ _) in Hc. apply (Hb _ _) in He. clear Hb Hbal1 Hb1. exists last.
  destruct (Nat.ltb_spec k n).
  - unfold move_last. cbn [txIdAndWeights set_childWeights size]. rewrite Hk, Hlast. monad.
    match goal with |- context [backPropagate k ?d ?t0] => destruct (backPropagate_ok k d t0) as (w2 & Hb2 & Hl2 & Hbal2) end; [simpl; lia|].
    rewrite Hb2. monad. cbn [childWeights set_childWeights] in Hl2, Hbal2. rewrite Hl1 in Hl2. exists w2. split; [done|]. split.
    + unfold set_childWeights. simpl. by rewrite !(pop_back_take _ n) by (rewrite ?length_insert; lia).
    + split; [lia|]. split; (apply Hbal2; [apply _|lia|]; by apply owing_replace; [apply _|..]).
  - exists w1. split; [done|]. assert (k = n) as -> by lia.
    assert (x = last) as -> by congruence. rewrite list_insert_id by done. split; [|done].
    simpl. by rewrite !(pop_back_take _ n) by lia.
Qed.

Lemma tree_remove_ok id t : valid t -> exists t', remove id t = Some t' /\ valid t' /\ capacity t' = capacity t /\
  weights t' = delete id (weights t) /\
  (is_Some (weights t !! id) -> S (size t') = size t).
Proof.
  intros Hv. destruct (txIdToIndexMap t !! id) as [k|] eqn:Ek.
  - apply (v_index t Hv) in Ek as Hx. destruct Hx as (x & Hx & <-). apply lookup_lt_Some in Hx as Hl.
    rewrite (v_infos t Hv) in Hl. destruct (size t) as [|n] eqn:Es; [lia|].
    destruct (remove_present t (txId x) k x n Hv Es Hx eq_refl) as (last & w & Hlast & -> & Hw & Hc & He).
    pose proof (v_infos t Hv) as Hxs. rewrite Es in Hxs.
    eexists. split; [done|]. split; [|split; [done|split; [|done]]].
    + split; simpl; [rewrite length_take, length_insert; lia|rewrite length_take; lia| | |];
        [|by apply balanced_take..].
      exact (indexed_remove _ _ n x k last (v_index t Hv) Hxs Hlast Hx).
    + unfold weights. simpl. exact (weights_remove _ _ n x k last (v_index t Hv) Hxs Hlast Hx).
  - unfold remove. rewrite Ek. exists t. split; [done|]. split; [done|]. split; [done|].
    assert (weights t !! id = None) as Hn by (unfold weights; by rewrite weights_of_lookup, Ek).
    rewrite delete_id by done. split; [done|]. rewrite Hn. by intros [? ?].
Qed.


(** ** Selection by weight *)

Section selection.
Context (t : WeightedTxTree) (Hv : valid t).
Context (Hpos : Forall (fun x => 0 <= evictionWeight (txWeight x)) (txIdAndWeights t)).

Definition ew (i : nat) : Z := own evictionWeight (txIdAndWeights t) i.
Definition span (l : list nat) : Z := zsum (map ew l).

Lemma ew_pos i : 0 <= ew i.
Proof.
  unfold ew, own. destruct (txIdAndWeights t !! i) eqn:E; [|done]. by apply (Forall_lookup_1 _ _ _ _ Hpos E).
Qed.
Lemma span_pos l : 0 <= span l.
Proof. unfold span. induction l as [|i l IH]; simpl; [done|]. pose proof (ew_pos i). lia. Qed.
Lemma span_app l k : span (l ++ k) = span l + span k.
Proof. unfold span. by rewrite map_app, zsum_app. Qed.
Lemma span_cons i l : span (i :: l) = ew i + span l.
Proof. done. Qed.

Lemma span_take l p q j : (p < q)%nat -> l !! p = Some j -> span (take p l) + ew j <= span (take q l).
Proof.
  intros Hpq Hj. replace (take q l) with (take p l ++ j :: take (q - S p) (drop (S p) l)).
  - rewrite span_app, span_cons. pose proof (span_pos (take (q - S p) (drop (S p) l))). lia.
  - replace q with (p + S (q - S p))%nat at 2 by lia. rewrite <- take_take_drop. f_equal.
    by rewrite (drop_S _ _ _ Hj).
Qed.

(** The sum a node reports is exact when it fits in an [int]. *)
Lemma weight_exact fuel i : (size t <= i + fuel)%nat -> span (inorder (size t) fuel i) < 2 ^ 31 ->
  exists w, getWeightAt t i = Some w /\ evictionWeight w = span (inorder (size t) fuel i).
Proof.
  intros Hf Hs. pose proof (node_inorder evictionWeight _ _ _ fuel (v_eviction t Hv) i Hf) as H.
  change (zsum _) with (span (inorder (size t) fuel i)) in H. pose proof (span_pos (inorder (size t) fuel i)).
  set (S0 := span (inorder (size t) fuel i)) in *. unfold getWeightAt. unfold node in H.
  assert (is_s64 S0) by (unfold is_s64; lia).
  destruct (Nat.ltb_spec i (size t)).
  - destruct (lookup_lt_is_Some_2 (txIdAndWeights t) i) as [x Hx]; [rewrite v_infos; done|].
    destruct (lookup_lt_is_Some_2 (childWeights t) i) as [c Hc]; [rewrite v_children; done|].
    rewrite Hx, Hc. monad. eexists. split; [done|]. simpl. apply cong_exact; [auto with width|done|].
    rewrite s64_cong, <- H. unfold own, child. by rewrite Hx, Hc.
  - eexists. split; [done|]. simpl. by apply cong_exact.
Qed.

Lemma find_loop_ok fuel : forall i r, (size t <= i + fuel)%nat -> span (inorder (size t) fuel i) < 2 ^ 31 ->
  0 <= r < span (inorder (size t) fuel i) ->
  exists p j, find_loop t fuel i r = Some j /\ inorder (size t) fuel i !! p = Some j /\
    span (take p (inorder (size t) fuel i)) <= r < span (take p (inorder (size t) fuel i)) + ew j.
Proof.
  induction fuel as [|fuel IH]; intros i r Hf Hs Hr; [unfold span in Hr; simpl in Hr; lia|].
  destruct (weight_exact (S fuel) i Hf Hs) as (w & Hw & Ew). cbn [inorder] in *.
  destruct (Nat.ltb_spec i (size t)); [|unfold span in Hr; simpl in Hr; lia].
  set (L := inorder (size t) fuel (i * 2 + 1)) in *. set (R := inorder (size t) fuel (i * 2 + 2)) in *.
  rewrite span_app, span_cons in Hs, Hr, Ew. pose proof (span_pos L). pose proof (span_pos R). pose proof (ew_pos i).
  destruct (weight_exact fuel (i * 2 + 1)) as (wl & Hwl & El); [lia|fold L; lia|]. fold L in El.
  destruct (weight_exact fuel (i * 2 + 2)) as (wr & Hwr & Er); [lia|fold R; lia|]. fold R in Er.
  cbn [find_loop]. rewrite Hwl, Hw, Hwr. monad. rewrite El, Er, Ew, (s32_id (span L)) by (unfold is_s32; lia).
  replace (span L + (ew i + span R) - span R) with (span L + ew i) by lia.
  rewrite (s64_id (span L + ew i)) by (unfold is_s64; lia). rewrite (s32_id (span L + ew i)) by (unfold is_s32; lia).
  destruct (Z.ltb_spec r (span L)); [|destruct (Z.ltb_spec r (span L + ew i))].
  - destruct (IH (i * 2 + 1)%nat r) as (p & j & Hj & Hp & Hspan); [lia|fold L; lia|fold L; lia|]. fold L in Hp, Hspan.
    apply lookup_lt_Some in Hp as Hlen. exists p, j. rewrite take_app_le by lia. split; [done|].
    split; [by apply lookup_app_l_Some|done].
  - exists (length L), i. rewrite take_app_length, lookup_app_r, Nat.sub_diag by lia. done.
  - rewrite (s64_id (r - (span L + ew i))) by (unfold is_s64; lia).
    destruct (IH (i * 2 + 2)%nat (r - (span L + ew i))) as (p & j & Hj & Hp & Hspan);
      [lia|fold R; lia|fold R; lia|]. fold R in Hp, Hspan.
    exists (length L + S p)%nat, j. split; [done|]. rewrite lookup_app_r, take_app_ge by lia.
    replace (length L + S p - length L)%nat with (S p) by lia. simpl. split; [done|].
    rewrite span_app, span_cons. lia.
Qed.

Lemma span_root : span (inorder (size t) (size t) 0) =
  zsum (map (fun x => evictionWeight (txWeight x)) (txIdAndWeights t)).
Proof. unfold span. rewrite inorder_root, <- (v_infos t Hv). unfold ew. by rewrite own_list. Qed.

End selection.

(** Transaction [i] is drawn exactly on an interval as long as its weight. *)
Lemma selection_interval t i x : valid t ->
  Forall (fun x => 0 <= evictionWeight (txWeight x)) (txIdAndWeights t) ->
  let total := zsum (map (fun x => evictionWeight (txWeight x)) (txIdAndWeights t)) in
  total < 2 ^ 31 -> txIdAndWeights t !! i = Some x ->
  exists a, 0 <= a /\ a + evictionWeight (txWeight x) <= total /\
    forall r, 0 <= r < total -> findByEvictionWeight t 0 r = Some i <-> a <= r < a + evictionWeight (txWeight x).
Proof.
  intros Hv Hpos total Ht Hx. pose proof (span_root t Hv) as Hroot. fold total in Hroot.
  set (L := inorder (size t) (size t) 0) in *. apply lookup_lt_Some in Hx as Hi. rewrite (v_infos t Hv) in Hi.
  assert (i ∈ L) as Hin by (unfold L; rewrite inorder_root; apply elem_of_seq; lia).
  apply list_elem_of_lookup in Hin as [p Hp].
  assert (ew t i = evictionWeight (txWeight x)) as Hew by (unfold ew, own; by rewrite Hx).
  exists (span t (take p L)). rewrite <- Hew, <- Hroot. split; [by apply span_pos|]. split.
  - rewrite <- (firstn_all L) at 2. apply (span_take t Hpos L p (length L) i); [by eapply lookup_lt_Some|done].
  - intros r Hr. destruct (find_loop_ok t Hv Hpos (size t) 0 r) as (q & j & Hj & Hq & Hspan);
      [lia|fold L; lia|fold L; lia|]. fold L in Hq, Hspan. unfold findByEvictionWeight. rewrite Hj. split.
    + intros [= ->]. assert (q = p) as -> by (by apply (NoDup_lookup L q p i); [apply NoDup_inorder; lia|..]). done.
    + intros Hr'. destruct (Nat.lt_trichotomy q p) as [H|[->|H]]; [|congruence|].
      * pose proof (span_take t Hpos L q p j H Hq). lia.
      * pose proof (span_take t Hpos L p q i H Hp). lia.
Qed.


(** ** The collection as a map *)

Definition total (pr : TxWeight -> Z) (m : gmap (list Z) TxWeight) : Z := zsum (map (fun p => pr p.2) (map_to_list m)).
(** What [WeightedTxInfo::from] guarantees of a weight. *)
Definition weighted (w : TxWeight) : Prop := 0 <= cost w <= evictionWeight w.
#[global] Instance weighted_dec w : Decision (weighted w).
Proof. unfold weighted. apply _. Defined.

Lemma weights_list t : valid t -> map_to_list (weights t) ≡ₚ map (fun x => (txId x, txWeight x)) (txIdAndWeights t).
Proof.
  intros Hv. apply NoDup_Permutation; [apply NoDup_map_to_list| |].
  - apply NoDup_alt. intros i j [id w] Hi Hj. rewrite list_lookup_fmap in Hi, Hj.
    apply fmap_Some in Hi as (x & Hx & [= -> ->]). apply fmap_Some in Hj as (y & Hy & [= E _]).
    by apply (indexed_unique _ _ i j x y (v_index t Hv)).
  - intros [id w]. rewrite elem_of_map_to_list. unfold weights. rewrite indexed_iff by apply v_index, Hv.
    rewrite list_elem_of_fmap. split.
    + intros (i & x & Hx & <- & <-). exists x. split; [done|]. by apply list_elem_of_lookup_2 in Hx.
    + intros (x & [= -> ->] & Hx). apply list_elem_of_lookup in Hx as [i Hx]. by exists i, x.
Qed.
Lemma size_weights t t' : valid t -> valid t' -> weights t' = weights t -> size t' = size t.
Proof.
  intros Hv Hv' Hw. rewrite <- (v_infos t Hv), <- (v_infos t' Hv').
  rewrite <- (length_map (fun x => (txId x, txWeight x)) (txIdAndWeights t)), <- (length_map (fun x => (txId x, txWeight x)) (txIdAndWeights t')).
  by rewrite <- (weights_list t Hv), <- (weights_list t' Hv'), Hw.
Qed.
Lemma total_list pr t : valid t -> zsum (map (fun x => pr (txWeight x)) (txIdAndWeights t)) = total pr (weights t).
Proof. intros Hv. unfold total. rewrite (weights_list t Hv), map_map. done. Qed.
Lemma total_get (pr : TxWeight -> Z) `{!Component pr} t : valid t ->
  balanced pr (size t) (txIdAndWeights t) (childWeights t) ->
  exists w, getTotalWeight t = Some w /\ pr w = s64 (total pr (weights t)).
Proof. intros Hv Hb. rewrite <- total_list by done. by apply total_weight. Qed.

Lemma total_weighted m : map_Forall (fun _ => weighted) m -> 0 <= total cost m <= total evictionWeight m.
Proof.
  intros Hm. unfold total. apply map_Forall_to_list in Hm.
  induction Hm as [|[id w] l Hw _ IH]; simpl; [lia|]. unfold weighted in Hw. simpl in Hw. lia.
Qed.
Lemma weighted_infos t : valid t -> map_Forall (fun _ => weighted) (weights t) ->
  Forall (fun x => 0 <= evictionWeight (txWeight x)) (txIdAndWeights t).
Proof.
  intros Hv Hm. apply Forall_lookup. intros i x Hx.
  specialize (Hm (txId x) (txWeight x)). unfold weighted in Hm. enough (weights t !! txId x = Some (txWeight x)) by (specialize (Hm H); lia).
  unfold weights. apply indexed_iff; [apply v_index, Hv|]. by exists i, x.
Qed.
Lemma total_delete (pr : TxWeight -> Z) (id : list Z) (w : TxWeight) (m : gmap (list Z) TxWeight) : m !! id = Some w -> total pr m = pr w + total pr (delete id m).
Proof. intros H. unfold total. by rewrite <- (map_to_list_delete m id w H). Qed.

Lemma total_subseteq m : forall m', map_Forall (fun _ => weighted) m -> m' ⊆ m -> total evictionWeight m' <= total evictionWeight m.
Proof.
  intros m'. revert m. induction m' as [|id w m' Hn IH] using map_ind; intros m Hm Hsub.
  { pose proof (total_weighted m Hm). unfold total at 1. rewrite map_to_list_empty. simpl. lia. }
  assert (m !! id = Some w) as Hid by (eapply lookup_weaken; [apply lookup_insert_eq|exact Hsub]).
  rewrite (total_delete _ id w m Hid), (total_delete _ id w (<[id := w]> m')), delete_insert_id by (done || apply lookup_insert_eq).
  specialize (IH (delete id m) (map_Forall_delete _ _ _ Hm)). enough (m' ⊆ delete id m) by (specialize (IH H); lia).
  rewrite <- (delete_insert_id m' id w) by done. by apply delete_mono.
Qed.

(** ** Random selection *)

Lemma GetRand_word nMax w e : 0 < nMax <= 2 ^ 63 -> 0 <= w < 2 ^ 63 -> GetRand nMax (w :: e) = Some (w mod nMax, e).
Proof.
  intros Hn Hw. unfold GetRand. destruct (Z.eqb_spec nMax 0); [lia|]. cbn [rand_loop].
  assert (2 ^ 63 <= (2 ^ 64 - 1) / nMax * nMax) as Hr.
  { pose proof (Z.mul_succ_div_gt (2 ^ 64 - 1) nMax). lia. }
  rewrite Z.geb_leb. destruct (Z.leb_spec ((2 ^ 64 - 1) / nMax * nMax) w); [lia|]. done.
Qed.

Lemma maybeDropRandom_keep t e : valid t -> map_Forall (fun _ => weighted) (weights t) ->
  total evictionWeight (weights t) < 2 ^ 31 -> total cost (weights t) <= capacity t ->
  maybeDropRandom e t = Some (None, t, e).
Proof.
  intros Hv Hm Ht Hc. pose proof (total_weighted _ Hm). unfold maybeDropRandom.
  destruct (total_get cost t Hv (v_cost t Hv)) as (w & -> & Hw). monad.
  rewrite Hw, s64_id by (unfold is_s64; lia). by rewrite (proj2 (Z.leb_le _ _) Hc).
Qed.

Lemma maybeDropRandom_drop t w e : valid t -> map_Forall (fun _ => weighted) (weights t) ->
  total evictionWeight (weights t) < 2 ^ 31 -> 0 <= capacity t < total cost (weights t) -> 0 <= w < 2 ^ 63 ->
  exists id t', maybeDropRandom (w :: e) t = Some (Some id, t', e) /\ is_Some (weights t !! id) /\
    remove id t = Some t'.
Proof.
  intros Hv Hm Ht Hc Hw. pose proof (total_weighted _ Hm). unfold maybeDropRandom.
  destruct (total_get evictionWeight t Hv (v_eviction t Hv)) as (tw & Htw & He).
  destruct (total_get cost t Hv (v_cost t Hv)) as (tw' & Htw' & Hco). rewrite Htw in Htw'. injection Htw' as <-.
  rewrite Htw. monad. rewrite Hco, He, !s64_id by (unfold is_s64; lia).
  rewrite (proj2 (Z.leb_gt _ _)) by lia. rewrite u64_id by (unfold is_u64; lia).
  rewrite GetRand_word by lia. monad. set (T := total evictionWeight (weights t)) in *.
  pose proof (Z.mod_pos_bound w T). rewrite s32_id by (unfold is_s32; lia).
  destruct (find_loop_ok t Hv (weighted_infos t Hv Hm) (size t) 0 (w mod T)) as (p & j & Hj & Hp & _);
    [lia|rewrite span_root, total_list by done; fold T; lia..|].
  unfold findByEvictionWeight. rewrite Hj. monad. apply list_elem_of_lookup_2 in Hp.
  rewrite inorder_root, elem_of_seq in Hp. destruct (lookup_lt_is_Some_2 (txIdAndWeights t) j) as [x Hx]; [rewrite v_infos by done; lia|].
  rewrite Hx. monad. destruct (tree_remove_ok (txId x) t Hv) as (t' & Hr & _). rewrite Hr. monad.
  exists (txId x), t'. split; [done|]. split; [|done]. exists (txWeight x).
  unfold weights. apply indexed_iff; [apply v_index, Hv|]. by exists j, x.
Qed.

End WeightedTxTreeFacts.

(** ** Recently evicted transactions *)

Module RecentlyEvictedFacts.
Import RecentlyEvictedList.

(** Readings of the clock, for which differences do not wrap. *)
Definition is_time (t : Z) : Prop := 0 <= t < 2 ^ 62.

(** A list in use: it is created empty, queried, and told of evictions of
    transactions it does not hold (the pool accepts no others).  [log] records
    every eviction with its time; the clock does not run backwards. *)
Inductive history (c k : Z) : Z -> list (list Z * Z) -> RecentlyEvictedList -> Prop :=
| history_new r : make_evicted c k = Some r -> history c k 0 [] r
| history_query clock log r now id b r' : history c k clock log r -> clock <= now -> is_time now ->
    contains now id r = (b, r') -> history c k now log r'
| history_add clock log r now now' id r' : history c k clock log r -> clock <= now -> now <= now' -> is_time now' ->
    fst (contains now id r) = false -> add_evicted now now' id r = Some r' -> history c k now' (log ++ [(id, now')]) r'.

Record tracks (c k clock : Z) (log : list (list Z * Z)) (r : RecentlyEvictedList) : Prop := {
  tr_capacity : capacity r = c;
  tr_keep : timeToKeep r = k;
  tr_time : is_time clock;
  tr_times : Forall (fun e => 0 <= e.2 <= clock) log;
  tr_sorted : forall i j a b, (i <= j)%nat -> log !! i = Some a -> log !! j = Some b -> a.2 <= b.2;
  tr_queue : exists gone, log = gone ++ txIdsAndTimes r /\
     forall j e, gone !! j = Some e -> Z.of_nat j + c < Z.of_nat (length log) \/ clock - e.2 > k;
  tr_length : Z.of_nat (length (txIdsAndTimes r)) <= c;
  tr_unique : NoDup (map fst (txIdsAndTimes r));
  tr_set : txIdSet r = list_to_set (map fst (txIdsAndTimes r))
}.

Lemma prune_loop_split now k q : forall s, is_time now -> Forall (fun e => 0 <= e.2 <= now) q ->
  exists l q', prune_loop now k q s = (q', s ∖ list_to_set (map fst l)) /\ q = l ++ q' /\
    Forall (fun e => now - e.2 > k) l /\ (forall e, head q' = Some e -> now - e.2 <= k).
Proof.
  induction q as [|[id t] q IH]; intros s Hn Hq; cbn [prune_loop].
  { exists [], []. simpl. rewrite difference_empty_L. split_and!; done. }
  apply Forall_cons in Hq as [Ht Hq]. simpl in Ht. unfold is_time in Hn.
  rewrite s64_id by (unfold is_s64; lia). rewrite Z.gtb_ltb. destruct (Z.ltb_spec k (now - t)).
  - destruct (IH (s ∖ {[id]}) Hn Hq) as (l & q' & -> & -> & Hl & Hh). exists ((id, t) :: l), q'.
    split; [simpl; by rewrite difference_difference_l_L|]. split; [done|]. split; [|done]. constructor; [simpl; lia|done].
  - exists [], ((id, t) :: q). simpl. rewrite difference_empty_L. split_and!; [done..|]. intros e [= <-]. simpl. lia.
Qed.

Lemma gone_set (l q : list (list Z * Z)) : NoDup (map fst (l ++ q)) ->
  list_to_set (C := gset (list Z)) (map fst (l ++ q)) ∖ list_to_set (map fst l) = list_to_set (map fst q).
Proof.
  rewrite map_app. intros (_ & Hd & _)%NoDup_app. apply set_eq. intros x.
  rewrite elem_of_difference, !elem_of_list_to_set, elem_of_app. specialize (Hd x). tauto.
Qed.

(** Pruning keeps exactly the entries that are recent enough. *)
Lemma pruneList_tracks c k clock log r now : tracks c k clock log r -> clock <= now -> is_time now ->
  tracks c k now log (pruneList now r) /\ Forall (fun e => now - e.2 <= k) (txIdsAndTimes (pruneList now r)).
Proof.
  intros T Hc Hn. destruct (tr_queue _ _ _ _ _ T) as (gone & Hlog & Hgone).
  assert (Forall (fun e => 0 <= e.2 <= now) log) as Hlt.
  { eapply Forall_impl; [apply (tr_times _ _ _ _ _ T)|]. simpl. lia. }
  destruct (prune_loop_split now k (txIdsAndTimes r) (txIdSet r) Hn) as (l & q & Hp & Hq & Hl & Hh).
  { rewrite Hlog in Hlt. by apply Forall_app in Hlt as [_ ?]. }
  assert (pruneList now r = set_queue r q (list_to_set (map fst q))) as ->.
  { unfold pruneList. pose proof (tr_unique _ _ _ _ _ T) as Hu. pose proof (tr_set _ _ _ _ _ T) as Hs. case_bool_decide as He.
    - rewrite He in Hs. rewrite Hq in Hs. destruct l, q; simpl in Hs; [|set_solver..].
      destruct r as [? ? ? ?]. simpl in *. unfold set_queue. simpl. by subst.
    - rewrite (tr_keep _ _ _ _ _ T), Hp, Hs. rewrite Hq in Hu |- *. by rewrite gone_set. }
  split; [split; simpl|].
  - apply T. - apply T. - done. - done. - apply T.
  - exists (gone ++ l). split; [by rewrite <- app_assoc, <- Hq|]. intros j e Hj.
    apply lookup_app_Some in Hj as [Hj|[_ Hj]]; [|right; by apply (Forall_lookup_1 _ _ _ _ Hl Hj)].
    destruct (Hgone j e Hj); [by left|right; lia].
  - pose proof (tr_length _ _ _ _ _ T) as H. rewrite Hq, length_app in H. lia.
  - pose proof (tr_unique _ _ _ _ _ T) as H. rewrite Hq, map_app in H. by apply NoDup_app in H as (_ & _ & ?).
  - done.
  - simpl. apply Forall_lookup. intros j e Hj. destruct q as [|e0 q]; [done|].
    specialize (Hh e0 eq_refl). enough (e0.2 <= e.2) by lia. pose proof (tr_sorted _ _ _ _ _ T) as Hs.
    rewrite Hlog, Hq, (app_assoc gone) in Hs. set (m := length (gone ++ l)) in *.
    apply (Hs m (m + j)%nat); [lia|unfold m; by rewrite lookup_app_r, Nat.sub_diag by lia|].
    rewrite lookup_app_r by (unfold m; lia). by replace (m + j - length (gone ++ l))%nat with j by (unfold m; lia).
Qed.

(** The entries that count: the last [c] evictions, if recent enough. *)
Definition remembered (c k now : Z) (log : list (list Z * Z)) (id : list Z) : Prop :=
  exists i t, log !! i = Some (id, t) /\ Z.of_nat (length log) <= Z.of_nat i + c /\ now - t <= k.

Lemma contains_iff c k clock log r now id : tracks c k clock log r -> clock <= now -> is_time now ->
  fst (contains now id r) = true <-> remembered c k now log id.
Proof.
  intros T Hc Hn. destruct (pruneList_tracks _ _ _ _ _ _ T Hc Hn) as [T' Hrecent]. unfold contains. simpl.
  rewrite bool_decide_eq_true, (tr_set _ _ _ _ _ T'), elem_of_list_to_set.
  destruct (tr_queue _ _ _ _ _ T') as (gone & Hlog & Hgone). pose proof (tr_length _ _ _ _ _ T') as Hlen.
  set (q := txIdsAndTimes (pruneList now r)) in *. split.
  - intros ((id' & t) & -> & Hin)%list_elem_of_fmap. apply list_elem_of_lookup in Hin as [j Hj].
    exists (length gone + j)%nat, t. rewrite Hlog, lookup_app_r, length_app by lia.
    replace (length gone + j - length gone)%nat with j by lia. split; [done|]. split; [lia|].
    by apply (Forall_lookup_1 _ _ _ _ Hrecent Hj).
  - intros (i & t & Hi & Hlast & Hrec). rewrite Hlog in Hi. apply lookup_app_Some in Hi as [Hi|[_ Hi]].
    + destruct (Hgone i _ Hi) as [H|H]; simpl in *; lia.
    + apply list_elem_of_lookup_2 in Hi. apply (list_elem_of_fmap_2 fst) in Hi. exact Hi.
Qed.

(** A new entry behind a suffix [q] of the queue. *)
Lemma push_tracks c k now now' log p id q d gone : tracks c k now log p -> now <= now' -> is_time now' ->
  id ∉ txIdSet p -> log = gone ++ q -> txIdsAndTimes p = d ++ q -> Z.of_nat (length q) < c ->
  (forall j e, gone !! j = Some e -> Z.of_nat j + c < Z.of_nat (length log) + 1 \/ now - e.2 > k) ->
  tracks c k now' (log ++ [(id, now')]) (set_queue p (q ++ [(id, now')]) (list_to_set (map fst q) ∪ {[id]})).
Proof.
  intros T Hn Ht Hnot Hlog Hd Hlen Hgone. pose proof (tr_times _ _ _ _ _ T) as Htimes. split; simpl.
  - apply T.
  - apply T.
  - done.
  - apply Forall_app. split; [|repeat constructor; simpl; unfold is_time in *; lia].
    eapply Forall_impl; [exact Htimes|]. simpl. lia.
  - intros i j a b Hij Ha Hb. apply lookup_app_Some in Ha, Hb. destruct Hb as [Hb|[Hb1 Hb]], Ha as [Ha|[Ha1 Ha]].
    + by apply (tr_sorted _ _ _ _ _ T i j).
    + apply lookup_lt_Some in Hb. lia.
    + apply list_lookup_singleton_Some in Hb as [_ <-]. pose proof (Forall_lookup_1 _ _ _ _ Htimes Ha). simpl in *. lia.
    + apply list_lookup_singleton_Some in Hb as [_ <-]. by apply list_lookup_singleton_Some in Ha as [_ <-].
  - exists gone. split; [by rewrite Hlog, <- app_assoc|]. intros j e Hj. rewrite length_app. simpl.
    destruct (Hgone j e Hj); [left|right]; lia.
  - rewrite length_app. simpl. lia.
  - rewrite map_app. pose proof (tr_unique _ _ _ _ _ T) as Hu. rewrite Hd, map_app in Hu.
    apply NoDup_app in Hu as (_ & _ & Hu). apply NoDup_app. split; [done|]. split; [|apply NoDup_singleton].
    simpl. intros x Hx ->%list_elem_of_singleton. apply Hnot.
    rewrite (tr_set _ _ _ _ _ T), elem_of_list_to_set, Hd, map_app. apply elem_of_app. by right.
  - rewrite map_app, list_to_set_app_L. simpl. by rewrite (right_id_L ∅ (∪)).
Qed.

(** A new entry displaces the oldest one when the list is full. *)
Lemma add_tracks c k clock log r now now' id : 0 < c -> tracks c k clock log r -> clock <= now -> now <= now' -> is_time now' ->
  fst (contains now id r) = false ->
  exists r', add_evicted now now' id r = Some r' /\ tracks c k now' (log ++ [(id, now')]) r'.
Proof.
  intros Hcap T Hc Hn Ht Hnot.
  assert (is_time now) as Hnow by (pose proof (tr_time _ _ _ _ _ T); unfold is_time in *; lia).
  destruct (pruneList_tracks _ _ _ _ _ _ T Hc Hnow) as [T' _].
  unfold contains in Hnot. simpl in Hnot. apply bool_decide_eq_false in Hnot.
  unfold add_evicted. set (p := pruneList now r) in *. rewrite (tr_capacity _ _ _ _ _ T').
  destruct (tr_queue _ _ _ _ _ T') as (gone & Hlog & Hgone). pose proof (tr_length _ _ _ _ _ T') as Hlen.
  pose proof (tr_unique _ _ _ _ _ T') as Hu. pose proof (tr_set _ _ _ _ _ T') as Hs.
  destruct (Z.eqb_spec (Z.of_nat (length (txIdsAndTimes p))) c) as [E|E].
  - destruct (txIdsAndTimes p) as [|[id0 t0] q] eqn:Ep; [simpl in E; lia|]. monad.
    eexists. split; [done|]. cbn [txIdsAndTimes txIdSet set_queue].
    pose proof (gone_set [(id0, t0)] q Hu) as Hset. simpl in Hset, Hs. rewrite (right_id_L ∅ (∪)) in Hset. rewrite Hs, Hset.
    apply (push_tracks c k now now' log p id q [(id0, t0)] (gone ++ [(id0, t0)])); try done;
      [by rewrite <- app_assoc|simpl in E; lia|].
    intros j e Hj. apply lookup_app_Some in Hj as [Hj|[Hj1 Hj]]; [destruct (Hgone j e Hj); [left|right]; lia|].
    apply list_lookup_singleton_Some in Hj as [Hj2 <-]. left. rewrite Hlog, length_app. lia.
  - monad. eexists. split; [done|]. rewrite Hs.
    apply (push_tracks c k now now' log p id (txIdsAndTimes p) [] gone); try done; [lia|].
    intros j e Hj. destruct (Hgone j e Hj); [left|right]; lia.
Qed.

Lemma history_tracks c k clock log r : 0 < c -> history c k clock log r -> tracks c k clock log r.
Proof.
  intros Hc. induction 1 as [r Hr|clock log r now id b r' Hh IH Hclk Ht Hq|clock log r now now' id r' Hh IH H1 H2 Ht Hn Ha].
  - unfold make_evicted in Hr. destruct (c <=? _); [|done]. injection Hr as <-. split; simpl.
    all: try done.
    + by exists [].
    + lia.
    + constructor.
  - unfold contains in Hq. injection Hq as _ <-. by apply (pruneList_tracks _ _ clock).
  - destruct (add_tracks c k clock log r now now' id) as (r'' & Ha' & T); try done. congruence.
Qed.

End RecentlyEvictedFacts.

(** ** The contracts *)

Module Contracts.
Import WeightedTxTree TreeWeights WeightedTxTreeFacts.

(** A use of the tree: transactions come and go. *)
Inductive op := OpAdd (info : WeightedTxInfo) | OpRemove (id : list Z).
Fixpoint run_ops (l : list op) (t : WeightedTxTree) : option WeightedTxTree :=
  match l with
  | [] => Some t
  | OpAdd info :: l => t ← add info t; run_ops l t
  | OpRemove id :: l => t ← remove id t; run_ops l t
  end.
(** The same on the abstract collection, a finite map. *)
Fixpoint spec_ops (l : list op) (m : gmap (list Z) TxWeight) : gmap (list Z) TxWeight :=
  match l with
  | [] => m
  | OpAdd info :: l => spec_ops l (match m !! txId info with Some _ => m | None => <[txId info := txWeight info]> m end)
  | OpRemove id :: l => spec_ops l (base.delete id m)
  end.

Lemma tree_ops_ok l : forall t, valid t ->
  exists t', run_ops l t = Some t' /\ valid t' /\ capacity t' = capacity t /\ weights t' = spec_ops l (weights t).
Proof.
  induction l as [|[info|id] l IH]; intros t Hv; simpl; [by exists t| |].
  - destruct (tree_add_ok info t Hv) as (t1 & -> & Hv1 & Hc1 & Hw1). monad.
    destruct (IH t1 Hv1) as (t' & Hr & Hv' & Hc' & Hw'). exists t'. rewrite <- Hw1. split_and!; congruence.
  - destruct (tree_remove_ok id t Hv) as (t1 & -> & Hv1 & Hc1 & Hw1 & _). monad.
    destruct (IH t1 Hv1) as (t' & Hr & Hv' & Hc' & Hw'). exists t'. rewrite <- Hw1. split_and!; congruence.
Qed.

Definition sample_info (n c e : Z) : WeightedTxInfo :=
  {| txId := [n]; txWeight := {| cost := c; evictionWeight := e |} |}.
Definition sample_ops : list op :=
  [OpAdd (sample_info 1 4000 4000); OpAdd (sample_info 2 5000 21000); OpAdd (sample_info 3 6000 6000);
   OpAdd (sample_info 4 4000 20000); OpRemove [1]; OpAdd (sample_info 2 1 1)].
Definition sample_tree : WeightedTxTree :=
  {| capacity := 8000; size := 0; txIdAndWeights := []; childWeights := []; txIdToIndexMap := ∅ |}.

(** C13: however transactions are added to and removed from the weighted tree,
    no operation fails, and it implements a finite map from transaction ids to
    weights: a second [add] of an id is ignored, [remove] deletes, and the total
    it reports at the root is the (64-bit) sum over the map, in both components. *)
Theorem weighted_tree_refines_map (c : Z) (t0 : WeightedTxTree) (H0 : make_tree c = Some t0) (l : list op) :
  exists t w, run_ops l t0 = Some t /\ getTotalWeight t = Some w /\
    weights t = spec_ops l ∅ /\
    cost w = s64 (total cost (spec_ops l ∅)) /\
    evictionWeight w = s64 (total evictionWeight (spec_ops l ∅)).
Proof.
  destruct (make_valid c t0 H0) as (Hv & Hw & _).
  destruct (tree_ops_ok l t0 Hv) as (t & Hr & Hv' & _ & Hw'). rewrite Hw in Hw'.
  destruct (total_get cost t Hv' (v_cost t Hv')) as (w & Hg & Hc).
  destruct (total_get evictionWeight t Hv' (v_eviction t Hv')) as (w' & Hg' & He).
  rewrite Hg in Hg'. injection Hg' as <-. exists t, w. rewrite <- Hw'. done.
Qed.

Lemma weighted_tree_refines_map_witness : exists t w, run_ops sample_ops sample_tree = Some t /\ getTotalWeight t = Some w /\
  weights t = spec_ops sample_ops ∅ /\ cost w = s64 (total cost (spec_ops sample_ops ∅)) /\
  evictionWeight w = s64 (total evictionWeight (spec_ops sample_ops ∅)).
Proof. apply (weighted_tree_refines_map 8000); reflexivity. Defined.

(** Eviction is a weighted draw.  For a tree built by any operations whose
    weights are not negative and add up to [T < 2^31], every [r] of [0 .. T-1]
    selects a transaction (the descent ends), and each transaction is selected on
    an interval of exactly as many values as its eviction weight. *)
Lemma eviction_is_weighted (c : Z) (t0 t : WeightedTxTree) (l : list op)
    (H0 : make_tree c = Some t0) (Hrun : run_ops l t0 = Some t)
    (Hw : map_Forall (fun _ => weighted) (spec_ops l ∅))
    (Ht : total evictionWeight (spec_ops l ∅) < 2 ^ 31) :
  let T := total evictionWeight (spec_ops l ∅) in
  (forall r, 0 <= r < T -> exists i x, findByEvictionWeight t 0 r = Some i /\ txIdAndWeights t !! i = Some x /\
     spec_ops l ∅ !! txId x = Some (txWeight x)) /\
  (forall id w, spec_ops l ∅ !! id = Some w -> exists i x a,
     txIdAndWeights t !! i = Some x /\ txId x = id /\ 0 <= a /\ a + evictionWeight w <= T /\
     forall r, 0 <= r < T -> findByEvictionWeight t 0 r = Some i <-> a <= r < a + evictionWeight w).
Proof.
  destruct (make_valid c t0 H0) as (Hv0 & Hw0 & _).
  destruct (tree_ops_ok l t0 Hv0) as (t' & Hr & Hv & _ & Hm). rewrite Hrun in Hr. injection Hr as <-.
  rewrite Hw0 in Hm. rewrite <- Hm in Hw, Ht |- *. intros T. pose proof (weighted_infos t Hv Hw) as Hpos. split.
  - intros r Hr. destruct (find_loop_ok t Hv Hpos (size t) 0 r) as (p & i & Hi & Hp & _);
      [lia|rewrite span_root, total_list by done; fold T; lia..|].
    apply list_elem_of_lookup_2 in Hp. rewrite inorder_root, elem_of_seq in Hp.
    destruct (lookup_lt_is_Some_2 (txIdAndWeights t) i) as [x Hx]; [rewrite v_infos by done; lia|].
    exists i, x. split; [done|]. split; [done|]. unfold weights. apply indexed_iff; [apply v_index, Hv|]. by exists i, x.
  - intros id w Hid. apply indexed_iff in Hid as (i & x & Hx & <- & <-); [|apply v_index, Hv].
    destruct (selection_interval t i x Hv Hpos) as (a & Ha & Hle & Hr); [by rewrite total_list|done|].
    rewrite total_list in Hle, Hr by done. exists i, x, a. by split_and!.
Qed.

Definition sample_built : WeightedTxTree :=
  match run_ops sample_ops sample_tree with Some t => t | None => sample_tree end.
Lemma sample_weighted : map_Forall (fun _ => weighted) (spec_ops sample_ops ∅).
Proof.
  apply (bool_decide_unpack _). by vm_compute.
Qed.

Lemma eviction_is_weighted_witness :
  (exists i x, findByEvictionWeight sample_built 0 30000 = Some i /\ txIdAndWeights sample_built !! i = Some x /\
     spec_ops sample_ops ∅ !! txId x = Some (txWeight x)) /\
  findByEvictionWeight sample_built 0 20999 = Some 1%nat /\ findByEvictionWeight sample_built 0 21000 = Some 0%nat.
Proof.
  split; [|split; vm_compute; reflexivity].
  apply (eviction_is_weighted 8000 sample_tree sample_built sample_ops);
    [reflexivity|vm_compute; reflexivity|exact sample_weighted|vm_compute; reflexivity|].
  split; [lia|vm_compute; reflexivity].
Defined.

End Contracts.

(** The list of recently evicted transactions answers for the last
    [capacity] evictions: at any time it reports an id exactly when one of them
    was of that id and at most [timeToKeep] seconds ago, it never outgrows its
    capacity, and a further eviction never fails. *)
Lemma recently_evicted_correct (c k clock : Z) (log : list (list Z * Z)) (r : RecentlyEvictedList.RecentlyEvictedList)
    (Hh : RecentlyEvictedFacts.history c k clock log r) (Hc : 0 < c)
    (now : Z) (Hnow : clock <= now) (Ht : RecentlyEvictedFacts.is_time now) (id : list Z) :
  (fst (RecentlyEvictedList.contains now id r) = true <-> RecentlyEvictedFacts.remembered c k now log id) /\
  Z.of_nat (length (RecentlyEvictedList.txIdsAndTimes r)) <= c /\
  (fst (RecentlyEvictedList.contains now id r) = false -> is_Some (RecentlyEvictedList.add_evicted now now id r)).
Proof.
  apply RecentlyEvictedFacts.history_tracks in Hh as T; [|done].
  split; [by eapply RecentlyEvictedFacts.contains_iff|]. split; [apply T|]. intros Hf.
  destruct (RecentlyEvictedFacts.add_tracks c k clock log r now now id) as (r' & Hr & _); done || eauto.
Qed.

Definition sample_evicted : RecentlyEvictedList.RecentlyEvictedList :=
  {| RecentlyEvictedList.capacity := 2; RecentlyEvictedList.timeToKeep := 60;
     RecentlyEvictedList.txIdsAndTimes := [([2], 10); ([3], 50)]; RecentlyEvictedList.txIdSet := {[ [2] ]} ∪ {[ [3] ]} |}.

Lemma recently_evicted_correct_witness :
  (fst (RecentlyEvictedList.contains 71 [3] sample_evicted) = true <->
     RecentlyEvictedFacts.remembered 2 60 71 [([1], 5); ([2], 10); ([3], 50)] [3]) /\
  fst (RecentlyEvictedList.contains 71 [3] sample_evicted) = true /\
  fst (RecentlyEvictedList.contains 71 [2] sample_evicted) = false.
Proof.
  split; [|split; vm_compute; reflexivity].
  apply (recently_evicted_correct 2 60 50 [([1], 5); ([2], 10); ([3], 50)] sample_evicted); [|lia|lia|by vm_compute].
  assert (RecentlyEvictedFacts.history 2 60 0 [] {| RecentlyEvictedList.capacity := 2;
    RecentlyEvictedList.timeToKeep := 60; RecentlyEvictedList.txIdsAndTimes := []; RecentlyEvictedList.txIdSet := ∅ |}) as H0
    by (constructor; reflexivity).
  eapply (RecentlyEvictedFacts.history_add 2 60 0 [] _ 5 5 [1]) in H0; [|lia|lia|by vm_compute|reflexivity|reflexivity].
  eapply (RecentlyEvictedFacts.history_add 2 60 5 _ _ 10 10 [2]) in H0; [|lia|lia|by vm_compute|reflexivity|reflexivity].
  eapply (RecentlyEvictedFacts.history_add 2 60 10 _ _ 50 50 [3]) in H0; [|lia|lia|by vm_compute|reflexivity|reflexivity].
  exact H0.
Defined.
