(* ===== verification/Mempool.v ===== *)
(** * The memory pool (src/txmempool.{h,cpp})

    [CTxMemPool] owns its transactions in a multi-index container and reaches
    them through raw pointers held by several maps.  The container's nodes are a
    heap [nodes] from addresses to entries, its index by transaction id is
    [mapTx]; following a pointer to a node that is gone is [None], as is any other
    undefined access or failed [assert].  The fee estimator (src/policy/fees.cpp)
    is an interface; heap usage of a transaction, transaction ids, entropy and
    the clock are parameters.  [double]s are IEEE binary64 numbers. *)

From stdpp Require Import base list list_numbers numbers option gmap sorting.
From Stdlib Require Import ZArith Lia SpecFloat.
From S2P Require Import Prelude Params Serialize Amount Transaction Script Coins TxCheck MempoolLimit.
Import Transaction Amount Consensus Coins.

(** ** Doubles *)

Module Double.
Definition double : Type := spec_float.
Definition prec : Z := 53.
Definition emax : Z := 1024.
Definition add : double -> double -> double := SFadd prec emax.
Definition mul : double -> double -> double := SFmul prec emax.
Definition div : double -> double -> double := SFdiv prec emax.
(** Conversion of an integer, rounded to nearest. *)
Definition of_Z (z : Z) : double := binary_normalize prec emax z 0 false.
Definition gtb (a b : double) : bool := SFltb b a.
End Double.

Module Mempool.

Definition AllowFreeThreshold : Double.double := Double.of_Z (COIN * 144 / 250).
Definition AllowFree (dPriority : Double.double) : bool := Double.gtb dPriority AllowFreeThreshold.

Definition MEMPOOL_HEIGHT : Z := 0x7FFFFFFF.

(** [CTransaction::CalculateModifiedSize], in [unsigned int] *)
Fixpoint modified_size_loop (ins : list CTxIn) (nTxSize : Z) : Z :=
  match ins with
  | [] => nTxSize
  | i :: ins =>
      let offset := 41 + Z.min 110 (Script.size (scriptSig i)) in
      modified_size_loop ins (if nTxSize >? offset then nTxSize - offset else nTxSize)
  end.
Definition CalculateModifiedSize (tx : CTransaction) (nTxSize : Z) : option Z :=
  nTxSize ← (if u32 nTxSize =? 0 then u32 <$> TxCheck.GetSerializeSize tx else Some (u32 nTxSize));
  Some (modified_size_loop (vin tx) nTxSize).

(** ** class CTxMemPoolEntry *)

Record CTxMemPoolEntry := {
  tx : CTransaction; nFee : Z; nTxSize : Z; nModSize : Z; nUsageSize : Z; feeRate : CFeeRate;
  nTime : Z; dPriority : Double.double; nHeight : Z; hadNoDependencies : bool; spendsCoinbase : bool; nBranchId : Z
}.

(** The constructor; [memory] is [RecursiveDynamicUsage]. *)
Definition CTxMemPoolEntry_make (memory : CTransaction -> Z) (_tx : CTransaction) (_nFee _nTime : Z)
    (_dPriority : Double.double) (_nHeight : Z) (poolHasNoInputsOf _spendsCoinbase : bool) (_nBranchId : Z)
  : option CTxMemPoolEntry :=
  nTxSize ← TxCheck.GetSerializeSize _tx;
  nModSize ← CalculateModifiedSize _tx nTxSize;
  Some {| tx := _tx; nFee := _nFee; nTxSize := nTxSize; nModSize := nModSize; nUsageSize := memory _tx;
          feeRate := CFeeRate_of_fee _nFee nTxSize; nTime := _nTime; dPriority := _dPriority; nHeight := _nHeight;
          hadNoDependencies := poolHasNoInputsOf; spendsCoinbase := _spendsCoinbase; nBranchId := _nBranchId |}.

(** [currentHeight-nHeight] is an [unsigned int]. *)
Definition GetPriority (currentHeight : Z) (e : CTxMemPoolEntry) : option Double.double :=
  out ← GetValueOut (tx e);
  let nValueIn := s64 (out + nFee e) in
  let deltaPriority :=
    Double.div (Double.mul (Double.of_Z (u32 (currentHeight - nHeight e))) (Double.of_Z nValueIn)) (Double.of_Z (nModSize e)) in
  Some (Double.add (dPriority e) deltaPriority).

Definition CompareTxMemPoolEntryByFee (a b : CTxMemPoolEntry) : bool :=
  if feerate_eq (feeRate a) (feeRate b) then nTime a <? nTime b else feerate_gt (feeRate a) (feeRate b).

(** ** class CInPoint *)

Abbreviation ptr := positive.
Record CInPoint := { ptx : ptr; n : Z }.

(** ** The fee estimator *)

Class MinerPolicyEstimator (E : Type) := {
  processTransaction : CTxMemPoolEntry -> bool -> E -> E;
  removeTx : list Z -> E -> E;
  processBlock : Z -> list CTxMemPoolEntry -> bool -> E -> E
}.

(** ** The address and spent indices (src/addressindex.h, src/spentindex.h) *)

Record CMempoolAddressDeltaKey := {
  ak_type : Z; ak_addressBytes : list Z; ak_txhash : list Z; ak_index : Z; ak_spending : Z
}.
#[global] Instance delta_key_eq_dec : EqDecision CMempoolAddressDeltaKey.
Proof. solve_decision. Defined.
#[global] Instance delta_key_countable : Countable CMempoolAddressDeltaKey.
Proof.
  refine (inj_countable' (fun k => (ak_type k, ak_addressBytes k, ak_txhash k, ak_index k, ak_spending k))
    (fun '(t, b, h, i, s) => {| ak_type := t; ak_addressBytes := b; ak_txhash := h; ak_index := i; ak_spending := s |}) _).
  by intros [].
Defined.
Record CMempoolAddressDelta := { ad_time : Z; ad_amount : Z; ad_prevhash : list Z; ad_prevout : Z }.

(** [CSpentIndexKey] has the fields of an outpoint. *)
Record CSpentIndexValue := {
  sv_txid : list Z; sv_inputIndex : Z; sv_blockHeight : Z; sv_satoshis : Z; sv_addressType : Z; sv_addressHash : list Z
}.

Definition script_type (s : list Z) : Z :=
  match Script.GetType s with Script.UNKNOWN => 0 | Script.P2PKH => 1 | Script.P2SH => 2 end.

(** [std::map::insert] keeps an existing entry. *)
Definition map_emplace {K V} `{Countable K} (k : K) (v : V) (m : gmap K V) : gmap K V :=
  match m !! k with Some _ => m | None => <[k := v]> m end.

Record insight_index := {
  mapAddress : gmap CMempoolAddressDeltaKey CMempoolAddressDelta;
  mapAddressInserted : gmap (list Z) (list CMempoolAddressDeltaKey);
  mapSpent : gmap COutPoint CSpentIndexValue;
  mapSpentInserted : gmap (list Z) (list COutPoint)
}.
Definition insight_empty : insight_index :=
  {| mapAddress := ∅; mapAddressInserted := ∅; mapSpent := ∅; mapSpentInserted := ∅ |}.

(** ** class CTxMemPool

    The container, and the maps that point into it. *)
Record tx_store := {
  nodes : gmap ptr CTxMemPoolEntry;
  mapTx : gmap (list Z) ptr;
  mapNextTx : gmap COutPoint CInPoint;
  mapSproutNullifiers : gmap (list Z) ptr;
  mapSaplingNullifiers : gmap (list Z) ptr;
  mapRecentlyAddedTx : gmap (list Z) ptr
}.

Record CTxMemPool (E : Type) := {
  nCheckFrequency : Z;
  store : tx_store;
  nTransactionsUpdated : Z;
  minerPolicyEstimator : E;
  totalTxSize : Z;
  cachedInnerUsage : Z;
  nRecentlyAddedSequence : Z;
  nNotifiedSequence : Z;
  recentlyEvicted : RecentlyEvictedList.RecentlyEvictedList;
  weightedTxTree : WeightedTxTree.WeightedTxTree;
  insight : insight_index;
  mapDeltas : gmap (list Z) (Double.double * Z)
}.
Arguments nCheckFrequency {E}. Arguments store {E}. Arguments nTransactionsUpdated {E}.
Arguments minerPolicyEstimator {E}. Arguments totalTxSize {E}. Arguments cachedInnerUsage {E}.
Arguments nRecentlyAddedSequence {E}. Arguments nNotifiedSequence {E}. Arguments recentlyEvicted {E}.
Arguments weightedTxTree {E}. Arguments insight {E}. Arguments mapDeltas {E}.

Section setters.
Context {E : Type}.
Implicit Type p : CTxMemPool E.
Definition set_tree p (t : WeightedTxTree.WeightedTxTree) : CTxMemPool E := {|
  nCheckFrequency := nCheckFrequency p; store := store p; nTransactionsUpdated := nTransactionsUpdated p;
  minerPolicyEstimator := minerPolicyEstimator p; totalTxSize := totalTxSize p; cachedInnerUsage := cachedInnerUsage p;
  nRecentlyAddedSequence := nRecentlyAddedSequence p; nNotifiedSequence := nNotifiedSequence p;
  recentlyEvicted := recentlyEvicted p; weightedTxTree := t; insight := insight p; mapDeltas := mapDeltas p |}.
Definition set_evicted p (r : RecentlyEvictedList.RecentlyEvictedList) : CTxMemPool E := {|
  nCheckFrequency := nCheckFrequency p; store := store p; nTransactionsUpdated := nTransactionsUpdated p;
  minerPolicyEstimator := minerPolicyEstimator p; totalTxSize := totalTxSize p; cachedInnerUsage := cachedInnerUsage p;
  nRecentlyAddedSequence := nRecentlyAddedSequence p; nNotifiedSequence := nNotifiedSequence p;
  recentlyEvicted := r; weightedTxTree := weightedTxTree p; insight := insight p; mapDeltas := mapDeltas p |}.
Definition set_deltas p (d : gmap (list Z) (Double.double * Z)) : CTxMemPool E := {|
  nCheckFrequency := nCheckFrequency p; store := store p; nTransactionsUpdated := nTransactionsUpdated p;
  minerPolicyEstimator := minerPolicyEstimator p; totalTxSize := totalTxSize p; cachedInnerUsage := cachedInnerUsage p;
  nRecentlyAddedSequence := nRecentlyAddedSequence p; nNotifiedSequence := nNotifiedSequence p;
  recentlyEvicted := recentlyEvicted p; weightedTxTree := weightedTxTree p; insight := insight p; mapDeltas := d |}.
Definition set_insight p (i : insight_index) : CTxMemPool E := {|
  nCheckFrequency := nCheckFrequency p; store := store p; nTransactionsUpdated := nTransactionsUpdated p;
  minerPolicyEstimator := minerPolicyEstimator p; totalTxSize := totalTxSize p; cachedInnerUsage := cachedInnerUsage p;
  nRecentlyAddedSequence := nRecentlyAddedSequence p; nNotifiedSequence := nNotifiedSequence p;
  recentlyEvicted := recentlyEvicted p; weightedTxTree := weightedTxTree p; insight := i; mapDeltas := mapDeltas p |}.
Definition set_estimator p (e : E) : CTxMemPool E := {|
  nCheckFrequency := nCheckFrequency p; store := store p; nTransactionsUpdated := nTransactionsUpdated p;
  minerPolicyEstimator := e; totalTxSize := totalTxSize p; cachedInnerUsage := cachedInnerUsage p;
  nRecentlyAddedSequence := nRecentlyAddedSequence p; nNotifiedSequence := nNotifiedSequence p;
  recentlyEvicted := recentlyEvicted p; weightedTxTree := weightedTxTree p; insight := insight p; mapDeltas := mapDeltas p |}.
Definition set_notified p (recent : gmap (list Z) ptr) (notified : Z) : CTxMemPool E := {|
  nCheckFrequency := nCheckFrequency p;
  store := {| nodes := nodes (store p); mapTx := mapTx (store p); mapNextTx := mapNextTx (store p);
              mapSproutNullifiers := mapSproutNullifiers (store p);
              mapSaplingNullifiers := mapSaplingNullifiers (store p); mapRecentlyAddedTx := recent |};
  nTransactionsUpdated := nTransactionsUpdated p;
  minerPolicyEstimator := minerPolicyEstimator p; totalTxSize := totalTxSize p; cachedInnerUsage := cachedInnerUsage p;
  nRecentlyAddedSequence := nRecentlyAddedSequence p; nNotifiedSequence := notified;
  recentlyEvicted := recentlyEvicted p; weightedTxTree := weightedTxTree p; insight := insight p; mapDeltas := mapDeltas p |}.
End setters.


(** ** Iteration orders *)

(** [operator<] of [base_blob]: [memcmp]. *)
Fixpoint blob_le (a b : list Z) : bool :=
  match a, b with
  | [], _ => true
  | _, [] => false
  | x :: a, y :: b => if x <? y then true else if y <? x then false else blob_le a b
  end.

(** The nodes of [mapTx] from [begin()] to [end()]. *)
Definition by_txid (a b : list Z * ptr) : Prop := blob_le a.1 b.1 = true.
#[global] Instance by_txid_dec : RelDecision by_txid.
Proof. intros a b. unfold by_txid. apply _. Defined.
Definition mapTx_nodes (s : tx_store) : list ptr := map snd (merge_sort by_txid (map_to_list (mapTx s))).

(** ** Links from a transaction *)

(** The keys under which [addUnchecked] files a transaction. *)
Definition tx_inputs (tx : CTransaction) : list (COutPoint * Z) := imap (fun i txin => (prevout txin, Z.of_nat i)) (vin tx).
Definition tx_sprout (tx : CTransaction) : list (list Z) := concat (map nullifiers (vJoinSplit tx)).
Definition tx_sapling (tx : CTransaction) : list (list Z) := map sd_nullifier (vShieldedSpend tx).

Section pool.
Context {E : Type} `{MinerPolicyEstimator E} (memory : CTransaction -> Z) (tx_GetHash : CTransaction -> list Z).
Context (fAddressIndex fSpentIndex : bool).
Implicit Type p : CTxMemPool E.

(** The constructor.  It leaves [cachedInnerUsage] alone: [residue] is what the
    storage held, zero for the node's global pool. *)
Definition CTxMemPool_make (estimator : E) (residue : Z) : option (CTxMemPool E) :=
  r ← RecentlyEvictedList.make_evicted EVICTION_MEMORY_ENTRIES (DEFAULT_MEMPOOL_EVICTION_MEMORY_MINUTES * 60);
  t ← WeightedTxTree.make_tree DEFAULT_MEMPOOL_TOTAL_COST_LIMIT;
  Some {| nCheckFrequency := 0;
     store := {| nodes := ∅; mapTx := ∅; mapNextTx := ∅; mapSproutNullifiers := ∅; mapSaplingNullifiers := ∅;
                 mapRecentlyAddedTx := ∅ |};
     nTransactionsUpdated := 0; minerPolicyEstimator := estimator; totalTxSize := 0; cachedInnerUsage := residue;
     nRecentlyAddedSequence := 0; nNotifiedSequence := 0; recentlyEvicted := r; weightedTxTree := t;
     insight := insight_empty; mapDeltas := ∅ |}.

(** *** Queries *)

Definition exists_tx (hash : list Z) p : bool := bool_decide (is_Some (mapTx (store p) !! hash)).
Definition lookup (hash : list Z) p : option CTransaction :=
  a ← mapTx (store p) !! hash; e ← nodes (store p) !! a; Some (tx e).
(** Following a [const CTransaction*]. *)
Definition deref (s : tx_store) (a : ptr) : option CTransaction := tx <$> nodes s !! a.

Definition queryHashes p : option (list (list Z)) :=
  mapM (fun a => tx_GetHash <$> deref (store p) a) (mapTx_nodes (store p)).
Definition HasNoInputsOf (t : CTransaction) p : bool :=
  forallb (fun i => negb (exists_tx (out_hash (prevout i)) p)) (vin t).
Definition nullifierExists (nf : list Z) (type : ShieldedType) p : bool :=
  match type with
  | SPROUT => bool_decide (is_Some (mapSproutNullifiers (store p) !! nf))
  | SAPLING => bool_decide (is_Some (mapSaplingNullifiers (store p) !! nf))
  end.
(** The outputs of [hashTx] in [mapNextTx], in the order of the map. *)
Definition pruneSpent (hashTx : list Z) (cs : CCoins) p : CCoins :=
  let spent := omap (fun o => if bool_decide (out_hash o = hashTx) then Some (out_n o) else None)
                 (map fst (map_to_list (mapNextTx (store p)))) in
  fold_left (fun cs i => snd (Spend cs i)) (merge_sort Z.le spent) cs.

(** *** addUnchecked *)

(** [mapTx.insert(entry)]: a new node unless the id is present. *)
Definition mapTx_insert (e : CTxMemPoolEntry) (s : tx_store) : tx_store :=
  match mapTx s !! tx_GetHash (tx e) with
  | Some _ => s
  | None =>
      let a := fresh (dom (nodes s)) in
      {| nodes := <[a := e]> (nodes s); mapTx := <[tx_GetHash (tx e) := a]> (mapTx s); mapNextTx := mapNextTx s;
         mapSproutNullifiers := mapSproutNullifiers s; mapSaplingNullifiers := mapSaplingNullifiers s;
         mapRecentlyAddedTx := mapRecentlyAddedTx s |}
  end.
(** The loops that point at the node [a] of [t]. *)
Definition link_tx (a : ptr) (t : CTransaction) (s : tx_store) : tx_store := {|
  nodes := nodes s; mapTx := mapTx s;
  mapNextTx := fold_left (fun m '(o, i) => <[o := {| ptx := a; n := i |}]> m) (tx_inputs t) (mapNextTx s);
  mapSproutNullifiers := fold_left (fun m nf => <[nf := a]> m) (tx_sprout t) (mapSproutNullifiers s);
  mapSaplingNullifiers := fold_left (fun m nf => <[nf := a]> m) (tx_sapling t) (mapSaplingNullifiers s);
  mapRecentlyAddedTx := <[tx_GetHash t := a]> (mapRecentlyAddedTx s) |}.

Definition addUnchecked (hash : list Z) (entry : CTxMemPoolEntry) (fCurrentEstimate : bool) p : option (CTxMemPool E) :=
  tree ← WeightedTxTree.add (WeightedTxInfo_from memory tx_GetHash (tx entry) (nFee entry)) (weightedTxTree p);
  let s := mapTx_insert entry (store p) in
  a ← mapTx s !! hash;
  t ← deref s a;
  Some {| nCheckFrequency := nCheckFrequency p; store := link_tx a t s;
     nTransactionsUpdated := u32 (nTransactionsUpdated p + 1);
     minerPolicyEstimator := processTransaction entry fCurrentEstimate (minerPolicyEstimator p);
     totalTxSize := u64 (totalTxSize p + nTxSize entry); cachedInnerUsage := u64 (cachedInnerUsage p + nUsageSize entry);
     nRecentlyAddedSequence := u64 (nRecentlyAddedSequence p + 1); nNotifiedSequence := nNotifiedSequence p;
     recentlyEvicted := recentlyEvicted p; weightedTxTree := tree; insight := insight p; mapDeltas := mapDeltas p |}.

(** *** The insight explorer's indices *)

Fixpoint address_inputs {B} `{CCoinsView B} (time : Z) (txhash : list Z) (j : nat) (ins : list CTxIn)
    (m : gmap CMempoolAddressDeltaKey CMempoolAddressDelta) (inserted : list CMempoolAddressDeltaKey)
    (view : CCoinsViewCache B)
  : option (gmap CMempoolAddressDeltaKey CMempoolAddressDelta * list CMempoolAddressDeltaKey * CCoinsViewCache B) :=
  match ins with
  | [] => Some (m, inserted, view)
  | input :: ins =>
      '(out, view) ← GetOutputFor input view;
      match Script.GetType (scriptPubKey out) with
      | Script.UNKNOWN => address_inputs time txhash (S j) ins m inserted view
      | _ =>
          let key := {| ak_type := script_type (scriptPubKey out); ak_addressBytes := Script.AddressHash (scriptPubKey out);
                        ak_txhash := txhash; ak_index := Z.of_nat j; ak_spending := 1 |} in
          let delta := {| ad_time := time; ad_amount := s64 (nValue out * -1); ad_prevhash := out_hash (prevout input);
                          ad_prevout := out_n (prevout input) |} in
          address_inputs time txhash (S j) ins (map_emplace key delta m) (inserted ++ [key]) view
      end
  end.
Fixpoint address_outputs (time : Z) (txhash : list Z) (j : nat) (outs : list CTxOut)
    (m : gmap CMempoolAddressDeltaKey CMempoolAddressDelta) (inserted : list CMempoolAddressDeltaKey)
  : gmap CMempoolAddressDeltaKey CMempoolAddressDelta * list CMempoolAddressDeltaKey :=
  match outs with
  | [] => (m, inserted)
  | out :: outs =>
      match Script.GetType (scriptPubKey out) with
      | Script.UNKNOWN => address_outputs time txhash (S j) outs m inserted
      | _ =>
          let key := {| ak_type := script_type (scriptPubKey out); ak_addressBytes := Script.AddressHash (scriptPubKey out);
                        ak_txhash := txhash; ak_index := Z.of_nat j; ak_spending := 0 |} in
          address_outputs time txhash (S j) outs
            (map_emplace key {| ad_time := time; ad_amount := nValue out; ad_prevhash := zero_blob 32; ad_prevout := 0 |} m)
            (inserted ++ [key])
      end
  end.
Definition addAddressIndex {B} `{CCoinsView B} (entry : CTxMemPoolEntry) (view : CCoinsViewCache B) p
  : option (CTxMemPool E * CCoinsViewCache B) :=
  let txhash := tx_GetHash (tx entry) in
  '(m, inserted, view) ← address_inputs (nTime entry) txhash 0 (vin (tx entry)) (mapAddress (insight p)) [] view;
  let '(m, inserted) := address_outputs (nTime entry) txhash 0 (Transaction.vout (tx entry)) m inserted in
  Some (set_insight p {| mapAddress := m; mapAddressInserted := map_emplace txhash inserted (mapAddressInserted (insight p));
                         mapSpent := mapSpent (insight p); mapSpentInserted := mapSpentInserted (insight p) |}, view).
Definition removeAddressIndex (txhash : list Z) p : CTxMemPool E :=
  match mapAddressInserted (insight p) !! txhash with
  | None => p
  | Some keys =>
      set_insight p {| mapAddress := fold_left (fun m k => base.delete k m) keys (mapAddress (insight p));
                       mapAddressInserted := base.delete txhash (mapAddressInserted (insight p));
                       mapSpent := mapSpent (insight p); mapSpentInserted := mapSpentInserted (insight p) |}
  end.

Fixpoint spent_inputs {B} `{CCoinsView B} (txhash : list Z) (j : nat) (ins : list CTxIn)
    (m : gmap COutPoint CSpentIndexValue) (inserted : list COutPoint) (view : CCoinsViewCache B)
  : option (gmap COutPoint CSpentIndexValue * list COutPoint * CCoinsViewCache B) :=
  match ins with
  | [] => Some (m, inserted, view)
  | input :: ins =>
      '(out, view) ← GetOutputFor input view;
      let key := prevout input in
      let value := {| sv_txid := txhash; sv_inputIndex := Z.of_nat j; sv_blockHeight := -1; sv_satoshis := nValue out;
                      sv_addressType := script_type (scriptPubKey out); sv_addressHash := Script.AddressHash (scriptPubKey out) |} in
      spent_inputs txhash (S j) ins (map_emplace key value m) (inserted ++ [key]) view
  end.
Definition addSpentIndex {B} `{CCoinsView B} (entry : CTxMemPoolEntry) (view : CCoinsViewCache B) p
  : option (CTxMemPool E * CCoinsViewCache B) :=
  let txhash := tx_GetHash (tx entry) in
  '(m, inserted, view) ← spent_inputs txhash 0 (vin (tx entry)) (mapSpent (insight p)) [] view;
  Some (set_insight p {| mapAddress := mapAddress (insight p); mapAddressInserted := mapAddressInserted (insight p);
                         mapSpent := m; mapSpentInserted := map_emplace txhash inserted (mapSpentInserted (insight p)) |}, view).
Definition getSpentIndex (key : COutPoint) p : option CSpentIndexValue := mapSpent (insight p) !! key.
Definition removeSpentIndex (txhash : list Z) p : CTxMemPool E :=
  match mapSpentInserted (insight p) !! txhash with
  | None => p
  | Some keys =>
      set_insight p {| mapAddress := mapAddress (insight p); mapAddressInserted := mapAddressInserted (insight p);
                       mapSpent := fold_left (fun m k => base.delete k m) keys (mapSpent (insight p));
                       mapSpentInserted := base.delete txhash (mapSpentInserted (insight p)) |}
  end.

(** *** remove *)

(** The ids of the pool transactions that spend an output of [hash]: the loop
    over [vout] with [mapNextTx.find]. *)
Fixpoint children_loop (hash : list Z) (i k : nat) (s : tx_store) : option (list (list Z)) :=
  match k with
  | O => Some []
  | S k =>
      match mapNextTx s !! {| out_hash := hash; out_n := Z.of_nat i |} with
      | None => children_loop hash (S i) k s
      | Some it => t ← deref s (ptx it); l ← children_loop hash (S i) k s; Some (tx_GetHash t :: l)
      end
  end.
Definition children (hash : list Z) (t : CTransaction) (s : tx_store) : option (list (list Z)) :=
  children_loop hash 0 (length (Transaction.vout t)) s.

Definition unlink_tx (hash : list Z) (a : ptr) (t : CTransaction) (s : tx_store) : tx_store := {|
  nodes := base.delete a (nodes s); mapTx := base.delete hash (mapTx s);
  mapNextTx := fold_left (fun m o => base.delete o m) (map prevout (vin t)) (mapNextTx s);
  mapSproutNullifiers := fold_left (fun m nf => base.delete nf m) (tx_sprout t) (mapSproutNullifiers s);
  mapSaplingNullifiers := fold_left (fun m nf => base.delete nf m) (tx_sapling t) (mapSaplingNullifiers s);
  mapRecentlyAddedTx := base.delete hash (mapRecentlyAddedTx s) |}.

(** The body of the loop from [mapRecentlyAddedTx.erase(hash)] on, for the node
    [a] that holds [e]. *)
Definition erase_tx (hash : list Z) (a : ptr) (e : CTxMemPoolEntry) p : CTxMemPool E :=
  let p := {| nCheckFrequency := nCheckFrequency p; store := unlink_tx hash a (tx e) (store p);
     nTransactionsUpdated := u32 (nTransactionsUpdated p + 1); minerPolicyEstimator := removeTx hash (minerPolicyEstimator p);
     totalTxSize := u64 (totalTxSize p - nTxSize e); cachedInnerUsage := u64 (cachedInnerUsage p - nUsageSize e);
     nRecentlyAddedSequence := nRecentlyAddedSequence p; nNotifiedSequence := nNotifiedSequence p;
     recentlyEvicted := recentlyEvicted p; weightedTxTree := weightedTxTree p; insight := insight p; mapDeltas := mapDeltas p |} in
  let p := if fAddressIndex then removeAddressIndex hash p else p in
  if fSpentIndex then removeSpentIndex hash p else p.

Fixpoint remove_loop (fuel : nat) (fRecursive : bool) (txToRemove : list (list Z)) (removed : list CTransaction) p
  : option (list CTransaction * CTxMemPool E) :=
  match txToRemove with
  | [] => Some (removed, p)
  | hash :: txToRemove =>
      match fuel with
      | O => None
      | S fuel =>
          match mapTx (store p) !! hash with
          | None => remove_loop fuel fRecursive txToRemove removed p
          | Some a =>
              e ← nodes (store p) !! a;
              l ← (if fRecursive then children hash (tx e) (store p) else Some []);
              remove_loop fuel fRecursive (txToRemove ++ l) (removed ++ [tx e]) (erase_tx hash a e p)
          end
      end
  end.

(** Every turn takes one id off the queue and adds at most one per output of
    the transaction it removes. *)
Definition remove_fuel (txToRemove : list (list Z)) p : nat :=
  length txToRemove + sum_list (map (fun x => length (Transaction.vout (tx x.2))) (map_to_list (nodes (store p)))).

Fixpoint remove_weights (removed : list CTransaction) (t : WeightedTxTree.WeightedTxTree)
  : option WeightedTxTree.WeightedTxTree :=
  match removed with
  | [] => Some t
  | x :: removed => t ← WeightedTxTree.remove (tx_GetHash x) t; remove_weights removed t
  end.

Definition remove (origTx : CTransaction) (removed : list CTransaction) (fRecursive : bool) p
  : option (list CTransaction * CTxMemPool E) :=
  let hash := tx_GetHash origTx in
  l ← (if fRecursive && negb (exists_tx hash p) then children hash origTx (store p) else Some []);
  let txToRemove := hash :: l in
  '(removed, p) ← remove_loop (remove_fuel txToRemove p) fRecursive txToRemove removed p;
  tree ← remove_weights removed (weightedTxTree p);
  Some (removed, set_tree p tree).

(** [BOOST_FOREACH(tx, transactionsToRemove) { removed; remove(tx, removed, true); }] *)
Fixpoint remove_each (l : list CTransaction) p : option (CTxMemPool E) :=
  match l with
  | [] => Some p
  | t :: l => '(_, p) ← remove t [] true p; remove_each l p
  end.


(** One pass over [mapTx] that collects transactions. *)
Fixpoint collect (f : CTxMemPoolEntry -> bool) (l : list ptr) (s : tx_store) : option (list CTransaction) :=
  match l with
  | [] => Some []
  | a :: l => e ← nodes s !! a; r ← collect f l s; Some (if f e then tx e :: r else r)
  end.
Definition remove_where (f : CTxMemPoolEntry -> bool) p : option (CTxMemPool E) :=
  transactionsToRemove ← collect f (mapTx_nodes (store p)) (store p);
  remove_each transactionsToRemove p.

Definition removeWithAnchor (invalidRoot : list Z) (type : ShieldedType) p : option (CTxMemPool E) :=
  remove_where (fun e => match type with
    | SPROUT => existsb (fun js => bool_decide (anchor js = invalidRoot)) (vJoinSplit (tx e))
    | SAPLING => existsb (fun sd => bool_decide (sd_anchor sd = invalidRoot)) (vShieldedSpend (tx e))
    end) p.
(** [IsExpiredTx] takes an [int]. *)
Definition removeExpired (nBlockHeight : Z) p : option (CTxMemPool E) :=
  remove_where (fun e => TxCheck.IsExpiredTx (tx e) (s32 nBlockHeight)) p.
Definition removeWithoutBranchId (nMemPoolBranchId : Z) p : option (CTxMemPool E) :=
  remove_where (fun e => negb (nBranchId e =? nMemPoolBranchId)) p.

(** The loop over the inputs of a transaction that spends a coinbase. *)
Fixpoint spends_immature {B} `{CCoinsView B} (consensusParams : Params) (nMemPoolHeight : Z) (ins : list CTxIn) p
    (pcoins : CCoinsViewCache B) : option (bool * CCoinsViewCache B) :=
  match ins with
  | [] => Some (false, pcoins)
  | txin :: ins =>
      if exists_tx (out_hash (prevout txin)) p then spends_immature consensusParams nMemPoolHeight ins p pcoins
      else
        let '(r, pcoins) := AccessCoins (out_hash (prevout txin)) pcoins in
        match r with
        | None => if negb (nCheckFrequency p =? 0) then None else Some (true, pcoins)
        | Some cs =>
            if fCoinBase cs && (nMemPoolHeight - Coins.nHeight cs <? nCoinbaseMaturity consensusParams)
            then Some (true, pcoins)
            else spends_immature consensusParams nMemPoolHeight ins p pcoins
        end
  end.
(** [height], [median_time] and [adjusted_time] are what [CheckFinalTx] reads of
    the chain and the clock. *)
Fixpoint reorg_loop {B} `{CCoinsView B} (consensusParams : Params) (flags height median_time adjusted_time nMemPoolHeight : Z)
    (l : list ptr) p (pcoins : CCoinsViewCache B) : option (list CTransaction * CCoinsViewCache B) :=
  match l with
  | [] => Some ([], pcoins)
  | a :: l =>
      e ← nodes (store p) !! a;
      '(drop, pcoins) ←
        (if negb (TxCheck.CheckFinalTx (tx e) flags height median_time adjusted_time) then Some (true, pcoins)
         else if spendsCoinbase e then spends_immature consensusParams nMemPoolHeight (vin (tx e)) p pcoins
         else Some (false, pcoins));
      '(r, pcoins) ← reorg_loop consensusParams flags height median_time adjusted_time nMemPoolHeight l p pcoins;
      Some (if (drop : bool) then tx e :: r else r, pcoins)
  end.
Definition removeForReorg {B} `{CCoinsView B} (consensusParams : Params) (flags height median_time adjusted_time : Z)
    (pcoins : CCoinsViewCache B) (nMemPoolHeight : Z) p : option (CTxMemPool E * CCoinsViewCache B) :=
  '(transactionsToRemove, pcoins) ← reorg_loop consensusParams flags height median_time adjusted_time nMemPoolHeight
                                      (mapTx_nodes (store p)) p pcoins;
  p ← remove_each transactionsToRemove p;
  Some (p, pcoins).

(** [if (it != end()) { txConflict = *it->second; if (txConflict != tx) remove(txConflict, removed, true); }]
    where transactions compare by hash *)
Definition remove_conflict (t : CTransaction) (it : option ptr) (removed : list CTransaction) p
  : option (list CTransaction * CTxMemPool E) :=
  match it with
  | None => Some (removed, p)
  | Some a =>
      txConflict ← deref (store p) a;
      if bool_decide (tx_GetHash txConflict = tx_GetHash t) then Some (removed, p)
      else remove txConflict removed true p
  end.
Fixpoint conflict_loop {K} (find : K -> tx_store -> option ptr) (t : CTransaction) (l : list K)
    (removed : list CTransaction) p : option (list CTransaction * CTxMemPool E) :=
  match l with
  | [] => Some (removed, p)
  | k :: l => '(removed, p) ← remove_conflict t (find k (store p)) removed p; conflict_loop find t l removed p
  end.
Definition removeConflicts (t : CTransaction) (removed : list CTransaction) p : option (list CTransaction * CTxMemPool E) :=
  '(removed, p) ← conflict_loop (fun o s => ptx <$> mapNextTx s !! o) t (map prevout (vin t)) removed p;
  '(removed, p) ← conflict_loop (fun nf s => mapSproutNullifiers s !! nf) t (tx_sprout t) removed p;
  conflict_loop (fun nf s => mapSaplingNullifiers s !! nf) t (tx_sapling t) removed p.

Definition ClearPrioritisation (hash : list Z) p : CTxMemPool E := set_deltas p (base.delete hash (mapDeltas p)).

Fixpoint block_entries (vtx : list CTransaction) p : option (list CTxMemPoolEntry) :=
  match vtx with
  | [] => Some []
  | t :: vtx =>
      match mapTx (store p) !! tx_GetHash t with
      | None => block_entries vtx p
      | Some a => e ← nodes (store p) !! a; r ← block_entries vtx p; Some (e :: r)
      end
  end.
Fixpoint block_loop (vtx : list CTransaction) (conflicts : list CTransaction) p : option (list CTransaction * CTxMemPool E) :=
  match vtx with
  | [] => Some (conflicts, p)
  | t :: vtx =>
      '(_, p) ← remove t [] false p;
      '(conflicts, p) ← removeConflicts t conflicts p;
      block_loop vtx conflicts (ClearPrioritisation (tx_GetHash t) p)
  end.
Definition removeForBlock (vtx : list CTransaction) (nBlockHeight : Z) (conflicts : list CTransaction)
    (fCurrentEstimate : bool) p : option (list CTransaction * CTxMemPool E) :=
  entries ← block_entries vtx p;
  '(conflicts, p) ← block_loop vtx conflicts p;
  Some (conflicts, set_estimator p (processBlock nBlockHeight entries fCurrentEstimate (minerPolicyEstimator p))).

(** [clear()]: five fields are reset, the others are left as they are. *)
Definition clear p : CTxMemPool E := {|
  nCheckFrequency := nCheckFrequency p;
  store := {| nodes := ∅; mapTx := ∅; mapNextTx := ∅; mapSproutNullifiers := mapSproutNullifiers (store p);
              mapSaplingNullifiers := mapSaplingNullifiers (store p); mapRecentlyAddedTx := mapRecentlyAddedTx (store p) |};
  nTransactionsUpdated := u32 (nTransactionsUpdated p + 1); minerPolicyEstimator := minerPolicyEstimator p;
  totalTxSize := 0; cachedInnerUsage := 0; nRecentlyAddedSequence := nRecentlyAddedSequence p;
  nNotifiedSequence := nNotifiedSequence p; recentlyEvicted := recentlyEvicted p; weightedTxTree := weightedTxTree p;
  insight := insight p; mapDeltas := mapDeltas p |}.

(** *** The assertions of check() on the pool itself *)

(** [Σ] over the entries, in [uint64_t]. *)
Definition check_sum (f : CTxMemPoolEntry -> Z) (s : tx_store) : option Z :=
  es ← mapM (fun a => nodes s !! a) (mapTx_nodes s); Some (fold_left (fun acc e => u64 (acc + f e)) es 0).
(** The inputs of every transaction are marked in [mapNextTx]. *)
Definition check_inputs (s : tx_store) : bool :=
  forallb (fun a => match nodes s !! a with
    | None => false
    | Some e => forallb (fun '(o, i) => match mapNextTx s !! o with
                                        | Some it => bool_decide (ptx it = a) && (n it =? i)
                                        | None => false
                                        end) (tx_inputs (tx e))
    end) (mapTx_nodes s).
(** Every entry of [mapNextTx] points at a transaction of the pool and the input
    that spends the output. *)
Definition check_next (s : tx_store) : bool :=
  forallb (fun '(o, it) => match nodes s !! ptx it with
    | None => false
    | Some e =>
        bool_decide (mapTx s !! tx_GetHash (tx e) = Some (ptx it)) && (Z.of_nat (length (vin (tx e))) >? n it) &&
        match vin (tx e) !! Z.to_nat (n it) with Some txin => bool_decide (o = prevout txin) | None => false end
    end) (map_to_list (mapNextTx s)).
Definition checkNullifiers (type : ShieldedType) (s : tx_store) : bool :=
  let mapToUse := match type with SPROUT => mapSproutNullifiers s | SAPLING => mapSaplingNullifiers s end in
  forallb (fun '(_, a) => match nodes s !! a with
    | None => false
    | Some e => bool_decide (mapTx s !! tx_GetHash (tx e) = Some a)
    end) (map_to_list mapToUse).
Definition check_pool p : bool :=
  check_inputs (store p) && check_next (store p) && checkNullifiers SPROUT (store p) && checkNullifiers SAPLING (store p) &&
  bool_decide (check_sum nTxSize (store p) = Some (totalTxSize p)) &&
  bool_decide (check_sum nUsageSize (store p) = Some (cachedInnerUsage p)).

(** *** Prioritisation and notifications *)

Definition PrioritiseTransaction (hash : list Z) (dPriorityDelta : Double.double) (nFeeDelta : Z) p : CTxMemPool E :=
  let '(d, f) := default (S754_zero false, 0) (mapDeltas p !! hash) in
  set_deltas p (<[hash := (Double.add d dPriorityDelta, s64 (f + nFeeDelta))]> (mapDeltas p)).
Definition ApplyDeltas (hash : list Z) (dPriorityDelta : Double.double) (nFeeDelta : Z) p : Double.double * Z :=
  match mapDeltas p !! hash with
  | None => (dPriorityDelta, nFeeDelta)
  | Some (d, f) => (Double.add dPriorityDelta d, s64 (nFeeDelta + f))
  end.
Definition AddTransactionsUpdated (k : Z) p : CTxMemPool E := {|
  nCheckFrequency := nCheckFrequency p; store := store p; nTransactionsUpdated := u32 (nTransactionsUpdated p + k);
  minerPolicyEstimator := minerPolicyEstimator p; totalTxSize := totalTxSize p; cachedInnerUsage := cachedInnerUsage p;
  nRecentlyAddedSequence := nRecentlyAddedSequence p; nNotifiedSequence := nNotifiedSequence p;
  recentlyEvicted := recentlyEvicted p; weightedTxTree := weightedTxTree p; insight := insight p; mapDeltas := mapDeltas p |}.
(** The transactions passed to [SyncWithWallets] and the pool after the call, when
    no other thread comes in between; the sequence number is kept in regtest
    mode only. *)
Definition NotifyRecentlyAdded (regtest : bool) p : option (list CTransaction * CTxMemPool E) :=
  txs ← mapM (fun kv => deref (store p) kv.2) (merge_sort by_txid (map_to_list (mapRecentlyAddedTx (store p))));
  Some (txs, set_notified p ∅ (if regtest then nRecentlyAddedSequence p else nNotifiedSequence p)).
Definition IsFullyNotified (regtest : bool) p : option bool :=
  if regtest then Some (nRecentlyAddedSequence p =? nNotifiedSequence p) else None.

(** *** The size limit *)

Definition SetMempoolCostLimit (totalCostLimit evictionMemorySeconds : Z) p : option (CTxMemPool E) :=
  r ← RecentlyEvictedList.make_evicted EVICTION_MEMORY_ENTRIES evictionMemorySeconds;
  t ← WeightedTxTree.make_tree totalCostLimit;
  Some (set_tree (set_evicted p r) t).
Definition IsRecentlyEvicted (now : Z) (txId : list Z) p : bool * CTxMemPool E :=
  let '(b, r) := RecentlyEvictedList.contains now txId (recentlyEvicted p) in (b, set_evicted p r).

(** [times] are the readings of the clock, two for each eviction; [fuel] bounds
    the number of evictions. *)
Fixpoint evict_loop (fuel : nat) (entropy : list Z) (times : nat -> Z * Z) p : option (CTxMemPool E * list Z) :=
  '(maybeDropTxId, tree, entropy) ← WeightedTxTree.maybeDropRandom entropy (weightedTxTree p);
  let p := set_tree p tree in
  match maybeDropTxId with
  | None => Some (p, entropy)
  | Some txId =>
      match fuel with
      | O => None
      | S fuel =>
          let '(now, now') := times fuel in
          r ← RecentlyEvictedList.add_evicted now now' txId (recentlyEvicted p);
          let p := set_evicted p r in
          t ← lookup txId p;
          '(_, p) ← remove t [] true p;
          evict_loop fuel entropy times p
      end
  end.
Definition EnsureSizeLimit (entropy : list Z) (times : nat -> Z * Z) p : option (CTxMemPool E * list Z) :=
  evict_loop (WeightedTxTree.size (weightedTxTree p)) entropy times p.

(** ** class CCoinsViewMemPool *)

Definition mempool_GetNullifier {B} `{CCoinsView B} (nf : list Z) (type : ShieldedType) p (base : B) : bool * B :=
  if nullifierExists nf type p then (true, base) else GetNullifier nf type base.
Definition mempool_GetCoins {B} `{CCoinsView B} (txid : list Z) p (base : B) : option CCoins * B :=
  match lookup txid p with
  | Some t => (Some (FromTx t MEMPOOL_HEIGHT), base)
  | None =>
      let '(r, base) := GetCoins txid base in
      (match r with Some cs => if IsPruned cs then None else Some cs | None => None end, base)
  end.
Definition mempool_HaveCoins {B} `{CCoinsView B} (txid : list Z) p (base : B) : bool * B :=
  if exists_tx txid p then (true, base) else HaveCoins txid base.

End pool.

End Mempool.
