(* ===== verification/MempoolFacts.v ===== *)
(** * The memory pool stays consistent (see Mempool.v)

    [linked] says that a map of pointers is exactly the one its transactions
    determine; [consistent] collects that for every map of the pool, with the
    totals and the weighted tree.  Every operation but [clear] preserves it.
    Recursive removal takes out the transactions of a connected family and
    nothing else; a connected block leaves no transaction in conflict with it;
    the size limit is met after finitely many evictions. *)

From stdpp Require Import base list list_numbers numbers option gmap sorting.
From Stdlib Require Import ZArith Lia.
From S2P Require Import Prelude Params Serialize Amount Transaction Script Coins TxCheck MempoolLimit MempoolLimitFacts Mempool.
Import Transaction Mempool.

Module MempoolFacts.

(** ** Maps of pointers *)

Section linked.
Context {K T V : Type} `{Countable K} (val : ptr -> T -> V) (f : CTxMemPoolEntry -> list (K * T)).
Context (Hval : forall a b t u, val a t = val b u -> a = b /\ t = u).

Definition linked (ns : gmap ptr CTxMemPoolEntry) (m : gmap K V) : Prop :=
  forall k v, m !! k = Some v <-> exists a e t, ns !! a = Some e /\ (k, t) ∈ f e /\ v = val a t.

Definition link (a : ptr) (l : list (K * T)) (m : gmap K V) : gmap K V :=
  fold_left (fun m '(k, t) => <[k := val a t]> m) l m.
Definition unlink (l : list K) (m : gmap K V) : gmap K V := fold_left (fun m k => delete k m) l m.

(** Keys with one tag each, none of them in [m]. *)
Definition fresh_keys (l : list (K * T)) (m : gmap K V) : Prop :=
  NoDup (map fst l) /\ forall k t, (k, t) ∈ l -> m !! k = None.

Lemma link_lookup a l : forall m k v, NoDup (map fst l) ->
  link a l m !! k = Some v <-> (exists t, (k, t) ∈ l /\ v = val a t) \/ ((k ∉ map fst l) /\ m !! k = Some v).
Proof.
  induction l as [|[k0 t0] l IH]; intros m k v Hnd; cbn [link fold_left].
  - split; [intros Hm; right; split; [apply not_elem_of_nil|done]|].
    intros [(t & Hin & _)|[_ Hm]]; [by apply elem_of_nil in Hin|done].
  - simpl in Hnd. apply NoDup_cons in Hnd as [Hni Hnd].
    change (fold_left _ l (<[k0 := val a t0]> m)) with (link a l (<[k0 := val a t0]> m)). rewrite IH by done. simpl.
    rewrite not_elem_of_cons. split.
    + intros [(t & Hin & ->)|[Hk Hm]]; [left; exists t; split; [by right|done]|].
      apply lookup_insert_Some in Hm as [[<- <-]|[Hne Hm]]; [left; exists t0; split; [by left|done]|right; auto].
    + intros [(t & Hin & ->)|[[Hne Hk] Hm]].
      * apply elem_of_cons in Hin as [[= -> ->]|Hin]; [right|left; eauto]. split; [done|]. apply lookup_insert_eq.
      * right. split; [done|]. by rewrite lookup_insert_ne.
Qed.

Lemma unlink_lookup l : forall m k, unlink l m !! k = if decide (k ∈ l) then None else m !! k.
Proof.
  induction l as [|k0 l IH]; intros m k; cbn [unlink fold_left]; [by rewrite decide_False by apply not_elem_of_nil|].
  change (fold_left _ l (delete k0 m)) with (unlink l (delete k0 m)). rewrite IH.
  destruct (decide (k ∈ l)); [by rewrite decide_True by (by right)|].
  destruct (decide (k = k0)) as [->|Hne].
  - rewrite decide_True by (by left). apply lookup_delete_eq.
  - rewrite decide_False by (rewrite elem_of_cons; tauto). by rewrite lookup_delete_ne.
Qed.

Lemma linked_insert ns m a e : linked ns m -> ns !! a = None -> fresh_keys (f e) m ->
  linked (<[a := e]> ns) (link a (f e) m).
Proof.
  intros Hl Ha [Hnd Hfr] k v. rewrite link_lookup by done. rewrite (Hl k v). split.
  - intros [(t & Hin & ->)|[_ (b & e' & t & Hb & Hin & ->)]].
    + exists a, e, t. by rewrite lookup_insert_eq.
    + exists b, e', t. rewrite lookup_insert_ne by congruence. done.
  - intros (b & e' & t & Hb & Hin & ->). apply lookup_insert_Some in Hb as [[<- <-]|[Hne Hb]]; [left; eauto|right].
    assert (m !! k = Some (val b t)) as Hm by (apply Hl; eauto 10).
    split; [|by exists b, e', t]. intros ((k' & t') & -> & Hin')%list_elem_of_fmap.
    apply Hfr in Hin'. simpl in Hm. congruence.
Qed.

Lemma linked_delete ns m a e : linked ns m -> ns !! a = Some e ->
  linked (delete a ns) (unlink (map fst (f e)) m).
Proof.
  intros Hl Ha k v. rewrite unlink_lookup. split.
  - destruct (decide _) as [|Hni]; [done|]. intros Hm. apply Hl in Hm as (b & e' & t & Hb & Hin & ->).
    exists b, e', t. rewrite lookup_delete_ne; [done|]. intros <-. rewrite Ha in Hb. injection Hb as <-.
    apply Hni. apply (list_elem_of_fmap_2 fst) in Hin. exact Hin.
  - intros (b & e' & t & Hb & Hin & ->). apply lookup_delete_Some in Hb as [Hne Hb].
    assert (m !! k = Some (val b t)) as Hm by (apply Hl; by exists b, e', t).
    rewrite decide_False; [done|]. intros ((k' & t') & -> & Hin')%list_elem_of_fmap. simpl in *.
    assert (m !! k' = Some (val a t')) as Hm' by (apply Hl; by exists a, e, t').
    rewrite Hm in Hm'. injection Hm' as E. apply Hval in E as [E _]. congruence.
Qed.

Lemma linked_empty : linked ∅ ∅.
Proof.
  intros k v. rewrite lookup_empty. split; [done|]. intros (a & e & t & Ha & _). by rewrite lookup_empty in Ha.
Qed.

End linked.

(** The maps of the pool as instances. *)
Definition plain (a : ptr) (_ : unit) : ptr := a.
Definition inpoint (a : ptr) (i : Z) : CInPoint := {| ptx := a; n := i |}.
Definition tagged {K} (l : list K) : list (K * unit) := map (fun k => (k, ())) l.

Lemma plain_inj a b t u : plain a t = plain b u -> a = b /\ t = u.
Proof. unfold plain. intros ->. by destruct t, u. Qed.
Lemma inpoint_inj a b t u : inpoint a t = inpoint b u -> a = b /\ t = u.
Proof. by intros [= -> ->]. Qed.
Lemma tagged_keys {K} (l : list K) : map fst (tagged l) = l.
Proof. unfold tagged. rewrite map_map. apply map_id. Qed.
Lemma elem_of_tagged {K} (l : list K) k t : (k, t) ∈ tagged l <-> k ∈ l.
Proof.
  destruct t. unfold tagged. rewrite list_elem_of_fmap. split; [by intros (x & [= ->] & Hx)|]. intros Hk. by exists k.
Qed.
Lemma link_tagged {K} `{Countable K} a (l : list K) (m : gmap K ptr) :
  link plain a (tagged l) m = fold_left (fun m k => <[k := a]> m) l m.
Proof. revert m. induction l as [|k l IH]; intros m; [done|]. apply IH. Qed.
Lemma inputs_keys t : map fst (tx_inputs t) = map prevout (vin t).
Proof.
  unfold tx_inputs. rewrite (fmap_imap (fun i txin => (prevout txin, Z.of_nat i)) fst). unfold compose. simpl.
  apply list_eq. intros i. by rewrite list_lookup_imap, list_lookup_fmap.
Qed.
Lemma elem_of_inputs t o i : (o, i) ∈ tx_inputs t <-> exists k txin, i = Z.of_nat k /\ vin t !! k = Some txin /\ prevout txin = o.
Proof.
  unfold tx_inputs. rewrite elem_of_lookup_imap. split.
  - intros (k & txin & [= -> ->] & Hk). by exists k, txin.
  - intros (k & txin & -> & Hk & <-). by exists k, txin.
Qed.


(** ** The invariant *)

Section pool.
Context {E : Type} `{MinerPolicyEstimator E} (memory : CTransaction -> Z) (tx_GetHash : CTransaction -> list Z).
Context (fAddressIndex fSpentIndex : bool).
Implicit Type p : CTxMemPool E.
Local Abbreviation erase_tx := (erase_tx fAddressIndex fSpentIndex).
Local Abbreviation remove_loop := (remove_loop tx_GetHash fAddressIndex fSpentIndex).
Local Abbreviation remove := (remove tx_GetHash fAddressIndex fSpentIndex).
Definition info_of (e : CTxMemPoolEntry) : WeightedTxInfo := WeightedTxInfo_from memory tx_GetHash (tx e) (nFee e).

Definition node_sum (g : CTxMemPoolEntry -> Z) (ns : gmap ptr CTxMemPoolEntry) : Z :=
  TreeWeights.zsum (map (fun x => g x.2) (map_to_list ns)).

(** The links between the transactions. *)
Record linked_store (s : tx_store) : Prop := {
  ls_ids : linked plain (fun e => tagged [tx_GetHash (tx e)]) (nodes s) (mapTx s);
  ls_next : linked inpoint (fun e => tx_inputs (tx e)) (nodes s) (mapNextTx s);
  ls_sprout : linked plain (fun e => tagged (tx_sprout (tx e))) (nodes s) (mapSproutNullifiers s);
  ls_sapling : linked plain (fun e => tagged (tx_sapling (tx e))) (nodes s) (mapSaplingNullifiers s);
  ls_recent : mapRecentlyAddedTx s ⊆ mapTx s
}.

(** The sizes recorded for them. *)
Record totals p : Prop := {
  tt_size : totalTxSize p = u64 (node_sum nTxSize (nodes (store p)));
  tt_usage : cachedInnerUsage p = u64 (node_sum nUsageSize (nodes (store p)))
}.

(** The weighted tree holds the pool's transactions. *)
Record weighed (s : tx_store) (t : WeightedTxTree.WeightedTxTree) : Prop := {
  wt_valid : WeightedTxTreeFacts.valid t;
  wt_weights : forall h, WeightedTxTreeFacts.weights t !! h =
     (a ← mapTx s !! h; e ← nodes s !! a; Some (txWeight (info_of e)))
}.

Record consistent p : Prop := {
  co_links : linked_store (store p);
  co_totals : totals p;
  co_tree : weighed (store p) (weightedTxTree p)
}.

(** A transaction by id. *)
Lemma ids_iff s h a : linked_store s -> mapTx s !! h = Some a <-> exists e, nodes s !! a = Some e /\ tx_GetHash (tx e) = h.
Proof.
  intros L. rewrite (ls_ids s L h a). unfold plain. split.
  - intros (b & e & t & Hb & Hin%elem_of_tagged & ->). apply list_elem_of_singleton in Hin as ->. by exists e.
  - intros (e & He & <-). exists a, e, (). split; [done|]. split; [|done]. apply elem_of_tagged. by left.
Qed.
Lemma ids_node s h a : linked_store s -> mapTx s !! h = Some a -> exists e, nodes s !! a = Some e /\ tx_GetHash (tx e) = h.
Proof. intros L. by apply ids_iff. Qed.

Lemma node_sum_insert g a e ns : ns !! a = None -> node_sum g (<[a := e]> ns) = g e + node_sum g ns.
Proof. intros Ha. unfold node_sum. by rewrite map_to_list_insert. Qed.
Lemma node_sum_delete g a e ns : ns !! a = Some e -> node_sum g ns = g e + node_sum g (delete a ns).
Proof. intros Ha. unfold node_sum. by rewrite <- (map_to_list_delete ns a e Ha). Qed.

(** *** Adding *)

(** What [AcceptToMemoryPool] has checked of a new entry. *)
Record admissible (e : CTxMemPoolEntry) (s : tx_store) : Prop := {
  ad_new : mapTx s !! tx_GetHash (tx e) = None;
  ad_inputs : fresh_keys (tx_inputs (tx e)) (mapNextTx s);
  ad_sprout : fresh_keys (tagged (tx_sprout (tx e))) (mapSproutNullifiers s);
  ad_sapling : fresh_keys (tagged (tx_sapling (tx e))) (mapSaplingNullifiers s)
}.

Lemma link_linked e s : linked_store s -> admissible e s ->
  exists a, nodes s !! a = None /\ mapTx (mapTx_insert tx_GetHash e s) !! tx_GetHash (tx e) = Some a /\
    let s' := link_tx tx_GetHash a (tx e) (mapTx_insert tx_GetHash e s) in
    linked_store s' /\ nodes s' = <[a := e]> (nodes s) /\ mapTx s' = <[tx_GetHash (tx e) := a]> (mapTx s).
Proof.
  intros L A. exists (fresh (dom (nodes s))). set (a := fresh (dom (nodes s))).
  assert (nodes s !! a = None) as Ha by (apply not_elem_of_dom, is_fresh).
  split; [done|]. unfold mapTx_insert. rewrite (ad_new _ _ A). fold a. simpl. split; [apply lookup_insert_eq|].
  split; [|done]. split; simpl.
  - apply (linked_insert plain (fun e => tagged [tx_GetHash (tx e)])); [apply L|done|].
    split; [rewrite tagged_keys; apply NoDup_singleton|].
    intros k t Hin%elem_of_tagged. apply list_elem_of_singleton in Hin as ->. apply A.
  - apply (linked_insert inpoint (fun e => tx_inputs (tx e))); [apply L|done|apply A].
  - rewrite <- link_tagged. apply (linked_insert plain (fun e => tagged (tx_sprout (tx e)))); [apply L|done|apply A].
  - rewrite <- link_tagged. apply (linked_insert plain (fun e => tagged (tx_sapling (tx e)))); [apply L|done|apply A].
  - apply insert_mono, L.
Qed.

Lemma addUnchecked_ok e fCurrentEstimate p : consistent p -> admissible e (store p) ->
  exists p' a, addUnchecked memory tx_GetHash (tx_GetHash (tx e)) e fCurrentEstimate p = Some p' /\ consistent p' /\
    nodes (store p') = <[a := e]> (nodes (store p)) /\ nodes (store p) !! a = None.
Proof.
  intros [L T W] A. destruct (link_linked e (store p) L A) as (a & Ha & Hm & L' & Hn & Hm').
  destruct (WeightedTxTreeFacts.tree_add_ok (info_of e) (weightedTxTree p) (wt_valid _ _ W)) as (t' & Ht & Hv & _ & Hw).
  unfold addUnchecked. fold (info_of e). rewrite Ht. monad. rewrite Hm. monad.
  assert (deref (mapTx_insert tx_GetHash e (store p)) a = Some (tx e)) as ->.
  { unfold deref. change (nodes (mapTx_insert tx_GetHash e (store p)))
      with (nodes (link_tx tx_GetHash a (tx e) (mapTx_insert tx_GetHash e (store p)))). rewrite Hn. by rewrite lookup_insert_eq. }
  monad. eexists _, a. split; [done|]. split; [|done]. split; cbn [store weightedTxTree]; [done| |].
  - split; cbn [store totalTxSize cachedInnerUsage]; rewrite Hn, node_sum_insert by done;
      [rewrite (tt_size _ T)|rewrite (tt_usage _ T)]; unfold u64; rewrite Zplus_mod_idemp_l; f_equal; lia.
  - split; [done|]. intros h. rewrite Hw. change (txId (info_of e)) with (tx_GetHash (tx e)).
    rewrite (wt_weights _ _ W), (ad_new _ _ A), Hm', Hn. monad.
    destruct (decide (h = tx_GetHash (tx e))) as [->|Hne].
    + rewrite !lookup_insert_eq. monad. by rewrite lookup_insert_eq.
    + rewrite !lookup_insert_ne, (wt_weights _ _ W) by done. destruct (mapTx (store p) !! h) as [b|] eqn:Eb; [|done]. monad.
      rewrite lookup_insert_ne; [done|]. intros <-. apply (ids_node _ _ _ L) in Eb as (? & ? & _). congruence.
Qed.

(** *** Erasing *)

Lemma unlink_linked h a e s : linked_store s -> nodes s !! a = Some e -> tx_GetHash (tx e) = h ->
  linked_store (unlink_tx h a (tx e) s).
Proof.
  intros L Ha <-. split; simpl.
  - pose proof (linked_delete plain _ plain_inj _ _ a e (ls_ids s L) Ha) as D. cbn beta in D. by rewrite tagged_keys in D.
  - pose proof (linked_delete inpoint _ inpoint_inj _ _ a e (ls_next s L) Ha) as D. cbn beta in D. by rewrite inputs_keys in D.
  - pose proof (linked_delete plain _ plain_inj _ _ a e (ls_sprout s L) Ha) as D. cbn beta in D. by rewrite tagged_keys in D.
  - pose proof (linked_delete plain _ plain_inj _ _ a e (ls_sapling s L) Ha) as D. cbn beta in D. by rewrite tagged_keys in D.
  - apply delete_mono, L.
Qed.

Lemma insight_store h p : store (removeAddressIndex h p) = store p /\ store (removeSpentIndex h p) = store p.
Proof. unfold removeAddressIndex, removeSpentIndex. by destruct (mapAddressInserted _ !! h), (mapSpentInserted _ !! h). Qed.

(** The indices of the explorer are not part of the invariant. *)
Definition same_pool p p' : Prop :=
  store p = store p' /\ totalTxSize p = totalTxSize p' /\ cachedInnerUsage p = cachedInnerUsage p' /\
  weightedTxTree p = weightedTxTree p' /\ recentlyEvicted p = recentlyEvicted p'.

Lemma erase_tx_pool h a e p : same_pool (erase_tx h a e p)
  {| nCheckFrequency := nCheckFrequency p; store := unlink_tx h a (tx e) (store p);
     nTransactionsUpdated := u32 (nTransactionsUpdated p + 1); minerPolicyEstimator := removeTx h (minerPolicyEstimator p);
     totalTxSize := u64 (totalTxSize p - nTxSize e); cachedInnerUsage := u64 (cachedInnerUsage p - nUsageSize e);
     nRecentlyAddedSequence := nRecentlyAddedSequence p; nNotifiedSequence := nNotifiedSequence p;
     recentlyEvicted := recentlyEvicted p; weightedTxTree := weightedTxTree p; insight := insight p; mapDeltas := mapDeltas p |}.
Proof.
  unfold Mempool.erase_tx, removeSpentIndex, removeAddressIndex. destruct fAddressIndex, fSpentIndex; cbn [insight];
    repeat (match goal with |- context [match ?m !! h with _ => _ end] => destruct (m !! h) end; cbn [insight set_insight mapSpentInserted]); done.
Qed.

Lemma erase_tx_ok h a e p : linked_store (store p) -> totals p -> nodes (store p) !! a = Some e -> tx_GetHash (tx e) = h ->
  linked_store (store (erase_tx h a e p)) /\ totals (erase_tx h a e p) /\
  nodes (store (erase_tx h a e p)) = delete a (nodes (store p)) /\
  mapTx (store (erase_tx h a e p)) = delete h (mapTx (store p)) /\
  weightedTxTree (erase_tx h a e p) = weightedTxTree p /\ recentlyEvicted (erase_tx h a e p) = recentlyEvicted p.
Proof.
  intros L T Ha Hh. destruct (erase_tx_pool h a e p) as (Hs & Ht & Hu & Hw & Hr). cbn in Hw, Hr. rewrite Hs, Hw, Hr.
  split; [by apply unlink_linked|]. split; [|done]. split; rewrite Hs; [rewrite Ht|rewrite Hu];
    cbn [store totalTxSize cachedInnerUsage unlink_tx nodes];
    [rewrite (tt_size _ T), (node_sum_delete nTxSize _ _ _ Ha)|rewrite (tt_usage _ T), (node_sum_delete nUsageSize _ _ _ Ha)];
    unfold u64; rewrite Zminus_mod_idemp_l; f_equal; lia.
Qed.


(** *** Families of transactions *)

(** [u] spends one of the outputs of [t]. *)
Definition spends_output (t u : CTransaction) : Prop :=
  exists i txin, (i < length (Transaction.vout t))%nat /\ txin ∈ vin u /\
    prevout txin = {| out_hash := tx_GetHash t; out_n := Z.of_nat i |}.

(** The transactions of the pool reached from the given ones by spending. *)
Inductive family (s : tx_store) (roots : CTransaction -> Prop) : CTransaction -> Prop :=
| family_root a e : nodes s !! a = Some e -> roots (tx e) -> family s roots (tx e)
| family_step u a e : family s roots u -> nodes s !! a = Some e -> spends_output u (tx e) -> family s roots (tx e).

Lemma next_found s o a e t : linked_store s -> nodes s !! a = Some e -> (o, t) ∈ tx_inputs (tx e) ->
  mapNextTx s !! o = Some {| ptx := a; n := t |}.
Proof. intros L Ha Hin. apply (ls_next s L). by exists a, e, t. Qed.

Lemma children_loop_ok s h k : linked_store s -> forall i, exists l, children_loop tx_GetHash h i k s = Some l /\ (length l <= k)%nat /\
  forall h', h' ∈ l <-> exists j a e t, (i <= j < i + k)%nat /\ nodes s !! a = Some e /\
      ({| out_hash := h; out_n := Z.of_nat j |}, t) ∈ tx_inputs (tx e) /\ tx_GetHash (tx e) = h'.
Proof.
  intros L. induction k as [|k IH]; intros i; cbn [children_loop].
  { exists []. split; [done|]. split; [done|]. intros h'. split; [by intros ?%elem_of_nil|]. intros (j & a & e & t & Hj & _). lia. }
  destruct (IH (S i)) as (l & Hl & Hlen & Hiff).
  destruct (mapNextTx s !! {| out_hash := h; out_n := Z.of_nat i |}) as [it|] eqn:Eit.
  - apply (ls_next s L) in Eit as (a & e & t & Ha & Hin & ->). unfold deref, inpoint. cbn [ptx]. rewrite Ha. simpl. monad.
    rewrite Hl. monad. eexists. split; [done|]. split; [simpl; lia|]. intros h'. rewrite elem_of_cons, Hiff. split.
    + intros [->|(j & a' & e' & t' & Hj & Hr)]; [exists i, a, e, t; split; [lia|done]|exists j, a', e', t'; split; [lia|done]].
    + intros (j & a' & e' & t' & Hj & Ha' & Hin' & <-). destruct (decide (j = i)) as [->|]; [left|right].
      * apply (next_found s _ a) in Hin; [|done..]. apply (next_found s _ a') in Hin'; [|done..]. rewrite Hin in Hin'. injection Hin' as -> ->. congruence.
      * exists j, a', e', t'. split; [lia|done].
  - exists l. split; [done|]. split; [lia|]. intros h'. rewrite Hiff. split.
    + intros (j & a & e & t & Hj & Hr). exists j, a, e, t. split; [lia|done].
    + intros (j & a & e & t & Hj & Ha & Hin & Hh). exists j, a, e, t. split; [|done].
      enough (j <> i) by lia. intros ->.
      apply (next_found s _ a) in Hin; [|done..]. congruence.
Qed.

Lemma children_ok s t : linked_store s -> exists l, children tx_GetHash (tx_GetHash t) t s = Some l /\
  (length l <= length (Transaction.vout t))%nat /\
  forall h', h' ∈ l <-> exists a e, nodes s !! a = Some e /\ spends_output t (tx e) /\ tx_GetHash (tx e) = h'.
Proof.
  intros L. destruct (children_loop_ok s (tx_GetHash t) (length (Transaction.vout t)) L 0) as (l & Hl & Hlen & Hiff).
  exists l. split; [done|]. split; [done|]. intros h'. rewrite Hiff. split.
  - intros (j & a & e & i & Hj & Ha & Hin & Hh). exists a, e. split; [done|]. split; [|done].
    apply elem_of_inputs in Hin as (k & txin & -> & Hk & Hp). exists j, txin. split; [lia|].
    split; [by apply list_elem_of_lookup_2 in Hk|done].
  - intros (a & e & Ha & (j & txin & Hj & Hin & Hp) & Hh). apply list_elem_of_lookup in Hin as [k Hk].
    exists j, a, e, (Z.of_nat k). split; [lia|]. split; [done|]. split; [|done]. apply elem_of_inputs. by exists k, txin.
Qed.

Definition outputs (ns : gmap ptr CTxMemPoolEntry) : nat :=
  sum_list (map (fun x => length (Transaction.vout (tx x.2))) (map_to_list ns)).
Lemma outputs_delete a e ns : ns !! a = Some e ->
  outputs ns = (length (Transaction.vout (tx e)) + outputs (delete a ns))%nat.
Proof.
  intros Ha. unfold outputs. change sum_list with (fold_right Nat.add 0%nat).
  rewrite <- (Permutation_map _ (map_to_list_delete ns a e Ha)) at 1. done.
Qed.

(** What a removal leaves of the pool. *)
Record removal p p' (gone : list CTransaction) : Prop := {
  rm_links : linked_store (store p');
  rm_totals : totals p';
  rm_nodes : nodes (store p') ⊆ nodes (store p);
  rm_ids h : mapTx (store p') !! h = if decide (h ∈ map tx_GetHash gone) then None else mapTx (store p) !! h;
  rm_gone : Forall (fun t => exists a e, nodes (store p) !! a = Some e /\ tx e = t) gone;
  rm_tree : weightedTxTree p' = weightedTxTree p;
  rm_evicted : recentlyEvicted p' = recentlyEvicted p
}.


Lemma family_mono s s' roots roots' t : nodes s' ⊆ nodes s ->
  (forall a e, nodes s' !! a = Some e -> roots' (tx e) -> family s roots (tx e)) ->
  family s' roots' t -> family s roots t.
Proof.
  intros Hn Hr. induction 1 as [a e Ha Hin|u a e Hu IH Ha Hs]; [by apply (Hr a)|].
  eapply family_step; [exact IH| |done]. by eapply lookup_weaken.
Qed.

Lemma removal_refl p : linked_store (store p) -> totals p -> removal p p [].
Proof. by intros L T. Qed.

Lemma removal_step h a e p p' gone : linked_store (store p) -> totals p -> nodes (store p) !! a = Some e ->
  tx_GetHash (tx e) = h -> removal (erase_tx h a e p) p' gone -> removal p p' (tx e :: gone).
Proof.
  intros L T Ha Hh R. destruct (erase_tx_ok h a e p L T Ha Hh) as (_ & _ & Hn & Hm & Ht & Hr).
  pose proof (rm_nodes _ _ _ R) as Hsub. rewrite Hn in Hsub.
  assert (nodes (store p') ⊆ nodes (store p)) as Hsub' by (etrans; [exact Hsub|apply delete_subseteq]).
  split; [apply R|apply R|done| | |by rewrite (rm_tree _ _ _ R)|by rewrite (rm_evicted _ _ _ R)].
  - intros h'. rewrite (rm_ids _ _ _ R h'), Hm. simpl. rewrite Hh. destruct (decide (h' ∈ map tx_GetHash gone)).
    + by rewrite decide_True by (by right).
    + destruct (decide (h' = h)) as [->|]; [rewrite lookup_delete_eq, decide_True by (by left); done|].
      rewrite lookup_delete_ne by done. rewrite decide_False; [done|]. rewrite elem_of_cons. tauto.
  - constructor; [by exists a, e|]. eapply Forall_impl; [apply (rm_gone _ _ _ R)|]. intros t (b & e' & Hb & <-).
    rewrite Hn in Hb. apply lookup_delete_Some in Hb as [_ Hb]. by exists b, e'.
Qed.

Lemma ids_unique (s : tx_store) (a b : ptr) (e e' : CTxMemPoolEntry) : linked_store s -> nodes s !! a = Some e -> nodes s !! b = Some e' ->
  tx_GetHash (tx e) = tx_GetHash (tx e') -> a = b.
Proof.
  intros L Ha Hb Hh. assert (mapTx s !! tx_GetHash (tx e) = Some a) as H1 by (apply (ids_iff _ _ _ L); by exists e).
  assert (mapTx s !! tx_GetHash (tx e) = Some b) as H2 by (apply (ids_iff _ _ _ L); by exists e'). congruence.
Qed.

(** The ids the loop queues for the transaction [t] of the pool. *)
Definition queued (fRecursive : bool) (s : tx_store) (t : CTransaction) (l : list (list Z)) : Prop :=
  if fRecursive then forall h', h' ∈ l <-> exists a e, nodes s !! a = Some e /\ spends_output t (tx e) /\ tx_GetHash (tx e) = h'
  else l = [].
Lemma queued_ok (fRecursive : bool) (s : tx_store) (t : CTransaction) : linked_store s ->
  exists l, (if fRecursive then children tx_GetHash (tx_GetHash t) t s else Some []) = Some l /\
    (length l <= length (Transaction.vout t))%nat /\ queued fRecursive s t l.
Proof.
  intros L. destruct fRecursive; [|exists []; simpl; split_and!; (done || lia)].
  destruct (children_ok s t L) as (l & Hl & Hlen & Hiff). by exists l.
Qed.

(** What has been selected, for the two modes. *)
Definition selected (fRecursive : bool) (s : tx_store) (queue : list (list Z)) (t : CTransaction) : Prop :=
  if fRecursive then family s (fun u => tx_GetHash u ∈ queue) t else tx_GetHash t ∈ queue.

Lemma selected_step (fRecursive : bool) (s : tx_store) h a e queue l t : linked_store s -> nodes s !! a = Some e -> tx_GetHash (tx e) = h ->
  queued fRecursive s (tx e) l -> forall s', nodes s' ⊆ nodes s ->
  selected fRecursive s' (queue ++ l) t -> selected fRecursive s (h :: queue) t.
Proof.
  intros L He Hh Hl s' Hsub. destruct fRecursive; simpl; [|rewrite Hl, app_nil_r; by right].
  apply family_mono; [done|]. intros b e' Hb [Hin|Hin]%elem_of_app; apply (lookup_weaken _ _ _ _ Hb) in Hsub as Hb'.
  - eapply family_root; [exact Hb'|]. by right.
  - apply Hl in Hin as (b' & e'' & Hb'' & Hs & Hid).
    assert (b = b') as -> by (by eapply ids_unique). rewrite Hb' in Hb''. injection Hb'' as <-.
    eapply (family_step _ _ (tx e)); [eapply family_root; [exact He|]; rewrite Hh; by left|exact Hb'|done].
Qed.
Lemma selected_skip fRecursive s h queue t : selected fRecursive s queue t -> selected fRecursive s (h :: queue) t.
Proof.
  destruct fRecursive; simpl; [|by right]. apply family_mono; [done|]. intros b e Hb Hin.
  eapply family_root; [exact Hb|]. by right.
Qed.

(** The loop of [remove]: it ends within its fuel; the queued ids are gone, so is
    every transaction that spends from one that went, and no other. *)
Lemma remove_loop_ok fuel : forall fRecursive queue removed p,
  linked_store (store p) -> totals p -> (length queue + outputs (nodes (store p)) <= fuel)%nat ->
  exists gone p', remove_loop fuel fRecursive queue removed p = Some (removed ++ gone, p') /\ removal p p' gone /\
    (forall h, h ∈ queue -> mapTx (store p') !! h = None) /\
    (fRecursive = true -> forall t a e, t ∈ gone -> nodes (store p') !! a = Some e -> ~ spends_output t (tx e)) /\
    Forall (selected fRecursive (store p) queue) gone.
Proof.
  induction fuel as [|fuel IH]; intros fRecursive [|h queue] removed p L T Hf; cbn [Mempool.remove_loop].
  1, 3: (exists [], p; rewrite app_nil_r; split; [done|]; split; [by apply removal_refl|]; split_and!; try done;
    [by intros h ?%elem_of_nil|by intros _ t a e ?%elem_of_nil]).
  { simpl in Hf. lia. }
  simpl in Hf. destruct (mapTx (store p) !! h) as [a|] eqn:Ea.
  - destruct (ids_node _ _ _ L Ea) as (e & He & Hh). rewrite He. monad.
    destruct (erase_tx_ok h a e p L T He Hh) as (L' & T' & Hn & Hm & _ & _).
    destruct (queued_ok fRecursive (store p) (tx e) L) as (l & Hl & Hlen & Hq0). rewrite Hh in Hl. rewrite Hl. monad.
    destruct (IH fRecursive (queue ++ l) (removed ++ [tx e]) (erase_tx h a e p) L' T') as (gone & p' & Hrun & R & Hq & Hclosed & Hsel).
    { rewrite Hn, length_app. pose proof (outputs_delete a e _ He). lia. }
    exists (tx e :: gone), p'. rewrite Hrun, <- app_assoc. split; [done|].
    pose proof (removal_step h a e p p' gone L T He Hh R) as R'. split; [done|]. split; [|split].
    + intros h' [->|Hin]%elem_of_cons; [|apply Hq, elem_of_app; by left].
      rewrite (rm_ids _ _ _ R'), decide_True; [done|]. simpl. rewrite Hh. by left.
    + intros -> t b e' [->|Hin]%elem_of_cons Hb Hs; [|by apply (Hclosed eq_refl t b e')].
      assert (nodes (store p) !! b = Some e') as Hb' by (eapply lookup_weaken; [exact Hb|apply R']).
      assert (tx_GetHash (tx e') ∈ l) as Hin by (apply Hq0; by exists b, e').
      assert (mapTx (store p') !! tx_GetHash (tx e') = Some b) as Hid by (apply (ids_iff _ _ _ (rm_links _ _ _ R)); by exists e').
      rewrite Hq in Hid; [done|]. apply elem_of_app. by right.
    + constructor; [destruct fRecursive; [eapply family_root; [exact He|]|]; simpl; rewrite Hh; by left|].
      eapply Forall_impl; [exact Hsel|]. intros t. apply (selected_step _ _ h a e); try done. rewrite Hn. apply delete_subseteq.
  - destruct (IH fRecursive queue removed p L T) as (gone & p' & Hrun & R & Hq & Hclosed & Hsel); [lia|].
    exists gone, p'. split; [done|]. split; [done|]. split; [|split; [done|]].
    + intros h' [->|Hin]%elem_of_cons; [|by apply Hq]. rewrite (rm_ids _ _ _ R). by destruct (decide _).
    + eapply Forall_impl; [exact Hsel|]. intros t. apply selected_skip.
Qed.

(** *** remove *)

Lemma remove_weights_ok l : forall t, WeightedTxTreeFacts.valid t -> exists t', remove_weights tx_GetHash l t = Some t' /\
  WeightedTxTreeFacts.valid t' /\ WeightedTxTree.capacity t' = WeightedTxTree.capacity t /\
  (WeightedTxTree.size t' <= WeightedTxTree.size t)%nat /\
  forall h, WeightedTxTreeFacts.weights t' !! h =
    if decide (h ∈ map tx_GetHash l) then None else WeightedTxTreeFacts.weights t !! h.
Proof.
  induction l as [|x l IH]; intros t Hv; cbn [remove_weights].
  { by exists t. }
  destruct (WeightedTxTreeFacts.tree_remove_ok (tx_GetHash x) t Hv) as (t1 & -> & Hv1 & Hc1 & Hw1 & Hs1). monad.
  destruct (IH t1 Hv1) as (t' & -> & Hv' & Hc' & Hs' & Hw'). exists t'. split; [done|]. split; [done|]. split; [congruence|].
  split.
  { destruct (WeightedTxTreeFacts.weights t !! tx_GetHash x) eqn:Ex; [specialize (Hs1 ltac:(by eexists)); lia|].
    enough (WeightedTxTree.size t1 = WeightedTxTree.size t) by lia. apply WeightedTxTreeFacts.size_weights; [done..|]. by rewrite Hw1, delete_id. }
  intros h. rewrite Hw', Hw1. simpl. destruct (decide (h ∈ map tx_GetHash l)); [by rewrite decide_True by (by right)|].
  destruct (decide (h = tx_GetHash x)) as [->|]; [by rewrite lookup_delete_eq, decide_True by (by left)|].
  rewrite lookup_delete_ne, decide_False by (done || rewrite elem_of_cons; tauto). done.
Qed.


(** The tree misses at most the ids [X], which are on their way out. *)
Definition weighed_except (X : list (list Z)) (s : tx_store) (t : WeightedTxTree.WeightedTxTree) : Prop :=
  WeightedTxTreeFacts.valid t /\
  forall h, WeightedTxTreeFacts.weights t !! h =
     if decide (h ∈ X) then None else (a ← mapTx s !! h; e ← nodes s !! a; Some (txWeight (info_of e))).

(** The transactions a removal starts from: [origTx], or, when it is not in the
    pool, those that spend its outputs. *)
Definition removal_roots (s : tx_store) (origTx u : CTransaction) : Prop :=
  tx_GetHash u = tx_GetHash origTx \/ (mapTx s !! tx_GetHash origTx = None /\ spends_output origTx u).
Definition removal_scope (fRecursive : bool) (s : tx_store) (origTx u : CTransaction) : Prop :=
  if fRecursive then family s (removal_roots s origTx) u else tx_GetHash u = tx_GetHash origTx.

Lemma removal_weighed X p p' gone removed t' : removal p p' gone -> linked_store (store p) ->
  weighed_except X (store p) (weightedTxTree p) -> (forall h, h ∈ X -> mapTx (store p') !! h = None) ->
  Forall (fun t => mapTx (store p) !! tx_GetHash t = None) removed ->
  remove_weights tx_GetHash (removed ++ gone) (weightedTxTree p) = Some t' -> weighed (store p') t'.
Proof.
  intros R L [Hv Hw] HX Hrem Ht. destruct (remove_weights_ok (removed ++ gone) _ Hv) as (t2 & Ht2 & Hv' & _ & _ & Hw').
  rewrite Ht in Ht2. injection Ht2 as <-. split; [done|]. intros h. rewrite Hw', Hw, map_app.
  pose proof (rm_ids _ _ _ R h) as Hid. pose proof (HX h) as HXh.
  destruct (decide (h ∈ map tx_GetHash removed ++ map tx_GetHash gone)) as [Hin|Hin].
  - enough (mapTx (store p') !! h = None) as -> by done. rewrite Hid. destruct (decide _) as [|Hng]; [done|].
    apply elem_of_app in Hin as [Hin|Hin]; [|done]. apply list_elem_of_fmap in Hin as (t & -> & Hin).
    by apply (proj1 (Forall_forall _ _) Hrem).
  - destruct (decide (h ∈ X)); [by rewrite HXh|]. rewrite elem_of_app in Hin.
    destruct (decide (h ∈ map tx_GetHash gone)); [tauto|]. rewrite Hid.
    destruct (mapTx (store p) !! h) as [a|]; [|done]. monad.
    destruct (ids_node _ _ _ (rm_links _ _ _ R) Hid) as (e & He & _). rewrite He.
    by rewrite (lookup_weaken _ _ _ _ He (rm_nodes _ _ _ R)).
Qed.

(** The transactions that went are exactly those in scope. *)
Lemma removal_exact (fRecursive : bool) origTx l p p' gone : linked_store (store p) -> removal p p' gone ->
  (forall u a e, nodes (store p) !! a = Some e -> tx e = u ->
     tx_GetHash u ∈ tx_GetHash origTx :: l <-> (if fRecursive then removal_roots (store p) origTx u else tx_GetHash u = tx_GetHash origTx)) ->
  (forall h, h ∈ tx_GetHash origTx :: l -> mapTx (store p') !! h = None) ->
  (fRecursive = true -> forall t a e, t ∈ gone -> nodes (store p') !! a = Some e -> ~ spends_output t (tx e)) ->
  Forall (selected fRecursive (store p) (tx_GetHash origTx :: l)) gone ->
  forall a e, nodes (store p) !! a = Some e -> tx e ∈ gone <-> removal_scope fRecursive (store p) origTx (tx e).
Proof.
  intros L R Hroots Hq Hclosed Hsel a e Ha. split.
  - intros Hin. pose proof (proj1 (Forall_forall _ _) Hsel _ Hin) as Hs. destruct fRecursive; simpl in *.
    + eapply family_mono; [done| |exact Hs]. intros b e' Hb Hb'. eapply family_root; [exact Hb|]. by apply (Hroots (tx e') b e').
    + by apply (Hroots (tx e) a e).
  - assert (forall b e', nodes (store p) !! b = Some e' -> mapTx (store p') !! tx_GetHash (tx e') = None -> tx e' ∈ gone) as Hgone.
    { intros b e' Hb Hn. rewrite (rm_ids _ _ _ R) in Hn.
      assert (mapTx (store p) !! tx_GetHash (tx e') = Some b) as Hid by (apply (ids_iff _ _ _ L); by exists e').
      rewrite Hid in Hn. destruct (decide _) as [Hin|]; [|done]. apply list_elem_of_fmap in Hin as (t & Ht & Hin).
      destruct (proj1 (Forall_forall _ _) (rm_gone _ _ _ R) t Hin) as (c & e2 & Hc & <-).
      assert (b = c) as -> by (by eapply ids_unique). rewrite Hb in Hc. by injection Hc as <-. }
    destruct fRecursive; simpl in *.
    + induction 1 as [b e' Hb Hr|u b e' Hu IH Hb Hs]; [apply (Hgone b); [done|]; apply Hq; by apply (Hroots (tx e') b e')|].
      destruct (mapTx (store p') !! tx_GetHash (tx e')) as [c|] eqn:Hid; [exfalso|by apply (Hgone b)].
      apply (Hclosed eq_refl u c e' IH); [|done].
      destruct (ids_node _ _ _ (rm_links _ _ _ R) Hid) as (e2 & He2 & Hh).
      pose proof (lookup_weaken _ _ _ _ He2 (rm_nodes _ _ _ R)) as He2'.
      assert (c = b) as -> by (by eapply ids_unique). rewrite Hb in He2'. by injection He2' as <-.
    + intros Hh. apply (Hgone a); [done|]. apply Hq. rewrite Hh. by left.
Qed.

(** The ids queued before the loop. *)
Lemma roots_ok (fRecursive : bool) origTx p : linked_store (store p) ->
  exists l, (if fRecursive && negb (exists_tx (tx_GetHash origTx) p)
             then children tx_GetHash (tx_GetHash origTx) origTx (store p) else Some []) = Some l /\
    forall u a e, nodes (store p) !! a = Some e -> tx e = u ->
      tx_GetHash u ∈ tx_GetHash origTx :: l <->
        (if fRecursive then removal_roots (store p) origTx u else tx_GetHash u = tx_GetHash origTx).
Proof.
  intros L. unfold exists_tx, removal_roots. destruct fRecursive; cbn [andb].
  2: { exists []. split; [done|]. intros. by rewrite list_elem_of_singleton. }
  case_bool_decide as Hin; cbn [negb].
  - exists []. split; [done|]. intros u a e _ _. rewrite list_elem_of_singleton. destruct Hin as [b Hb]. rewrite Hb.
    split; [by left|]. by intros [?|[? _]].
  - destruct (children_ok (store p) origTx L) as (l & Hl & _ & Hiff). exists l. split; [done|].
    intros u a e Ha <-. rewrite elem_of_cons, Hiff. apply eq_None_not_Some in Hin. split.
    + intros [?|(b & e' & Hb & Hs & Hid)]; [by left|right]. split; [done|].
      assert (b = a) as -> by (by eapply ids_unique). rewrite Ha in Hb. by injection Hb as <-.
    + intros [?|[_ Hs]]; [by left|right]. by exists a, e.
Qed.

Lemma remove_general X origTx removed fRecursive p :
  linked_store (store p) -> totals p -> weighed_except X (store p) (weightedTxTree p) ->
  (forall h, h ∈ X -> h = tx_GetHash origTx) ->
  Forall (fun t => mapTx (store p) !! tx_GetHash t = None) removed ->
  exists gone p', remove origTx removed fRecursive p = Some (removed ++ gone, p') /\ consistent p' /\
    nodes (store p') ⊆ nodes (store p) /\ recentlyEvicted p' = recentlyEvicted p /\
    WeightedTxTree.capacity (weightedTxTree p') = WeightedTxTree.capacity (weightedTxTree p) /\
    (WeightedTxTree.size (weightedTxTree p') <= WeightedTxTree.size (weightedTxTree p))%nat /\
    Forall (fun t => mapTx (store p') !! tx_GetHash t = None) (removed ++ gone) /\
    (forall a e, nodes (store p) !! a = Some e -> nodes (store p') !! a = Some e \/ tx e ∈ gone) /\
    (forall a e, nodes (store p) !! a = Some e -> tx e ∈ gone <-> removal_scope fRecursive (store p) origTx (tx e)).
Proof.
  intros L T W HX Hrem. unfold Mempool.remove.
  destruct (roots_ok fRecursive origTx p L) as (l & Hl & Hroots). rewrite Hl. monad.
  destruct (remove_loop_ok (remove_fuel (tx_GetHash origTx :: l) p) fRecursive (tx_GetHash origTx :: l) removed p L T)
    as (gone & p1 & Hrun & R & Hq & Hclosed & Hsel); [done|]. rewrite Hrun. monad.
  rewrite (rm_tree _ _ _ R). destruct W as [Hv Hw] eqn:EW. clear EW.
  destruct (remove_weights_ok (removed ++ gone) _ Hv) as (t' & Ht & Hv' & Hc' & Hs' & _). rewrite Ht. monad.
  exists gone, (set_tree p1 t'). split; [done|].
  assert (forall t, t ∈ gone -> mapTx (store p1) !! tx_GetHash t = None) as Hnone.
  { intros t Hin. rewrite (rm_ids _ _ _ R), decide_True; [done|]. by apply list_elem_of_fmap_2. }
  split.
  { split; [apply R|split; apply R|]. apply (removal_weighed X p p1 gone removed); try done.
    intros h Hh. apply Hq. rewrite (HX h Hh). by left. }
  split; [apply R|]. split; [apply R|]. split; [done|]. split; [done|]. split; [|split].
  - apply Forall_app. split; [|by apply Forall_forall].
    eapply Forall_impl; [exact Hrem|]. intros t Htn. change (mapTx (store p1) !! tx_GetHash t = None).
    rewrite (rm_ids _ _ _ R). by destruct (decide _).
  - intros a e Ha. assert (mapTx (store p) !! tx_GetHash (tx e) = Some a) as Hid by (apply (ids_iff _ _ _ L); by exists e).
    pose proof (rm_ids _ _ _ R (tx_GetHash (tx e))) as Hid'. rewrite Hid in Hid'. destruct (decide _) as [Hin|].
    + right. apply list_elem_of_fmap in Hin as (t & Hh & Hin).
      destruct (proj1 (Forall_forall _ _) (rm_gone _ _ _ R) t Hin) as (c & e2 & Hc & <-).
      assert (a = c) as -> by (by eapply ids_unique). rewrite Ha in Hc. by injection Hc as <-.
    + left. destruct (ids_node _ _ _ (rm_links _ _ _ R) Hid') as (e2 & He2 & _).
      pose proof (lookup_weaken _ _ _ _ He2 (rm_nodes _ _ _ R)) as He2'. change (nodes (store p1) !! a = Some e). congruence.
  - by apply (removal_exact fRecursive origTx l p p1 gone).
Qed.


(** *** Operations that only remove *)

Record shrinks p p' : Prop := {
  sh_consistent : consistent p';
  sh_nodes : nodes (store p') ⊆ nodes (store p);
  sh_evicted : recentlyEvicted p' = recentlyEvicted p;
  sh_capacity : WeightedTxTree.capacity (weightedTxTree p') = WeightedTxTree.capacity (weightedTxTree p);
  sh_size : (WeightedTxTree.size (weightedTxTree p') <= WeightedTxTree.size (weightedTxTree p))%nat
}.
Lemma shrinks_refl p : consistent p -> shrinks p p.
Proof. by intros C. Qed.
Lemma shrinks_trans p1 p2 p3 : shrinks p1 p2 -> shrinks p2 p3 -> shrinks p1 p3.
Proof.
  intros S1 S2. split; [apply S2|etrans; [apply S2|apply S1]|rewrite (sh_evicted _ _ S2); apply S1|
    rewrite (sh_capacity _ _ S2); apply S1|etrans; [apply S2|apply S1]].
Qed.
Lemma shrinks_absent p p' h : linked_store (store p) -> shrinks p p' -> mapTx (store p) !! h = None -> mapTx (store p') !! h = None.
Proof.
  intros L S Hn. destruct (mapTx (store p') !! h) as [a|] eqn:Ea; [|done].
  destruct (ids_node _ _ _ (co_links _ (sh_consistent _ _ S)) Ea) as (e & He & Hh).
  assert (nodes (store p) !! a = Some e) as He' by (eapply lookup_weaken; [exact He|apply (sh_nodes _ _ S)]).
  assert (mapTx (store p) !! h = Some a) by (apply (ids_iff _ _ _ L); by exists e). congruence.
Qed.

Lemma consistent_except p : consistent p -> weighed_except [] (store p) (weightedTxTree p).
Proof. intros [_ _ [Hv Hw]]. split; [done|]. intros h. by rewrite decide_False by apply not_elem_of_nil. Qed.

Lemma remove_ok origTx removed fRecursive p : consistent p -> Forall (fun t => mapTx (store p) !! tx_GetHash t = None) removed ->
  exists gone p', remove origTx removed fRecursive p = Some (removed ++ gone, p') /\ shrinks p p' /\
    mapTx (store p') !! tx_GetHash origTx = None /\
    Forall (fun t => mapTx (store p') !! tx_GetHash t = None) (removed ++ gone) /\
    (forall a e, nodes (store p) !! a = Some e -> nodes (store p') !! a = Some e \/ tx e ∈ gone) /\
    (forall a e, nodes (store p) !! a = Some e -> tx e ∈ gone <-> removal_scope fRecursive (store p) origTx (tx e)).
Proof.
  intros C Hrem. destruct (remove_general [] origTx removed fRecursive p (co_links _ C) (co_totals _ C) (consistent_except p C))
    as (gone & p' & Hrun & C' & Hn & Hev & Hcap & Hsz & Hnone & Hkept & Hiff); [by intros h ?%elem_of_nil|done|].
  exists gone, p'. split; [done|]. assert (shrinks p p') as S by done. split; [done|]. split; [|done].
  destruct (mapTx (store p) !! tx_GetHash origTx) as [a|] eqn:Ea; [|by eapply shrinks_absent; [apply C|..]].
  destruct (ids_node _ _ _ (co_links _ C) Ea) as (e & He & Hh). apply Forall_app in Hnone as [_ Hnone]. rewrite <- Hh.
  apply (proj1 (Forall_forall _ _) Hnone). apply (Hiff a e He).
  destruct fRecursive; simpl; [eapply family_root; [exact He|]; by left|done].
Qed.

Lemma remove_each_ok l : forall p, consistent p ->
  exists p', remove_each tx_GetHash fAddressIndex fSpentIndex l p = Some p' /\ shrinks p p' /\
    forall t, t ∈ l -> mapTx (store p') !! tx_GetHash t = None.
Proof.
  induction l as [|t l IH]; intros p C; cbn [remove_each].
  { exists p. split; [done|]. split; [by apply shrinks_refl|]. by intros t ?%elem_of_nil. }
  destruct (remove_ok t [] true p C) as (gone & p1 & -> & S1 & Hn & _); [constructor|]. monad.
  destruct (IH p1 (sh_consistent _ _ S1)) as (p' & -> & S2 & Hl). exists p'. split; [done|].
  split; [by eapply shrinks_trans|]. intros u [->|Hin]%elem_of_cons; [|by apply Hl].
  eapply shrinks_absent; [apply S1|exact S2|done].
Qed.

Lemma mapTx_nodes_ok s a : linked_store s -> a ∈ mapTx_nodes s <-> is_Some (nodes s !! a).
Proof.
  intros L. unfold mapTx_nodes. rewrite list_elem_of_fmap. setoid_rewrite merge_sort_Permutation. split.
  - intros ((h & b) & -> & Hin). apply elem_of_map_to_list in Hin. apply (ids_node _ _ _ L) in Hin as (e & He & _). by exists e.
  - intros [e He]. exists (tx_GetHash (tx e), a). split; [done|]. apply elem_of_map_to_list, (ids_iff _ _ _ L). by exists e.
Qed.

Lemma collect_ok f s l : (forall a, a ∈ l -> is_Some (nodes s !! a)) -> exists r, collect f l s = Some r /\
  forall a e, a ∈ l -> nodes s !! a = Some e -> f e = true -> tx e ∈ r.
Proof.
  induction l as [|a l IH]; intros Hl; cbn [collect].
  { exists []. split; [done|]. by intros a e ?%elem_of_nil. }
  destruct (Hl a) as [e He]; [by left|]. rewrite He. monad.
  destruct IH as (r & -> & Hr); [intros b Hb; apply Hl; by right|]. monad. eexists. split; [done|].
  intros b e' [->|Hb]%elem_of_cons He' Hf.
  - rewrite He in He'. injection He' as <-. rewrite Hf. by left.
  - destruct (f e); [right|]; by apply (Hr b).
Qed.

(** Passes that remove by a property leave no transaction that has it. *)
Lemma remove_where_ok f p : consistent p ->
  exists p', remove_where tx_GetHash fAddressIndex fSpentIndex f p = Some p' /\ shrinks p p' /\
    forall a e, nodes (store p') !! a = Some e -> f e = false.
Proof.
  intros C. unfold remove_where.
  destruct (collect_ok f (store p) (mapTx_nodes (store p))) as (r & -> & Hr); [intros a; by apply mapTx_nodes_ok, C|]. monad.
  destruct (remove_each_ok r p C) as (p' & -> & S & Hl). exists p'. split; [done|]. split; [done|]. intros a e He.
  destruct (f e) eqn:Ef; [|done]. exfalso.
  assert (nodes (store p) !! a = Some e) as He' by (eapply lookup_weaken; [exact He|apply (sh_nodes _ _ S)]).
  assert (mapTx (store p') !! tx_GetHash (tx e) = Some a) as Hid
    by (apply (ids_iff _ _ _ (co_links _ (sh_consistent _ _ S))); by exists e).
  rewrite (Hl (tx e)) in Hid; [done|]. apply (Hr a e); [|done..]. apply mapTx_nodes_ok; [apply C|by exists e].
Qed.

(** *** Conflicts with a block *)

Section conflicts.
Context {K : Type} (find : K -> tx_store -> option ptr) (keys : CTransaction -> list K).
Context (Hfind : forall s k a, linked_store s -> find k s = Some a <-> exists e, nodes s !! a = Some e /\ k ∈ keys (tx e)).

Lemma remove_conflict_ok t k removed p : consistent p -> mapTx (store p) !! tx_GetHash t = None ->
  Forall (fun t => mapTx (store p) !! tx_GetHash t = None) removed ->
  exists removed' p', remove_conflict tx_GetHash fAddressIndex fSpentIndex t (find k (store p)) removed p = Some (removed', p') /\
    shrinks p p' /\ Forall (fun t => mapTx (store p') !! tx_GetHash t = None) removed' /\
    forall a e, nodes (store p') !! a = Some e -> k ∉ keys (tx e).
Proof.
  intros C Ht Hrem. unfold remove_conflict. pose proof (co_links _ C) as L.
  destruct (find k (store p)) as [a|] eqn:Ea.
  - apply Hfind in Ea as Hx; [|done]. destruct Hx as (e & He & Hk). unfold deref. rewrite He. simpl. monad.
    assert (mapTx (store p) !! tx_GetHash (tx e) = Some a) as Hid by (apply (ids_iff _ _ _ L); by exists e).
    case_bool_decide as Hh; [congruence|].
    destruct (remove_ok (tx e) removed true p C Hrem) as (gone & p' & Hrun & S & Hn & Hnone & _).
    exists (removed ++ gone), p'. split; [done|]. split; [done|]. split; [done|]. intros b e' Hb Hk'.
    assert (nodes (store p) !! b = Some e') as Hb' by (eapply lookup_weaken; [exact Hb|apply (sh_nodes _ _ S)]).
    assert (find k (store p) = Some b) as Eb by (apply Hfind; [done|by exists e']).
    rewrite Ea in Eb. injection Eb as ->. rewrite He in Hb'. injection Hb' as <-.
    assert (mapTx (store p') !! tx_GetHash (tx e) = Some b)
      by (apply (ids_iff _ _ _ (co_links _ (sh_consistent _ _ S))); by exists e). congruence.
  - exists removed, p. split; [done|]. split; [by apply shrinks_refl|]. split; [done|]. intros a e He Hk.
    assert (find k (store p) = Some a) by (apply Hfind; [done|by exists e]). congruence.
Qed.

Lemma conflict_loop_ok t l : forall removed p, consistent p -> mapTx (store p) !! tx_GetHash t = None ->
  Forall (fun t => mapTx (store p) !! tx_GetHash t = None) removed ->
  exists removed' p', conflict_loop tx_GetHash fAddressIndex fSpentIndex find t l removed p = Some (removed', p') /\
    shrinks p p' /\ Forall (fun t => mapTx (store p') !! tx_GetHash t = None) removed' /\
    forall a e k, nodes (store p') !! a = Some e -> k ∈ l -> k ∉ keys (tx e).
Proof.
  induction l as [|k l IH]; intros removed p C Ht Hrem; cbn [conflict_loop].
  { exists removed, p. split; [done|]. split; [by apply shrinks_refl|]. split; [done|]. by intros a e k _ ?%elem_of_nil. }
  destruct (remove_conflict_ok t k removed p C Ht Hrem) as (removed1 & p1 & -> & S1 & Hrem1 & Hk1). monad.
  assert (mapTx (store p1) !! tx_GetHash t = None) as Ht1 by (eapply shrinks_absent; [apply C|done..]).
  destruct (IH removed1 p1 (sh_consistent _ _ S1) Ht1 Hrem1) as (removed2 & p2 & -> & S2 & Hrem2 & Hk2).
  exists removed2, p2. split; [done|]. split; [by eapply shrinks_trans|]. split; [done|].
  intros a e k' He [->|Hin]%elem_of_cons; [|by apply (Hk2 a e)].
  apply (Hk1 a). eapply lookup_weaken; [exact He|apply (sh_nodes _ _ S2)].
Qed.
End conflicts.


Lemma find_next s o a : linked_store s ->
  ptx <$> mapNextTx s !! o = Some a <-> exists e, nodes s !! a = Some e /\ o ∈ map prevout (vin (tx e)).
Proof.
  intros L. rewrite fmap_Some. split.
  - intros (it & Hit & ->). apply (ls_next s L) in Hit as (b & e & t & Hb & Hin & ->). exists e. split; [done|].
    rewrite <- inputs_keys. apply (list_elem_of_fmap_2 fst) in Hin. exact Hin.
  - intros (e & He & Hin). rewrite <- inputs_keys in Hin. apply list_elem_of_fmap in Hin as ((o' & t) & -> & Hin).
    exists (inpoint a t). split; [|done]. by apply (next_found s _ a e).
Qed.
Lemma find_tagged (f : CTransaction -> list (list Z)) (m : gmap (list Z) ptr) (s : tx_store) (k : list Z) (a : ptr) : linked plain (fun e => tagged (f (tx e))) (nodes s) m ->
  m !! k = Some a <-> exists e, nodes s !! a = Some e /\ k ∈ f (tx e).
Proof.
  intros Hl. rewrite (Hl k a). unfold plain. split.
  - intros (b & e & t & Hb & Hin%elem_of_tagged & ->). by exists e.
  - intros (e & He & Hin). exists a, e, (). split; [done|]. split; [by apply elem_of_tagged|done].
Qed.

(** Nothing that [t] spends is spent by [u]. *)
Definition no_conflict (t u : CTransaction) : Prop :=
  (forall o, o ∈ map prevout (vin t) -> o ∉ map prevout (vin u)) /\
  (forall nf, nf ∈ tx_sprout t -> nf ∉ tx_sprout u) /\ (forall nf, nf ∈ tx_sapling t -> nf ∉ tx_sapling u).

Lemma removeConflicts_ok t removed p : consistent p -> mapTx (store p) !! tx_GetHash t = None ->
  Forall (fun t => mapTx (store p) !! tx_GetHash t = None) removed ->
  exists removed' p', removeConflicts tx_GetHash fAddressIndex fSpentIndex t removed p = Some (removed', p') /\
    shrinks p p' /\ Forall (fun t => mapTx (store p') !! tx_GetHash t = None) removed' /\
    forall a e, nodes (store p') !! a = Some e -> no_conflict t (tx e).
Proof.
  intros C Ht Hrem. unfold removeConflicts.
  destruct (conflict_loop_ok _ (fun t => map prevout (vin t)) find_next t (map prevout (vin t)) removed p C Ht Hrem) as (r1 & p1 & -> & S1 & Hr1 & Hk1). monad.
  assert (mapTx (store p1) !! tx_GetHash t = None) as Ht1 by (eapply shrinks_absent; [apply C|done..]).
  assert (forall s k a, linked_store s -> mapSproutNullifiers s !! k = Some a <-> exists e, nodes s !! a = Some e /\ k ∈ tx_sprout (tx e))
    as F2 by (intros s k a L; apply find_tagged, L).
  destruct (conflict_loop_ok _ tx_sprout F2 t (tx_sprout t) r1 p1 (sh_consistent _ _ S1) Ht1 Hr1) as (r2 & p2 & -> & S2 & Hr2 & Hk2). monad.
  assert (mapTx (store p2) !! tx_GetHash t = None) as Ht2 by (eapply shrinks_absent; [apply S1|done..]).
  assert (forall s k a, linked_store s -> mapSaplingNullifiers s !! k = Some a <-> exists e, nodes s !! a = Some e /\ k ∈ tx_sapling (tx e))
    as F3 by (intros s k a L; apply find_tagged, L).
  destruct (conflict_loop_ok _ tx_sapling F3 t (tx_sapling t) r2 p2 (sh_consistent _ _ S2) Ht2 Hr2) as (r3 & p3 & -> & S3 & Hr3 & Hk3).
  exists r3, p3. split; [done|]. split; [by do 2 (eapply shrinks_trans; [done|])|]. split; [done|].
  intros a e He. assert (nodes (store p2) !! a = Some e) as He2 by (eapply lookup_weaken; [exact He|apply (sh_nodes _ _ S3)]).
  assert (nodes (store p1) !! a = Some e) as He1 by (eapply lookup_weaken; [exact He2|apply (sh_nodes _ _ S2)]).
  split_and!; intros k Hk; [by apply (Hk1 a)|by apply (Hk2 a)|by apply (Hk3 a)].
Qed.

(** Bookkeeping that leaves the transactions alone. *)
Lemma same_pool_shrinks p p' : same_pool p p' -> consistent p -> shrinks p p'.
Proof.
  intros (Hs & Ht & Hu & Hw & Hr) [L T W]. split; rewrite <- ?Hs, <- ?Ht, <- ?Hu, <- ?Hw, <- ?Hr; try done.
  split; rewrite <- ?Hs, <- ?Hw; [done| |done]. split; rewrite <- Hs; [rewrite <- Ht; apply T|rewrite <- Hu; apply T].
Qed.

Lemma block_loop_ok vtx : forall conflicts p, consistent p -> Forall (fun t => mapTx (store p) !! tx_GetHash t = None) conflicts ->
  exists conflicts' p', block_loop tx_GetHash fAddressIndex fSpentIndex vtx conflicts p = Some (conflicts', p') /\
    shrinks p p' /\
    forall t a e, t ∈ vtx -> nodes (store p') !! a = Some e -> tx_GetHash (tx e) <> tx_GetHash t /\ no_conflict t (tx e).
Proof.
  induction vtx as [|t vtx IH]; intros conflicts p C Hc; cbn [block_loop].
  { exists conflicts, p. split; [done|]. split; [by apply shrinks_refl|]. by intros t a e ?%elem_of_nil. }
  destruct (remove_ok t [] false p C) as (gone & p1 & -> & S1 & Hn1 & _); [constructor|]. monad.
  assert (Forall (fun t => mapTx (store p1) !! tx_GetHash t = None) conflicts) as Hc1.
  { eapply Forall_impl; [exact Hc|]. intros u Hu. eapply shrinks_absent; [apply C|done..]. }
  destruct (removeConflicts_ok t conflicts p1 (sh_consistent _ _ S1) Hn1 Hc1) as (c2 & p2 & -> & S2 & Hc2 & Hk2). monad.
  assert (shrinks p2 (ClearPrioritisation (tx_GetHash t) p2)) as S3 by (apply same_pool_shrinks; [done|apply S2]).
  destruct (IH c2 (ClearPrioritisation (tx_GetHash t) p2) (sh_consistent _ _ S3) Hc2) as (c4 & p4 & -> & S4 & Hk4).
  exists c4, p4. split; [done|]. split; [by do 3 (eapply shrinks_trans; [done|])|].
  intros u a e [->|Hin]%elem_of_cons He; [|by apply (Hk4 u a e)].
  assert (nodes (store p2) !! a = Some e) as He2 by (eapply lookup_weaken; [exact He|etrans; [apply (sh_nodes _ _ S4)|done]]).
  split; [|by apply (Hk2 a)]. intros Hh.
  assert (mapTx (store p2) !! tx_GetHash t = Some a) as Hid
    by (apply (ids_iff _ _ _ (co_links _ (sh_consistent _ _ S2))); by exists e).
  rewrite (shrinks_absent p1 p2 _ (co_links _ (sh_consistent _ _ S1)) S2 Hn1) in Hid. done.
Qed.

Lemma block_entries_ok vtx p : linked_store (store p) -> is_Some (block_entries tx_GetHash vtx p).
Proof.
  intros L. induction vtx as [|t vtx [r Hr]]; cbn [block_entries]; [by eexists|]. rewrite Hr.
  destruct (mapTx (store p) !! tx_GetHash t) as [a|] eqn:Ea; [|by eexists].
  destruct (ids_node _ _ _ L Ea) as (e & -> & _). by eexists.
Qed.

(** *** The size limit *)

Lemma evicted_add now now' id r : 0 < RecentlyEvictedList.capacity r ->
  exists r', RecentlyEvictedList.add_evicted now now' id r = Some r' /\ RecentlyEvictedList.capacity r' = RecentlyEvictedList.capacity r.
Proof.
  intros Hc. unfold RecentlyEvictedList.add_evicted.
  assert (RecentlyEvictedList.capacity (RecentlyEvictedList.pruneList now r) = RecentlyEvictedList.capacity r) as Hp.
  { unfold RecentlyEvictedList.pruneList. case_bool_decide; [done|]. by destruct (RecentlyEvictedList.prune_loop _ _ _ _). }
  set (q := RecentlyEvictedList.pruneList now r) in *. destruct (Z.eqb_spec (Z.of_nat (length (RecentlyEvictedList.txIdsAndTimes q))) (RecentlyEvictedList.capacity q)) as [El|_].
  - destruct (RecentlyEvictedList.txIdsAndTimes q) as [|[id0 t0] l]; [simpl in El; lia|]. monad. by eexists.
  - monad. by eexists.
Qed.

(** The tree a consistent pool holds when it has lost transactions. *)
Lemma weights_shrink p p' : weighed_except [] (store p) (weightedTxTree p) -> linked_store (store p) -> consistent p' ->
  nodes (store p') ⊆ nodes (store p) ->
  WeightedTxTreeFacts.weights (weightedTxTree p') ⊆ WeightedTxTreeFacts.weights (weightedTxTree p).
Proof.
  intros [_ Hw] L C' Hn. apply map_subseteq_spec. intros h w. rewrite (wt_weights _ _ (co_tree _ C')), Hw.
  rewrite decide_False by apply not_elem_of_nil. intros (a & Ha & (e & He & Hw')%bind_Some)%bind_Some.
  destruct (ids_node _ _ _ (co_links _ C') Ha) as (e' & He' & Hh). rewrite He in He'. injection He' as <-.
  assert (nodes (store p) !! a = Some e) as He2 by (by eapply lookup_weaken).
  assert (mapTx (store p) !! h = Some a) as -> by (apply (ids_iff _ _ _ L); by exists e). monad. by rewrite He2.
Qed.

(** One eviction: the draw, the record of it, and the removal from the pool. *)
Lemma evict_step p id t' r : consistent p -> is_Some (WeightedTxTreeFacts.weights (weightedTxTree p) !! id) ->
  WeightedTxTree.remove id (weightedTxTree p) = Some t' ->
  exists t gone p', lookup id (set_evicted (set_tree p t') r) = Some t /\
    remove t [] true (set_evicted (set_tree p t') r) = Some (gone, p') /\ consistent p' /\
    nodes (store p') ⊆ nodes (store p) /\ recentlyEvicted p' = r /\
    WeightedTxTree.capacity (weightedTxTree p') = WeightedTxTree.capacity (weightedTxTree p) /\
    (WeightedTxTree.size (weightedTxTree p') < WeightedTxTree.size (weightedTxTree p))%nat.
Proof.
  intros [L T W] [w Hid] Ht'. pose proof (wt_valid _ _ W) as Hv.
  destruct (WeightedTxTreeFacts.tree_remove_ok id _ Hv) as (t2 & Ht2 & Hv' & Hc' & Hw' & Hs'). rewrite Ht' in Ht2. injection Ht2 as <-.
  specialize (Hs' ltac:(by exists w)). rewrite (wt_weights _ _ W) in Hid.
  apply bind_Some in Hid as (a & Ha & (e & He & _)%bind_Some).
  destruct (ids_node _ _ _ L Ha) as (e' & He' & Hh). rewrite He in He'. injection He' as <-.
  set (p1 := set_evicted (set_tree p t') r).
  destruct (remove_general [id] (tx e) [] true p1 L) as (gone & p' & Hrun & C' & Hn & Hev & Hcap & Hsz & _).
  - split; apply T.
  - split; [done|]. intros h. cbn [p1 set_evicted set_tree weightedTxTree store]. rewrite Hw'.
    destruct (decide (h ∈ [id])) as [->%list_elem_of_singleton|Hni]; [apply lookup_delete_eq|].
    rewrite list_elem_of_singleton in Hni. rewrite lookup_delete_ne by congruence. apply W.
  - intros h ->%list_elem_of_singleton. done.
  - constructor.
  - exists (tx e), gone, p'. split; [unfold lookup; cbn; rewrite Ha; cbn; by rewrite He|].
    split; [done|]. split; [done|]. split; [done|]. split; [done|]. cbn in Hcap, Hsz. split; [congruence|lia].
Qed.

(** With enough good words of entropy the loop ends below the limit. *)
Lemma evict_loop_ok fuel : forall entropy times p,
  consistent p -> (WeightedTxTree.size (weightedTxTree p) <= fuel)%nat -> (fuel <= length entropy)%nat ->
  Forall (fun w => 0 <= w < 2 ^ 63) entropy ->
  0 <= WeightedTxTree.capacity (weightedTxTree p) -> 0 < RecentlyEvictedList.capacity (recentlyEvicted p) ->
  map_Forall (fun _ => WeightedTxTreeFacts.weighted) (WeightedTxTreeFacts.weights (weightedTxTree p)) ->
  WeightedTxTreeFacts.total evictionWeight (WeightedTxTreeFacts.weights (weightedTxTree p)) < 2 ^ 31 ->
  exists p' entropy', evict_loop tx_GetHash fAddressIndex fSpentIndex fuel entropy times p = Some (p', entropy') /\
    consistent p' /\ nodes (store p') ⊆ nodes (store p) /\
    WeightedTxTree.capacity (weightedTxTree p') = WeightedTxTree.capacity (weightedTxTree p) /\
    WeightedTxTreeFacts.total cost (WeightedTxTreeFacts.weights (weightedTxTree p')) <=
      WeightedTxTree.capacity (weightedTxTree p').
Proof.
  induction fuel as [|fuel IH]; intros entropy times p C Hsz Hent Hwords Hcap Hev Hpos Htot;
    pose proof (wt_valid _ _ (co_tree _ C)) as Hv; cbn [evict_loop].
  all: destruct (decide (WeightedTxTreeFacts.total cost (WeightedTxTreeFacts.weights (weightedTxTree p)) <=
                         WeightedTxTree.capacity (weightedTxTree p))) as [Hle|Hgt];
    [rewrite WeightedTxTreeFacts.maybeDropRandom_keep by done; monad; exists (set_tree p (weightedTxTree p)), entropy;
     split; [done|]; split; [by destruct p, C as [? [] ?]|done]|].
  - exfalso. apply Hgt. rewrite <- WeightedTxTreeFacts.total_list by done.
    assert (WeightedTxTree.txIdAndWeights (weightedTxTree p) = []) as -> by (apply length_zero_iff_nil; rewrite WeightedTxTreeFacts.v_infos by done; lia).
    done.
  - destruct entropy as [|w entropy]; [simpl in Hent; lia|]. apply Forall_cons in Hwords as [Hw Hwords].
    destruct (WeightedTxTreeFacts.maybeDropRandom_drop (weightedTxTree p) w entropy) as (id & t' & Hdrop & Hin & Hrm); [done..|lia|done|].
    rewrite Hdrop. monad. destruct (times fuel) as [now now'].
    destruct (evicted_add now now' id (recentlyEvicted p) Hev) as (r & Hr & Hrc).
    cbn [recentlyEvicted set_tree]. rewrite Hr. monad.
    destruct (evict_step p id t' r C Hin Hrm) as (t & gone & p1 & Hlook & Hrun & C1 & Hn1 & Hr1 & Hc1 & Hs1).
    rewrite Hlook. monad. rewrite Hrun. monad.
    pose proof (weights_shrink p p1 (consistent_except p C) (co_links _ C) C1 Hn1) as Hsub.
    destruct (IH entropy times p1 C1) as (p' & entropy' & Hloop & C' & Hn' & Hc' & Hle'); [lia|simpl in Hent; lia|done|lia|congruence| | |].
    + intros h x Hx. apply (Hpos h). by eapply lookup_weaken.
    + pose proof (WeightedTxTreeFacts.total_subseteq _ _ Hpos Hsub). lia.
    + exists p', entropy'. split; [done|]. split; [done|]. split; [by etrans|]. split; [congruence|done].
Qed.

End pool.

End MempoolFacts.
