(* ===== verification/MempoolSafety.v ===== *)
(** * Safety of the memory pool (see Mempool.v and MempoolFacts.v)

    [pool_step] are the operations of the pool as the node performs them,
    [reachable_pool] the pools they lead to.  Every reachable pool is consistent,
    so the assertions of [CTxMemPool::check] hold; a block leaves no transaction
    behind that conflicts with it; the size limit is met; and [clear] breaks the
    invariant. *)

From stdpp Require Import base list list_numbers numbers option gmap sorting.
From Stdlib Require Import ZArith Lia.
From S2P Require Import Prelude Params Serialize Amount Transaction Script Coins TxCheck MempoolLimit MempoolLimitFacts.
From S2P Require Import Mempool MempoolFacts.
Import Transaction Mempool MempoolFacts.

Module MempoolSafety.

Section pool.
Context {E : Type} `{MinerPolicyEstimator E} (memory : CTransaction -> Z) (tx_GetHash : CTransaction -> list Z).
Context (fAddressIndex fSpentIndex : bool).
Implicit Type p : CTxMemPool E.
Local Abbreviation consistent := (consistent memory tx_GetHash).
Local Abbreviation linked_store := (linked_store tx_GetHash).
Local Abbreviation shrinks := (shrinks memory tx_GetHash).

(** ** Consistency implies the assertions of check() *)

Lemma check_inputs_ok s : linked_store s -> check_inputs s = true.
Proof.
  intros L. apply forallb_forall. intros a Ha. apply list_elem_of_In in Ha. apply (mapTx_nodes_ok tx_GetHash) in Ha as [e He]; [|done].
  rewrite He. apply forallb_forall. intros [o i] Hin. apply list_elem_of_In in Hin.
  rewrite (next_found tx_GetHash s o a e i) by done. cbn [ptx n]. by rewrite bool_decide_true, Z.eqb_refl.
Qed.

Lemma check_next_ok s : linked_store s -> check_next tx_GetHash s = true.
Proof.
  intros L. apply forallb_forall. intros [o it] Hin. apply list_elem_of_In, elem_of_map_to_list in Hin.
  apply (ls_next _ s L) in Hin as (a & e & i & Ha & Hi & ->). cbn [inpoint ptx n]. rewrite Ha.
  apply elem_of_inputs in Hi as (k & txin & -> & Hk & <-). apply lookup_lt_Some in Hk as Hl. rewrite Nat2Z.id, Hk.
  rewrite bool_decide_true by (apply (ids_iff tx_GetHash _ _ _ L); by exists e). rewrite bool_decide_true by done.
  rewrite Z.gtb_ltb, (proj2 (Z.ltb_lt _ _)) by lia. done.
Qed.

Lemma checkNullifiers_ok ty s : linked_store s -> checkNullifiers tx_GetHash ty s = true.
Proof.
  intros L. apply forallb_forall. intros [nf a] Hin. apply list_elem_of_In, elem_of_map_to_list in Hin.
  assert (exists e, nodes s !! a = Some e) as [e He].
  { destruct ty; [apply (find_tagged tx_sprout _ s) in Hin as (e & He & _); [by exists e|apply L]|
      apply (find_tagged tx_sapling _ s) in Hin as (e & He & _); [by exists e|apply L]]. }
  rewrite He. apply bool_decide_eq_true, (ids_iff tx_GetHash _ _ _ L). by exists e.
Qed.

Lemma mapTx_nodes_perm s : linked_store s -> mapTx_nodes s ≡ₚ map fst (map_to_list (nodes s)).
Proof.
  intros L. apply NoDup_Permutation.
  - unfold mapTx_nodes. rewrite merge_sort_Permutation. apply NoDup_alt. intros i j a Hi Hj.
    rewrite list_lookup_fmap in Hi, Hj. apply fmap_Some in Hi as ((h & b) & Hi & ->). apply fmap_Some in Hj as ((h' & b') & Hj & E1).
    simpl in E1. subst b'. eapply NoDup_lookup; [apply (NoDup_map_to_list (mapTx s))|exact Hi|]. rewrite Hj. do 2 f_equal.
    apply list_elem_of_lookup_2, elem_of_map_to_list in Hi, Hj. apply (ids_node tx_GetHash _ _ _ L) in Hi as (e & He & <-).
    apply (ids_node tx_GetHash _ _ _ L) in Hj as (e' & He' & <-). congruence.
  - apply NoDup_fst_map_to_list.
  - intros a. rewrite (mapTx_nodes_ok tx_GetHash) by done. rewrite list_elem_of_fmap. split.
    + intros [e He]. exists (a, e). split; [done|]. by apply elem_of_map_to_list.
    + intros ((b & e) & -> & Hin). apply elem_of_map_to_list in Hin. by exists e.
Qed.

Lemma u64_fold g (es : list CTxMemPoolEntry) : forall x,
  fold_left (fun acc e => u64 (acc + g e)) es (u64 x) = u64 (x + TreeWeights.zsum (map g es)).
Proof.
  induction es as [|e es IH]; intros x; simpl; [by rewrite Z.add_0_r|].
  replace (u64 (u64 x + g e)) with (u64 (x + g e)) by (unfold u64; by rewrite Zplus_mod_idemp_l).
  rewrite IH. f_equal. lia.
Qed.


Lemma node_values g s (l : list ptr) es : mapM (fun a => nodes s !! a) l = Some es ->
  map g es = map (fun a => default 0 (g <$> nodes s !! a)) l.
Proof.
  revert es. induction l as [|a l IH]; intros es; cbn [mapM]; [by intros [= <-]|].
  intros (e & He & (es' & Hes & [= <-])%bind_Some)%bind_Some. simpl. by rewrite He, (IH es' Hes).
Qed.

Lemma check_sum_ok g s : linked_store s -> check_sum g s = Some (u64 (node_sum g (nodes s))).
Proof.
  intros L. unfold check_sum.
  assert (is_Some (mapM (fun a => nodes s !! a) (mapTx_nodes s))) as [es Hes].
  { apply mapM_is_Some_2, Forall_forall. intros a Ha. by apply (mapTx_nodes_ok tx_GetHash). }
  rewrite Hes. monad. f_equal. change 0 with (u64 0). rewrite u64_fold. f_equal.
  rewrite (node_values g s _ _ Hes), mapTx_nodes_perm, map_map by done. unfold node_sum. rewrite Z.add_0_l. f_equal.
  apply map_ext_Forall, Forall_forall. intros [a e] Hin. apply elem_of_map_to_list in Hin. simpl. by rewrite Hin.
Qed.

Lemma check_ok p : consistent p -> check_pool tx_GetHash p = true.
Proof.
  intros [L T _]. unfold check_pool. rewrite check_inputs_ok, check_next_ok, !checkNullifiers_ok, !check_sum_ok by done.
  rewrite (tt_size _ T), (tt_usage _ T). by rewrite !bool_decide_true.
Qed.

(** ** The operations of a running node *)

Lemma make_ok estimator p : CTxMemPool_make estimator 0 = Some p -> consistent p.
Proof.
  unfold CTxMemPool_make. destruct (RecentlyEvictedList.make_evicted _ _) as [r|]; [|done]. monad.
  destruct (WeightedTxTree.make_tree _) as [t|] eqn:Et; [|done]. monad. intros [= <-].
  destruct (WeightedTxTreeFacts.make_valid _ _ Et) as (Hv & Hw & _).
  split; [split; simpl; try apply linked_empty; done|split; done|]. split; [done|]. intros h. cbn. by rewrite Hw, !lookup_empty.
Qed.

Lemma maybeDropRandom_inv entropy t id t' entropy' : WeightedTxTree.maybeDropRandom entropy t = Some (id, t', entropy') ->
  WeightedTxTreeFacts.valid t ->
  match id with
  | None => t' = t
  | Some id => WeightedTxTree.remove id t = Some t' /\ is_Some (WeightedTxTreeFacts.weights t !! id)
  end.
Proof.
  unfold WeightedTxTree.maybeDropRandom. intros Hd Hv. apply bind_Some in Hd as (w & _ & Hd).
  destruct (cost w <=? _); [by injection Hd as <- <- _|]. apply bind_Some in Hd as ([r e1] & _ & Hd).
  apply bind_Some in Hd as (i & _ & Hd). apply bind_Some in Hd as (x & Hx & Hd). apply bind_Some in Hd as (t2 & Ht & Hd).
  injection Hd as <- <- _. split; [done|]. exists (txWeight x). unfold WeightedTxTreeFacts.weights.
  apply WeightedTxTreeFacts.indexed_iff; [apply WeightedTxTreeFacts.v_index, Hv|]. by exists i, x.
Qed.

Lemma evict_loop_consistent fuel : forall entropy times p p' entropy', consistent p ->
  evict_loop tx_GetHash fAddressIndex fSpentIndex fuel entropy times p = Some (p', entropy') -> consistent p'.
Proof.
  induction fuel as [|fuel IH]; intros entropy times p p' entropy' C Hrun; cbn [evict_loop] in Hrun;
    apply bind_Some in Hrun as ([[id t'] e1] & Hd & Hrun);
    apply maybeDropRandom_inv in Hd as Hid; [|apply (wt_valid _ _ _ _ (co_tree _ _ _ C))|..|apply (wt_valid _ _ _ _ (co_tree _ _ _ C))].
  all: destruct id as [id|]; [|subst t'; injection Hrun as <- _; by destruct p, C as [? [] ?]]; [try done|..].
  destruct Hid as [Hrm Hin]. destruct (times fuel) as [now now'].
  apply bind_Some in Hrun as (r & Hr & Hrun). apply bind_Some in Hrun as (t & Ht & Hrun).
  apply bind_Some in Hrun as ([gone p1] & Hremove & Hrun).
  destruct (evict_step memory tx_GetHash fAddressIndex fSpentIndex p id t' r C Hin Hrm) as (t2 & gone2 & p2 & Ht2 & Hremove2 & C2 & _).
  rewrite Ht in Ht2. injection Ht2 as <-. rewrite Hremove in Hremove2. injection Hremove2 as <- <-. by eapply IH.
Qed.

(** [now] is the clock, [pcoins] the coins of the tip. *)
Inductive pool_step {B} `{Coins.CCoinsView B} : CTxMemPool E -> CTxMemPool E -> Prop :=
| step_add e est p p' : admissible tx_GetHash e (store p) ->
    addUnchecked memory tx_GetHash (tx_GetHash (tx e)) e est p = Some p' -> pool_step p p'
| step_remove t rec gone p p' : remove tx_GetHash fAddressIndex fSpentIndex t [] rec p = Some (gone, p') -> pool_step p p'
| step_anchor root ty p p' : removeWithAnchor tx_GetHash fAddressIndex fSpentIndex root ty p = Some p' -> pool_step p p'
| step_expired height p p' : removeExpired tx_GetHash fAddressIndex fSpentIndex height p = Some p' -> pool_step p p'
| step_branch id p p' : removeWithoutBranchId tx_GetHash fAddressIndex fSpentIndex id p = Some p' -> pool_step p p'
| step_reorg params flags height median now nMemPoolHeight (pcoins pcoins' : Coins.CCoinsViewCache B) p p' :
    removeForReorg tx_GetHash fAddressIndex fSpentIndex params flags height median now pcoins nMemPoolHeight p = Some (p', pcoins') ->
    pool_step p p'
| step_block vtx height est conflicts p p' :
    removeForBlock tx_GetHash fAddressIndex fSpentIndex vtx height [] est p = Some (conflicts, p') -> pool_step p p'
| step_limit entropy times p p' entropy' :
    EnsureSizeLimit tx_GetHash fAddressIndex fSpentIndex entropy times p = Some (p', entropy') -> pool_step p p'
| step_evicted now id p : pool_step p (snd (IsRecentlyEvicted now id p))
| step_notify regtest txs p p' : NotifyRecentlyAdded regtest p = Some (txs, p') -> pool_step p p'
| step_prioritise hash d f p : pool_step p (PrioritiseTransaction hash d f p)
| step_clear_priority hash p : pool_step p (ClearPrioritisation hash p)
| step_updated k p : pool_step p (AddTransactionsUpdated k p)
| step_address e (view view' : Coins.CCoinsViewCache B) p p' : addAddressIndex tx_GetHash e view p = Some (p', view') -> pool_step p p'
| step_spent e (view view' : Coins.CCoinsViewCache B) p p' : addSpentIndex tx_GetHash e view p = Some (p', view') -> pool_step p p'
| step_cost_limit limit secs p p' : nodes (store p) = ∅ -> SetMempoolCostLimit limit secs p = Some p' -> pool_step p p'.

Lemma same_consistent p p' : same_pool p p' -> consistent p -> consistent p'.
Proof. intros S C. by apply (sh_consistent _ _ _ _ (same_pool_shrinks _ _ p p' S C)). Qed.

Lemma remove_where_consistent f p p' : consistent p -> remove_where tx_GetHash fAddressIndex fSpentIndex f p = Some p' -> consistent p'.
Proof.
  intros C Hrun. destruct (remove_where_ok memory tx_GetHash fAddressIndex fSpentIndex f p C) as (p2 & Hr & S & _).
  assert (p' = p2) as -> by congruence. apply S.
Qed.

Lemma step_consistent {B} `{Coins.CCoinsView B} p p' : pool_step (B := B) p p' -> consistent p -> consistent p'.
Proof.
  destruct 1 as [e est p p' A Hs|t rec gone p p' Hs|root ty p p' Hs|height p p' Hs|id p p' Hs
    |params flags height median now nh pc pc' p p' Hs|vtx height est conflicts p p' Hs|entropy times p p' entropy' Hs
    |now id p|regtest txs p p' Hs|hash d f p|hash p|k p|e v v' p p' Hs|e v v' p p' Hs|limit secs p p' Hempty Hs]; intros C.
  - destruct (addUnchecked_ok memory tx_GetHash e est p C) as (p2 & a & Hr & C2 & _); [done|]. congruence.
  - destruct (remove_ok memory tx_GetHash fAddressIndex fSpentIndex t [] rec p C) as (g & p2 & Hr & S & _); [constructor|].
    assert (p' = p2) as -> by congruence. apply S.
  - by eapply remove_where_consistent.
  - by eapply remove_where_consistent.
  - by eapply remove_where_consistent.
  - unfold removeForReorg in *. apply bind_Some in Hs as ([l c] & _ & Hs). apply bind_Some in Hs as (p2 & Hs & [= <- _]).
    destruct (remove_each_ok memory tx_GetHash fAddressIndex fSpentIndex l p C) as (p3 & Hr & S & _).
    assert (p2 = p3) as -> by congruence. apply S.
  - unfold removeForBlock in *. apply bind_Some in Hs as (es & _ & Hs). apply bind_Some in Hs as ([c p2] & Hs & [= _ <-]).
    destruct (block_loop_ok memory tx_GetHash fAddressIndex fSpentIndex vtx [] p C) as (c3 & p3 & Hr & S & _); [constructor|].
    apply (same_consistent p3); [|apply S]. assert (p2 = p3) as -> by congruence. done.
  - by eapply evict_loop_consistent.
  - unfold IsRecentlyEvicted. destruct (RecentlyEvictedList.contains _ _ _). simpl. by destruct p, C as [? [] ?].
  - unfold NotifyRecentlyAdded in *. apply bind_Some in Hs as (txs' & _ & [= _ <-]). destruct C as [L T W].
    split; [|by split; apply T|by split; apply W]. split; try apply L. apply map_empty_subseteq.
  - unfold PrioritiseTransaction. destruct (default _ _). by apply (same_consistent p).
  - by apply (same_consistent p).
  - by apply (same_consistent p).
  - unfold addAddressIndex in *. apply bind_Some in Hs as ([[m l] vw] & _ & Hs). destruct (address_outputs _ _ _ _ _ _).
    injection Hs as <- _. by apply (same_consistent p).
  - unfold addSpentIndex in *. apply bind_Some in Hs as ([[m l] vw] & _ & [= <- _]). by apply (same_consistent p).
  - unfold SetMempoolCostLimit in *. apply bind_Some in Hs as (r & _ & Hs). apply bind_Some in Hs as (t & Ht & [= <-]).
    destruct (WeightedTxTreeFacts.make_valid _ _ Ht) as (Hv & Hw & _). destruct C as [L T W].
    split; [done|by split; apply T|]. split; [done|]. intros h. cbn [set_tree set_evicted weightedTxTree store]. rewrite Hw, lookup_empty.
    destruct (mapTx (store p) !! h) as [a|] eqn:Ea; [|done]. apply (ids_node _ _ _ _ L) in Ea as (e & He & _).
    by rewrite Hempty, lookup_empty in He.
Qed.

Inductive reachable_pool {B} `{Coins.CCoinsView B} : CTxMemPool E -> Prop :=
| reachable_make estimator p : CTxMemPool_make estimator 0 = Some p -> reachable_pool p
| reachable_step p p' : reachable_pool p -> pool_step (B := B) p p' -> reachable_pool p'.

Lemma reachable_consistent {B} `{Coins.CCoinsView B} p : reachable_pool (B := B) p -> consistent p.
Proof. induction 1; [by eapply make_ok|by eapply step_consistent]. Qed.


(** Transactions of a consistent pool never spend the same thing. *)
Lemma consistent_no_conflict p a b e e' : consistent p -> nodes (store p) !! a = Some e -> nodes (store p) !! b = Some e' ->
  a <> b -> no_conflict (tx e) (tx e').
Proof.
  intros [L _ _] Ha Hb Hab.
  assert (forall (f : CTransaction -> list (list Z)) m, linked plain (fun e => tagged (f (tx e))) (nodes (store p)) m ->
            forall k, k ∈ f (tx e) -> k ∉ f (tx e')) as Hplain.
  { intros f m Hl k Hk Hk'. apply Hab. assert (m !! k = Some a) as H1 by (apply (find_tagged f m (store p)); eauto).
    assert (m !! k = Some b) as H2 by (apply (find_tagged f m (store p)); eauto). congruence. }
  split_and!; [|eapply Hplain, (ls_sprout _ _ L)|eapply Hplain, (ls_sapling _ _ L)].
  intros o Ho Ho'. apply Hab.
  assert (ptx <$> mapNextTx (store p) !! o = Some a) as H1 by (apply (find_next tx_GetHash); eauto).
  assert (ptx <$> mapNextTx (store p) !! o = Some b) as H2 by (apply (find_next tx_GetHash); eauto). congruence.
Qed.

(** A transaction of a size that fits in memory. *)
Definition modest (t : CTransaction) : Prop :=
  0 <= memory t /\
  memory t + 1802 * Z.of_nat (length (vJoinSplit t)) + 948 * Z.of_nat (length (vShieldedOutput t)) +
    384 * Z.of_nat (length (vShieldedSpend t)) < 2 ^ 40.

(** Its cost is at least the minimum, its eviction weight no less. *)
Lemma from_weighted t fee : modest t ->
  MIN_TX_COST <= cost (txWeight (WeightedTxInfo_from memory tx_GetHash t fee)) <=
    evictionWeight (txWeight (WeightedTxInfo_from memory tx_GetHash t fee)).
Proof.
  intros [Hm Hb]. change (2 ^ 40) with 1099511627776 in Hb. destruct description_sizes as (E1 & E2 & E3).
  unfold WeightedTxInfo_from. rewrite E1, E2, E3. cbn [txWeight cost evictionWeight].
  set (j := Z.of_nat (length (vJoinSplit t))) in *. set (o := Z.of_nat (length (vShieldedOutput t))) in *.
  set (s := Z.of_nat (length (vShieldedSpend t))) in *. assert (0 <= j /\ 0 <= o /\ 0 <= s) by (unfold j, o, s; lia).
  rewrite (u64_id (memory t + j * 1802)) by (unfold is_u64; lia).
  rewrite (u64_id (memory t + j * 1802 + o * 948)) by (unfold is_u64; lia).
  rewrite (u64_id (memory t + j * 1802 + o * 948 + s * 384)) by (unfold is_u64; lia). rewrite s64_id by (unfold is_s64; lia).
  unfold MIN_TX_COST, LOW_FEE_PENALTY. destruct (fee <? DEFAULT_FEE); [rewrite s64_id by (unfold is_s64; lia)|]; lia.
Qed.

Lemma modest_weighted p : consistent p -> (forall a e, nodes (store p) !! a = Some e -> modest (tx e)) ->
  map_Forall (fun _ => WeightedTxTreeFacts.weighted) (WeightedTxTreeFacts.weights (weightedTxTree p)).
Proof.
  intros C Hm h w Hw. rewrite (wt_weights _ _ _ _ (co_tree _ _ _ C)) in Hw.
  apply bind_Some in Hw as (a & _ & (e & He & Hw)%bind_Some).
  assert (w = txWeight (WeightedTxInfo_from memory tx_GetHash (tx e) (nFee e))) as -> by (apply Some_inj; symmetry; exact Hw).
  pose proof (from_weighted (tx e) (nFee e) (Hm a e He)) as Hf. unfold MIN_TX_COST in Hf. split; [lia|apply Hf].
Qed.

End pool.

(** ** A pool to run *)

Lemma fresh_keys_check {K T V} `{Countable K} (l : list (K * T)) (m : gmap K V) :
  bool_decide (NoDup (map fst l)) && forallb (fun kt => bool_decide (m !! kt.1 = None)) l = true -> fresh_keys l m.
Proof.
  intros [Hn Hf]%andb_true_iff. split; [by apply bool_decide_eq_true in Hn|]. intros k t Hin.
  rewrite forallb_forall in Hf. apply list_elem_of_In, Hf in Hin. by apply bool_decide_eq_true in Hin.
Qed.

#[local] Instance silent_estimator : MinerPolicyEstimator unit :=
  {| processTransaction := fun _ _ _ => tt; removeTx := fun _ _ => tt; processBlock := fun _ _ _ _ => tt |}.
#[local] Instance sample_view : Coins.CCoinsView Coins.CCoinsViewDB := Coins.CCoinsViewDB_view
  {| Coins.hash_combine := fun _ a _ _ => a; Coins.hash_EmptyRoot := fun _ _ => zero_blob 32 |}.

Definition sample_id (t : CTransaction) : list Z := nLockTime t :: replicate 31 0.
Definition sample_memory (_ : CTransaction) : Z := 5000.
(** Transaction [k] with one output, the given inputs and Sapling nullifiers. *)
Definition sample_tx (k : Z) (ins : list Z) (nfs : list Z) : CTransaction := {|
  fOverwintered := true; tx_nVersion := 4; nVersionGroupId := SAPLING_VERSION_GROUP_ID;
  vin := map (fun i => {| prevout := {| out_hash := i :: replicate 31 0; out_n := 0 |}; scriptSig := []; nSequence := 0 |}) ins;
  vout := [{| nValue := 1; scriptPubKey := [] |}]; nLockTime := k; nExpiryHeight := 0; valueBalance := 0;
  vShieldedSpend := map (fun f => {| sd_cv := zero_blob 32; sd_anchor := zero_blob 32; sd_nullifier := f :: replicate 31 0;
    sd_rk := zero_blob 32; sd_zkproof := zero_blob 192; spendAuthSig := zero_blob 64 |}) nfs;
  vShieldedOutput := []; vJoinSplit := []; joinSplitPubKey := zero_blob 32; joinSplitSig := zero_blob 64;
  bindingSig := zero_blob 64 |}.
Definition sample_entry (t : CTransaction) : CTxMemPoolEntry := {|
  tx := t; nFee := 10000; nTxSize := 300; nModSize := 300; nUsageSize := 5000; feeRate := {| Amount.nSatoshisPerK := 33333 |};
  nTime := 0; dPriority := Double.of_Z 0; nHeight := 1; hadNoDependencies := true; spendsCoinbase := false; nBranchId := 0 |}.

Definition sample_add (t : CTransaction) (p : option (CTxMemPool unit)) : option (CTxMemPool unit) :=
  p ← p; addUnchecked sample_memory sample_id (sample_id t) (sample_entry t) true p.
(** 1 spends a confirmed output, 2 spends 1, 3 spends a note, 4 spends 2. *)
Definition sample_start : option (CTxMemPool unit) :=
  p ← CTxMemPool_make tt 0; SetMempoolCostLimit 12000 3600 p.
Definition sample_built : option (CTxMemPool unit) :=
  sample_add (sample_tx 4 [2] []) (sample_add (sample_tx 3 [] [7]) (sample_add (sample_tx 2 [1] [])
    (sample_add (sample_tx 1 [99] []) sample_start))).
Definition sample_pool : CTxMemPool unit :=
  match sample_built with Some p => p | None => {| nCheckFrequency := 0;
     store := {| nodes := ∅; mapTx := ∅; mapNextTx := ∅; mapSproutNullifiers := ∅; mapSaplingNullifiers := ∅; mapRecentlyAddedTx := ∅ |};
     nTransactionsUpdated := 0; minerPolicyEstimator := tt; totalTxSize := 0; cachedInnerUsage := 0; nRecentlyAddedSequence := 0;
     nNotifiedSequence := 0;
     recentlyEvicted := {| RecentlyEvictedList.capacity := 0; RecentlyEvictedList.timeToKeep := 0; RecentlyEvictedList.txIdsAndTimes := []; RecentlyEvictedList.txIdSet := ∅ |};
     weightedTxTree := Contracts.sample_tree; insight := insight_empty; mapDeltas := ∅ |} end.

Definition sample_reachable (p : option (CTxMemPool unit)) : Prop :=
  match p with Some p => reachable_pool (B := Coins.CCoinsViewDB) sample_memory sample_id false false p | None => False end.

Lemma sample_add_reachable t p : sample_reachable p ->
  match p with
  | Some p =>
      bool_decide (mapTx (store p) !! sample_id t = None) &&
      (bool_decide (NoDup (map fst (tx_inputs t))) && forallb (fun kt => bool_decide (mapNextTx (store p) !! kt.1 = None)) (tx_inputs t)) &&
      (bool_decide (NoDup (map fst (tagged (tx_sprout t)))) &&
         forallb (fun kt => bool_decide (mapSproutNullifiers (store p) !! kt.1 = None)) (tagged (tx_sprout t))) &&
      (bool_decide (NoDup (map fst (tagged (tx_sapling t)))) &&
         forallb (fun kt => bool_decide (mapSaplingNullifiers (store p) !! kt.1 = None)) (tagged (tx_sapling t)))
  | None => false
  end = true -> sample_reachable (sample_add t p).
Proof.
  destruct p as [p|]; [|done]. intros Hr Hc. rewrite !andb_true_iff in Hc. destruct Hc as [[[H1 H2] H3] H4].
  assert (admissible sample_id (sample_entry t) (store p)) as A.
  { split; [by apply bool_decide_eq_true in H1|..]; apply fresh_keys_check; apply andb_true_iff; done. }
  simpl in Hr. unfold sample_add. monad. simpl.
  destruct (addUnchecked_ok sample_memory sample_id (sample_entry t) true p (reachable_consistent _ _ _ _ p Hr) A) as (p' & a & Hp & _).
  cbn [tx sample_entry] in Hp. rewrite Hp. eapply reachable_step; [exact Hr|]. by eapply step_add.
Qed.

Lemma sample_pool_reachable : reachable_pool (B := Coins.CCoinsViewDB) sample_memory sample_id false false sample_pool.
Proof.
  assert (sample_reachable sample_start) as H0.
  { destruct (CTxMemPool_make tt 0) as [p|] eqn:Ep; [|done]. unfold sample_start. rewrite Ep. monad.
    destruct (SetMempoolCostLimit 12000 3600 p) as [p'|] eqn:Ep'; [|by vm_compute in Ep; injection Ep as <-].
    eapply reachable_step; [by eapply reachable_make|]. eapply step_cost_limit; [|exact Ep']. by injection Ep as <-. }
  assert (sample_reachable sample_built) as H1.
  { unfold sample_built. repeat (apply sample_add_reachable; [|by vm_compute]). exact H0. }
  unfold sample_pool. destruct sample_built; [exact H1|done].
Qed.


(** ** The contracts *)

(** C9: the pool never contradicts itself.  Whatever sequence of operations the
    node performs, the assertions of [check] (here [check_pool]) about the pool hold (every input is
    marked in [mapNextTx] and nothing else is, no pointer dangles, the cached
    totals are right), no two transactions of the pool spend the same output or
    reveal the same nullifier, and the weighted tree holds exactly the pool's
    transactions.  The operations are those of [reachable_pool]: all but [clear], with
    additions of transactions that do not conflict with the pool, as
    [AcceptToMemoryPool] checks, and the size limit set while the pool is empty. *)
Theorem mempool_stays_consistent {E B : Type} `{MinerPolicyEstimator E} `{Coins.CCoinsView B}
    (memory : CTransaction -> Z) (tx_GetHash : CTransaction -> list Z) (fAddressIndex fSpentIndex : bool)
    (p : CTxMemPool E) (Hr : reachable_pool (B := B) memory tx_GetHash fAddressIndex fSpentIndex p) :
  check_pool tx_GetHash p = true /\
  (forall a b e e', nodes (store p) !! a = Some e -> nodes (store p) !! b = Some e' -> a <> b ->
     no_conflict (tx e) (tx e')) /\
  (forall h, is_Some (WeightedTxTreeFacts.weights (weightedTxTree p) !! h) <-> exists_tx h p = true).
Proof.
  apply reachable_consistent in Hr as C. split; [by apply (check_ok memory)|]. split.
  - intros a b e e'. by apply (consistent_no_conflict memory tx_GetHash).
  - intros h. unfold exists_tx. rewrite bool_decide_eq_true, (wt_weights _ _ _ _ (co_tree _ _ _ C)).
    destruct (mapTx (store p) !! h) as [a|] eqn:Ea; [|monad; split; by intros [? ?]].
    destruct (ids_node _ _ _ _ (co_links _ _ _ C) Ea) as (e & He & _). monad. rewrite He. monad. by split; eexists.
Qed.

Lemma mempool_stays_consistent_witness : check_pool sample_id sample_pool = true /\ map_size (mapTx (store sample_pool)) = 4%nat.
Proof.
  split; [|by vm_compute].
  apply (mempool_stays_consistent (B := Coins.CCoinsViewDB) sample_memory sample_id false false sample_pool sample_pool_reachable).
Defined.

(** Recursive removal takes a family and nothing else.  The loop of [remove]
    ends, and a transaction of the pool goes exactly when it is the given one (or,
    that one being absent, spends its outputs) or spends an output of another that
    goes; what remains is untouched. *)
Lemma remove_takes_family {E B : Type} `{MinerPolicyEstimator E} `{Coins.CCoinsView B}
    (memory : CTransaction -> Z) (tx_GetHash : CTransaction -> list Z) (fAddressIndex fSpentIndex : bool)
    (p : CTxMemPool E) (Hr : reachable_pool (B := B) memory tx_GetHash fAddressIndex fSpentIndex p) (origTx : CTransaction) :
  exists gone p', remove tx_GetHash fAddressIndex fSpentIndex origTx [] true p = Some (gone, p') /\
    nodes (store p') ⊆ nodes (store p) /\
    forall a e, nodes (store p) !! a = Some e ->
      nodes (store p') !! a = None <-> family tx_GetHash (store p) (removal_roots tx_GetHash (store p) origTx) (tx e).
Proof.
  apply reachable_consistent in Hr as C.
  destruct (remove_ok memory tx_GetHash fAddressIndex fSpentIndex origTx [] true p C) as (gone & p' & Hrun & S & _ & Hnone & Hkept & Hiff);
    [constructor|].
  exists gone, p'. split; [done|]. split; [apply S|]. intros a e He. rewrite <- (Hiff a e He). split.
  - intros Hn. destruct (Hkept a e He); [congruence|done].
  - intros Hin. destruct (nodes (store p') !! a) as [e'|] eqn:Ea; [|done].
    assert (e' = e) as -> by (pose proof (lookup_weaken _ _ _ _ Ea (sh_nodes _ _ _ _ S)); congruence).
    assert (mapTx (store p') !! tx_GetHash (tx e) = Some a) as Hid
      by (apply (ids_iff _ _ _ _ (co_links _ _ _ (sh_consistent _ _ _ _ S))); by exists e).
    rewrite (proj1 (Forall_forall _ _) Hnone (tx e)) in Hid; [done|]. done.
Qed.

Lemma remove_takes_family_witness :
  (exists gone p', remove sample_id false false (sample_tx 1 [99] []) [] true sample_pool = Some (gone, p') /\
     nodes (store p') ⊆ nodes (store sample_pool) /\
     forall a e, nodes (store sample_pool) !! a = Some e ->
       nodes (store p') !! a = None <-> family sample_id (store sample_pool) (removal_roots sample_id (store sample_pool) (sample_tx 1 [99] [])) (tx e)) /\
  (fun r => map_size (mapTx (store r.2))) <$> remove sample_id false false (sample_tx 1 [99] []) [] true sample_pool = Some 1%nat.
Proof.
  split; [|by vm_compute].
  apply (remove_takes_family (B := Coins.CCoinsViewDB) sample_memory sample_id false false sample_pool sample_pool_reachable).
Defined.

(** C10: a connected block leaves no conflict.  [removeForBlock] always returns,
    and afterwards the pool has neither a transaction of the block nor one that
    spends an output or reveals a nullifier some transaction of the block does. *)
Theorem block_leaves_no_conflict {E B : Type} `{MinerPolicyEstimator E} `{Coins.CCoinsView B}
    (memory : CTransaction -> Z) (tx_GetHash : CTransaction -> list Z) (fAddressIndex fSpentIndex : bool)
    (p : CTxMemPool E) (Hr : reachable_pool (B := B) memory tx_GetHash fAddressIndex fSpentIndex p)
    (vtx : list CTransaction) (nBlockHeight : Z) (fCurrentEstimate : bool) :
  exists conflicts p',
    removeForBlock tx_GetHash fAddressIndex fSpentIndex vtx nBlockHeight [] fCurrentEstimate p = Some (conflicts, p') /\
    nodes (store p') ⊆ nodes (store p) /\
    forall t a e, t ∈ vtx -> nodes (store p') !! a = Some e -> tx_GetHash (tx e) <> tx_GetHash t /\ no_conflict t (tx e).
Proof.
  apply reachable_consistent in Hr as C. unfold removeForBlock.
  destruct (block_entries_ok tx_GetHash vtx p (co_links _ _ _ C)) as [es ->]. monad.
  destruct (block_loop_ok memory tx_GetHash fAddressIndex fSpentIndex vtx [] p C) as (c & p' & -> & S & Hk); [constructor|]. monad.
  eexists _, _. split; [done|]. split; [apply S|]. exact Hk.
Qed.

(** A block with transaction 1 and another spender of what 2 spends. *)
Definition sample_vtx : list CTransaction := [sample_tx 1 [99] []; sample_tx 50 [1] []].
Lemma block_leaves_no_conflict_witness :
  (exists conflicts p', removeForBlock sample_id false false sample_vtx 5 [] true sample_pool = Some (conflicts, p') /\
     nodes (store p') ⊆ nodes (store sample_pool) /\
     forall t a e, t ∈ sample_vtx -> nodes (store p') !! a = Some e -> sample_id (tx e) <> sample_id t /\ no_conflict t (tx e)) /\
  (fun r => (map sample_id r.1, map_size (mapTx (store r.2)))) <$> removeForBlock sample_id false false sample_vtx 5 [] true sample_pool =
    Some ([2 :: replicate 31 0; 4 :: replicate 31 0], 1%nat).
Proof.
  split; [|by vm_compute].
  apply (block_leaves_no_conflict (B := Coins.CCoinsViewDB) sample_memory sample_id false false sample_pool sample_pool_reachable).
Defined.

(** The size limit is enforced.  When every word of entropy is below [2^63]
    and there are as many as transactions, [EnsureSizeLimit] returns, having
    only removed transactions, with a total cost within the capacity; the pool
    stays consistent.  (Transactions are taken to be below [2^40] bytes and the
    total eviction weight below [2^31], the range of the [int]s involved.) *)
Lemma size_limit_enforced {E B : Type} `{MinerPolicyEstimator E} `{Coins.CCoinsView B}
    (memory : CTransaction -> Z) (tx_GetHash : CTransaction -> list Z) (fAddressIndex fSpentIndex : bool)
    (p : CTxMemPool E) (Hr : reachable_pool (B := B) memory tx_GetHash fAddressIndex fSpentIndex p)
    (Hm : forall a e, nodes (store p) !! a = Some e -> modest memory (tx e))
    (Hcap : 0 <= WeightedTxTree.capacity (weightedTxTree p)) (Hev : 0 < RecentlyEvictedList.capacity (recentlyEvicted p))
    (Htot : WeightedTxTreeFacts.total evictionWeight (WeightedTxTreeFacts.weights (weightedTxTree p)) < 2 ^ 31)
    (entropy : list Z) (times : nat -> Z * Z) (Hwords : Forall (fun w => 0 <= w < 2 ^ 63) entropy)
    (Hlen : (WeightedTxTree.size (weightedTxTree p) <= length entropy)%nat) :
  exists p' entropy' w, EnsureSizeLimit tx_GetHash fAddressIndex fSpentIndex entropy times p = Some (p', entropy') /\
    nodes (store p') ⊆ nodes (store p) /\ check_pool tx_GetHash p' = true /\
    WeightedTxTree.getTotalWeight (weightedTxTree p') = Some w /\ cost w <= WeightedTxTree.capacity (weightedTxTree p).
Proof.
  apply reachable_consistent in Hr as C. pose proof (modest_weighted memory tx_GetHash p C Hm) as Hpos.
  destruct (evict_loop_ok memory tx_GetHash fAddressIndex fSpentIndex (WeightedTxTree.size (weightedTxTree p)) entropy times p)
    as (p' & entropy' & Hrun & C' & Hn & Hc & Hle); try done.
  pose proof (wt_valid _ _ _ _ (co_tree _ _ _ C')) as Hv.
  destruct (WeightedTxTreeFacts.total_get cost _ Hv (WeightedTxTreeFacts.v_cost _ Hv)) as (w & Hw & Hcost).
  exists p', entropy', w. split; [done|]. split; [done|]. split; [by apply (check_ok memory)|]. split; [done|].
  pose proof (weights_shrink memory tx_GetHash p p' (consistent_except _ _ p C) (co_links _ _ _ C) C' Hn) as Hsub.
  assert (map_Forall (fun _ => WeightedTxTreeFacts.weighted) (WeightedTxTreeFacts.weights (weightedTxTree p'))) as Hpos'
    by (intros h x Hx; apply (Hpos h); by eapply lookup_weaken).
  pose proof (WeightedTxTreeFacts.total_weighted _ Hpos'). pose proof (WeightedTxTreeFacts.total_subseteq _ _ Hpos Hsub).
  rewrite Hcost, s64_id by (unfold is_s64; lia). lia.
Qed.

Lemma size_limit_enforced_witness :
  exists p' entropy' w, EnsureSizeLimit sample_id false false [3; 1; 4; 1] (fun _ => (0, 0)) sample_pool = Some (p', entropy') /\
    nodes (store p') ⊆ nodes (store sample_pool) /\ check_pool sample_id p' = true /\
    WeightedTxTree.getTotalWeight (weightedTxTree p') = Some w /\ cost w <= 12000.
Proof.
  apply (size_limit_enforced (B := Coins.CCoinsViewDB) sample_memory sample_id false false sample_pool sample_pool_reachable).
  - intros a e He. assert (forallb (fun x => bool_decide (length (vJoinSplit (tx x.2)) = 0%nat /\ length (vShieldedOutput (tx x.2)) = 0%nat /\
        (length (vShieldedSpend (tx x.2)) <= 1)%nat)) (map_to_list (nodes (store sample_pool))) = true) as Hall by by vm_compute.
    rewrite forallb_forall in Hall. specialize (Hall (a, e)).
    rewrite <- list_elem_of_In, elem_of_map_to_list, bool_decide_eq_true in Hall. destruct (Hall He) as (E1 & E2 & Hs).
    unfold modest, sample_memory. simpl in E1, E2, Hs. change (2 ^ 40) with 1099511627776. lia.
  - by vm_compute.
  - by vm_compute.
  - by vm_compute.
  - apply (bool_decide_unpack _). by vm_compute.
  - apply (bool_decide_unpack _). by vm_compute.
Defined.

(** C14: [clear] does not clear.  After it no transaction is in the pool, yet a
    nullifier of a transaction that was there is still reported as present, through
    a pointer to a node that no longer exists, and the weighted tree still counts
    the transaction. *)
Theorem clear_leaves_dangling {E B : Type} `{MinerPolicyEstimator E} `{Coins.CCoinsView B}
    (memory : CTransaction -> Z) (tx_GetHash : CTransaction -> list Z) (fAddressIndex fSpentIndex : bool)
    (p : CTxMemPool E) (Hr : reachable_pool (B := B) memory tx_GetHash fAddressIndex fSpentIndex p)
    (a : ptr) (e : CTxMemPoolEntry) (nf : list Z) (He : nodes (store p) !! a = Some e) (Hnf : nf ∈ tx_sapling (tx e)) :
  exists_tx (tx_GetHash (tx e)) (clear p) = false /\
  nullifierExists nf Coins.SAPLING (clear p) = true /\
  mapSaplingNullifiers (store (clear p)) !! nf = Some a /\ deref (store (clear p)) a = None /\
  checkNullifiers tx_GetHash Coins.SAPLING (store (clear p)) = false /\
  is_Some (WeightedTxTreeFacts.weights (weightedTxTree (clear p)) !! tx_GetHash (tx e)).
Proof.
  apply reachable_consistent in Hr as C. pose proof (co_links _ _ _ C) as L.
  assert (mapSaplingNullifiers (store p) !! nf = Some a) as Hm
    by (apply (find_tagged tx_sapling _ (store p)); [apply L|by exists e]).
  split; [done|]. split; [unfold nullifierExists; cbn [clear store mapSaplingNullifiers]; rewrite Hm; by apply bool_decide_eq_true|].
  split; [done|]. split; [done|]. split.
  - unfold checkNullifiers. cbn [clear store mapSaplingNullifiers nodes mapTx]. apply not_true_is_false. intros Hall.
    rewrite forallb_forall in Hall. specialize (Hall (nf, a)). rewrite <- list_elem_of_In, elem_of_map_to_list in Hall.
    specialize (Hall Hm). by rewrite lookup_empty in Hall.
  - cbn [clear weightedTxTree]. rewrite (wt_weights _ _ _ _ (co_tree _ _ _ C)).
    rewrite (proj2 (ids_iff _ _ _ a L)) by (by exists e). monad. rewrite He. by eexists.
Qed.

Lemma clear_leaves_dangling_witness :
  nullifierExists (7 :: replicate 31 0) Coins.SAPLING (clear sample_pool) = true /\
  exists_tx (3 :: replicate 31 0) (clear sample_pool) = false.
Proof.
  destruct (nodes (store sample_pool) !! 3%positive) as [e|] eqn:Ee; [|by vm_compute in Ee].
  assert (e = sample_entry (sample_tx 3 [] [7])) as -> by (vm_compute in Ee; by injection Ee as <-).
  pose proof (clear_leaves_dangling (B := Coins.CCoinsViewDB) sample_memory sample_id false false sample_pool sample_pool_reachable
    3%positive (sample_entry (sample_tx 3 [] [7])) (7 :: replicate 31 0) Ee ltac:(by left)) as (H1 & H2 & _).
  split; [exact H2|exact H1].
Defined.

End MempoolSafety.
