(* ===== verification/ChainState.v ===== *)
(** * Chain selection (src/main.cpp)

    The globals that say which blocks are known and which chain is active:
    [mapBlockIndex] and the heap of [CBlockIndex] objects it owns, [chainActive],
    [setBlockIndexCandidates], [mapBlocksUnlinked], [pindexBestInvalid], the
    sequence counter and the fork warning.  The operations receive a block
    ([AddToBlockIndex], [ReceivedBlockTransactions]), choose the best candidate
    ([FindMostWorkChain]), move the active chain to it ([DisconnectTip],
    [ConnectTip], [ActivateBestChainStep], [ActivateBestChain]) and mark blocks by
    hand ([InvalidateBlock], [ReconsiderBlock]).

    [None] is a null pointer dereferenced or an assertion that fails.  What chain
    selection uses of block validation, the coins database, the memory pool and
    the disk is the class [ChainClient]; its instances return whatever they
    return, and chain selection reacts to it.  Logging, user messages, wallet
    notifications and relay do not change this state and are left out; the node
    does not prune its block files. *)

From stdpp Require Import base list list_numbers numbers option gmap strings.
From Stdlib Require Import ZArith Lia.
From S2P Require Import Prelude Bytes ArithUint256 Params Chain Pow Transaction Merkle TxCheck.
Import BlockIndex.
#[local] Open Scope Z_scope.

Module ChainState.

Abbreviation heap := (gmap nat CBlockIndex) (only parsing).

(** ** Data *)

(** [fLargeWorkForkFound], [fLargeWorkInvalidChainFound], [pindexBestForkTip],
    [pindexBestForkBase] *)
Record ForkWarning := {
  fLargeWorkForkFound : bool; fLargeWorkInvalidChainFound : bool;
  pindexBestForkTip : option nat; pindexBestForkBase : option nat
}.

Definition ForkWarning_init : ForkWarning :=
  {| fLargeWorkForkFound := false; fLargeWorkInvalidChainFound := false;
     pindexBestForkTip := None; pindexBestForkBase := None |}.

Record state {W : Type} := {
  mapBlockIndex : gmap (list Z) nat;
  index : heap;
  chainActive : list (option nat);
  setBlockIndexCandidates : gset nat;
  mapBlocksUnlinked : list (option nat * nat);
  pindexBestInvalid : option nat;
  pindexBestHeader : option nat;
  nBlockSequenceId : Z;
  setDirtyBlockIndex : gset nat;
  warning : ForkWarning;
  world : W
}.
Arguments state : clear implicits.

Inductive FlushStateMode := FLUSH_STATE_NONE | FLUSH_STATE_IF_NEEDED | FLUSH_STATE_PERIODIC | FLUSH_STATE_ALWAYS.

(** What chain selection calls outside its own state.  [ConnectBlock] runs on a
    cache over the coins tip and flushes it there when it succeeds; it may write
    to the block's own index entry.  [DisconnectBlock] is [true] for
    [DISCONNECT_OK].  [ReadBestTrees] asserts that the coins tip has the note trees
    of its two best anchors.  The memory pool operations carry the source's names. *)
Class ChainClient (W : Type) := {
  ReadBlockFromDisk : W -> CBlockIndex -> option Merkle.CBlock;
  ConnectBlock : gmap (list Z) nat -> heap -> nat -> Merkle.CBlock -> TxCheck.CValidationState -> W ->
    option (bool * TxCheck.CValidationState * CBlockIndex * W);
  DisconnectBlock : heap -> nat -> Merkle.CBlock -> TxCheck.CValidationState -> W ->
    option (bool * TxCheck.CValidationState * W);
  FlushStateToDisk : FlushStateMode -> heap -> gset nat -> TxCheck.CValidationState -> W ->
    option (bool * TxCheck.CValidationState * gset nat * W);
  BestAnchors : W -> list Z * list Z * W;
  ReadBestTrees : W -> option W;
  AcceptToMemoryPool : Transaction.CTransaction -> W -> bool * W;
  pool_remove : Transaction.CTransaction -> W -> W;
  removeWithAnchor : list Z -> bool -> W -> W;
  removeForBlock : list Transaction.CTransaction -> Z -> bool -> W -> W;
  removeExpired : Z -> W -> W;
  removeForReorg : Z -> W -> W;
  removeWithoutBranchId : Z -> W -> W;
  pool_check : W -> option W;
  punish_source : CBlockIndex -> TxCheck.CValidationState -> W -> W;
  forget_source : CBlockIndex -> W -> W;
  IsInitialBlockDownload : heap -> list (option nat) -> W -> option (bool * W)
}.

Section chainstate.
Context {W : Type} `{!ChainClient W} (params : Consensus.Params).
Implicit Types s : state W.

(** ** Updates of single globals *)

Definition set_index s (m : heap) : state W := {|
  mapBlockIndex := mapBlockIndex s; index := m; chainActive := chainActive s;
  setBlockIndexCandidates := setBlockIndexCandidates s; mapBlocksUnlinked := mapBlocksUnlinked s;
  pindexBestInvalid := pindexBestInvalid s; pindexBestHeader := pindexBestHeader s;
  nBlockSequenceId := nBlockSequenceId s; setDirtyBlockIndex := setDirtyBlockIndex s;
  warning := warning s; world := world s |}.
Definition set_mapBlockIndex s (i : gmap (list Z) nat) : state W := {|
  mapBlockIndex := i; index := index s; chainActive := chainActive s;
  setBlockIndexCandidates := setBlockIndexCandidates s; mapBlocksUnlinked := mapBlocksUnlinked s;
  pindexBestInvalid := pindexBestInvalid s; pindexBestHeader := pindexBestHeader s;
  nBlockSequenceId := nBlockSequenceId s; setDirtyBlockIndex := setDirtyBlockIndex s;
  warning := warning s; world := world s |}.
Definition set_chain s (c : list (option nat)) : state W := {|
  mapBlockIndex := mapBlockIndex s; index := index s; chainActive := c;
  setBlockIndexCandidates := setBlockIndexCandidates s; mapBlocksUnlinked := mapBlocksUnlinked s;
  pindexBestInvalid := pindexBestInvalid s; pindexBestHeader := pindexBestHeader s;
  nBlockSequenceId := nBlockSequenceId s; setDirtyBlockIndex := setDirtyBlockIndex s;
  warning := warning s; world := world s |}.
Definition set_candidates s (c : gset nat) : state W := {|
  mapBlockIndex := mapBlockIndex s; index := index s; chainActive := chainActive s;
  setBlockIndexCandidates := c; mapBlocksUnlinked := mapBlocksUnlinked s;
  pindexBestInvalid := pindexBestInvalid s; pindexBestHeader := pindexBestHeader s;
  nBlockSequenceId := nBlockSequenceId s; setDirtyBlockIndex := setDirtyBlockIndex s;
  warning := warning s; world := world s |}.
Definition set_unlinked s (u : list (option nat * nat)) : state W := {|
  mapBlockIndex := mapBlockIndex s; index := index s; chainActive := chainActive s;
  setBlockIndexCandidates := setBlockIndexCandidates s; mapBlocksUnlinked := u;
  pindexBestInvalid := pindexBestInvalid s; pindexBestHeader := pindexBestHeader s;
  nBlockSequenceId := nBlockSequenceId s; setDirtyBlockIndex := setDirtyBlockIndex s;
  warning := warning s; world := world s |}.
Definition set_best_invalid s (p : option nat) : state W := {|
  mapBlockIndex := mapBlockIndex s; index := index s; chainActive := chainActive s;
  setBlockIndexCandidates := setBlockIndexCandidates s; mapBlocksUnlinked := mapBlocksUnlinked s;
  pindexBestInvalid := p; pindexBestHeader := pindexBestHeader s;
  nBlockSequenceId := nBlockSequenceId s; setDirtyBlockIndex := setDirtyBlockIndex s;
  warning := warning s; world := world s |}.
Definition set_best_header s (p : option nat) : state W := {|
  mapBlockIndex := mapBlockIndex s; index := index s; chainActive := chainActive s;
  setBlockIndexCandidates := setBlockIndexCandidates s; mapBlocksUnlinked := mapBlocksUnlinked s;
  pindexBestInvalid := pindexBestInvalid s; pindexBestHeader := p;
  nBlockSequenceId := nBlockSequenceId s; setDirtyBlockIndex := setDirtyBlockIndex s;
  warning := warning s; world := world s |}.
Definition set_sequence s (n : Z) : state W := {|
  mapBlockIndex := mapBlockIndex s; index := index s; chainActive := chainActive s;
  setBlockIndexCandidates := setBlockIndexCandidates s; mapBlocksUnlinked := mapBlocksUnlinked s;
  pindexBestInvalid := pindexBestInvalid s; pindexBestHeader := pindexBestHeader s;
  nBlockSequenceId := n; setDirtyBlockIndex := setDirtyBlockIndex s;
  warning := warning s; world := world s |}.
Definition set_dirty s (d : gset nat) : state W := {|
  mapBlockIndex := mapBlockIndex s; index := index s; chainActive := chainActive s;
  setBlockIndexCandidates := setBlockIndexCandidates s; mapBlocksUnlinked := mapBlocksUnlinked s;
  pindexBestInvalid := pindexBestInvalid s; pindexBestHeader := pindexBestHeader s;
  nBlockSequenceId := nBlockSequenceId s; setDirtyBlockIndex := d;
  warning := warning s; world := world s |}.
Definition set_warning s (f : ForkWarning) : state W := {|
  mapBlockIndex := mapBlockIndex s; index := index s; chainActive := chainActive s;
  setBlockIndexCandidates := setBlockIndexCandidates s; mapBlocksUnlinked := mapBlocksUnlinked s;
  pindexBestInvalid := pindexBestInvalid s; pindexBestHeader := pindexBestHeader s;
  nBlockSequenceId := nBlockSequenceId s; setDirtyBlockIndex := setDirtyBlockIndex s;
  warning := f; world := world s |}.
Definition set_world s (w : W) : state W := {|
  mapBlockIndex := mapBlockIndex s; index := index s; chainActive := chainActive s;
  setBlockIndexCandidates := setBlockIndexCandidates s; mapBlocksUnlinked := mapBlocksUnlinked s;
  pindexBestInvalid := pindexBestInvalid s; pindexBestHeader := pindexBestHeader s;
  nBlockSequenceId := nBlockSequenceId s; setDirtyBlockIndex := setDirtyBlockIndex s;
  warning := warning s; world := w |}.

(** [pindex->nStatus = f(pindex->nStatus)] *)
Definition set_status (b : CBlockIndex) (status : Z) : CBlockIndex := set_work_status b (nChainWork b) status.
Definition mark (f : Z -> Z) (p : nat) s : option (state W) :=
  b ← index s !! p; Some (set_index s (<[p := set_status b (f (nStatus b))]> (index s))).
Definition dirty (p : nat) s : state W := set_dirty s ({[p]} ∪ setDirtyBlockIndex s).
Definition erase_candidate (p : nat) s : state W := set_candidates s (setBlockIndexCandidates s ∖ {[p]}).
Definition insert_candidate (p : nat) s : state W := set_candidates s ({[p]} ∪ setBlockIndexCandidates s).

(** [status & mask] as a condition *)
Definition has (status mask : Z) : bool := negb (Z.land status mask =? 0).

(** ** struct CBlockIndexWorkComparator and the set ordered by it *)

Definition CBlockIndexWorkComparator (m : heap) (pa pb : nat) : option bool :=
  a ← m !! pa; b ← m !! pb;
  Some (if Arith256.op_gt (nChainWork a) (nChainWork b) then false
        else if Arith256.op_lt (nChainWork a) (nChainWork b) then true
        else if nSequenceId a <? nSequenceId b then false
        else if nSequenceId a >? nSequenceId b then true
        else if (pa <? pb)%nat then false
        else if (pb <? pa)%nat then true
        else false).

(** The last and the first element of the set in the comparator's order. *)
Fixpoint last_of (m : heap) (p : nat) (l : list nat) : option nat :=
  match l with
  | [] => Some p
  | q :: l => less ← CBlockIndexWorkComparator m p q; last_of m (if (less : bool) then q else p) l
  end.
Fixpoint first_of (m : heap) (p : nat) (l : list nat) : option nat :=
  match l with
  | [] => Some p
  | q :: l => less ← CBlockIndexWorkComparator m q p; first_of m (if (less : bool) then q else p) l
  end.
(** [*rbegin()] and [*begin()]; the inner [None] is the end of the set. *)
Definition rbegin (m : heap) (c : gset nat) : option (option nat) :=
  match elements c with [] => Some None | p :: l => Some <$> last_of m p l end.
Definition begin (m : heap) (c : gset nat) : option (option nat) :=
  match elements c with [] => Some None | p :: l => Some <$> first_of m p l end.

(** ** Fork warnings *)

Definition CheckForkWarningConditions s : option (state W) :=
  '(ibd, w) ← IsInitialBlockDownload (index s) (chainActive s) (world s);
  let s := set_world s w in
  if (ibd : bool) then Some s
  else
    f ← match pindexBestForkTip (warning s) with
        | Some q =>
            b ← index s !! q;
            Some (if Height (chainActive s) - nHeight b >=? 720
                  then {| fLargeWorkForkFound := fLargeWorkForkFound (warning s);
                          fLargeWorkInvalidChainFound := fLargeWorkInvalidChainFound (warning s);
                          pindexBestForkTip := None; pindexBestForkBase := pindexBestForkBase (warning s) |}
                  else warning s)
        | None => Some (warning s)
        end;
    warn ← match pindexBestForkTip f, pindexBestInvalid s with
           | Some _, _ => Some true
           | None, None => Some false
           | None, Some q =>
               bad ← index s !! q;
               t ← Tip (chainActive s); bt ← index s !! t;
               proof ← Pow.GetBlockProof (nBits bt);
               Some (Arith256.op_gt (nChainWork bad)
                       (Arith256.op_add (nChainWork bt) (Arith256.op_mul32 proof 6)))
           end;
    Some (set_warning s
      (if (warn : bool) then
         match pindexBestForkTip f, pindexBestForkBase f with
         | Some _, Some _ =>
             {| fLargeWorkForkFound := true; fLargeWorkInvalidChainFound := fLargeWorkInvalidChainFound f;
                pindexBestForkTip := pindexBestForkTip f; pindexBestForkBase := pindexBestForkBase f |}
         | _, _ =>
             {| fLargeWorkForkFound := fLargeWorkForkFound f; fLargeWorkInvalidChainFound := true;
                pindexBestForkTip := pindexBestForkTip f; pindexBestForkBase := pindexBestForkBase f |}
         end
       else {| fLargeWorkForkFound := false; fLargeWorkInvalidChainFound := false;
               pindexBestForkTip := pindexBestForkTip f; pindexBestForkBase := pindexBestForkBase f |})).


(** [while (plonger && plonger->nHeight > pfork->nHeight) plonger = plonger->pprev;] *)
Fixpoint lower_to (fuel : nat) (m : heap) (plonger : option nat) (height : Z) : option (option nat) :=
  match plonger with
  | None => Some None
  | Some q =>
      b ← m !! q;
      if nHeight b >? height then
        match fuel with O => None | S fuel => lower_to fuel m (pprev b) height end
      else Some plonger
  end.

(** The outer loop; each iteration moves [pfork] to its parent. *)
Fixpoint fork_walk (fuel : nat) (m : heap) (pfork plonger : option nat) : option (option nat) :=
  match pfork with
  | None => Some None
  | Some q =>
      if bool_decide (pfork = plonger) then Some pfork
      else
        b ← m !! q;
        plonger ← (match plonger with
                   | None => Some None
                   | Some r => br ← m !! r; lower_to (Z.to_nat (nHeight br)) m plonger (nHeight b)
                   end);
        if bool_decide (pfork = plonger) then Some pfork
        else match fuel with O => None | S fuel => fork_walk fuel m (pprev b) plonger end
  end.

Definition CheckForkWarningConditionsOnNewFork (pindexNewForkTip : nat) s : option (state W) :=
  b ← index s !! pindexNewForkTip;
  pfork ← fork_walk (Z.to_nat (nHeight b + 1)) (index s) (Some pindexNewForkTip) (Tip (chainActive s));
  f ← (match pfork with
       | None => Some (warning s)
       | Some q =>
           bq ← index s !! q;
           higher ← (match pindexBestForkTip (warning s) with
                     | None => Some true
                     | Some r => br ← index s !! r; Some (nHeight b >? nHeight br)
                     end);
           proof ← Pow.GetBlockProof (nBits bq);
           Some (if higher
                    && Arith256.op_gt (Arith256.op_sub (nChainWork b) (nChainWork bq)) (Arith256.op_mul32 proof 7)
                    && (Height (chainActive s) - nHeight b <? 72)
                 then {| fLargeWorkForkFound := fLargeWorkForkFound (warning s);
                         fLargeWorkInvalidChainFound := fLargeWorkInvalidChainFound (warning s);
                         pindexBestForkTip := Some pindexNewForkTip; pindexBestForkBase := Some q |}
                 else warning s)
       end);
  CheckForkWarningConditions (set_warning s f).

(** ** Invalid blocks *)

(** [!pindexBestInvalid || pindexNew->nChainWork > pindexBestInvalid->nChainWork] *)
Definition raise_best_invalid (pindexNew : nat) s : option (state W) :=
  b ← index s !! pindexNew;
  more ← (match pindexBestInvalid s with
          | None => Some true
          | Some q => bq ← index s !! q; Some (Arith256.op_gt (nChainWork b) (nChainWork bq))
          end);
  Some (if (more : bool) then set_best_invalid s (Some pindexNew) else s).

Definition InvalidChainFound (pindexNew : nat) s : option (state W) :=
  s ← raise_best_invalid pindexNew s;
  _ ← Tip (chainActive s);
  CheckForkWarningConditions s.

Definition InvalidBlockFound (pindex : nat) (st : TxCheck.CValidationState) s : option (state W) :=
  b ← index s !! pindex;
  let s := if TxCheck.IsInvalid st then set_world s (punish_source b st (world s)) else s in
  if TxCheck.corruptionPossible st then Some s
  else
    s ← mark (fun n => Z.lor n BLOCK_FAILED_VALID) pindex s;
    InvalidChainFound pindex (erase_candidate pindex (dirty pindex s)).

(** ** Moving the tip *)

(** The log line reads the new tip: without one the behaviour is undefined. *)
Definition UpdateTip (pindexNew : option nat) s : option (state W) :=
  c ← SetTip (index s) (chainActive s) pindexNew;
  t ← Tip c;
  _ ← index s !! t;
  Some (set_chain s c).

(** [AbortNode(state, message)] *)
Definition AbortNode (st : TxCheck.CValidationState) (message : string) s
  : option (bool * TxCheck.CValidationState * state W) := Some (false, TxCheck.Error st message, s).

Definition flush (mode : FlushStateMode) (st : TxCheck.CValidationState) s
  : option (bool * TxCheck.CValidationState * state W) :=
  '(ok, st, d, w) ← FlushStateToDisk mode (index s) (setDirtyBlockIndex s) st (world s);
  Some (ok, st, set_dirty (set_world s w) d).

(** The transactions of a disconnected block go back to the pool. *)
Definition resurrect (txs : list Transaction.CTransaction) (w : W) : W :=
  fold_left (fun w tx =>
    if Transaction.IsCoinBase tx then pool_remove tx w
    else let '(accepted, w) := AcceptToMemoryPool tx w in
         if (accepted : bool) then w else pool_remove tx w) txs w.

Definition DisconnectTip (st : TxCheck.CValidationState) s : option (bool * TxCheck.CValidationState * state W) :=
  pindexDelete ← Tip (chainActive s);
  b ← index s !! pindexDelete;
  match ReadBlockFromDisk (world s) b with
  | None => AbortNode st "Failed to read block" s
  | Some block =>
      let '(sproutBefore, saplingBefore, w) := BestAnchors (world s) in
      '(ok, st, w) ← DisconnectBlock (index s) pindexDelete block st w;
      if negb ok then Some (false, st, set_world s w)
      else
        let '(sproutAfter, saplingAfter, w) := BestAnchors w in
        '(ok, st, s) ← flush FLUSH_STATE_IF_NEEDED st (set_world s w);
        if negb ok then Some (false, st, s)
        else
          let w := resurrect (Merkle.vtx block) (world s) in
          let w := if bool_decide (sproutBefore = sproutAfter) then w else removeWithAnchor sproutBefore false w in
          let w := if bool_decide (saplingBefore = saplingAfter) then w else removeWithAnchor saplingBefore true w in
          s ← UpdateTip (pprev b) (set_world s w);
          w ← ReadBestTrees (world s);
          Some (true, st, set_world s w)
  end.

(** [pblock] is the block when it is already loaded. *)
Definition ConnectTip (st : TxCheck.CValidationState) (pindexNew : nat) (pblock : option Merkle.CBlock) s
  : option (bool * TxCheck.CValidationState * state W) :=
  b ← index s !! pindexNew;
  if negb (bool_decide (pprev b = Tip (chainActive s))) then None
  else
    match (match pblock with Some block => Some block | None => ReadBlockFromDisk (world s) b end) with
    | None => AbortNode st "Failed to read block" s
    | Some block =>
        w ← ReadBestTrees (world s);
        '(ok, st, b', w) ← ConnectBlock (mapBlockIndex s) (index s) pindexNew block st w;
        let s := set_world (set_index s (<[pindexNew := b']> (index s))) w in
        if negb ok then
          s ← (if TxCheck.IsInvalid st then InvalidBlockFound pindexNew st s else Some s);
          Some (false, st, s)
        else
          '(ok, st, s) ← flush FLUSH_STATE_IF_NEEDED st (set_world s (forget_source b' (world s)));
          if negb ok then Some (false, st, s)
          else
            '(ibd, w) ← IsInitialBlockDownload (index s) (chainActive s) (world s);
            let w := removeForBlock (Merkle.vtx block) (nHeight b') (negb ibd) w in
            let w := removeExpired (nHeight b') w in
            s ← UpdateTip (Some pindexNew) (set_world s w);
            Some (true, st, s)
    end.

(** ** FindMostWorkChain *)

(** The walk from the candidate to the active chain: the first block that failed
    or lacks data, with [fFailedChain]; the inner [None] is a usable chain. *)
Fixpoint scan (fuel : nat) (m : heap) (c : list (option nat)) (pindexTest : option nat)
  : option (option (nat * bool)) :=
  match pindexTest with
  | None => Some None
  | Some q =>
      b ← m !! q;
      inside ← Contains m c q;
      if (inside : bool) then Some None
      else if (nChainTx b =? 0) && negb (nHeight b =? 0) then None
      else
        let fFailedChain := has (nStatus b) BLOCK_FAILED_MASK in
        let fMissingData := negb (has (nStatus b) BLOCK_HAVE_DATA) in
        if fFailedChain || fMissingData then Some (Some (q, fFailedChain))
        else match fuel with O => None | S fuel => scan fuel m c (pprev b) end
  end.

(** [while (pindexTest != pindexFailed)] *)
Fixpoint remove_chain (fuel : nat) (fFailedChain : bool) (pindexTest pindexFailed : nat) s : option (state W) :=
  if bool_decide (pindexTest = pindexFailed) then Some s
  else match fuel with
  | O => None
  | S fuel =>
      b ← index s !! pindexFailed;
      s ← (if fFailedChain then mark (fun n => Z.lor n BLOCK_FAILED_CHILD) pindexFailed s
           else Some (set_unlinked s (mapBlocksUnlinked s ++ [(pprev b, pindexFailed)])));
      q ← pprev b;
      remove_chain fuel fFailedChain pindexTest q (erase_candidate pindexFailed s)
  end.

(** Every iteration but the last erases a candidate. *)
Fixpoint find_most_work (fuel : nat) s : option (option nat * state W) :=
  r ← rbegin (index s) (setBlockIndexCandidates s);
  match r with
  | None => Some (None, s)
  | Some pindexNew =>
      b ← index s !! pindexNew;
      bad ← scan (Z.to_nat (nHeight b + 1)) (index s) (chainActive s) (Some pindexNew);
      match bad with
      | None => Some (Some pindexNew, s)
      | Some (pindexTest, fFailedChain) =>
          s ← (if (fFailedChain : bool) then raise_best_invalid pindexNew s else Some s);
          s ← remove_chain (Z.to_nat (nHeight b + 1)) fFailedChain pindexTest pindexNew s;
          let s := erase_candidate pindexTest s in
          match fuel with O => None | S fuel => find_most_work fuel s end
      end
  end.

Definition FindMostWorkChain s : option (option nat * state W) :=
  find_most_work (size (setBlockIndexCandidates s)) s.

(** [while (it != end() && the first candidate is before the tip) erase(it++);] *)
Fixpoint prune_loop (fuel : nat) (m : heap) (tip : option nat) (c : gset nat) : option (gset nat) :=
  r ← begin m c;
  match r with
  | None => Some c
  | Some p =>
      t ← tip;
      less ← CBlockIndexWorkComparator m p t;
      if (less : bool) then
        match fuel with O => None | S fuel => prune_loop fuel m tip (c ∖ {[p]}) end
      else Some c
  end.

Definition PruneBlockIndexCandidates s : option (state W) :=
  c ← prune_loop (size (setBlockIndexCandidates s)) (index s) (Tip (chainActive s)) (setBlockIndexCandidates s);
  if bool_decide (c = ∅) then None else Some (set_candidates s c).


(** ** ActivateBestChainStep *)

Definition MAX_REORG_LENGTH : Z := Consensus.nCoinbaseMaturity params - 1.

(** The outcome of the connection loops: continue at the next batch, stop with
    [fInvalidFound], or [return false]. *)
Inductive progress :=
  | More (st : TxCheck.CValidationState) (s : state W)
  | Stop (fInvalidFound : bool) (st : TxCheck.CValidationState) (s : state W)
  | Failed (st : TxCheck.CValidationState) (s : state W).

(** [while (chainActive.Tip() && chainActive.Tip() != pindexFork)] *)
Fixpoint disconnect_to (fuel : nat) (pindexFork : option nat) (fBlocksDisconnected : bool)
    (st : TxCheck.CValidationState) s : option (bool * bool * TxCheck.CValidationState * state W) :=
  match Tip (chainActive s) with
  | None => Some (true, fBlocksDisconnected, st, s)
  | Some t =>
      if bool_decide (Some t = pindexFork) then Some (true, fBlocksDisconnected, st, s)
      else match fuel with
      | O => None
      | S fuel =>
          '(ok, st, s) ← DisconnectTip st s;
          if negb ok then Some (false, fBlocksDisconnected, st, s)
          else disconnect_to fuel pindexFork true st s
      end
  end.

(** [while (pindexIter && pindexIter->nHeight != nHeight)]: the blocks to
    connect, highest first. *)
Fixpoint batch (fuel : nat) (m : heap) (pindexIter : option nat) (height : Z) : option (list nat) :=
  match pindexIter with
  | None => Some []
  | Some q =>
      b ← m !! q;
      if nHeight b =? height then Some []
      else match fuel with
      | O => None
      | S fuel => l ← batch fuel m (pprev b) height; Some (q :: l)
      end
  end.

(** The [BOOST_REVERSE_FOREACH] over [l]; [back] is [vpindexToConnect.back()]. *)
Fixpoint connect_blocks (oldWork : option (list Z)) (pindexMostWork back : nat) (pblock : option Merkle.CBlock)
    (l : list nat) (st : TxCheck.CValidationState) s : option progress :=
  match l with
  | [] => Some (More st s)
  | p :: l =>
      '(ok, st, s) ← ConnectTip st p (if bool_decide (p = pindexMostWork) then pblock else None) s;
      if negb ok then
        if TxCheck.IsInvalid st then
          s ← (if TxCheck.corruptionPossible st then Some s else InvalidChainFound back s);
          Some (Stop true TxCheck.CValidationState_init s)
        else Some (Failed st s)
      else
        s ← PruneBlockIndexCandidates s;
        better ← (match oldWork with
                  | None => Some true
                  | Some work => t ← Tip (chainActive s); bt ← index s !! t; Some (Arith256.op_gt (nChainWork bt) work)
                  end);
        if (better : bool) then Some (Stop false st s)
        else connect_blocks oldWork pindexMostWork back pblock l st s
  end.

(** [while (fContinue && nHeight != pindexMostWork->nHeight)], with the lowest
    block of the last batch. *)
Fixpoint connect_batches (fuel : nat) (oldWork : option (list Z)) (pindexMostWork : nat) (pblock : option Merkle.CBlock)
    (nHeight : Z) (lowest : option nat) (st : TxCheck.CValidationState) s : option (option nat * progress) :=
  b ← index s !! pindexMostWork;
  if nHeight =? BlockIndex.nHeight b then Some (lowest, More st s)
  else match fuel with
  | O => None
  | S fuel =>
      let nTargetHeight := Z.min (nHeight + 32) (BlockIndex.nHeight b) in
      pindexIter ← GetAncestor (index s) pindexMostWork nTargetHeight;
      l ← batch 33 (index s) pindexIter nHeight;
      match last l with
      | None => connect_batches fuel oldWork pindexMostWork pblock nTargetHeight None st s
      | Some lowest =>
          r ← connect_blocks oldWork pindexMostWork lowest pblock (rev l) st s;
          match r with
          | More st s => connect_batches fuel oldWork pindexMostWork pblock nTargetHeight (Some lowest) st s
          | r => Some (Some lowest, r)
          end
      end
  end.

(** After the loops: the memory pool, then the fork warnings. *)
Definition finish_step (fBlocksDisconnected fInvalidFound : bool) (lowest : option nat)
    (st : TxCheck.CValidationState) s : option (bool * TxCheck.CValidationState * state W) :=
  t ← Tip (chainActive s);
  bt ← index s !! t;
  let w := if fBlocksDisconnected then removeForReorg (nHeight bt + 1) (world s) else world s in
  branch ← Consensus.CurrentEpochBranchId (nHeight bt + 1) params;
  w ← pool_check (removeWithoutBranchId branch w);
  let s := set_world s w in
  s ← (if fInvalidFound then q ← lowest; CheckForkWarningConditionsOnNewFork q s
       else CheckForkWarningConditions s);
  Some (true, st, s).

Definition ActivateBestChainStep (st : TxCheck.CValidationState) (pindexMostWork : nat) (pblock : option Merkle.CBlock) s
  : option (bool * TxCheck.CValidationState * state W) :=
  let pindexOldTip := Tip (chainActive s) in
  pindexFork ← FindFork (index s) (chainActive s) pindexMostWork;
  forkHeight ← (match pindexFork with None => Some (-1) | Some f => b ← index s !! f; Some (nHeight b) end);
  old ← (match pindexOldTip with None => Some None | Some t => b ← index s !! t; Some (Some b) end);
  let reorgLength := match old with None => 0 | Some b => nHeight b - forkHeight end in
  if negb (0 <? MAX_REORG_LENGTH) then None
  else if MAX_REORG_LENGTH <? reorgLength then
    (* the message dereferences the fork point *)
    _ ← pindexFork; Some (false, st, s)
  else
    '(ok, fBlocksDisconnected, st, s) ← disconnect_to (length (chainActive s)) pindexFork false st s;
    if negb ok then Some (false, st, s)
    else
      b ← index s !! pindexMostWork;
      '(lowest, r) ← connect_batches (Z.to_nat (nHeight b + 1)) (nChainWork <$> old) pindexMostWork pblock forkHeight None st s;
      match r with
      | More st s => finish_step fBlocksDisconnected false lowest st s
      | Stop fInvalidFound st s => finish_step fBlocksDisconnected fInvalidFound lowest st s
      | Failed st s => Some (false, st, s)
      end.

(** [do ... while (pindexMostWork != chainActive.Tip())]; [pblock] comes with its hash. *)
Fixpoint activate_loop (fuel : nat) (st : TxCheck.CValidationState) (pblock : option (list Z * Merkle.CBlock)) s
  : option (bool * TxCheck.CValidationState * state W) :=
  '(pindexMostWork, s) ← FindMostWorkChain s;
  match pindexMostWork with
  | None => Some (true, st, s)
  | Some p =>
      if bool_decide (Some p = Tip (chainActive s)) then Some (true, st, s)
      else
        b ← index s !! p;
        let given := match pblock with
                     | Some (hash, block) => if bool_decide (GetBlockHash b = Some hash) then Some block else None
                     | None => None
                     end in
        '(ok, st, s) ← ActivateBestChainStep st p given s;
        if negb ok then Some (false, st, s)
        else
          '(_, w) ← IsInitialBlockDownload (index s) (chainActive s) (world s);
          let s := set_world s w in
          if bool_decide (Some p = Tip (chainActive s)) then flush FLUSH_STATE_PERIODIC st s
          else match fuel with O => None | S fuel => activate_loop fuel st pblock s end
  end.

(** A step marks a block as failed or raises the work of the tip, so the square
    of the number of blocks bounds the number of iterations. *)
Definition ActivateBestChain (st : TxCheck.CValidationState) (pblock : option (list Z * Merkle.CBlock)) s
  : option (bool * TxCheck.CValidationState * state W) :=
  activate_loop (S (size (index s)) * S (size (index s))) st pblock s.


(** ** Marking blocks by hand *)

(** The loop [while (chainActive.Contains(pindex))] *)
Fixpoint invalidate_loop (fuel : nat) (pindex : nat) (st : TxCheck.CValidationState) s
  : option (bool * TxCheck.CValidationState * state W) :=
  inside ← Contains (index s) (chainActive s) pindex;
  if (inside : bool) then
    match fuel with
    | O => None
    | S fuel =>
        walk ← Tip (chainActive s);
        s ← mark (fun n => Z.lor n BLOCK_FAILED_CHILD) walk s;
        '(ok, st, s) ← DisconnectTip st (erase_candidate walk (dirty walk s));
        if negb ok then Some (false, st, s) else invalidate_loop fuel pindex st s
    end
  else Some (true, st, s).

(** [mempool.removeForReorg] and [mempool.removeWithoutBranchId] at the new tip *)
Definition pool_reorg s : option (state W) :=
  t ← Tip (chainActive s); bt ← index s !! t;
  branch ← Consensus.CurrentEpochBranchId (nHeight bt + 1) params;
  Some (set_world s (removeWithoutBranchId branch (removeForReorg (nHeight bt + 1) (world s)))).

(** The blocks of [mapBlockIndex] *)
Definition known_blocks s : list nat := snd <$> map_to_list (mapBlockIndex s).

(** [IsValid(BLOCK_VALID_TRANSACTIONS) && nChainTx] *)
Definition has_transactions (b : CBlockIndex) : option bool :=
  v ← IsValid b BLOCK_VALID_TRANSACTIONS; Some (v && negb (nChainTx b =? 0)).

(** Every known block that is not worse than the tip becomes a candidate. *)
Fixpoint readd_candidates (l : list nat) s : option (state W) :=
  match l with
  | [] => Some s
  | p :: l =>
      b ← index s !! p;
      ready ← has_transactions b;
      keep ← (if (ready : bool) then
                t ← Tip (chainActive s); less ← CBlockIndexWorkComparator (index s) p t; Some (negb less)
              else Some false);
      readd_candidates l (if (keep : bool) then insert_candidate p s else s)
  end.

Definition InvalidateBlock (st : TxCheck.CValidationState) (pindex : nat) s
  : option (bool * TxCheck.CValidationState * state W) :=
  s ← mark (fun n => Z.lor n BLOCK_FAILED_VALID) pindex s;
  '(ok, st, s) ← invalidate_loop (length (chainActive s)) pindex st (erase_candidate pindex (dirty pindex s));
  if negb ok then s ← pool_reorg s; Some (false, st, s)
  else
    s ← readd_candidates (known_blocks s) s;
    s ← InvalidChainFound pindex s;
    s ← pool_reorg s;
    Some (true, st, s).

(** [nStatus &= ~BLOCK_FAILED_MASK] *)
Definition clear_failed (n : Z) : Z := Z.land n (u32 (Z.lnot BLOCK_FAILED_MASK)).

(** The loop over [mapBlockIndex] *)
Fixpoint reconsider_descendants (l : list nat) (pindex : nat) (height : Z) s : option (state W) :=
  match l with
  | [] => Some s
  | p :: l =>
      b ← index s !! p;
      valid ← IsValid b BLOCK_VALID_TRANSACTIONS;
      a ← GetAncestor (index s) p height;
      if negb valid && bool_decide (a = Some pindex) then
        s ← mark clear_failed p s;
        let s := dirty p s in
        b ← index s !! p;
        ready ← has_transactions b;
        better ← (if (ready : bool) then
                    t ← Tip (chainActive s); CBlockIndexWorkComparator (index s) t p
                  else Some false);
        let s := if (better : bool) then insert_candidate p s else s in
        reconsider_descendants l pindex height
          (if bool_decide (pindexBestInvalid s = Some p) then set_best_invalid s None else s)
      else reconsider_descendants l pindex height s
  end.

(** [while (pindex != NULL)] *)
Fixpoint reconsider_ancestors (fuel : nat) (pindex : option nat) s : option (state W) :=
  match pindex, fuel with
  | None, _ => Some s
  | Some _, O => None
  | Some p, S fuel =>
      b ← index s !! p;
      s ← (if has (nStatus b) BLOCK_FAILED_MASK then s ← mark clear_failed p s; Some (dirty p s) else Some s);
      reconsider_ancestors fuel (pprev b) s
  end.

Definition ReconsiderBlock (pindex : nat) s : option (state W) :=
  b ← index s !! pindex;
  s ← reconsider_descendants (known_blocks s) pindex (nHeight b) s;
  reconsider_ancestors (Z.to_nat (nHeight b + 1)) (Some pindex) s.

(** ** Receiving headers and blocks *)

Context (block_GetHash : CBlockHeader -> list Z).

(** [new CBlockIndex(block)] at a fresh address; the result is the entry of the block. *)
Definition AddToBlockIndex (block : CBlockHeader) s : option (nat * state W) :=
  let hash := block_GetHash block in
  match mapBlockIndex s !! hash with
  | Some p => Some (p, s)
  | None =>
      let p := fresh (dom (index s)) in
      let s := set_mapBlockIndex s (<[hash := p]> (mapBlockIndex s)) in
      let b := CBlockIndex_of_header block in
      '(m, prevWork) ←
        (match mapBlockIndex s !! hdr_hashPrevBlock block with
         | None => Some (<[p := set_links b (Some hash) None None 0]> (index s), Arith256.base_uint_zero)
         | Some q =>
             bq ← index s !! q;
             m ← BuildSkip (<[p := set_links b (Some hash) (Some q) None (nHeight bq + 1)]> (index s)) p;
             Some (m, nChainWork bq)
         end);
      b ← m !! p;
      proof ← Pow.GetBlockProof (nBits b);
      '(status, _) ← RaiseValidity (nStatus b) BLOCK_VALID_TREE;
      let b := set_work_status b (Arith256.op_add prevWork proof) status in
      let s := set_index s (<[p := b]> m) in
      better ← (match pindexBestHeader s with
                | None => Some true
                | Some h => bh ← index s !! h; Some (Arith256.op_lt (nChainWork bh) (nChainWork b))
                end);
      Some (p, dirty p (if (better : bool) then set_best_header s (Some p) else s))
  end.


(** The chain parameters of the Sprout pool checkpoint; [fDeveloperSetPoolSizeZero]
    is [fExperimentalMode && mapArgs.count("-developersetpoolsizezero")]. *)
Context (ZIP209Enabled fDeveloperSetPoolSizeZero : bool).
Context (SproutValuePoolCheckpointHeight SproutValuePoolCheckpointBalance : Z).
Context (SproutValuePoolCheckpointBlockHash : list Z).

(** The fields [ReceivedBlockTransactions] writes. *)
Definition set_received (b : CBlockIndex) (ntx sapling : Z) (sprout : option Z) (pos : CDiskBlockPos) (status : Z)
  : CBlockIndex := {|
  phashBlock := phashBlock b; pprev := pprev b; pskip := pskip b; nHeight := nHeight b;
  nFile := pos_nFile pos; nDataPos := pos_nPos pos; nUndoPos := 0; nChainWork := nChainWork b;
  nTx := ntx; nChainTx := 0; nStatus := status; nCachedBranchId := nCachedBranchId b;
  hashSproutAnchor := hashSproutAnchor b; hashFinalSproutRoot := hashFinalSproutRoot b;
  nSproutValue := sprout; nChainSproutValue := None;
  nSaplingValue := sapling; nChainSaplingValue := None;
  nVersion := nVersion b; hashMerkleRoot := hashMerkleRoot b;
  hashFinalSaplingRoot := hashFinalSaplingRoot b; nTime := nTime b; nBits := nBits b;
  nNonce := nNonce b; nSequenceId := nSequenceId b |}.

Definition set_chain_totals (b : CBlockIndex) (chaintx : Z) (sprout sapling : option Z) (sequence : Z) : CBlockIndex := {|
  phashBlock := phashBlock b; pprev := pprev b; pskip := pskip b; nHeight := nHeight b;
  nFile := nFile b; nDataPos := nDataPos b; nUndoPos := nUndoPos b; nChainWork := nChainWork b;
  nTx := nTx b; nChainTx := chaintx; nStatus := nStatus b; nCachedBranchId := nCachedBranchId b;
  hashSproutAnchor := hashSproutAnchor b; hashFinalSproutRoot := hashFinalSproutRoot b;
  nSproutValue := nSproutValue b; nChainSproutValue := sprout;
  nSaplingValue := nSaplingValue b; nChainSaplingValue := sapling;
  nVersion := nVersion b; hashMerkleRoot := hashMerkleRoot b;
  hashFinalSaplingRoot := hashFinalSaplingRoot b; nTime := nTime b; nBits := nBits b;
  nNonce := nNonce b; nSequenceId := sequence |}.

(** [FallbackSproutValuePoolBalance], on [nChainSproutValue] *)
Definition FallbackSproutValuePoolBalance (b : CBlockIndex) (chainSprout : option Z) : option (option Z) :=
  if negb ZIP209Enabled then Some chainSprout
  else if fDeveloperSetPoolSizeZero then Some chainSprout
  else if nHeight b =? SproutValuePoolCheckpointHeight then
    hash ← GetBlockHash b;
    if bool_decide (hash = SproutValuePoolCheckpointBlockHash) then
      match chainSprout with
      | None => Some (Some SproutValuePoolCheckpointBalance)
      | Some v => if (v =? SproutValuePoolCheckpointBalance) && bool_decide (is_Some (nSproutValue b))
                  then Some chainSprout else None
      end
    else Some chainSprout
  else Some chainSprout.

(** The change of the two pools by a block's transactions, in [int64_t] *)
Definition sprout_delta (txs : list Transaction.CTransaction) : Z :=
  fold_left (fun v tx =>
    fold_left (fun v js => s64 (s64 (v + Transaction.vpub_old js) - Transaction.vpub_new js))
      (Transaction.vJoinSplit tx) v) txs 0.
Definition sapling_delta (txs : list Transaction.CTransaction) : Z :=
  fold_left (fun v tx => s64 (v + - Transaction.valueBalance tx)) txs 0.

(** [nChainTx] and the pool totals of a block from its parent's *)
Definition link_block (p : nat) s : option (state W) :=
  b ← index s !! p;
  prev ← (match pprev b with None => Some None | Some q => bq ← index s !! q; Some (Some bq) end);
  let chaintx := u32 ((match prev with None => 0 | Some bq => nChainTx bq end) + nTx b) in
  let sprout := match prev with
                | None => nSproutValue b
                | Some bq => match nChainSproutValue bq, nSproutValue b with
                             | Some c, Some v => Some (s64 (c + v))
                             | _, _ => None
                             end
                end in
  let sapling := match prev with
                 | None => Some (nSaplingValue b)
                 | Some bq => match nChainSaplingValue bq with
                              | Some c => Some (s64 (c + nSaplingValue b))
                              | None => None
                              end
                 end in
  sprout ← FallbackSproutValuePoolBalance b sprout;
  let s := set_sequence (set_index s (<[p := set_chain_totals b chaintx sprout sapling (nBlockSequenceId s)]> (index s)))
             (u32 (nBlockSequenceId s + 1)) in
  keep ← (match Tip (chainActive s) with
          | None => Some true
          | Some t => less ← CBlockIndexWorkComparator (index s) p t; Some (negb less)
          end);
  Some (if (keep : bool) then insert_candidate p s else s).

(** [while (!queue.empty())]; the children of a linked block that wait in
    [mapBlocksUnlinked] join the queue. *)
Fixpoint link_queue (fuel : nat) (queue : list nat) s : option (state W) :=
  match queue with
  | [] => Some s
  | p :: queue =>
      match fuel with
      | O => None
      | S fuel =>
          s ← link_block p s;
          let range := filter (fun e => e.1 = Some p) (mapBlocksUnlinked s) in
          let rest := filter (fun e => e.1 <> Some p) (mapBlocksUnlinked s) in
          link_queue fuel (queue ++ range.*2) (set_unlinked s rest)
      end
  end.

Definition ReceivedBlockTransactions (block : Merkle.CBlock) (pindexNew : nat) (pos : CDiskBlockPos) s
  : option (state W) :=
  b ← index s !! pindexNew;
  '(status, _) ← RaiseValidity (Z.lor (nStatus b) BLOCK_HAVE_DATA) BLOCK_VALID_TRANSACTIONS;
  let b := set_received b (u32 (Z.of_nat (length (Merkle.vtx block)))) (sapling_delta (Merkle.vtx block))
             (Some (sprout_delta (Merkle.vtx block))) pos status in
  let s := dirty pindexNew (set_index s (<[pindexNew := b]> (index s))) in
  match pprev b with
  | None => link_queue (S (length (mapBlocksUnlinked s))) [pindexNew] s
  | Some q =>
      bq ← index s !! q;
      if negb (nChainTx bq =? 0) then link_queue (S (length (mapBlocksUnlinked s))) [pindexNew] s
      else
        valid ← IsValid bq BLOCK_VALID_TREE;
        Some (if (valid : bool) then set_unlinked s (mapBlocksUnlinked s ++ [(Some q, pindexNew)]) else s)
  end.


(** ** AcceptBlockHeader, AcceptBlock *)

(** The header and block checks of [BlockCheck], on the parent where they need it,
    and [FindBlockPos] with [WriteBlockToDisk]: the position, or an error. *)
Context (hashGenesisBlock : list Z).
Context (CheckBlockHeader : CBlockHeader -> TxCheck.checker).
Context (ContextualCheckBlockHeader : heap -> option nat -> CBlockHeader -> TxCheck.checker).
Context (CheckBlock : Merkle.CBlock -> TxCheck.checker).
Context (ContextualCheckBlock : heap -> option nat -> Merkle.CBlock -> TxCheck.checker).
Context (store_block : Merkle.CBlock -> Z -> option CDiskBlockPos -> TxCheck.CValidationState -> W ->
  option CDiskBlockPos * TxCheck.CValidationState * W).
Context (fCheckForPruning : W -> bool).

(** [*ppindex] is the second component; it stays unset on most errors. *)
Definition AcceptBlockHeader (block : CBlockHeader) (st : TxCheck.CValidationState) s
  : option (bool * option nat * TxCheck.CValidationState * state W) :=
  let hash := block_GetHash block in
  match mapBlockIndex s !! hash with
  | Some p =>
      b ← index s !! p;
      if has (nStatus b) BLOCK_FAILED_MASK then Some (false, Some p, TxCheck.Invalid st 0 "duplicate", s)
      else Some (true, Some p, st, s)
  | None =>
      '(ok, st) ← CheckBlockHeader block st;
      if negb ok then Some (false, None, st, s)
      else
        let reject level code := Some (inl (TxCheck.DoS st level code "bad-prevblk" false)) in
        prev ← (if bool_decide (hash = hashGenesisBlock) then Some (inr None)
                else match mapBlockIndex s !! hdr_hashPrevBlock block with
                     | None => reject 10 0
                     | Some q =>
                         bq ← index s !! q;
                         if has (nStatus bq) BLOCK_FAILED_MASK then reject 100 TxCheck.REJECT_INVALID
                         else Some (inr (Some q))
                     end);
        match prev with
        | inl st => Some (false, None, st, s)
        | inr pindexPrev =>
            '(ok, st) ← ContextualCheckBlockHeader (index s) pindexPrev block st;
            if negb ok then Some (false, None, st, s)
            else '(p, s) ← AddToBlockIndex block s; Some (true, Some p, st, s)
        end
  end.

Definition MIN_BLOCKS_TO_KEEP : Z := 288.

Definition AcceptBlock (block : Merkle.CBlock) (fRequested : bool) (dbp : option CDiskBlockPos)
    (st : TxCheck.CValidationState) s : option (bool * option nat * TxCheck.CValidationState * state W) :=
  '(ok, pindex, st, s) ← AcceptBlockHeader (Merkle.header block) st s;
  if negb ok then Some (false, pindex, st, s)
  else
    p ← pindex;
    b ← index s !! p;
    let fAlreadyHave := has (nStatus b) BLOCK_HAVE_DATA in
    fHasMoreWork ← (match Tip (chainActive s) with
                    | None => Some true
                    | Some t => bt ← index s !! t; Some (Arith256.op_gt (nChainWork b) (nChainWork bt))
                    end);
    let fTooFarAhead := nHeight b >? Height (chainActive s) + MIN_BLOCKS_TO_KEEP in
    if fAlreadyHave then Some (true, pindex, st, s)
    else if negb fRequested && (negb (nTx b =? 0) || negb fHasMoreWork || fTooFarAhead) then Some (true, pindex, st, s)
    else
      '(ok, st) ← CheckBlock block st;
      '(ok, st) ← (if (ok : bool) then ContextualCheckBlock (index s) (pprev b) block st else Some (false, st));
      if negb ok then
        s ← (if TxCheck.IsInvalid st && negb (TxCheck.corruptionPossible st)
             then s ← mark (fun n => Z.lor n BLOCK_FAILED_VALID) p s; Some (dirty p s) else Some s);
        Some (false, pindex, st, s)
      else
        let '(pos, st, w) := store_block block (nHeight b) dbp st (world s) in
        let s := set_world s w in
        match pos with
        | None => Some (false, pindex, st, s)
        | Some pos =>
            s ← ReceivedBlockTransactions block p pos s;
            if fCheckForPruning (world s) then '(_, st, s) ← flush FLUSH_STATE_NONE st s; Some (true, pindex, st, s)
            else Some (true, pindex, st, s)
        end.

(** [ProcessNewBlock], from the preliminary check on; [requested] is
    [MarkBlockAsReceived(hash) | fForceProcessing].  [mapBlockSource], which only
    tells whom to punish, and the debugging check [CheckBlockIndex] are left out. *)
Definition ProcessNewBlock (block : Merkle.CBlock) (requested : bool) (dbp : option CDiskBlockPos)
    (st : TxCheck.CValidationState) s : option (bool * TxCheck.CValidationState * state W) :=
  '(checked, st) ← CheckBlock block st;
  if negb checked then Some (false, st, s)
  else
    '(ret, _, st, s) ← AcceptBlock block requested dbp st s;
    if negb ret then Some (false, st, s)
    else ActivateBestChain st (Some (block_GetHash (Merkle.header block), block)) s.

End chainstate.
End ChainState.
