(* ===== verification/ChainStateFacts.v ===== *)
(** * The invariant of chain selection and the choice of the best candidate

    [state_ok] is the invariant of the block index, the active chain and the
    candidates; [valid_chain] says that a block and all its ancestors have data
    and are not marked failed; [entry_le] is how an index entry may change while
    chains are tried.  The comparator is a strict total order, the walk of
    [FindMostWorkChain] finds the best candidate with a valid chain and drops
    only candidates without one. *)

From stdpp Require Import base list list_numbers numbers option gmap strings fin_sets.
From Stdlib Require Import ZArith Lia.
From S2P Require Import Prelude Bytes ArithUint256 Params Chain ChainFacts Pow Transaction Merkle TxCheck ChainState.
Import BlockIndex ChainFacts ChainState.
#[local] Open Scope Z_scope.

Module ChainStateFacts.

Abbreviation heap := (gmap nat CBlockIndex) (only parsing).

(** ** Status bits *)

Definition failed (b : CBlockIndex) : bool := has (nStatus b) BLOCK_FAILED_MASK.
Definition have_data (b : CBlockIndex) : bool := has (nStatus b) BLOCK_HAVE_DATA.
Definition level (b : CBlockIndex) : Z := Z.land (nStatus b) BLOCK_VALID_MASK.
Definition good (b : CBlockIndex) : Prop := failed b = false /\ have_data b = true.

Definition valid_chain (m : heap) (p : nat) : Prop :=
  forall q b, is_ancestor m q p -> m !! q = Some b -> good b.

(** What never changes in an entry while chains are tried, and what only gets worse. *)
Record entry_le (b b' : CBlockIndex) : Prop := {
  le_hash : phashBlock b' = phashBlock b;
  le_prev : pprev b' = pprev b;
  le_skip : pskip b' = pskip b;
  le_height : nHeight b' = nHeight b;
  le_work : nChainWork b' = nChainWork b;
  le_bits : nBits b' = nBits b;
  le_tx : nTx b' = nTx b;
  le_chaintx : nChainTx b' = nChainTx b;
  le_sequence : nSequenceId b' = nSequenceId b;
  le_pools : (nSproutValue b', nChainSproutValue b', nSaplingValue b', nChainSaplingValue b')
             = (nSproutValue b, nChainSproutValue b, nSaplingValue b, nChainSaplingValue b);
  le_failed : failed b = true -> failed b' = true;
  le_data : have_data b' = have_data b;
  le_level : level b <= level b'
}.

Definition heap_le (m m' : heap) : Prop := forall p, option_Forall2 entry_le (m !! p) (m' !! p).

#[global] Instance entry_le_pre : PreOrder entry_le.
Proof.
  split; [by intros b; split|].
  intros a b c [] []. split; try congruence; [auto|lia].
Qed.

#[global] Instance heap_le_pre : PreOrder heap_le.
Proof.
  split.
  - intros m p. destruct (m !! p); by constructor.
  - intros m1 m2 m3 H1 H2 p. specialize (H1 p). specialize (H2 p).
    inversion H1; subst; inversion H2; subst; try congruence; constructor.
    etransitivity; [done|]. by replace y with x0 by congruence.
Qed.

Lemma heap_le_fwd m m' p b : heap_le m m' -> m !! p = Some b -> exists b', m' !! p = Some b' /\ entry_le b b'.
Proof. intros H Hp. specialize (H p). rewrite Hp in H. inversion H; subst. eauto. Qed.
Lemma heap_le_bwd m m' p b' : heap_le m m' -> m' !! p = Some b' -> exists b, m !! p = Some b /\ entry_le b b'.
Proof. intros H Hp. specialize (H p). rewrite Hp in H. inversion H; subst. eauto. Qed.

Lemma heap_le_insert (m : heap) p b b' : m !! p = Some b -> entry_le b b' -> heap_le m (<[p := b']> m).
Proof.
  intros Hp Hle q. destruct (decide (p = q)) as [<-|Hn].
  - rewrite Hp, lookup_insert_eq. by constructor.
  - rewrite lookup_insert_ne by done. destruct (m !! q); by constructor.
Qed.

Lemma heap_le_back m m' n p : heap_le m m' -> back n m' p = back n m p.
Proof.
  intros H. apply back_ext. intros q. specialize (H q). inversion H as [x y Hle|]; simpl; [|done].
  by rewrite (le_prev _ _ Hle).
Qed.

Lemma heap_le_ancestor m m' q p : heap_le m m' -> is_ancestor m' q p <-> is_ancestor m q p.
Proof. intros H. unfold is_ancestor. by setoid_rewrite (heap_le_back _ _ _ _ H). Qed.

Lemma heap_le_tree m m' : heap_le m m' -> tree_ok m -> tree_ok m'.
Proof.
  intros H Ht p b' Hp. destruct (heap_le_bwd _ _ _ _ H Hp) as (b & Hb & Hle).
  destruct (Ht p b Hb) as [H1 H2 H3 H4]. split.
  - rewrite (le_height _ _ Hle). done.
  - rewrite (le_height _ _ Hle), (le_prev _ _ Hle). done.
  - intros q Hq. rewrite (le_prev _ _ Hle) in Hq. destruct (H3 q Hq) as (bq & Hbq & Hh).
    destruct (heap_le_fwd _ _ _ _ H Hbq) as (bq' & Hbq' & Hle'). exists bq'. split; [done|].
    by rewrite (le_height _ _ Hle), (le_height _ _ Hle').
  - intros q Hq. rewrite (le_skip _ _ Hle) in Hq. destruct (H4 q Hq) as [H0 Hb'].
    rewrite (le_height _ _ Hle). split; [done|]. by rewrite (heap_le_back _ _ _ _ H).
Qed.

Lemma heap_le_chain_for m m' c p b b' :
  heap_le m m' -> m' !! p = Some b' -> entry_le b b' -> chain_for m c p b -> chain_for m' c p b'.
Proof.
  intros H Hp Hle (H1 & H2 & H3). split; [done|]. rewrite (le_height _ _ Hle). split; [done|].
  intros i Hi. rewrite (heap_le_back _ _ _ _ H). by apply H3.
Qed.

Lemma good_bwd b b' : entry_le b b' -> good b' -> good b.
Proof.
  intros Hle [H1 H2]. split; [|by rewrite <- (le_data _ _ Hle)].
  destruct (failed b) eqn:E; [|done]. rewrite (le_failed _ _ Hle E) in H1. done.
Qed.

Lemma valid_chain_bwd m m' p : heap_le m m' -> valid_chain m' p -> valid_chain m p.
Proof.
  intros H Hv q b Ha Hq. destruct (heap_le_fwd _ _ _ _ H Hq) as (b' & Hb' & Hle).
  apply (good_bwd _ _ Hle), (Hv q); [by apply (heap_le_ancestor _ _ _ _ H)|done].
Qed.

Lemma valid_chain_ancestor m p q : valid_chain m p -> is_ancestor m q p -> valid_chain m q.
Proof.
  intros Hv [n Hn] r b [k Hk]. apply Hv. exists (n + k)%nat. by rewrite back_add, Hn.
Qed.

(** ** The comparator *)

(** More work first, then the earlier sequence number, then the lower address. *)
Definition worse (m : heap) (p q : nat) : Prop :=
  exists a b, m !! p = Some a /\ m !! q = Some b /\
    (Arith256.val (nChainWork a) < Arith256.val (nChainWork b) \/
     Arith256.val (nChainWork a) = Arith256.val (nChainWork b) /\
     (nSequenceId b < nSequenceId a \/ nSequenceId a = nSequenceId b /\ (q < p)%nat)).

Definition works_wf (m : heap) : Prop := forall p b, m !! p = Some b -> Arith256.wf (nChainWork b).

Lemma op_lt_val a b : Arith256.wf a -> Arith256.wf b ->
  Arith256.op_lt a b = (Arith256.val a <? Arith256.val b).
Proof.
  intros Ha Hb. unfold Arith256.op_lt. rewrite Arith256.CompareTo_val by done.
  destruct (Z.compare_spec (Arith256.val a) (Arith256.val b)); simpl; symmetry; rewrite ?Z.ltb_lt, ?Z.ltb_ge; lia.
Qed.

Lemma comparator_spec m p q a b : works_wf m -> m !! p = Some a -> m !! q = Some b ->
  exists r, CBlockIndexWorkComparator m p q = Some r /\ (r = true <-> worse m p q).
Proof.
  intros Hw Ha Hb. unfold CBlockIndexWorkComparator. rewrite Ha, Hb. monad. eexists. split; [reflexivity|].
  rewrite Arith256.op_gt_val, op_lt_val by (eapply Hw; eassumption). unfold worse.
  setoid_rewrite Ha. setoid_rewrite Hb.
  assert (forall (P : CBlockIndex -> CBlockIndex -> Prop),
    (exists a0 b0, Some a = Some a0 /\ Some b = Some b0 /\ P a0 b0) <-> P a b) as E by naive_solver.
  rewrite E. rewrite Z.gtb_ltb.
  destruct (Z.ltb_spec (Arith256.val (nChainWork b)) (Arith256.val (nChainWork a))); [split; [done|lia]|].
  destruct (Z.ltb_spec (Arith256.val (nChainWork a)) (Arith256.val (nChainWork b))); [split; [lia|done]|].
  destruct (Z.ltb_spec (nSequenceId a) (nSequenceId b)); [split; [done|lia]|].
  destruct (Z.ltb_spec (nSequenceId b) (nSequenceId a)); [split; [lia|done]|].
  destruct (Nat.ltb_spec p q); [split; [done|lia]|].
  destruct (Nat.ltb_spec q p); split; try done; lia.
Qed.

Lemma worse_irrefl m p : ~ worse m p p.
Proof. intros (a & b & Ha & Hb & H). replace b with a in * by congruence. lia. Qed.
Lemma worse_trans m p q r : worse m p q -> worse m q r -> worse m p r.
Proof.
  intros (a & b & Ha & Hb & H1) (b' & c & Hb' & Hc & H2). replace b' with b in * by congruence.
  exists a, c. split_and!; [done..|lia].
Qed.
Lemma worse_total m p q : is_Some (m !! p) -> is_Some (m !! q) -> p <> q -> worse m p q \/ worse m q p.
Proof.
  intros [a Ha] [b Hb] Hn.
  assert (Arith256.val (nChainWork a) < Arith256.val (nChainWork b) \/
     Arith256.val (nChainWork a) = Arith256.val (nChainWork b) /\
     (nSequenceId b < nSequenceId a \/ nSequenceId a = nSequenceId b /\ (q < p)%nat) \/
     Arith256.val (nChainWork b) < Arith256.val (nChainWork a) \/
     Arith256.val (nChainWork a) = Arith256.val (nChainWork b) /\
     (nSequenceId a < nSequenceId b \/ nSequenceId a = nSequenceId b /\ (p < q)%nat)) as H by lia.
  destruct H as [H|[H|[H|H]]]; [left|left|right|right]; do 2 eexists; split_and!; try done; lia.
Qed.
(** [~ worse] is the reflexive order of the other direction. *)
Lemma not_worse_trans m p q r : is_Some (m !! q) -> ~ worse m p q -> ~ worse m q r -> ~ worse m p r.
Proof.
  intros Hq H1 H2 H3. destruct (decide (p = q)) as [->|Hn]; [done|].
  assert (is_Some (m !! p)) as Hp by (destruct H3 as (a & b & Ha & _); by exists a).
  destruct (worse_total m p q Hp Hq Hn) as [H|H]; [done|]. apply H2. by eapply worse_trans.
Qed.
Lemma worse_heap_le m m' p q : heap_le m m' -> worse m' p q <-> worse m p q.
Proof.
  intros H. split.
  - intros (a' & b' & Ha & Hb & Hc).
    destruct (heap_le_bwd _ _ _ _ H Ha) as (a & ? & []), (heap_le_bwd _ _ _ _ H Hb) as (b & ? & []).
    exists a, b. by rewrite <- !le_work0, <- !le_work1, <- !le_sequence0, <- !le_sequence1.
  - intros (a & b & Ha & Hb & Hc).
    destruct (heap_le_fwd _ _ _ _ H Ha) as (a' & ? & []), (heap_le_fwd _ _ _ _ H Hb) as (b' & ? & []).
    exists a', b'. by rewrite !le_work0, !le_work1, !le_sequence0, !le_sequence1.
Qed.

#[global] Instance worse_dec m p q : Decision (worse m p q).
Proof.
  destruct (m !! p) as [a|] eqn:Ha; [|right; intros (a & b & ? & _); congruence].
  destruct (m !! q) as [b|] eqn:Hb; [|right; intros (a' & b & _ & ? & _); congruence].
  destruct (decide (Arith256.val (nChainWork a) < Arith256.val (nChainWork b) \/
     Arith256.val (nChainWork a) = Arith256.val (nChainWork b) /\
     (nSequenceId b < nSequenceId a \/ nSequenceId a = nSequenceId b /\ (q < p)%nat))) as [H|H].
  - left. by exists a, b.
  - right. intros (a' & b' & Ha' & Hb' & H'). apply H. by replace a with a' by congruence; replace b with b' by congruence.
Defined.

(** ** First and last element of the candidates *)

Lemma last_of_spec m p l : works_wf m -> (forall q, q ∈ p :: l -> is_Some (m !! q)) ->
  exists r, last_of m p l = Some r /\ r ∈ p :: l /\ forall q, q ∈ p :: l -> ~ worse m r q.
Proof.
  intros Hw. revert p. induction l as [|q l IH]; intros p Hm; simpl.
  { exists p. split_and!; [done|set_solver|]. intros q Hq. replace q with p by set_solver. apply worse_irrefl. }
  destruct (Hm p) as [a Ha]; [set_solver|]. destruct (Hm q) as [b Hb]; [set_solver|].
  destruct (comparator_spec m p q a b Hw Ha Hb) as (lt & -> & Hlt). simpl.
  destruct (IH (if lt then q else p)) as (r & -> & Hr & Hmax); [destruct lt; set_solver|].
  exists r. split_and!; [done|destruct lt; set_solver|].
  assert (is_Some (m !! (if lt then q else p))) as Hs by (destruct lt; eauto).
  intros x Hx. destruct (decide (x ∈ (if lt then q else p) :: l)) as [Hi|Hi]; [by apply Hmax|].
  apply (not_worse_trans m r (if lt then q else p) x Hs); [apply Hmax; set_solver|]. destruct lt.
  - replace x with p by set_solver. intros H. apply (worse_irrefl m p). eapply worse_trans; [|done]. by apply Hlt.
  - replace x with q by set_solver. intros H. by apply Hlt in H.
Qed.

Lemma first_of_spec m p l : works_wf m -> (forall q, q ∈ p :: l -> is_Some (m !! q)) ->
  exists r, first_of m p l = Some r /\ r ∈ p :: l /\ forall q, q ∈ p :: l -> ~ worse m q r.
Proof.
  intros Hw. revert p. induction l as [|q l IH]; intros p Hm; simpl.
  { exists p. split_and!; [done|set_solver|]. intros q Hq. replace q with p by set_solver. apply worse_irrefl. }
  destruct (Hm p) as [a Ha]; [set_solver|]. destruct (Hm q) as [b Hb]; [set_solver|].
  destruct (comparator_spec m q p b a Hw Hb Ha) as (lt & -> & Hlt). simpl.
  destruct (IH (if lt then q else p)) as (r & -> & Hr & Hmin); [destruct lt; set_solver|].
  exists r. split_and!; [done|destruct lt; set_solver|].
  assert (is_Some (m !! (if lt then q else p))) as Hs by (destruct lt; eauto).
  intros x Hx. destruct (decide (x ∈ (if lt then q else p) :: l)) as [Hi|Hi]; [by apply Hmin|].
  apply (not_worse_trans m x (if lt then q else p) r Hs); [|apply Hmin; set_solver]. destruct lt.
  - replace x with p by set_solver. intros H. apply (worse_irrefl m p). eapply worse_trans; [done|]. by apply Hlt.
  - replace x with q by set_solver. intros H. by apply Hlt in H.
Qed.

Lemma rbegin_spec m c : works_wf m -> (forall q, q ∈ c -> is_Some (m !! q)) ->
  exists r, rbegin m c = Some r /\
    match r with None => c = ∅ | Some p => p ∈ c /\ forall q, q ∈ c -> ~ worse m p q end.
Proof.
  intros Hw Hc. unfold rbegin. destruct (elements c) as [|p l] eqn:E.
  { exists None. split; [done|]. apply leibniz_equiv. by apply elements_empty_iff. }
  destruct (last_of_spec m p l Hw) as (r & -> & Hr & Hmax); [intros q Hq; apply Hc, elem_of_elements; by rewrite E|].
  exists (Some r). rewrite <- E in Hr, Hmax. split_and!; [done|by apply elem_of_elements|].
  intros q Hq. apply Hmax. by apply elem_of_elements.
Qed.

Lemma begin_spec m c : works_wf m -> (forall q, q ∈ c -> is_Some (m !! q)) ->
  exists r, begin m c = Some r /\
    match r with None => c = ∅ | Some p => p ∈ c /\ forall q, q ∈ c -> ~ worse m q p end.
Proof.
  intros Hw Hc. unfold begin. destruct (elements c) as [|p l] eqn:E.
  { exists None. split; [done|]. apply leibniz_equiv. by apply elements_empty_iff. }
  destruct (first_of_spec m p l Hw) as (r & -> & Hr & Hmin); [intros q Hq; apply Hc, elem_of_elements; by rewrite E|].
  exists (Some r). rewrite <- E in Hr, Hmin. split_and!; [done|by apply elem_of_elements|].
  intros q Hq. apply Hmin. by apply elem_of_elements.
Qed.

(** ** The invariant *)

Record index_ok (m : heap) : Prop := {
  io_tree : tree_ok m;
  io_work : works_wf m;
  io_bits : forall p b, m !! p = Some b -> is_u32 (nBits b);
  io_grows : forall p b q bq, m !! p = Some b -> pprev b = Some q -> m !! q = Some bq ->
    Arith256.val (nChainWork bq) < Arith256.val (nChainWork b);
  io_root : forall p b q bq, m !! p = Some b -> pprev b = None -> m !! q = Some bq -> pprev bq = None -> p = q;
  io_linked : forall p b q bq, m !! p = Some b -> nChainTx b <> 0 -> pprev b = Some q -> m !! q = Some bq ->
    nChainTx bq <> 0;
  io_level : forall p b, m !! p = Some b -> nChainTx b <> 0 -> BLOCK_VALID_TRANSACTIONS <= level b
}.

Lemma heap_le_index m m' : heap_le m m' -> index_ok m -> index_ok m'.
Proof.
  intros H [H1 H2 H3 H4 H5 H6 H7]. split.
  - by eapply heap_le_tree.
  - intros p b' Hp. destruct (heap_le_bwd _ _ _ _ H Hp) as (b & Hb & []). rewrite le_work0. eauto.
  - intros p b' Hp. destruct (heap_le_bwd _ _ _ _ H Hp) as (b & Hb & []). rewrite le_bits0. eauto.
  - intros p b' q bq' Hp Hpr Hq.
    destruct (heap_le_bwd _ _ _ _ H Hp) as (b & Hb & []), (heap_le_bwd _ _ _ _ H Hq) as (bq & Hbq & []).
    rewrite le_work0, le_work1. rewrite le_prev0 in Hpr. eauto.
  - intros p b' q bq' Hp Hpr Hq Hqr.
    destruct (heap_le_bwd _ _ _ _ H Hp) as (b & Hb & []), (heap_le_bwd _ _ _ _ H Hq) as (bq & Hbq & []).
    rewrite le_prev0 in Hpr. rewrite le_prev1 in Hqr. eauto.
  - intros p b' q bq' Hp Hc Hpr Hq.
    destruct (heap_le_bwd _ _ _ _ H Hp) as (b & Hb & []), (heap_le_bwd _ _ _ _ H Hq) as (bq & Hbq & []).
    rewrite le_prev0 in Hpr. rewrite le_chaintx0 in Hc. rewrite le_chaintx1. eauto.
  - intros p b' Hp Hc. destruct (heap_le_bwd _ _ _ _ H Hp) as (b & Hb & []). rewrite le_chaintx0 in Hc.
    specialize (H7 p b Hb Hc). lia.
Qed.

Lemma ancestor_chaintx m p b q bq : index_ok m -> m !! p = Some b -> nChainTx b <> 0 ->
  is_ancestor m q p -> m !! q = Some bq -> nChainTx bq <> 0.
Proof.
  intros Hi Hp Hc [n Hn] Hq. revert p b Hp Hc Hn. induction n as [|n IH]; intros p b Hp Hc Hn; simpl in Hn.
  { injection Hn as <-. congruence. }
  rewrite Hp in Hn. simpl in Hn. destruct (pprev b) as [r|] eqn:Hr; [|done]. simpl in Hn.
  destruct (node_prev _ _ _ (io_tree _ Hi _ _ Hp) _ Hr) as (br & Hbr & _).
  apply (IH r br Hbr); [|done]. by eapply (io_linked _ Hi p b r br).
Qed.

Lemma back_work m n p b q bq : index_ok m -> m !! p = Some b -> back n m p = Some q -> m !! q = Some bq ->
  Arith256.val (nChainWork bq) + Z.of_nat n <= Arith256.val (nChainWork b).
Proof.
  intros Hi. revert p b. induction n as [|n IH]; intros p b Hp Hn Hq; simpl in Hn.
  { injection Hn as <-. replace bq with b by congruence. lia. }
  rewrite Hp in Hn. simpl in Hn. destruct (pprev b) as [r|] eqn:Hr; [|done]. simpl in Hn.
  destruct (node_prev _ _ _ (io_tree _ Hi _ _ Hp) _ Hr) as (br & Hbr & _).
  pose proof (IH r br Hbr Hn Hq). pose proof (io_grows _ Hi p b r br Hp Hr Hbr). lia.
Qed.

(** A descendant is never worse than its ancestor. *)
Lemma ancestor_not_better m p q b : index_ok m -> m !! p = Some b -> is_ancestor m q p -> ~ worse m p q.
Proof.
  intros Hi Hp [n Hn] (a & bq & Ha & Hq & H). replace a with b in * by congruence.
  pose proof (back_work m n p b q bq Hi Hp Hn Hq). destruct n; [|lia].
  simpl in Hn. injection Hn as ->. replace bq with b in * by congruence. lia.
Qed.

Lemma ancestor_refl m p : is_ancestor m p p.
Proof. by exists O. Qed.
Lemma ancestor_trans m p q r : is_ancestor m r q -> is_ancestor m q p -> is_ancestor m r p.
Proof. intros [k Hk] [n Hn]. exists (n + k)%nat. by rewrite back_add, Hn. Qed.

Lemma chain_in_ancestor m c t bt q : chain_for m c t bt -> in_chain c q -> is_ancestor m q t.
Proof.
  intros (H1 & H2 & H3) [i Hi]. assert (i < length c)%nat as Hl by (by eapply lookup_lt_Some).
  rewrite H3 in Hi by done. injection Hi as Hi. by eexists.
Qed.
Lemma ancestor_in_chain m c t bt q : tree_ok m -> chain_for m c t bt -> is_ancestor m q t -> in_chain c q.
Proof.
  intros Ht (H1 & H2 & H3) [n Hn]. destruct (back_mapped m Ht n t bt q H1 Hn) as [bq Hbq].
  pose proof (back_height m Ht n t bt q bq H1 Hn Hbq) as Hh.
  pose proof (node_height _ _ _ (Ht _ _ Hbq)). exists (length c - 1 - n)%nat. rewrite H3 by lia.
  by replace (length c - 1 - (length c - 1 - n))%nat with n by lia; rewrite Hn.
Qed.
Lemma chain_down m c t bt q r : tree_ok m -> chain_for m c t bt -> in_chain c q -> is_ancestor m r q -> in_chain c r.
Proof.
  intros Ht Hc Hq Hr. eapply ancestor_in_chain; [done..|]. eapply ancestor_trans; [done|].
  by eapply chain_in_ancestor.
Qed.
Lemma chain_tip m c t bt : tree_ok m -> chain_for m c t bt -> Tip c = Some t.
Proof.
  intros Ht (H1 & H2 & H3). pose proof (node_height _ _ _ (Ht _ _ H1)). unfold Tip.
  rewrite last_lookup. replace (pred (length c)) with (length c - 1)%nat by lia. rewrite H3 by lia.
  by replace (length c - 1 - (length c - 1))%nat with O by lia.
Qed.

Lemma size_mem_pos (c : gset nat) p : p ∈ c -> (0 < size c)%nat.
Proof. intros Hp. destruct (decide (size c = 0)%nat) as [E|]; [|lia]. apply size_empty_inv in E. set_solver. Qed.

(** ** Pruning the candidates *)

Lemma prune_loop_spec fuel m t : works_wf m -> is_Some (m !! t) -> forall c,
  (forall q, q ∈ c -> is_Some (m !! q)) -> (size c <= fuel)%nat ->
  exists c', prune_loop fuel m (Some t) c = Some c' /\ forall q, q ∈ c' <-> q ∈ c /\ ~ worse m q t.
Proof.
  intros Hw Ht. induction fuel as [|fuel IH]; intros c Hc Hf; cbn [prune_loop];
    destruct (begin_spec m c Hw Hc) as (r & -> & Hr); monad;
    (destruct r as [p|]; [destruct Hr as [Hp Hmin]|subst c; exists ∅; split; [done|set_solver]]).
  { apply size_mem_pos in Hp. lia. }
  destruct (Hc p Hp) as [a Ha], Ht as [bt Ht].
  destruct (comparator_spec m p t a bt Hw Ha Ht) as (lt & -> & Hlt). monad. destruct lt.
  - destruct (IH (c ∖ {[p]})) as (c' & -> & Hc').
    + intros q Hq. apply Hc. set_solver.
    + rewrite size_difference by set_solver. rewrite size_singleton. lia.
    + exists c'. split; [done|]. intros q. rewrite Hc', elem_of_difference, elem_of_singleton. split; [tauto|].
      intros [Hq Hn]. split_and!; [done| |done]. intros ->. apply Hn. by apply Hlt.
  - exists c. split; [done|]. intros q. split; [|tauto]. intros Hq. split; [done|].
    apply (not_worse_trans m q p t); [eauto|by apply Hmin|]. intros H. by apply Hlt in H.
Qed.

Section facts.
Context {W : Type} `{!ChainClient W} (params : Consensus.Params).
Implicit Types s : state W.

(** [cv] is the set of blocks that pass validation on top of their parents. *)
Context (cv : nat -> Prop).

Record state_ok s : Prop := {
  so_index : index_ok (index s);
  so_chain : exists t bt, chain_for (index s) (chainActive s) t bt;
  so_active : forall q b, in_chain (chainActive s) q -> index s !! q = Some b -> good b /\ nChainTx b <> 0 /\ cv q;
  so_candidates : forall p, p ∈ setBlockIndexCandidates s -> exists b, index s !! p = Some b /\ nChainTx b <> 0;
  so_invalid : forall p, pindexBestInvalid s = Some p -> is_Some (index s !! p);
  so_fork : forall p, pindexBestForkTip (warning s) = Some p -> is_Some (index s !! p)
}.

Lemma so_tree s : state_ok s -> tree_ok (index s).
Proof. intros H. apply H. Qed.
Lemma so_chain_ok s : state_ok s -> chain_ok (index s) (chainActive s).
Proof. intros H. right. apply H. Qed.
Lemma so_mapped s p : state_ok s -> p ∈ setBlockIndexCandidates s -> is_Some (index s !! p).
Proof. intros H Hp. destruct (so_candidates s H p Hp) as (b & Hb & _). eauto. Qed.

Lemma Contains_spec s p b : state_ok s -> index s !! p = Some b ->
  exists r, Contains (index s) (chainActive s) p = Some r /\ (r = true <-> in_chain (chainActive s) p).
Proof.
  intros H Hp. destruct (Contains_in_chain _ (so_tree s H) _ p b (so_chain_ok s H) Hp) as [-> Hi].
  eexists. split; [done|]. by rewrite bool_decide_eq_true.
Qed.

(** A change that keeps the active chain and its entries good. *)
Lemma state_ok_le s s' :
  state_ok s -> heap_le (index s) (index s') -> chainActive s' = chainActive s ->
  setBlockIndexCandidates s' ⊆ setBlockIndexCandidates s ->
  (forall q b, in_chain (chainActive s) q -> index s' !! q = Some b -> good b) ->
  (forall p, pindexBestInvalid s' = Some p -> is_Some (index s' !! p)) ->
  (forall p, pindexBestForkTip (warning s') = Some p -> is_Some (index s' !! p)) ->
  state_ok s'.
Proof.
  intros [H1 H2 H3 H4 H5 H6] Hle Hc Hs Hg Hi Hf. split; [|rewrite Hc|rewrite Hc| | |].
  - by eapply heap_le_index.
  - destruct H2 as (t & bt & Ht). destruct (heap_le_fwd _ _ _ _ Hle (proj1 Ht)) as (bt' & Hbt' & Hl).
    exists t, bt'. by eapply heap_le_chain_for.
  - intros q b' Hq Hb'. destruct (heap_le_bwd _ _ _ _ Hle Hb') as (b & Hb & Hl).
    destruct (H3 q b Hq Hb) as (_ & Hn & Hv). split_and!; [by eapply Hg| |done]. by rewrite (le_chaintx _ _ Hl).
  - intros p Hp. apply Hs in Hp. destruct (H4 p Hp) as (b & Hb & Hn).
    destruct (heap_le_fwd _ _ _ _ Hle Hb) as (b' & Hb' & Hl). exists b'. split; [done|].
    by rewrite (le_chaintx _ _ Hl).
  - done.
  - done.
Qed.

(** ** Marking a block that has no valid chain *)

Lemma has_lor status mask bits : has status mask = true -> has (Z.lor status bits) mask = true.
Proof.
  unfold has. rewrite !negb_true_iff, !Z.eqb_neq. intros H H0. apply H.
  rewrite Z.land_lor_distr_l in H0. by apply Z.lor_eq_0_iff in H0 as [H0 _].
Qed.
Lemma has_lor_other status mask bits : Z.land bits mask = 0 -> has (Z.lor status bits) mask = has status mask.
Proof. intros H. unfold has. by rewrite Z.land_lor_distr_l, H, Z.lor_0_r. Qed.

Lemma mark_failed_le b bits : bits = BLOCK_FAILED_VALID \/ bits = BLOCK_FAILED_CHILD ->
  entry_le b (set_status b (Z.lor (nStatus b) bits)) /\ failed (set_status b (Z.lor (nStatus b) bits)) = true.
Proof.
  intros Hb. assert (Z.land bits BLOCK_HAVE_DATA = 0 /\ Z.land bits BLOCK_VALID_MASK = 0
    /\ Z.land bits BLOCK_FAILED_MASK = bits /\ bits <> 0) as (H1 & H2 & H3 & H4) by (destruct Hb as [-> | ->]; done).
  split; [split; try done|].
  - unfold failed. simpl. apply has_lor.
  - unfold have_data. simpl. by apply has_lor_other.
  - unfold level. simpl. rewrite Z.land_lor_distr_l, H2, Z.lor_0_r. lia.
  - unfold failed, has. simpl. rewrite Z.land_lor_distr_l, H3. apply negb_true_iff, Z.eqb_neq.
    intros H. by apply Z.lor_eq_0_iff in H as [_ H].
Qed.

(** Entries below a bad block may get worse without changing any valid chain. *)
Lemma valid_chain_same (m m' : heap) x :
  heap_le m m' ->
  (forall p b b', m !! p = Some b -> m' !! p = Some b' -> b' = b \/ ~ valid_chain m p) ->
  valid_chain m' x <-> valid_chain m x.
Proof.
  intros Hle Hch. split; [by apply valid_chain_bwd|]. intros Hv q b' Ha Hq.
  apply (heap_le_ancestor _ _ _ _ Hle) in Ha. destruct (heap_le_bwd _ _ _ _ Hle Hq) as (b & Hb & _).
  destruct (Hch q b b' Hb Hq) as [->|Hn]; [by eapply Hv|]. destruct Hn. by eapply valid_chain_ancestor.
Qed.

(** Every linked block has its data, as long as no block file is pruned. *)
Definition linked_data (m : heap) : Prop := forall p b, m !! p = Some b -> nChainTx b <> 0 -> have_data b = true.

Lemma linked_data_le m m' : heap_le m m' -> linked_data m -> linked_data m'.
Proof.
  intros Hl H p b' Hp Hc. destruct (heap_le_bwd _ _ _ _ Hl Hp) as (b & Hb & Hle).
  rewrite (le_data _ _ Hle). rewrite (le_chaintx _ _ Hle) in Hc. eauto.
Qed.

(** What a search for the best chain may do to the state. *)
Record search_le s s' : Prop := {
  sl_heap : heap_le (index s) (index s');
  sl_entry : forall p b b', index s !! p = Some b -> index s' !! p = Some b' -> b' = b \/ ~ valid_chain (index s) p;
  sl_chain : chainActive s' = chainActive s;
  sl_candidates : setBlockIndexCandidates s' ⊆ setBlockIndexCandidates s;
  sl_erased : forall p, p ∈ setBlockIndexCandidates s -> p ∉ setBlockIndexCandidates s' -> ~ valid_chain (index s) p;
  sl_world : world s' = world s;
  sl_warning : warning s' = warning s;
  sl_known : mapBlockIndex s' = mapBlockIndex s;
  sl_header : pindexBestHeader s' = pindexBestHeader s;
  sl_unlinked : linked_data (index s) -> mapBlocksUnlinked s' = mapBlocksUnlinked s
}.

Lemma search_valid s s' x : search_le s s' -> valid_chain (index s') x <-> valid_chain (index s) x.
Proof. intros H. apply valid_chain_same; apply H. Qed.

Lemma search_refl s : search_le s s.
Proof. split; try done. intros p b b' H1 H2. left. congruence. Qed.
Lemma search_trans s1 s2 s3 : search_le s1 s2 -> search_le s2 s3 -> search_le s1 s3.
Proof.
  intros H12 H23. pose proof H12 as [A1 A2 A3 A4 A5 A6 A7 A8 A8b A9]. pose proof H23 as [B1 B2 B3 B4 B5 B6 B7 B8 B8b B9].
  split; try congruence; [by etransitivity| |set_solver| |].
  - intros p b b'' H1 H3. destruct (heap_le_fwd _ _ _ _ A1 H1) as (b' & H2 & _).
    destruct (A2 p b b' H1 H2) as [->|Hn]; [|by right].
    destruct (B2 p b b'' H2 H3) as [->|Hn]; [by left|right]. by rewrite <- (search_valid _ _ p H12).
  - intros p H1 H3. destruct (decide (p ∈ setBlockIndexCandidates s2)) as [H2|H2]; [|by apply A5].
    rewrite <- (search_valid _ _ p H12). by apply B5.
  - intros Hd. rewrite B9 by (by eapply linked_data_le). by apply A9.
Qed.

Lemma search_ok s s' : state_ok s -> search_le s s' ->
  (forall p, pindexBestInvalid s' = Some p -> is_Some (index s' !! p)) -> state_ok s'.
Proof.
  intros Hs Hl Hi. pose proof Hl as [A1 A2 A3 A4 A5 A6 A7 A8 _]. apply (state_ok_le s s'); try done.
  - intros q b' Hq Hb'. destruct (heap_le_bwd _ _ _ _ A1 Hb') as (b & Hb & _).
    destruct (A2 q b b' Hb Hb') as [->|Hn]; [by eapply so_active|]. destruct Hn.
    intros r br Ha Hr. destruct (so_chain s Hs) as (t & bt & Ht).
    apply (so_active s Hs r); [|done]. by eapply (chain_down _ _ _ _ q); [apply so_tree|..].
  - intros p. rewrite A7. intros Hp. destruct (so_fork s Hs p Hp) as [b Hb].
    destruct (heap_le_fwd _ _ _ _ A1 Hb) as (b' & Hb' & _). eauto.
Qed.

(** ** The walk of FindMostWorkChain *)

Lemma scan_spec s fuel p b : state_ok s -> index s !! p = Some b -> nChainTx b <> 0 ->
  (Z.to_nat (nHeight b) < fuel)%nat ->
  exists r, scan fuel (index s) (chainActive s) (Some p) = Some r /\
    match r with
    | None => valid_chain (index s) p
    | Some (q, f) => exists bq n, index s !! q = Some bq /\ back n (index s) p = Some q /\
        f = failed bq /\ ~ good bq /\ (n <= Z.to_nat (nHeight b))%nat
    end.
Proof.
  intros Hs. revert p b. induction fuel as [|fuel IH]; intros p b Hp Hc Hf; [lia|]. cbn [scan]. rewrite Hp. monad.
  destruct (Contains_spec s p b Hs Hp) as (inside & -> & Hin). monad. destruct inside.
  { exists None. split; [done|]. destruct (so_chain s Hs) as (t & bt & Ht). intros q bq Ha Hq.
    apply (so_active s Hs q); [|done]. eapply (chain_down _ _ _ _ p); [by apply so_tree|done|by apply Hin|done]. }
  rewrite (proj2 (Z.eqb_neq _ _) Hc). cbn [andb].
  destruct (has (nStatus b) BLOCK_FAILED_MASK || negb (has (nStatus b) BLOCK_HAVE_DATA)) eqn:Hbad.
  { exists (Some (p, has (nStatus b) BLOCK_FAILED_MASK)). split; [done|]. exists b, O. split_and!; try done; [|lia].
    intros [H1 H2]. unfold failed, have_data in *. rewrite H1, H2 in Hbad. done. }
  apply orb_false_iff in Hbad as [H1 H2]. apply negb_false_iff in H2.
  destruct (pprev b) as [q|] eqn:Hq.
  - destruct (node_prev _ _ _ (so_tree s Hs _ _ Hp) _ Hq) as (bq & Hbq & Hh).
    pose proof (node_height _ _ _ (so_tree s Hs _ _ Hbq)).
    destruct (IH q bq Hbq) as (r & -> & Hr); [by eapply (io_linked _ (so_index s Hs) p b)|lia|].
    exists r. split; [done|]. destruct r as [[x f]|].
    + destruct Hr as (bx & n & Hx & Hn & Hfx & Hg & Hl). exists bx, (S n). split_and!; try done; [|lia].
      cbn [back]. rewrite Hp. monad. rewrite Hq. done.
    + intros x bx [n Hn] Hx. destruct n as [|n]; cbn [back] in Hn.
      { injection Hn as <-. by replace bx with b by congruence. }
      rewrite Hp in Hn. monad_in Hn. rewrite Hq in Hn. monad_in Hn. apply (Hr x); [by exists n|done].
  - exists None. split; [by destruct fuel|]. intros x bx [n Hn] Hx. destruct n as [|n]; cbn [back] in Hn.
    { injection Hn as <-. by replace bx with b by congruence. }
    rewrite Hp in Hn. monad_in Hn. by rewrite Hq in Hn.
Qed.

Lemma bad_descendant m p q b : m !! q = Some b -> ~ good b -> is_ancestor m q p -> ~ valid_chain m p.
Proof. intros Hq Hb Ha Hv. apply Hb. by eapply Hv. Qed.

Lemma search_erase s p : ~ valid_chain (index s) p -> search_le s (erase_candidate p s).
Proof.
  intros Hn. split; try done; simpl; [|set_solver|].
  - intros q b b' H1 H2. left. congruence.
  - intros q H1 H2. destruct (decide (q = p)) as [->|Hne]; [done|]. destruct H2. set_solver.
Qed.

Lemma search_mark s p b : index s !! p = Some b -> ~ valid_chain (index s) p ->
  exists s', mark (fun n => Z.lor n BLOCK_FAILED_CHILD) p s = Some s' /\ search_le s s' /\
    pindexBestInvalid s' = pindexBestInvalid s /\ setBlockIndexCandidates s' = setBlockIndexCandidates s.
Proof.
  intros Hp Hn. unfold mark. rewrite Hp. monad. eexists. split; [done|]. simpl.
  destruct (mark_failed_le b BLOCK_FAILED_CHILD) as [Hle _]; [by right|].
  split; [|done]. split; simpl; try done.
  - by eapply heap_le_insert.
  - intros q bq bq' H1 H2. destruct (decide (p = q)) as [<-|Hne]; [by right|].
    rewrite lookup_insert_ne in H2 by done. left. congruence.
Qed.

Lemma search_unlinked s u : ~ linked_data (index s) -> search_le s (set_unlinked s u).
Proof. intros Hn. split; try done. intros q b b' H1 H2. left. simpl in H2. congruence. Qed.

Lemma remove_chain_spec n : forall fuel s f p q bq,
  tree_ok (index s) -> index s !! q = Some bq -> ~ good bq -> nChainTx bq <> 0 -> (failed bq = true -> f = true) ->
  back n (index s) p = Some q -> (n <= fuel)%nat ->
  exists s', remove_chain fuel f q p s = Some s' /\ search_le s s' /\ pindexBestInvalid s' = pindexBestInvalid s /\
    (p <> q -> p ∉ setBlockIndexCandidates s').
Proof.
  induction n as [|n IH]; intros fuel s f p q bq Ht Hq Hbad Hcq Hff Hn Hfu.
  { injection Hn as ->. exists s. destruct fuel; cbn [remove_chain]; rewrite bool_decide_true by done;
      (split_and!; [done|apply search_refl|done|done]). }
  destruct fuel as [|fuel]; [lia|]. cbn [remove_chain]. case_bool_decide as Hpq.
  { subst p. exists s. split_and!; [done|apply search_refl|done|done]. }
  pose proof Hn as Hn0. cbn [back] in Hn. destruct (index s !! p) as [b|] eqn:Hp; [|done]. monad_in Hn. monad.
  destruct (pprev b) as [r|] eqn:Hr; [|done]. monad_in Hn.
  assert (~ valid_chain (index s) p) as Hnv by (apply (bad_descendant _ p q bq); [done..|by exists (S n)]).
  assert (exists s1, (if f then mark (fun n => Z.lor n BLOCK_FAILED_CHILD) p s
     else Some (set_unlinked s (mapBlocksUnlinked s ++ [(Some r, p)]))) = Some s1 /\ search_le s s1 /\
     pindexBestInvalid s1 = pindexBestInvalid s) as (s1 & Hstep & Hl1 & Hi1).
  { destruct f; [destruct (search_mark s p b Hp Hnv) as (s1 & H1 & H2 & H3 & _); eauto|].
    eexists. split_and!; [done|apply search_unlinked|done]. intros Hd. apply Hbad. split; [|by eapply Hd].
    by destruct (failed bq); [specialize (Hff eq_refl)|]. }
  rewrite Hstep. monad. pose proof (search_erase s1 p) as Hl2. rewrite (search_valid _ _ p Hl1) in Hl2. specialize (Hl2 Hnv).
  assert (search_le s (erase_candidate p s1)) as Hl by (by eapply search_trans).
  destruct (heap_le_fwd _ _ _ _ (sl_heap _ _ Hl) Hq) as (bq' & Hbq' & Hle).
  destruct (IH fuel (erase_candidate p s1) f r q bq') as (s' & Hrun & Hl' & Hi' & Hne).
  - eapply heap_le_tree; [apply Hl|done].
  - done.
  - intros Hg. apply Hbad. by eapply good_bwd.
  - by rewrite (le_chaintx _ _ Hle).
  - intros Hf. destruct f; [done|]. destruct (sl_entry _ _ Hl q bq bq' Hq Hbq') as [->|_]; [by apply Hff|].
    pose proof Hl1 as Hsame. assert (index s1 = index s) as Hs1 by (by injection Hstep as <-).
    simpl in Hbq'. rewrite Hs1 in Hbq'. apply Hff. congruence.
  - by rewrite (heap_le_back _ _ _ _ (sl_heap _ _ Hl)).
  - lia.
  - exists s'. split_and!; [done|by eapply search_trans|by rewrite Hi'|].
    intros _ Hin. apply (sl_candidates _ _ Hl') in Hin. simpl in Hin. set_solver.
Qed.

Lemma raise_best_invalid_spec s p : is_Some (index s !! p) ->
  (forall q, pindexBestInvalid s = Some q -> is_Some (index s !! q)) ->
  exists s', raise_best_invalid p s = Some s' /\ (s' = s \/ s' = set_best_invalid s (Some p)).
Proof.
  intros [b Hp] Hi. unfold raise_best_invalid. rewrite Hp. monad.
  destruct (pindexBestInvalid s) as [q|]; monad.
  - destruct (Hi q eq_refl) as [bq ->]. monad. eexists. split; [done|]. destruct (Arith256.op_gt _ _); auto.
  - eexists. split; [done|]. auto.
Qed.


Definition best_of s (p : nat) : Prop :=
  p ∈ setBlockIndexCandidates s /\ valid_chain (index s) p /\
  forall q, q ∈ setBlockIndexCandidates s -> ~ worse (index s) p q.

Lemma find_most_work_spec fuel : forall s, state_ok s -> (size (setBlockIndexCandidates s) <= fuel)%nat ->
  exists r s', find_most_work fuel s = Some (r, s') /\ search_le s s' /\ state_ok s' /\
    match r with None => setBlockIndexCandidates s' = ∅ | Some p => best_of s' p end.
Proof.
  induction fuel as [|fuel IH]; intros s Hs Hf; cbn [find_most_work];
    destruct (rbegin_spec (index s) (setBlockIndexCandidates s) (io_work _ (so_index s Hs)) (fun q => so_mapped s q Hs))
      as (r & -> & Hr); monad; (destruct r as [p|]; [|by exists None, s; split_and!; [|apply search_refl|..]]).
  { destruct Hr as [Hp _]. by apply size_mem_pos in Hp; lia. }
  destruct Hr as [Hp Hmax]. destruct (so_candidates s Hs p Hp) as (b & Hb & Hc). rewrite Hb. monad.
  pose proof (node_height _ _ _ (so_tree s Hs _ _ Hb)).
  destruct (scan_spec s (Z.to_nat (nHeight b + 1)) p b Hs Hb Hc ltac:(lia)) as (bad & -> & Hbad). monad.
  destruct bad as [[q f]|]; [|by exists (Some p), s; split_and!; [|apply search_refl|..]].
  destruct Hbad as (bq & n & Hq & Hn & -> & Hg & Hl).
  assert (exists s1, (if failed bq then raise_best_invalid p s else Some s) = Some s1 /\
    search_le s s1 /\ (forall x, pindexBestInvalid s1 = Some x -> is_Some (index s1 !! x)) /\ index s1 = index s)
    as (s1 & -> & Hl1 & Hi1 & Hx1).
  { destruct (failed bq); [|exists s; split_and!; [done|apply search_refl|apply Hs|done]].
    destruct (raise_best_invalid_spec s p) as (s1 & -> & [-> | ->]); [eauto|apply Hs|..].
    - exists s. split_and!; [done|apply search_refl|apply Hs|done].
    - eexists. split_and!; [done| |intros x [= <-]; eauto|done].
      split; try done. intros x bx bx' H1 H2. left. simpl in H2. congruence. }
  monad. destruct (remove_chain_spec n (Z.to_nat (nHeight b + 1)) s1 (failed bq) p q bq) as (s2 & -> & Hl2 & Hi2 & Hne2);
    rewrite ?Hx1; [by apply so_tree|done|done| |done|done|lia|].
  { by apply (ancestor_chaintx (index s) p b q bq (so_index s Hs) Hb Hc (ex_intro _ n Hn) Hq). }
  monad. assert (search_le s s2) as Hl02 by (by eapply search_trans).
  assert (~ valid_chain (index s) q) as Hnq by (intros Hv; apply Hg, (Hv q); [apply ancestor_refl|done]).
  assert (search_le s (erase_candidate q s2)) as Hl03.
  { eapply search_trans; [done|]. apply search_erase. by rewrite (search_valid _ _ q Hl02). }
  assert (state_ok (erase_candidate q s2)) as Hs3.
  { apply (search_ok s _ Hs Hl03). simpl. rewrite Hi2. intros x Hx. destruct (Hi1 x Hx) as [bx Hbx].
    destruct (heap_le_fwd _ _ _ _ (sl_heap _ _ Hl2) Hbx) as (bx' & Hbx' & _). eauto. }
  destruct (IH (erase_candidate q s2) Hs3) as (r & s' & -> & Hl' & Hs' & Hr).
  - enough (setBlockIndexCandidates (erase_candidate q s2) ⊂ setBlockIndexCandidates s) as Hsub
      by (apply subset_size in Hsub; lia).
    split; [apply Hl03|]. intros Hsub. apply Hsub in Hp. simpl in Hp.
    destruct (decide (p = q)); [set_solver|]. apply Hne2; [done|]. set_solver.
  - exists r, s'. split_and!; [done|by eapply search_trans|done|done].
Qed.

Lemma FindMostWorkChain_spec s : state_ok s ->
  exists r s', FindMostWorkChain s = Some (r, s') /\ search_le s s' /\ state_ok s' /\
    match r with None => setBlockIndexCandidates s' = ∅ | Some p => best_of s' p end.
Proof. intros Hs. by apply find_most_work_spec. Qed.

End facts.

End ChainStateFacts.
