(* ===== verification/ChainFrame.v ===== *)
(** * What chain selection leaves alone

    None of the operations that move the active chain touches [mapBlockIndex], and
    only [FindMostWorkChain] touches [mapBlocksUnlinked], when a candidate lacks
    data.  These frame lemmas need no invariant. *)

From stdpp Require Import base list list_numbers numbers option gmap strings fin_sets.
From Stdlib Require Import ZArith Lia.
From S2P Require Import Prelude Bytes ArithUint256 Params Chain ChainFacts Pow Transaction Merkle TxCheck ChainState ChainStateFacts.
Import BlockIndex ChainFacts ChainState ChainStateFacts.
#[local] Open Scope Z_scope.

Module ChainFrame.

Section frame.
Context {W : Type} `{!ChainClient W} (params : Consensus.Params).
Implicit Types s : state W.

Record frame s s' : Prop := {
  fr_unlinked : mapBlocksUnlinked s' = mapBlocksUnlinked s;
  fr_known : mapBlockIndex s' = mapBlockIndex s;
  fr_header : pindexBestHeader s' = pindexBestHeader s
}.

#[global] Instance frame_pre : PreOrder frame.
Proof. split; [done|]. intros a b c [] []. split; congruence. Qed.

Ltac frame_done := repeat match goal with H : frame _ _ |- _ => destruct H end; simpl in *; split; simpl in *; congruence.

Lemma frame_warning s s' : CheckForkWarningConditions s = Some s' -> frame s s'.
Proof.
  unfold CheckForkWarningConditions. intros H. apply bind_Some in H as ([ibd w] & _ & H). destruct ibd; [by injection H as <-|].
  apply bind_Some in H as (f & _ & H). apply bind_Some in H as (warn & _ & H). by injection H as <-.
Qed.

Lemma frame_new_fork p s s' : CheckForkWarningConditionsOnNewFork p s = Some s' -> frame s s'.
Proof.
  unfold CheckForkWarningConditionsOnNewFork. intros H. apply bind_Some in H as (b & _ & H).
  apply bind_Some in H as (r & _ & H). apply bind_Some in H as (f & _ & H). apply frame_warning in H. frame_done.
Qed.

Lemma frame_invalid_chain p s s' : InvalidChainFound p s = Some s' -> frame s s'.
Proof.
  unfold InvalidChainFound, raise_best_invalid. intros H. apply bind_Some in H as (s1 & E & H).
  apply bind_Some in E as (b & _ & E). apply bind_Some in E as (more & _ & E). injection E as <-.
  apply bind_Some in H as (t & _ & H). apply frame_warning in H. destruct more; frame_done.
Qed.

Lemma frame_mark f p s s' : mark f p s = Some s' -> frame s s'.
Proof. unfold mark. intros H. apply bind_Some in H as (b & _ & H). by injection H as <-. Qed.

Lemma frame_invalid_block p st s s' : InvalidBlockFound p st s = Some s' -> frame s s'.
Proof.
  unfold InvalidBlockFound. intros H. apply bind_Some in H as (b & _ & H).
  assert (frame s (if TxCheck.IsInvalid st then set_world s (punish_source b st (world s)) else s)) as F
    by (by destruct (TxCheck.IsInvalid st)).
  destruct (TxCheck.corruptionPossible st); [by injection H as <-|].
  apply bind_Some in H as (s1 & E & H). apply frame_mark in E. apply frame_invalid_chain in H. frame_done.
Qed.

Lemma frame_update_tip p s s' : UpdateTip p s = Some s' -> frame s s'.
Proof. unfold UpdateTip. intros (c & _ & (t & _ & (b & _ & [= <-])%bind_Some)%bind_Some)%bind_Some. done. Qed.

Lemma frame_flush mode st s ok st' s' : flush mode st s = Some (ok, st', s') -> frame s s'.
Proof. unfold flush. intros H. apply bind_Some in H as ([[[o t] d] w] & _ & H). by injection H as <- <- <-. Qed.

Lemma frame_disconnect st s ok st' s' : DisconnectTip st s = Some (ok, st', s') -> frame s s'.
Proof.
  unfold DisconnectTip. intros H. apply bind_Some in H as (t & _ & H). apply bind_Some in H as (b & _ & H).
  destruct (ReadBlockFromDisk _ _) as [block|]; [|by injection H as <- <- <-].
  destruct (BestAnchors (world s)) as [[sb pb] w0]. apply bind_Some in H as ([[o t1] w] & _ & H).
  destruct (negb o); [by injection H as <- <- <-|]. destruct (BestAnchors w) as [[sa pa] w1].
  apply bind_Some in H as ([[o2 t2] s2] & E & H). apply frame_flush in E. destruct (negb o2); [injection H as <- <- <-; frame_done|].
  apply bind_Some in H as (s3 & E2 & H). apply frame_update_tip in E2. apply bind_Some in H as (w4 & _ & H).
  injection H as <- <- <-. frame_done.
Qed.

Lemma frame_connect st p pblock s ok st' s' : ConnectTip st p pblock s = Some (ok, st', s') -> frame s s'.
Proof.
  unfold ConnectTip. intros H. apply bind_Some in H as (b & _ & H). destruct (negb _); [done|].
  destruct (match pblock with Some x => Some x | None => _ end) as [block|]; [|by injection H as <- <- <-].
  apply bind_Some in H as (w0 & _ & H). apply bind_Some in H as ([[[o t] b'] w] & _ & H). destruct (negb o).
  - apply bind_Some in H as (s1 & E & H). injection H as <- <- <-.
    destruct (TxCheck.IsInvalid t); [apply frame_invalid_block in E; frame_done|by injection E as <-].
  - apply bind_Some in H as ([[o2 t2] s2] & E & H). apply frame_flush in E. destruct (negb o2); [injection H as <- <- <-; frame_done|].
    apply bind_Some in H as ([ibd w2] & _ & H). apply bind_Some in H as (s3 & E2 & H). apply frame_update_tip in E2.
    injection H as <- <- <-. frame_done.
Qed.

Lemma frame_disconnect_to fuel f : forall d st s ok d' st' s', disconnect_to fuel f d st s = Some (ok, d', st', s') -> frame s s'.
Proof.
  induction fuel as [|fuel IH]; intros d st s ok d' st' s' H; cbn [disconnect_to] in H;
    (destruct (Tip (chainActive s)); [|by injection H as <- <- <- <-]); (destruct (bool_decide _); [by injection H as <- <- <- <-|]); [done|].
  apply bind_Some in H as ([[o t] s1] & E & H). apply frame_disconnect in E. destruct (negb o); [injection H as <- <- <- <-; done|].
  apply IH in H. by etransitivity.
Qed.

Lemma frame_prune s s' : PruneBlockIndexCandidates s = Some s' -> frame s s'.
Proof. unfold PruneBlockIndexCandidates. intros H. apply bind_Some in H as (c & _ & H). destruct (bool_decide _); [done|]. by injection H as <-. Qed.

Definition result_state (r : @progress W) : state W := match r with More _ s | Stop _ _ s | Failed _ s => s end.

Lemma frame_connect_blocks w p low pblock l : forall st s r,
  connect_blocks w p low pblock l st s = Some r -> frame s (result_state r).
Proof.
  induction l as [|x l IH]; intros st s r H; cbn [connect_blocks] in H; [by injection H as <-|].
  apply bind_Some in H as ([[o t] s1] & E & H). apply frame_connect in E. destruct (negb o).
  - destruct (TxCheck.IsInvalid t); [|by injection H as <-]. apply bind_Some in H as (s2 & E2 & H). injection H as <-. simpl.
    destruct (TxCheck.corruptionPossible t); [by injection E2 as <-|]. apply frame_invalid_chain in E2. by etransitivity.
  - apply bind_Some in H as (s2 & E2 & H). apply frame_prune in E2. apply bind_Some in H as (better & _ & H).
    assert (frame s s2) as F by (by etransitivity). destruct better; [by injection H as <-|]. apply IH in H. by etransitivity.
Qed.

Lemma frame_connect_batches w p pblock fuel : forall h low st s low' r,
  connect_batches fuel w p pblock h low st s = Some (low', r) -> frame s (result_state r).
Proof.
  induction fuel as [|fuel IH]; intros h low st s low' r H; cbn [connect_batches] in H;
    apply bind_Some in H as (b & _ & H); (destruct (_ =? _); [by injection H as <- <-|]); [done|].
  apply bind_Some in H as (it & _ & H). apply bind_Some in H as (l & _ & H). destruct (last l); [|by eapply IH].
  apply bind_Some in H as (r1 & E & H). apply frame_connect_blocks in E. destruct r1; [|by injection H as <- <-..].
  apply IH in H. by etransitivity.
Qed.

Lemma frame_finish d inv low st s ok st' s' : finish_step params d inv low st s = Some (ok, st', s') -> frame s s'.
Proof.
  unfold finish_step. intros H. apply bind_Some in H as (t & _ & H). apply bind_Some in H as (bt & _ & H).
  apply bind_Some in H as (br & _ & H). apply bind_Some in H as (w & _ & H). apply bind_Some in H as (s1 & E & H).
  injection H as <- <- <-. destruct inv.
  - apply bind_Some in E as (q & _ & E). apply frame_new_fork in E. frame_done.
  - apply frame_warning in E. frame_done.
Qed.

Lemma frame_step st p pblock s ok st' s' : ActivateBestChainStep params st p pblock s = Some (ok, st', s') -> frame s s'.
Proof.
  unfold ActivateBestChainStep. intros H. apply bind_Some in H as (f & _ & H). apply bind_Some in H as (h & _ & H).
  apply bind_Some in H as (old & _ & H). destruct (negb _); [done|].
  destruct (_ <? _); [apply bind_Some in H as (x & _ & H); by injection H as <- <- <-|].
  apply bind_Some in H as ([[[o d] t] s1] & E & H). apply frame_disconnect_to in E. destruct (negb o); [by injection H as <- <- <-|].
  apply bind_Some in H as (b & _ & H). apply bind_Some in H as ([low r] & E2 & H). apply frame_connect_batches in E2.
  destruct r as [t2 s2|inv t2 s2|t2 s2]; simpl in E2.
  - apply frame_finish in H. etransitivity; [done|]. by etransitivity.
  - apply frame_finish in H. etransitivity; [done|]. by etransitivity.
  - injection H as <- <- <-. by etransitivity.
Qed.


Lemma frame_invalidate_loop fuel p : forall st s ok st' s', invalidate_loop fuel p st s = Some (ok, st', s') -> frame s s'.
Proof.
  induction fuel as [|fuel IH]; intros st s ok st' s' H; cbn [invalidate_loop] in H; apply bind_Some in H as (inside & _ & H);
    (destruct inside; [|by injection H as <- <- <-]); [done|].
  apply bind_Some in H as (w & _ & H). apply bind_Some in H as (s1 & E & H). apply frame_mark in E.
  apply bind_Some in H as ([[o t] s2] & E2 & H). apply frame_disconnect in E2.
  assert (frame s s2) as F by frame_done. destruct (negb o); [by injection H as <- <- <-|]. apply IH in H. by etransitivity.
Qed.

Lemma frame_readd l : forall s s', readd_candidates l s = Some s' -> frame s s'.
Proof.
  induction l as [|p l IH]; intros s s' H; cbn [readd_candidates] in H; [by injection H as <-|].
  apply bind_Some in H as (b & _ & H). apply bind_Some in H as (ready & _ & H). apply bind_Some in H as (keep & _ & H).
  apply IH in H. destruct keep; frame_done.
Qed.

Lemma frame_pool_reorg s s' : pool_reorg params s = Some s' -> frame s s'.
Proof.
  unfold pool_reorg. intros H. apply bind_Some in H as (t & _ & H). apply bind_Some in H as (bt & _ & H).
  apply bind_Some in H as (br & _ & H). by injection H as <-.
Qed.

Lemma frame_invalidate st p s ok st' s' : InvalidateBlock params st p s = Some (ok, st', s') -> frame s s'.
Proof.
  unfold InvalidateBlock. intros H. apply bind_Some in H as (s1 & E & H). apply frame_mark in E.
  apply bind_Some in H as ([[o t] s2] & E2 & H). apply frame_invalidate_loop in E2. destruct (negb o).
  - apply bind_Some in H as (s3 & E3 & H). apply frame_pool_reorg in E3. injection H as <- <- <-. frame_done.
  - apply bind_Some in H as (s3 & E3 & H). apply bind_Some in H as (s4 & E4 & H). apply bind_Some in H as (s5 & E5 & H).
    apply frame_readd in E3. apply frame_invalid_chain in E4. apply frame_pool_reorg in E5. injection H as <- <- <-. frame_done.
Qed.

End frame.
End ChainFrame.
