(* ===== verification/ChainSelect.v ===== *)
(** * ActivateBestChain ends on the best chain

    The theorems about chain selection are proved against the laws a validation
    has to obey: an entry it writes keeps its links and its failure flags, and
    whether a block passes is a function of the block.  [ref s r] says that every
    block with a valid chain that is not worse than [r] is a candidate; the loop
    of [ActivateBestChain] keeps such an [r], each iteration marks a block as
    failed or raises the work of the tip, and at the end the tip is the best
    block with a valid chain. *)

From stdpp Require Import base list list_numbers numbers option gmap strings fin_sets.
From Stdlib Require Import ZArith Lia.
From S2P Require Import Prelude Bytes ArithUint256 Params Chain ChainFacts Pow Transaction Merkle TxCheck ChainState ChainStateFacts ChainFrame.
Import BlockIndex ChainFacts ChainState ChainStateFacts ChainFrame.
#[local] Open Scope Z_scope.

Module ChainSelect.

Abbreviation heap := (gmap nat CBlockIndex) (only parsing).

(** ** What validation promises to chain selection *)

(** [ConnectBlock] keeps the links, the work, the counters and the failure flags
    of the entry it writes; a failed flush is an error, not a rejection. *)
Class ClientLaws (W : Type) `{!ChainClient W} : Prop := {
  connect_entry known m p block st w ok st' b' w' b :
    ConnectBlock known m p block st w = Some (ok, st', b', w') -> m !! p = Some b ->
    entry_le b b' /\ failed b' = failed b;
  flush_error mode m d st w st' d' w' :
    FlushStateToDisk mode m d st w = Some (false, st', d', w') -> TxCheck.IsInvalid st' = false
}.

(** None of the calls hits an assertion. *)
Record client_total (W : Type) `{!ChainClient W} : Prop := {
  ct_connect known m p block st (w : W) : is_Some (ConnectBlock known m p block st w);
  ct_disconnect m p block st (w : W) : is_Some (DisconnectBlock m p block st w);
  ct_trees (w : W) : is_Some (ReadBestTrees w);
  ct_flush mode m d st (w : W) : is_Some (FlushStateToDisk mode m d st w);
  ct_check (w : W) : is_Some (pool_check w);
  ct_ibd m c (w : W) : is_Some (IsInitialBlockDownload m c w)
}.

(** Whether a block passes is a function of the block, [cv], and a rejected block
    is not suspected of being corrupted. *)
Record deterministic (W : Type) `{!ChainClient W} (cv : nat -> Prop) : Prop := {
  dt_ok known m p block st (w : W) st' b' w' : ConnectBlock known m p block st w = Some (true, st', b', w') -> cv p;
  dt_bad known m p block st (w : W) st' b' w' :
    ConnectBlock known m p block st w = Some (false, st', b', w') -> TxCheck.IsInvalid st' = true ->
    ~ cv p /\ TxCheck.corruptionPossible st' = false
}.

(** ** Counting blocks *)

(** How many blocks satisfy a test. *)
Definition passing (P : CBlockIndex -> bool) (m : heap) : gset nat :=
  filter (fun p => (match m !! p with Some b => P b | None => false end) = true) (dom m).
Lemma elem_of_passing P (m : heap) p : p ∈ passing P m <-> exists b, m !! p = Some b /\ P b = true.
Proof.
  unfold passing. rewrite elem_of_filter, elem_of_dom. destruct (m !! p) as [b|].
  - split; [intros [H _]; eauto|intros (b' & [= <-] & H); eauto].
  - split; [intros [? _]; done|intros (b' & ? & _); done].
Qed.

Lemma passing_le P (m m' : heap) : heap_le m m' ->
  (forall p b b', m !! p = Some b -> m' !! p = Some b' -> P b' = true -> P b = true) ->
  passing P m' ⊆ passing P m.
Proof.
  intros Hh HP p. rewrite !elem_of_passing. intros (b' & Hb' & Ht).
  destruct (heap_le_bwd _ _ _ _ Hh Hb') as (b & Hb & _). eauto.
Qed.

Lemma passing_size P (m : heap) : (size (passing P m) <= size m)%nat.
Proof. rewrite <- (size_dom (D := gset nat) m). apply subseteq_size. unfold passing. set_solver. Qed.

Lemma heap_le_size (m m' : heap) : heap_le m m' -> size m' = size m.
Proof.
  intros Hh. rewrite <- !(size_dom (D := gset nat)). f_equal. apply set_eq. intros p.
  rewrite !elem_of_dom. specialize (Hh p). inversion Hh; simpl; split; intros; eauto; naive_solver.
Qed.

Definition unfailed (m : heap) : gset nat := passing (fun b => negb (failed b)) m.
Definition above (work : list Z) (m : heap) : gset nat :=
  passing (fun b => Arith256.val work <? Arith256.val (nChainWork b)) m.

Lemma unfailed_le m m' : heap_le m m' -> (size (unfailed m') <= size (unfailed m))%nat.
Proof.
  intros Hh. apply subseteq_size, passing_le; [done|]. intros p b b' Hb Hb'.
  destruct (heap_le_fwd _ _ _ _ Hh Hb) as (b2 & Hb2 & Hle). assert (b2 = b') as -> by congruence.
  rewrite !negb_true_iff. intros Hf. destruct (failed b) eqn:E; [|done]. by rewrite (le_failed _ _ Hle E) in Hf.
Qed.

Lemma unfailed_lt m m' x b b' : heap_le m m' -> m !! x = Some b -> failed b = false ->
  m' !! x = Some b' -> failed b' = true -> (size (unfailed m') < size (unfailed m))%nat.
Proof.
  intros Hh Hb Hf Hb' Hf'. apply subset_size. split.
  - apply passing_le; [done|]. intros p c c' Hc Hc'.
    destruct (heap_le_fwd _ _ _ _ Hh Hc) as (c2 & Hc2 & Hle). assert (c2 = c') as -> by congruence.
    rewrite !negb_true_iff. intros Hg. destruct (failed c) eqn:E; [|done]. by rewrite (le_failed _ _ Hle E) in Hg.
  - intros Hsub. assert (x ∈ unfailed m) as Hx by (apply elem_of_passing; exists b; by rewrite Hf).
    apply Hsub in Hx. apply elem_of_passing in Hx as (b2 & Hb2 & Hn). assert (b2 = b') as -> by congruence.
    by rewrite Hf' in Hn.
Qed.

Lemma above_le m m' work work' : heap_le m m' -> Arith256.val work <= Arith256.val work' ->
  above work' m' ⊆ above work m.
Proof.
  intros Hh Hw p. unfold above. rewrite !elem_of_passing. intros (b' & Hb' & Ht).
  destruct (heap_le_bwd _ _ _ _ Hh Hb') as (b & Hb & Hle). rewrite (le_work _ _ Hle) in Ht. exists b. split; [done|].
  apply Z.ltb_lt in Ht. apply Z.ltb_lt. lia.
Qed.

Lemma above_lt m m' work t b : heap_le m m' -> m' !! t = Some b ->
  Arith256.val work < Arith256.val (nChainWork b) -> (size (above (nChainWork b) m') < size (above work m))%nat.
Proof.
  intros Hh Ht Hw. apply subset_size. split; [apply above_le; [done|lia]|].
  intros Hsub. destruct (heap_le_bwd _ _ _ _ Hh Ht) as (b0 & Hb0 & Hle).
  assert (t ∈ above work m) as Hx.
  { apply elem_of_passing. exists b0. split; [done|]. rewrite <- (le_work _ _ Hle). by apply Z.ltb_lt. }
  apply Hsub in Hx. apply elem_of_passing in Hx as (b2 & Hb2 & Hn). assert (b2 = b) as -> by congruence.
  apply Z.ltb_lt in Hn. lia.
Qed.


Definition rounds (m : heap) (work : list Z) : nat :=
  size (unfailed m) * S (size m) + size (above work m).

Lemma rounds_le m m' work : heap_le m m' -> (rounds m' work <= rounds m work)%nat.
Proof.
  intros Hh. unfold rounds. rewrite (heap_le_size _ _ Hh). pose proof (unfailed_le _ _ Hh).
  assert (size (above work m') <= size (above work m))%nat by (apply subseteq_size, above_le; [done|lia]). nia.
Qed.

Section select.
Context {W : Type} `{!ChainClient W, !ClientLaws W} (params : Consensus.Params).
Context (Htotal : client_total W) (cv : nat -> Prop) (Hcv : deterministic W cv).
Implicit Types s : state W.

#[local] Abbreviation state_ok := (state_ok cv).

(** ** States with the same index, chain and candidates *)

Record same_core s s' : Prop := {
  sc_index : index s' = index s;
  sc_chain : chainActive s' = chainActive s;
  sc_candidates : setBlockIndexCandidates s' = setBlockIndexCandidates s
}.

Lemma same_core_refl s : same_core s s.
Proof. done. Qed.
Lemma same_core_trans s1 s2 s3 : same_core s1 s2 -> same_core s2 s3 -> same_core s1 s3.
Proof. intros [] []. split; congruence. Qed.

Lemma core_ok s s' : state_ok s -> same_core s s' ->
  (forall p, pindexBestInvalid s' = Some p -> is_Some (index s !! p)) ->
  (forall p, pindexBestForkTip (warning s') = Some p -> is_Some (index s !! p)) -> state_ok s'.
Proof.
  intros Hs [Hi Hc Hd] H1 H2. apply (state_ok_le cv s s' Hs); rewrite ?Hi, ?Hd; try done.
  intros q b. by apply (so_active cv s Hs).
Qed.

(** ** Fork warnings *)

Lemma fork_warning_spec s : state_ok s ->
  exists s', CheckForkWarningConditions s = Some s' /\ same_core s s' /\ state_ok s'.
Proof using Htotal ClientLaws0.
  intros Hs. unfold CheckForkWarningConditions.
  destruct (ct_ibd W Htotal (index s) (chainActive s) (world s)) as [[ibd w] ->]. monad.
  destruct (so_chain cv s Hs) as (t & bt & Ht). pose proof (chain_tip _ _ _ _ (so_tree cv s Hs) Ht) as Htip.
  destruct Ht as [Hbt _]. destruct ibd.
  { eexists. split_and!; [done|done|]. apply (core_ok s _ Hs); simpl; [done|apply Hs|apply Hs]. }
  cbn [set_world index chainActive warning pindexBestInvalid].
  destruct (Pow.GetBlockProof_work (nBits bt)) as (proof & Hproof & _); [by eapply (io_bits _ (so_index cv s Hs))|].
  assert (exists f, match pindexBestForkTip (warning s) with
    | Some q => b ← index s !! q;
        Some (if Height (chainActive s) - nHeight b >=? 720
              then {| fLargeWorkForkFound := fLargeWorkForkFound (warning s);
                      fLargeWorkInvalidChainFound := fLargeWorkInvalidChainFound (warning s);
                      pindexBestForkTip := None; pindexBestForkBase := pindexBestForkBase (warning s) |}
              else warning s)
    | None => Some (warning s) end = Some f /\
    forall p, pindexBestForkTip f = Some p -> is_Some (index s !! p)) as (f & -> & Hf).
  { pose proof (so_fork cv s Hs) as Hfork. destruct (pindexBestForkTip (warning s)) as [q|] eqn:E.
    - destruct (Hfork q eq_refl) as [bq ->]. monad. eexists. split; [done|]. intros p Hp.
      destruct (_ >=? _); [done|]. apply Hfork. by rewrite <- E.
    - eexists. split; [done|]. intros p Hp. apply Hfork. by rewrite <- E. }
  monad.
  assert (exists warn, match pindexBestForkTip f, pindexBestInvalid s with
    | Some _, _ => Some true | None, None => Some false
    | None, Some q => bad ← index s !! q; t ← Tip (chainActive s); bt ← index s !! t;
        proof ← Pow.GetBlockProof (nBits bt);
        Some (Arith256.op_gt (nChainWork bad) (Arith256.op_add (nChainWork bt) (Arith256.op_mul32 proof 6)))
    end = Some warn) as (warn & ->).
  { pose proof (so_invalid cv s Hs) as Hinv. destruct (pindexBestForkTip f); [eauto|].
    destruct (pindexBestInvalid s) as [q|]; [|eauto]. destruct (Hinv q eq_refl) as [bq ->]. monad.
    rewrite Htip. monad. rewrite Hbt. monad. rewrite Hproof. monad. eauto. }
  monad. eexists. split; [done|]. split; [done|]. apply (core_ok s _ Hs); [done|apply Hs|].
  intros p. simpl. destruct warn; [|apply Hf].
  destruct (pindexBestForkTip f) as [r|] eqn:E, (pindexBestForkBase f); simpl; intros [= <-]; by apply Hf.
Qed.

Lemma lower_to_spec m fuel : tree_ok m -> forall p b h, m !! p = Some b -> 0 <= h -> nHeight b <= Z.of_nat fuel ->
  exists r, lower_to fuel m (Some p) h = Some r /\ (forall q, r = Some q -> is_Some (m !! q)).
Proof.
  intros Ht. induction fuel as [|fuel IH]; intros p b h Hp Hh Hf; cbn [lower_to]; rewrite Hp; monad; rewrite Z.gtb_ltb.
  { rewrite (proj2 (Z.ltb_ge _ _)) by lia. eexists. split; [done|]. intros q [= <-]. eauto. }
  destruct (Z.ltb_spec h (nHeight b)); [|eexists; split; [done|]; intros q [= <-]; eauto].
  destruct (pprev b) as [q|] eqn:Hq; [|exists None; by destruct fuel].
  destruct (node_prev _ _ _ (Ht _ _ Hp) _ Hq) as (bq & Hbq & Hhq). apply (IH q bq); [done..|lia].
Qed.

Lemma fork_walk_spec m fuel : tree_ok m -> forall p b plonger, m !! p = Some b -> nHeight b < Z.of_nat fuel ->
  (forall q, plonger = Some q -> is_Some (m !! q)) ->
  exists r, fork_walk fuel m (Some p) plonger = Some r /\ (forall q, r = Some q -> is_Some (m !! q)).
Proof.
  intros Ht. induction fuel as [|fuel IH]; intros p b plonger Hp Hf Hl; cbn [fork_walk];
    pose proof (node_height _ _ _ (Ht _ _ Hp)) as H0; [lia|].
  case_bool_decide. { eexists. split; [done|]. intros q [= <-]. eauto. }
  rewrite Hp. monad.
  assert (exists r, match plonger with
    | Some r => br ← m !! r; lower_to (Z.to_nat (nHeight br)) m plonger (nHeight b)
    | None => Some None end = Some r /\ (forall q, r = Some q -> is_Some (m !! q))) as (r & -> & Hr).
  { destruct plonger as [r|]; [|by exists None]. destruct (Hl r eq_refl) as [br Hbr]. rewrite Hbr. monad.
    apply (lower_to_spec m _ Ht r br); [done|done|]. pose proof (node_height _ _ _ (Ht _ _ Hbr)). lia. }
  monad. case_bool_decide. { eexists. split; [done|]. intros q [= <-]. eauto. }
  destruct (pprev b) as [q|] eqn:Hq; [|exists None; by destruct fuel].
  destruct (node_prev _ _ _ (Ht _ _ Hp) _ Hq) as (bq & Hbq & Hhq). apply (IH q bq); [done|lia|done].
Qed.

Lemma new_fork_spec s p : state_ok s -> is_Some (index s !! p) ->
  exists s', CheckForkWarningConditionsOnNewFork p s = Some s' /\ same_core s s' /\ state_ok s'.
Proof using Htotal ClientLaws0.
  intros Hs [b Hp]. unfold CheckForkWarningConditionsOnNewFork. rewrite Hp. monad.
  destruct (so_chain cv s Hs) as (t & bt & Ht). rewrite (chain_tip _ _ _ _ (so_tree cv s Hs) Ht).
  pose proof (node_height _ _ _ (so_tree cv s Hs _ _ Hp)) as H0.
  destruct (fork_walk_spec (index s) (Z.to_nat (nHeight b + 1)) (so_tree cv s Hs) p b (Some t))
    as (r & -> & Hr); [done|lia|intros q [= <-]; destruct Ht; eauto|]. monad.
  assert (exists f, match r with
    | Some q => bq ← index s !! q;
        higher ← match pindexBestForkTip (warning s) with
                 | Some r => br ← index s !! r; Some (nHeight b >? nHeight br) | None => Some true end;
        proof ← Pow.GetBlockProof (nBits bq);
        Some (if higher && Arith256.op_gt (Arith256.op_sub (nChainWork b) (nChainWork bq)) (Arith256.op_mul32 proof 7)
                 && (Height (chainActive s) - nHeight b <? 72)
              then {| fLargeWorkForkFound := fLargeWorkForkFound (warning s);
                      fLargeWorkInvalidChainFound := fLargeWorkInvalidChainFound (warning s);
                      pindexBestForkTip := Some p; pindexBestForkBase := Some q |} else warning s)
    | None => Some (warning s) end = Some f /\
    forall x, pindexBestForkTip f = Some x -> is_Some (index s !! x)) as (f & -> & Hf).
  { pose proof (so_fork cv s Hs) as Hfork. destruct r as [q|]; [|eauto]. destruct (Hr q eq_refl) as [bq Hbq].
    rewrite Hbq. monad.
    assert (exists h, match pindexBestForkTip (warning s) with
      | Some r => br ← index s !! r; Some (nHeight b >? nHeight br) | None => Some true end = Some h) as (h & ->).
    { destruct (pindexBestForkTip (warning s)) as [x|]; [|eauto]. destruct (Hfork x eq_refl) as [bx ->]. monad. eauto. }
    monad. destruct (Pow.GetBlockProof_work (nBits bq)) as (proof & -> & _);
      [by eapply (io_bits _ (so_index cv s Hs))|]. monad. eexists. split; [done|].
    intros x. destruct (_ && _); [|apply Hfork]. simpl. intros [= <-]. eauto. }
  monad. destruct (fork_warning_spec (set_warning s f)) as (s' & -> & Hc & Hs').
  { apply (core_ok s _ Hs); [done|apply Hs|done]. }
  exists s'. split_and!; [done| |done]. eapply same_core_trans; [|done]. done.
Qed.


Lemma invalid_chain_spec s p : state_ok s -> is_Some (index s !! p) ->
  exists s', InvalidChainFound p s = Some s' /\ same_core s s' /\ state_ok s'.
Proof using Htotal ClientLaws0.
  intros Hs Hp. unfold InvalidChainFound.
  destruct (raise_best_invalid_spec s p Hp (so_invalid cv s Hs)) as (s1 & -> & H1). monad.
  assert (same_core s s1 /\ state_ok s1) as [Hc1 Hs1].
  { destruct H1 as [-> | ->]; [done|]. split; [done|]. apply (core_ok s _ Hs); [done| |apply Hs].
    intros q [= <-]. done. }
  destruct (so_chain cv s1 Hs1) as (t & bt & Ht). rewrite (chain_tip _ _ _ _ (so_tree cv s1 Hs1) Ht). monad.
  destruct (fork_warning_spec s1 Hs1) as (s' & -> & Hc & Hs'). exists s'. split_and!; [done| |done].
  by eapply same_core_trans.
Qed.

(** ** Disconnecting *)

Lemma flush_spec mode st s :
  exists ok st' s', flush mode st s = Some (ok, st', s') /\ same_core s s' /\
    pindexBestInvalid s' = pindexBestInvalid s /\ warning s' = warning s /\
    (ok = false -> TxCheck.IsInvalid st' = false).
Proof using Htotal ClientLaws0.
  unfold flush. destruct (ct_flush W Htotal mode (index s) (setDirtyBlockIndex s) st (world s)) as [[[[ok st'] d] w] Hf].
  rewrite Hf. monad. do 3 eexists. split_and!; try done. intros ->. by eapply flush_error.
Qed.

(** [UpdateTip] on a mapped block whose ancestors are good. *)
Lemma update_tip_spec s p b : state_ok s -> index s !! p = Some b ->
  (forall q bq, is_ancestor (index s) q p -> index s !! q = Some bq -> good bq /\ nChainTx bq <> 0 /\ cv q) ->
  exists s', UpdateTip (Some p) s = Some s' /\ state_ok s' /\ chain_for (index s) (chainActive s') p b /\
    index s' = index s /\ setBlockIndexCandidates s' = setBlockIndexCandidates s /\
    pindexBestInvalid s' = pindexBestInvalid s /\ warning s' = warning s.
Proof.
  intros Hs Hp Hg. unfold UpdateTip.
  destruct (SetTip_chain _ (so_tree cv s Hs) (chainActive s) p b (so_chain_ok cv s Hs) Hp) as (c & -> & Hc).
  monad. rewrite (chain_tip _ _ _ _ (so_tree cv s Hs) Hc). monad. rewrite Hp. monad. eexists. split_and!; [done| |done..]. split; simpl; try apply Hs; [by exists p, b|].
  intros q bq Hq Hbq. apply Hg; [|done]. by eapply chain_in_ancestor.
Qed.

Lemma active_ancestor s t bt q b : state_ok s -> chain_for (index s) (chainActive s) t bt ->
  is_ancestor (index s) q t -> index s !! q = Some b -> good b /\ nChainTx b <> 0 /\ cv q.
Proof.
  intros Hs Ht Ha Hq. apply (so_active cv s Hs q); [|done]. eapply ancestor_in_chain; [by eapply so_tree|done..].
Qed.

(** The effect of [DisconnectTip], whatever the flags of the blocks. *)
Lemma disconnect_effect st s t b q : tree_ok (index s) -> chain_for (index s) (chainActive s) t b -> pprev b = Some q ->
  exists ok st' s', DisconnectTip st s = Some (ok, st', s') /\ index s' = index s /\
    setBlockIndexCandidates s' = setBlockIndexCandidates s /\ pindexBestInvalid s' = pindexBestInvalid s /\
    warning s' = warning s /\ mapBlockIndex s' = mapBlockIndex s /\
    if ok then exists bq, chain_for (index s) (chainActive s') q bq else chainActive s' = chainActive s.
Proof using Htotal ClientLaws0.
  intros Htree Hch Hq. pose proof (proj1 Hch) as Hb. unfold DisconnectTip.
  rewrite (chain_tip _ _ _ _ Htree Hch). monad. rewrite Hb. monad.
  destruct (ReadBlockFromDisk _ _) as [block|]; [|by do 3 eexists].
  destruct (BestAnchors (world s)) as [[sb pb] w0].
  destruct (ct_disconnect W Htotal (index s) t block st w0) as [[[ok st1] w1'] ->]. monad.
  destruct ok; cbn [negb]; [|by do 3 eexists].
  destruct (BestAnchors w1') as [[sa pa] w1]. unfold flush.
  destruct (ct_flush W Htotal FLUSH_STATE_IF_NEEDED (index (set_world s w1)) (setDirtyBlockIndex (set_world s w1)) st1 (world (set_world s w1)))
    as [[[[ok2 st2] d] w2] ->]. monad. destruct ok2; cbn [negb]; [|by do 3 eexists].
  unfold UpdateTip. cbn [set_world set_dirty index chainActive]. rewrite Hq.
  destruct (node_prev _ _ _ (Htree _ _ Hb) _ Hq) as (bq & Hbq & _).
  destruct (SetTip_chain _ Htree (chainActive s) q bq) as (c & -> & Hc); [right; eauto|done|]. monad.
  rewrite (chain_tip _ _ _ _ Htree Hc). monad. rewrite Hbq. monad.
  match goal with |- context [ReadBestTrees ?x] => destruct (ct_trees W Htotal x) as [w4 ->] end. monad.
  do 3 eexists. split_and!; [done|done..|]. simpl. eauto.
Qed.

Lemma disconnect_spec st s t b q : state_ok s -> Tip (chainActive s) = Some t -> index s !! t = Some b ->
  pprev b = Some q ->
  exists ok st' s', DisconnectTip st s = Some (ok, st', s') /\ state_ok s' /\
    index s' = index s /\ setBlockIndexCandidates s' = setBlockIndexCandidates s /\
    (ok = true -> exists bq, chain_for (index s) (chainActive s') q bq).
Proof using Htotal ClientLaws0.
  intros Hs Ht Hb Hq. destruct (so_chain cv s Hs) as (t' & bt & Hch).
  rewrite (chain_tip _ _ _ _ (so_tree cv s Hs) Hch) in Ht. injection Ht as ->.
  assert (bt = b) as -> by (destruct Hch; congruence).
  destruct (disconnect_effect st s t b q (so_tree cv s Hs) Hch Hq) as (ok & st' & s' & Hrun & Hi & Hd & Hv & Hw & _ & Hc).
  exists ok, st', s'. split_and!; try done; [|by intros ->]. destruct ok.
  - destruct Hc as (bq & Hcq). split; rewrite ?Hi, ?Hd, ?Hv, ?Hw; try apply Hs; [eauto|].
    intros x bx Hx Hbx. apply (active_ancestor s t b x bx Hs Hch); [|done].
    eapply ancestor_trans; [by eapply chain_in_ancestor|]. exists 1%nat. cbn [back]. rewrite Hb. monad. by rewrite Hq.
  - apply (core_ok s _ Hs); [done|rewrite Hv; apply Hs|rewrite Hw; apply Hs].
Qed.

Lemma chain_length m c t bt : tree_ok m -> chain_for m c t bt -> Z.of_nat (length c) = nHeight bt + 1.
Proof. by intros _ (_ & H & _). Qed.

Lemma ancestor_same_height m p b q bq : tree_ok m -> m !! p = Some b -> is_ancestor m q p -> m !! q = Some bq ->
  nHeight bq = nHeight b -> q = p.
Proof.
  intros Ht Hp [n Hn] Hq Hh. pose proof (back_height m Ht n p b q bq Hp Hn Hq). assert (n = 0)%nat as -> by lia.
  by injection Hn.
Qed.

Lemma disconnect_to_spec fuel : forall d st s f bf t bt, state_ok s -> chain_for (index s) (chainActive s) t bt ->
  in_chain (chainActive s) f -> index s !! f = Some bf -> nHeight bt - nHeight bf <= Z.of_nat fuel ->
  exists ok d' st' s', disconnect_to fuel (Some f) d st s = Some (ok, d', st', s') /\ state_ok s' /\
    index s' = index s /\ setBlockIndexCandidates s' = setBlockIndexCandidates s /\
    (ok = true -> chain_for (index s) (chainActive s') f bf).
Proof using Htotal ClientLaws0.
  induction fuel as [|fuel IH]; intros d st s f bf t bt Hs Hch Hf Hbf Hfu; cbn [disconnect_to];
    rewrite (chain_tip _ _ _ _ (so_tree cv s Hs) Hch);
    pose proof (chain_in_ancestor _ _ _ _ _ Hch Hf) as Ha; pose proof Hch as (Hbt & _);
    (case_bool_decide as Heq; [injection Heq as <-; replace bf with bt by congruence; by do 4 eexists|]);
    destruct (Ha) as [n Hn]; pose proof (back_height _ (so_tree cv s Hs) _ _ _ _ _ Hbt Hn Hbf) as Hh.
  { assert (n = 0)%nat as -> by lia. injection Hn as ->. done. }
  destruct n as [|n]; [injection Hn as ->; done|]. cbn [back] in Hn. rewrite Hbt in Hn. monad_in Hn.
  destruct (pprev bt) as [q|] eqn:Hq; [|done]. monad_in Hn.
  destruct (disconnect_spec st s t bt q Hs (chain_tip _ _ _ _ (so_tree cv s Hs) Hch) Hbt Hq)
    as (ok & st1 & s1 & -> & Hs1 & Hi1 & Hd1 & Hc1). monad. destruct ok; cbn [negb].
  2: { do 4 eexists. by split_and!. }
  destruct (Hc1 eq_refl) as (bq & Hcq). rewrite <- Hi1 in Hcq, Hbf, Hn. pose proof Hcq as (Hbq & _).
  destruct (IH true st1 s1 f bf q bq) as (ok2 & d2 & st2 & s2 & -> & Hs2 & Hi2 & Hd2 & Hc2); try done.
  - eapply ancestor_in_chain; [by eapply so_tree|done|by exists n].
  - rewrite Hi1 in Hbq. destruct (node_prev _ _ _ (so_tree cv s Hs _ _ Hbt) _ Hq) as (bq' & Hbq' & Hhq).
    replace bq' with bq in * by congruence. lia.
  - do 4 eexists. rewrite Hi2, Hd2, Hd1, Hi1 in *. split_and!; done.
Qed.


(** ** Connecting *)

Lemma valid_chain_iff (m m' : heap) x : heap_le m m' ->
  (forall p b b', m !! p = Some b -> m' !! p = Some b' -> failed b' = failed b) ->
  valid_chain m' x <-> valid_chain m x.
Proof.
  intros Hle Hf. split; [by apply valid_chain_bwd|]. intros Hv q b' Ha Hq.
  apply (heap_le_ancestor _ _ _ _ Hle) in Ha. destruct (heap_le_bwd _ _ _ _ Hle Hq) as (b & Hb & Hl).
  destruct (Hv q b Ha Hb) as [H1 H2]. split; [by rewrite (Hf q b b' Hb Hq)|by rewrite (le_data _ _ Hl)].
Qed.

Lemma insert_entry (m : heap) p b b' q bq bq' : m !! p = Some b -> failed b' = failed b ->
  m !! q = Some bq -> <[p := b']> m !! q = Some bq' -> failed bq' = failed bq.
Proof.
  intros Hp Hf H1 H2. destruct (decide (p = q)) as [<-|Hn].
  - rewrite lookup_insert_eq in H2. congruence.
  - rewrite lookup_insert_ne in H2 by done. congruence.
Qed.

(** Writing an entry that keeps its flags keeps the invariant. *)
Lemma write_entry_ok s p b b' w : state_ok s -> index s !! p = Some b -> entry_le b b' -> failed b' = failed b ->
  state_ok (set_world (set_index s (<[p := b']> (index s))) w).
Proof.
  intros Hs Hp Hle Hf. pose proof (heap_le_insert _ _ _ _ Hp Hle) as Hl.
  apply (state_ok_le cv s _ Hs); simpl; try done.
  - intros q bq' Hq Hbq'. destruct (heap_le_bwd _ _ _ _ Hl Hbq') as (bq & Hbq & Hlq).
    destruct (so_active cv s Hs q bq Hq Hbq) as [[H1 H2] _].
    split; [by rewrite (insert_entry _ _ _ _ _ _ _ Hp Hf Hbq Hbq')|by rewrite (le_data _ _ Hlq)].
  - intros q Hq. destruct (so_invalid cv s Hs q Hq) as [bq Hbq]. destruct (heap_le_fwd _ _ _ _ Hl Hbq) as (? & ? & _). eauto.
  - intros q Hq. destruct (so_fork cv s Hs q Hq) as [bq Hbq]. destruct (heap_le_fwd _ _ _ _ Hl Hbq) as (? & ? & _). eauto.
Qed.

(** What a call of [ConnectTip] on the next block of a good chain may return. *)
Definition connected s s' (p : nat) : Prop :=
  state_ok s' /\ heap_le (index s) (index s') /\
  (forall q b b', index s !! q = Some b -> index s' !! q = Some b' -> failed b' = failed b) /\
  setBlockIndexCandidates s' = setBlockIndexCandidates s /\
  exists b', chain_for (index s') (chainActive s') p b'.

Definition rejected s s' (p : nat) : Prop :=
  state_ok s' /\ heap_le (index s) (index s') /\
  (forall q b b', q <> p -> index s !! q = Some b -> index s' !! q = Some b' -> failed b' = failed b) /\
  (exists b', index s' !! p = Some b' /\ failed b' = true) /\ ~ cv p /\
  setBlockIndexCandidates s' = setBlockIndexCandidates s ∖ {[p]}.

Lemma invalid_block_spec s p b st : state_ok s -> index s !! p = Some b -> ~ cv p ->
  TxCheck.corruptionPossible st = false ->
  exists s', InvalidBlockFound p st s = Some s' /\ rejected s s' p.
Proof using Htotal ClientLaws0 Hcv.
  intros Hs Hp Hn Hc. unfold InvalidBlockFound. rewrite Hp, Hc. monad.
  set (s0 := if TxCheck.IsInvalid st then _ else s).
  assert (index s0 = index s /\ chainActive s0 = chainActive s /\ setBlockIndexCandidates s0 = setBlockIndexCandidates s
    /\ pindexBestInvalid s0 = pindexBestInvalid s /\ warning s0 = warning s) as (Hi & Hch & Hd & Hv & Hw).
  { unfold s0. by destruct (TxCheck.IsInvalid st). }
  unfold mark. rewrite Hi, Hp. monad.
  destruct (mark_failed_le b BLOCK_FAILED_VALID) as [Hle Hf]; [by left|].
  pose proof (heap_le_insert _ _ _ _ Hp Hle) as Hl.
  match goal with |- context [InvalidChainFound p ?x] => set (s1 := x) end.
  assert (state_ok s1) as Hs1.
  { apply (state_ok_le cv s _ Hs); simpl; rewrite ?Hch, ?Hd, ?Hv, ?Hw; try done.
    - set_solver.
    - intros q bq' Hq Hbq'. destruct (decide (p = q)) as [<-|Hne].
      { destruct Hn. by apply (so_active cv s Hs p b). }
      rewrite lookup_insert_ne in Hbq' by done. by apply (so_active cv s Hs q).
    - intros q Hq. destruct (so_invalid cv s Hs q Hq) as [bq Hbq]. destruct (heap_le_fwd _ _ _ _ Hl Hbq) as (? & ? & _). eauto.
    - intros q Hq. destruct (so_fork cv s Hs q Hq) as [bq Hbq]. destruct (heap_le_fwd _ _ _ _ Hl Hbq) as (? & ? & _). eauto. }
  destruct (invalid_chain_spec s1 p Hs1) as (s' & -> & [Hci Hcc Hcd] & Hs'); [simpl; rewrite lookup_insert_eq; eauto|].
  exists s'. split; [done|]. unfold rejected. rewrite Hci, Hcd. simpl. split_and!; try done.
  - intros q bq bq' Hne H1 H2. rewrite lookup_insert_ne in H2 by done. congruence.
  - eexists. by rewrite lookup_insert_eq.
  - by rewrite Hd.
Qed.

Lemma connect_spec st s p b t pblock : state_ok s -> Tip (chainActive s) = Some t ->
  index s !! p = Some b -> pprev b = Some t -> good b -> nChainTx b <> 0 ->
  exists ok st' s', ConnectTip st p pblock s = Some (ok, st', s') /\
    if ok then connected s s' p
    else TxCheck.IsInvalid st' = true -> TxCheck.corruptionPossible st' = false /\ rejected s s' p.
Proof using Htotal Hcv ClientLaws0.
  intros Hs Ht Hp Hpr Hg Hc. unfold ConnectTip. rewrite Hp. monad. rewrite Hpr, Ht, bool_decide_true by done. cbn [negb].
  destruct (match pblock with Some block => Some block | None => ReadBlockFromDisk (world s) b end) as [block|].
  2: { do 3 eexists. split; [done|]. unfold TxCheck.IsInvalid. by rewrite bool_decide_false. }
  destruct (ct_trees W Htotal (world s)) as [w0 ->]. monad.
  destruct (ct_connect W Htotal (mapBlockIndex s) (index s) p block st w0) as [[[[ok st1] b'] w1] Hrun]. rewrite Hrun. monad.
  destruct (connect_entry _ _ _ _ _ _ _ _ _ _ _ Hrun Hp) as [Hle Hf].
  pose proof (heap_le_insert _ _ _ _ Hp Hle) as Hl.
  pose proof (write_entry_ok s p b b' w1 Hs Hp Hle Hf) as Hs1.
  match goal with |- context [negb ok] => idtac end.
  set (s1 := set_world (set_index s _) w1) in *. destruct ok; cbn [negb].
  - destruct (flush_spec FLUSH_STATE_IF_NEEDED st1 (set_world s1 (forget_source b' (world s1))))
      as (ok2 & st2 & s2 & -> & [Hci Hcc Hcd] & Hi2 & Hw2 & Hfl). monad.
    assert (state_ok s2) as Hs2 by (by apply (core_ok s1 _ Hs1); [|rewrite Hi2; apply Hs1|rewrite Hw2; apply Hs1]).
    destruct ok2; cbn [negb]; [|do 3 eexists; split; [done|]; intros H; by rewrite Hfl in H].
    destruct (ct_ibd W Htotal (index s2) (chainActive s2) (world s2)) as [[ibd w2] ->]. monad.
    match goal with |- context [set_world s2 ?x] => set (w3 := x) end.
    assert (state_ok (set_world s2 w3)) as Hs3 by (by apply (core_ok s2 _ Hs2); [|apply Hs2..]).
    assert (index s2 = <[p := b']> (index s)) as Hi by (by rewrite Hci).
    destruct (update_tip_spec (set_world s2 w3) p b' Hs3) as (s4 & -> & Hs4 & Hc4 & Hi4 & Hd4 & _);
      simpl in *; rewrite ?Hi in *.
    + by rewrite lookup_insert_eq.
    + intros q bq' Ha Hq. apply (heap_le_ancestor _ _ _ _ Hl) in Ha.
      destruct (heap_le_bwd _ _ _ _ Hl Hq) as (bq & Hbq & Hlq).
      enough (good bq /\ nChainTx bq <> 0 /\ cv q) as ([G1 G2] & G3 & G4).
      { split_and!; [split|by rewrite (le_chaintx _ _ Hlq)|done].
        - by rewrite (insert_entry _ _ _ _ _ _ _ Hp Hf Hbq Hq).
        - by rewrite (le_data _ _ Hlq). }
      destruct Ha as [[|n] Hn].
      { injection Hn as ->. replace bq with b by congruence. split_and!; [done..|]. by eapply (dt_ok W cv Hcv). }
      cbn [back] in Hn. rewrite Hp in Hn. monad_in Hn. rewrite Hpr in Hn. monad_in Hn.
      destruct (so_chain cv s Hs) as (t' & bt & Hch).
      rewrite (chain_tip _ _ _ _ (so_tree cv s Hs) Hch) in Ht. injection Ht as ->.
      apply (active_ancestor s t bt q bq Hs Hch); [by exists n|done].
    + monad. do 3 eexists. split; [done|]. split_and!; [done| | |by rewrite Hd4, Hcd|].
      * by rewrite Hi4.
      * rewrite Hi4. intros q bq bq'. by apply (insert_entry _ _ b).
      * exists b'. by rewrite Hi4.
  - destruct (TxCheck.IsInvalid st1) eqn:Hinv; monad; [|do 3 eexists; split; [done|]; by rewrite Hinv].
    destruct (dt_bad W cv Hcv _ _ _ _ _ _ _ _ _ Hrun Hinv) as [Hbad Hcorr].
    destruct (invalid_block_spec s1 p b' st1 Hs1) as (s' & -> & H1 & H2 & H3 & H4 & H5 & H6);
      [simpl; by rewrite lookup_insert_eq|done..|]. monad.
    do 3 eexists. split; [done|]. intros _. split; [done|]. split_and!; try done.
    + by etransitivity.
    + intros q bq bq' Hne Hq Hq'. apply (H3 q bq bq' Hne); [|done]. simpl. by rewrite lookup_insert_ne.
Qed.


(** ** The reference block *)

Definition complete s (r : nat) : Prop :=
  forall q b, index s !! q = Some b -> nChainTx b <> 0 -> valid_chain (index s) q -> ~ worse (index s) q r ->
    q ∈ setBlockIndexCandidates s.

Record ref s (r : nat) : Prop := {
  rf_mapped : exists b, index s !! r = Some b /\ nChainTx b <> 0;
  rf_valid : valid_chain (index s) r;
  rf_cv : forall q, is_ancestor (index s) q r -> cv q;
  rf_complete : complete s r
}.

(** [p], the target of a step, is the best candidate, and some reference is not better. *)
Record aiming s (p : nat) : Prop := {
  am_ok : state_ok s;
  am_best : best_of s p;
  am_ref : exists r, ref s r /\ ~ worse (index s) p r
}.

(** The active tip itself satisfies everything a reference does but completeness. *)
Lemma tip_ref s t bt : state_ok s -> chain_for (index s) (chainActive s) t bt -> complete s t -> ref s t.
Proof.
  intros Hs Ht Hc. pose proof (proj1 Ht) as Hbt. split; [| | |done].
  - exists bt. split; [done|]. by apply (active_ancestor s t bt t bt Hs Ht (ancestor_refl _ _)).
  - intros q b Ha Hq. by apply (active_ancestor s t bt q b Hs Ht Ha).
  - intros q Ha. destruct (ancestor_mapped _ (so_tree cv s Hs) t bt q Hbt Ha) as [b Hq].
    by apply (active_ancestor s t bt q b Hs Ht Ha).
Qed.

Lemma search_ref s s' r : search_le s s' -> ref s r -> ref s' r.
Proof.
  intros Hl [(b & Hb & Hc) Hv Hcvr Hcomp]. pose proof (sl_heap _ _ Hl) as Hh.
  destruct (heap_le_fwd _ _ _ _ Hh Hb) as (b' & Hb' & Hle). split.
  - exists b'. split; [done|]. by rewrite (le_chaintx _ _ Hle).
  - by apply (search_valid _ _ _ Hl).
  - intros q Ha. apply Hcvr. by apply (heap_le_ancestor _ _ _ _ Hh).
  - intros q bq' Hq Hcq Hvq Hwq. destruct (heap_le_bwd _ _ _ _ Hh Hq) as (bq & Hbq & Hlq).
    rewrite (search_valid _ _ _ Hl) in Hvq. rewrite (worse_heap_le _ _ _ _ Hh) in Hwq. rewrite (le_chaintx _ _ Hlq) in Hcq.
    destruct (decide (q ∈ setBlockIndexCandidates s')) as [|Hn]; [done|].
    destruct (sl_erased _ _ Hl q (Hcomp q bq Hbq Hcq Hvq Hwq) Hn Hvq).
Qed.

Lemma core_ref s s' r : same_core s s' -> ref s r -> ref s' r.
Proof. intros [Hi Hc Hd] [H1 H2 H3 H4]. split; unfold complete; by rewrite ?Hi, ?Hd. Qed.

Lemma core_aiming s s' p : same_core s s' -> state_ok s' -> aiming s p -> aiming s' p.
Proof.
  intros Hc Hs' [H1 H2 (r & Hr & Hw)]. pose proof Hc as [Hi Hch Hd]. split; [done| |].
  - unfold best_of. by rewrite Hi, Hd.
  - exists r. split; [by eapply core_ref|by rewrite Hi].
Qed.

(** A connected block changes no flag and no candidate. *)
Lemma connected_ref s s' p r : connected s s' p -> ref s r -> ref s' r.
Proof.
  intros (Hs' & Hh & Hf & Hd & _) [(b & Hb & Hc) Hv Hcvr Hcomp].
  destruct (heap_le_fwd _ _ _ _ Hh Hb) as (b' & Hb' & Hle). split.
  - exists b'. split; [done|]. by rewrite (le_chaintx _ _ Hle).
  - by apply (valid_chain_iff _ _ _ Hh).
  - intros q Ha. apply Hcvr. by apply (heap_le_ancestor _ _ _ _ Hh).
  - intros q bq' Hq Hcq Hvq Hwq. destruct (heap_le_bwd _ _ _ _ Hh Hq) as (bq & Hbq & Hlq).
    rewrite (valid_chain_iff _ _ _ Hh Hf) in Hvq. rewrite (worse_heap_le _ _ _ _ Hh) in Hwq.
    rewrite (le_chaintx _ _ Hlq) in Hcq. rewrite Hd. by eapply Hcomp.
Qed.

Lemma connected_aiming s s' x p : connected s s' x -> aiming s p -> aiming s' p.
Proof.
  intros Hcon [H1 (B1 & B2 & B3) (r & Hr & Hw)]. pose proof Hcon as (Hs' & Hh & Hf & Hd & _). split; [done| |].
  - split_and!; [by rewrite Hd|by apply (valid_chain_iff _ _ _ Hh)|].
    intros q. rewrite Hd, (worse_heap_le _ _ _ _ Hh). apply B3.
  - exists r. split; [by eapply connected_ref|by rewrite (worse_heap_le _ _ _ _ Hh)].
Qed.

(** A rejected block is not below a reference, all of whose ancestors pass. *)
Lemma rejected_ref s s' x r : rejected s s' x -> ref s r -> ref s' r.
Proof.
  intros (Hs' & Hh & Hf & (bx & Hx & Hfx) & Hncv & Hd) [(b & Hb & Hc) Hv Hcvr Hcomp].
  destruct (heap_le_fwd _ _ _ _ Hh Hb) as (b' & Hb' & Hle). split.
  - exists b'. split; [done|]. by rewrite (le_chaintx _ _ Hle).
  - intros q bq' Ha Hq. apply (heap_le_ancestor _ _ _ _ Hh) in Ha.
    destruct (heap_le_bwd _ _ _ _ Hh Hq) as (bq & Hbq & Hlq). destruct (Hv q bq Ha Hbq) as [G1 G2].
    split; [|by rewrite (le_data _ _ Hlq)]. rewrite (Hf q bq bq'); [done| |done|done]. intros ->. by apply Hncv, Hcvr.
  - intros q Ha. apply Hcvr. by apply (heap_le_ancestor _ _ _ _ Hh).
  - intros q bq' Hq Hcq Hvq Hwq. destruct (heap_le_bwd _ _ _ _ Hh Hq) as (bq & Hbq & Hlq).
    rewrite Hd. apply elem_of_difference. split.
    + rewrite (worse_heap_le _ _ _ _ Hh) in Hwq. rewrite (le_chaintx _ _ Hlq) in Hcq.
      apply (Hcomp q bq); [done..|by eapply valid_chain_bwd|done].
    + rewrite elem_of_singleton. intros ->. destruct (Hvq x bx (ancestor_refl _ _) Hx) as [H _]. congruence.
Qed.

(** Pruning below a tip on the way to the target. *)
Lemma prune_spec s p t bt : aiming s p -> chain_for (index s) (chainActive s) t bt -> is_ancestor (index s) t p ->
  exists s', PruneBlockIndexCandidates s = Some s' /\ aiming s' p /\ index s' = index s /\
    chainActive s' = chainActive s.
Proof.
  intros [Hs (B1 & B2 & B3) (r & Hr & Hw)] Ht Ha. pose proof (proj1 Ht) as Hbt.
  pose proof (so_index cv s Hs) as Hio. unfold PruneBlockIndexCandidates.
  rewrite (chain_tip _ _ _ _ (so_tree cv s Hs) Ht).
  destruct (prune_loop_spec (size (setBlockIndexCandidates s)) (index s) t (io_work _ Hio) ltac:(eauto)
    (setBlockIndexCandidates s) (fun q => so_mapped cv s q Hs) ltac:(lia)) as (c & -> & Hc). monad.
  destruct (so_candidates cv s Hs p B1) as (bp & Hbp & _).
  pose proof (ancestor_not_better _ _ _ _ Hio Hbp Ha) as Hpt.
  assert (p ∈ c) as Hpc by (by apply Hc). rewrite bool_decide_false by set_solver.
  eexists. split; [done|]. split; [|done]. split; simpl.
  - apply (state_ok_le cv s _ Hs); simpl; try done; [intros q; rewrite Hc; tauto|..]; try apply Hs.
  - split_and!; [done..|]. intros q Hq. apply Hc in Hq as [Hq _]. by apply B3.
  - destruct (decide (worse (index s) r t)) as [Hrt|Hrt].
    + exists t. split; [|done]. destruct (tip_ref s t bt Hs Ht) as [T1 T2 T3 _].
      { intros q b Hq Hcq Hvq Hwq. apply (rf_complete _ _ Hr q b); [done..|]. intros Hqr. apply Hwq. by eapply worse_trans. }
      split; [done..|]. intros q b Hq Hcq Hvq Hwq. simpl in *. apply Hc. split; [|done].
      apply (rf_complete _ _ Hr q b); [done..|]. intros Hqr. apply Hwq. by eapply worse_trans.
    + exists r. split; [|done]. destruct Hr as [R1 R2 R3 R4]. split; [done..|].
      intros q b Hq Hcq Hvq Hwq. simpl in *. apply Hc. split; [by eapply R4|].
      destruct R1 as (br & Hbr & _). eapply (not_worse_trans _ q r t); eauto.
Qed.

(** ** Connecting a list of blocks *)

(** [l] leads from [t] upwards. *)
Fixpoint path (m : heap) (t : nat) (l : list nat) : Prop :=
  match l with [] => True | p :: l => (exists b, m !! p = Some b /\ pprev b = Some t) /\ path m p l end.

Lemma path_le m m' l : heap_le m m' -> forall t, path m t l -> path m' t l.
Proof.
  intros Hh. induction l as [|p l IH]; intros t; simpl; [done|]. intros [(b & Hb & Hp) Hl]. split; [|by apply IH].
  destruct (heap_le_fwd _ _ _ _ Hh Hb) as (b' & Hb' & Hle). exists b'. by rewrite (le_prev _ _ Hle).
Qed.

(** The outcomes of the connection loops. *)
Definition outcome s (p : nat) (tip : nat) (oldWork : option (list Z)) (r : @progress W) : Prop :=
  match r with
  | More st s' => aiming s' p /\ heap_le (index s) (index s') /\ exists bt, chain_for (index s') (chainActive s') tip bt
  | Stop false st s' => aiming s' p /\ heap_le (index s) (index s') /\ exists t bt,
      chain_for (index s') (chainActive s') t bt /\
      forall work, oldWork = Some work -> Arith256.val work < Arith256.val (nChainWork bt)
  | Stop true st s' => state_ok s' /\ (exists r, ref s' r) /\ heap_le (index s) (index s') /\
      exists x b b', is_ancestor (index s) x p /\ index s !! x = Some b /\ failed b = false /\
        index s' !! x = Some b' /\ failed b' = true
  | Failed st s' => True
  end.

Lemma outcome_le s0 s p tip w r : heap_le (index s0) (index s) -> outcome s p tip w r -> outcome s0 p tip w r.
Proof.
  intros Hh. destruct r as [st s'|[] st s'|st s']; simpl; [| | |done].
  - intros (H1 & H2 & H3). split_and!; [done|by etransitivity|done].
  - intros (H1 & H2 & H3 & x & b' & b'' & Ha & Hx & Hf & Hx' & Hf'). split_and!; [done|done|by etransitivity|].
    destruct (heap_le_bwd _ _ _ _ Hh Hx) as (b & Hb & Hle). exists x, b, b''. split_and!; try done.
    { by apply (heap_le_ancestor _ _ _ _ Hh). }
    destruct (failed b) eqn:E; [|done]. by rewrite (le_failed _ _ Hle E) in Hf.
  - intros (H1 & H2 & H3). split_and!; [done|by etransitivity|done].
Qed.

Lemma connect_blocks_spec oldWork p back pblock l : forall st s t bt,
  (forall work, oldWork = Some work -> Arith256.wf work) ->
  aiming s p -> chain_for (index s) (chainActive s) t bt -> path (index s) t l ->
  (forall q, q ∈ t :: l -> is_ancestor (index s) q p) -> is_Some (index s !! back) ->
  exists r, connect_blocks oldWork p back pblock l st s = Some r /\ outcome s p (default t (last l)) oldWork r.
Proof using Htotal Hcv ClientLaws0.
  induction l as [|x l IH]; intros st s t bt Hwf Haim Ht Hpath Hanc Hback.
  { eexists. split; [done|]. simpl. split_and!; [done|done|eauto]. }
  cbn [connect_blocks]. destruct Hpath as [(b & Hb & Hpr) Hpath]. pose proof Haim as [Hs (B1 & B2 & B3) (r & Hr & Hw)].
  destruct (so_candidates cv s Hs p B1) as (bp & Hbp & Hcp).
  assert (is_ancestor (index s) x p) as Hx by (apply Hanc; set_solver).
  destruct (connect_spec st s x b t (if bool_decide (x = p) then pblock else None) Hs) as (ok & st1 & s1 & -> & Hc1); try done.
  { eapply chain_tip; [by eapply so_tree|done]. }
  { by eapply B2. }
  { by eapply (ancestor_chaintx _ p bp x b (so_index cv s Hs)). }
  monad. destruct ok; cbn [negb].
  2: { destruct (TxCheck.IsInvalid st1) eqn:Hinv; [|by eexists]. destruct (Hc1 eq_refl) as [-> Hrej].
       pose proof Hrej as (Hs1 & Hh & Hf & (bx & Hbx & Hfx) & Hncv & Hd).
       destruct (invalid_chain_spec s1 back Hs1) as (s2 & -> & Hcore & Hs2).
       { destruct Hback as [bb Hbb]. destruct (heap_le_fwd _ _ _ _ Hh Hbb) as (? & ? & _). eauto. }
       monad. eexists. split; [done|]. simpl. split_and!; [done| | |].
       - exists r. eapply core_ref; [done|]. by eapply rejected_ref.
       - by rewrite (sc_index _ _ Hcore).
       - exists x, b, bx. split_and!; [done|done| |by rewrite (sc_index _ _ Hcore)|done]. by apply (B2 x). }
  pose proof Hc1 as (Hs1 & Hh & Hf & Hd & b1 & Hch1).
  assert (is_ancestor (index s1) x p) as Hx1 by (by apply (heap_le_ancestor _ _ _ _ Hh)).
  destruct (prune_spec s1 p x b1) as (s2 & -> & Haim2 & Hi2 & Hch2); [by eapply connected_aiming|done..|]. monad.
  rewrite Hch2, Hi2.
  assert (exists better, match oldWork with
    | Some work => t ← Tip (chainActive s1); bt0 ← index s1 !! t; Some (Arith256.op_gt (nChainWork bt0) work)
    | None => Some true end = Some better /\
    (better = true -> forall work, oldWork = Some work -> Arith256.val work < Arith256.val (nChainWork b1)))
    as (better & -> & Hbetter).
  { destruct oldWork as [work|]; [|by exists true]. rewrite (chain_tip _ _ _ _ (so_tree cv s1 Hs1) Hch1). monad.
    rewrite (proj1 Hch1). monad. eexists. split; [done|]. intros Hg ? [= <-].
    rewrite Arith256.op_gt_val in Hg; [by apply Z.ltb_lt| |by apply Hwf].
    by eapply (io_work _ (so_index cv s1 Hs1)), Hch1. }
  monad. destruct better.
  - eexists. split; [done|]. simpl. rewrite Hi2, Hch2. split_and!; [done..|]. exists x, b1. split; [done|]. by apply Hbetter.
  - destruct (IH st1 s2 x b1) as (res & -> & Hout); rewrite ?Hi2, ?Hch2; try done.
    + by eapply path_le.
    + intros q Hq. apply (heap_le_ancestor _ _ _ _ Hh), Hanc. set_solver.
    + destruct Hback as [bb Hbb]. destruct (heap_le_fwd _ _ _ _ Hh Hbb) as (? & ? & _). eauto.
    + exists res. split; [done|]. apply (outcome_le s s2); [by rewrite Hi2|].
      rewrite last_cons. by destruct (last l).
Qed.


(** ** Batches *)

Lemma path_snoc m l : forall t x b, path m t l -> m !! x = Some b -> pprev b = Some (default t (last l)) ->
  path m t (l ++ [x]).
Proof.
  induction l as [|y l IH]; intros t x b Hp Hx Hpr; simpl in *.
  - split; [eauto|done].
  - destruct Hp as [Hy Hl]. split; [done|]. apply (IH y x b Hl Hx). rewrite last_cons in Hpr. by destruct (last l).
Qed.

Lemma last_rev {A} (l : list A) : last (rev l) = head l.
Proof. rewrite rev_alt. apply last_reverse. Qed.

Lemma elem_of_rev {A} (l : list A) x : x ∈ rev l <-> x ∈ l.
Proof. rewrite rev_alt. apply elem_of_reverse. Qed.

Lemma batch_spec m n : tree_ok m -> forall fuel q b t bt, m !! q = Some b -> back n m q = Some t -> m !! t = Some bt ->
  (n <= fuel)%nat ->
  exists l, batch fuel m (Some q) (nHeight bt) = Some l /\ path m t (rev l) /\
    default t (last (rev l)) = q /\ length l = n /\ forall x, x ∈ l -> is_ancestor m x q.
Proof.
  intros Ht. induction n as [|n IH]; intros fuel q b t bt Hq Hn Hbt Hf.
  { injection Hn as ->. replace bt with b by congruence. exists []. simpl.
    split_and!; try done; [|set_solver]. destruct fuel; simpl; rewrite Hq; monad; by rewrite Z.eqb_refl. }
  pose proof (back_height m Ht _ _ _ _ _ Hq Hn Hbt) as Hh. destruct fuel as [|fuel]; [lia|].
  cbn [batch]. rewrite Hq. monad. rewrite (proj2 (Z.eqb_neq _ _)) by lia.
  cbn [back] in Hn. rewrite Hq in Hn. monad_in Hn. destruct (pprev b) as [r|] eqn:Hr; [|done]. monad_in Hn.
  destruct (node_prev _ _ _ (Ht _ _ Hq) _ Hr) as (br & Hbr & _).
  destruct (IH fuel r br t bt Hbr Hn Hbt) as (l & -> & Hp & Hlast & Hlen & Ha); [lia|]. monad.
  exists (q :: l). split_and!; [done| | |simpl; lia|].
  - simpl. eapply path_snoc; [done..|]. by rewrite Hlast.
  - by rewrite last_rev.
  - intros x Hx. apply elem_of_cons in Hx as [->|Hx]; [apply ancestor_refl|].
    eapply ancestor_trans; [by apply Ha|]. exists 1%nat. cbn [back]. rewrite Hq. monad. by rewrite Hr.
Qed.

Lemma connect_batches_spec oldWork p pblock fuel : (forall work, oldWork = Some work -> Arith256.wf work) ->
  forall lowest st s t bt bp, aiming s p -> chain_for (index s) (chainActive s) t bt -> is_ancestor (index s) t p ->
  index s !! p = Some bp -> nHeight bp - nHeight bt <= Z.of_nat fuel ->
  exists low r, connect_batches fuel oldWork p pblock (nHeight bt) lowest st s = Some (low, r) /\
    outcome s p p oldWork r /\
    (forall st' s', r = Stop true st' s' -> exists x, low = Some x /\ is_Some (index s' !! x)).
Proof using Htotal Hcv ClientLaws0.
  intros Hwf. induction fuel as [|fuel IH]; intros lowest st s t bt bp Haim Ht Ha Hbp Hf;
    pose proof Haim as [Hs _ _]; pose proof (so_tree cv s Hs) as Htree; pose proof (proj1 Ht) as Hbt;
    destruct (Ha) as [n Hn]; pose proof (back_height _ Htree _ _ _ _ _ Hbp Hn Hbt) as Hh;
    cbn [connect_batches]; rewrite Hbp; monad;
    (destruct (Z.eqb_spec (nHeight bt) (nHeight bp)) as [He|He];
      [rewrite (ancestor_same_height _ p bp t bt Htree Hbp Ha Hbt He) in Ht; do 2 eexists;
       split_and!; [done|simpl; split_and!; [done|done|eauto]|done]|]); [lia|].
  set (target := Z.min (nHeight bt + 32) (nHeight bp)).
  pose proof (node_height _ _ _ (Htree _ _ Hbt)) as H0.
  destruct (GetAncestor_back _ Htree p bp target Hbp) as (q & bq & -> & Hq & Hbq & Hhq); [lia|]. monad.
  set (k := Z.to_nat (target - nHeight bt)).
  assert (back k (index s) q = Some t) as Hk.
  { replace n with (Z.to_nat (nHeight bp - target) + k)%nat in Hn by lia. rewrite back_add, Hq in Hn. done. }
  destruct (batch_spec (index s) k Htree 33 q bq t bt Hbq Hk Hbt) as (l & -> & Hpath & Hlast & Hlen & Hanc); [lia|].
  monad. destruct (last l) as [low|] eqn:Hlow; [|apply last_None in Hlow; subst l; simpl in Hlen; lia].
  assert (is_ancestor (index s) q p) as Hqp by (by eexists).
  assert (is_Some (index s !! low)) as Hlowm.
  { eapply (ancestor_mapped _ Htree q bq); [done|]. by apply Hanc, last_Some_elem_of. }
  destruct (connect_blocks_spec oldWork p low pblock (rev l) st s t bt Hwf Haim Ht Hpath) as (r & -> & Hout).
  - intros x Hx. apply elem_of_cons in Hx as [->|Hx]; [done|]. rewrite elem_of_rev in Hx.
    eapply ancestor_trans; [|done]. by apply Hanc.
  - done.
  - monad. rewrite Hlast in Hout. destruct r as [st1 s1|[] st1 s1|st1 s1].
    + destruct Hout as (Haim1 & Hh1 & b1 & Ht1).
      destruct (heap_le_fwd _ _ _ _ Hh1 Hbp) as (bp1 & Hbp1 & Hlep), (heap_le_fwd _ _ _ _ Hh1 Hbq) as (bq1 & Hbq1 & Hleq).
      assert (b1 = bq1) as -> by (destruct Ht1; congruence).
      destruct (IH (Some low) st1 s1 q bq1 bp1 Haim1 Ht1) as (low2 & r2 & Hrun & Hout2 & Hstop).
      * by apply (heap_le_ancestor _ _ _ _ Hh1).
      * done.
      * rewrite (le_height _ _ Hlep), (le_height _ _ Hleq), Hhq. lia.
      * rewrite (le_height _ _ Hleq), Hhq in Hrun. exists low2, r2. split_and!; [done|by eapply outcome_le|done].
    + do 2 eexists. split_and!; [done|done|]. intros st2 s2 [= -> ->]. exists low. split; [done|].
      destruct Hout as (_ & _ & Hh1 & _), Hlowm as [bl Hbl]. destruct (heap_le_fwd _ _ _ _ Hh1 Hbl) as (? & ? & _). eauto.
    + do 2 eexists. by split_and!.
    + do 2 eexists. by split_and!.
Qed.


(** ** A step *)

Lemma finish_step_spec d inv low st s : state_ok s ->
  (inv = true -> exists x, low = Some x /\ is_Some (index s !! x)) ->
  exists s', finish_step params d inv low st s = Some (true, st, s') /\ same_core s s' /\ state_ok s'.
Proof using Htotal ClientLaws0.
  intros Hs Hlow. unfold finish_step. destruct (so_chain cv s Hs) as (t & bt & Ht).
  rewrite (chain_tip _ _ _ _ (so_tree cv s Hs) Ht). monad. pose proof (proj1 Ht) as Hbt. rewrite Hbt. monad.
  pose proof (node_height _ _ _ (so_tree cv s Hs _ _ Hbt)).
  destruct (Consensus.branch_id_separates_epochs params (nHeight bt + 1) (nHeight bt + 1)) as (_ & br & -> & _); [lia..|].
  monad. match goal with |- context [pool_check ?x] => destruct (ct_check W Htotal x) as [w ->] end. monad.
  assert (state_ok (set_world s w)) as Hs1 by (by apply (core_ok s _ Hs); [|apply Hs..]).
  destruct inv.
  - destruct (Hlow eq_refl) as (x & -> & Hx). monad.
    destruct (new_fork_spec (set_world s w) x Hs1 Hx) as (s' & -> & Hc & Hs'). monad. eexists. split_and!; [done| |done].
    by destruct Hc.
  - destruct (fork_warning_spec (set_world s w) Hs1) as (s' & -> & Hc & Hs'). monad. eexists. split_and!; [done| |done].
    by destruct Hc.
Qed.

(** With a single root there is a fork point. *)
Lemma fork_exists s p b : state_ok s -> index s !! p = Some b ->
  exists f bf, FindFork (index s) (chainActive s) p = Some (Some f) /\ in_chain (chainActive s) f /\
    is_ancestor (index s) f p /\ index s !! f = Some bf.
Proof.
  intros Hs Hp. pose proof (so_tree cv s Hs) as Htree.
  destruct (FindFork_spec _ Htree _ p b (so_chain_ok cv s Hs) Hp) as (r & -> & Hr). destruct r as [f|].
  { destruct Hr as (H1 & H2 & _). destruct (ancestor_mapped _ Htree p b f Hp H2) as [bf Hf]. eauto 6. }
  destruct (so_chain cv s Hs) as (t & bt & Ht). pose proof (proj1 Ht) as Hbt.
  assert (forall x bx, index s !! x = Some bx -> exists g bg, is_ancestor (index s) g x /\ index s !! g = Some bg /\ pprev bg = None)
    as Hroot.
  { intros x bx Hx. pose proof (node_height _ _ _ (Htree _ _ Hx)).
    destruct (back_total _ Htree (Z.to_nat (nHeight bx)) x bx Hx) as (g & bg & Hg & Hbg & Hh); [lia|].
    exists g, bg. split_and!; [by eexists|done|]. destruct (pprev bg) as [y|] eqn:E; [|done].
    destruct (node_prev _ _ _ (Htree _ _ Hbg) _ E) as (by' & Hy & Hhy). pose proof (node_height _ _ _ (Htree _ _ Hy)). lia. }
  destruct (Hroot p b Hp) as (g & bg & Hg & Hbg & Hgr), (Hroot t bt Hbt) as (g' & bg' & Hg' & Hbg' & Hgr').
  assert (g = g') as -> by (by eapply (io_root _ (so_index cv s Hs))).
  destruct (Hr g' Hg). by eapply ancestor_in_chain.
Qed.

Lemma aiming_other_chain s s' p : aiming s p -> state_ok s' -> index s' = index s ->
  setBlockIndexCandidates s' = setBlockIndexCandidates s -> aiming s' p.
Proof.
  intros [H1 H2 (r & [R1 R2 R3 R4] & Hw)] Hs' Hi Hd. split; [done| |].
  - unfold best_of. by rewrite Hi, Hd.
  - exists r. split; [split; unfold complete|]; by rewrite ?Hi, ?Hd.
Qed.

(** The progress a successful step makes. *)
Definition progressed s s' (p : nat) (bt : CBlockIndex) : Prop :=
  state_ok s' /\ heap_le (index s) (index s') /\ (exists r, ref s' r) /\
  ((aiming s' p /\ exists bp, chain_for (index s') (chainActive s') p bp) \/
   (aiming s' p /\ exists t' bt', chain_for (index s') (chainActive s') t' bt' /\
      Arith256.val (nChainWork bt) < Arith256.val (nChainWork bt')) \/
   (exists x b b', is_ancestor (index s) x p /\ index s !! x = Some b /\ failed b = false /\
      index s' !! x = Some b' /\ failed b' = true)).

Lemma step_spec st s p t bt pblock : 0 < MAX_REORG_LENGTH params -> aiming s p ->
  chain_for (index s) (chainActive s) t bt ->
  exists ok st' s', ActivateBestChainStep params st p pblock s = Some (ok, st', s') /\
    (ok = true -> progressed s s' p bt).
Proof using Htotal Hcv ClientLaws0.
  intros Hreorg Haim Ht. pose proof Haim as [Hs (B1 & B2 & B3) _]. pose proof (so_tree cv s Hs) as Htree.
  destruct (so_candidates cv s Hs p B1) as (bp & Hbp & _). pose proof (proj1 Ht) as Hbt.
  unfold ActivateBestChainStep. rewrite (chain_tip _ _ _ _ Htree Ht).
  destruct (fork_exists s p bp Hs Hbp) as (f & bf & -> & Hf & Haf & Hbf). monad. rewrite Hbf. monad. rewrite Hbt. monad.
  rewrite (proj2 (Z.ltb_lt _ _) Hreorg). cbn [negb]. destruct (_ <? _); [by do 3 eexists|].
  pose proof (node_height _ _ _ (Htree _ _ Hbf)). pose proof (chain_length _ _ _ _ Htree Ht) as Hlen.
  destruct (disconnect_to_spec (length (chainActive s)) false st s f bf t bt Hs Ht Hf Hbf)
    as (ok & d & st1 & s1 & -> & Hs1 & Hi1 & Hd1 & Hc1); [lia|]. monad. destruct ok; cbn [negb]; [|by do 3 eexists].
  rewrite Hi1, Hbp. monad. cbn [fmap option_fmap option_map].
  specialize (Hc1 eq_refl). rewrite <- Hi1 in Hc1.
  destruct (connect_batches_spec (Some (nChainWork bt)) p pblock (Z.to_nat (nHeight bp + 1))) with
    (lowest := @None nat) (st := st1) (s := s1) (t := f) (bt := bf) (bp := bp) as (low & r & -> & Hout & Hstop).
  - intros work [= <-]. by eapply (io_work _ (so_index cv s Hs)).
  - by apply (aiming_other_chain s).
  - done.
  - by rewrite Hi1.
  - by rewrite Hi1.
  - lia.
  - monad. destruct r as [st2 s2|[] st2 s2|st2 s2]; simpl in Hout; rewrite ?Hi1 in Hout; [| | |by do 3 eexists].
    + destruct Hout as (Haim2 & Hh2 & bp2 & Hch2).
      destruct (finish_step_spec d false low st2 s2) as (s3 & -> & Hcore & Hs3); [apply Haim2|done|].
      pose proof Hcore as [Hci Hcc Hcd].
      do 3 eexists. split; [done|]. intros _. pose proof (core_aiming _ _ _ Hcore Hs3 Haim2) as Haim3.
      split_and!; [done|by rewrite Hci|destruct (am_ref _ _ Haim3) as (r & ? & _); eauto|].
      left. split; [done|]. exists bp2. by rewrite Hci, Hcc.
    + destruct Hout as (Hs2 & (r & Hr) & Hh2 & x & b & b' & Hx).
      destruct (finish_step_spec d true low st2 s2 Hs2) as (s3 & -> & Hcore & Hs3); [intros _; by eapply Hstop|].
      pose proof Hcore as [Hci Hcc Hcd]. do 3 eexists. split; [done|]. intros _.
      split_and!; [done|by rewrite Hci|exists r; by eapply core_ref|]. right. right. exists x, b, b'. by rewrite Hci.
    + destruct Hout as (Haim2 & Hh2 & t2 & bt2 & Hch2 & Hw2).
      destruct (finish_step_spec d false low st2 s2) as (s3 & -> & Hcore & Hs3); [apply Haim2|done|].
      pose proof Hcore as [Hci Hcc Hcd]. do 3 eexists. split; [done|]. intros _.
      pose proof (core_aiming _ _ _ Hcore Hs3 Haim2) as Haim3.
      split_and!; [done|by rewrite Hci|destruct (am_ref _ _ Haim3) as (r & ? & _); eauto|].
      right. left. split; [done|]. exists t2, bt2. rewrite Hci, Hcc. split; [done|]. by apply Hw2.
Qed.

(** ** The loop *)

(** The tip is the best block with a valid chain, and every block as good is a candidate. *)
Definition on_best_chain s : Prop :=
  exists t bt, chain_for (index s) (chainActive s) t bt /\ ref s t /\
    forall q b, index s !! q = Some b -> nChainTx b <> 0 -> valid_chain (index s) q -> ~ worse (index s) t q.

Lemma aiming_final s p bp : aiming s p -> chain_for (index s) (chainActive s) p bp -> on_best_chain s.
Proof.
  intros [Hs (B1 & B2 & B3) (r & Hr & Hw)] Ht. pose proof (proj1 Ht) as Hbp.
  destruct (rf_mapped _ _ Hr) as (br & Hbr & _). exists p, bp. split_and!; [done| |].
  - apply (tip_ref s p bp Hs Ht). intros q b Hq Hc Hv Hn. apply (rf_complete _ _ Hr q b); [done..|].
    apply (not_worse_trans _ q p r); eauto.
  - intros q b Hq Hc Hv Hpq. apply (B3 q); [|done]. apply (rf_complete _ _ Hr q b); [done..|].
    intros Hqr. apply Hw. by eapply worse_trans.
Qed.

Lemma rounds_lt s s' p t bt t' bt' : progressed s s' p bt -> chain_for (index s) (chainActive s) t bt ->
  chain_for (index s') (chainActive s') t' bt' -> t' <> p ->
  (rounds (index s') (nChainWork bt') < rounds (index s) (nChainWork bt))%nat.
Proof.
  intros (Hs' & Hh & _ & Hcase) Ht Ht' Hne. unfold rounds. rewrite (heap_le_size _ _ Hh).
  pose proof (unfailed_le _ _ Hh) as Hu.
  pose proof (passing_size (fun b => Arith256.val (nChainWork bt') <? Arith256.val (nChainWork b)) (index s')) as Ha.
  fold (above (nChainWork bt') (index s')) in Ha. rewrite (heap_le_size _ _ Hh) in Ha.
  destruct Hcase as [(_ & bp & Hp)|[(_ & t2 & bt2 & Ht2 & Hw)|(x & b & b' & _ & H1 & H2 & H3 & H4)]].
  - destruct Hne. pose proof (chain_tip _ _ _ _ (so_tree cv s' Hs') Hp) as E1.
    pose proof (chain_tip _ _ _ _ (so_tree cv s' Hs') Ht'). congruence.
  - assert (t2 = t') as -> by (pose proof (chain_tip _ _ _ _ (so_tree cv s' Hs') Ht2);
      pose proof (chain_tip _ _ _ _ (so_tree cv s' Hs') Ht'); congruence).
    assert (bt2 = bt') as -> by (destruct Ht2, Ht'; congruence).
    pose proof (above_lt _ _ (nChainWork bt) t' bt' Hh (proj1 Ht') Hw). nia.
  - pose proof (unfailed_lt _ _ x b b' Hh H1 H2 H3 H4). nia.
Qed.

(** A step that ends on its target still aims at it. *)
Lemma progressed_aiming s s' p bt bp : progressed s s' p bt -> chain_for (index s') (chainActive s') p bp -> aiming s' p.
Proof.
  intros (Hs' & Hh & _ & Hcase) Hp. destruct Hcase as [(? & _)|[(? & _)|(x & b & b' & Ha & _ & _ & Hx & Hf)]]; [done..|].
  apply (heap_le_ancestor _ _ _ _ Hh) in Ha. destruct (active_ancestor s' p bp x b' Hs' Hp Ha Hx) as [[Hg _] _]. congruence.
Qed.

Lemma ref_in s r : ref s r -> r ∈ setBlockIndexCandidates s.
Proof.
  intros [(b & Hb & Hc) Hv _ Hcomp]. apply (Hcomp r b); [done..|]. apply worse_irrefl.
Qed.

Lemma activate_loop_spec fuel : 0 < MAX_REORG_LENGTH params -> forall st pblock s t bt, state_ok s ->
  (exists r, ref s r) -> chain_for (index s) (chainActive s) t bt ->
  (rounds (index s) (nChainWork bt) <= fuel)%nat ->
  exists ok st' s', activate_loop params fuel st pblock s = Some (ok, st', s') /\
    (ok = true -> state_ok s' /\ on_best_chain s' /\ heap_le (index s) (index s') /\
       (linked_data (index s) -> frame s s')).
Proof using Htotal Hcv ClientLaws0.
  intros Hreorg. induction fuel as [|fuel IH]; intros st pblock s t bt Hs (r & Hr) Ht Hf; cbn [activate_loop];
    destruct (FindMostWorkChain_spec cv s Hs) as (best & s1 & -> & Hl & Hs1 & Hbest); monad;
    pose proof (search_ref _ _ _ Hl Hr) as Hr1; pose proof (ref_in _ _ Hr1) as Hin; pose proof (sl_heap _ _ Hl) as Hh1;
    (destruct best as [p|]; [|rewrite Hbest in Hin; set_solver]);
    destruct (heap_le_fwd _ _ _ _ Hh1 (proj1 Ht)) as (bt1 & Hbt1 & Hlet);
    pose proof (heap_le_chain_for _ _ _ _ _ _ Hh1 Hbt1 Hlet Ht) as Ht1; rewrite <- (sl_chain _ _ Hl) in Ht1;
    assert (aiming s1 p) as Haim by (split; [done|done|exists r; split; [done|by apply Hbest]]);
    rewrite (chain_tip _ _ _ _ (so_tree cv s1 Hs1) Ht1);
    (case_bool_decide as Hpt;
      [injection Hpt as ->; do 3 eexists; split; [done|]; intros _; split_and!; [done|by eapply aiming_final|done|]; intros Hd; split; by apply Hl|]);
    destruct (so_candidates cv s1 Hs1 p (proj1 Hbest)) as (bp & Hbp & _); rewrite Hbp; monad;
    match goal with |- context [ActivateBestChainStep params st p ?g s1] =>
      destruct (step_spec st s1 p t bt1 g Hreorg Haim Ht1) as (ok & st2 & s2 & Hstep & Hprog); rewrite Hstep end; monad;
    apply frame_step in Hstep;
    assert (linked_data (index s) -> frame s s2) as Hfr by (intros Hd; transitivity s1; [split; by apply Hl|done]);
    (destruct ok; cbn [negb]; [|by do 3 eexists]); specialize (Hprog eq_refl); pose proof Hprog as (Hs2 & Hh2 & Hr2 & Hcase);
    destruct (ct_ibd W Htotal (index s2) (chainActive s2) (world s2)) as [[ibd w2] ->]; monad;
    destruct (so_chain cv s2 Hs2) as (t2 & bt2 & Ht2);
    assert (same_core s2 (set_world s2 w2) /\ state_ok (set_world s2 w2)) as [Hc3 Hs3]
      by (split; [done|by apply (core_ok s2 _ Hs2); [|apply Hs2..]]);
    cbn [set_world chainActive index]; rewrite (chain_tip _ _ _ _ (so_tree cv s2 Hs2) Ht2);
    assert (rounds (index s1) (nChainWork bt1) <= rounds (index s) (nChainWork bt))%nat as Hle1
      by (rewrite (le_work _ _ Hlet); by apply rounds_le).
  all: case_bool_decide as Hp2.
  1,3: injection Hp2 as <-; destruct (flush_spec FLUSH_STATE_PERIODIC st2 (set_world s2 w2))
         as (ok4 & st4 & s4 & Hfl & Hc4 & Hi4 & Hw4 & _); rewrite Hfl; apply frame_flush in Hfl;
       do 3 eexists; (split; [done|]); intros _;
       assert (same_core s2 s4) as Hcore by (by destruct Hc4);
       assert (state_ok s4) as Hs4
         by (apply (core_ok s2 _ Hs2 Hcore); [rewrite Hi4|rewrite Hw4]; apply Hs2);
       assert (aiming s4 p) as Haim4 by (eapply core_aiming; [done..|]; by eapply progressed_aiming);
       (split_and!; [done|eapply (aiming_final s4 p bt2); [done|]; by rewrite (sc_index _ _ Hcore), (sc_chain _ _ Hcore)|
         rewrite (sc_index _ _ Hcore); by etransitivity|intros Hd; transitivity s2; [by apply Hfr|by destruct Hfl]]).
  all: pose proof (rounds_lt s1 s2 p t bt1 t2 bt2 Hprog Ht1 Ht2 ltac:(congruence)) as Hlt.
  1: lia.
  destruct (IH st2 pblock (set_world s2 w2) t2 bt2) as (ok5 & st5 & s5 & -> & Hfin); try done.
  - destruct Hr2 as (r2 & ?). exists r2. by eapply core_ref.
  - simpl. lia.
  - do 3 eexists. split; [done|]. intros Hok. destruct (Hfin Hok) as (F1 & F2 & F3 & F4). split_and!; [done|done| |].
    + etransitivity; [done|]. by etransitivity.
    + intros Hd. transitivity s2; [by apply Hfr|]. destruct F4 as [F41 F42 F43]; [|by split]. eapply linked_data_le; [|done]. by etransitivity.
Qed.


Lemma ActivateBestChain_spec st pblock s t bt : 0 < MAX_REORG_LENGTH params -> state_ok s ->
  chain_for (index s) (chainActive s) t bt -> complete s t ->
  exists ok st' s', ActivateBestChain params st pblock s = Some (ok, st', s') /\
    (ok = true -> state_ok s' /\ on_best_chain s' /\ heap_le (index s) (index s') /\
       (linked_data (index s) -> frame s s')).
Proof using Htotal Hcv ClientLaws0.
  intros Hreorg Hs Ht Hc. apply (activate_loop_spec _ Hreorg st pblock s t bt Hs); [exists t; by eapply tip_ref|done|].
  unfold rounds, unfailed, above. pose proof (passing_size (fun b => negb (failed b)) (index s)).
  pose proof (passing_size (fun b => Arith256.val (nChainWork bt) <? Arith256.val (nChainWork b)) (index s)). nia.
Qed.

End select.
End ChainSelect.
