(* ===== verification/ChainSafety.v ===== *)
(** * Theorems on chain selection

    [FindMostWorkChain] returns the best usable candidate; [ActivateBestChain]
    returns, and when it succeeds the tip is the best known chain; a block judged
    corrupted makes it loop.  Each is applied to a small block tree with a
    concrete validation. *)

From stdpp Require Import base list list_numbers numbers option gmap strings fin_sets.
From Stdlib Require Import ZArith Lia.
From S2P Require Import Prelude Bytes ArithUint256 Params Chain ChainFacts Pow Transaction Merkle TxCheck ChainState ChainStateFacts ChainSelect.
Import BlockIndex ChainFacts ChainState ChainStateFacts ChainSelect.
#[local] Open Scope Z_scope.

Module ChainSafety.

(** ** A block tree to run on

    Genesis 0, the active chain 0-1, its child 5, and the fork 0-2 with the
    children 3 and 4; every block adds one unit of work. *)
Module Sample.

Definition entry (prev : option nat) (height work sequence : Z) : CBlockIndex := {|
  phashBlock := Some [height; sequence]; pprev := prev; pskip := None; nHeight := height;
  nFile := 0; nDataPos := 0; nUndoPos := 0; nChainWork := Arith256.base_uint_of_u64 work;
  nTx := 1; nChainTx := height + 1;
  nStatus := Z.lor BLOCK_VALID_TRANSACTIONS BLOCK_HAVE_DATA; nCachedBranchId := None;
  hashSproutAnchor := uint256_null; hashFinalSproutRoot := uint256_null;
  nSproutValue := None; nChainSproutValue := None; nSaplingValue := 0; nChainSaplingValue := None;
  nVersion := 4; hashMerkleRoot := uint256_null; hashFinalSaplingRoot := uint256_null;
  nTime := 0; nBits := 0x1f07ffff; nNonce := uint256_null; nSequenceId := sequence |}.

Definition tree : gmap nat CBlockIndex :=
  <[0%nat := entry None 0 1 1]> (<[1%nat := entry (Some 0%nat) 1 2 2]> (<[2%nat := entry (Some 0%nat) 1 2 3]>
  (<[3%nat := entry (Some 2%nat) 2 3 4]> (<[4%nat := entry (Some 2%nat) 2 3 5]> (<[5%nat := entry (Some 1%nat) 2 3 6]> ∅))))).

(** The world records the blocks connected and disconnected. *)
Definition world : Type := list (bool * nat).

Definition no_block : Merkle.CBlock :=
  {| Merkle.header := sample_header 0; Merkle.vtx := []; Merkle.vMerkleTree := [] |}.

(** A client that rejects the blocks of [bad], [corruption] being what it says of them. *)
Definition client (bad : nat -> bool) (corruption : bool) : ChainClient world := {|
  ReadBlockFromDisk _ _ := Some no_block;
  ConnectBlock _ m p _ st w :=
    match m !! p with
    | None => Some (false, TxCheck.Error st "unknown block", entry None 0 0 0, w)
    | Some b => if bad p then Some (false, TxCheck.DoS TxCheck.CValidationState_init 100 TxCheck.REJECT_INVALID
                               "bad-block" corruption, b, w)
                else Some (true, st, b, (true, p) :: w)
    end;
  DisconnectBlock _ p _ st w := Some (true, st, (false, p) :: w);
  FlushStateToDisk _ _ d st w := Some (true, st, d, w);
  BestAnchors w := ([], [], w); ReadBestTrees w := Some w;
  AcceptToMemoryPool _ w := (false, w);
  pool_remove _ w := w; removeWithAnchor _ _ w := w; removeForBlock _ _ _ w := w; removeExpired _ w := w;
  removeForReorg _ w := w; removeWithoutBranchId _ w := w; pool_check w := Some w;
  punish_source _ _ w := w; forget_source _ w := w;
  IsInitialBlockDownload _ _ w := Some (false, w) |}.

Lemma client_ok bad corruption : @client_total world (client bad corruption).
Proof.
  split; simpl; try (intros; by eexists).
  intros known m p block st w. destruct (m !! p); [destruct (bad p)|]; by eexists.
Qed.

Lemma client_laws bad corruption : @ClientLaws world (client bad corruption).
Proof.
  split; simpl; [|done]. intros known m p block st w ok st' b' w' b H Hp. rewrite Hp in H.
  destruct (bad p); injection H as _ _ <- _; done.
Qed.

Lemma client_deterministic bad : @deterministic world (client bad false) (fun p => bad p = false).
Proof.
  split; simpl; intros known m p block st w st' b' w'; (destruct (m !! p); [destruct (bad p) eqn:E|]); try done.
  - intros [= <- <- <-] Hi. done.
  - intros [= <- <- <-]. unfold TxCheck.IsInvalid. by rewrite bool_decide_false.
Qed.

Definition start (candidates : gset nat) : state world := {|
  mapBlockIndex := ∅; index := tree; chainActive := [Some 0%nat; Some 1%nat];
  setBlockIndexCandidates := candidates; mapBlocksUnlinked := []; pindexBestInvalid := None;
  pindexBestHeader := None; nBlockSequenceId := 7; setDirtyBlockIndex := ∅;
  warning := ForkWarning_init; ChainState.world := [] |}.

(** Case analysis over the six blocks. *)
Lemma tree_cases (P : nat -> CBlockIndex -> Prop) :
  P 0%nat (entry None 0 1 1) -> P 1%nat (entry (Some 0%nat) 1 2 2) -> P 2%nat (entry (Some 0%nat) 1 2 3) ->
  P 3%nat (entry (Some 2%nat) 2 3 4) -> P 4%nat (entry (Some 2%nat) 2 3 5) ->
  P 5%nat (entry (Some 1%nat) 2 3 6) ->
  forall p b, tree !! p = Some b -> P p b.
Proof.
  intros H0 H1 H2 H3 H4 H5 p b H. unfold tree in H.
  repeat (apply lookup_insert_Some in H as [[<- <-]|[_ H]]; [done|]). done.
Qed.

Lemma tree_index : index_ok tree.
Proof.
  assert (forall q, is_Some (tree !! q) -> (q < 6)%nat) as Hlt.
  { intros q [b Hq]. revert q b Hq. apply tree_cases; lia. }
  split.
  - intros p b. revert p b. apply tree_cases; (split; [simpl; lia|done| |done]); simpl; intros q [= <-];
      eexists; (split; [vm_compute; reflexivity|done]).
  - intros p b. revert p b. apply tree_cases; apply (Arith256.of_u64_val _); by vm_compute.
  - intros p b. revert p b. apply tree_cases; by vm_compute.
  - intros p b q bq Hp. revert p b Hp q bq. apply (tree_cases (fun p b => forall q bq, pprev b = Some q ->
      tree !! q = Some bq -> _)); simpl; intros q bq [= <-] [= <-]; by vm_compute.
  - intros p b q bq Hp Hr Hq Hr'. assert (p = 0%nat) as ->.
    { revert p b Hp Hr. apply (tree_cases (fun p b => pprev b = None -> p = 0%nat)); done. }
    revert q bq Hq Hr'. apply (tree_cases (fun q bq => pprev bq = None -> 0%nat = q)); done.
  - intros p b q bq _ _ _ Hq. revert q bq Hq. apply tree_cases; done.
  - intros p b Hp _. revert p b Hp. apply tree_cases; by vm_compute.
Qed.

Lemma tree_valid p : is_Some (tree !! p) -> valid_chain tree p.
Proof. intros _ q b _. revert q b. apply tree_cases; by vm_compute. Qed.

Lemma start_ok bad c : (forall p, p ∈ c -> (p < 6)%nat) -> bad 0%nat = false -> bad 1%nat = false ->
  @state_ok world (fun p => bad p = false) (start c).
Proof.
  intros Hc H0 H1. split; simpl; try done.
  - apply tree_index.
  - exists 1%nat, (entry (Some 0%nat) 1 2 2). split_and!; [done|done|].
    intros [|[|i]] Hi; [done..|]. simpl in Hi. lia.
  - intros q b [i Hi] Hq. assert (bad q = false) as Hb by (destruct i as [|[|i]]; [by injection Hi as <-..|done]).
    split_and!; [|clear Hi Hb; revert q b Hq|done].
    + by apply (tree_valid q (ex_intro _ b Hq) q b (ancestor_refl _ _)).
    + apply tree_cases; done.
  - intros p Hp. apply Hc in Hp. do 6 (destruct p as [|p]; [eexists; split; [vm_compute; reflexivity|done]|]). lia.
Qed.

Definition candidates : gset nat := {[1%nat; 3%nat; 4%nat; 5%nat]}.
Definition bad5 (p : nat) : bool := bool_decide (p = 5%nat).
Definition bad3 (p : nat) : bool := bool_decide (p = 3%nat).

Lemma start3_ok : @state_ok world (fun p => bad3 p = false) (start candidates).
Proof. apply start_ok; [|done..]. intros p. unfold candidates. rewrite !elem_of_union, !elem_of_singleton. lia. Qed.

Lemma start3_complete : complete (start candidates) 1.
Proof.
  intros q b Hq _ _. revert q b Hq.
  apply (tree_cases (fun q _ => ~ worse tree q 1 -> q ∈ candidates)); intros H; try (unfold candidates; set_solver);
    destruct H; (apply (bool_decide_unpack _); vm_compute; exact I).
Qed.

End Sample.


(** ** The best candidate *)

(** C6: [FindMostWorkChain] always returns.  It drops candidates only when a block
    on their chain failed or lacks data, and returns the greatest of the others in
    the order of the comparator (most work, then first received); it returns
    nothing only when no candidate has a chain that can be used. *)
Theorem FindMostWorkChain_best {W : Type} `{!ChainClient W} (cv : nat -> Prop) (s : state W) (Hs : state_ok cv s) :
  exists r s', FindMostWorkChain s = Some (r, s') /\ state_ok cv s' /\ chainActive s' = chainActive s /\
    setBlockIndexCandidates s' ⊆ setBlockIndexCandidates s /\
    (forall q, q ∈ setBlockIndexCandidates s -> q ∉ setBlockIndexCandidates s' -> ~ valid_chain (index s) q) /\
    match r with
    | Some p => p ∈ setBlockIndexCandidates s /\ valid_chain (index s) p /\
        forall q, q ∈ setBlockIndexCandidates s -> valid_chain (index s) q -> ~ worse (index s) p q
    | None => forall q, q ∈ setBlockIndexCandidates s -> ~ valid_chain (index s) q
    end.
Proof.
  destruct (FindMostWorkChain_spec cv s Hs) as (r & s' & Hrun & Hl & Hs' & Hr). exists r, s'.
  assert (forall q, q ∈ setBlockIndexCandidates s -> valid_chain (index s) q -> q ∈ setBlockIndexCandidates s') as Hkeep.
  { intros q Hq Hv. destruct (decide (q ∈ setBlockIndexCandidates s')) as [|Hn]; [done|]. by destruct (sl_erased _ _ Hl q Hq Hn). }
  split_and!; [done|done|apply Hl..|]. destruct r as [p|].
  - destruct Hr as (H1 & H2 & H3). split_and!; [by apply (sl_candidates _ _ Hl)|by apply (search_valid _ _ p Hl)|].
    intros q Hq Hv. rewrite <- (worse_heap_le _ _ _ _ (sl_heap _ _ Hl)). auto.
  - intros q Hq Hv. specialize (Hkeep q Hq Hv). rewrite Hr in Hkeep. set_solver.
Qed.

Lemma FindMostWorkChain_best_witness :
  exists s', @FindMostWorkChain _ (Sample.start Sample.candidates) = Some (Some 3%nat, s') /\ ~ worse Sample.tree 3 4.
Proof.
  destruct (@FindMostWorkChain_best _ (Sample.client Sample.bad3 false) _ _ Sample.start3_ok)
    as (r & s' & Hrun & _ & _ & _ & _ & Hr).
  exists s'. assert (r = Some 3%nat) as ->.
  { assert (fst <$> @FindMostWorkChain _ (Sample.start Sample.candidates) = Some (Some 3%nat)) as E
      by (vm_compute; reflexivity).
    rewrite Hrun in E. by injection E. }
  split; [done|]. apply Hr; [vm_compute; reflexivity|]. apply Sample.tree_valid. eexists. vm_compute. reflexivity.
Defined.

(** ** The active chain *)

(** C5: In a state where every block with a usable chain that is not worse than the
    tip is a candidate, [ActivateBestChain] returns; when it returns [true], the
    tip's chain has no failed block and no known block whose chain is complete and
    not marked failed is better than the tip, however many blocks were rejected
    and reorganizations undone on the way; and the state is again of that kind.
    Validation is any client whose calls all return and whose verdict on a block
    does not change and never suspects corruption; the reorganisation limit is
    positive. *)
Theorem ActivateBestChain_selects {W : Type} `{!ChainClient W, !ClientLaws W} (params : Consensus.Params)
    (cv : nat -> Prop) (Htotal : client_total W) (Hcv : deterministic W cv) (Hreorg : 0 < MAX_REORG_LENGTH params)
    (st : TxCheck.CValidationState) (pblock : option (list Z * Merkle.CBlock)) (s : state W) (t : nat)
    (Hs : state_ok cv s) (Htip : Tip (chainActive s) = Some t) (Hc : complete s t) :
  exists ok st' s', ActivateBestChain params st pblock s = Some (ok, st', s') /\
    (ok = true -> state_ok cv s' /\ exists t', Tip (chainActive s') = Some t' /\ complete s' t' /\
       valid_chain (index s') t' /\
       forall q b, index s' !! q = Some b -> nChainTx b <> 0 -> valid_chain (index s') q -> ~ worse (index s') t' q).
Proof.
  destruct (so_chain cv s Hs) as (t0 & bt & Ht). pose proof (chain_tip _ _ _ _ (so_tree cv s Hs) Ht) as E.
  assert (t0 = t) as -> by congruence.
  destruct (ActivateBestChain_spec params Htotal cv Hcv st pblock s t bt Hreorg Hs Ht Hc) as (ok & st' & s' & Hrun & Hfin).
  exists ok, st', s'. split; [done|]. intros Hok. destruct (Hfin Hok) as (Hs' & (t' & bt' & Ht' & Hr & Hbest) & _).
  split; [done|]. exists t'. split_and!; [by eapply chain_tip, Ht'; apply Hs'|apply Hr|apply Hr|done].
Qed.

(** Block 3 is tried first and rejected; the node ends on block 4. *)
Lemma ActivateBestChain_selects_witness :
  exists st' s', @ActivateBestChain _ (Sample.client Sample.bad3 false) Consensus.CMainParams
      TxCheck.CValidationState_init None (Sample.start Sample.candidates) = Some (true, st', s') /\
    Tip (chainActive s') = Some 4%nat /\ complete s' 4.
Proof.
  destruct (@ActivateBestChain_selects _ (Sample.client Sample.bad3 false) (Sample.client_laws _ _) Consensus.CMainParams
    (fun p => Sample.bad3 p = false) (Sample.client_ok _ _) (Sample.client_deterministic _) ltac:(by vm_compute)
    TxCheck.CValidationState_init None (Sample.start Sample.candidates) 1 Sample.start3_ok eq_refl Sample.start3_complete)
    as (ok & st' & s' & Hrun & Hok).
  assert ((fun r => (r.1.1, Tip (chainActive r.2))) <$>
    @ActivateBestChain _ (Sample.client Sample.bad3 false) Consensus.CMainParams TxCheck.CValidationState_init None
      (Sample.start Sample.candidates) = Some (true, Some 4%nat)) as E by (vm_compute; reflexivity).
  rewrite Hrun in E. cbn in E. injection E as -> Ht.
  destruct (Hok eq_refl) as (_ & t' & Ht' & Hc & _). rewrite Ht in Ht'. injection Ht' as <-.
  exists st', s'. split_and!; [exact Hrun|exact Ht|exact Hc].
Defined.


(** ** A block judged corrupted *)

Section corrupted.
Context {W : Type} `{!ChainClient W, !ClientLaws W} (params : Consensus.Params).
Context (Htotal : client_total W) (Hreorg : 0 < MAX_REORG_LENGTH params).
Context (cv : nat -> Prop) (p : nat).
Implicit Types s : state W.

(** The best candidate is the next block of the active chain. *)
Definition next_is_best s : Prop :=
  state_ok cv s /\ best_of s p /\ exists bp, index s !! p = Some bp /\ pprev bp = Tip (chainActive s) /\
    is_Some (Tip (chainActive s)).

Lemma best_found s : state_ok cv s -> best_of s p -> FindMostWorkChain s = Some (Some p, s).
Proof.
  intros Hs (B1 & B2 & B3). unfold FindMostWorkChain.
  destruct (rbegin_spec (index s) (setBlockIndexCandidates s) (io_work _ (so_index cv s Hs)) (fun q => so_mapped cv s q Hs))
    as (r & Hr & Hmax). destruct r as [q|]; [|set_solver]. destruct Hmax as [Hq Hmax].
  assert (q = p) as ->.
  { destruct (decide (q = p)) as [|Hn]; [done|].
    destruct (worse_total (index s) q p) as [H|H]; [by eapply so_mapped..|done| |].
    - by destruct (Hmax p B1).
    - by destruct (B3 q Hq). }
  destruct (so_candidates cv s Hs p B1) as (b & Hb & Hc). pose proof (node_height _ _ _ (so_tree cv s Hs _ _ Hb)).
  destruct (scan_spec cv s (Z.to_nat (nHeight b + 1)) p b Hs Hb Hc ltac:(lia)) as (bad & Hscan & Hbad).
  assert (bad = None) as ->.
  { destruct bad as [[q f]|]; [|done]. destruct Hbad as (bq & n & Hbq & Hn & _ & Hg & _). destruct Hg.
    apply (B2 q); [by exists n|done]. }
  destruct (size _); cbn [find_most_work]; rewrite Hr; monad; rewrite Hb; monad; by rewrite Hscan.
Qed.

Context (Hread : forall (w : W) b, is_Some (ReadBlockFromDisk w b)).
Context (Hcorrupt : forall known m block st (w : W) b, m !! p = Some b -> exists st' w',
  ConnectBlock known m p block st w = Some (false, st', b, w') /\ TxCheck.IsInvalid st' = true /\
  TxCheck.corruptionPossible st' = true).

Lemma corrupt_connect st pblock s bp t : state_ok cv s -> Tip (chainActive s) = Some t ->
  index s !! p = Some bp -> pprev bp = Some t ->
  exists st' s', ConnectTip st p pblock s = Some (false, st', s') /\ same_core s s' /\ state_ok cv s' /\
    TxCheck.IsInvalid st' = true /\ TxCheck.corruptionPossible st' = true.
Proof using Hread Hcorrupt Htotal.
  intros Hs Ht Hp Hpr. unfold ConnectTip. rewrite Hp. monad. rewrite Hpr, Ht, bool_decide_true by done. cbn [negb].
  destruct (Hread (world s) bp) as [block0 ->].
  assert (exists block, match pblock with Some block => Some block | None => Some block0 end = Some block) as [block ->]
    by (destruct pblock; eauto).
  destruct (ct_trees W Htotal (world s)) as [w0 ->]. monad.
  destruct (Hcorrupt (mapBlockIndex s) (index s) block st w0 bp Hp) as (st1 & w1 & -> & Hinv & Hcor). monad. cbn [negb].
  rewrite Hinv. unfold InvalidBlockFound. cbn [set_world set_index index]. rewrite lookup_insert_eq. monad.
  rewrite Hinv, Hcor. monad. rewrite insert_id by done. do 2 eexists. split; [done|].
  split_and!; [done| |done..]. by apply (core_ok cv s _ Hs); [|apply Hs..].
Qed.

Lemma corrupt_step st pblock s : next_is_best s ->
  exists s', ActivateBestChainStep params st p pblock s = Some (true, TxCheck.CValidationState_init, s') /\
    same_core s s' /\ state_ok cv s'.
Proof using Htotal Hreorg Hread Hcorrupt ClientLaws0.
  intros (Hs & Hbest & bp & Hbp & Hpr & [t Ht]). rewrite Ht in Hpr. pose proof (so_tree cv s Hs) as Htree.
  destruct (so_chain cv s Hs) as (t0 & bt & Hch). pose proof (chain_tip _ _ _ _ Htree Hch) as E. rewrite Ht in E.
  injection E as <-. pose proof (proj1 Hch) as Hbt.
  destruct (node_prev _ _ _ (Htree _ _ Hbp) _ Hpr) as (bt' & Hbt' & Hh). assert (bt' = bt) as -> by congruence.
  pose proof (node_height _ _ _ (Htree _ _ Hbt)) as H0.
  unfold ActivateBestChainStep. rewrite Ht.
  assert (FindFork (index s) (chainActive s) p = Some (Some t)) as ->.
  { destruct (FindFork_spec _ Htree _ p bp (so_chain_ok cv s Hs) Hbp) as (r & -> & Hr).
    assert (is_ancestor (index s) t p) as Ha by (exists 1%nat; cbn [back]; rewrite Hbp; monad; by rewrite Hpr).
    assert (in_chain (chainActive s) t) as Hin by (eapply ancestor_in_chain; [done..|apply ancestor_refl]).
    destruct r as [f|]; [|by destruct (Hr t Ha)]. destruct Hr as (Hf & Haf & Hmax). do 2 f_equal.
    destruct (ancestor_mapped _ Htree p bp f Hbp Haf) as [bf Hbf].
    pose proof (Hmax t bf bt Hin Ha Hbf Hbt) as Hle.
    pose proof (chain_in_ancestor _ _ _ _ _ Hch Hf) as [n Hn].
    pose proof (back_height _ Htree _ _ _ _ _ Hbt Hn Hbf). assert (n = 0)%nat as -> by lia. by injection Hn. }
  monad. rewrite Hbt. monad. rewrite (proj2 (Z.ltb_lt _ _) Hreorg). cbn [negb].
  rewrite (proj2 (Z.ltb_ge _ _)) by lia.
  assert (exists n, length (chainActive s) = S n) as [n ->].
  { pose proof (chain_length _ _ _ _ Htree Hch). destruct (length (chainActive s)); [lia|eauto]. }
  cbn [disconnect_to]. rewrite Ht, bool_decide_true by done. monad. cbn [negb]. rewrite Hbp. monad.
  replace (Z.to_nat (nHeight bp + 1)) with (S (Z.to_nat (nHeight bp))) by lia. cbn [connect_batches]. rewrite Hbp. monad.
  rewrite (proj2 (Z.eqb_neq _ _)) by lia. replace (Z.min (nHeight bt + 32) (nHeight bp)) with (nHeight bp) by lia.
  destruct (GetAncestor_back _ Htree p bp (nHeight bp) Hbp) as (q & bq & -> & Hq & _); [lia|].
  rewrite Z.sub_diag in Hq. injection Hq as <-. monad. cbn [batch]. rewrite Hbp. monad.
  rewrite (proj2 (Z.eqb_neq _ _)) by lia. cbn [batch]. rewrite Hpr, Hbt. monad. rewrite Z.eqb_refl. monad.
  cbn [last rev app connect_blocks].
  destruct (corrupt_connect st (if bool_decide (p = p) then pblock else None) s bp t Hs Ht Hbp Hpr)
    as (st1 & s1 & -> & Hc1 & Hs1 & Hinv & Hcor). monad. cbn [negb]. rewrite Hinv, Hcor. monad.
  destruct (finish_step_spec params Htotal cv false true (Some p) TxCheck.CValidationState_init s1 Hs1)
    as (s2 & -> & Hc2 & Hs2); [intros _; exists p; rewrite (sc_index _ _ Hc1); eauto|].
  exists s2. split_and!; [done|by eapply same_core_trans|done].
Qed.

Lemma next_is_best_core s s' : same_core s s' -> state_ok cv s' -> next_is_best s -> next_is_best s'.
Proof. intros [Hi Hc Hd] Hs' (Hs & Hb & H). split; [done|]. unfold best_of. by rewrite Hi, Hc, Hd. Qed.

Lemma corrupt_loop fuel : forall st pblock s, next_is_best s -> activate_loop params fuel st pblock s = None.
Proof using Htotal Hreorg Hread Hcorrupt ClientLaws0.
  induction fuel as [|fuel IH]; intros st pblock s Hn; cbn [activate_loop];
    destruct Hn as (Hs & Hbest & bp & Hbp & Hpr & [t Ht]); rewrite (best_found s Hs Hbest); monad;
    (rewrite bool_decide_false;
      [|intros E; rewrite <- E in Hpr;
        destruct (node_prev _ _ _ (so_tree cv s Hs _ _ Hbp) _ Hpr) as (b2 & Hb2 & Hh2);
        assert (b2 = bp) as -> by congruence; lia]);
    rewrite Hbp; monad;
    match goal with |- context [ActivateBestChainStep params st p ?g s] =>
      destruct (corrupt_step st g s) as (s1 & -> & Hc1 & Hs1); [split_and!; eauto|] end; monad; cbn [negb];
    destruct (ct_ibd W Htotal (index s1) (chainActive s1) (ChainState.world s1)) as [[ibd w] ->]; monad;
    (rewrite bool_decide_false;
      [|cbn [set_world chainActive]; rewrite (sc_chain _ _ Hc1); intros E; rewrite <- E in Hpr;
        destruct (node_prev _ _ _ (so_tree cv s Hs _ _ Hbp) _ Hpr) as (b2 & Hb2 & Hh2);
        assert (b2 = bp) as -> by congruence; lia]); [done|].
  apply IH, (next_is_best_core s1); [done| |].
  - by apply (core_ok cv s1 _ Hs1); [|apply Hs1..].
  - apply (next_is_best_core s); [done|done|]. split_and!; eauto.
Qed.


End corrupted.


(** C15: When validation reports the next block of the active chain as possibly
    corrupted and that block is the best candidate, a step changes neither the
    index, nor the chain, nor the candidates, and succeeds; so [ActivateBestChain]
    tries the block again and again and never returns.  All blocks can be read
    and the other calls of the client return. *)
Theorem corrupt_block_loops {W : Type} `{!ChainClient W, !ClientLaws W} (params : Consensus.Params)
    (Htotal : client_total W) (Hreorg : 0 < MAX_REORG_LENGTH params) (cv : nat -> Prop) (p : nat) (s : state W)
    (Hread : forall (w : W) b, is_Some (ReadBlockFromDisk w b))
    (Hcorrupt : forall known m block st (w : W) b, m !! p = Some b -> exists st' w',
       ConnectBlock known m p block st w = Some (false, st', b, w') /\ TxCheck.IsInvalid st' = true /\
       TxCheck.corruptionPossible st' = true)
    (Hbest : next_is_best cv p s) :
  (forall st pblock, exists s', ActivateBestChainStep params st p pblock s = Some (true, TxCheck.CValidationState_init, s') /\
     same_core s s') /\
  (forall fuel st pblock, activate_loop params fuel st pblock s = None).
Proof.
  split.
  - intros st pblock. destruct (corrupt_step params Htotal Hreorg cv p Hread Hcorrupt st pblock s Hbest) as (s' & ? & ? & _). eauto.
  - intros fuel st pblock. by eapply corrupt_loop.
Qed.

Lemma corrupt_block_loops_witness :
  @ActivateBestChain _ (Sample.client Sample.bad5 true) Consensus.CMainParams
    TxCheck.CValidationState_init None (Sample.start {[5%nat]}) = None.
Proof.
  apply (@corrupt_block_loops _ (Sample.client Sample.bad5 true) (Sample.client_laws _ _) Consensus.CMainParams
    (Sample.client_ok _ _) ltac:(by vm_compute) (fun p => Sample.bad5 p = false) 5).
  - intros w b. by eexists.
  - intros known m block st w b Hb. simpl. rewrite Hb. by do 2 eexists.
  - split_and!.
    + apply Sample.start_ok; [|done..]. intros p Hp. apply elem_of_singleton in Hp as ->. lia.
    + split_and!; [by apply elem_of_singleton|apply Sample.tree_valid; eexists; vm_compute; reflexivity|].
      intros q Hq. simpl in Hq. apply elem_of_singleton in Hq as ->. apply worse_irrefl.
    + eexists. split; [vm_compute; reflexivity|]. split; [done|]. by eexists.
Defined.

End ChainSafety.
