(* ===== verification/ChainInvalidate.v ===== *)
(** * Marking blocks by hand (InvalidateBlock, ReconsiderBlock)

    [InvalidateBlock] leaves a state from which [ActivateBestChain] finds the best
    chain without the block; [ReconsiderBlock] does not: it clears the flags of
    the ancestors without making their other descendants candidates. *)

From stdpp Require Import base list list_numbers numbers option gmap strings fin_sets.
From Stdlib Require Import ZArith Lia.
From S2P Require Import Prelude Bytes ArithUint256 Params Chain ChainFacts Pow Transaction Merkle TxCheck ChainState ChainStateFacts ChainSelect ChainSafety.
Import BlockIndex ChainFacts ChainState ChainStateFacts ChainSelect ChainSafety.
#[local] Open Scope Z_scope.

Module ChainInvalidate.

Section invalidate.
Context {W : Type} `{!ChainClient W, !ClientLaws W} (params : Consensus.Params).
Context (Htotal : client_total W) (cv : nat -> Prop).
Implicit Types s : state W.

(** [s] came from [s0] by marking descendants of [p] and moving the tip back. *)
Record marked s0 s (p : nat) : Prop := {
  mk_heap : heap_le (index s0) (index s);
  mk_entry : forall q b b', index s0 !! q = Some b -> index s !! q = Some b' -> b' = b \/ is_ancestor (index s0) p q;
  mk_candidates : setBlockIndexCandidates s ⊆ setBlockIndexCandidates s0;
  mk_invalid : pindexBestInvalid s = pindexBestInvalid s0;
  mk_warning : warning s = warning s0;
  mk_known : mapBlockIndex s = mapBlockIndex s0;
  mk_chain : exists t t0 bt bt0, chain_for (index s0) (chainActive s0) t0 bt0 /\
    chain_for (index s) (chainActive s) t bt /\ is_ancestor (index s0) t t0
}.

Lemma marked_refl s p t bt : chain_for (index s) (chainActive s) t bt -> marked s s p.
Proof.
  intros Ht. split; try done; [intros; left; congruence|]. exists t, t, bt, bt. split_and!; [done..|apply ancestor_refl].
Qed.

Lemma mark_step s0 s p q b bits : marked s0 s p -> index s !! q = Some b -> is_ancestor (index s0) p q ->
  bits = BLOCK_FAILED_VALID \/ bits = BLOCK_FAILED_CHILD ->
  exists s', mark (fun n => Z.lor n bits) q s = Some s' /\ marked s0 (erase_candidate q (dirty q s')) p /\
    chainActive s' = chainActive s /\ heap_le (index s) (index s').
Proof.
  intros [H1 H2 H4 H5 H6 H7 (t & t0 & bt & bt0 & Ht0 & Ht & Ha)] Hq Hpq Hbits. unfold mark. rewrite Hq. monad.
  eexists. split; [done|]. destruct (mark_failed_le b bits Hbits) as [Hle Hf].
  pose proof (heap_le_insert _ _ _ _ Hq Hle) as Hl. split; [|done]. split; simpl; try done.
  - by etransitivity.
  - intros x bx bx' Hx Hx'. destruct (decide (q = x)) as [<-|Hn]; [by right|].
    rewrite lookup_insert_ne in Hx' by done. eauto.
  - set_solver.
  - destruct (heap_le_fwd _ _ _ _ Hl (proj1 Ht)) as (bt' & Hbt' & Hle'). exists t, t0, bt', bt0.
    split_and!; [done|by eapply heap_le_chain_for|done].
Qed.

(** The loop of [InvalidateBlock] leaves the active chain below the block. *)
Lemma invalidate_loop_spec s0 fuel p bp g : tree_ok (index s0) -> index s0 !! p = Some bp -> pprev bp = Some g ->
  forall st s t bt, marked s0 s p -> chain_for (index s) (chainActive s) t bt ->
  nHeight bt - nHeight bp < Z.of_nat fuel ->
  exists ok st' s', invalidate_loop fuel p st s = Some (ok, st', s') /\ marked s0 s' p /\ heap_le (index s) (index s') /\
    (ok = true -> ~ in_chain (chainActive s') p).
Proof using Htotal ClientLaws0 cv.
  intros Htree0 Hp Hg. induction fuel as [|fuel IH]; intros st s t bt Hm Ht Hf;
    pose proof (mk_heap _ _ _ Hm) as Hh; pose proof (heap_le_tree _ _ Hh Htree0) as Htree;
    destruct (heap_le_fwd _ _ _ _ Hh Hp) as (bp' & Hp' & Hlp); cbn [invalidate_loop];
    destruct (Contains_in_chain _ Htree (chainActive s) p bp') as [-> Hin]; [right; eauto|done| |right; eauto|done|]; monad.
  all: case_bool_decide as Hc; [apply Hin in Hc|by do 3 eexists; split_and!; [done|done|done|intros _ Hx; apply Hc, Hin]].
  { pose proof (chain_in_ancestor _ _ _ _ _ Ht Hc) as [n Hn].
    pose proof (back_height _ Htree _ _ _ _ _ (proj1 Ht) Hn Hp') as E. rewrite (le_height _ _ Hlp) in E. lia. }
  rewrite (chain_tip _ _ _ _ Htree Ht). monad. pose proof (chain_in_ancestor _ _ _ _ _ Ht Hc) as Hpt.
  pose proof (proj1 (heap_le_ancestor _ _ _ _ Hh) Hpt) as Hpt0.
  destruct (mark_step s0 s p t bt BLOCK_FAILED_CHILD Hm (proj1 Ht) Hpt0) as (s1 & -> & Hm1 & Hch1 & Hle1); [by right|]. monad.
  set (s2 := erase_candidate t (dirty t s1)) in *. pose proof (mk_heap _ _ _ Hm1) as Hh2.
  pose proof (heap_le_tree _ _ Hh2 Htree0) as Htree2.
  destruct (mk_chain _ _ _ Hm1) as (t' & t0 & bt2 & bt0 & Ht0 & Ht2 & Ha).
  assert (t' = t) as ->.
  { pose proof (chain_tip _ _ _ _ Htree2 Ht2) as E1. pose proof (chain_tip _ _ _ _ Htree Ht) as E2.
    unfold s2 in E1. simpl in E1. rewrite Hch1 in E1. congruence. }
  assert (exists q, pprev bt2 = Some q) as (q & Hq).
  { destruct (pprev bt2) as [q|] eqn:E; [eauto|]. destruct (heap_le_fwd _ _ _ _ Hh2 Hp) as (bp2 & Hp2 & Hlp2).
    apply (heap_le_ancestor _ _ _ _ Hh2) in Hpt0. destruct Hpt0 as [[|n] Hn]; cbn [back] in Hn.
    - injection Hn as ->. assert (bp2 = bt2) as -> by (destruct Ht2; congruence). rewrite (le_prev _ _ Hlp2) in E. congruence.
    - rewrite (proj1 Ht2) in Hn. monad_in Hn. by rewrite E in Hn. }
  destruct (disconnect_effect Htotal st s2 t bt2 q Htree2 Ht2 Hq)
    as (ok & st3 & s3 & -> & Hi3 & Hd3 & Hv3 & Hw3 & Hk3 & Hc3). monad.
  assert (marked s0 s3 p /\ (ok = true -> exists bq, chain_for (index s3) (chainActive s3) q bq)) as [Hm3 Hc3'].
  { rewrite <- Hi3 in Hc3. split; [|by intros ->]. destruct Hm1 as [A1 A2 A4 A5 A6 A7 _].
    split; rewrite ?Hi3, ?Hd3, ?Hv3, ?Hw3, ?Hk3; try done. destruct ok.
    - destruct Hc3 as (bq & Hbq). exists q, t0, bq, bt0. rewrite Hi3 in Hbq. split_and!; [done..|].
      eapply ancestor_trans; [|done]. apply (heap_le_ancestor _ _ _ _ Hh2). exists 1%nat. cbn [back].
      rewrite (proj1 Ht2). monad. by rewrite Hq.
    - exists t, t0, bt2, bt0. by rewrite Hc3. }
  destruct ok; cbn [negb]; [|do 3 eexists; split_and!; [done|done|by rewrite Hi3|done]].
  destruct (Hc3' eq_refl) as (bq & Hbq).
  destruct (IH st3 s3 q bq Hm3 Hbq) as (ok4 & st4 & s4 & Hrun & Hm4 & Hle4 & Hout);
    [|do 3 eexists; split_and!; [done|done| |done]; rewrite Hi3 in Hle4; by etransitivity].
  destruct (node_prev _ _ _ (Htree2 _ _ (proj1 Ht2)) _ Hq) as (bq' & Hbq' & Hhq).
  rewrite <- Hi3 in Hbq'. assert (bq' = bq) as -> by (destruct Hbq; congruence).
  destruct (heap_le_bwd _ _ _ _ Hh2 (proj1 Ht2)) as (b1 & Hb1 & Hl1), (heap_le_bwd _ _ _ _ Hh (proj1 Ht)) as (b2 & Hb2 & Hl2).
  rewrite (le_height _ _ Hl1) in Hhq. rewrite (le_height _ _ Hl2) in Hf. assert (b1 = b2) as -> by congruence. lia.
Qed.

(** A marked state whose chain avoids the block satisfies the invariant again. *)
Lemma marked_ok s0 s p : state_ok cv s0 -> marked s0 s p -> ~ in_chain (chainActive s) p -> state_ok cv s.
Proof.
  intros Hs0 [H1 H2 H4 H5 H6 H7 (t & t0 & bt & bt0 & Ht0 & Ht & Ha)] Hn.
  pose proof (heap_le_tree _ _ H1 (so_tree cv s0 Hs0)) as Htree. split.
  - by eapply heap_le_index, so_index.
  - eauto.
  - intros q b' Hq Hb'. destruct (heap_le_bwd _ _ _ _ H1 Hb') as (b & Hb & Hle).
    destruct (H2 q b b' Hb Hb') as [->|Hpq].
    + apply (active_ancestor cv s0 t0 bt0 q b Hs0 Ht0); [|done]. eapply ancestor_trans; [|done].
      apply (heap_le_ancestor _ _ _ _ H1). by eapply chain_in_ancestor.
    + destruct Hn. apply (heap_le_ancestor _ _ _ _ H1) in Hpq. by eapply chain_down.
  - intros q Hq. apply H4 in Hq. destruct (so_candidates cv s0 Hs0 q Hq) as (b & Hb & Hc).
    destruct (heap_le_fwd _ _ _ _ H1 Hb) as (b' & Hb' & Hle). exists b'. by rewrite (le_chaintx _ _ Hle).
  - intros q. rewrite H5. intros Hq. destruct (so_invalid cv s0 Hs0 q Hq) as [b Hb].
    destruct (heap_le_fwd _ _ _ _ H1 Hb) as (b' & Hb' & _). eauto.
  - intros q. rewrite H6. intros Hq. destruct (so_fork cv s0 Hs0 q Hq) as [b Hb].
    destruct (heap_le_fwd _ _ _ _ H1 Hb) as (b' & Hb' & _). eauto.
Qed.

(** ** Candidates again *)

Lemma has_transactions_spec b : exists r, has_transactions b = Some r /\
  (r = true <-> failed b = false /\ BLOCK_VALID_TRANSACTIONS <= level b /\ nChainTx b <> 0).
Proof.
  unfold has_transactions, IsValid.
  replace (Z.land BLOCK_VALID_TRANSACTIONS (u32 (Z.lnot BLOCK_VALID_MASK)) =? 0) with true by (vm_compute; reflexivity).
  cbn [negb]. fold (has (nStatus b) BLOCK_FAILED_MASK).
  unfold failed, level. destruct (has (nStatus b) BLOCK_FAILED_MASK); monad; eexists; (split; [done|]).
  - split; [done|]. intros [? _]. done.
  - rewrite andb_true_iff, negb_true_iff, Z.eqb_neq, Z.geb_leb, Z.leb_le. tauto.
Qed.

Lemma readd_spec l : forall s t bt, state_ok cv s -> chain_for (index s) (chainActive s) t bt ->
  (forall q, q ∈ l -> is_Some (index s !! q)) ->
  exists s', readd_candidates l s = Some s' /\ state_ok cv s' /\ index s' = index s /\ chainActive s' = chainActive s /\
    setBlockIndexCandidates s ⊆ setBlockIndexCandidates s' /\
    forall q b, q ∈ l -> index s !! q = Some b -> failed b = false -> nChainTx b <> 0 -> ~ worse (index s) q t ->
      q ∈ setBlockIndexCandidates s'.
Proof.
  induction l as [|p l IH]; intros s t bt Hs Ht Hl; cbn [readd_candidates].
  { exists s. split_and!; try done. set_solver. }
  destruct (Hl p) as [b Hb]; [set_solver|]. rewrite Hb. monad.
  destruct (has_transactions_spec b) as (ready & -> & Hready). monad.
  assert (exists keep, (if ready then t ← Tip (chainActive s); less ← CBlockIndexWorkComparator (index s) p t; Some (negb less)
    else Some false) = Some keep /\ (keep = true <-> ready = true /\ ~ worse (index s) p t)) as (keep & -> & Hkeep).
  { destruct ready; [|exists false; split; [done|]; split; [done|by intros [? _]]].
    rewrite (chain_tip _ _ _ _ (so_tree cv s Hs) Ht). monad.
    destruct (comparator_spec (index s) p t b bt (io_work _ (so_index cv s Hs)) Hb (proj1 Ht)) as (lt & -> & Hlt). monad.
    eexists. split; [done|]. rewrite negb_true_iff, <- not_true_iff_false, Hlt. tauto. }
  monad. set (s1 := if keep then insert_candidate p s else s).
  assert (state_ok cv s1 /\ index s1 = index s /\ chainActive s1 = chainActive s /\
    setBlockIndexCandidates s ⊆ setBlockIndexCandidates s1 /\ (keep = true -> p ∈ setBlockIndexCandidates s1))
    as (Hs1 & Hi1 & Hc1 & Hd1 & Hp1).
  { unfold s1. destruct keep; [|by split_and!]. split_and!; simpl; [|done|done|set_solver|set_solver].
    split; simpl; try apply Hs. intros q Hq. destruct (decide (q = p)) as [->|Hn].
    - exists b. split; [done|]. by apply Hready, Hkeep.
    - apply (so_candidates cv s Hs). set_solver. }
  destruct (IH s1 t bt) as (s' & -> & Hs' & Hi' & Hc' & Hd' & Hall); rewrite ?Hi1, ?Hc1; try done.
  { intros q Hq. apply Hl. set_solver. }
  exists s'. rewrite Hi1, Hc1 in *. split_and!; [done..|set_solver|].
  intros q bq Hq Hbq Hf Hc Hw. apply elem_of_cons in Hq as [->|Hq]; [|by eapply Hall].
  apply Hd', Hp1, Hkeep. split; [|done]. apply Hready. assert (bq = b) as -> by congruence.
  split_and!; [done| |done]. by eapply (io_level _ (so_index cv s Hs)).
Qed.

Lemma pool_reorg_spec s t bt : tree_ok (index s) -> chain_for (index s) (chainActive s) t bt ->
  exists w, pool_reorg params s = Some (set_world s w).
Proof.
  intros Htree Ht. unfold pool_reorg. rewrite (chain_tip _ _ _ _ Htree Ht). monad. rewrite (proj1 Ht). monad.
  pose proof (node_height _ _ _ (Htree _ _ (proj1 Ht))).
  destruct (Consensus.branch_id_separates_epochs params (nHeight bt + 1) (nHeight bt + 1)) as (_ & br & -> & _); [lia..|].
  monad. eauto.
Qed.


Lemma InvalidateBlock_spec st s p bp g t bt : state_ok cv s -> chain_for (index s) (chainActive s) t bt ->
  index s !! p = Some bp -> pprev bp = Some g -> (forall q, is_Some (index s !! q) <-> q ∈ known_blocks s) ->
  exists ok st' s', InvalidateBlock params st p s = Some (ok, st', s') /\
    (ok = true -> state_ok cv s' /\ ~ in_chain (chainActive s') p /\
       (exists b, index s' !! p = Some b /\ failed b = true) /\
       (exists t', Tip (chainActive s') = Some t' /\ complete s' t') /\ heap_le (index s) (index s')).
Proof using Htotal ClientLaws0 cv.
  intros Hs Ht Hp Hg Hknown. pose proof (so_tree cv s Hs) as Htree. unfold InvalidateBlock.
  destruct (mark_step s s p p bp BLOCK_FAILED_VALID) as (s1 & Hmark & Hm1 & Hch1 & _);
    [by apply (marked_refl s p t bt)|done|apply ancestor_refl|by left|]. rewrite Hmark. monad.
  set (s2 := erase_candidate p (dirty p s1)) in *.
  assert (exists b2, index s2 !! p = Some b2 /\ failed b2 = true) as (b2 & Hb2 & Hf2).
  { unfold mark in Hmark. rewrite Hp in Hmark. injection Hmark as <-. simpl. rewrite lookup_insert_eq.
    eexists. split; [done|]. by apply mark_failed_le; left. }
  pose proof (mk_heap _ _ _ Hm1) as Hh. destruct (heap_le_fwd _ _ _ _ Hh (proj1 Ht)) as (bt2 & Hbt2 & Hlt).
  assert (chain_for (index s2) (chainActive s2) t bt2) as Ht2.
  { unfold s2. simpl. rewrite Hch1. by eapply heap_le_chain_for. }
  pose proof (chain_length _ _ _ _ Htree Ht) as Hlen. pose proof (node_height _ _ _ (Htree _ _ Hp)).
  destruct (invalidate_loop_spec s (length (chainActive s1)) p bp g Htree Hp Hg st s2 t bt2 Hm1 Ht2)
    as (ok & st3 & s3 & -> & Hm3 & Hle3 & Hout); [rewrite Hch1, (le_height _ _ Hlt); lia|]. monad.
  pose proof (heap_le_tree _ _ (mk_heap _ _ _ Hm3) Htree) as Htree3.
  destruct (mk_chain _ _ _ Hm3) as (t3 & t0 & bt3 & bt0 & Ht0 & Ht3 & Ha3).
  destruct ok; cbn [negb].
  2: { destruct (pool_reorg_spec s3 t3 bt3 Htree3 Ht3) as (w & ->). monad. by do 3 eexists. }
  specialize (Hout eq_refl). pose proof (marked_ok s s3 p Hs Hm3 Hout) as Hs3.
  assert (known_blocks s3 = known_blocks s) as Hk3 by (unfold known_blocks; by rewrite (mk_known _ _ _ Hm3)).
  assert (forall q, is_Some (index s3 !! q) <-> q ∈ known_blocks s) as Hknown3.
  { intros q. rewrite <- Hknown. specialize (mk_heap _ _ _ Hm3 q). intros Hq. inversion Hq; split; intros; eauto; naive_solver. }
  rewrite Hk3. destruct (readd_spec (known_blocks s) s3 t3 bt3 Hs3 Ht3) as (s4 & -> & Hs4 & Hi4 & Hc4 & Hd4 & Hall);
    [intros q Hq; by apply Hknown3|]. monad.
  destruct (heap_le_fwd _ _ _ _ Hle3 Hb2) as (b3 & Hb3 & Hl3).
  destruct (invalid_chain_spec Htotal cv s4 p Hs4) as (s5 & -> & [Hi5 Hc5 Hd5] & Hs5); [rewrite Hi4; eauto|]. monad.
  rewrite <- Hi4, <- Hi5, <- Hc4, <- Hc5 in Ht3.
  destruct (pool_reorg_spec s5 t3 bt3 (so_tree cv s5 Hs5) Ht3) as (w & ->). monad. do 3 eexists. split; [done|]. intros _.
  split_and!; simpl.
  - by apply (core_ok cv s5 _ Hs5); [|apply Hs5..].
  - by rewrite Hc5, Hc4.
  - rewrite Hi5, Hi4. exists b3. split; [done|]. by apply (le_failed _ _ Hl3).
  - exists t3. split; [by eapply chain_tip, Ht3; apply so_tree with cv|]. intros q b. simpl. rewrite Hi5, Hi4, Hd5.
    intros Hq Hcq Hv Hw. eapply (Hall q b); [|done| |done|done].
    + apply Hknown3. eauto.
    + by apply (Hv q b (ancestor_refl _ _) Hq).
  - rewrite Hi5, Hi4. apply Hm3.
Qed.

End invalidate.


(** ** Theorems *)

(** C8: [InvalidateBlock] on a block other than the genesis block returns, and when
    it succeeds the block is marked failed and off the active chain; running
    [ActivateBestChain] next returns, and when that succeeds the node is on a chain
    that avoids the block and no known chain of valid blocks with data is better.
    This is proved for a consistent state in which the map of blocks holds every
    block, and for any client (validation, disk, memory pool) whose calls all return,
    whose verdict on a block depends on the block alone and which never suspects a
    rejected block of being corrupted ([client_total], [deterministic]); the
    reorganisation limit is positive. *)
Theorem invalidate_moves_off {W : Type} `{!ChainClient W, !ClientLaws W} (params : Consensus.Params)
    (cv : nat -> Prop) (Htotal : client_total W) (Hcv : deterministic W cv) (Hreorg : 0 < MAX_REORG_LENGTH params)
    (st : TxCheck.CValidationState) (s : state W) (p g : nat) (bp : CBlockIndex)
    (Hs : state_ok cv s) (Hp : index s !! p = Some bp) (Hg : pprev bp = Some g)
    (Hknown : forall q, is_Some (index s !! q) <-> q ∈ known_blocks s) :
  exists ok st' s', InvalidateBlock params st p s = Some (ok, st', s') /\
    (ok = true -> ~ in_chain (chainActive s') p /\ (exists b, index s' !! p = Some b /\ failed b = true) /\
       exists ok2 st2 s2, ActivateBestChain params st' None s' = Some (ok2, st2, s2) /\
         (ok2 = true -> exists t, Tip (chainActive s2) = Some t /\ ~ is_ancestor (index s2) p t /\
            forall q b, index s2 !! q = Some b -> nChainTx b <> 0 -> valid_chain (index s2) q -> ~ worse (index s2) t q)).
Proof.
  destruct (so_chain cv s Hs) as (t & bt & Ht).
  destruct (InvalidateBlock_spec params Htotal cv st s p bp g t bt Hs Ht Hp Hg Hknown) as (ok & st' & s' & Hrun & Hok).
  exists ok, st', s'. split; [done|]. intros E. destruct (Hok E) as (Hs' & Hout & (b & Hb & Hf) & (t' & Ht' & Hc) & _).
  split; [done|]. split; [by exists b|]. destruct (so_chain cv s' Hs') as (t1 & bt1 & Ht1).
  assert (t1 = t') as -> by (pose proof (chain_tip _ _ _ _ (so_tree cv s' Hs') Ht1); congruence).
  destruct (ActivateBestChain_spec params Htotal cv Hcv st' None s' t' bt1 Hreorg Hs' Ht1 Hc) as (ok2 & st2 & s2 & Hrun2 & Hok2).
  exists ok2, st2, s2. split; [done|]. intros E2. destruct (Hok2 E2) as (Hs2 & (t2 & bt2 & Ht2 & Hr & Hbest) & Hle & _).
  exists t2. split_and!; [by eapply chain_tip, Ht2; apply Hs2| |done].
  intros Ha. destruct (heap_le_fwd _ _ _ _ Hle Hb) as (b2 & Hb2 & Hl).
  destruct (rf_valid _ _ _ Hr p b2 Ha Hb2) as [Hnf _]. by rewrite (le_failed _ _ Hl Hf) in Hnf.
Qed.

Definition known_sample : gmap (list Z) nat :=
  <[[0] := 0%nat]> (<[[1] := 1%nat]> (<[[2] := 2%nat]> (<[[3] := 3%nat]> (<[[4] := 4%nat]> (<[[5] := 5%nat]> ∅))))).

(** Block 1 is the tip; without it the node moves to block 3. *)
Lemma invalidate_moves_off_witness :
  exists st' s' st2 s2 b, @InvalidateBlock _ (Sample.client (fun _ => false) false) Consensus.CMainParams
      TxCheck.CValidationState_init 1 (set_mapBlockIndex (Sample.start {[1%nat]}) known_sample) = Some (true, st', s') /\
    index s' !! 1%nat = Some b /\ failed b = true /\
    @ActivateBestChain _ (Sample.client (fun _ => false) false) Consensus.CMainParams st' None s' = Some (true, st2, s2) /\
    Tip (chainActive s2) = Some 3%nat /\ ~ is_ancestor (index s2) 1 3.
Proof.
  assert (@state_ok Sample.world (fun _ => false = false) (Sample.start {[1%nat]})) as Hs0.
  { apply (Sample.start_ok (fun _ => false)); [|done..]. intros p Hp. apply elem_of_singleton in Hp as ->. lia. }
  destruct (@invalidate_moves_off _ (Sample.client (fun _ => false) false) (Sample.client_laws _ _) Consensus.CMainParams
    (fun _ => false = false) (Sample.client_ok _ _) (Sample.client_deterministic _) ltac:(by vm_compute)
    TxCheck.CValidationState_init (set_mapBlockIndex (Sample.start {[1%nat]}) known_sample) 1 0
    (Sample.entry (Some 0%nat) 1 2 2)) as (ok & st' & s' & Hrun & Hok).
  { by apply (core_ok _ _ _ Hs0); [|apply Hs0..]. }
  { vm_compute. reflexivity. }
  { reflexivity. }
  { intros q. change (index _) with Sample.tree. change (known_blocks _) with (snd <$> map_to_list known_sample).
    replace (snd <$> map_to_list known_sample) with [3%nat; 0%nat; 5%nat; 1%nat; 2%nat; 4%nat]
      by (vm_compute; reflexivity).
    split; [intros [b Hq]; revert q b Hq; apply Sample.tree_cases; set_solver|].
    rewrite !elem_of_cons. intros H. destruct_or! H; subst; try (eexists; vm_compute; reflexivity). set_solver. }
  assert ((fun r => (r.1.1, (fun r2 => (r2.1.1, Tip (chainActive r2.2))) <$>
      @ActivateBestChain _ (Sample.client (fun _ => false) false) Consensus.CMainParams r.1.2 None r.2)) <$>
    @InvalidateBlock _ (Sample.client (fun _ => false) false) Consensus.CMainParams
      TxCheck.CValidationState_init 1 (set_mapBlockIndex (Sample.start {[1%nat]}) known_sample)
    = Some (true, Some (true, Some 3%nat))) as E by (vm_compute; reflexivity).
  rewrite Hrun in E. cbn [fmap option_fmap option_map fst snd] in E. injection E as -> E.
  destruct (Hok eq_refl) as (_ & (b & Hb & Hf) & ok2 & st2 & s2 & Hrun2 & Hok2). rewrite Hrun2 in E.
  cbn [fmap option_fmap option_map fst snd] in E.
  injection E as -> Ht. destruct (Hok2 eq_refl) as (t & Ht' & Hn & _). rewrite Ht in Ht'. injection Ht' as <-.
  exists st', s', st2, s2, b. split_and!; [exact Hrun|exact Hb|exact Hf|exact Hrun2|exact Ht|exact Hn].
Defined.


(** ** A flag that ReconsiderBlock leaves behind *)

(** The active chain is 0-2-4; 3 is the other child of 2 and 1 the other child of
    0, with less work. *)
Definition fork_tree : gmap nat CBlockIndex :=
  <[0%nat := Sample.entry None 0 1 1]> (<[1%nat := Sample.entry (Some 0%nat) 1 2 4]>
  (<[2%nat := Sample.entry (Some 0%nat) 1 2 2]> (<[3%nat := Sample.entry (Some 2%nat) 2 3 5]>
  (<[4%nat := Sample.entry (Some 2%nat) 2 4 3]> ∅)))).

Definition fork_start : state Sample.world := {|
  mapBlockIndex := <[[0] := 0%nat]> (<[[1] := 1%nat]> (<[[2] := 2%nat]> (<[[3] := 3%nat]> (<[[4] := 4%nat]> ∅))));
  index := fork_tree; chainActive := [Some 0%nat; Some 2%nat; Some 4%nat];
  setBlockIndexCandidates := {[4%nat]}; mapBlocksUnlinked := []; pindexBestInvalid := None;
  pindexBestHeader := None; nBlockSequenceId := 6; setDirtyBlockIndex := ∅;
  warning := ForkWarning_init; ChainState.world := [] |}.

(** Invalidate block 2, move on, reconsider block 3, move on; every block passes validation. *)
Definition reconsider_scenario : option (state Sample.world) :=
  let cl := Sample.client (fun _ => false) false in
  let st := TxCheck.CValidationState_init in
  '(_, _, s) ← @InvalidateBlock _ cl Consensus.CMainParams st 2 fork_start;
  '(_, _, s) ← @ActivateBestChain _ cl Consensus.CMainParams st None s;
  s ← ReconsiderBlock 3 s;
  '(_, _, s) ← @ActivateBestChain _ cl Consensus.CMainParams st None s;
  Some s.

Lemma ancestor_step (m : gmap nat CBlockIndex) q p b : m !! p = Some b -> is_ancestor m q p ->
  q = p \/ match pprev b with Some r => is_ancestor m q r | None => False end.
Proof.
  intros Hp [[|n] Hn]; cbn [back] in Hn; [injection Hn as ->; by left|]. rewrite Hp in Hn. monad_in Hn.
  destruct (pprev b); [|done]. right. by exists n.
Qed.

(** [ReconsiderBlock] clears the flags of the block's ancestors but not those
    their other descendants inherited from them: after invalidating block 2 and
    reconsidering its child 3, block 4 keeps [BLOCK_FAILED_CHILD] although neither
    it nor any ancestor is marked [BLOCK_FAILED_VALID], and the node settles on
    block 3, with less work than block 4, where it was before. *)
Lemma reconsider_keeps_child_flag :
  exists s b, reconsider_scenario = Some s /\ Tip (chainActive s) = Some 3%nat /\ worse (index s) 3 4 /\
    index s !! 4%nat = Some b /\ has (nStatus b) BLOCK_FAILED_CHILD = true /\
    forall q bq, is_ancestor (index s) q 4 -> index s !! q = Some bq -> has (nStatus bq) BLOCK_FAILED_VALID = false.
Proof.
  destruct reconsider_scenario as [s|] eqn:E; [|vm_compute in E; discriminate E].
  assert ((fun s => (Tip (chainActive s), bool_decide (worse (index s) 3 4),
      (fun b => (nStatus b, pprev b)) <$> index s !! 4%nat, (fun b => (nStatus b, pprev b)) <$> index s !! 2%nat,
      (fun b => (nStatus b, pprev b)) <$> index s !! 0%nat)) <$> reconsider_scenario
    = Some (Some 3%nat, true, Some (75, Some 2%nat), Some (11, Some 0%nat), Some (11, None))) as F by (vm_compute; reflexivity).
  rewrite E in F. cbn in F. injection F as F1 F2 F3 F4 F5. exists s.
  destruct (index s !! 4%nat) as [b4|] eqn:E4; [|done]. destruct (index s !! 2%nat) as [b2|] eqn:E2; [|done].
  destruct (index s !! 0%nat) as [b0|] eqn:E0; [|done]. injection F3 as S4 P4. injection F4 as S2 P2. injection F5 as S0 P0.
  exists b4. split_and!; [done|done|by apply bool_decide_eq_true in F2|done|by rewrite S4|].
  intros q bq Hq4 Hq. apply (ancestor_step _ _ _ _ E4) in Hq4. rewrite P4 in Hq4.
  destruct Hq4 as [->|Hq2]; [rewrite E4 in Hq; injection Hq as <-; by rewrite S4|].
  apply (ancestor_step _ _ _ _ E2) in Hq2. rewrite P2 in Hq2.
  destruct Hq2 as [->|Hq0]; [rewrite E2 in Hq; injection Hq as <-; by rewrite S2|].
  apply (ancestor_step _ _ _ _ E0) in Hq0. rewrite P0 in Hq0.
  destruct Hq0 as [->|[]]. rewrite E0 in Hq. injection Hq as <-. by rewrite S0.
Qed.

End ChainInvalidate.
