(* ===== verification/ChainNode.v ===== *)
(** * Validation and storage as the client of chain selection (src/main.cpp)

    [node_client] gives chain selection the block validation of [Connect] on a
    cache over the coins tip, as [ConnectTip] and [DisconnectTip] use it, and
    [FlushStateToDisk].  The clock, the disk and the memory pool are the record
    [Services].  The laws of the interface hold for it. *)

From stdpp Require Import base list list_numbers numbers option gmap strings fin_sets.
From Stdlib Require Import ZArith Lia.
From S2P Require Import Prelude Bytes ArithUint256 Params Chain ChainFacts Pow Transaction Merkle Coins TxCheck BlockCheck.
From S2P Require Import Connect ChainState ChainStateFacts ChainSelect.
Import BlockIndex ChainState ChainStateFacts ChainSelect.
#[local] Open Scope Z_scope.

Module ChainNode.

#[local] Existing Instance Coins.CCoinsViewCache_view.

(** ** The entry ConnectBlock writes *)

Lemma entry_roots b anchor final :
  entry_le b (Connect.set_sprout_roots b anchor final) /\ failed (Connect.set_sprout_roots b anchor final) = failed b.
Proof. done. Qed.

(** Status changes that leave the failure and data bits alone and do not lower the level. *)
Definition status_le (a b : Z) : Prop :=
  has b BLOCK_FAILED_MASK = has a BLOCK_FAILED_MASK /\ has b BLOCK_HAVE_DATA = has a BLOCK_HAVE_DATA /\
  Z.land a BLOCK_VALID_MASK <= Z.land b BLOCK_VALID_MASK.

Lemma status_le_refl a : status_le a a.
Proof. done. Qed.
Lemma status_le_trans a b c : status_le a b -> status_le b c -> status_le a c.
Proof. intros (H1 & H2 & H3) (G1 & G2 & G3). split_and!; [congruence..|lia]. Qed.

Lemma status_le_lor a bits : Z.land bits (Z.lor BLOCK_FAILED_MASK BLOCK_HAVE_DATA) = 0 ->
  Z.land bits BLOCK_VALID_MASK = 0 -> status_le a (Z.lor a bits).
Proof.
  intros H Hv. rewrite Z.land_lor_distr_r in H. apply Z.lor_eq_0_iff in H as [Hf Hd].
  split_and!; [by apply has_lor_other..|]. rewrite Z.land_lor_distr_l, Hv, Z.lor_0_r. lia.
Qed.

Lemma raise_status_le status up status' r : 0 <= up -> Z.land up BLOCK_VALID_MASK = up ->
  Z.land up (Z.lor BLOCK_FAILED_MASK BLOCK_HAVE_DATA) = 0 ->
  RaiseValidity status up = Some (status', r) -> status_le status status'.
Proof.
  intros Hup Hm H. rewrite Z.land_lor_distr_r in H. apply Z.lor_eq_0_iff in H as [Hf Hd].
  unfold RaiseValidity. destruct (negb _); [done|]. destruct (negb _); [intros [= <- _]; apply status_le_refl|].
  destruct (Z.ltb_spec (Z.land status BLOCK_VALID_MASK) up) as [Hlt|]; [|intros [= <- _]; apply status_le_refl].
  intros [= <- _]. unfold status_le, has.
  rewrite !Z.land_lor_distr_l, Hf, Hd, Hm, !Z.lor_0_r, <- !Z.land_assoc.
  change (Z.land (u32 (Z.lnot BLOCK_VALID_MASK)) BLOCK_FAILED_MASK) with BLOCK_FAILED_MASK.
  change (Z.land (u32 (Z.lnot BLOCK_VALID_MASK)) BLOCK_HAVE_DATA) with BLOCK_HAVE_DATA.
  change (Z.land (u32 (Z.lnot BLOCK_VALID_MASK)) BLOCK_VALID_MASK) with 0. rewrite Z.land_0_r, Z.lor_0_l. split_and!; [done..|lia].
Qed.

Lemma entry_undo b pos status branch : status_le (nStatus b) status ->
  entry_le b (Connect.set_undo_status b pos status branch) /\ failed (Connect.set_undo_status b pos status branch) = failed b.
Proof. intros (H1 & H2 & H3). split; [split; try done; unfold failed; simpl; congruence|done]. Qed.

Definition same_entry (b b' : CBlockIndex) : Prop := entry_le b b' /\ failed b' = failed b.
Lemma same_entry_trans a b c : same_entry a b -> same_entry b c -> same_entry a c.
Proof. intros [H1 H2] [G1 G2]. split; [by etransitivity|congruence]. Qed.

Lemma record_valid_entry params write_undo pindex prev undo st b' :
  Connect.record_valid params write_undo pindex prev undo st = Some (inr b') -> same_entry pindex b'.
Proof.
  unfold Connect.record_valid. destruct (IsValid pindex _) as [valid|]; [|done]. monad.
  destruct (_ || negb valid); [|by intros [= <-]].
  destruct (if CDiskBlockPos_IsNull (GetUndoPos pindex) then _ else _) as [[e|[pos status]]|] eqn:Ew; [done| |done]. monad.
  assert (status_le (nStatus pindex) status) as H1.
  { destruct (CDiskBlockPos_IsNull _); [|by injection Ew as <- <-]. destruct prev as [p|]; [|done]. monad_in Ew.
    destruct (GetBlockHash p); [|done]. monad_in Ew. destruct (write_undo _ _ _); [done|]. injection Ew as <- <-.
    by apply status_le_lor. }
  destruct (if Consensus.IsActivationHeightForAnyUpgrade _ _ then _ else _) as [[status2 branch]|] eqn:Eb; [|done]. monad.
  assert (status_le status status2) as H2.
  { destruct (Consensus.IsActivationHeightForAnyUpgrade _ _); [|by destruct prev; injection Eb as <- _].
    destruct (Consensus.CurrentEpochBranchId _ _); [|done]. injection Eb as <- _. by apply status_le_lor. }
  destruct (RaiseValidity status2 _) as [[status3 r]|] eqn:Er; [|done]. monad. intros [= <-]. apply entry_undo.
  eapply status_le_trans; [done|]. eapply status_le_trans; [done|]. by eapply (raise_status_le status2 BLOCK_VALID_SCRIPTS).
Qed.

Section entry.
Context {B : Type} `{Coins.CCoinsView B} (th : Coins.tree_hash) (tx_GetHash : Transaction.CTransaction -> list Z).
Context (params : Consensus.Params) (fProtect : bool) (script_check : Transaction.CTxOut -> Transaction.CTransaction -> nat -> Z -> option string).
Context (known : gmap (list Z) nat) (m : gmap nat CBlockIndex) (f1 f2 f3 : Z -> list Z) (check_block : Merkle.CBlock -> TxCheck.checker).
Context (genesis : list Z) (block_GetHash : CBlockHeader -> list Z) (fZIP209 : bool).
Context (write_undo : Z -> Connect.CBlockUndo -> list Z -> string + Z).

(** The entry returned by [ConnectBlock], on success and on failure. *)
Lemma ConnectBlock_entry block b prev fExp threads st c r :
  Connect.ConnectBlock th tx_GetHash params fProtect script_check known m f1 f2 f3 check_block genesis block_GetHash
    fZIP209 write_undo block b prev fExp threads false st c = Some r ->
  same_entry b (match r with inl (_, b') => b' | inr (_, _, b', _) => b' end).
Proof.
  unfold Connect.ConnectBlock. destruct (check_block block st) as [[ok st1]|]; [|done]. monad.
  destruct ok; cbn [negb]; [|by intros [= <-]].
  destruct (match prev with None => _ | Some p => _ end) as [hp|]; [|done]. monad.
  destruct (Coins.cache_GetBestBlock c) as [best c1]. destruct (negb _); [done|].
  destruct (bool_decide _). { destruct (GetBlockHash b); [|done]. monad. by intros [= <-]. }
  destruct (fZIP209 && _); [by intros [= <-]|]. destruct (fZIP209 && _); [by intros [= <-]|].
  destruct (Connect.check_bip30 _ _ _) as [new c2]. destruct (negb new); [by intros [= <-]|].
  destruct (Coins.cache_GetBestAnchor Coins.SPROUT c2) as [oldroot c3].
  destruct (Coins.cache_GetAnchorAt Coins.SPROUT oldroot c3) as [[sprout|] c4]; [|done]. monad. destruct (negb _); [done|].
  destruct (Coins.cache_GetBestAnchor Coins.SAPLING c4) as [oldsap c5].
  destruct (Coins.cache_GetAnchorAt Coins.SAPLING oldsap c5) as [[sapling|] c6]; [|done]. monad.
  destruct (Connect.connect_loop _ _ _ _ _ _ _ _ _ _ _ _ _ _) as [[e|[st2 s]]|]; [by intros [= <-]| |done]. monad.
  destruct (Connect.finish_block _ _ _ _ _ _ _ _ _ _) as [[e|[[st3 undo] c7]]|]; [by intros [= <-]| |done]. monad.
  set (b2 := Connect.set_sprout_roots _ _ _).
  destruct (Connect.record_valid _ _ b2 _ _ _) as [[e|b3]|] eqn:Er; [by intros [= <-]| |done]. monad.
  destruct (GetBlockHash b3); [|done]. monad. intros [= <-].
  apply record_valid_entry in Er. eapply same_entry_trans; [|exact Er]. done.
Qed.

End entry.


(** ** The node *)

Definition DATABASE_WRITE_INTERVAL : Z := 60 * 60.
Definition DATABASE_FLUSH_INTERVAL : Z := 24 * 60 * 60.

(** [pcoinsTip], the three static times of [FlushStateToDisk], and everything else. *)
Record node {B R : Type} := {
  pcoinsTip : Coins.CCoinsViewCache B; nLastWrite : Z; nLastFlush : Z; nLastSetChain : Z; rest : R
}.
Arguments node : clear implicits.

(** The clock, the disk, the memory pool and the peers. *)
Record Services (B R : Type) := {
  GetTimeMicros : R -> Z;
  CheckDiskSpace : Z -> R -> bool * R;
  WriteBatchSync : gmap nat CBlockIndex -> gset nat -> R -> bool * R;
  SetBestChain : R -> R;
  read_block : R -> CBlockIndex -> option Merkle.CBlock;
  write_undo : R -> Z -> Connect.CBlockUndo -> list Z -> string + Z;
  read_undo : R -> CDiskBlockPos -> list Z -> option Connect.CBlockUndo;
  sv_accept : Transaction.CTransaction -> R -> bool * R;
  sv_remove : Transaction.CTransaction -> R -> R;
  sv_removeWithAnchor : list Z -> bool -> R -> R;
  sv_removeForBlock : list Transaction.CTransaction -> Z -> bool -> R -> R;
  sv_removeExpired : Z -> R -> R;
  sv_removeForReorg : Z -> R -> R;
  sv_removeWithoutBranchId : Z -> R -> R;
  sv_check : Coins.CCoinsViewCache B -> R -> option R;
  sv_punish : CBlockIndex -> TxCheck.CValidationState -> R -> R;
  sv_forget : CBlockIndex -> R -> R;
  sv_ibd : gmap nat CBlockIndex -> list (option nat) -> R -> option (bool * R)
}.
Arguments GetTimeMicros {B R}. Arguments CheckDiskSpace {B R}. Arguments WriteBatchSync {B R}.
Arguments SetBestChain {B R}. Arguments read_block {B R}. Arguments write_undo {B R}. Arguments read_undo {B R}.
Arguments sv_accept {B R}. Arguments sv_remove {B R}. Arguments sv_removeWithAnchor {B R}.
Arguments sv_removeForBlock {B R}. Arguments sv_removeExpired {B R}. Arguments sv_removeForReorg {B R}.
Arguments sv_removeWithoutBranchId {B R}. Arguments sv_check {B R}. Arguments sv_punish {B R}.
Arguments sv_forget {B R}. Arguments sv_ibd {B R}.

Section node.
Context {B R : Type} `{Coins.CCoinsView B} (svc : Services B R).
Implicit Types n : node B R.

Definition set_rest n (r : R) : node B R := {|
  pcoinsTip := pcoinsTip n; nLastWrite := nLastWrite n; nLastFlush := nLastFlush n; nLastSetChain := nLastSetChain n; rest := r |}.
Definition set_coins n (c : Coins.CCoinsViewCache B) : node B R := {|
  pcoinsTip := c; nLastWrite := nLastWrite n; nLastFlush := nLastFlush n; nLastSetChain := nLastSetChain n; rest := rest n |}.
Definition set_times n (w f c : Z) : node B R := {|
  pcoinsTip := pcoinsTip n; nLastWrite := w; nLastFlush := f; nLastSetChain := c; rest := rest n |}.

(** *** FlushStateToDisk

    [memory] is [pcoinsTip->DynamicMemoryUsage()], [entries] is [GetCacheSize()],
    and [large] is the test [cacheSize * (10.0/9) > nCoinCacheUsage]. *)
Context (memory entries : Coins.CCoinsViewCache B -> Z) (large : Z -> bool) (nCoinCacheUsage : Z).

(** [nLast == 0] means never: the first call only sets the time. *)
Definition started (nLast nNow : Z) : Z := if nLast =? 0 then nNow else nLast.

(** The second half: coins, then the wallet's best chain. *)
Definition flush_coins (mode : FlushStateMode) (fDoFullFlush : bool) (nNow : Z) (d : gset nat)
    (st : TxCheck.CValidationState) n : bool * TxCheck.CValidationState * gset nat * node B R :=
  let finish n :=
    if match mode with FLUSH_STATE_ALWAYS | FLUSH_STATE_PERIODIC => true | _ => false end
       && (nNow >? nLastSetChain n + DATABASE_WRITE_INTERVAL * 1000000)
    then set_times (set_rest n (SetBestChain svc (rest n))) (nLastWrite n) (nLastFlush n) nNow
    else n in
  if fDoFullFlush then
    let '(space, r) := CheckDiskSpace svc (128 * 2 * 2 * entries (pcoinsTip n)) (rest n) in
    let n := set_rest n r in
    if negb space then (false, TxCheck.Error st "out of disk space", d, n)
    else match Coins.Flush (pcoinsTip n) with
         | None => (false, TxCheck.Error st "Failed to write to coin database", d, n)
         | Some c => (true, st, d, finish (set_times (set_coins n c) (nLastWrite n) nNow (nLastSetChain n)))
         end
  else (true, st, d, finish n).

Definition node_FlushStateToDisk (mode : FlushStateMode) (m : gmap nat CBlockIndex) (d : gset nat)
    (st : TxCheck.CValidationState) n : bool * TxCheck.CValidationState * gset nat * node B R :=
  let nNow := GetTimeMicros svc (rest n) in
  let n := set_times n (started (nLastWrite n) nNow) (started (nLastFlush n) nNow) (started (nLastSetChain n) nNow) in
  let cacheSize := memory (pcoinsTip n) in
  let periodic := match mode with FLUSH_STATE_PERIODIC => true | _ => false end in
  let fCacheLarge := periodic && large cacheSize in
  let fCacheCritical := match mode with FLUSH_STATE_IF_NEEDED => cacheSize >? nCoinCacheUsage | _ => false end in
  let fPeriodicWrite := periodic && (nNow >? nLastWrite n + DATABASE_WRITE_INTERVAL * 1000000) in
  let fPeriodicFlush := periodic && (nNow >? nLastFlush n + DATABASE_FLUSH_INTERVAL * 1000000) in
  let fDoFullFlush := match mode with FLUSH_STATE_ALWAYS => true | _ => false end
                      || fCacheLarge || fCacheCritical || fPeriodicFlush in
  if fDoFullFlush || fPeriodicWrite then
    let '(space, r) := CheckDiskSpace svc 0 (rest n) in
    let n := set_rest n r in
    if negb space then (false, TxCheck.Error st "out of disk space", d, n)
    else
      let '(written, r) := WriteBatchSync svc m d (rest n) in
      let n := set_rest n r in
      if negb written then (false, TxCheck.Error st "Files to write to block index database", ∅, n)
      else flush_coins mode fDoFullFlush nNow ∅ st (set_times n nNow (nLastFlush n) (nLastSetChain n))
  else flush_coins mode fDoFullFlush nNow d st n.

(** *** Validation on a cache over the coins tip *)

Context (th : Coins.tree_hash) (tx_GetHash : Transaction.CTransaction -> list Z).
Context (params : Consensus.Params) (fProtect : bool)
  (script_check : Transaction.CTxOut -> Transaction.CTransaction -> nat -> Z -> option string).
Context (por masternode platform : Z -> list Z) (check_block : Merkle.CBlock -> TxCheck.checker).
Context (genesis : list Z) (block_GetHash : CBlockHeader -> list Z) (fZIP209 threads : bool).
Context (fCheckpointsEnabled : bool) (mapCheckpoints : list (Z * list Z)).

(** The entry of the parent; [None] when the pointer dangles. *)
Definition parent (m : gmap nat CBlockIndex) (b : CBlockIndex) : option (option CBlockIndex) :=
  match pprev b with None => Some None | Some q => Some <$> m !! q end.

Definition node_ConnectBlock (known : gmap (list Z) nat) (m : gmap nat CBlockIndex) (p : nat) (block : Merkle.CBlock)
    (st : TxCheck.CValidationState) n : option (bool * TxCheck.CValidationState * CBlockIndex * node B R) :=
  b ← m !! p;
  prev ← parent m b;
  fExpensiveChecks ← Connect.needs_expensive_checks fCheckpointsEnabled mapCheckpoints known m p (nHeight b);
  r ← Connect.ConnectBlock (B := Coins.CCoinsViewCache B) th tx_GetHash params fProtect script_check known m
        por masternode platform check_block genesis block_GetHash fZIP209 (write_undo svc (rest n))
        block b prev fExpensiveChecks threads false st (Coins.new_cache (pcoinsTip n));
  match r with
  | inl (st, b) => Some (false, st, b, n)
  | inr (st, _, b, view) =>
      view ← Coins.Flush view; Some (true, st, b, set_coins n (Coins.base view))
  end.

Definition node_DisconnectBlock (m : gmap nat CBlockIndex) (p : nat) (block : Merkle.CBlock)
    (st : TxCheck.CValidationState) n : option (bool * TxCheck.CValidationState * node B R) :=
  b ← m !! p;
  q ← pprev b;
  prev ← m !! q;
  '(result, view) ← Connect.DisconnectBlock (B := Coins.CCoinsViewCache B) th tx_GetHash params (read_undo svc (rest n))
                      block b prev (Coins.new_cache (pcoinsTip n));
  match result with
  | Connect.DISCONNECT_OK => view ← Coins.Flush view; Some (true, st, set_coins n (Coins.base view))
  | _ => Some (false, st, n)
  end.

(** [pcoinsTip->GetBestAnchor], at the two types *)
Definition best_anchors n : list Z * list Z * node B R :=
  let '(sprout, c) := Coins.cache_GetBestAnchor Coins.SPROUT (pcoinsTip n) in
  let '(sapling, c) := Coins.cache_GetBestAnchor Coins.SAPLING c in
  (sprout, sapling, set_coins n c).

(** [assert(pcoinsTip->GetSproutAnchorAt(pcoinsTip->GetBestAnchor(SPROUT), tree))], and for Sapling *)
Definition read_best_trees n : option (node B R) :=
  let '(sprout, c) := Coins.cache_GetBestAnchor Coins.SPROUT (pcoinsTip n) in
  let '(tree, c) := Coins.cache_GetAnchorAt Coins.SPROUT sprout c in
  _ ← tree;
  let '(sapling, c) := Coins.cache_GetBestAnchor Coins.SAPLING c in
  let '(tree, c) := Coins.cache_GetAnchorAt Coins.SAPLING sapling c in
  _ ← tree;
  Some (set_coins n c).

Definition on_rest {A : Type} (f : R -> A * R) n : A * node B R := let '(a, r) := f (rest n) in (a, set_rest n r).

#[export] Instance node_client : ChainClient (node B R) := {|
  ReadBlockFromDisk n b := read_block svc (rest n) b;
  ConnectBlock := node_ConnectBlock;
  DisconnectBlock := node_DisconnectBlock;
  FlushStateToDisk mode m d st n := Some (node_FlushStateToDisk mode m d st n);
  BestAnchors := best_anchors;
  ReadBestTrees := read_best_trees;
  AcceptToMemoryPool tx := on_rest (sv_accept svc tx);
  pool_remove tx n := set_rest n (sv_remove svc tx (rest n));
  removeWithAnchor h sapling n := set_rest n (sv_removeWithAnchor svc h sapling (rest n));
  removeForBlock txs h current n := set_rest n (sv_removeForBlock svc txs h current (rest n));
  removeExpired h n := set_rest n (sv_removeExpired svc h (rest n));
  removeForReorg h n := set_rest n (sv_removeForReorg svc h (rest n));
  removeWithoutBranchId br n := set_rest n (sv_removeWithoutBranchId svc br (rest n));
  pool_check n := set_rest n <$> sv_check svc (pcoinsTip n) (rest n);
  punish_source b st n := set_rest n (sv_punish svc b st (rest n));
  forget_source b n := set_rest n (sv_forget svc b (rest n));
  IsInitialBlockDownload m c n := r ← sv_ibd svc m c (rest n); Some (r.1, set_rest n r.2) |}.

Lemma error_not_invalid st msg : TxCheck.IsInvalid (TxCheck.Error st msg) = false.
Proof. unfold TxCheck.IsInvalid. by rewrite bool_decide_false. Qed.

Lemma flush_coins_error mode full nNow d st n st' d' n' :
  flush_coins mode full nNow d st n = (false, st', d', n') -> TxCheck.IsInvalid st' = false.
Proof.
  unfold flush_coins. destruct full; [|done]. destruct (CheckDiskSpace _ _ _) as [space r].
  destruct space; cbn [negb]; [|intros [= <- _ _]; apply error_not_invalid].
  destruct (Coins.Flush _); [done|]. intros [= <- _ _]. apply error_not_invalid.
Qed.

Lemma node_flush_error mode m d st n st' d' n' :
  node_FlushStateToDisk mode m d st n = (false, st', d', n') -> TxCheck.IsInvalid st' = false.
Proof.
  unfold node_FlushStateToDisk. destruct (_ || _); [|apply flush_coins_error].
  destruct (CheckDiskSpace _ _ _) as [space r]. destruct space; cbn [negb]; [|intros [= <- _ _]; apply error_not_invalid].
  destruct (WriteBatchSync _ _ _ _) as [written r2]. destruct written; cbn [negb]; [apply flush_coins_error|].
  intros [= <- _ _]. apply error_not_invalid.
Qed.

(** The block validation of this development keeps the promises chain selection relies on. *)
#[export] Instance node_client_laws : ClientLaws (node B R).
Proof.
  split.
  - intros known m p block st n ok st' b' n' b. cbn [ConnectBlock node_client]. unfold node_ConnectBlock.
    intros Hrun Hb. rewrite Hb in Hrun. monad_in Hrun. destruct (parent m b) as [prev|]; [|done]. monad_in Hrun.
    destruct (Connect.needs_expensive_checks _ _ _ _ _ _) as [fExp|]; [|done]. monad_in Hrun.
    destruct (Connect.ConnectBlock _ _ _ _ _ _ _ _ _ _ _ _ _ _ _ _ _ _ _ _ _ _ _) as [r|] eqn:Er; [|done]. monad_in Hrun.
    apply ConnectBlock_entry in Er. destruct r as [[st1 b1]|[[[st1 u] b1] view]].
    + injection Hrun as <- <- <- <-. exact Er.
    + destruct (Coins.Flush view); [|done]. monad_in Hrun. injection Hrun as <- <- <- <-. exact Er.
  - intros mode m d st n st' d' n' [= Hf]. by eapply node_flush_error.
Qed.

End node.

End ChainNode.
