(* ===== verification/ChainReceive.v ===== *)
(** * Receiving a block (ReceivedBlockTransactions, AddToBlockIndex)

    When the transactions of a block arrive, the block and the descendants that
    waited for it in [mapBlocksUnlinked] get their chain totals.  [received_ok] is
    the invariant of those totals; the queue empties it terminates on, keeps the
    invariant of chain selection and leaves every block that is not worse than the
    tip among the candidates. *)

From stdpp Require Import base list list_numbers numbers option gmap strings fin_sets.
From Stdlib Require Import ZArith Lia.
From S2P Require Import Prelude Bytes ArithUint256 Params Chain ChainFacts Pow Transaction Merkle TxCheck ChainState ChainStateFacts ChainSelect ChainSafety ChainNode.
Import BlockIndex ChainFacts ChainState ChainStateFacts ChainSelect ChainSafety.
#[local] Open Scope Z_scope.

Module ChainReceive.

Abbreviation heap := (gmap nat CBlockIndex) (only parsing).

(** ** Heaps with the same links *)

Record entry_links (b b' : CBlockIndex) : Prop := {
  el_prev : pprev b' = pprev b; el_skip : pskip b' = pskip b; el_height : nHeight b' = nHeight b;
  el_work : nChainWork b' = nChainWork b; el_bits : nBits b' = nBits b
}.
Definition links (m m' : heap) : Prop := forall p, option_Forall2 entry_links (m !! p) (m' !! p).

Lemma links_fwd m m' p b : links m m' -> m !! p = Some b -> exists b', m' !! p = Some b' /\ entry_links b b'.
Proof. intros H Hp. specialize (H p). rewrite Hp in H. inversion H; subst. eauto. Qed.
Lemma links_bwd m m' p b' : links m m' -> m' !! p = Some b' -> exists b, m !! p = Some b /\ entry_links b b'.
Proof. intros H Hp. specialize (H p). rewrite Hp in H. inversion H; subst. eauto. Qed.
Lemma links_insert (m : heap) p b b' : m !! p = Some b -> entry_links b b' -> links m (<[p := b']> m).
Proof.
  intros Hp Hle q. destruct (decide (p = q)) as [<-|Hn].
  - rewrite Hp, lookup_insert_eq. by constructor.
  - rewrite lookup_insert_ne by done. destruct (m !! q); by constructor.
Qed.
Lemma links_back m m' n p : links m m' -> back n m' p = back n m p.
Proof.
  intros H. apply back_ext. intros q. specialize (H q). inversion H as [x y Hle|]; simpl; [|done].
  by rewrite (el_prev _ _ Hle).
Qed.
Lemma links_ancestor m m' q p : links m m' -> is_ancestor m' q p <-> is_ancestor m q p.
Proof. intros H. unfold is_ancestor. by setoid_rewrite (links_back _ _ _ _ H). Qed.
Lemma links_tree m m' : links m m' -> tree_ok m -> tree_ok m'.
Proof.
  intros H Ht p b' Hp. destruct (links_bwd _ _ _ _ H Hp) as (b & Hb & Hle).
  destruct (Ht p b Hb) as [H1 H2 H3 H4]. split.
  - by rewrite (el_height _ _ Hle).
  - by rewrite (el_height _ _ Hle), (el_prev _ _ Hle).
  - intros q Hq. rewrite (el_prev _ _ Hle) in Hq. destruct (H3 q Hq) as (bq & Hbq & Hh).
    destruct (links_fwd _ _ _ _ H Hbq) as (bq' & Hbq' & Hle'). exists bq'. split; [done|].
    by rewrite (el_height _ _ Hle), (el_height _ _ Hle').
  - intros q Hq. rewrite (el_skip _ _ Hle) in Hq. destruct (H4 q Hq) as [H0 Hb'].
    rewrite (el_height _ _ Hle). split; [done|]. by rewrite (links_back _ _ _ _ H).
Qed.
Lemma links_chain_for m m' c p b b' :
  links m m' -> m' !! p = Some b' -> entry_links b b' -> chain_for m c p b -> chain_for m' c p b'.
Proof.
  intros H Hp Hle (H1 & H2 & H3). split; [done|]. rewrite (el_height _ _ Hle). split; [done|].
  intros i Hi. rewrite (links_back _ _ _ _ H). by apply H3.
Qed.

(** ** Chain totals *)

(** The transactions of a block and its ancestors, [n] steps back. *)
Fixpoint tx_upto (n : nat) (m : heap) (p : nat) : Z :=
  match m !! p with
  | None => 0
  | Some b => nTx b + match pprev b, n with Some q, S n => tx_upto n m q | _, _ => 0 end
  end.

(** [nChainTx] of a linked block is the number of transactions of its chain. *)
Definition counted (m : heap) : Prop :=
  forall p b, m !! p = Some b -> nChainTx b <> 0 -> nChainTx b = tx_upto (Z.to_nat (nHeight b)) m p.

Lemma tx_upto_ext m m' : (forall q, (fun b => (nTx b, pprev b)) <$> m' !! q = (fun b => (nTx b, pprev b)) <$> m !! q) ->
  forall n p, tx_upto n m' p = tx_upto n m p.
Proof.
  intros H n. induction n as [|n IH]; intros p; simpl; specialize (H p);
    (destruct (m' !! p) as [b'|], (m !! p) as [b|]; simpl in H; [|done|done|done]); injection H as -> ->.
  - done.
  - destruct (pprev b); [|done]. by rewrite IH.
Qed.

Lemma tx_upto_nonneg m : (forall q b, m !! q = Some b -> 0 <= nTx b) -> forall n p, 0 <= tx_upto n m p.
Proof.
  intros H n. induction n as [|n IH]; intros p; simpl; (destruct (m !! p) as [b|] eqn:E; [|lia]);
    specialize (H p b E); destruct (pprev b) as [q|]; try lia. specialize (IH q). lia.
Qed.

Lemma tx_upto_step m p b q bq : tree_ok m -> m !! p = Some b -> pprev b = Some q -> m !! q = Some bq ->
  tx_upto (Z.to_nat (nHeight b)) m p = nTx b + tx_upto (Z.to_nat (nHeight bq)) m q.
Proof.
  intros Ht Hp Hq Hbq. destruct (node_prev _ _ _ (Ht _ _ Hp) _ Hq) as (bq' & Hbq' & Hh). assert (bq' = bq) as -> by congruence.
  pose proof (node_height _ _ _ (Ht _ _ Hbq)). replace (Z.to_nat (nHeight b)) with (S (Z.to_nat (nHeight bq))) by lia.
  simpl. by rewrite Hp, Hq.
Qed.
Lemma tx_upto_root m p b : m !! p = Some b -> pprev b = None -> forall n, tx_upto n m p = nTx b.
Proof. intros Hp Hq n. destruct n; simpl; rewrite Hp, Hq; lia. Qed.


(** The pool totals of a block from its parent's, in [int64_t]; unknown totals stay unknown. *)
Definition sprout_total (prev : option CBlockIndex) (b : CBlockIndex) : option Z :=
  match prev with
  | None => nSproutValue b
  | Some bq => match nChainSproutValue bq, nSproutValue b with Some c, Some v => Some (s64 (c + v)) | _, _ => None end
  end.
Definition sapling_total (prev : option CBlockIndex) (b : CBlockIndex) : option Z :=
  match prev with
  | None => Some (nSaplingValue b)
  | Some bq => (fun c => s64 (c + nSaplingValue b)) <$> nChainSaplingValue bq
  end.

Definition pools (m : heap) : Prop :=
  forall p b, m !! p = Some b -> nChainTx b <> 0 -> exists prev, ChainNode.parent m b = Some prev /\
    nChainSproutValue b = sprout_total prev b /\ nChainSaplingValue b = sapling_total prev b.

(** A block whose transactions are there and whose chain is not. *)
Record waiting (m : heap) (p : nat) (b : CBlockIndex) : Prop := {
  wt_entry : m !! p = Some b;
  wt_tx : 0 < nTx b;
  wt_chain : nChainTx b = 0;
  wt_level : BLOCK_VALID_TRANSACTIONS <= level b
}.

Section receive.
Context {W : Type} (cv : nat -> Prop) (ZIP209Enabled fDeveloper : bool) (cpHeight cpBalance : Z) (cpHash : list Z).
Context (Hfallback : ZIP209Enabled = false \/ fDeveloper = true).
Implicit Types s : state W.

(** The invariant of the totals, between two calls. *)
Record received_ok s : Prop := {
  rc_counted : counted (index s);
  rc_pools : pools (index s);
  rc_tx : forall q b, index s !! q = Some b -> 0 <= nTx b;
  rc_bound : forall n q, tx_upto n (index s) q < 2 ^ 32;
  rc_unlinked : forall k c, (k, c) ∈ mapBlocksUnlinked s -> exists b q bq, waiting (index s) c b /\ pprev b = Some q /\
    k = Some q /\ index s !! q = Some bq /\ nChainTx bq = 0;
  rc_once : NoDup (mapBlocksUnlinked s).*2;
  rc_some : forall q b, index s !! q = Some b -> nChainTx b <> 0 -> 0 < nTx b;
  rc_stored : forall q b, index s !! q = Some b -> 0 < nTx b -> have_data b = true
}.

Record linking s (queue : list nat) (t : nat) : Prop := {
  lk_ok : state_ok cv s;
  lk_tip : exists bt, chain_for (index s) (chainActive s) t bt;
  lk_complete : complete s t;
  lk_received : received_ok s;
  lk_queue : forall q, q ∈ queue -> exists b prev, waiting (index s) q b /\ ChainNode.parent (index s) b = Some prev /\
    forall bq, prev = Some bq -> nChainTx bq <> 0;
  lk_once : NoDup (queue ++ (mapBlocksUnlinked s).*2)
}.

Lemma fallback_id b v : FallbackSproutValuePoolBalance ZIP209Enabled fDeveloper cpHeight cpBalance cpHash b v = Some v.
Proof using Hfallback. unfold FallbackSproutValuePoolBalance. destruct Hfallback as [-> | ->]; [done|]. by destruct ZIP209Enabled. Qed.

(** The entry [link_block] writes and where it matters that the block was waiting. *)
Lemma link_links b ct sp sa seq : entry_links b (set_chain_totals b ct sp sa seq).
Proof. done. Qed.

(** A linked block is never the waiting one, nor a descendant of it. *)
Lemma linked_not_below m p b q bq : index_ok m -> m !! p = Some b -> nChainTx b = 0 -> m !! q = Some bq ->
  nChainTx bq <> 0 -> ~ is_ancestor m p q.
Proof. intros Hi Hp Hc Hq Hcq Ha. by apply (ancestor_chaintx m q bq p b Hi Hq Hcq Ha Hp). Qed.

(** Replacing a waiting entry by a linked one with the right totals. *)
Lemma link_index_ok (m : heap) p b b' : index_ok m -> m !! p = Some b -> nChainTx b = 0 -> entry_links b b' ->
  BLOCK_VALID_TRANSACTIONS <= level b' ->
  (forall q bq, pprev b = Some q -> m !! q = Some bq -> nChainTx b' <> 0 -> nChainTx bq <> 0) -> index_ok (<[p := b']> m).
Proof.
  intros Hi Hp Hc Hl Hlev Hpar. pose proof (links_insert m p b b' Hp Hl) as Hlinks.
  destruct (Hi) as [H1 H2 H3 H4 H5 H6 H7].
  assert (forall q bq', <[p := b']> m !! q = Some bq' -> exists bq, m !! q = Some bq /\ entry_links bq bq') as Hb
    by (intros q bq' Hq; by apply (links_bwd m (<[p := b']> m))).
  split.
  - by eapply links_tree.
  - intros q bq' Hq. destruct (Hb q bq' Hq) as (bq & Hbq & []). rewrite el_work0. eauto.
  - intros q bq' Hq. destruct (Hb q bq' Hq) as (bq & Hbq & []). rewrite el_bits0. eauto.
  - intros q bq' r br' Hq Hpr Hr. destruct (Hb q bq' Hq) as (bq & Hbq & []), (Hb r br' Hr) as (br & Hbr & []).
    rewrite el_work0, el_work1. rewrite el_prev0 in Hpr. eauto.
  - intros q bq' r br' Hq Hpr Hr Hpr'. destruct (Hb q bq' Hq) as (bq & Hbq & []), (Hb r br' Hr) as (br & Hbr & []).
    rewrite el_prev0 in Hpr. rewrite el_prev1 in Hpr'. eauto.
  - intros q bq' r br' Hq Hcq Hpr Hr.
    destruct (decide (p = q)) as [<-|Hnq].
    + rewrite lookup_insert_eq in Hq. injection Hq as <-. rewrite (el_prev _ _ Hl) in Hpr.
      destruct (decide (p = r)) as [<-|Hnr].
      { destruct (node_prev _ _ _ (H1 _ _ Hp) _ Hpr) as (b2 & Hb2 & Hh). assert (b2 = b) as -> by congruence. lia. }
      rewrite lookup_insert_ne in Hr by done. by eapply Hpar.
    + rewrite lookup_insert_ne in Hq by done. destruct (decide (p = r)) as [<-|Hnr].
      { destruct (H6 q bq' p b Hq Hcq Hpr Hp Hc). }
      rewrite lookup_insert_ne in Hr by done. eauto.
  - intros q bq' Hq Hcq. destruct (decide (p = q)) as [<-|Hnq].
    + rewrite lookup_insert_eq in Hq. by injection Hq as <-.
    + rewrite lookup_insert_ne in Hq by done. eauto.
Qed.

(** Changing an entry that was not linked leaves the valid chains of linked blocks alone. *)
Lemma valid_chain_insert (m : heap) p b b' q bq : index_ok m -> m !! p = Some b -> nChainTx b = 0 -> entry_links b b' ->
  m !! q = Some bq -> nChainTx bq <> 0 -> valid_chain (<[p := b']> m) q <-> valid_chain m q.
Proof.
  intros Hi Hp Hc Hl Hq Hcq. pose proof (links_insert m p b b' Hp Hl) as Hlinks.
  pose proof (linked_not_below m p b q bq Hi Hp Hc Hq Hcq) as Hn.
  split; intros Hv r br Ha Hr.
  - apply (Hv r br); [by apply (links_ancestor _ _ _ _ Hlinks)|]. by rewrite lookup_insert_ne by (intros ->; done).
  - apply (links_ancestor _ _ _ _ Hlinks) in Ha. rewrite lookup_insert_ne in Hr by (intros ->; done). by eapply Hv.
Qed.

Lemma worse_insert (m : heap) p b b' q r : m !! p = Some b -> p <> q -> p <> r ->
  worse (<[p := b']> m) q r <-> worse m q r.
Proof. intros Hp Hq Hr. unfold worse. by rewrite !lookup_insert_ne by done. Qed.

(** [received_ok] and [state_ok] of a state with one waiting entry replaced. *)
Lemma replaced_state_ok s p b b' : state_ok cv s -> index s !! p = Some b -> nChainTx b = 0 -> entry_links b b' ->
  index_ok (<[p := b']> (index s)) -> state_ok cv (set_index s (<[p := b']> (index s))).
Proof.
  intros Hs Hp Hc Hl Hi. pose proof (links_insert _ p b b' Hp Hl) as Hlinks. split; simpl.
  - done.
  - destruct (so_chain cv s Hs) as (t & bt & Ht). destruct (links_fwd _ _ _ _ Hlinks (proj1 Ht)) as (bt' & Hbt' & Hle).
    exists t, bt'. by eapply links_chain_for.
  - intros q bq Hq Hbq. destruct (decide (p = q)) as [<-|Hn].
    { by destruct (so_active cv s Hs p b Hq Hp) as (_ & ? & _). }
    rewrite lookup_insert_ne in Hbq by done. by apply (so_active cv s Hs).
  - intros q Hq. destruct (so_candidates cv s Hs q Hq) as (bq & Hbq & Hcq). exists bq. split; [|done].
    rewrite lookup_insert_ne; [done|]. intros ->. congruence.
  - intros q Hq. destruct (so_invalid cv s Hs q Hq) as [bq Hbq]. destruct (links_fwd _ _ _ _ Hlinks Hbq) as (? & ? & _). eauto.
  - intros q Hq. destruct (so_fork cv s Hs q Hq) as [bq Hbq]. destruct (links_fwd _ _ _ _ Hlinks Hbq) as (? & ? & _). eauto.
Qed.


Lemma filter_split {A} (P : A -> Prop) `{!forall x, Decision (P x)} (l : list A) :
  filter P l ++ filter (fun x => ~ P x) l ≡ₚ l.
Proof.
  induction l as [|x l IH]; [done|]. rewrite !filter_cons. destruct (decide (P x)) as [HP|HP].
  - rewrite decide_False by auto. simpl. by rewrite IH.
  - rewrite decide_True by done. rewrite <- Permutation_middle. by rewrite IH.
Qed.

(** The entry a linked block gets. *)
Record linked_entry (m : heap) (p : nat) (prev : option CBlockIndex) (b b' : CBlockIndex) : Prop := {
  le_links : entry_links b b';
  le_ntx : nTx b' = nTx b;
  le_status : nStatus b' = nStatus b;
  le_count : nChainTx b' = tx_upto (Z.to_nat (nHeight b)) m p;
  le_linked : nChainTx b' <> 0;
  le_sprout : nChainSproutValue b' = sprout_total prev b';
  le_sapling : nChainSaplingValue b' = sapling_total prev b'
}.

(** What the body of the queue's loop leaves: a new entry, which is a candidate
    unless it is worse than the tip. *)
Record linked s (p : nat) (b' : CBlockIndex) (t : nat) s' : Prop := {
  ld_index : index s' = <[p := b']> (index s);
  ld_chain : chainActive s' = chainActive s;
  ld_unlinked : mapBlocksUnlinked s' = mapBlocksUnlinked s;
  ld_known : mapBlockIndex s' = mapBlockIndex s;
  ld_header : pindexBestHeader s' = pindexBestHeader s;
  ld_invalid : pindexBestInvalid s' = pindexBestInvalid s;
  ld_warning : warning s' = warning s;
  ld_grow : setBlockIndexCandidates s ⊆ setBlockIndexCandidates s';
  ld_only : setBlockIndexCandidates s' ⊆ {[p]} ∪ setBlockIndexCandidates s;
  ld_candidate : ~ worse (index s') p t -> p ∈ setBlockIndexCandidates s'
}.

(** The counter is the sum of the transactions of the chain. *)
Lemma link_count s p b prev : tree_ok (index s) -> received_ok s -> waiting (index s) p b ->
  ChainNode.parent (index s) b = Some prev -> (forall bq, prev = Some bq -> nChainTx bq <> 0) ->
  let ct := u32 ((match prev with None => 0 | Some bq => nChainTx bq end) + nTx b) in
  ct = tx_upto (Z.to_nat (nHeight b)) (index s) p /\ ct <> 0.
Proof.
  intros Htree [R1 R2 R3 R4 R5 R6 R7 R8] [Hb Htx Hc Hlev] Hpar Hprev ct. pose proof (R4 (Z.to_nat (nHeight b)) p) as Hbnd.
  unfold ct. unfold ChainNode.parent in Hpar. destruct (pprev b) as [q|] eqn:Eq.
  - destruct (index s !! q) as [bq|] eqn:Ebq; [|done]. injection Hpar as <-.
    rewrite (tx_upto_step _ p b q bq Htree Hb Eq Ebq) in *. rewrite <- (R1 q bq Ebq (Hprev bq eq_refl)) in *.
    assert (0 <= nChainTx bq) as Hnn by (rewrite (R1 q bq Ebq (Hprev bq eq_refl)); by apply tx_upto_nonneg).
    rewrite u32_id by (unfold is_u32; lia). lia.
  - injection Hpar as <-. rewrite (tx_upto_root _ p b Hb Eq) in *. rewrite u32_id by (unfold is_u32; lia). lia.
Qed.

Lemma linked_index_ok (m : heap) p b b' prev : index_ok m -> waiting m p b -> linked_entry m p prev b b' ->
  ChainNode.parent m b = Some prev -> (forall bq, prev = Some bq -> nChainTx bq <> 0) -> index_ok (<[p := b']> m).
Proof.
  intros Hi [Hb Htx Hc Hlev] [Hl _ Hst _ _ _ _] Hpar Hprev.
  apply (link_index_ok m p b b' Hi Hb Hc Hl); [unfold level; by rewrite Hst|]. intros q bq Eq Ebq _.
  unfold ChainNode.parent in Hpar. rewrite Eq, Ebq in Hpar. injection Hpar as <-. by apply Hprev.
Qed.

(** Running [link_block] on a waiting block whose parent is linked. *)
Lemma link_block_runs s p b prev t bt : state_ok cv s -> chain_for (index s) (chainActive s) t bt -> received_ok s ->
  waiting (index s) p b -> ChainNode.parent (index s) b = Some prev -> (forall bq, prev = Some bq -> nChainTx bq <> 0) ->
  exists b' s', link_block ZIP209Enabled fDeveloper cpHeight cpBalance cpHash p s = Some s' /\
    linked_entry (index s) p prev b b' /\ linked s p b' t s'.
Proof using Hfallback.
  intros Hs Ht Hrec Hw Hpar Hprev. pose proof (so_index cv s Hs) as Hi. pose proof (wt_entry _ _ _ Hw) as Hb.
  unfold link_block. rewrite Hb. monad.
  assert (match pprev b with None => Some None | Some q => bq ← index s !! q; Some (Some bq) end = Some prev) as ->.
  { unfold ChainNode.parent in Hpar. destruct (pprev b) as [q|]; [|done]. by destruct (index s !! q). }
  monad. rewrite fallback_id. monad. destruct (link_count s p b prev (io_tree _ Hi) Hrec Hw Hpar Hprev) as [Hct Hct0].
  set (ct := u32 _) in *.
  match goal with |- context [set_chain_totals b ct ?sp ?sa ?seq] =>
    assert (sp = sprout_total prev b) as -> by (by destruct prev);
    assert (sa = sapling_total prev b) as -> by (destruct prev as [bq|]; [unfold sapling_total; by destruct (nChainSaplingValue bq)|done]);
    set (b' := set_chain_totals b ct (sprout_total prev b) (sapling_total prev b) seq) end.
  assert (linked_entry (index s) p prev b b') as Hle by done. pose proof (linked_index_ok _ p b b' prev Hi Hw Hle Hpar Hprev) as Hi'.
  assert (p <> t) as Hpt.
  { intros ->. destruct (active_ancestor cv s t bt t b Hs Ht (ancestor_refl _ _) Hb) as (_ & ? & _). by destruct Hw. }
  cbn [set_sequence set_index chainActive index]. rewrite (chain_tip _ _ _ _ (io_tree _ Hi) Ht).
  destruct (comparator_spec (<[p := b']> (index s)) p t b' bt (io_work _ Hi')) as (lt & -> & Hlt);
    [by rewrite lookup_insert_eq|by rewrite lookup_insert_ne by done; apply Ht|]. monad.
  exists b'. eexists. split; [done|]. split; [done|]. destruct lt; split; simpl; try done.
  - apply union_subseteq_r.
  - intros Hn. destruct Hn. by apply Hlt.
  - apply union_subseteq_r.
  - intros _. by apply elem_of_union_l, elem_of_singleton.
Qed.

Section linked.
Context (s s' : state W) (p : nat) (b b' : CBlockIndex) (prev : option CBlockIndex) (t : nat) (queue : list nat).
Context (Hl : linking s (p :: queue) t) (Hw : waiting (index s) p b) (Hpar : ChainNode.parent (index s) b = Some prev).
Context (Hprev : forall bq, prev = Some bq -> nChainTx bq <> 0) (Hle : linked_entry (index s) p prev b b') (Hld : linked s p b' t s').

Lemma linked_same q bq : index s !! q = Some bq -> q <> p -> index s' !! q = Some bq.
Proof using Hld. intros Hbq Hn. by rewrite (ld_index _ _ _ _ _ Hld), lookup_insert_ne. Qed.

Lemma linked_state_ok : state_ok cv s'.
Proof using Hl Hw Hpar Hprev Hle Hld.
  destruct Hl as [Hs _ _ _ _ _]. pose proof (linked_index_ok _ p b b' prev (so_index _ _ Hs) Hw Hle Hpar Hprev) as Hi'.
  destruct (replaced_state_ok s p b b' Hs (wt_entry _ _ _ Hw) (wt_chain _ _ _ Hw) (le_links _ _ _ _ _ Hle) Hi') as [S1 S2 S3 S4 S5 S6].
  destruct Hld as [E1 E2 _ _ _ E4 E5 _ E7 _]. simpl in *. split; rewrite ?E1, ?E2, ?E4, ?E5; try done.
  intros q Hqc. apply E7, elem_of_union in Hqc as [Hqc|Hqc]; [|by apply S4].
  apply elem_of_singleton in Hqc as ->. rewrite lookup_insert_eq. exists b'. split; [done|apply Hle].
Qed.

Lemma linked_complete : (exists bt, chain_for (index s') (chainActive s') t bt) /\ complete s' t.
Proof using Hl Hw Hle Hld.
  destruct Hl as [Hs (bt & Ht) Hcomp _ _ _], Hw as [Hb _ Hc _]. pose proof (so_index cv s Hs) as Hi.
  assert (p <> t) as Hpt.
  { intros ->. by destruct (active_ancestor cv s t bt t b Hs Ht (ancestor_refl _ _) Hb) as (_ & ? & _). }
  destruct Hld as [E1 E2 _ _ _ _ _ E6 _ E8]. split.
  - exists bt. rewrite E1, E2. eapply (links_chain_for (index s)); [apply links_insert with b; [done|apply Hle]| |done|done].
    rewrite lookup_insert_ne by done. apply Ht.
  - intros q bq Hbq Hcq Hv Hwo. destruct (decide (q = p)) as [->|Hn]; [by apply E8|]. rewrite E1 in *.
    rewrite lookup_insert_ne in Hbq by done. apply E6, (Hcomp q bq Hbq Hcq).
    + by apply (valid_chain_insert _ p b b' q bq Hi Hb Hc (le_links _ _ _ _ _ Hle)).
    + by rewrite <- (worse_insert _ p b b' q t Hb).
Qed.

Lemma linked_tx_upto n q : tx_upto n (index s') q = tx_upto n (index s) q.
Proof using Hw Hle Hld.
  rewrite (ld_index _ _ _ _ _ Hld). apply tx_upto_ext. intros r. destruct (decide (p = r)) as [<-|Hn].
  - rewrite lookup_insert_eq, (wt_entry _ _ _ Hw). simpl. by rewrite (le_ntx _ _ _ _ _ Hle), (el_prev _ _ (le_links _ _ _ _ _ Hle)).
  - by rewrite lookup_insert_ne.
Qed.

Lemma linked_pools : pools (index s').
Proof using Hl Hw Hpar Hprev Hle Hld.
  destruct Hl as [Hs _ _ Hrec _ _]. rewrite (ld_index _ _ _ _ _ Hld). intros q bq Hbq Hcq. pose proof (wt_entry _ _ _ Hw) as Hb.
  destruct (decide (p = q)) as [<-|Hn].
  - rewrite lookup_insert_eq in Hbq. injection Hbq as <-. exists prev. split; [|split; apply Hle].
    unfold ChainNode.parent in *. rewrite (el_prev _ _ (le_links _ _ _ _ _ Hle)). destruct (pprev b) as [r|] eqn:Er; [|done].
    rewrite lookup_insert_ne; [done|]. intros <-. rewrite Hb in Hpar. injection Hpar as <-. destruct (Hprev b eq_refl), Hw. done.
  - rewrite lookup_insert_ne in Hbq by done. destruct (rc_pools _ Hrec q bq Hbq Hcq) as (pv & Hpv & Hsp & Hsa). exists pv. split; [|done].
    unfold ChainNode.parent in *. destruct (pprev bq) as [r|] eqn:Er; [|done]. rewrite lookup_insert_ne; [done|].
    intros <-. by destruct (io_linked _ (so_index cv s Hs) q bq p b Hbq Hcq Er Hb), Hw.
Qed.

Lemma linked_entries q bq : index s' !! q = Some bq -> exists b0, index s !! q = Some b0 /\ nTx bq = nTx b0 /\
  have_data bq = have_data b0 /\ (q = p \/ bq = b0).
Proof using Hw Hle Hld.
  rewrite (ld_index _ _ _ _ _ Hld). intros Hq. destruct (decide (p = q)) as [<-|Hn].
  - rewrite lookup_insert_eq in Hq. injection Hq as <-. exists b. unfold have_data. rewrite (le_status _ _ _ _ _ Hle).
    split_and!; [apply Hw|apply Hle|done|by left].
  - rewrite lookup_insert_ne in Hq by done. exists bq. split_and!; auto.
Qed.

Lemma linked_waiting c bc : waiting (index s) c bc -> c <> p -> waiting (index s') c bc.
Proof using Hld. intros [C1 C2 C3 C4] Hn. split; [by apply linked_same|done..]. Qed.

(** A waiting block is not the one at the head of the queue. *)
Lemma unlinked_not_head k c : (k, c) ∈ mapBlocksUnlinked s -> c <> p.
Proof using Hl.
  intros Hk ->. pose proof (lk_once _ _ _ Hl) as Hnd. cbn [app] in Hnd. apply NoDup_cons in Hnd as [Hnp _].
  apply Hnp, elem_of_app. right. apply list_elem_of_fmap. by exists (k, p).
Qed.

Lemma linked_received : received_ok (set_unlinked s' (filter (fun e => e.1 <> Some p) (mapBlocksUnlinked s))).
Proof using Hl Hw Hpar Hprev Hle Hld.
  pose proof linked_tx_upto as Hext. pose proof (lk_received _ _ _ Hl) as [R1 R2 R3 R4 R5 R6 R7 R8].
  split; simpl; [|apply linked_pools|..].
  - intros q bq Hbq Hcq. rewrite Hext. destruct (linked_entries q bq Hbq) as (b0 & Hb0 & _ & _ & [->| ->]); [|by apply R1].
    rewrite (ld_index _ _ _ _ _ Hld), lookup_insert_eq in Hbq. injection Hbq as <-.
    by rewrite (le_count _ _ _ _ _ Hle), (el_height _ _ (le_links _ _ _ _ _ Hle)).
  - intros q bq Hbq. destruct (linked_entries q bq Hbq) as (b0 & Hb0 & -> & _). eauto.
  - intros n q. rewrite Hext. apply R4.
  - intros k c Hk. apply list_elem_of_filter in Hk as [Hkp Hk]. simpl in Hkp.
    destruct (R5 k c Hk) as (bc & q & bq & Hwc & Hpc & -> & Hbq & Hcq). exists bc, q, bq.
    split_and!; [|done|done| |done]; [apply linked_waiting; [done|by eapply unlinked_not_head]|].
    apply linked_same; [done|]. intros ->. done.
  - rewrite <- (filter_split (fun e => e.1 = Some p)) in R6. rewrite fmap_app in R6. by apply NoDup_app in R6 as (_ & _ & R6).
  - intros q bq Hbq Hcq. destruct (linked_entries q bq Hbq) as (b0 & Hb0 & E & _ & [->| ->]); [|by eapply R7].
    rewrite E. assert (b0 = b) as -> by (destruct Hw; congruence). apply Hw.
  - intros q bq Hbq. destruct (linked_entries q bq Hbq) as (b0 & Hb0 & -> & -> & _). eauto.
Qed.

(** The children of the linked block can be linked next. *)
Lemma linked_queue q : q ∈ queue ++ (filter (fun e => e.1 = Some p) (mapBlocksUnlinked s)).*2 ->
  exists bq pv, waiting (index s') q bq /\ ChainNode.parent (index s') bq = Some pv /\ forall br, pv = Some br -> nChainTx br <> 0.
Proof using Hl Hw Hpar Hprev Hle Hld.
  pose proof Hl as [Hs _ _ Hrec Hq Hnd]. cbn [app] in Hnd. apply NoDup_cons in Hnd as [Hnp Hnd].
  intros Hqq. apply elem_of_app in Hqq as [Hqq|Hqq].
  - assert (q <> p) as Hqp by (intros ->; apply Hnp, elem_of_app; by left).
    destruct (Hq q) as (bq & pv & Hwq & Hpv & Hpl); [by apply list_elem_of_further|]. exists bq, pv.
    split_and!; [by apply linked_waiting| |done].
    unfold ChainNode.parent in *. destruct (pprev bq) as [r|] eqn:Er; [|done]. destruct (index s !! r) as [br|] eqn:Ebr; [|done].
    injection Hpv as <-. rewrite (linked_same r br Ebr); [done|]. intros ->. assert (br = b) as -> by (destruct Hw; congruence).
    by destruct (Hpl b eq_refl), Hw.
  - apply list_elem_of_fmap in Hqq as ([k c] & -> & Hk). apply list_elem_of_filter in Hk as [Hkp Hk]. simpl in Hkp. simpl.
    destruct (rc_unlinked _ Hrec k c Hk) as (bc & q & bq & Hwc & Hpc & -> & Hbq & Hcq). injection Hkp as ->.
    exists bc, (Some b'). split_and!; [apply linked_waiting; [done|by eapply unlinked_not_head]| |intros ? [= <-]; apply Hle].
    unfold ChainNode.parent. by rewrite Hpc, (ld_index _ _ _ _ _ Hld), lookup_insert_eq.
Qed.

Lemma linked_linking : linking (set_unlinked s' (filter (fun e => e.1 <> Some p) (mapBlocksUnlinked s)))
  (queue ++ (filter (fun e => e.1 = Some p) (mapBlocksUnlinked s)).*2) t.
Proof using Hl Hw Hpar Hprev Hle Hld.
  pose proof linked_complete as [Htip Hcomp]. pose proof linked_state_ok as Hs'.
  split; [by destruct Hs'|done|done|apply linked_received|apply linked_queue|].
  pose proof (lk_once _ _ _ Hl) as Hnd. cbn [app] in Hnd. apply NoDup_cons in Hnd as [_ Hnd].
  simpl. rewrite <- app_assoc, <- fmap_app. by rewrite (filter_split (fun e => e.1 = Some p)).
Qed.

End linked.

(** What the operations of this part leave alone. *)
Definition kept s s' : Prop := chainActive s' = chainActive s /\ mapBlockIndex s' = mapBlockIndex s /\
  pindexBestHeader s' = pindexBestHeader s /\
  (forall q, is_Some (index s' !! q) <-> is_Some (index s !! q)) /\
  (forall q bq, index s !! q = Some bq -> nChainTx bq <> 0 -> index s' !! q = Some bq).

#[global] Instance kept_pre : PreOrder kept.
Proof.
  split; [by intros s; split_and!|]. intros a b c (A1 & A2 & A3 & A4 & A5) (B1 & B2 & B3 & B4 & B5).
  split_and!; [congruence..| |auto]. intros q. by rewrite B4.
Qed.

Lemma linked_kept s s' p b b' t : index s !! p = Some b -> nChainTx b = 0 -> linked s p b' t s' -> kept s s'.
Proof.
  intros Hb Hc [E1 E2 _ E4 E5 _ _ _ _ _]. split_and!; try done; rewrite E1.
  - intros q. destruct (decide (p = q)) as [<-|Hn]; [rewrite lookup_insert_eq, Hb; split; eauto|by rewrite lookup_insert_ne].
  - intros q bq Hq Hcq. rewrite lookup_insert_ne; [done|]. intros ->. congruence.
Qed.

Lemma link_queue_spec fuel : forall queue s t, linking s queue t ->
  (length queue + length (mapBlocksUnlinked s) <= fuel)%nat ->
  exists s', link_queue ZIP209Enabled fDeveloper cpHeight cpBalance cpHash fuel queue s = Some s' /\
    linking s' [] t /\ kept s s' /\
    (forall q, q ∈ queue -> exists bq, index s' !! q = Some bq /\ nChainTx bq <> 0).
Proof using Hfallback.
  induction fuel as [|fuel IH]; intros [|p queue] s t Hl Hf; cbn [link_queue]; simpl in Hf; try lia;
    [exists s; split_and!; try done; set_solver..|].
  destruct (lk_queue _ _ _ Hl p) as (b & prev & Hw & Hpar & Hprev); [set_solver|]. destruct (lk_tip _ _ _ Hl) as (bt & Ht).
  destruct (link_block_runs s p b prev t bt (lk_ok _ _ _ Hl) Ht (lk_received _ _ _ Hl) Hw Hpar Hprev) as (b' & s1 & -> & Hle & Hld).
  monad. rewrite (ld_unlinked _ _ _ _ _ Hld). pose proof (linked_linking s s1 p b b' prev t queue Hl Hw Hpar Hprev Hle Hld) as Hl1.
  destruct (IH _ _ _ Hl1) as (s' & -> & Hl' & Hk & Hdone).
  - rewrite length_app, length_fmap. simpl.
    pose proof (Permutation_length (filter_split (fun e : option nat * nat => e.1 = Some p) (mapBlocksUnlinked s))) as Hlen.
    rewrite length_app in Hlen. lia.
  - exists s'. split_and!; [done|done| |].
    + transitivity s1; [by apply (linked_kept s s1 p b b' t); [apply Hw..|]|done].
    + intros q Hq. apply elem_of_cons in Hq as [->|Hq]; [|apply Hdone; set_solver]. exists b'. split; [|apply Hle].
      apply Hk; [|apply Hle]. simpl. by rewrite (ld_index _ _ _ _ _ Hld), lookup_insert_eq.
Qed.


(** ** Receiving *)

Lemma tx_upto_insert (m : heap) p b' : forall n q, ~ is_ancestor m p q -> tx_upto n (<[p := b']> m) q = tx_upto n m q.
Proof.
  induction n as [|n IH]; intros q Hn; simpl;
    (assert (p <> q) as Hpq by (intros ->; apply Hn, ancestor_refl)); rewrite lookup_insert_ne by done;
    (destruct (m !! q) as [b|] eqn:Eq; [|done]); (destruct (pprev b) as [r|] eqn:Er; [|done]); [done|].
  rewrite IH; [done|]. intros Ha. apply Hn. eapply ancestor_trans; [done|]. exists 1%nat. cbn [back]. rewrite Eq. monad. by rewrite Er.
Qed.

Lemma has_data_lor status : has (Z.lor status BLOCK_HAVE_DATA) BLOCK_HAVE_DATA = true.
Proof.
  unfold has. apply negb_true_iff, Z.eqb_neq. rewrite Z.land_lor_distr_l. intros E. by apply Z.lor_eq_0_iff in E as [_ E].
Qed.

(** A block that is not failed reaches the level of received transactions. *)
Lemma raise_transactions status : has status BLOCK_FAILED_MASK = false ->
  exists status' r, RaiseValidity (Z.lor status BLOCK_HAVE_DATA) BLOCK_VALID_TRANSACTIONS = Some (status', r) /\
    BLOCK_VALID_TRANSACTIONS <= Z.land status' BLOCK_VALID_MASK /\ has status' BLOCK_HAVE_DATA = true /\
    has status' BLOCK_FAILED_MASK = false.
Proof.
  intros Hf. set (st := Z.lor status BLOCK_HAVE_DATA).
  assert (has st BLOCK_FAILED_MASK = false) as Hf' by (unfold st; by rewrite has_lor_other).
  destruct (RaiseValidity st BLOCK_VALID_TRANSACTIONS) as [[status' r]|] eqn:E.
  - exists status', r. split; [done|]. pose proof E as E2. apply ChainNode.raise_status_le in E2 as (G1 & G2 & G3); [|done..].
    split_and!; [|by rewrite G2; apply has_data_lor|by rewrite G1].
    unfold RaiseValidity in E. destruct (negb _) in E; [done|]. fold (has st BLOCK_FAILED_MASK) in E. rewrite Hf' in E.
    destruct (Z.ltb_spec (Z.land st BLOCK_VALID_MASK) BLOCK_VALID_TRANSACTIONS); [|injection E as <- _; done].
    injection E as <- _. rewrite Z.land_lor_distr_l, <- Z.land_assoc.
    change (Z.land (u32 (Z.lnot BLOCK_VALID_MASK)) BLOCK_VALID_MASK) with 0. rewrite Z.land_0_r. by vm_compute.
  - unfold RaiseValidity in E. destruct (Z.land BLOCK_VALID_TRANSACTIONS (u32 (Z.lnot BLOCK_VALID_MASK)) =? 0) eqn:E0;
      [|vm_compute in E0; discriminate E0]. cbn [negb] in E. destruct (negb _) in E; [done|]. by destruct (_ <? _) in E.
Qed.

(** The state after the entry of the block is written. *)
Section received.
Context (s : state W) (p : nat) (b b' : CBlockIndex) (t : nat) (bt : CBlockIndex).
Context (Hs : state_ok cv s) (Ht : chain_for (index s) (chainActive s) t bt) (Hcomp : complete s t) (Hrec : received_ok s).
Context (Hb : index s !! p = Some b) (Htx : nTx b = 0) (Hc : nChainTx b = 0) (Hl : entry_links b b').
Context (Htx' : 0 < nTx b') (Hc' : nChainTx b' = 0) (Hlev : BLOCK_VALID_TRANSACTIONS <= level b') (Hdata : have_data b' = true).
Context (Hbnd : forall n q, tx_upto n (<[p := b']> (index s)) q < 2 ^ 32).

Let s1 : state W := dirty p (set_index s (<[p := b']> (index s))).

Lemma received_linked q bq : index s1 !! q = Some bq -> nChainTx bq <> 0 -> q <> p /\ index s !! q = Some bq.
Proof using All.
  simpl. intros Hq Hcq. destruct (decide (p = q)) as [<-|Hn].
  - rewrite lookup_insert_eq in Hq. congruence.
  - by rewrite lookup_insert_ne in Hq.
Qed.

Lemma received_unlinked : p ∉ (mapBlocksUnlinked s).*2.
Proof using All.
  intros Hin. apply list_elem_of_fmap in Hin as ([k c] & -> & Hk). simpl in *.
  destruct (rc_unlinked _ Hrec k c Hk) as (bc & q & bq & [C1 C2 C3 C4] & _). assert (bc = b) as -> by congruence. lia.
Qed.

Lemma received_kept : kept s s1.
Proof using All.
  split_and!; try done; simpl.
  - intros q. destruct (decide (p = q)) as [<-|Hn]; [rewrite lookup_insert_eq, Hb; split; eauto|by rewrite lookup_insert_ne].
  - intros q bq Hq Hcq. rewrite lookup_insert_ne; [done|]. intros ->. congruence.
Qed.

Lemma received_state : state_ok cv s1 /\ (exists bt', chain_for (index s1) (chainActive s1) t bt') /\ complete s1 t.
Proof using All.
  pose proof (so_index cv s Hs) as Hi.
  assert (p <> t) as Hpt.
  { intros ->. destruct (active_ancestor cv s t bt t b Hs Ht (ancestor_refl _ _) Hb) as (_ & ? & _). done. }
  assert (index_ok (<[p := b']> (index s))) as Hi' by (by apply (link_index_ok (index s) p b b' Hi Hb Hc Hl)).
  split_and!.
  - pose proof (replaced_state_ok s p b b' Hs Hb Hc Hl Hi') as Hs1. by apply (core_ok cv _ _ Hs1); [|apply Hs1..].
  - exists bt. eapply (links_chain_for (index s)); [by apply links_insert with b| |done|done]. simpl.
    rewrite lookup_insert_ne by done. apply Ht.
  - intros q bq Hq Hcq Hv Hw. destruct (received_linked q bq Hq Hcq) as [Hn Hq']. simpl in *. apply (Hcomp q bq Hq' Hcq).
    + by apply (valid_chain_insert _ p b b' q bq Hi Hb Hc Hl).
    + by rewrite <- (worse_insert _ p b b' q t Hb).
Qed.

Lemma received_totals : received_ok s1.
Proof using All.
  pose proof Hrec as [R1 R2 R3 R4 R5 R6 R7 R8]. pose proof (so_index cv s Hs) as Hi.
  assert (forall q bq, index s1 !! q = Some bq -> q = p /\ bq = b' \/ index s !! q = Some bq) as Hcase.
  { simpl. intros q bq. destruct (decide (p = q)) as [<-|Hn].
    - rewrite lookup_insert_eq. intros [= <-]. by left.
    - rewrite lookup_insert_ne by done. by right. }
  split; [| | |done| |done|..].
  - intros q bq Hq Hcq. destruct (received_linked q bq Hq Hcq) as [Hn Hq']. simpl. rewrite tx_upto_insert; [by apply R1|].
    by eapply linked_not_below.
  - intros q bq Hq Hcq. destruct (received_linked q bq Hq Hcq) as [Hn Hq']. destruct (R2 q bq Hq' Hcq) as (pv & Hpv & E).
    exists pv. split; [|done]. unfold ChainNode.parent in *. destruct (pprev bq) as [r|] eqn:Er; [|done]. simpl.
    rewrite lookup_insert_ne; [done|]. intros <-. by destruct (io_linked _ Hi q bq p b Hq' Hcq Er Hb).
  - intros q bq Hq. destruct (Hcase q bq Hq) as [[-> ->]|Hq']; [lia|by eapply R3].
  - intros k c Hk. destruct (R5 k c Hk) as (bc & q & bq & [C1 C2 C3 C4] & Hpc & -> & Hbq & Hcq).
    assert (c <> p) as Hcp by (intros ->; apply received_unlinked, list_elem_of_fmap; by exists (Some q, p)).
    assert (waiting (index s1) c bc) as Hwc by (split; try done; simpl; by rewrite lookup_insert_ne).
    destruct (decide (p = q)) as [<-|Hn].
    + exists bc, p, b'. simpl. by rewrite lookup_insert_eq.
    + exists bc, q, bq. simpl. by rewrite lookup_insert_ne.
  - intros q bq Hq Hcq. destruct (received_linked q bq Hq Hcq) as [Hn Hq']. by eapply R7.
  - intros q bq Hq Hpos. destruct (Hcase q bq Hq) as [[-> ->]|Hq']; [done|by eapply R8].
Qed.

Lemma received_waiting : waiting (index s1) p b'.
Proof using All. split; try done. simpl. by rewrite lookup_insert_eq. Qed.

(** The parent is linked: the block and the blocks that waited for it are linked. *)
Lemma received_link prev : ChainNode.parent (index s) b = Some prev -> (forall bq, prev = Some bq -> nChainTx bq <> 0) ->
  exists s', link_queue ZIP209Enabled fDeveloper cpHeight cpBalance cpHash (S (length (mapBlocksUnlinked s1))) [p] s1 = Some s' /\
    state_ok cv s' /\ complete s' t /\ received_ok s' /\ kept s s' /\ (exists b1, index s' !! p = Some b1 /\ nChainTx b1 <> 0).
Proof using All.
  intros Hpv Hpl. pose proof received_state as (Hs1 & Ht1 & Hcomp1). pose proof received_totals as Hrec1.
  destruct (link_queue_spec (S (length (mapBlocksUnlinked s1))) [p] s1 t) as (s' & -> & [L1 L2 L3 L4 _ _] & Hk & Hd).
  - split; [done..| |].
    + intros q Hq. apply list_elem_of_singleton in Hq as ->. exists b', prev. split_and!; [apply received_waiting| |done].
      unfold ChainNode.parent in *. rewrite (el_prev _ _ Hl). destruct (pprev b) as [q|] eqn:Eq; [|done].
      destruct (index s !! q) as [bq|] eqn:Ebq; [|done]. injection Hpv as <-.
      destruct received_kept as (_ & _ & _ & _ & Hkeep). by rewrite (Hkeep q bq Ebq (Hpl bq eq_refl)).
    + simpl. apply NoDup_cons. split; [apply received_unlinked|apply Hrec].
  - simpl. lia.
  - exists s'. split_and!; [done..| |apply Hd; by apply list_elem_of_singleton]. transitivity s1; [apply received_kept|done].
Qed.

(** The parent is a header: the block waits for it. *)
Lemma received_wait q bq v : pprev b = Some q -> index s !! q = Some bq -> nChainTx bq = 0 -> p <> q ->
  let s' := if (v : bool) then set_unlinked s1 (mapBlocksUnlinked s1 ++ [(Some q, p)]) else s1 in
  state_ok cv s' /\ complete s' t /\ received_ok s' /\ kept s s'.
Proof using All.
  intros Hq Hbq Hz Hpq s'. pose proof received_state as (Hs1 & Ht1 & Hcomp1). pose proof received_totals as Hrec1.
  pose proof received_kept as Hk. destruct v; [|done]. split_and!; [by destruct Hs1|done| |done].
  destruct Hrec1 as [R1 R2 R3 R4 R5 R6 R7 R8]. split; try done; cbn [s' mapBlocksUnlinked set_unlinked].
  - intros k c Hin. apply elem_of_app in Hin as [Hin|Hin]; [by apply R5|]. apply list_elem_of_singleton in Hin. injection Hin as -> ->.
    exists b', q, bq. split_and!; try done; [apply received_waiting|by rewrite (el_prev _ _ Hl)|simpl; by rewrite lookup_insert_ne].
  - rewrite fmap_app. simpl. apply NoDup_app. split_and!; [apply Hrec| |apply NoDup_singleton].
    intros x Hx Hx'. apply list_elem_of_singleton in Hx' as ->. by apply received_unlinked.
Qed.

End received.


(** A block occurs at most once on a chain. *)
Lemma tx_upto_received (m : heap) p b b' : tree_ok m -> m !! p = Some b -> entry_links b b' -> nTx b = 0 -> 0 <= nTx b' ->
  forall n q, tx_upto n (<[p := b']> m) q <= tx_upto n m q + nTx b'.
Proof.
  intros Ht Hb Hl Htx Hpos. induction n as [|n IH]; intros q; simpl; (destruct (decide (p = q)) as [<-|Hn];
    [rewrite lookup_insert_eq, Hb, (el_prev _ _ Hl)|rewrite lookup_insert_ne by done]).
  - destruct (pprev b); lia.
  - destruct (m !! q) as [bq|]; [|lia]. destruct (pprev bq); lia.
  - destruct (pprev b) as [r|] eqn:Er; [|lia]. rewrite tx_upto_insert; [lia|]. intros [k Hk].
    destruct (node_prev _ _ _ (Ht _ _ Hb) _ Er) as (br & Hbr & Hh).
    pose proof (back_height m Ht _ _ _ _ _ Hbr Hk Hb). lia.
  - destruct (m !! q) as [bq|]; [|lia]. destruct (pprev bq) as [r|]; [|lia]. specialize (IH r). lia.
Qed.

(** [IsValid] only asserts that its argument is a level. *)
Lemma IsValid_tree b : exists v, IsValid b BLOCK_VALID_TREE = Some v.
Proof.
  unfold IsValid. destruct (Z.land BLOCK_VALID_TREE (u32 (Z.lnot BLOCK_VALID_MASK)) =? 0) eqn:E0;
    [|vm_compute in E0; discriminate E0]. cbn [negb]. destruct (negb _); eauto.
Qed.

Lemma ReceivedBlockTransactions_spec block p pos s b t bt : state_ok cv s -> chain_for (index s) (chainActive s) t bt ->
  complete s t -> received_ok s -> index s !! p = Some b -> nTx b = 0 -> nChainTx b = 0 -> failed b = false ->
  0 < Z.of_nat (length (Merkle.vtx block)) ->
  (forall n q, tx_upto n (index s) q + Z.of_nat (length (Merkle.vtx block)) < 2 ^ 32) ->
  exists s', ReceivedBlockTransactions ZIP209Enabled fDeveloper cpHeight cpBalance cpHash block p pos s = Some s' /\
    state_ok cv s' /\ complete s' t /\ received_ok s' /\ kept s s' /\
    (forall prev, ChainNode.parent (index s) b = Some prev -> (forall bq, prev = Some bq -> nChainTx bq <> 0) ->
       exists b', index s' !! p = Some b' /\ nChainTx b' <> 0).
Proof using Hfallback.
  intros Hs Ht Hcomp Hrec Hb Htx Hc Hf Hlen Hbnd. unfold ReceivedBlockTransactions. rewrite Hb. monad.
  destruct (raise_transactions (nStatus b) Hf) as (status & r & -> & Hlev & Hdata & _). monad.
  assert (0 <= tx_upto 0 (index s) p) as H0 by (apply tx_upto_nonneg; apply Hrec). pose proof (Hbnd O p) as Hb0.
  assert (u32 (Z.of_nat (length (Merkle.vtx block))) = Z.of_nat (length (Merkle.vtx block))) as Hu
    by (apply u32_id; unfold is_u32; lia).
  set (b' := set_received b _ _ _ pos status). assert (entry_links b b') as Hl by done.
  assert (0 < nTx b') as Htx' by (unfold b'; cbn [set_received nTx]; lia).
  assert (forall n q, tx_upto n (<[p := b']> (index s)) q < 2 ^ 32) as Hbnd'.
  { intros n q. pose proof (tx_upto_received (index s) p b b' (so_tree cv s Hs) Hb Hl Htx ltac:(lia) n q).
    specialize (Hbnd n q). unfold b' in *. cbn [set_received nTx] in *. lia. }
  pose proof (received_link s p b b' t bt Hs Ht Hcomp Hrec Hb Htx Hc Hl Htx' eq_refl Hlev Hdata Hbnd') as Hlink.
  change (pprev b') with (pprev b). destruct (pprev b) as [q|] eqn:Eq.
  2: { destruct (Hlink None) as (s' & -> & H1 & H2 & H3 & H4 & H5); [unfold ChainNode.parent; by rewrite Eq|done|].
       exists s'. by split_and!. }
  destruct (node_prev _ _ _ (so_tree cv s Hs _ _ Hb) _ Eq) as (bq & Hbq & Hh).
  assert (p <> q) as Hpq by (intros ->; assert (bq = b) as -> by congruence; lia).
  assert (index (dirty p (set_index s (<[p := b']> (index s)))) !! q = Some bq) as -> by (simpl; by rewrite lookup_insert_ne). monad.
  assert (ChainNode.parent (index s) b = Some (Some bq)) as Hpv by (unfold ChainNode.parent; by rewrite Eq, Hbq).
  destruct (Z.eqb_spec (nChainTx bq) 0) as [Hz|Hnz]; cbn [negb].
  - destruct (IsValid_tree bq) as (v & ->). monad.
    destruct (received_wait s p b b' t bt Hs Ht Hcomp Hrec Hb Htx Hc Hl Htx' eq_refl Hlev Hdata Hbnd' q bq v Eq Hbq Hz Hpq)
      as (H1 & H2 & H3 & H4).
    eexists. split; [done|]. split_and!; [done..|]. intros prev Hpv' Hpl. rewrite Hpv in Hpv'. injection Hpv' as <-.
    by destruct (Hpl bq eq_refl).
  - destruct (Hlink (Some bq) Hpv) as (s' & -> & H1 & H2 & H3 & H4 & H5); [by intros ? [= <-]|]. exists s'. by split_and!.
Qed.

End receive.

End ChainReceive.
