(* ===== verification/ChainHistory.v ===== *)
(** * The whole life of the block index

    [node_ok] collects the invariants of chain selection and of the chain totals.
    Accepting a header, receiving a block, activating the best chain and marking a
    block invalid keep it, in any order; so after every successful activation of a
    reachable state the node is on its best chain. *)

From stdpp Require Import base list list_numbers numbers option gmap strings fin_sets.
From Stdlib Require Import ZArith Lia.
From S2P Require Import Prelude Bytes ArithUint256 Params Chain ChainFacts Pow Transaction Merkle TxCheck ChainState ChainStateFacts ChainFrame.
From S2P Require Import ChainSelect ChainSafety ChainInvalidate ChainNode ChainReceive.
Import BlockIndex ChainFacts ChainState ChainStateFacts ChainFrame ChainSelect ChainSafety ChainInvalidate ChainReceive.
#[local] Open Scope Z_scope.

Module ChainHistory.

Abbreviation heap := (gmap nat CBlockIndex) (only parsing).

(** ** A new header *)

(** Work and status play no part in the shape of the tree. *)
Lemma tree_ok_shape (m : heap) p b b' : tree_ok m -> m !! p = Some b -> pprev b' = pprev b -> pskip b' = pskip b ->
  nHeight b' = nHeight b -> tree_ok (<[p := b']> m).
Proof.
  intros Ht Hp H1 H2 H3. assert (forall q, pprev <$> <[p := b']> m !! q = pprev <$> m !! q) as Hprev.
  { intros q. destruct (decide (p = q)) as [<-|Hn]; [by rewrite lookup_insert_eq, Hp; simpl; rewrite H1|by rewrite lookup_insert_ne]. }
  intros q bq Hq. assert (exists b0, m !! q = Some b0 /\ pprev bq = pprev b0 /\ pskip bq = pskip b0 /\ nHeight bq = nHeight b0)
    as (b0 & Hb0 & G1 & G2 & G3).
  { destruct (decide (p = q)) as [<-|Hn]; [rewrite lookup_insert_eq in Hq; injection Hq as <-; eauto|].
    rewrite lookup_insert_ne in Hq by done. eauto. }
  destruct (Ht q b0 Hb0) as [K1 K2 K3 K4]. split; rewrite ?G1, ?G2, ?G3; [done|done| |].
  - intros r Hr. destruct (K3 r Hr) as (br & Hbr & Hh). destruct (decide (p = r)) as [<-|Hn].
    + exists b'. rewrite lookup_insert_eq. split; [done|]. rewrite H3. congruence.
    + exists br. by rewrite lookup_insert_ne.
  - intros r Hr. rewrite (back_ext _ m _ _ Hprev). by apply K4.
Qed.

Section fresh.
Context (m : heap) (Hi : index_ok m) (p q : nat) (b bq : CBlockIndex).
Context (Hp : m !! p = None) (Hq : m !! q = Some bq) (Hpr : pprev b = Some q).

Lemma fresh_lookup x bx : x <> p -> <[p := b]> m !! x = Some bx -> m !! x = Some bx.
Proof. intros Hn. by rewrite lookup_insert_ne. Qed.

Lemma fresh_back n x bx : m !! x = Some bx -> back n (<[p := b]> m) x = back n m x.
Proof using Hi Hp. intros Hx. by apply (back_insert_fresh m p b n x bx (io_tree _ Hi) Hp). Qed.

Lemma fresh_not_ancestor x : x <> p -> ~ is_ancestor m p x.
Proof using Hi Hp.
  intros Hn [n Hn']. destruct n as [|n]; [injection Hn' as ->; done|]. destruct (m !! x) as [bx|] eqn:Hx.
  - destruct (back_mapped m (io_tree _ Hi) (S n) x bx p Hx Hn') as [? ?]. congruence.
  - cbn [back] in Hn'. by rewrite Hx in Hn'.
Qed.

Lemma fresh_ancestor x bx r : m !! x = Some bx -> is_ancestor (<[p := b]> m) r x <-> is_ancestor m r x.
Proof using Hi Hp. intros Hx. unfold is_ancestor. by setoid_rewrite (fresh_back _ x bx Hx). Qed.

Lemma fresh_valid x bx : m !! x = Some bx -> valid_chain (<[p := b]> m) x <-> valid_chain m x.
Proof using Hi Hp.
  intros Hx. assert (x <> p) as Hn by (intros ->; congruence). pose proof (fresh_not_ancestor x Hn) as Hna.
  split; intros Hv r br Ha Hr.
  - apply (Hv r br); [by apply (fresh_ancestor x bx)|]. rewrite lookup_insert_ne; [done|]. intros ->. done.
  - apply (fresh_ancestor x bx r Hx) in Ha. rewrite lookup_insert_ne in Hr by (intros ->; done). by eapply Hv.
Qed.

Context (Htree : tree_ok (<[p := b]> m)).

(** A header whose work exceeds its parent's. *)
Lemma fresh_index_ok : Arith256.wf (nChainWork b) -> is_u32 (nBits b) -> nChainTx b = 0 ->
  Arith256.val (nChainWork bq) < Arith256.val (nChainWork b) -> index_ok (<[p := b]> m).
Proof using Hi Hp Hq Hpr Htree.
  intros Hwf Hbits Hc Hgrow. destruct (Hi) as [H1 H2 H3 H4 H5 H6 H7].
  assert (forall x bx y, m !! x = Some bx -> pprev bx = Some y -> y <> p) as Hold.
  { intros x bx y Hx Hy ->. destruct (node_prev _ _ _ (H1 _ _ Hx) _ Hy) as (? & ? & _). congruence. }
  split; [done|..].
  - intros x bx Hx. destruct (decide (x = p)) as [->|Hn]; [rewrite lookup_insert_eq in Hx; by injection Hx as <-|].
    apply fresh_lookup in Hx; eauto.
  - intros x bx Hx. destruct (decide (x = p)) as [->|Hn]; [rewrite lookup_insert_eq in Hx; by injection Hx as <-|].
    apply fresh_lookup in Hx; eauto.
  - intros x bx y by' Hx Hxy Hy. destruct (decide (x = p)) as [->|Hn].
    + rewrite lookup_insert_eq in Hx. injection Hx as <-. assert (y = q) as -> by congruence.
      apply fresh_lookup in Hy; [|congruence]. by replace by' with bq by congruence.
    + apply fresh_lookup in Hx; [|done]. apply fresh_lookup in Hy; [|by eapply Hold]. eauto.
  - intros x bx y by' Hx Hxr Hy Hyr. destruct (decide (x = p)) as [->|Hn].
    { rewrite lookup_insert_eq in Hx. injection Hx as <-. congruence. }
    destruct (decide (y = p)) as [->|Hn'].
    { rewrite lookup_insert_eq in Hy. injection Hy as <-. congruence. }
    apply fresh_lookup in Hx, Hy; eauto.
  - intros x bx y by' Hx Hcx Hxy Hy. destruct (decide (x = p)) as [->|Hn].
    { rewrite lookup_insert_eq in Hx. injection Hx as <-. done. }
    apply fresh_lookup in Hx; [|done]. apply fresh_lookup in Hy; [|by eapply Hold]. eauto.
  - intros x bx Hx Hcx. destruct (decide (x = p)) as [->|Hn].
    { rewrite lookup_insert_eq in Hx. injection Hx as <-. done. }
    apply fresh_lookup in Hx; eauto.
Qed.

End fresh.

Section history.
Context {W : Type} `{!ChainClient W, !ClientLaws W} (cv : nat -> Prop).
Implicit Types s : state W.

(** [mapBlockIndex] owns the entries of the heap. *)
Definition known_ok s : Prop := forall q, is_Some (index s !! q) <-> exists h, mapBlockIndex s !! h = Some q.

Record node_ok s : Prop := {
  no_state : state_ok cv s;
  no_received : received_ok s;
  no_known : known_ok s;
  no_complete : exists t, Tip (chainActive s) = Some t /\ complete s t
}.

Lemma received_data s : received_ok s -> linked_data (index s).
Proof. intros H p b Hp Hc. apply (rc_stored _ H p b Hp). by apply (rc_some _ H p b Hp). Qed.

Lemma known_blocks_spec s q : known_ok s -> is_Some (index s !! q) <-> q ∈ known_blocks s.
Proof.
  intros H. rewrite (H q). unfold known_blocks. rewrite list_elem_of_fmap. split.
  - intros [h Hh]. exists (h, q). split; [done|]. by apply elem_of_map_to_list.
  - intros ([h x] & -> & Hx). exists h. by apply elem_of_map_to_list.
Qed.

(** Totals and waiting blocks survive what chain selection does to the entries. *)
Lemma received_le s s' : received_ok s -> heap_le (index s) (index s') -> frame s s' -> received_ok s'.
Proof.
  intros [R1 R2 R3 R4 R5 R6 R7 R8] Hl [Hu _ _].
  assert (forall n q, tx_upto n (index s') q = tx_upto n (index s) q) as Hext.
  { apply tx_upto_ext. intros q. specialize (Hl q). inversion Hl as [x y Hle|]; simpl; [|done].
    by rewrite (le_tx _ _ Hle), (le_prev _ _ Hle). }
  split; rewrite ?Hu; [| | | | |done|..].
  - intros p b' Hp Hc. destruct (heap_le_bwd _ _ _ _ Hl Hp) as (b & Hb & Hle). rewrite Hext, (le_height _ _ Hle).
    rewrite (le_chaintx _ _ Hle) in *. by apply R1.
  - intros p b' Hp Hc. destruct (heap_le_bwd _ _ _ _ Hl Hp) as (b & Hb & Hle). rewrite (le_chaintx _ _ Hle) in Hc.
    destruct (R2 p b Hb Hc) as (prev & Hpar & Hsp & Hsa). pose proof (le_pools _ _ Hle) as Hpo. injection Hpo as E1 E2 E3 E4.
    unfold ChainNode.parent in *. rewrite (le_prev _ _ Hle). destruct (pprev b) as [q|]; simpl in *.
    + destruct (index s !! q) as [bq|] eqn:Hq; [|done]. injection Hpar as <-.
      destruct (heap_le_fwd _ _ _ _ Hl Hq) as (bq' & -> & Hleq). pose proof (le_pools _ _ Hleq) as Hpo'. injection Hpo' as F1 F2 F3 F4.
      exists (Some bq'). unfold sprout_total, sapling_total in *. by rewrite E1, E2, E3, E4, F2, F4.
    + injection Hpar as <-. exists None. unfold sprout_total, sapling_total in *. by rewrite E1, E2, E3, E4.
  - intros q b' Hq. destruct (heap_le_bwd _ _ _ _ Hl Hq) as (b & Hb & Hle). rewrite (le_tx _ _ Hle). eauto.
  - intros n q. rewrite Hext. apply R4.
  - intros k c Hk. destruct (R5 k c Hk) as (b & q & bq & [C1 C2 C3 C4] & Hpr & -> & Hq & Hcq).
    destruct (heap_le_fwd _ _ _ _ Hl C1) as (b' & Hb' & Hle), (heap_le_fwd _ _ _ _ Hl Hq) as (bq' & Hbq' & Hleq).
    exists b', q, bq'. rewrite (le_prev _ _ Hle), (le_chaintx _ _ Hleq). split_and!; try done.
    split; [done|by rewrite (le_tx _ _ Hle)|by rewrite (le_chaintx _ _ Hle)|]. pose proof (le_level _ _ Hle). lia.
  - intros q b' Hq Hc. destruct (heap_le_bwd _ _ _ _ Hl Hq) as (b & Hb & Hle). rewrite (le_tx _ _ Hle). rewrite (le_chaintx _ _ Hle) in Hc. eauto.
  - intros q b' Hq Hpos. destruct (heap_le_bwd _ _ _ _ Hl Hq) as (b & Hb & Hle). rewrite (le_data _ _ Hle). rewrite (le_tx _ _ Hle) in Hpos. eauto.
Qed.

Lemma known_le s s' : known_ok s -> heap_le (index s) (index s') -> frame s s' -> known_ok s'.
Proof.
  intros H Hl [_ Hk _] q. rewrite Hk, <- (H q). specialize (Hl q). inversion Hl; split; intros; eauto; naive_solver.
Qed.

(** ** Accepting a header *)

Context (block_GetHash : CBlockHeader -> list Z).

(** What [AddToBlockIndex] leaves for a header [hash] whose parent is [q]: one new
    entry without data, and everything selection reads as it was. *)
Record header_added s (hash : list Z) (q p : nat) (b : CBlockIndex) (s' : state W) : Prop := {
  ha_fresh : index s !! p = None;
  ha_index : index s' = <[p := b]> (index s);
  ha_known : mapBlockIndex s' = <[hash := p]> (mapBlockIndex s);
  ha_chain : chainActive s' = chainActive s;
  ha_cands : setBlockIndexCandidates s' = setBlockIndexCandidates s;
  ha_unlinked : mapBlocksUnlinked s' = mapBlocksUnlinked s;
  ha_invalid : pindexBestInvalid s' = pindexBestInvalid s;
  ha_warning : warning s' = warning s;
  ha_header : pindexBestHeader s' = pindexBestHeader s \/ pindexBestHeader s' = Some p;
  ha_ok : index_ok (<[p := b]> (index s));
  ha_prev : pprev b = Some q;
  ha_tx : nTx b = 0;
  ha_chaintx : nChainTx b = 0;
  ha_failed : failed b = false
}.

Definition best_header_ok s : Prop := forall h, pindexBestHeader s = Some h -> is_Some (index s !! h).

(** The work of a header's chain does not wrap around at 2^256. *)
Definition work_fits (bits : Z) (bq : CBlockIndex) : Prop :=
  forall proof, Pow.GetBlockProof bits = Some proof -> Arith256.val (nChainWork bq) + Arith256.val proof < 2 ^ 256.

Section add_header.
Context (s : state W) (block : CBlockHeader) (q : nat) (bq : CBlockIndex).
Context (Hi : index_ok (index s)) (Hq : index s !! q = Some bq) (Hbits : is_u32 (hdr_nBits block)).
Context (Htarget : Pow.target_ok (hdr_nBits block)) (Hwork : work_fits (hdr_nBits block) bq).

Let linked hash : CBlockIndex := set_links (CBlockIndex_of_header block) (Some hash) (Some q) None (nHeight bq + 1).

Lemma BuildSkip_fresh hash p : index s !! p = None ->
  exists sk, BuildSkip (<[p := linked hash]> (index s)) p = Some (<[p := set_pskip (linked hash) sk]> (index s)) /\
    tree_ok (<[p := set_pskip (linked hash) sk]> (index s)).
Proof using Hi Hq.
  intros Hp. pose proof (node_height _ _ _ (io_tree _ Hi _ _ Hq)) as Hh0.
  assert (tree_ok (<[p := linked hash]> (index s))) as Ht0 by (apply tree_ok_insert; [apply Hi|done|done|simpl; eauto]).
  destruct (BuildSkip_tree _ Ht0 p (linked hash)) as (m' & Hbuild & Ht1 & _ & _ & Hskip); [by rewrite lookup_insert_eq|].
  assert (exists sk, m' = <[p := set_pskip (linked hash) sk]> (index s)) as (sk & ->); [|by exists sk].
  unfold BuildSkip in Hbuild. rewrite lookup_insert_eq in Hbuild. monad_in Hbuild. simpl in Hbuild.
  apply bind_Some in Hbuild as (sk & _ & E). injection E as <-. exists sk. by rewrite insert_insert_eq.
Qed.

Lemma header_entry hash p sk : index s !! p = None -> tree_ok (<[p := set_pskip (linked hash) sk]> (index s)) ->
  exists proof, Pow.GetBlockProof (hdr_nBits block) = Some proof /\
    index_ok (<[p := set_work_status (set_pskip (linked hash) sk) (Arith256.op_add (nChainWork bq) proof) 2]> (index s)).
Proof using All.
  intros Hp Ht1.
  destruct (Pow.GetBlockProof_work (hdr_nBits block) Hbits) as (proof & Hproof & Hpwf & [(_ & Hpv & Hpos)|[Hbad _]]); [|done].
  exists proof. split; [done|]. assert (Arith256.wf (nChainWork bq)) as Hwq by (by eapply (io_work _ Hi)).
  set (b := set_work_status _ _ _).
  assert (Arith256.val (nChainWork b) = Arith256.val (nChainWork bq) + Arith256.val proof) as Hval.
  { unfold b. cbn [set_work_status nChainWork]. rewrite Arith256.op_add_val by done. specialize (Hwork proof Hproof).
    pose proof (Arith256.wf_val_range _ Hwq). apply Z.mod_small. lia. }
  apply (fresh_index_ok (index s) Hi p q b bq); try done; [|by apply Arith256.op_add_wf|lia].
  rewrite <- (insert_insert_eq (index s) p b (set_pskip (linked hash) sk)).
  apply (tree_ok_shape _ p (set_pskip (linked hash) sk)); [done|by rewrite lookup_insert_eq|done..].
Qed.

Lemma AddToBlockIndex_fresh : mapBlockIndex s !! block_GetHash block = None ->
  mapBlockIndex s !! hdr_hashPrevBlock block = Some q -> best_header_ok s ->
  exists p b s', AddToBlockIndex block_GetHash block s = Some (p, s') /\ header_added s (block_GetHash block) q p b s'.
Proof using All.
  intros Hnew Hprev Hbest. unfold AddToBlockIndex. rewrite Hnew.
  set (hash := block_GetHash block) in *. set (p := fresh (dom (index s))).
  assert (index s !! p = None) as Hp by (apply not_elem_of_dom, is_fresh).
  assert (p <> q) as Hpq by (intros <-; congruence). cbn [set_mapBlockIndex mapBlockIndex index].
  rewrite lookup_insert_ne by congruence. rewrite Hprev, Hq. monad.
  destruct (BuildSkip_fresh hash p Hp) as (sk & Hbuild & Ht1). unfold linked in Hbuild. rewrite Hbuild. monad.
  rewrite lookup_insert_eq. monad. destruct (header_entry hash p sk Hp Ht1) as (proof & Hproof & Hok).
  change (nBits (set_pskip _ sk)) with (hdr_nBits block). rewrite Hproof. monad. change (nStatus (set_pskip _ sk)) with 0.
  replace (RaiseValidity 0 BLOCK_VALID_TREE) with (Some (2, true)) by (vm_compute; reflexivity). monad.
  rewrite insert_insert_eq. unfold linked in Hok. set (b := set_work_status _ _ _) in *. cbn [set_index set_mapBlockIndex index pindexBestHeader].
  match goal with |- context [mbind _ ?y] => set (cmp := y) end.
  assert (exists better, cmp = Some better) as (better & ->).
  { unfold cmp. destruct (pindexBestHeader s) as [h|] eqn:Hh; [|eauto]. destruct (Hbest h Hh) as [bh Hbh].
    rewrite lookup_insert_ne by congruence. rewrite Hbh. monad. eauto. }
  monad. exists p, b. eexists. split; [done|]. destruct better; split; simpl; auto.
Qed.

End add_header.

Section added.
Context (s s' : state W) (hash : list Z) (q p : nat) (b : CBlockIndex).
Context (Hok : node_ok s) (Hnew : mapBlockIndex s !! hash = None) (Ha : header_added s hash q p b s').

Lemma added_keep x bx : index s !! x = Some bx -> index s' !! x = Some bx.
Proof using Ha. intros Hx. rewrite (ha_index _ _ _ _ _ _ Ha), lookup_insert_ne; [done|]. intros ->. pose proof (ha_fresh _ _ _ _ _ _ Ha). congruence. Qed.

Lemma added_linked x bx : index s' !! x = Some bx -> nChainTx bx <> 0 -> x <> p /\ index s !! x = Some bx.
Proof using Ha.
  rewrite (ha_index _ _ _ _ _ _ Ha). intros Hx Hc. destruct (decide (x = p)) as [->|Hn].
  - rewrite lookup_insert_eq in Hx. injection Hx as <-. by destruct Hc; apply Ha.
  - by rewrite lookup_insert_ne in Hx.
Qed.

Lemma added_tx_upto n x : x <> p -> tx_upto n (index s') x = tx_upto n (index s) x.
Proof using Hok Ha.
  intros Hn. rewrite (ha_index _ _ _ _ _ _ Ha). apply tx_upto_insert.
  apply (fresh_not_ancestor (index s)); [apply Hok|apply Ha|done].
Qed.

Lemma added_state : state_ok cv s'.
Proof using Hok Ha.
  destruct Hok as [[Hi (t & bt & Ht) H3 H4 H5 H6] _ _ _].
  split; rewrite ?(ha_chain _ _ _ _ _ _ Ha), ?(ha_cands _ _ _ _ _ _ Ha), ?(ha_invalid _ _ _ _ _ _ Ha), ?(ha_warning _ _ _ _ _ _ Ha).
  - rewrite (ha_index _ _ _ _ _ _ Ha). apply Ha.
  - exists t, bt. destruct Ht as (T1 & T2 & T3). split_and!; [by apply added_keep|done|].
    intros i Hlt. rewrite (ha_index _ _ _ _ _ _ Ha).
    rewrite (fresh_back (index s) Hi p b (ha_fresh _ _ _ _ _ _ Ha) _ t bt T1). by apply T3.
  - intros x bx Hx Hbx. destruct (Hx) as [i Hix].
    destruct (chain_for_lookup _ (io_tree _ Hi) _ _ _ _ _ Ht Hix) as (b1 & Hb1 & _). rewrite (added_keep x b1 Hb1) in Hbx.
    injection Hbx as <-. by apply H3.
  - intros x Hx. destruct (H4 x Hx) as (bx & Hbx & Hc). exists bx. split; [by apply added_keep|done].
  - intros x Hx. destruct (H5 x Hx) as [bx Hbx]. exists bx. by apply added_keep.
  - intros x Hx. destruct (H6 x Hx) as [bx Hbx]. exists bx. by apply added_keep.
Qed.

Lemma added_received : received_ok s'.
Proof using Hok Ha.
  pose proof (no_received _ Hok) as [R1 R2 R3 R4 R5 R6 R7 R8]. split; rewrite ?(ha_unlinked _ _ _ _ _ _ Ha); [| | | | |done|..].
  - intros x bx Hx Hc. destruct (added_linked x bx Hx Hc) as [Hn Hx']. rewrite added_tx_upto by done. by apply R1.
  - intros x bx Hx Hc. destruct (added_linked x bx Hx Hc) as [Hn Hx']. destruct (R2 x bx Hx' Hc) as (pv & Hpv & E). exists pv. split; [|done].
    unfold ChainNode.parent in *. destruct (pprev bx) as [r|]; [|done]. destruct (index s !! r) as [br|] eqn:Hr; [|done].
    by rewrite (added_keep r br Hr).
  - intros x bx. rewrite (ha_index _ _ _ _ _ _ Ha). intros Hx. destruct (decide (x = p)) as [->|Hn].
    + rewrite lookup_insert_eq in Hx. injection Hx as <-. rewrite (ha_tx _ _ _ _ _ _ Ha). lia.
    + rewrite lookup_insert_ne in Hx by done. eauto.
  - intros n x. destruct (decide (x = p)) as [->|Hn]; [|rewrite added_tx_upto by done; apply R4].
    assert (q <> p) as Hqp by (intros ->; destruct (ha_ok _ _ _ _ _ _ Ha) as [Ht _ _ _ _ _ _];
      destruct (node_prev _ _ _ (Ht p b (lookup_insert_eq _ _ _)) p (ha_prev _ _ _ _ _ _ Ha)) as (b2 & Hb2 & Hh);
      rewrite lookup_insert_eq in Hb2; injection Hb2 as <-; lia).
    destruct n; simpl; rewrite (ha_index _ _ _ _ _ _ Ha), lookup_insert_eq; simpl; rewrite (ha_tx _ _ _ _ _ _ Ha), ?(ha_prev _ _ _ _ _ _ Ha);
      [lia|]. rewrite <- (ha_index _ _ _ _ _ _ Ha), added_tx_upto by done. apply R4.
  - intros k c Hk. destruct (R5 k c Hk) as (bc & r & br & [C1 C2 C3 C4] & Hpc & -> & Hr & Hcr).
    exists bc, r, br. split_and!; try done; [split; try done; by apply added_keep|by apply added_keep].
  - intros x bx Hx Hc. destruct (added_linked x bx Hx Hc) as [Hn Hx']. by eapply R7.
  - intros x bx. rewrite (ha_index _ _ _ _ _ _ Ha). intros Hx Hpos. destruct (decide (x = p)) as [->|Hn].
    + rewrite lookup_insert_eq in Hx. injection Hx as <-. rewrite (ha_tx _ _ _ _ _ _ Ha) in Hpos. lia.
    + rewrite lookup_insert_ne in Hx by done. by eapply R8.
Qed.

Lemma added_known : known_ok s'.
Proof using Hok Hnew Ha.
  intros x. rewrite (ha_index _ _ _ _ _ _ Ha), (ha_known _ _ _ _ _ _ Ha). destruct (decide (x = p)) as [->|Hn].
  - rewrite lookup_insert_eq. split; [|eauto]. intros _. exists hash. by rewrite lookup_insert_eq.
  - rewrite lookup_insert_ne by done. rewrite (no_known _ Hok x). split; intros [h Hh]; exists h.
    + rewrite lookup_insert_ne; [done|]. intros <-. congruence.
    + destruct (decide (hash = h)) as [<-|Hnh]; [rewrite lookup_insert_eq in Hh; congruence|by rewrite lookup_insert_ne in Hh].
Qed.

(** A new header keeps every invariant, and the best header stays in the index. *)
Lemma added_ok : node_ok s' /\ (best_header_ok s -> best_header_ok s').
Proof using Hok Hnew Ha.
  split; [split|].
  - apply added_state.
  - apply added_received.
  - apply added_known.
  - destruct (no_complete _ Hok) as (t & Ht & Hcomp). exists t. rewrite (ha_chain _ _ _ _ _ _ Ha). split; [done|].
    intros x bx Hx Hc Hv Hw. rewrite (ha_cands _ _ _ _ _ _ Ha). destruct (added_linked x bx Hx Hc) as [Hn Hx'].
    apply (Hcomp x bx Hx' Hc).
    + rewrite (ha_index _ _ _ _ _ _ Ha) in Hv.
      by apply (fresh_valid (index s) (so_index _ _ (no_state _ Hok)) p b (ha_fresh _ _ _ _ _ _ Ha) x bx Hx').
    + intros (a1 & a2 & A1 & A2 & A3). apply Hw. exists a1, a2. split_and!; [by apply added_keep..|done].
  - intros Hb h Hh. destruct (ha_header _ _ _ _ _ _ Ha) as [E|E]; rewrite E in Hh.
    + destruct (Hb h Hh) as [bh Hbh]. exists bh. by apply added_keep.
    + injection Hh as <-. rewrite (ha_index _ _ _ _ _ _ Ha), lookup_insert_eq. eauto.
Qed.

End added.

(** ** The other operations *)

Context (params : Consensus.Params) (Htotal : client_total W) (Hcv : deterministic W cv) (Hreorg : 0 < MAX_REORG_LENGTH params).
Context (ZIP209Enabled fDeveloper : bool) (cpHeight cpBalance : Z) (cpHash hashGenesisBlock : list Z).
Context (Hfallback : ZIP209Enabled = false \/ fDeveloper = true).

Record node_inv s : Prop := {
  ni_ok : node_ok s;
  ni_header : best_header_ok s;
  ni_genesis : is_Some (mapBlockIndex s !! hashGenesisBlock)
}.

Lemma inv_chain s : node_inv s -> exists t bt, chain_for (index s) (chainActive s) t bt /\ complete s t.
Proof using cv.
  intros [[Hs _ _ (t & Htip & Hc)] _ _]. destruct (so_chain cv s Hs) as (t' & bt & Ht). exists t, bt.
  assert (t' = t) as -> by (pose proof (chain_tip _ _ _ _ (so_tree cv s Hs) Ht); congruence). done.
Qed.

(** What every operation but receiving data preserves. *)
Lemma inv_le s s' t : node_inv s -> state_ok cv s' -> Tip (chainActive s') = Some t -> complete s' t ->
  heap_le (index s) (index s') -> frame s s' -> node_inv s'.
Proof using cv.
  intros [[Hs Hr Hk Hc] Hh Hg] Hs' Ht Hc' Hl Hf. split.
  - split; [done|by eapply received_le|by eapply known_le|eauto].
  - intros h. rewrite (fr_header _ _ Hf). intros E. destruct (Hh h E) as [b Hb].
    destruct (heap_le_fwd _ _ _ _ Hl Hb) as (b' & Hb' & _). eauto.
  - by rewrite (fr_known _ _ Hf).
Qed.

Lemma inv_core s s' : node_inv s -> same_core s s' -> frame s s' -> pindexBestInvalid s' = pindexBestInvalid s ->
  warning s' = warning s -> node_inv s'.
Proof using cv.
  intros Hi Hc Hf E1 E2. destruct (inv_chain s Hi) as (t & bt & Ht & Hcomp). pose proof (no_state _ (ni_ok _ Hi)) as Hs.
  apply (inv_le s s' t Hi); [| | |by rewrite (sc_index _ _ Hc)|done].
  - apply (core_ok cv s s' Hs Hc); [rewrite E1|rewrite E2]; apply Hs.
  - rewrite (sc_chain _ _ Hc). by eapply chain_tip, Ht; apply so_tree with cv.
  - intros q b. rewrite (sc_index _ _ Hc), (sc_candidates _ _ Hc). apply Hcomp.
Qed.

Lemma inv_activate st pblock s : node_inv s -> exists ok st' s', ActivateBestChain params st pblock s = Some (ok, st', s') /\
  (ok = true -> node_inv s' /\ on_best_chain cv s').
Proof using Htotal Hcv Hreorg ClientLaws0.
  intros Hi. destruct (inv_chain s Hi) as (t & bt & Ht & Hc). pose proof (no_state _ (ni_ok _ Hi)) as Hs.
  destruct (ActivateBestChain_spec params Htotal cv Hcv st pblock s t bt Hreorg Hs Ht Hc) as (ok & st' & s' & Hrun & Hok).
  exists ok, st', s'. split; [done|]. intros E. destruct (Hok E) as (Hs' & Hbest & Hl & Hf). split; [|done].
  destruct Hbest as (t' & bt' & Ht' & Hr & _). apply (inv_le s s' t' Hi); [done| | |done|].
  - by eapply chain_tip, Ht'; apply so_tree with cv.
  - apply Hr.
  - apply Hf, received_data, Hi.
Qed.

Lemma inv_invalidate st p g bp s : node_inv s -> index s !! p = Some bp -> pprev bp = Some g ->
  exists ok st' s', InvalidateBlock params st p s = Some (ok, st', s') /\ (ok = true -> node_inv s').
Proof using Htotal ClientLaws0.
  intros Hi Hp Hg. destruct (inv_chain s Hi) as (t & bt & Ht & Hc). pose proof (no_state _ (ni_ok _ Hi)) as Hs.
  destruct (InvalidateBlock_spec params Htotal cv st s p bp g t bt Hs Ht Hp Hg) as (ok & st' & s' & Hrun & Hok).
  { intros q. apply known_blocks_spec, Hi. }
  exists ok, st', s'. split; [done|]. intros E. destruct (Hok E) as (Hs' & _ & _ & (t' & Ht' & Hc') & Hl).
  apply (inv_le s s' t' Hi); try done. by eapply frame_invalidate.
Qed.

(** ** The checks of a block

    What [AcceptBlockHeader] and [AcceptBlock] rely on of the checks they call. *)
Context (CheckBlockHeader : CBlockHeader -> TxCheck.checker).
Context (ContextualCheckBlockHeader : heap -> option nat -> CBlockHeader -> TxCheck.checker).
Context (CheckBlock : Merkle.CBlock -> TxCheck.checker).
Context (ContextualCheckBlock : heap -> option nat -> Merkle.CBlock -> TxCheck.checker).
Context (store_block : Merkle.CBlock -> Z -> option CDiskBlockPos -> TxCheck.CValidationState -> W ->
  option CDiskBlockPos * TxCheck.CValidationState * W).
Context (fCheckForPruning : W -> bool).

Record checks_ok : Prop := {
  ck_header block st : is_Some (CheckBlockHeader block st);
  ck_target block st st' : is_u32 (hdr_nBits block) -> CheckBlockHeader block st = Some (true, st') -> Pow.target_ok (hdr_nBits block);
  ck_context (m : heap) q block st : index_ok m -> is_Some (m !! q) -> is_Some (ContextualCheckBlockHeader m (Some q) block st);
  ck_block block st : is_Some (CheckBlock block st);
  ck_vtx block st st' : CheckBlock block st = Some (true, st') -> Merkle.vtx block <> [];
  ck_context_block (m : heap) prev block st : index_ok m -> is_Some (ContextualCheckBlock m prev block st)
}.

(** The header's chain stays within 256 bits of work. *)
Definition header_fits s (block : CBlockHeader) : Prop := is_u32 (hdr_nBits block) /\
  forall q bq, mapBlockIndex s !! hdr_hashPrevBlock block = Some q -> index s !! q = Some bq -> work_fits (hdr_nBits block) bq.

(** No chain reaches 2^32 transactions with [k] more. *)
Definition room s (k : Z) : Prop := forall n q, tx_upto n (index s) q + k < 2 ^ 32.

Lemma added_room s s' hash q p b k : node_ok s -> header_added s hash q p b s' -> room s k -> room s' k.
Proof using cv.
  intros Hok Ha Hr n x. destruct (decide (x = p)) as [->|Hn]; [|rewrite (added_tx_upto s s' hash q p b Hok Ha n x Hn); apply Hr].
  assert (index s' !! p = Some b) as Hp by (by rewrite (ha_index _ _ _ _ _ _ Ha), lookup_insert_eq).
  assert (q <> p) as Hqp.
  { intros ->. destruct (node_prev _ _ _ (io_tree _ (ha_ok _ _ _ _ _ _ Ha) p b (lookup_insert_eq _ _ _)) p (ha_prev _ _ _ _ _ _ Ha)) as (b2 & Hb2 & Hh).
    rewrite lookup_insert_eq in Hb2. injection Hb2 as <-. lia. }
  pose proof (Hr O p) as H0. simpl in H0. rewrite (ha_fresh _ _ _ _ _ _ Ha) in H0.
  destruct n; simpl; rewrite Hp, (ha_tx _ _ _ _ _ _ Ha), (ha_prev _ _ _ _ _ _ Ha); [lia|].
  rewrite (added_tx_upto s s' hash q p b Hok Ha n q Hqp). specialize (Hr n q). lia.
Qed.

Lemma AcceptBlockHeader_spec block st s : checks_ok -> node_inv s -> header_fits s block ->
  exists ok pi st' s', AcceptBlockHeader block_GetHash hashGenesisBlock CheckBlockHeader ContextualCheckBlockHeader block st s
      = Some (ok, pi, st', s') /\ node_inv s' /\ (forall k, room s k -> room s' k) /\
    (ok = true -> exists p b, pi = Some p /\ index s' !! p = Some b /\ failed b = false).
Proof using cv ClientLaws0.
  intros Hck Hi (Hbits & Hwork). unfold AcceptBlockHeader. destruct (Hi) as [Hok Hbest [g Hg]].
  destruct (mapBlockIndex s !! block_GetHash block) as [p|] eqn:Hnew.
  { destruct (proj2 (no_known _ Hok p)) as [b Hb]; [eauto|]. rewrite Hb. monad.
    destruct (has (nStatus b) BLOCK_FAILED_MASK) eqn:Hf; do 4 eexists; (split_and!; [done..|]); [done|]. eauto 10. }
  destruct (ck_header Hck block st) as [[ok st1] Hh]. rewrite Hh. monad.
  destruct ok; cbn [negb]; [|by do 4 eexists]. pose proof (ck_target Hck _ _ _ Hbits Hh) as Htarget.
  rewrite bool_decide_false by (intros E; rewrite E in Hnew; congruence).
  destruct (mapBlockIndex s !! hdr_hashPrevBlock block) as [q|] eqn:Hprev; [|monad; by do 4 eexists].
  destruct (proj2 (no_known _ Hok q)) as [bq Hbq]; [eauto|]. rewrite Hbq. monad.
  destruct (has (nStatus bq) BLOCK_FAILED_MASK); monad; [by do 4 eexists|].
  destruct (ck_context Hck (index s) q block st1) as [[ok st2] ->]; [apply Hok|eauto|]. monad.
  destruct ok; cbn [negb]; [|by do 4 eexists].
  destruct (AddToBlockIndex_fresh s block q bq (so_index _ _ (no_state _ Hok)) Hbq Hbits Htarget (Hwork q bq eq_refl Hbq) Hnew Hprev Hbest)
    as (p & b & s' & -> & Ha). monad.
  destruct (added_ok s s' (block_GetHash block) q p b Hok Hnew Ha) as [Hok' Hbest'].
  do 4 eexists. split_and!; [done| |by intros k; eapply added_room|].
  - split; [done|by apply Hbest'|]. rewrite (ha_known _ _ _ _ _ _ Ha).
    destruct (decide (block_GetHash block = hashGenesisBlock)) as [->|Hn]; [rewrite lookup_insert_eq|rewrite lookup_insert_ne by done]; eauto.
  - intros _. exists p, b. split_and!; [done|by rewrite (ha_index _ _ _ _ _ _ Ha), lookup_insert_eq|apply Ha].
Qed.

(** Marking a block whose data is not there. *)
Lemma inv_mark s p b : node_inv s -> index s !! p = Some b -> have_data b = false ->
  exists s', mark (fun n => Z.lor n BLOCK_FAILED_VALID) p s = Some s' /\ node_inv (dirty p s').
Proof using cv.
  intros Hi Hp Hd. pose proof (no_state _ (ni_ok _ Hi)) as Hs. destruct (inv_chain s Hi) as (t & bt & Ht & Hc).
  assert (nChainTx b = 0) as Hz.
  { destruct (decide (nChainTx b = 0)) as [E|E]; [done|]. rewrite (received_data s (no_received _ (ni_ok _ Hi)) p b Hp E) in Hd. done. }
  unfold mark. rewrite Hp. monad. eexists. split; [done|]. destruct (mark_failed_le b BLOCK_FAILED_VALID) as [Hle _]; [by left|].
  set (b' := set_status b _) in *. pose proof (heap_le_insert _ _ _ _ Hp Hle) as Hl.
  assert (entry_links b b') as Hlk by (split; apply Hle).
  assert (index_ok (<[p := b']> (index s))) as Hi' by (eapply heap_le_index; [done|apply Hs]).
  pose proof (replaced_state_ok cv s p b b' Hs Hp Hz Hlk Hi') as Hs1.
  apply (inv_le s _ t Hi); simpl; [|by eapply chain_tip, Ht; apply so_tree with cv| |done|by split].
  - by apply (core_ok cv _ _ Hs1); [|apply Hs1..].
  - intros q bq. simpl. intros Hq Hcq Hv Hw. destruct (decide (p = q)) as [<-|Hn].
    { rewrite lookup_insert_eq in Hq. injection Hq as <-. destruct Hcq. by rewrite (le_chaintx _ _ Hle). }
    assert (p <> t) as Hpt by (intros ->; by destruct (active_ancestor cv s t bt t b Hs Ht (ancestor_refl _ _) Hp) as (_ & ? & _)).
    rewrite lookup_insert_ne in Hq by done. apply (Hc q bq Hq Hcq).
    + by apply (valid_chain_insert (index s) p b b' q bq (so_index _ _ Hs) Hp Hz Hlk Hq Hcq).
    + by rewrite <- (worse_insert (index s) p b b' q t Hp Hn Hpt).
Qed.

(** Receiving the data of a block that is not failed. *)
Lemma inv_receive s block p pos b : node_inv s -> index s !! p = Some b -> have_data b = false -> failed b = false ->
  Merkle.vtx block <> [] -> room s (Z.of_nat (length (Merkle.vtx block))) ->
  exists s', ReceivedBlockTransactions ZIP209Enabled fDeveloper cpHeight cpBalance cpHash block p pos s = Some s' /\ node_inv s'.
Proof using Hfallback cv.
  intros Hi Hp Hd Hf Hvtx Hroom. destruct (inv_chain s Hi) as (t & bt & Ht & Hc). destruct (Hi) as [[Hs Hr Hk _] Hbest Hg].
  assert (nChainTx b = 0) as Hz.
  { destruct (decide (nChainTx b = 0)) as [E|E]; [done|]. rewrite (received_data s Hr p b Hp E) in Hd. done. }
  assert (nTx b = 0) as Hn0.
  { pose proof (rc_tx _ Hr p b Hp). destruct (decide (nTx b = 0)) as [E|E]; [done|].
    rewrite (rc_stored _ Hr p b Hp ltac:(lia)) in Hd. done. }
  assert (0 < Z.of_nat (length (Merkle.vtx block))) as Hlen by (destruct (Merkle.vtx block); simpl; [done|lia]).
  destruct (ReceivedBlockTransactions_spec cv ZIP209Enabled fDeveloper cpHeight cpBalance cpHash Hfallback block p pos s b t bt
    Hs Ht Hc Hr Hp Hn0 Hz Hf Hlen Hroom) as (s' & -> & Hs' & Hc' & Hr' & (K1 & K2 & K3 & K4 & K5) & _).
  exists s'. split; [done|]. split.
  - split; [done..| |].
    + intros q. by rewrite K4, K2, (Hk q).
    + exists t. rewrite K1. split; [|done]. by eapply chain_tip, Ht; apply so_tree with cv.
  - intros h. rewrite K3. intros E. by apply K4, Hbest.
  - by rewrite K2.
Qed.

Lemma inv_world s w : node_inv s -> node_inv (set_world s w).
Proof using cv. intros Hi. by apply (inv_core s). Qed.

Definition accept_block := AcceptBlock block_GetHash ZIP209Enabled fDeveloper cpHeight cpBalance cpHash hashGenesisBlock
  CheckBlockHeader ContextualCheckBlockHeader CheckBlock ContextualCheckBlock store_block fCheckForPruning.

Lemma AcceptBlock_spec block requested dbp st s : checks_ok -> node_inv s -> header_fits s (Merkle.header block) ->
  room s (Z.of_nat (length (Merkle.vtx block))) ->
  exists ok pi st' s', accept_block block requested dbp st s = Some (ok, pi, st', s') /\ node_inv s'.
Proof using Hfallback Htotal ClientLaws0 cv.
  intros Hck Hi Hfit Hroom. unfold accept_block, AcceptBlock.
  destruct (AcceptBlockHeader_spec (Merkle.header block) st s Hck Hi Hfit) as (ok & pi & st1 & s1 & -> & Hi1 & Hr1 & Hp). monad.
  destruct ok; cbn [negb]; [|by do 4 eexists]. destruct (Hp eq_refl) as (p & b & -> & Hb & Hf). monad. rewrite Hb. monad.
  destruct (inv_chain s1 Hi1) as (t & bt & Ht & _).
  rewrite (chain_tip _ _ _ _ (so_tree cv s1 (no_state _ (ni_ok _ Hi1))) Ht). rewrite (proj1 Ht). monad.
  destruct (has (nStatus b) BLOCK_HAVE_DATA) eqn:Hd; [by do 4 eexists|]. destruct (_ && _); [by do 4 eexists|].
  destruct (ck_block Hck block st1) as [[okb st2] Hcb]. rewrite Hcb. monad.
  assert (exists okc st3, (if okb then ContextualCheckBlock (index s1) (pprev b) block st2 else Some (false, st2)) = Some (okc, st3)
    /\ (okc = true -> okb = true)) as (okc & st3 & -> & Hokc).
  { destruct okb; [|by do 2 eexists]. destruct (ck_context_block Hck (index s1) (pprev b) block st2) as [[o t3] ->]; [apply Hi1|]. eauto. }
  monad. destruct okc; cbn [negb].
  - destruct (store_block block (nHeight b) dbp st3 (world s1)) as [[[pos|] st4] w];
      [|do 4 eexists; split; [done|by apply inv_world]].
    rewrite (Hokc eq_refl) in Hcb.
    destruct (inv_receive (set_world s1 w) block p pos b (inv_world _ _ Hi1) Hb Hd Hf (ck_vtx Hck _ _ _ Hcb) (Hr1 _ Hroom))
      as (s2 & -> & Hi2). monad. destruct (fCheckForPruning (world s2)); [|by do 4 eexists].
    destruct (flush_spec Htotal FLUSH_STATE_NONE st4 s2) as (ok5 & st5 & s5 & Hfl & Hc5 & E1 & E2 & _). rewrite Hfl. monad.
    do 4 eexists. split; [done|]. by apply (inv_core s2); [| |by eapply frame_flush|..].
  - destruct (_ && _); [|monad; by do 4 eexists]. destruct (inv_mark s1 p b Hi1 Hb Hd) as (s2 & -> & Hi2). monad. by do 4 eexists.
Qed.

(** ** Histories *)

(** What the node does between two looks at it: headers and blocks arrive, the best
    chain is activated, the operator invalidates a block. *)
Inductive step s : state W -> Prop :=
  | step_header block st ok pi st' s' : header_fits s block ->
      AcceptBlockHeader block_GetHash hashGenesisBlock CheckBlockHeader ContextualCheckBlockHeader block st s
        = Some (ok, pi, st', s') -> step s s'
  | step_block block requested dbp st ok pi st' s' : header_fits s (Merkle.header block) ->
      room s (Z.of_nat (length (Merkle.vtx block))) -> accept_block block requested dbp st s = Some (ok, pi, st', s') -> step s s'
  | step_activate st pblock st' s' : ActivateBestChain params st pblock s = Some (true, st', s') -> step s s'
  | step_invalidate st p bp g st' s' : index s !! p = Some bp -> pprev bp = Some g ->
      InvalidateBlock params st p s = Some (true, st', s') -> step s s'.

Lemma step_inv s s' : checks_ok -> step s s' -> node_inv s -> node_inv s'.
Proof using Hfallback Htotal Hcv Hreorg ClientLaws0.
  intros Hck Hstep Hi. destruct Hstep as [block st ok pi st' s' Hf Hrun|block rq dbp st ok pi st' s' Hf Hr Hrun|st pb st' s' Hrun|st p bp g st' s' Hp Hg Hrun].
  - destruct (AcceptBlockHeader_spec block st s Hck Hi Hf) as (? & ? & ? & ? & E & ? & _). congruence.
  - destruct (AcceptBlock_spec block rq dbp st s Hck Hi Hf Hr) as (? & ? & ? & ? & E & ?). congruence.
  - destruct (inv_activate st pb s Hi) as (? & ? & ? & E & Hok). rewrite Hrun in E. injection E as <- <- <-. by apply Hok.
  - destruct (inv_invalidate st p g bp s Hi Hp Hg) as (? & ? & ? & E & Hok). rewrite Hrun in E. injection E as <- <- <-. by apply Hok.
Qed.

Lemma history_inv s s' : checks_ok -> rtc step s s' -> node_inv s -> node_inv s'.
Proof using Hfallback Htotal Hcv Hreorg ClientLaws0. intros Hck. induction 1; [done|]. intros Hi. by eapply IHrtc, step_inv. Qed.

Definition process_new_block := ProcessNewBlock params block_GetHash ZIP209Enabled fDeveloper cpHeight cpBalance cpHash
  hashGenesisBlock CheckBlockHeader ContextualCheckBlockHeader CheckBlock ContextualCheckBlock store_block fCheckForPruning.

Lemma process_spec block requested dbp st s : checks_ok -> node_inv s -> header_fits s (Merkle.header block) ->
  room s (Z.of_nat (length (Merkle.vtx block))) ->
  exists ok st' s', process_new_block block requested dbp st s = Some (ok, st', s') /\
    (ok = true -> node_inv s' /\ on_best_chain cv s').
Proof using Hfallback Htotal Hcv Hreorg ClientLaws0.
  intros Hck Hi Hf Hr. unfold process_new_block, ProcessNewBlock.
  destruct (ck_block Hck block st) as [[checked st1] ->]. monad. destruct checked; cbn [negb]; [|by do 3 eexists].
  destruct (AcceptBlock_spec block requested dbp st1 s Hck Hi Hf Hr) as (ok & pi & st2 & s2 & E & Hi2).
  unfold accept_block in E. rewrite E. monad. destruct ok; cbn [negb]; [|by do 3 eexists]. by apply inv_activate.
Qed.

End history.

End ChainHistory.
