(* ===== verification/ChainLife.v ===== *)
(** * Theorems on a node's history

    Starting from the genesis block, whatever headers and blocks arrive and in
    whatever order, the chain totals are exact and processing a block leaves the
    node on its best chain.  The header checks are those of [BlockCheck]. *)

From stdpp Require Import base list list_numbers numbers option gmap strings fin_sets relations.
From Stdlib Require Import ZArith Lia.
From S2P Require Import Prelude Bytes ArithUint256 Params Chain ChainFacts Pow Transaction Merkle TxCheck BlockCheck.
From S2P Require Import ChainState ChainStateFacts ChainFrame ChainSelect ChainSafety ChainInvalidate ChainReceive ChainHistory.
Import BlockIndex ChainFacts ChainState ChainStateFacts ChainSelect ChainSafety ChainReceive ChainHistory.
#[local] Open Scope Z_scope.

Module ChainLife.

Abbreviation heap := (gmap nat CBlockIndex) (only parsing).

(** ** The header checks of the source *)

Section header_checks.
Context (params : Consensus.Params) (Hparams : Pow.pow_params_ok params) (genesis : list Z).
Context (GetPoWHash GetHash : CBlockHeader -> list Z) (adjusted_time : Z).

Definition header_check (block : CBlockHeader) : TxCheck.checker :=
  BlockCheck.CheckBlockHeader params GetPoWHash block adjusted_time true.
Definition header_context (m : heap) (prev : option nat) (block : CBlockHeader) : TxCheck.checker :=
  BlockCheck.ContextualCheckBlockHeader params genesis GetHash m block prev None.

Lemma header_check_total block st : is_Some (header_check block st).
Proof. unfold header_check, BlockCheck.CheckBlockHeader. repeat case_match; by eexists. Qed.

Lemma CheckProofOfWork_target hash bits : is_u32 bits -> Pow.CheckProofOfWork hash bits params = true -> Pow.target_ok bits.
Proof.
  intros Hb. unfold Pow.CheckProofOfWork. destruct (Arith256.SetCompact bits) as [[t fN] fO] eqn:E.
  destruct (Pow.decoded_target bits t fN fO Hb E) as (_ & Hg & _). rewrite <- Hg.
  by destruct (fN || Arith256.EqualTo t 0 || fO).
Qed.

Lemma header_check_target block st st' : is_u32 (hdr_nBits block) -> header_check block st = Some (true, st') ->
  Pow.target_ok (hdr_nBits block).
Proof.
  intros Hb. unfold header_check, BlockCheck.CheckBlockHeader. destruct (_ <? _); [done|].
  destruct (Pow.CheckProofOfWork _ _ _) eqn:E; [|done]. intros _. by eapply CheckProofOfWork_target.
Qed.

Lemma header_context_total (m : heap) q block st : index_ok m -> is_Some (m !! q) -> is_Some (header_context m (Some q) block st).
Proof using Hparams.
  intros Hi [b Hq]. unfold header_context, BlockCheck.ContextualCheckBlockHeader. case_bool_decide; [by eexists|]. rewrite Hq.
  destruct (Pow.GetNextWorkRequired_total params m (Some q) (Some block) Hparams (io_tree _ Hi) (io_bits _ Hi)) as (c & _ & -> & _);
    [intros ? [= <-]; eauto|].
  destruct (Pow.GetMedianTimePast_total m q (io_tree _ Hi)) as [t ->]; [eauto|]. repeat case_match; by eexists.
Qed.

End header_checks.

(** ** Theorems *)

Section life.
Context {W : Type} `{!ChainClient W, !ClientLaws W} (params : Consensus.Params) (cv : nat -> Prop).
Context (Htotal : client_total W) (Hcv : deterministic W cv) (Hreorg : 0 < MAX_REORG_LENGTH params).
Context (ZIP209Enabled fDeveloper : bool) (cpHeight cpBalance : Z) (cpHash hashGenesisBlock : list Z).
Context (Hfallback : ZIP209Enabled = false \/ fDeveloper = true).
Context (block_GetHash : CBlockHeader -> list Z) (CheckBlockHeader : CBlockHeader -> TxCheck.checker).
Context (ContextualCheckBlockHeader : heap -> option nat -> CBlockHeader -> TxCheck.checker).
Context (CheckBlock : Merkle.CBlock -> TxCheck.checker).
Context (ContextualCheckBlock : heap -> option nat -> Merkle.CBlock -> TxCheck.checker).
Context (store_block : Merkle.CBlock -> Z -> option CDiskBlockPos -> TxCheck.CValidationState -> W ->
  option CDiskBlockPos * TxCheck.CValidationState * W).
Context (fCheckForPruning : W -> bool).
Context (Hchecks : checks_ok CheckBlockHeader ContextualCheckBlockHeader CheckBlock ContextualCheckBlock).
Implicit Types s : state W.

Let runs : state W -> state W -> Prop := rtc (step block_GetHash params ZIP209Enabled fDeveloper cpHeight cpBalance cpHash
  hashGenesisBlock CheckBlockHeader ContextualCheckBlockHeader CheckBlock ContextualCheckBlock store_block fCheckForPruning).

Lemma life_inv s0 s : node_inv cv hashGenesisBlock s0 -> runs s0 s -> node_inv cv hashGenesisBlock s.
Proof using All. intros Hi Hr. by eapply history_inv. Qed.

(** C4: in every state a node reaches from a consistent one by the histories below,
    [ProcessNewBlock] returns on the next block, and when it reports success the tip
    has a chain of valid blocks with data, and no other such block is better in the
    order of the candidates.  Assumptions: every call of the client (validation,
    disk, memory pool) returns; its verdict on a block depends on the block alone, and
    it never suspects a rejected block of being corrupted ([client_total],
    [deterministic]; without the last the activation need not return, a livelock
    that ChainSafety exhibits); the header and block checks return, refuse blocks without
    transactions and headers without a proper target; the reorganisation limit is
    positive; the Sprout pool checkpoint is not in use.  A history is any sequence, in
    any order, of headers and blocks, accepted or refused, and of activations and
    invalidations (of blocks other than the genesis block) that report success; an
    activation or invalidation that ends in a system error is not followed further.
    Each header of it, and the next block, keeps the work of its chain below 2^256 and
    the transactions of every chain below 2^32 ([header_fits], [room]). *)
Theorem history_best_chain s0 s block requested dbp st (Hinit : node_inv cv hashGenesisBlock s0) (Hruns : runs s0 s)
    (Hfits : header_fits s (Merkle.header block)) (Hroom : room s (Z.of_nat (length (Merkle.vtx block)))) :
  exists ok st' s', ProcessNewBlock params block_GetHash ZIP209Enabled fDeveloper cpHeight cpBalance cpHash hashGenesisBlock
      CheckBlockHeader ContextualCheckBlockHeader CheckBlock ContextualCheckBlock store_block fCheckForPruning
      block requested dbp st s = Some (ok, st', s') /\
    (ok = true -> exists t, Tip (chainActive s') = Some t /\ valid_chain (index s') t /\
       forall q b, index s' !! q = Some b -> nChainTx b <> 0 -> valid_chain (index s') q -> ~ worse (index s') t q).
Proof using All.
  pose proof (life_inv s0 s Hinit Hruns) as Hs.
  destruct (process_spec cv block_GetHash params Htotal Hcv Hreorg ZIP209Enabled fDeveloper cpHeight cpBalance cpHash hashGenesisBlock
    Hfallback CheckBlockHeader ContextualCheckBlockHeader CheckBlock ContextualCheckBlock store_block fCheckForPruning
    block requested dbp st s Hchecks Hs Hfits Hroom) as (ok & st' & s' & Hrun & Hok).
  exists ok, st', s'. split; [done|]. intros E. destruct (Hok E) as (Hi & t & bt & Ht & Hr & Hbest).
  exists t. split_and!; [|apply Hr|done]. eapply chain_tip, Ht. apply so_tree with cv, Hi.
Qed.

(** C7: in every state of a history [nChainTx] of a linked block is the number of
    transactions from the genesis block to it, its pool totals are its parent's plus
    its own change, every linked block has its data, and the blocks that wait in
    [mapBlocksUnlinked] wait under a parent that is itself not linked.  The histories
    start in a consistent state and consist of headers and blocks, accepted or
    refused, within 2^256 work and 2^32 transactions per chain ([header_fits],
    [room]), and of activations and invalidations that report success; the client's
    calls return, its verdict on a block depends on the block alone and never suspects
    corruption ([client_total], [deterministic]), the header and block checks return,
    refuse blocks without transactions and headers without a proper target, the
    reorganisation limit is positive and the Sprout pool checkpoint, which would
    replace a pool total, is not in use. *)
Theorem history_totals s0 s (Hinit : node_inv cv hashGenesisBlock s0) (Hruns : runs s0 s) :
  (forall p b, index s !! p = Some b -> nChainTx b <> 0 ->
     nChainTx b = tx_upto (Z.to_nat (nHeight b)) (index s) p /\ have_data b = true /\
     exists prev, ChainNode.ChainNode.parent (index s) b = Some prev /\
       nChainSproutValue b = sprout_total prev b /\ nChainSaplingValue b = sapling_total prev b) /\
  (forall k c, (k, c) ∈ mapBlocksUnlinked s -> exists b q bq, index s !! c = Some b /\ nTx b <> 0 /\ nChainTx b = 0 /\
     pprev b = Some q /\ k = Some q /\ index s !! q = Some bq /\ nChainTx bq = 0).
Proof using All.
  pose proof (no_received _ _ (ni_ok _ _ _ (life_inv s0 s Hinit Hruns))) as Hr. split.
  - intros p b Hp Hc. split_and!; [by apply Hr|by apply (received_data s Hr p b)|by apply (rc_pools _ Hr p b)].
  - intros k c Hk. destruct (rc_unlinked _ Hr k c Hk) as (b & q & bq & [W1 W2 W3 W4] & H). exists b, q, bq.
    destruct H as (? & ? & ? & ?). split_and!; try done. lia.
Qed.

End life.


(** ** A history to run

    The genesis block, its child's header, its grandchild's block, its child's block. *)
Module Genesis.

Definition entry : CBlockIndex := {|
  phashBlock := Some [0]; pprev := None; pskip := None; nHeight := 0;
  nFile := 0; nDataPos := 0; nUndoPos := 0; nChainWork := Arith256.base_uint_of_u64 1;
  nTx := 1; nChainTx := 1; nStatus := Z.lor BLOCK_VALID_TRANSACTIONS BLOCK_HAVE_DATA; nCachedBranchId := None;
  hashSproutAnchor := uint256_null; hashFinalSproutRoot := uint256_null;
  nSproutValue := Some 0; nChainSproutValue := Some 0; nSaplingValue := 0; nChainSaplingValue := Some 0;
  nVersion := 4; hashMerkleRoot := uint256_null; hashFinalSaplingRoot := uint256_null;
  nTime := 0; nBits := 0x1f07ffff; nNonce := uint256_null; nSequenceId := 1 |}.

Definition start : state Sample.world := {|
  mapBlockIndex := {[ [0] := 0%nat ]}; index := {[ 0%nat := entry ]}; chainActive := [Some 0%nat];
  setBlockIndexCandidates := {[ 0%nat ]}; mapBlocksUnlinked := []; pindexBestInvalid := None;
  pindexBestHeader := Some 0%nat; nBlockSequenceId := 2; setDirtyBlockIndex := ∅;
  warning := ForkWarning_init; ChainState.world := [] |}.

Lemma lookup_entry (p : nat) b : ({[ 0%nat := entry ]} : heap) !! p = Some b -> p = 0%nat /\ b = entry.
Proof. intros H. apply lookup_singleton_Some in H as [<- <-]. done. Qed.

Lemma index_genesis : index_ok {[ 0%nat := entry ]}.
Proof.
  split.
  - intros p b Hp. apply lookup_entry in Hp as [-> ->]. by split.
  - intros p b Hp. apply lookup_entry in Hp as [-> ->]. apply (Arith256.of_u64_val _). by vm_compute.
  - intros p b Hp. apply lookup_entry in Hp as [-> ->]. by vm_compute.
  - intros p b q bq Hp. apply lookup_entry in Hp as [-> ->]. done.
  - intros p b q bq Hp _ Hq _. apply lookup_entry in Hp as [-> ->], Hq as [-> ->]. done.
  - intros p b q bq Hp _. apply lookup_entry in Hp as [-> ->]. done.
  - intros p b Hp _. apply lookup_entry in Hp as [-> ->]. by vm_compute.
Qed.

Lemma start_inv : node_inv (fun _ => True) [0] start.
Proof.
  assert (forall q, is_Some (index start !! q) <-> q = 0%nat) as Hq.
  { intros q. split; [intros [b Hb]; by apply lookup_entry in Hb as [-> _]|]. intros ->. by eexists. }
  assert (forall n q, tx_upto n (index start) q <= 1) as Hone.
  { intros n q. destruct (decide (q = 0%nat)) as [->|Hn]; [by destruct n|].
    assert (index start !! q = None) as E by (by apply lookup_singleton_ne). destruct n; cbn [tx_upto]; by rewrite E. }
  split; [split| |by eexists].
  - split; simpl; try done.
    + apply index_genesis.
    + exists 0%nat, entry. split_and!; [done..|]. intros [|i] Hi; [done|]. simpl in Hi. lia.
    + intros q b _ Hb. by apply lookup_entry in Hb as [-> ->].
    + intros p Hp. apply elem_of_singleton in Hp as ->. by exists entry.
  - split; simpl.
    + intros p b Hp _. by apply lookup_entry in Hp as [-> ->].
    + intros p b Hp _. apply lookup_entry in Hp as [-> ->]. by exists None.
    + intros q b Hp. by apply lookup_entry in Hp as [-> ->].
    + intros n q. specialize (Hone n q). simpl in *. lia.
    + intros k c Hk. by apply elem_of_nil in Hk.
    + apply NoDup_nil_2.
    + intros q b Hp _. by apply lookup_entry in Hp as [-> ->].
    + intros q b Hp _. by apply lookup_entry in Hp as [-> ->].
  - intros q. rewrite Hq. simpl. split; [intros ->; by exists [0]|]. intros [h Hh]. by apply lookup_singleton_Some in Hh as [_ <-].
  - exists 0%nat. split; [done|]. intros q b Hb _ _ _. apply lookup_entry in Hb as [-> _]. simpl. set_solver.
  - intros h Hh. injection Hh as <-. by eexists.
Qed.

Definition header (i : Z) : CBlockHeader := {|
  hdr_nVersion := 4; hdr_hashPrevBlock := [i - 1]; hdr_hashMerkleRoot := uint256_null;
  hdr_hashFinalSaplingRoot := uint256_null; hdr_nTime := 1000 * i; hdr_nBits := 0x1f07ffff; hdr_nNonce := [i] |}.
Definition block (i : Z) : Merkle.CBlock :=
  {| Merkle.header := header i; Merkle.vtx := [TxCheck.sample_v4]; Merkle.vMerkleTree := [] |}.

(** The header checks of the source; a block needs a transaction. *)
Definition check_header : CBlockHeader -> TxCheck.checker := header_check Consensus.CMainParams (fun _ => replicate 32 0) 10000.
Definition check_context : heap -> option nat -> CBlockHeader -> TxCheck.checker :=
  header_context Consensus.CMainParams [0] hdr_nNonce.
Definition check_block (b : Merkle.CBlock) : TxCheck.checker :=
  match Merkle.vtx b with [] => TxCheck.invalid 100 "bad-blk-length" | _ => TxCheck.pass end.
Definition check_context_block (m : heap) (prev : option nat) (b : Merkle.CBlock) : TxCheck.checker := TxCheck.pass.
Definition store (b : Merkle.CBlock) (height : Z) (dbp : option CDiskBlockPos) (st : TxCheck.CValidationState) (w : Sample.world)
  : option CDiskBlockPos * TxCheck.CValidationState * Sample.world :=
  (Some {| pos_nFile := 0; pos_nPos := height |}, st, w).

Lemma checks : checks_ok check_header check_context check_block check_context_block.
Proof.
  split.
  - intros b st. apply header_check_total.
  - intros b st st'. apply header_check_target.
  - intros m q b st. apply header_context_total, Pow.main_pow_params_ok.
  - intros b st. unfold check_block. destruct (Merkle.vtx b); by eexists.
  - intros b st st'. unfold check_block. by destruct (Merkle.vtx b).
  - intros m prev b st _. by eexists.
Qed.

#[local] Instance client : ChainClient Sample.world := Sample.client (fun _ => false) false.
#[local] Instance laws : ClientLaws Sample.world := Sample.client_laws (fun _ => false) false.

Lemma always : deterministic Sample.world (fun _ => True).
Proof. destruct (Sample.client_deterministic (fun _ => false)) as [D1 D2]. split; [done|]. intros known m p b st w st' b' w' H1 H2. by destruct (D2 _ _ _ _ _ _ _ _ _ H1 H2). Qed.

Definition steps : state Sample.world -> state Sample.world -> Prop :=
  step hdr_nNonce Consensus.CMainParams false false 0 0 [] [0] check_header check_context check_block check_context_block store (fun _ => false).
Definition process := ProcessNewBlock Consensus.CMainParams hdr_nNonce false false 0 0 [] [0]
  check_header check_context check_block check_context_block store (fun _ => false).

Definition st0 : TxCheck.CValidationState := TxCheck.CValidationState_init.

Definition after_header : option (bool * option nat * TxCheck.CValidationState * state Sample.world) :=
  AcceptBlockHeader hdr_nNonce [0] check_header check_context (header 1) st0 start.
Definition after_block (s : state Sample.world) : option (bool * option nat * TxCheck.CValidationState * state Sample.world) :=
  accept_block hdr_nNonce false false 0 0 [] [0] check_header check_context check_block check_context_block store (fun _ => false)
    (block 2) true None st0 s.

End Genesis.

(** Transactions of a chain from its length. *)
Lemma tx_upto_height (m : heap) c : tree_ok m -> 0 <= c -> (forall q b, m !! q = Some b -> nTx b <= c) ->
  forall n q b, m !! q = Some b -> tx_upto n m q <= (nHeight b + 1) * c.
Proof.
  intros Ht Hc Hm n. induction n as [|n IH]; intros q b Hq; simpl; rewrite Hq; pose proof (Hm q b Hq);
    pose proof (node_height _ _ _ (Ht _ _ Hq)); (destruct (pprev b) as [r|] eqn:Er; [|nia]); [nia|].
  destruct (node_prev _ _ _ (Ht _ _ Hq) _ Er) as (br & Hbr & Hh). specialize (IH r br Hbr). nia.
Qed.

Lemma room_small (s : state Sample.world) : tree_ok (index s) ->
  bool_decide (map_Forall (fun _ b => nTx b <= 1 /\ nHeight b <= 10) (index s)) = true -> room s 1.
Proof.
  intros Ht H n q. apply bool_decide_eq_true in H. destruct (index s !! q) as [b|] eqn:E.
  - pose proof (tx_upto_height (index s) 1 Ht ltac:(lia) (fun q b Hb => proj1 (H q b Hb)) n q b E).
    pose proof (proj2 (H q b E)). lia.
  - destruct n; simpl; rewrite E; lia.
Qed.

Lemma fits_small (s : state Sample.world) i : bool_decide (map_Forall (fun _ b => Arith256.val (nChainWork b) <= 2 ^ 128) (index s)) = true ->
  header_fits s (Genesis.header i).
Proof.
  intros H. apply bool_decide_eq_true in H. split; [by vm_compute|]. intros q bq _ Hq proof Hp. specialize (H q bq Hq). simpl in H.
  change (Pow.GetBlockProof 0x1f07ffff = Some proof) in Hp.
  assert ((fun w => Arith256.val w <=? 2 ^ 128) <$> Pow.GetBlockProof 0x1f07ffff = Some true) as E by (vm_compute; reflexivity).
  rewrite Hp in E. injection E as E. apply Z.leb_le in E. assert (2 ^ 128 + 2 ^ 128 < 2 ^ 256) as Hb by (by vm_compute). lia.
Qed.


Lemma reorg_positive : 0 < MAX_REORG_LENGTH Consensus.CMainParams.
Proof. vm_compute. reflexivity. Qed.

(** The history: block 2 arrives before block 1 and waits for it. *)
Lemma Genesis_runs : exists s1 s2 r1 r2, Genesis.after_header = Some (r1, s1) /\ Genesis.after_block s1 = Some (r2, s2) /\
  rtc Genesis.steps Genesis.start s2 /\ length (mapBlocksUnlinked s2) = 1%nat /\ room s2 1 /\ header_fits s2 (Genesis.header 1) /\
  (fun r => (r.1.1, (fun b => (nHeight b, nChainTx b)) <$> (Tip (chainActive r.2) ≫= (index r.2 !!.)))) <$>
    Genesis.process (Genesis.block 1) true None Genesis.st0 s2 = Some (true, Some (2, 3)).
Proof.
  destruct Genesis.after_header as [[r1 s1]|] eqn:E1; [|vm_compute in E1; discriminate E1].
  destruct (Genesis.after_block s1) as [[r2 s2]|] eqn:E2.
  2: { assert (is_Some (Genesis.after_header ≫= fun r => Genesis.after_block r.2)) as [x Hx] by (vm_compute; by eexists).
       rewrite E1 in Hx. cbn in Hx. congruence. }
  assert ((fun s1 => bool_decide (map_Forall (fun _ b => nTx b <= 1 /\ nHeight b <= 10) (index s1)) &&
      bool_decide (map_Forall (fun _ b => Arith256.val (nChainWork b) <= 2 ^ 128) (index s1))) <$>
      (snd <$> Genesis.after_header) = Some true) as F1 by (vm_compute; reflexivity).
  assert ((fun s2 => (bool_decide (map_Forall (fun _ b => nTx b <= 1 /\ nHeight b <= 10) (index s2)),
      bool_decide (map_Forall (fun _ b => Arith256.val (nChainWork b) <= 2 ^ 128) (index s2)), length (mapBlocksUnlinked s2),
      (fun r => (r.1.1, (fun b => (nHeight b, nChainTx b)) <$> (Tip (chainActive r.2) ≫= (index r.2 !!.)))) <$>
        Genesis.process (Genesis.block 1) true None Genesis.st0 s2)) <$>
      (snd <$> (Genesis.after_header ≫= fun r => Genesis.after_block r.2)) = Some (true, true, 1%nat, Some (true, Some (2, 3)))) as F2
    by (vm_compute; reflexivity).
  rewrite E1 in F1, F2. cbn [fmap option_fmap option_map snd mbind option_bind] in F1, F2. rewrite E2 in F2.
  cbn [fmap option_fmap option_map snd] in F2. injection F1 as F1. apply andb_true_iff in F1 as [F11 F12].
  injection F2 as F21 F22 F23 F24.
  destruct r1 as [[ok1 pi1] st1], r2 as [[ok2 pi2] st2].
  assert (Genesis.steps Genesis.start s1) as S1.
  { apply (step_header _ _ _ _ _ _ _ _ _ _ _ _ _ _ Genesis.start (Genesis.header 1) Genesis.st0 ok1 pi1 st1 s1); [|exact E1].
    apply fits_small. vm_compute. reflexivity. }
  assert (forall s s', rtc Genesis.steps s s' -> node_inv (fun _ => True) [0] s -> node_inv (fun _ => True) [0] s') as Hinv.
  { intros s s' Hr Hi. exact (@life_inv _ Genesis.client Genesis.laws Consensus.CMainParams (fun _ => True) (Sample.client_ok _ _) Genesis.always
      reorg_positive false false 0 0 [] [0] (or_introl eq_refl) hdr_nNonce Genesis.check_header Genesis.check_context
      Genesis.check_block Genesis.check_context_block Genesis.store (fun _ => false) Genesis.checks s s' Hi Hr). }
  pose proof (Hinv _ _ (rtc_once _ _ S1) Genesis.start_inv) as I1.
  assert (Genesis.steps s1 s2) as S2.
  { apply (step_block _ _ _ _ _ _ _ _ _ _ _ _ _ _ s1 (Genesis.block 2) true None Genesis.st0 ok2 pi2 st2 s2); [|exact (room_small s1 (so_tree _ _ (no_state _ _ (ni_ok _ _ _ I1))) F11)|exact E2].
    apply fits_small, F12. }
  assert (rtc Genesis.steps Genesis.start s2) as S by (eapply rtc_l; [exact S1|by apply rtc_once]).
  pose proof (Hinv _ _ S Genesis.start_inv) as I2.
  exists s1, s2, (ok1, pi1, st1), (ok2, pi2, st2). split_and!; [done|done|done|done| |by apply fits_small|done].
  exact (room_small s2 (so_tree _ _ (no_state _ _ (ni_ok _ _ _ I2))) F21).
Qed.

(** Block 1 links both blocks; the tip is block 2. *)
Lemma history_best_chain_witness : exists s st' s' t b, rtc Genesis.steps Genesis.start s /\ length (mapBlocksUnlinked s) = 1%nat /\
  Genesis.process (Genesis.block 1) true None Genesis.st0 s = Some (true, st', s') /\ Tip (chainActive s') = Some t /\
  index s' !! t = Some b /\ nHeight b = 2 /\ valid_chain (index s') t.
Proof.
  destruct Genesis_runs as (s1 & s2 & r1 & r2 & _ & _ & Hr & Hl & Hroom & Hfits & Hp).
  destruct (@history_best_chain _ Genesis.client Genesis.laws Consensus.CMainParams (fun _ => True) (Sample.client_ok _ _) Genesis.always
    reorg_positive false false 0 0 [] [0] (or_introl eq_refl) hdr_nNonce Genesis.check_header Genesis.check_context
    Genesis.check_block Genesis.check_context_block Genesis.store (fun _ => false) Genesis.checks Genesis.start s2 (Genesis.block 1) true None
    Genesis.st0 Genesis.start_inv Hr Hfits Hroom) as (ok & st' & s' & Hrun & Hok).
  change (Genesis.process (Genesis.block 1) true None Genesis.st0 s2 = Some (ok, st', s')) in Hrun. rewrite Hrun in Hp.
  cbn [fmap option_fmap option_map fst snd] in Hp. injection Hp as -> Hp. destruct (Hok eq_refl) as (t & Ht & Hv & _).
  rewrite Ht in Hp. cbn [mbind option_bind] in Hp. destruct (index s' !! t) as [b|] eqn:Eb; [|discriminate Hp].
  cbn in Hp. injection Hp as Hh _. exists s2, st', s', t, b. split_and!; [exact Hr|exact Hl|exact Hrun|exact Ht|exact Eb|exact Hh|exact Hv].
Defined.

Lemma history_totals_witness : exists s, rtc Genesis.steps Genesis.start s /\ exists k c b q, (k, c) ∈ mapBlocksUnlinked s /\
  index s !! c = Some b /\ nTx b <> 0 /\ nChainTx b = 0 /\ pprev b = Some q /\ k = Some q.
Proof.
  destruct Genesis_runs as (s1 & s2 & r1 & r2 & _ & _ & Hr & Hl & _). exists s2. split; [exact Hr|].
  destruct (@history_totals _ Genesis.client Genesis.laws Consensus.CMainParams (fun _ => True) (Sample.client_ok _ _) Genesis.always
    reorg_positive false false 0 0 [] [0] (or_introl eq_refl) hdr_nNonce Genesis.check_header Genesis.check_context
    Genesis.check_block Genesis.check_context_block Genesis.store (fun _ => false) Genesis.checks Genesis.start s2 Genesis.start_inv Hr)
    as [_ Hwait].
  destruct (mapBlocksUnlinked s2) as [|[k c] l]; [discriminate Hl|]. exists k, c.
  destruct (Hwait k c (list_elem_of_here _ _)) as (b & q & bq & H1 & H2 & H3 & H4 & H5 & _). exists b, q.
  split_and!; [apply list_elem_of_here|exact H1|exact H2|exact H3|exact H4|exact H5].
Defined.

End ChainLife.
