(* ===== verification/StrEncodings.v ===== *)
(** * Text encodings of binary data (src/utilstrencodings.{h,cpp})

    A [std::string] is the list of its characters as bytes; a [const char*] is the
    list up to the terminating NUL.  Hexadecimal dumps, the regrouping of bits
    [ConvertBits], base 64 and base 32, the sanitizers and the timing-resistant
    comparison, with their round trips.  The digit lemmas serve base 58 too. *)

From stdpp Require Import base list list_numbers numbers option strings.
From Stdlib Require Import ZArith Lia Ascii.
From S2P Require Import Prelude Bytes.
#[local] Open Scope Z_scope.

Module StrEncodings.

(** ** Characters *)

Definition code (c : ascii) : Z := Z.of_N (N_of_ascii c).
Definition chars (s : string) : list Z := code <$> String.list_ascii_of_string s.

(** [isspace] in the C locale *)
Definition isspace (c : Z) : bool := (c =? 32) || ((9 <=? c) && (c <=? 13)).

(** [str.c_str()], read up to the first NUL *)
Fixpoint c_str (s : list Z) : list Z :=
  match s with
  | [] => []
  | c :: s => if c =? 0 then [] else c :: c_str s
  end.

(** [std::find], [strchr]: the position of a character *)
Fixpoint position (c : Z) (l : list Z) : option nat :=
  match l with
  | [] => None
  | x :: l => if x =? c then Some O else S <$> position c l
  end.

(** ** Sanitizers *)

Definition CHARS_ALPHA_NUM : list Z := chars "abcdefghijklmnopqrstuvwxyzABCDEFGHIJKLMNOPQRSTUVWXYZ0123456789".

Inductive SafeChars := SAFE_CHARS_DEFAULT | SAFE_CHARS_UA_COMMENT.

Definition SAFE_CHARS (rule : SafeChars) : list Z :=
  CHARS_ALPHA_NUM ++ chars (match rule with SAFE_CHARS_DEFAULT => " .,;_/:?@()" | SAFE_CHARS_UA_COMMENT => " .,;_?@" end).

Definition SanitizeString (str : list Z) (rule : SafeChars) : list Z :=
  List.filter (fun c => match position c (SAFE_CHARS rule) with Some _ => true | None => false end) str.
Definition SanitizeFilename (str : list Z) : list Z :=
  List.filter (fun c => match position c (chars "abcdefghijklmnopqrstuvwxyzABCDEFGHIJKLMNOPQRSTUVWXYZ01234567890") with
                        | Some _ => true | None => false end) str.

(** ** Hexadecimal *)

Definition p_util_hexdigit : list Z :=
  replicate 48 (-1) ++ [0; 1; 2; 3; 4; 5; 6; 7; 8; 9] ++ replicate 7 (-1) ++ [0xa; 0xb; 0xc; 0xd; 0xe; 0xf] ++
  replicate 26 (-1) ++ [0xa; 0xb; 0xc; 0xd; 0xe; 0xf] ++ replicate 153 (-1).

Definition HexDigit (c : Z) : option Z := p_util_hexdigit !! Z.to_nat c.

Definition IsHex (str : list Z) : option bool :=
  ds ← mapM HexDigit str;
  Some (forallb (fun d => 0 <=? d) ds && (0 <? Z.of_nat (length str)) && (Z.of_nat (length str) mod 2 =? 0)).

(** [while (isspace( *psz)) psz++] *)
Fixpoint skip_spaces (s : list Z) : list Z :=
  match s with
  | c :: s' => if isspace c then skip_spaces s' else s
  | [] => []
  end.

(** [HexDigit( *psz++)]; the terminating NUL has no digit. *)
Definition next_digit (s : list Z) : option (Z * list Z) :=
  match s with
  | [] => d ← HexDigit 0; Some (d, [])
  | c :: s => d ← HexDigit c; Some (d, s)
  end.

Fixpoint ParseHex_loop (fuel : nat) (psz vch : list Z) : option (list Z) :=
  match fuel with
  | O => None
  | S fuel =>
      '(c, psz) ← next_digit (skip_spaces psz);
      if c =? -1 then Some vch
      else
        let n := u8 (Z.shiftl c 4) in
        '(c, psz) ← next_digit psz;
        if c =? -1 then Some vch
        else ParseHex_loop fuel psz (vch ++ [Z.lor n c])
  end.
Definition ParseHex (psz : list Z) : option (list Z) := ParseHex_loop (S (length psz)) psz [].

Definition hexmap : list Z := chars "0123456789abcdef".

Fixpoint HexStr_loop (it : list Z) (fSpaces first : bool) : option (list Z) :=
  match it with
  | [] => Some []
  | val :: it =>
      hi ← hexmap !! Z.to_nat (Z.shiftr val 4);
      lo ← hexmap !! Z.to_nat (Z.land val 15);
      rest ← HexStr_loop it fSpaces false;
      Some ((if fSpaces && negb first then [32] else []) ++ [hi; lo] ++ rest)
  end.
Definition HexStr (vch : list Z) (fSpaces : bool) : option (list Z) := HexStr_loop vch fSpaces true.

(** ** ConvertBits *)

Section convert.
Context (frombits tobits : Z).

Definition maxv : Z := Z.shiftl 1 tobits - 1.
Definition max_acc : Z := Z.shiftl 1 (frombits + tobits - 1) - 1.

(** [while (bits >= tobits)]: the emitted groups and the bits left *)
Fixpoint emit (fuel : nat) (acc bits : Z) : option (list Z * Z) :=
  if bits >=? tobits then
    match fuel with
    | O => None
    | S fuel =>
        let bits := bits - tobits in
        '(out, rest) ← emit fuel acc bits;
        Some (Z.land (Z.shiftr acc bits) maxv :: out, rest)
    end
  else Some ([], bits).

Fixpoint convert_loop (it : list Z) (acc bits : Z) : option (list Z * Z * Z) :=
  match it with
  | [] => Some ([], acc, bits)
  | v :: it =>
      let acc := Z.land (Z.lor (u64 (Z.shiftl acc frombits)) v) max_acc in
      '(out, bits) ← emit (Z.to_nat (frombits + tobits)) acc (bits + frombits);
      '(rest, acc, bits) ← convert_loop it acc bits;
      Some (out ++ rest, acc, bits)
  end.

(** The emitted groups and the returned flag *)
Definition ConvertBits (pad : bool) (it : list Z) : option (list Z * bool) :=
  '(out, acc, bits) ← convert_loop it 0 0;
  let tail := Z.land (u64 (Z.shiftl acc (tobits - bits))) maxv in
  if pad then Some (out ++ (if negb (bits =? 0) then [tail] else []), true)
  else Some (out, negb ((bits >=? frombits) || negb (tail =? 0))).

End convert.

(** ** Base 64 and base 32 *)

(** [while (str.size() % n) str += '=']; '=' is 61 *)
Definition pad_to (n : nat) (str : list Z) : list Z := str ++ replicate ((n - length str mod n) mod n) 61.

Definition pbase64 : list Z := chars "ABCDEFGHIJKLMNOPQRSTUVWXYZabcdefghijklmnopqrstuvwxyz0123456789+/".
Definition pbase32 : list Z := chars "abcdefghijklmnopqrstuvwxyz234567".

Definition range (a n : Z) : list Z := seqZ a n.

Definition decode64_table : list Z :=
  replicate 43 (-1) ++ [62] ++ replicate 3 (-1) ++ [63] ++ range 52 10 ++ replicate 7 (-1) ++ range 0 26 ++
  replicate 6 (-1) ++ range 26 26 ++ replicate 133 (-1).
Definition decode32_table : list Z :=
  replicate 50 (-1) ++ range 26 6 ++ replicate 9 (-1) ++ range 0 26 ++ replicate 6 (-1) ++ range 0 26 ++ replicate 133 (-1).

(** The two codecs differ in the group size, the alphabet, the table and the
    length to which the text is padded. *)
Definition encode_text (bits : Z) (alphabet : list Z) (unit : nat) (pch : list Z) : option (list Z) :=
  '(groups, _) ← ConvertBits 8 bits true pch;
  str ← mapM (fun v => alphabet !! Z.to_nat v) groups;
  Some (pad_to unit str).

(** The characters that have a value, and where they end *)
Fixpoint table_prefix (table p : list Z) : option (list Z * list Z) :=
  match p with
  | [] => Some ([], [])
  | c :: p' =>
      x ← table !! Z.to_nat c;
      if x =? -1 then Some ([], p)
      else '(val, rest) ← table_prefix table p'; Some (x :: val, rest)
  end.

(** The loop over the padding stops at the first other character, where the result
    is invalid anyway.  The second component is [pfInvalid]. *)
Definition decode_text (bits : Z) (table : list Z) (unit : nat) (p : list Z) : option (list Z * bool) :=
  '(val, q) ← table_prefix table p;
  '(ret, valid) ← ConvertBits bits 8 false val;
  let valid := valid && forallb (fun c => c =? 61) q in
  let valid := valid && ((length val + length q) mod unit =? 0)%nat && (length q <? unit)%nat in
  Some (ret, negb valid).

Definition EncodeBase64 : list Z -> option (list Z) := encode_text 6 pbase64 4.
Definition DecodeBase64 : list Z -> option (list Z * bool) := decode_text 6 decode64_table 4.
Definition EncodeBase32 : list Z -> option (list Z) := encode_text 5 pbase32 8.
Definition DecodeBase32 : list Z -> option (list Z * bool) := decode_text 5 decode32_table 8.

(** ** TimingResistantEqual

    The accumulator is a [size_t]; the loop reads [b[i % b.size()]]. *)
Definition TimingResistantEqual (a b : list Z) : option bool :=
  match b with
  | [] => Some (length a =? 0)%nat
  | _ =>
      acc ← foldr (fun i r => acc ← r; x ← a !! i; y ← b !! (i mod length b)%nat; Some (Z.lor acc (Z.lxor x y)))
              (Some (Z.lxor (Z.of_nat (length a)) (Z.of_nat (length b)))) (rev (seq 0 (length a)));
      Some (acc =? 0)
  end.

(** ** Numbers as digits, most significant first *)

Definition be_from (B a : Z) (l : list Z) : Z := fold_left (fun v d => v * B + d) l a.
Definition be_val (B : Z) (l : list Z) : Z := be_from B 0 l.
Definition digits (B : Z) (l : list Z) : Prop := Forall (fun d => 0 <= d < B) l.

Lemma be_from_acc B a l : be_from B a l = a * B ^ Z.of_nat (length l) + be_val B l.
Proof.
  unfold be_val. revert a. induction l as [|d l IH]; intros a; cbn [be_from fold_left length]; [rewrite Z.pow_0_r; lia|].
  fold (be_from B (a * B + d) l). fold (be_from B (0 * B + d) l). rewrite IH, (IH (0 * B + d)), Nat2Z.inj_succ, Z.pow_succ_r by lia. lia.
Qed.

Lemma be_val_cons B d l : be_val B (d :: l) = d * B ^ Z.of_nat (length l) + be_val B l.
Proof. unfold be_val at 1. cbn [be_from fold_left]. fold (be_from B (0 * B + d) l). rewrite be_from_acc. lia. Qed.

Lemma be_val_app B l1 l2 : be_val B (l1 ++ l2) = be_val B l1 * B ^ Z.of_nat (length l2) + be_val B l2.
Proof. unfold be_val at 1, be_from. rewrite fold_left_app. fold (be_from B 0 l1). fold (be_from B (be_from B 0 l1) l2). apply be_from_acc. Qed.

Lemma be_val_snoc B l d : be_val B (l ++ [d]) = be_val B l * B + d.
Proof. rewrite be_val_app. unfold be_val at 2. cbn [be_from fold_left length]. rewrite Z.pow_1_r. lia. Qed.

Lemma be_val_range B l : 1 < B -> digits B l -> 0 <= be_val B l < B ^ Z.of_nat (length l).
Proof.
  intros HB. induction 1 as [|d l Hd _ IH]; [by vm_compute|]. rewrite be_val_cons. cbn [length].
  rewrite Nat2Z.inj_succ, Z.pow_succ_r by lia. nia.
Qed.

Lemma be_val_inj B l1 l2 : 1 < B -> digits B l1 -> digits B l2 -> length l1 = length l2 -> be_val B l1 = be_val B l2 -> l1 = l2.
Proof.
  intros HB H1. revert l2. induction H1 as [|d l Hd Hl IH]; intros [|e m] H2 Hlen Hv; try done. injection Hlen as Hlen.
  inversion H2 as [|? ? He Hm]; subst. rewrite !be_val_cons, Hlen in Hv.
  pose proof (be_val_range B l HB Hl) as R1. pose proof (be_val_range B m HB Hm) as R2. rewrite Hlen in R1.
  assert (0 < B ^ Z.of_nat (length m)) as Hp by (apply Z.pow_pos_nonneg; lia).
  assert (d = e) as -> by nia. f_equal. apply IH; [done|done|]. nia.
Qed.

(** ** Bit groups *)

Lemma land_ones_mod a n : 0 <= n -> Z.land a (Z.shiftl 1 n - 1) = a mod 2 ^ n.
Proof. intros Hn. rewrite Z.shiftl_1_l, <- Z.land_ones by done. by rewrite Z.ones_equiv, Z.sub_1_r. Qed.

Lemma lor_shiftl a v n : 0 <= n -> 0 <= v < 2 ^ n -> Z.lor (Z.shiftl a n) v = a * 2 ^ n + v.
Proof.
  intros Hn Hv. assert (Z.land (Z.shiftl a n) v = 0) as E.
  { apply Z.bits_inj'. intros i Hi. rewrite Z.land_spec, Z.shiftl_spec, Z.testbit_0_l by lia. destruct (Z.lt_ge_cases i n).
    - by rewrite Z.testbit_neg_r by lia.
    - rewrite (testbit_high v n i) by lia. by rewrite andb_false_r. }
  rewrite <- Z.lxor_lor, <- Z.add_nocarry_lxor by done. by rewrite Z.shiftl_mul_pow2.
Qed.

Lemma mod_split a p q : 0 <= p -> 0 <= q -> a mod 2 ^ (p + q) = (a / 2 ^ q) mod 2 ^ p * 2 ^ q + a mod 2 ^ q.
Proof.
  intros Hp Hq. rewrite Z.add_comm, Z.pow_add_r by done. rewrite Z.rem_mul_r by (try apply Z.pow_nonzero; try apply Z.pow_pos_nonneg; lia). lia.
Qed.

Section convert_facts.
Context (f t : Z) (Hf : 0 < f <= 8) (Ht : 0 < t <= 8).

Lemma emit_spec fuel : forall acc bits, 0 <= acc -> 0 <= bits < t * Z.of_nat fuel ->
  exists out rest, emit t fuel acc bits = Some (out, rest) /\ 0 <= rest < t /\ digits (2 ^ t) out /\
    bits = t * Z.of_nat (length out) + rest /\ be_val (2 ^ t) out * 2 ^ rest + acc mod 2 ^ rest = acc mod 2 ^ bits.
Proof using Ht.
  induction fuel as [|fuel IH]; intros acc bits Ha Hb; [lia|]. cbn [emit]. rewrite Z.geb_leb. destruct (Z.leb_spec t bits) as [Hge|Hlt].
  2: { exists [], bits. split_and!; [done|lia|lia|constructor|simpl; lia|]. unfold be_val. simpl. lia. }
  destruct (IH acc (bits - t) Ha) as (out & rest & -> & Hr & Ho & Hl & Hv); [lia|]. monad.
  exists (Z.land (Z.shiftr acc (bits - t)) (maxv t) :: out), rest. unfold maxv. rewrite land_ones_mod, Z.shiftr_div_pow2 by lia.
  split_and!; [done|lia|lia| |cbn [length]; lia|].
  - constructor; [|done]. apply Z.mod_pos_bound, Z.pow_pos_nonneg; lia.
  - rewrite be_val_cons. rewrite <- Z.pow_mul_r by lia. rewrite Z.mul_add_distr_r, <- Z.mul_assoc, <- Z.pow_add_r by lia.
    replace (t * Z.of_nat (length out) + rest) with (bits - t) by lia.
    replace bits with (t + (bits - t)) at 3 by lia. rewrite (mod_split acc t (bits - t)) by lia. lia.
Qed.

Lemma convert_loop_spec it : forall acc bits, digits (2 ^ f) it -> 0 <= bits < t -> 0 <= acc < 2 ^ (f + t - 1) ->
  exists out acc' bits', convert_loop f t it acc bits = Some (out, acc', bits') /\ 0 <= bits' < t /\ 0 <= acc' < 2 ^ (f + t - 1) /\
    digits (2 ^ t) out /\ bits + f * Z.of_nat (length it) = t * Z.of_nat (length out) + bits' /\
    (acc mod 2 ^ bits) * 2 ^ (f * Z.of_nat (length it)) + be_val (2 ^ f) it = be_val (2 ^ t) out * 2 ^ bits' + acc' mod 2 ^ bits'.
Proof using Hf Ht.
  induction it as [|v it IH]; intros acc bits Hd Hb Ha; cbn [convert_loop].
  { exists [], acc, bits. split_and!; [done|lia..|apply List.Forall_nil|cbn [length]; lia|]. unfold be_val. cbn [length be_from fold_left]. rewrite Z.mul_0_r, Z.pow_0_r. lia. }
  inversion Hd as [|? ? Hv Hd']; subst.
  assert (0 < 2 ^ f) as Hpf by (apply Z.pow_pos_nonneg; lia).
  assert (Z.lor (u64 (Z.shiftl acc f)) v = acc * 2 ^ f + v) as E.
  { rewrite u64_id.
    - apply lor_shiftl; lia.
    - unfold is_u64. rewrite Z.shiftl_mul_pow2 by lia. assert (2 ^ (f + t - 1) * 2 ^ f <= 2 ^ 64); [|nia].
      rewrite <- Z.pow_add_r by lia. apply Z.pow_le_mono_r; lia. }
  rewrite E. unfold max_acc. rewrite land_ones_mod by lia. set (acc1 := (acc * 2 ^ f + v) mod 2 ^ (f + t - 1)).
  assert (0 <= acc1 < 2 ^ (f + t - 1)) as Ha1 by (apply Z.mod_pos_bound, Z.pow_pos_nonneg; lia).
  destruct (emit_spec (Z.to_nat (f + t)) acc1 (bits + f)) as (out & rest & -> & Hr & Ho & Hl & Hval); [lia|nia|]. monad.
  destruct (IH acc1 rest Hd' Hr Ha1) as (out2 & acc2 & bits2 & -> & Hb2 & Ha2 & Ho2 & Hl2 & Hv2). monad.
  exists (out ++ out2), acc2, bits2. rewrite length_app. cbn [length]. split_and!; try done; try lia; [by apply Forall_app|].
  assert (acc1 mod 2 ^ (bits + f) = (acc mod 2 ^ bits) * 2 ^ f + v) as E1.
  { unfold acc1. replace (f + t - 1) with (f + t - 1 - (bits + f) + (bits + f)) by lia.
    rewrite (Z.pow_add_r 2 (f + t - 1 - (bits + f))) by lia.
    rewrite Z.mod_mod_divide by apply Z.divide_factor_r. rewrite mod_split by lia.
    assert ((acc * 2 ^ f + v) mod 2 ^ f = v) as -> by (rewrite Z.add_comm, Z.mod_add by lia; apply Z.mod_small; lia).
    rewrite Z.div_add_l, (Z.div_small v) by lia. by rewrite Z.add_0_r. }
  rewrite E1 in Hval. rewrite be_val_cons, be_val_app. rewrite <- !Z.pow_mul_r by lia.
  replace (f * Z.of_nat (S (length it))) with (f + f * Z.of_nat (length it)) by lia. rewrite Z.pow_add_r by lia.
  replace ((acc mod 2 ^ bits) * (2 ^ f * 2 ^ (f * Z.of_nat (length it))) + (v * 2 ^ (f * Z.of_nat (length it)) + be_val (2 ^ f) it))
    with (((acc mod 2 ^ bits) * 2 ^ f + v) * 2 ^ (f * Z.of_nat (length it)) + be_val (2 ^ f) it) by lia.
  rewrite <- Hval. rewrite Z.mul_add_distr_r. rewrite <- Z.add_assoc, Hv2. rewrite <- Z.mul_assoc, <- (Z.pow_add_r 2 rest) by lia.
  rewrite Z.mul_add_distr_r, <- (Z.mul_assoc (be_val (2 ^ t) out)), <- (Z.pow_add_r 2 _ bits2) by lia.
  rewrite Hl2. lia.
Qed.

End convert_facts.

Section convert_results.
Context (f t : Z) (Hf : 0 < f <= 8) (Ht : 0 < t <= 8).

Lemma tail_value acc b : 0 <= acc < 2 ^ (f + t - 1) -> 0 <= b < t ->
  Z.land (u64 (Z.shiftl acc (t - b))) (maxv t) = (acc mod 2 ^ b) * 2 ^ (t - b).
Proof using Hf Ht.
  intros Ha Hb. unfold maxv. rewrite land_ones_mod, Z.shiftl_mul_pow2 by lia.
  assert (0 < 2 ^ (t - b)) as Hp by (apply Z.pow_pos_nonneg; lia). rewrite u64_id.
  - replace t with (b + (t - b)) at 2 by lia. rewrite Z.pow_add_r by lia. rewrite Z.mul_mod_distr_r; [done| |lia].
    apply Z.pow_nonzero; lia.
  - unfold is_u64. assert (2 ^ (f + t - 1) * 2 ^ (t - b) <= 2 ^ 64); [|nia].
    rewrite <- Z.pow_add_r by lia. apply Z.pow_le_mono_r; lia.
Qed.

(** With padding: the groups hold the input followed by fewer than [t] zero bits. *)
Lemma convert_pad l : digits (2 ^ f) l -> exists g p, ConvertBits f t true l = Some (g, true) /\ digits (2 ^ t) g /\
  0 <= p < t /\ t * Z.of_nat (length g) = f * Z.of_nat (length l) + p /\ be_val (2 ^ t) g = be_val (2 ^ f) l * 2 ^ p.
Proof using Hf Ht.
  intros Hl. unfold ConvertBits.
  destruct (convert_loop_spec f t Hf Ht l 0 0 Hl) as (out & acc & b & -> & Hb & Ha & Ho & Hlen & Hv);
    [lia|split; [done|apply Z.pow_pos_nonneg; lia]|]. monad. rewrite Z.mod_0_l, Z.mul_0_l, Z.add_0_l in Hv by (apply Z.pow_nonzero; lia).
  destruct (Z.eqb_spec b 0) as [->|Hnz]; cbn [negb].
  { exists out, 0. rewrite app_nil_r. split_and!; [done|done|lia|lia|lia|]. rewrite Z.pow_0_r, Z.mod_1_r in Hv. rewrite Z.pow_0_r. lia. }
  rewrite tail_value by done. set (d := (acc mod 2 ^ b) * 2 ^ (t - b)).
  assert (0 < 2 ^ b) as Hpb by (apply Z.pow_pos_nonneg; lia). assert (0 < 2 ^ (t - b)) as Hpt by (apply Z.pow_pos_nonneg; lia).
  assert (2 ^ t = 2 ^ b * 2 ^ (t - b)) as E by (rewrite <- Z.pow_add_r by lia; f_equal; lia).
  pose proof (Z.mod_pos_bound acc (2 ^ b) Hpb) as Hm. exists (out ++ [d]), (t - b). split_and!; [done| |lia|lia|rewrite length_app; simpl; lia|].
  - apply Forall_app. split; [done|]. apply Forall_singleton. unfold d. nia.
  - rewrite be_val_snoc, Hv, E. unfold d. nia.
Qed.

(** Without: the flag says that the bits left over are fewer than [f] and zero. *)
Lemma convert_exact g : digits (2 ^ f) g -> exists l ok b r, ConvertBits f t false g = Some (l, ok) /\ digits (2 ^ t) l /\
  0 <= b < t /\ f * Z.of_nat (length g) = t * Z.of_nat (length l) + b /\ be_val (2 ^ f) g = be_val (2 ^ t) l * 2 ^ b + r /\
  0 <= r < 2 ^ b /\ (ok = true <-> b < f /\ r = 0).
Proof using Hf Ht.
  intros Hl. unfold ConvertBits.
  destruct (convert_loop_spec f t Hf Ht g 0 0 Hl) as (out & acc & b & -> & Hb & Ha & Ho & Hlen & Hv);
    [lia|split; [done|apply Z.pow_pos_nonneg; lia]|]. monad. rewrite Z.mod_0_l, Z.mul_0_l, Z.add_0_l in Hv by (apply Z.pow_nonzero; lia).
  assert (0 < 2 ^ b) as Hpb by (apply Z.pow_pos_nonneg; lia). assert (0 < 2 ^ (t - b)) as Hpt by (apply Z.pow_pos_nonneg; lia).
  do 2 eexists. exists b, (acc mod 2 ^ b). split_and!; [done|done|lia|lia|lia|done|by apply Z.mod_pos_bound..|].
  rewrite tail_value by done. rewrite negb_true_iff, orb_false_iff, negb_false_iff, Z.eqb_eq, Z.geb_leb, Z.leb_gt. nia.
Qed.

End convert_results.

(** Regrouping and back, with the smaller groups in the middle; and only the padded
    groups convert back. *)
Lemma ConvertBits_roundtrip f t l : 0 < t <= f -> f <= 8 -> digits (2 ^ f) l ->
  exists g, ConvertBits f t true l = Some (g, true) /\ digits (2 ^ t) g /\
    Z.of_nat (length g) = (f * Z.of_nat (length l) + t - 1) / t /\ ConvertBits t f false g = Some (l, true).
Proof.
  intros Htf Hf8 Hl. destruct (convert_pad f t ltac:(lia) ltac:(lia) l Hl) as (g & p & Hg & Hdg & Hp & Hlen & Hv).
  exists g. split_and!; [done|done| |].
  { apply (Zdiv_unique _ _ _ (t - 1 - p)); lia. }
  destruct (convert_exact t f ltac:(lia) ltac:(lia) g Hdg) as (l' & ok & b & r & -> & Hdl & Hb & Hlen' & Hv' & Hr & Hok).
  destruct (Z.div_mod_unique f (Z.of_nat (length l')) (Z.of_nat (length l)) b p) as [Hll ->]; [lia..|].
  rewrite Hv in Hv'. assert (0 < 2 ^ p) as Hpp by (apply Z.pow_pos_nonneg; lia). 
  destruct (Z.div_mod_unique (2 ^ p) (be_val (2 ^ f) l') (be_val (2 ^ f) l) r 0) as [Heq ->]; [lia..|].
  assert (1 < 2 ^ f) as H1 by (apply Z.pow_gt_1; lia).
  rewrite (be_val_inj (2 ^ f) l' l) by (try done; try lia). by replace ok with true by (symmetry; apply Hok; lia).
Qed.

Lemma ConvertBits_canonical f t g l : 0 < t <= f -> f <= 8 -> digits (2 ^ t) g -> ConvertBits t f false g = Some (l, true) ->
  digits (2 ^ f) l /\ ConvertBits f t true l = Some (g, true).
Proof.
  intros Htf Hf8 Hg Hrun. destruct (convert_exact t f ltac:(lia) ltac:(lia) g Hg) as (l' & ok & b & r & E & Hdl & Hb & Hlen & Hv & Hr & Hok).
  rewrite Hrun in E. injection E as <- <-. destruct (proj1 Hok eq_refl) as [Hbt ->]. split; [done|].
  destruct (convert_pad f t ltac:(lia) ltac:(lia) l Hdl) as (g' & p & -> & Hdg & Hp & Hlen' & Hv').
  assert (Z.of_nat (length g') = Z.of_nat (length g) /\ p = b) as [Hgg ->].
  { destruct (Z.div_mod_unique t (Z.of_nat (length g')) (Z.of_nat (length g)) (t - 1 - p) (t - 1 - b)); nia. }
  assert (1 < 2 ^ t) as H1 by (apply Z.pow_gt_1; lia). do 2 f_equal. apply (be_val_inj (2 ^ t)); try done; lia.
Qed.

(** ** Round trips of the text codecs *)

Lemma byte_digits l : is_bytes l <-> digits (2 ^ 8) l.
Proof. done. Qed.

(** A check over a range of numbers, by evaluation. *)
Lemma seqZ_check (P : Z -> bool) n v : forallb P (seqZ 0 n) = true -> 0 <= v < n -> P v = true.
Proof. intros H Hv. rewrite forallb_forall in H. apply H, list_elem_of_In, elem_of_seqZ. lia. Qed.

(** The alphabet and the table agree, and '=' has no value. *)
Definition table_ok (bits : Z) (alphabet table : list Z) : bool :=
  bool_decide (table !! 61%nat = Some (-1)) &&
  forallb (fun v => match alphabet !! Z.to_nat v with
                    | Some c => bool_decide (table !! Z.to_nat c = Some v)
                    | None => false end) (seqZ 0 (2 ^ bits)).

Lemma table_ok_lookup bits alphabet table v : table_ok bits alphabet table = true -> 0 <= v < 2 ^ bits ->
  exists c, alphabet !! Z.to_nat v = Some c /\ table !! Z.to_nat c = Some v.
Proof.
  intros H Hv. apply andb_true_iff in H as [_ H]. pose proof (seqZ_check _ _ v H Hv) as E. simpl in E.
  destruct (alphabet !! Z.to_nat v) as [c|]; [|done]. exists c. split; [done|]. by apply bool_decide_eq_true in E.
Qed.

Lemma table_prefix_app bits alphabet table g n : table_ok bits alphabet table = true -> digits (2 ^ bits) g ->
  exists str, mapM (fun v => alphabet !! Z.to_nat v) g = Some str /\ length str = length g /\
    table_prefix table (str ++ replicate n 61) = Some (g, replicate n 61).
Proof.
  intros Hok. induction 1 as [|v g Hv Hg IH].
  - exists []. split_and!; try done. simpl. destruct n as [|n]; [done|]. cbn [replicate table_prefix].
    apply andb_true_iff in Hok as [H _]. apply bool_decide_eq_true in H. change (Z.to_nat 61) with 61%nat. rewrite H. monad. done.
  - destruct IH as (str & Hm & Hlen & Hp). destruct (table_ok_lookup _ _ _ v Hok Hv) as (c & Hc & Ht).
    exists (c :: str). cbn [mapM]. rewrite Hc. monad. rewrite Hm. monad. split_and!; [done|simpl; lia|].
    cbn [app table_prefix]. rewrite Ht. monad. destruct (Z.eqb_spec v (-1)); [lia|]. rewrite Hp. by monad.
Qed.

Lemma forallb_replicate n (c : Z) : forallb (fun x => x =? c) (replicate n c) = true.
Proof. induction n as [|n IH]; [done|]. simpl. by rewrite Z.eqb_refl, IH. Qed.

Lemma pad_length (n m : nat) : n <> O -> ((m + (n - m mod n) mod n) mod n = 0)%nat.
Proof.
  intros Hn. pose proof (Nat.mod_upper_bound m n Hn) as Hm. destruct (decide (m mod n = 0)%nat) as [E|E].
  - rewrite E, Nat.sub_0_r, Nat.Div0.mod_same, Nat.add_0_r. done.
  - rewrite (Nat.mod_small (n - m mod n)) by lia. pose proof (Nat.div_mod_eq m n) as D.
    replace (m + (n - m mod n))%nat with ((m / n + 1) * n)%nat by lia. apply Nat.Div0.mod_mul.
Qed.

(** Text made of groups of [bits] and padded to a multiple of [unit] is read back. *)
Lemma text_roundtrip bits alphabet table unit l : table_ok bits alphabet table = true -> 0 < bits <= 8 -> unit <> O -> is_bytes l ->
  exists str, encode_text bits alphabet unit l = Some str /\ decode_text bits table unit str = Some (l, false) /\
    (length str mod unit = 0)%nat.
Proof.
  intros Hok Hbits Hunit Hl. destruct (ConvertBits_roundtrip 8 bits l) as (g & Hg & Hdg & _ & Hback); [lia..|done|].
  unfold encode_text. rewrite Hg. monad.
  destruct (table_prefix_app bits alphabet table g ((unit - length g mod unit) mod unit) Hok Hdg) as (str & -> & Hlen & Hp). monad.
  exists (pad_to unit str). unfold pad_to. rewrite Hlen. split; [done|].
  assert ((length g + (unit - length g mod unit) mod unit) mod unit = 0)%nat as Hmod by (by apply pad_length).
  split; [|by rewrite length_app, length_replicate, Hlen].
  unfold decode_text. rewrite Hp. monad. rewrite Hback. monad. rewrite forallb_replicate, length_replicate, Hmod.
  replace (_ <? unit)%nat with true; [done|]. symmetry. apply Nat.ltb_lt. by apply Nat.mod_upper_bound.
Qed.

Lemma base64_roundtrip l : is_bytes l -> exists str, EncodeBase64 l = Some str /\ DecodeBase64 str = Some (l, false).
Proof.
  intros Hl. destruct (text_roundtrip 6 pbase64 decode64_table 4 l) as (str & H1 & H2 & _); [by vm_compute|lia|done|done|]. eauto.
Qed.

Lemma base32_roundtrip l : is_bytes l -> exists str, EncodeBase32 l = Some str /\ DecodeBase32 str = Some (l, false).
Proof.
  intros Hl. destruct (text_roundtrip 5 pbase32 decode32_table 8 l) as (str & H1 & H2 & _); [by vm_compute|lia|done|done|]. eauto.
Qed.

(** ** Hexadecimal dumps *)

Lemma hex_byte v : is_u8 v -> exists hi lo a b, hexmap !! Z.to_nat (Z.shiftr v 4) = Some hi /\ hexmap !! Z.to_nat (Z.land v 15) = Some lo /\
  isspace hi = false /\ HexDigit hi = Some a /\ HexDigit lo = Some b /\ 0 <= a /\ 0 <= b /\ Z.lor (u8 (Z.shiftl a 4)) b = v.
Proof.
  intros Hv. assert (match hexmap !! Z.to_nat (Z.shiftr v 4), hexmap !! Z.to_nat (Z.land v 15) with
    | Some hi, Some lo => match HexDigit hi, HexDigit lo with
        | Some a, Some b => negb (isspace hi) && (0 <=? a) && (0 <=? b) && (Z.lor (u8 (Z.shiftl a 4)) b =? v)
        | _, _ => false end
    | _, _ => false end = true) as E.
  { revert v Hv. intros v Hv. apply (seqZ_check (fun v => match hexmap !! Z.to_nat (Z.shiftr v 4), hexmap !! Z.to_nat (Z.land v 15) with
      | Some hi, Some lo => match HexDigit hi, HexDigit lo with
        | Some a, Some b => negb (isspace hi) && (0 <=? a) && (0 <=? b) && (Z.lor (u8 (Z.shiftl a 4)) b =? v)
        | _, _ => false end
      | _, _ => false end) 256); [vm_compute; reflexivity|exact Hv]. }
  repeat case_match; try done. apply andb_true_iff in E as [E E4]. apply andb_true_iff in E as [E E3]. apply andb_true_iff in E as [E1 E2].
  do 4 eexists. split_and!; try done; [by apply negb_true_iff|lia|lia|lia].
Qed.

Lemma HexStr_parse v sp : is_bytes v -> forall first pre, exists str, HexStr_loop v sp first = Some str /\
  (length v <= length str)%nat /\ forall fuel, (length str < fuel)%nat -> ParseHex_loop fuel str pre = Some (pre ++ v).
Proof.
  induction 1 as [|x v Hx Hv IH]; intros first pre.
  { exists []. split_and!; [done|simpl; lia|]. intros [|fuel] Hf; [simpl in Hf; lia|]. by rewrite app_nil_r. }
  destruct (hex_byte x Hx) as (hi & lo & a & b & H1 & H2 & H3 & H4 & H5 & Ha & Hb & H6).
  destruct (IH false (pre ++ [x])) as (str & Hs & Hlen & Hp). cbn [HexStr_loop]. rewrite H1. monad. rewrite H2. monad. rewrite Hs. monad.
  eexists. split_and!; [done|rewrite !length_app; simpl; lia|]. intros [|fuel] Hf; [lia|].
  assert (skip_spaces ((if sp && negb first then [32] else []) ++ [hi; lo] ++ str) = hi :: lo :: str) as E
    by (destruct (sp && negb first); simpl; by rewrite H3).
  cbn [ParseHex_loop]. rewrite E. cbn [next_digit]. rewrite H4. monad. destruct (Z.eqb_spec a (-1)); [lia|]. cbn [next_digit]. rewrite H5. monad.
  destruct (Z.eqb_spec b (-1)); [lia|]. rewrite H6, Hp; [by rewrite <- app_assoc|]. rewrite !length_app in Hf. simpl in Hf. lia.
Qed.

(** [ParseHex] reads what [HexStr] prints, with or without spaces. *)
Lemma hex_roundtrip v sp : is_bytes v -> exists str, HexStr v sp = Some str /\ ParseHex str = Some v.
Proof.
  intros Hv. destruct (HexStr_parse v sp Hv true []) as (str & H1 & _ & H2). exists str. split; [done|]. apply H2. lia.
Qed.

(** ** Comparison *)

(** [TimingResistantEqual] is equality of the contents. *)
Lemma timing_resistant_equal a b : TimingResistantEqual a b = Some (bool_decide (a = b)).
Proof.
  unfold TimingResistantEqual. destruct b as [|y b0]; [by destruct a|]. set (b := y :: b0).
  assert (forall n, (n <= length a)%nat -> exists acc, foldr (fun i r => acc ← r; x ← a !! i; y ← b !! (i mod length b)%nat; Some (Z.lor acc (Z.lxor x y)))
      (Some (Z.lxor (Z.of_nat (length a)) (Z.of_nat (length b)))) (rev (seq 0 n)) = Some acc /\
    (acc = 0 <-> length a = length b /\ forall i, (i < n)%nat -> a !! i = b !! i)) as H.
  { induction n as [|n IH]; intros Hn.
    - exists (Z.lxor (Z.of_nat (length a)) (Z.of_nat (length b))). split; [done|]. rewrite Z.lxor_eq_0_iff. split; [|lia].
      intros E. split; [lia|]. intros i Hi. lia.
    - destruct IH as (acc & Hacc & Hiff); [lia|]. rewrite seq_S, rev_app_distr. cbn [rev app foldr]. cbn [Nat.add].
      rewrite Hacc. monad. destruct (lookup_lt_is_Some_2 a n ltac:(lia)) as [x Hx]. rewrite Hx. monad.
      destruct (lookup_lt_is_Some_2 b (n mod length b)) as [z Hz]; [by apply Nat.mod_upper_bound|]. rewrite Hz. monad.
      eexists. split; [done|]. rewrite Z.lor_eq_0_iff, Hiff, Z.lxor_eq_0_iff. split.
      + intros [[Hl Hi] ->]. split; [done|]. intros i Hi'. destruct (decide (i = n)) as [->|Hne]; [|apply Hi; lia].
        rewrite Nat.mod_small in Hz by lia. congruence.
      + intros [Hl Hi]. split; [split; [done|]; intros i Hi'; apply Hi; lia|]. rewrite Nat.mod_small in Hz by lia.
        specialize (Hi n ltac:(lia)). congruence. }
  destruct (H (length a) ltac:(lia)) as (acc & -> & Hiff). monad. f_equal. apply eq_true_iff_eq. rewrite Z.eqb_eq, Hiff, bool_decide_eq_true.
  split; [|by intros ->]. intros [Hl Hi]. apply list_eq. intros i. destruct (decide (i < length a)%nat); [by apply Hi|].
  rewrite !lookup_ge_None_2 by lia. done.
Qed.

End StrEncodings.
