(* ===== verification/Base58.v ===== *)
(** * Base 58 (src/base58.cpp)

    The conversion of a byte vector to base-58 text in a buffer of an estimated
    size, back, and the variants with a four-byte checksum.  The assertions that
    the carry fits the buffer are [None]; [DecodeBase58] returns the vector, or
    [Some None] for [false].  The theorem shows that the size estimates are enough
    and that decoding inverts encoding. *)

From stdpp Require Import base list list_numbers numbers option strings.
From Stdlib Require Import ZArith Lia.
From S2P Require Import Prelude Bytes StrEncodings.
Import StrEncodings.
#[local] Open Scope Z_scope.

Module Base58.

Definition pszBase58 : list Z := chars "123456789ABCDEFGHJKLMNPQRSTUVWXYZabcdefghijkmnopqrstuvwxyz".

(** The loop over the buffer from its end: [carry += mult * *it; *it = carry % base;
    carry /= base], on the reversed buffer. *)
Fixpoint mul_add (base mult : Z) (rbuf : list Z) (carry : Z) : list Z * Z :=
  match rbuf with
  | [] => ([], carry)
  | d :: rbuf =>
      let carry := carry + mult * d in
      let '(rest, out) := mul_add base mult rbuf (carry / base) in
      (carry mod base :: rest, out)
  end.

(** One digit, and [assert(carry == 0)] *)
Definition push (base mult : Z) (buf : list Z) (digit : Z) : option (list Z) :=
  let '(rbuf, carry) := mul_add base mult (rev buf) digit in
  if carry =? 0 then Some (rev rbuf) else None.

(** [while ( *psz == '1')]: the count and the rest *)
Fixpoint leading (c : Z) (l : list Z) : nat * list Z :=
  match l with
  | x :: l' => if x =? c then let '(n, r) := leading c l' in (S n, r) else (O, l)
  | [] => (O, [])
  end.

(** [while ( *psz && !isspace( *psz))]: [Some (inl ())] is [return false]. *)
Fixpoint decode_loop (psz b256 : list Z) : option (unit + list Z * list Z) :=
  match psz with
  | [] => Some (inr ([], b256))
  | c :: psz' =>
      if isspace c then Some (inr (psz, b256))
      else match position c pszBase58 with
           | None => Some (inl ())
           | Some i => b256 ← push 256 58 b256 (Z.of_nat i); decode_loop psz' b256
           end
  end.

(** [vch.assign(zeroes, 0)] with the [int] counter; a negative count throws. *)
Definition zeros (n : nat) (c : Z) : option (list Z) :=
  if s32 (Z.of_nat n) <? 0 then None else Some (replicate (Z.to_nat (s32 (Z.of_nat n))) c).

Definition DecodeBase58 (psz : list Z) : option (option (list Z)) :=
  let psz := skip_spaces psz in
  let '(zeroes, psz) := leading 49 psz in
  let size := u64 (u64 (Z.of_nat (length psz) * 733) / 1000 + 1) in
  r ← decode_loop psz (replicate (Z.to_nat size) 0);
  match r with
  | inl _ => Some None
  | inr (psz, b256) =>
      match skip_spaces psz with
      | _ :: _ => Some None
      | [] => z ← zeros zeroes 0; Some (Some (z ++ snd (leading 0 b256)))
      end
  end.

Fixpoint encode_loop (bytes b58 : list Z) : option (list Z) :=
  match bytes with
  | [] => Some b58
  | b :: bytes => b58 ← push 58 256 b58 b; encode_loop bytes b58
  end.

Definition EncodeBase58 (vch : list Z) : option (list Z) :=
  let '(zeroes, bytes) := leading 0 vch in
  let size := s64 (Z.quot (s64 (Z.of_nat (length bytes) * 138)) 100 + 1) in
  b58 ← encode_loop bytes (replicate (Z.to_nat size) 0);
  z ← zeros zeroes 49;
  str ← mapM (fun d => pszBase58 !! Z.to_nat d) (snd (leading 0 b58));
  Some (z ++ str).

(** The [std::string] overload goes through [c_str()]. *)
Definition DecodeBase58_string (str : list Z) : option (option (list Z)) := DecodeBase58 (c_str str).

(** ** With a checksum

    [Hash] is double SHA-256. *)
Section check.
Context (Hash : list Z -> list Z).

Definition EncodeBase58Check (vchIn : list Z) : option (list Z) := EncodeBase58 (vchIn ++ take 4 (Hash vchIn)).

Definition DecodeBase58Check (psz : list Z) : option (option (list Z)) :=
  r ← DecodeBase58 psz;
  Some (match r with
        | None => None
        | Some vchRet =>
            if Z.of_nat (length vchRet) <? 4 then None
            else
              let data := take (length vchRet - 4) vchRet in
              if bool_decide (take 4 (Hash data) = drop (length vchRet - 4) vchRet) then Some data else None
        end).

Definition DecodeBase58Check_string (str : list Z) : option (option (list Z)) := DecodeBase58Check (c_str str).

End check.

(** ** The buffer as a number *)

Lemma mul_add_spec base mult rbuf : 1 < base -> 0 <= mult -> digits base rbuf -> forall carry, 0 <= carry ->
  let '(r, c) := mul_add base mult rbuf carry in
  digits base r /\ length r = length rbuf /\ 0 <= c /\
  be_val base (rev r) + c * base ^ Z.of_nat (length rbuf) = mult * be_val base (rev rbuf) + carry.
Proof.
  intros Hb Hm. induction 1 as [|d rbuf Hd Hr IH]; intros carry Hc; cbn [mul_add].
  { split_and!; [by apply List.Forall_nil|done|done|]. unfold be_val. cbn [rev be_from fold_left length]. rewrite Z.pow_0_r. lia. }
  set (x := carry + mult * d). assert (0 <= x) as Hx by nia. specialize (IH (x / base) ltac:(apply Z.div_pos; lia)).
  destruct (mul_add base mult rbuf (x / base)) as [r c]. destruct IH as (D & L & C & V). split_and!.
  - apply List.Forall_cons; [apply Z.mod_pos_bound; lia|done].
  - simpl. by rewrite L.
  - done.
  - cbn [rev length]. rewrite !be_val_snoc, Nat2Z.inj_succ, Z.pow_succ_r by lia. pose proof (Z.div_mod x base ltac:(lia)). nia.
Qed.

(** A push succeeds as long as the number fits the buffer. *)
Lemma push_spec base mult buf d : 1 < base -> 0 <= mult -> digits base buf -> 0 <= d ->
  mult * be_val base buf + d < base ^ Z.of_nat (length buf) ->
  exists buf', push base mult buf d = Some buf' /\ digits base buf' /\ length buf' = length buf /\
    be_val base buf' = mult * be_val base buf + d.
Proof.
  intros Hb Hm Hbuf Hd Hfit. unfold push.
  assert (digits base (rev buf)) as Hrev by (by apply Forall_rev).
  pose proof (mul_add_spec base mult (rev buf) Hb Hm Hrev d Hd) as H. destruct (mul_add base mult (rev buf) d) as [r c].
  destruct H as (D & L & C & V). rewrite length_rev, rev_involutive in V. rewrite length_rev in L.
  assert (digits base (rev r)) as Dr by (by apply Forall_rev).
  pose proof (be_val_range base (rev r) Hb Dr) as R. assert (0 < base ^ Z.of_nat (length buf)) as Hp by (apply Z.pow_pos_nonneg; lia).
  assert (c = 0) as -> by nia. rewrite Z.eqb_refl. exists (rev r). split_and!; [done|done|by rewrite length_rev|lia].
Qed.

(** Reading digits of one base into a buffer of another that is large enough. *)
Definition pushes (base mult : Z) : list Z -> list Z -> option (list Z) :=
  fix go ds buf := match ds with [] => Some buf | d :: ds => buf ← push base mult buf d; go ds buf end.

Lemma pushes_spec base mult ds : 1 < base -> 1 < mult -> forall buf, digits mult ds -> digits base buf ->
  be_from mult (be_val base buf) ds < base ^ Z.of_nat (length buf) ->
  exists buf', pushes base mult ds buf = Some buf' /\ digits base buf' /\ length buf' = length buf /\
    be_val base buf' = be_from mult (be_val base buf) ds.
Proof.
  intros Hb Hm. induction ds as [|d ds IH]; intros buf Hds Hbuf Hfit; [by exists buf|]. cbn [pushes].
  inversion Hds as [|? ? Hd Hds']; subst. pose proof (be_val_range base buf Hb Hbuf) as R. cbn [be_from fold_left] in Hfit.
  fold (be_from mult (be_val base buf * mult + d) ds) in Hfit. pose proof (be_from_acc mult (be_val base buf * mult + d) ds) as E.
  pose proof (be_val_range mult ds Hm Hds') as R'.
  assert (1 <= mult ^ Z.of_nat (length ds)) as Hp by (apply Z.lt_pred_le, Z.pow_pos_nonneg; lia).
  destruct (push_spec base mult buf d Hb ltac:(lia) Hbuf ltac:(lia)) as (buf1 & -> & D1 & L1 & V1); [nia|]. monad.
  assert (be_val base buf1 = be_val base buf * mult + d) as V1' by lia.
  destruct (IH buf1 Hds' D1) as (buf2 & -> & D2 & L2 & V2); [by rewrite V1', L1|].
  exists buf2. split_and!; [done|done|lia|]. rewrite V2, V1'. done.
Qed.

Lemma encode_loop_pushes ds : forall buf, encode_loop ds buf = pushes 58 256 ds buf.
Proof. induction ds as [|d ds IH]; intros buf; [done|]. cbn [encode_loop pushes]. destruct (push 58 256 buf d); [apply IH|done]. Qed.

(** ** Leading zeros *)

Lemma leading_spec c l : let '(n, r) := leading c l in l = replicate n c ++ r /\ match r with x :: _ => x <> c | [] => True end.
Proof.
  induction l as [|x l IH]; cbn [leading]; [done|]. destruct (Z.eqb_spec x c) as [->|Hn]; [|by split].
  destruct (leading c l) as [n r]. destruct IH as [-> H]. by split.
Qed.

Lemma leading_app n c r : match r with x :: _ => x <> c | [] => True end -> leading c (replicate n c ++ r) = (n, r).
Proof.
  intros Hr. induction n as [|n IH]; cbn [replicate app leading]; [|by rewrite Z.eqb_refl, IH].
  destruct r as [|x r]; [done|]. cbn [leading]. by destruct (Z.eqb_spec x c).
Qed.

Lemma be_val_zeros B n : be_val B (replicate n 0) = 0.
Proof. induction n as [|n IH]; [done|]. cbn [replicate]. rewrite be_val_cons, IH. lia. Qed.

Lemma digits_zeros B n : 1 < B -> digits B (replicate n 0).
Proof. intros HB. apply Forall_replicate. lia. Qed.

(** Without leading zeros the digits are determined by the number. *)
Definition stripped (l : list Z) : Prop := match l with x :: _ => x <> 0 | [] => True end.

Lemma stripped_lower B l : 1 < B -> digits B l -> stripped l -> l <> [] -> B ^ (Z.of_nat (length l) - 1) <= be_val B l.
Proof.
  intros HB Hd Hs Hn. destruct l as [|d l]; [done|]. inversion Hd; subst. rewrite be_val_cons. cbn [length stripped] in *.
  pose proof (be_val_range B l HB ltac:(done)). replace (Z.of_nat (S (length l)) - 1) with (Z.of_nat (length l)) by lia.
  assert (0 < B ^ Z.of_nat (length l)) by (apply Z.pow_pos_nonneg; lia). nia.
Qed.

Lemma stripped_length B l1 l2 : 1 < B -> digits B l1 -> digits B l2 -> stripped l1 -> stripped l2 -> be_val B l1 = be_val B l2 ->
  (length l1 <= length l2)%nat.
Proof.
  intros HB H1 H2 S1 S2 Hv. destruct (decide (length l1 <= length l2)%nat) as [|Hn]; [done|]. exfalso.
  assert (l1 <> []) as Hne by (intros ->; simpl in Hn; lia). pose proof (stripped_lower B l1 HB H1 S1 Hne) as Hl.
  pose proof (be_val_range B l2 HB H2) as [_ Hu]. assert (B ^ Z.of_nat (length l2) <= B ^ (Z.of_nat (length l1) - 1)) by (apply Z.pow_le_mono_r; lia). lia.
Qed.

Lemma stripped_inj B l1 l2 : 1 < B -> digits B l1 -> digits B l2 -> stripped l1 -> stripped l2 -> be_val B l1 = be_val B l2 -> l1 = l2.
Proof.
  intros HB H1 H2 S1 S2 Hv. apply (be_val_inj B); try done.
  pose proof (stripped_length B l1 l2 HB H1 H2 S1 S2 Hv). pose proof (stripped_length B l2 l1 HB H2 H1 S2 S1 (eq_sym Hv)). lia.
Qed.

Lemma leading_digits B l n r : leading 0 l = (n, r) -> digits B l -> digits B r /\ stripped r /\ be_val B r = be_val B l /\
  (n + length r = length l)%nat.
Proof.
  intros E Hd. pose proof (leading_spec 0 l) as H. rewrite E in H. destruct H as [-> Hs]. apply Forall_app in Hd as [_ Hr].
  split_and!; [done|by destruct r| |by rewrite length_app, length_replicate]. rewrite be_val_app, be_val_zeros. lia.
Qed.

(** ** The size estimates *)

(** [B1 ^ a <= B2 ^ b] lets [n] digits of [B1] fit in [n * b / a + 1] digits of [B2]. *)
Lemma estimate B1 B2 a b n : 0 < B1 -> 1 < B2 -> 0 < a -> 0 <= b -> B1 ^ a <= B2 ^ b -> 0 <= n -> B1 ^ n <= B2 ^ (n * b / a + 1).
Proof.
  intros H1 H2 Ha Hb Hle Hn. pose proof (Z.div_mod (n * b) a ltac:(lia)) as D. pose proof (Z.mod_pos_bound (n * b) a Ha) as M.
  assert (0 <= n * b / a) as Hq by (apply Z.div_pos; nia). set (m := n * b / a + 1) in *.
  destruct (Z.le_gt_cases (B1 ^ n) (B2 ^ m)) as [|Hgt]; [done|]. exfalso.
  assert ((B2 ^ m) ^ a < (B1 ^ n) ^ a) as Hlt by (apply Z.pow_lt_mono_l; [lia|split; [apply Z.pow_nonneg; lia|done]]).
  rewrite <- !Z.pow_mul_r in Hlt by lia. assert (B1 ^ (n * a) <= B2 ^ (n * b)) as H.
  { rewrite (Z.mul_comm n a), (Z.mul_comm n b), !Z.pow_mul_r by lia. apply Z.pow_le_mono_l. split; [apply Z.pow_nonneg; lia|done]. }
  assert (B2 ^ (n * b) <= B2 ^ (m * a)) by (apply Z.pow_le_mono_r; unfold m; nia). lia.
Qed.

Lemma log_256_58 : 256 ^ 100 <= 58 ^ 138.
Proof. vm_compute. discriminate. Qed.
Lemma log_58_256 : 58 ^ 1000 <= 256 ^ 733.
Proof. vm_compute. discriminate. Qed.

(** ** The alphabet *)

Definition digit_ok (d : Z) : bool :=
  match pszBase58 !! Z.to_nat d with
  | Some c => negb (isspace c) && negb (c =? 0) && Bool.eqb (c =? 49) (d =? 0) &&
      match position c pszBase58 with Some i => (i =? Z.to_nat d)%nat | None => false end
  | None => false
  end.

Lemma alphabet d : 0 <= d < 58 -> exists c, pszBase58 !! Z.to_nat d = Some c /\ isspace c = false /\ c <> 0 /\
  position c pszBase58 = Some (Z.to_nat d) /\ (c = 49 <-> d = 0).
Proof.
  intros Hd. assert (digit_ok d = true) as E by (apply (seqZ_check digit_ok 58); [vm_compute; reflexivity|done]). unfold digit_ok in E.
  destruct (pszBase58 !! Z.to_nat d) as [c|]; [|done]. exists c. rewrite !andb_true_iff in E. destruct E as [[[E1 E2] E3] E4].
  destruct (position c pszBase58) as [i|]; [|done]. apply Nat.eqb_eq in E4 as ->. apply eqb_prop in E3.
  split_and!; [done|by apply negb_true_iff|by apply Z.eqb_neq, negb_true_iff|done|]. rewrite <- (Z.eqb_eq c), E3, Z.eqb_eq. done.
Qed.

Lemma position_lt c l i : position c l = Some i -> (i < length l)%nat.
Proof.
  revert i. induction l as [|x l IH]; intros i; cbn [position]; [done|]. destruct (x =? c); [intros [= <-]; simpl; lia|].
  destruct (position c l) as [j|]; [|done]. intros [= <-]. specialize (IH j eq_refl). simpl. lia.
Qed.

(** Printing digits and reading them back. *)
Lemma print_digits d : digits 58 d -> exists str, mapM (fun d => pszBase58 !! Z.to_nat d) d = Some str /\ length str = length d /\
  Forall (fun c => isspace c = false /\ c <> 0) str /\ (stripped d -> match str with c :: _ => c <> 49 | [] => True end) /\
  forall buf buf', pushes 256 58 d buf = Some buf' -> decode_loop str buf = Some (inr ([], buf')).
Proof.
  induction 1 as [|x d Hx Hd IH].
  { exists []. split_and!; try done. intros buf buf' [= <-]. done. }
  destruct IH as (str & Hm & Hlen & Hsp & _ & Hdec). destruct (alphabet x Hx) as (c & H1 & H2 & H3 & H4 & H5).
  exists (c :: str). cbn [mapM]. rewrite H1. monad. rewrite Hm. monad. split_and!; [done|simpl; lia|by constructor| |].
  - simpl. rewrite H5. done.
  - intros buf buf' H. cbn [pushes] in H. apply bind_Some in H as (b1 & Hp & H). cbn [decode_loop]. rewrite H2, H4.
    rewrite Z2Nat.id by lia. rewrite Hp. monad. by apply Hdec.
Qed.

(** Whatever the text, no assertion fails. *)
Lemma decode_loop_total psz : forall buf, digits 256 buf ->
  (be_val 256 buf + 1) * 58 ^ Z.of_nat (length psz) <= 256 ^ Z.of_nat (length buf) ->
  exists r, decode_loop psz buf = Some r.
Proof.
  induction psz as [|c psz IH]; intros buf Hd Hfit; cbn [decode_loop]; [eauto|]. destruct (isspace c); [eauto|].
  destruct (position c pszBase58) as [i|] eqn:Hi; [|eauto]. apply position_lt in Hi. change (length pszBase58) with 58%nat in Hi.
  cbn [length] in Hfit. rewrite Nat2Z.inj_succ, Z.pow_succ_r in Hfit by lia. pose proof (be_val_range 256 buf ltac:(lia) Hd) as R.
  assert (1 <= 58 ^ Z.of_nat (length psz)) as Hp by (apply Z.lt_pred_le, Z.pow_pos_nonneg; lia).
  destruct (push_spec 256 58 buf (Z.of_nat i)) as (buf' & -> & D & L & V); [lia|lia|done|lia|nia|]. monad.
  apply IH; [done|]. rewrite L, V. nia.
Qed.

Lemma zeros_small n c : Z.of_nat n < 2 ^ 31 -> zeros n c = Some (replicate n c).
Proof.
  intros Hn. unfold zeros. rewrite s32_id by (unfold is_s32; lia). destruct (Z.ltb_spec (Z.of_nat n) 0); [lia|]. by rewrite Nat2Z.id.
Qed.

Lemma decode_size n : Z.of_nat n < 2 ^ 31 -> u64 (u64 (Z.of_nat n * 733) / 1000 + 1) = Z.of_nat n * 733 / 1000 + 1.
Proof.
  intros Hn. assert (0 <= Z.of_nat n * 733 / 1000 < 2 ^ 41) by (split; [apply Z.div_pos; lia|apply Z.div_lt_upper_bound; lia]).
  rewrite (u64_id (Z.of_nat n * 733)) by (unfold is_u64; lia). apply u64_id. unfold is_u64. lia.
Qed.

Lemma encode_size n : Z.of_nat n < 2 ^ 31 -> s64 (Z.quot (s64 (Z.of_nat n * 138)) 100 + 1) = Z.of_nat n * 138 / 100 + 1.
Proof.
  intros Hn. assert (0 <= Z.of_nat n * 138 / 100 < 2 ^ 40) by (split; [apply Z.div_pos; lia|apply Z.div_lt_upper_bound; lia]).
  rewrite (s64_id (Z.of_nat n * 138)) by (unfold is_s64; lia). rewrite Z.quot_div_nonneg by lia. apply s64_id. unfold is_s64. lia.
Qed.

Lemma skip_spaces_length s : (length (skip_spaces s) <= length s)%nat.
Proof. induction s as [|c s IH]; simpl; [lia|]. destruct (isspace c); simpl; lia. Qed.

Lemma DecodeBase58_total psz : Z.of_nat (length psz) < 2 ^ 31 -> is_Some (DecodeBase58 psz).
Proof.
  intros Hlen. unfold DecodeBase58. pose proof (skip_spaces_length psz) as Hs. pose proof (leading_spec 49 (skip_spaces psz)) as Hl.
  destruct (leading 49 (skip_spaces psz)) as [z r]. destruct Hl as [E _]. pose proof (f_equal length E) as El.
  rewrite length_app, length_replicate in El. rewrite decode_size by lia.
  pose proof (estimate 58 256 1000 733 (Z.of_nat (length r)) ltac:(lia) ltac:(lia) ltac:(lia) ltac:(lia) log_58_256 ltac:(lia)) as Hest.
  assert (0 <= Z.of_nat (length r) * 733 / 1000) by (apply Z.div_pos; lia).
  destruct (decode_loop_total r (replicate (Z.to_nat (Z.of_nat (length r) * 733 / 1000 + 1)) 0)) as (res & ->).
  { by apply digits_zeros. }
  { rewrite be_val_zeros, length_replicate, Z2Nat.id by lia. lia. }
  monad. destruct res as [|[rest buf]]; [eauto|]. destruct (skip_spaces rest); [|eauto]. rewrite zeros_small by lia. monad. eauto.
Qed.

Lemma no_spaces s : Forall (fun c => isspace c = false /\ c <> 0) s -> skip_spaces s = s /\ c_str s = s.
Proof.
  intros H. split; [destruct H as [|c s [Hc _] _]; [done|simpl; by rewrite Hc]|].
  induction H as [|c s [_ Hc] _ IH]; [done|]. simpl. destruct (Z.eqb_spec c 0); [done|]. by rewrite IH.
Qed.

(** The text is that of the number, after a [1] for each leading zero byte. *)
Lemma EncodeBase58_digits v z bytes : is_bytes v -> Z.of_nat (length v) < 2 ^ 30 -> leading 0 v = (z, bytes) ->
  exists d str, EncodeBase58 v = Some (replicate z 49 ++ str) /\ mapM (fun d => pszBase58 !! Z.to_nat d) d = Some str /\
    digits 58 d /\ stripped d /\ be_val 58 d = be_val 256 bytes /\ Z.of_nat (length d) < 2 ^ 31.
Proof.
  intros Hv Hlen Ev. unfold EncodeBase58. rewrite Ev. destruct (leading_digits 256 v z bytes Ev Hv) as (Db & Sb & _ & Lb).
  rewrite encode_size by lia. set (n := Z.of_nat (length bytes) * 138 / 100 + 1).
  assert (0 <= n < 2 ^ 31) as Hn by (unfold n; split; [pose proof (Z.div_pos (Z.of_nat (length bytes) * 138) 100); lia|];
    assert (Z.of_nat (length bytes) * 138 / 100 < 2 ^ 31 - 1) by (apply Z.div_lt_upper_bound; lia); lia).
  pose proof (estimate 256 58 100 138 (Z.of_nat (length bytes)) ltac:(lia) ltac:(lia) ltac:(lia) ltac:(lia) log_256_58 ltac:(lia)) as Hest.
  pose proof (be_val_range 256 bytes ltac:(lia) Db) as Rb.
  destruct (pushes_spec 58 256 bytes ltac:(lia) ltac:(lia) (replicate (Z.to_nat n) 0) Db) as (b58 & Hp & D58 & L58 & V58).
  { by apply digits_zeros. }
  { rewrite be_val_zeros, length_replicate, Z2Nat.id by lia. fold (be_val 256 bytes). fold n in Hest. lia. }
  rewrite encode_loop_pushes, Hp. monad. rewrite zeros_small by lia. monad. rewrite be_val_zeros in V58. fold (be_val 256 bytes) in V58.
  destruct (leading 0 b58) as [k d] eqn:Ed. destruct (leading_digits 58 b58 k d Ed D58) as (Dd & Sd & Vd & Ld). cbn [snd].
  rewrite length_replicate in L58. destruct (print_digits d Dd) as (str & Hm & _). rewrite Hm. monad.
  exists d, str. split_and!; [done|done|done|done|lia|lia].
Qed.

(** The digits, after ones, are read back as the number, after zeros. *)
Lemma DecodeBase58_digits z d str bytes : digits 58 d -> stripped d -> mapM (fun d => pszBase58 !! Z.to_nat d) d = Some str ->
  digits 256 bytes -> stripped bytes -> be_val 58 d = be_val 256 bytes -> Z.of_nat (length d) < 2 ^ 31 -> Z.of_nat z < 2 ^ 31 ->
  DecodeBase58 (replicate z 49 ++ str) = Some (Some (replicate z 0 ++ bytes)) /\ c_str (replicate z 49 ++ str) = replicate z 49 ++ str.
Proof.
  intros Dd Sd Hm Db Sb Hv Hlen Hz. destruct (print_digits d Dd) as (str' & Hm' & Hstr & Hsp & Hone & Hdec). rewrite Hm in Hm'. injection Hm' as <-.
  assert (Forall (fun c => isspace c = false /\ c <> 0) (replicate z 49 ++ str)) as Hall by (apply Forall_app; split; [by apply Forall_replicate|done]).
  destruct (no_spaces _ Hall) as [Hskip Hc]. split; [|done].
  unfold DecodeBase58. rewrite Hskip, leading_app by (by apply Hone). rewrite Hstr, decode_size by lia.
  pose proof (estimate 58 256 1000 733 (Z.of_nat (length d)) ltac:(lia) ltac:(lia) ltac:(lia) ltac:(lia) log_58_256 ltac:(lia)) as Hest2.
  assert (0 <= Z.of_nat (length d) * 733 / 1000) by (apply Z.div_pos; lia). pose proof (be_val_range 58 d ltac:(lia) Dd) as Rd.
  destruct (pushes_spec 256 58 d ltac:(lia) ltac:(lia) (replicate (Z.to_nat (Z.of_nat (length d) * 733 / 1000 + 1)) 0) Dd) as (b256 & Hp2 & D256 & L256 & V256).
  { by apply digits_zeros. }
  { rewrite be_val_zeros, length_replicate, Z2Nat.id by lia. fold (be_val 58 d). lia. }
  rewrite (Hdec _ _ Hp2). monad. cbn [skip_spaces]. rewrite zeros_small by lia. monad. rewrite be_val_zeros in V256. fold (be_val 58 d) in V256.
  destruct (leading 0 b256) as [j e] eqn:Ee. destruct (leading_digits 256 b256 j e Ee D256) as (De & Se & Ve & _). cbn [snd].
  by rewrite (stripped_inj 256 e bytes ltac:(lia) De Db Se Sb) by lia.
Qed.

Lemma base58_codec v : is_bytes v -> Z.of_nat (length v) < 2 ^ 30 -> exists str, EncodeBase58 v = Some str /\
  DecodeBase58 str = Some (Some v) /\ c_str str = str.
Proof.
  intros Hv Hlen. destruct (leading 0 v) as [z bytes] eqn:Ev. destruct (leading_digits 256 v z bytes Ev Hv) as (Db & Sb & _ & Lb).
  pose proof (leading_spec 0 v) as Hlead. rewrite Ev in Hlead. destruct Hlead as [Hsplit _].
  destruct (EncodeBase58_digits v z bytes Hv Hlen Ev) as (d & str & He & Hm & Dd & Sd & Vd & Ld). exists (replicate z 49 ++ str).
  rewrite Hsplit at 2. split; [done|]. apply (DecodeBase58_digits z d str bytes); try done. lia.
Qed.

(** ** What the first bytes fix of the text *)

(** A number between [lead * 58 ^ k] and [(lead + 1) * 58 ^ k] starts with the digits of [lead]. *)
Lemma leading_digits_fixed lead d k : digits 58 lead -> stripped lead -> lead <> [] -> digits 58 d -> stripped d ->
  be_val 58 lead * 58 ^ Z.of_nat k <= be_val 58 d < (be_val 58 lead + 1) * 58 ^ Z.of_nat k ->
  exists rest, d = lead ++ rest /\ length rest = k.
Proof.
  intros Hl Sl Nl Hd Sd Hv. pose proof (be_val_range 58 lead ltac:(lia) Hl) as Rl. pose proof (stripped_lower 58 lead ltac:(lia) Hl Sl Nl) as Ll.
  assert (0 < 58 ^ Z.of_nat k) as Pk by (apply Z.pow_pos_nonneg; lia). assert (1 <= Z.of_nat (length lead)) as L1 by (destruct lead; [done|simpl; lia]).
  assert (0 < 58 ^ (Z.of_nat (length lead) - 1)) as Pl by (apply Z.pow_pos_nonneg; lia).
  assert (d <> []) as Nd by (intros ->; unfold be_val at 2 in Hv; cbn in Hv; nia).
  pose proof (be_val_range 58 d ltac:(lia) Hd) as Rd. pose proof (stripped_lower 58 d ltac:(lia) Hd Sd Nd) as Ld.
  assert (length d = length lead + k)%nat as Hlen.
  { assert (Z.of_nat (length lead) - 1 + Z.of_nat k < Z.of_nat (length d)) by (apply (Z.pow_lt_mono_r_iff 58); [lia..|rewrite Z.pow_add_r by lia; nia]).
    assert (Z.of_nat (length d) - 1 < Z.of_nat (length lead) + Z.of_nat k) by (apply (Z.pow_lt_mono_r_iff 58); [lia..|rewrite Z.pow_add_r by lia; nia]). lia. }
  rewrite <- (take_drop (length lead) d) in Hv, Hd |- *. apply Forall_app in Hd as [Dt Dr].
  assert (length (drop (length lead) d) = k) as Hk by (rewrite length_drop; lia). rewrite be_val_app, Hk in Hv.
  pose proof (be_val_range 58 (drop (length lead) d) ltac:(lia) Dr) as Rr. rewrite Hk in Rr.
  exists (drop (length lead) d). split; [|done]. f_equal. apply (be_val_inj 58); [lia|done|done|rewrite length_take; lia|nia].
Qed.

(** Base 58 of [pre ++ tail], for [n] bytes of tail, starts with [lead] and has [k] more characters. *)
Definition fixes (pre : list Z) (n : nat) (lead : list Z) (k : nat) : bool :=
  match pre with b :: _ => negb (b =? 0) | [] => false end && forallb (fun b => (0 <=? b) && (b <? 256)) pre &&
  match lead with d :: _ => negb (d =? 0) | [] => false end && forallb (fun d => (0 <=? d) && (d <? 58)) lead &&
  (be_val 58 lead * 58 ^ Z.of_nat k <=? be_val 256 pre * 256 ^ Z.of_nat n) &&
  ((be_val 256 pre + 1) * 256 ^ Z.of_nat n <=? (be_val 58 lead + 1) * 58 ^ Z.of_nat k).

Lemma forallb_digits B l : forallb (fun b => (0 <=? b) && (b <? B)) l = true -> digits B l.
Proof.
  rewrite forallb_forall. intros H. apply List.Forall_forall. intros x Hx. specialize (H x Hx). apply andb_true_iff in H. lia.
Qed.

Lemma EncodeBase58_lead pre n lead k tail : fixes pre n lead k = true -> is_bytes tail -> length tail = n ->
  Z.of_nat (length (pre ++ tail)) < 2 ^ 30 ->
  exists s0 str, mapM (fun d => pszBase58 !! Z.to_nat d) lead = Some s0 /\ EncodeBase58 (pre ++ tail) = Some (s0 ++ str) /\ length str = k.
Proof.
  intros Hf Ht Hn Hlen. unfold fixes in Hf. rewrite !andb_true_iff in Hf. destruct Hf as [[[[[F1 F2] F3] F4] F5] F6].
  apply forallb_digits in F2, F4. destruct pre as [|b pre0]; [done|]. set (pre := b :: pre0) in *.
  assert (is_bytes (pre ++ tail)) as Hb by (apply Forall_app; by split).
  assert (leading 0 (pre ++ tail) = (O, pre ++ tail)) as Hl by (unfold pre; cbn [app leading]; apply negb_true_iff in F1; by rewrite F1).
  destruct (EncodeBase58_digits _ _ _ Hb Hlen Hl) as (d & str & He & Hm & Dd & Sd & Vd & _).
  rewrite be_val_app, Hn in Vd. pose proof (be_val_range 256 tail ltac:(lia) Ht) as Rt. rewrite Hn in Rt.
  destruct (leading_digits_fixed lead d k F4) as (rest & -> & Hk); try done.
  { destruct lead; [done|]. cbn [stripped]. apply negb_true_iff in F3. lia. }
  { by destruct lead. }
  { lia. }
  apply mapM_Some, Forall2_app_inv_l in Hm as (s0 & s1 & Hm0 & Hm1 & ->).
  exists s0, s1. split_and!; [by apply mapM_Some|done|]. apply Forall2_length in Hm1. lia.
Qed.

(** ** Texts that are not base 58 of a given length *)

Lemma mul_add_length base mult rbuf : forall carry, length (fst (mul_add base mult rbuf carry)) = length rbuf.
Proof.
  induction rbuf as [|d rbuf IH]; intros carry; [done|]. cbn [mul_add].
  specialize (IH ((carry + mult * d) / base)). destruct (mul_add base mult rbuf _) as [r c]. simpl in *. by rewrite IH.
Qed.

Lemma push_length base mult buf d buf' : push base mult buf d = Some buf' -> length buf' = length buf.
Proof.
  unfold push. pose proof (mul_add_length base mult (rev buf) d) as H. destruct (mul_add base mult (rev buf) d) as [r c].
  destruct (c =? 0); [|done]. intros [= <-]. simpl in H. by rewrite length_rev, H, length_rev.
Qed.

Lemma decode_loop_length psz : forall buf rest buf', decode_loop psz buf = Some (inr (rest, buf')) -> length buf' = length buf.
Proof.
  induction psz as [|c psz IH]; intros buf rest buf' H; cbn [decode_loop] in H; [by simplify_eq|].
  destruct (isspace c); [by simplify_eq|]. destruct (position c pszBase58) as [i|]; [|done].
  apply bind_Some in H as (b1 & Hp & H). rewrite (IH _ _ _ H). by apply push_length in Hp.
Qed.

(** Without a leading [1] the result has at most the estimated size. *)
Lemma DecodeBase58_short c psz v : isspace c = false -> c <> 49 -> Z.of_nat (length (c :: psz)) < 2 ^ 31 ->
  DecodeBase58 (c :: psz) = Some (Some v) -> Z.of_nat (length v) <= Z.of_nat (length (c :: psz)) * 733 / 1000 + 1.
Proof.
  intros Hs H49 Hlen. unfold DecodeBase58. cbn [skip_spaces]. rewrite Hs. cbn [leading]. destruct (Z.eqb_spec c 49); [done|].
  rewrite decode_size by done. assert (0 <= Z.of_nat (length (c :: psz)) * 733 / 1000) by (apply Z.div_pos; lia).
  destruct (decode_loop _ _) as [[|[rest b256]]|] eqn:E; [done| |done]. monad. destruct (skip_spaces rest); [|done].
  apply decode_loop_length in E. rewrite length_replicate in E. cbn [zeros]. change (zeros 0 0) with (Some (@nil Z)). monad. intros [= <-].
  pose proof (leading_spec 0 b256) as L. destruct (leading 0 b256) as [k r]. destruct L as [-> _]. cbn [snd app].
  rewrite length_app in E. lia.
Qed.

Lemma decode_loop_foreign x psz : In x psz -> position x pszBase58 = None -> Forall (fun c => isspace c = false) psz ->
  forall buf r, decode_loop psz buf = Some r -> r = inl ().
Proof.
  intros Hin Hx Hsp. induction Hsp as [|c psz Hc _ IH]; [done|]. intros buf r. cbn [decode_loop]. rewrite Hc.
  destruct (position c pszBase58) as [i|] eqn:Hi; [|by intros [= <-]]. destruct Hin as [->|Hin]; [congruence|].
  intros (b1 & _ & H)%bind_Some. by apply (IH Hin b1).
Qed.

(** A character outside the alphabet makes the decoder return [false]. *)
Lemma DecodeBase58_foreign x psz : In x psz -> position x pszBase58 = None -> Forall (fun c => isspace c = false) psz ->
  Z.of_nat (length psz) < 2 ^ 31 -> DecodeBase58 psz = Some None.
Proof.
  intros Hin Hx Hsp Hlen. destruct (DecodeBase58_total psz Hlen) as [r Hr]. rewrite Hr. revert Hr. unfold DecodeBase58.
  assert (skip_spaces psz = psz) as -> by (destruct Hsp as [|c l Hc]; [done|]; simpl; by rewrite Hc).
  pose proof (leading_spec 49 psz) as L. destruct (leading 49 psz) as [n rest]. destruct L as [-> _].
  intros (res & Hd & H)%bind_Some. apply in_app_or in Hin as [Hin|Hin].
  { apply list_elem_of_In, elem_of_replicate in Hin as [-> _]. done. }
  apply Forall_app in Hsp as [_ Hsp]. rewrite (decode_loop_foreign x rest Hin Hx Hsp _ _ Hd) in H. congruence.
Qed.

(** ** The checksum *)

Lemma DecodeBase58Check_spec Hash psz raw : DecodeBase58 psz = Some (Some raw) ->
  DecodeBase58Check Hash psz = Some (if bool_decide (4 <= length raw /\ take 4 (Hash (take (length raw - 4) raw)) = drop (length raw - 4) raw)%nat
                                     then Some (take (length raw - 4) raw) else None).
Proof.
  intros H. unfold DecodeBase58Check. rewrite H. monad. destruct (Z.ltb_spec (Z.of_nat (length raw)) 4).
  - rewrite bool_decide_eq_false_2; [done|lia].
  - apply f_equal, (f_equal (fun b : bool => if b then Some (take (length raw - 4) raw) else None)), bool_decide_ext. split; [by split; [lia|]|by intros [_ ?]].
Qed.

Lemma base58check_codec Hash v : (forall m, is_bytes m -> is_bytes (Hash m) /\ (4 <= length (Hash m))%nat) ->
  is_bytes v -> Z.of_nat (length v) < 2 ^ 29 ->
  exists str, EncodeBase58Check Hash v = Some str /\ DecodeBase58Check Hash str = Some (Some v) /\ c_str str = str.
Proof.
  intros HH Hv Hlen. destruct (HH v Hv) as [Hb Hl]. unfold EncodeBase58Check. set (raw := v ++ take 4 (Hash v)).
  assert (length raw = length v + 4)%nat as El by (unfold raw; rewrite length_app, length_take; lia).
  destruct (base58_codec raw) as (str & He & Hd & Hc).
  { apply Forall_app. split; [done|by apply Forall_take]. }
  { rewrite El. lia. }
  exists str. split_and!; [done| |done]. rewrite (DecodeBase58Check_spec _ _ _ Hd), El.
  replace (length v + 4 - 4)%nat with (length v) by lia. unfold raw. rewrite take_app_length, drop_app_length.
  rewrite bool_decide_eq_true_2 by (split; [lia|done]). done.
Qed.

(** C29: [EncodeBase58Check] produces, for every byte vector, a text that
    [DecodeBase58Check] reads back as that vector (through the [std::string]
    overload too): the buffers estimated from the logarithms are large enough and no
    assertion fails; whatever text is given to the decoder, it returns, and what
    it accepts is a payload followed by the four bytes of its hash.  Vectors are
    shorter than 2^29 bytes and texts shorter than 2^31, and the hash function returns
    at least four bytes. *)
Theorem base58check_roundtrip Hash v psz :
  (forall m, is_bytes m -> is_bytes (Hash m) /\ (4 <= length (Hash m))%nat) ->
  is_bytes v -> Z.of_nat (length v) < 2 ^ 29 -> Z.of_nat (length psz) < 2 ^ 31 ->
  (exists str, EncodeBase58Check Hash v = Some str /\ DecodeBase58Check Hash str = Some (Some v) /\
    DecodeBase58Check_string Hash str = Some (Some v)) /\
  exists r, DecodeBase58Check Hash psz = Some r /\
    forall data, r = Some data -> DecodeBase58 psz = Some (Some (data ++ take 4 (Hash data))).
Proof.
  intros HH Hv Hlen Hpsz. split.
  - destruct (base58check_codec Hash v HH Hv Hlen) as (str & He & Hd & Hc). exists str. unfold DecodeBase58Check_string. by rewrite Hc.
  - destruct (DecodeBase58_total psz Hpsz) as [[raw|] Hd].
    + rewrite (DecodeBase58Check_spec _ _ _ Hd). eexists. split; [done|]. intros data. case_bool_decide as Hok; [|done].
      intros [= <-]. destruct Hok as [_ ->]. by rewrite take_drop.
    + exists None. unfold DecodeBase58Check. rewrite Hd. by monad.
Qed.

Lemma base58check_roundtrip_witness : exists r, DecodeBase58Check (fun _ => [1; 2; 3; 4]) (chars "1Q") = Some r.
Proof.
  destruct (base58check_roundtrip (fun _ => [1; 2; 3; 4]) [0; 255] (chars "1Q")) as [_ (r & H & _)];
    [intros m _; split; [repeat (constructor; [unfold is_u8; lia|]); constructor|simpl; lia]|repeat (constructor; [unfold is_u8; lia|]); constructor|by vm_compute|by vm_compute|by exists r].
Defined.


End Base58.
