(* ===== verification/Bech32.v ===== *)
(** * Bech32 (src/bech32.cpp)

    The checksum over five-bit values, the encoder and the decoder.  [None] is an
    access outside a table; the pair of empty strings is the failure the code
    returns as [{}].  The theorems show that decoding and encoding invert each
    other and which transmission errors the checksum detects. *)

From stdpp Require Import base list list_numbers numbers option strings.
From Stdlib Require Import ZArith Lia.
From S2P Require Import Prelude Bytes StrEncodings.
Import StrEncodings.
#[local] Open Scope Z_scope.

Module Bech32.

Definition CHARSET : list Z := chars "qpzry9x8gf2tvdw0s3jn54khce6mua7l".

Definition CHARSET_REV : list Z :=
  replicate 48 (-1) ++
  [15; -1; 10; 17; 21; 20; 26; 30; 7; 5; -1; -1; -1; -1; -1; -1;
   -1; 29; -1; 24; 13; 25; 9; 8; 23; -1; 18; 22; 31; 27; 19; -1;
   1; 0; 3; 16; 11; 28; 12; 14; 6; 4; 2; -1; -1; -1; -1; -1;
   -1; 29; -1; 24; 13; 25; 9; 8; 23; -1; 18; 22; 31; 27; 19; -1;
   1; 0; 3; 16; 11; 28; 12; 14; 6; 4; 2; -1; -1; -1; -1; -1].

Definition Cat (x y : list Z) : list Z := x ++ y.

(** [if (c0 & bit) c ^= k] *)
Definition add_if (c0 bit k c : Z) : Z := if negb (Z.land c0 bit =? 0) then Z.lxor c k else c.

(** The body of the loop of [PolyMod] *)
Definition PolyMod_step (c v_i : Z) : Z :=
  let c0 := u8 (Z.shiftr c 25) in
  let c := Z.lxor (u32 (Z.shiftl (Z.land c 0x1ffffff) 5)) v_i in
  let c := add_if c0 1 0x3b6a57b2 c in
  let c := add_if c0 2 0x26508e6d c in
  let c := add_if c0 4 0x1ea119fa c in
  let c := add_if c0 8 0x3d4233dd c in
  add_if c0 16 0x2a1462b3 c.

Definition PolyMod_from (c : Z) (v : list Z) : Z := fold_left PolyMod_step v c.
Definition PolyMod (v : list Z) : Z := PolyMod_from 1 v.

Definition LowerCase (c : Z) : Z := if (65 <=? c) && (c <=? 90) then c - 65 + 97 else c.

Definition ExpandHRP (hrp : list Z) : list Z :=
  ((fun c => Z.shiftr c 5) <$> hrp) ++ [0] ++ ((fun c => Z.land c 0x1f) <$> hrp).

Definition VerifyChecksum (hrp values : list Z) : bool := PolyMod (Cat (ExpandHRP hrp) values) =? 1.

Definition CreateChecksum (hrp values : list Z) : list Z :=
  let enc := Cat (ExpandHRP hrp) values in
  let enc := enc ++ replicate 6 0 in
  let mod_ := Z.lxor (PolyMod enc) 1 in
  (fun i => Z.land (Z.shiftr mod_ (5 * (5 - i))) 31) <$> seqZ 0 6.

(** The characters of the values, or [Some None] where [""] is returned *)
Fixpoint print_values (combined : list Z) : option (option (list Z)) :=
  match combined with
  | [] => Some (Some [])
  | c :: combined =>
      if c >=? 32 then Some None
      else x ← CHARSET !! Z.to_nat c; rest ← print_values combined; Some (option_map (cons x) rest)
  end.

Definition Encode (hrp values : list Z) : option (list Z) :=
  let checksum := CreateChecksum hrp values in
  let combined := Cat values checksum in
  r ← print_values combined;
  Some (match r with None => [] | Some s => hrp ++ [49] ++ s end).

(** The first loop of [Decode]: [None] is [return {}]. *)
Fixpoint scan (str : list Z) (lower upper : bool) : option (bool * bool) :=
  match str with
  | [] => Some (lower, upper)
  | c :: str =>
      if (c <? 33) || (c >? 126) then None
      else
        let lower := if (97 <=? c) && (c <=? 122) then true else lower in
        let upper := if (65 <=? c) && (c <=? 90) then true else upper in
        scan str lower upper
  end.

(** [str.rfind(c)] *)
Fixpoint rfind (c : Z) (str : list Z) : option nat :=
  match str with
  | [] => None
  | x :: str => match rfind c str with
                | Some p => Some (S p)
                | None => if x =? c then Some O else None
                end
  end.

Fixpoint read_values (s : list Z) : option (option (list Z)) :=
  match s with
  | [] => Some (Some [])
  | c :: s =>
      rev ← (if (c <? 33) || (c >? 126) then Some (-1) else CHARSET_REV !! Z.to_nat c);
      if rev =? -1 then Some None
      else rest ← read_values s; Some (option_map (cons rev) rest)
  end.

Definition Decode (str : list Z) : option (list Z * list Z) :=
  match scan str false false with
  | None => Some ([], [])
  | Some (lower, upper) =>
      if lower && upper then Some ([], [])
      else match rfind 49 str with
           | None => Some ([], [])
           | Some pos =>
               if (Z.of_nat (length str) >? 1023) || (pos =? 0)%nat || (length str <? pos + 7)%nat then Some ([], [])
               else
                 r ← read_values (drop (S pos) str);
                 match r with
                 | None => Some ([], [])
                 | Some values =>
                     let hrp := LowerCase <$> take pos str in
                     if negb (VerifyChecksum hrp values) then Some ([], [])
                     else Some (hrp, take (length values - 6) values)
                 end
           end
  end.

(** BIP 173: the test vector [A12UEL5L], and a text with a payload. *)
Example bech32_vectors :
  Decode (chars "A12UEL5L") = Some (chars "a", []) /\ Encode (chars "a") [] = Some (chars "a12uel5l") /\
  Encode (chars "abcdef") (seqZ 0 32) = Some (chars "abcdef1qpzry9x8gf2tvdw0s3jn54khce6mua7lmqqqxw") /\
  Decode (chars "abcdef1qpzry9x8gf2tvdw0s3jn54khce6mua7lmqqqxw") = Some (chars "abcdef", seqZ 0 32) /\
  Decode (chars "abcdef1qpzry9x8gf2tvdw0s3jn54khce6mua7lmqqqxx") = Some ([], []).
Proof. vm_compute. split_and!; reflexivity. Qed.

(** ** The checksum is linear

    A step multiplies by [x] modulo the generator and adds the value: with five-bit
    groups it is linear over exclusive or. *)

Definition gen (c0 : Z) : Z :=
  add_if c0 16 0x2a1462b3 (add_if c0 8 0x3d4233dd (add_if c0 4 0x1ea119fa (add_if c0 2 0x26508e6d (add_if c0 1 0x3b6a57b2 0)))).

Definition is_c (c : Z) : Prop := 0 <= c < 2 ^ 30.
Definition is_5bit (v : Z) : Prop := 0 <= v < 32.

Lemma add_if_acc c0 bit k c : add_if c0 bit k c = Z.lxor c (add_if c0 bit k 0).
Proof. unfold add_if. destruct (negb _); [by rewrite Z.lxor_0_l|by rewrite Z.lxor_0_r]. Qed.

Lemma lxor_range n a b : 0 <= n -> 0 <= a < 2 ^ n -> 0 <= b < 2 ^ n -> 0 <= Z.lxor a b < 2 ^ n.
Proof.
  intros Hn Ha Hb. assert (0 <= Z.lxor a b) as H0 by (apply Z.lxor_nonneg; lia). split; [done|].
  destruct (decide (Z.lxor a b = 0)) as [->|Hne]; [by apply Z.pow_pos_nonneg|]. apply Z.log2_lt_pow2; [lia|].
  pose proof (Z.log2_lxor a b ltac:(lia) ltac:(lia)) as Hl.
  destruct (decide (0 < n)) as [Hn0|]; [|replace n with 0 in * by lia; change (2 ^ 0) with 1 in *; replace a with 0 in * by lia; replace b with 0 in * by lia; done].
  assert (forall z, 0 <= z < 2 ^ n -> Z.log2 z < n) as Hlog.
  { intros z Hz. destruct (decide (z = 0)) as [->|]; [simpl; lia|]. apply Z.log2_lt_pow2; lia. }
  pose proof (Hlog a Ha). pose proof (Hlog b Hb). lia.
Qed.

Lemma land_lxor a b c : Z.land (Z.lxor a b) c = Z.lxor (Z.land a c) (Z.land b c).
Proof.
  apply Z.bits_inj'. intros i _. rewrite Z.lxor_spec, !Z.land_spec, Z.lxor_spec.
  by destruct (Z.testbit a i), (Z.testbit b i), (Z.testbit c i).
Qed.

Definition gen_ok (a : Z) : bool :=
  (0 <=? gen a) && (gen a <? 2 ^ 30) && ((a =? 0) || negb (Z.land (gen a) 31 =? 0)) &&
  forallb (fun b => gen (Z.lxor a b) =? Z.lxor (gen a) (gen b)) (seqZ 0 32).

Lemma gen_spec a : 0 <= a < 32 -> is_c (gen a) /\ (a <> 0 -> Z.land (gen a) 31 <> 0) /\
  forall b, 0 <= b < 32 -> gen (Z.lxor a b) = Z.lxor (gen a) (gen b).
Proof.
  intros Ha. assert (gen_ok a = true) as E by (apply (seqZ_check gen_ok 32); [vm_compute; reflexivity|done]).
  unfold gen_ok in E. rewrite !andb_true_iff in E. destruct E as [[[E1 E2] E3] E4]. unfold is_c. split_and!; [lia|lia| |].
  - intros Hn. apply orb_true_iff in E3 as [E3|E3]; [lia|]. by apply Z.eqb_neq, negb_true_iff.
  - intros b Hb. apply Z.eqb_eq. by apply (seqZ_check (fun b => gen (Z.lxor a b) =? Z.lxor (gen a) (gen b)) 32).
Qed.

Lemma top_range c : is_c c -> 0 <= Z.shiftr c 25 < 32.
Proof. intros Hc. unfold is_c in Hc. rewrite Z.shiftr_div_pow2 by lia. split; [apply Z.div_pos; lia|apply Z.div_lt_upper_bound; lia]. Qed.

Lemma low_range c : 0 <= Z.land c 0x1ffffff < 2 ^ 25.
Proof. change 0x1ffffff with (Z.ones 25). rewrite Z.land_ones by lia. apply Z.mod_pos_bound. lia. Qed.

Lemma step_eq c v : is_c c ->
  PolyMod_step c v = Z.lxor (Z.lxor (Z.shiftl (Z.land c 0x1ffffff) 5) v) (gen (Z.shiftr c 25)).
Proof.
  intros Hc. pose proof (top_range c Hc) as Ht. pose proof (low_range c) as Hl. unfold PolyMod_step, gen.
  rewrite u8_id by (unfold is_u8; lia). rewrite u32_id by (unfold is_u32; rewrite Z.shiftl_mul_pow2 by lia; lia).
  set (c1 := Z.lxor (Z.shiftl (Z.land c 33554431) 5) v). set (t := Z.shiftr c 25).
  rewrite !(add_if_acc t _ _ (add_if _ _ _ _)), (add_if_acc t 1 _ c1). by rewrite <- !Z.lxor_assoc.
Qed.

Lemma step_range c v : is_c c -> is_5bit v -> is_c (PolyMod_step c v).
Proof.
  intros Hc Hv. rewrite step_eq by done. pose proof (low_range c) as Hl. unfold is_5bit in Hv.
  apply lxor_range; [lia| |by apply gen_spec, top_range]. apply lxor_range; [lia| |lia]. rewrite Z.shiftl_mul_pow2 by lia. lia.
Qed.

Lemma step_linear c d v w : is_c c -> is_c d -> PolyMod_step (Z.lxor c d) (Z.lxor v w) = Z.lxor (PolyMod_step c v) (PolyMod_step d w).
Proof.
  intros Hc Hd. assert (is_c (Z.lxor c d)) as Hcd by (by apply lxor_range). rewrite !step_eq by done.
  rewrite Z.shiftr_lxor. destruct (gen_spec _ (top_range c Hc)) as (_ & _ & Hlin). rewrite Hlin by (by apply top_range).
  rewrite land_lxor, Z.shiftl_lxor.
  set (a := Z.shiftl (Z.land c _) 5). set (b := Z.shiftl (Z.land d _) 5). set (g := gen _). set (h := gen _).
  apply Z.bits_inj'. intros i _. rewrite !Z.lxor_spec. by destruct (Z.testbit a i), (Z.testbit b i), (Z.testbit v i), (Z.testbit w i), (Z.testbit g i), (Z.testbit h i).
Qed.

Lemma land_small c : 0 <= c < 2 ^ 25 -> Z.land c 0x1ffffff = c.
Proof. intros Hc. change 0x1ffffff with (Z.ones 25). rewrite Z.land_ones by lia. by apply Z.mod_small. Qed.

(** Below the top group nothing is reduced. *)
Lemma step_small c v : 0 <= c < 2 ^ 25 -> is_5bit v -> PolyMod_step c v = c * 32 + v.
Proof.
  intros Hc Hv. rewrite step_eq by (unfold is_c; lia). assert (Z.shiftr c 25 = 0) as -> by (rewrite Z.shiftr_div_pow2 by lia; by apply Z.div_small).
  change (gen 0) with 0. rewrite Z.lxor_0_r, land_small by done. change (c * 32) with (c * 2 ^ 5).
  rewrite <- (lor_shiftl c v 5) by (unfold is_5bit in Hv; lia).
  symmetry. apply Z.bits_inj'. intros i Hi. rewrite Z.lor_spec, Z.lxor_spec, Z.shiftl_spec by done. destruct (Z.lt_ge_cases i 5).
  - rewrite (Z.testbit_neg_r c) by lia. by destruct (Z.testbit v i).
  - rewrite (testbit_high v 5 i) by (unfold is_5bit in Hv; lia). by destruct (Z.testbit c (i - 5)).
Qed.

(** A nonzero remainder stays nonzero. *)
Lemma step_nonzero c : is_c c -> c <> 0 -> PolyMod_step c 0 <> 0.
Proof.
  intros Hc Hn E. destruct (decide (c < 2 ^ 25)) as [Hs|Hs].
  { rewrite step_small in E by (unfold is_c, is_5bit in *; lia). lia. }
  assert (Z.land (PolyMod_step c 0) 31 = 0) as E0 by (by rewrite E). rewrite step_eq in E0 by done.
  rewrite Z.lxor_0_r, land_lxor in E0. assert (Z.land (Z.shiftl (Z.land c 0x1ffffff) 5) 31 = 0) as E1.
  { change 31 with (Z.ones 5). rewrite Z.land_ones, Z.shiftl_mul_pow2 by lia. apply Z.mod_mul. lia. }
  rewrite E1, Z.lxor_0_l in E0. destruct (gen_spec _ (top_range c Hc)) as (_ & Hg & _). apply Hg; [|done].
  rewrite Z.shiftr_div_pow2 by lia. unfold is_c in Hc. pose proof (Z.div_le_lower_bound c (2 ^ 25) 1). lia.
Qed.


(** ** Runs over a list of values *)

Abbreviation values5 := (Forall is_5bit).

Lemma lfsr_run_app c v w : PolyMod_from c (v ++ w) = PolyMod_from (PolyMod_from c v) w.
Proof. apply fold_left_app. Qed.

Lemma run_range v : values5 v -> forall c, is_c c -> is_c (PolyMod_from c v).
Proof. induction 1 as [|x v Hx Hv IH]; intros c Hc; [done|]. cbn [PolyMod_from fold_left]. by apply IH, step_range. Qed.

Lemma run_linear v : values5 v -> forall w c d, values5 w -> length v = length w -> is_c c -> is_c d ->
  PolyMod_from (Z.lxor c d) (zip_with Z.lxor v w) = Z.lxor (PolyMod_from c v) (PolyMod_from d w).
Proof.
  induction 1 as [|x v Hx Hv IH]; intros w c d Hw Hlen Hc Hd; destruct w as [|y w]; try done. injection Hlen as Hlen.
  inversion Hw; subst. cbn [zip_with PolyMod_from fold_left]. rewrite step_linear by done. apply IH; auto using step_range.
Qed.

Lemma zeros5 n : values5 (replicate n 0).
Proof. apply Forall_replicate. unfold is_5bit. lia. Qed.

Lemma xor_values v w : values5 v -> values5 w -> values5 (zip_with Z.lxor v w).
Proof.
  intros Hv. revert w. induction Hv as [|x v Hx Hv IH]; intros w Hw; destruct Hw as [|y w Hy Hw]; try apply List.Forall_nil.
  cbn [zip_with]. constructor; [by apply (lxor_range 5)|by apply IH].
Qed.

(** Two runs from the same state differ by the run over the difference. *)
Lemma run_difference c v w : is_c c -> values5 v -> values5 w -> length v = length w ->
  Z.lxor (PolyMod_from c v) (PolyMod_from c w) = PolyMod_from 0 (zip_with Z.lxor v w).
Proof. intros Hc Hv Hw Hlen. rewrite <- (run_linear v Hv w c c) by done. by rewrite Z.lxor_nilpotent. Qed.

Lemma run_small v : values5 v -> forall a, 0 <= a -> (a + 1) * 32 ^ Z.of_nat (length v) <= 2 ^ 30 -> PolyMod_from a v = be_from 32 a v.
Proof.
  induction 1 as [|x v Hx Hv IH]; intros a Ha Hfit; [done|]. cbn [PolyMod_from be_from fold_left length] in *.
  rewrite Nat2Z.inj_succ, Z.pow_succ_r in Hfit by lia. assert (1 <= 32 ^ Z.of_nat (length v)) by (apply Z.lt_pred_le, Z.pow_pos_nonneg; lia).
  rewrite step_small by (try done; nia). unfold is_5bit in Hx. apply IH; nia.
Qed.

Lemma run_six v : values5 v -> (length v <= 6)%nat -> PolyMod_from 0 v = be_val 32 v.
Proof.
  intros Hv Hlen. apply run_small; [done|lia|]. assert (32 ^ Z.of_nat (length v) <= 32 ^ 6) by (apply Z.pow_le_mono_r; lia). lia.
Qed.

Lemma run_zeros_nonzero n : forall c, is_c c -> c <> 0 -> PolyMod_from c (replicate n 0) <> 0.
Proof.
  induction n as [|n IH]; intros c Hc Hn; [done|]. cbn [replicate PolyMod_from fold_left]. apply IH; [|by apply step_nonzero].
  apply step_range; [done|unfold is_5bit; lia].
Qed.

(** ** The six checksum values *)

Lemma zip_zeros v : zip_with Z.lxor (replicate (length v) 0) v = v.
Proof. induction v as [|x v IH]; [done|]. cbn [length replicate zip_with]. by rewrite Z.lxor_0_l, IH. Qed.

(** The last six values are added to the remainder. *)
Lemma run_last c r : is_c c -> values5 r -> length r = 6%nat ->
  PolyMod_from c r = Z.lxor (PolyMod_from c (replicate 6 0)) (be_val 32 r).
Proof.
  intros Hc Hr Hlen. rewrite <- run_six by (try done; lia).
  pose proof (run_linear (replicate 6 0) (zeros5 6) r c 0 Hr (eq_sym Hlen) Hc ltac:(unfold is_c; lia)) as E.
  rewrite Z.lxor_0_r in E. rewrite <- E. f_equal. rewrite <- Hlen. by rewrite zip_zeros.
Qed.

Definition groups (m : Z) : list Z := (fun i => Z.land (Z.shiftr m (5 * (5 - i))) 31) <$> seqZ 0 6.

Lemma groups_spec m : is_c m -> values5 (groups m) /\ length (groups m) = 6%nat /\ be_val 32 (groups m) = m.
Proof.
  intros Hm. unfold is_c in Hm. unfold groups. split_and!; [|done|].
  - apply Forall_fmap, Forall_true. intros i. unfold is_5bit, compose. change 31 with (Z.ones 5). rewrite Z.land_ones by lia. by apply Z.mod_pos_bound.
  - change (seqZ 0 6) with [0; 1; 2; 3; 4; 5]. unfold be_val, be_from. cbn [fmap list_fmap fold_left].
    assert (forall k, 0 <= k -> Z.land (Z.shiftr m k) 31 = (m / 2 ^ k) mod 32) as E
      by (intros k Hk; change 31 with (Z.ones 5); by rewrite Z.land_ones, Z.shiftr_div_pow2 by lia).
    rewrite !E by lia. change (2 ^ (5 * (5 - 0))) with (32 * (32 * (32 * (32 * 32)))). change (2 ^ (5 * (5 - 1))) with (32 * (32 * (32 * 32))).
    change (2 ^ (5 * (5 - 2))) with (32 * (32 * 32)). change (2 ^ (5 * (5 - 3))) with (32 * 32). change (2 ^ (5 * (5 - 4))) with 32.
    change (2 ^ (5 * (5 - 5))) with 1. rewrite <- !Z.div_div, Z.div_1_r by lia.
    Z.to_euclidean_division_equations. lia.
Qed.

Lemma checksum_iff c r : is_c c -> values5 r -> length r = 6%nat ->
  PolyMod_from c r = 1 <-> r = groups (Z.lxor (PolyMod_from c (replicate 6 0)) 1).
Proof.
  intros Hc Hr Hlen. set (m := PolyMod_from c (replicate 6 0)). assert (is_c m) as Hm by (apply run_range; [apply zeros5|done]).
  assert (is_c (Z.lxor m 1)) as Hm1 by (apply lxor_range; [lia|done|lia]). destruct (groups_spec _ Hm1) as (Hg & Hgl & Hgv).
  rewrite run_last by done. fold m. split.
  - intros E. apply (be_val_inj 32); [lia|done|done|lia|]. rewrite Hgv, <- E, <- Z.lxor_assoc, Z.lxor_nilpotent, Z.lxor_0_l. done.
  - intros ->. by rewrite Hgv, <- Z.lxor_assoc, Z.lxor_nilpotent, Z.lxor_0_l.
Qed.


(** ** Detected errors *)

Lemma zip_self s : zip_with Z.lxor s s = replicate (length s) 0.
Proof. induction s as [|x s IH]; [done|]. cbn [zip_with length replicate]. by rewrite Z.lxor_nilpotent, IH. Qed.

Lemma zip_zero a : forall b n, length a = length b -> zip_with Z.lxor a b = replicate n 0 -> a = b.
Proof.
  induction a as [|x a IH]; intros [|y b] [|n] Hlen E; try done. injection Hlen as Hlen. cbn [zip_with replicate] in E.
  injection E as E1 E2. apply Z.lxor_eq in E1. f_equal; eauto.
Qed.

(** A difference that leaves a remainder is detected whatever surrounds it. *)
Lemma difference_detected c p a b s : is_c c -> values5 (p ++ a ++ s) -> values5 b -> length a = length b ->
  PolyMod_from 0 (zip_with Z.lxor a b) <> 0 -> PolyMod_from c (p ++ a ++ s) <> PolyMod_from c (p ++ b ++ s).
Proof.
  intros Hc Hv Hb Hlen Hd E. apply Forall_app in Hv as [Hp Hv]. apply Forall_app in Hv as [Ha Hs].
  rewrite !lfsr_run_app in E. set (cp := PolyMod_from c p) in *. assert (is_c cp) as Hcp by (by apply run_range).
  rewrite <- (run_difference cp a b) in Hd by done.
  pose proof (run_linear s Hs s (PolyMod_from cp a) (PolyMod_from cp b) Hs eq_refl ltac:(by apply run_range) ltac:(by apply run_range)) as L.
  rewrite E, Z.lxor_nilpotent, zip_self in L. revert L. apply run_zeros_nonzero; [|done].
  apply lxor_range; [lia|by apply run_range|by apply run_range].
Qed.

Lemma burst_remainder a b : values5 a -> values5 b -> length a = length b -> (length a <= 6)%nat -> a <> b ->
  PolyMod_from 0 (zip_with Z.lxor a b) <> 0.
Proof.
  intros Ha Hb Hlen H6 Hne E. apply Hne. apply (zip_zero a b (length a) Hlen). assert (length (zip_with Z.lxor a b) = length a) as Hz
    by (rewrite length_zip_with; lia).
  assert (values5 (zip_with Z.lxor a b)) as Hv by (by apply xor_values). rewrite run_six in E by (try done; lia).
  apply (be_val_inj 32); [lia|done|apply zeros5|by rewrite length_replicate|]. rewrite E. symmetry.
  clear. induction (length a) as [|n IH]; [done|]. cbn [replicate]. rewrite be_val_cons, IH. lia.
Qed.

(** The powers of [x] below 1023 are not constants. *)
Fixpoint orbit_ok (n : nat) (c : Z) : bool :=
  match n with
  | O => true
  | S n => let c := PolyMod_step c 0 in (32 <=? c) && orbit_ok n c
  end.

Lemma orbit_checked : forallb (orbit_ok 1022) (seqZ 1 31) = true.
Proof. vm_compute. reflexivity. Qed.

Lemma orbit_ok_run n k : forall c, orbit_ok n c = true -> (k < n)%nat -> 32 <= PolyMod_step (PolyMod_from c (replicate k 0)) 0.
Proof.
  revert k. induction n as [|n IH]; intros k c H Hk; [lia|]. cbn [orbit_ok] in H. apply andb_true_iff in H as [H1 H2].
  destruct k as [|k]; [cbn [replicate PolyMod_from fold_left]; lia|]. cbn [replicate PolyMod_from fold_left]. apply IH; [done|lia].
Qed.

Lemma power_not_constant u k : 0 < u < 32 -> (k < 1022)%nat -> 32 <= PolyMod_step (PolyMod_from u (replicate k 0)) 0.
Proof.
  intros Hu Hk. apply (orbit_ok_run 1022); [|done]. pose proof orbit_checked as H. rewrite forallb_forall in H.
  apply H, list_elem_of_In, elem_of_seqZ. lia.
Qed.

Lemma double_remainder x x' y y' m : values5 (x :: m ++ [y]) -> is_5bit x' -> is_5bit y' -> (length m < 1022)%nat ->
  x <> x' \/ y <> y' -> PolyMod_from 0 (zip_with Z.lxor (x :: m ++ [y]) (x' :: m ++ [y'])) <> 0.
Proof.
  intros Hv Hx' Hy' Hm Hne. inversion Hv as [|? ? Hx Hv']; subst. apply Forall_app in Hv' as [_ Hy]. rewrite Forall_singleton in Hy.
  cbn [zip_with]. rewrite zip_with_app, zip_self by done. cbn [zip_with PolyMod_from fold_left].
  set (u := Z.lxor x x'). set (w := Z.lxor y y'). assert (is_5bit u) as Hu by (by apply (lxor_range 5)). assert (is_5bit w) as Hw by (apply (lxor_range 5); [lia|idtac..]; [exact Hy|exact Hy']).
  rewrite (step_small 0 u) by (try done; lia). fold (PolyMod_from (0 * 32 + u) (replicate (length m) 0 ++ [w])). rewrite lfsr_run_app.
  replace (0 * 32 + u) with u by lia. set (c := PolyMod_from u (replicate (length m) 0)).
  assert (is_c c) as Hc by (apply run_range; [apply zeros5|unfold is_c, is_5bit in *; lia]). cbn [PolyMod_from fold_left].
  pose proof (step_linear c 0 0 w Hc ltac:(unfold is_c; lia)) as L. rewrite Z.lxor_0_r, Z.lxor_0_l, (step_small 0 w) in L by (try done; lia).
  rewrite L. intros E%Z.lxor_eq. destruct (decide (u = 0)) as [Hu0|Hu0].
  - assert (c = 0) as Ec.
    { unfold c. rewrite Hu0. clear. induction (length m) as [|n IH]; [done|]. cbn [replicate PolyMod_from fold_left].
      rewrite (step_small 0 0) by (unfold is_5bit; lia). exact IH. }
    rewrite Ec, (step_small 0 0) in E by (unfold is_5bit; lia). assert (w = 0) as Hw0 by lia. apply Z.lxor_eq in Hu0, Hw0. tauto.
  - pose proof (power_not_constant u (length m) ltac:(unfold is_5bit in *; lia) Hm) as P. fold c in P. unfold is_5bit in Hw. lia.
Qed.

Lemma ExpandHRP_values hrp : is_bytes hrp -> values5 (ExpandHRP hrp).
Proof.
  intros H. unfold ExpandHRP. repeat (apply Forall_app; split).
  - apply Forall_fmap. eapply Forall_impl; [exact H|]. intros c Hc. unfold is_5bit, is_u8, compose in *. rewrite Z.shiftr_div_pow2 by lia.
    split; [apply Z.div_pos; lia|apply Z.div_lt_upper_bound; lia].
  - apply Forall_singleton. unfold is_5bit. lia.
  - apply Forall_fmap, Forall_true. intros c. unfold is_5bit, compose. change 0x1f with (Z.ones 5). rewrite Z.land_ones by lia. by apply Z.mod_pos_bound.
Qed.

Lemma one_range : is_c 1.
Proof. unfold is_c. lia. Qed.

(** C27: the checksum detects errors in the values after the separator: two lists
    with a valid checksum under the same prefix cannot differ only inside a window
    of six values, nor, in a text of the admitted length, in one or two values only,
    wherever they are. *)
Theorem bech32_detects_errors hrp p a b s :
  is_bytes hrp -> values5 (p ++ a ++ s) -> values5 b -> length a = length b -> a <> b ->
  ((length a <= 6)%nat \/
   exists x y m x' y', a = x :: m ++ [y] /\ b = x' :: m ++ [y'] /\ (length m < 1022)%nat) ->
  VerifyChecksum hrp (p ++ a ++ s) = true -> VerifyChecksum hrp (p ++ b ++ s) = false.
Proof.
  intros Hh Hv Hb Hlen Hne Herr Hok. unfold VerifyChecksum, PolyMod, Cat in *. rewrite Z.eqb_eq in Hok. apply Z.eqb_neq.
  rewrite lfsr_run_app in Hok |- *. intros E. pose proof (eq_trans Hok (eq_sym E)) as Heq. revert Heq. pose proof Hv as Hv'. apply Forall_app in Hv' as [_ Hv']. apply Forall_app in Hv' as [Ha _].
  apply difference_detected; try done.
  - apply run_range; [by apply ExpandHRP_values|apply one_range].
  - destruct Herr as [H6|(x & y & m & x' & y' & -> & -> & Hm)]; [by apply burst_remainder|].
    inversion Hb as [|? ? Hx Hb']; subst. apply Forall_app in Hb' as [_ Hy]. rewrite Forall_singleton in Hy.
    apply double_remainder; try done. destruct (decide (x = x')) as [->|]; [|by left]. right. intros ->. done.
Qed.

Lemma bech32_detects_errors_witness :
  VerifyChecksum (chars "a") ([10; 28] ++ [25; 31; 20; 31]) = true /\ VerifyChecksum (chars "a") ([10; 28] ++ [25; 31; 21; 31]) = false.
Proof.
  split; [vm_compute; reflexivity|].
  apply (bech32_detects_errors (chars "a") [10; 28] [25; 31; 20; 31] [25; 31; 21; 31] []);
    [..|discriminate| |vm_compute; reflexivity]; [..|reflexivity|].
  1-3: apply (bool_decide_unpack _); vm_compute; exact I.
  left. simpl. lia.
Defined.


(** ** The text *)

Definition printable (c : Z) : Prop := 33 <= c <= 126.
Definition uppercase (c : Z) : bool := (65 <=? c) && (c <=? 90).
Definition lowercase (c : Z) : bool := (97 <=? c) && (c <=? 122).

(** The alphabet and the reverse table, checked by evaluation. *)
Definition value_ok (v : Z) : bool :=
  match CHARSET !! Z.to_nat v with
  | Some c => (33 <=? c) && (c <=? 126) && negb (c =? 49) && negb (uppercase c) &&
      match CHARSET_REV !! Z.to_nat c with Some r => r =? v | None => false end
  | None => false
  end.
Definition char_ok (c : Z) : bool :=
  match CHARSET_REV !! Z.to_nat c with
  | Some r => (r =? -1) || ((0 <=? r) && (r <? 32) && match CHARSET !! Z.to_nat r with Some x => x =? LowerCase c | None => false end)
  | None => false
  end.

Lemma value_char v : is_5bit v -> exists c, CHARSET !! Z.to_nat v = Some c /\ printable c /\ c <> 49 /\ uppercase c = false /\
  CHARSET_REV !! Z.to_nat c = Some v.
Proof.
  intros Hv. assert (value_ok v = true) as E by (apply (seqZ_check value_ok 32); [vm_compute; reflexivity|done]). unfold value_ok in E.
  destruct (CHARSET !! Z.to_nat v) as [c|]; [|done]. exists c. rewrite !andb_true_iff in E. destruct E as [[[[E1 E2] E3] E4] E5].
  destruct (CHARSET_REV !! Z.to_nat c); [|done]. apply Z.eqb_eq in E5 as ->. unfold printable.
  split_and!; [done|lia|lia|by apply Z.eqb_neq, negb_true_iff|by apply negb_true_iff|done].
Qed.

Lemma char_value c : printable c -> exists r, CHARSET_REV !! Z.to_nat c = Some r /\
  (r = -1 \/ is_5bit r /\ CHARSET !! Z.to_nat r = Some (LowerCase c)).
Proof.
  intros Hc. unfold printable in Hc. assert (char_ok c = true) as E by (apply (seqZ_check char_ok 128); [vm_compute; reflexivity|lia]).
  unfold char_ok in E. destruct (CHARSET_REV !! Z.to_nat c) as [r|]; [|done]. exists r. split; [done|].
  apply orb_true_iff in E as [E|E]; [left; lia|right]. rewrite !andb_true_iff in E. destruct E as [[E1 E2] E3].
  destruct (CHARSET !! Z.to_nat r); [|done]. apply Z.eqb_eq in E3 as ->. unfold is_5bit. split; [lia|done].
Qed.

Lemma unprintable c : (c <? 33) || (c >? 126) = false <-> printable c.
Proof. unfold printable. rewrite orb_false_iff, Z.gtb_ltb. lia. Qed.

Lemma print_read v : values5 v -> exists s, print_values v = Some (Some s) /\ read_values s = Some (Some v) /\ length s = length v /\
  Forall (fun c => printable c /\ c <> 49 /\ uppercase c = false) s.
Proof.
  induction 1 as [|x v Hx Hv IH]; [by exists []|]. destruct IH as (s & Hp & Hr & Hlen & Hs).
  destruct (value_char x Hx) as (c & H1 & H2 & H3 & H4 & H5). exists (c :: s). cbn [print_values read_values length].
  unfold is_5bit in Hx. rewrite Z.geb_leb. destruct (Z.leb_spec 32 x); [lia|]. rewrite H1. monad. rewrite Hp. monad.
  rewrite (proj2 (unprintable c) H2), H5. monad. destruct (Z.eqb_spec x (-1)); [lia|]. rewrite Hr. monad.
  split_and!; [done|done|lia|by constructor].
Qed.

Lemma read_print s : Forall printable s -> exists r, read_values s = Some r /\
  forall v, r = Some v -> values5 v /\ length v = length s /\ print_values v = Some (Some (LowerCase <$> s)).
Proof.
  induction 1 as [|c s Hc Hs IH]; [exists (Some []); split; [done|]; by intros ? [= <-]|]. destruct IH as (r & Hr & Hv).
  cbn [read_values]. rewrite (proj2 (unprintable c) Hc). destruct (char_value c Hc) as (x & -> & Hx). monad.
  destruct (Z.eqb_spec x (-1)) as [|Hn]; [by exists None|]. destruct Hx as [|[Hx Hch]]; [done|]. rewrite Hr. monad.
  eexists. split; [done|]. intros v E. destruct r as [w|]; [|done]. injection E as <-. destruct (Hv w eq_refl) as (H1 & H2 & H3).
  split_and!; [by constructor|simpl; lia|]. cbn [print_values]. unfold is_5bit in Hx. rewrite Z.geb_leb. destruct (Z.leb_spec 32 x); [lia|].
  rewrite Hch. monad. rewrite H3. done.
Qed.

Lemma text_scan_spec str : forall l u, match scan str l u with
  | None => True
  | Some (l', u') => Forall printable str /\ u' = u || existsb uppercase str
  end.
Proof.
  induction str as [|c str IH]; intros l u; cbn [scan]; [split; [done|by rewrite orb_false_r]|].
  destruct ((c <? 33) || (c >? 126)) eqn:Hc; [done|]. specialize (IH (if lowercase c then true else l) (if uppercase c then true else u)).
  change (scan str (if (97 <=? c) && (c <=? 122) then true else l) (if (65 <=? c) && (c <=? 90) then true else u))
    with (scan str (if lowercase c then true else l) (if uppercase c then true else u)).
  destruct (scan str _ _) as [[l' u']|]; [|done].
  destruct IH as [H1 ->]. split; [constructor; [by apply unprintable|done]|]. cbn [existsb].
  by destruct (uppercase c), u.
Qed.

Lemma scan_ok str : Forall printable str -> existsb uppercase str = false -> exists l, scan str false false = Some (l, false).
Proof.
  intros Hp Hu. assert (forall l u, is_Some (scan str l u)) as H.
  { clear Hu. induction Hp as [|c str Hc Hp IH]; intros l u; cbn [scan]; [eauto|]. rewrite (proj2 (unprintable c) Hc). apply IH. }
  destruct (H false false) as [[l u] E]. pose proof (text_scan_spec str false false) as S. rewrite E in S. destruct S as [_ ->]. rewrite Hu in E. eauto.
Qed.

Lemma rfind_none c s : Forall (fun x => x <> c) s -> rfind c s = None.
Proof. induction 1 as [|x s Hx Hs IH]; [done|]. cbn [rfind]. rewrite IH. by destruct (Z.eqb_spec x c). Qed.

Lemma rfind_app c h s : Forall (fun x => x <> c) s -> rfind c (h ++ c :: s) = Some (length h).
Proof.
  intros Hs. induction h as [|x h IH]; cbn [app rfind length]; [|by rewrite IH]. rewrite rfind_none by done. by rewrite Z.eqb_refl.
Qed.

Lemma rfind_split c s : forall p, rfind c s = Some p -> s = take p s ++ c :: drop (S p) s /\ (p < length s)%nat.
Proof.
  induction s as [|x s IH]; intros p H; [done|]. cbn [rfind] in H. destruct (rfind c s) as [q|].
  - injection H as <-. destruct (IH q eq_refl) as [E Hq]. cbn [take drop app length]. split; [by rewrite <- E|lia].
  - destruct (Z.eqb_spec x c) as [->|]; [|done]. injection H as <-. split; [done|simpl; lia].
Qed.


Lemma LowerCase_id c : uppercase c = false -> LowerCase c = c.
Proof. intros H. unfold LowerCase. unfold uppercase in H. by rewrite H. Qed.

Lemma existsb_none (f : Z -> bool) l : Forall (fun c => f c = false) l -> existsb f l = false.
Proof. induction 1 as [|c l Hc _ IH]; [done|]. simpl. by rewrite Hc, IH. Qed.

(** The prefix with the values, before the checksum *)
Definition state (hrp values : list Z) : Z := PolyMod_from 1 (ExpandHRP hrp ++ values).

Lemma state_range hrp values : is_bytes hrp -> values5 values -> is_c (state hrp values).
Proof. intros Hh Hv. apply run_range; [apply Forall_app; split; [by apply ExpandHRP_values|done]|apply one_range]. Qed.

Lemma CreateChecksum_eq hrp values : CreateChecksum hrp values = groups (Z.lxor (PolyMod_from (state hrp values) (replicate 6 0)) 1).
Proof. unfold CreateChecksum, Cat, PolyMod, state. by rewrite lfsr_run_app. Qed.

Lemma VerifyChecksum_iff hrp values sum : is_bytes hrp -> values5 values -> values5 sum -> length sum = 6%nat ->
  VerifyChecksum hrp (values ++ sum) = true <-> sum = CreateChecksum hrp values.
Proof.
  intros Hh Hv Hs Hlen. unfold VerifyChecksum, Cat, PolyMod. rewrite Z.eqb_eq, app_assoc, lfsr_run_app, CreateChecksum_eq.
  apply checksum_iff; [by apply state_range|done|done].
Qed.

Lemma CreateChecksum_values hrp values : is_bytes hrp -> values5 values -> values5 (CreateChecksum hrp values) /\ length (CreateChecksum hrp values) = 6%nat.
Proof.
  intros Hh Hv. rewrite CreateChecksum_eq. edestruct groups_spec as (H1 & H2 & _); [|by split].
  apply lxor_range; [lia|apply run_range; [apply zeros5|by apply state_range]|lia].
Qed.

Lemma printable_bytes s : Forall printable s -> is_bytes s.
Proof. intros H. eapply Forall_impl; [exact H|]. unfold printable, is_u8. lia. Qed.

Lemma Encode_text hrp values : is_bytes hrp -> values5 values ->
  exists s, Encode hrp values = Some (hrp ++ 49 :: s) /\ length s = (length values + 6)%nat /\ Forall printable s.
Proof.
  intros Hh Hv. destruct (CreateChecksum_values hrp values Hh Hv) as [Hc Hcl]. unfold Encode, Cat.
  destruct (print_read (values ++ CreateChecksum hrp values)) as (s & -> & _ & Hsl & Hs); [by apply Forall_app|]. monad.
  exists s. rewrite length_app, Hcl in Hsl. split_and!; [done|done|]. eapply Forall_impl; [exact Hs|]. by intros c (? & _).
Qed.

Lemma drop_separator h (c : Z) s : drop (S (length h)) (h ++ c :: s) = s.
Proof. induction h as [|x h IH]; [done|]. exact IH. Qed.

Lemma Decode_Encode hrp values : hrp <> [] -> Forall (fun c => printable c /\ uppercase c = false) hrp -> values5 values ->
  (length hrp + length values + 7 <= 1023)%nat -> exists text, Encode hrp values = Some text /\ Decode text = Some (hrp, values).
Proof.
  intros Hne Hh Hv Hlen. assert (is_bytes hrp) as Hb by (eapply Forall_impl; [exact Hh|unfold printable, is_u8; lia]).
  destruct (CreateChecksum_values hrp values Hb Hv) as [Hc Hcl]. unfold Encode, Cat.
  destruct (print_read (values ++ CreateChecksum hrp values)) as (s & -> & Hr & Hsl & Hs); [by apply Forall_app|]. monad.
  eexists. split; [done|]. rewrite length_app, Hcl in Hsl. cbn [app]. unfold Decode.
  assert (Forall (fun c => printable c /\ uppercase c = false) (hrp ++ 49 :: s)) as Hall.
  { apply Forall_app. split; [done|]. constructor; [split; [unfold printable; lia|done]|]. eapply Forall_impl; [exact Hs|]. by intros c (? & _ & ?). }
  destruct (scan_ok (hrp ++ 49 :: s)) as [l ->]; 
    [by eapply Forall_impl; [exact Hall|intros c [? _]]|by apply existsb_none; eapply Forall_impl; [exact Hall|intros c [_ ?]]|].
  rewrite andb_false_r, rfind_app by (by eapply Forall_impl; [exact Hs|intros c (_ & ? & _)]). rewrite length_app. cbn [length].
  rewrite Z.gtb_ltb. destruct (Z.ltb_spec 1023 (Z.of_nat (length hrp + S (length s)))); [lia|]. 
  assert (length hrp <> O) as Hn0 by (by destruct hrp). destruct (Nat.eqb_spec (length hrp) 0); [done|]. destruct (Nat.ltb_spec (length hrp + S (length s)) (length hrp + 7)); [lia|]. cbn [orb].
  rewrite drop_separator, Hr. monad.
  rewrite take_app_length. assert (LowerCase <$> hrp = hrp) as ->.
  { rewrite <- (list_fmap_id hrp) at 2. apply list_fmap_ext. intros i x Hx. apply LowerCase_id. rewrite Forall_lookup in Hh. by apply (Hh i x). }
  rewrite (proj2 (VerifyChecksum_iff hrp values _ Hb Hv Hc Hcl) eq_refl). cbn [negb]. rewrite length_app, Hcl.
  replace (length values + 6 - 6)%nat with (length values) by lia. by rewrite take_app_length.
Qed.

Lemma Encode_Decode str : exists hrp values, Decode str = Some (hrp, values) /\
  (hrp <> [] -> values5 values /\ Encode hrp values = Some (LowerCase <$> str)).
Proof.
  unfold Decode. pose proof (text_scan_spec str false false) as Hs. destruct (scan str false false) as [[l u]|]; [|by exists [], []].
  destruct Hs as [Hp _]. destruct (l && u); [by exists [], []|]. destruct (rfind 49 str) as [pos|] eqn:Er; [|by exists [], []].
  destruct (_ || _ || _) eqn:Hsize; [by exists [], []|]. rewrite !orb_false_iff in Hsize. destruct Hsize as [[_ Hpos] Hlen7].
  apply Nat.eqb_neq in Hpos. apply Nat.ltb_ge in Hlen7. destruct (rfind_split 49 str pos Er) as [Esplit _].
  destruct (read_print (drop (S pos) str)) as (r & -> & Hr); [by apply Forall_drop|]. monad. destruct r as [v|]; [|by exists [], []].
  destruct (Hr v eq_refl) as (Hv & Hvl & Hprint). rewrite length_drop in Hvl. set (hrp := LowerCase <$> take pos str).
  destruct (VerifyChecksum hrp v) eqn:Hver; cbn [negb]; [|by exists [], []]. do 2 eexists. split; [done|]. intros _.
  set (d := take (length v - 6) v). assert (values5 d) as Hd by (by apply Forall_take). split; [done|].
  assert (is_bytes hrp) as Hb.
  { unfold hrp. apply Forall_fmap. eapply Forall_impl; [apply (Forall_take printable pos _ Hp)|]. intros c Hc. unfold is_u8, LowerCase, compose, printable in *.
    destruct ((65 <=? c) && (c <=? 90)); lia. }
  assert (drop (length v - 6) v = CreateChecksum hrp d) as Hsum.
  { apply VerifyChecksum_iff; [done|done|by apply Forall_drop|rewrite length_drop; lia|]. unfold d. by rewrite take_drop. }
  unfold Encode, Cat. rewrite <- Hsum. unfold d. rewrite take_drop, Hprint. monad. f_equal. change (hrp ++ [49] ++ (LowerCase <$> drop (S pos) str) = LowerCase <$> str).
  transitivity (LowerCase <$> (take pos str ++ 49 :: drop (S pos) str)); [by rewrite fmap_app|by rewrite <- Esplit].
Qed.

(** C28: encoding then decoding gives the prefix and the values back, for a
    printable prefix without capitals and a text of at most 1023 characters; and
    decoding is total and canonical: the only text, up to letter case, that decodes
    to a prefix and values is the one [Encode] produces for them. *)
Theorem bech32_roundtrip hrp values str :
  hrp <> [] -> Forall (fun c => printable c /\ uppercase c = false) hrp -> values5 values -> (length hrp + length values + 7 <= 1023)%nat ->
  (exists text, Encode hrp values = Some text /\ Decode text = Some (hrp, values)) /\
  exists h v, Decode str = Some (h, v) /\ (h <> [] -> values5 v /\ Encode h v = Some (LowerCase <$> str)).
Proof. intros H1 H2 H3 H4. split; [by apply Decode_Encode|apply Encode_Decode]. Qed.

Lemma bech32_roundtrip_witness : exists text, Encode (chars "zs") [0; 31; 7] = Some text /\ Decode text = Some (chars "zs", [0; 31; 7]).
Proof.
  apply (bech32_roundtrip (chars "zs") [0; 31; 7] []); [discriminate| | |simpl; lia].
  - repeat constructor; discriminate.
  - apply (bool_decide_unpack _); vm_compute; exact I.
Defined.


End Bech32.
