(* ===== verification/KeyIO.v ===== *)
(** * Addresses and keys as text (src/key_io.cpp)

    Transparent destinations, Sprout and Sapling payment addresses, viewing and
    spending keys, private keys and BIP 32 extended keys, composed of base 58 with a
    checksum, Bech32, [ConvertBits] and the serialization of the classes
    (zcash/Address.hpp, zcash/zip32.h, uint252.h, key.h, pubkey.h), with the prefixes
    of the three networks (chainparams.cpp).  A [result] is [None] for a failed
    assertion, [inl] for an exception of the stream. *)

From stdpp Require Import base list list_numbers numbers option strings.
From Stdlib Require Import ZArith Lia.
From S2P Require Import Prelude Bytes Serialize StrEncodings Base58 Bech32.
Import Serialize StrEncodings Base58.
#[local] Open Scope Z_scope.

Module KeyIO.

(** ** Network parameters *)

Inductive Base58Type :=
| PUBKEY_ADDRESS | SCRIPT_ADDRESS | SECRET_KEY | EXT_PUBLIC_KEY | EXT_SECRET_KEY
| ZCPAYMENT_ADDRRESS | ZCSPENDING_KEY | ZCVIEWING_KEY.

Inductive Bech32Type :=
| SAPLING_PAYMENT_ADDRESS | SAPLING_FULL_VIEWING_KEY | SAPLING_INCOMING_VIEWING_KEY | SAPLING_EXTENDED_SPEND_KEY.

Record KeyParams := {
  Base58Prefix : Base58Type -> list Z;
  Bech32HRP : Bech32Type -> list Z
}.

Definition CMainParams : KeyParams := {|
  Base58Prefix t := match t with
    | PUBKEY_ADDRESS => [0x1B; 0x97] | SCRIPT_ADDRESS => [0x1B; 0x9C] | SECRET_KEY => [0x80]
    | EXT_PUBLIC_KEY => [0x04; 0x88; 0xB2; 0x1E] | EXT_SECRET_KEY => [0x04; 0x88; 0xAD; 0xE4]
    | ZCPAYMENT_ADDRRESS => [0x16; 0xB2] | ZCVIEWING_KEY => [0xA8; 0xAB; 0xD3] | ZCSPENDING_KEY => [0xAB; 0x36] end;
  Bech32HRP t := match t with
    | SAPLING_PAYMENT_ADDRESS => chars "zs" | SAPLING_FULL_VIEWING_KEY => chars "zviews"
    | SAPLING_INCOMING_VIEWING_KEY => chars "zivks" | SAPLING_EXTENDED_SPEND_KEY => chars "secret-extended-key-main" end |}.

Definition CTestNetParams : KeyParams := {|
  Base58Prefix t := match t with
    | PUBKEY_ADDRESS => [0x1C; 0x0C] | SCRIPT_ADDRESS => [0x1C; 0x13] | SECRET_KEY => [0xEF]
    | EXT_PUBLIC_KEY => [0x04; 0x35; 0x87; 0xCF] | EXT_SECRET_KEY => [0x04; 0x35; 0x83; 0x94]
    | ZCPAYMENT_ADDRRESS => [0x16; 0xB6] | ZCVIEWING_KEY => [0xA8; 0xAC; 0x0C] | ZCSPENDING_KEY => [0xAC; 0x08] end;
  Bech32HRP t := match t with
    | SAPLING_PAYMENT_ADDRESS => chars "ztestsapling" | SAPLING_FULL_VIEWING_KEY => chars "zviewtestsapling"
    | SAPLING_INCOMING_VIEWING_KEY => chars "zivktestsapling" | SAPLING_EXTENDED_SPEND_KEY => chars "secret-extended-key-test" end |}.

Definition CRegTestParams : KeyParams := {|
  Base58Prefix := Base58Prefix CTestNetParams;
  Bech32HRP t := match t with
    | SAPLING_PAYMENT_ADDRESS => chars "zregtestsapling" | SAPLING_FULL_VIEWING_KEY => chars "zviewregtestsapling"
    | SAPLING_INCOMING_VIEWING_KEY => chars "zivkregtestsapling" | SAPLING_EXTENDED_SPEND_KEY => chars "secret-extended-key-regtest" end |}.

(** ** The classes *)

Inductive CTxDestination := CNoDestination | CKeyID (hash : list Z) | CScriptID (hash : list Z).

Definition IsValidDestination (dest : CTxDestination) : bool := match dest with CNoDestination => false | _ => true end.

Record SproutPaymentAddress := { a_pk : list Z; pk_enc : list Z }.
Record SproutViewingKey := { vk_a_pk : list Z; sk_enc : list Z }.
Record SaplingPaymentAddress := { d : list Z; pk_d : list Z }.
Record SaplingExpandedSpendingKey := { ask : list Z; nsk : list Z; ovk : list Z }.
Record SaplingExtendedSpendingKey := {
  depth : Z; parentFVKTag : Z; childIndex : Z; chaincode : list Z;
  expsk : SaplingExpandedSpendingKey; dk : list Z
}.

Definition uint256_codec : codec (list Z) := blob_codec 32.

Definition SproutPaymentAddress_codec : codec SproutPaymentAddress :=
  iso_codec (fun p => {| a_pk := p.1; pk_enc := p.2 |}) (fun a => (a_pk a, pk_enc a)) (pair_codec uint256_codec uint256_codec).
Definition SproutViewingKey_codec : codec SproutViewingKey :=
  iso_codec (fun p => {| vk_a_pk := p.1; sk_enc := p.2 |}) (fun a => (vk_a_pk a, sk_enc a)) (pair_codec uint256_codec uint256_codec).
(** [uint252]: the first four bits are checked after both directions. *)
Definition uint252_codec : codec (list Z) :=
  iso_codec fst (fun c => (c, tt))
    (seq_codec uint256_codec (fun contents => guard_codec (Z.land (hd 0 contents) 0xF0 =? 0) InvalidLeadingBits)).
Definition SaplingPaymentAddress_codec : codec SaplingPaymentAddress :=
  iso_codec (fun p => {| d := p.1; pk_d := p.2 |}) (fun a => (d a, pk_d a)) (pair_codec (blob_codec 11) uint256_codec).
Definition SaplingExpandedSpendingKey_codec : codec SaplingExpandedSpendingKey :=
  iso_codec (fun p => {| ask := p.1; nsk := p.2.1; ovk := p.2.2 |}) (fun k => (ask k, (nsk k, ovk k)))
    (pair_codec uint256_codec (pair_codec uint256_codec uint256_codec)).
Definition SaplingExtendedSpendingKey_codec : codec SaplingExtendedSpendingKey :=
  iso_codec (fun '(a, (b, (c, (e, (f, g))))) =>
               {| depth := a; parentFVKTag := b; childIndex := c; chaincode := e; expsk := f; dk := g |})
            (fun k => (depth k, (parentFVKTag k, (childIndex k, (chaincode k, (expsk k, dk k))))))
    (pair_codec u8_codec (pair_codec u32_codec (pair_codec u32_codec
       (pair_codec uint256_codec (pair_codec SaplingExpandedSpendingKey_codec uint256_codec))))).

Definition ZIP32_XSK_SIZE : nat := 169.

Inductive PaymentAddress := InvalidPaymentAddress | SproutAddress (a : SproutPaymentAddress) | SaplingAddress (a : SaplingPaymentAddress).
Inductive ViewingKey := InvalidViewingKey | SproutViewing (k : SproutViewingKey).
Inductive SpendingKey := InvalidSpendingKey | SproutSpending (a_sk : list Z) | SaplingSpending (k : SaplingExtendedSpendingKey).

Definition IsValidPaymentAddress (zaddr : PaymentAddress) : bool := match zaddr with InvalidPaymentAddress => false | _ => true end.
Definition IsValidViewingKey (vk : ViewingKey) : bool := match vk with InvalidViewingKey => false | _ => true end.
Definition IsValidSpendingKey (zkey : SpendingKey) : bool := match zkey with InvalidSpendingKey => false | _ => true end.

(** [CKey]; the bytes of an invalid key are indeterminate and read by nobody. *)
Record CKey := { fValid : bool; fCompressed : bool; vch : list Z }.

Definition CKey_init : CKey := {| fValid := false; fCompressed := false; vch := [] |}.

(** [CPubKey]: its bytes up to the length of the header, or the invalid header. *)
Definition GetLen (chHeader : Z) : nat :=
  if (chHeader =? 2) || (chHeader =? 3) then 33
  else if (chHeader =? 4) || (chHeader =? 6) || (chHeader =? 7) then 65
  else 0.
Definition CPubKey_Set (bytes : list Z) : list Z :=
  let len := match bytes with [] => O | h :: _ => GetLen h end in
  if negb (len =? 0)%nat && (len =? length bytes)%nat then bytes else [0xFF].
Definition CPubKey_size (pubkey : list Z) : nat := match pubkey with [] => O | h :: _ => GetLen h end.

Record CExtKey := { nDepth : Z; vchFingerprint : list Z; nChild : Z; ek_chaincode : list Z; key : CKey }.
Record CExtPubKey := { p_nDepth : Z; p_vchFingerprint : list Z; p_nChild : Z; p_chaincode : list Z; pubkey : list Z }.

Definition BIP32_EXTKEY_SIZE : nat := 74.

Definition child_bytes (nChild : Z) : list Z :=
  [Z.land (Z.shiftr nChild 24) 0xFF; Z.land (Z.shiftr nChild 16) 0xFF; Z.land (Z.shiftr nChild 8) 0xFF; Z.land (Z.shiftr nChild 0) 0xFF].
Definition read_child (code : list Z) : option Z :=
  a ← code !! 5%nat; b ← code !! 6%nat; c ← code !! 7%nat; e ← code !! 8%nat;
  Some (u32 (Z.lor (Z.lor (Z.lor (Z.shiftl a 24) (Z.shiftl b 16)) (Z.shiftl c 8)) e)).

Definition CExtPubKey_Encode (k : CExtPubKey) : option (list Z) :=
  if (CPubKey_size (pubkey k) =? 33)%nat
  then Some ([p_nDepth k] ++ p_vchFingerprint k ++ child_bytes (p_nChild k) ++ p_chaincode k ++ pubkey k)
  else None.
Definition CExtPubKey_Decode (code : list Z) : option CExtPubKey :=
  depth ← code !! 0%nat; child ← read_child code;
  Some {| p_nDepth := depth; p_vchFingerprint := take 4 (drop 1 code); p_nChild := child;
          p_chaincode := take 32 (drop 9 code); pubkey := CPubKey_Set (drop 41 code) |}.

(** ** Encoding and decoding

    [Hash] is double SHA-256; [Check] is [secp256k1_ec_seckey_verify]. *)
Section key_io.
Context (Hash : list Z -> list Z) (Check_ : list Z -> bool) (params : KeyParams).

Definition result (A : Type) : Type := option (io_error + A).

Definition CKey_Set (k : CKey) (bytes : list Z) (fCompressedIn : bool) : CKey :=
  if negb (length bytes =? 32)%nat then {| fValid := false; fCompressed := fCompressed k; vch := vch k |}
  else if Check_ bytes then {| fValid := true; fCompressed := fCompressedIn; vch := bytes |}
  else {| fValid := false; fCompressed := fCompressed k; vch := vch k |}.

(** [ss << x], prefixed and printed in base 58 *)
Definition encode58 (ty : Base58Type) (ss : writer) : result (list Z) :=
  match ss with
  | inl e => Some (inl e)
  | inr bytes => text ← EncodeBase58Check Hash (Base58Prefix params ty ++ bytes); Some (inr text)
  end.

(** [ss << x], regrouped and printed in Bech32 *)
Definition encode32 (ty : Bech32Type) (ss : writer) : result (list Z) :=
  match ss with
  | inl e => Some (inl e)
  | inr bytes => '(data, _) ← ConvertBits 8 5 true bytes; text ← Bech32.Encode (Bech32HRP params ty) data; Some (inr text)
  end.

(** The size and the prefix of decoded data *)
Definition has_prefix (ty : Base58Type) (size : nat) (data : list Z) : bool :=
  let prefix := Base58Prefix params ty in
  (length data =? size + length prefix)%nat && bool_decide (take (length prefix) data = prefix).

(** [ss >> ret] *)
Definition read_from {A} (c : codec A) (ss : list Z) : io_error + A :=
  match dec c ss with inl e => inl e | inr (x, _) => inr x end.

(** The object read from a base 58 text of the given type, if it is one *)
Definition decode58 {A} (ty : Base58Type) (size : nat) (c : codec A) (str : list Z) : option (option (io_error + A)) :=
  r ← DecodeBase58Check_string Hash str;
  Some (match r with
        | Some data => if has_prefix ty size data then Some (read_from c (drop (length (Base58Prefix params ty)) data)) else None
        | None => None
        end).

(** The object read from a Bech32 text *)
Definition decode32 {A} (ty : Bech32Type) (size : nat) (c : codec A) (str : list Z) : option (option (io_error + A)) :=
  '(first, second) ← Bech32.Decode str;
  if bool_decide (first = Bech32HRP params ty) && (length second =? size)%nat then
    '(data, ok) ← ConvertBits 5 8 false second;
    if (ok : bool) then Some (Some (read_from c data)) else Some None
  else Some None.

Definition EncodeDestination (dest : CTxDestination) : option (list Z) :=
  match dest with
  | CKeyID id => EncodeBase58Check Hash (Base58Prefix params PUBKEY_ADDRESS ++ id)
  | CScriptID id => EncodeBase58Check Hash (Base58Prefix params SCRIPT_ADDRESS ++ id)
  | CNoDestination => Some []
  end.

Definition DecodeDestination (str : list Z) : option CTxDestination :=
  r ← DecodeBase58Check_string Hash str;
  Some (match r with
        | Some data =>
            if has_prefix PUBKEY_ADDRESS 20 data then CKeyID (drop (length (Base58Prefix params PUBKEY_ADDRESS)) data)
            else if has_prefix SCRIPT_ADDRESS 20 data then CScriptID (drop (length (Base58Prefix params SCRIPT_ADDRESS)) data)
            else CNoDestination
        | None => CNoDestination
        end).

Definition IsValidDestinationString (str : list Z) : option bool := dest ← DecodeDestination str; Some (IsValidDestination dest).

Definition EncodePaymentAddress (zaddr : PaymentAddress) : result (list Z) :=
  match zaddr with
  | SproutAddress a => encode58 ZCPAYMENT_ADDRRESS (enc SproutPaymentAddress_codec a)
  | SaplingAddress a => encode32 SAPLING_PAYMENT_ADDRESS (enc SaplingPaymentAddress_codec a)
  | InvalidPaymentAddress => Some (inr [])
  end.

Definition SerializedSproutPaymentAddressSize : nat := 64.
Definition SerializedSproutViewingKeySize : nat := 64.
Definition SerializedSproutSpendingKeySize : nat := 32.
Definition ConvertedSaplingPaymentAddressSize : nat := ((32 + 11) * 8 + 4) / 5.
Definition ConvertedSaplingExtendedSpendingKeySize : nat := (ZIP32_XSK_SIZE * 8 + 4) / 5.

Definition sum_map {A B} (f : A -> B) (r : io_error + A) : io_error + B := match r with inl e => inl e | inr x => inr (f x) end.

Definition DecodePaymentAddress (str : list Z) : result PaymentAddress :=
  r ← decode58 ZCPAYMENT_ADDRRESS SerializedSproutPaymentAddressSize SproutPaymentAddress_codec str;
  match r with
  | Some ret => Some (sum_map SproutAddress ret)
  | None =>
      r ← decode32 SAPLING_PAYMENT_ADDRESS ConvertedSaplingPaymentAddressSize SaplingPaymentAddress_codec str;
      Some (match r with Some ret => sum_map SaplingAddress ret | None => inr InvalidPaymentAddress end)
  end.

Definition IsValidPaymentAddressString (str : list Z) : result bool :=
  r ← DecodePaymentAddress str; Some (sum_map IsValidPaymentAddress r).

Definition EncodeViewingKey (vk : ViewingKey) : result (list Z) :=
  match vk with
  | SproutViewing k => encode58 ZCVIEWING_KEY (enc SproutViewingKey_codec k)
  | InvalidViewingKey => Some (inr [])
  end.

Definition DecodeViewingKey (str : list Z) : result ViewingKey :=
  r ← decode58 ZCVIEWING_KEY SerializedSproutViewingKeySize SproutViewingKey_codec str;
  Some (match r with Some ret => sum_map SproutViewing ret | None => inr InvalidViewingKey end).

Definition EncodeSpendingKey (zkey : SpendingKey) : result (list Z) :=
  match zkey with
  | SproutSpending k => encode58 ZCSPENDING_KEY (enc uint252_codec k)
  | SaplingSpending k => encode32 SAPLING_EXTENDED_SPEND_KEY (enc SaplingExtendedSpendingKey_codec k)
  | InvalidSpendingKey => Some (inr [])
  end.

Definition DecodeSpendingKey (str : list Z) : result SpendingKey :=
  r ← decode58 ZCSPENDING_KEY SerializedSproutSpendingKeySize uint252_codec str;
  match r with
  | Some ret => Some (sum_map SproutSpending ret)
  | None =>
      r ← decode32 SAPLING_EXTENDED_SPEND_KEY ConvertedSaplingExtendedSpendingKeySize SaplingExtendedSpendingKey_codec str;
      Some (match r with Some ret => sum_map SaplingSpending ret | None => inr InvalidSpendingKey end)
  end.

Definition EncodeSecret (k : CKey) : option (list Z) :=
  if negb (fValid k) then None
  else EncodeBase58Check Hash (Base58Prefix params SECRET_KEY ++ vch k ++ (if fCompressed k then [1] else [])).

Definition DecodeSecret (str : list Z) : option CKey :=
  let k := CKey_init in
  r ← DecodeBase58Check_string Hash str;
  Some (match r with
        | Some data =>
            let prefix := Base58Prefix params SECRET_KEY in
            if ((length data =? 32 + length prefix)%nat ||
                ((length data =? 33 + length prefix)%nat && bool_decide (last data = Some 1))) &&
               bool_decide (take (length prefix) data = prefix)
            then CKey_Set k (take 32 (drop (length prefix) data)) (length data =? 33 + length prefix)%nat
            else k
        | None => k
        end).

Definition CExtKey_Encode (k : CExtKey) : option (list Z) :=
  if fValid (key k)
  then Some ([nDepth k] ++ vchFingerprint k ++ child_bytes (nChild k) ++ ek_chaincode k ++ [0] ++ vch (key k))
  else None.
Definition CExtKey_Decode (code : list Z) : option CExtKey :=
  depth ← code !! 0%nat; child ← read_child code;
  Some {| nDepth := depth; vchFingerprint := take 4 (drop 1 code); nChild := child;
          ek_chaincode := take 32 (drop 9 code); key := CKey_Set CKey_init (drop 42 code) true |}.

Definition EncodeExtPubKey (k : CExtPubKey) : option (list Z) :=
  code ← CExtPubKey_Encode k; EncodeBase58Check Hash (Base58Prefix params EXT_PUBLIC_KEY ++ code).
Definition EncodeExtKey (k : CExtKey) : option (list Z) :=
  code ← CExtKey_Encode k; EncodeBase58Check Hash (Base58Prefix params EXT_SECRET_KEY ++ code).

(** [Some None]: the key object is returned as it was constructed. *)
Definition decode_ext {A} (ty : Base58Type) (Decode : list Z -> option A) (str : list Z) : option (option A) :=
  r ← DecodeBase58Check_string Hash str;
  match r with
  | Some data =>
      if has_prefix ty BIP32_EXTKEY_SIZE data
      then k ← Decode (drop (length (Base58Prefix params ty)) data); Some (Some k)
      else Some None
  | None => Some None
  end.
Definition DecodeExtPubKey : list Z -> option (option CExtPubKey) := decode_ext EXT_PUBLIC_KEY CExtPubKey_Decode.
Definition DecodeExtKey : list Z -> option (option CExtKey) := decode_ext EXT_SECRET_KEY CExtKey_Decode.

End key_io.

(** ** What the parameters must provide *)

Class KeyParamsOk (params : KeyParams) : Prop := {
  kp_prefix t : is_bytes (Base58Prefix params t) /\ (length (Base58Prefix params t) <= 4)%nat;
  kp_hrp t : Bech32HRP params t <> [] /\ (length (Bech32HRP params t) <= 32)%nat /\
    Forall (fun c => Bech32.printable c /\ Bech32.uppercase c = false) (Bech32HRP params t);
  kp_distinct : length (Base58Prefix params PUBKEY_ADDRESS) = length (Base58Prefix params SCRIPT_ADDRESS) /\
    Base58Prefix params PUBKEY_ADDRESS <> Base58Prefix params SCRIPT_ADDRESS;
  kp_payment : hd 49 (Bech32HRP params SAPLING_PAYMENT_ADDRESS) <> 49 /\
    (length (Bech32HRP params SAPLING_PAYMENT_ADDRESS) <= 18)%nat /\ length (Base58Prefix params ZCPAYMENT_ADDRRESS) = 2%nat;
  kp_spend : In 45 (Bech32HRP params SAPLING_EXTENDED_SPEND_KEY)
}.

Lemma bytes_check l : forallb (fun b => (0 <=? b) && (b <? 256)) l = true -> is_bytes l.
Proof. apply forallb_digits. Qed.

Lemma hrp_check l : forallb (fun c => (33 <=? c) && (c <=? 126) && negb (Bech32.uppercase c)) l = true ->
  Forall (fun c => Bech32.printable c /\ Bech32.uppercase c = false) l.
Proof.
  rewrite forallb_forall. intros H. apply List.Forall_forall. intros c Hc. specialize (H c Hc). rewrite !andb_true_iff, negb_true_iff in H.
  unfold Bech32.printable. split; [lia|tauto].
Qed.

Ltac params_ok :=
  split;
  [ intros []; (split; [apply bytes_check; vm_compute; reflexivity|apply Nat.leb_le; vm_compute; reflexivity])
  | intros []; (split; [discriminate|split; [apply Nat.leb_le; vm_compute; reflexivity|apply hrp_check; vm_compute; reflexivity]])
  | split; [reflexivity|discriminate]
  | split; [discriminate|split; [apply Nat.leb_le; vm_compute; reflexivity|reflexivity]]
  | vm_compute; tauto ].

#[global] Instance CMainParams_ok : KeyParamsOk CMainParams.
Proof. params_ok. Qed.
#[global] Instance CTestNetParams_ok : KeyParamsOk CTestNetParams.
Proof. params_ok. Qed.
#[global] Instance CRegTestParams_ok : KeyParamsOk CRegTestParams.
Proof. params_ok. Qed.

(** ** The serialized classes *)

#[global] Instance uint256_codec_ok : CodecOk uint256_codec.
Proof. apply blob_codec_ok. lia. Qed.
#[global] Instance SproutPaymentAddress_codec_ok : CodecOk SproutPaymentAddress_codec.
Proof. apply iso_codec_ok; [apply _|by intros []|by intros []]. Qed.
#[global] Instance SproutViewingKey_codec_ok : CodecOk SproutViewingKey_codec.
Proof. apply iso_codec_ok; [apply _|by intros []|by intros []]. Qed.
#[global] Instance uint252_codec_ok : CodecOk uint252_codec.
Proof. apply iso_codec_ok; [apply _|by intros [? []]|done]. Qed.
#[global] Instance SaplingPaymentAddress_codec_ok : CodecOk SaplingPaymentAddress_codec.
Proof. apply iso_codec_ok; [|by intros []|by intros []]. apply pair_codec_ok; [apply blob_codec_ok; lia|apply _]. Qed.
#[global] Instance SaplingExpandedSpendingKey_codec_ok : CodecOk SaplingExpandedSpendingKey_codec.
Proof. apply iso_codec_ok; [apply _|by intros (? & ? & ?)|by intros []]. Qed.
#[global] Instance SaplingExtendedSpendingKey_codec_ok : CodecOk SaplingExtendedSpendingKey_codec.
Proof. apply iso_codec_ok; [apply _|by intros (? & ? & ? & ? & ? & ?)|by intros []]. Qed.

(** The size of what a codec writes. *)
Definition writes {A} (c : codec A) (n : nat) : Prop := forall x bs, valid c x -> enc c x = inr bs -> length bs = n.

Lemma writes_blob n : writes (blob_codec (Z.of_nat n)) n.
Proof. intros x bs [_ Hl] [= <-]. lia. Qed.
Lemma writes_u8 : writes u8_codec 1.
Proof. by intros x bs _ [= <-]. Qed.
Lemma writes_u32 : writes u32_codec 4.
Proof. by intros x bs _ [= <-]. Qed.
Lemma writes_pair {A B} (c : codec A) (c' : codec B) n m : writes c n -> writes c' m -> writes (pair_codec c c') (n + m).
Proof.
  intros H H' [x y] bs [Hx Hy] E. simpl in *. unfold wapp in E. destruct (enc c x) as [|b1] eqn:E1; [done|].
  destruct (enc c' y) as [|b2] eqn:E2; [done|]. injection E as <-. rewrite length_app, (H x b1), (H' y b2) by done. done.
Qed.
Lemma writes_iso {A B} (f : A -> B) g (c : codec A) n : writes c n -> writes (iso_codec f g c) n.
Proof. intros H x bs Hx E. by apply (H (g x)). Qed.
Lemma writes_guard b e : writes (guard_codec b e) 0.
Proof. intros x bs. destruct b; [by intros _ [= <-]|done]. Qed.
Lemma writes_seq {A B} (c : codec A) (k : A -> codec B) n m : writes c n -> (forall a, writes (k a) m) -> writes (seq_codec c k) (n + m).
Proof.
  intros H H' [x y] bs [Hx Hy] E. simpl in *. unfold wapp in E. destruct (enc c x) as [|b1] eqn:E1; [done|].
  destruct (enc (k x) y) as [|b2] eqn:E2; [done|]. injection E as <-. rewrite length_app, (H x b1), (H' x y b2) by done. done.
Qed.

Lemma writes_uint256 : writes uint256_codec 32.
Proof. apply (writes_blob 32). Qed.
Lemma writes_SproutPaymentAddress : writes SproutPaymentAddress_codec 64.
Proof. apply writes_iso, (writes_pair _ _ 32 32); apply writes_uint256. Qed.
Lemma writes_SproutViewingKey : writes SproutViewingKey_codec 64.
Proof. apply writes_iso, (writes_pair _ _ 32 32); apply writes_uint256. Qed.
Lemma writes_uint252 : writes uint252_codec 32.
Proof. apply writes_iso, (writes_seq _ _ 32 0); [apply writes_uint256|intros; apply writes_guard]. Qed.
Lemma writes_SaplingPaymentAddress : writes SaplingPaymentAddress_codec 43.
Proof. apply writes_iso, (writes_pair _ _ 11 32); [apply (writes_blob 11)|apply writes_uint256]. Qed.
Lemma writes_SaplingExtendedSpendingKey : writes SaplingExtendedSpendingKey_codec 169.
Proof.
  apply writes_iso, (writes_pair _ _ 1 168), (writes_pair _ _ 4 164), (writes_pair _ _ 4 160), (writes_pair _ _ 32 128), (writes_pair _ _ 96 32);
    auto using writes_u8, writes_u32, writes_uint256. apply writes_iso, (writes_pair _ _ 32 64), (writes_pair _ _ 32 32); apply writes_uint256.
Qed.


(** ** Encoders and decoders meet *)

Section round_trips.
Context (Hash : list Z -> list Z) (HHash : forall m, is_bytes m -> is_bytes (Hash m) /\ (4 <= length (Hash m))%nat).
Context (params : KeyParams) `{!KeyParamsOk params}.

Lemma check58 ty bytes size : is_bytes bytes -> length bytes = size -> Z.of_nat size < 2 ^ 20 ->
  exists text, EncodeBase58Check Hash (Base58Prefix params ty ++ bytes) = Some text /\
    DecodeBase58Check_string Hash text = Some (Some (Base58Prefix params ty ++ bytes)) /\
    has_prefix params ty size (Base58Prefix params ty ++ bytes) = true /\
    drop (length (Base58Prefix params ty)) (Base58Prefix params ty ++ bytes) = bytes.
Proof using HHash KeyParamsOk0.
  intros Hb Hl Hs. destruct (kp_prefix (params := params) ty) as [Hp Hpl]. set (pre := Base58Prefix params ty) in *.
  destruct (base58check_codec Hash (pre ++ bytes) HHash) as (text & He & Hd & Hc); [by apply Forall_app|rewrite length_app; lia|].
  exists text. unfold DecodeBase58Check_string. rewrite Hc. split_and!; [done|done| |by rewrite drop_app_length].
  unfold has_prefix. fold pre. rewrite length_app, take_app_length, bool_decide_eq_true_2, andb_true_r by done. apply Nat.eqb_eq. lia.
Qed.

Lemma read_from_enc {A} (c : codec A) `{!CodecOk c} x bs : valid c x -> enc c x = inr bs -> read_from c bs = inr x.
Proof.
  intros Hx E. destruct (dec_enc (c := c) x Hx) as (bs' & E' & _ & Hd). rewrite E in E'. injection E' as <-.
  unfold read_from. specialize (Hd []). rewrite app_nil_r in Hd. by rewrite Hd.
Qed.

Lemma encode58_decode {A} (c : codec A) `{!CodecOk c} ty size x : writes c size -> Z.of_nat size < 2 ^ 20 -> valid c x ->
  exists text, encode58 Hash params ty (enc c x) = Some (inr text) /\ decode58 Hash params ty size c text = Some (Some (inr x)).
Proof using HHash KeyParamsOk0.
  intros Hw Hs Hx. destruct (dec_enc (c := c) x Hx) as (bs & E & Hb & _).
  destruct (check58 ty bs size Hb (Hw x bs Hx E) Hs) as (text & He & Hd & Hp & Hdrop). exists text. unfold encode58, decode58.
  rewrite E, He. monad. split; [done|]. rewrite Hd. monad. rewrite Hp, Hdrop. by rewrite (read_from_enc c x bs).
Qed.

Lemma groups5 l : digits 32 l -> Forall Bech32.is_5bit l.
Proof. done. Qed.

Lemma encode32_decode {A} (c : codec A) `{!CodecOk c} ty size x : writes c size -> (size <= 500)%nat -> valid c x ->
  exists s, encode32 params ty (enc c x) = Some (inr (Bech32HRP params ty ++ 49 :: s)) /\
    decode32 params ty ((size * 8 + 4) / 5) c (Bech32HRP params ty ++ 49 :: s) = Some (Some (inr x)) /\
    length s = ((size * 8 + 4) / 5 + 6)%nat /\ Forall Bech32.printable s.
Proof using KeyParamsOk0.
  intros Hw Hs Hx. destruct (dec_enc (c := c) x Hx) as (bs & E & Hb & _). pose proof (Hw x bs Hx E) as Hl.
  destruct (ConvertBits_roundtrip 8 5 bs) as (g & Hg & Hdg & Hgl & Hback); [lia..|done|].
  assert (length g = (size * 8 + 4) / 5)%nat as Hglen.
  { apply Nat2Z.inj. rewrite Hgl, Nat2Z.inj_div, Hl. f_equal. lia. }
  destruct (kp_hrp (params := params) ty) as (Hne & Hhl & Hh). set (hrp := Bech32HRP params ty) in *.
  assert (is_bytes hrp) as Hhb by (eapply Forall_impl; [exact Hh|]; unfold Bech32.printable, is_u8; lia).
  assert ((size * 8 + 4) / 5 <= 801)%nat as Hmax by (apply Nat.Div0.div_le_upper_bound; lia).
  destruct (Bech32.Encode_text hrp g Hhb (groups5 g Hdg)) as (s & He & Hsl & Hsp).
  destruct (Bech32.Decode_Encode hrp g Hne Hh (groups5 g Hdg)) as (text & He' & Hd); [lia|].
  rewrite He in He'. injection He' as <-. exists s. unfold encode32, decode32. fold hrp. rewrite E, Hg. monad. rewrite He. monad.
  split_and!; [done| |by rewrite Hsl, Hglen|done]. rewrite Hd. monad. rewrite bool_decide_eq_true_2 by done. rewrite Hglen, Nat.eqb_refl. cbn [andb].
  rewrite Hback. monad. by rewrite (read_from_enc c x bs).
Qed.

(** A text that base 58 does not read, or reads as too few bytes, is not of that type. *)
Lemma decode58_miss {A} (c : codec A) ty size str r : DecodeBase58 (c_str str) = Some r ->
  (forall v, r = Some v -> (length v < size + length (Base58Prefix params ty) + 4)%nat) -> decode58 Hash params ty size c str = Some None.
Proof.
  intros Hd Hr. unfold decode58, DecodeBase58Check_string. destruct r as [v|].
  2: { unfold DecodeBase58Check. rewrite Hd. by monad. }
  rewrite (DecodeBase58Check_spec Hash _ v Hd). monad. case_bool_decide as Hk; [|done]. specialize (Hr v eq_refl).
  unfold has_prefix. rewrite length_take. replace (_ =? _)%nat with false; [done|]. symmetry. apply Nat.eqb_neq. lia.
Qed.

Lemma printable_c_str s : Forall Bech32.printable s -> c_str s = s /\ Forall (fun c => isspace c = false) s.
Proof.
  intros H. assert (Forall (fun c => isspace c = false /\ c <> 0) s) as H0.
  { eapply Forall_impl; [exact H|]. unfold Bech32.printable, isspace. intros c Hc. rewrite orb_false_iff, andb_false_iff. lia. }
  split; [by apply no_spaces|]. eapply Forall_impl; [exact H0|]. by intros c [? _].
Qed.

End round_trips.


(** ** Addresses *)

Section addresses.
Context (Hash : list Z -> list Z) (HHash : forall m, is_bytes m -> is_bytes (Hash m) /\ (4 <= length (Hash m))%nat).
Context (params : KeyParams) `{!KeyParamsOk params}.

Definition valid_destination (dest : CTxDestination) : Prop :=
  match dest with CNoDestination => True | CKeyID h | CScriptID h => is_bytes h /\ length h = 20%nat end.
Definition valid_address (zaddr : PaymentAddress) : Prop :=
  match zaddr with
  | InvalidPaymentAddress => True
  | SproutAddress a => valid SproutPaymentAddress_codec a
  | SaplingAddress a => valid SaplingPaymentAddress_codec a
  end.
Definition valid_spending (zkey : SpendingKey) : Prop :=
  match zkey with
  | InvalidSpendingKey => True
  | SproutSpending k => valid uint252_codec k
  | SaplingSpending k => valid SaplingExtendedSpendingKey_codec k
  end.
Definition valid_viewing (vk : ViewingKey) : Prop := match vk with InvalidViewingKey => True | SproutViewing k => valid SproutViewingKey_codec k end.

Lemma empty_text58 {A} (c : codec A) ty size : decode58 Hash params ty size c [] = Some None.
Proof. done. Qed.

Lemma empty_text32 {A} (c : codec A) ty size : decode32 params ty size c [] = Some None.
Proof using KeyParamsOk0.
  unfold decode32. change (Bech32.Decode []) with (Some (@nil Z, @nil Z)). monad. destruct (kp_hrp (params := params) ty) as [Hne _].
  by rewrite bool_decide_eq_false_2 by (by intros E; apply Hne).
Qed.

Lemma destination_codec dest : valid_destination dest ->
  exists text, EncodeDestination Hash params dest = Some text /\ DecodeDestination Hash params text = Some dest.
Proof using HHash KeyParamsOk0.
  destruct dest as [|h|h]; intros Hv; [by exists []| |]; destruct Hv as [Hb Hl]; unfold EncodeDestination, DecodeDestination.
  - destruct (check58 Hash HHash params PUBKEY_ADDRESS h 20 Hb Hl) as (text & -> & Hd & Hp & Hdrop); [lia|]. exists text. split; [done|].
    rewrite Hd. monad. by rewrite Hp, Hdrop.
  - destruct (check58 Hash HHash params SCRIPT_ADDRESS h 20 Hb Hl) as (text & -> & Hd & Hp & Hdrop); [lia|]. exists text. split; [done|].
    rewrite Hd. monad. rewrite Hp, Hdrop. destruct (kp_distinct (params := params)) as [Hlen Hne].
    assert (has_prefix params PUBKEY_ADDRESS 20 (Base58Prefix params SCRIPT_ADDRESS ++ h) = false) as ->; [|done].
    unfold has_prefix. rewrite Hlen, take_app_length, bool_decide_eq_false_2, andb_false_r by (by intros E; apply Hne). done.
Qed.

(** A Sapling address is too short, as base 58, to be a Sprout address. *)
Lemma sapling_not_sprout {A} (c : codec A) s : length s = (ConvertedSaplingPaymentAddressSize + 6)%nat -> Forall Bech32.printable s ->
  decode58 Hash params ZCPAYMENT_ADDRRESS SerializedSproutPaymentAddressSize c (Bech32HRP params SAPLING_PAYMENT_ADDRESS ++ 49 :: s) = Some None.
Proof using KeyParamsOk0.
  intros Hl Hs. destruct (kp_hrp (params := params) SAPLING_PAYMENT_ADDRESS) as (Hne & _ & Hh). destruct (kp_payment (params := params)) as (Hhd & Hhl & Hpl).
  set (hrp := Bech32HRP params SAPLING_PAYMENT_ADDRESS) in *. change ConvertedSaplingPaymentAddressSize with 69%nat in Hl.
  assert (Forall Bech32.printable (hrp ++ 49 :: s)) as Hall.
  { apply Forall_app. split; [by eapply Forall_impl; [exact Hh|intros x [? _]]|]. constructor; [unfold Bech32.printable; lia|done]. }
  destruct (printable_c_str _ Hall) as [Hc Hsp]. assert (Z.of_nat (length (hrp ++ 49 :: s)) <= 94) as Hlen by (rewrite length_app; simpl; lia).
  destruct (DecodeBase58_total (hrp ++ 49 :: s)) as [r Hr]; [lia|]. eapply decode58_miss; [rewrite Hc; exact Hr|]. intros v ->.
  rewrite Hpl. unfold SerializedSproutPaymentAddressSize. destruct hrp as [|x hrp0]; [done|]. cbn [app hd] in *. inversion Hsp; subst.
  apply DecodeBase58_short in Hr; [|done|done|lia]. assert (Z.of_nat (length (x :: hrp0 ++ 49 :: s)) * 733 / 1000 < 69) by (apply Z.div_lt_upper_bound; lia). lia.
Qed.

Lemma payment_codec zaddr : valid_address zaddr ->
  exists text, EncodePaymentAddress Hash params zaddr = Some (inr text) /\ DecodePaymentAddress Hash params text = Some (inr zaddr).
Proof using HHash KeyParamsOk0.
  destruct zaddr as [|a|a]; intros Hv; unfold EncodePaymentAddress, DecodePaymentAddress.
  - exists []. split; [done|]. rewrite empty_text58. monad. by rewrite empty_text32.
  - destruct (encode58_decode Hash HHash params SproutPaymentAddress_codec ZCPAYMENT_ADDRRESS 64 a) as (text & -> & Hd);
      [apply writes_SproutPaymentAddress|lia|done|]. exists text. split; [done|]. unfold SerializedSproutPaymentAddressSize. rewrite Hd. done.
  - destruct (encode32_decode params SaplingPaymentAddress_codec SAPLING_PAYMENT_ADDRESS 43 a) as (s & -> & Hd & Hl & Hs);
      [apply writes_SaplingPaymentAddress|lia|done|]. eexists. split; [done|]. rewrite sapling_not_sprout by done. monad.
    change ConvertedSaplingPaymentAddressSize with ((43 * 8 + 4) / 5)%nat. rewrite Hd. done.
Qed.

Lemma viewing_codec vk : valid_viewing vk ->
  exists text, EncodeViewingKey Hash params vk = Some (inr text) /\ DecodeViewingKey Hash params text = Some (inr vk).
Proof using HHash KeyParamsOk0.
  destruct vk as [|k]; intros Hv; unfold EncodeViewingKey, DecodeViewingKey; [exists []; split; [done|]; by rewrite empty_text58|].
  destruct (encode58_decode Hash HHash params SproutViewingKey_codec ZCVIEWING_KEY 64 k) as (text & -> & Hd);
    [apply writes_SproutViewingKey|lia|done|]. exists text. split; [done|]. unfold SerializedSproutViewingKeySize. by rewrite Hd.
Qed.

(** The prefix of a Sapling spending key has a hyphen, which base 58 does not. *)
Lemma spending_codec zkey : valid_spending zkey ->
  exists text, EncodeSpendingKey Hash params zkey = Some (inr text) /\ DecodeSpendingKey Hash params text = Some (inr zkey).
Proof using HHash KeyParamsOk0.
  destruct zkey as [|k|k]; intros Hv; unfold EncodeSpendingKey, DecodeSpendingKey.
  - exists []. split; [done|]. rewrite empty_text58. monad. by rewrite empty_text32.
  - destruct (encode58_decode Hash HHash params uint252_codec ZCSPENDING_KEY 32 k) as (text & -> & Hd); [apply writes_uint252|lia|done|].
    exists text. split; [done|]. unfold SerializedSproutSpendingKeySize. by rewrite Hd.
  - destruct (encode32_decode params SaplingExtendedSpendingKey_codec SAPLING_EXTENDED_SPEND_KEY 169 k) as (s & -> & Hd & Hl & Hs);
      [apply writes_SaplingExtendedSpendingKey|lia|done|]. eexists. split; [done|].
    destruct (kp_hrp (params := params) SAPLING_EXTENDED_SPEND_KEY) as (_ & Hhl & Hh). pose proof (kp_spend (params := params)) as Hin.
    set (hrp := Bech32HRP params SAPLING_EXTENDED_SPEND_KEY) in *. assert (Forall Bech32.printable (hrp ++ 49 :: s)) as Hall.
    { apply Forall_app. split; [by eapply Forall_impl; [exact Hh|intros x [? _]]|]. constructor; [unfold Bech32.printable; lia|done]. }
    destruct (printable_c_str _ Hall) as [Hc Hsp]. change ((169 * 8 + 4) / 5 + 6)%nat with 277%nat in Hl. erewrite decode58_miss.
    + monad. change ConvertedSaplingExtendedSpendingKeySize with ((169 * 8 + 4) / 5)%nat. by rewrite Hd.
    + rewrite Hc. apply (DecodeBase58_foreign 45); [apply in_or_app; by left|done|done|rewrite length_app; simpl; lia].
    + done.
Qed.

End addresses.

(** C26: every address survives its text, on every network whose parameters are
    as the code declares them: [DecodeDestination] inverts [EncodeDestination] on
    key hashes, script hashes and the empty destination, and [DecodePaymentAddress]
    inverts [EncodePaymentAddress] on Sprout and Sapling addresses and the invalid
    one; no kind is read as another, though the Bech32 text of a Sapling address
    is first tried as base 58. *)
Theorem address_roundtrip Hash params dest zaddr :
  (forall m, is_bytes m -> is_bytes (Hash m) /\ (4 <= length (Hash m))%nat) -> KeyParamsOk params ->
  valid_destination dest -> valid_address zaddr ->
  (exists text, EncodeDestination Hash params dest = Some text /\ DecodeDestination Hash params text = Some dest) /\
  exists text, EncodePaymentAddress Hash params zaddr = Some (inr text) /\ DecodePaymentAddress Hash params text = Some (inr zaddr).
Proof. intros HH Hp Hd Hz. split; [by apply destination_codec|by apply payment_codec]. Qed.

Lemma address_roundtrip_witness :
  exists text, EncodePaymentAddress (fun _ => [1; 2; 3; 4]) CMainParams (SaplingAddress {| d := replicate 11 7; pk_d := replicate 32 9 |}) = Some (inr text).
Proof.
  destruct (address_roundtrip (fun _ => [1; 2; 3; 4]) CMainParams (CKeyID (replicate 20 5)) (SaplingAddress {| d := replicate 11 7; pk_d := replicate 32 9 |}))
    as [_ (text & H & _)].
  - intros m _. split; [apply bytes_check; reflexivity|simpl; lia].
  - apply _.
  - split; [apply bytes_check|]; reflexivity.
  - split; split; first [apply bytes_check; reflexivity|reflexivity].
  - by exists text.
Defined.


(** ** Private and extended keys *)

Lemma child_bytes_bytes n : is_bytes (child_bytes n).
Proof.
  unfold child_bytes. assert (forall a, is_u8 (Z.land a 0xFF)) as H.
  { intros a. change 0xFF with (Z.ones 8). rewrite Z.land_ones by lia. apply Z.mod_pos_bound. lia. }
  repeat (apply List.Forall_cons; [apply H|]). apply List.Forall_nil.
Qed.

Lemma child_value n : is_u32 n ->
  u32 (Z.lor (Z.lor (Z.lor (Z.shiftl (Z.land (Z.shiftr n 24) 0xFF) 24) (Z.shiftl (Z.land (Z.shiftr n 16) 0xFF) 16))
    (Z.shiftl (Z.land (Z.shiftr n 8) 0xFF) 8)) (Z.land (Z.shiftr n 0) 0xFF)) = n.
Proof.
  intros Hn. assert (forall k, 0 <= k -> Z.land (Z.shiftr n k) 0xFF = (n / 2 ^ k) mod 256) as E.
  { intros k Hk. change 0xFF with (Z.ones 8). by rewrite Z.land_ones, Z.shiftr_div_pow2 by lia. }
  rewrite !E by lia. set (a := (n / 2 ^ 24) mod 256). set (b := (n / 2 ^ 16) mod 256). set (c := (n / 2 ^ 8) mod 256). set (e := (n / 2 ^ 0) mod 256).
  assert (0 <= b < 256 /\ 0 <= c < 256 /\ 0 <= e < 256) as (Hb & Hc & He) by (split_and!; apply Z.mod_pos_bound; lia).
  rewrite (lor_shiftl a (Z.shiftl b 16) 24) by (rewrite ?Z.shiftl_mul_pow2; lia).
  replace (a * 2 ^ 24 + Z.shiftl b 16) with (Z.shiftl (a * 256 + b) 16) by (rewrite !Z.shiftl_mul_pow2; lia).
  rewrite (lor_shiftl _ (Z.shiftl c 8) 16) by (rewrite ?Z.shiftl_mul_pow2; lia).
  replace ((a * 256 + b) * 2 ^ 16 + Z.shiftl c 8) with (Z.shiftl ((a * 256 + b) * 256 + c) 8) by (rewrite !Z.shiftl_mul_pow2; lia).
  rewrite (lor_shiftl _ e 8) by lia. assert (((a * 256 + b) * 256 + c) * 2 ^ 8 + e = n) as ->; [|by apply u32_id].
  unfold a, b, c, e, is_u32 in *. change (2 ^ 24) with (256 * (256 * 256)). change (2 ^ 16) with (256 * 256). change (2 ^ 8) with 256. change (2 ^ 0) with 1.
  rewrite <- !Z.div_div, Z.div_1_r by lia. Z.to_euclidean_division_equations. lia.
Qed.

(** The layout of the 74 bytes. *)
Lemma ext_layout depth fp n cc rest code : length fp = 4%nat -> length cc = 32%nat -> is_u32 n ->
  code = [depth] ++ fp ++ child_bytes n ++ cc ++ rest ->
  code !! 0%nat = Some depth /\ read_child code = Some n /\ take 4 (drop 1 code) = fp /\ take 32 (drop 9 code) = cc /\ drop 41 code = rest.
Proof.
  intros Hf Hc Hn ->. destruct fp as [|f0 [|f1 [|f2 [|f3 [|]]]]]; try done. split_and!; [done| |done| |].
  - unfold read_child, child_bytes. cbn [app lookup list_lookup]. monad. by rewrite child_value.
  - change (drop 9 _) with (cc ++ rest). by apply take_app_length'.
  - change (drop 41 _) with (drop 32 (cc ++ rest)). by apply drop_app_length'.
Qed.

Section secrets.
Context (Hash : list Z -> list Z) (HHash : forall m, is_bytes m -> is_bytes (Hash m) /\ (4 <= length (Hash m))%nat).
Context (Check_ : list Z -> bool) (params : KeyParams) `{!KeyParamsOk params}.

Definition valid_key (k : CKey) : Prop := fValid k = true /\ is_bytes (vch k) /\ length (vch k) = 32%nat /\ Check_ (vch k) = true.
Definition valid_ext (k : CExtKey) : Prop :=
  is_u8 (nDepth k) /\ (is_bytes (vchFingerprint k) /\ length (vchFingerprint k) = 4%nat) /\ is_u32 (nChild k) /\
  (is_bytes (ek_chaincode k) /\ length (ek_chaincode k) = 32%nat) /\ valid_key (key k) /\ fCompressed (key k) = true.
Definition valid_ext_pub (k : CExtPubKey) : Prop :=
  is_u8 (p_nDepth k) /\ (is_bytes (p_vchFingerprint k) /\ length (p_vchFingerprint k) = 4%nat) /\ is_u32 (p_nChild k) /\
  (is_bytes (p_chaincode k) /\ length (p_chaincode k) = 32%nat) /\
  (is_bytes (pubkey k) /\ length (pubkey k) = 33%nat /\ CPubKey_size (pubkey k) = 33%nat).

Lemma CKey_Set_valid k bytes c : length bytes = 32%nat -> Check_ bytes = true -> CKey_Set Check_ k bytes c = {| fValid := true; fCompressed := c; vch := bytes |}.
Proof. intros Hl Hc. unfold CKey_Set. by rewrite Hl, Hc. Qed.

Lemma secret_codec k : valid_key k -> exists text, EncodeSecret Hash params k = Some text /\ DecodeSecret Hash Check_ params text = Some k.
Proof using HHash KeyParamsOk0.
  destruct k as [v c bs]. intros (Hv & Hb & Hl & Hk). simpl in *. subst v. unfold EncodeSecret, DecodeSecret. cbn [fValid fCompressed vch negb].
  destruct (check58 Hash HHash params SECRET_KEY (bs ++ if c then [1] else []) (32 + (if c then 1 else 0))) as (text & -> & Hd & Hp & Hdrop).
  { apply Forall_app. split; [done|]. destruct c; [apply bytes_check; reflexivity|constructor]. }
  { rewrite length_app, Hl. by destruct c. }
  { destruct c; lia. }
  exists text. split; [done|]. rewrite Hd. monad. unfold has_prefix in Hp. apply andb_true_iff in Hp as [Hp1 Hp2]. apply Nat.eqb_eq in Hp1.
  rewrite Hp2, andb_true_r, Hdrop, take_app_length', CKey_Set_valid by done. rewrite Hp1. destruct c; cbn [Nat.add].
  - rewrite !app_assoc, last_snoc, bool_decide_eq_true_2, Nat.eqb_refl, orb_true_r by done. done.
  - rewrite Nat.eqb_refl. cbn [orb]. by rewrite (proj2 (Nat.eqb_neq _ _)) by lia.
Qed.

Lemma ext_codec k : valid_ext k -> exists text, EncodeExtKey Hash params k = Some text /\ DecodeExtKey Hash Check_ params text = Some (Some k).
Proof using HHash KeyParamsOk0.
  destruct k as [dep fp n cc [v c bs]]. intros (Hd & [Hf Hfl] & Hn & [Hc Hcl] & (Hv & Hb & Hl & Hk) & Hcomp). simpl in *. subst v c.
  unfold EncodeExtKey, DecodeExtKey, decode_ext, CExtKey_Encode. cbn [fValid key nDepth vchFingerprint nChild ek_chaincode vch]. monad.
  remember ([dep] ++ fp ++ child_bytes n ++ cc ++ [0] ++ bs) as code eqn:Ecode.
  destruct (check58 Hash HHash params EXT_SECRET_KEY code BIP32_EXTKEY_SIZE) as (text & -> & Hdec & Hp & Hdrop); [| |by vm_compute|].
  { subst code. repeat (apply Forall_app; split); try done; [by apply Forall_singleton|apply child_bytes_bytes|apply bytes_check; reflexivity]. }
  { subst code. rewrite !length_app, Hfl, Hcl, Hl. reflexivity. }
  exists text. split; [done|]. rewrite Hdec. monad. rewrite Hp, Hdrop. unfold CExtKey_Decode.
  destruct (ext_layout dep fp n cc ([0] ++ bs) code Hfl Hcl Hn Ecode) as (-> & -> & -> & -> & Hrest). monad.
  change (drop 42 code) with (drop (41 + 1) code). rewrite <- drop_drop, Hrest. cbn [app drop]. by rewrite CKey_Set_valid.
Qed.

Lemma ext_pub_codec k : valid_ext_pub k -> exists text, EncodeExtPubKey Hash params k = Some text /\ DecodeExtPubKey Hash params text = Some (Some k).
Proof using HHash KeyParamsOk0.
  destruct k as [dep fp n cc pk]. intros (Hd & [Hf Hfl] & Hn & [Hc Hcl] & (Hb & Hl & Hk)). simpl in *.
  unfold EncodeExtPubKey, DecodeExtPubKey, decode_ext, CExtPubKey_Encode. cbn [p_nDepth p_vchFingerprint p_nChild p_chaincode pubkey]. rewrite Hk. cbn [Nat.eqb]. monad.
  remember ([dep] ++ fp ++ child_bytes n ++ cc ++ pk) as code eqn:Ecode.
  destruct (check58 Hash HHash params EXT_PUBLIC_KEY code BIP32_EXTKEY_SIZE) as (text & -> & Hdec & Hp & Hdrop); [| |by vm_compute|].
  { subst code. repeat (apply Forall_app; split); try done; [by apply Forall_singleton|apply child_bytes_bytes]. }
  { subst code. rewrite !length_app, Hfl, Hcl, Hl. reflexivity. }
  exists text. split; [done|]. rewrite Hdec. monad. rewrite Hp, Hdrop. unfold CExtPubKey_Decode.
  destruct (ext_layout dep fp n cc pk code Hfl Hcl Hn Ecode) as (-> & -> & -> & -> & ->). monad.
  unfold CPubKey_Set. unfold CPubKey_size in Hk. destruct pk as [|h pk]; [done|]. by rewrite Hk, Hl.
Qed.

End secrets.


(** Every key survives its text: private keys with their compression flag,
    Sprout viewing keys, Sprout and Sapling spending keys, and extended private and
    public keys of BIP 32.  A well-formed text of a Sprout spending key whose four
    leading bits are not zero is not an invalid key but an exception. *)
Lemma key_roundtrip Hash Check_ params secret vk zkey ext extpub bad :
  (forall m, is_bytes m -> is_bytes (Hash m) /\ (4 <= length (Hash m))%nat) -> KeyParamsOk params ->
  valid_key Check_ secret -> valid_viewing vk -> valid_spending zkey -> valid_ext Check_ ext -> valid_ext_pub extpub ->
  is_bytes bad -> length bad = 32%nat -> Z.land (hd 0 bad) 0xF0 <> 0 ->
  (exists text, EncodeSecret Hash params secret = Some text /\ DecodeSecret Hash Check_ params text = Some secret) /\
  (exists text, EncodeViewingKey Hash params vk = Some (inr text) /\ DecodeViewingKey Hash params text = Some (inr vk)) /\
  (exists text, EncodeSpendingKey Hash params zkey = Some (inr text) /\ DecodeSpendingKey Hash params text = Some (inr zkey)) /\
  (exists text, EncodeExtKey Hash params ext = Some text /\ DecodeExtKey Hash Check_ params text = Some (Some ext)) /\
  (exists text, EncodeExtPubKey Hash params extpub = Some text /\ DecodeExtPubKey Hash params text = Some (Some extpub)) /\
  exists text, EncodeBase58Check Hash (Base58Prefix params ZCSPENDING_KEY ++ bad) = Some text /\
    DecodeSpendingKey Hash params text = Some (inl InvalidLeadingBits).
Proof.
  intros HH Hp H1 H2 H3 H4 H5 Hb Hl Hbits. split_and!;
    [by apply secret_codec|by apply viewing_codec|by apply spending_codec|by apply ext_codec|by apply ext_pub_codec|].
  destruct (check58 Hash HH params ZCSPENDING_KEY bad 32 Hb Hl) as (text & -> & Hd & Hpre & Hdrop); [lia|]. exists text. split; [done|].
  unfold DecodeSpendingKey, decode58, SerializedSproutSpendingKeySize. rewrite Hd. monad. rewrite Hpre, Hdrop. monad. f_equal.
  unfold read_from, uint252_codec, uint256_codec. cbn [dec iso_codec seq_codec blob_codec]. unfold rbind.
  rewrite <- (app_nil_r bad), read_app by lia. unfold guard_codec.
  destruct (Z.eqb_spec (Z.land (hd 0 bad) 0xF0) 0); [done|]. done.
Qed.

Lemma key_roundtrip_witness :
  exists text, EncodeBase58Check (fun _ => [1; 2; 3; 4]) (Base58Prefix CMainParams ZCSPENDING_KEY ++ replicate 32 0xFF) = Some text /\
    DecodeSpendingKey (fun _ => [1; 2; 3; 4]) CMainParams text = Some (inl InvalidLeadingBits).
Proof.
  set (k := {| fValid := true; fCompressed := true; vch := replicate 32 9 |}).
  apply (key_roundtrip (fun _ => [1; 2; 3; 4]) (fun _ => true) CMainParams k InvalidViewingKey InvalidSpendingKey
    {| nDepth := 0; vchFingerprint := replicate 4 0; nChild := 7; ek_chaincode := replicate 32 1; key := k |}
    {| p_nDepth := 0; p_vchFingerprint := replicate 4 0; p_nChild := 7; p_chaincode := replicate 32 1; pubkey := 2 :: replicate 32 1 |}
    (replicate 32 0xFF)); try done.
  - intros m _. split; [apply bytes_check; reflexivity|simpl; lia].
  - apply _.
  - split_and!; [done|apply bytes_check; reflexivity|done|done].
  - split_and!; [unfold is_u8; simpl; lia|apply bytes_check; reflexivity|done|unfold is_u32; simpl; lia|apply bytes_check; reflexivity|done|
      split_and!; [done|apply bytes_check; reflexivity|done|done]|done].
  - split_and!; [unfold is_u8; simpl; lia|apply bytes_check; reflexivity|done|unfold is_u32; simpl; lia|apply bytes_check; reflexivity|done|
      apply bytes_check; reflexivity|done|done].
  - apply bytes_check; reflexivity.
Defined.

(** ** What an address looks like *)

Lemma check_lead Hash pre body n lead s0 k : (forall m, is_bytes m -> is_bytes (Hash m) /\ (4 <= length (Hash m))%nat) ->
  fixes pre (n + 4) lead k = true -> is_bytes (pre ++ body) -> length body = n -> Z.of_nat (length (pre ++ body)) < 2 ^ 29 ->
  mapM (fun d => pszBase58 !! Z.to_nat d) lead = Some s0 ->
  exists s, EncodeBase58Check Hash (pre ++ body) = Some (s0 ++ s) /\ length s = k.
Proof.
  intros HH Hf Hb Hl Hlen Hm. destruct (HH (pre ++ body) Hb) as [Hhb Hhl]. pose proof Hb as Hb'. apply Forall_app in Hb' as [_ Hbody].
  unfold EncodeBase58Check. rewrite <- app_assoc.
  destruct (EncodeBase58_lead pre (n + 4) lead k (body ++ take 4 (Hash (pre ++ body))) Hf) as (s1 & s & Hm' & He & Hk).
  - apply Forall_app. split; [done|by apply Forall_take].
  - rewrite length_app, length_take. lia.
  - rewrite !length_app, length_take in *. lia.
  - rewrite Hm in Hm'. injection Hm' as <-. eauto.
Qed.

Lemma main_text Hash ty h lead s0 k : (forall m, is_bytes m -> is_bytes (Hash m) /\ (4 <= length (Hash m))%nat) ->
  is_bytes h -> (length h <= 200)%nat -> fixes (Base58Prefix CMainParams ty) (length h + 4) lead k = true ->
  mapM (fun d => pszBase58 !! Z.to_nat d) lead = Some s0 ->
  exists s, EncodeBase58Check Hash (Base58Prefix CMainParams ty ++ h) = Some (s0 ++ s) /\ length s = k.
Proof.
  intros HH Hb Hl Hf Hm. destruct (kp_prefix (params := CMainParams) ty) as [Hp Hpl].
  apply (check_lead Hash _ h (length h) lead); try done; [by apply Forall_app|rewrite length_app; lia].
Qed.

(** The main-net prefixes do what their comments promise for transparent
    addresses and Sprout keys: the text of a key-hash address has 35 characters and
    starts with [r1], that of a script-hash address with [r3], that of a Sprout
    viewing key with [ZiVK] and that of a Sprout spending key with [SK], whatever the
    hash and the key. *)
Lemma address_text_prefixes Hash h vk a_sk :
  (forall m, is_bytes m -> is_bytes (Hash m) /\ (4 <= length (Hash m))%nat) ->
  is_bytes h -> length h = 20%nat -> valid SproutViewingKey_codec vk -> valid uint252_codec a_sk ->
  (exists s, EncodeDestination Hash CMainParams (CKeyID h) = Some (chars "r1" ++ s) /\ length s = 33%nat) /\
  (exists s, EncodeDestination Hash CMainParams (CScriptID h) = Some (chars "r3" ++ s) /\ length s = 33%nat) /\
  (exists s, EncodeViewingKey Hash CMainParams (SproutViewing vk) = Some (inr (chars "ZiVK" ++ s)) /\ length s = 93%nat) /\
  (exists s, EncodeSpendingKey Hash CMainParams (SproutSpending a_sk) = Some (inr (chars "SK" ++ s)) /\ length s = 50%nat).
Proof.
  intros HH Hb Hl Hv Hs. unfold EncodeDestination, EncodeViewingKey, EncodeSpendingKey, encode58.
  destruct (dec_enc (c := SproutViewingKey_codec) vk Hv) as (bv & Ev & Hbv & _). rewrite Ev. apply writes_SproutViewingKey in Ev; [|done].
  destruct (dec_enc (c := uint252_codec) a_sk Hs) as (bk & Ek & Hbk & _). rewrite Ek. apply writes_uint252 in Ek; [|done]. split_and!.
  - apply (main_text Hash PUBKEY_ADDRESS h [49; 0]); [done|done|lia|rewrite Hl; vm_compute; reflexivity|reflexivity].
  - apply (main_text Hash SCRIPT_ADDRESS h [49; 2]); [done|done|lia|rewrite Hl; vm_compute; reflexivity|reflexivity].
  - destruct (main_text Hash ZCVIEWING_KEY bv [32; 41; 28; 18] (chars "ZiVK") 93) as (s & -> & Hk);
      [done|done|lia|rewrite Ev; vm_compute; reflexivity|reflexivity|]. exists s. by monad.
  - destruct (main_text Hash ZCSPENDING_KEY bk [25; 18] (chars "SK") 50) as (s & -> & Hk);
      [done|done|lia|rewrite Ek; vm_compute; reflexivity|reflexivity|]. exists s. by monad.
Qed.

Lemma address_text_prefixes_witness :
  exists s, EncodeDestination (fun _ => [1; 2; 3; 4]) CMainParams (CKeyID (replicate 20 5)) = Some (chars "r1" ++ s) /\ length s = 33%nat.
Proof.
  apply (address_text_prefixes (fun _ => [1; 2; 3; 4]) (replicate 20 5) {| vk_a_pk := replicate 32 1; sk_enc := replicate 32 2 |} (replicate 32 1)).
  - intros m _. split; [apply bytes_check; reflexivity|simpl; lia].
  - apply bytes_check; reflexivity.
  - reflexivity.
  - split; split; first [apply bytes_check; reflexivity|reflexivity].
  - split; [split; first [apply bytes_check; reflexivity|reflexivity]|reflexivity].
Defined.

(** The comment on the Sprout address prefix promises [zr] as well; there are
    addresses whose text starts with [zq]. *)
Lemma sprout_address_zq Hash : (forall m, is_bytes m -> is_bytes (Hash m) /\ (4 <= length (Hash m))%nat) ->
  exists s, EncodePaymentAddress Hash CMainParams (SproutAddress {| a_pk := replicate 32 0; pk_enc := replicate 32 0 |}) = Some (inr (chars "zq" ++ s)).
Proof.
  intros HH. unfold EncodePaymentAddress, encode58. change (enc SproutPaymentAddress_codec _) with (@inr io_error _ (replicate 64 0)).
  destruct (check_lead Hash ([0x16; 0xB2] ++ replicate 2 0) (replicate 62 0) 62 [57; 48] (chars "zq") 93 HH) as (s & He & _);
    [vm_compute; reflexivity|apply bytes_check; reflexivity|reflexivity|by vm_compute|reflexivity|].
  exists s. change (Base58Prefix CMainParams ZCPAYMENT_ADDRRESS ++ replicate 64 0) with (([0x16; 0xB2] ++ replicate 2 0) ++ replicate 62 0).
  rewrite He. by monad.
Qed.


(** So does that of the test-net script prefix, [rs]; there are [rr] addresses. *)
Lemma testnet_script_rr Hash : (forall m, is_bytes m -> is_bytes (Hash m) /\ (4 <= length (Hash m))%nat) ->
  exists s, EncodeDestination Hash CTestNetParams (CScriptID (replicate 20 0)) = Some (chars "rr" ++ s).
Proof.
  intros HH. unfold EncodeDestination.
  destruct (check_lead Hash ([0x1C; 0x13] ++ replicate 2 0) (replicate 18 0) 18 [49; 49] (chars "rr") 33 HH) as (s & He & _);
    [vm_compute; reflexivity|apply bytes_check; reflexivity|reflexivity|by vm_compute|reflexivity|].
  exists s. change (Base58Prefix CTestNetParams SCRIPT_ADDRESS ++ replicate 20 0) with (([0x1C; 0x13] ++ replicate 2 0) ++ replicate 18 0).
  exact He.
Qed.


End KeyIO.
