(* ===== verification/Standard.v ===== *)
(** * Standard scripts (src/script/standard.cpp)

    The templates of [Solver], the destinations of a script and the scripts of a
    destination.  [None] is undefined behaviour or a failed assertion; [Hash160] is
    RIPEMD-160 of SHA-256.  The theorems give the shape of every answer of [Solver]
    and tie scripts, destinations and address texts together. *)

From stdpp Require Import base list list_numbers numbers option strings.
From Stdlib Require Import ZArith Lia.
From S2P Require Import Prelude Bytes Script StrEncodings Base58 KeyIO.
Import Script KeyIO.
#[local] Open Scope Z_scope.

Module Standard.

Inductive txnouttype :=
| TX_NONSTANDARD | TX_PUBKEY | TX_PUBKEYHASH | TX_SCRIPTHASH | TX_MULTISIG | TX_NULL_DATA.

#[global] Instance txnouttype_dec : EqDecision txnouttype.
Proof. solve_decision. Defined.

Definition GetTxnOutputType (t : txnouttype) : string :=
  match t with
  | TX_NONSTANDARD => "nonstandard" | TX_PUBKEY => "pubkey" | TX_PUBKEYHASH => "pubkeyhash"
  | TX_SCRIPTHASH => "scripthash" | TX_MULTISIG => "multisig" | TX_NULL_DATA => "nulldata"
  end.

Definition MAX_OP_RETURN_RELAY : Z := 80.

Section standard.
(** [-datacarrier] when the templates are built, [nMaxDatacarrierBytes], and [Hash160]. *)
Context (datacarrier : bool) (nMaxDatacarrierBytes : Z) (Hash160 : list Z -> list Z).

(** The multimap, ordered by type and then by insertion *)
Definition mTemplates : list (txnouttype * list Z) :=
  [(TX_PUBKEY, [OP_PUBKEY; OP_CHECKSIG]);
   (TX_PUBKEYHASH, [OP_DUP; OP_HASH160; OP_PUBKEYHASH; OP_EQUALVERIFY; OP_CHECKSIG]);
   (TX_MULTISIG, [OP_SMALLINTEGER; OP_PUBKEYS; OP_SMALLINTEGER; OP_CHECKMULTISIG])] ++
  (if datacarrier then [(TX_NULL_DATA, [OP_RETURN; OP_SMALLDATA])] else []) ++
  [(TX_NULL_DATA, [OP_RETURN])].

(** The loop under [OP_PUBKEYS].  A read that fails leaves the invalid opcode and no data. *)
Fixpoint pubkeys_loop (fuel : nat) (opcode1 : Z) (vch1 pc1 : list Z) (vSolutions : list (list Z)) :
    option (Z * list Z * list Z * list (list Z)) :=
  if (size vch1 >=? 33) && (size vch1 <=? 65) then
    match fuel with
    | O => None
    | S fuel =>
        let vSolutions := vSolutions ++ [vch1] in
        match GetOp2 pc1 with
        | None => Some (OP_INVALIDOPCODE, [], pc1, vSolutions)
        | Some (opcode1, vch1, pc1) => pubkeys_loop fuel opcode1 vch1 pc1 vSolutions
        end
    end
  else Some (opcode1, vch1, pc1, vSolutions).

(** The two reads of a turn and the loop under [OP_PUBKEYS]; [Some None] is [break]. *)
Definition read_ops (pc1 pc2 : list Z) (vSolutions : list (list Z)) :
    option (option (Z * list Z * list Z * (Z * list Z * list Z) * list (list Z))) :=
  match GetOp2 pc1 with
  | None => Some None
  | Some (opcode1, vch1, pc1) =>
      match GetOp2 pc2 with
      | None => Some None
      | Some (opcode2, vch2, pc2) =>
          if opcode2 =? OP_PUBKEYS then
            '(opcode1, vch1, pc1, vSolutions) ← pubkeys_loop (S (length pc1)) opcode1 vch1 pc1 vSolutions;
            Some (match GetOp2 pc2 with
                  | None => None
                  | Some next => Some (opcode1, vch1, pc1, next, vSolutions)
                  end)
          else Some (Some (opcode1, vch1, pc1, (opcode2, vch2, pc2), vSolutions))
      end
  end.

(** The comparison of an opcode with one of the template: the solutions, or [break] *)
Definition match_op (opcode1 : Z) (vch1 : list Z) (opcode2 : Z) (vch2 : list Z) (vSolutions : list (list Z)) :
    option (option (list (list Z))) :=
  if opcode2 =? OP_PUBKEY then
    if (size vch1 <? 33) || (size vch1 >? 65) then Some None else Some (Some (vSolutions ++ [vch1]))
  else if opcode2 =? OP_PUBKEYHASH then
    if negb (size vch1 =? 20) then Some None else Some (Some (vSolutions ++ [vch1]))
  else if opcode2 =? OP_SMALLINTEGER then
    if (opcode1 =? OP_0) || ((opcode1 >=? OP_1) && (opcode1 <=? OP_16)) then
      n ← DecodeOP_N opcode1; Some (Some (vSolutions ++ [[u8 n]]))
    else Some None
  else if opcode2 =? OP_SMALLDATA then
    if size vch1 >? nMaxDatacarrierBytes then Some None else Some (Some vSolutions)
  else if negb (opcode1 =? opcode2) || negb (bool_decide (vch1 = vch2)) then Some None
  else Some (Some vSolutions).

(** [while (true)] over one template: the solutions of a match, or [Some None].
    Every turn reads an opcode of the template, so its length bounds the turns. *)
Fixpoint match_loop (fuel : nat) (pc1 pc2 : list Z) (vSolutions : list (list Z)) : option (option (list (list Z))) :=
  match fuel with
  | O => None
  | S fuel =>
      match pc1, pc2 with
      | [], [] => Some (Some vSolutions)
      | _, _ =>
          r ← read_ops pc1 pc2 vSolutions;
          match r with
          | None => Some None
          | Some (opcode1, vch1, pc1, (opcode2, vch2, pc2), vSolutions) =>
              r ← match_op opcode1 vch1 opcode2 vch2 vSolutions;
              match r with
              | None => Some None
              | Some vSolutions => match_loop fuel pc1 pc2 vSolutions
              end
          end
      end
  end.

(** The loop over the templates *)
Fixpoint scan_templates (script : list Z) (ts : list (txnouttype * list Z)) : option (bool * txnouttype * list (list Z)) :=
  match ts with
  | [] => Some (false, TX_NONSTANDARD, [])
  | (ty, script2) :: ts =>
      r ← match_loop (S (length script2)) script script2 [];
      match r with
      | None => scan_templates script ts
      | Some vSolutions =>
          if bool_decide (ty = TX_MULTISIG) then
            m ← head vSolutions ≫= head;
            n ← last vSolutions ≫= head;
            if (m <? 1) || (n <? 1) || (m >? n) || negb (u64 (Z.of_nat (length vSolutions) - 2) =? n)
            then Some (false, ty, vSolutions) else Some (true, ty, vSolutions)
          else Some (true, ty, vSolutions)
      end
  end.

(** The returned flag, [typeRet] and [vSolutionsRet] (given empty, as all callers do) *)
Definition Solver (scriptPubKey : list Z) : option (bool * txnouttype * list (list Z)) :=
  if IsPayToScriptHash scriptPubKey then Some (true, TX_SCRIPTHASH, [take 20 (drop 2 scriptPubKey)])
  else scan_templates scriptPubKey mTemplates.

Definition ScriptSigArgsExpected (t : txnouttype) (vSolutions : list (list Z)) : Z :=
  match t with
  | TX_NONSTANDARD | TX_NULL_DATA => -1
  | TX_PUBKEY => 1
  | TX_PUBKEYHASH => 2
  | TX_MULTISIG => match vSolutions with (m :: _) :: _ => m + 1 | _ => -1 end
  | TX_SCRIPTHASH => 1
  end.

Definition IsStandard (scriptPubKey : list Z) : option (bool * txnouttype) :=
  '(ok, whichType, vSolutions) ← Solver scriptPubKey;
  if negb (ok : bool) then Some (false, whichType)
  else if bool_decide (whichType = TX_MULTISIG) then
    m ← head vSolutions ≫= head;
    n ← last vSolutions ≫= head;
    if (n <? 1) || (n >? 3) then Some (false, whichType)
    else if (m <? 1) || (m >? n) then Some (false, whichType)
    else Some (true, whichType)
  else Some (bool_decide (whichType <> TX_NONSTANDARD), whichType).

(** [CPubKey(v).IsValid()] and [GetID()] *)
Definition IsValid (pubKey : list Z) : bool := negb (CPubKey_size pubKey =? 0)%nat.
Definition GetID (pubKey : list Z) : CTxDestination := CKeyID (Hash160 (take (CPubKey_size pubKey) pubKey)).

(** [Some None] is [return false]. *)
Definition ExtractDestination (scriptPubKey : list Z) : option (option CTxDestination) :=
  '(ok, whichType, vSolutions) ← Solver scriptPubKey;
  if negb (ok : bool) then Some None
  else match whichType with
       | TX_PUBKEY =>
           v ← head vSolutions;
           let pubKey := CPubKey_Set v in
           if negb (IsValid pubKey) then Some None else Some (Some (GetID pubKey))
       | TX_PUBKEYHASH => v ← head vSolutions; Some (Some (CKeyID v))
       | TX_SCRIPTHASH => v ← head vSolutions; Some (Some (CScriptID v))
       | _ => Some None
       end.

(** The destinations and [nRequiredRet] with the type; [Some (ty, None)] is [return false]. *)
Definition ExtractDestinations (scriptPubKey : list Z) : option (txnouttype * option (list CTxDestination * Z)) :=
  '(ok, typeRet, vSolutions) ← Solver scriptPubKey;
  if negb (ok : bool) then Some (typeRet, None)
  else match typeRet with
       | TX_NULL_DATA => Some (typeRet, None)
       | TX_MULTISIG =>
           nRequired ← head vSolutions ≫= head;
           let keys := take (length vSolutions - 2) (drop 1 vSolutions) in
           let addresses := GetID <$> List.filter IsValid (CPubKey_Set <$> keys) in
           match addresses with
           | [] => Some (typeRet, None)
           | _ => Some (typeRet, Some (addresses, nRequired))
           end
       | _ =>
           r ← ExtractDestination scriptPubKey;
           match r with
           | None => Some (typeRet, None)
           | Some address => Some (typeRet, Some ([address], 1))
           end
       end.

End standard.

Definition GetScriptForDestination (dest : CTxDestination) : list Z :=
  match dest with
  | CNoDestination => []
  | CKeyID keyID => [OP_DUP; OP_HASH160] ++ push_vector keyID ++ [OP_EQUALVERIFY; OP_CHECKSIG]
  | CScriptID scriptID => [OP_HASH160] ++ push_vector scriptID ++ [OP_EQUAL]
  end.

Definition GetScriptForMultisig (nRequired : Z) (keys : list (list Z)) : option (list Z) :=
  m ← EncodeOP_N nRequired;
  n ← EncodeOP_N (s32 (Z.of_nat (length keys)));
  Some ([m] ++ concat (push_vector <$> keys) ++ [n; OP_CHECKMULTISIG]).

Definition DestFromAddressHash (scriptType : ScriptType) (addressHash : list Z) : CTxDestination :=
  match scriptType with
  | P2PKH => CKeyID addressHash
  | P2SH => CScriptID addressHash
  | UNKNOWN => CNoDestination
  end.

(** ** Matching terminates *)

Lemma pubkeys_loop_spec fuel : forall op v pc sols, (length pc < fuel)%nat ->
  exists op' v' pc' keys, pubkeys_loop fuel op v pc sols = Some (op', v', pc', sols ++ keys) /\
    Forall (fun k => 33 <= size k <= 65) keys /\ (length keys <= S (length pc))%nat.
Proof.
  induction fuel as [|fuel IH]; intros op v pc sols Hf; [lia|]. cbn [pubkeys_loop]. rewrite Z.geb_leb.
  destruct ((33 <=? size v) && (size v <=? 65)) eqn:Hv; [|exists op, v, pc, []; rewrite app_nil_r; split_and!; [done|done|simpl; lia]]. apply andb_true_iff in Hv as [Hv1 Hv2].
  destruct (GetOp2 pc) as [[[op1 v1] pc1]|] eqn:E.
  - apply GetOp2_progress in E as [E _]. destruct (IH op1 v1 pc1 (sols ++ [v])) as (op' & v' & pc' & keys & -> & Hk & Hl); [lia|].
    exists op', v', pc', (v :: keys). rewrite <- app_assoc. split_and!; [done|constructor; [lia|done]|simpl; lia].
  - exists OP_INVALIDOPCODE, [], pc, [v]. split_and!; [done|apply Forall_singleton; lia|simpl; lia].
Qed.

Lemma DecodeOP_N_small op : (op =? OP_0) || ((op >=? OP_1) && (op <=? OP_16)) = true -> exists n, DecodeOP_N op = Some n /\ 0 <= n <= 16.
Proof.
  intros H. unfold DecodeOP_N. destruct (op =? OP_0); [exists 0; split; [done|lia]|]. simpl in H. rewrite H. eexists. split; [done|].
  rewrite Z.geb_leb in H. unfold OP_1, OP_16 in *. lia.
Qed.

Section solver_facts.
Context (mx : Z).
Abbreviation ML := (match_loop mx).

Lemma read_ops_total pc1 pc2 sols : exists r, read_ops pc1 pc2 sols = Some r /\
  forall o1 v1 p1 o2 v2 p2 sols', r = Some (o1, v1, p1, (o2, v2, p2), sols') -> (length p2 < length pc2)%nat.
Proof.
  unfold read_ops. destruct (GetOp2 pc1) as [[[o1 v1] p1]|]; [|by exists None]. destruct (GetOp2 pc2) as [[[o2 v2] p2]|] eqn:E2; [|by exists None].
  apply GetOp2_progress in E2 as [E2 _]. destruct (o2 =? OP_PUBKEYS).
  - destruct (pubkeys_loop_spec (S (length p1)) o1 v1 p1 sols) as (? & ? & ? & ? & -> & _); [lia|]. monad. eexists. split; [done|].
    intros o3 v3 p3 o4 v4 p4 sols3 Heq. destruct (GetOp2 p2) as [[[o5 v5] p5]|] eqn:E3; [|done]. apply GetOp2_progress in E3 as [E3 _]. simplify_eq. lia.
  - eexists. split; [done|]. intros o3 v3 p3 o4 v4 p4 sols3 Heq. by simplify_eq.
Qed.

Lemma match_op_total o1 v1 o2 v2 sols : is_Some (match_op mx o1 v1 o2 v2 sols).
Proof.
  unfold match_op. repeat (case_match; try by eexists). destruct (DecodeOP_N_small o1) as (n & -> & _); [done|]. by eexists.
Qed.

Lemma match_loop_total fuel : forall pc1 pc2 sols, (length pc2 < fuel)%nat -> is_Some (ML fuel pc1 pc2 sols).
Proof.
  induction fuel as [|fuel IH]; intros pc1 pc2 sols Hf; [lia|]. cbn [match_loop].
  destruct (read_ops_total pc1 pc2 sols) as (r & E & Hr). rewrite E. monad.
  enough (is_Some (match r with None => Some None | Some (o1, v1, p1, (o2, v2, p2), sols') =>
    r ← match_op mx o1 v1 o2 v2 sols'; match r with None => Some None | Some s => ML fuel p1 p2 s end end)) as H
    by (destruct pc1, pc2; [by eexists|exact H..]).
  destruct r as [[[[[o1 v1] p1] [[o2 v2] p2]] sols']|]; [|by eexists]. specialize (Hr _ _ _ _ _ _ _ eq_refl).
  destruct (match_op_total o1 v1 o2 v2 sols') as [[s|] ->]; monad; [|by eexists]. apply IH. lia.
Qed.

(** ** What a match is *)

(** The opcodes [GetOp] reads one after the other, with what they push *)
Inductive reads : list Z -> list (Z * list Z) -> list Z -> Prop :=
| reads_none pc : reads pc [] pc
| reads_op pc o v pc1 l pc2 : GetOp2 pc = Some (o, v, pc1) -> reads pc1 l pc2 -> reads pc ((o, v) :: l) pc2.

Definition is_key (k : list Z) : Prop := 33 <= size k <= 65.
Definition small_int (o n : Z) : Prop := o = OP_0 /\ n = 0 \/ 1 <= n <= 16 /\ o = OP_1 + n - 1.

(** The scripts of each type but pay-to-script-hash, by their opcodes, and their solutions *)
Inductive template (dc : bool) (mx : Z) : txnouttype -> list (Z * list Z) -> list (list Z) -> Prop :=
| template_pubkey o key : is_key key -> template dc mx TX_PUBKEY [(o, key); (OP_CHECKSIG, [])] [key]
| template_pubkeyhash o hash : size hash = 20 ->
    template dc mx TX_PUBKEYHASH [(OP_DUP, []); (OP_HASH160, []); (o, hash); (OP_EQUALVERIFY, []); (OP_CHECKSIG, [])] [hash]
| template_multisig om m keys on n : small_int om m -> small_int on n -> Forall (fun k => is_key k.2) keys ->
    template dc mx TX_MULTISIG ((om, []) :: keys ++ [(on, []); (OP_CHECKMULTISIG, [])]) ([[m]] ++ keys.*2 ++ [[n]])
| template_data o v : dc = true -> size v <= mx -> template dc mx TX_NULL_DATA [(OP_RETURN, []); (o, v)] []
| template_return : template dc mx TX_NULL_DATA [(OP_RETURN, [])] [].

(** The numbers of a multisig script that make sense *)
Definition consistent (vSolutions : list (list Z)) : Prop :=
  exists m n keys, vSolutions = [[m]] ++ keys ++ [[n]] /\ 1 <= m <= n /\ Z.of_nat (length keys) = n.

Definition to_script_hash (script hash : list Z) : Prop := script = [OP_HASH160; 20] ++ hash ++ [OP_EQUAL] /\ length hash = 20%nat.

(** The answer a script deserves *)
Definition answer (dc : bool) (mx : Z) (script : list Z) (ok : bool) (ty : txnouttype) (vSolutions : list (list Z)) : Prop :=
  match ty with
  | TX_SCRIPTHASH => ok = true /\ exists hash, to_script_hash script hash /\ vSolutions = [hash]
  | TX_NONSTANDARD => ok = false /\ vSolutions = [] /\ (forall hash, ~ to_script_hash script hash) /\
      forall ops ty' sols, reads script ops [] -> ~ template dc mx ty' ops sols
  | TX_MULTISIG => (ok = true <-> consistent vSolutions) /\ exists ops, reads script ops [] /\ template dc mx ty ops vSolutions
  | _ => ok = true /\ exists ops, reads script ops [] /\ template dc mx ty ops vSolutions
  end.

Lemma reads_cons pc o v l pc2 : reads pc ((o, v) :: l) pc2 <-> exists pc1, GetOp2 pc = Some (o, v, pc1) /\ reads pc1 l pc2.
Proof. split; [inversion 1; subst; eauto|intros (pc1 & H1 & H2); by eapply reads_op]. Qed.

Lemma reads_nil pc pc2 : reads pc [] pc2 <-> pc = pc2.
Proof. split; [by inversion 1|intros ->; apply reads_none]. Qed.

Lemma reads_app pc l k pc2 : reads pc (l ++ k) pc2 <-> exists pc1, reads pc l pc1 /\ reads pc1 k pc2.
Proof.
  revert pc. induction l as [|[o v] l IH]; intros pc; cbn [app]; [split; [exists pc; by rewrite reads_nil|by intros (? & ->%reads_nil & H)]|].
  rewrite reads_cons. split.
  - intros (p & E & (p1 & H1 & H2)%IH). exists p1. split; [by eapply reads_op|done].
  - intros (p1 & (p & E & H1)%reads_cons & H2). exists p. split; [done|]. apply IH. eauto.
Qed.

Lemma small_int_spec o : (o =? OP_0) || ((o >=? OP_1) && (o <=? OP_16)) = true -> exists n, DecodeOP_N o = Some n /\ small_int o n.
Proof.
  unfold DecodeOP_N, small_int. destruct (Z.eqb_spec o OP_0); [exists 0; auto|]. cbn [orb]. intros H. rewrite H. eexists. split; [done|].
  rewrite Z.geb_leb in H. unfold OP_1, OP_16 in *. lia.
Qed.
Lemma small_int_decode o n : small_int o n -> (o =? OP_0) || ((o >=? OP_1) && (o <=? OP_16)) = true /\ DecodeOP_N o = Some n /\ 0 <= n <= 16.
Proof.
  unfold small_int, DecodeOP_N. intros [[-> ->]|[Hn ->]]; [done|]. destruct (Z.eqb_spec (OP_1 + n - 1) OP_0) as [E|]; [unfold OP_1, OP_0 in E; lia|].
  rewrite Z.geb_leb, !(proj2 (Z.leb_le _ _)) by (unfold OP_1, OP_16; lia). split_and!; [done| |lia..]. f_equal. lia.
Qed.

(** Small integers push nothing more. *)
Lemma small_int_data pc o v pc1 n : GetOp2 pc = Some (o, v, pc1) -> small_int o n -> v = [].
Proof.
  destruct pc as [|op pc]; [done|]. cbn [GetOp2]. intros H [[-> _]|[Hn ->]].
  - destruct (Z.leb_spec op OP_PUSHDATA4); [|by injection H]. apply bind_Some in H as ([k p] & H1 & H2). destruct (size p <? k); [done|]. injection H2 as -> <- _.
    change (OP_0 <? OP_PUSHDATA1) with true in H1. injection H1 as <- <-. done.
  - destruct (Z.leb_spec op OP_PUSHDATA4) as [Hle|]; [|by injection H]. apply bind_Some in H as ([k p] & H1 & H2). destruct (size p <? k); [done|]. injection H2 as -> _ _.
    unfold OP_1, OP_PUSHDATA4 in Hle. lia.
Qed.

Lemma GetOp2_op op rest : OP_PUSHDATA4 < op -> GetOp2 (op :: rest) = Some (op, [], rest).
Proof. intros H. cbn [GetOp2]. by rewrite (proj2 (Z.leb_gt _ _)) by done. Qed.

Lemma match_loop_turn fuel pc1 op t sols : ML (S fuel) pc1 (op :: t) sols =
  (r ← read_ops pc1 (op :: t) sols;
   match r with
   | None => Some None
   | Some (o1, v1, p1, (o2, v2, p2), sols') =>
       r ← match_op mx o1 v1 o2 v2 sols'; match r with None => Some None | Some s => ML fuel p1 p2 s end
   end).
Proof. by destruct pc1. Qed.

(** *** A match, one template opcode at a time *)

Lemma match_end fuel pc1 sols r : ML (S fuel) pc1 [] sols = Some (Some r) <-> pc1 = [] /\ r = sols.
Proof.
  cbn [match_loop]. destruct pc1 as [|x pc1]; [split; [by intros [= <-]|by intros [_ ->]]|].
  unfold read_ops. split; [|by intros [? _]]. destruct (GetOp2 (x :: pc1)) as [[[? ?] ?]|]; cbn [GetOp2]; by monad.
Qed.

Lemma match_step fuel pc1 op t sols r : OP_PUSHDATA4 < op -> op <> OP_PUBKEYS ->
  ML (S fuel) pc1 (op :: t) sols = Some (Some r) <->
  exists o1 v1 p1 sols', GetOp2 pc1 = Some (o1, v1, p1) /\ match_op mx o1 v1 op [] sols = Some (Some sols') /\ ML fuel p1 t sols' = Some (Some r).
Proof.
  intros Hop Hne. rewrite match_loop_turn. unfold read_ops. rewrite (GetOp2_op op t Hop). destruct (Z.eqb_spec op OP_PUBKEYS); [done|]. split.
  - intros H'. destruct (GetOp2 pc1) as [[[o1 v1] p1]|]; [|done]. monad_in H'. apply bind_Some in H' as ([s|] & H1 & H2); [|done]. by exists o1, v1, p1, s.
  - intros (o1 & v1 & p1 & s & -> & H1 & H2). monad. rewrite H1. by monad.
Qed.

Lemma match_op_key o1 v1 sols r : match_op mx o1 v1 OP_PUBKEY [] sols = Some (Some r) <-> is_key v1 /\ r = sols ++ [v1].
Proof.
  unfold match_op, is_key. change (OP_PUBKEY =? OP_PUBKEY) with true. cbv iota. rewrite Z.gtb_ltb. destruct (_ || _) eqn:E.
  - split; [done|]. apply orb_true_iff in E. rewrite !Z.ltb_lt in E. intros [? _]. lia.
  - apply orb_false_iff in E. rewrite !Z.ltb_ge in E. split; [intros [= <-]; split; [lia|done]|by intros [_ ->]].
Qed.

Lemma match_op_hash o1 v1 sols r : match_op mx o1 v1 OP_PUBKEYHASH [] sols = Some (Some r) <-> size v1 = 20 /\ r = sols ++ [v1].
Proof.
  unfold match_op. change (OP_PUBKEYHASH =? OP_PUBKEY) with false. change (OP_PUBKEYHASH =? OP_PUBKEYHASH) with true. cbv iota.
  destruct (Z.eqb_spec (size v1) 20); (split; [try done; by intros [= <-]|try (intros [? _]; done); by intros [_ ->]]).
Qed.

Lemma match_op_int o1 v1 sols r : match_op mx o1 v1 OP_SMALLINTEGER [] sols = Some (Some r) <-> exists n, small_int o1 n /\ r = sols ++ [[n]].
Proof.
  unfold match_op. change (OP_SMALLINTEGER =? OP_PUBKEY) with false. change (OP_SMALLINTEGER =? OP_PUBKEYHASH) with false.
  change (OP_SMALLINTEGER =? OP_SMALLINTEGER) with true. cbv iota. destruct (_ || _) eqn:E.
  - destruct (small_int_spec o1 E) as (n & D & Hn). destruct (small_int_decode o1 n Hn) as (_ & _ & Hr). rewrite D. monad. rewrite u8_id by (unfold is_u8; lia). split.
    + intros [= <-]. eauto.
    + intros (n' & H & ->). apply small_int_decode in H as (_ & D' & _). rewrite D' in D. by injection D as ->.
  - split; [done|]. intros (n & H & _). apply small_int_decode in H as (H & _). congruence.
Qed.

Lemma match_op_data o1 v1 sols r : match_op mx o1 v1 OP_SMALLDATA [] sols = Some (Some r) <-> size v1 <= mx /\ r = sols.
Proof.
  unfold match_op. change (OP_SMALLDATA =? OP_PUBKEY) with false. change (OP_SMALLDATA =? OP_PUBKEYHASH) with false.
  change (OP_SMALLDATA =? OP_SMALLINTEGER) with false. change (OP_SMALLDATA =? OP_SMALLDATA) with true. cbv iota. rewrite Z.gtb_ltb.
  destruct (Z.ltb_spec mx (size v1)); (split; [try done; by intros [= <-]|try (intros [? _]; lia); by intros [_ ->]]).
Qed.

Lemma match_op_exact o1 v1 op sols r : Forall (fun t => op <> t) [OP_PUBKEY; OP_PUBKEYHASH; OP_SMALLINTEGER; OP_SMALLDATA] ->
  match_op mx o1 v1 op [] sols = Some (Some r) <-> (o1 = op /\ v1 = []) /\ r = sols.
Proof.
  intros H. rewrite !Forall_cons in H. destruct H as (H1 & H2 & H3 & H4 & _). unfold match_op.
  rewrite !(proj2 (Z.eqb_neq op _)) by done. destruct (Z.eqb_spec o1 op); [|split; [done|by intros [[? _] _]]]. cbn [negb orb].
  case_bool_decide; cbn [negb]; (split; [try done; by intros [= <-]|try (intros [[_ ?] _]; done); by intros [_ ->]]).
Qed.

(** *** The keys of a multisig script *)

Lemma keys_read fuel : forall pc0 o v pc sols o' v' pc' sols', GetOp2 pc0 = Some (o, v, pc) ->
  pubkeys_loop fuel o v pc sols = Some (o', v', pc', sols') -> o' <> OP_INVALIDOPCODE ->
  exists keys, sols' = sols ++ keys.*2 /\ Forall (fun k => is_key k.2) keys /\ reads pc0 (keys ++ [(o', v')]) pc'.
Proof.
  induction fuel as [|fuel IH]; intros pc0 o v pc sols o' v' pc' sols' E; cbn [pubkeys_loop]; rewrite Z.geb_leb.
  { destruct (_ && _); [done|]. intros [= <- <- <- <-] _. exists []. rewrite app_nil_r. split_and!; [done|done|]. by eapply reads_op, reads_none. }
  destruct ((33 <=? size v) && (size v <=? 65)) eqn:Hv.
  2: { intros [= <- <- <- <-] _. exists []. rewrite app_nil_r. split_and!; [done|done|]. by eapply reads_op, reads_none. }
  apply andb_true_iff in Hv as [Hv1%Z.leb_le Hv2%Z.leb_le].
  destruct (GetOp2 pc) as [[[op1 v1] pc1]|] eqn:E1; [|intros [= <- _ _ _]; done].
  intros H Hne. destruct (IH pc op1 v1 pc1 _ _ _ _ _ E1 H Hne) as (keys & -> & Hk & Hr). exists ((o, v) :: keys).
  rewrite <- app_assoc. split_and!; [done|by constructor|]. by eapply reads_op.
Qed.

Lemma keys_found keys : Forall (fun k => is_key k.2) keys -> forall fuel pc0 o v pc sols o' pc', GetOp2 pc0 = Some (o, v, pc) ->
  reads pc0 (keys ++ [(o', [])]) pc' -> (length pc < fuel)%nat -> pubkeys_loop fuel o v pc sols = Some (o', [], pc', sols ++ keys.*2).
Proof.
  induction 1 as [|[k1 k2] keys Hk _ IH]; intros fuel pc0 o v pc sols o' pc' E Hr Hf; (destruct fuel as [|fuel]; [lia|]); cbn [pubkeys_loop app fmap list_fmap snd] in *;
    apply reads_cons in Hr as (p & E' & Hr); rewrite E in E'; simplify_eq.
  - apply reads_nil in Hr as ->. by rewrite app_nil_r.
  - cbn [snd] in Hk. unfold is_key in Hk. rewrite Z.geb_leb, !(proj2 (Z.leb_le _ _)) by lia. cbn [andb].
    assert (exists o1 v1 p1, GetOp2 p = Some (o1, v1, p1)) as (o1 & v1 & p1 & E1).
    { destruct keys as [|[a b] keys]; apply reads_cons in Hr as (p1 & E1 & _); eauto. }
    rewrite E1. rewrite (IH fuel p o1 v1 p1 (sols ++ [k2]) o' pc' E1 Hr); [by rewrite <- app_assoc|]. apply GetOp2_progress in E1 as [E1 _]. lia.
Qed.

Lemma match_keys fuel pc1 t sols r : ML (S fuel) pc1 (OP_PUBKEYS :: OP_SMALLINTEGER :: t) sols = Some (Some r) <->
  exists keys on n p1, Forall (fun k => is_key k.2) keys /\ small_int on n /\ reads pc1 (keys ++ [(on, [])]) p1 /\
    ML fuel p1 t (sols ++ keys.*2 ++ [[n]]) = Some (Some r).
Proof.
  rewrite match_loop_turn. unfold read_ops. rewrite !GetOp2_op by done. change (OP_PUBKEYS =? OP_PUBKEYS) with true. cbv iota. split.
  - destruct (GetOp2 pc1) as [[[o1 v1] p1]|] eqn:E1; [|done].
    destruct (pubkeys_loop_spec (S (length p1)) o1 v1 p1 sols) as (o & v & p & keys0 & E & _ & _); [lia|]. rewrite E. monad.
    intros H. apply bind_Some in H as ([s|] & H1 & H2); [|done]. apply match_op_int in H1 as (n & Hn & ->).
    assert (o <> OP_INVALIDOPCODE) as Hne by (intros ->; destruct Hn as [[? _]|[? Hn]]; [done|unfold OP_INVALIDOPCODE, OP_1 in Hn; lia]).
    destruct (keys_read _ _ _ _ _ _ _ _ _ _ E1 E Hne) as (keys & E0 & Hk & Hr). apply app_inv_head in E0 as ->.
    assert (v = []) as ->.
    { apply reads_app in Hr as (q & _ & (q1 & Hq & _)%reads_cons). by eapply small_int_data. }
    exists keys, o, n, p. split_and!; [done..|]. by rewrite app_assoc.
  - intros (keys & on & n & p & Hk & Hn & Hr & H). assert (exists o1 v1 p1, GetOp2 pc1 = Some (o1, v1, p1)) as (o1 & v1 & p1 & E1).
    { destruct keys as [|[a b] keys]; apply reads_cons in Hr as (p1 & E1 & _); eauto. }
    rewrite E1. rewrite (keys_found keys Hk (S (length p1)) pc1 o1 v1 p1 sols on p E1 Hr) by lia. monad.
    rewrite (proj2 (match_op_int on [] (sols ++ keys.*2) _) (ex_intro _ n (conj Hn eq_refl))). monad. by rewrite <- app_assoc.
Qed.

End solver_facts.

(** ** The answers of [Solver] *)

Definition shape (ty : txnouttype) (vSolutions : list (list Z)) : Prop :=
  match ty with
  | TX_NONSTANDARD => False
  | TX_PUBKEY => exists key, vSolutions = [key] /\ 33 <= size key <= 65
  | TX_PUBKEYHASH | TX_SCRIPTHASH => exists hash, vSolutions = [hash] /\ length hash = 20%nat
  | TX_MULTISIG => exists m n keys, vSolutions = [[m]] ++ keys ++ [[n]] /\ 1 <= m <= n /\ n <= 16 /\
      Z.of_nat (length keys) = n /\ Forall (fun k => 33 <= size k <= 65) keys
  | TX_NULL_DATA => vSolutions = []
  end.

Section shapes.
Context (dc : bool) (mx : Z).
Abbreviation ML := (match_loop mx).
Abbreviation matches := (fun s ty r => exists ops, reads s ops [] /\ template dc mx ty ops r).

(** A template opcode that must occur literally *)
Lemma match_literal fuel s op t sols r : OP_PUSHDATA4 < op -> Forall (fun t => op <> t) [OP_PUBKEYS; OP_PUBKEY; OP_PUBKEYHASH; OP_SMALLINTEGER; OP_SMALLDATA] ->
  ML (S fuel) s (op :: t) sols = Some (Some r) <-> exists p, GetOp2 s = Some (op, [], p) /\ ML fuel p t sols = Some (Some r).
Proof.
  intros Hop H. apply Forall_cons in H as [H1 H2]. rewrite match_step by done. split.
  - intros (o & v & p & sols' & E & [[-> ->] ->]%match_op_exact & H); [|done]. eauto.
  - intros (p & E & H). exists op, [], p, sols. rewrite match_op_exact by done. done.
Qed.

Lemma match_pubkey s r : ML 3 s [OP_PUBKEY; OP_CHECKSIG] [] = Some (Some r) <-> matches s TX_PUBKEY r.
Proof.
  rewrite match_step by done. split.
  - intros (o & v & p & s1 & E & [Hk ->]%match_op_key & H). apply match_literal in H as (p2 & E2 & [-> ->]%match_end); [|by repeat constructor..].
    exists [(o, v); (OP_CHECKSIG, [])]. split; [|by apply template_pubkey]. rewrite reads_cons. exists p. split; [done|]. rewrite reads_cons. eexists. by rewrite reads_nil.
  - intros (ops & Hr & Ht). inversion Ht as [o k Hk| | | |]; subst. apply reads_cons in Hr as (p & E & (p2 & E2 & ->%reads_nil)%reads_cons). exists o, k, p, [k].
    rewrite match_op_key. split_and!; [done..|]. apply match_literal; [done|by repeat constructor|]. exists []. by rewrite match_end.
Qed.

Lemma match_pubkeyhash s r : ML 6 s [OP_DUP; OP_HASH160; OP_PUBKEYHASH; OP_EQUALVERIFY; OP_CHECKSIG] [] = Some (Some r) <-> matches s TX_PUBKEYHASH r.
Proof.
  rewrite match_literal by (try done; by repeat constructor). split.
  - intros (p1 & E1 & H). apply match_literal in H as (p2 & E2 & H); [|by repeat constructor..]. apply match_step in H as (o & v & p3 & s1 & E3 & [Hk ->]%match_op_hash & H); [|done..].
    apply match_literal in H as (p4 & E4 & H); [|by repeat constructor..]. apply match_literal in H as (p5 & E5 & [-> ->]%match_end); [|by repeat constructor..].
    eexists. split; [|by apply (template_pubkeyhash dc mx o)]. do 5 (eapply reads_op; [eassumption|]). apply reads_none.
  - intros (ops & Hr & Ht). inversion Ht as [|o hash Hh| | |]; subst.
    apply reads_cons in Hr as (p1 & E1 & (p2 & E2 & (p3 & E3 & (p4 & E4 & (p5 & E5 & ->%reads_nil)%reads_cons)%reads_cons)%reads_cons)%reads_cons).
    exists p1. split; [done|]. apply match_literal; [done|by repeat constructor|]. exists p2. split; [done|]. apply match_step; [done..|]. exists o, hash, p3, [hash].
    rewrite match_op_hash. split_and!; [done..|]. apply match_literal; [done|by repeat constructor|]. exists p4. split; [done|].
    apply match_literal; [done|by repeat constructor|]. exists []. by rewrite match_end.
Qed.

Lemma match_multisig s r : ML 5 s [OP_SMALLINTEGER; OP_PUBKEYS; OP_SMALLINTEGER; OP_CHECKMULTISIG] [] = Some (Some r) <-> matches s TX_MULTISIG r.
Proof.
  rewrite match_step by done. split.
  - intros (o & v & p & s1 & E & (m & Hm & ->)%match_op_int & H). apply match_keys in H as (keys & on & n & p2 & Hk & Hn & Hr & H).
    apply match_literal in H as (p3 & E3 & [-> ->]%match_end); [|by repeat constructor..]. rewrite (small_int_data _ _ _ _ _ E Hm) in E.
    eexists. split; [|by apply (template_multisig dc mx o m keys on n)]. eapply reads_op; [exact E|]. change [(on, []); (OP_CHECKMULTISIG, [])] with ([(on, [] : list Z)] ++ [(OP_CHECKMULTISIG, [])]).
    rewrite app_assoc, reads_app. exists p2. split; [done|]. eapply reads_op; [exact E3|apply reads_none].
  - intros (ops & Hr & Ht). inversion Ht as [| |om m keys on n Hm Hn Hk| |]; subst. apply reads_cons in Hr as (p & E & Hr).
    change [(on, []); (OP_CHECKMULTISIG, [])] with ([(on, [] : list Z)] ++ [(OP_CHECKMULTISIG, [])]) in Hr.
    rewrite app_assoc, reads_app in Hr. destruct Hr as (p2 & Hr & (p3 & E3 & ->%reads_nil)%reads_cons).
    exists om, [], p, [[m]]. rewrite match_op_int. split_and!; [done|eauto|]. apply match_keys. exists keys, on, n, p2. split_and!; [done..|].
    apply match_literal; [done|by repeat constructor|]. exists []. by rewrite match_end.
Qed.

Lemma match_return s r : ML 2 s [OP_RETURN] [] = Some (Some r) <-> reads s [(OP_RETURN, [])] [] /\ r = [].
Proof.
  rewrite match_literal by (try done; by repeat constructor). split.
  - intros (p & E & [-> ->]%match_end). split; [|done]. by eapply reads_op, reads_none.
  - intros [(p & E & ->%reads_nil)%reads_cons ->]. exists []. by rewrite match_end.
Qed.

Lemma match_data s r : ML 3 s [OP_RETURN; OP_SMALLDATA] [] = Some (Some r) <-> (exists o v, reads s [(OP_RETURN, []); (o, v)] [] /\ size v <= mx) /\ r = [].
Proof.
  rewrite match_literal by (try done; by repeat constructor). split.
  - intros (p & E & H). apply match_step in H as (o & v & p2 & s1 & E2 & [Hv ->]%match_op_data & [-> ->]%match_end); [|done..]. split; [|done].
    exists o, v. split; [|done]. eapply reads_op; [exact E|]. by eapply reads_op, reads_none.
  - intros [(o & v & (p & E & (p2 & E2 & ->%reads_nil)%reads_cons)%reads_cons & Hv) ->]. exists p. split; [done|].
    apply match_step; [done..|]. exists o, v, [], []. rewrite match_op_data, match_end. done.
Qed.

(** The two templates of data outputs, the first one with [-datacarrier] only *)
Definition null_templates : list (txnouttype * list Z) :=
  (if dc then [(TX_NULL_DATA, [OP_RETURN; OP_SMALLDATA])] else []) ++ [(TX_NULL_DATA, [OP_RETURN])].

Lemma scan_null s : exists ok ty sols, scan_templates mx s null_templates = Some (ok, ty, sols) /\
  (ok = true /\ ty = TX_NULL_DATA /\ matches s TX_NULL_DATA sols \/
   ok = false /\ ty = TX_NONSTANDARD /\ sols = [] /\ forall r, ~ matches s TX_NULL_DATA r).
Proof.
  assert (exists ok ty sols, scan_templates mx s [(TX_NULL_DATA, [OP_RETURN])] = Some (ok, ty, sols) /\
    (ok = true /\ ty = TX_NULL_DATA /\ matches s TX_NULL_DATA sols \/
     ok = false /\ ty = TX_NONSTANDARD /\ sols = [] /\ ~ reads s [(OP_RETURN, [])] [])) as Hret.
  { cbn [scan_templates length]. destruct (match_loop_total mx 2 s [OP_RETURN] []) as [[r|] Hr]; [simpl; lia|..]; rewrite Hr; monad.
    - apply match_return in Hr as [Hr ->]. exists true, TX_NULL_DATA, []. split; [done|]. left. split_and!; [done..|]. eexists. split; [exact Hr|apply template_return].
    - exists false, TX_NONSTANDARD, []. split; [done|]. right. split_and!; [done..|]. intros H. rewrite (proj2 (match_return s []) (conj H eq_refl)) in Hr. done. }
  destruct Hret as (ok & ty & sols & E & Hret). unfold null_templates. destruct dc eqn:Hdc.
  - cbn [app scan_templates length]. destruct (match_loop_total mx 3 s [OP_RETURN; OP_SMALLDATA] []) as [[r|] Hr]; [simpl; lia|..]; rewrite Hr; monad.
    + apply match_data in Hr as [(o & v & Hr & Hv) ->]. exists true, TX_NULL_DATA, []. split; [done|]. left. split_and!; [done..|]. eexists. split; [exact Hr|by apply template_data].
    + cbn [scan_templates length] in E. exists ok, ty, sols. split; [exact E|]. destruct Hret as [H|(-> & -> & -> & Hn)]; [by left|right]. split_and!; [done..|].
      intros r (ops & Ho & Ht). inversion Ht; subst; [|done]. rewrite (proj2 (match_data s []) (conj (ex_intro _ o (ex_intro _ v (conj Ho ltac:(done)))) eq_refl)) in Hr. done.
  - cbn [app]. exists ok, ty, sols. split; [exact E|]. destruct Hret as [H|(-> & -> & -> & Hn)]; [by left|right]. split_and!; [done..|].
    intros r (ops & Ho & Ht). by inversion Ht; subst.
Qed.

Lemma reads_length s ops p : reads s ops p -> (length ops <= length s)%nat.
Proof. induction 1 as [|pc o v pc1 l pc2 E _ IH]; simpl; [lia|]. apply GetOp2_progress in E as [E _]. lia. Qed.

(** The checks after a match of the multisig template. *)
Lemma multisig_checked m n (keys : list (list Z)) : Z.of_nat (length keys) < 2 ^ 60 ->
  (m <? 1) || (n <? 1) || (m >? n) || negb (u64 (Z.of_nat (length ([[m]] ++ keys ++ [[n]])) - 2) =? n) = false <->
  consistent ([[m]] ++ keys ++ [[n]]).
Proof.
  intros Hlen. rewrite !orb_false_iff, Z.gtb_ltb, negb_false_iff, !length_app. cbn [length].
  rewrite u64_id by (clear - Hlen; unfold is_u64; lia). rewrite Z.eqb_eq, !Z.ltb_ge. unfold consistent. split.
  - intros [[[H1 H2] H3] H4]. exists m, n, keys. split; [done|lia].
  - intros (m' & n' & keys' & E & Hm & Hk). injection E as -> E. apply app_inj_tail in E as [-> [= ->]]. lia.
Qed.

End shapes.

Lemma to_script_hash_spec script : IsPayToScriptHash script = true <-> to_script_hash script (take 20 (drop 2 script)).
Proof.
  unfold IsPayToScriptHash, to_script_hash. rewrite !andb_true_iff, !Z.eqb_eq. unfold size. split.
  - intros (((Hs & H0) & H1) & H2). assert (length script = 23%nat) as Hl by lia. clear Hs.
    do 23 (destruct script as [|? script]; [done|]). destruct script; [|done]. cbn in H0, H1, H2. subst. done.
  - intros [E Hl]. remember (take 20 (drop 2 script)) as h eqn:Eh. clear Eh. subst script.
    do 20 (destruct h as [|? h]; [done|]). by destruct h.
Qed.

Lemma Solver_answer dc mx script : Z.of_nat (length script) < 2 ^ 60 ->
  exists ok ty sols, Solver dc mx script = Some (ok, ty, sols) /\ answer dc mx script ok ty sols.
Proof.
  intros Hlen. unfold Solver. destruct (IsPayToScriptHash script) eqn:Hp.
  { eexists true, TX_SCRIPTHASH, _. split; [done|]. split; [done|]. eexists. split; [by apply to_script_hash_spec|done]. }
  assert (forall hash, ~ to_script_hash script hash) as Hno.
  { intros hash H. enough (IsPayToScriptHash script = true) by congruence. apply to_script_hash_spec. replace (take 20 (drop 2 script)) with hash; [done|].
    destruct H as [-> Hl]. change (drop 2 _) with (hash ++ [OP_EQUAL]). rewrite take_app_le by lia. rewrite take_ge by lia. done. }
  change (mTemplates dc) with ([(TX_PUBKEY, [OP_PUBKEY; OP_CHECKSIG]); (TX_PUBKEYHASH, [OP_DUP; OP_HASH160; OP_PUBKEYHASH; OP_EQUALVERIFY; OP_CHECKSIG]);
    (TX_MULTISIG, [OP_SMALLINTEGER; OP_PUBKEYS; OP_SMALLINTEGER; OP_CHECKMULTISIG])] ++ null_templates dc). cbn [app scan_templates length].
  destruct (match_loop_total mx 3 script [OP_PUBKEY; OP_CHECKSIG] []) as [[r|] Hr]; [simpl; lia|..]; rewrite Hr; monad.
  { exists true, TX_PUBKEY, r. split; [done|]. split; [done|]. by apply (match_pubkey dc mx). }
  destruct (match_loop_total mx 6 script [OP_DUP; OP_HASH160; OP_PUBKEYHASH; OP_EQUALVERIFY; OP_CHECKSIG] []) as [[r|] Hr2]; [simpl; lia|..]; rewrite Hr2; monad.
  { exists true, TX_PUBKEYHASH, r. split; [done|]. split; [done|]. by apply (match_pubkeyhash dc mx). }
  destruct (match_loop_total mx 5 script [OP_SMALLINTEGER; OP_PUBKEYS; OP_SMALLINTEGER; OP_CHECKMULTISIG] []) as [[r|] Hr3]; [simpl; lia|..]; rewrite Hr3; monad.
  - apply (match_multisig dc mx) in Hr3 as (ops & Ho & Ht). inversion Ht as [| |om m keys on n Hm Hn Hk Hty Hops Hsols| |]; subst. rewrite bool_decide_eq_true_2 by done.
    assert (last ([[m]] ++ keys.*2 ++ [[n]]) ≫= head = Some n) as Hlast by (rewrite app_assoc, last_snoc; done).
    change (head ([[m]] ++ keys.*2 ++ [[n]]) ≫= head) with (Some m). monad. rewrite Hlast. monad.
    assert (Z.of_nat (length (keys.*2)) < 2 ^ 60) as Hk60 by (apply reads_length in Ho; cbn [length] in Ho; rewrite length_app in Ho; rewrite length_fmap; lia).
    pose proof (multisig_checked m n (keys.*2) Hk60) as Hc. destruct (_ || _) eqn:Ec in |- *.
    + rewrite Ec in Hc. eexists false, TX_MULTISIG, _. split; [done|]. split; [|by eauto]. split; [done|]. intros H%Hc. done.
    + rewrite Ec in Hc. eexists true, TX_MULTISIG, _. split; [done|]. split; [|by eauto]. split; [|done]. intros _. by apply Hc.
  - destruct (scan_null dc mx script) as (ok & ty & sols & -> & [(-> & -> & H)|(-> & -> & -> & Hn)]).
    + exists true, TX_NULL_DATA, sols. by split.
    + exists false, TX_NONSTANDARD, []. split; [done|]. split_and!; [done..|]. intros ops ty' sols Ho Ht.
      assert (forall (x : option (option (list (list Z)))), x = Some None -> x = Some (Some sols) -> False) as Hx by (intros x -> H; done).
      destruct ty'; [by inversion Ht| | |by inversion Ht| |].
      * eapply (Hx _ Hr), (match_pubkey dc mx). eauto.
      * eapply (Hx _ Hr2), (match_pubkeyhash dc mx). eauto.
      * eapply (Hx _ Hr3), (match_multisig dc mx). eauto.
      * apply (Hn sols). eauto.
Qed.

Lemma multisig_solutions dc mx ops sols : template dc mx TX_MULTISIG ops sols ->
  exists m n keys, sols = [[m]] ++ keys ++ [[n]] /\ 0 <= n <= 16 /\ Forall is_key keys.
Proof.
  inversion 1 as [| |om m keys on n Hm Hn Hk| |]; subst. exists m, n, (keys.*2). split; [done|].
  apply small_int_decode in Hn as (_ & _ & Hn). split; [done|]. by apply Forall_fmap.
Qed.

Lemma answer_shape dc mx script ok ty sols : answer dc mx script ok ty sols -> ok = true -> shape ty sols.
Proof.
  destruct ty; cbn [answer shape]; intros Ha ->.
  - by destruct Ha.
  - destruct Ha as (_ & ops & _ & Ht). inversion Ht; subst. eauto.
  - destruct Ha as (_ & ops & _ & Ht). inversion Ht as [|o hash Hh| | |]; subst. exists hash. split; [done|]. unfold size in Hh. lia.
  - destruct Ha as (_ & hash & [_ Hl] & ->). eauto.
  - destruct Ha as (Hc & ops & _ & Ht). destruct (proj1 Hc eq_refl) as (m & n & keys & -> & Hm & Hk). exists m, n, keys.
    destruct (multisig_solutions _ _ _ _ Ht) as (m' & n' & keys' & Es & Hn' & Hk'). injection Es as -> Es.
    apply app_inj_tail in Es as [<- [= ->]]. split_and!; [done|lia..|done|done].
  - destruct Ha as (_ & ops & _ & Ht). by inversion Ht.
Qed.

Lemma Solver_shape dc mx script : Z.of_nat (length script) < 2 ^ 60 ->
  exists ok ty sols, Solver dc mx script = Some (ok, ty, sols) /\ (ok = true -> shape ty sols).
Proof. intros Hl. destruct (Solver_answer dc mx script Hl) as (ok & ty & sols & E & H). exists ok, ty, sols. split; [done|]. by apply (answer_shape dc mx script). Qed.


(** C31: on every script (of less than 2^60 bytes) [Solver] answers, without undefined
    behaviour, and the answer is the one the script deserves.  It is pay-to-script-hash
    exactly with the 20 bytes between OP_HASH160, their length and OP_EQUAL; otherwise,
    when the opcodes of the script are those of a key, a key hash, a multisig or a data
    output, it is that type with the key of 33 to 65 bytes, the hash of 20 bytes, the
    number required, the keys and the total, or nothing; a multisig script is refused
    exactly when its numbers are inconsistent (not [1 <= m <= n] with [n] keys); and the
    answer is nonstandard, without solutions, only when the script has none of these
    forms.  What is accepted has the shape of its type. *)
Theorem Solver_types dc mx script : Z.of_nat (length script) < 2 ^ 60 ->
  exists ok ty sols, Solver dc mx script = Some (ok, ty, sols) /\ answer dc mx script ok ty sols /\ (ok = true -> shape ty sols).
Proof.
  intros Hl. destruct (Solver_answer dc mx script Hl) as (ok & ty & sols & E & H). exists ok, ty, sols.
  split_and!; [done..|]. by apply (answer_shape dc mx script).
Qed.

(** Two keys where three are announced: multisig, refused. *)
Lemma Solver_types_witness :
  let key := 2 :: replicate 32 7 in let script := [OP_1; 33] ++ key ++ [33] ++ key ++ [OP_1 + 2; OP_CHECKMULTISIG] in
  Solver true 80 script = Some (false, TX_MULTISIG, [[1]; key; key; [3]]) /\ answer true 80 script false TX_MULTISIG [[1]; key; key; [3]].
Proof.
  intros key script. assert (Solver true 80 script = Some (false, TX_MULTISIG, [[1]; key; key; [3]])) as E by (vm_compute; reflexivity).
  split; [exact E|]. destruct (Solver_types true 80 script) as (ok & ty & sols & H1 & H2 & _); [by vm_compute|].
  rewrite E in H1. injection H1 as <- <- <-. exact H2.
Defined.


(** ** From destinations to scripts and back *)

Lemma destination_script dc mx Hash160 dest : valid_destination dest ->
  ExtractDestination dc mx Hash160 (GetScriptForDestination dest) = Some (match dest with CNoDestination => None | _ => Some dest end) /\
  DestFromAddressHash (GetType (GetScriptForDestination dest)) (AddressHash (GetScriptForDestination dest)) = dest.
Proof.
  destruct dest as [|h|h]; intros Hv; [destruct dc; by vm_compute|..]; destruct Hv as [_ Hl];
    do 20 (destruct h as [|? h]; [done|]); destruct h; try done; destruct dc; split; reflexivity.
Qed.

(** The keys of a multisig script are read one after the other. *)
Lemma pubkeys_loop_keys keys : Forall (fun k => 33 <= size k <= 65) keys -> forall fuel op v pc rest sols,
  33 <= size v <= 65 -> pc = concat (push_vector <$> keys) ++ rest -> (length pc < fuel)%nat ->
  forall op' pc', GetOp2 rest = Some (op', [], pc') -> pubkeys_loop fuel op v pc sols = Some (op', [], pc', sols ++ v :: keys).
Proof.
  induction 1 as [|k keys Hk Hks IH]; intros fuel op v pc rest sols Hv -> Hf op' pc' E; destruct fuel as [|fuel]; try lia; cbn [pubkeys_loop].
  - rewrite Z.geb_leb, (proj2 (Z.leb_le _ _)), (proj2 (Z.leb_le _ _)) by lia. cbn [andb fmap list_fmap concat app]. rewrite E. by destruct fuel.
  - rewrite Z.geb_leb, (proj2 (Z.leb_le _ _)), (proj2 (Z.leb_le _ _)) by lia. cbn [andb]. cbn [fmap list_fmap concat] in *. rewrite <- app_assoc in *.
    destruct (GetOp2_push k (concat (push_vector <$> keys) ++ rest)) as (o & Ho & _); [lia|]. rewrite Ho.
    rewrite (IH fuel o k _ rest (sols ++ [v]) Hk eq_refl) with (op' := op') (pc' := pc'); [by rewrite <- app_assoc| |done].
    apply GetOp2_progress in Ho as [Ho _]. lia.
Qed.

Lemma EncodeOP_N_spec n : 1 <= n <= 16 -> EncodeOP_N n = Some (n + 80) /\ DecodeOP_N (n + 80) = Some n /\
  (n + 80 =? OP_0) || ((n + 80 >=? OP_1) && (n + 80 <=? OP_16)) = true.
Proof.
  intros Hn. assert (n = 1 \/ n = 2 \/ n = 3 \/ n = 4 \/ n = 5 \/ n = 6 \/ n = 7 \/ n = 8 \/ n = 9 \/ n = 10 \/ n = 11 \/ n = 12 \/ n = 13 \/ n = 14 \/ n = 15 \/ n = 16) as H by lia.
  repeat destruct H as [->|H]; [done..|]. by subst.
Qed.

Lemma read_op o pc op t sols : OP_PUSHDATA4 < o -> OP_PUSHDATA4 < op -> op <> OP_PUBKEYS ->
  read_ops (o :: pc) (op :: t) sols = Some (Some (o, [], pc, (op, [], t), sols)).
Proof. intros Ho Hop Hne. unfold read_ops. rewrite !GetOp2_op by done. by destruct (Z.eqb_spec op OP_PUBKEYS). Qed.

Lemma match_small mx n sols : 1 <= n <= 16 -> match_op mx (n + 80) [] OP_SMALLINTEGER [] sols = Some (Some (sols ++ [[n]])).
Proof.
  intros Hn. destruct (EncodeOP_N_spec n Hn) as (_ & D & C). unfold match_op. change (OP_SMALLINTEGER =? OP_PUBKEY) with false.
  change (OP_SMALLINTEGER =? OP_PUBKEYHASH) with false. change (OP_SMALLINTEGER =? OP_SMALLINTEGER) with true. cbv iota. rewrite C, D. monad.
  by rewrite u8_id by (unfold is_u8; lia).
Qed.

Lemma read_keys k keys n t sols : 1 <= n <= 16 -> Forall (fun k => 33 <= size k <= 65) (k :: keys) ->
  read_ops (concat (push_vector <$> (k :: keys)) ++ (n + 80) :: t) (OP_PUBKEYS :: OP_SMALLINTEGER :: t) sols =
  Some (Some (n + 80, [], t, (OP_SMALLINTEGER, [], t), sols ++ k :: keys)).
Proof.
  intros Hn Hk. inversion Hk as [|? ? Hk1 Hks]; subst. cbn [fmap list_fmap concat]. rewrite <- app_assoc.
  assert (GetOp2 ((n + 80) :: t) = Some (n + 80, [], t)) as Hrest by (apply GetOp2_op; unfold OP_PUSHDATA4; lia).
  destruct (GetOp2_push k (concat (push_vector <$> keys) ++ (n + 80) :: t)) as (o & Ho & _); [lia|]. unfold read_ops. rewrite Ho.
  rewrite GetOp2_op by done. change (OP_PUBKEYS =? OP_PUBKEYS) with true. cbv iota.
  erewrite (pubkeys_loop_keys keys Hks); [|done|done|lia|exact Hrest]. monad. by rewrite GetOp2_op by done.
Qed.

Lemma match_multisig_script mx m n k keys : 1 <= m <= 16 -> 1 <= n <= 16 -> Forall (fun k => 33 <= size k <= 65) (k :: keys) ->
  match_loop mx 5 ((m + 80) :: concat (push_vector <$> (k :: keys)) ++ [n + 80; OP_CHECKMULTISIG])
    [OP_SMALLINTEGER; OP_PUBKEYS; OP_SMALLINTEGER; OP_CHECKMULTISIG] [] = Some (Some ([[m]] ++ (k :: keys) ++ [[n]])).
Proof.
  intros Hm Hn Hk. rewrite match_loop_turn, read_op by (unfold OP_PUSHDATA4, OP_SMALLINTEGER, OP_PUBKEYS; lia). monad.
  rewrite match_small by done. monad. rewrite match_loop_turn, read_keys by done. monad. rewrite match_small by done. monad.
  rewrite <- app_assoc. reflexivity.
Qed.

Definition valid_pubkey (k : list Z) : Prop := CPubKey_size k = length k /\ (33 <= length k <= 65)%nat.

(** A first opcode that pushes no key, or is not [OP_DUP]. *)
Lemma mismatch_key mx f x pc t : OP_PUSHDATA4 < x -> match_loop mx (S f) (x :: pc) (OP_PUBKEY :: t) [] = Some None.
Proof. intros Hx. rewrite match_loop_turn, read_op by done. reflexivity. Qed.

Lemma mismatch_dup mx f x pc t : OP_PUSHDATA4 < x -> x <> OP_DUP -> match_loop mx (S f) (x :: pc) (OP_DUP :: t) [] = Some None.
Proof.
  intros Hx Hne. rewrite match_loop_turn, read_op by done. monad. unfold match_op. change (OP_DUP =? _) with false. cbv iota.
  by rewrite (proj2 (Z.eqb_neq x OP_DUP)) by done.
Qed.

Lemma Solver_multisig dc mx m keys : 1 <= m <= Z.of_nat (length keys) -> (length keys <= 16)%nat -> Forall valid_pubkey keys ->
  exists script, GetScriptForMultisig m keys = Some script /\
    Solver dc mx script = Some (true, TX_MULTISIG, [[m]] ++ keys ++ [[Z.of_nat (length keys)]]).
Proof.
  intros Hm Hn Hk. assert (Forall (fun k => 33 <= size k <= 65) keys) as Hk' by (eapply Forall_impl; [exact Hk|]; intros k [_ ?]; unfold size; lia).
  unfold GetScriptForMultisig. rewrite s32_id by (unfold is_s32; lia). remember (Z.of_nat (length keys)) as n eqn:En0.
  destruct (EncodeOP_N_spec m ltac:(lia)) as (Em & _). destruct (EncodeOP_N_spec n ltac:(lia)) as (En & _). rewrite Em, En. monad. eexists. split; [done|].
  cbn [app]. unfold Solver, IsPayToScriptHash. change (at_byte ((m + 80) :: _) 0) with (m + 80).
  replace (m + 80 =? OP_HASH160) with false by (symmetry; apply Z.eqb_neq; unfold OP_HASH160; lia). rewrite andb_false_r, !andb_false_l.
  unfold mTemplates. cbn [app scan_templates length]. rewrite (mismatch_key mx 2) by (unfold OP_PUSHDATA4; lia). monad.
  rewrite (mismatch_dup mx 5) by (unfold OP_PUSHDATA4, OP_DUP; lia).
  monad. destruct keys as [|k keys]; [simpl in En0; lia|]. rewrite match_multisig_script by (try done; lia). monad. rewrite bool_decide_eq_true_2 by done.
  change (head ([[m]] ++ (k :: keys) ++ [[n]]) ≫= head) with (Some m). monad. 
  assert (last ([[m]] ++ (k :: keys) ++ [[n]]) ≫= head = Some n) as -> by (rewrite app_assoc, last_snoc; done). monad.
  replace (_ || _) with false; [done|]. symmetry. rewrite !orb_false_iff, Z.gtb_ltb, negb_false_iff, !Z.ltb_ge, Z.eqb_eq, !length_app. cbn [length].
  rewrite u64_id by (unfold is_u64; cbn [length] in Hn; lia). cbn [length] in *. split_and!; lia.
Qed.

Lemma keys_extracted (keys : list (list Z)) : Forall valid_pubkey keys ->
  List.filter IsValid (CPubKey_Set <$> keys) = keys.
Proof.
  induction 1 as [|k keys [Hs Hl] _ IH]; [done|]. cbn [fmap list_fmap].
  assert (CPubKey_Set k = k) as ->.
  { unfold CPubKey_Set, CPubKey_size in *. destruct k as [|h k]; [simpl in Hl; lia|]. by rewrite Hs, Nat.eqb_refl. }
  cbn [List.filter]. unfold IsValid at 1. rewrite Hs. destruct (Nat.eqb_spec (length k) 0); [lia|]. cbn [negb]. f_equal. exact IH.
Qed.

(** The script of a destination is recognised as that destination, by [Solver]
    and by the address index alike, also when the destination went through the text
    of an address; and a multisig script gives back the number required and the
    identifiers of its keys, in order. *)
Lemma destination_script_roundtrip dc mx Hash Hash160 params dest m keys :
  (forall b, is_bytes b -> is_bytes (Hash b) /\ (4 <= length (Hash b))%nat) -> KeyParamsOk params ->
  valid_destination dest -> dest <> CNoDestination -> 1 <= m <= Z.of_nat (length keys) -> (length keys <= 16)%nat -> Forall valid_pubkey keys ->
  ExtractDestination dc mx Hash160 (GetScriptForDestination dest) = Some (Some dest) /\
  DestFromAddressHash (GetType (GetScriptForDestination dest)) (AddressHash (GetScriptForDestination dest)) = dest /\
  (exists text, EncodeDestination Hash params dest = Some text /\
    (dest' ← DecodeDestination Hash params text; ExtractDestination dc mx Hash160 (GetScriptForDestination dest')) = Some (Some dest)) /\
  exists script, GetScriptForMultisig m keys = Some script /\
    ExtractDestinations dc mx Hash160 script = Some (TX_MULTISIG, Some (GetID Hash160 <$> keys, m)).
Proof.
  intros HH Hp Hv Hne Hm Hn Hk. destruct (destination_script dc mx Hash160 dest Hv) as [He Ha].
  assert (ExtractDestination dc mx Hash160 (GetScriptForDestination dest) = Some (Some dest)) as He' by (rewrite He; by destruct dest).
  split_and!; [done|done| |].
  - destruct (destination_codec Hash HH params dest Hv) as (text & Ht & Hd). exists text. split; [done|]. rewrite Hd. by monad.
  - destruct (Solver_multisig dc mx m keys Hm Hn Hk) as (script & Hs & Hsol). exists script. split; [done|].
    unfold ExtractDestinations. rewrite Hsol. monad. cbn [negb]. change (head ([[m]] ++ keys ++ [[Z.of_nat (length keys)]]) ≫= head) with (Some m). monad.
    rewrite !length_app. cbn [length]. replace (1 + (length keys + 1) - 2)%nat with (length keys) by lia.
    change (drop 1 ([[m]] ++ keys ++ [[Z.of_nat (length keys)]])) with (keys ++ [[Z.of_nat (length keys)]]). rewrite take_app_length, keys_extracted by done.
    destruct keys as [|k keys]; [simpl in Hm; lia|]. done.
Qed.

Lemma destination_script_roundtrip_witness :
  exists script, GetScriptForMultisig 1 [2 :: replicate 32 7] = Some script /\
    ExtractDestinations true 80 (fun b => b) script = Some (TX_MULTISIG, Some ([GetID (fun b => b) (2 :: replicate 32 7)], 1)).
Proof.
  apply (destination_script_roundtrip true 80 (fun _ => [1; 2; 3; 4]) (fun b => b) CMainParams (CKeyID (replicate 20 5)) 1 [2 :: replicate 32 7]).
  - intros b _. split; [apply bytes_check; reflexivity|simpl; lia].
  - apply _.
  - split; [apply bytes_check; reflexivity|reflexivity].
  - discriminate.
  - simpl. lia.
  - simpl. lia.
  - apply Forall_singleton. split; [reflexivity|simpl; lia].
Defined.


End Standard.
