(* ===== verification/Bloom.v ===== *)
(** * Bloom filters (src/bloom.{h,cpp}, MurmurHash3 of src/hash.cpp, the filter
    messages of [ProcessMessage] in src/main.cpp)

    The filter a peer loads to select transactions, the rolling filter of recently
    seen items, and the messages that change a peer's filter.  [None] is undefined
    behaviour: a remainder by zero or an access outside [vData].  The sizes that the
    constructors compute in floating point are parameters. *)

From stdpp Require Import base list list_numbers numbers option.
From Stdlib Require Import ZArith Lia.
From S2P Require Import Prelude Bytes Serialize Transaction Script StrEncodings Standard.
Import Endian Serialize Transaction Script Standard.
#[local] Open Scope Z_scope.

Module Bloom.

(** ** MurmurHash3 *)

Definition ROTL32 (x r : Z) : Z := Z.lor (u32 (Z.shiftl x r)) (Z.shiftr x (32 - r)).

Definition c1 : Z := 0xcc9e2d51.
Definition c2 : Z := 0x1b873593.

Definition mix_k (k1 : Z) : Z := u32 (ROTL32 (u32 (k1 * c1)) 15 * c2).

(** The body: four bytes at a time; the rest is the tail. *)
Fixpoint murmur_body (blocks : list Z) (h1 : Z) : Z * list Z :=
  match blocks with
  | b0 :: b1 :: b2 :: b3 :: blocks =>
      let h1 := Z.lxor h1 (mix_k (ReadLE32 [b0; b1; b2; b3])) in
      let h1 := ROTL32 h1 13 in
      murmur_body blocks (u32 (u32 (h1 * 5) + 0xe6546b64))
  | tail => (h1, tail)
  end.

Definition murmur_tail (tail : list Z) (h1 : Z) : Z :=
  match tail with
  | [t0; t1; t2] => Z.lxor h1 (mix_k (Z.lxor (Z.lxor (Z.shiftl t2 16) (Z.shiftl t1 8)) t0))
  | [t0; t1] => Z.lxor h1 (mix_k (Z.lxor (Z.shiftl t1 8) t0))
  | [t0] => Z.lxor h1 (mix_k t0)
  | _ => h1
  end.

Definition murmur_final (h1 : Z) : Z :=
  let h1 := Z.lxor h1 (Z.shiftr h1 16) in
  let h1 := u32 (h1 * 0x85ebca6b) in
  let h1 := Z.lxor h1 (Z.shiftr h1 13) in
  let h1 := u32 (h1 * 0xc2b2ae35) in
  Z.lxor h1 (Z.shiftr h1 16).

Definition MurmurHash3 (nHashSeed : Z) (vDataToHash : list Z) : Z :=
  let '(h1, tail) := murmur_body vDataToHash nHashSeed in
  let h1 := murmur_tail tail h1 in
  murmur_final (u32 (Z.lxor h1 (Z.of_nat (length vDataToHash)))).

(** The vectors of test/hash_tests.cpp *)
Example murmur_vectors :
  MurmurHash3 0 [] = 0 /\ MurmurHash3 0xFBA4C795 [] = 0x6a396f08 /\ MurmurHash3 0xffffffff [] = 0x81f16f39 /\
  MurmurHash3 0 [0] = 0x514e28b7 /\ MurmurHash3 0xFBA4C795 [0] = 0xea3f0b17 /\ MurmurHash3 0 [0xff] = 0xfd6cf10d /\
  MurmurHash3 0 [0; 0x11] = 0x16c6b7ab /\ MurmurHash3 0 [0; 0x11; 0x22] = 0x8eb51c3d /\
  MurmurHash3 0 [0; 0x11; 0x22; 0x33] = 0xb4471bf8 /\ MurmurHash3 0 [0; 0x11; 0x22; 0x33; 0x44; 0x55; 0x66] = 0xb074502c /\
  MurmurHash3 0 [0; 0x11; 0x22; 0x33; 0x44; 0x55; 0x66; 0x77; 0x88] = 0xb4698def.
Proof. vm_compute. split_and!; reflexivity. Qed.

(** ** CBloomFilter *)

Definition MAX_BLOOM_FILTER_SIZE : Z := 36000.
Definition MAX_HASH_FUNCS : Z := 50.
Definition BLOOM_UPDATE_NONE : Z := 0.
Definition BLOOM_UPDATE_ALL : Z := 1.
Definition BLOOM_UPDATE_P2PUBKEY_ONLY : Z := 2.
Definition BLOOM_UPDATE_MASK : Z := 3.

Record CBloomFilter := {
  vData : list Z; isFull : bool; isEmpty : bool; nHashFuncs : Z; nTweak : Z; nFlags : Z
}.

(** [CBloomFilter()] *)
Definition CBloomFilter_default : CBloomFilter :=
  {| vData := []; isFull := true; isEmpty := false; nHashFuncs := 0; nTweak := 0; nFlags := 0 |}.

(** [CBloomFilter(nElements, nFPRate, nTweakIn, nFlagsIn)]; [bits] and [funcs] are the
    values computed in floating point before the limits. *)
Definition CBloomFilter_new (bits funcs nTweakIn nFlagsIn : Z) : CBloomFilter :=
  {| vData := replicate (Z.to_nat (Z.min bits (MAX_BLOOM_FILTER_SIZE * 8) / 8)) 0; isFull := false; isEmpty := false;
     nHashFuncs := Z.min funcs MAX_HASH_FUNCS; nTweak := nTweakIn; nFlags := nFlagsIn |}.

(** The private constructor *)
Definition CBloomFilter_private (bits funcs nTweakIn : Z) : CBloomFilter :=
  {| vData := replicate (Z.to_nat (bits / 8)) 0; isFull := false; isEmpty := true;
     nHashFuncs := funcs; nTweak := nTweakIn; nFlags := BLOOM_UPDATE_NONE |}.

(** [SerializationOp], reading into an object made by the default constructor *)
Definition CBloomFilter_read : reader CBloomFilter :=
  let! vData := dec bytes_codec in
  let! nHashFuncs := dec u32_codec in
  let! nTweak := dec u32_codec in
  let! nFlags := dec u8_codec in
  rret {| vData := vData; isFull := true; isEmpty := false; nHashFuncs := nHashFuncs; nTweak := nTweak; nFlags := nFlags |}.

Definition Hash (f : CBloomFilter) (nHashNum : Z) (vDataToHash : list Z) : option Z :=
  let n := Z.of_nat (length (vData f)) * 8 in
  if n =? 0 then None
  else Some (u32 (MurmurHash3 (u32 (u32 (nHashNum * 0xFBA4C795) + nTweak f)) vDataToHash mod n)).

(** [vData[nIndex >> 3] |= (1 << (7 & nIndex))] *)
Definition set_bit (v : list Z) (nIndex : Z) : option (list Z) :=
  b ← v !! Z.to_nat (Z.shiftr nIndex 3);
  Some (<[Z.to_nat (Z.shiftr nIndex 3) := u8 (Z.lor b (Z.shiftl 1 (Z.land 7 nIndex)))]> v).

(** [vData[nIndex >> 3] & (1 << (7 & nIndex))] *)
Definition get_bit (v : list Z) (nIndex : Z) : option bool :=
  b ← v !! Z.to_nat (Z.shiftr nIndex 3);
  Some (negb (Z.land b (Z.shiftl 1 (Z.land 7 nIndex)) =? 0)).

Fixpoint insert_loop (f : CBloomFilter) (vKey : list Z) (ns : list Z) (v : list Z) : option (list Z) :=
  match ns with
  | [] => Some v
  | i :: ns => nIndex ← Hash f i vKey; v ← set_bit v nIndex; insert_loop f vKey ns v
  end.

Definition with_data (f : CBloomFilter) (v : list Z) (full empty : bool) : CBloomFilter :=
  {| vData := v; isFull := full; isEmpty := empty; nHashFuncs := nHashFuncs f; nTweak := nTweak f; nFlags := nFlags f |}.

(** The loop updates [vData] in place; its size, which [Hash] reads, does not change. *)
Definition insert (f : CBloomFilter) (vKey : list Z) : option CBloomFilter :=
  if isFull f then Some f
  else v ← insert_loop f vKey (seqZ 0 (nHashFuncs f)) (vData f); Some (with_data f v (isFull f) false).

Fixpoint contains_loop (f : CBloomFilter) (vKey : list Z) (ns : list Z) : option bool :=
  match ns with
  | [] => Some true
  | i :: ns => nIndex ← Hash f i vKey; b ← get_bit (vData f) nIndex; if (b : bool) then contains_loop f vKey ns else Some false
  end.

Definition contains (f : CBloomFilter) (vKey : list Z) : option bool :=
  if isFull f then Some true
  else if isEmpty f then Some false
  else contains_loop f vKey (seqZ 0 (nHashFuncs f)).

(** [stream << outpoint] *)
Definition outpoint_key (o : COutPoint) : list Z := match enc COutPoint_codec o with inr bs => bs | inl _ => [] end.

Definition clear (f : CBloomFilter) : CBloomFilter := with_data f (replicate (length (vData f)) 0) false true.

Definition reset (f : CBloomFilter) (nNewTweak : Z) : CBloomFilter :=
  let f := clear f in
  {| vData := vData f; isFull := isFull f; isEmpty := isEmpty f; nHashFuncs := nHashFuncs f; nTweak := nNewTweak; nFlags := nFlags f |}.

Definition IsWithinSizeConstraints (f : CBloomFilter) : bool :=
  (Z.of_nat (length (vData f)) <=? MAX_BLOOM_FILTER_SIZE) && (nHashFuncs f <=? MAX_HASH_FUNCS).

Definition UpdateEmptyFull (f : CBloomFilter) : CBloomFilter :=
  with_data f (vData f) (forallb (fun b => b =? 0xff) (vData f)) (forallb (fun b => b =? 0) (vData f)).

Section relevance.
Context (datacarrier : bool) (nMaxDatacarrierBytes : Z).

(** [while (pc < end)]: whether a nonempty pushed element is in the filter *)
Fixpoint script_matches (fuel : nat) (f : CBloomFilter) (pc : list Z) : option bool :=
  match fuel, pc with
  | _, [] => Some false
  | O, _ => None
  | S fuel, _ =>
      match GetOp2 pc with
      | None => Some false
      | Some (_, data, pc) =>
          b ← (if negb (length data =? 0)%nat then contains f data else Some false);
          if (b : bool) then Some true else script_matches fuel f pc
      end
  end.

(** What a matching output adds *)
Definition add_outpoint (f : CBloomFilter) (hash : list Z) (i : Z) (script : list Z) : option CBloomFilter :=
  let flags := Z.land (nFlags f) BLOOM_UPDATE_MASK in
  let o := {| out_hash := hash; out_n := i |} in
  if flags =? BLOOM_UPDATE_ALL then insert f (outpoint_key o)
  else if flags =? BLOOM_UPDATE_P2PUBKEY_ONLY then
    '(ok, type, _) ← Solver datacarrier nMaxDatacarrierBytes script;
    if (ok : bool) && (bool_decide (type = TX_PUBKEY) || bool_decide (type = TX_MULTISIG)) then insert f (outpoint_key o) else Some f
  else Some f.

Fixpoint outputs_loop (f : CBloomFilter) (hash : list Z) (i : Z) (vout : list CTxOut) (fFound : bool) : option (CBloomFilter * bool) :=
  match vout with
  | [] => Some (f, fFound)
  | txout :: vout =>
      m ← script_matches (length (scriptPubKey txout)) f (scriptPubKey txout);
      if (m : bool) then
        f ← add_outpoint f hash i (scriptPubKey txout);
        outputs_loop f hash (u32 (i + 1)) vout true
      else outputs_loop f hash (u32 (i + 1)) vout fFound
  end.

Fixpoint inputs_loop (f : CBloomFilter) (vin : list CTxIn) : option bool :=
  match vin with
  | [] => Some false
  | txin :: vin =>
      b ← contains f (outpoint_key (prevout txin));
      if (b : bool) then Some true
      else
        m ← script_matches (length (scriptSig txin)) f (scriptSig txin);
        if (m : bool) then Some true else inputs_loop f vin
  end.

(** [IsRelevantAndUpdate], with [hash = tx.GetHash()]: the filter after it and the answer *)
Definition IsRelevantAndUpdate (f : CBloomFilter) (hash : list Z) (tx : CTransaction) : option (CBloomFilter * bool) :=
  if isFull f then Some (f, true)
  else if isEmpty f then Some (f, false)
  else
    fFound ← contains f hash;
    '(f, fFound) ← outputs_loop f hash 0 (vout tx) fFound;
    if (fFound : bool) then Some (f, true)
    else b ← inputs_loop f (vin tx); Some (f, b).

End relevance.

(** ** CRollingBloomFilter *)

Record CRollingBloomFilter := { nBloomSize : Z; nInsertions : Z; b1 : CBloomFilter; b2 : CBloomFilter }.

Definition Rolling_reset (r : CRollingBloomFilter) (nNewTweak : Z) : CRollingBloomFilter :=
  {| nBloomSize := nBloomSize r; nInsertions := 0; b1 := reset (b1 r) nNewTweak; b2 := reset (b2 r) nNewTweak |}.

(** The constructor; [rand] is the number [GetRand] returns. *)
Definition CRollingBloomFilter_new (nElements bits funcs rand : Z) : CRollingBloomFilter :=
  let b := CBloomFilter_private bits funcs 0 in
  Rolling_reset {| nBloomSize := u32 (nElements * 2); nInsertions := 0; b1 := b; b2 := b |} rand.

Definition Rolling_insert (r : CRollingBloomFilter) (vKey : list Z) : option CRollingBloomFilter :=
  let '(f1, f2) :=
    if nInsertions r =? 0 then (clear (b1 r), b2 r)
    else if nInsertions r =? nBloomSize r / 2 then (b1 r, clear (b2 r))
    else (b1 r, b2 r) in
  f1 ← insert f1 vKey;
  f2 ← insert f2 vKey;
  let n := u32 (nInsertions r + 1) in
  Some {| nBloomSize := nBloomSize r; nInsertions := if n =? nBloomSize r then 0 else n; b1 := f1; b2 := f2 |}.

Definition Rolling_contains (r : CRollingBloomFilter) (vKey : list Z) : option bool :=
  if nInsertions r <? nBloomSize r / 2 then contains (b2 r) vKey else contains (b1 r) vKey.

(** ** The messages of a peer *)

Record CNode := {
  nVersion : Z; pfilter : option CBloomFilter; fRelayTxes : bool; fDisconnect : bool;
  nMisbehavior : Z; fShouldBan : bool   (* of its CNodeState *)
}.

Inductive filter_message := FilterLoad (vRecv : list Z) | FilterAdd (vRecv : list Z) | FilterClear.

Definition NO_BLOOM_VERSION : Z := 170004.

(** [banscore] is the argument [-banscore]. *)
Definition Misbehaving (banscore : Z) (n : CNode) (howmuch : Z) : CNode :=
  if howmuch =? 0 then n
  else
    let score := s32 (nMisbehavior n + howmuch) in
    {| nVersion := nVersion n; pfilter := pfilter n; fRelayTxes := fRelayTxes n; fDisconnect := fDisconnect n; nMisbehavior := score;
       fShouldBan := if (score >=? banscore) && (score - howmuch <? banscore) then true else fShouldBan n |}.
Definition set_filter (n : CNode) (f : option CBloomFilter) : CNode :=
  {| nVersion := nVersion n; pfilter := f; fRelayTxes := fRelayTxes n; fDisconnect := fDisconnect n; nMisbehavior := nMisbehavior n; fShouldBan := fShouldBan n |}.
Definition set_relay (n : CNode) : CNode :=
  {| nVersion := nVersion n; pfilter := pfilter n; fRelayTxes := true; fDisconnect := fDisconnect n; nMisbehavior := nMisbehavior n; fShouldBan := fShouldBan n |}.
Definition set_disconnect (n : CNode) : CNode :=
  {| nVersion := nVersion n; pfilter := pfilter n; fRelayTxes := fRelayTxes n; fDisconnect := true; nMisbehavior := nMisbehavior n; fShouldBan := fShouldBan n |}.

(** The branches of [ProcessMessage]: an exception of the stream leaves the node as it was. *)
Definition ProcessFilterMessage (NODE_BLOOM enforcenodebloom : bool) (banscore : Z) (n : CNode) (m : filter_message) : option CNode :=
  match m with
  | FilterClear =>
      Some (set_relay (if NODE_BLOOM then set_filter n (Some CBloomFilter_default) else n))
  | FilterLoad vRecv =>
      if negb NODE_BLOOM then
        Some (if nVersion n >=? NO_BLOOM_VERSION then Misbehaving banscore n 100 else if enforcenodebloom then set_disconnect n else n)
      else match CBloomFilter_read vRecv with
           | inl _ => Some n
           | inr (filter, _) =>
               Some (set_relay (if negb (IsWithinSizeConstraints filter) then Misbehaving banscore n 100
                                else set_filter n (Some (UpdateEmptyFull filter))))
           end
  | FilterAdd vRecv =>
      if negb NODE_BLOOM then
        Some (if nVersion n >=? NO_BLOOM_VERSION then Misbehaving banscore n 100 else if enforcenodebloom then set_disconnect n else n)
      else match dec bytes_codec vRecv with
           | inl _ => Some n
           | inr (data, _) =>
               if Z.of_nat (length data) >? MAX_SCRIPT_ELEMENT_SIZE then Some (Misbehaving banscore n 100)
               else match pfilter n with
                    | Some f => f ← insert f data; Some (set_filter n (Some f))
                    | None => Some (Misbehaving banscore n 100)
                    end
           end
  end.


(** ** Bits of [vData] *)

Lemma land_bit b k : 0 <= k -> negb (Z.land b (Z.shiftl 1 k) =? 0) = Z.testbit b k.
Proof.
  intros Hk. rewrite Z.shiftl_1_l. destruct (Z.testbit b k) eqn:E.
  - destruct (Z.eqb_spec (Z.land b (2 ^ k)) 0) as [H|]; [|done]. exfalso. apply (f_equal (fun z => Z.testbit z k)) in H.
    by rewrite Z.land_spec, E, Z.pow2_bits_true, Z.testbit_0_l in H by done.
  - assert (Z.land b (2 ^ k) = 0) as ->; [|done]. apply Z.bits_inj_0. intros i. rewrite Z.land_spec, Z.pow2_bits_eqb by done.
    destruct (Z.eqb_spec k i) as [<-|]; [by rewrite E|apply andb_false_r].
Qed.

Lemma low3 i : 0 <= Z.land 7 i < 8.
Proof. rewrite Z.land_comm. change 7 with (Z.ones 3). rewrite Z.land_ones by lia. by apply Z.mod_pos_bound. Qed.

Lemma u8_testbit z k : 0 <= k < 8 -> Z.testbit (u8 z) k = Z.testbit z k.
Proof. intros Hk. unfold u8. by rewrite Z.mod_pow2_bits_low by lia. Qed.

Lemma set_bit_spec v j v' : set_bit v j = Some v' -> length v' = length v /\ get_bit v' j = Some true /\
  forall i, get_bit v i = Some true -> get_bit v' i = Some true.
Proof.
  unfold set_bit. intros (b & Hb & [= <-])%bind_Some. pose proof (lookup_lt_Some _ _ _ Hb) as Hlt. pose proof (low3 j) as Hj.
  assert (forall k, 0 <= k < 8 -> Z.testbit b k = true \/ k = Z.land 7 j -> Z.testbit (u8 (Z.lor b (Z.shiftl 1 (Z.land 7 j)))) k = true) as Hbit.
  { intros k Hk H. rewrite u8_testbit, Z.lor_spec by done. destruct H as [-> | ->]; [done|]. rewrite Z.shiftl_1_l, Z.pow2_bits_true by lia. apply orb_true_r. }
  split_and!; [by rewrite length_insert| |].
  - unfold get_bit. rewrite list_lookup_insert_eq by done. monad. rewrite land_bit, Hbit by (try lia; by right). done.
  - intros i. unfold get_bit. intros (c & Hc & H)%bind_Some. pose proof (low3 i) as Hi. rewrite land_bit in H by lia. injection H as H.
    destruct (decide (Z.to_nat (Z.shiftr i 3) = Z.to_nat (Z.shiftr j 3))) as [E|E].
    + rewrite E in Hc |- *. rewrite Hb in Hc. injection Hc as <-. rewrite list_lookup_insert_eq by done. monad. rewrite land_bit, Hbit by (try lia; by left). done.
    + rewrite list_lookup_insert_ne by done. rewrite Hc. monad. by rewrite land_bit, H by lia.
Qed.

Lemma index_range (v : list Z) i : 0 <= i < Z.of_nat (length v) * 8 -> is_Some (v !! Z.to_nat (Z.shiftr i 3)).
Proof.
  intros Hi. apply lookup_lt_is_Some_2. rewrite Z.shiftr_div_pow2 by lia.
  assert (0 <= i / 2 ^ 3 < Z.of_nat (length v)) by (split; [apply Z.div_pos; lia|apply Z.div_lt_upper_bound; lia]). lia.
Qed.

Lemma set_bit_total v i : 0 <= i < Z.of_nat (length v) * 8 -> is_Some (set_bit v i).
Proof. intros Hi. destruct (index_range v i Hi) as [b Hb]. unfold set_bit. rewrite Hb. monad. by eexists. Qed.

Lemma get_bit_total v i : 0 <= i < Z.of_nat (length v) * 8 -> is_Some (get_bit v i).
Proof. intros Hi. destruct (index_range v i Hi) as [b Hb]. unfold get_bit. rewrite Hb. monad. by eexists. Qed.

Lemma Hash_total f n k : vData f <> [] -> exists i, Hash f n k = Some i /\ 0 <= i < Z.of_nat (length (vData f)) * 8.
Proof.
  intros Hne. unfold Hash. assert (length (vData f) <> O) by (by destruct (vData f)). destruct (Z.eqb_spec (Z.of_nat (length (vData f)) * 8) 0); [lia|].
  eexists. split; [done|]. set (x := MurmurHash3 _ k mod _). assert (0 <= x < Z.of_nat (length (vData f)) * 8) as Hx by (apply Z.mod_pos_bound; lia).
  unfold u32. pose proof (Z.mod_pos_bound x (2 ^ 32) ltac:(lia)). pose proof (Z.mod_le x (2 ^ 32) ltac:(lia) ltac:(lia)). lia.
Qed.

Lemma Hash_params f g n k : length (vData f) = length (vData g) -> nTweak f = nTweak g -> Hash f n k = Hash g n k.
Proof. intros Hl Ht. unfold Hash. by rewrite Hl, Ht. Qed.

(** ** No remainder by zero and no false negative *)

(** An empty [vData] is only used with no hash function, or not at all. *)
Definition wf (f : CBloomFilter) : Prop := isFull f = true \/ vData f <> [] \/ nHashFuncs f <= 0.

Definition same_params (f g : CBloomFilter) : Prop :=
  length (vData f) = length (vData g) /\ nTweak f = nTweak g /\ nHashFuncs f = nHashFuncs g /\ nFlags f = nFlags g.

Lemma same_params_refl f : same_params f f.
Proof. by split_and!. Qed.

Lemma insert_loop_spec f k ns : forall v, length v = length (vData f) -> vData f <> [] \/ ns = [] ->
  exists v', insert_loop f k ns v = Some v' /\ length v' = length v /\ (forall i, get_bit v i = Some true -> get_bit v' i = Some true) /\
    forall n, In n ns -> exists i, Hash f n k = Some i /\ get_bit v' i = Some true.
Proof.
  induction ns as [|n ns IH]; intros v Hl Hne; [by exists v|]. cbn [insert_loop]. destruct Hne as [Hne|]; [|done].
  destruct (Hash_total f n k Hne) as (i & Hi & Hr). rewrite Hi. monad. destruct (set_bit_total v i) as [v1 Hv1]; [by rewrite Hl|]. rewrite Hv1. monad.
  destruct (set_bit_spec v i v1 Hv1) as (Hl1 & Hg & Hm). destruct (IH v1) as (v' & -> & Hl' & Hm' & Hin); [congruence|by left|].
  exists v'. split_and!; [done|congruence|auto|]. intros n' [<-|Hn']; [|auto]. exists i. split; [done|]. auto.
Qed.

Lemma contains_loop_spec f k ns : vData f <> [] \/ ns = [] -> exists b, contains_loop f k ns = Some b /\
  (b = true <-> forall n, In n ns -> exists i, Hash f n k = Some i /\ get_bit (vData f) i = Some true).
Proof.
  induction ns as [|n ns IH]; intros Hne; [by exists true|]. cbn [contains_loop]. destruct Hne as [Hne|]; [|done].
  destruct (Hash_total f n k Hne) as (i & Hi & Hr). rewrite Hi. monad. destruct (get_bit_total (vData f) i Hr) as [b Hb]. rewrite Hb. monad.
  destruct IH as (b' & Hb' & Hiff); [by left|]. destruct b.
  - exists b'. split; [done|]. rewrite Hiff. split; [|intros H n' Hn'; apply H; by right]. intros H n' [<-|Hn']; [by exists i|auto].
  - exists false. split; [done|]. split; [done|]. intros H. destruct (H n (or_introl eq_refl)) as (j & Hj & Hg). congruence.
Qed.

Lemma wf_loop f : wf f -> isFull f = false -> vData f <> [] \/ seqZ 0 (nHashFuncs f) = [].
Proof. intros [H|[H|H]] Hf; [congruence|by left|right]. by apply seqZ_nil. Qed.

Lemma contains_total f k : wf f -> is_Some (contains f k).
Proof.
  intros Hw. unfold contains. destruct (isFull f) eqn:Hf; [by eexists|]. destruct (isEmpty f); [by eexists|].
  destruct (contains_loop_spec f k (seqZ 0 (nHashFuncs f)) (wf_loop f Hw Hf)) as (b & -> & _). by eexists.
Qed.

Lemma insert_spec f k : wf f -> exists f', insert f k = Some f' /\ wf f' /\ same_params f f' /\ isFull f' = isFull f /\
  contains f' k = Some true /\ forall k', contains f k' = Some true -> contains f' k' = Some true.
Proof.
  intros Hw. unfold insert. destruct (isFull f) eqn:Hf.
  { exists f. split_and!; [done|done|apply same_params_refl..|done|unfold contains; by rewrite Hf|done]. }
  pose proof (wf_loop f Hw Hf) as Hne. destruct (insert_loop_spec f k (seqZ 0 (nHashFuncs f)) (vData f) eq_refl Hne) as (v & -> & Hl & Hm & Hin). monad.
  set (f' := with_data f v false false). assert (same_params f f') as Hsame by (by split_and!).
  assert (vData f' <> [] \/ seqZ 0 (nHashFuncs f') = []) as Hne'.
  { destruct Hne as [Hne|Hne]; [left|by right]. simpl. destruct v; [|done]. by destruct (vData f). }
  assert (forall k', (forall n, In n (seqZ 0 (nHashFuncs f)) -> exists i, Hash f n k' = Some i /\ get_bit v i = Some true) -> contains f' k' = Some true) as Hc.
  { intros k' H. unfold contains. cbn [f' with_data isFull isEmpty]. destruct (contains_loop_spec f' k' (seqZ 0 (nHashFuncs f')) Hne') as (b & -> & Hb).
    f_equal. apply Hb. intros n Hn. destruct (H n Hn) as (i & Hi & Hg). exists i. rewrite (Hash_params f' f) by (simpl; congruence). done. }
  exists f'. split_and!; try done; [|by apply Hc|].
  - unfold wf. cbn [f' with_data isFull nHashFuncs]. right. destruct Hw as [|[Hw|Hw]]; [congruence| |by right]. left. simpl. destruct v; [|done]. by destruct (vData f).
  - intros k' H. apply Hc. unfold contains in H. rewrite Hf in H. destruct (isEmpty f); [done|].
    destruct (contains_loop_spec f k' (seqZ 0 (nHashFuncs f)) Hne) as (b & Hb & Hiff). rewrite Hb in H. injection H as ->.
    intros n Hn. destruct (proj1 Hiff eq_refl n Hn) as (i & Hi & Hg). exists i. auto.
Qed.

Lemma clear_wf f : (vData f <> [] \/ nHashFuncs f <= 0) -> wf (clear f).
Proof. intros [H|H]; right; [left|by right]. simpl. by destruct (vData f). Qed.


(** ** The rolling filter *)

Fixpoint insert_all (r : CRollingBloomFilter) (ks : list (list Z)) : option CRollingBloomFilter :=
  match ks with
  | [] => Some r
  | k :: ks => r ← Rolling_insert r k; insert_all r ks
  end.

Definition good (f : CBloomFilter) : Prop := (vData f <> [] \/ nHashFuncs f <= 0) /\ isFull f = false.
Definition holds (f : CBloomFilter) (ks : list (list Z)) : Prop := forall k, k ∈ ks -> contains f k = Some true.

Lemma good_wf f : good f -> wf f.
Proof. intros [H _]. unfold wf. tauto. Qed.

Lemma clear_good f : good f -> good (clear f).
Proof. intros [H Hf]. split; [|done]. destruct H as [H|H]; [left|by right]. simpl. by destruct (vData f). Qed.

Lemma insert_good f k ks : good f -> holds f ks -> exists f', insert f k = Some f' /\ good f' /\ holds f' (k :: ks).
Proof.
  intros [Hd Hf] Hh. destruct (insert_spec f k (good_wf f (conj Hd Hf))) as (f' & -> & _ & (Hl & _ & Hn & _) & Hfull & Hk & Hm). exists f'. split_and!; [done| |].
  - split; [|congruence]. destruct Hd as [Hd|Hd]; [left|right; lia]. destruct (vData f'); [|done]. by destruct (vData f).
  - intros k' [-> | Hk']%elem_of_cons; [done|]. by apply Hm, Hh.
Qed.

(** [rks] are the keys inserted so far, the last one first; [b1] holds those since
    the counter was last zero, [b2] those since it last was [N]. *)
Definition roll_inv (N : Z) (rks : list (list Z)) (r : CRollingBloomFilter) : Prop :=
  nBloomSize r = 2 * N /\ 0 <= nInsertions r < 2 * N /\ good (b1 r) /\ good (b2 r) /\
  holds (b1 r) (take (Z.to_nat (nInsertions r)) rks) /\
  holds (b2 r) (take (Z.to_nat (if nInsertions r <=? N then nInsertions r + N else nInsertions r - N)) rks).

Lemma holds_nil f : holds f [].
Proof. by intros k Hk%elem_of_nil. Qed.

Lemma holds_take f k ks n m : holds f (k :: take n ks) -> (m <= S n)%nat -> holds f (take m (k :: ks)).
Proof.
  intros H Hm x Hx. apply H. destruct m as [|m]; [by apply elem_of_nil in Hx|]. cbn [take] in Hx. apply elem_of_cons in Hx as [-> | Hx]; [by left|right].
  apply elem_of_take in Hx as (i & Hi & Hlt). apply elem_of_take. exists i. split; [done|lia].
Qed.

Lemma roll_step N rks r k : 1 <= N -> 2 * N < 2 ^ 32 -> roll_inv N rks r -> exists r', Rolling_insert r k = Some r' /\ roll_inv N (k :: rks) r'.
Proof.
  intros HN HN2 (Hs & Hi & G1 & G2 & H1 & H2). set (i := nInsertions r) in *.
  set (f1 := if i =? 0 then clear (b1 r) else b1 r). set (f2 := if i =? N then clear (b2 r) else b2 r).
  assert (Rolling_insert r k = (f1 ← insert f1 k; f2 ← insert f2 k; let n := u32 (i + 1) in
    Some {| nBloomSize := nBloomSize r; nInsertions := if n =? nBloomSize r then 0 else n; b1 := f1; b2 := f2 |})) as E.
  { unfold Rolling_insert, f1, f2. fold i. rewrite Hs, (Z.mul_comm 2 N), Z.div_mul by lia. destruct (Z.eqb_spec i 0), (Z.eqb_spec i N); try lia; done. }
  rewrite E, Hs, u32_id by (unfold is_u32; lia). cbv zeta.
  destruct (insert_good f1 k (take (Z.to_nat i) rks)) as (g1 & -> & Gg1 & Hg1).
  { unfold f1. destruct (i =? 0); [by apply clear_good|done]. }
  { unfold f1. destruct (Z.eqb_spec i 0) as [->|]; [apply holds_nil|done]. }
  monad. destruct (insert_good f2 k (take (Z.to_nat (if i <? N then i + N else i - N)) rks)) as (g2 & -> & Gg2 & Hg2).
  { unfold f2. destruct (i =? N); [by apply clear_good|done]. }
  { unfold f2. destruct (Z.eqb_spec i N) as [->|Hne]; [rewrite Z.ltb_irrefl, Z.sub_diag; apply holds_nil|].
    destruct (Z.leb_spec i N), (Z.ltb_spec i N); try lia; done. }
  monad. eexists. split; [done|]. unfold roll_inv. cbn [nBloomSize nInsertions b1 b2].
  destruct (Z.eqb_spec (i + 1) (2 * N)) as [Hw|Hw]; split_and!; try done; try lia.
  - apply (holds_take g1 k rks (Z.to_nat i)); [done|lia].
  - apply (holds_take g2 k rks _ _ Hg2). destruct (Z.leb_spec 0 N), (Z.ltb_spec i N); lia.
  - apply (holds_take g1 k rks (Z.to_nat i)); [done|lia].
  - apply (holds_take g2 k rks _ _ Hg2). destruct (Z.leb_spec (i + 1) N), (Z.ltb_spec i N); lia.
Qed.

Lemma roll_run N ks : 1 <= N -> 2 * N < 2 ^ 32 -> forall rks r, roll_inv N rks r ->
  exists r', insert_all r ks = Some r' /\ roll_inv N (rev ks ++ rks) r'.
Proof.
  intros HN HN2. induction ks as [|k ks IH]; intros rks r Hr; [by exists r|]. cbn [insert_all rev].
  destruct (roll_step N rks r k HN HN2 Hr) as (r1 & -> & H1). monad. destruct (IH (k :: rks) r1 H1) as (r2 & -> & H2). exists r2. split; [done|].
  by rewrite <- app_assoc.
Qed.

Lemma roll_contains N rks r k : roll_inv N rks r -> k ∈ take (Z.to_nat N) rks -> Rolling_contains r k = Some true.
Proof.
  intros (Hs & Hi & _ & _ & H1 & H2) Hk. unfold Rolling_contains. rewrite Hs, (Z.mul_comm 2 N), Z.div_mul by lia.
  assert (forall n, N <= n -> k ∈ take (Z.to_nat n) rks) as Hmono.
  { intros n Hn. apply elem_of_take in Hk as (i & E & Hlt). apply elem_of_take. exists i. split; [done|lia]. }
  destruct (Z.ltb_spec (nInsertions r) N) as [Hlt|Hge].
  - apply H2. rewrite (proj2 (Z.leb_le _ _)) by lia. apply Hmono. lia.
  - apply H1, Hmono. lia.
Qed.

Lemma roll_init N bits funcs rand : 1 <= N -> 2 * N < 2 ^ 32 -> 8 <= bits \/ funcs <= 0 -> roll_inv N [] (CRollingBloomFilter_new N bits funcs rand).
Proof.
  intros HN HN2 Hb. unfold roll_inv, CRollingBloomFilter_new, Rolling_reset. cbn [nBloomSize nInsertions b1 b2].
  rewrite u32_id by (unfold is_u32; lia). set (f := reset (CBloomFilter_private bits funcs 0) rand). assert (good f) as Hg.
  { split; [|done]. destruct Hb as [Hb|Hb]; [left|by right]. simpl. rewrite length_replicate.
    assert (1 <= bits / 8) by (apply Z.div_le_lower_bound; lia). destruct (Z.to_nat (bits / 8)) eqn:E; [lia|done]. }
  split_and!; try done; try lia; rewrite take_nil; apply holds_nil.
Qed.

(** C32: a rolling filter made for [nElements] items, whose constructor computed at
    least a byte of bits or no hash function, accepts any sequence of insertions
    and afterwards contains each of the last [nElements] inserted keys, wherever
    the clearing of its two halves stands. *)
Theorem rolling_filter_remembers nElements bits funcs rand keys :
  1 <= nElements -> 2 * nElements < 2 ^ 32 -> 8 <= bits \/ funcs <= 0 ->
  exists r, insert_all (CRollingBloomFilter_new nElements bits funcs rand) keys = Some r /\
    forall k, k ∈ take (Z.to_nat nElements) (rev keys) -> Rolling_contains r k = Some true.
Proof.
  intros HN HN2 Hb. destruct (roll_run nElements keys HN HN2 [] _ (roll_init nElements bits funcs rand HN HN2 Hb)) as (r & Hr & Hinv).
  exists r. split; [done|]. intros k Hk. rewrite app_nil_r in Hinv. by apply (roll_contains nElements (rev keys)).
Qed.

Lemma rolling_filter_remembers_witness :
  exists r, insert_all (CRollingBloomFilter_new 2 64 3 5) [[1]; [2]; [3]; [4]; [5]] = Some r /\ Rolling_contains r [4] = Some true.
Proof.
  destruct (rolling_filter_remembers 2 64 3 5 [[1]; [2]; [3]; [4]; [5]]) as (r & Hr & H); [lia|lia|by left|].
  exists r. split; [done|]. apply H. apply (bool_decide_unpack _). vm_compute. exact I.
Defined.


(** ** Relevance of transactions *)

(** [k] is among the elements a script pushes, up to where it cannot be parsed. *)
Inductive pushed (k : list Z) : list Z -> Prop :=
| pushed_here op pc pc' : GetOp2 pc = Some (op, k, pc') -> pushed k pc
| pushed_later op data pc pc' : GetOp2 pc = Some (op, data, pc') -> pushed k pc' -> pushed k pc.

Definition hits (f : CBloomFilter) (script : list Z) : Prop := exists k, pushed k script /\ k <> [] /\ contains f k = Some true.

Lemma pushed_inv k op data pc pc' : GetOp2 pc = Some (op, data, pc') -> pushed k pc -> k = data \/ pushed k pc'.
Proof.
  intros E H. destruct H as [op1 pc pc1 E1|op1 d1 pc pc1 E1 H]; rewrite E in E1; injection E1 as <- <- <-; [by left|by right].
Qed.

Lemma script_matches_spec f : wf f -> forall fuel pc, (length pc <= fuel)%nat ->
  exists b, script_matches fuel f pc = Some b /\ (b = true <-> hits f pc).
Proof.
  intros Hw. induction fuel as [|fuel IH]; intros pc Hl.
  { destruct pc; [|simpl in Hl; lia]. exists false. split; [done|]. split; [done|]. intros (k & H & _). by inversion H. }
  cbn [script_matches]. destruct pc as [|x pc]; [exists false; split; [done|]; split; [done|]; intros (k & H & _); by inversion H|].
  destruct (GetOp2 (x :: pc)) as [[[op data] pc']|] eqn:E.
  2: { exists false. split; [done|]. split; [done|]. intros (k & H & _). destruct H; congruence. }
  pose proof (GetOp2_progress _ _ _ _ E) as [Hp _]. destruct (IH pc') as (b' & Hb' & Hiff); [simpl in *; lia|].
  assert (exists b, (if negb (length data =? 0)%nat then contains f data else Some false) = Some b /\ (b = true <-> data <> [] /\ contains f data = Some true)) as (b & Hb & Hbiff).
  { destruct data as [|y data]; [exists false; split; [done|]; split; [done|by intros [? _]]|]. destruct (contains_total f (y :: data) Hw) as [b Hb].
    exists b. cbn [length Nat.eqb negb]. split; [done|]. rewrite Hb. split; [intros ->; by split|intros [_ [= ->]]; done]. }
  rewrite Hb. monad. destruct b.
  - exists true. split; [done|]. split; [|done]. intros _. destruct (proj1 Hbiff eq_refl) as [Hn Hc]. exists data. split_and!; [by eapply pushed_here|done|done].
  - exists b'. split; [done|]. rewrite Hiff. split; intros (k & H1 & H2 & H3).
    + exists k. split_and!; [by eapply pushed_later|done|done].
    + destruct (pushed_inv k _ _ _ _ E H1) as [-> | H]; [exfalso; by assert (false = true) by (by apply Hbiff)|]. by exists k.
Qed.

Definition grows (f f' : CBloomFilter) : Prop :=
  wf f' /\ same_params f f' /\ forall k, contains f k = Some true -> contains f' k = Some true.

Lemma grows_trans f g h : grows f g -> grows g h -> grows f h.
Proof.
  intros (_ & (A1 & A2 & A3 & A4) & H1) (W & (B1 & B2 & B3 & B4) & H2). split; [done|]. split; [|auto]. repeat split; congruence.
Qed.

Lemma insert_grows f k : wf f -> exists f', insert f k = Some f' /\ grows f f' /\ contains f' k = Some true.
Proof. intros Hw. destruct (insert_spec f k Hw) as (f' & E & W & S & _ & C & M). by exists f'. Qed.

Section relevance_facts.
Context (dc : bool) (mx : Z).

Lemma add_outpoint_spec f hash i script : wf f -> Z.of_nat (length script) < 2 ^ 60 ->
  exists f', add_outpoint dc mx f hash i script = Some f' /\ grows f f' /\
    (Z.land (nFlags f) BLOOM_UPDATE_MASK = BLOOM_UPDATE_ALL -> contains f' (outpoint_key {| out_hash := hash; out_n := i |}) = Some true).
Proof.
  intros Hw Hl. unfold add_outpoint. set (o := {| out_hash := hash; out_n := i |}). destruct (insert_grows f (outpoint_key o) Hw) as (f' & E & G & C).
  assert (grows f f) as Gf by (by split_and!; [done|apply same_params_refl..|]).
  destruct (Z.eqb_spec (Z.land (nFlags f) BLOOM_UPDATE_MASK) BLOOM_UPDATE_ALL); [by exists f'|].
  destruct (_ =? BLOOM_UPDATE_P2PUBKEY_ONLY); [|by exists f]. destruct (Solver_shape dc mx script Hl) as (ok & ty & sols & -> & _). monad.
  destruct (ok && _); [by exists f'|by exists f].
Qed.

Lemma outputs_loop_spec hash vouts : Forall (fun o => Z.of_nat (length (scriptPubKey o)) < 2 ^ 60) vouts -> forall f i found, wf f ->
  0 <= i -> i + Z.of_nat (length vouts) < 2 ^ 32 -> exists f' found', outputs_loop dc mx f hash i vouts found = Some (f', found') /\ grows f f' /\
    (found = true -> found' = true) /\
    forall j o, vouts !! j = Some o -> hits f (scriptPubKey o) -> found' = true /\
      (Z.land (nFlags f) BLOOM_UPDATE_MASK = BLOOM_UPDATE_ALL -> contains f' (outpoint_key {| out_hash := hash; out_n := i + Z.of_nat j |}) = Some true).
Proof.
  induction 1 as [|o vouts Ho Hos IH]; intros f i found Hw Hi Hn; cbn [outputs_loop].
  { exists f, found. split_and!; [done|by split_and!; [done|apply same_params_refl..|]|done|done]. }
  destruct (script_matches_spec f Hw (length (scriptPubKey o)) (scriptPubKey o)) as (b & -> & Hb); [lia|]. monad. cbn [length] in Hn.
  rewrite u32_id by (unfold is_u32; lia).
  assert (exists g found1, (if b then f0 ← add_outpoint dc mx f hash i (scriptPubKey o); outputs_loop dc mx f0 hash (i + 1) vouts true
      else outputs_loop dc mx f hash (i + 1) vouts found) = outputs_loop dc mx g hash (i + 1) vouts found1 /\ grows f g /\
      (found = true \/ b = true -> found1 = true) /\ (b = true -> Z.land (nFlags f) BLOOM_UPDATE_MASK = BLOOM_UPDATE_ALL ->
        contains g (outpoint_key {| out_hash := hash; out_n := i |}) = Some true)) as (g & found1 & -> & Hg & Hf1 & Hadd).
  { destruct b.
    - destruct (add_outpoint_spec f hash i (scriptPubKey o) Hw Ho) as (g & -> & Hg & Hc). monad. exists g, true. by split_and!.
    - exists f, found. split_and!; [done|by split_and!; [done|apply same_params_refl..|]|by intros [?|?]|done]. }
  destruct (IH g (i + 1) found1) as (f' & found' & -> & Hg' & Hfound & Hout); [apply Hg|lia|lia|]. exists f', found'.
  split_and!; [done|by eapply grows_trans|auto|]. intros j o' Hj Hhit. destruct j as [|j].
  - injection Hj as <-. assert (b = true) as -> by (by apply Hb). split; [auto|]. intros Hfl. rewrite Z.add_0_r. apply Hg'. auto.
  - destruct (Hout j o' Hj) as [H1 H2].
    + destruct Hhit as (k & K1 & K2 & K3). exists k. split_and!; [done|done|by apply Hg].
    + split; [done|]. intros Hfl. replace (i + Z.of_nat (S j)) with (i + 1 + Z.of_nat j) by lia. apply H2.
      destruct Hg as (_ & (_ & _ & _ & Hfg) & _). congruence.
Qed.

Lemma inputs_loop_spec f vins : wf f -> exists b, inputs_loop f vins = Some b /\
  (b = true <-> exists i, In i vins /\ (contains f (outpoint_key (prevout i)) = Some true \/ hits f (scriptSig i))).
Proof.
  intros Hw. induction vins as [|i vins IH]; cbn [inputs_loop]; [exists false; split; [done|]; split; [done|by intros (? & [] & _)]|].
  destruct IH as (b & Hb & Hiff). destruct (contains_total f (outpoint_key (prevout i)) Hw) as [c Hc]. rewrite Hc. monad. destruct c.
  { exists true. split; [done|]. split; [|done]. intros _. exists i. split; [by left|by left]. }
  destruct (script_matches_spec f Hw (length (scriptSig i)) (scriptSig i)) as (m & -> & Hm); [lia|]. monad. destruct m.
  { exists true. split; [done|]. split; [|done]. intros _. exists i. split; [by left|right; by apply Hm]. }
  exists b. split; [done|]. rewrite Hiff. split; intros (j & Hj & H); [exists j; split; [by right|done]|].
  destruct Hj as [<-|Hj]; [|by exists j]. destruct H as [H|H]; [congruence|]. apply Hm in H. done.
Qed.

(** What makes a transaction relevant to a filter. *)
Definition relevant (f : CBloomFilter) (hash : list Z) (tx : CTransaction) : Prop :=
  contains f hash = Some true \/ (exists o, In o (vout tx) /\ hits f (scriptPubKey o)) \/
  exists i, In i (vin tx) /\ (contains f (outpoint_key (prevout i)) = Some true \/ hits f (scriptSig i)).

Definition sized (tx : CTransaction) : Prop :=
  Forall (fun o => Z.of_nat (length (scriptPubKey o)) < 2 ^ 60) (vout tx) /\ Z.of_nat (length (vout tx)) < 2 ^ 32.

Lemma contains_not_empty f k : contains f k = Some true -> isFull f = true \/ isEmpty f = false.
Proof. unfold contains. destruct (isFull f); [by left|]. destruct (isEmpty f); [done|by right]. Qed.

Lemma relevance_spec f hash tx : wf f -> sized tx -> exists f' b, IsRelevantAndUpdate dc mx f hash tx = Some (f', b) /\ grows f f' /\
  (relevant f hash tx -> b = true) /\
  forall j o, vout tx !! j = Some o -> hits f (scriptPubKey o) -> Z.land (nFlags f) BLOOM_UPDATE_MASK = BLOOM_UPDATE_ALL ->
    contains f' (outpoint_key {| out_hash := hash; out_n := Z.of_nat j |}) = Some true.
Proof.
  intros Hw [Hs Hn]. assert (grows f f) as Gf by (by split_and!; [done|apply same_params_refl..|]). unfold IsRelevantAndUpdate.
  destruct (isFull f) eqn:Hfull. { exists f, true. split_and!; [done|done|done|]. intros. unfold contains. by rewrite Hfull. }
  destruct (isEmpty f) eqn:Hempty.
  { assert (forall k, contains f k <> Some true) as Hno by (intros k H; apply contains_not_empty in H; destruct H; congruence).
    exists f, false. split_and!; [done|done| |]; [intros [H|[(o & _ & k & _ & _ & H)|(i & _ & [H|(k & _ & _ & H)])]]; by apply Hno in H|].
    intros j o _ (k & _ & _ & H). by apply Hno in H. }
  destruct (contains_total f hash Hw) as [c Hc]. rewrite Hc. monad.
  destruct (outputs_loop_spec hash (vout tx) Hs f 0 c Hw) as (f' & found & -> & Hg & Hfound & Hout); [lia|lia|]. monad.
  assert (forall o, In o (vout tx) -> hits f (scriptPubKey o) -> found = true) as Hof.
  { intros o Ho Hh. apply list_elem_of_In, list_elem_of_lookup in Ho as [j Hj]. by apply (Hout j o). }
  assert (forall j o, vout tx !! j = Some o -> hits f (scriptPubKey o) -> Z.land (nFlags f) BLOOM_UPDATE_MASK = BLOOM_UPDATE_ALL ->
    contains f' (outpoint_key {| out_hash := hash; out_n := Z.of_nat j |}) = Some true) as Hop by (intros j o Hj Hh Hfl; by apply (Hout j o)).
  destruct found; [by exists f', true|]. destruct (inputs_loop_spec f' (vin tx) (proj1 Hg)) as (b & -> & Hb). monad.
  exists f', b. split_and!; [done|done| |done]. intros [H|[(o & Ho & Hh)|(i & Hi & H)]].
  - rewrite H in Hc. injection Hc as <-. by assert (false = true) by auto.
  - by assert (false = true) by (by eapply Hof).
  - apply Hb. exists i. split; [done|]. destruct Hg as (_ & _ & Hm). destruct H as [H|(k & K1 & K2 & K3)]; [left; auto|right]. exists k. auto.
Qed.

End relevance_facts.


(** A transaction with the given inputs and outputs. *)
Definition CTransaction_with (ins : list CTxIn) (outs : list CTxOut) : CTransaction := {|
  fOverwintered := false; tx_nVersion := 1; nVersionGroupId := 0; vin := ins; vout := outs; nLockTime := 0; nExpiryHeight := 0;
  valueBalance := 0; vShieldedSpend := []; vShieldedOutput := []; vJoinSplit := []; joinSplitPubKey := []; joinSplitSig := []; bindingSig := [] |}.

(** No false negatives for a light client: on a filter that is well formed,
    [IsRelevantAndUpdate] returns, keeps everything the filter contains, and says
    yes whenever the filter contains the transaction's hash, an element pushed by an
    output or input script, or an outpoint it spends; with [BLOOM_UPDATE_ALL] a
    later transaction spending a matched output is relevant to the updated filter. *)
Lemma filter_relevance dc mx f hash tx hash2 tx2 j o i :
  wf f -> sized tx -> sized tx2 -> vout tx !! j = Some o -> hits f (scriptPubKey o) -> In i (vin tx2) ->
  prevout i = {| out_hash := hash; out_n := Z.of_nat j |} -> Z.land (nFlags f) BLOOM_UPDATE_MASK = BLOOM_UPDATE_ALL ->
  exists f', IsRelevantAndUpdate dc mx f hash tx = Some (f', true) /\ grows f f' /\
    (exists f2, IsRelevantAndUpdate dc mx f' hash2 tx2 = Some (f2, true)) /\
    exists f1 b, IsRelevantAndUpdate dc mx f hash2 tx2 = Some (f1, b) /\ (relevant f hash2 tx2 -> b = true).
Proof.
  intros Hw Hs Hs2 Hj Hh Hi Hprev Hfl. destruct (relevance_spec dc mx f hash tx Hw Hs) as (f' & b & E & Hg & Hrel & Hop).
  exists f'. split_and!; [|done| |].
  - rewrite E. do 2 f_equal. apply Hrel. right. left. exists o. split; [|done]. apply list_elem_of_In, list_elem_of_lookup. by exists j.
  - destruct (relevance_spec dc mx f' hash2 tx2 (proj1 Hg) Hs2) as (f2 & b2 & E2 & _ & Hrel2 & _). exists f2. rewrite E2. do 2 f_equal. apply Hrel2.
    right. right. exists i. split; [done|]. left. rewrite Hprev. by apply (Hop j o).
  - destruct (relevance_spec dc mx f hash2 tx2 Hw Hs2) as (f1 & b1 & E1 & _ & Hrel1 & _). by exists f1, b1.
Qed.

Lemma filter_relevance_witness :
  exists f', IsRelevantAndUpdate true 80 {| vData := [0xfe; 0xff]; isFull := false; isEmpty := false; nHashFuncs := 0; nTweak := 0; nFlags := 1 |}
    (replicate 32 7) (CTransaction_with [] [{| nValue := 0; scriptPubKey := [2; 5; 5] |}]) = Some (f', true).
Proof.
  set (f := {| vData := [0xfe; 0xff]; isFull := false; isEmpty := false; nHashFuncs := 0; nTweak := 0; nFlags := 1 |}).
  set (i := {| prevout := {| out_hash := replicate 32 7; out_n := 0 |}; scriptSig := []; nSequence := 0 |}).
  destruct (filter_relevance true 80 f (replicate 32 7) (CTransaction_with [] [{| nValue := 0; scriptPubKey := [2; 5; 5] |}])
    (replicate 32 8) (CTransaction_with [i] []) 0 {| nValue := 0; scriptPubKey := [2; 5; 5] |} i) as (f' & H & _).
  - right. left. discriminate.
  - split; [apply Forall_singleton; by vm_compute|by vm_compute].
  - split; [constructor|by vm_compute].
  - reflexivity.
  - exists [5; 5]. split_and!; [apply (pushed_here _ 2 _ []); reflexivity|discriminate|reflexivity].
  - by left.
  - reflexivity.
  - reflexivity.
  - by exists f'.
Defined.

(** ** Messages *)

Definition filter_ok (n : CNode) : Prop := match pfilter n with Some f => wf f | None => True end.

Fixpoint process_all (NODE_BLOOM enforcenodebloom : bool) (banscore : Z) (n : CNode) (ms : list filter_message) : option CNode :=
  match ms with
  | [] => Some n
  | m :: ms => n ← ProcessFilterMessage NODE_BLOOM enforcenodebloom banscore n m; process_all NODE_BLOOM enforcenodebloom banscore n ms
  end.

Lemma UpdateEmptyFull_wf f : wf (UpdateEmptyFull f).
Proof. unfold wf, UpdateEmptyFull. cbn [with_data isFull vData]. destruct (vData f) eqn:E; [by left|]. right. left. discriminate. Qed.

Lemma Misbehaving_filter banscore n howmuch : pfilter (Misbehaving banscore n howmuch) = pfilter n.
Proof. unfold Misbehaving. by destruct (howmuch =? 0). Qed.

Lemma message_ok svc enf bs n m : filter_ok n -> exists n', ProcessFilterMessage svc enf bs n m = Some n' /\ filter_ok n'.
Proof.
  intros Hn. destruct m as [vRecv|vRecv|]; cbn [ProcessFilterMessage].
  - destruct svc; cbn [negb]; [|repeat case_match; eauto]. destruct (CBloomFilter_read vRecv) as [|[f ?]]; [by eauto|].
    eexists. split; [done|]. destruct (IsWithinSizeConstraints f); [apply UpdateEmptyFull_wf|exact Hn].
  - destruct svc; cbn [negb]; [|repeat case_match; eauto]. destruct (dec bytes_codec vRecv) as [|[data ?]]; [by eauto|].
    destruct (Z.of_nat (length data) >? MAX_SCRIPT_ELEMENT_SIZE); [by eauto|]. unfold filter_ok in Hn. destruct (pfilter n) as [f|] eqn:Ef.
    + destruct (insert_spec f data Hn) as (f' & -> & Hw & _). monad. eexists. split; [done|exact Hw].
    + eexists. split; [done|]. unfold filter_ok. by rewrite Misbehaving_filter, Ef.
  - eexists. split; [done|]. destruct svc; [by left|exact Hn].
Qed.

(** Whatever filter messages a peer sends, with whatever bytes, handling
    them and matching any transaction against the resulting filter never takes a
    remainder by zero nor leaves the filter's data: in particular a loaded filter
    without data is treated as full. *)
Lemma filter_messages_safe dc mx svc enf bs n ms hash tx : pfilter n = Some CBloomFilter_default -> sized tx ->
  exists n', process_all svc enf bs n ms = Some n' /\
    forall f, pfilter n' = Some f -> exists f' b, IsRelevantAndUpdate dc mx f hash tx = Some (f', b).
Proof.
  intros H0 Hs. assert (filter_ok n) as Hn by (unfold filter_ok; rewrite H0; by left). clear H0.
  enough (exists n', process_all svc enf bs n ms = Some n' /\ filter_ok n') as (n' & E & Hn').
  { exists n'. split; [done|]. intros f Hf. unfold filter_ok in Hn'. rewrite Hf in Hn'.
    destruct (relevance_spec dc mx f hash tx Hn' Hs) as (f' & b & -> & _). by exists f', b. }
  revert n Hn. induction ms as [|m ms IH]; intros n Hn; [by exists n|]. cbn [process_all].
  destruct (message_ok svc enf bs n m Hn) as (n1 & -> & H1). monad. by apply IH.
Qed.

Lemma filter_messages_safe_witness :
  exists n', process_all true false 100 {| nVersion := 170008; pfilter := Some CBloomFilter_default; fRelayTxes := false; fDisconnect := false; nMisbehavior := 0; fShouldBan := false |}
    [FilterLoad ([0] ++ [5; 0; 0; 0] ++ [0; 0; 0; 0] ++ [1]); FilterAdd [1; 7]; FilterClear] = Some n'.
Proof.
  destruct (filter_messages_safe true 80 true false 100
    {| nVersion := 170008; pfilter := Some CBloomFilter_default; fRelayTxes := false; fDisconnect := false; nMisbehavior := 0; fShouldBan := false |}
    [FilterLoad ([0] ++ [5; 0; 0; 0] ++ [0; 0; 0; 0] ++ [1]); FilterAdd [1; 7]; FilterClear] (replicate 32 7) (CTransaction_with [] []))
    as (n' & H & _); [reflexivity|split; [constructor|by vm_compute]|by exists n'].
Defined.


End Bloom.
