(* ===== verification/Hasher.v ===== *)
(** * Buffered block hashing (the hasher classes of src/crypto)

    [CSHA256], [CSHA512], [CSHA1] and [CRIPEMD160] have the same shape: a chaining
    state, a buffer of one block and a byte count; [Write] fills the buffer and feeds
    full blocks to [Transform], [Finalize] writes the padding and the size.  The
    section is that shape; the theorem shows that it hashes the concatenation of what
    was written, however it was cut. *)

From stdpp Require Import base list list_numbers numbers option.
From Stdlib Require Import ZArith Lia.
From S2P Require Import Prelude Bytes.
#[local] Open Scope Z_scope.

Module Hasher.

(** What a class fixes: the block size, the initial state, the transformation, the
    constant in the length of the padding, the size descriptor and the output. *)
Record algorithm (S : Type) := {
  block : nat;
  Initialize : S;
  Transform : S -> list Z -> S;
  pad_const : Z;
  sizedesc : Z -> list Z;
  output : S -> list Z
}.
Arguments block {S}. Arguments Initialize {S}. Arguments Transform {S}.
Arguments pad_const {S}. Arguments sizedesc {S}. Arguments output {S}.

Record ctx (S : Type) := { s : S; buf : list Z; bytes : Z }.
Arguments s {S}. Arguments buf {S}. Arguments bytes {S}. Arguments Build_ctx {S}.

Section hasher.
Context {S : Type} (A : algorithm S).

(** The constructor; the buffer is not initialized. *)
Definition construct (buf0 : list Z) : ctx S := {| s := Initialize A; buf := buf0; bytes := 0 |}.

Definition Reset (c : ctx S) : ctx S := {| s := Initialize A; buf := buf c; bytes := 0 |}.

(** [memcpy(buf + off, data, size)] *)
Definition memcpy (buf : list Z) (off : nat) (data : list Z) : list Z :=
  take off buf ++ data ++ drop (off + length data) buf.

(** [while (end >= data + block)]: full chunks directly from the source *)
Fixpoint chunks (fuel : nat) (st : S) (bytes : Z) (data : list Z) : S * Z * list Z :=
  match fuel with
  | O => (st, bytes, data)
  | Datatypes.S fuel =>
      if (block A <=? length data)%nat
      then chunks fuel (Transform A st (take (block A) data)) (u64 (bytes + Z.of_nat (block A))) (drop (block A) data)
      else (st, bytes, data)
  end.

Definition Write (c : ctx S) (data : list Z) : ctx S :=
  let bufsize := Z.to_nat (bytes c mod Z.of_nat (block A)) in
  let '(st, b, n, data, bufsize) :=
    if negb (bufsize =? 0)%nat && (block A <=? bufsize + length data)%nat then
      let b := memcpy (buf c) bufsize (take (block A - bufsize) data) in
      (Transform A (s c) b, b, u64 (bytes c + Z.of_nat (block A - bufsize)), drop (block A - bufsize) data, O)
    else (s c, buf c, bytes c, data, bufsize) in
  let '(st, n, data) := chunks (length data) st n data in
  if (0 <? length data)%nat
  then {| s := st; buf := memcpy b bufsize data; bytes := u64 (n + Z.of_nat (length data)) |}
  else {| s := st; buf := b; bytes := n |}.

(** [pad] is [0x80] followed by zeros. *)
Definition pad (n : Z) : list Z := 0x80 :: replicate (Z.to_nat (n - 1)) 0.

Definition Finalize (c : ctx S) : list Z * ctx S :=
  let desc := sizedesc A (u64 (Z.shiftl (bytes c) 3)) in
  let c := Write c (pad (1 + (pad_const A - bytes c mod Z.of_nat (block A)) mod Z.of_nat (block A))) in
  let c := Write c desc in
  (output A (s c), c).

(** ** Reference: the padded message, one block after the other *)

Fixpoint absorb (fuel : nat) (st : S) (data : list Z) : S * list Z :=
  match fuel with
  | O => (st, data)
  | Datatypes.S fuel =>
      if (block A <=? length data)%nat then absorb fuel (Transform A st (take (block A) data)) (drop (block A) data) else (st, data)
  end.

Definition padded (m : list Z) : list Z :=
  m ++ pad (1 + (pad_const A - Z.of_nat (length m)) mod Z.of_nat (block A)) ++ sizedesc A (8 * Z.of_nat (length m)).

Definition hash (m : list Z) : list Z := output A (fst (absorb (length (padded m)) (Initialize A) (padded m))).

(** ** Equivalence *)

Context (Hblock : (0 < block A)%nat).

Lemma absorb_fuel f1 : forall f2 st d, (length d <= f1)%nat -> (length d <= f2)%nat -> absorb f1 st d = absorb f2 st d.
Proof using Hblock.
  induction f1 as [|f1 IH]; intros f2 st d H1 H2.
  - destruct d; [|simpl in H1; lia]. destruct f2; [done|]. cbn [absorb]. destruct (Nat.leb_spec (block A) (length (@nil Z))); [simpl in *; lia|done].
  - cbn [absorb]. destruct f2 as [|f2].
    + destruct d; [|simpl in H2; lia]. destruct (Nat.leb_spec (block A) (length (@nil Z))); [simpl in *; lia|done].
    + cbn [absorb]. destruct (Nat.leb_spec (block A) (length d)) as [Hle|]; [|done]. apply IH; rewrite length_drop; lia.
Qed.

Definition run (st : S) (d : list Z) : S * list Z := absorb (length d) st d.

Lemma run_step st d : (block A <= length d)%nat -> run st d = run (Transform A st (take (block A) d)) (drop (block A) d).
Proof using Hblock.
  intros H. unfold run. destruct (length d) as [|n] eqn:E; [lia|]. cbn [absorb]. rewrite E.
  destruct (Nat.leb_spec (block A) (Datatypes.S n)); [|lia]. apply absorb_fuel; rewrite length_drop; lia.
Qed.

Lemma run_short st d : (length d < block A)%nat -> run st d = (st, d).
Proof. intros H. unfold run. destruct (length d) as [|n] eqn:E; [done|]. cbn [absorb]. rewrite E. by destruct (Nat.leb_spec (block A) (Datatypes.S n)); [lia|]. Qed.

(** What was absorbed and what waits. *)
Lemma run_app n : forall st m d, (length m <= n)%nat -> run st (m ++ d) = let '(st', t) := run st m in run st' (t ++ d).
Proof using Hblock.
  induction n as [|n IH]; intros st m d Hn.
  - destruct m; [|simpl in Hn; lia]. done.
  - destruct (decide (block A <= length m)%nat) as [Hle|Hlt].
    + rewrite (run_step st (m ++ d)), (run_step st m) by (rewrite ?length_app; lia). rewrite take_app_le, drop_app_le by lia. apply IH. rewrite length_drop. lia.
    + rewrite (run_short st m) by lia. done.
Qed.

Lemma run_tail st d : (length (snd (run st d)) < block A)%nat /\ Z.of_nat (length (snd (run st d))) = Z.of_nat (length d) mod Z.of_nat (block A).
Proof using Hblock.
  remember (length d) as n eqn:En. revert st d En. induction n as [n IH] using lt_wf_ind. intros st d ->.
  destruct (decide (block A <= length d)%nat) as [Hle|Hlt].
  - rewrite run_step by done. destruct (IH (length (drop (block A) d)) ltac:(rewrite length_drop; lia) (Transform A st (take (block A) d)) _ eq_refl) as [H1 H2].
    split; [done|]. rewrite H2, length_drop, Nat2Z.inj_sub by done. rewrite <- (Z.mod_add _ 1) by lia. f_equal. lia.
  - rewrite run_short by lia. cbn [snd]. split; [lia|]. rewrite Z.mod_small; lia.
Qed.

Lemma chunks_run fuel : forall st n d, (length d <= fuel)%nat -> 0 <= n -> n + Z.of_nat (length d) < 2 ^ 64 ->
  let '(st', t) := run st d in chunks fuel st n d = (st', n + Z.of_nat (length d - length t), t).
Proof using Hblock.
  induction fuel as [|fuel IH]; intros st n d Hf Hn Hb.
  { destruct d; [|simpl in Hf; lia]. rewrite run_short by (simpl; lia). simpl. by rewrite Z.add_0_r. }
  cbn [chunks]. destruct (Nat.leb_spec (block A) (length d)) as [Hle|Hlt].
  - rewrite run_step by done. rewrite u64_id by (unfold is_u64; lia).
    specialize (IH (Transform A st (take (block A) d)) (n + Z.of_nat (block A)) (drop (block A) d)). rewrite length_drop in IH. specialize (IH ltac:(lia) ltac:(lia) ltac:(lia)).
    pose proof (run_tail (Transform A st (take (block A) d)) (drop (block A) d)) as [Ht1 Ht2]. rewrite length_drop in Ht2.
    destruct (run _ (drop (block A) d)) as [st' t]. cbn [snd] in *. rewrite IH. do 2 f_equal.
    assert (length t <= length d - block A)%nat.
    { pose proof (Z.mod_le (Z.of_nat (length d - block A)) (Z.of_nat (block A)) ltac:(lia) ltac:(lia)). lia. }
    lia.
  - rewrite run_short by done. rewrite Nat.sub_diag. by rewrite Z.add_0_r.
Qed.

(** The context has read [m]. *)
Definition has_read (c : ctx S) (m : list Z) : Prop :=
  bytes c = Z.of_nat (length m) /\ length (buf c) = block A /\
  run (Initialize A) m = (s c, take (Z.to_nat (Z.of_nat (length m) mod Z.of_nat (block A))) (buf c)).

Lemma memcpy_length b off d : (off + length d <= length b)%nat -> length (memcpy b off d) = length b.
Proof. intros H. unfold memcpy. rewrite !length_app, length_take, length_drop. lia. Qed.

Lemma memcpy_take b off d : (off + length d <= length b)%nat -> take (off + length d) (memcpy b off d) = take off b ++ d.
Proof.
  intros H. unfold memcpy. rewrite app_assoc. apply take_app_length'. rewrite length_app, length_take. lia.
Qed.

(** The end of [Write], after the full chunks: what is left goes to the buffer. *)
Lemma finish_run st n b off d (st' : S) r : (off < block A)%nat -> length b = block A -> 0 <= n -> n + Z.of_nat (length d) < 2 ^ 64 ->
  off = O \/ (off + length d < block A)%nat -> run st (take off b ++ d) = (st', r) ->
  let c := let '(st, n, data) := chunks (length d) st n d in
           if (0 <? length data)%nat then {| s := st; buf := memcpy b off data; bytes := u64 (n + Z.of_nat (length data)) |}
           else {| s := st; buf := b; bytes := n |} in
  s c = st' /\ take (length r) (buf c) = r /\ bytes c = n + Z.of_nat (length d) /\ length (buf c) = block A.
Proof using Hblock.
  intros Hoff Hb Hn Hlen Hcase Hrun. pose proof (chunks_run (length d) st n d ltac:(lia) Hn Hlen) as Hch.
  assert (exists t, run st d = (st', t) /\ r = take off b ++ t) as (t & Ht & ->).
  { destruct Hcase as [->|Hs]; [exists r; by rewrite take_0 in *|]. rewrite run_short in Hrun by (rewrite length_app, length_take; lia).
    injection Hrun as <- <-. exists d. by rewrite run_short by lia. }
  pose proof (run_tail st d) as [Htail _]. rewrite Ht in Hch, Htail. cbn [snd] in Htail. rewrite Hch.
  assert (length t <= length d)%nat as Hle.
  { pose proof (run_tail st d) as [_ E]. rewrite Ht in E. cbn [snd] in E. pose proof (Z.mod_le (Z.of_nat (length d)) (Z.of_nat (block A)) ltac:(lia) ltac:(lia)). lia. }
  assert (off + length t < block A)%nat as Hfit by lia.
  rewrite length_app, length_take, Nat.min_l by lia. destruct (Nat.ltb_spec 0 (length t)) as [Hpos|Hz]; cbn [s buf bytes].
  - split_and!; [done|apply memcpy_take; lia| |rewrite memcpy_length; lia]. rewrite u64_id by (unfold is_u64; lia). lia.
  - destruct t; [|simpl in Hz; lia]. split_and!; [done|by rewrite app_nil_r, Nat.add_0_r|simpl; lia|done].
Qed.

Lemma Write_reads c m d : has_read c m -> Z.of_nat (length (m ++ d)) < 2 ^ 64 -> has_read (Write c d) (m ++ d).
Proof using Hblock.
  intros (Hbytes & Hbuf & Hrun) Hlen. rewrite length_app in Hlen. set (off := Z.to_nat (Z.of_nat (length m) mod Z.of_nat (block A))) in *.
  assert (off < block A)%nat as Hoff by (unfold off; pose proof (Z.mod_pos_bound (Z.of_nat (length m)) (Z.of_nat (block A)) ltac:(lia)); lia).
  destruct (run (Initialize A) (m ++ d)) as [st' r] eqn:Hall. pose proof (run_tail (Initialize A) (m ++ d)) as [_ Htail]. rewrite Hall in Htail. cbn [snd] in Htail.
  rewrite (run_app (length m)), Hrun in Hall by done.
  enough (s (Write c d) = st' /\ take (length r) (buf (Write c d)) = r /\ bytes (Write c d) = Z.of_nat (length m) + Z.of_nat (length d) /\
    length (buf (Write c d)) = block A) as (H1 & H2 & H3 & H4).
  { split; [by rewrite H3, length_app, Nat2Z.inj_add|]. split; [done|].
    rewrite (run_app (length m)), Hrun, Hall, H1, <- Htail, Nat2Z.id by done. by rewrite H2. }
  unfold Write. rewrite Hbytes. fold off. destruct (negb (off =? 0)%nat && (block A <=? off + length d)%nat) eqn:Hc.
  - apply andb_true_iff in Hc as [H0 H1]. apply negb_true_iff, Nat.eqb_neq in H0. apply Nat.leb_le in H1.
    set (k := (block A - off)%nat). assert (length (take k d) = k) as Hk by (rewrite length_take; lia).
    assert (memcpy (buf c) off (take k d) = take off (buf c) ++ take k d) as Eb.
    { rewrite <- (memcpy_take (buf c) off (take k d)) by lia. symmetry. apply take_ge. rewrite memcpy_length; lia. }
    rewrite u64_id by (unfold is_u64; lia). rewrite run_step in Hall by (rewrite length_app, length_take; lia).
    assert (length (take off (buf c)) = off) as Ht by (rewrite length_take; lia).
    rewrite take_app_ge, drop_app_ge in Hall by lia. rewrite Ht in Hall. fold k in Hall. rewrite Eb.
    destruct (finish_run (Transform A (s c) (take off (buf c) ++ take k d)) (Z.of_nat (length m) + Z.of_nat k) (take off (buf c) ++ take k d) 0 (drop k d) st' r)
      as (G1 & G2 & G3 & G4); try done; try lia; try (by left).
    { rewrite length_app. lia. } { rewrite length_drop. lia. }
    split_and!; [exact G1|exact G2| |exact G4]. etrans; [exact G3|]. rewrite length_drop. lia.
  - destruct (finish_run (s c) (Z.of_nat (length m)) (buf c) off d st' r) as (G1 & G2 & G3 & G4); try done; try lia.
    apply andb_false_iff in Hc as [Hc|Hc]; [left; apply negb_false_iff, Nat.eqb_eq in Hc; lia|right; apply Nat.leb_gt in Hc; lia].
Qed.

Definition write_all (c : ctx S) (pieces : list (list Z)) : ctx S := fold_left Write pieces c.

Lemma construct_reads buf0 : length buf0 = block A -> has_read (construct buf0) [].
Proof using Hblock. intros H. unfold has_read. split_and!; [done|done|]. rewrite run_short by (simpl; lia). simpl. by rewrite take_0. Qed.

Lemma Reset_reads c m : has_read c m -> has_read (Reset c) [].
Proof using Hblock. intros (_ & H & _). by apply construct_reads. Qed.

Lemma write_all_reads pieces : forall c m, has_read c m -> Z.of_nat (length (m ++ concat pieces)) < 2 ^ 64 ->
  has_read (write_all c pieces) (m ++ concat pieces).
Proof using Hblock.
  induction pieces as [|d pieces IH]; intros c m Hc Hl; [by rewrite app_nil_r|]. cbn [write_all fold_left concat]. rewrite app_assoc. cbn [concat] in Hl. rewrite app_assoc in Hl.
  apply IH; [|done]. apply Write_reads; [done|]. rewrite !length_app in *. lia.
Qed.

(** The padding completes the last block. *)
Context (L : nat) (Hdesc : forall z, length (sizedesc A z) = L) (Hpad : (pad_const A + 1 + Z.of_nat L) mod Z.of_nat (block A) = 0)
  (Hsmall : Z.of_nat L < 2 ^ 10) (Hblock2 : Z.of_nat (block A) < 2 ^ 10).

Lemma pad_range x : 0 <= (pad_const A - x) mod Z.of_nat (block A) < 2 ^ 10.
Proof using Hblock Hblock2. clear Hsmall Hpad Hdesc. pose proof (Z.mod_pos_bound (pad_const A - x) (Z.of_nat (block A)) ltac:(lia)). lia. Qed.

Lemma length_pad n : 1 <= n -> Z.of_nat (length (pad n)) = n.
Proof. intros Hn. unfold pad. cbn [length]. rewrite length_replicate. lia. Qed.

Lemma padded_length m : Z.of_nat (length (padded m)) = Z.of_nat (length m) + (1 + (pad_const A - Z.of_nat (length m)) mod Z.of_nat (block A)) + Z.of_nat L.
Proof using Hblock Hblock2 Hdesc. pose proof (pad_range (Z.of_nat (length m))). unfold padded. rewrite !length_app, Hdesc, !Nat2Z.inj_add, length_pad by lia. lia. Qed.

Lemma padded_blocks m : Z.of_nat (length (padded m)) mod Z.of_nat (block A) = 0 /\ snd (run (Initialize A) (padded m)) = [].
Proof using Hblock Hblock2 Hdesc Hpad.
  assert (Z.of_nat (length (padded m)) mod Z.of_nat (block A) = 0) as E.
  { rewrite padded_length. set (x := Z.of_nat (length m)). replace (x + (1 + (pad_const A - x) mod Z.of_nat (block A)) + Z.of_nat L)
      with ((pad_const A - x) mod Z.of_nat (block A) + (x + 1 + Z.of_nat L)) by lia.
    rewrite Z.add_mod_idemp_l by lia. rewrite <- Hpad. f_equal. lia. }
  split; [done|]. pose proof (run_tail (Initialize A) (padded m)) as [_ H]. rewrite E in H. destruct (snd _); [done|simpl in H; lia].
Qed.

Lemma Finalize_hash c m : has_read c m -> Z.of_nat (length m) < 2 ^ 60 -> fst (Finalize c) = hash m /\ has_read (snd (Finalize c)) (padded m).
Proof using Hblock Hblock2 Hdesc Hsmall.
  intros Hc Hm. pose proof Hc as (Hbytes & _ & _). unfold Finalize. rewrite Hbytes, Zminus_mod_idemp_r, Z.shiftl_mul_pow2 by lia.
  rewrite u64_id by (unfold is_u64; lia). set (p := pad _). set (desc := sizedesc A _).
  assert (padded m = (m ++ p) ++ desc) as E by (unfold padded, p, desc; rewrite <- app_assoc; do 3 f_equal; lia).
  pose proof (padded_length m) as Hl. pose proof (pad_range (Z.of_nat (length m))) as Hr. rewrite E in Hl.
  assert (has_read (Write (Write c p) desc) ((m ++ p) ++ desc)) as Hread.
  { rewrite !length_app in Hl. apply Write_reads; [apply Write_reads; [done|]|]; rewrite !length_app; lia. }
  cbn [fst snd]. rewrite E. split; [|done]. destruct Hread as (_ & _ & Hrun). unfold hash. rewrite E. fold (run (Initialize A) ((m ++ p) ++ desc)). by rewrite Hrun.
Qed.

(** What is hashed is the concatenation of what was written. *)
Lemma stream_hash buf0 pieces : length buf0 = block A -> Z.of_nat (length (concat pieces)) < 2 ^ 60 ->
  fst (Finalize (write_all (construct buf0) pieces)) = hash (concat pieces).
Proof using Hblock Hblock2 Hdesc Hsmall.
  intros Hb Hl. apply Finalize_hash; [|done]. apply (write_all_reads pieces (construct buf0) []); [by apply construct_reads|simpl; lia].
Qed.

End hasher.

End Hasher.
