(* ===== verification/HashFunctions.v ===== *)
(** * The hash functions (src/crypto/sha256.cpp, sha512.cpp, sha1.cpp, ripemd160.cpp,
    hmac_sha256.cpp, hmac_sha512.cpp, and the hashers of src/hash.h)

    The transformations over words of 32 and 64 bits and the classes built on
    Hasher.v.  The source unrolls the rounds and renames the variables instead of
    moving them; here a round returns the moved tuple and the words of the schedule
    are a window of sixteen.  The vectors are those of test/crypto_tests.cpp. *)

From stdpp Require Import base list list_numbers numbers option strings.
From Stdlib Require Import ZArith Lia.
From S2P Require Import Prelude Bytes StrEncodings Hasher.
Import Endian StrEncodings Hasher.
#[local] Open Scope Z_scope.

Module HashFunctions.

(** The word at an index of the window *)
Definition word (w : list Z) (i : nat) : Z := nth i w 0.

(** ** SHA-2 *)

Definition Ch (x y z : Z) : Z := Z.lxor z (Z.land x (Z.lxor y z)).
Definition Maj (x y z : Z) : Z := Z.lor (Z.land x y) (Z.land z (Z.lor x y)).

Abbreviation words8 := (Z * Z * Z * Z * Z * Z * Z * Z)%type.
Abbreviation words5 := (Z * Z * Z * Z * Z)%type.

Section sha2.
(** [wrap] is the width of a word. *)
Context (wrap : Z -> Z) (Sigma0 Sigma1 sigma0 sigma1 : Z -> Z).

Definition Round2 (v : words8) (k w : Z) : words8 :=
  let '(a, b, c, d, e, f, g, h) := v in
  let t1 := wrap (h + Sigma1 e + Ch e f g + k + w) in
  let t2 := wrap (Sigma0 a + Maj a b c) in
  (wrap (t1 + t2), a, b, c, wrap (d + t1), e, f, g).

(** [w0 += sigma1(w14) + w9 + sigma0(w1)] *)
Definition schedule2 (w : list Z) : list Z :=
  drop 1 w ++ [wrap (word w 0 + sigma1 (word w 14) + word w 9 + sigma0 (word w 1))].

Fixpoint rounds2 (ks : list Z) (w : list Z) (v : words8) : words8 :=
  match ks with
  | [] => v
  | k :: ks => rounds2 ks (schedule2 w) (Round2 v k (word w 0))
  end.

Definition add8 (u v : words8) : words8 :=
  let '(a, b, c, d, e, f, g, h) := u in
  let '(a', b', c', d', e', f', g', h') := v in
  (wrap (a + a'), wrap (b + b'), wrap (c + c'), wrap (d + d'), wrap (e + e'), wrap (f + f'), wrap (g + g'), wrap (h + h')).

End sha2.

(** ** SHA-256 *)

(** [x >> n | x << (32 - n)] *)
Definition rotr32 (x n : Z) : Z := Z.lor (Z.shiftr x n) (u32 (Z.shiftl x (32 - n))).

Definition Sigma0_256 (x : Z) : Z := Z.lxor (Z.lxor (rotr32 x 2) (rotr32 x 13)) (rotr32 x 22).
Definition Sigma1_256 (x : Z) : Z := Z.lxor (Z.lxor (rotr32 x 6) (rotr32 x 11)) (rotr32 x 25).
Definition sigma0_256 (x : Z) : Z := Z.lxor (Z.lxor (rotr32 x 7) (rotr32 x 18)) (Z.shiftr x 3).
Definition sigma1_256 (x : Z) : Z := Z.lxor (Z.lxor (rotr32 x 17) (rotr32 x 19)) (Z.shiftr x 10).

(** The constants of eight consecutive rounds *)
Definition row8 (a b c d e f g h : Z) : list Z := [a; b; c; d; e; f; g; h].
Definition K256 : list Z :=
   row8 0x428a2f98 0x71374491 0xb5c0fbcf 0xe9b5dba5 0x3956c25b 0x59f111f1 0x923f82a4 0xab1c5ed5 ++
   row8 0xd807aa98 0x12835b01 0x243185be 0x550c7dc3 0x72be5d74 0x80deb1fe 0x9bdc06a7 0xc19bf174 ++
   row8 0xe49b69c1 0xefbe4786 0x0fc19dc6 0x240ca1cc 0x2de92c6f 0x4a7484aa 0x5cb0a9dc 0x76f988da ++
   row8 0x983e5152 0xa831c66d 0xb00327c8 0xbf597fc7 0xc6e00bf3 0xd5a79147 0x06ca6351 0x14292967 ++
   row8 0x27b70a85 0x2e1b2138 0x4d2c6dfc 0x53380d13 0x650a7354 0x766a0abb 0x81c2c92e 0x92722c85 ++
   row8 0xa2bfe8a1 0xa81a664b 0xc24b8b70 0xc76c51a3 0xd192e819 0xd6990624 0xf40e3585 0x106aa070 ++
   row8 0x19a4c116 0x1e376c08 0x2748774c 0x34b0bcb5 0x391c0cb3 0x4ed8aa4a 0x5b9cca4f 0x682e6ff3 ++
   row8 0x748f82ee 0x78a5636f 0x84c87814 0x8cc70208 0x90befffa 0xa4506ceb 0xbef9a3f7 0xc67178f2.

Definition words_be32 (chunk : list Z) : list Z := (fun i => ReadBE32 (drop (4 * i) chunk)) <$> seq 0 16.

Definition Initialize256 : words8 :=
  (0x6a09e667, 0xbb67ae85, 0x3c6ef372, 0xa54ff53a, 0x510e527f, 0x9b05688c, 0x1f83d9ab, 0x5be0cd19).

Definition Transform256 (s : words8) (chunk : list Z) : words8 :=
  add8 u32 s (rounds2 u32 Sigma0_256 Sigma1_256 sigma0_256 sigma1_256 K256 (words_be32 chunk) s).

Definition output256 (s : words8) : list Z :=
  let '(a, b, c, d, e, f, g, h) := s in
  WriteBE32 a ++ WriteBE32 b ++ WriteBE32 c ++ WriteBE32 d ++ WriteBE32 e ++ WriteBE32 f ++ WriteBE32 g ++ WriteBE32 h.

Definition CSHA256_alg : algorithm words8 :=
  {| block := 64; Initialize := Initialize256; Transform := Transform256; pad_const := 119; sizedesc := WriteBE64; output := output256 |}.

(** [FinalizeNoPadding(hash, enforce_compression)]: [None] is [std::length_error]. *)
Definition FinalizeNoPadding (c : ctx words8) (enforce_compression : bool) : option (list Z) :=
  if enforce_compression && negb (bytes c =? 64) then None else Some (output256 (s c)).

(** ** SHA-512 *)

Definition rotr64 (x n : Z) : Z := Z.lor (Z.shiftr x n) (u64 (Z.shiftl x (64 - n))).

Definition Sigma0_512 (x : Z) : Z := Z.lxor (Z.lxor (rotr64 x 28) (rotr64 x 34)) (rotr64 x 39).
Definition Sigma1_512 (x : Z) : Z := Z.lxor (Z.lxor (rotr64 x 14) (rotr64 x 18)) (rotr64 x 41).
Definition sigma0_512 (x : Z) : Z := Z.lxor (Z.lxor (rotr64 x 1) (rotr64 x 8)) (Z.shiftr x 7).
Definition sigma1_512 (x : Z) : Z := Z.lxor (Z.lxor (rotr64 x 19) (rotr64 x 61)) (Z.shiftr x 6).

Definition K512 : list Z :=
  [0x428a2f98d728ae22; 0x7137449123ef65cd; 0xb5c0fbcfec4d3b2f; 0xe9b5dba58189dbbc;
   0x3956c25bf348b538; 0x59f111f1b605d019; 0x923f82a4af194f9b; 0xab1c5ed5da6d8118;
   0xd807aa98a3030242; 0x12835b0145706fbe; 0x243185be4ee4b28c; 0x550c7dc3d5ffb4e2;
   0x72be5d74f27b896f; 0x80deb1fe3b1696b1; 0x9bdc06a725c71235; 0xc19bf174cf692694;
   0xe49b69c19ef14ad2; 0xefbe4786384f25e3; 0x0fc19dc68b8cd5b5; 0x240ca1cc77ac9c65;
   0x2de92c6f592b0275; 0x4a7484aa6ea6e483; 0x5cb0a9dcbd41fbd4; 0x76f988da831153b5;
   0x983e5152ee66dfab; 0xa831c66d2db43210; 0xb00327c898fb213f; 0xbf597fc7beef0ee4;
   0xc6e00bf33da88fc2; 0xd5a79147930aa725; 0x06ca6351e003826f; 0x142929670a0e6e70;
   0x27b70a8546d22ffc; 0x2e1b21385c26c926; 0x4d2c6dfc5ac42aed; 0x53380d139d95b3df;
   0x650a73548baf63de; 0x766a0abb3c77b2a8; 0x81c2c92e47edaee6; 0x92722c851482353b;
   0xa2bfe8a14cf10364; 0xa81a664bbc423001; 0xc24b8b70d0f89791; 0xc76c51a30654be30;
   0xd192e819d6ef5218; 0xd69906245565a910; 0xf40e35855771202a; 0x106aa07032bbd1b8;
   0x19a4c116b8d2d0c8; 0x1e376c085141ab53; 0x2748774cdf8eeb99; 0x34b0bcb5e19b48a8;
   0x391c0cb3c5c95a63; 0x4ed8aa4ae3418acb; 0x5b9cca4f7763e373; 0x682e6ff3d6b2b8a3;
   0x748f82ee5defb2fc; 0x78a5636f43172f60; 0x84c87814a1f0ab72; 0x8cc702081a6439ec;
   0x90befffa23631e28; 0xa4506cebde82bde9; 0xbef9a3f7b2c67915; 0xc67178f2e372532b;
   0xca273eceea26619c; 0xd186b8c721c0c207; 0xeada7dd6cde0eb1e; 0xf57d4f7fee6ed178;
   0x06f067aa72176fba; 0x0a637dc5a2c898a6; 0x113f9804bef90dae; 0x1b710b35131c471b;
   0x28db77f523047d84; 0x32caab7b40c72493; 0x3c9ebe0a15c9bebc; 0x431d67c49c100d4c;
   0x4cc5d4becb3e42b6; 0x597f299cfc657e2a; 0x5fcb6fab3ad6faec; 0x6c44198c4a475817].

Definition words_be64 (chunk : list Z) : list Z := (fun i => ReadBE64 (drop (8 * i) chunk)) <$> seq 0 16.

Definition Initialize512 : words8 :=
  (0x6a09e667f3bcc908, 0xbb67ae8584caa73b, 0x3c6ef372fe94f82b, 0xa54ff53a5f1d36f1,
   0x510e527fade682d1, 0x9b05688c2b3e6c1f, 0x1f83d9abfb41bd6b, 0x5be0cd19137e2179).

Definition Transform512 (s : words8) (chunk : list Z) : words8 :=
  add8 u64 s (rounds2 u64 Sigma0_512 Sigma1_512 sigma0_512 sigma1_512 K512 (words_be64 chunk) s).

Definition output512 (s : words8) : list Z :=
  let '(a, b, c, d, e, f, g, h) := s in
  WriteBE64 a ++ WriteBE64 b ++ WriteBE64 c ++ WriteBE64 d ++ WriteBE64 e ++ WriteBE64 f ++ WriteBE64 g ++ WriteBE64 h.

Definition CSHA512_alg : algorithm words8 :=
  {| block := 128; Initialize := Initialize512; Transform := Transform512; pad_const := 239;
     sizedesc z := replicate 8 0 ++ WriteBE64 z; output := output512 |}.

(** ** SHA-1 *)

(** [(x << n) | (x >> (32 - n))] *)
Definition rol (x n : Z) : Z := Z.lor (u32 (Z.shiftl x n)) (Z.shiftr x (32 - n)).

Definition sha1_f1 (b c d : Z) : Z := Z.lxor d (Z.land b (Z.lxor c d)).
Definition sha1_f2 (b c d : Z) : Z := Z.lxor (Z.lxor b c) d.
Definition sha1_f3 (b c d : Z) : Z := Z.lor (Z.land b c) (Z.land d (Z.lor b c)).

Definition Round1 (v : words5) (f : Z -> Z -> Z -> Z) (k w : Z) : words5 :=
  let '(a, b, c, d, e) := v in
  (u32 (e + rol a 5 + f b c d + k + w), a, rol b 30, c, d).

(** The function and the constant of each of the 80 rounds *)
Definition steps1 : list ((Z -> Z -> Z -> Z) * Z) :=
  replicate 20 (sha1_f1, 0x5A827999) ++ replicate 20 (sha1_f2, 0x6ED9EBA1) ++
  replicate 20 (sha1_f3, 0x8F1BBCDC) ++ replicate 20 (sha1_f2, 0xCA62C1D6).

(** [w0 = left(w0 ^ w13 ^ w8 ^ w2)] *)
Definition schedule1 (w : list Z) : list Z :=
  drop 1 w ++ [rol (Z.lxor (Z.lxor (Z.lxor (word w 0) (word w 13)) (word w 8)) (word w 2)) 1].

Fixpoint rounds1 (steps : list ((Z -> Z -> Z -> Z) * Z)) (w : list Z) (v : words5) : words5 :=
  match steps with
  | [] => v
  | (f, k) :: steps => rounds1 steps (schedule1 w) (Round1 v f k (word w 0))
  end.

Definition InitializeSHA1 : words5 := (0x67452301, 0xEFCDAB89, 0x98BADCFE, 0x10325476, 0xC3D2E1F0).

Definition TransformSHA1 (s : words5) (chunk : list Z) : words5 :=
  let '(a, b, c, d, e) := s in
  let '(a', b', c', d', e') := rounds1 steps1 (words_be32 chunk) s in
  (u32 (a + a'), u32 (b + b'), u32 (c + c'), u32 (d + d'), u32 (e + e')).

Definition output_be5 (s : words5) : list Z :=
  let '(a, b, c, d, e) := s in WriteBE32 a ++ WriteBE32 b ++ WriteBE32 c ++ WriteBE32 d ++ WriteBE32 e.

Definition CSHA1_alg : algorithm words5 :=
  {| block := 64; Initialize := InitializeSHA1; Transform := TransformSHA1; pad_const := 119; sizedesc := WriteBE64; output := output_be5 |}.

(** ** RIPEMD-160 *)

Definition not32 (x : Z) : Z := Z.lxor x 0xffffffff.

Definition rmd_f1 (x y z : Z) : Z := Z.lxor (Z.lxor x y) z.
Definition rmd_f2 (x y z : Z) : Z := Z.lor (Z.land x y) (Z.land (not32 x) z).
Definition rmd_f3 (x y z : Z) : Z := Z.lxor (Z.lor x (not32 y)) z.
Definition rmd_f4 (x y z : Z) : Z := Z.lor (Z.land x z) (Z.land y (not32 z)).
Definition rmd_f5 (x y z : Z) : Z := Z.lxor x (Z.lor y (not32 z)).

Definition RoundR (v : words5) (f : Z -> Z -> Z -> Z) (x k r : Z) : words5 :=
  let '(a, b, c, d, e) := v in
  (e, u32 (rol (u32 (a + f b c d + x + k)) r + e), b, rol c 10, d).

(** The words and the rotations of the two lines, in the order of the calls *)
Definition r_words1 : list nat :=
  [0; 1; 2; 3; 4; 5; 6; 7; 8; 9; 10; 11; 12; 13; 14; 15;
   7; 4; 13; 1; 10; 6; 15; 3; 12; 0; 9; 5; 2; 14; 11; 8;
   3; 10; 14; 4; 9; 15; 8; 1; 2; 7; 0; 6; 13; 11; 5; 12;
   1; 9; 11; 10; 0; 8; 12; 4; 13; 3; 7; 15; 14; 5; 6; 2;
   4; 0; 5; 9; 7; 12; 2; 10; 14; 1; 3; 8; 11; 6; 15; 13]%nat.
Definition r_rolls1 : list Z :=
  [11; 14; 15; 12; 5; 8; 7; 9; 11; 13; 14; 15; 6; 7; 9; 8;
   7; 6; 8; 13; 11; 9; 7; 15; 7; 12; 15; 9; 11; 7; 13; 12;
   11; 13; 6; 7; 14; 9; 13; 15; 14; 8; 13; 6; 5; 12; 7; 5;
   11; 12; 14; 15; 14; 15; 9; 8; 9; 14; 5; 6; 8; 6; 5; 12;
   9; 15; 5; 11; 6; 8; 13; 12; 5; 12; 13; 14; 11; 8; 5; 6].
Definition r_words2 : list nat :=
  [5; 14; 7; 0; 9; 2; 11; 4; 13; 6; 15; 8; 1; 10; 3; 12;
   6; 11; 3; 7; 0; 13; 5; 10; 14; 15; 8; 12; 4; 9; 1; 2;
   15; 5; 1; 3; 7; 14; 6; 9; 11; 8; 12; 2; 10; 0; 4; 13;
   8; 6; 4; 1; 3; 11; 15; 0; 5; 12; 2; 13; 9; 7; 10; 14;
   12; 15; 10; 4; 1; 5; 8; 7; 6; 2; 13; 14; 0; 3; 9; 11]%nat.
Definition r_rolls2 : list Z :=
  [8; 9; 9; 11; 13; 15; 15; 5; 7; 7; 8; 11; 14; 14; 12; 6;
   9; 13; 15; 7; 12; 8; 9; 11; 7; 7; 12; 7; 6; 15; 13; 11;
   9; 7; 15; 11; 8; 6; 6; 14; 12; 13; 5; 14; 13; 13; 7; 5;
   15; 5; 8; 11; 14; 14; 6; 14; 6; 9; 12; 9; 12; 5; 15; 8;
   8; 5; 12; 9; 12; 5; 14; 6; 8; 13; 6; 5; 15; 13; 11; 11].

(** [R11], [R21], [R31], [R41], [R51] and [R12], [R22], [R32], [R42], [R52] *)
Definition r_funs1 : list ((Z -> Z -> Z -> Z) * Z) :=
  replicate 16 (rmd_f1, 0) ++ replicate 16 (rmd_f2, 0x5A827999) ++ replicate 16 (rmd_f3, 0x6ED9EBA1) ++
  replicate 16 (rmd_f4, 0x8F1BBCDC) ++ replicate 16 (rmd_f5, 0xA953FD4E).
Definition r_funs2 : list ((Z -> Z -> Z -> Z) * Z) :=
  replicate 16 (rmd_f5, 0x50A28BE6) ++ replicate 16 (rmd_f4, 0x5C4DD124) ++ replicate 16 (rmd_f3, 0x6D703EF3) ++
  replicate 16 (rmd_f2, 0x7A6D76E9) ++ replicate 16 (rmd_f1, 0).

(** The calls of one line; the two lines share no variable. *)
Fixpoint r_line (w : list Z) (funs : list ((Z -> Z -> Z -> Z) * Z)) (ws : list nat) (rs : list Z) (v : words5) : words5 :=
  match funs, ws, rs with
  | (f, k) :: funs, i :: ws, r :: rs => r_line w funs ws rs (RoundR v f (word w i) k r)
  | _, _, _ => v
  end.

Definition words_le32 (chunk : list Z) : list Z := (fun i => ReadLE32 (drop (4 * i) chunk)) <$> seq 0 16.

Definition TransformR (s : words5) (chunk : list Z) : words5 :=
  let w := words_le32 chunk in
  let '(s0, s1, s2, s3, s4) := s in
  let '(a1, b1, c1, d1, e1) := r_line w r_funs1 r_words1 r_rolls1 s in
  let '(a2, b2, c2, d2, e2) := r_line w r_funs2 r_words2 r_rolls2 s in
  (u32 (s1 + c1 + d2), u32 (s2 + d1 + e2), u32 (s3 + e1 + a2), u32 (s4 + a1 + b2), u32 (s0 + b1 + c2)).

Definition output_le5 (s : words5) : list Z :=
  let '(a, b, c, d, e) := s in WriteLE32 a ++ WriteLE32 b ++ WriteLE32 c ++ WriteLE32 d ++ WriteLE32 e.

Definition CRIPEMD160_alg : algorithm words5 :=
  {| block := 64; Initialize := InitializeSHA1; Transform := TransformR; pad_const := 119; sizedesc := WriteLE64; output := output_le5 |}.

(** ** Test vectors *)

Example sha256_vectors :
  hash CSHA256_alg ([]) = [0xe3; 0xb0; 0xc4; 0x42; 0x98; 0xfc; 0x1c; 0x14; 0x9a; 0xfb; 0xf4; 0xc8; 0x99; 0x6f; 0xb9; 0x24; 0x27; 0xae; 0x41; 0xe4; 0x64; 0x9b; 0x93; 0x4c; 0xa4; 0x95; 0x99; 0x1b; 0x78; 0x52; 0xb8; 0x55] /\
  hash CSHA256_alg (chars "abc") = [0xba; 0x78; 0x16; 0xbf; 0x8f; 0x01; 0xcf; 0xea; 0x41; 0x41; 0x40; 0xde; 0x5d; 0xae; 0x22; 0x23; 0xb0; 0x03; 0x61; 0xa3; 0x96; 0x17; 0x7a; 0x9c; 0xb4; 0x10; 0xff; 0x61; 0xf2; 0x00; 0x15; 0xad] /\
  hash CSHA256_alg (chars "As Bitcoin relies on 80 byte header hashes, we want to have an example for that.") = [0x74; 0x06; 0xe8; 0xde; 0x7d; 0x6e; 0x4f; 0xff; 0xc5; 0x73; 0xda; 0xef; 0x05; 0xae; 0xfb; 0x88; 0x06; 0xe7; 0x79; 0x0f; 0x55; 0xea; 0xb5; 0x57; 0x6f; 0x31; 0x34; 0x97; 0x43; 0xcc; 0xa7; 0x43].
Proof. vm_compute. split_and!; reflexivity. Qed.

Example sha512_vector :
  hash CSHA512_alg (chars "abc") = [0xdd; 0xaf; 0x35; 0xa1; 0x93; 0x61; 0x7a; 0xba; 0xcc; 0x41; 0x73; 0x49; 0xae; 0x20; 0x41; 0x31; 0x12; 0xe6; 0xfa; 0x4e; 0x89; 0xa9; 0x7e; 0xa2; 0x0a; 0x9e; 0xee; 0xe6; 0x4b; 0x55; 0xd3; 0x9a; 0x21; 0x92; 0x99; 0x2a; 0x27; 0x4f; 0xc1; 0xa8; 0x36; 0xba; 0x3c; 0x23; 0xa3; 0xfe; 0xeb; 0xbd; 0x45; 0x4d; 0x44; 0x23; 0x64; 0x3c; 0xe8; 0x0e; 0x2a; 0x9a; 0xc9; 0x4f; 0xa5; 0x4c; 0xa4; 0x9f].
Proof. vm_compute. reflexivity. Qed.

Example sha1_vectors :
  hash CSHA1_alg (chars "abc") = [0xa9; 0x99; 0x3e; 0x36; 0x47; 0x06; 0x81; 0x6a; 0xba; 0x3e; 0x25; 0x71; 0x78; 0x50; 0xc2; 0x6c; 0x9c; 0xd0; 0xd8; 0x9d] /\
  hash CSHA1_alg (chars "This is exactly 64 bytes long, not counting the terminating byte") = [0xfb; 0x67; 0x9f; 0x23; 0xe7; 0xd1; 0xce; 0x05; 0x33; 0x13; 0xe6; 0x6e; 0x12; 0x7a; 0xb1; 0xb4; 0x44; 0x39; 0x70; 0x57].
Proof. vm_compute. split_and!; reflexivity. Qed.

Example ripemd160_vectors :
  hash CRIPEMD160_alg ([]) = [0x9c; 0x11; 0x85; 0xa5; 0xc5; 0xe9; 0xfc; 0x54; 0x61; 0x28; 0x08; 0x97; 0x7e; 0xe8; 0xf5; 0x48; 0xb2; 0x25; 0x8d; 0x31] /\
  hash CRIPEMD160_alg (chars "abc") = [0x8e; 0xb2; 0x08; 0xf7; 0xe0; 0x5d; 0x98; 0x7a; 0x9b; 0x04; 0x4a; 0x8e; 0x98; 0xc6; 0xb0; 0x87; 0xf1; 0x5a; 0x0b; 0xfc] /\
  hash CRIPEMD160_alg (chars "RIPEMD160 is considered to be safe") = [0xa7; 0xd7; 0x86; 0x08; 0xc7; 0xaf; 0x8a; 0x8e; 0x72; 0x87; 0x78; 0xe8; 0x15; 0x76; 0x87; 0x07; 0x34; 0x12; 0x2b; 0x66].
Proof. vm_compute. split_and!; reflexivity. Qed.

End HashFunctions.
