(* ===== verification/HashClasses.v ===== *)
(** * The hashers built on the hash functions (src/hash.h, src/crypto/hmac_sha256.cpp,
    hmac_sha512.cpp, [BIP32Hash] of src/hash.cpp)

    [CHash256], [CHash160], [Hash], [Hash160] and the HMAC classes over the contexts
    of Hasher.v.  The buffers of a context are not initialized by the source: the
    definitions take their content, and the theorems hold for every content. *)

From stdpp Require Import base list list_numbers numbers option strings.
From Stdlib Require Import ZArith Lia.
From S2P Require Import Prelude Bytes StrEncodings Hasher HashFunctions.
Import Endian StrEncodings Hasher HashFunctions.
#[local] Open Scope Z_scope.

Module HashClasses.

(** ** Double hashes *)

(** [CHash256] holds one [CSHA256]; [Finalize] uses it twice. *)
Definition CHash256_Finalize (sha : ctx words8) : list Z * ctx words8 :=
  let '(buf, sha) := Finalize CSHA256_alg sha in
  Finalize CSHA256_alg (Write CSHA256_alg (Reset CSHA256_alg sha) buf).

(** [CHash160::Finalize]; [rbuf] is the buffer of the temporary [CRIPEMD160]. *)
Definition CHash160_Finalize (rbuf : list Z) (sha : ctx words8) : list Z * ctx words8 :=
  let '(buf, sha) := Finalize CSHA256_alg sha in
  (fst (Finalize CRIPEMD160_alg (Write CRIPEMD160_alg (construct CRIPEMD160_alg rbuf) buf)), sha).

(** [Hash] of one, two or three ranges writes them one after the other. *)
Definition Hash (buf0 : list Z) (ranges : list (list Z)) : list Z :=
  fst (CHash256_Finalize (write_all CSHA256_alg (construct CSHA256_alg buf0) ranges)).

Definition Hash160 (buf0 rbuf : list Z) (range : list Z) : list Z :=
  fst (CHash160_Finalize rbuf (Write CSHA256_alg (construct CSHA256_alg buf0) range)).

(** ** HMAC *)

Section hmac.
Context {S : Type} (A : algorithm S).

Record CHMAC := { outer : ctx S; inner : ctx S }.

(** The key of one block: the key itself, or its hash when it is longer. *)
Definition block_key (kbuf key : list Z) : list Z :=
  let k := if (length key <=? block A)%nat then key else fst (Finalize A (Write A (construct A kbuf) key)) in
  k ++ replicate (block A - length k) 0.

Definition CHMAC_new (obuf ibuf kbuf key : list Z) : CHMAC :=
  let rkey := (fun c => Z.lxor c 0x5c) <$> block_key kbuf key in
  let outer := Write A (construct A obuf) rkey in
  let rkey := (fun c => Z.lxor c (Z.lxor 0x5c 0x36)) <$> rkey in
  let inner := Write A (construct A ibuf) rkey in
  {| outer := outer; inner := inner |}.

Definition CHMAC_Write (h : CHMAC) (data : list Z) : CHMAC := {| outer := outer h; inner := Write A (inner h) data |}.

Definition CHMAC_Finalize (h : CHMAC) : list Z :=
  let '(temp, _) := Finalize A (inner h) in
  fst (Finalize A (Write A (outer h) temp)).

(** RFC 2104 *)
Definition hmac (key m : list Z) : list Z :=
  let k := if (length key <=? block A)%nat then key else hash A key in
  let k := k ++ replicate (block A - length k) 0 in
  hash A (((fun c => Z.lxor c 0x5c) <$> k) ++ hash A (((fun c => Z.lxor c 0x36) <$> k) ++ m)).

End hmac.
Arguments CHMAC : clear implicits.

(** [BIP32Hash] *)
Definition BIP32Hash (obuf ibuf kbuf chainCode : list Z) (nChild header : Z) (data : list Z) : list Z :=
  let num := [Z.land (Z.shiftr nChild 24) 0xFF; Z.land (Z.shiftr nChild 16) 0xFF;
              Z.land (Z.shiftr nChild 8) 0xFF; Z.land (Z.shiftr nChild 0) 0xFF] in
  CHMAC_Finalize CSHA512_alg
    (CHMAC_Write CSHA512_alg (CHMAC_Write CSHA512_alg (CHMAC_Write CSHA512_alg
      (CHMAC_new CSHA512_alg obuf ibuf kbuf chainCode) [header]) data) num).

(** ** What the classes rely on: an algorithm whose padding completes a block *)
Class Padding {S} (A : algorithm S) := {
  size_desc : nat;
  out_size : nat;
  padding_block : (0 < block A)%nat;
  padding_desc : forall z, length (sizedesc A z) = size_desc;
  padding_fits : (pad_const A + 1 + Z.of_nat size_desc) mod Z.of_nat (block A) = 0;
  padding_desc_small : Z.of_nat size_desc < 2 ^ 10;
  padding_block_small : Z.of_nat (block A) < 2 ^ 10;
  padding_out : forall s, length (output A s) = out_size /\ is_bytes (output A s);
  padding_out_block : (out_size <= block A)%nat
}.
Arguments out_size {S} A {_}. Arguments size_desc {S} A {_}.

Lemma out_words (f : Z -> list Z) n l : (forall x, length (f x) = n /\ is_bytes (f x)) ->
  length (concat (f <$> l)) = (length l * n)%nat /\ is_bytes (concat (f <$> l)).
Proof.
  intros Hf. induction l as [|x l [IH1 IH2]]; [split; [done|constructor]|]. cbn [fmap list_fmap concat length].
  destruct (Hf x) as [H1 H2]. rewrite length_app, H1, IH1. split; [lia|by apply Forall_app].
Qed.

Lemma be32_bytes x : length (WriteBE32 x) = 4%nat /\ is_bytes (WriteBE32 x).
Proof. unfold WriteBE32, is_bytes. rewrite length_rev, length_le_bytes. split; [done|]. apply Forall_rev, le_bytes_bytes. Qed.

Lemma be64_bytes x : length (WriteBE64 x) = 8%nat /\ is_bytes (WriteBE64 x).
Proof. unfold WriteBE64, is_bytes. rewrite length_rev, length_le_bytes. split; [done|]. apply Forall_rev, le_bytes_bytes. Qed.

Lemma le32_bytes x : length (WriteLE32 x) = 4%nat /\ is_bytes (WriteLE32 x).
Proof. unfold WriteLE32. split; [apply length_le_bytes|apply le_bytes_bytes]. Qed.

#[global] Program Instance CSHA256_padding : Padding CSHA256_alg := {| size_desc := 8; out_size := 32 |}.
Next Obligation. simpl. lia. Qed.
Next Obligation. intros z. apply be64_bytes. Qed.
Next Obligation. done. Qed.
Next Obligation. simpl. lia. Qed.
Next Obligation. simpl. lia. Qed.
Next Obligation.
  intros [[[[[[[a b] c] d] e] f] g] h]. pose proof (out_words WriteBE32 4 [a; b; c; d; e; f; g; h] be32_bytes) as H.
  cbn [fmap list_fmap concat] in H. by rewrite app_nil_r in H.
Qed.
Next Obligation. simpl. lia. Qed.

#[global] Program Instance CSHA512_padding : Padding CSHA512_alg := {| size_desc := 16; out_size := 64 |}.
Next Obligation. simpl. lia. Qed.
Next Obligation. intros z. cbn [sizedesc CSHA512_alg]. rewrite length_app, length_replicate. by rewrite (proj1 (be64_bytes z)). Qed.
Next Obligation. done. Qed.
Next Obligation. simpl. lia. Qed.
Next Obligation. simpl. lia. Qed.
Next Obligation.
  intros [[[[[[[a b] c] d] e] f] g] h]. pose proof (out_words WriteBE64 8 [a; b; c; d; e; f; g; h] be64_bytes) as H.
  cbn [fmap list_fmap concat] in H. by rewrite app_nil_r in H.
Qed.
Next Obligation. simpl. lia. Qed.

#[global] Program Instance CSHA1_padding : Padding CSHA1_alg := {| size_desc := 8; out_size := 20 |}.
Next Obligation. simpl. lia. Qed.
Next Obligation. intros z. apply be64_bytes. Qed.
Next Obligation. done. Qed.
Next Obligation. simpl. lia. Qed.
Next Obligation. simpl. lia. Qed.
Next Obligation.
  intros [[[[a b] c] d] e]. pose proof (out_words WriteBE32 4 [a; b; c; d; e] be32_bytes) as H.
  cbn [fmap list_fmap concat] in H. by rewrite app_nil_r in H.
Qed.
Next Obligation. simpl. lia. Qed.

#[global] Program Instance CRIPEMD160_padding : Padding CRIPEMD160_alg := {| size_desc := 8; out_size := 20 |}.
Next Obligation. simpl. lia. Qed.
Next Obligation. intros z. apply length_le_bytes. Qed.
Next Obligation. done. Qed.
Next Obligation. simpl. lia. Qed.
Next Obligation. simpl. lia. Qed.
Next Obligation.
  intros [[[[a b] c] d] e]. pose proof (out_words WriteLE32 4 [a; b; c; d; e] le32_bytes) as H.
  cbn [fmap list_fmap concat] in H. by rewrite app_nil_r in H.
Qed.
Next Obligation. simpl. lia. Qed.

(** ** The classes compute the functions *)

Section facts.
Context {S} (A : algorithm S) `{!Padding A}.

Lemma hash_output m : length (hash A m) = out_size A /\ is_bytes (hash A m).
Proof. unfold hash. apply padding_out. Qed.

Lemma finalize_reads c m : has_read A c m -> Z.of_nat (length m) < 2 ^ 60 -> fst (Finalize A c) = hash A m /\ has_read A (snd (Finalize A c)) (padded A m).
Proof. intros. eapply Finalize_hash; eauto using padding_block, padding_desc, padding_desc_small, padding_block_small. Qed.

Lemma stream c m pieces : has_read A c m -> Z.of_nat (length (m ++ concat pieces)) < 2 ^ 60 ->
  fst (Finalize A (write_all A c pieces)) = hash A (m ++ concat pieces) /\
  has_read A (snd (Finalize A (write_all A c pieces))) (padded A (m ++ concat pieces)).
Proof. intros Hc Hl. apply finalize_reads; [|done]. apply write_all_reads; [apply padding_block|done|lia]. Qed.

Lemma stream_new b pieces : length b = block A -> Z.of_nat (length (concat pieces)) < 2 ^ 60 ->
  fst (Finalize A (write_all A (construct A b) pieces)) = hash A (concat pieces).
Proof. intros Hb Hl. apply (stream _ []); [|done]. apply construct_reads; [apply padding_block|done]. Qed.

Lemma stream_new1 b d : length b = block A -> Z.of_nat (length d) < 2 ^ 60 -> fst (Finalize A (Write A (construct A b) d)) = hash A d.
Proof. intros Hb Hl. pose proof (stream_new b [d] Hb) as H. cbn [concat write_all fold_left] in H. rewrite app_nil_r in H. by apply H. Qed.

(** The padded message is whole blocks: the message, one bit, zeros and its length in bits. *)
Lemma padded_whole m : Z.of_nat (length (padded A m)) mod Z.of_nat (block A) = 0 /\
  exists zeros, (Z.of_nat zeros < Z.of_nat (block A)) /\ padded A m = m ++ 0x80 :: replicate zeros 0 ++ sizedesc A (8 * Z.of_nat (length m)).
Proof.
  split; [eapply padded_blocks; eauto using padding_block, padding_desc, padding_block_small, padding_fits|].
  eexists. split; [|unfold padded, pad; reflexivity]. pose proof (Z.mod_pos_bound (pad_const A - Z.of_nat (length m)) (Z.of_nat (block A)) ltac:(pose proof padding_block; lia)). lia.
Qed.

Lemma CHMAC_stream ob ib kb key pieces : length ob = block A -> length ib = block A -> length kb = block A ->
  Z.of_nat (length key) < 2 ^ 60 -> Z.of_nat (length (concat pieces)) < 2 ^ 59 ->
  CHMAC_Finalize A (fold_left (CHMAC_Write A) pieces (CHMAC_new A ob ib kb key)) = hmac A key (concat pieces).
Proof.
  intros Hob Hib Hkb Hkey Hl. pose proof padding_block as Hpos. pose proof padding_block_small as Hs. pose proof padding_out_block as Hos.
  set (k := if (length key <=? block A)%nat then key else hash A key).
  assert (length k <= block A)%nat as Hk by (unfold k; destruct (Nat.leb_spec (length key) (block A)); [done|by rewrite (proj1 (hash_output key))]).
  set (bk := k ++ replicate (block A - length k) 0). assert (length bk = block A) as Hbk by (unfold bk; rewrite length_app, length_replicate; lia).
  assert (block_key A kb key = bk) as Ebk.
  { unfold bk, k, block_key. destruct (_ <=? _)%nat; [done|]. by rewrite !stream_new1. }
  set (opad := (fun c => Z.lxor c 0x5c) <$> bk). set (ipad := (fun c => Z.lxor c 0x36) <$> bk).
  assert (CHMAC_new A ob ib kb key = {| outer := Write A (construct A ob) opad; inner := Write A (construct A ib) ipad |}) as Enew.
  { unfold CHMAC_new. rewrite Ebk. fold opad. f_equal. f_equal. unfold opad, ipad. rewrite <- list_fmap_compose. apply list_fmap_ext. intros i x _.
    unfold compose. rewrite <- Z.lxor_assoc. f_equal. rewrite Z.lxor_assoc, Z.lxor_nilpotent. apply Z.lxor_0_r. }
  assert (forall h, fold_left (CHMAC_Write A) pieces h = {| outer := outer h; inner := write_all A (inner h) pieces |}) as Efold.
  { clear. induction pieces as [|d pieces IH]; intros h; [by destruct h|]. cbn [fold_left write_all]. by rewrite IH. }
  rewrite Enew, Efold. cbn [outer inner]. unfold CHMAC_Finalize, hmac. fold k. fold bk. fold opad ipad. cbn [outer inner].
  assert (length opad = block A /\ length ipad = block A) as [Ho Hi] by (unfold opad, ipad; rewrite !length_fmap; done).
  destruct (stream (Write A (construct A ib) ipad) ipad pieces) as [E _];
    [apply (Write_reads A ltac:(done) _ []); [by apply construct_reads|cbn [app]; lia]|rewrite length_app; lia|].
  destruct (Finalize A (write_all _ _ _)) as [temp c'] eqn:EF. cbn [fst] in E. subst temp.
  apply finalize_reads; [|rewrite length_app, (proj1 (hash_output _)); lia].
  apply (Write_reads A ltac:(done) _ opad); [|rewrite length_app, (proj1 (hash_output _)); lia].
  apply (Write_reads A ltac:(done) _ []); [by apply construct_reads|cbn [app]; lia].
Qed.

End facts.

Lemma CHash256_hash b ranges : length b = 64%nat -> Z.of_nat (length (concat ranges)) < 2 ^ 60 ->
  Hash b ranges = hash CSHA256_alg (hash CSHA256_alg (concat ranges)).
Proof.
  intros Hb Hl. unfold Hash, CHash256_Finalize. destruct (stream CSHA256_alg (construct CSHA256_alg b) [] ranges) as [E1 E2]; [apply construct_reads; [apply padding_block|done]|done|].
  destruct (Finalize CSHA256_alg (write_all _ _ _)) as [h sha]. cbn [fst snd] in *. subst h. apply Reset_reads in E2; [|apply padding_block].
  pose proof (hash_output CSHA256_alg (concat ranges)) as [Ho _].
  pose proof (stream CSHA256_alg (Reset CSHA256_alg sha) [] [hash CSHA256_alg ([] ++ concat ranges)] E2) as [E _].
  { cbn [app concat]. rewrite app_nil_r, Ho. cbn [out_size CSHA256_padding]. lia. }
  cbn [write_all fold_left concat app] in E. by rewrite app_nil_r in E.
Qed.

Lemma CHash160_hash b rb range : length b = 64%nat -> length rb = 64%nat -> Z.of_nat (length range) < 2 ^ 60 ->
  Hash160 b rb range = hash CRIPEMD160_alg (hash CSHA256_alg range).
Proof.
  intros Hb Hrb Hl. unfold Hash160, CHash160_Finalize. pose proof (stream_new1 CSHA256_alg b range Hb Hl) as E.
  destruct (Finalize CSHA256_alg _) as [h sha]. cbn [fst] in *. subst h. apply (stream_new1 CRIPEMD160_alg); [done|]. rewrite (proj1 (hash_output CSHA256_alg range)). cbn [out_size CSHA256_padding]. lia.
Qed.

(** The hash of a message of bytes is what Base58.v and KeyIO.v rely on. *)
Lemma Hash_checksum b : length b = 64%nat -> forall m, is_bytes (Hash b [m]) /\ (4 <= length (Hash b [m]))%nat.
Proof.
  intros Hb m. unfold Hash, CHash256_Finalize. destruct (Finalize _ (write_all _ _ _)) as [h sha]. unfold Finalize. cbn [fst].
  match goal with |- context [output _ ?s] => destruct (padding_out (A := CSHA256_alg) s) as [H1 H2] end.
  split; [exact H2|]. rewrite H1. cbn [out_size CSHA256_padding]. lia.
Qed.

(** Writing the pieces hashes their concatenation, in whole blocks. *)
Definition streams {S} (A : algorithm S) (pieces : list (list Z)) : Prop :=
  let m := concat pieces in
  (forall b, length b = block A -> fst (Finalize A (write_all A (construct A b) pieces)) = hash A m) /\
  Z.of_nat (length (padded A m)) mod Z.of_nat (block A) = 0 /\
  exists zeros, (zeros < block A)%nat /\ padded A m = m ++ 0x80 :: replicate zeros 0 ++ sizedesc A (8 * Z.of_nat (length m)).

Lemma streams_padding {S} (A : algorithm S) `{!Padding A} pieces : Z.of_nat (length (concat pieces)) < 2 ^ 60 -> streams A pieces.
Proof.
  intros Hl. destruct (padded_whole A (concat pieces)) as [H1 (z & Hz & H2)]. split; [intros b Hb; by apply stream_new|].
  split; [done|]. exists z. split; [lia|done].
Qed.

(** C30: hashing a message in pieces is hashing the message.  For SHA-256, SHA-512,
    SHA-1 and RIPEMD-160, whatever the uninitialized buffer holds and however the
    message is cut, writing the pieces and finalizing gives the compression function
    iterated over the padded message, and the padded message is whole blocks: the
    message, one bit, fewer zeros than a block and the length in bits.  [Hash] of one,
    two or three ranges is SHA-256 twice over their concatenation, in 32 bytes;
    [Hash160] is RIPEMD-160 of SHA-256, in 20 bytes; the HMAC classes compute RFC 2104
    for every key, longer than a block or not. *)
Theorem hash_streaming pieces :
  Z.of_nat (length (concat pieces)) < 2 ^ 59 ->
  streams CSHA256_alg pieces /\ streams CSHA512_alg pieces /\ streams CSHA1_alg pieces /\ streams CRIPEMD160_alg pieces /\
  (forall b, length b = 64%nat ->
    Hash b pieces = hash CSHA256_alg (hash CSHA256_alg (concat pieces)) /\ length (Hash b pieces) = 32%nat /\ is_bytes (Hash b pieces) /\
    forall rb, length rb = 64%nat ->
      Hash160 b rb (concat pieces) = hash CRIPEMD160_alg (hash CSHA256_alg (concat pieces)) /\ length (Hash160 b rb (concat pieces)) = 20%nat) /\
  (forall key ob ib kb, Z.of_nat (length key) < 2 ^ 60 ->
    (length ob = 64%nat -> length ib = 64%nat -> length kb = 64%nat ->
      CHMAC_Finalize CSHA256_alg (fold_left (CHMAC_Write CSHA256_alg) pieces (CHMAC_new CSHA256_alg ob ib kb key)) = hmac CSHA256_alg key (concat pieces)) /\
    (length ob = 128%nat -> length ib = 128%nat -> length kb = 128%nat ->
      CHMAC_Finalize CSHA512_alg (fold_left (CHMAC_Write CSHA512_alg) pieces (CHMAC_new CSHA512_alg ob ib kb key)) = hmac CSHA512_alg key (concat pieces))).
Proof.
  intros Hl. do 4 (split; [apply streams_padding; [apply _|lia]|]). split.
  - intros b Hb. rewrite (CHash256_hash b pieces Hb) by lia. split; [done|]. destruct (hash_output CSHA256_alg (hash CSHA256_alg (concat pieces))) as [H1 H2].
    split; [exact H1|]. split; [exact H2|]. intros rb Hrb. rewrite CHash160_hash by (done || lia). split; [done|].
    exact (proj1 (hash_output CRIPEMD160_alg (hash CSHA256_alg (concat pieces)))).
  - intros key ob ib kb Hkey. split; intros; [apply (CHMAC_stream CSHA256_alg)|apply (CHMAC_stream CSHA512_alg)]; done.
Qed.

(** HMAC-SHA-256 and HMAC-SHA-512 of RFC 4231, test cases 2 and 1 of
    test/crypto_tests.cpp, in two pieces; RIPEMD-160 and SHA-256 of an empty range. *)
Example hmac_vectors :
  let z64 := replicate 64 7 in let z128 := replicate 128 9 in
  CHMAC_Finalize CSHA256_alg (fold_left (CHMAC_Write CSHA256_alg) [chars "what do ya want "; chars "for nothing?"] (CHMAC_new CSHA256_alg z64 z64 z64 (chars "Jefe")))
  = [0x5b; 0xdc; 0xc1; 0x46; 0xbf; 0x60; 0x75; 0x4e; 0x6a; 0x04; 0x24; 0x26; 0x08; 0x95; 0x75; 0xc7;
     0x5a; 0x00; 0x3f; 0x08; 0x9d; 0x27; 0x39; 0x83; 0x9d; 0xec; 0x58; 0xb9; 0x64; 0xec; 0x38; 0x43] /\
  take 8 (CHMAC_Finalize CSHA512_alg (fold_left (CHMAC_Write CSHA512_alg) [chars "Hi "; chars "There"] (CHMAC_new CSHA512_alg z128 z128 z128 (replicate 20 0x0b))))
  = [0x87; 0xaa; 0x7c; 0xde; 0xa5; 0xef; 0x61; 0x9d].
Proof. vm_compute. split; reflexivity. Qed.

(** A message cut inside a block and past its end *)
Lemma hash_streaming_witness :
  Hash (replicate 64 7) [chars "abc"; replicate 70 0x61; []] =
    hash CSHA256_alg (hash CSHA256_alg (chars "abc" ++ replicate 70 0x61)) /\
  length (hash CSHA256_alg (chars "abc" ++ replicate 70 0x61)) = 32%nat.
Proof.
  split; [|vm_compute; reflexivity].
  destruct (hash_streaming [chars "abc"; replicate 70 0x61; []] ltac:(vm_compute; reflexivity)) as (_ & _ & _ & _ & H & _).
  exact (proj1 (H (replicate 64 7) eq_refl)).
Defined.

End HashClasses.
