(* ===== verification/ParseNum.v ===== *)
(** * Numbers and amounts as text (src/utilstrencodings.cpp, src/utilmoneystr.cpp)

    [ParseInt32], [ParseInt64], [atoi64], [ParseFixedPoint] (how the RPC interface
    reads an amount), [FormatMoney] and [ParseMoney].  Characters are bytes, as in
    StrEncodings.v; [strtol] and [strtoll] are those of the C library with a 64-bit
    [long]. *)

From stdpp Require Import base list list_numbers numbers option strings.
From Stdlib Require Import ZArith Lia.
From S2P Require Import Prelude Bytes Amount StrEncodings.
Import Amount StrEncodings.
#[local] Open Scope Z_scope.

Module ParseNum.

Definition isdigit (c : Z) : bool := (48 <=? c) && (c <=? 57).

(** ** Integers *)

Fixpoint skip_spaces (s : list Z) : list Z :=
  match s with c :: s' => if isspace c then skip_spaces s' else s | [] => [] end.

(** The digits at the start, and what follows *)
Fixpoint span_digits (s : list Z) : list Z * list Z :=
  match s with
  | c :: s' => if isdigit c then let '(d, r) := span_digits s' in (c - 48 :: d, r) else ([], s)
  | [] => ([], [])
  end.

(** [strtoll(s, &endp, 10)]: the value, [*endp], and whether [errno] is set *)
Definition strtoll (s : list Z) : Z * list Z * bool :=
  let s := c_str s in
  let t := skip_spaces s in
  let '(neg, t) := match t with
                   | c :: t' => if c =? 45 then (true, t') else if c =? 43 then (false, t') else (false, t)
                   | [] => (false, t) end in
  let '(d, r) := span_digits t in
  if bool_decide (d = []) then (0, s, false)
  else
    let v := if neg : bool then - be_val 10 d else be_val 10 d in
    if v <? - 2 ^ 63 then (- 2 ^ 63, r, true)
    else if 2 ^ 63 - 1 <? v then (2 ^ 63 - 1, r, true)
    else (v, r, false).

Definition atoi64 (s : list Z) : Z := fst (fst (strtoll s)).

Definition ParsePrechecks (str : list Z) : bool :=
  match str with
  | [] => false
  | c :: _ =>
      if isspace c || isspace (List.last str 0) then false
      else if negb (length str =? length (c_str str))%nat then false
      else true
  end.

(** [*out] is given when the function returns true. *)
Definition ParseInt64 (str : list Z) : option Z :=
  if negb (ParsePrechecks str) then None
  else let '(n, endp, errno) := strtoll str in
       if bool_decide (endp = []) && negb errno && (n >=? - 2 ^ 63) && (n <=? 2 ^ 63 - 1) then Some n else None.
Definition ParseInt32 (str : list Z) : option Z :=
  if negb (ParsePrechecks str) then None
  else let '(n, endp, errno) := strtoll str in
       if bool_decide (endp = []) && negb errno && (n >=? - 2 ^ 31) && (n <=? 2 ^ 31 - 1) then Some (s32 n) else None.

(** ** ParseFixedPoint *)

Definition UPPER_BOUND : Z := 1000000000000000000 - 1.

(** [for (i = 0; i <= mantissa_tzeros; ++i)] *)
Fixpoint scale (k : nat) (mantissa : Z) : option Z :=
  match k with
  | O => Some mantissa
  | S k => if mantissa >? UPPER_BOUND / 10 then None else scale k (mantissa * 10)
  end.

Definition ProcessMantissaDigit (ch mantissa : Z) (mantissa_tzeros : nat) : option (Z * nat) :=
  if ch =? 48 then Some (mantissa, S mantissa_tzeros)
  else m ← scale (S mantissa_tzeros) mantissa; Some (m + (ch - 48), O).

(** The digits of the mantissa: mantissa, trailing zeros, number of digits and what
    follows *)
Fixpoint mantissa_loop (val : list Z) (mantissa : Z) (tzeros ofs : nat) : option (Z * nat * nat * list Z) :=
  match val with
  | c :: val' =>
      if isdigit c then '(m, tz) ← ProcessMantissaDigit c mantissa tzeros; mantissa_loop val' m tz (S ofs)
      else Some (mantissa, tzeros, ofs, val)
  | [] => Some (mantissa, tzeros, ofs, [])
  end.

Fixpoint exponent_loop (val : list Z) (exponent : Z) : option (Z * list Z) :=
  match val with
  | c :: val' =>
      if isdigit c then
        if exponent >? UPPER_BOUND / 10 then None else exponent_loop val' (exponent * 10 + c - 48)
      else Some (exponent, val)
  | [] => Some (exponent, [])
  end.

Definition starts_digit (val : list Z) : bool := match val with c :: _ => isdigit c | [] => false end.

Fixpoint finish (k : nat) (mantissa : Z) : option Z :=
  match k with
  | O => Some mantissa
  | S k => if (mantissa >? UPPER_BOUND / 10) || (mantissa <? - (UPPER_BOUND / 10)) then None else finish k (mantissa * 10)
  end.

Definition mantissa_part (val : list Z) : option (Z * nat * list Z) :=
  match val with
  | c :: val' =>
      if c =? 48 then Some (0, O, val')
      else if (49 <=? c) && (c <=? 57) then '(m, tz, _, r) ← mantissa_loop val 0 O O; Some (m, tz, r)
      else None
  | [] => None
  end.

Definition fraction_part (val : list Z) (m : Z) (tz : nat) : option (Z * nat * nat * list Z) :=
  match val with
  | c :: val' => if c =? 46 then if starts_digit val' then mantissa_loop val' m tz O else None else Some (m, tz, O, val)
  | [] => Some (m, tz, O, val)
  end.

(** [true] is a minus sign. *)
Definition exponent_part (val : list Z) : option (bool * Z * list Z) :=
  match val with
  | c :: val' =>
      if (c =? 101) || (c =? 69) then
        let '(neg, val') := match val' with
                            | d :: v => if d =? 43 then (false, v) else if d =? 45 then (true, v) else (false, val')
                            | [] => (false, val') end in
        if starts_digit val' then '(e, r) ← exponent_loop val' 0; Some (neg, e, r) else None
      else Some (false, 0, val)
  | [] => Some (false, 0, val)
  end.

Definition ParseFixedPoint (val : list Z) (decimals : Z) : option Z :=
  let '(mantissa_sign, val) := match val with c :: v => if c =? 45 then (true, v) else (false, val) | [] => (false, val) end in
  '(mantissa, tzeros, val) ← mantissa_part val;
  '(mantissa, tzeros, point_ofs, val) ← fraction_part val mantissa tzeros;
  '(exponent_sign, exponent, val) ← exponent_part val;
  if negb (bool_decide (val = [])) then None
  else
    let exponent := if exponent_sign : bool then - exponent else exponent in
    let exponent := exponent - Z.of_nat point_ofs + Z.of_nat tzeros in
    let mantissa := if mantissa_sign : bool then - mantissa else mantissa in
    let exponent := exponent + decimals in
    if exponent <? 0 then None
    else if exponent >=? 18 then None
    else
      mantissa ← finish (Z.to_nat exponent) mantissa;
      if (mantissa >? UPPER_BOUND) || (mantissa <? - UPPER_BOUND) then None else Some mantissa.

(** ** Amounts *)

(** [%d] of a number that is not negative *)
Fixpoint decimal_loop (fuel : nat) (n : Z) (acc : list Z) : list Z :=
  match fuel with
  | O => acc
  | S fuel => let acc := 48 + n mod 10 :: acc in if n <? 10 then acc else decimal_loop fuel (n / 10) acc
  end.
Definition decimal (n : Z) : list Z := decimal_loop (S (Z.to_nat (Z.log2 n))) n [].
(** [%d] and [%08d]: the zeros come after the sign. *)
Definition print_int (n : Z) : list Z := if n <? 0 then 45 :: decimal (- n) else decimal n.
Definition print_int08 (n : Z) : list Z :=
  let d := decimal (Z.abs n) in
  let w := if n <? 0 then 7%nat else 8%nat in
  (if n <? 0 then [45] else []) ++ replicate (w - length d) 48 ++ d.

(** The loop of [FormatMoney] from the end of the text *)
Fixpoint trim_zeros (rstr : list Z) : list Z :=
  match rstr with
  | c :: ((_ :: d :: _) as rest) => if (c =? 48) && isdigit d then trim_zeros rest else rstr
  | _ => rstr
  end.

Definition FormatMoney (n : Z) : list Z :=
  let n_abs := if n >? 0 then n else s64 (- n) in
  let quotient := Z.quot n_abs COIN in
  let remainder := Z.rem n_abs COIN in
  let str := print_int quotient ++ [46] ++ print_int08 remainder in
  let str := rev (trim_zeros (rev str)) in
  if n <? 0 then 45 :: str else str.

(** [while (isdigit( *p) && (nMult > 0))] *)
Fixpoint units_loop (p : list Z) (nMult nUnits : Z) : Z * list Z :=
  match p with
  | c :: p' => if isdigit c && (nMult >? 0) then units_loop p' (nMult / 10) (nUnits + nMult * (c - 48)) else (nUnits, p)
  | [] => (nUnits, [])
  end.

(** The first loop: the whole part, the units and what follows; [None] is [return false]. *)
Fixpoint whole_loop (p : list Z) (strWhole : list Z) : option (list Z * Z * list Z) :=
  match p with
  | [] => Some (strWhole, 0, [])
  | c :: p' =>
      if c =? 46 then let '(nUnits, r) := units_loop p' (CENT * 10) 0 in Some (strWhole, nUnits, r)
      else if isspace c then Some (strWhole, 0, p)
      else if negb (isdigit c) then None
      else whole_loop p' (strWhole ++ [c])
  end.

Definition ParseMoney (str : list Z) : option Z :=
  let p := skip_spaces (c_str str) in
  '(strWhole, nUnits, p) ← whole_loop p [];
  if negb (forallb isspace p) then None
  else if (10 <? length strWhole)%nat then None
  else if (nUnits <? 0) || (nUnits >? COIN) then None
  else Some (atoi64 strWhole * COIN + nUnits).

Example money_vectors :
  FormatMoney 0 = chars "0.00" /\ FormatMoney (COIN / 10000 * 123456789) = chars "12345.6789" /\ FormatMoney (- COIN) = chars "-1.00" /\
  FormatMoney 1 = chars "0.00000001" /\ FormatMoney (10 * COIN) = chars "10.00" /\ ParseMoney (chars "12345.6789") = Some (COIN / 10000 * 123456789) /\
  ParseMoney (chars " 1.5 ") = Some (COIN + COIN / 2) /\ ParseMoney (chars "0.000000001") = None /\ ParseMoney (chars "92233720368.54775808") = None /\
  ParseMoney (chars "-1") = None.
Proof. vm_compute. split_and!; reflexivity. Qed.

Example fixed_point_vectors :
  ParseFixedPoint (chars "0.0") 8 = Some 0 /\ ParseFixedPoint (chars "-0.00000001") 8 = Some (-1) /\ ParseFixedPoint (chars "1e3") 8 = Some 100000000000 /\
  ParseFixedPoint (chars "1000000000.00000001") 8 = Some 100000000000000001 /\ ParseFixedPoint (chars "0.000000001000000000") 8 = None /\
  ParseFixedPoint (chars "01") 8 = None /\ ParseFixedPoint (chars ".1") 8 = None /\ ParseFixedPoint (chars "9999999999.99999999") 8 = Some 999999999999999999 /\
  ParseFixedPoint (chars "10000000000") 8 = None /\ ParseFixedPoint (chars "1.1e-7") 8 = Some 11 /\ ParseFixedPoint (chars "1e") 8 = None.
Proof. vm_compute. split_and!; reflexivity. Qed.

Example parse_int_vectors :
  ParseInt32 (chars "1234") = Some 1234 /\ ParseInt32 (chars "-2147483648") = Some (- 2147483648) /\ ParseInt32 (chars "2147483648") = None /\
  ParseInt32 (chars " 1") = None /\ ParseInt32 (chars "1a") = None /\ ParseInt64 (chars "9223372036854775808") = None /\ ParseInt32 (chars "-") = None.
Proof. vm_compute. split_and!; reflexivity. Qed.


(** ** Reading digits *)

Definition ascii (ds : list Z) : list Z := (fun d => d + 48) <$> ds.

Lemma span_digits_ascii val : exists ds r, val = ascii ds ++ r /\ digits 10 ds /\ starts_digit r = false /\ span_digits val = (ds, r) /\ (length ds <= length val)%nat.
Proof.
  induction val as [|c val (ds & r & E & Hd & Hr & Es & Hl)]; [exists [], []; split_and!; [done|constructor|done..]|]. cbn [span_digits].
  destruct (isdigit c) eqn:Hc.
  - exists (c - 48 :: ds), r. rewrite Es. split_and!; [|constructor; [unfold isdigit in Hc; rewrite andb_true_iff, !Z.leb_le in Hc; lia|done]|done|done|simpl; lia].
    cbn [ascii fmap list_fmap app]. replace (c - 48 + 48) with c by lia. by rewrite E.
  - exists [], (c :: val). split_and!; [done|constructor|done|done|simpl; lia].
Qed.

Lemma isdigit_ascii d : 0 <= d < 10 -> isdigit (d + 48) = true.
Proof. intros H. unfold isdigit. rewrite andb_true_iff, !Z.leb_le. lia. Qed.

Lemma starts_digit_ascii ds r : digits 10 ds -> ds <> [] -> starts_digit (ascii ds ++ r) = true.
Proof. intros [|d l Hd Hl] Hne; [done|]. cbn. by apply isdigit_ascii. Qed.

Lemma span_ascii ds r : digits 10 ds -> starts_digit r = false -> span_digits (ascii ds ++ r) = (ds, r).
Proof.
  intros Hd Hr. induction Hd as [|d l Hd Hl IH].
  - cbn [ascii fmap list_fmap app]. destruct r as [|c r]; [done|]. cbn [span_digits]. cbn [starts_digit] in Hr. by rewrite Hr.
  - cbn [ascii fmap list_fmap app span_digits]. fold (ascii l). rewrite isdigit_ascii by done. rewrite IH. f_equal. f_equal. lia.
Qed.

(** ** ParseFixedPoint reads decimal numbers exactly *)

Lemma scale_spec k : forall m, 0 <= m ->
  (scale k m = Some (m * 10 ^ Z.of_nat k) /\ (m <= UPPER_BOUND -> m * 10 ^ Z.of_nat k <= UPPER_BOUND + 1 - 10 ^ (Z.min 1 (Z.of_nat k)))) \/
  (scale k m = None /\ 10 ^ 18 <= m * 10 ^ Z.of_nat k).
Proof.
  induction k as [|k IH]; intros m Hm.
  { left. cbn [scale]. change (10 ^ Z.of_nat 0) with 1. rewrite Z.mul_1_r. split; [done|]. change (10 ^ Z.min 1 (Z.of_nat 0)) with 1. lia. }
  cbn [scale]. rewrite Nat2Z.inj_succ, Z.pow_succ_r, Z.mul_assoc by lia. rewrite Z.gtb_ltb. pose proof (Z.pow_pos_nonneg 10 (Z.of_nat k) ltac:(lia) ltac:(lia)) as Hp.
  replace (Z.min 1 (Z.succ (Z.of_nat k))) with 1 by lia. destruct (Z.ltb_spec (UPPER_BOUND / 10) m) as [Hlt|Hle].
  - right. split; [done|]. change (UPPER_BOUND / 10) with (10 ^ 17 - 1) in Hlt. change (10 ^ 18) with (10 ^ 17 * 10). nia.
  - change (UPPER_BOUND / 10) with (10 ^ 17 - 1) in Hle. destruct (IH (m * 10) ltac:(lia)) as [[E H]|[E H]]; [left|right; done]. split; [done|]. intros _.
    change UPPER_BOUND with (10 ^ 18 - 1) in *. change (10 ^ 18) with (10 ^ 17 * 10) in *. destruct k as [|k]; [change (10 ^ Z.of_nat 0) with 1; lia|].
    replace (Z.min 1 (Z.of_nat (S k))) with 1 in H by lia. specialize (H ltac:(lia)). lia.
Qed.

(** A mantissa has no trailing zero. *)
Definition canon (m : Z) : Prop := 0 <= m <= UPPER_BOUND /\ (m = 0 \/ m mod 10 <> 0).

Lemma be_from_bounds a ds : digits 10 ds -> 0 <= a -> a * 10 ^ Z.of_nat (length ds) <= be_from 10 a ds < (a + 1) * 10 ^ Z.of_nat (length ds).
Proof. intros Hd Ha. rewrite be_from_acc. pose proof (be_val_range 10 ds ltac:(lia) Hd). lia. Qed.

(** A number whose digits go on after a digit that is not zero, past the bound *)
Lemma long_number M ds q k : digits 10 ds -> 10 ^ 18 <= M -> M mod 10 <> 0 -> 0 <= k -> be_from 10 M ds = q * 10 ^ k -> 10 ^ 18 <= q.
Proof.
  intros Hd HM Hne Hk E. rewrite be_from_acc in E. pose proof (be_val_range 10 ds ltac:(lia) Hd) as Hr. set (l := Z.of_nat (length ds)) in *.
  pose proof (Z.pow_pos_nonneg 10 l ltac:(lia) ltac:(lia)) as Hpl. destruct (decide (k <= l)) as [Hle|Hgt].
  - replace l with ((l - k) + k) in E, Hr by lia. rewrite Z.pow_add_r in E, Hr by lia. pose proof (Z.pow_pos_nonneg 10 k ltac:(lia) ltac:(lia)) as Hpk.
    pose proof (Z.pow_pos_nonneg 10 (l - k) ltac:(lia) ltac:(lia)) as Hplk. assert (M * 10 ^ (l - k) <= q) by nia. nia.
  - exfalso. replace k with (1 + (k - l - 1) + l) in E by lia. rewrite 2!Z.pow_add_r in E by lia. change (10 ^ 1) with 10 in E.
    set (P := 10 ^ (k - l - 1)) in *. assert (be_val 10 ds = (q * 10 * P - M) * 10 ^ l) as Ev by lia.
    assert (q * 10 * P - M = 0) as E0 by nia. apply Hne. replace M with (q * P * 10) by lia. apply Z.mod_mul. lia.
Qed.

Lemma mantissa_loop_spec ds r : digits 10 ds -> starts_digit r = false -> forall m tz ofs, canon m ->
  match mantissa_loop (ascii ds ++ r) m tz ofs with
  | Some (m', tz', ofs', r') => r' = r /\ ofs' = (ofs + length ds)%nat /\ canon m' /\
      m' * 10 ^ Z.of_nat tz' = be_from 10 (m * 10 ^ Z.of_nat tz) ds
  | None => forall fs q k, digits 10 fs -> 0 <= k -> be_from 10 (m * 10 ^ Z.of_nat tz) (ds ++ fs) = q * 10 ^ k -> 10 ^ 18 <= q
  end.
Proof.
  intros Hd Hr. induction Hd as [|d l Hd Hl IH]; intros m tz ofs Hm.
  { cbn [ascii fmap list_fmap app]. destruct r as [|c r]; cbn [mantissa_loop]; [split_and!; [done|simpl; lia|done|done]|].
    cbn [starts_digit] in Hr. rewrite Hr. split_and!; [done|simpl; lia|done|done]. }
  cbn [ascii fmap list_fmap app mantissa_loop]. fold (ascii l). rewrite isdigit_ascii by done. unfold ProcessMantissaDigit.
  assert (forall fs, be_from 10 (m * 10 ^ Z.of_nat tz) (d :: l ++ fs) = be_from 10 (m * 10 ^ Z.of_nat tz * 10 + d) (l ++ fs)) as Ecat by done.
  change (be_from 10 (m * 10 ^ Z.of_nat tz) (d :: l)) with (be_from 10 (m * 10 ^ Z.of_nat tz * 10 + d) l).
  destruct (Z.eqb_spec (d + 48) 48) as [E|Hne].
  - assert (d = 0) as -> by lia. cbn [mbind option_bind]. specialize (IH m (S tz) (S ofs) Hm).
    rewrite Nat2Z.inj_succ, Z.pow_succ_r in IH by lia. assert (m * 10 ^ Z.of_nat tz * 10 + 0 = m * (10 * 10 ^ Z.of_nat tz)) as -> by lia.
    destruct (mantissa_loop _ _ _ _) as [[[[m' tz'] ofs'] r']|]; [|intros fs q k Hfs Hk Ev; apply (IH fs q k Hfs Hk); rewrite <- Ev, Ecat; f_equal; lia]. cbn [length]. destruct IH as (-> & -> & H1 & H2). split_and!; [done|lia|done|done].
  - assert (m * 10 ^ Z.of_nat tz * 10 + d = m * 10 ^ Z.of_nat (S tz) + d) as Est by (rewrite Nat2Z.inj_succ, Z.pow_succ_r by lia; lia). rewrite Est.
    assert ((m * 10 ^ Z.of_nat (S tz) + d) mod 10 <> 0) as Hmod.
    { rewrite Nat2Z.inj_succ, Z.pow_succ_r by lia. replace (m * (10 * 10 ^ Z.of_nat tz) + d) with (d + m * 10 ^ Z.of_nat tz * 10) by lia. rewrite Z.mod_add, Z.mod_small by lia. lia. }
    destruct Hm as [[Hm0 Hm1] _]. destruct (scale_spec (S tz) m Hm0) as [[-> Hsc]|[-> Hsc]]; cbn [mbind option_bind].
    + replace (d + 48 - 48) with d by lia. specialize (Hsc Hm1). replace (Z.min 1 (Z.of_nat (S tz))) with 1 in Hsc by lia.
      pose proof (Z.pow_pos_nonneg 10 (Z.of_nat (S tz)) ltac:(lia) ltac:(lia)).
      specialize (IH (m * 10 ^ Z.of_nat (S tz) + d) O (S ofs) ltac:(split; [nia|by right])). change (10 ^ Z.of_nat 0) with 1 in IH. rewrite Z.mul_1_r in IH.
      destruct (mantissa_loop _ _ _ _) as [[[[m' tz'] ofs'] r']|]; [|intros fs q k Hfs Hk Ev; apply (IH fs q k Hfs Hk); rewrite <- Ev, Ecat; f_equal; lia]. cbn [length]. destruct IH as (-> & -> & H1 & H2). split_and!; [done|lia|done|done].
    + intros fs q k Hfs Hk E. eapply (long_number _ (l ++ fs)); [by apply Forall_app| |exact Hmod|exact Hk|by rewrite <- Est, <- Ecat]. lia.
Qed.

Lemma exponent_loop_spec ds r : digits 10 ds -> starts_digit r = false -> forall e, 0 <= e ->
  match exponent_loop (ascii ds ++ r) e with
  | Some (e', r') => r' = r /\ e' = be_from 10 e ds
  | None => 10 ^ 18 <= be_from 10 e ds
  end.
Proof.
  intros Hd Hr. induction Hd as [|d l Hd Hl IH]; intros e He.
  { cbn [ascii fmap list_fmap app]. destruct r as [|c r]; cbn [exponent_loop]; [done|]. cbn [starts_digit] in Hr. by rewrite Hr. }
  cbn [ascii fmap list_fmap app exponent_loop]. fold (ascii l). rewrite isdigit_ascii by done. rewrite Z.gtb_ltb.
  change (be_from 10 e (d :: l)) with (be_from 10 (e * 10 + d) l). destruct (Z.ltb_spec (UPPER_BOUND / 10) e) as [Hlt|Hle].
  - change (UPPER_BOUND / 10) with (10 ^ 17 - 1) in Hlt. pose proof (be_from_bounds (e * 10 + d) l Hl ltac:(lia)) as [Hb _].
    pose proof (Z.pow_pos_nonneg 10 (Z.of_nat (length l)) ltac:(lia) ltac:(lia)). change (10 ^ 18) with (10 ^ 17 * 10). nia.
  - replace (e * 10 + (d + 48) - 48) with (e * 10 + d) by lia. apply IH. lia.
Qed.

Lemma finish_spec k : forall m, finish k m = Some (m * 10 ^ Z.of_nat k) \/ (finish k m = None /\ 10 ^ 18 <= Z.abs (m * 10 ^ Z.of_nat k)).
Proof.
  induction k as [|k IH]; intros m; [left; cbn [finish]; f_equal; change (10 ^ Z.of_nat 0) with 1; lia|].
  cbn [finish]. rewrite Nat2Z.inj_succ, Z.pow_succ_r, Z.mul_assoc by lia. pose proof (Z.pow_pos_nonneg 10 (Z.of_nat k) ltac:(lia) ltac:(lia)) as Hp.
  change (UPPER_BOUND / 10) with (10 ^ 17 - 1). destruct ((m >? 10 ^ 17 - 1) || (m <? - (10 ^ 17 - 1))) eqn:Hc; [|apply IH].
  right. split; [done|]. rewrite Z.gtb_ltb, orb_true_iff, !Z.ltb_lt in Hc. rewrite Z.abs_mul, (Z.abs_eq (10 ^ _)) by lia. change (10 ^ 18) with (10 ^ 17 * 10). nia.
Qed.


(** A decimal number as text: sign, whole part without a leading zero, fraction and
    exponent.  [e] is the exponent's value. *)
Definition exponent_text (ex : list Z) (e : Z) : Prop :=
  (ex = [] /\ e = 0) \/
  exists c sgn es, (c = 101 \/ c = 69) /\ es <> [] /\ digits 10 es /\ ex = c :: sgn ++ ascii es /\
    ((sgn = [] \/ sgn = [43]) /\ e = be_val 10 es \/ sgn = [45] /\ e = - be_val 10 es).
Definition whole_text (ds : list Z) : Prop := digits 10 ds /\ (ds = [0] \/ exists d l, ds = d :: l /\ d <> 0).
Definition number_text (val : list Z) (neg : bool) (ds fs : list Z) (e : Z) : Prop :=
  exists ex, val = (if neg then [45] else []) ++ ascii ds ++ (if bool_decide (fs = []) then [] else 46 :: ascii fs) ++ ex /\
    whole_text ds /\ digits 10 fs /\ exponent_text ex e.

(** [a] is the number with [decimals] more decimal places: an exact equation between
    integers. *)
Definition scaled (neg : bool) (ds fs : list Z) (e decimals a : Z) : Prop :=
  a * 10 ^ (Z.of_nat (length fs) + Z.max 0 (- e)) = (if neg then -1 else 1) * be_val 10 (ds ++ fs) * 10 ^ (decimals + Z.max 0 e).

Lemma exponent_starts ex e : exponent_text ex e -> starts_digit ex = false /\ (forall c t, ex = c :: t -> c <> 46).
Proof. intros [[-> _]|(c & sgn & es & [-> | ->] & _ & _ & -> & _)]; (split; [done|congruence]). Qed.

(** What the exponent reads: its value, or too many digits *)
Lemma exponent_part_text ex e : exponent_text ex e ->
  (exists neg v, exponent_part ex = Some (neg, v, []) /\ e = (if neg then - v else v)) \/ (exponent_part ex = None /\ 10 ^ 18 <= Z.abs e).
Proof.
  intros [[-> ->]|(c & sgn & es & Hc & Hne & Hd & -> & Hs)]; [left; by exists false, 0|].
  assert (exists neg, (let '(neg, val') := match sgn ++ ascii es with
      | d :: v => if d =? 43 then (false, v) else if d =? 45 then (true, v) else (false, sgn ++ ascii es) | [] => (false, sgn ++ ascii es) end in
      (neg, val')) = (neg, ascii es) /\ e = (if neg : bool then - be_val 10 es else be_val 10 es)) as (neg & En & Ee).
  { destruct Hs as [[[-> | ->] ->]|[-> ->]]; [|by exists false|by exists true]. exists false. split; [|done]. cbn [app].
    destruct Hd as [|d l Hd Hl]; [done|]. cbn [ascii fmap list_fmap]. rewrite !(proj2 (Z.eqb_neq _ _)) by lia. done. }
  unfold exponent_part. assert ((c =? 101) || (c =? 69) = true) as -> by (destruct Hc as [-> | ->]; done).
  destruct (match sgn ++ ascii es with [] => _ | _ => _ end) as [neg' val'] eqn:Em. injection En as -> ->.
  pose proof (starts_digit_ascii es [] Hd Hne) as Hst. rewrite app_nil_r in Hst. rewrite Hst.
  pose proof (exponent_loop_spec es [] Hd eq_refl 0 ltac:(lia)) as Hl. rewrite app_nil_r in Hl. fold (be_val 10 es) in Hl.
  destruct (exponent_loop (ascii es) 0) as [[e' r']|]; cbn [mbind option_bind].
  - destruct Hl as [-> ->]. left. by exists neg, (be_val 10 es).
  - right. split; [done|]. subst e. destruct neg; lia.
Qed.

Lemma exponent_part_inv val neg v : exponent_part val = Some (neg, v, []) -> exponent_text val (if neg then - v else v) /\ 0 <= v.
Proof.
  destruct val as [|c val']; [intros [= <- <-]; split; [by left|done]|]. cbn [exponent_part]. destruct ((c =? 101) || (c =? 69)) eqn:Hc; [|done].
  assert (c = 101 \/ c = 69) as Hc' by (rewrite orb_true_iff, !Z.eqb_eq in Hc; done).
  destruct (match val' with [] => _ | _ => _ end) as [n t] eqn:Em. destruct (starts_digit t) eqn:Ht; [|done].
  destruct (span_digits_ascii t) as (es & r & Et & Hd & Hr & _). pose proof (exponent_loop_spec es r Hd Hr 0 ltac:(lia)) as Hl. rewrite <- Et in Hl.
  destruct (exponent_loop t 0) as [[e' r']|]; [|done]. destruct Hl as [-> ->]. cbn [mbind option_bind]. intros [= -> <- Er]. subst r. rewrite app_nil_r in Et.
  fold (be_val 10 es). assert (0 <= be_val 10 es) by (pose proof (be_val_range 10 es ltac:(lia) Hd); lia).
  assert (es <> []) as Hne by (intros ->; subst t; done).
  split; [|done]. right. destruct val' as [|d v']; [injection Em as <- <-; by subst|]. revert Em.
  destruct (Z.eqb_spec d 43) as [->|]; [intros [= <- <-]; exists c, [43], es; split_and!; try done; [by rewrite Et|left; split; [by right|done]]|].
  destruct (Z.eqb_spec d 45) as [->|]; [intros [= <- <-]; exists c, [45], es; split_and!; try done; [by rewrite Et|by right]|].
  intros [= <- <-]. exists c, [], es. split_and!; try done; [by rewrite Et|left; split; [by left|done]].
Qed.

(** The two parts of the mantissa *)
Lemma mantissa_parts ds fs r : whole_text ds -> digits 10 fs -> starts_digit r = false -> (forall c t, r = c :: t -> c <> 46) ->
  match ('(m, tz, val) ← mantissa_part (ascii ds ++ (if bool_decide (fs = []) then [] else 46 :: ascii fs) ++ r); fraction_part val m tz) with
  | Some (m, tz, ofs, r') => r' = r /\ ofs = length fs /\ canon m /\ m * 10 ^ Z.of_nat tz = be_val 10 (ds ++ fs)
  | None => forall q k, 0 <= k -> be_val 10 (ds ++ fs) = q * 10 ^ k -> 10 ^ 18 <= q
  end.
Proof.
  intros [Hd Hw] Hf Hr Hr'. set (frac := (if bool_decide (fs = []) then [] else 46 :: ascii fs) ++ r).
  assert (starts_digit frac = false) as Hfr by (unfold frac; case_bool_decide; done).
  assert (match mantissa_part (ascii ds ++ frac) with
          | Some (m, tz, val) => val = frac /\ canon m /\ m * 10 ^ Z.of_nat tz = be_val 10 ds
          | None => forall q k, 0 <= k -> be_val 10 (ds ++ fs) = q * 10 ^ k -> 10 ^ 18 <= q end) as Hm.
  { destruct Hw as [->|(d & l & -> & Hne)]; [split_and!; [done|unfold canon, UPPER_BOUND; split; [lia|by left]|done]|].
    inversion Hd as [|? ? Hd0 Hl]; subst. pose proof (mantissa_loop_spec (d :: l) frac Hd Hfr 0 O O ltac:(unfold canon, UPPER_BOUND; split; [lia|by left])) as H.
    unfold mantissa_part. cbn [ascii fmap list_fmap app] in *. rewrite (proj2 (Z.eqb_neq _ _)) by lia.
    assert ((49 <=? d + 48) && (d + 48 <=? 57) = true) as -> by (rewrite andb_true_iff, !Z.leb_le; lia).
    destruct (mantissa_loop _ 0 0 0) as [[[[m tz] ofs] r']|]; cbn [mbind option_bind].
    - destruct H as (-> & _ & Hc & Hv). split_and!; [done|done|]. by rewrite Hv.
    - intros q k Hk E. by apply (H fs q k). }
  destruct (mantissa_part _) as [[[m tz] val]|]; cbn [mbind option_bind]; [|done]. destruct Hm as (-> & Hc & Hv). unfold frac.
  assert (be_val 10 (ds ++ fs) = be_from 10 (m * 10 ^ Z.of_nat tz) fs) as Eapp by (rewrite Hv; unfold be_val, be_from; by rewrite fold_left_app).
  case_bool_decide as Hfs.
  - subst fs. cbn [app]. rewrite app_nil_r. destruct r as [|c t]; cbn [fraction_part]; [by split_and!|].
    rewrite (proj2 (Z.eqb_neq c 46)) by (by eapply Hr'). by split_and!.
  - cbn [app fraction_part]. change (46 =? 46) with true. cbn iota. rewrite starts_digit_ascii by done.
    pose proof (mantissa_loop_spec fs r Hf Hr m tz O Hc) as H. destruct (mantissa_loop _ m tz 0) as [[[[m' tz'] ofs] r']|].
    + destruct H as (-> & -> & Hc' & Hv'). split_and!; [done|done|done|by rewrite Eapp].
    + intros q k Hk E. apply (H [] q k); [constructor|done|]. by rewrite app_nil_r, <- Eapp.
Qed.

Lemma mantissa_parts_inv val m tz ofs r : ('(m, tz, val) ← mantissa_part val; fraction_part val m tz) = Some (m, tz, ofs, r) ->
  exists ds fs, val = ascii ds ++ (if bool_decide (fs = []) then [] else 46 :: ascii fs) ++ r /\ whole_text ds /\ digits 10 fs.
Proof.
  assert (forall val m tz ofs r m0 tz0, fraction_part val m0 tz0 = Some (m, tz, ofs, r) -> canon m0 ->
    exists fs, val = (if bool_decide (fs = []) then [] else 46 :: ascii fs) ++ r /\ digits 10 fs) as Hfrac.
  { clear. intros val m tz ofs r m0 tz0 H Hc. destruct val as [|c val]; cbn [fraction_part] in H; [injection H as <- <- <- <-; exists []; split; [done|constructor]|].
    destruct (Z.eqb_spec c 46) as [->|]; [|injection H as <- <- <- <-; exists []; split; [done|constructor]].
    destruct (starts_digit val) eqn:Hs; [|done]. destruct (span_digits_ascii val) as (fs & r' & Ev & Hd & Hr & _).
    pose proof (mantissa_loop_spec fs r' Hd Hr m0 tz0 O Hc) as Hl. rewrite <- Ev, H in Hl. destruct Hl as (-> & _). exists fs. split; [|done].
    rewrite bool_decide_false by (intros ->; rewrite Ev in Hs; cbn [ascii fmap list_fmap app] in Hs; congruence). by rewrite Ev. }
  assert (canon 0) as H0 by (unfold canon, UPPER_BOUND; split; [lia|by left]).
  destruct val as [|c val]; [done|]. cbn [mantissa_part]. destruct (Z.eqb_spec c 48) as [->|Hne].
  - cbn [mbind option_bind]. intros H. destruct (Hfrac _ _ _ _ _ _ _ H H0) as (fs & -> & Hd). exists [0], fs.
    split_and!; [done| |done]. split; [constructor; [lia|constructor]|by left].
  - destruct ((49 <=? c) && (c <=? 57)) eqn:Hc; [|done]. rewrite andb_true_iff, !Z.leb_le in Hc.
    destruct (span_digits_ascii (c :: val)) as (ds & r' & Ev & Hd & Hr & _). pose proof (mantissa_loop_spec ds r' Hd Hr 0 O O H0) as Hl. rewrite <- Ev in Hl.
    destruct (mantissa_loop (c :: val) 0 0 0) as [[[[m1 tz1] ofs1] r1]|]; [|done]. destruct Hl as (-> & _ & Hc1 & _). cbn [mbind option_bind]. intros H.
    destruct (Hfrac _ _ _ _ _ _ _ H Hc1) as (fs & -> & Hf). exists ds, fs. split_and!; [done| |done]. split; [done|]. right.
    destruct ds as [|d l]; [exfalso; cbn [ascii fmap list_fmap app] in Ev; rewrite <- Ev in Hr; cbn in Hr; unfold isdigit in Hr; rewrite andb_false_iff, !Z.leb_gt in Hr; lia|].
    exists d, l. split; [done|]. injection Ev as Ev _. lia.
Qed.

Lemma ParseFixedPoint_parts neg ds fs ex decimals : whole_text ds ->
  ParseFixedPoint ((if neg : bool then [45] else []) ++ ascii ds ++ (if bool_decide (fs = []) then [] else 46 :: ascii fs) ++ ex) decimals =
  ('(mantissa, tzeros, point_ofs, val) ← ('(m, tz, val) ← mantissa_part (ascii ds ++ (if bool_decide (fs = []) then [] else 46 :: ascii fs) ++ ex); fraction_part val m tz);
   '(exponent_sign, exponent, val) ← exponent_part val;
   if negb (bool_decide (val = [])) then None
   else
     let exponent := (if exponent_sign : bool then - exponent else exponent) - Z.of_nat point_ofs + Z.of_nat tzeros + decimals in
     if exponent <? 0 then None else if exponent >=? 18 then None
     else mantissa ← finish (Z.to_nat exponent) (if neg then - mantissa else mantissa);
          if (mantissa >? UPPER_BOUND) || (mantissa <? - UPPER_BOUND) then None else Some mantissa).
Proof.
  intros [Hd Hw]. unfold ParseFixedPoint. destruct neg; cbn [app].
  - change (45 =? 45) with true. cbn iota beta. by destruct (mantissa_part _) as [[[m tz] v]|].
  - destruct ds as [|d l]; [destruct Hw as [|(? & ? & ? & ?)]; done|]. inversion Hd as [|? ? Hd0 Hl]; subst. cbn [ascii fmap list_fmap app].
    rewrite (proj2 (Z.eqb_neq _ _)) by lia. cbn iota beta. by destruct (mantissa_part _) as [[[m tz] v]|].
Qed.

(** The last steps: the exponent is applied exactly. *)
Lemma apply_exponent E m a :
  (if E <? 0 then None else if E >=? 18 then None
   else x ← finish (Z.to_nat E) m; if (x >? UPPER_BOUND) || (x <? - UPPER_BOUND) then None else Some x) = Some a <->
  0 <= E < 18 /\ a = m * 10 ^ E /\ Z.abs a < 10 ^ 18.
Proof.
  destruct (Z.ltb_spec E 0); [split; [done|lia]|]. rewrite Z.geb_leb. destruct (Z.leb_spec 18 E); [split; [done|lia]|].
  destruct (finish_spec (Z.to_nat E) m) as [-> | [-> Hbig]]; rewrite Z2Nat.id in * by lia; cbn [mbind option_bind].
  - change UPPER_BOUND with (10 ^ 18 - 1). destruct ((_ >? _) || _) eqn:Hc; rewrite Z.gtb_ltb in Hc.
    + rewrite orb_true_iff, !Z.ltb_lt in Hc. split; [done|]. intros (_ & -> & ?). lia.
    + rewrite orb_false_iff, !Z.ltb_ge in Hc. split; [intros [= <-]; split; [lia|split; [done|lia]]|by intros (_ & -> & _)].
  - split; [done|]. intros (_ & -> & ?). lia.
Qed.

Lemma pow10_cancel a b k : 0 <= k -> a * 10 ^ k = b * 10 ^ k -> a = b.
Proof. intros Hk E. apply (Z.mul_cancel_r _ _ (10 ^ k)); [pose proof (Z.pow_pos_nonneg 10 k); lia|done]. Qed.

Lemma scaled_iff (neg : bool) ds fs e decimals a m tz : canon m -> m * 10 ^ Z.of_nat tz = be_val 10 (ds ++ fs) -> 0 <= decimals ->
  let E := e - Z.of_nat (length fs) + Z.of_nat tz + decimals in
  scaled neg ds fs e decimals a <-> (0 <= E /\ a = (if neg then - m else m) * 10 ^ E) \/ (E < 0 /\ a = 0 /\ m = 0).
Proof.
  intros [_ Hc] Hv Hdec E. unfold scaled. rewrite <- Hv. set (X := Z.of_nat (length fs) + Z.max 0 (- e)).
  set (sm := if neg then - m else m). set (Y := decimals + Z.max 0 e).
  replace ((if neg then -1 else 1) * (m * 10 ^ Z.of_nat tz) * 10 ^ Y) with (sm * 10 ^ (Z.of_nat tz + Y)) by (unfold sm; rewrite Z.pow_add_r by lia; destruct neg; lia).
  destruct (decide (0 <= E)) as [HE|HE].
  - replace (Z.of_nat tz + Y) with (E + X) by lia. rewrite Z.pow_add_r, Z.mul_assoc by lia. split.
    + intros Ea. left. split; [done|]. by apply (pow10_cancel _ _ X); [lia|].
    + intros [[_ ->]|[? _]]; [done|lia].
  - replace X with (- E + (Z.of_nat tz + Y)) by lia. rewrite Z.pow_add_r, Z.mul_assoc by lia. split.
    + intros Ea. right. apply pow10_cancel in Ea; [|lia]. replace (- E) with (1 + (- E - 1)) in Ea by lia. rewrite Z.pow_add_r in Ea by lia. change (10 ^ 1) with 10 in Ea.
      assert (m = 0) as Hm0.
      { destruct Hc as [|Hc]; [done|]. exfalso. apply Hc. apply Z.mod_divide; [lia|].
        exists ((if neg then -1 else 1) * (a * 10 ^ (- E - 1))). unfold sm in Ea. destruct neg; lia. }
      split; [lia|]. split; [|done]. unfold sm in Ea. rewrite Hm0 in Ea. pose proof (Z.pow_pos_nonneg 10 (- E - 1) ltac:(lia) ltac:(lia)). destruct neg; nia.
    + intros [[? _]|(_ & -> & Hm)]; [lia|]. unfold sm. rewrite Hm. by destruct neg.
Qed.

Lemma fixed_point_sound val decimals a : 0 <= decimals < 2 ^ 31 -> Z.of_nat (length val) < 2 ^ 31 ->
  ParseFixedPoint val decimals = Some a -> exists neg ds fs e, number_text val neg ds fs e /\ scaled neg ds fs e decimals a /\ Z.abs a < 10 ^ 18.
Proof.
  intros Hdec Hlen. intros H. set (neg := match val with c :: _ => c =? 45 | [] => false end).
    set (val' := match val with c :: v => if c =? 45 then v else val | [] => val end).
    assert (val = (if neg then [45] else []) ++ val') as Ev by (unfold neg, val'; destruct val as [|c v]; [done|destruct (Z.eqb_spec c 45) as [->|]; done]).
    destruct ('(m, tz, v) ← mantissa_part val'; fraction_part v m tz) as [[[[m tz] ofs] r]|] eqn:Em.
    2: { exfalso. revert H Em. unfold ParseFixedPoint, val'. destruct val as [|c v]; [intros H; discriminate H|]. destruct (c =? 45); cbn iota beta;
           (destruct (mantissa_part _) as [[[m tz] v']|]; [|intros H; discriminate H]); cbn [mbind option_bind]; intros H Em; rewrite Em in H; done. }
    destruct (mantissa_parts_inv _ _ _ _ _ Em) as (ds & fs & Ev' & Hw & Hf). rewrite Ev, Ev', ParseFixedPoint_parts in H by done. rewrite <- Ev', Em in H. cbn [mbind option_bind] in H.
    destruct (exponent_part r) as [[[es x] r']|] eqn:Ex; [|done]. cbn [mbind option_bind] in H. destruct (bool_decide (r' = [])) eqn:Hr'; [|discriminate H]. apply bool_decide_eq_true in Hr' as ->. cbn [negb] in H.
    destruct (exponent_part_inv _ _ _ Ex) as [Htext Hx]. set (e := if es then - x else x) in *. cbn zeta in H. apply apply_exponent in H as (HE & Ha & Hab).
    destruct (exponent_starts r e Htext) as [Hs1 Hs2].
    pose proof (mantissa_parts ds fs r Hw Hf Hs1 Hs2) as Hm. rewrite <- Ev', Em in Hm. destruct Hm as (_ & -> & Hc & Hv).
    exists neg, ds, fs, e. split; [exists r; split_and!; [by rewrite Ev, Ev'|done|done|done]|]. split; [|done].
    apply (scaled_iff neg ds fs e decimals a m tz Hc Hv ltac:(lia)). left. split; [lia|]. done.
Qed.

Lemma fixed_point_complete val decimals a : 0 <= decimals < 2 ^ 31 -> Z.of_nat (length val) < 2 ^ 31 ->
  forall neg ds fs e, number_text val neg ds fs e -> scaled neg ds fs e decimals a -> 0 < Z.abs a < 10 ^ 18 -> ParseFixedPoint val decimals = Some a.
Proof.
  intros Hdec Hlen. intros neg ds fs e (ex & Ev & Hw & Hf & Htext) Hsc Ha. rewrite Ev, ParseFixedPoint_parts by done. destruct (exponent_starts ex e Htext) as [Hs1 Hs2].
    assert (Z.of_nat (length ds) + Z.of_nat (length fs) < 2 ^ 31) as Hl.
    { apply (f_equal length) in Ev. rewrite !length_app in Ev. unfold ascii in Ev. rewrite length_fmap in Ev. case_bool_decide; [subst fs; simpl in *; lia|cbn [length] in Ev; rewrite length_fmap in Ev; lia]. }
    assert (digits 10 (ds ++ fs)) as Hdf by (apply Forall_app; split; [apply Hw|done]).
    pose proof (be_val_range 10 (ds ++ fs) ltac:(lia) Hdf) as HV. rewrite length_app, Nat2Z.inj_add in HV.
    pose proof (mantissa_parts ds fs ex Hw Hf Hs1 Hs2) as Hm. set (V := be_val 10 (ds ++ fs)) in *.
    assert (Z.abs a * 10 ^ (Z.of_nat (length fs) + Z.max 0 (- e)) = V * 10 ^ (decimals + Z.max 0 e)) as Habs.
    { apply (f_equal Z.abs) in Hsc. fold V in Hsc. rewrite !Z.abs_mul, !(Z.abs_eq (10 ^ _)) in Hsc by (apply Z.pow_nonneg; lia). rewrite Hsc. f_equal. rewrite (Z.abs_eq V) by lia. destruct neg; lia. }
    destruct (_ ≫= _) as [[[[m tz] ofs] r]|]; cbn [mbind option_bind].
    + destruct Hm as (-> & -> & Hc & Hv). destruct (exponent_part_text ex e Htext) as [(es & v & -> & He)|[_ Hbig]]; cbn [mbind option_bind].
      * cbn [negb bool_decide]. rewrite bool_decide_true by done. cbn [negb]. cbn zeta. rewrite <- He. apply apply_exponent.
        apply (scaled_iff neg ds fs e decimals a m tz Hc Hv ltac:(lia)) in Hsc as [[HE Ea]|(_ & -> & _)]; [|lia]. split; [|split; [done|lia]]. split; [done|].
        destruct (decide (e - Z.of_nat (length fs) + Z.of_nat tz + decimals < 18)) as [|Hge]; [done|]. exfalso.
        assert (10 ^ 18 <= 10 ^ (e - Z.of_nat (length fs) + Z.of_nat tz + decimals)) by (apply Z.pow_le_mono_r; lia).
        rewrite Ea, Z.abs_mul, (Z.abs_eq (10 ^ _)) in Ha by lia. assert (Z.abs (if neg then - m else m) <> 0) by nia. nia.
      * exfalso. destruct (decide (0 <= e)).
        -- replace (Z.max 0 (- e)) with 0 in Habs by lia. replace (Z.max 0 e) with e in Habs by lia. rewrite Z.add_0_r in Habs.
           assert (10 ^ (decimals + e) < 10 ^ (18 + Z.of_nat (length fs))) as Hlt%Z.pow_lt_mono_r_iff; [|lia|lia|lia].
           rewrite (Z.pow_add_r 10 18) by lia. assert (0 < V) by nia. pose proof (Z.pow_pos_nonneg 10 (Z.of_nat (length fs)) ltac:(lia) ltac:(lia)). nia.
        -- replace (Z.max 0 (- e)) with (- e) in Habs by lia. replace (Z.max 0 e) with 0 in Habs by lia. rewrite Z.add_0_r in Habs.
           assert (10 ^ (Z.of_nat (length fs) + - e) < 10 ^ (Z.of_nat (length ds) + Z.of_nat (length fs) + decimals)) as Hlt%Z.pow_lt_mono_r_iff; [|lia|lia|lia].
           rewrite (Z.pow_add_r 10 (_ + _) decimals) by lia. pose proof (Z.pow_pos_nonneg 10 decimals ltac:(lia) ltac:(lia)). nia.
    + exfalso. set (X := Z.of_nat (length fs) + Z.max 0 (- e)) in *. set (Y := decimals + Z.max 0 e) in *. destruct (decide (Y <= X)).
      * assert (10 ^ 18 <= Z.abs a); [|lia]. apply (Hm (Z.abs a) (X - Y)); [lia|]. apply (pow10_cancel _ _ Y); [lia|]. rewrite <- Habs, <- Z.mul_assoc, <- Z.pow_add_r by lia. do 2 f_equal. lia.
      * assert (10 ^ 18 <= V) by (apply (Hm V 0); [lia|]; change (10 ^ 0) with 1; lia).
        assert (Z.abs a = V * 10 ^ (Y - X)) as Ea by (apply (pow10_cancel _ _ X); [lia|]; rewrite Habs, <- Z.mul_assoc, <- Z.pow_add_r by lia; do 2 f_equal; lia).
        pose proof (Z.pow_pos_nonneg 10 (Y - X) ltac:(lia) ltac:(lia)). nia.
Qed.

(** C35: [ParseFixedPoint], which reads the amounts of the RPC interface, is exact.  A
    text it accepts is a decimal number (optional minus, whole part without leading
    zeros, optional fraction, optional exponent), the result is exactly that number
    times ten to the [decimals], without rounding, and is below 10^18 in absolute
    value.  Conversely every decimal number whose scaled value is such an integer and
    not zero is accepted with that value, however many zeros or digits it is written
    with. *)
Theorem ParseFixedPoint_exact val decimals a : 0 <= decimals < 2 ^ 31 -> Z.of_nat (length val) < 2 ^ 31 ->
  (ParseFixedPoint val decimals = Some a -> exists neg ds fs e, number_text val neg ds fs e /\ scaled neg ds fs e decimals a /\ Z.abs a < 10 ^ 18) /\
  (forall neg ds fs e, number_text val neg ds fs e -> scaled neg ds fs e decimals a -> 0 < Z.abs a < 10 ^ 18 -> ParseFixedPoint val decimals = Some a).
Proof. intros Hdec Hlen. split; [by apply fixed_point_sound|by apply fixed_point_complete]. Qed.

Lemma ParseFixedPoint_exact_witness :
  ParseFixedPoint (chars "1.1e-7") 8 = Some 11 /\
  exists neg ds fs e, number_text (chars "1.1e-7") neg ds fs e /\ scaled neg ds fs e 8 11 /\ Z.abs 11 < 10 ^ 18.
Proof.
  split; [vm_compute; reflexivity|].
  exact (proj1 (ParseFixedPoint_exact (chars "1.1e-7") 8 11 ltac:(lia) ltac:(vm_compute; reflexivity)) ltac:(vm_compute; reflexivity)).
Defined.


(** ** Amounts are read back *)

Lemma decimal_loop_spec fuel : forall n acc, 0 <= n < 10 ^ Z.of_nat fuel -> (0 < fuel)%nat ->
  exists ds, decimal_loop fuel n (ascii acc) = ascii (ds ++ acc) /\ whole_text ds /\ be_val 10 ds = n.
Proof.
  induction fuel as [|fuel IH]; intros n acc Hn Hf; [lia|]. cbn [decimal_loop]. pose proof (Z.mod_pos_bound n 10 ltac:(lia)) as Hm.
  replace (48 + n mod 10 :: ascii acc) with (ascii (n mod 10 :: acc)) by (cbn [ascii fmap list_fmap]; f_equal; lia).
  destruct (Z.ltb_spec n 10).
  - exists [n]. rewrite Z.mod_small by lia. split_and!; [done| |unfold be_val; cbn; lia]. split; [constructor; [lia|constructor]|].
    destruct (decide (n = 0)) as [->|]; [by left|right; by exists n, []].
  - destruct fuel as [|fuel]; [change (10 ^ Z.of_nat 1) with 10 in Hn; lia|]. destruct (IH (n / 10) (n mod 10 :: acc)) as (ds & E & [Hd Hw] & Hv); [|lia|].
    { rewrite Nat2Z.inj_succ, Z.pow_succ_r in Hn by lia. split; [apply Z.div_pos; lia|apply Z.div_lt_upper_bound; lia]. }
    exists (ds ++ [n mod 10]). rewrite E. rewrite <- app_assoc. split_and!; [done| |rewrite be_val_snoc, Hv; pose proof (Z.div_mod n 10); lia].
    split; [apply Forall_app; split; [done|constructor; [lia|constructor]]|]. right.
    destruct Hw as [->|(d & l & -> & Hne)]; [|by exists d, (l ++ [n mod 10])]. exfalso. assert (n / 10 = 0) by (rewrite <- Hv; reflexivity). pose proof (Z.div_le_lower_bound n 10 1 ltac:(lia) ltac:(lia)). lia.
Qed.

Lemma decimal_spec n : 0 <= n -> exists ds, decimal n = ascii ds /\ whole_text ds /\ be_val 10 ds = n.
Proof.
  intros Hn. unfold decimal. destruct (decimal_loop_spec (S (Z.to_nat (Z.log2 n))) n []) as (ds & E & H); [|lia|rewrite app_nil_r in E; exists ds; by split].
  split; [done|]. destruct (decide (n = 0)) as [->|]; [by vm_compute|]. pose proof (Z.log2_spec n ltac:(lia)) as [_ Hlt]. pose proof (Z.log2_nonneg n).
  eapply Z.lt_le_trans; [exact Hlt|]. rewrite Nat2Z.inj_succ, Z2Nat.id by lia. apply Z.pow_le_mono_l. lia.
Qed.

Lemma whole_length ds : whole_text ds -> be_val 10 ds < 10 ^ 8 -> (length ds <= 8)%nat.
Proof.
  intros [Hd [->|(d & l & -> & Hne)]] Hv; [simpl; lia|]. inversion Hd as [|? ? Hd0 Hl]; subst. rewrite be_val_cons in Hv.
  pose proof (be_val_range 10 l ltac:(lia) Hl). destruct (decide (length l <= 7)%nat); [simpl; lia|]. exfalso.
  assert (10 ^ 8 <= 10 ^ Z.of_nat (length l)) by (apply Z.pow_le_mono_r; lia). nia.
Qed.

Lemma print_int08_spec r : 0 <= r < COIN -> exists fs, print_int08 r = ascii fs /\ digits 10 fs /\ length fs = 8%nat /\ be_val 10 fs = r.
Proof.
  intros Hr. unfold print_int08. rewrite (proj2 (Z.ltb_ge r 0)), Z.abs_eq by lia. destruct (decimal_spec r ltac:(lia)) as (ds & -> & Hw & Hv).
  pose proof (whole_length ds Hw ltac:(unfold COIN in Hr; lia)) as Hl. exists (replicate (8 - length ds) 0 ++ ds). cbn [app].
  assert (length (ascii ds) = length ds) as -> by (unfold ascii; apply length_fmap).
  split_and!; [unfold ascii; by rewrite fmap_app, fmap_replicate|apply Forall_app; split; [by apply Forall_replicate|apply Hw]|rewrite length_app, length_replicate; lia|].
  rewrite be_val_app, Hv. assert (be_val 10 (replicate (8 - length ds) 0) = 0) as ->; [|lia].
  generalize (8 - length ds)%nat as k. induction k as [|k IH]; [done|]. cbn [replicate]. rewrite be_val_cons, IH. lia.
Qed.

Lemma trim_zeros_spec rfs t : digits 10 rfs -> (2 <= length rfs)%nat ->
  exists k rfs', trim_zeros (ascii rfs ++ 46 :: t) = ascii rfs' ++ 46 :: t /\ rfs = replicate k 0 ++ rfs' /\ (2 <= length rfs')%nat.
Proof.
  intros Hd. induction Hd as [|c rest Hc Hrest IH]; intros Hl; [simpl in Hl; lia|].
  destruct rest as [|x rest]; [simpl in Hl; lia|]. destruct rest as [|d rest].
  - exists O, [c; x]. split_and!; [|done|simpl; lia]. cbn [ascii fmap list_fmap app trim_zeros]. by rewrite andb_false_r.
  - cbn [ascii fmap list_fmap app trim_zeros]. inversion Hrest as [|? ? Hx Hr2]; subst. inversion Hr2 as [|? ? Hdd Hr3]; subst. rewrite isdigit_ascii, andb_true_r by done.
    destruct (Z.eqb_spec (c + 48) 48) as [E|].
    + destruct (IH ltac:(simpl; lia)) as (k & rfs' & E1 & E2 & E3). exists (S k), rfs'. split_and!; [exact E1| |done]. cbn [replicate app]. rewrite <- E2. f_equal. lia.
    + exists O, (c :: x :: d :: rest). split_and!; [done|done|simpl; lia].
Qed.

Lemma ascii_rev l : rev (ascii l) = ascii (rev l).
Proof. induction l as [|d l IH]; [done|]. cbn [ascii fmap list_fmap rev]. fold (ascii l). rewrite IH. unfold ascii. by rewrite fmap_app. Qed.

(** What [FormatMoney] prints: whole coins and two to eight decimals *)
Lemma FormatMoney_text n : 0 <= n < 2 ^ 63 -> exists ds fs, FormatMoney n = ascii ds ++ 46 :: ascii fs /\ whole_text ds /\ digits 10 fs /\
  (2 <= length fs <= 8)%nat /\ be_val 10 ds = n / COIN /\ be_val 10 fs * 10 ^ (8 - Z.of_nat (length fs)) = n mod COIN.
Proof.
  intros Hn. unfold FormatMoney. assert ((if n >? 0 then n else s64 (- n)) = n) as ->.
  { rewrite Z.gtb_ltb. destruct (Z.ltb_spec 0 n); [done|]. by replace n with 0 by lia. }
  rewrite (proj2 (Z.ltb_ge n 0)), Z.quot_div_nonneg, Z.rem_mod_nonneg by (unfold COIN; lia).
  pose proof (Z.mod_pos_bound n COIN ltac:(unfold COIN; lia)) as Hm. pose proof (Z.div_pos n COIN ltac:(lia) ltac:(unfold COIN; lia)) as Hq.
  unfold print_int. rewrite (proj2 (Z.ltb_ge _ 0)) by lia. destruct (decimal_spec (n / COIN) Hq) as (ds & -> & Hw & Hv).
  destruct (print_int08_spec (n mod COIN) Hm) as (fs0 & -> & Hf & Hl & Hvf).
  rewrite !rev_app_distr. cbn [rev app]. rewrite <- app_assoc. cbn [app]. rewrite (ascii_rev fs0).
  destruct (trim_zeros_spec (rev fs0) (rev (ascii ds))) as (k & rfs' & -> & E & Hl2); [by apply Forall_rev|rewrite length_rev; lia|].
  exists ds, (rev rfs'). rewrite rev_app_distr. cbn [rev]. rewrite rev_involutive, <- app_assoc. cbn [app]. rewrite (ascii_rev rfs').
  assert (fs0 = rev rfs' ++ replicate k 0) as Efs by (rewrite <- (rev_involutive fs0), E, rev_app_distr; f_equal; clear; induction k as [|k IH]; [done|]; cbn [replicate rev]; rewrite IH; symmetry; apply (replicate_cons_app k 0)).
  subst fs0. apply Forall_app in Hf as [Hf _]. rewrite length_app, length_replicate in Hl. split_and!; [done|done|done|rewrite length_rev in *; lia|lia|done|].
  rewrite <- Hvf, be_val_app, length_replicate. assert (be_val 10 (replicate k 0) = 0) as ->.
  { clear. induction k as [|k IH]; [done|]. cbn [replicate]. rewrite be_val_cons, IH. lia. }
  rewrite Z.add_0_r. do 2 f_equal. lia.
Qed.

Lemma ascii_nonzero ds : digits 10 ds -> c_str (ascii ds) = ascii ds /\ (forall r, c_str (ascii ds ++ r) = ascii ds ++ c_str r) /\ forallb isspace (ascii ds) = bool_decide (ds = []).
Proof.
  induction 1 as [|d l Hd Hl (IH1 & IH2 & _)]; [done|]. cbn [ascii fmap list_fmap c_str app]. fold (ascii l). rewrite (proj2 (Z.eqb_neq _ _)) by lia.
  split_and!; [by rewrite IH1|intros r; by rewrite IH2|]. cbn [forallb]. rewrite bool_decide_false by done. unfold isspace.
  rewrite (proj2 (Z.eqb_neq _ _)), (proj2 (Z.leb_gt (d + 48) 13)) by lia. by rewrite andb_false_r.
Qed.

Lemma digit_class d : 0 <= d < 10 -> (d + 48 =? 46) = false /\ isspace (d + 48) = false /\ isdigit (d + 48) = true.
Proof.
  intros Hd. rewrite isdigit_ascii by done. unfold isspace. rewrite !(proj2 (Z.eqb_neq _ _)), (proj2 (Z.leb_gt (d + 48) 13)) by lia. by rewrite andb_false_r.
Qed.

Lemma whole_loop_ascii ds : digits 10 ds -> forall p w, whole_loop (ascii ds ++ 46 :: p) w = let '(u, r) := units_loop p (CENT * 10) 0 in Some (w ++ ascii ds, u, r).
Proof.
  induction 1 as [|d l Hd Hl IH]; intros p w; cbn [ascii fmap list_fmap app whole_loop].
  - change (46 =? 46) with true. cbn iota. by rewrite app_nil_r.
  - fold (ascii l). destruct (digit_class d Hd) as (-> & -> & ->). cbn [negb]. rewrite IH, <- app_assoc. done.
Qed.

Lemma units_loop_ascii fs : digits 10 fs -> forall k u, (length fs <= k)%nat -> (1 <= k)%nat ->
  units_loop (ascii fs) (10 ^ (Z.of_nat k - 1)) u = (u + be_val 10 fs * 10 ^ (Z.of_nat k - Z.of_nat (length fs)), []).
Proof.
  induction 1 as [|d l Hd Hl IH]; intros k u Hk Hk1; [cbn; f_equal; lia|]. cbn [ascii fmap list_fmap units_loop]. fold (ascii l). cbn [length] in Hk.
  rewrite isdigit_ascii by done. pose proof (Z.pow_pos_nonneg 10 (Z.of_nat k - 1) ltac:(lia) ltac:(lia)) as Hp. rewrite Z.gtb_ltb, (proj2 (Z.ltb_lt _ _)) by lia. cbn [andb].
  rewrite be_val_cons. cbn [length]. destruct k as [|k]; [lia|]. destruct k as [|k].
  - destruct l; [|simpl in Hk; lia]. cbn. f_equal. lia.
  - assert (10 ^ (Z.of_nat (S (S k)) - 1) / 10 = 10 ^ (Z.of_nat (S k) - 1)) as ->.
    { replace (Z.of_nat (S (S k)) - 1) with (1 + (Z.of_nat (S k) - 1)) by lia. rewrite Z.pow_add_r, Z.mul_comm by lia. apply Z.div_mul. lia. }
    rewrite IH by lia. f_equal. replace (d + 48 - 48) with d by lia.
    replace (Z.of_nat (S (S k)) - Z.of_nat (S (length l))) with (Z.of_nat (S k) - Z.of_nat (length l)) by lia.
    replace (Z.of_nat (S (S k)) - 1) with (Z.of_nat (length l) + (Z.of_nat (S k) - Z.of_nat (length l))) by lia. rewrite Z.pow_add_r by lia. lia.
Qed.

Lemma skip_spaces_ascii ds r : digits 10 ds -> ds <> [] -> skip_spaces (ascii ds ++ r) = ascii ds ++ r.
Proof. intros [|d l Hd Hl] Hne; [done|]. cbn [ascii fmap list_fmap app skip_spaces]. by destruct (digit_class d Hd) as (_ & -> & _). Qed.

Lemma atoi64_ascii ds : digits 10 ds -> ds <> [] -> be_val 10 ds < 2 ^ 63 -> atoi64 (ascii ds) = be_val 10 ds.
Proof.
  intros Hd Hne Hv. unfold atoi64, strtoll. rewrite (proj1 (ascii_nonzero ds Hd)). pose proof (skip_spaces_ascii ds [] Hd Hne) as Hs. rewrite app_nil_r in Hs. rewrite Hs.
  pose proof (be_val_range 10 ds ltac:(lia) Hd) as Hr.
  assert (match ascii ds with c :: t' => if c =? 45 then (true, t') else if c =? 43 then (false, t') else (false, ascii ds) | [] => (false, ascii ds) end = (false, ascii ds)) as ->.
  { destruct Hd as [|d l Hd Hl]; [done|]. cbn [ascii fmap list_fmap]. by rewrite !(proj2 (Z.eqb_neq _ _)) by lia. }
  pose proof (span_ascii ds [] Hd eq_refl) as Hsp. rewrite app_nil_r in Hsp. rewrite Hsp. rewrite bool_decide_false by done.
  rewrite !(proj2 (Z.ltb_ge _ _)) by lia. done.
Qed.

Lemma ParseMoney_text ds fs : whole_text ds -> digits 10 fs -> (length fs <= 8)%nat -> (length ds <= 10)%nat ->
  ParseMoney (ascii ds ++ 46 :: ascii fs) = Some (be_val 10 ds * COIN + be_val 10 fs * 10 ^ (8 - Z.of_nat (length fs))).
Proof.
  intros [Hd Hw] Hf Hlf Hld. assert (ds <> []) as Hne by (destruct Hw as [->|(? & ? & -> & _)]; done).
  unfold ParseMoney. rewrite (proj1 (proj2 (ascii_nonzero ds Hd))). cbn [c_str]. change (46 =? 0) with false. cbn iota. rewrite (proj1 (ascii_nonzero fs Hf)).
  rewrite skip_spaces_ascii, whole_loop_ascii by done. change (CENT * 10) with (10 ^ (Z.of_nat 8 - 1)). rewrite units_loop_ascii by (done || lia). cbn iota beta. cbn [mbind option_bind app forallb negb].
  assert (length (ascii ds) = length ds) as -> by (unfold ascii; apply length_fmap). rewrite (proj2 (Nat.ltb_ge _ _)) by lia.
  pose proof (be_val_range 10 fs ltac:(lia) Hf) as Hr. pose proof (be_val_range 10 ds ltac:(lia) Hd) as Hrd. rewrite Z.add_0_l. change (Z.of_nat 8) with 8.
  pose proof (Z.pow_pos_nonneg 10 (8 - Z.of_nat (length fs)) ltac:(lia) ltac:(lia)) as Hp.
  assert (be_val 10 fs * 10 ^ (8 - Z.of_nat (length fs)) <= COIN) as Hle.
  { change COIN with (10 ^ 8). replace 8 with (Z.of_nat (length fs) + (8 - Z.of_nat (length fs))) at 2 by lia. rewrite Z.pow_add_r by lia. nia. }
  rewrite (proj2 (Z.ltb_ge _ _)) by nia. rewrite Z.gtb_ltb, (proj2 (Z.ltb_ge _ _)) by lia. cbn [orb]. rewrite atoi64_ascii; [done|done|done|].
  assert (10 ^ Z.of_nat (length ds) <= 10 ^ 10) by (apply Z.pow_le_mono_r; lia). lia.
Qed.

(** C36: an amount that is printed is read back.  For every amount that is not negative
    and below 10^18, which covers the whole money range, [ParseMoney] of what
    [FormatMoney] prints is the amount, and [ParseFixedPoint] with eight decimals, the
    parser of the RPC interface, reads the same amount from the same text, also with a
    minus sign. *)
Theorem money_roundtrip n : 0 <= n < 10 ^ 18 ->
  ParseMoney (FormatMoney n) = Some n /\ ParseFixedPoint (FormatMoney n) 8 = Some n /\ ParseFixedPoint (FormatMoney (- n)) 8 = Some (- n).
Proof.
  intros Hn. destruct (FormatMoney_text n ltac:(lia)) as (ds & fs & E & Hw & Hf & Hlf & Hd & Hm).
  assert (n = be_val 10 ds * COIN + be_val 10 fs * 10 ^ (8 - Z.of_nat (length fs))) as En by (rewrite Hd, Hm, (Z.div_mod n COIN) at 1 by (unfold COIN; lia); lia).
  assert (length ds <= 10)%nat as Hld.
  { destruct Hw as [Hdd [->|(d & l & -> & Hne)]]; [simpl; lia|]. apply Forall_cons in Hdd as [Hd0 Hl]. rewrite be_val_cons in Hd. pose proof (be_val_range 10 l ltac:(lia) Hl).
    destruct (decide (length l <= 9)%nat); [simpl; lia|]. exfalso. assert (10 ^ 10 <= 10 ^ Z.of_nat (length l)) by (apply Z.pow_le_mono_r; lia).
    assert (n / COIN < 10 ^ 10) by (apply Z.div_lt_upper_bound; [unfold COIN; lia|]; change (COIN * 10 ^ 10) with (10 ^ 18); lia). nia. }
  split; [rewrite E, ParseMoney_text by (done || lia); by rewrite <- En|].
  destruct (decide (n = 0)) as [->|Hn0]; [split; vm_compute; reflexivity|].
  assert (forall neg : bool, scaled neg ds fs 0 8 (if neg then - n else n)) as Hsc.
  { intros neg. unfold scaled. rewrite Z.add_0_r. change (8 + Z.max 0 0) with 8. rewrite be_val_app. set (L := Z.of_nat (length fs)) in *.
    assert (n * 10 ^ L = (be_val 10 ds * 10 ^ L + be_val 10 fs) * 10 ^ 8) as Eq; [|destruct neg; lia].
    rewrite En at 1. change COIN with (10 ^ 8). rewrite Z.mul_add_distr_r, <- (Z.mul_assoc (be_val 10 fs)), <- Z.pow_add_r by lia. replace (8 - L + L) with 8 by lia. lia. }
  assert (forall neg : bool, number_text ((if neg then [45] else []) ++ FormatMoney n) neg ds fs 0) as Ht.
  { intros neg. exists []. rewrite E, app_nil_r, bool_decide_false by (intros ->; simpl in Hlf; lia). split_and!; [done|done|done|by left]. }
  assert (Z.of_nat (length (FormatMoney n)) <= 19) as Hlen by (rewrite E, length_app; cbn [length]; unfold ascii; rewrite !length_fmap; lia).
  split.
  - apply (fixed_point_complete (FormatMoney n) 8 n ltac:(lia) ltac:(lia) false ds fs 0 (Ht false) (Hsc false)). lia.
  - assert (FormatMoney (- n) = 45 :: FormatMoney n) as ->.
    { unfold FormatMoney. rewrite !Z.gtb_ltb, (proj2 (Z.ltb_ge 0 (- n))), (proj2 (Z.ltb_lt 0 n)), (proj2 (Z.ltb_lt (- n) 0)), (proj2 (Z.ltb_ge n 0)), Z.opp_involutive by lia.
      by rewrite s64_id by (unfold is_s64; lia). }
    apply (fixed_point_complete (45 :: FormatMoney n) 8 (- n) ltac:(lia) ltac:(cbn [length]; lia) true ds fs 0 (Ht true) (Hsc true)). lia.
Qed.

Lemma money_roundtrip_witness :
  0 <= MAX_MONEY - 1 < 10 ^ 18 /\ FormatMoney (MAX_MONEY - 1) = chars "125999999.99999999" /\ ParseMoney (FormatMoney (MAX_MONEY - 1)) = Some (MAX_MONEY - 1).
Proof.
  split; [vm_compute; split; [discriminate|reflexivity]|]. split; [vm_compute; reflexivity|].
  exact (proj1 (money_roundtrip (MAX_MONEY - 1) ltac:(vm_compute; split; [discriminate|reflexivity]))).
Defined.

End ParseNum.
