(* ===== verification/NetAddr.v ===== *)
(** * Network addresses (src/netbase.{h,cpp}, CAddress of src/protocol.{h,cpp})

    [CNetAddr], [CService], [CAddress] and [CSubNet]: the classification of an
    address by its prefix, its group, its reachability, onion names, masks and
    serialization, and the parsing of hosts, ports and subnets.  The resolver of the
    system ([inet_pton] and [getaddrinfo]) is an argument; proxies and sockets are not
    modelled. *)

From stdpp Require Import base list list_numbers numbers option countable strings.
From Stdlib Require Import ZArith Lia.
From S2P Require Import Prelude Bytes Serialize StrEncodings ParseNum.
Import Endian Serialize StrEncodings ParseNum.
#[local] Open Scope Z_scope.

Module NetAddr.

Inductive Network := NET_UNROUTABLE | NET_IPV4 | NET_IPV6 | NET_TOR.
#[global] Instance Network_dec : EqDecision Network.
Proof. solve_decision. Defined.

Definition Network_value (n : Network) : Z :=
  match n with NET_UNROUTABLE => 0 | NET_IPV4 => 1 | NET_IPV6 => 2 | NET_TOR => 3 end.

(** An address in network byte order *)
Record CNetAddr := { ip : list Z }.
#[global] Instance CNetAddr_dec : EqDecision CNetAddr.
Proof. solve_decision. Defined.
#[global] Instance CNetAddr_countable : Countable CNetAddr.
Proof. refine (inj_countable' ip (fun l => {| ip := l |}) _). by intros []. Defined.

(** The array has sixteen bytes. *)
Definition CNetAddr_ok (a : CNetAddr) : Prop := is_bytes (ip a) /\ length (ip a) = 16%nat.

Definition Init : CNetAddr := {| ip := replicate 16 0 |}.
Definition pchIPv4 : list Z := [0; 0; 0; 0; 0; 0; 0; 0; 0; 0; 0xff; 0xff].
Definition pchOnionCat : list Z := [0xFD; 0x87; 0xD8; 0x7E; 0xEB; 0x43].

(** [SetRaw]: [None] is the assertion on the network. *)
Definition SetRaw (network : Network) (ip_in : list Z) : option CNetAddr :=
  match network with
  | NET_IPV4 => Some {| ip := pchIPv4 ++ take 4 ip_in |}
  | NET_IPV6 => Some {| ip := take 16 ip_in |}
  | _ => None
  end.

(** [SetSpecial]: an onion name; [None] keeps the address. *)
Definition onion_suffix : list Z := chars ".onion".
Definition SetSpecial (strName : list Z) : option CNetAddr :=
  if (6 <? length strName)%nat && bool_decide (drop (length strName - 6) strName = onion_suffix) then
    match DecodeBase32 (take (length strName - 6) strName) with
    | None => None
    | Some (vchAddr, _) =>
        if negb (length vchAddr =? 10)%nat then None else Some {| ip := pchOnionCat ++ vchAddr |}
    end
  else None.

(** [memcmp(ip, pch, n) == 0] *)
Definition starts (pch l : list Z) : bool := bool_decide (take (length pch) l = pch).

Section addr.
Context (a : CNetAddr).

Definition GetByte (n : nat) : Z := nth (15 - n) (ip a) 0.

Definition IsIPv4 : bool := starts pchIPv4 (ip a).
Definition IsTor : bool := starts pchOnionCat (ip a).
Definition IsIPv6 : bool := negb IsIPv4 && negb IsTor.

Definition IsRFC1918 : bool :=
  IsIPv4 && ((GetByte 3 =? 10) || ((GetByte 3 =? 192) && (GetByte 2 =? 168)) ||
             ((GetByte 3 =? 172) && ((GetByte 2 >=? 16) && (GetByte 2 <=? 31)))).
Definition IsRFC2544 : bool := IsIPv4 && (GetByte 3 =? 198) && ((GetByte 2 =? 18) || (GetByte 2 =? 19)).
Definition IsRFC3927 : bool := IsIPv4 && ((GetByte 3 =? 169) && (GetByte 2 =? 254)).
Definition IsRFC6598 : bool := IsIPv4 && (GetByte 3 =? 100) && (GetByte 2 >=? 64) && (GetByte 2 <=? 127).
Definition IsRFC5737 : bool :=
  IsIPv4 && (((GetByte 3 =? 192) && (GetByte 2 =? 0) && (GetByte 1 =? 2)) ||
             ((GetByte 3 =? 198) && (GetByte 2 =? 51) && (GetByte 1 =? 100)) ||
             ((GetByte 3 =? 203) && (GetByte 2 =? 0) && (GetByte 1 =? 113))).
Definition IsRFC3849 : bool := (GetByte 15 =? 0x20) && (GetByte 14 =? 0x01) && (GetByte 13 =? 0x0D) && (GetByte 12 =? 0xB8).
Definition IsRFC3964 : bool := (GetByte 15 =? 0x20) && (GetByte 14 =? 0x02).
Definition IsRFC6052 : bool := starts [0; 0x64; 0xFF; 0x9B; 0; 0; 0; 0; 0; 0; 0; 0] (ip a).
Definition IsRFC4380 : bool := (GetByte 15 =? 0x20) && (GetByte 14 =? 0x01) && (GetByte 13 =? 0) && (GetByte 12 =? 0).
Definition IsRFC4862 : bool := starts [0xFE; 0x80; 0; 0; 0; 0; 0; 0] (ip a).
Definition IsRFC4193 : bool := Z.land (GetByte 15) 0xFE =? 0xFC.
Definition IsRFC6145 : bool := starts [0; 0; 0; 0; 0; 0; 0; 0; 0xFF; 0xFF; 0; 0] (ip a).
Definition IsRFC4843 : bool :=
  (GetByte 15 =? 0x20) && (GetByte 14 =? 0x01) && (GetByte 13 =? 0x00) && (Z.land (GetByte 12) 0xF0 =? 0x10).

Definition IsLocal : bool :=
  if IsIPv4 && ((GetByte 3 =? 127) || (GetByte 3 =? 0)) then true
  else starts (replicate 15 0 ++ [1]) (ip a).

Definition IsMulticast : bool := (IsIPv4 && (Z.land (GetByte 3) 0xF0 =? 0xE0)) || (GetByte 15 =? 0xFF).

Definition IsValid : bool :=
  if starts (drop 3 pchIPv4) (ip a) then false
  else if starts (replicate 16 0) (ip a) then false
  else if IsRFC3849 then false
  else if IsIPv4 then
    if starts [0xFF; 0xFF; 0xFF; 0xFF] (drop 12 (ip a)) then false
    else if starts [0; 0; 0; 0] (drop 12 (ip a)) then false
    else true
  else true.

Definition IsRoutable : bool :=
  IsValid && negb (IsRFC1918 || IsRFC2544 || IsRFC3927 || IsRFC4862 || IsRFC6598 || IsRFC5737 ||
                   (IsRFC4193 && negb IsTor) || IsRFC4843 || IsLocal).

Definition GetNetwork : Network :=
  if negb IsRoutable then NET_UNROUTABLE
  else if IsIPv4 then NET_IPV4
  else if IsTor then NET_TOR
  else NET_IPV6.

(** The end of [GetGroup]: whole bytes, then the rest of the bits over ones. *)
Fixpoint group_bytes (n nStartByte : nat) : list Z :=
  match n with O => [] | S n => GetByte (15 - nStartByte) :: group_bytes n (S nStartByte) end.
Definition group_of (nClass : Z) (nStartByte nBits : nat) : list Z :=
  nClass :: group_bytes (nBits / 8) nStartByte ++
  (if (0 <? nBits mod 8)%nat
   then [Z.lor (GetByte (15 - (nStartByte + nBits / 8))) (Z.shiftl 1 (8 - Z.of_nat (nBits mod 8)) - 1)] else []).

Definition GetGroup : list Z :=
  let '(nClass, nStartByte, nBits) := (Network_value NET_IPV6, 0%nat, 16%nat) in
  let '(nClass, nBits) := if IsLocal then (255, 0%nat) else (nClass, nBits) in
  if negb IsRoutable then group_of (Network_value NET_UNROUTABLE) nStartByte 0
  else if IsIPv4 || IsRFC6145 || IsRFC6052 then group_of (Network_value NET_IPV4) 12 nBits
  else if IsRFC3964 then group_of (Network_value NET_IPV4) 2 nBits
  else if IsRFC4380 then [Network_value NET_IPV4; Z.lxor (GetByte 3) 0xFF; Z.lxor (GetByte 2) 0xFF]
  else if IsTor then group_of (Network_value NET_TOR) 6 4
  else if (GetByte 15 =? 0x20) && (GetByte 14 =? 0x01) && (GetByte 13 =? 0x04) && (GetByte 12 =? 0x70)
  then group_of nClass nStartByte 36
  else group_of nClass nStartByte 32.

(** [GetExtNetwork]: the private extensions of [Network] *)
Inductive ExtNetwork := Net (n : Network) | NET_UNKNOWN | NET_TEREDO.

End addr.

Definition GetExtNetwork (addr : option CNetAddr) : ExtNetwork :=
  match addr with
  | None => NET_UNKNOWN
  | Some a => if IsRFC4380 a then NET_TEREDO else Net (GetNetwork a)
  end.

Inductive Reachability :=
| REACH_UNREACHABLE | REACH_DEFAULT | REACH_TEREDO | REACH_IPV6_WEAK | REACH_IPV4 | REACH_IPV6_STRONG | REACH_PRIVATE.

Definition GetReachabilityFrom (a : CNetAddr) (paddrPartner : option CNetAddr) : Reachability :=
  if negb (IsRoutable a) then REACH_UNREACHABLE
  else
    let ourNet := GetExtNetwork (Some a) in
    let theirNet := GetExtNetwork paddrPartner in
    let fTunnel := IsRFC3964 a || IsRFC6052 a || IsRFC6145 a in
    match theirNet with
    | Net NET_IPV4 => match ourNet with Net NET_IPV4 => REACH_IPV4 | _ => REACH_DEFAULT end
    | Net NET_IPV6 =>
        match ourNet with
        | NET_TEREDO => REACH_TEREDO
        | Net NET_IPV4 => REACH_IPV4
        | Net NET_IPV6 => if fTunnel then REACH_IPV6_WEAK else REACH_IPV6_STRONG
        | _ => REACH_DEFAULT
        end
    | Net NET_TOR =>
        match ourNet with Net NET_IPV4 => REACH_IPV4 | Net NET_TOR => REACH_PRIVATE | _ => REACH_DEFAULT end
    | NET_TEREDO =>
        match ourNet with
        | NET_TEREDO => REACH_TEREDO
        | Net NET_IPV6 => REACH_IPV6_WEAK
        | Net NET_IPV4 => REACH_IPV4
        | _ => REACH_DEFAULT
        end
    | NET_UNKNOWN | Net NET_UNROUTABLE =>
        match ourNet with
        | NET_TEREDO => REACH_TEREDO
        | Net NET_IPV6 => REACH_IPV6_WEAK
        | Net NET_IPV4 => REACH_IPV4
        | Net NET_TOR => REACH_PRIVATE
        | _ => REACH_DEFAULT
        end
    end.

(** [ToStringIP] of an onion address; the other addresses are printed by
    [getnameinfo]. *)
Definition ToStringIP (getnameinfo : CNetAddr -> list Z) (a : CNetAddr) : option (list Z) :=
  if IsTor a then str ← EncodeBase32 (drop 6 (ip a)); Some (str ++ onion_suffix) else Some (getnameinfo a).

(** ** CService and CAddress *)

Record CService := { netaddr : CNetAddr; port : Z }.
#[global] Instance CService_dec : EqDecision CService.
Proof. solve_decision. Defined.

Definition GetKey (s : CService) : list Z := ip (netaddr s) ++ [port s / 0x100; Z.land (port s) 0x0FF].

Definition NODE_NETWORK : Z := Z.shiftl 1 0.
Record CAddress := { service : CService; nServices : Z; nTime : Z }.
#[global] Instance CAddress_dec : EqDecision CAddress.
Proof. solve_decision. Defined.
Definition CAddress_new (ipIn : CService) (nServicesIn : Z) : CAddress :=
  {| service := ipIn; nServices := nServicesIn; nTime := 100000000 |}.
Definition CAddress_default : CAddress :=
  {| service := {| netaddr := Init; port := 0 |}; nServices := NODE_NETWORK; nTime := 100000000 |}.

(** [port] goes through [htons]: two bytes, the high one first. *)
Definition port_codec : codec Z :=
  {| enc x := inr [x / 0x100; x mod 0x100]; dec := let! b := read 2 in rret (le_value (rev b)); valid x := 0 <= x < 2 ^ 16 |}.
Definition CNetAddr_codec : codec CNetAddr := iso_codec (fun l => {| ip := l |}) ip (blob_codec 16).
Definition CService_codec : codec CService :=
  iso_codec (fun '(a, p) => {| netaddr := a; port := p |}) (fun s => (netaddr s, port s)) (pair_codec CNetAddr_codec port_codec).

(** [CAddress::SerializationOp].  A stream is for the disk, for the network or for a
    hash; [nVersion] is written to the disk and what is read there is only used in a
    test that the disk decides. *)
Definition CADDR_TIME_VERSION : Z := 31402.
Definition CAddress_disk : codec (Z * CAddress) :=
  iso_codec (fun '(v, (t, (n, s))) => (v, {| service := s; nServices := n; nTime := t |}))
    (fun '(v, a) => (v, (nTime a, (nServices a, service a))))
    (pair_codec u32_codec (pair_codec u32_codec (pair_codec u64_codec CService_codec))).
Definition CAddress_net (nVersion : Z) : codec CAddress :=
  iso_codec (fun '(t, (n, s)) => {| service := s; nServices := n; nTime := t |}) (fun a => (nTime a, (nServices a, service a)))
    (pair_codec (when_codec (nVersion >=? CADDR_TIME_VERSION) u32_codec 100000000) (pair_codec u64_codec CService_codec)).

(** ** CSubNet *)

Section lookup.
(** What the system resolver gives for a name: [None] is an error.  Without
    [fAllowLookup] only numeric addresses are resolved. *)
Context (resolver : list Z -> bool -> option (list CNetAddr)).

Definition LookupIntern (pszName : list Z) (nMaxSolutions : nat) (fAllowLookup : bool) : option (list CNetAddr) :=
  match SetSpecial pszName with
  | Some addr => Some [addr]
  | None =>
      res ← resolver pszName fAllowLookup;
      let vIP := if (nMaxSolutions =? 0)%nat then res else take nMaxSolutions res in
      if bool_decide (vIP = []) then None else Some vIP
  end.

(** The text between brackets, when there are some *)
Definition unbracket (host : list Z) : list Z :=
  if bool_decide (head host = Some 91) && bool_decide (last host = Some 93) then take (length host - 2) (drop 1 host) else host.

Definition LookupHost (pszName : list Z) (nMaxSolutions : nat) (fAllowLookup : bool) : option (list CNetAddr) :=
  let strHost := c_str pszName in
  if bool_decide (strHost = []) then None else LookupIntern (unbracket strHost) nMaxSolutions fAllowLookup.

(** The position of the last [':'] *)
Definition last_of (c : Z) (str : list Z) : option nat := (fun '(i, _) => length str - 1 - i)%nat <$> list_find (fun x => x = c) (rev str).

(** [SplitHostPort]: the port, when there is one, and the host *)
Definition SplitHostPort (str : list Z) : option Z * list Z :=
  let port :=
    match last_of 58 str with
    | None => None
    | Some colon =>
        let fBracketed := bool_decide (head str = Some 91) && bool_decide (str !! (colon - 1)%nat = Some 93) in
        let fMultiColon := match last_of 58 (take colon str) with Some _ => true | None => false end in
        if (colon =? 0)%nat || fBracketed || negb fMultiColon then
          n ← ParseInt32 (drop (S colon) str); if (n >? 0) && (n <? 0x10000) then Some (n, take colon str) else None
        else None
    end in
  match port with
  | Some (n, host) => (Some n, unbracket host)
  | None => (None, unbracket str)
  end.

Definition Lookup (pszName : list Z) (portDefault : Z) (fAllowLookup : bool) (nMaxSolutions : nat) : option (list CService) :=
  let pszName := c_str pszName in
  if bool_decide (pszName = []) then None
  else
    let '(portOut, hostname) := SplitHostPort pszName in
    vIP ← LookupIntern (c_str hostname) nMaxSolutions fAllowLookup;
    Some (map (fun a => {| netaddr := a; port := u16 (default portDefault portOut) |}) vIP).

Definition LookupNumeric (pszName : list Z) (portDefault : Z) : option CService :=
  Lookup pszName portDefault false 1 ≫= head.

End lookup.

Record CSubNet := { network : CNetAddr; netmask : list Z; valid_net : bool }.

Definition CSubNet_default : CSubNet := {| network := Init; netmask := replicate 16 0; valid_net := false |}.

(** [for (; n < 128; ++n) netmask[n>>3] &= ~(1<<(7-(n&7)))] *)
Fixpoint clear_bits (k : nat) (n : Z) (mask : list Z) : list Z :=
  match k with
  | O => mask
  | S k =>
      let i := Z.to_nat (Z.shiftr n 3) in
      clear_bits k (n + 1) (<[i := Z.land (nth i mask 0) (u8 (Z.lnot (Z.shiftl 1 (7 - Z.land n 7))))]> mask)
  end.

Definition normalize (net : CNetAddr) (mask : list Z) : CNetAddr := {| ip := zip_with Z.land (ip net) mask |}.

Definition CSubNet_new (resolver : list Z -> bool -> option (list CNetAddr)) (strSubnet : list Z) (fAllowLookup : bool) : CSubNet :=
  let slash := last_of 47 strSubnet in
  let netmask := replicate 16 255 in
  let strAddress := match slash with Some i => take i strSubnet | None => strSubnet end in
  let '(net, mask, ok) :=
    match LookupHost resolver strAddress 1 fAllowLookup ≫= head with
    | Some net =>
        match slash with
        | Some i =>
            let strNetmask := drop (S i) strSubnet in
            let astartofs := if IsIPv4 net then 12%nat else 0%nat in
            match ParseInt32 strNetmask with
            | Some n =>
                if (n >=? 0) && (n <=? 128 - Z.of_nat astartofs * 8)
                then let n := n + Z.of_nat astartofs * 8 in (net, clear_bits (Z.to_nat (128 - n)) n netmask, true)
                else (net, netmask, false)
            | None =>
                match LookupHost resolver strNetmask 1 false ≫= head with
                | Some m => (net, take astartofs netmask ++ drop astartofs (ip m), true)
                | None => (net, netmask, false)
                end
            end
        | None => (net, netmask, true)
        end
    | None => (Init, netmask, false)
    end in
  {| network := normalize net mask; netmask := mask; valid_net := ok |}.

Definition Match (s : CSubNet) (addr : CNetAddr) : bool :=
  if negb (valid_net s) || negb (IsValid addr) then false
  else bool_decide (zip_with Z.land (ip addr) (netmask s) = ip (network s)).

(** ** Serialization *)

#[global] Instance port_codec_ok : CodecOk port_codec.
Proof.
  split; cbn [enc dec valid port_codec].
  - intros x Hx. eexists. split; [done|]. assert (is_u8 (x / 0x100) /\ is_u8 (x mod 0x100)) as [H1 H2].
    { unfold is_u8. split; [split; [apply Z.div_pos; lia|apply Z.div_lt_upper_bound; lia]|apply Z.mod_pos_bound; lia]. }
    split; [constructor; [done|constructor; [done|constructor]]|]. intros rest. unfold rbind, rret. rewrite read_app by done. do 2 f_equal. cbn [rev app le_value].
    rewrite (Z.div_mod x 0x100) at 3 by lia. lia.
  - intros s x rest Hs. unfold rbind, rret. destruct (read 2 s) as [|[b s']] eqn:E; [done|]. intros [= <- <-].
    apply (@enc_dec _ _ (blob_codec_ok 2 ltac:(lia))) in E as ([Hb Hl] & bs & [= <-] & ->); [|done].
    destruct b as [|h [|l [|]]]; cbn [length] in Hl; [lia|lia| |lia]. apply Forall_cons in Hb as [Hh Hb]. apply Forall_cons in Hb as [Hl' _].
    unfold is_u8 in *. cbn [rev app le_value]. split; [lia|]. eexists. split; [done|]. cbn [app].
    replace ((l + 256 * (h + 256 * 0)) / 256) with h by (apply (Z.div_unique _ _ _ l); lia).
    by replace ((l + 256 * (h + 256 * 0)) mod 256) with l by (apply (Z.mod_unique _ _ h); lia).
Qed.

#[global] Instance CNetAddr_codec_ok : CodecOk CNetAddr_codec.
Proof. apply iso_codec_ok; [apply blob_codec_ok; lia|done|by intros []]. Qed.

#[global] Instance CService_codec_ok : CodecOk CService_codec.
Proof. apply iso_codec_ok; [apply _|by intros []|by intros []]. Qed.

#[global] Instance CAddress_disk_ok : CodecOk CAddress_disk.
Proof. apply iso_codec_ok; [apply _|by intros (? & ? & ? & ?)|by intros (? & [])]. Qed.

#[global] Instance CAddress_net_ok v : CodecOk (CAddress_net v).
Proof. apply iso_codec_ok; [apply _|by intros (? & ? & ?)|by intros []]. Qed.

(** ** Onion names *)

Lemma starts_app pch l : starts pch l = true -> l = pch ++ drop (length pch) l.
Proof. unfold starts. rewrite bool_decide_eq_true. intros E. by rewrite <- E at 1; rewrite take_drop. Qed.

Lemma onion_roundtrip gni a : CNetAddr_ok a -> IsTor a = true -> exists str, ToStringIP gni a = Some str /\ SetSpecial str = Some a.
Proof.
  intros [Hb Hl] Ht. unfold ToStringIP. rewrite Ht. destruct (base32_roundtrip (drop 6 (ip a))) as (str & E & D); [by apply Forall_drop|].
  rewrite E. cbn [mbind option_bind]. eexists. split; [done|]. unfold SetSpecial.
  assert (length (str ++ onion_suffix) = (length str + 6)%nat) as El by (rewrite length_app; done). rewrite El, Nat.add_sub.
  destruct str as [|c str]; [exfalso; assert (drop 6 (ip a) = []) as E0; [cbn in D; by injection D|apply (f_equal length) in E0; rewrite length_drop in E0; simpl in E0; lia]|].
  rewrite (proj2 (Nat.ltb_lt _ _)) by (simpl; lia). rewrite take_app_length, drop_app_length, bool_decide_true by done. cbn [andb].
  rewrite D, length_drop, Hl. cbn [Nat.eqb negb]. f_equal. destruct a as [l]. f_equal. symmetry. exact (starts_app pchOnionCat l Ht).
Qed.

(** ** Groups *)

Lemma lor_low x y k : 0 <= k -> Z.lor x (Z.shiftl 1 k - 1) = Z.lor y (Z.shiftl 1 k - 1) <-> Z.shiftr x k = Z.shiftr y k.
Proof.
  intros Hk. rewrite Z.shiftl_1_l. replace (2 ^ k - 1) with (Z.ones k) by (rewrite Z.ones_equiv; lia). split; intros E.
  - apply Z.bits_inj'. intros n Hn. rewrite !Z.shiftr_spec by lia. apply (f_equal (fun z => Z.testbit z (n + k))) in E.
    rewrite !Z.lor_spec, Z.ones_spec_high, !orb_false_r in E by lia. done.
  - apply Z.bits_inj'. intros n Hn. rewrite !Z.lor_spec. destruct (decide (n < k)).
    + rewrite Z.ones_spec_low by lia. by rewrite !orb_true_r.
    + apply (f_equal (fun z => Z.testbit z (n - k))) in E. rewrite !Z.shiftr_spec in E by lia. by replace (n - k + k) with n in E by lia; rewrite E.
Qed.
Lemma ok_bytes a : CNetAddr_ok a -> exists b0 b1 b2 b3 b4 b5 b6 b7 b8 b9 b10 b11 b12 b13 b14 b15,
  ip a = [b0; b1; b2; b3; b4; b5; b6; b7; b8; b9; b10; b11; b12; b13; b14; b15].
Proof.
  intros [_ Hl]. destruct (ip a) as [|? [|? [|? [|? [|? [|? [|? [|? [|? [|? [|? [|? [|? [|? [|? [|? [|]]]]]]]]]]]]]]]]]; try discriminate Hl.
  by do 16 eexists.
Qed.

Lemma byte_high x i : 0 <= x < 2 ^ 8 -> 8 <= i -> Z.testbit x i = false.
Proof. intros Hx Hi. rewrite <- (Z.mod_small x (2 ^ 8)) by lia. apply Z.mod_pow2_bits_high. lia. Qed.

Lemma byte_range x n : 0 <= x -> 0 <= n -> (forall i, n <= i -> Z.testbit x i = false) -> 0 <= x < 2 ^ n.
Proof.
  intros H0 Hn Hb. assert (x = x mod 2 ^ n) as ->; [|apply Z.mod_pos_bound, Z.pow_pos_nonneg; lia].
  apply Z.bits_inj'. intros i Hi. destruct (decide (i < n)); [by rewrite Z.mod_pow2_bits_low by lia|rewrite Z.mod_pow2_bits_high, Hb by lia; done].
Qed.

(** The IPv4 address that an address carries: mapped, translated, behind the
    well-known prefix, in a 6to4 prefix, or inverted at the end of a Teredo address *)
Definition carried_ipv4 (a : CNetAddr) : option (list Z) :=
  if IsIPv4 a || IsRFC6145 a || IsRFC6052 a then Some (drop 12 (ip a))
  else if IsRFC3964 a then Some (take 4 (drop 2 (ip a)))
  else if IsRFC4380 a then Some ((fun b => Z.lxor b 0xFF) <$> drop 12 (ip a))
  else None.

(** 2001:470::/32 *)
Definition he_net (a : CNetAddr) : bool := bool_decide (take 4 (ip a) = [0x20; 0x01; 0x04; 0x70]).

Lemma he_net_bytes a : CNetAddr_ok a -> (GetByte a 15 =? 0x20) && (GetByte a 14 =? 0x01) && (GetByte a 13 =? 0x04) && (GetByte a 12 =? 0x70) = he_net a.
Proof.
  intros Ha. destruct (ok_bytes a Ha) as (b0 & b1 & b2 & b3 & b4 & b5 & b6 & b7 & b8 & b9 & b10 & b11 & b12 & b13 & b14 & b15 & E).
  unfold he_net, GetByte. rewrite E. cbn [nth Nat.sub take]. apply eq_true_iff_eq. rewrite !andb_true_iff, !Z.eqb_eq, bool_decide_eq_true.
  split; [intros [[[E0 E1] E2] E3]; by rewrite E0, E1, E2, E3|intros E'; by injection E' as -> -> -> ->].
Qed.

Lemma routable_not_local a : IsRoutable a = true -> IsLocal a = false.
Proof. unfold IsRoutable. rewrite andb_true_iff, negb_true_iff, !orb_false_iff. tauto. Qed.

Lemma GetGroup_routable a : CNetAddr_ok a -> IsRoutable a = true ->
  GetGroup a = match carried_ipv4 a with
               | Some v => 1 :: take 2 v
               | None => if IsTor a then [3; Z.lor (GetByte a 9) (Z.shiftl 1 4 - 1)]
                         else 2 :: take 4 (ip a) ++ (if he_net a then [Z.lor (GetByte a 11) (Z.shiftl 1 4 - 1)] else [])
               end.
Proof.
  intros Ha Hr. unfold GetGroup. rewrite (routable_not_local a Hr), Hr, (he_net_bytes a Ha). cbn [negb].
  destruct (ok_bytes a Ha) as (b0 & b1 & b2 & b3 & b4 & b5 & b6 & b7 & b8 & b9 & b10 & b11 & b12 & b13 & b14 & b15 & E).
  unfold carried_ipv4. destruct (IsIPv4 a || IsRFC6145 a || IsRFC6052 a).
  { unfold group_of, GetByte. cbn [group_bytes Nat.div Nat.divmod fst]. unfold GetByte. rewrite E. reflexivity. }
  destruct (IsRFC3964 a). { unfold group_of. cbn [group_bytes Nat.div Nat.divmod fst]. unfold GetByte. rewrite E. reflexivity. }
  destruct (IsRFC4380 a). { unfold GetByte. rewrite E. done. }
  destruct (IsTor a). { unfold group_of. cbn [group_bytes Nat.div Nat.divmod fst]. unfold GetByte. rewrite E. reflexivity. }
  destruct (he_net a); unfold group_of; cbn [group_bytes Nat.div Nat.divmod fst]; unfold GetByte; rewrite E; reflexivity.
Qed.

(** Two routable addresses are in the same group when they carry IPv4 addresses with
    the same two first bytes, or are onion addresses whose keys agree on four bits, or
    are IPv6 addresses of the same /32, of the same /36 at he.net. *)
Definition same_group (a b : CNetAddr) : Prop :=
  match carried_ipv4 a, carried_ipv4 b with
  | Some v, Some w => take 2 v = take 2 w
  | None, None =>
      IsTor a = IsTor b /\
      if IsTor a then Z.shiftr (GetByte a 9) 4 = Z.shiftr (GetByte b 9) 4
      else take 4 (ip a) = take 4 (ip b) /\ (he_net a = true -> Z.shiftr (GetByte a 11) 4 = Z.shiftr (GetByte b 11) 4)
  | _, _ => False
  end.

Lemma GetGroup_same a b : CNetAddr_ok a -> CNetAddr_ok b -> IsRoutable a = true -> IsRoutable b = true ->
  GetGroup a = GetGroup b <-> same_group a b.
Proof.
  intros Ha Hb Hra Hrb. rewrite (GetGroup_routable a), (GetGroup_routable b) by done. unfold same_group.
  destruct (carried_ipv4 a) as [v|], (carried_ipv4 b) as [w|].
  - split; [by intros [= ->]|by intros ->].
  - destruct (IsTor b); done.
  - destruct (IsTor a); done.
  - destruct (IsTor a) eqn:Ta, (IsTor b) eqn:Tb; [|split; [done|by intros []]|split; [done|by intros []]|].
    + rewrite <- (lor_low _ _ 4) by lia. split; [intros [= E]; done|intros [_ E]; by rewrite E].
    + assert (length (take 4 (ip a)) = 4%nat /\ length (take 4 (ip b)) = 4%nat) as [La Lb] by (rewrite !length_take; destruct Ha, Hb; lia).
      rewrite <- (lor_low _ _ 4) by lia. split.
      * intros E. injection E as E. apply app_inj_1 in E as [E1 E2]; [|lia]. split; [done|]. split; [done|]. intros Hh. rewrite Hh in E2.
        unfold he_net in *. rewrite <- E1, Hh in E2. by injection E2.
      * intros (_ & E1 & E2). rewrite E1. unfold he_net in *. rewrite E1 in *. destruct (bool_decide _); [by rewrite E2|done].
Qed.

Lemma GetGroup_unroutable a : IsRoutable a = false -> GetGroup a = [0].
Proof. intros H. unfold GetGroup. rewrite H. by destruct (IsLocal a). Qed.

Lemma GetGroup_bytes a : CNetAddr_ok a -> is_bytes (GetGroup a) /\ (1 <= length (GetGroup a) <= 6)%nat /\ (GetGroup a = [0] <-> IsRoutable a = false).
Proof.
  intros Ha. destruct (IsRoutable a) eqn:Hr.
  2: { rewrite (GetGroup_unroutable a Hr). split; [by repeat constructor; unfold is_u8|]. split; [simpl; lia|done]. }
  rewrite (GetGroup_routable a Ha Hr). pose proof Ha as [Hb Hl].
  assert (forall n, is_u8 (GetByte a n)) as Hby.
  { intros n. unfold GetByte. destruct (nth_in_or_default (15 - n) (ip a) 0) as [Hin| ->]; [|by unfold is_u8].
    unfold is_bytes in Hb. rewrite Forall_forall in Hb. apply Hb. by apply list_elem_of_In. }
  assert (forall n, is_u8 (Z.lor (GetByte a n) (Z.shiftl 1 4 - 1))) as Hlor.
  { intros n. change (Z.shiftl 1 4 - 1) with 15. specialize (Hby n). unfold is_u8 in *.
    apply byte_range; [apply Z.lor_nonneg; lia|lia|]. intros i Hi. rewrite Z.lor_spec, !byte_high by lia. done. }
  destruct (carried_ipv4 a) as [v|] eqn:Ev; [|destruct (IsTor a)].
  - assert (is_bytes v /\ length v = 4%nat) as [Hv Lv].
    { revert Ev. unfold carried_ipv4. destruct (_ || _); [intros [= <-]; split; [by apply Forall_drop|rewrite length_drop; lia]|].
      destruct (IsRFC3964 a); [intros [= <-]; split; [by apply Forall_take, Forall_drop|rewrite length_take, length_drop; lia]|].
      destruct (IsRFC4380 a); [|done]. intros [= <-]. split; [|rewrite length_fmap, length_drop; lia].
      apply Forall_fmap, Forall_drop. eapply Forall_impl; [exact Hb|]. intros x Hx. unfold is_u8, compose in *.
      apply byte_range; [apply Z.lxor_nonneg; split; lia|lia|]. intros i Hi. rewrite Z.lxor_spec, !byte_high by lia. done. }
    split; [constructor; [by unfold is_u8|by apply Forall_take]|]. cbn [length]. rewrite length_take. split; [lia|split; [done|done]].
  - split; [constructor; [by unfold is_u8|constructor; [done|constructor]]|]. split; [simpl; lia|split; done].
  - split; [constructor; [by unfold is_u8|apply Forall_app; split; [by apply Forall_take|destruct (he_net a); [constructor; [done|constructor]|constructor]]]|].
    cbn [length]. rewrite length_app, length_take. split; [rewrite Hl; destruct (he_net a); cbn [length Nat.min]; lia|split; done].
Qed.

(** ** Subnets *)

(** The bits of an address, the first one of the first byte first *)
Definition addr_bit (l : list Z) (i : Z) : bool := Z.testbit (nth (Z.to_nat (i / 8)) l 0) (7 - i mod 8).

Lemma nth_bytes l j : is_bytes l -> is_u8 (nth j l 0).
Proof.
  intros Hb. destruct (nth_in_or_default j l 0) as [Hin| ->]; [|by unfold is_u8].
  unfold is_bytes in Hb. rewrite Forall_forall in Hb. apply Hb. by apply list_elem_of_In.
Qed.

Lemma bits_eq l k : is_bytes l -> is_bytes k -> length l = 16%nat -> length k = 16%nat ->
  l = k <-> forall i, 0 <= i < 128 -> addr_bit l i = addr_bit k i.
Proof.
  intros Hl Hk Ll Lk. split; [by intros ->|]. intros H. apply (nth_ext _ _ 0 0); [congruence|]. intros j Hj.
  pose proof (nth_bytes l j Hl) as B1. pose proof (nth_bytes k j Hk) as B2. unfold is_u8 in *.
  apply Z.bits_inj'. intros n Hn. destruct (decide (n < 8)); [|by rewrite !byte_high by lia].
  specialize (H (8 * Z.of_nat j + (7 - n)) ltac:(lia)). unfold addr_bit in H.
  replace ((8 * Z.of_nat j + (7 - n)) / 8) with (Z.of_nat j) in H by (apply (Z.div_unique _ _ _ (7 - n)); lia).
  replace ((8 * Z.of_nat j + (7 - n)) mod 8) with (7 - n) in H by (apply (Z.mod_unique _ _ (Z.of_nat j)); lia).
  by replace (7 - (7 - n)) with n in H by lia; rewrite Nat2Z.id in H.
Qed.

Lemma zip_land_bit l m i : length l = 16%nat -> length m = 16%nat -> 0 <= i < 128 ->
  addr_bit (zip_with Z.land l m) i = addr_bit l i && addr_bit m i.
Proof.
  intros Hl Hm Hi. unfold addr_bit. assert (Z.to_nat (i / 8) < 16)%nat as Hj by (pose proof (Z.div_lt_upper_bound i 8 16 ltac:(lia) ltac:(lia)); pose proof (Z.div_pos i 8 ltac:(lia) ltac:(lia)); lia).
  set (j := Z.to_nat (i / 8)) in *. destruct (lookup_lt_is_Some_2 l j ltac:(lia)) as [x Hx]. destruct (lookup_lt_is_Some_2 m j ltac:(lia)) as [y Hy].
  assert (zip_with Z.land l m !! j = Some (Z.land x y)) as Hz by (by rewrite lookup_zip_with, Hx, Hy).
  rewrite (nth_lookup_Some _ _ _ _ Hx), (nth_lookup_Some _ _ _ _ Hy), (nth_lookup_Some _ _ _ _ Hz). apply Z.land_spec.
Qed.

Lemma zip_land_bytes l m : is_bytes l -> is_bytes m -> is_bytes (zip_with Z.land l m).
Proof.
  intros Hl. revert m. induction Hl as [|x l Hx Hl IH]; intros m Hm; [constructor|]. destruct Hm as [|y m Hy Hm]; [constructor|].
  cbn [zip_with]. constructor; [|by apply IH]. unfold is_u8 in *. apply byte_range; [apply Z.land_nonneg; lia|lia|].
  intros i Hi. by rewrite Z.land_spec, byte_high by lia.
Qed.

Lemma clear_step_bit mask n i : length mask = 16%nat -> 0 <= n < 128 -> 0 <= i < 128 ->
  addr_bit (<[Z.to_nat (Z.shiftr n 3) := Z.land (nth (Z.to_nat (Z.shiftr n 3)) mask 0) (u8 (Z.lnot (Z.shiftl 1 (7 - Z.land n 7))))]> mask) i =
  addr_bit mask i && negb (i =? n).
Proof.
  intros Hl Hn Hi. rewrite Z.shiftr_div_pow2 by lia. change (2 ^ 3) with 8. change 7 with (Z.ones 3) at 2. rewrite Z.land_ones by lia. change (2 ^ 3) with 8.
  pose proof (Z.div_lt_upper_bound n 8 16 ltac:(lia) ltac:(lia)). pose proof (Z.div_pos n 8 ltac:(lia) ltac:(lia)).
  pose proof (Z.div_pos i 8 ltac:(lia) ltac:(lia)). pose proof (Z.mod_pos_bound n 8 ltac:(lia)). pose proof (Z.mod_pos_bound i 8 ltac:(lia)).
  pose proof (Z.div_mod n 8 ltac:(lia)). pose proof (Z.div_mod i 8 ltac:(lia)).
  unfold addr_bit. destruct (decide (i / 8 = n / 8)) as [E|Hne].
  - rewrite E. erewrite (nth_lookup_Some (<[_ := _]> mask)) by (apply list_lookup_insert_eq; lia).
    rewrite Z.land_spec. f_equal. unfold u8. rewrite Z.mod_pow2_bits_low, Z.lnot_spec, Z.shiftl_1_l by lia. f_equal.
    rewrite Z.pow2_bits_eqb by lia. apply eq_true_iff_eq. rewrite !Z.eqb_eq. lia.
  - rewrite (proj2 (Z.eqb_neq i n)) by (intros ->; done). rewrite andb_true_r. f_equal. rewrite !nth_lookup. by rewrite list_lookup_insert_ne by lia.
Qed.

Lemma clear_bits_ok k : forall n mask, 0 <= n -> n + Z.of_nat k = 128 -> is_bytes mask -> length mask = 16%nat ->
  is_bytes (clear_bits k n mask) /\ length (clear_bits k n mask) = 16%nat /\
  forall i, 0 <= i < 128 -> addr_bit (clear_bits k n mask) i = addr_bit mask i && (i <? n).
Proof.
  induction k as [|k IH]; intros n mask Hn Hk Hb Hl.
  { split_and!; [done|done|]. intros i Hi. rewrite (proj2 (Z.ltb_lt _ _)) by lia. by rewrite andb_true_r. }
  cbn [clear_bits]. set (mask' := <[_ := _]> mask). destruct (IH (n + 1) mask') as (H1 & H2 & H3); [lia|lia| |by unfold mask'; rewrite length_insert|].
  { apply Forall_insert; [done|]. pose proof (nth_bytes mask (Z.to_nat (Z.shiftr n 3)) Hb) as Hx. unfold is_u8 in *.
    apply byte_range; [apply Z.land_nonneg; lia|lia|]. intros i Hi. by rewrite Z.land_spec, byte_high by lia. }
  split_and!; [done|done|]. intros i Hi. rewrite H3 by done. unfold mask'. rewrite clear_step_bit by lia. rewrite <- andb_assoc. f_equal.
  apply eq_true_iff_eq. rewrite andb_true_iff, negb_true_iff, Z.eqb_neq, !Z.ltb_lt. lia.
Qed.

Lemma ones_bit i : 0 <= i < 128 -> addr_bit (replicate 16 255) i = true.
Proof.
  intros Hi. unfold addr_bit. pose proof (Z.div_lt_upper_bound i 8 16 ltac:(lia) ltac:(lia)). pose proof (Z.div_pos i 8 ltac:(lia) ltac:(lia)). pose proof (Z.mod_pos_bound i 8 ltac:(lia)).
  rewrite nth_lookup, lookup_replicate_2 by lia. cbn [from_option id]. change 255 with (Z.ones 8). by rewrite Z.ones_spec_low by lia.
Qed.

Lemma Match_bits net mask a : CNetAddr_ok net -> CNetAddr_ok a -> is_bytes mask -> length mask = 16%nat ->
  Match {| network := normalize net mask; netmask := mask; valid_net := true |} a = true <->
  IsValid a = true /\ forall i, 0 <= i < 128 -> addr_bit mask i = true -> addr_bit (ip a) i = addr_bit (ip net) i.
Proof.
  intros [Hn Ln] [Ha La] Hm Lm. unfold Match, normalize. cbn [network netmask valid_net ip negb orb].
  destruct (IsValid a); cbn [negb]; [|split; [done|by intros []]]. rewrite bool_decide_eq_true.
  rewrite bits_eq by (try apply zip_land_bytes; try rewrite length_zip_with; done || lia). split.
  - intros H. split; [done|]. intros i Hi Hmi. specialize (H i Hi). rewrite !zip_land_bit, Hmi, !andb_true_r in H by done. done.
  - intros [_ H] i Hi. rewrite !zip_land_bit by done. specialize (H i Hi). destruct (addr_bit mask i); [by rewrite H|by rewrite !andb_false_r].
Qed.

Lemma last_of_app c l m : c ∉ m -> last_of c (l ++ [c] ++ m) = Some (length l).
Proof.
  intros Hm. unfold last_of. rewrite !rev_app_distr. cbn [rev app]. rewrite <- app_assoc. cbn [app].
  assert (list_find (fun x => x = c) (rev m ++ c :: rev l) = Some (length m, c)) as ->; [|cbn; f_equal; rewrite !length_app; simpl; lia].
  apply list_find_Some. split_and!; [|done|].
  - rewrite lookup_app_r by (rewrite length_rev; lia). by rewrite length_rev, Nat.sub_diag.
  - intros j y Hy Hj ->. rewrite lookup_app_l in Hy by (rewrite length_rev; lia). apply Hm. apply list_elem_of_In, in_rev, list_elem_of_In. by eapply list_elem_of_lookup_2.
Qed.

(** C37: a subnet written with a prefix length matches the addresses of the prefix.
    For [address/n], where the text after the last slash parses as the number [n] and
    the text before resolves to an address: the subnet is valid exactly when [n] is at
    most 32 for an IPv4 address and at most 128 otherwise, an invalid subnet matches
    nothing, and a valid one matches an address exactly when the address is valid and
    agrees with the base address on the first [n] bits, counted from the start of the
    IPv4 part for IPv4. *)
Theorem subnet_matches_prefix resolver strAddress strNetmask fAllowLookup net n a :
  47 ∉ strNetmask -> head <$> LookupHost resolver strAddress 1 fAllowLookup = Some (Some net) -> ParseInt32 strNetmask = Some n ->
  CNetAddr_ok net -> CNetAddr_ok a ->
  let s := CSubNet_new resolver (strAddress ++ [47] ++ strNetmask) fAllowLookup in
  (valid_net s = true <-> 0 <= n <= (if IsIPv4 net then 32 else 128)) /\
  (Match s a = true <-> valid_net s = true /\ IsValid a = true /\
    forall i, 0 <= i < n + (if IsIPv4 net then 96 else 0) -> addr_bit (ip a) i = addr_bit (ip net) i).
Proof.
  intros Hslash Hlook Hparse Hnet Ha. unfold CSubNet_new. rewrite last_of_app by done.
  rewrite take_app_length. cbn zeta.
  assert (LookupHost resolver strAddress 1 fAllowLookup ≫= head = Some net) as -> by (destruct (LookupHost _ _ _ _) as [v|]; [by injection Hlook|done]). cbn iota.
  rewrite drop_app_ge by lia. replace (S (length strAddress) - length strAddress)%nat with 1%nat by lia. change (drop 1 ([47] ++ strNetmask)) with strNetmask. rewrite Hparse. cbn iota.
  set (ofs := if IsIPv4 net then 12%nat else 0%nat).
  assert ((if IsIPv4 net then 32 else 128) = 128 - Z.of_nat ofs * 8 /\ (if IsIPv4 net then 96 else 0) = Z.of_nat ofs * 8) as [-> ->] by (unfold ofs; destruct (IsIPv4 net); lia).
  destruct ((n >=? 0) && (n <=? 128 - Z.of_nat ofs * 8)) eqn:Hc; cbn iota beta zeta; cbn [valid_net].
  - rewrite andb_true_iff, Z.geb_leb, !Z.leb_le in Hc. split; [split; [lia|done]|].
    destruct (clear_bits_ok (Z.to_nat (128 - (n + Z.of_nat ofs * 8))) (n + Z.of_nat ofs * 8) (replicate 16 255)) as (M1 & M2 & M3); [lia|lia| |done|].
    { by apply Forall_replicate. }
    rewrite Match_bits by done. split; intros H.
    + split; [done|]. destruct H as [H1 H2]. split; [done|]. intros i Hi. apply H2; [lia|]. rewrite M3, ones_bit by lia. apply Z.ltb_lt. lia.
    + destruct H as (_ & H1 & H2). split; [done|]. intros i Hi. rewrite M3, ones_bit by lia. intros Hlt%Z.ltb_lt. apply H2. lia.
  - rewrite andb_false_iff, Z.geb_leb, !Z.leb_gt in Hc. split; [split; [done|lia]|]. split; [done|by intros []].
Qed.

(** 10.1.0.0/16 *)
Lemma subnet_matches_prefix_witness :
  let net := {| ip := pchIPv4 ++ [10; 1; 2; 3] |} in
  let s := CSubNet_new (fun _ _ => Some [net]) (chars "10.1.2.3/16") false in
  Match s {| ip := pchIPv4 ++ [10; 1; 200; 7] |} = true /\ Match s {| ip := pchIPv4 ++ [10; 2; 2; 3] |} = false /\
  (valid_net s = true <-> 0 <= 16 <= 32).
Proof.
  set (net := {| ip := pchIPv4 ++ [10; 1; 2; 3] |}). intros s. split; [vm_compute; reflexivity|]. split; [vm_compute; reflexivity|].
  refine (proj1 (subnet_matches_prefix (fun _ _ => Some [net]) (chars "10.1.2.3") (chars "16") false net 16 net _ _ _ _ _));
    [apply (bool_decide_unpack _); vm_compute; exact I|vm_compute; reflexivity|vm_compute; reflexivity
    |split; [apply (bool_decide_unpack _); vm_compute; exact I|reflexivity]|split; [apply (bool_decide_unpack _); vm_compute; exact I|reflexivity]].
Defined.

(** What a group of addresses is.  The group of an address has one to six bytes and
    is the single byte 0 exactly for the addresses that are not routable, local ones
    included.  Two routable addresses are in the same group exactly when both carry an
    IPv4 address (mapped, translated, behind 64:ff9b::/96, in a 6to4 prefix, or inverted
    in a Teredo address) and these agree on their first two bytes, or both are onion
    addresses whose keys agree on the first four bits, or both are other IPv6 addresses
    of one /32, and of one /36 within 2001:470::/32.  So an attacker with one IPv4 /16
    stays in one group whatever tunnel he uses. *)
Lemma address_groups a b : CNetAddr_ok a -> CNetAddr_ok b ->
  is_bytes (GetGroup a) /\ (1 <= length (GetGroup a) <= 6)%nat /\ (GetGroup a = [0] <-> IsRoutable a = false) /\
  (IsLocal a = true -> GetGroup a = [0]) /\
  (IsRoutable a = true -> IsRoutable b = true -> (GetGroup a = GetGroup b <-> same_group a b)).
Proof.
  intros Ha Hb. destruct (GetGroup_bytes a Ha) as (H1 & H2 & H3). split_and!; try done; try apply H2; try apply H3.
  - intros Hl. apply H3. destruct (IsRoutable a) eqn:Hr; [|done]. apply routable_not_local in Hr. congruence.
  - intros Hra Hrb. by apply GetGroup_same.
Qed.

(** 1.2.3.4 and 2002:102:506:: (6to4 of 1.2.5.6) *)
Lemma address_groups_witness :
  let a := {| ip := pchIPv4 ++ [1; 2; 3; 4] |} in let b := {| ip := [0x20; 0x02; 1; 2; 5; 6] ++ replicate 10 0 |} in
  GetGroup a = [1; 1; 2] /\ (GetGroup a = GetGroup b <-> same_group a b).
Proof.
  intros a b. split; [vm_compute; reflexivity|].
  refine (proj2 (proj2 (proj2 (proj2 (address_groups a b _ _)))) _ _);
    [split; [apply (bool_decide_unpack _); vm_compute; exact I|reflexivity]|split; [apply (bool_decide_unpack _); vm_compute; exact I|reflexivity]|vm_compute; reflexivity|vm_compute; reflexivity].
Defined.

End NetAddr.
