(* ===== verification/TimeData.v ===== *)
(** * Network-adjusted time (src/timedata.{h,cpp})

    The median filter over the clock offsets that peers report and the offset that is
    added to the local clock.  The function's static variables are a record. *)

From stdpp Require Import base list list_numbers numbers option gmap sorting.
From Stdlib Require Import ZArith Lia.
From S2P Require Import Prelude NetAddr.
Import NetAddr.
#[local] Open Scope Z_scope.

Module TimeData.

Record CMedianFilter := { vValues : list Z; vSorted : list Z; nSize : nat }.

Definition CMedianFilter_new (size : nat) (initial_value : Z) : CMedianFilter :=
  {| vValues := [initial_value]; vSorted := [initial_value]; nSize := size |}.

(** [std::sort] *)
Definition sort (l : list Z) : list Z := merge_sort Z.le l.

Definition input (f : CMedianFilter) (value : Z) : CMedianFilter :=
  let vs := if (length (vValues f) =? nSize f)%nat then drop 1 (vValues f) else vValues f in
  let vs := vs ++ [value] in
  {| vValues := vs; vSorted := sort vs; nSize := nSize f |}.

(** [median]: [None] is the assertion on the size. *)
Definition median (f : CMedianFilter) : option Z :=
  let size := length (vSorted f) in
  if (size =? 0)%nat then None
  else if Nat.odd size then vSorted f !! (size / 2)%nat
  else a ← vSorted f !! (size / 2 - 1)%nat; b ← vSorted f !! (size / 2)%nat; Some (Z.quot (s64 (a + b)) 2).

(** [abs64]: the negation wraps around for the least value. *)
Definition abs64 (n : Z) : Z := if n >=? 0 then n else s64 (- n).

Definition MAX_SAMPLES : nat := 200.

Record timedata := {
  setKnown : gset CNetAddr;
  vTimeOffsets : CMedianFilter;
  nTimeOffset : Z;
  fDone : bool   (* the user was warned *)
}.
Definition initial : timedata :=
  {| setKnown := ∅; vTimeOffsets := CMedianFilter_new MAX_SAMPLES 0; nTimeOffset := 0; fDone := false |}.

Definition GetAdjustedTime (now : Z) (t : timedata) : Z := s64 (now + nTimeOffset t).

Definition AddTimeData (ip : CNetAddr) (nOffsetSample : Z) (t : timedata) : option timedata :=
  if (size (setKnown t) =? MAX_SAMPLES)%nat then Some t
  else if bool_decide (ip ∈ setKnown t) then Some t
  else
    let known := {[ip]} ∪ setKnown t in
    let vTimeOffsets := input (vTimeOffsets t) nOffsetSample in
    let n := length (vValues vTimeOffsets) in
    if (5 <=? n)%nat && (n mod 2 =? 1)%nat then
      nMedian ← median vTimeOffsets;
      if abs64 nMedian <=? 60 then
        Some {| setKnown := known; vTimeOffsets := vTimeOffsets; nTimeOffset := nMedian; fDone := fDone t |}
      else
        let fMatch := existsb (fun nOffset => negb (nOffset =? 0) && (abs64 nOffset <? 5 * 60)) (vSorted vTimeOffsets) in
        Some {| setKnown := known; vTimeOffsets := vTimeOffsets; nTimeOffset := 0; fDone := fDone t || negb fMatch |}
    else Some {| setKnown := known; vTimeOffsets := vTimeOffsets; nTimeOffset := nTimeOffset t; fDone := fDone t |}.

(** ** A history of reports *)

Definition AddAll (reports : list (CNetAddr * Z)) (t : timedata) : option timedata :=
  foldl (fun o '(ip, s) => o ≫= AddTimeData ip s) (Some t) reports.

(** The samples that are taken: those of the first 200 addresses, once each *)
Fixpoint accepted (known : gset CNetAddr) (reports : list (CNetAddr * Z)) : list Z :=
  match reports with
  | [] => []
  | (ip, s) :: reports =>
      if (size known =? MAX_SAMPLES)%nat || bool_decide (ip ∈ known) then accepted known reports
      else s :: accepted ({[ip]} ∪ known) reports
  end.

(** The filter holds the last 200 of the initial value and the samples. *)
Definition timedata_ok (samples : list Z) (t : timedata) : Prop :=
  vValues (vTimeOffsets t) = drop (length samples - 199) (0 :: samples) /\ nSize (vTimeOffsets t) = MAX_SAMPLES /\
  length samples = size (setKnown t) /\ (length samples <= 200)%nat.

(** More than half of the values are in the interval. *)
Definition in_range (lo hi x : Z) : bool := (lo <=? x) && (x <=? hi).
Definition majority (lo hi : Z) (l : list Z) : Prop := (length l < 2 * length (List.filter (in_range lo hi) l))%nat.

Lemma sort_facts l : Permutation (sort l) l /\ StronglySorted Z.le (sort l) /\ length (sort l) = length l.
Proof.
  unfold sort. assert (Permutation (merge_sort Z.le l) l) as Hp by apply merge_sort_Permutation.
  split; [done|]. split; [apply (StronglySorted_merge_sort Z.le)|by rewrite Hp].
Qed.

Lemma filter_perm {A} (f : A -> bool) l k : Permutation l k -> length (List.filter f l) = length (List.filter f k).
Proof. induction 1 as [|x l k _ IH|x y l|l k m _ IH1 _ IH2]; simpl; [done|destruct (f x); simpl; lia|destruct (f x), (f y); simpl; lia|lia]. Qed.

Lemma filter_none {A} (f : A -> bool) l : Forall (fun x => f x = false) l -> List.filter f l = [].
Proof. induction 1 as [|x l Hx _ IH]; simpl; [done|]. by rewrite Hx. Qed.

Lemma filter_le {A} (f : A -> bool) l : (length (List.filter f l) <= length l)%nat.
Proof. induction l as [|x l IH]; simpl; [lia|]. destruct (f x); simpl; lia. Qed.

Lemma input_values samples t s : timedata_ok samples t -> (length samples < 200)%nat ->
  vValues (input (vTimeOffsets t) s) = drop (length (samples ++ [s]) - 199) (0 :: samples ++ [s]).
Proof.
  intros (Hv & Hn & _ & _) Hl. unfold input. cbn [vValues]. rewrite Hv, Hn, length_drop. cbn [length]. rewrite length_app. cbn [length]. unfold MAX_SAMPLES.
  destruct (Nat.eqb_spec (S (length samples) - (length samples - 199)) 200) as [E|Hne].
  - replace (length samples - 199)%nat with 0%nat by lia. rewrite drop_0. replace (length samples + 1 - 199)%nat with 1%nat by lia. done.
  - replace (length samples - 199)%nat with 0%nat by lia. replace (length samples + 1 - 199)%nat with 0%nat by lia. by rewrite !drop_0.
Qed.

(** The median of an odd number of values: one of them, with less than half of them
    below and less than half of them above *)
Definition is_median (l : list Z) (m : Z) : Prop :=
  m ∈ l /\ (2 * length (List.filter (fun x => Z.ltb x m) l) < length l)%nat /\ (2 * length (List.filter (fun x => Z.ltb m x) l) < length l)%nat.

(** How many values the offset depends on when there are [n]: the greatest odd number up
    to [n], and no more than 199 *)
Definition deciding (n : nat) : nat := let n := Nat.min n 199 in if Nat.odd n then n else (n - 1)%nat.

(** The offset that belongs to a list of values *)
Definition offset_for (vals : list Z) (o : Z) : Prop :=
  if (length vals <? 5)%nat then o = 0
  else exists m, is_median (take (deciding (length vals)) vals) m /\ o = if abs64 m <=? 60 then m else 0.

Lemma middle_split l k m : StronglySorted Z.le l -> length l = (2 * k + 1)%nat -> l !! k = Some m ->
  exists a b, l = a ++ m :: b /\ length a = k /\ length b = k /\ Forall (fun x => x <= m) a /\ Forall (fun x => m <= x) b.
Proof.
  intros Hs Hl Hm. exists (take k l), (drop (S k) l). rewrite <- (take_drop_middle l k m Hm) in Hs. split; [by rewrite take_drop_middle|].
  split; [rewrite length_take; lia|]. split; [rewrite length_drop; lia|]. clear -Hs. induction (take k l) as [|x t IH]; simpl in Hs; inversion Hs as [|? ? Hs' Hf]; subst; [by split|].
  destruct (IH Hs') as [H1 H2]. split; [|done]. constructor; [|done]. apply Forall_app in Hf as [_ Hf]. by inversion Hf.
Qed.

Lemma filter_after {A} (f : A -> bool) (m : A) a b : f m = false -> Forall (fun x => f x = false) a ->
  (length (List.filter f (a ++ m :: b)) <= length b)%nat.
Proof. intros Hm Ha. rewrite List.filter_app, (filter_none f a Ha). cbn [List.filter app]. rewrite Hm. apply filter_le. Qed.

Lemma middle_median l k m : StronglySorted Z.le l -> length l = (2 * k + 1)%nat -> l !! k = Some m -> is_median l m.
Proof.
  intros Hs Hl Hm. destruct (middle_split l k m Hs Hl Hm) as (a & b & -> & La & Lb & Ha & Hb). split; [set_solver|]. rewrite Hl. split.
  - rewrite (filter_perm _ (a ++ m :: b) (b ++ m :: a)) by solve_Permutation.
    assert (length (List.filter (fun x => Z.ltb x m) (b ++ m :: a)) <= length a)%nat; [|lia].
    apply filter_after; [apply Z.ltb_irrefl|]. eapply Forall_impl; [exact Hb|]. intros x Hx. apply Z.ltb_ge. done.
  - assert (length (List.filter (fun x => Z.ltb m x) (a ++ m :: b)) <= length b)%nat; [|lia].
    apply filter_after; [apply Z.ltb_irrefl|]. eapply Forall_impl; [exact Ha|]. intros x Hx. apply Z.ltb_ge. done.
Qed.

(** Fewer values pass a stricter test. *)
Lemma filter_mono {A} (f g : A -> bool) l : (forall x, f x = true -> g x = true) -> (length (List.filter f l) <= length (List.filter g l))%nat.
Proof. intros H. induction l as [|x l IH]; simpl; [lia|]. specialize (H x). destruct (f x), (g x); simpl; try lia; by rewrite H in *. Qed.

(** The median is where the majority is. *)
Lemma median_majority lo hi l m : is_median l m -> majority lo hi l -> lo <= m <= hi.
Proof.
  intros (_ & Hlow & Hhigh) Hmaj. unfold majority in Hmaj. split; apply Z.nlt_ge; intros Hlt.
  - pose proof (filter_mono (in_range lo hi) (fun x => m <? x) l) as H. cut (length l < length l)%nat; [lia|]. etransitivity; [|exact Hhigh].
    eapply Nat.lt_le_trans; [exact Hmaj|]. apply Nat.mul_le_mono_l, H. unfold in_range. intros x [H1%Z.leb_le _]%andb_true_iff. apply Z.ltb_lt. lia.
  - pose proof (filter_mono (in_range lo hi) (fun x => x <? m) l) as H. cut (length l < length l)%nat; [lia|]. etransitivity; [|exact Hlow].
    eapply Nat.lt_le_trans; [exact Hmaj|]. apply Nat.mul_le_mono_l, H. unfold in_range. intros x [_ H1%Z.leb_le]%andb_true_iff. apply Z.ltb_lt. lia.
Qed.

(** One value more: the offset changes only when it makes the deciding number. *)
Lemma offset_extend vals s o : offset_for vals o -> deciding (S (length vals)) <> S (length vals) \/ (length vals < 4)%nat ->
  offset_for (vals ++ [s]) o.
Proof.
  unfold offset_for. rewrite length_app, Nat.add_1_r. intros Ho Hc. destruct (Nat.ltb_spec (length vals) 5) as [Hl|Hl].
  - destruct (Nat.ltb_spec (S (length vals)) 5); [done|]. exfalso. destruct Hc as [Hc|]; [|lia]. assert (length vals = 4)%nat as E by lia. by rewrite E in Hc.
  - destruct (Nat.ltb_spec (S (length vals)) 5); [lia|]. destruct Hc as [Hc|]; [|lia].
    assert (deciding (S (length vals)) = deciding (length vals) /\ (deciding (length vals) <= length vals)%nat) as [-> Hd].
    { clear -Hl Hc. unfold deciding in *. destruct (decide (S (length vals) <= 199)%nat) as [H|H].
      - rewrite !Nat.min_l in * by lia. rewrite Nat.odd_succ in *. rewrite <- Nat.negb_odd in *. destruct (Nat.odd (length vals)); simpl in *; lia.
      - rewrite (Nat.min_r (S _)) in * by lia. destruct (decide (length vals = 198)%nat); [lia|]. rewrite Nat.min_r by lia. simpl in *. lia. }
    by rewrite take_app_le by done.
Qed.

Lemma AddTimeData_step ip s t samples : timedata_ok samples t -> offset_for (0 :: samples) (nTimeOffset t) ->
  if (size (setKnown t) =? MAX_SAMPLES)%nat || bool_decide (ip ∈ setKnown t) then AddTimeData ip s t = Some t
  else exists t', AddTimeData ip s t = Some t' /\ timedata_ok (samples ++ [s]) t' /\ setKnown t' = {[ip]} ∪ setKnown t /\
    offset_for (0 :: samples ++ [s]) (nTimeOffset t').
Proof.
  intros Hok Hoff. pose proof Hok as (Hv & Hn & Hsz & Hle). unfold AddTimeData. destruct (Nat.eqb_spec (size (setKnown t)) MAX_SAMPLES) as [|Hne]; [done|]. cbn [orb].
  case_bool_decide as Hin; [done|]. assert (length samples < 200)%nat as Hl by (unfold MAX_SAMPLES in Hne; lia).
  pose proof (input_values samples t s Hok Hl) as Hvals. set (f := input (vTimeOffsets t) s) in *.
  assert (timedata_ok (samples ++ [s]) {| setKnown := {[ip]} ∪ setKnown t; vTimeOffsets := f; nTimeOffset := 0; fDone := false |}) as Hok'.
  { split_and!; [done|by unfold f, input| |rewrite length_app; simpl; lia]. cbn [setKnown]. rewrite size_union by set_solver. rewrite size_singleton, length_app. simpl. lia. }
  assert (length (vValues f) = Nat.min (S (S (length samples))) 200) as Hlen.
  { rewrite Hvals, length_drop. cbn [length]. rewrite length_app. cbn [length]. lia. }
  destruct ((5 <=? length (vValues f))%nat && (length (vValues f) mod 2 =? 1)%nat) eqn:Hc.
  2: { eexists. split; [done|]. split; [exact Hok'|]. split; [done|]. cbn [nTimeOffset]. apply (offset_extend (0 :: samples) s); [done|]. cbn [length].
       apply andb_false_iff in Hc as [H5%Nat.leb_gt|Hodd%Nat.eqb_neq]; [right; lia|left]. unfold deciding.
       destruct (decide (S (S (length samples)) <= 199)%nat) as [Hs|Hs]; [|rewrite Nat.min_r by lia; simpl; lia]. rewrite Nat.min_l by lia.
       rewrite Hlen, Nat.min_l in Hodd by lia. destruct (Nat.odd _) eqn:Eo; [|lia]. exfalso. apply Hodd. apply Nat.odd_spec in Eo as [k ->].
       rewrite Nat.mul_comm, Nat.add_comm, Nat.Div0.mod_add. done. }
  apply andb_true_iff in Hc as [H5%Nat.leb_le Hodd%Nat.eqb_eq].
  assert (S (S (length samples)) <= 199)%nat as Hs199.
  { destruct (decide (S (S (length samples)) <= 199)%nat); [done|]. exfalso. rewrite Hlen, Nat.min_r in Hodd by lia. done. }
  assert (vValues f = 0 :: samples ++ [s]) as Hfull.
  { rewrite Hvals. replace (length (samples ++ [s]) - 199)%nat with 0%nat by (rewrite length_app; simpl; lia). done. }
  destruct (sort_facts (vValues f)) as (Hp & Hs & Hls). change (vSorted f) with (sort (vValues f)) in *.
  pose proof (Nat.div_mod (length (vValues f)) 2 ltac:(lia)) as Hdm. rewrite Hodd in Hdm. set (k := (length (vValues f) / 2)%nat) in *.
  assert (Nat.odd (length (vValues f)) = true) as Ho by (apply Nat.odd_spec; exists k; lia).
  assert (exists m, median f = Some m /\ sort (vValues f) !! k = Some m) as (m & -> & Hm).
  { unfold median. change (vSorted f) with (sort (vValues f)). rewrite Hls. destruct (Nat.eqb_spec (length (vValues f)) 0); [lia|].
    rewrite Ho. fold k. destruct (lookup_lt_is_Some_2 (sort (vValues f)) k ltac:(lia)) as [m Hm]. by exists m. }
  assert (offset_for (0 :: samples ++ [s]) (if abs64 m <=? 60 then m else 0)) as Hnew.
  { rewrite <- Hfull. unfold offset_for. rewrite (proj2 (Nat.ltb_ge _ _) H5). exists m. split; [|done].
    assert (deciding (length (vValues f)) = length (vValues f)) as -> by (unfold deciding; rewrite Nat.min_l, Ho by lia; done). rewrite firstn_all.
    destruct (middle_median (sort (vValues f)) k m Hs ltac:(lia) Hm) as (M1 & M2 & M3). split; [by rewrite <- Hp|]. rewrite Hls, !(filter_perm _ _ _ Hp) in *. done. }
  cbn [mbind option_bind]. destruct (abs64 m <=? 60); (eexists; split; [done|]; split; [exact Hok'|]; split; [done|exact Hnew]).
Qed.

Lemma initial_ok : timedata_ok [] initial.
Proof. split_and!; [done|done|symmetry; apply size_empty|simpl; lia]. Qed.

(** The whole history: the offset belongs to the initial value and the samples taken. *)
Lemma AddAll_spec reports : forall t samples, timedata_ok samples t -> offset_for (0 :: samples) (nTimeOffset t) ->
  exists t', AddAll reports t = Some t' /\ timedata_ok (samples ++ accepted (setKnown t) reports) t' /\
    offset_for (0 :: samples ++ accepted (setKnown t) reports) (nTimeOffset t').
Proof.
  induction reports as [|[ip s] reports IH]; intros t samples Hok Hoff; cbn [accepted].
  { exists t. rewrite app_nil_r. done. }
  unfold AddAll. cbn [foldl mbind option_bind]. pose proof (AddTimeData_step ip s t samples Hok Hoff) as Hstep.
  destruct (_ || _); [rewrite Hstep; by apply IH|]. destruct Hstep as (t1 & -> & Hok1 & Hk & Hoff1). fold (AddAll reports t1).
  destruct (IH t1 _ Hok1 Hoff1) as (t' & -> & Hok' & Hoff'). rewrite Hk in *. rewrite <- app_assoc in *. by exists t'.
Qed.

(** Samples that are taken were reported. *)
Lemma accepted_reported reports : forall known s, s ∈ accepted known reports -> exists r, r ∈ reports /\ snd r = s.
Proof.
  induction reports as [|[ip s0] reports IH]; intros known s; cbn [accepted]; [by intros ?%elem_of_nil|].
  destruct (_ || _); [intros H; destruct (IH _ _ H) as (r & Hr & <-); exists r; split; [by right|done]|].
  intros [-> | H]%elem_of_cons; [exists (ip, s0); split; [by left|done]|]. destruct (IH _ _ H) as (r & Hr & <-). exists r. split; [by right|done].
Qed.

Lemma abs64_bound o : is_s64 o -> abs64 o <= 60 -> - 60 <= o <= 60 \/ o = - 2 ^ 63.
Proof.
  intros Ho. unfold abs64. rewrite Z.geb_leb. destruct (Z.leb_spec 0 o); [lia|]. destruct (decide (o = - 2 ^ 63)); [by right|].
  rewrite s64_id by (unfold is_s64 in *; lia). lia.
Qed.

(** C34: how far peers can move the clock.  For every history of reported offsets (64-bit
    integers) the filter keeps working (no assertion fails), at most 200 addresses are
    taken, each once.  Of the initial value 0 and the samples taken, the greatest odd
    number up to 199 of the first ones decides: with less than five values the offset is
    zero, otherwise it is the median of the deciding ones if [abs64] of it is at most 60,
    and zero if not.  So the offset is at most 60 seconds in absolute value unless a peer
    reports exactly the least 64-bit integer; and whenever more than half of the deciding
    values are in an interval around zero the offset is in that interval: a minority of
    peers cannot move the clock beyond what the others report. *)
Theorem time_offset_bounded reports : Forall (fun r => is_s64 (snd r)) reports ->
  exists t, AddAll reports initial = Some t /\ (size (setKnown t) <= 200)%nat /\
    length (accepted ∅ reports) = size (setKnown t) /\
    offset_for (0 :: accepted ∅ reports) (nTimeOffset t) /\
    (Forall (fun r => snd r <> - 2 ^ 63) reports -> - 60 <= nTimeOffset t <= 60) /\
    (forall lo hi, lo <= 0 <= hi ->
      majority lo hi (take (deciding (S (length (accepted ∅ reports)))) (0 :: accepted ∅ reports)) -> lo <= nTimeOffset t <= hi).
Proof.
  intros Hs. destruct (AddAll_spec reports initial [] initial_ok eq_refl) as (t & E & (_ & _ & Hl & Hle) & Hoff). cbn [app] in *. change (setKnown initial) with (∅ : gset CNetAddr) in *.
  exists t. split; [done|]. split; [lia|]. split; [done|]. split; [done|]. unfold offset_for in Hoff. destruct (_ <? 5)%nat; [rewrite Hoff; split; [lia|by intros]|].
  destruct Hoff as (m & Hm & ->). rewrite Forall_forall in Hs. destruct (Z.leb_spec (abs64 m) 60) as [Habs|]; [|split; [lia|by intros]]. split.
  - intros Hne. rewrite Forall_forall in Hne. destruct Hm as [Hin _]. apply elem_of_take in Hin as (j & Hj & _). apply list_elem_of_lookup_2 in Hj.
    apply elem_of_cons in Hj as [-> |(r & Hr & <-)%accepted_reported]; [lia|]. destruct (abs64_bound (snd r) (Hs r Hr) Habs) as [|Hmin]; [done|]. by destruct (Hne r Hr).
  - intros lo hi _ Hmaj. by apply (median_majority lo hi _ m Hm).
Qed.

(** The least 64-bit integer passes the test of [AddTimeData], because [abs64] of it is
    negative: three of the first four peers can set the clock back by 2^63 seconds. *)
Definition peer (n : Z) : CNetAddr := {| ip := pchIPv4 ++ [8; 8; 8; n] |}.
Lemma least_offset_accepted : exists t,
  AddAll [(peer 1, - 2 ^ 63); (peer 2, - 2 ^ 63); (peer 3, - 2 ^ 63); (peer 4, 0)] initial = Some t /\ nTimeOffset t = - 2 ^ 63 /\ GetAdjustedTime 1546300800 t < 0.
Proof. eexists. split; [vm_compute; reflexivity|]. split; [reflexivity|]. vm_compute. reflexivity. Qed.

(** Four peers, one of them far off: the offset is the median of 0 and their reports. *)
Lemma time_offset_bounded_witness :
  let reports := [(peer 1, 30); (peer 2, 100000); (peer 3, 20); (peer 2, 7); (peer 4, -10)] in
  Forall (fun r => is_s64 (snd r)) reports /\ exists t, AddAll reports initial = Some t /\ size (setKnown t) = 4%nat /\
    offset_for [0; 30; 100000; 20; -10] (nTimeOffset t) /\ - 60 <= nTimeOffset t <= 60 /\ - 10 <= nTimeOffset t <= 30 /\ nTimeOffset t = 20.
Proof.
  intros reports. assert (Forall (fun r => is_s64 (snd r)) reports) as H by (unfold reports, is_s64; repeat constructor; simpl; lia).
  split; [exact H|]. destruct (time_offset_bounded reports H) as (t & H1 & _ & H3 & H4 & H5 & H6).
  assert (accepted ∅ reports = [30; 100000; 20; -10]) as Ea by (vm_compute; reflexivity). rewrite Ea in H3, H4, H6.
  exists t. split; [exact H1|]. split; [symmetry; exact H3|]. split; [exact H4|]. split.
  { apply H5. unfold reports. repeat constructor; simpl; lia. }
  split; [apply H6; [lia|unfold majority; vm_compute; lia]|].
  assert (nTimeOffset <$> AddAll reports initial = Some 20) as E by (vm_compute; reflexivity). rewrite H1 in E. injection E as E. exact E.
Defined.

End TimeData.
