(* ===== verification/AddrMan.v ===== *)
(** * The address manager (src/addrman.{h,cpp})

    [CAddrMan] keeps the known peer addresses in "new" and "tried" buckets, with an
    index by address and a vector of all ids in random order.  Every operation is a
    function on the record; [None] is a failed assertion, an access outside of an array
    or an overflow of the id counter.  What the code draws at random ([RandomInt],
    [insecure_rand]) and the clock are arguments, and so is the 256-bit hash. *)

From stdpp Require Import base list list_numbers numbers option gmap sorting.
From Stdlib Require Import ZArith Lia.
From S2P Require Import Prelude Bytes Serialize NetAddr.
Import Endian Serialize NetAddr.
#[local] Open Scope Z_scope.

Module AddrMan.

Definition ADDRMAN_TRIED_BUCKET_COUNT : Z := 256.
Definition ADDRMAN_NEW_BUCKET_COUNT : Z := 1024.
Definition ADDRMAN_BUCKET_SIZE : Z := 64.
Definition ADDRMAN_TRIED_BUCKETS_PER_GROUP : Z := 8.
Definition ADDRMAN_NEW_BUCKETS_PER_SOURCE_GROUP : Z := 64.
Definition ADDRMAN_NEW_BUCKETS_PER_ADDRESS : Z := 8.
Definition ADDRMAN_HORIZON_DAYS : Z := 30.
Definition ADDRMAN_RETRIES : Z := 3.
Definition ADDRMAN_MAX_FAILURES : Z := 10.
Definition ADDRMAN_MIN_FAIL_DAYS : Z := 7.
Definition ADDRMAN_GETADDR_MAX_PCT : Z := 23.
Definition ADDRMAN_GETADDR_MAX : Z := 2500.

(** [CAddrInfo] is a [CAddress] with statistics. *)
Record CAddrInfo := {
  address : CAddress;
  source : CNetAddr;
  nLastTry : Z;
  nLastSuccess : Z;
  nAttempts : Z;
  nRefCount : Z;
  fInTried : bool;
  nRandomPos : Z
}.
Definition CAddrInfo_new (addrIn : CAddress) (addrSource : CNetAddr) : CAddrInfo :=
  {| address := addrIn; source := addrSource; nLastTry := 0; nLastSuccess := 0; nAttempts := 0; nRefCount := 0; fInTried := false; nRandomPos := -1 |}.
Definition CAddrInfo_default : CAddrInfo := CAddrInfo_new CAddress_default Init.

Definition key (i : CAddrInfo) : CNetAddr := netaddr (service (address i)).

Definition set_address (a : CAddress) (i : CAddrInfo) : CAddrInfo :=
  {| address := a; source := source i; nLastTry := nLastTry i; nLastSuccess := nLastSuccess i; nAttempts := nAttempts i; nRefCount := nRefCount i;
     fInTried := fInTried i; nRandomPos := nRandomPos i |}.
Definition set_nTime (t : Z) (i : CAddrInfo) : CAddrInfo :=
  set_address {| service := service (address i); nServices := nServices (address i); nTime := t |} i.
Definition set_nServices (n : Z) (i : CAddrInfo) : CAddrInfo :=
  set_address {| service := service (address i); nServices := n; nTime := nTime (address i) |} i.
Definition set_tries (t s a : Z) (i : CAddrInfo) : CAddrInfo :=
  {| address := address i; source := source i; nLastTry := t; nLastSuccess := s; nAttempts := a; nRefCount := nRefCount i;
     fInTried := fInTried i; nRandomPos := nRandomPos i |}.
Definition set_refs (r : Z) (f : bool) (i : CAddrInfo) : CAddrInfo :=
  {| address := address i; source := source i; nLastTry := nLastTry i; nLastSuccess := nLastSuccess i; nAttempts := nAttempts i; nRefCount := r;
     fInTried := f; nRandomPos := nRandomPos i |}.
Definition set_pos (p : Z) (i : CAddrInfo) : CAddrInfo :=
  {| address := address i; source := source i; nLastTry := nLastTry i; nLastSuccess := nLastSuccess i; nAttempts := nAttempts i; nRefCount := nRefCount i;
     fInTried := fInTried i; nRandomPos := p |}.

(** A table of buckets; a slot without an entry is [-1]. *)
Abbreviation table := (gmap (Z * Z) Z).

Record CAddrMan := {
  nIdCount : Z;
  mapInfo : gmap Z CAddrInfo;
  mapAddr : gmap CNetAddr Z;
  vRandom : list Z;
  nTried : Z;
  vvTried : table;
  nNew : Z;
  vvNew : table;
  nKey : list Z
}.

Definition with_info (m : gmap Z CAddrInfo) (s : CAddrMan) : CAddrMan :=
  {| nIdCount := nIdCount s; mapInfo := m; mapAddr := mapAddr s; vRandom := vRandom s; nTried := nTried s; vvTried := vvTried s; nNew := nNew s; vvNew := vvNew s; nKey := nKey s |}.
Definition with_random (v : list Z) (s : CAddrMan) : CAddrMan :=
  {| nIdCount := nIdCount s; mapInfo := mapInfo s; mapAddr := mapAddr s; vRandom := v; nTried := nTried s; vvTried := vvTried s; nNew := nNew s; vvNew := vvNew s; nKey := nKey s |}.
Definition with_new (n : Z) (t : table) (s : CAddrMan) : CAddrMan :=
  {| nIdCount := nIdCount s; mapInfo := mapInfo s; mapAddr := mapAddr s; vRandom := vRandom s; nTried := nTried s; vvTried := vvTried s; nNew := n; vvNew := t; nKey := nKey s |}.
Definition with_tried (n : Z) (t : table) (s : CAddrMan) : CAddrMan :=
  {| nIdCount := nIdCount s; mapInfo := mapInfo s; mapAddr := mapAddr s; vRandom := vRandom s; nTried := n; vvTried := t; nNew := nNew s; vvNew := vvNew s; nKey := nKey s |}.

(** A change of an entry through its reference *)
Definition update (id : Z) (f : CAddrInfo -> CAddrInfo) (s : CAddrMan) : CAddrMan := with_info (alter f id (mapInfo s)) s.

(** [mapInfo[id]]: a missing entry is created. *)
Definition info_at (id : Z) (s : CAddrMan) : CAddrInfo * CAddrMan :=
  match mapInfo s !! id with
  | Some i => (i, s)
  | None => (CAddrInfo_default, with_info (<[id := CAddrInfo_default]> (mapInfo s)) s)
  end.

(** [vv[b][i]] for reading: an access outside of the array is [None]. *)
Definition slot (rows : Z) (t : table) (b i : Z) : option Z :=
  if (0 <=? b) && (b <? rows) && (0 <=? i) && (i <? ADDRMAN_BUCKET_SIZE) then Some (default (-1) (t !! (b, i))) else None.
Definition new_slot (s : CAddrMan) (b i : Z) : option Z := slot ADDRMAN_NEW_BUCKET_COUNT (vvNew s) b i.
Definition tried_slot (s : CAddrMan) (b i : Z) : option Z := slot ADDRMAN_TRIED_BUCKET_COUNT (vvTried s) b i.
(** [vv[b][i] = id] *)
Definition set_slot (t : table) (b i id : Z) : table := if id =? -1 then delete (b, i) t else <[(b, i) := id]> t.

Definition assert_ (b : bool) : option unit := if b then Some () else None.

Section addrman.
(** [CHashWriter]: the hash of what was streamed *)
Context (Hash : list Z -> list Z).

(** ** CAddrInfo *)

Definition stream_vector (l : list Z) : list Z := WriteCompactSize (Z.of_nat (length l)) ++ l.
Definition cheap (l : list Z) : Z := ReadLE64 (Hash l).

Definition GetTriedBucket (nKey : list Z) (i : CAddrInfo) : Z :=
  let hash1 := cheap (nKey ++ stream_vector (GetKey (service (address i)))) in
  let hash2 := cheap (nKey ++ stream_vector (GetGroup (key i)) ++ ser_writedata64 (hash1 mod ADDRMAN_TRIED_BUCKETS_PER_GROUP)) in
  hash2 mod ADDRMAN_TRIED_BUCKET_COUNT.

Definition GetNewBucket (nKey : list Z) (i : CAddrInfo) (src : CNetAddr) : Z :=
  let vchSourceGroupKey := GetGroup src in
  let hash1 := cheap (nKey ++ stream_vector (GetGroup (key i)) ++ stream_vector vchSourceGroupKey) in
  let hash2 := cheap (nKey ++ stream_vector vchSourceGroupKey ++ ser_writedata64 (hash1 mod ADDRMAN_NEW_BUCKETS_PER_SOURCE_GROUP)) in
  hash2 mod ADDRMAN_NEW_BUCKET_COUNT.

Definition GetBucketPosition (nKey : list Z) (fNew : bool) (nBucket : Z) (i : CAddrInfo) : Z :=
  let hash1 := cheap (nKey ++ [if fNew then 78 else 75] ++ ser_writedata32 nBucket ++ stream_vector (GetKey (service (address i)))) in
  hash1 mod ADDRMAN_BUCKET_SIZE.

Definition IsTerrible (nNow : Z) (i : CAddrInfo) : bool :=
  let t := nTime (address i) in
  if negb (nLastTry i =? 0) && (nLastTry i >=? nNow - 60) then false
  else if t >? nNow + 10 * 60 then true
  else if (t =? 0) || (nNow - t >? ADDRMAN_HORIZON_DAYS * 24 * 60 * 60) then true
  else if (nLastSuccess i =? 0) && (nAttempts i >=? ADDRMAN_RETRIES) then true
  else if (nNow - nLastSuccess i >? ADDRMAN_MIN_FAIL_DAYS * 24 * 60 * 60) && (nAttempts i >=? ADDRMAN_MAX_FAILURES) then true
  else false.

(** ** The operations *)

Definition Clear (randHash : list Z) (s : CAddrMan) : CAddrMan :=
  {| nIdCount := 0; mapInfo := mapInfo s; mapAddr := mapAddr s; vRandom := []; nTried := 0; vvTried := ∅; nNew := 0; vvNew := ∅; nKey := randHash |}.
(** The constructor clears the empty maps. *)
Definition CAddrMan_new (randHash : list Z) : CAddrMan :=
  Clear randHash {| nIdCount := 0; mapInfo := ∅; mapAddr := ∅; vRandom := []; nTried := 0; vvTried := ∅; nNew := 0; vvNew := ∅; nKey := [] |}.

Definition Find (addr : CNetAddr) (s : CAddrMan) : option (Z * CAddrInfo) :=
  id ← mapAddr s !! addr; i ← mapInfo s !! id; Some (id, i).

Definition Create (addr : CAddress) (addrSource : CNetAddr) (s : CAddrMan) : option (Z * CAddrMan) :=
  let nId := nIdCount s in
  _ ← assert_ (nId <? 2 ^ 31 - 1);
  let info := set_pos (Z.of_nat (length (vRandom s))) (CAddrInfo_new addr addrSource) in
  Some (nId, {| nIdCount := nId + 1; mapInfo := <[nId := info]> (mapInfo s); mapAddr := <[netaddr (service addr) := nId]> (mapAddr s);
                vRandom := vRandom s ++ [nId]; nTried := nTried s; vvTried := vvTried s; nNew := nNew s; vvNew := vvNew s; nKey := nKey s |}).

Definition SwapRandom (nRndPos1 nRndPos2 : Z) (s : CAddrMan) : option CAddrMan :=
  if nRndPos1 =? nRndPos2 then Some s
  else
    _ ← assert_ ((nRndPos1 <? Z.of_nat (length (vRandom s))) && (nRndPos2 <? Z.of_nat (length (vRandom s))));
    nId1 ← vRandom s !! Z.to_nat nRndPos1;
    nId2 ← vRandom s !! Z.to_nat nRndPos2;
    _ ← mapInfo s !! nId1;
    _ ← mapInfo s !! nId2;
    let s := update nId1 (set_pos (s32 nRndPos2)) s in
    let s := update nId2 (set_pos (s32 nRndPos1)) s in
    Some (with_random (<[Z.to_nat nRndPos2 := nId1]> (<[Z.to_nat nRndPos1 := nId2]> (vRandom s))) s).

Definition Delete (nId : Z) (s : CAddrMan) : option CAddrMan :=
  info ← mapInfo s !! nId;
  _ ← assert_ (negb (fInTried info));
  _ ← assert_ (nRefCount info =? 0);
  s ← SwapRandom (u32 (nRandomPos info)) (u32 (Z.of_nat (length (vRandom s)) - 1)) s;
  _ ← assert_ (0 <? length (vRandom s))%nat;
  Some {| nIdCount := nIdCount s; mapInfo := delete nId (mapInfo s); mapAddr := delete (key info) (mapAddr s);
          vRandom := take (length (vRandom s) - 1) (vRandom s); nTried := nTried s; vvTried := vvTried s; nNew := nNew s - 1; vvNew := vvNew s; nKey := nKey s |}.

Definition ClearNew (nUBucket nUBucketPos : Z) (s : CAddrMan) : option CAddrMan :=
  nIdDelete ← new_slot s nUBucket nUBucketPos;
  if nIdDelete =? -1 then Some s
  else
    let '(infoDelete, s) := info_at nIdDelete s in
    _ ← assert_ (nRefCount infoDelete >? 0);
    let s := update nIdDelete (fun i => set_refs (nRefCount i - 1) (fInTried i) i) s in
    let s := with_new (nNew s) (set_slot (vvNew s) nUBucket nUBucketPos (-1)) s in
    if nRefCount infoDelete - 1 =? 0 then Delete nIdDelete s else Some s.

(** The first loop of [MakeTried], over the buckets from [bucket] on *)
Fixpoint leave_new (fuel : nat) (bucket nId : Z) (s : CAddrMan) : option CAddrMan :=
  match fuel with
  | O => Some s
  | S fuel =>
      info ← mapInfo s !! nId;
      let pos := GetBucketPosition (nKey s) true bucket info in
      id ← new_slot s bucket pos;
      let s := if id =? nId
               then update nId (fun i => set_refs (nRefCount i - 1) (fInTried i) i) (with_new (nNew s) (set_slot (vvNew s) bucket pos (-1)) s)
               else s in
      leave_new fuel (bucket + 1) nId s
  end.

(** The entry of a "tried" slot goes back to the "new" table. *)
Definition evict (nKBucket nKBucketPos nIdEvict : Z) (s : CAddrMan) : option CAddrMan :=
  infoOld ← mapInfo s !! nIdEvict;
  let s := update nIdEvict (fun i => set_refs (nRefCount i) false i) s in
  let s := with_tried (nTried s - 1) (set_slot (vvTried s) nKBucket nKBucketPos (-1)) s in
  let nUBucket := GetNewBucket (nKey s) infoOld (source infoOld) in
  let nUBucketPos := GetBucketPosition (nKey s) true nUBucket infoOld in
  s ← ClearNew nUBucket nUBucketPos s;
  id ← new_slot s nUBucket nUBucketPos;
  _ ← assert_ (id =? -1);
  let s := update nIdEvict (fun i => set_refs 1 (fInTried i) i) s in
  Some (with_new (nNew s + 1) (set_slot (vvNew s) nUBucket nUBucketPos nIdEvict) s).

Definition MakeTried (nId : Z) (s : CAddrMan) : option CAddrMan :=
  s ← leave_new (Z.to_nat ADDRMAN_NEW_BUCKET_COUNT) 0 nId s;
  let s := with_new (nNew s - 1) (vvNew s) s in
  info ← mapInfo s !! nId;
  _ ← assert_ (nRefCount info =? 0);
  let nKBucket := GetTriedBucket (nKey s) info in
  let nKBucketPos := GetBucketPosition (nKey s) false nKBucket info in
  nIdEvict ← tried_slot s nKBucket nKBucketPos;
  s ← (if negb (nIdEvict =? -1) then evict nKBucket nKBucketPos nIdEvict s else Some s);
  id ← tried_slot s nKBucket nKBucketPos;
  _ ← assert_ (id =? -1);
  let s := with_tried (nTried s + 1) (set_slot (vvTried s) nKBucket nKBucketPos nId) s in
  Some (update nId (fun i => set_refs (nRefCount i) true i) s).

(** The search of [Good_] for a bucket that holds the entry *)
Fixpoint find_bucket (fuel : nat) (n nRnd nId : Z) (info : CAddrInfo) (s : CAddrMan) : option (option Z) :=
  match fuel with
  | O => Some None
  | S fuel =>
      let nB := (n + nRnd) mod ADDRMAN_NEW_BUCKET_COUNT in
      let nBpos := GetBucketPosition (nKey s) true nB info in
      id ← new_slot s nB nBpos;
      if id =? nId then Some (Some nB) else find_bucket fuel (n + 1) nRnd nId info s
  end.

Definition Good_ (addr : CService) (nTime nRnd : Z) (s : CAddrMan) : option CAddrMan :=
  match Find (netaddr addr) s with
  | None => Some s
  | Some (nId, info) =>
      if negb (bool_decide (service (address info) = addr)) then Some s
      else
        let s := update nId (set_tries nTime nTime 0) s in
        if fInTried info then Some s
        else
          nUBucket ← find_bucket (Z.to_nat ADDRMAN_NEW_BUCKET_COUNT) 0 nRnd nId info s;
          match nUBucket with
          | None => Some s
          | Some _ => MakeTried nId s
          end
  end.

(** [nFactor] doubled [nRefCount] times *)
Definition nFactor (nRefCount : Z) : Z := Z.shiftl 1 (Z.max 0 nRefCount).

(** The end of [Add_]: the entry [nId] is put into its bucket, or deleted when there is
    no place and nothing refers to it. *)
Definition place (nId : Z) (src : CNetAddr) (now : Z) (s : CAddrMan) : option CAddrMan :=
  pinfo ← mapInfo s !! nId;
  let nUBucket := GetNewBucket (nKey s) pinfo src in
  let nUBucketPos := GetBucketPosition (nKey s) true nUBucket pinfo in
  id ← new_slot s nUBucket nUBucketPos;
  if id =? nId then Some s
  else
    let '(fInsert, s) :=
      if id =? -1 then (true, s)
      else let '(infoExisting, s) := info_at id s in
           (IsTerrible now infoExisting || ((nRefCount infoExisting >? 1) && (nRefCount pinfo =? 0)), s) in
    if fInsert : bool then
      s ← ClearNew nUBucket nUBucketPos s;
      let s := update nId (fun i => set_refs (nRefCount i + 1) (fInTried i) i) s in
      Some (with_new (nNew s) (set_slot (vvNew s) nUBucket nUBucketPos nId) s)
    else if nRefCount pinfo =? 0 then Delete nId s
    else Some s.

(** [Add_]: [rnd] is what [RandomInt(nFactor)] returns; the clock is read twice, for
    [fCurrentlyOnline] ([now]) and in [IsTerrible] ([now2]). *)
Definition Add_ (addr : CAddress) (src : CNetAddr) (nTimePenalty now now2 rnd : Z) (s : CAddrMan) : option (bool * CAddrMan) :=
  if negb (IsRoutable (netaddr (service addr))) then Some (false, s)
  else
    match Find (netaddr (service addr)) s with
    | Some (nId, pinfo) =>
        let fCurrentlyOnline := now - nTime addr <? 24 * 60 * 60 in
        let nUpdateInterval := if fCurrentlyOnline then 60 * 60 else 24 * 60 * 60 in
        let t := nTime (address pinfo) in
        let t := if negb (nTime addr =? 0) && ((t =? 0) || (t <? nTime addr - nUpdateInterval - nTimePenalty))
                 then u32 (Z.max 0 (nTime addr - nTimePenalty)) else t in
        let s := update nId (fun i => set_nServices (Z.lor (nServices (address i)) (nServices addr)) (set_nTime t i)) s in
        if (nTime addr =? 0) || (negb (t =? 0) && (nTime addr <=? t)) then Some (false, s)
        else if fInTried pinfo then Some (false, s)
        else if nRefCount pinfo =? ADDRMAN_NEW_BUCKETS_PER_ADDRESS then Some (false, s)
        else if (nFactor (nRefCount pinfo) >? 1) && negb (rnd =? 0) then Some (false, s)
        else s ← place nId src now2 s; Some (false, s)
    | None =>
        '(nId, s) ← Create addr src s;
        let s := update nId (fun i => set_nTime (u32 (Z.max 0 (nTime (address i) - nTimePenalty))) i) s in
        let s := with_new (nNew s + 1) (vvNew s) s in
        s ← place nId src now2 s; Some (true, s)
    end.

Definition Attempt_ (addr : CService) (nTime : Z) (s : CAddrMan) : CAddrMan :=
  match Find (netaddr addr) s with
  | None => s
  | Some (nId, info) =>
      if negb (bool_decide (service (address info) = addr)) then s
      else update nId (fun i => set_tries nTime (nLastSuccess i) (s32 (nAttempts i + 1)) i) s
  end.

Definition Connected_ (addr : CService) (nTime : Z) (s : CAddrMan) : CAddrMan :=
  match Find (netaddr addr) s with
  | None => s
  | Some (nId, info) =>
      if negb (bool_decide (service (address info) = addr)) then s
      else if nTime - NetAddr.nTime (address info) >? 20 * 60 then update nId (set_nTime (u32 nTime)) s else s
  end.

(** [GetAddr_]: [rnd n] is what [RandomInt(vRandom.size() - n)] returns. *)
Fixpoint getaddr_loop (fuel : nat) (n : Z) (nNodes : Z) (rnd : Z -> Z) (now : Z) (vAddr : list CAddress) (s : CAddrMan) : option (list CAddress * CAddrMan) :=
  match fuel with
  | O => Some (vAddr, s)
  | S fuel =>
      if Z.of_nat (length vAddr) >=? nNodes then Some (vAddr, s)
      else
        let nRndPos := rnd n + n in
        s ← SwapRandom n nRndPos s;
        id ← vRandom s !! Z.to_nat n;
        ai ← mapInfo s !! id;
        getaddr_loop fuel (n + 1) nNodes rnd now (if IsTerrible now ai then vAddr else vAddr ++ [address ai]) s
  end.

Definition GetAddr_ (rnd : Z -> Z) (now : Z) (s : CAddrMan) : option (list CAddress * CAddrMan) :=
  let nNodes := u32 (ADDRMAN_GETADDR_MAX_PCT * Z.of_nat (length (vRandom s)) / 100) in
  let nNodes := if nNodes >? ADDRMAN_GETADDR_MAX then ADDRMAN_GETADDR_MAX else nNodes in
  getaddr_loop (length (vRandom s)) 0 nNodes rnd now [] s.

(** ** The self-check *)

Definition in_random (s : CAddrMan) (n : Z) (info : CAddrInfo) : bool :=
  (0 <=? nRandomPos info) && (nRandomPos info <? Z.of_nat (length (vRandom s))) && bool_decide (vRandom s !! Z.to_nat (nRandomPos info) = Some n).

(** One entry: an error code, or the sets with the entry.  ([mapAddr[info]] reads 0
    where there is no entry.) *)
Definition check_entry (s : CAddrMan) (n : Z) (info : CAddrInfo) (setTried : gset Z) (mapNew : gmap Z Z) : Z + (gset Z * gmap Z Z) :=
  match (if fInTried info then
           if nLastSuccess info =? 0 then inl (-1)
           else if negb (nRefCount info =? 0) then inl (-2)
           else inr ({[n]} ∪ setTried, mapNew)
         else
           if (nRefCount info <? 0) || (nRefCount info >? ADDRMAN_NEW_BUCKETS_PER_ADDRESS) then inl (-3)
           else if nRefCount info =? 0 then inl (-4)
           else inr (setTried, <[n := nRefCount info]> mapNew)) with
  | inl e => inl e
  | inr sets =>
      if negb (default 0 (mapAddr s !! key info) =? n) then inl (-5)
      else if negb (in_random s n info) then inl (-14)
      else if nLastTry info <? 0 then inl (-6)
      else if nLastSuccess info <? 0 then inl (-8)
      else inr sets
  end.

Fixpoint check_entries (s : CAddrMan) (l : list (Z * CAddrInfo)) (setTried : gset Z) (mapNew : gmap Z Z) : Z + (gset Z * gmap Z Z) :=
  match l with
  | [] => inr (setTried, mapNew)
  | (n, info) :: l =>
      match check_entry s n info setTried mapNew with
      | inl e => inl e
      | inr (setTried, mapNew) => check_entries s l setTried mapNew
      end
  end.

(** The slots of a table in the order of the loops *)
Definition slots (rows : Z) : list (Z * Z) := seqZ 0 rows ≫= fun n => (fun i => (n, i)) <$> seqZ 0 ADDRMAN_BUCKET_SIZE.

Fixpoint check_tried (s : CAddrMan) (l : list (Z * Z)) (setTried : gset Z) : Z + gset Z :=
  match l with
  | [] => inr setTried
  | (n, i) :: l =>
      match vvTried s !! (n, i) with
      | None => check_tried s l setTried
      | Some id =>
          if negb (bool_decide (id ∈ setTried)) then inl (-11)
          else
            let info := fst (info_at id s) in
            if negb (GetTriedBucket (nKey s) info =? n) then inl (-17)
            else if negb (GetBucketPosition (nKey s) false n info =? i) then inl (-18)
            else check_tried s l (setTried ∖ {[id]})
      end
  end.

Fixpoint check_new (s : CAddrMan) (l : list (Z * Z)) (mapNew : gmap Z Z) : Z + gmap Z Z :=
  match l with
  | [] => inr mapNew
  | (n, i) :: l =>
      match vvNew s !! (n, i) with
      | None => check_new s l mapNew
      | Some id =>
          match mapNew !! id with
          | None => inl (-12)
          | Some c =>
              if negb (GetBucketPosition (nKey s) true n (fst (info_at id s)) =? i) then inl (-19)
              else check_new s l (if c - 1 =? 0 then delete id mapNew else <[id := c - 1]> mapNew)
          end
      end
  end.

Definition before (x y : Z * CAddrInfo) : Prop := x.1 <= y.1.
#[local] Instance before_dec : RelDecision before.
Proof. intros x y. unfold before. apply _. Defined.

Definition Check_ (s : CAddrMan) : Z :=
  if negb (Z.of_nat (length (vRandom s)) =? nTried s + nNew s) then -7
  else
    match check_entries s (merge_sort before (map_to_list (mapInfo s))) ∅ ∅ with
    | inl e => e
    | inr (setTried, mapNew) =>
        if negb (Z.of_nat (size setTried) =? nTried s) then -9
        else if negb (Z.of_nat (size mapNew) =? nNew s) then -10
        else
          match check_tried s (slots ADDRMAN_TRIED_BUCKET_COUNT) setTried with
          | inl e => e
          | inr setTried =>
              match check_new s (slots ADDRMAN_NEW_BUCKET_COUNT) mapNew with
              | inl e => e
              | inr mapNew =>
                  if negb (size setTried =? 0)%nat then -13
                  else if negb (size mapNew =? 0)%nat then -15
                  else if forallb (Z.eqb 0) (nKey s) then -16
                  else 0
              end
          end
    end.

End addrman.

End AddrMan.
