(* ===== verification/AddrManFacts.v ===== *)
(** * The invariant of the address manager

    The relation between the maps, the buckets, the counters and the random order, and
    that every operation of AddrMan.v keeps it without a failed assertion. *)

From stdpp Require Import base list list_numbers numbers option gmap.
From Stdlib Require Import ZArith Lia.
From S2P Require Import Prelude Bytes Serialize NetAddr AddrMan.
Import Endian Serialize NetAddr AddrMan.
#[local] Open Scope Z_scope.

Module AddrManFacts.

(** The fields of an updated state *)
Ltac am := cbn [with_info with_random with_new with_tried mapInfo mapAddr vRandom nTried vvTried nNew vvNew nKey nIdCount].
Tactic Notation "am" "in" hyp(H) := cbn [with_info with_random with_new with_tried mapInfo mapAddr vRandom nTried vvTried nNew vvNew nKey nIdCount] in H.

(** ** Counting in maps *)

Section counting.
Context `{Countable K} {A : Type} (P : K * A -> Prop) `{!forall x, Decision (P x)}.

Definition countP (m : gmap K A) : Z := Z.of_nat (size (filter P m)).
Definition one (k : K) (o : option A) : Z := match o with Some x => if decide (P (k, x)) then 1 else 0 | None => 0 end.

Lemma countP_delete m k : countP m = one k (m !! k) + countP (delete k m).
Proof.
  unfold countP, one. destruct (m !! k) as [x|] eqn:E; [|by rewrite delete_id].
  rewrite <- (insert_delete_id m k x E) at 1. destruct (decide (P (k, x))) as [HP|HP].
  - rewrite map_filter_insert_True, map_size_insert_None by (done || by apply map_lookup_filter_None; left; apply lookup_delete_eq). lia.
  - rewrite map_filter_insert_False, delete_delete_eq by done. lia.
Qed.

Lemma countP_insert m k x : countP (<[k := x]> m) = one k (Some x) + countP m - one k (m !! k).
Proof. rewrite (countP_delete (<[k := x]> m) k), (countP_delete m k), lookup_insert_eq, delete_insert_eq. lia. Qed.

Lemma countP_zero m : countP m = 0 <-> forall k x, m !! k = Some x -> ~ P (k, x).
Proof.
  unfold countP. split.
  - intros E k x Hk HP. assert (filter P m = ∅) as E0 by (apply map_size_empty_iff; lia). assert (filter P m !! k = Some x) as Hf by (by apply map_lookup_filter_Some). by rewrite E0, lookup_empty in Hf.
  - intros Hn. assert (filter P m = ∅) as ->; [|by rewrite map_size_empty]. apply map_eq. intros k. rewrite lookup_empty. apply map_lookup_filter_None. right. intros x Hx. by apply Hn.
Qed.

Lemma countP_nonneg m : 0 <= countP m.
Proof. unfold countP. lia. Qed.

Lemma countP_pos m k x : m !! k = Some x -> P (k, x) -> 0 < countP m.
Proof. intros Hk HP. pose proof (countP_nonneg m). destruct (decide (countP m = 0)) as [E|]; [|lia]. exfalso. by apply (proj1 (countP_zero m) E k x). Qed.

End counting.

Lemma alter_insert_eq {A} `{Countable K} (f : A -> A) (m : gmap K A) k x : m !! k = Some x -> alter f k m = <[k := f x]> m.
Proof. intros E. apply map_eq. intros j. destruct (decide (j = k)) as [->|]; [by rewrite lookup_alter_eq, lookup_insert_eq, E|by rewrite lookup_alter_ne, lookup_insert_ne by done]. Qed.

Section facts.
Context (Hash : list Z -> list Z).

Abbreviation tbucket s := (GetTriedBucket Hash (nKey s)).
Abbreviation tpos s i := (GetBucketPosition Hash (nKey s) false (GetTriedBucket Hash (nKey s) i) i).
Abbreviation npos s b := (GetBucketPosition Hash (nKey s) true b).

(** ** The invariant *)

(** The slots of the "new" table that refer to [id] *)
Definition refs (t : gmap (Z * Z) Z) (id : Z) : Z := countP (fun kv => kv.2 = id) t.
Definition count_new (m : gmap Z CAddrInfo) : Z := countP (fun kv => fInTried kv.2 = false) m.
Definition count_tried (m : gmap Z CAddrInfo) : Z := countP (fun kv => fInTried kv.2 = true) m.

(** An entry; [X] are the ids that nothing refers to. *)
Record entry_ok (X : gset Z) (s : CAddrMan) (id : Z) (i : CAddrInfo) : Prop := {
  e_id : 0 <= id < nIdCount s;
  e_addr : mapAddr s !! key i = Some id;
  e_pos : 0 <= nRandomPos i /\ vRandom s !! Z.to_nat (nRandomPos i) = Some id;
  e_refs : nRefCount i = refs (vvNew s) id;
  e_max : nRefCount i <= ADDRMAN_NEW_BUCKETS_PER_ADDRESS;
  e_tried : fInTried i = true -> nLastSuccess i <> 0 /\ vvTried s !! (tbucket s i, tpos s i) = Some id;
  e_new : fInTried i = false -> (nRefCount i = 0 <-> id ∈ X);
  e_time : 0 <= nLastTry i /\ 0 <= nLastSuccess i
}.

(** The state; [dn] is what the counter of new entries is off by. *)
Record inv (X : gset Z) (dn : Z) (s : CAddrMan) : Prop := {
  i_info : forall id i, mapInfo s !! id = Some i -> entry_ok X s id i;
  i_addr : forall a id, mapAddr s !! a = Some id -> exists i, mapInfo s !! id = Some i /\ key i = a;
  i_random : forall p id, vRandom s !! p = Some id -> exists i, mapInfo s !! id = Some i /\ nRandomPos i = Z.of_nat p;
  i_tried : forall b p id, vvTried s !! (b, p) = Some id -> exists i, mapInfo s !! id = Some i /\ fInTried i = true /\ b = tbucket s i /\ p = tpos s i;
  i_new : forall b p id, vvNew s !! (b, p) = Some id -> 0 <= b < ADDRMAN_NEW_BUCKET_COUNT /\ exists i, mapInfo s !! id = Some i /\ fInTried i = false /\ p = npos s b i;
  i_ntried : nTried s = count_tried (mapInfo s);
  i_nnew : nNew s = count_new (mapInfo s) + dn;
  i_size : length (vRandom s) = size (mapInfo s);
  i_bound : Z.of_nat (length (vRandom s)) <= nIdCount s <= 2 ^ 31 - 1
}.

Definition consistent : CAddrMan -> Prop := inv ∅ 0.

(** ** Buckets *)

Lemma tbucket_range k i : 0 <= GetTriedBucket Hash k i < ADDRMAN_TRIED_BUCKET_COUNT.
Proof. apply Z.mod_pos_bound. done. Qed.
Lemma nbucket_range k i src : 0 <= GetNewBucket Hash k i src < ADDRMAN_NEW_BUCKET_COUNT.
Proof. apply Z.mod_pos_bound. done. Qed.
Lemma pos_range k f b i : 0 <= GetBucketPosition Hash k f b i < ADDRMAN_BUCKET_SIZE.
Proof. apply Z.mod_pos_bound. done. Qed.

Lemma slot_in rows t b i : 0 <= b < rows -> 0 <= i < ADDRMAN_BUCKET_SIZE -> slot rows t b i = Some (default (-1) (t !! (b, i))).
Proof.
  intros Hb Hi. unfold slot. rewrite !(proj2 (Z.leb_le _ _)), !(proj2 (Z.ltb_lt _ _)) by lia. done.
Qed.

(** Only the service of an entry decides where it goes. *)
Definition same_place (i j : CAddrInfo) : Prop := service (address i) = service (address j).

Lemma same_place_tried k i j : same_place i j -> GetTriedBucket Hash k i = GetTriedBucket Hash k j.
Proof. intros E. unfold GetTriedBucket, key. by rewrite E. Qed.
Lemma same_place_pos k f b i j : same_place i j -> GetBucketPosition Hash k f b i = GetBucketPosition Hash k f b j.
Proof. intros E. unfold GetBucketPosition. by rewrite E. Qed.
Lemma same_place_key i j : same_place i j -> key i = key j.
Proof. intros E. unfold key. by rewrite E. Qed.

(** Two entries are the same as far as the structure is concerned. *)
Definition same_entry (i j : CAddrInfo) : Prop :=
  same_place i j /\ nRefCount i = nRefCount j /\ fInTried i = fInTried j /\ nRandomPos i = nRandomPos j.

Definition times_ok (i : CAddrInfo) : Prop := 0 <= nLastTry i /\ 0 <= nLastSuccess i /\ (fInTried i = true -> nLastSuccess i <> 0).

Lemma entry_times X s id i : entry_ok X s id i -> times_ok i.
Proof. intros []. split_and!; [apply e_time0|apply e_time0|intros H; by apply e_tried0]. Qed.

Lemma entry_same X s s' id i j : entry_ok X s id i -> same_entry i j -> times_ok j ->
  nIdCount s' = nIdCount s -> mapAddr s' = mapAddr s -> vRandom s' = vRandom s -> vvNew s' = vvNew s -> vvTried s' = vvTried s -> nKey s' = nKey s ->
  entry_ok X s' id j.
Proof.
  intros [] (Hp & Hr & Hf & Hpos) (T1 & T2 & T3) E1 E2 E3 E4 E5 E6. split; rewrite ?E1, ?E2, ?E3, ?E4, ?E5, ?E6; rewrite <- ?Hr, <- ?Hf, <- ?Hpos, <- ?(same_place_key i j Hp); try done.
  intros Ht. rewrite <- (same_place_tried _ i j Hp), <- (same_place_pos _ _ _ i j Hp). split; [apply T3; congruence|by apply e_tried0].
Qed.

Lemma count_alter (b : bool) m id i j : m !! id = Some i -> fInTried i = fInTried j ->
  countP (fun kv : Z * CAddrInfo => fInTried kv.2 = b) (<[id := j]> m) = countP (fun kv => fInTried kv.2 = b) m.
Proof. intros Hi Hf. rewrite countP_insert, Hi. unfold one. cbn [snd]. rewrite Hf. lia. Qed.

(** Changing the statistics of an entry *)
Lemma inv_update X dn s id i f : inv X dn s -> mapInfo s !! id = Some i -> same_entry i (f i) -> times_ok (f i) -> inv X dn (update id f s).
Proof.
  intros Hinv Hi Hsame Ht. pose proof Hinv as []. unfold update. rewrite (alter_insert_eq f _ id i Hi).
  assert (forall k j, mapInfo s !! k = Some j -> exists j', <[id := f i]> (mapInfo s) !! k = Some j' /\ same_entry j j') as Hl.
  { intros k j Hk. destruct (decide (k = id)) as [->|]; [exists (f i); rewrite lookup_insert_eq; split; [done|congruence]|exists j; by rewrite lookup_insert_ne]. }
  split; am; try done.
  - intros k j Hk. destruct (decide (k = id)) as [->|].
    + rewrite lookup_insert_eq in Hk. injection Hk as <-. by apply (entry_same X s _ id i (f i)); [apply i_info0| | |..].
    + rewrite lookup_insert_ne in Hk by done. apply (entry_same X s _ k j j); [by apply i_info0|done|by eapply entry_times, i_info0|done..].
  - intros a k Hk. destruct (i_addr0 a k Hk) as (j & Hj & <-). destruct (Hl k j Hj) as (j' & -> & Hs & _). exists j'. split; [done|]. by rewrite (same_place_key j j').
  - intros p k Hk. destruct (i_random0 p k Hk) as (j & Hj & E). destruct (Hl k j Hj) as (j' & -> & _ & _ & _ & Ep). exists j'. split; [done|congruence].
  - intros b p k Hk. destruct (i_tried0 b p k Hk) as (j & Hj & Hf & Eb & Ep). destruct (Hl k j Hj) as (j' & -> & Hs & _ & Ef & _). exists j'.
    split; [done|]. split; [congruence|]. by rewrite <- (same_place_tried _ j j' Hs), <- (same_place_pos _ _ _ j j' Hs).
  - intros b p k Hk. destruct (i_new0 b p k Hk) as (Hb & j & Hj & Hf & Ep). split; [done|]. destruct (Hl k j Hj) as (j' & -> & Hs & _ & Ef & _). exists j'.
    split; [done|]. split; [congruence|]. by rewrite <- (same_place_pos _ _ _ j j' Hs).
  - unfold count_tried. rewrite (count_alter true (mapInfo s) id i (f i)); [done|done|apply Hsame].
  - unfold count_new. rewrite (count_alter false (mapInfo s) id i (f i)); [done|done|apply Hsame].
  - rewrite map_size_insert, Hi. done.
Qed.

(** ** The random order *)

(** The states agree on everything but the random order. *)
Record moved (s s' : CAddrMan) : Prop := {
  m_info : forall id, set_pos 0 <$> mapInfo s' !! id = set_pos 0 <$> mapInfo s !! id;
  m_count : nIdCount s' = nIdCount s; m_addr : mapAddr s' = mapAddr s; m_ntried : nTried s' = nTried s; m_tried : vvTried s' = vvTried s;
  m_nnew : nNew s' = nNew s; m_new : vvNew s' = vvNew s; m_key : nKey s' = nKey s; m_len : length (vRandom s') = length (vRandom s)
}.

Definition positions_ok (m : gmap Z CAddrInfo) (v : list Z) : Prop :=
  (forall id i, m !! id = Some i -> 0 <= nRandomPos i /\ v !! Z.to_nat (nRandomPos i) = Some id) /\
  (forall p id, v !! p = Some id -> exists i, m !! id = Some i /\ nRandomPos i = Z.of_nat p).

Lemma inv_positions X dn s : inv X dn s -> positions_ok (mapInfo s) (vRandom s).
Proof. intros []. split; [intros id i Hi; by apply (e_pos _ _ _ _ (i_info0 id i Hi))|done]. Qed.

Lemma set_pos_same i j : set_pos 0 i = set_pos 0 j -> i = set_pos (nRandomPos i) j.
Proof. destruct i, j. unfold set_pos. cbn. congruence. Qed.

Lemma set_pos_fields i j : set_pos 0 i = set_pos 0 j -> same_place i j /\ nRefCount i = nRefCount j /\ fInTried i = fInTried j /\ (times_ok j -> times_ok i).
Proof. intros E%set_pos_same. rewrite E. done. Qed.

Lemma moved_back s s' id i : moved s s' -> mapInfo s' !! id = Some i -> exists j, mapInfo s !! id = Some j /\ set_pos 0 i = set_pos 0 j.
Proof. intros [] H. specialize (m_info0 id). rewrite H in m_info0. destruct (mapInfo s !! id) as [j|]; [|done]. exists j. split; [done|]. by apply (inj Some) in m_info0. Qed.
Lemma moved_forth s s' id j : moved s s' -> mapInfo s !! id = Some j -> exists i, mapInfo s' !! id = Some i /\ set_pos 0 i = set_pos 0 j.
Proof. intros [] H. specialize (m_info0 id). rewrite H in m_info0. destruct (mapInfo s' !! id) as [i|]; [|done]. exists i. split; [done|]. by apply (inj Some) in m_info0. Qed.

Lemma moved_refl s : moved s s.
Proof. by split. Qed.

Lemma moved_count s s' (b : bool) : moved s s' -> countP (fun kv : Z * CAddrInfo => fInTried kv.2 = b) (mapInfo s') = countP (fun kv => fInTried kv.2 = b) (mapInfo s).
Proof.
  intros Hm. unfold countP. f_equal. rewrite <- !size_dom. f_equal. apply set_eq. intros id. rewrite !elem_of_dom. split; intros [i Hi]; apply map_lookup_filter_Some in Hi as [Hi Hf]; cbn in Hf.
  - destruct (moved_back _ _ _ _ Hm Hi) as (j & Hj & E). exists j. apply map_lookup_filter_Some. split; [done|]. cbn. rewrite <- Hf. symmetry. apply (set_pos_fields i j E).
  - destruct (moved_forth _ _ _ _ Hm Hi) as (j & Hj & E). exists j. apply map_lookup_filter_Some. split; [done|]. cbn. rewrite <- Hf. apply (set_pos_fields j i E).
Qed.

Lemma inv_moved X dn s s' : inv X dn s -> moved s s' -> positions_ok (mapInfo s') (vRandom s') -> inv X dn s'.
Proof.
  intros Hinv Hm [P1 P2]. pose proof Hinv as []. pose proof Hm as [].
  split; rewrite ?m_count0, ?m_addr0, ?m_ntried0, ?m_tried0, ?m_nnew0, ?m_new0, ?m_key0, ?m_len0; try done.
  - intros id i Hi. destruct (moved_back _ _ _ _ Hm Hi) as (j & Hj & E). destruct (set_pos_fields i j E) as (Hp & Hr & Hf & Ht).
    pose proof (i_info0 id j Hj) as He. pose proof (entry_times _ _ _ _ He) as Htj. destruct He as [E1 E2 E3 E4 E5 E6 E7 E8]. destruct (Ht Htj) as (T1 & T2 & T3).
    split; rewrite ?m_count0, ?m_addr0, ?m_ntried0, ?m_tried0, ?m_nnew0, ?m_new0, ?m_key0, ?Hr, ?Hf, ?(same_place_key i j Hp); try done; [by apply P1|].
    intros Hft. rewrite (same_place_tried _ i j Hp), (same_place_pos _ _ _ i j Hp). split; [apply T3; congruence|by apply E6].
  - intros a id Hid. destruct (i_addr0 a id Hid) as (j & Hj & <-). destruct (moved_forth _ _ _ _ Hm Hj) as (i & Hi & E). exists i. split; [done|]. by apply same_place_key, set_pos_fields.
  - intros b p id Hid. destruct (i_tried0 b p id Hid) as (j & Hj & Hf & Eb & Ep). destruct (moved_forth _ _ _ _ Hm Hj) as (i & Hi & E). destruct (set_pos_fields i j E) as (Hp & _ & Hf' & _).
    exists i. split; [done|]. split; [congruence|]. by rewrite (same_place_tried _ i j Hp), (same_place_pos _ _ _ i j Hp).
  - intros b p id Hid. destruct (i_new0 b p id Hid) as (Hb & j & Hj & Hf & Ep). destruct (moved_forth _ _ _ _ Hm Hj) as (i & Hi & E). destruct (set_pos_fields i j E) as (Hp & _ & Hf' & _).
    split; [done|]. exists i. split; [done|]. split; [congruence|]. by rewrite (same_place_pos _ _ _ i j Hp).
  - unfold count_tried. rewrite (moved_count s s' true Hm). done.
  - unfold count_new. rewrite (moved_count s s' false Hm). done.
  - rewrite i_size0, <- !size_dom. f_equal. apply set_eq. intros id. rewrite !elem_of_dom. split; intros [i Hi].
    + destruct (moved_forth _ _ _ _ Hm Hi) as (j & -> & _). by eexists.
    + destruct (moved_back _ _ _ _ Hm Hi) as (j & -> & _). by eexists.
Qed.

Lemma SwapRandom_ok X dn s p1 p2 : inv X dn s -> 0 <= p1 < Z.of_nat (length (vRandom s)) -> 0 <= p2 < Z.of_nat (length (vRandom s)) ->
  exists s', SwapRandom p1 p2 s = Some s' /\ inv X dn s' /\ moved s s' /\ vRandom s' !! Z.to_nat p2 = vRandom s !! Z.to_nat p1.
Proof.
  intros Hinv H1 H2. unfold SwapRandom. destruct (Z.eqb_spec p1 p2) as [->|Hne]; [exists s; split; [done|]; split; [done|]; split; [apply moved_refl|done]|].
  unfold assert_. rewrite !(proj2 (Z.ltb_lt _ _)) by lia. cbn [andb mbind option_bind].
  destruct (lookup_lt_is_Some_2 (vRandom s) (Z.to_nat p1) ltac:(lia)) as [id1 V1]. destruct (lookup_lt_is_Some_2 (vRandom s) (Z.to_nat p2) ltac:(lia)) as [id2 V2].
  rewrite V1, V2. cbn [mbind option_bind]. destruct (i_random _ _ _ Hinv _ _ V1) as (i1 & I1 & R1). destruct (i_random _ _ _ Hinv _ _ V2) as (i2 & I2 & R2).
  rewrite I1, I2. cbn [mbind option_bind]. assert (id1 <> id2) as Hid by (intros ->; rewrite I1 in I2; injection I2 as ->; lia).
  pose proof (i_bound _ _ _ Hinv) as Hbound. rewrite !s32_id by (unfold is_s32; lia). unfold update. rewrite (alter_insert_eq _ _ id1 i1 I1).
  am.
  rewrite (alter_insert_eq _ _ id2 i2) by (by rewrite lookup_insert_ne).
  eexists. split; [done|]. set (m := <[id2 := _]> _). set (v := <[Z.to_nat p2 := id1]> _).
  match goal with |- inv _ _ ?st /\ _ => set (s' := st) end.
  assert (moved s s') as Hm.
  { split; try done; [|unfold s', v; cbn; by rewrite !length_insert]. intros id. unfold s', m. am. destruct (decide (id = id2)) as [->|]; [by rewrite lookup_insert_eq, I2|].
    rewrite lookup_insert_ne by done. destruct (decide (id = id1)) as [->|]; [by rewrite lookup_insert_eq, I1|by rewrite lookup_insert_ne]. }
  destruct (inv_positions _ _ _ Hinv) as [P1 P2].
  assert (v !! Z.to_nat p2 = Some id1) as Hv2 by (unfold v; apply list_lookup_insert_eq; rewrite length_insert; lia).
  assert (v !! Z.to_nat p1 = Some id2) as Hv1 by (unfold v; rewrite list_lookup_insert_ne by lia; apply list_lookup_insert_eq; lia).
  split; [|split; [done|exact Hv2]]. apply (inv_moved X dn s s' Hinv Hm). unfold s'. am. split.
  - intros id i. unfold m. destruct (decide (id = id2)) as [->|N2]; [rewrite lookup_insert_eq; intros [= <-]; cbn; split; [lia|done]|].
    rewrite lookup_insert_ne by done. destruct (decide (id = id1)) as [->|N1]; [rewrite lookup_insert_eq; intros [= <-]; cbn; split; [lia|done]|].
    rewrite lookup_insert_ne by done. intros Hi. destruct (P1 id i Hi) as [Hp Hv]. split; [done|].
    unfold v. rewrite !list_lookup_insert_ne; [done| |]; intros E; rewrite <- E in Hv; congruence.
  - intros p id. unfold m. destruct (decide (p = Z.to_nat p2)) as [->|N2].
    + rewrite Hv2. intros [= <-]. eexists. rewrite lookup_insert_ne, lookup_insert_eq by done. split; [done|]. cbn. lia.
    + destruct (decide (p = Z.to_nat p1)) as [->|N1]; [rewrite Hv1; intros [= <-]; eexists; rewrite lookup_insert_eq; split; [done|]; cbn; lia|].
      unfold v. rewrite !list_lookup_insert_ne by done. intros Hp. destruct (P2 p id Hp) as (i & Hi & Er). exists i. split; [|done].
      rewrite !lookup_insert_ne; [done| |]; intros <-; [rewrite I1 in Hi|rewrite I2 in Hi]; injection Hi as <-; lia.
Qed.

(** ** Deleting an entry *)

Lemma refs_zero t id : refs t id = 0 -> forall k, t !! k <> Some id.
Proof. intros E k Hk. by apply (proj1 (countP_zero (fun kv => kv.2 = id) t) E k id Hk). Qed.

Lemma refs_nonneg t id : 0 <= refs t id.
Proof. apply countP_nonneg. Qed.

Lemma Delete_ok X dn s id i : inv X dn s -> mapInfo s !! id = Some i -> fInTried i = false -> nRefCount i = 0 ->
  exists s', Delete id s = Some s' /\ inv (X ∖ {[id]}) dn s' /\ nKey s' = nKey s /\ nIdCount s' = nIdCount s /\ vvTried s' = vvTried s /\ vvNew s' = vvNew s /\
    mapInfo s' !! id = None /\ forall j, j <> id -> set_pos 0 <$> mapInfo s' !! j = set_pos 0 <$> mapInfo s !! j.
Proof.
  intros Hinv Hi Hf Hr. pose proof (i_info _ _ _ Hinv id i Hi) as He. destruct (e_pos _ _ _ _ He) as [Hp0 Hp].
  pose proof (i_bound _ _ _ Hinv) as Hb. apply lookup_lt_Some in Hp as Hlen. unfold Delete, assert_. rewrite Hi. cbn [mbind option_bind]. rewrite Hf, Hr. cbn [negb Z.eqb mbind option_bind].
  rewrite !u32_id by (unfold is_u32; lia).
  destruct (SwapRandom_ok X dn s (nRandomPos i) (Z.of_nat (length (vRandom s)) - 1) Hinv) as (s1 & -> & Hinv1 & Hm & Hlast); [lia|lia|]. cbn [mbind option_bind].
  rewrite (m_len _ _ Hm), (proj2 (Nat.ltb_lt _ _)) by lia. cbn [mbind option_bind]. eexists. split; [done|].
  rewrite Hp in Hlast. replace (Z.to_nat (Z.of_nat (length (vRandom s)) - 1)) with (length (vRandom s) - 1)%nat in Hlast by lia.
  destruct (moved_forth _ _ _ _ Hm Hi) as (i1 & Hi1 & E1). destruct (set_pos_fields i1 i E1) as (Hpl & Hr1 & Hf1 & _). rewrite <- (same_place_key i1 i Hpl).
  rewrite Hr in Hr1. rewrite Hf in Hf1. destruct Hinv1 as [J1 J2 J3 J4 J5 J6 J7 J8 J9]. am.
  assert (forall j k, mapInfo s1 !! j = Some k -> j <> id -> key k <> key i1) as Hkey.
  { intros j k Hk Hne E. pose proof (e_addr _ _ _ _ (J1 j k Hk)) as H1. pose proof (e_addr _ _ _ _ (J1 id i1 Hi1)) as H2. rewrite E in H1. congruence. }
  split; [|split_and!; [apply Hm..|by rewrite lookup_delete_eq|intros j Hne; rewrite lookup_delete_ne by done; apply Hm]].
  assert (forall k, vvNew s1 !! k <> Some id) as Hnoref by (apply refs_zero; rewrite <- (e_refs _ _ _ _ (J1 id i1 Hi1)); done).
  split; am.
  - intros j k Hk. apply lookup_delete_Some in Hk as [Hne Hk]. destruct (J1 j k Hk) as [E2 E3 E4 E5 E6 E7 E8 E9]. split; am; try done.
    + by rewrite lookup_delete_ne by (intros E; by apply (Hkey j k Hk)).
    + split; [apply E4|]. rewrite lookup_take_lt; [apply E4|]. destruct E4 as [Ep Ev]. apply lookup_lt_Some in Ev as Hl. rewrite (m_len _ _ Hm) in Hl.
      destruct (decide (Z.to_nat (nRandomPos k) = length (vRandom s) - 1)%nat) as [E|]; [|lia]. rewrite E, Hlast in Ev. congruence.
    + intros Hfk. rewrite (E8 Hfk). clear -Hne. set_solver.
  - intros a j Hj. apply lookup_delete_Some in Hj as [Hne Hj]. destruct (J2 a j Hj) as (k & Hk & Ek). exists k. split; [|done]. apply lookup_delete_Some. split; [|done].
    intros <-. rewrite Hi1 in Hk. injection Hk as <-. done.
  - intros p j Hj. apply lookup_take_Some in Hj as [Hj Hpl']. destruct (J3 p j Hj) as (k & Hk & Ek). exists k. split; [|done]. apply lookup_delete_Some. split; [|done].
    intros <-. destruct (J3 _ _ Hlast) as (k' & Hk' & Ek'). rewrite Hk in Hk'. injection Hk' as <-. lia.
  - intros b p j Hj. destruct (J4 b p j Hj) as (k & Hk & Hfk & Ek). exists k. split; [|done]. apply lookup_delete_Some. split; [|done]. intros <-. congruence.
  - intros b p j Hj. destruct (J5 b p j Hj) as (Hbb & k & Hk & Hfk). split; [done|]. exists k. split; [|done]. apply lookup_delete_Some. split; [|done]. intros <-. by apply (Hnoref (b, p)).
  - rewrite J6. unfold count_tried. rewrite (countP_delete _ (mapInfo s1) id), Hi1. unfold one. cbn [snd]. rewrite Hf1. simpl. lia.
  - rewrite J7. unfold count_new. rewrite (countP_delete _ (mapInfo s1) id), Hi1. unfold one. cbn [snd]. rewrite Hf1. rewrite decide_True by done. lia.
  - rewrite length_take, map_size_delete_Some by (by eexists). rewrite <- J8, (m_len _ _ Hm). lia.
  - rewrite length_take, (m_len _ _ Hm). rewrite (m_len _ _ Hm) in J9. lia.
Qed.

(** ** Changing what refers to an entry *)

Lemma inv_retable X X' dn s id i f t' : inv X dn s -> mapInfo s !! id = Some i -> fInTried i = false -> f i = set_refs (refs t' id) false i ->
  refs t' id <= ADDRMAN_NEW_BUCKETS_PER_ADDRESS -> (forall j, j <> id -> refs t' j = refs (vvNew s) j) ->
  (forall b p j, t' !! (b, p) = Some j -> vvNew s !! (b, p) = Some j \/ (j = id /\ 0 <= b < ADDRMAN_NEW_BUCKET_COUNT /\ p = npos s b i)) ->
  (forall j, j <> id -> j ∈ X' <-> j ∈ X) -> (id ∈ X' <-> refs t' id = 0) -> inv X' dn (with_new (nNew s) t' (update id f s)).
Proof.
  intros Hinv Hi Hf Hfi Hmax Hrefs Hslots HX Hid. pose proof Hinv as [J1 J2 J3 J4 J5 J6 J7 J8 J9]. unfold update. rewrite (alter_insert_eq f _ id i Hi), Hfi.
  assert (forall j k, mapInfo s !! j = Some k -> exists k', <[id := set_refs (refs t' id) false i]> (mapInfo s) !! j = Some k' /\ same_place k k' /\ fInTried k' = fInTried k /\ nRandomPos k' = nRandomPos k) as Hl.
  { intros j k Hk. destruct (decide (j = id)) as [->|]; [|exists k; by rewrite lookup_insert_ne].
    rewrite Hi in Hk. injection Hk as <-. eexists. rewrite lookup_insert_eq. split; [done|]. by rewrite Hf. }
  split; am.
  - intros j k Hk. destruct (decide (j = id)) as [->|Hne].
    + rewrite lookup_insert_eq in Hk. injection Hk as <-. destruct (J1 id i Hi) as [E1 E2 E3 E4 E5 E6 E7 E8]. split; am; done.
    + rewrite lookup_insert_ne in Hk by done. destruct (J1 j k Hk) as [E1 E2 E3 E4 E5 E6 E7 E8]. split; am; try done; [by rewrite Hrefs|intros Hfk; rewrite (HX j Hne); by apply E7].
  - intros a j Hj. destruct (J2 a j Hj) as (k & Hk & <-). destruct (Hl j k Hk) as (k' & -> & Hp & _). exists k'. split; [done|]. by rewrite (same_place_key k k').
  - intros p j Hj. destruct (J3 p j Hj) as (k & Hk & E). destruct (Hl j k Hk) as (k' & -> & _ & _ & E'). exists k'. split; [done|congruence].
  - intros b p j Hj. destruct (J4 b p j Hj) as (k & Hk & Hfk & Eb & Ep). destruct (Hl j k Hk) as (k' & -> & Hp & E' & _). exists k'. split; [done|]. split; [congruence|].
    by rewrite <- (same_place_tried _ k k' Hp), <- (same_place_pos _ _ _ k k' Hp).
  - intros b p j Hj. destruct (Hslots b p j Hj) as [Hj'|(-> & Hb & Ep)].
    + destruct (J5 b p j Hj') as (Hb & k & Hk & Hfk & Ep). split; [done|]. destruct (Hl j k Hk) as (k' & -> & Hp & E' & _). exists k'. split; [done|]. split; [congruence|].
      by rewrite <- (same_place_pos _ _ _ k k' Hp).
    + split; [done|]. eexists. rewrite lookup_insert_eq. split; [done|]. split; [done|]. exact Ep.
  - rewrite J6. unfold count_tried. by rewrite (count_alter true _ id i).
  - rewrite J7. unfold count_new. by rewrite (count_alter false _ id i).
  - rewrite map_size_insert, Hi. done.
  - done.
Qed.

Lemma refs_delete t k id j : t !! k = Some id -> refs (delete k t) j = refs t j - (if decide (j = id) then 1 else 0).
Proof.
  intros Hk. unfold refs. rewrite (countP_delete _ t k), Hk. unfold one. cbn [snd]. destruct (decide (id = j)), (decide (j = id)); subst; try done; lia.
Qed.

Lemma refs_insert t k id j : t !! k = None -> refs (<[k := id]> t) j = refs t j + (if decide (j = id) then 1 else 0).
Proof.
  intros Hk. unfold refs. rewrite countP_insert, Hk. unfold one. cbn [snd]. destruct (decide (id = j)), (decide (j = id)); subst; try done; lia.
Qed.

(** A slot is emptied. *)
Lemma inv_unref X dn s b p id i : inv X dn s -> vvNew s !! (b, p) = Some id -> mapInfo s !! id = Some i ->
  1 <= nRefCount i /\ fInTried i = false /\
  inv (if decide (nRefCount i - 1 = 0) then {[id]} ∪ X else X) dn
    (with_new (nNew s) (delete (b, p) (vvNew s)) (update id (fun i => set_refs (nRefCount i - 1) (fInTried i) i) s)).
Proof.
  intros Hinv Hs Hi. pose proof (i_info _ _ _ Hinv id i Hi) as He. destruct (i_new _ _ _ Hinv _ _ _ Hs) as (_ & i' & Hi' & Hf & _). rewrite Hi in Hi'. injection Hi' as <-.
  pose proof (e_refs _ _ _ _ He) as Er. assert (1 <= nRefCount i) as Hr1 by (rewrite Er; unfold refs; pose proof (countP_pos (fun kv => kv.2 = id) (vvNew s) (b, p) id Hs eq_refl); lia).
  split; [done|]. split; [done|]. assert (refs (delete (b, p) (vvNew s)) id = nRefCount i - 1) as Er' by (rewrite (refs_delete _ _ id id Hs), decide_True by done; lia).
  apply (inv_retable X _ dn s id i); try done.
  - by rewrite Er', Hf.
  - rewrite Er'. pose proof (e_max _ _ _ _ He). lia.
  - intros j Hne. rewrite (refs_delete _ _ id j Hs), decide_False by done. lia.
  - intros b' p' j Hj. left. by apply lookup_delete_Some in Hj as [_ ?].
  - intros j Hne. destruct (decide _); clear -Hne; set_solver.
  - rewrite Er'. destruct (decide _) as [Hz|Hne]; [clear -Hz; set_solver|]. split; [|done]. intros Hin. exfalso. apply (e_new _ _ _ _ He Hf) in Hin. lia.
Qed.

(** An entry is put into an empty slot. *)
Lemma inv_ref X dn s b p id i f : inv X dn s -> vvNew s !! (b, p) = None -> mapInfo s !! id = Some i -> fInTried i = false -> 0 <= b < ADDRMAN_NEW_BUCKET_COUNT -> p = npos s b i ->
  nRefCount i < ADDRMAN_NEW_BUCKETS_PER_ADDRESS -> f i = set_refs (nRefCount i + 1) false i ->
  inv (X ∖ {[id]}) dn (with_new (nNew s) (<[(b, p) := id]> (vvNew s)) (update id f s)).
Proof.
  intros Hinv Hs Hi Hf Hb Hp Hmax Hfi. pose proof (i_info _ _ _ Hinv id i Hi) as He. pose proof (e_refs _ _ _ _ He) as Er. pose proof (refs_nonneg (vvNew s) id).
  assert (refs (<[(b, p) := id]> (vvNew s)) id = nRefCount i + 1) as Er' by (rewrite (refs_insert _ _ id id Hs), decide_True by done; lia).
  apply (inv_retable X _ dn s id i); try done.
  - by rewrite Er'.
  - rewrite Er'. lia.
  - intros j Hne. rewrite (refs_insert _ _ id j Hs), decide_False by done. lia.
  - intros b' p' j Hj. destruct (decide ((b', p') = (b, p))) as [[= -> ->]|Hne]; [|left; by rewrite lookup_insert_ne in Hj by done].
    rewrite lookup_insert_eq in Hj. injection Hj as <-. by right.
  - intros j Hne. clear -Hne. set_solver.
  - rewrite Er'. split; [clear; set_solver|lia].
Qed.

(** ** Small changes of the invariant *)

Lemma inv_nnew X dn s d : inv X dn s -> inv X (dn + d) (with_new (nNew s + d) (vvNew s) s).
Proof.
  intros [J1 J2 J3 J4 J5 J6 J7 J8 J9]. split; am; try done; [|lia]. intros id i Hi. destruct (J1 id i Hi). by split.
Qed.

Lemma inv_weaken X X' dn s : inv X dn s -> (forall id i, mapInfo s !! id = Some i -> fInTried i = false -> id ∈ X <-> id ∈ X') -> inv X' dn s.
Proof.
  intros [J1 J2 J3 J4 J5 J6 J7 J8 J9] HX. split; try done. intros id i Hi. destruct (J1 id i Hi) as [E1 E2 E3 E4 E5 E6 E7 E8]. split; try done.
  intros Hf. rewrite <- (HX id i Hi Hf). by apply E7.
Qed.

Lemma id_not_free X dn s id i : inv X dn s -> mapInfo s !! id = Some i -> (id =? -1) = false.
Proof. intros Hinv Hi. apply Z.eqb_neq. pose proof (e_id _ _ _ _ (i_info _ _ _ Hinv id i Hi)). lia. Qed.

Lemma new_slot_in s b p : 0 <= b < ADDRMAN_NEW_BUCKET_COUNT -> 0 <= p < ADDRMAN_BUCKET_SIZE -> new_slot s b p = Some (default (-1) (vvNew s !! (b, p))).
Proof. apply slot_in. Qed.
Lemma tried_slot_in s b p : 0 <= b < ADDRMAN_TRIED_BUCKET_COUNT -> 0 <= p < ADDRMAN_BUCKET_SIZE -> tried_slot s b p = Some (default (-1) (vvTried s !! (b, p))).
Proof. apply slot_in. Qed.

Lemma new_slot_of s b p o : 0 <= b < ADDRMAN_NEW_BUCKET_COUNT -> 0 <= p < ADDRMAN_BUCKET_SIZE -> vvNew s !! (b, p) = o ->
  new_slot s b p = Some (match o with Some x => x | None => -1 end).
Proof. intros Hb Hp <-. rewrite new_slot_in by done. by destruct (vvNew s !! (b, p)). Qed.
Lemma tried_slot_of s b p o : 0 <= b < ADDRMAN_TRIED_BUCKET_COUNT -> 0 <= p < ADDRMAN_BUCKET_SIZE -> vvTried s !! (b, p) = o ->
  tried_slot s b p = Some (match o with Some x => x | None => -1 end).
Proof. intros Hb Hp <-. rewrite tried_slot_in by done. by destruct (vvTried s !! (b, p)). Qed.

(** The entries that are not the one in the slot stay as they are, but for the random
    order. *)
Record kept (D : Z -> Prop) (s s' : CAddrMan) : Prop := {
  k_key : nKey s' = nKey s; k_count : nIdCount s' = nIdCount s; k_tried : vvTried s' = vvTried s;
  k_info : forall j, ~ D j -> set_pos 0 <$> mapInfo s' !! j = set_pos 0 <$> mapInfo s !! j
}.

Lemma kept_entry D s s' j i : kept D s s' -> ~ D j -> mapInfo s !! j = Some i -> exists i', mapInfo s' !! j = Some i' /\ set_pos 0 i' = set_pos 0 i.
Proof. intros [] HD Hi. specialize (k_info0 j HD). rewrite Hi in k_info0. destruct (mapInfo s' !! j) as [i'|]; [|done]. exists i'. split; [done|]. by apply (inj Some) in k_info0. Qed.

Lemma ClearNew_ok X dn s b p : inv X dn s -> 0 <= b < ADDRMAN_NEW_BUCKET_COUNT -> 0 <= p < ADDRMAN_BUCKET_SIZE ->
  exists s', ClearNew b p s = Some s' /\ inv X dn s' /\ vvNew s' = delete (b, p) (vvNew s) /\ kept (fun j => vvNew s !! (b, p) = Some j) s s'.
Proof.
  intros Hinv Hb Hp. unfold ClearNew. rewrite (new_slot_of s b p _ Hb Hp eq_refl). cbn [mbind option_bind]. destruct (vvNew s !! (b, p)) as [id|] eqn:Hs.
  2: { exists s. split; [done|]. split; [done|]. split; [by rewrite delete_id|by split]. }
  destruct (i_new _ _ _ Hinv _ _ _ Hs) as (_ & i & Hi & _). rewrite (id_not_free _ _ _ _ _ Hinv Hi). unfold info_at. rewrite Hi.
  destruct (inv_unref X dn s b p id i Hinv Hs Hi) as (Hr & Hf & Hinv1). unfold assert_. rewrite Z.gtb_ltb, (proj2 (Z.ltb_lt 0 (nRefCount i))) by lia. cbn [mbind option_bind].
  change (set_slot (vvNew (update id (fun i0 => set_refs (nRefCount i0 - 1) (fInTried i0) i0) s)) b p (-1)) with (delete (b, p) (vvNew s)).
  change (nNew (update id _ s)) with (nNew s). set (s1 := with_new _ _ _) in *.
  assert (mapInfo s1 !! id = Some (set_refs (nRefCount i - 1) (fInTried i) i)) as Hi1 by (unfold s1, update; am; rewrite lookup_alter_eq, Hi; done).
  assert (forall j, j <> id -> mapInfo s1 !! j = mapInfo s !! j) as Hj1 by (intros j Hne; unfold s1, update; am; by rewrite lookup_alter_ne).
  destruct (Z.eqb_spec (nRefCount i - 1) 0) as [Hz|Hnz].
  - rewrite decide_True in Hinv1 by done. destruct (Delete_ok _ dn s1 id _ Hinv1 Hi1) as (s' & -> & Hinv' & E1 & E2 & E3 & E4 & E5 & E6); [done|done|].
    exists s'. split; [done|]. split; [|split; [by rewrite E4|split; try done; intros j Hne; rewrite E6 by congruence; by rewrite Hj1 by congruence]].
    apply (inv_weaken _ X dn s' Hinv'). intros j k Hk _. assert (j <> id) as Hne by congruence. clear -Hne. set_solver.
  - rewrite decide_False in Hinv1 by done. exists s1. split; [done|]. split; [done|]. split; [done|]. split; try done. intros j Hne. by rewrite Hj1 by congruence.
Qed.

(** ** Leaving the "new" buckets *)

Definition orphan (X : gset Z) (id r : Z) : gset Z := if decide (r = 0) then {[id]} ∪ X else X.

Lemma leave_new_ok fuel : forall X dn s bucket nId i, nId ∉ X -> mapInfo s !! nId = Some i -> fInTried i = false -> inv (orphan X nId (nRefCount i)) dn s ->
  0 <= bucket -> bucket + Z.of_nat fuel = ADDRMAN_NEW_BUCKET_COUNT ->
  exists s' r, leave_new Hash fuel bucket nId s = Some s' /\ mapInfo s' !! nId = Some (set_refs r false i) /\ inv (orphan X nId r) dn s' /\
    kept (fun j => j = nId) s s' /\ (forall k j, vvNew s' !! k = Some j -> vvNew s !! k = Some j) /\
    forall b, bucket <= b < ADDRMAN_NEW_BUCKET_COUNT -> vvNew s' !! (b, npos s b i) <> Some nId.
Proof.
  induction fuel as [|fuel IH]; intros X dn s bucket nId i HX Hi Hf Hinv Hb Hsum.
  { exists s, (nRefCount i). split; [done|]. split; [rewrite Hi; f_equal; destruct i; unfold set_refs; cbn in *; by rewrite Hf|]. split; [done|]. split; [by split|]. split; [done|]. intros b Hbb. lia. }
  cbn [leave_new]. rewrite Hi. cbn [mbind option_bind]. set (p := npos s bucket i).
  rewrite (new_slot_of s bucket p _ ltac:(lia) (pos_range _ _ _ _) eq_refl). cbn [mbind option_bind].
  destruct (vvNew s !! (bucket, p)) as [id|] eqn:Hs; [destruct (Z.eqb_spec id nId) as [->|Hne]|].
  - destruct (inv_unref _ dn s bucket p nId i Hinv Hs Hi) as (Hr & _ & Hinv1).
    change (update nId _ (with_new (nNew s) (set_slot (vvNew s) bucket p (-1)) s)) with
      (with_new (nNew s) (delete (bucket, p) (vvNew s)) (update nId (fun i => set_refs (nRefCount i - 1) (fInTried i) i) s)). set (s1 := with_new _ _ _) in *.
    assert (mapInfo s1 !! nId = Some (set_refs (nRefCount i - 1) false i)) as Hi1 by (unfold s1, update; am; rewrite lookup_alter_eq, Hi; cbn; by rewrite Hf).
    destruct (IH X dn s1 (bucket + 1) nId _ HX Hi1 eq_refl) as (s' & r & -> & Hi' & Hinv' & Hk & Hsub & Hclear); [|lia|lia|].
    { unfold orphan in *. cbn [nRefCount set_refs]. rewrite (decide_False (P := nRefCount i = 0)) in Hinv1 by lia. exact Hinv1. }
    exists s', r. split; [done|]. split; [by rewrite Hi'|]. split; [done|]. split; [|split].
    + destruct Hk as [K1 K2 K3 K4]. split; [done|done|done|]. intros j Hj. rewrite (K4 j Hj). unfold s1, update. am. by rewrite lookup_alter_ne by done.
    + intros k j Hkj. apply Hsub in Hkj. unfold s1 in Hkj. am in Hkj. by apply lookup_delete_Some in Hkj as [_ ?].
    + intros b Hbb. destruct (decide (b = bucket)) as [->|]; [|apply (Hclear b); lia]. intros H%Hsub. unfold s1 in H. am in H. by rewrite lookup_delete_eq in H.
  - destruct (IH X dn s (bucket + 1) nId i HX Hi Hf Hinv ltac:(lia) ltac:(lia)) as (s' & r & -> & Hi' & Hinv' & Hk & Hsub & Hclear).
    exists s', r. split_and!; try done. intros b Hbb. destruct (decide (b = bucket)) as [->|]; [|apply (Hclear b); lia]. intros H%Hsub. fold p in H. congruence.
  - destruct (Z.eqb_spec (-1) nId) as [Hbad|_]; [exfalso; pose proof (e_id _ _ _ _ (i_info _ _ _ Hinv nId i Hi)); lia|].
    destruct (IH X dn s (bucket + 1) nId i HX Hi Hf Hinv ltac:(lia) ltac:(lia)) as (s' & r & -> & Hi' & Hinv' & Hk & Hsub & Hclear).
    exists s', r. split_and!; try done. intros b Hbb. destruct (decide (b = bucket)) as [->|]; [|apply (Hclear b); lia]. intros H%Hsub. fold p in H. congruence.
Qed.

(** After the loop nothing refers to the entry. *)
Lemma leave_all s i nId : consistent s -> mapInfo s !! nId = Some i -> fInTried i = false ->
  exists s', leave_new Hash (Z.to_nat ADDRMAN_NEW_BUCKET_COUNT) 0 nId s = Some s' /\ mapInfo s' !! nId = Some (set_refs 0 false i) /\ inv {[nId]} 0 s' /\ kept (fun j => j = nId) s s'.
Proof.
  intros Hinv Hi Hf. pose proof (i_info _ _ _ Hinv nId i Hi) as He. assert (nRefCount i <> 0) as Hr by (intros E; apply (e_new _ _ _ _ He Hf) in E; set_solver).
  destruct (leave_new_ok (Z.to_nat ADDRMAN_NEW_BUCKET_COUNT) ∅ 0 s 0 nId i) as (s' & r & E & Hi' & Hinv' & Hk & Hsub & Hclear); [set_solver|done|done| |lia|done|].
  { unfold orphan. by rewrite decide_False. }
  assert (r = 0) as ->.
  { pose proof (e_refs _ _ _ _ (i_info _ _ _ Hinv' nId _ Hi')) as Er. cbn [nRefCount set_refs] in Er. rewrite Er. apply countP_zero. intros [b p] j Hj E'. cbn in E'. subst j.
    destruct (i_new _ _ _ Hinv' _ _ _ Hj) as (Hb & k & Hk' & _ & Ep). rewrite Hi' in Hk'. injection Hk' as <-. apply (Hclear b Hb). rewrite <- Hj. f_equal. f_equal.
    rewrite Ep, (k_key _ _ _ Hk). by apply same_place_pos. }
  exists s'. split; [done|]. split; [done|]. split; [|done]. unfold orphan in Hinv'. rewrite decide_True in Hinv' by done. by rewrite (right_id_L ∅ (∪)) in Hinv'.
Qed.

(** ** Moving to the "tried" table *)

Lemma tried_refs X dn s id i : inv X dn s -> mapInfo s !! id = Some i -> fInTried i = true -> nRefCount i = 0 /\ refs (vvNew s) id = 0.
Proof.
  intros Hinv Hi Hf. assert (refs (vvNew s) id = 0) as E.
  { apply countP_zero. intros [b p] j Hj E. cbn in E. subst j. destruct (i_new _ _ _ Hinv _ _ _ Hj) as (_ & k & Hk & Hfk & _). congruence. }
  split; [|done]. by rewrite (e_refs _ _ _ _ (i_info _ _ _ Hinv id i Hi)).
Qed.

(** An entry leaves the "tried" table and is not in the "new" one yet. *)
Lemma inv_untry X dn s b p id i : inv X dn s -> vvTried s !! (b, p) = Some id -> mapInfo s !! id = Some i ->
  fInTried i = true /\ inv ({[id]} ∪ X) (dn - 1) (with_tried (nTried s - 1) (delete (b, p) (vvTried s)) (update id (fun i => set_refs (nRefCount i) false i) s)).
Proof.
  intros Hinv Hs Hi. pose proof Hinv as [J1 J2 J3 J4 J5 J6 J7 J8 J9]. destruct (J4 b p id Hs) as (i' & Hi' & Hf & Eb & Ep). rewrite Hi in Hi'. injection Hi' as <-.
  split; [done|]. destruct (tried_refs _ _ _ _ _ Hinv Hi Hf) as [Hr Hrefs]. unfold update. rewrite (alter_insert_eq _ _ id i Hi). set (i1 := set_refs (nRefCount i) false i).
  assert (forall j k, mapInfo s !! j = Some k -> exists k', <[id := i1]> (mapInfo s) !! j = Some k' /\ same_place k k' /\ nRandomPos k' = nRandomPos k /\ (j <> id -> fInTried k' = fInTried k)) as Hl.
  { intros j k Hk. destruct (decide (j = id)) as [->|]; [|exists k; by rewrite lookup_insert_ne]. rewrite Hi in Hk. injection Hk as <-. exists i1. by rewrite lookup_insert_eq. }
  split; am.
  - intros j k Hk. destruct (decide (j = id)) as [->|Hne].
    + rewrite lookup_insert_eq in Hk. injection Hk as <-. destruct (J1 id i Hi) as [E1 E2 E3 E4 E5 E6 E7 E8]. split; am; try done. intros _. cbn. rewrite Hr. split; [|done]. intros _. clear. set_solver.
    + rewrite lookup_insert_ne in Hk by done. destruct (J1 j k Hk) as [E1 E2 E3 E4 E5 E6 E7 E8]. split; am; try done.
      * intros Hfk. destruct (E6 Hfk) as [H1 H2]. split; [done|]. rewrite lookup_delete_ne; [done|]. intros E. rewrite <- E in H2. congruence.
      * intros Hfk. rewrite (E7 Hfk). clear -Hne. set_solver.
  - intros a j Hj. destruct (J2 a j Hj) as (k & Hk & <-). destruct (Hl j k Hk) as (k' & -> & Hp & _). exists k'. split; [done|]. by rewrite (same_place_key k k').
  - intros q j Hj. destruct (J3 q j Hj) as (k & Hk & E). destruct (Hl j k Hk) as (k' & -> & _ & E' & _). exists k'. split; [done|congruence].
  - intros b' p' j Hj. apply lookup_delete_Some in Hj as [Hne Hj]. destruct (J4 b' p' j Hj) as (k & Hk & Hfk & Eb' & Ep'). destruct (Hl j k Hk) as (k' & -> & Hp & _ & Ef). exists k'. split; [done|].
    assert (j <> id) as Hjid by (intros ->; apply Hne; rewrite Hi in Hk; injection Hk as <-; congruence). split; [by rewrite Ef|].
    by rewrite <- (same_place_tried _ k k' Hp), <- (same_place_pos _ _ _ k k' Hp).
  - intros b' p' j Hj. destruct (J5 b' p' j Hj) as (Hb & k & Hk & Hfk & Ep'). split; [done|]. destruct (Hl j k Hk) as (k' & -> & Hp & _ & Ef). exists k'. split; [done|].
    assert (j <> id) as Hjid by congruence. split; [by rewrite Ef|]. by rewrite <- (same_place_pos _ _ _ k k' Hp).
  - rewrite J6. unfold count_tried. rewrite countP_insert, Hi. unfold one. cbn [snd]. rewrite Hf. change (fInTried i1) with false. rewrite decide_False, decide_True by done. lia.
  - rewrite J7. unfold count_new. rewrite countP_insert, Hi. unfold one. cbn [snd]. rewrite Hf. change (fInTried i1) with false. rewrite decide_True, decide_False by done. lia.
  - rewrite map_size_insert, Hi. done.
  - done.
Qed.

Lemma evict_ok X dn s b p id : inv X dn s -> vvTried s !! (b, p) = Some id ->
  exists s', evict Hash b p id s = Some s' /\ inv (X ∖ {[id]}) dn s' /\ vvTried s' = delete (b, p) (vvTried s) /\ nKey s' = nKey s /\
    (forall j i, j <> id -> mapInfo s !! j = Some i -> refs (vvNew s) j = 0 -> exists i', mapInfo s' !! j = Some i' /\ set_pos 0 i' = set_pos 0 i).
Proof.
  intros Hinv Hs. destruct (i_tried _ _ _ Hinv _ _ _ Hs) as (i & Hi & _). destruct (inv_untry X dn s b p id i Hinv Hs Hi) as [Hf Hinv1].
  destruct (tried_refs _ _ _ _ _ Hinv Hi Hf) as [Hr Hrefs]. unfold evict. rewrite Hi. cbn [mbind option_bind].
  change (set_slot (vvTried (update id (fun i0 => set_refs (nRefCount i0) false i0) s)) b p (-1)) with (delete (b, p) (vvTried s)).
  change (nTried (update id _ s)) with (nTried s). set (s1 := with_tried _ _ _) in *. change (nKey s1) with (nKey s).
  set (ub := GetNewBucket Hash (nKey s) i (source i)). set (up := npos s ub i).
  assert (mapInfo s1 !! id = Some (set_refs (nRefCount i) false i)) as Hi1 by (unfold s1, update; am; by rewrite lookup_alter_eq, Hi).
  destruct (ClearNew_ok _ _ s1 ub up Hinv1) as (s2 & -> & Hinv2 & Hnew2 & Hk2); [apply nbucket_range|apply pos_range|]. cbn [mbind option_bind].
  assert (vvNew s2 !! (ub, up) = None) as Hfree by (rewrite Hnew2; apply lookup_delete_eq).
  rewrite (new_slot_of s2 ub up _ (nbucket_range _ _ _) (pos_range _ _ _ _) Hfree). cbn [mbind option_bind assert_].
  change (-1 =? -1) with true. unfold assert_. cbn [mbind option_bind].
  destruct (kept_entry _ _ _ _ _ Hk2 (refs_zero _ _ Hrefs (ub, up)) Hi1) as (i2 & Hi2 & E2). destruct (set_pos_fields _ _ E2) as (Hp2 & Hr2 & Hf2 & _).
  assert (up = npos s2 ub i2) as Eup by (rewrite (k_key _ _ _ Hk2), (same_place_pos _ _ _ _ _ Hp2); done).
  cbn in Hf2, Hr2. rewrite Hr in Hr2.
  pose proof (inv_ref _ _ s2 ub up id i2 (fun i => set_refs 1 (fInTried i) i) Hinv2 Hfree Hi2 Hf2 (nbucket_range _ _ _) Eup ltac:(rewrite Hr2; done) ltac:(by rewrite Hr2, Hf2)) as Hinv3.
  set (s3 := with_new (nNew s2) _ _) in *. eexists. split; [done|].
  assert (set_slot (vvNew (update id (fun i0 => set_refs 1 (fInTried i0) i0) s2)) ub up id = <[(ub, up) := id]> (vvNew s2)) as ->.
  { unfold set_slot. by rewrite (id_not_free _ _ _ _ _ Hinv Hi). }
  split; [|split; [|split]].
  - pose proof (inv_nnew _ _ s3 1 Hinv3) as Hinv4. replace (dn - 1 + 1) with dn in Hinv4 by lia. change (with_new (nNew s3 + 1) (vvNew s3) s3) with (with_new (nNew s2 + 1) (<[(ub, up) := id]> (vvNew s2)) (update id (fun i0 => set_refs 1 (fInTried i0) i0) s2)) in Hinv4.
    change (nNew (update id _ s2)) with (nNew s2). apply (inv_weaken _ _ _ _ Hinv4). intros j k _ _. clear. set_solver.
  - unfold update. am. rewrite (k_tried _ _ _ Hk2). done.
  - unfold update. am. rewrite (k_key _ _ _ Hk2). done.
  - intros j k Hne Hj Href. assert (mapInfo s1 !! j = Some k) as Hj1 by (unfold s1, update; am; by rewrite lookup_alter_ne by done).
    destruct (kept_entry _ _ _ _ _ Hk2 (refs_zero _ _ Href (ub, up)) Hj1) as (k' & Hk' & E'). exists k'. split; [|done]. unfold update. am. by rewrite lookup_alter_ne by done.
Qed.

(** The entry takes its slot of the "tried" table. *)
Lemma inv_try dn s b p id i : inv {[id]} dn s -> mapInfo s !! id = Some i -> fInTried i = false -> nLastSuccess i <> 0 -> b = tbucket s i -> p = tpos s i -> vvTried s !! (b, p) = None ->
  inv ∅ (dn + 1) (update id (fun i => set_refs (nRefCount i) true i) (with_tried (nTried s + 1) (<[(b, p) := id]> (vvTried s)) s)).
Proof.
  intros Hinv Hi Hf Hsucc Eb Ep Hfree. pose proof Hinv as [J1 J2 J3 J4 J5 J6 J7 J8 J9]. unfold update. am. rewrite (alter_insert_eq _ _ id i Hi). set (i1 := set_refs (nRefCount i) true i).
  assert (nRefCount i = 0) as Hr by (apply (e_new _ _ _ _ (J1 id i Hi) Hf); set_solver).
  assert (forall k, vvNew s !! k <> Some id) as Hno by (apply refs_zero; by rewrite <- (e_refs _ _ _ _ (J1 id i Hi))).
  assert (forall j k, mapInfo s !! j = Some k -> exists k', <[id := i1]> (mapInfo s) !! j = Some k' /\ same_place k k' /\ nRandomPos k' = nRandomPos k /\ (j <> id -> fInTried k' = fInTried k)) as Hl.
  { intros j k Hk. destruct (decide (j = id)) as [->|]; [|exists k; by rewrite lookup_insert_ne]. rewrite Hi in Hk. injection Hk as <-. exists i1. by rewrite lookup_insert_eq. }
  split; am.
  - intros j k Hk. destruct (decide (j = id)) as [->|Hne].
    + rewrite lookup_insert_eq in Hk. injection Hk as <-. destruct (J1 id i Hi) as [E1 E2 E3 E4 E5 E6 E7 E8]. split; am; try done. intros _. split; [done|]. cbn. subst b p. apply lookup_insert_eq.
    + rewrite lookup_insert_ne in Hk by done. destruct (J1 j k Hk) as [E1 E2 E3 E4 E5 E6 E7 E8]. split; am; try done.
      * intros Hfk. destruct (E6 Hfk) as [H1 H2]. split; [done|]. rewrite lookup_insert_ne; [done|]. intros E. rewrite <- E in H2. congruence.
      * intros Hfk. rewrite (E7 Hfk). clear -Hne. set_solver.
  - intros a j Hj. destruct (J2 a j Hj) as (k & Hk & <-). destruct (Hl j k Hk) as (k' & -> & Hp & _). exists k'. split; [done|]. by rewrite (same_place_key k k').
  - intros q j Hj. destruct (J3 q j Hj) as (k & Hk & E). destruct (Hl j k Hk) as (k' & -> & _ & E' & _). exists k'. split; [done|congruence].
  - intros b' p' j Hj. destruct (decide ((b', p') = (b, p))) as [[= -> ->]|Hne].
    + rewrite lookup_insert_eq in Hj. injection Hj as <-. exists i1. rewrite lookup_insert_eq. by subst.
    + rewrite lookup_insert_ne in Hj by done. destruct (J4 b' p' j Hj) as (k & Hk & Hfk & Eb' & Ep'). assert (j <> id) by congruence.
      exists k. rewrite lookup_insert_ne by done. done.
  - intros b' p' j Hj. destruct (J5 b' p' j Hj) as (Hb & k & Hk & Hfk & Ep'). split; [done|]. assert (j <> id) by (intros ->; by apply (Hno (b', p'))). exists k. by rewrite lookup_insert_ne.
  - rewrite J6. unfold count_tried. rewrite countP_insert, Hi. unfold one. cbn [snd]. rewrite Hf. change (fInTried i1) with true. rewrite decide_True, decide_False by done. lia.
  - rewrite J7. unfold count_new. rewrite countP_insert, Hi. unfold one. cbn [snd]. rewrite Hf. change (fInTried i1) with true. rewrite decide_False, decide_True by done. lia.
  - rewrite map_size_insert, Hi. done.
  - done.
Qed.

Lemma MakeTried_ok s nId i : consistent s -> mapInfo s !! nId = Some i -> fInTried i = false -> nLastSuccess i <> 0 ->
  exists s' i', MakeTried Hash nId s = Some s' /\ consistent s' /\ mapInfo s' !! nId = Some i' /\ fInTried i' = true /\ address i' = address i.
Proof.
  intros Hinv Hi Hf Hsucc. destruct (leave_all s i nId Hinv Hi Hf) as (s1 & E1 & Hi1 & Hinv1 & Hk1). unfold MakeTried. rewrite E1. cbn [mbind option_bind].
  pose proof (inv_nnew _ _ s1 (-1) Hinv1) as Hinv2. set (s2 := with_new (nNew s1 - 1) (vvNew s1) s1). change (with_new (nNew s1 + -1) (vvNew s1) s1) with s2 in Hinv2.
  change (mapInfo s2) with (mapInfo s1). rewrite Hi1. set (i1 := set_refs 0 false i) in *. cbn [mbind option_bind]. unfold assert_. change (nRefCount i1 =? 0) with true. cbn [mbind option_bind].
  set (b := tbucket s2 i1). set (p := tpos s2 i1). change (GetBucketPosition Hash (nKey s2) false b i1) with p.
  assert (exists s3 i3, (nIdEvict ← tried_slot s2 b p; if negb (nIdEvict =? -1) then evict Hash b p nIdEvict s2 else Some s2) = Some s3 /\ inv {[nId]} (-1) s3 /\
    vvTried s3 !! (b, p) = None /\ nKey s3 = nKey s2 /\ mapInfo s3 !! nId = Some i3 /\ set_pos 0 i3 = set_pos 0 i1) as (s3 & i3 & E3 & Hinv3 & Hfree & Hkey & Hi3 & Hs3).
  { rewrite (tried_slot_of s2 b p _ (tbucket_range _ _) (pos_range _ _ _ _) eq_refl). cbn [mbind option_bind]. destruct (vvTried s2 !! (b, p)) as [ev|] eqn:Hev.
    - destruct (i_tried _ _ _ Hinv2 _ _ _ Hev) as (ie & Hie & Hfe & _). rewrite (id_not_free _ _ _ _ _ Hinv2 Hie). cbn [negb].
      destruct (evict_ok _ _ s2 b p ev Hinv2 Hev) as (s3 & E3 & Hinv3 & Ht3 & Hk3 & Hothers). assert (nId <> ev) as Hne by (intros <-; change (mapInfo s2) with (mapInfo s1) in Hie; rewrite Hi1 in Hie; injection Hie as <-; done).
      destruct (Hothers nId i1 Hne Hi1) as (i3 & Hi3 & Hs3); [by rewrite <- (e_refs _ _ _ _ (i_info _ _ _ Hinv2 nId i1 Hi1))|].
      exists s3, i3. split; [done|]. split; [|split; [by rewrite Ht3, lookup_delete_eq|done]]. apply (inv_weaken _ _ _ _ Hinv3). intros j k _ _. clear -Hne. set_solver.
    - change (-1 =? -1) with true. cbn [negb]. exists s2, i1. by split_and!. }
  destruct (tried_slot s2 b p) as [ev|]; [|done]. cbn [mbind option_bind] in E3 |- *. rewrite E3. cbn [mbind option_bind].
  rewrite (tried_slot_of s3 b p _ (tbucket_range _ _) (pos_range _ _ _ _) Hfree). cbn [mbind option_bind]. change (-1 =? -1) with true. unfold assert_. cbn [mbind option_bind].
  destruct (set_pos_fields _ _ Hs3) as (Hp3 & Hr3 & Hf3 & _). assert (set_slot (vvTried s3) b p nId = <[(b, p) := nId]> (vvTried s3)) as -> by (unfold set_slot; by rewrite (id_not_free _ _ _ _ _ Hinv3 Hi3)).
  assert (nLastSuccess i3 = nLastSuccess i /\ address i3 = address i) as [Hls Ha] by (apply set_pos_same in Hs3; rewrite Hs3; done).
  pose proof (inv_try (-1) s3 b p nId i3 Hinv3 Hi3 Hf3 ltac:(congruence)) as Hinv4. rewrite Hkey in Hinv4.
  specialize (Hinv4 ltac:(rewrite (same_place_tried _ _ _ Hp3); done) ltac:(rewrite (same_place_tried _ _ _ Hp3), (same_place_pos _ _ _ _ _ Hp3); done) Hfree).
  eexists _, _. split; [done|]. split; [exact Hinv4|]. split; [unfold update; am; rewrite lookup_alter_eq, Hi3; done|]. split; [done|]. exact Ha.
Qed.

End facts.
End AddrManFacts.
