(* ===== verification/AddrManSafety.v ===== *)
(** * The address manager stays consistent

    Every operation of AddrMan.v from a consistent state, the self-check [Check_] and
    histories of operations. *)

From stdpp Require Import base list list_numbers numbers option gmap.
From Stdlib Require Import ZArith Lia.
From S2P Require Import Prelude Bytes Serialize NetAddr AddrMan AddrManFacts.
Import Endian Serialize NetAddr AddrMan AddrManFacts.
#[local] Open Scope Z_scope.

Module AddrManSafety.

Section safety.
Context (Hash : list Z -> list Z).
Abbreviation inv := (AddrManFacts.inv Hash).
Abbreviation consistent := (AddrManFacts.consistent Hash).

Lemma new_consistent k : consistent (CAddrMan_new k).
Proof.
  split; cbn [CAddrMan_new Clear nIdCount mapInfo mapAddr vRandom nTried vvTried nNew vvNew nKey]; try done; try (intros; by rewrite ?lookup_empty in *).
Qed.

(** ** Statistics *)

Lemma Find_spec X dn s a : inv X dn s ->
  match Find a s with
  | Some (id, i) => mapInfo s !! id = Some i /\ key i = a
  | None => mapAddr s !! a = None
  end.
Proof.
  intros Hinv. unfold Find. destruct (mapAddr s !! a) as [id|] eqn:Ha; cbn [mbind option_bind]; [|done].
  destruct (i_addr _ _ _ _ Hinv a id Ha) as (i & Hi & Hk). rewrite Hi. cbn [mbind option_bind]. done.
Qed.

Lemma set_nTime_same i t : same_entry i (set_nTime t i).
Proof. by split. Qed.

Lemma Attempt_ok s addr t : consistent s -> 0 <= t -> consistent (Attempt_ addr t s).
Proof.
  intros Hinv Ht. unfold Attempt_. pose proof (Find_spec _ _ s (netaddr addr) Hinv) as Hf. destruct (Find (netaddr addr) s) as [[id i]|]; [|done]. destruct Hf as [Hi _].
  destruct (negb _); [done|]. pose proof (entry_times _ _ _ _ _ (i_info _ _ _ _ Hinv id i Hi)) as (T1 & T2 & T3). apply (inv_update _ _ _ _ _ i); [done|done|by split|by split].
Qed.

Lemma Connected_ok s addr t : consistent s -> consistent (Connected_ addr t s).
Proof.
  intros Hinv. unfold Connected_. pose proof (Find_spec _ _ s (netaddr addr) Hinv) as Hf. destruct (Find (netaddr addr) s) as [[id i]|]; [|done]. destruct Hf as [Hi _].
  destruct (negb _); [done|]. destruct (_ >? _); [|done]. pose proof (entry_times _ _ _ _ _ (i_info _ _ _ _ Hinv id i Hi)) as (T1 & T2 & T3). apply (inv_update _ _ _ _ _ i); [done|done|by split|by split].
Qed.

(** ** Good_ *)

Lemma find_bucket_total fuel : forall n nRnd nId i s, exists r, find_bucket Hash fuel n nRnd nId i s = Some r /\
  (r = None -> forall m, n <= m < n + Z.of_nat fuel -> let b := (m + nRnd) mod ADDRMAN_NEW_BUCKET_COUNT in vvNew s !! (b, GetBucketPosition Hash (nKey s) true b i) <> Some nId).
Proof.
  induction fuel as [|fuel IH]; intros n nRnd nId i s; cbn [find_bucket]; [exists None; split; [done|]; intros _ m Hm; lia|].
  set (b := (n + nRnd) mod ADDRMAN_NEW_BUCKET_COUNT). set (p := GetBucketPosition Hash (nKey s) true b i).
  assert (0 <= b < ADDRMAN_NEW_BUCKET_COUNT) as Hb by (apply Z.mod_pos_bound; done).
  rewrite (new_slot_of s b p _ Hb (pos_range _ _ _ _ _) eq_refl). cbn [mbind option_bind]. destruct (IH (n + 1) nRnd nId i s) as (r & Er & Hr).
  destruct (Z.eqb_spec (match vvNew s !! (b, p) with Some x => x | None => -1 end) nId) as [E|Hne]; [exists (Some b); done|].
  exists r. split; [done|]. intros -> m Hm. destruct (decide (m = n)) as [->|]; [|apply (Hr eq_refl); lia]. fold b p. intros E. rewrite E in Hne. done.
Qed.

Lemma Good_ok s addr t nRnd : consistent s -> 0 < t ->
  exists s', Good_ Hash addr t nRnd s = Some s' /\ consistent s' /\
    (forall id i, Find (netaddr addr) s = Some (id, i) -> service (address i) = addr -> exists i', mapInfo s' !! id = Some i' /\ fInTried i' = true).
Proof.
  intros Hinv Ht. unfold Good_. pose proof (Find_spec _ _ s (netaddr addr) Hinv) as Hf. destruct (Find (netaddr addr) s) as [[id i]|].
  2: { exists s. split; [done|]. split; [done|]. by intros. }
  destruct Hf as [Hi Hk]. case_bool_decide as Hs; cbn [negb]; [|exists s; split; [done|]; split; [done|]; intros ? ? [= <- <-]; done].
  pose proof (entry_times _ _ _ _ _ (i_info _ _ _ _ Hinv id i Hi)) as (T1 & T2 & T3). set (s1 := update id (set_tries t t 0) s).
  assert (consistent s1) as Hinv1 by (apply (inv_update _ _ _ _ _ i); [done|done|by split|split_and!; cbn; lia]).
  assert (mapInfo s1 !! id = Some (set_tries t t 0 i)) as Hi1 by (unfold s1, update; am; by rewrite lookup_alter_eq, Hi).
  destruct (fInTried i) eqn:Hft; [exists s1; split; [done|]; split; [done|]; intros ? ? [= <- <-] _; eexists; split; [exact Hi1|done]|].
  destruct (find_bucket_total (Z.to_nat ADDRMAN_NEW_BUCKET_COUNT) 0 nRnd id i s1) as (r & -> & Hr). cbn [mbind option_bind].
  pose proof (i_info _ _ _ _ Hinv1 id _ Hi1) as He. assert (nRefCount i <> 0) as Hne by (intros E; apply (e_new _ _ _ _ _ He Hft) in E; set_solver).
  destruct r as [b|].
  - destruct (MakeTried_ok Hash s1 id _ Hinv1 Hi1) as (s' & i' & -> & Hinv' & Hi' & Hf' & _); [done|cbn; lia|]. exists s'. split; [done|]. split; [done|].
    intros ? ? [= <- <-] _. by exists i'.
  - exfalso. apply Hne. change (nRefCount i) with (nRefCount (set_tries t t 0 i)). rewrite (e_refs _ _ _ _ _ He). apply countP_zero. intros [b p] j Hj E. cbn in E. subst j.
    destruct (i_new _ _ _ _ Hinv1 _ _ _ Hj) as (Hb & k & Hk' & _ & Ep). rewrite Hi1 in Hk'. injection Hk' as <-.
    apply (Hr eq_refl ((b - nRnd) mod ADDRMAN_NEW_BUCKET_COUNT)); [change (Z.of_nat (Z.to_nat ADDRMAN_NEW_BUCKET_COUNT)) with ADDRMAN_NEW_BUCKET_COUNT; pose proof (Z.mod_pos_bound (b - nRnd) ADDRMAN_NEW_BUCKET_COUNT ltac:(done)); lia|].
    rewrite Zplus_mod_idemp_l. replace (b - nRnd + nRnd) with b by lia. rewrite Z.mod_small by done. rewrite <- Hj. f_equal. f_equal. rewrite Ep. by apply same_place_pos.
Qed.

(** ** Add_ *)

Lemma place_ok X dn s nId i src now : inv X dn s -> mapInfo s !! nId = Some i -> fInTried i = false -> nRefCount i < ADDRMAN_NEW_BUCKETS_PER_ADDRESS ->
  exists s', place Hash nId src now s = Some s' /\ inv (X ∖ {[nId]}) dn s' /\
    ((nRefCount i = 0 /\ mapInfo s' !! nId = None) \/ exists i', mapInfo s' !! nId = Some i' /\ address i' = address i).
Proof.
  intros Hinv Hi Hf Hmax. pose proof (i_info _ _ _ _ Hinv nId i Hi) as He. unfold place. rewrite Hi. cbn [mbind option_bind].
  set (b := GetNewBucket Hash (nKey s) i src). set (p := GetBucketPosition Hash (nKey s) true b i).
  rewrite (new_slot_of s b p _ (nbucket_range _ _ _ _) (pos_range _ _ _ _ _) eq_refl). cbn [mbind option_bind].
  assert (nRefCount i <> 0 -> inv (X ∖ {[nId]}) dn s) as Hsame.
  { intros Hr. apply (inv_weaken _ X _ _ _ Hinv). intros j k Hk Hfk. destruct (decide (j = nId)) as [->|Hne]; [|clear -Hne; set_solver].
    rewrite <- (e_new _ _ _ _ _ He Hf). split; [lia|]. intros Hin. clear -Hin. set_solver. }
  assert (vvNew s !! (b, p) <> Some nId -> exists s', (s ← ClearNew b p s; let s := update nId (fun i => set_refs (nRefCount i + 1) (fInTried i) i) s in
      Some (with_new (nNew s) (set_slot (vvNew s) b p nId) s)) = Some s' /\ inv (X ∖ {[nId]}) dn s' /\ exists i', mapInfo s' !! nId = Some i' /\ address i' = address i) as Hins.
  { intros Hne. destruct (ClearNew_ok Hash _ _ s b p Hinv (nbucket_range _ _ _ _) (pos_range _ _ _ _ _)) as (s1 & -> & Hinv1 & Hnew1 & Hk1). cbn [mbind option_bind]. cbn zeta.
    destruct (kept_entry _ _ _ _ _ Hk1 Hne Hi) as (i1 & Hi1 & E1). destruct (set_pos_fields _ _ E1) as (Hp1 & Hr1 & Hf1 & _).
    assert (set_slot (vvNew (update nId (fun i0 => set_refs (nRefCount i0 + 1) (fInTried i0) i0) s1)) b p nId = <[(b, p) := nId]> (vvNew s1)) as -> by (unfold set_slot; by rewrite (id_not_free _ _ _ _ _ _ Hinv Hi)).
    eexists. split; [done|]. split.
    - apply (inv_ref Hash X dn s1 b p nId i1); [done|by rewrite Hnew1, lookup_delete_eq|done|congruence|apply nbucket_range| |congruence|by rewrite Hf1, Hf].
      rewrite (k_key _ _ _ Hk1), (same_place_pos _ _ _ _ _ _ Hp1). done.
    - unfold update. am. rewrite lookup_alter_eq, Hi1. eexists. split; [done|]. cbn. apply set_pos_same in E1. by rewrite E1. }
  destruct (vvNew s !! (b, p)) as [id|] eqn:Hs.
  - destruct (i_new _ _ _ _ Hinv _ _ _ Hs) as (_ & k & Hk & _). destruct (Z.eqb_spec id nId) as [->|Hne].
    + exists s. split; [done|]. split; [|right; by exists i]. apply Hsame. rewrite (e_refs _ _ _ _ _ He). intros E. by apply (refs_zero _ _ E (b, p)).
    + rewrite (id_not_free _ _ _ _ _ _ Hinv Hk). unfold info_at. rewrite Hk. cbn iota beta.
      destruct (IsTerrible now k || ((nRefCount k >? 1) && (nRefCount i =? 0))).
      * destruct Hins as (s' & E & H1 & H2); [congruence|]. cbn zeta in E |- *. rewrite E. exists s'. split; [done|]. split; [done|]. by right.
      * destruct (Z.eqb_spec (nRefCount i) 0) as [Hz|Hnz]; [|exists s; split; [done|]; split; [by apply Hsame|right; by exists i]].
        destruct (Delete_ok Hash X dn s nId i Hinv Hi Hf Hz) as (s' & -> & Hinv' & _ & _ & _ & _ & Hgone & _). exists s'. split; [done|]. split; [done|]. by left.
  - destruct (Z.eqb_spec (-1) nId) as [Hbad|_]; [exfalso; pose proof (e_id _ _ _ _ _ He); lia|]. change (-1 =? -1) with true. cbn iota beta.
    destruct Hins as (s' & E & H1 & H2); [congruence|]. cbn zeta in E |- *. rewrite E. exists s'. split; [done|]. split; [done|]. by right.
Qed.

Lemma Create_ok s addr src : consistent s -> mapAddr s !! netaddr (service addr) = None -> nIdCount s < 2 ^ 31 - 1 ->
  exists s', Create addr src s = Some (nIdCount s, s') /\ inv {[nIdCount s]} (-1) s' /\ nIdCount s' = nIdCount s + 1 /\
    exists i, mapInfo s' !! nIdCount s = Some i /\ nRefCount i = 0 /\ fInTried i = false /\ address i = addr.
Proof.
  intros Hinv Hnone Hcount. pose proof Hinv as [J1 J2 J3 J4 J5 J6 J7 J8 J9]. unfold Create, assert_. rewrite (proj2 (Z.ltb_lt _ _)) by lia. cbn [mbind option_bind].
  set (id := nIdCount s) in *. set (i := set_pos _ _). eexists. split; [done|].
  assert (mapInfo s !! id = None) as Hfree by (destruct (mapInfo s !! id) as [k|] eqn:E; [pose proof (e_id _ _ _ _ _ (J1 id k E)); lia|done]).
  assert (forall j k, mapInfo s !! j = Some k -> j <> id) as Hjid by congruence.
  assert (0 <= id) as Hid0 by lia.
  split; [|split; [done|]; exists i; am; rewrite lookup_insert_eq; done]. split; am.
  - intros j k Hk. destruct (decide (j = id)) as [->|Hne].
    + rewrite lookup_insert_eq in Hk. injection Hk as <-. assert (refs (vvNew s) id = 0) as Hr.
      { apply countP_zero. intros [b p] j Hj E. cbn in E. subst j. destruct (J5 b p id Hj) as (_ & k & Hk & _). by apply (Hjid _ _ Hk). }
      split; am; try done; [lia|apply lookup_insert_eq| |].
      * cbn. split; [lia|]. rewrite Nat2Z.id, lookup_app_r, Nat.sub_diag by lia. done.
      * intros _. cbn. split; [|done]. intros _. clear. set_solver.
    + rewrite lookup_insert_ne in Hk by done. destruct (J1 j k Hk) as [E1 E2 E3 E4 E5 E6 E7 E8]. split; am; try done; [lia| | |].
      * rewrite lookup_insert_ne; [done|]. intros E. rewrite <- E in E2. congruence.
      * split; [apply E3|]. rewrite lookup_app_l; [apply E3|]. destruct E3 as [_ E3]. by apply lookup_lt_Some in E3.
      * intros Hfk. rewrite (E7 Hfk). clear -Hne. set_solver.
  - intros a j Hj. destruct (decide (a = netaddr (service addr))) as [->|Hne].
    + rewrite lookup_insert_eq in Hj. injection Hj as <-. exists i. by rewrite lookup_insert_eq.
    + rewrite lookup_insert_ne in Hj by done. destruct (J2 a j Hj) as (k & Hk & Ek). exists k. rewrite lookup_insert_ne by (intros E; by apply (Hjid j k Hk)). done.
  - intros q j Hj. apply lookup_app_Some in Hj as [Hj|[Hlen Hj]].
    + destruct (J3 q j Hj) as (k & Hk & Ek). exists k. rewrite lookup_insert_ne by (intros E; by apply (Hjid j k Hk)). done.
    + apply list_lookup_singleton_Some in Hj as [Hq <-]. exists i. rewrite lookup_insert_eq. split; [done|]. cbn. lia.
  - intros b p j Hj. destruct (J4 b p j Hj) as (k & Hk & Hr). exists k. rewrite lookup_insert_ne by (intros E; by apply (Hjid j k Hk)). done.
  - intros b p j Hj. destruct (J5 b p j Hj) as (Hb & k & Hk & Hr). split; [done|]. exists k. rewrite lookup_insert_ne by (intros E; by apply (Hjid j k Hk)). done.
  - rewrite J6. unfold count_tried. rewrite countP_insert, Hfree. unfold one. cbn [snd]. change (fInTried i) with false. rewrite decide_False by done. lia.
  - rewrite J7. unfold count_new. rewrite countP_insert, Hfree. unfold one. cbn [snd]. change (fInTried i) with false. rewrite decide_True by done. lia.
  - rewrite length_app, map_size_insert_None by done. cbn [length]. lia.
  - rewrite length_app. cbn [length]. lia.
Qed.

Lemma Add_ok s addr src pen now now2 rnd : consistent s -> nIdCount s < 2 ^ 31 - 1 ->
  exists r s', Add_ Hash addr src pen now now2 rnd s = Some (r, s') /\ consistent s'.
Proof.
  intros Hinv Hcount. unfold Add_. destruct (IsRoutable _); cbn [negb]; [|by exists false, s].
  pose proof (Find_spec _ _ s (netaddr (service addr)) Hinv) as Hfind. destruct (Find _ s) as [[id i]|].
  - destruct Hfind as [Hi _]. cbn zeta. set (t := if _ : bool then u32 _ else _). clearbody t. set (f := fun i0 : CAddrInfo => set_nServices _ (set_nTime t i0)). set (s1 := update id f s).
    pose proof (entry_times _ _ _ _ _ (i_info _ _ _ _ Hinv id i Hi)) as Ht. assert (consistent s1) as Hinv1 by (apply (inv_update _ _ _ _ _ i); [done|done|by split|done]).
    assert (mapInfo s1 !! id = Some (f i)) as Hi1 by (unfold s1, update; am; by rewrite lookup_alter_eq, Hi).
    destruct (_ || _); [by exists false, s1|]. destruct (fInTried i) eqn:Hf; [by exists false, s1|]. destruct (Z.eqb_spec (nRefCount i) ADDRMAN_NEW_BUCKETS_PER_ADDRESS) as [|Hne]; [by exists false, s1|].
    destruct (_ && _); [by exists false, s1|]. pose proof (e_max _ _ _ _ _ (i_info _ _ _ _ Hinv id i Hi)) as Hmax.
    destruct (place_ok ∅ 0 s1 id (f i) src now2 Hinv1 Hi1) as (s' & -> & Hinv' & _); [done|cbn; lia|]. cbn [mbind option_bind]. exists false, s'. split; [done|].
    apply (inv_weaken _ _ _ _ _ Hinv'). intros j k _ _. clear. set_solver.
  - destruct (Create_ok s addr src Hinv Hfind Hcount) as (s1 & -> & Hinv1 & _ & i & Hi & Hr & Hf & _). cbn [mbind option_bind]. set (f := fun i0 : CAddrInfo => set_nTime _ i0). set (id := nIdCount s) in *.
    assert (inv {[id]} (-1) (update id f s1)) as Hinv2 by (apply (inv_update _ _ _ _ _ i); [done|done|by split|apply (entry_times _ _ _ _ _ (i_info _ _ _ _ Hinv1 id i Hi))]).
    assert (mapInfo (update id f s1) !! id = Some (f i)) as Hi2 by (unfold update; am; by rewrite lookup_alter_eq, Hi).
    pose proof (inv_nnew _ _ _ _ 1 Hinv2) as Hinv3. set (s3 := with_new _ _ _) in Hinv3. change (with_new (nNew (update id f s1) + 1) (vvNew (update id f s1)) (update id f s1)) with s3.
    destruct (place_ok _ _ s3 id (f i) src now2 Hinv3 Hi2) as (s' & -> & Hinv' & _); [done|cbn; rewrite Hr; done|]. cbn [mbind option_bind]. exists true, s'. split; [done|].
    apply (inv_weaken _ _ _ _ _ Hinv'). intros j k _ _. clear. set_solver.
Qed.

(** ** GetAddr_ *)

Lemma getaddr_ok fuel : forall n nNodes rnd now vAddr s, consistent s -> 0 <= n -> n + Z.of_nat fuel = Z.of_nat (length (vRandom s)) ->
  (forall k, n <= k < Z.of_nat (length (vRandom s)) -> 0 <= rnd k < Z.of_nat (length (vRandom s)) - k) ->
  exists out s', getaddr_loop fuel n nNodes rnd now vAddr s = Some (vAddr ++ out, s') /\ consistent s' /\ moved s s' /\
    (Z.of_nat (length (vAddr ++ out)) <= Z.max nNodes (Z.of_nat (length vAddr))) /\
    Forall (fun a => exists id i, mapInfo s !! id = Some i /\ address i = a /\ IsTerrible now i = false) out.
Proof.
  induction fuel as [|fuel IH]; intros n nNodes rnd now vAddr s Hinv Hn Hsum Hrnd; cbn [getaddr_loop].
  { exists [], s. rewrite app_nil_r. split_and!; [done|done|apply moved_refl|lia|constructor]. }
  rewrite Z.geb_leb. destruct (Z.leb_spec nNodes (Z.of_nat (length vAddr))) as [|Hlt]; [exists [], s; rewrite app_nil_r; split_and!; [done|done|apply moved_refl|lia|constructor]|].
  pose proof (Hrnd n ltac:(lia)) as Hr. destruct (SwapRandom_ok Hash ∅ 0 s n (rnd n + n) Hinv ltac:(lia) ltac:(lia)) as (s1 & -> & Hinv1 & Hm1 & _). cbn [mbind option_bind].
  pose proof (m_len _ _ Hm1) as Hlen. destruct (lookup_lt_is_Some_2 (vRandom s1) (Z.to_nat n) ltac:(lia)) as [id Hid]. rewrite Hid. cbn [mbind option_bind].
  destruct (i_random _ _ _ _ Hinv1 _ _ Hid) as (i & Hi & _). rewrite Hi. cbn [mbind option_bind].
  assert (forall a, (exists id i, mapInfo s1 !! id = Some i /\ address i = a /\ IsTerrible now i = false) -> exists id i, mapInfo s !! id = Some i /\ address i = a /\ IsTerrible now i = false) as Hback.
  { intros a (id' & i' & Hi' & Ha & Ht). destruct (moved_back _ _ _ _ Hm1 Hi') as (j & Hj & E). exists id', j. split; [done|]. apply set_pos_same in E. rewrite E in Ha, Ht. done. }
  set (va := if IsTerrible now i then vAddr else vAddr ++ [address i]).
  destruct (IH (n + 1) nNodes rnd now va s1 Hinv1 ltac:(lia) ltac:(lia)) as (out & s' & -> & Hinv' & Hm' & Hmax & Hout).
  { intros k Hk. rewrite Hlen in *. apply Hrnd. lia. }
  assert (moved s s') as Hm.
  { destruct Hm1 as [A1 A2 A3 A4 A5 A6 A7 A8 A9], Hm' as [B1 B2 B3 B4 B5 B6 B7 B8 B9]. split; congruence. }
  unfold va in *. destruct (IsTerrible now i) eqn:Hterr.
  - exists out, s'. split_and!; [done|done|done|lia|]. eapply Forall_impl; [exact Hout|]. intros a Ha. by apply Hback.
  - exists (address i :: out), s'. rewrite <- app_assoc in *. cbn [app] in *. split_and!; [done|done|done| |].
    + rewrite length_app in Hmax |- *. rewrite length_app in Hmax. cbn [length] in *. lia.
    + constructor; [apply Hback; by exists id, i|]. eapply Forall_impl; [exact Hout|]. intros a Ha. by apply Hback.
Qed.

Lemma GetAddr_ok s rnd now : consistent s -> (forall n, 0 <= n < Z.of_nat (length (vRandom s)) -> 0 <= rnd n < Z.of_nat (length (vRandom s)) - n) ->
  exists out s', GetAddr_ rnd now s = Some (out, s') /\ consistent s' /\ moved s s' /\ Z.of_nat (length out) <= ADDRMAN_GETADDR_MAX /\
    Forall (fun a => exists id i, mapInfo s !! id = Some i /\ address i = a /\ IsTerrible now i = false) out.
Proof.
  intros Hinv Hrnd. unfold GetAddr_. cbn zeta. set (nNodes := if _ : bool then ADDRMAN_GETADDR_MAX else _).
  assert (0 <= nNodes <= ADDRMAN_GETADDR_MAX) as Hmax.
  { unfold nNodes. set (x := u32 _). pose proof (u32_range (ADDRMAN_GETADDR_MAX_PCT * Z.of_nat (length (vRandom s)) / 100)) as Hr. fold x in Hr. unfold is_u32 in Hr.
    rewrite Z.gtb_ltb. destruct (Z.ltb_spec ADDRMAN_GETADDR_MAX x); unfold ADDRMAN_GETADDR_MAX in *; lia. }
  destruct (getaddr_ok (length (vRandom s)) 0 nNodes rnd now [] s Hinv) as (out & s' & -> & H1 & H2 & H3 & H4); [lia|lia|intros k Hk; by apply Hrnd|].
  exists out, s'. cbn [app length] in *. split_and!; [done|done|done|lia|done].
Qed.

(** ** The id counter and the key *)

Definition frame (s : CAddrMan) : Z * list Z := (nIdCount s, nKey s).

Lemma SwapRandom_count p q s s' : SwapRandom p q s = Some s' -> frame s' = frame s.
Proof.
  unfold SwapRandom, assert_. destruct (p =? q); [by intros [= ->]|]. destruct (_ && _); cbn [mbind option_bind]; [|done].
  destruct (vRandom s !! Z.to_nat p) as [id1|]; cbn [mbind option_bind]; [|done]. destruct (vRandom s !! Z.to_nat q) as [id2|]; cbn [mbind option_bind]; [|done].
  destruct (mapInfo s !! id1); cbn [mbind option_bind]; [|done]. destruct (mapInfo s !! id2); cbn [mbind option_bind]; [|done]. by intros [= <-].
Qed.

Lemma Delete_count id s s' : Delete id s = Some s' -> frame s' = frame s.
Proof.
  unfold Delete, assert_. destruct (mapInfo s !! id) as [i|]; cbn [mbind option_bind]; [|done]. destruct (negb _); cbn [mbind option_bind]; [|done]. destruct (_ =? 0); cbn [mbind option_bind]; [|done].
  destruct (SwapRandom _ _ s) as [s1|] eqn:E; cbn [mbind option_bind]; [|done]. destruct (0 <? _)%nat; cbn [mbind option_bind]; [|done]. intros [= <-]. apply SwapRandom_count in E. exact E.
Qed.

Lemma ClearNew_count b p s s' : ClearNew b p s = Some s' -> frame s' = frame s.
Proof.
  unfold ClearNew, assert_. destruct (new_slot s b p) as [id|]; cbn [mbind option_bind]; [|done]. destruct (id =? -1); [by intros [= ->]|].
  destruct (info_at id s) as [i s1] eqn:E. assert (frame s1 = frame s) as <- by (revert E; unfold info_at; destruct (mapInfo s !! id); by intros [= _ <-]).
  destruct (_ >? 0); cbn [mbind option_bind]; [|done]. destruct (_ =? 0); [intros H%Delete_count; by rewrite H|by intros [= <-]].
Qed.

Lemma leave_new_count fuel : forall b id s s', leave_new Hash fuel b id s = Some s' -> frame s' = frame s.
Proof.
  induction fuel as [|fuel IH]; intros b id s s'; cbn [leave_new]; [by intros [= ->]|]. destruct (mapInfo s !! id) as [i|]; cbn [mbind option_bind]; [|done].
  destruct (new_slot s b _) as [x|]; cbn [mbind option_bind]; [|done]. intros H%IH. rewrite H. by destruct (x =? id).
Qed.

Lemma MakeTried_count id s s' : MakeTried Hash id s = Some s' -> frame s' = frame s.
Proof.
  unfold MakeTried, assert_. destruct (leave_new _ _ _ _ s) as [s1|] eqn:E1; cbn [mbind option_bind]; [|done]. apply leave_new_count in E1. rewrite <- E1. cbn [mbind option_bind].
  change (mapInfo (with_new (nNew s1 - 1) (vvNew s1) s1)) with (mapInfo s1). destruct (mapInfo s1 !! id) as [i|]; cbn [mbind option_bind]; [|done]. destruct (_ =? 0); cbn [mbind option_bind]; [|done].
  destruct (tried_slot _ _ _) as [ev|]; cbn [mbind option_bind]; [|done]. set (s2 := with_new (nNew s1 - 1) _ _). change (frame s1) with (frame s2).
  destruct (if negb (ev =? -1) then _ else _) as [s3|] eqn:E3; cbn [mbind option_bind]; [|done]. destruct (tried_slot s3 _ _) as [x|]; cbn [mbind option_bind]; [|done]. destruct (x =? -1); cbn [mbind option_bind]; [|done].
  intros [= <-]. change (frame s3 = frame s2). destruct (negb _); [|by injection E3 as <-]. revert E3. unfold evict, assert_. destruct (mapInfo s2 !! ev) as [io|]; cbn [mbind option_bind]; [|done].
  destruct (ClearNew _ _ _) as [s4|] eqn:E4; cbn [mbind option_bind]; [|done]. apply ClearNew_count in E4. cbn [mbind option_bind]. destruct (new_slot s4 _ _) as [y|]; cbn [mbind option_bind]; [|done].
  destruct (y =? -1); cbn [mbind option_bind]; [|done]. intros [= <-]. exact E4.
Qed.

Lemma Good_count addr t r s s' : Good_ Hash addr t r s = Some s' -> frame s' = frame s.
Proof.
  unfold Good_. destruct (Find _ s) as [[id i]|]; [|by intros [= ->]]. destruct (negb _); [by intros [= ->]|]. destruct (fInTried i); [by intros [= <-]|].
  destruct (find_bucket _ _ _ _ _ _) as [[b|]|]; cbn [mbind option_bind]; [|by intros [= <-]|done]. intros H%MakeTried_count. by rewrite H.
Qed.

Lemma place_count id src now s s' : place Hash id src now s = Some s' -> frame s' = frame s.
Proof.
  unfold place. destruct (mapInfo s !! id) as [i|]; cbn [mbind option_bind]; [|done]. destruct (new_slot s _ _) as [x|]; cbn [mbind option_bind]; [|done]. destruct (x =? id); [by intros [= ->]|].
  destruct (if x =? -1 then _ else _) as [ins s1] eqn:E. assert (frame s1 = frame s) as <-.
  { revert E. destruct (x =? -1); [by intros [= _ <-]|]. unfold info_at. destruct (mapInfo s !! x); by intros [= _ <-]. }
  destruct ins; [destruct (ClearNew _ _ s1) as [s2|] eqn:E2; cbn [mbind option_bind]; [|done]; apply ClearNew_count in E2; intros [= <-]; exact E2|]. destruct (_ =? 0); [apply Delete_count|by intros [= <-]].
Qed.

Lemma Add_count addr src pen now now2 rnd s r s' : Add_ Hash addr src pen now now2 rnd s = Some (r, s') -> nIdCount s <= nIdCount s' <= nIdCount s + 1 /\ nKey s' = nKey s.
Proof.
  unfold Add_. destruct (negb _); [intros [= _ <-]; split; [lia|done]|]. destruct (Find _ s) as [[id i]|].
  - cbn zeta. set (s1 := update id _ s). change (nIdCount s) with (nIdCount s1). change (nKey s) with (nKey s1). clearbody s1. do 4 (match goal with |- (if ?c then _ else _) = _ -> _ => destruct c; [intros [= _ <-]; split; [lia|done]|] end).
    destruct (place _ _ _ _ s1) as [s2|] eqn:E; cbn [mbind option_bind]; [|done]. apply place_count in E. injection E as E1 E2. intros [= _ <-]. split; [lia|done].
  - destruct (Create addr src s) as [[id s1]|] eqn:Ec; cbn [mbind option_bind]; [|done]. assert (nIdCount s1 = nIdCount s + 1 /\ nKey s1 = nKey s) as [Hc Hk].
    { revert Ec. unfold Create, assert_. destruct (_ <? _); cbn [mbind option_bind]; [|done]. by intros [= _ <-]. }
    destruct (place _ _ _ _ _) as [s2|] eqn:E; cbn [mbind option_bind]; [|done]. apply place_count in E. unfold update, frame in E. am in E. injection E as E1 E2. intros [= _ <-]. split; [lia|congruence].
Qed.

End safety.

End AddrManSafety.
