(* ===== verification/AddrManCheck.v ===== *)
(** * The self-check of the address manager and its histories

    The invariant implies that [Check_] finds nothing, and every history of operations
    keeps it. *)

From stdpp Require Import base list list_numbers numbers option gmap sorting.
From Stdlib Require Import ZArith Lia.
From S2P Require Import Prelude Bytes Serialize NetAddr AddrMan AddrManFacts AddrManSafety.
Import Endian Serialize NetAddr AddrMan AddrManFacts AddrManSafety.
#[local] Open Scope Z_scope.

Module AddrManCheck.

Section check.
Context (Hash : list Z -> list Z).
Abbreviation inv := (AddrManFacts.inv Hash).
Abbreviation consistent := (AddrManFacts.consistent Hash).

(** ** The entries *)

Definition ids (b : bool) (l : list (Z * CAddrInfo)) : list Z := fst <$> List.filter (fun x => Bool.eqb (fInTried x.2) b) l.

Lemma elem_ids b l n : n ∈ ids b l <-> exists i, (n, i) ∈ l /\ fInTried i = b.
Proof.
  unfold ids. rewrite list_elem_of_fmap. split.
  - intros ([m i] & -> & Hin). apply list_elem_of_In, filter_In in Hin as [Hin Hb]. cbn in *. exists i. split; [by apply list_elem_of_In|]. by apply eqb_true_iff.
  - intros (i & Hin & Hb). exists (n, i). split; [done|]. apply list_elem_of_In, filter_In. split; [by apply list_elem_of_In|]. cbn. by apply eqb_true_iff.
Qed.

Lemma check_entry_ok s n i T N : consistent s -> mapInfo s !! n = Some i ->
  check_entry s n i T N = inr (if fInTried i then ({[n]} ∪ T, N) else (T, <[n := nRefCount i]> N)).
Proof.
  intros Hinv Hi. pose proof (i_info _ _ _ _ Hinv n i Hi) as [E1 E2 [E3 E3'] E4 E5 E6 E7 E8]. unfold check_entry.
  assert (in_random s n i = true) as Hrnd.
  { unfold in_random. apply lookup_lt_Some in E3' as Hlt. rewrite (proj2 (Z.leb_le _ _)), (proj2 (Z.ltb_lt _ _)) by lia. by rewrite bool_decide_true. }
  assert (forall x : gset Z * gmap Z Z, (if negb (default 0 (mapAddr s !! key i) =? n) then inl (-5) else if negb (in_random s n i) then inl (-14)
      else if nLastTry i <? 0 then inl (-6) else if nLastSuccess i <? 0 then inl (-8) else inr x : Z + gset Z * gmap Z Z) = inr x) as Hrest.
  { intros x. rewrite E2. cbn. rewrite Z.eqb_refl, Hrnd. cbn [negb]. by rewrite !(proj2 (Z.ltb_ge _ _)) by lia. }
  destruct (fInTried i) eqn:Hf.
  - destruct (E6 eq_refl) as [Hs _]. rewrite (proj2 (Z.eqb_neq _ _)) by done. destruct (tried_refs _ _ _ _ _ _ Hinv Hi Hf) as [-> _]. apply Hrest.
  - assert (nRefCount i <> 0) as Hne by (intros E; apply (E7 eq_refl) in E; set_solver). pose proof (refs_nonneg (vvNew s) n).
    rewrite (proj2 (Z.ltb_ge (nRefCount i) 0)), Z.gtb_ltb, (proj2 (Z.ltb_ge _ _)), (proj2 (Z.eqb_neq _ _)) by lia. apply Hrest.
Qed.

Lemma check_entries_ok s l : consistent s -> (forall n i, (n, i) ∈ l -> mapInfo s !! n = Some i) -> forall T N,
  exists T' N', check_entries s l T N = inr (T', N') /\
    (forall n, n ∈ T' <-> n ∈ T \/ n ∈ ids true l) /\ (forall n, n ∉ ids false l -> N' !! n = N !! n) /\
    (forall n i, (n, i) ∈ l -> fInTried i = false -> N' !! n = Some (nRefCount i)).
Proof.
  intros Hinv. induction l as [|[n i] l IH]; intros Hl T N; cbn [check_entries].
  { exists T, N. split; [done|]. split; [intros n; rewrite elem_ids; split; [by left|intros [|(? & []%elem_of_nil & _)]; done]|]. split; [done|]. by intros ? ? []%elem_of_nil. }
  pose proof (Hl n i ltac:(left)) as Hi. rewrite (check_entry_ok s n i T N Hinv Hi). specialize (IH ltac:(intros m j Hj; apply Hl; by right)).
  destruct (fInTried i) eqn:Hf.
  - destruct (IH ({[n]} ∪ T) N) as (T' & N' & -> & HT & HN & HN2). exists T', N'. split; [done|]. split; [|split].
    + intros m. rewrite HT, !elem_ids, elem_of_union, elem_of_singleton. split.
      * intros [[->|]|(j & Hj & Hfj)]; [right; exists i; split; [by left|done]|by left|right; exists j; split; [by right|done]].
      * intros [|(j & Hj & Hfj)]; [by left; right|]. apply elem_of_cons in Hj as [[= -> ->]|Hj]; [by left; left|right; by exists j].
    + intros m Hm. apply HN. intros Hin. apply Hm. apply elem_ids in Hin as (j & Hj & Hfj). apply elem_ids. exists j. split; [by right|done].
    + intros m j Hj Hfj. apply elem_of_cons in Hj as [[= -> ->]|Hj]; [congruence|by apply HN2].
  - destruct (IH T (<[n := nRefCount i]> N)) as (T' & N' & -> & HT & HN & HN2). exists T', N'. split; [done|]. split; [|split].
    + intros m. rewrite HT, !elem_ids. split.
      * intros [|(j & Hj & Hfj)]; [by left|right; exists j; split; [by right|done]].
      * intros [|(j & Hj & Hfj)]; [by left|]. apply elem_of_cons in Hj as [[= -> ->]|Hj]; [congruence|right; by exists j].
    + intros m Hm. rewrite HN; [|intros Hin; apply Hm; apply elem_ids in Hin as (j & Hj & Hfj); apply elem_ids; exists j; split; [by right|done]].
      rewrite lookup_insert_ne; [done|]. intros ->. apply Hm, elem_ids. exists i. split; [by left|done].
    + intros m j Hj Hfj. apply elem_of_cons in Hj as [[= -> ->]|Hj]; [|by apply HN2].
      destruct (decide (n ∈ ids false l)) as [(j & Hj & Hfj')%elem_ids|Hn]; [|by rewrite HN, lookup_insert_eq].
      rewrite (HN2 n j Hj Hfj'). pose proof (Hl n j ltac:(by right)) as Hj'. congruence.
Qed.

(** ** The tables *)

Lemma elem_slots rows b i : (b, i) ∈ slots rows <-> 0 <= b < rows /\ 0 <= i < ADDRMAN_BUCKET_SIZE.
Proof.
  unfold slots. rewrite list_elem_of_bind. split.
  - intros (n & Hin & Hn). apply list_elem_of_fmap in Hin as (j & [= -> ->] & Hj). apply elem_of_seqZ in Hn, Hj. lia.
  - intros [Hb Hi]. exists b. split; [apply list_elem_of_fmap; exists i; split; [done|]; apply elem_of_seqZ; lia|apply elem_of_seqZ; lia].
Qed.

Lemma NoDup_slots rows : NoDup (slots rows).
Proof.
  unfold slots. apply NoDup_bind.
  - intros x1 x2 y H1 H2 Hy1 Hy2. apply list_elem_of_fmap in Hy1 as (? & -> & _). apply list_elem_of_fmap in Hy2 as (? & [= ->] & _). done.
  - intros x _. apply NoDup_fmap_2; [intros ? ? [= ->]; done|apply NoDup_seqZ].
  - apply NoDup_seqZ.
Qed.

Lemma check_tried_ok s l : consistent s -> NoDup l -> forall T, (forall id, id ∈ T <-> exists k, k ∈ l /\ vvTried s !! k = Some id) -> check_tried Hash s l T = inr ∅.
Proof.
  intros Hinv Hnd. induction Hnd as [|[b p] l Hni Hnd IH]; intros T HT; cbn [check_tried].
  { f_equal. apply set_eq. intros id. rewrite HT. split; [intros (k & []%elem_of_nil & _)|set_solver]. }
  destruct (vvTried s !! (b, p)) as [id|] eqn:Hs.
  - assert (id ∈ T) as Hin by (apply HT; exists (b, p); split; [left|done]). rewrite bool_decide_true by done. cbn [negb].
    destruct (i_tried _ _ _ _ Hinv _ _ _ Hs) as (i & Hi & Hf & Eb & Ep). unfold info_at. rewrite Hi. cbn [fst].
    assert ((GetTriedBucket Hash (nKey s) i =? b) = true) as Eb1 by (apply Z.eqb_eq; done). rewrite Eb1. cbn [negb].
    assert ((GetBucketPosition Hash (nKey s) false b i =? p) = true) as Ep1 by (apply Z.eqb_eq; by rewrite Ep, <- Eb). rewrite Ep1. cbn [negb].
    apply IH. intros j. rewrite elem_of_difference, elem_of_singleton, HT. split.
    + intros [(k & Hk & Hkj) Hne]. exists k. split; [|done]. apply elem_of_cons in Hk as [->|Hk]; [congruence|done].
    + intros ([b' p'] & Hk & Hkj). split; [exists (b', p'); split; [by right|done]|]. intros ->. apply Hni.
      destruct (i_tried _ _ _ _ Hinv _ _ _ Hkj) as (i' & Hi' & _ & Eb' & Ep'). rewrite Hi in Hi'. injection Hi' as <-. subst. done.
  - apply IH. intros j. rewrite HT. split; intros (k & Hk & Hkj); exists k; (split; [|done]); [apply elem_of_cons in Hk as [->|Hk]; [congruence|done]|by right].
Qed.

(** The slots of a list that refer to an id *)
Definition cnt (t : gmap (Z * Z) Z) (l : list (Z * Z)) (id : Z) : Z := Z.of_nat (length (List.filter (fun k => bool_decide (t !! k = Some id)) l)).

Lemma check_new_ok s l : consistent s -> forall N, (forall id, N !! id = if decide (cnt (vvNew s) l id = 0) then None else Some (cnt (vvNew s) l id)) -> check_new Hash s l N = inr ∅.
Proof.
  intros Hinv. induction l as [|[b p] l IH]; intros N HN; cbn [check_new].
  { f_equal. apply map_eq. intros id. rewrite HN, decide_True by done. symmetry. apply lookup_empty. }
  assert (forall id, cnt (vvNew s) ((b, p) :: l) id = (if decide (vvNew s !! (b, p) = Some id) then 1 else 0) + cnt (vvNew s) l id) as Hc.
  { intros id. unfold cnt. cbn [List.filter]. case_bool_decide as H; [rewrite decide_True by done; cbn [length]; lia|rewrite decide_False by done; lia]. }
  destruct (vvNew s !! (b, p)) as [id|] eqn:Hs.
  - pose proof (HN id) as Hid. rewrite Hc, (decide_True (P := Some id = Some id)) in Hid by done. assert (0 <= cnt (vvNew s) l id) by (unfold cnt; lia). rewrite decide_False in Hid by lia. rewrite Hid.
    destruct (i_new _ _ _ _ Hinv _ _ _ Hs) as (_ & i & Hi & _ & Ep). unfold info_at. rewrite Hi. cbn [fst]. rewrite (proj2 (Z.eqb_eq _ p)) by done. cbn [negb].
    apply IH. intros j. destruct (decide (j = id)) as [->|Hne].
    + replace (1 + cnt (vvNew s) l id - 1) with (cnt (vvNew s) l id) by lia. destruct (Z.eqb_spec (cnt (vvNew s) l id) 0) as [E|Hnz]; [rewrite lookup_delete_eq, decide_True by done; done|rewrite lookup_insert_eq, decide_False by done; done].
    + assert (cnt (vvNew s) ((b, p) :: l) j = cnt (vvNew s) l j) as Ej by (rewrite Hc, decide_False by congruence; lia). rewrite <- Ej, <- HN.
      destruct (_ =? 0); [by rewrite lookup_delete_ne by done|by rewrite lookup_insert_ne by done].
  - apply IH. intros j. rewrite HN, Hc, (decide_False (P := None = Some j)) by done. done.
Qed.

Lemma cnt_refs t l id : NoDup l -> (forall k, t !! k = Some id -> k ∈ l) -> cnt t l id = refs t id.
Proof.
  intros Hnd Hl. unfold cnt, refs, countP. f_equal. rewrite <- size_dom.
  set (f := List.filter _ l). assert (NoDup f) as Hf by (apply List.NoDup_filter in Hnd as Hf || by apply NoDup_ListNoDup, List.NoDup_filter, NoDup_ListNoDup).
  rewrite <- (size_list_to_set (C := gset (Z * Z)) f) by done. f_equal. apply set_eq. intros k. rewrite elem_of_list_to_set, elem_of_dom. split.
  - intros Hin. apply list_elem_of_In, filter_In in Hin as [_ Hk]. apply bool_decide_eq_true in Hk. exists id. by apply map_lookup_filter_Some.
  - intros [j Hj]. apply map_lookup_filter_Some in Hj as [Hj E]. cbn in E. subst j. apply list_elem_of_In, filter_In. split; [by apply list_elem_of_In, Hl|]. by apply bool_decide_eq_true.
Qed.

Lemma count_split (m : gmap Z CAddrInfo) : Z.of_nat (size m) = count_tried m + count_new m.
Proof.
  unfold count_tried, count_new. induction m as [|k x m Hk IH] using map_ind; [done|].
  rewrite map_size_insert_None, !countP_insert, Hk by done. unfold one. cbn [snd]. destruct (fInTried x); repeat case_decide; try done; lia.
Qed.

(** ** The check passes *)

Lemma Check_ok s : consistent s -> forallb (Z.eqb 0) (nKey s) = false -> Check_ Hash s = 0.
Proof.
  intros Hinv Hkey. pose proof Hinv as [J1 J2 J3 J4 J5 J6 J7 J8 J9]. unfold Check_.
  rewrite J8, count_split, J6, J7, Z.add_0_r, Z.eqb_refl. cbn [negb]. set (l := merge_sort before (map_to_list (mapInfo s))).
  assert (forall n i, (n, i) ∈ l <-> mapInfo s !! n = Some i) as Hl.
  { intros n i. unfold l. rewrite merge_sort_Permutation. apply elem_of_map_to_list. }
  destruct (check_entries_ok s l Hinv (fun n i H => proj1 (Hl n i) H) ∅ ∅) as (T & N & -> & HT & HN & HN2).
  assert (Z.of_nat (size T) = count_tried (mapInfo s)) as HsT.
  { unfold count_tried, countP. f_equal. rewrite <- size_dom. f_equal. apply set_eq. intros n. rewrite HT, elem_of_dom, elem_ids. split.
    - intros [H|(i & Hi & Hf)]; [by apply not_elem_of_empty in H|]. exists i. apply map_lookup_filter_Some. split; [by apply Hl|done].
    - intros [i Hi]. apply map_lookup_filter_Some in Hi as [Hi Hf]. right. exists i. split; [by apply Hl|done]. }
  assert (forall n, N !! n = Some (refs (vvNew s) n) \/ (N !! n = None /\ refs (vvNew s) n = 0)) as HNr.
  { intros n. destruct (mapInfo s !! n) as [i|] eqn:Hi; [destruct (fInTried i) eqn:Hf|].
    - right. destruct (tried_refs _ _ _ _ _ _ Hinv Hi Hf) as [_ ->]. split; [|done]. rewrite HN; [done|]. rewrite elem_ids. intros (j & Hj%Hl & Hfj). congruence.
    - left. rewrite (HN2 n i); [|by apply Hl|done]. f_equal. apply (e_refs _ _ _ _ _ (J1 n i Hi)).
    - right. split; [rewrite HN; [done|]; rewrite elem_ids; intros (j & Hj%Hl & _); congruence|]. apply countP_zero. intros [b p] j Hj E. cbn in E. subst j. destruct (J5 b p n Hj) as (_ & i & Hi' & _). congruence. }
  assert (Z.of_nat (size N) = count_new (mapInfo s)) as HsN.
  { unfold count_new, countP. f_equal. rewrite <- !size_dom. f_equal. apply set_eq. intros n. rewrite !elem_of_dom. split.
    - intros [c Hc]. destruct (decide (n ∈ ids false l)) as [(i & Hi & Hf)%elem_ids|Hn]; [|by rewrite (HN n Hn), lookup_empty in Hc]. exists i. apply map_lookup_filter_Some. split; [by apply Hl|done].
    - intros [i Hi]. apply map_lookup_filter_Some in Hi as [Hi Hf]. exists (nRefCount i). apply HN2; [by apply Hl|done]. }
  rewrite HsT, Z.eqb_refl, HsN, Z.eqb_refl. cbn [negb].
  rewrite (check_tried_ok s (slots ADDRMAN_TRIED_BUCKET_COUNT) Hinv (NoDup_slots _) T).
  2: { intros id. rewrite HT, elem_ids. split.
       - intros [H|(i & Hi%Hl & Hf)]; [by apply not_elem_of_empty in H|]. destruct (e_tried _ _ _ _ _ (J1 id i Hi) Hf) as [_ Hslot]. eexists. split; [|exact Hslot]. apply elem_slots. split; [apply tbucket_range|apply pos_range].
       - intros ([b p] & _ & Hk). destruct (J4 b p id Hk) as (i & Hi & Hf & _). right. exists i. split; [by apply Hl|done]. }
  rewrite (check_new_ok s (slots ADDRMAN_NEW_BUCKET_COUNT) Hinv N).
  2: { intros id. rewrite cnt_refs; [|apply NoDup_slots|].
       - destruct (HNr id) as [E|[E1 E2]]; [|by rewrite E1, E2, decide_True]. rewrite E. destruct (decide (refs (vvNew s) id = 0)) as [E0|]; [|done]. exfalso.
         destruct (decide (id ∈ ids false l)) as [(i & Hi & Hf)%elem_ids|Hn]; [|by rewrite (HN id Hn), lookup_empty in E]. apply Hl in Hi. pose proof (J1 id i Hi) as He.
         rewrite <- (e_refs _ _ _ _ _ He) in E0. apply (e_new _ _ _ _ _ He Hf) in E0. by apply not_elem_of_empty in E0.
       - intros [b p] Hk. destruct (J5 b p id Hk) as (Hb & i & _ & _ & ->). apply elem_slots. split; [done|apply pos_range]. }
  rewrite size_empty, map_size_empty. cbn [Nat.eqb negb]. by rewrite Hkey.
Qed.

(** ** Histories *)

(** The calls of the interface, with what they draw at random and the time.  [rnd n m]
    is the [n]th draw below [m]. *)
Inductive op :=
| OAdd (addr : CAddress) (src : CNetAddr) (nTimePenalty now now2 rnd : Z)
| OGood (addr : CService) (nTime rnd : Z)
| OAttempt (addr : CService) (nTime : Z)
| OConnected (addr : CService) (nTime : Z)
| OGetAddr (rnd : Z -> Z -> Z) (now : Z).

(** Times of events are positive and draws are in range. *)
Definition op_ok (o : op) : Prop :=
  match o with
  | OGood _ t _ => 0 < t
  | OAttempt _ t => 0 <= t
  | OGetAddr rnd _ => forall n m, 0 < m -> 0 <= rnd n m < m
  | _ => True
  end.

Definition step (s : CAddrMan) (o : op) : option CAddrMan :=
  match o with
  | OAdd addr src pen now now2 rnd => snd <$> Add_ Hash addr src pen now now2 rnd s
  | OGood addr t rnd => Good_ Hash addr t rnd s
  | OAttempt addr t => Some (Attempt_ addr t s)
  | OConnected addr t => Some (Connected_ addr t s)
  | OGetAddr rnd now => snd <$> GetAddr_ (fun n => rnd n (Z.of_nat (length (vRandom s)) - n)) now s
  end.

Fixpoint run (s : CAddrMan) (ops : list op) : option CAddrMan :=
  match ops with [] => Some s | o :: ops => s ← step s o; run s ops end.

Lemma step_ok s o : consistent s -> op_ok o -> nIdCount s < 2 ^ 31 - 1 -> exists s', step s o = Some s' /\ consistent s' /\ nIdCount s' <= nIdCount s + 1 /\ nKey s' = nKey s.
Proof.
  intros Hinv Ho Hc. destruct o as [addr src pen now now2 rnd|addr t rnd|addr t|addr t|rnd now]; cbn [step op_ok] in *.
  - destruct (Add_ok Hash s addr src pen now now2 rnd Hinv Hc) as (r & s' & E & Hinv'). rewrite E. exists s'. split; [done|]. split; [done|]. apply Add_count in E. split; [lia|apply E].
  - destruct (Good_ok Hash s addr t rnd Hinv Ho) as (s' & E & Hinv' & _). exists s'. split; [done|]. split; [done|]. apply Good_count in E. injection E as E1 E2. split; [lia|done].
  - eexists. split; [done|]. split; [by apply Attempt_ok|]. unfold Attempt_. destruct (Find _ s) as [[id i]|]; [destruct (negb _)|]; (split; [cbn; lia|done]).
  - eexists. split; [done|]. split; [by apply Connected_ok|]. unfold Connected_. destruct (Find _ s) as [[id i]|]; [destruct (negb _); [|destruct (_ >? _)]|]; (split; [cbn; lia|done]).
  - destruct (GetAddr_ok Hash s (fun n => rnd n (Z.of_nat (length (vRandom s)) - n)) now Hinv) as (out & s' & -> & Hinv' & Hm & _); [intros n Hn; apply Ho; lia|].
    exists s'. split; [done|]. split; [done|]. split; [rewrite (m_count _ _ Hm); lia|apply (m_key _ _ Hm)].
Qed.

Lemma run_ok ops : forall s, consistent s -> Forall op_ok ops -> nIdCount s + Z.of_nat (length ops) <= 2 ^ 31 - 1 ->
  exists s', run s ops = Some s' /\ consistent s' /\ nKey s' = nKey s.
Proof.
  induction ops as [|o ops IH]; intros s Hinv Hops Hc; cbn [run]; [by exists s|]. apply Forall_cons in Hops as [Ho Hops]. cbn [length] in Hc.
  destruct (step_ok s o Hinv Ho ltac:(lia)) as (s1 & -> & Hinv1 & Hc1 & Hk1). cbn [mbind option_bind]. destruct (IH s1 Hinv1 Hops ltac:(lia)) as (s' & H1 & H2 & H3).
  exists s'. split; [done|]. split; [done|congruence].
Qed.

(** C33: the address manager stays consistent.  From the constructor (with a key that is not
    null, as [GetRandHash] draws it), every sequence of
    fewer than 2^31 calls of [Add_], [Good_], [Attempt_], [Connected_] and [GetAddr_],
    with any addresses, sources, clock readings and random draws (events at positive
    times), runs without a failed assertion, an access outside of the tables or an
    overflow, and ends in a state where the self-check [Check_] returns 0: the index by
    address, the random order, the counters, the reference counts (1 to 8 for every new
    entry, 0 for every tried one) and the positions in the buckets all agree. *)
Theorem addrman_stays_consistent key ops :
  forallb (Z.eqb 0) key = false -> Forall op_ok ops -> Z.of_nat (length ops) < 2 ^ 31 ->
  exists s, run (CAddrMan_new key) ops = Some s /\ Check_ Hash s = 0 /\
    Z.of_nat (length (vRandom s)) = nTried s + nNew s /\
    (forall a id i, Find a s = Some (id, i) -> AddrMan.key i = a /\ vRandom s !! Z.to_nat (nRandomPos i) = Some id) /\
    (forall b p id, vvNew s !! (b, p) = Some id -> exists i, mapInfo s !! id = Some i /\ fInTried i = false /\ 1 <= nRefCount i <= 8) /\
    (forall b p id, vvTried s !! (b, p) = Some id -> exists i, mapInfo s !! id = Some i /\ fInTried i = true /\ nRefCount i = 0).
Proof.
  intros Hkey Hops Hlen. destruct (run_ok ops (CAddrMan_new key) (new_consistent Hash key) Hops) as (s & Hrun & Hinv & Hk); [cbn [nIdCount CAddrMan_new Clear]; lia|].
  exists s. split; [done|]. split; [apply Check_ok; [done|by rewrite Hk]|]. pose proof Hinv as [J1 J2 J3 J4 J5 J6 J7 J8 J9].
  split; [rewrite J8, count_split, J6, J7; lia|]. split; [|split].
  - intros a id i Hf. pose proof (Find_spec Hash _ _ s a Hinv) as H. rewrite Hf in H. destruct H as [Hi Hka]. split; [done|]. apply (e_pos _ _ _ _ _ (J1 id i Hi)).
  - intros b p id Hs. destruct (J5 b p id Hs) as (_ & i & Hi & Hf & _). exists i. split; [done|]. split; [done|]. pose proof (J1 id i Hi) as He.
    split; [|apply (e_max _ _ _ _ _ He)]. rewrite (e_refs _ _ _ _ _ He). pose proof (countP_pos (fun kv => kv.2 = id) (vvNew s) (b, p) id Hs eq_refl). unfold refs. lia.
  - intros b p id Hs. destruct (J4 b p id Hs) as (i & Hi & Hf & _). exists i. split; [done|]. split; [done|]. by eapply tried_refs.
Qed.

Lemma check_entry_result s n i T N : match check_entry s n i T N with inl e => e <> 0 | inr _ => in_random s n i = true end.
Proof.
  unfold check_entry. destruct (in_random s n i); cbn [negb];
    repeat match goal with |- context [if ?b then _ else _] => destruct b end; done.
Qed.

(** [Clear] forgets the order and the tables, but not the maps: used on a manager that
    knows an address it leaves a state where the self-check fails. *)
Lemma clear_keeps_entries s k : mapInfo s <> ∅ -> Check_ Hash (Clear k s) <> 0.
Proof.
  intros Hne. unfold Check_. cbn [Clear vRandom nTried nNew mapInfo length Z.of_nat Z.add Z.eqb negb].
  destruct (merge_sort before (map_to_list (mapInfo s))) as [|[n i] l] eqn:El.
  { exfalso. apply Hne. apply map_to_list_empty_iff. apply Permutation_nil. rewrite <- El. apply merge_sort_Permutation. }
  cbn [check_entries]. pose proof (check_entry_result (Clear k s) n i ∅ ∅) as H. destruct (check_entry (Clear k s) n i ∅ ∅) as [e|sets]; [done|].
  revert H. unfold in_random. cbn [Clear vRandom length]. rewrite !andb_true_iff, Z.leb_le, Z.ltb_lt. cbn. lia.
Qed.

End check.

(** The manager on a small history: an address is added, tried and found good, a second
    one is added from the same source, and both are listed. *)
Definition peer (a b : Z) : CService := {| netaddr := {| ip := pchIPv4 ++ [a; b; 0; 7] |}; port := 8233 |}.
Definition seen (p : CService) : CAddress := {| service := p; nServices := 1; nTime := 1000000000 |}.
Definition history : list op :=
  [OAdd (seen (peer 250 1)) (netaddr (peer 250 9)) 0 1000000000 1000000000 0; OAttempt (peer 250 1) 1000000001; OGood (peer 250 1) 1000000002 5;
   OAdd (seen (peer 251 1)) (netaddr (peer 250 9)) 0 1000000003 1000000004 0; OConnected (peer 250 1) 1000000004; OGetAddr (fun _ _ => 0) 1000000005].

Lemma addrman_stays_consistent_witness : exists s, run (fun l => l) (CAddrMan_new [1]) history = Some s /\ Check_ (fun l => l) s = 0.
Proof.
  assert (Hops : Forall op_ok history) by (unfold history; repeat (apply Forall_cons_2; [cbn [op_ok]; first [exact I | lia | intros; lia]|]); apply Forall_nil_2).
  destruct (addrman_stays_consistent (fun l => l) [1] history eq_refl Hops eq_refl) as (s & H1 & H2 & _). exact (ex_intro _ s (conj H1 H2)).
Defined.

End AddrManCheck.
