(* ===== verification/Orphans.v ===== *)
(** * Orphan transactions (src/main.cpp)

    Transactions whose inputs are not known yet wait in [mapOrphanTransactions], with
    [mapOrphanTransactionsByPrev] as an index by the transactions they spend.  The two
    maps, every operation on them, and the invariant that the index lists exactly the
    inputs of the waiting transactions. *)

From stdpp Require Import base list list_numbers numbers option gmap sorting.
From Stdlib Require Import ZArith Lia.
From S2P Require Import Prelude Bytes Serialize Transaction Mempool.
Import Serialize Transaction.
#[local] Open Scope Z_scope.

Module Orphans.

Record COrphanTx := { tx : CTransaction; fromPeer : Z }.

Record orphans := {
  mapOrphanTransactions : gmap (list Z) COrphanTx;
  mapOrphanTransactionsByPrev : gmap (list Z) (gset (list Z))
}.
Definition orphans_empty : orphans := {| mapOrphanTransactions := ∅; mapOrphanTransactionsByPrev := ∅ |}.

(** The keys of a map from [begin()] to [end()] *)
Definition key_le (a b : list Z) : Prop := Mempool.blob_le a b = true.
#[global] Instance key_le_dec : RelDecision key_le.
Proof. intros a b. unfold key_le. apply _. Defined.
Definition sorted_keys {A} (m : gmap (list Z) A) : list (list Z) := merge_sort key_le (map fst (map_to_list m)).

(** The transactions whose outputs [t] spends *)
Definition prevs (t : CTransaction) : list (list Z) := map (fun i => out_hash (prevout i)) (vin t).

(** [GetSerializeSize(tx, SER_NETWORK, tx.nVersion)]; [None] is the exception of the
    serializer. *)
Definition GetSerializeSize (t : CTransaction) : option Z :=
  match CTransaction_Serialize t with inr bs => Some (Z.of_nat (length bs)) | inl _ => None end.

Section orphans.
Context (GetHash : CTransaction -> list Z).

(** [mapOrphanTransactionsByPrev[prev].insert(hash)] *)
Definition index_prev (hash : list Z) (m : gmap (list Z) (gset (list Z))) (prev : list Z) : gmap (list Z) (gset (list Z)) :=
  <[prev := {[hash]} ∪ default ∅ (m !! prev)]> m.

Definition AddOrphanTx (t : CTransaction) (peer : Z) (o : orphans) : option (bool * orphans) :=
  let hash := GetHash t in
  match mapOrphanTransactions o !! hash with
  | Some _ => Some (false, o)
  | None =>
      sz ← GetSerializeSize t;
      if u32 sz >? 5000 then Some (false, o)
      else Some (true, {| mapOrphanTransactions := <[hash := {| tx := t; fromPeer := peer |}]> (mapOrphanTransactions o);
                          mapOrphanTransactionsByPrev := foldl (index_prev hash) (mapOrphanTransactionsByPrev o) (prevs t) |})
  end.

Definition unindex_prev (hash : list Z) (m : gmap (list Z) (gset (list Z))) (prev : list Z) : gmap (list Z) (gset (list Z)) :=
  match m !! prev with
  | None => m
  | Some itPrev => let itPrev := itPrev ∖ {[hash]} in if bool_decide (itPrev = ∅) then delete prev m else <[prev := itPrev]> m
  end.

Definition EraseOrphanTx (hash : list Z) (o : orphans) : orphans :=
  match mapOrphanTransactions o !! hash with
  | None => o
  | Some it => {| mapOrphanTransactions := delete hash (mapOrphanTransactions o);
                  mapOrphanTransactionsByPrev := foldl (unindex_prev hash) (mapOrphanTransactionsByPrev o) (prevs (tx it)) |}
  end.

(** The loop over [mapOrphanTransactions]: [None] is the use of an iterator whose entry
    was erased. *)
Fixpoint erase_loop (peer : Z) (iters : list (list Z)) (o : orphans) : option orphans :=
  match iters with
  | [] => Some o
  | k :: iters =>
      maybeErase ← mapOrphanTransactions o !! k;
      erase_loop peer iters (if fromPeer maybeErase =? peer then EraseOrphanTx (GetHash (tx maybeErase)) o else o)
  end.
Definition EraseOrphansFor (peer : Z) (o : orphans) : option orphans := erase_loop peer (sorted_keys (mapOrphanTransactions o)) o.

(** [lower_bound], or [begin()] when there is no such key *)
Definition pick (randomhash : list Z) (keys : list (list Z)) : option (list Z) :=
  match filter (key_le randomhash) keys with k :: _ => Some k | [] => head keys end.

(** The loop of [LimitOrphanTxSize]; [rnd] gives the results of [GetRandHash]. *)
Fixpoint limit_loop (fuel : nat) (nMaxOrphans : nat) (rnd : nat -> list Z) (nEvicted : nat) (o : orphans) : option (nat * orphans) :=
  if (nMaxOrphans <? size (mapOrphanTransactions o))%nat then
    match fuel with
    | O => None
    | S fuel =>
        it ← pick (rnd nEvicted) (sorted_keys (mapOrphanTransactions o));
        limit_loop fuel nMaxOrphans rnd (S nEvicted) (EraseOrphanTx it o)
    end
  else Some (nEvicted, o).
Definition LimitOrphanTxSize (nMaxOrphans : nat) (rnd : nat -> list Z) (o : orphans) : option (nat * orphans) :=
  limit_loop (size (mapOrphanTransactions o)) nMaxOrphans rnd 0 o.

(** ** The invariant *)

(** [h] is listed under [p]. *)
Definition listed (m : gmap (list Z) (gset (list Z))) (p h : list Z) : Prop := h ∈ default ∅ (m !! p).

Record orphans_ok (o : orphans) : Prop := {
  o_entry h e : mapOrphanTransactions o !! h = Some e -> GetHash (tx e) = h /\ exists sz, GetSerializeSize (tx e) = Some sz /\ u32 sz <= 5000;
  o_nonempty p S : mapOrphanTransactionsByPrev o !! p = Some S -> S <> ∅;
  o_index p h : listed (mapOrphanTransactionsByPrev o) p h <-> exists e, mapOrphanTransactions o !! h = Some e /\ p ∈ prevs (tx e)
}.

Lemma elem_sorted_keys {A} (m : gmap (list Z) A) k : k ∈ sorted_keys m <-> is_Some (m !! k).
Proof.
  unfold sorted_keys. rewrite (merge_sort_Permutation key_le). rewrite list_elem_of_fmap. split.
  - intros ([k' a] & -> & H). apply elem_of_map_to_list in H. by exists a.
  - intros [a H]. exists (k, a). split; [done|]. by apply elem_of_map_to_list.
Qed.

Lemma NoDup_sorted_keys {A} (m : gmap (list Z) A) : NoDup (sorted_keys m).
Proof. unfold sorted_keys. rewrite (merge_sort_Permutation key_le). apply NoDup_fst_map_to_list. Qed.

Lemma orphans_empty_ok : orphans_ok orphans_empty.
Proof.
  split; cbn [orphans_empty mapOrphanTransactions mapOrphanTransactionsByPrev].
  - intros h e. by rewrite lookup_empty.
  - intros p S. by rewrite lookup_empty.
  - intros p h. unfold listed. rewrite lookup_empty. cbn. split; [set_solver|]. intros (e & H & _). by rewrite lookup_empty in H.
Qed.

(** *** The index under insertion and removal *)

Lemma index_step hash m p q h : listed (index_prev hash m p) q h <-> (q = p /\ h = hash) \/ listed m q h.
Proof.
  unfold listed, index_prev. destruct (decide (q = p)) as [->|Hne]; [rewrite lookup_insert_eq; cbn; set_solver|rewrite lookup_insert_ne by done; naive_solver].
Qed.

Lemma index_fold hash ps : forall m q h, listed (foldl (index_prev hash) m ps) q h <-> (q ∈ ps /\ h = hash) \/ listed m q h.
Proof.
  induction ps as [|p ps IH]; intros m q h; cbn [foldl]; [set_solver|]. rewrite IH, index_step. set_solver.
Qed.

Lemma index_nonempty hash ps : forall m, (forall q S, m !! q = Some S -> S <> ∅) -> forall q S, foldl (index_prev hash) m ps !! q = Some S -> S <> ∅.
Proof.
  induction ps as [|p ps IH]; intros m Hm; cbn [foldl]; [done|]. apply IH. intros q S. unfold index_prev.
  destruct (decide (q = p)) as [->|Hne]; [rewrite lookup_insert_eq; intros [= <-]; set_solver|rewrite lookup_insert_ne by done; apply Hm].
Qed.

Lemma unindex_step hash m p q h : listed (unindex_prev hash m p) q h <-> listed m q h /\ ~ (q = p /\ h = hash).
Proof.
  unfold listed, unindex_prev. destruct (m !! p) as [S|] eqn:E.
  - destruct (bool_decide_reflect (S ∖ {[hash]} = ∅)) as [H0|H0].
    + destruct (decide (q = p)) as [->|Hne]; [rewrite lookup_delete_eq, E; cbn; set_solver|rewrite lookup_delete_ne by done; naive_solver].
    + destruct (decide (q = p)) as [->|Hne]; [rewrite lookup_insert_eq, E; cbn; set_solver|rewrite lookup_insert_ne by done; naive_solver].
  - destruct (decide (q = p)) as [->|Hne]; [rewrite E; cbn; set_solver|naive_solver].
Qed.

Lemma unindex_fold hash ps : forall m q h, listed (foldl (unindex_prev hash) m ps) q h <-> listed m q h /\ ~ (q ∈ ps /\ h = hash).
Proof.
  induction ps as [|p ps IH]; intros m q h; cbn [foldl]; [set_solver|]. rewrite IH, unindex_step. set_solver.
Qed.

Lemma unindex_nonempty hash ps : forall m, (forall q S, m !! q = Some S -> S <> ∅) -> forall q S, foldl (unindex_prev hash) m ps !! q = Some S -> S <> ∅.
Proof.
  induction ps as [|p ps IH]; intros m Hm; cbn [foldl]; [done|]. apply IH. intros q S. unfold unindex_prev.
  destruct (m !! p) as [S'|]; [|apply Hm]. destruct (bool_decide_reflect (S' ∖ {[hash]} = ∅)) as [H0|H0].
  - rewrite lookup_delete_Some. intros [_ H]. by eapply Hm.
  - destruct (decide (q = p)) as [->|Hne]; [rewrite lookup_insert_eq; by intros [= <-]|rewrite lookup_insert_ne by done; apply Hm].
Qed.

(** *** The operations *)

Lemma AddOrphanTx_ok t peer o b o' : orphans_ok o -> AddOrphanTx t peer o = Some (b, o') -> orphans_ok o' /\
  (if b then mapOrphanTransactions o !! GetHash t = None /\ mapOrphanTransactions o' = <[GetHash t := {| tx := t; fromPeer := peer |}]> (mapOrphanTransactions o) else o' = o).
Proof.
  intros [H1 H2 H3]. unfold AddOrphanTx. destruct (mapOrphanTransactions o !! GetHash t) as [e|] eqn:E; [by intros [= <- <-]|].
  destruct (GetSerializeSize t) as [sz|] eqn:Esz; cbn [mbind option_bind]; [|done]. destruct (u32 sz >? 5000) eqn:Eb; [by intros [= <- <-]|].
  intros [= <- <-]. split; [|done]. rewrite Z.gtb_ltb in Eb. apply Z.ltb_ge in Eb. split; cbn [mapOrphanTransactions mapOrphanTransactionsByPrev].
  - intros h e. destruct (decide (h = GetHash t)) as [->|Hne]; [rewrite lookup_insert_eq; intros [= <-]; split; [done|by exists sz]|rewrite lookup_insert_ne by done; apply H1].
  - by apply index_nonempty.
  - intros p h. rewrite index_fold, H3. destruct (decide (h = GetHash t)) as [->|Hne].
    + rewrite lookup_insert_eq. split; [intros [[H _]|(e & He & _)]; [by eexists|by rewrite E in He]|intros (e & [= <-] & H); by left].
    + rewrite lookup_insert_ne by done. naive_solver.
Qed.

Lemma EraseOrphanTx_map hash o : mapOrphanTransactions (EraseOrphanTx hash o) = delete hash (mapOrphanTransactions o).
Proof. unfold EraseOrphanTx. destruct (mapOrphanTransactions o !! hash) eqn:E; [done|]. by rewrite delete_id. Qed.

Lemma EraseOrphanTx_ok hash o : orphans_ok o -> orphans_ok (EraseOrphanTx hash o).
Proof.
  intros [H1 H2 H3]. split.
  - intros h e. rewrite EraseOrphanTx_map, lookup_delete_Some. intros [_ H]. by apply H1.
  - unfold EraseOrphanTx. destruct (mapOrphanTransactions o !! hash); [by apply unindex_nonempty|done].
  - intros p h. rewrite EraseOrphanTx_map. unfold EraseOrphanTx. destruct (mapOrphanTransactions o !! hash) as [it|] eqn:E.
    + cbn [mapOrphanTransactionsByPrev]. rewrite unindex_fold, H3. setoid_rewrite lookup_delete_Some. split.
      * intros [(e & He & Hp) Hn]. exists e. split; [|done]. split; [|done]. intros ->. rewrite E in He. injection He as ->. by apply Hn.
      * intros (e & [Hne He] & Hp). split; [by exists e|]. intros [_ ->]. done.
    + rewrite H3. setoid_rewrite lookup_delete_Some. split; [intros (e & He & Hp); exists e; split; [split; [intros ->; by rewrite E in He|done]|done]|naive_solver].
Qed.

Lemma erase_loop_ok peer ks : forall o, orphans_ok o -> NoDup ks -> (forall k, k ∈ ks -> is_Some (mapOrphanTransactions o !! k)) ->
  exists o', erase_loop peer ks o = Some o' /\ orphans_ok o' /\
    forall h, mapOrphanTransactions o' !! h =
      match mapOrphanTransactions o !! h with Some e => if bool_decide (h ∈ ks) && (fromPeer e =? peer) then None else Some e | None => None end.
Proof.
  induction ks as [|k ks IH]; intros o Ho Hnd Hks; cbn [erase_loop].
  - exists o. split; [done|]. split; [done|]. intros h. rewrite bool_decide_eq_false_2 by set_solver. by destruct (_ !! h).
  - apply NoDup_cons in Hnd as [Hk Hnd]. destruct (Hks k ltac:(set_solver)) as [e He]. rewrite He. cbn [mbind option_bind].
    pose proof (o_entry o Ho k e He) as [Hh _]. rewrite Hh. set (o1 := if fromPeer e =? peer then EraseOrphanTx k o else o).
    assert (Hm : forall h, h <> k -> mapOrphanTransactions o1 !! h = mapOrphanTransactions o !! h).
    { intros h Hne. unfold o1. destruct (_ =? _); [rewrite EraseOrphanTx_map; by rewrite lookup_delete_ne|done]. }
    destruct (IH o1) as (o' & -> & Ho' & Hl); [unfold o1; destruct (_ =? _); [by apply EraseOrphanTx_ok|done]|done| |].
    { intros k' Hk'. rewrite Hm by (intros ->; done). apply Hks. set_solver. }
    exists o'. split; [done|]. split; [done|]. intros h. rewrite Hl. destruct (decide (h = k)) as [->|Hne].
    + rewrite He. unfold o1. rewrite (bool_decide_eq_true_2 (k ∈ k :: ks)) by set_solver. rewrite (bool_decide_eq_false_2 (k ∈ ks)) by done.
      destruct (fromPeer e =? peer) eqn:Ep; cbn [andb]; [by rewrite EraseOrphanTx_map, lookup_delete_eq|by rewrite He].
    + rewrite Hm by done. destruct (mapOrphanTransactions o !! h) as [e'|]; [|done]. by rewrite (bool_decide_ext (h ∈ ks) (h ∈ k :: ks)) by set_solver.
Qed.

Lemma EraseOrphansFor_ok peer o : orphans_ok o -> exists o', EraseOrphansFor peer o = Some o' /\ orphans_ok o' /\
  forall h, mapOrphanTransactions o' !! h = match mapOrphanTransactions o !! h with Some e => if fromPeer e =? peer then None else Some e | None => None end.
Proof.
  intros Ho. destruct (erase_loop_ok peer (sorted_keys (mapOrphanTransactions o)) o Ho (NoDup_sorted_keys _)) as (o' & H1 & H2 & H3); [intros k; apply elem_sorted_keys|].
  exists o'. split; [done|]. split; [done|]. intros h. rewrite H3. destruct (mapOrphanTransactions o !! h) as [e|] eqn:E; [|done].
  rewrite bool_decide_eq_true_2; [done|]. apply elem_sorted_keys. by exists e.
Qed.

Lemma pick_in r keys : keys <> [] -> exists k, pick r keys = Some k /\ k ∈ keys.
Proof.
  intros Hne. unfold pick. destruct (filter (key_le r) keys) as [|k l] eqn:E.
  - destruct keys as [|k keys]; [done|]. exists k. split; [done|set_solver].
  - exists k. split; [done|]. assert (H : k ∈ filter (key_le r) keys) by (rewrite E; set_solver). by apply list_elem_of_filter in H as [_ H].
Qed.

Lemma limit_loop_ok mx rnd fuel : forall n o, orphans_ok o -> (size (mapOrphanTransactions o) - mx <= fuel)%nat ->
  exists n' o', limit_loop fuel mx rnd n o = Some (n', o') /\ orphans_ok o' /\ mapOrphanTransactions o' ⊆ mapOrphanTransactions o /\
    size (mapOrphanTransactions o') = Nat.min mx (size (mapOrphanTransactions o)) /\ (n' = n + (size (mapOrphanTransactions o) - mx))%nat.
Proof.
  induction fuel as [|fuel IH]; intros n o Ho Hf; cbn [limit_loop]; destruct (mx <? size (mapOrphanTransactions o))%nat eqn:E;
    [apply Nat.ltb_lt in E; lia| | |]; try (apply Nat.ltb_ge in E; exists n, o; split; [done|]; split; [done|]; split; [done|]; lia).
  apply Nat.ltb_lt in E. remember (mapOrphanTransactions o) as m eqn:Em. destruct (pick_in (rnd n) (sorted_keys m)) as (k & -> & Hk).
  { intros H0. destruct (map_choose m) as (i & x & Hi); [intros E0; rewrite E0, map_size_empty in E; lia|].
    assert (Hin : i ∈ sorted_keys m) by (by apply elem_sorted_keys; exists x). rewrite H0 in Hin. set_solver. }
  apply elem_sorted_keys in Hk as [e He]. cbn [mbind option_bind]. assert (Hs : size (delete k m) = (size m - 1)%nat) by (rewrite map_size_delete, He; lia).
  destruct (IH (S n) (EraseOrphanTx k o) (EraseOrphanTx_ok k o Ho)) as (n' & o' & H1 & H2 & H3 & H4 & H5); rewrite EraseOrphanTx_map, <- Em in *; [lia|].
  exists n', o'. split; [done|]. split; [done|]. split; [exact (transitivity H3 (delete_subseteq _ _))|]. split; lia.
Qed.

End orphans.

End Orphans.
