(* ===== verification/Peers.v ===== *)
(** * Peers and block download (src/main.cpp)

    The state the node keeps about its peers under [cs_main]: [mapNodeState],
    [mapBlocksInFlight] and the counters over them, with the operations that start and
    end a connection, punish a peer, track which blocks a peer has, choose the blocks to
    request from it and watch its time-outs.

    [mapBlocksInFlight] holds iterators into the [std::list]s of the peers: every list
    node has an identity, and [None] is the use of an iterator whose node was erased, of
    a null pointer, or a failed assertion.  The block index is an argument.  Messages to
    send are results. *)

From stdpp Require Import base list list_numbers numbers option gmap strings.
From Stdlib Require Import ZArith Lia.
From S2P Require Import Prelude Bytes ArithUint256 Params Chain TxCheck NetAddr Transaction Mempool Orphans.
Import BlockIndex NetAddr Orphans.
#[local] Open Scope Z_scope.

Module Peers.

Definition MAX_BLOCKS_IN_TRANSIT_PER_PEER : Z := 160.
Definition BLOCK_STALLING_TIMEOUT : Z := 2.
Definition BLOCK_DOWNLOAD_WINDOW : Z := 1024.
Definition MAX_REJECT_MESSAGE_LENGTH : nat := 111.

Record QueuedBlock := {
  q_hash : list Z;
  q_pindex : option nat;
  q_nTime : Z;
  fValidatedHeaders : bool;
  nTimeDisconnect : Z
}.

Record CBlockReject := { rej_code : Z; rej_reason : string; rej_hash : list Z }.

(** A list node: its identity and its element *)
Abbreviation node := (nat * QueuedBlock)%type.

Record CNodeState := {
  address : CService;
  fCurrentlyConnected : bool;
  nMisbehavior : Z;
  fShouldBan : bool;
  name : string;
  rejects : list CBlockReject;
  pindexBestKnownBlock : option nat;
  hashLastUnknownBlock : list Z;
  pindexLastCommonBlock : option nat;
  fSyncStarted : bool;
  nStallingSince : Z;
  vBlocksInFlight : list node;
  nBlocksInFlight : Z;
  nBlocksInFlightValidHeaders : Z;
  fPreferredDownload : bool
}.

(** The constructor, with the name and address [InitializeNode] assigns *)
Definition CNodeState_new (addrName : string) (addr : CService) : CNodeState :=
  {| address := addr; fCurrentlyConnected := false; nMisbehavior := 0; fShouldBan := false; name := addrName; rejects := [];
     pindexBestKnownBlock := None; hashLastUnknownBlock := replicate 32 0; pindexLastCommonBlock := None; fSyncStarted := false;
     nStallingSince := 0; vBlocksInFlight := []; nBlocksInFlight := 0; nBlocksInFlightValidHeaders := 0; fPreferredDownload := false |}.

(** *** Assignments to the fields of a [CNodeState] *)

Definition set_connected (b : bool) (t : CNodeState) : CNodeState :=
  {| address := address t; fCurrentlyConnected := b; nMisbehavior := nMisbehavior t; fShouldBan := fShouldBan t; name := name t; rejects := rejects t;
     pindexBestKnownBlock := pindexBestKnownBlock t; hashLastUnknownBlock := hashLastUnknownBlock t; pindexLastCommonBlock := pindexLastCommonBlock t;
     fSyncStarted := fSyncStarted t; nStallingSince := nStallingSince t; vBlocksInFlight := vBlocksInFlight t; nBlocksInFlight := nBlocksInFlight t;
     nBlocksInFlightValidHeaders := nBlocksInFlightValidHeaders t; fPreferredDownload := fPreferredDownload t |}.
Definition set_punish (n : Z) (ban : bool) (rs : list CBlockReject) (t : CNodeState) : CNodeState :=
  {| address := address t; fCurrentlyConnected := fCurrentlyConnected t; nMisbehavior := n; fShouldBan := ban; name := name t; rejects := rs;
     pindexBestKnownBlock := pindexBestKnownBlock t; hashLastUnknownBlock := hashLastUnknownBlock t; pindexLastCommonBlock := pindexLastCommonBlock t;
     fSyncStarted := fSyncStarted t; nStallingSince := nStallingSince t; vBlocksInFlight := vBlocksInFlight t; nBlocksInFlight := nBlocksInFlight t;
     nBlocksInFlightValidHeaders := nBlocksInFlightValidHeaders t; fPreferredDownload := fPreferredDownload t |}.
Definition set_known (best : option nat) (unknown : list Z) (common : option nat) (t : CNodeState) : CNodeState :=
  {| address := address t; fCurrentlyConnected := fCurrentlyConnected t; nMisbehavior := nMisbehavior t; fShouldBan := fShouldBan t; name := name t; rejects := rejects t;
     pindexBestKnownBlock := best; hashLastUnknownBlock := unknown; pindexLastCommonBlock := common;
     fSyncStarted := fSyncStarted t; nStallingSince := nStallingSince t; vBlocksInFlight := vBlocksInFlight t; nBlocksInFlight := nBlocksInFlight t;
     nBlocksInFlightValidHeaders := nBlocksInFlightValidHeaders t; fPreferredDownload := fPreferredDownload t |}.
Definition set_queue (since : Z) (l : list node) (n v : Z) (t : CNodeState) : CNodeState :=
  {| address := address t; fCurrentlyConnected := fCurrentlyConnected t; nMisbehavior := nMisbehavior t; fShouldBan := fShouldBan t; name := name t; rejects := rejects t;
     pindexBestKnownBlock := pindexBestKnownBlock t; hashLastUnknownBlock := hashLastUnknownBlock t; pindexLastCommonBlock := pindexLastCommonBlock t;
     fSyncStarted := fSyncStarted t; nStallingSince := since; vBlocksInFlight := l; nBlocksInFlight := n;
     nBlocksInFlightValidHeaders := v; fPreferredDownload := fPreferredDownload t |}.
Definition set_flags (sync preferred : bool) (t : CNodeState) : CNodeState :=
  {| address := address t; fCurrentlyConnected := fCurrentlyConnected t; nMisbehavior := nMisbehavior t; fShouldBan := fShouldBan t; name := name t; rejects := rejects t;
     pindexBestKnownBlock := pindexBestKnownBlock t; hashLastUnknownBlock := hashLastUnknownBlock t; pindexLastCommonBlock := pindexLastCommonBlock t;
     fSyncStarted := sync; nStallingSince := nStallingSince t; vBlocksInFlight := vBlocksInFlight t; nBlocksInFlight := nBlocksInFlight t;
     nBlocksInFlightValidHeaders := nBlocksInFlightValidHeaders t; fPreferredDownload := preferred |}.

(** The globals; [nextNode] is the identity of the next list node. *)
Record peers := {
  mapNodeState : gmap Z CNodeState;
  mapBlocksInFlight : gmap (list Z) (Z * nat);
  nQueuedValidatedHeaders : Z;
  nSyncStarted : Z;
  nPreferredDownload : Z;
  mapBlockSource : gmap (list Z) Z;
  orphanage : orphans;
  nextNode : nat
}.
Definition peers_init : peers :=
  {| mapNodeState := ∅; mapBlocksInFlight := ∅; nQueuedValidatedHeaders := 0; nSyncStarted := 0; nPreferredDownload := 0; mapBlockSource := ∅;
     orphanage := orphans_empty; nextNode := 0 |}.

Definition with_state (m : gmap Z CNodeState) (s : peers) : peers :=
  {| mapNodeState := m; mapBlocksInFlight := mapBlocksInFlight s; nQueuedValidatedHeaders := nQueuedValidatedHeaders s; nSyncStarted := nSyncStarted s;
     nPreferredDownload := nPreferredDownload s; mapBlockSource := mapBlockSource s; orphanage := orphanage s; nextNode := nextNode s |}.
Definition with_flight (f : gmap (list Z) (Z * nat)) (queued : Z) (next : nat) (s : peers) : peers :=
  {| mapNodeState := mapNodeState s; mapBlocksInFlight := f; nQueuedValidatedHeaders := queued; nSyncStarted := nSyncStarted s;
     nPreferredDownload := nPreferredDownload s; mapBlockSource := mapBlockSource s; orphanage := orphanage s; nextNode := next |}.
Definition with_counts (sync preferred : Z) (s : peers) : peers :=
  {| mapNodeState := mapNodeState s; mapBlocksInFlight := mapBlocksInFlight s; nQueuedValidatedHeaders := nQueuedValidatedHeaders s; nSyncStarted := sync;
     nPreferredDownload := preferred; mapBlockSource := mapBlockSource s; orphanage := orphanage s; nextNode := nextNode s |}.
Definition with_orphans (o : orphans) (s : peers) : peers :=
  {| mapNodeState := mapNodeState s; mapBlocksInFlight := mapBlocksInFlight s; nQueuedValidatedHeaders := nQueuedValidatedHeaders s; nSyncStarted := nSyncStarted s;
     nPreferredDownload := nPreferredDownload s; mapBlockSource := mapBlockSource s; orphanage := o; nextNode := nextNode s |}.
Definition with_source (src : gmap (list Z) Z) (s : peers) : peers :=
  {| mapNodeState := mapNodeState s; mapBlocksInFlight := mapBlocksInFlight s; nQueuedValidatedHeaders := nQueuedValidatedHeaders s; nSyncStarted := nSyncStarted s;
     nPreferredDownload := nPreferredDownload s; mapBlockSource := src; orphanage := orphanage s; nextNode := nextNode s |}.

Definition State (pnode : Z) (s : peers) : option CNodeState := mapNodeState s !! pnode.
(** A change through the pointer [State] returned *)
Definition put (pnode : Z) (t : CNodeState) (s : peers) : peers := with_state (<[pnode := t]> (mapNodeState s)) s.

(** The element an iterator points to, and the list without it *)
Definition deref (it : nat) (l : list node) : option QueuedBlock := snd <$> head (filter (fun e => e.1 = it) l).
Definition erase (it : nat) (l : list node) : list node := filter (fun e => e.1 <> it) l.

(** What the operations read of a [CNode] *)
Record CNode := {
  fInbound : bool; fWhitelisted : bool; fOneShot : bool; fClient : bool; fNetworkNode : bool;
  addrName : string; addr : CService
}.

(** ** Connections *)

Definition InitializeNode (nodeid : Z) (pnode : CNode) (s : peers) : peers :=
  let t := default (CNodeState_new (addrName pnode) (addr pnode)) (mapNodeState s !! nodeid) in
  put nodeid {| address := addr pnode; fCurrentlyConnected := fCurrentlyConnected t; nMisbehavior := nMisbehavior t; fShouldBan := fShouldBan t;
     name := addrName pnode; rejects := rejects t; pindexBestKnownBlock := pindexBestKnownBlock t; hashLastUnknownBlock := hashLastUnknownBlock t;
     pindexLastCommonBlock := pindexLastCommonBlock t; fSyncStarted := fSyncStarted t; nStallingSince := nStallingSince t; vBlocksInFlight := vBlocksInFlight t;
     nBlocksInFlight := nBlocksInFlight t; nBlocksInFlightValidHeaders := nBlocksInFlightValidHeaders t; fPreferredDownload := fPreferredDownload t |} s.

Definition UpdatePreferredDownload (pnode : CNode) (nodeid : Z) (s : peers) : option peers :=
  t ← State nodeid s;
  let preferred := (negb (fInbound pnode) || fWhitelisted pnode) && negb (fOneShot pnode) && negb (fClient pnode) in
  let n := nPreferredDownload s - Z.b2z (fPreferredDownload t) + Z.b2z preferred in
  Some (with_counts (nSyncStarted s) n (put nodeid (set_flags (fSyncStarted t) preferred t) s)).

(** [fCurrentlyConnected] is set by the message "verack". *)
Definition verack (pnode : CNode) (nodeid : Z) (s : peers) : option peers :=
  if fNetworkNode pnode then t ← State nodeid s; Some (put nodeid (set_connected true t) s) else Some s.

(** [FinalizeNode]; the address, if there is one, goes to [AddressCurrentlyConnected]. *)
Definition FinalizeNode (GetHash : Transaction.CTransaction -> list Z) (nodeid : Z) (s : peers) : option (option CService * peers) :=
  t ← State nodeid s;
  let s := if fSyncStarted t then with_counts (nSyncStarted s - 1) (nPreferredDownload s) s else s in
  let seen := if (nMisbehavior t =? 0) && fCurrentlyConnected t then Some (address t) else None in
  let s := with_flight (foldl (fun f e => delete (q_hash e.2) f) (mapBlocksInFlight s) (vBlocksInFlight t)) (nQueuedValidatedHeaders s) (nextNode s) s in
  o ← EraseOrphansFor GetHash nodeid (orphanage s);
  let s := with_orphans o s in
  let s := with_counts (nSyncStarted s) (nPreferredDownload s - Z.b2z (fPreferredDownload t)) s in
  Some (seen, with_state (delete nodeid (mapNodeState s)) s).

Definition Misbehaving (banscore : Z) (pnode howmuch : Z) (s : peers) : peers :=
  if howmuch =? 0 then s
  else
    match State pnode s with
    | None => s
    | Some t =>
        let n := s32 (nMisbehavior t + howmuch) in
        put pnode (set_punish n (fShouldBan t || ((n >=? banscore) && (s32 (n - howmuch) <? banscore))) (rejects t) t) s
    end.

(** The source of an invalid block is told and punished ([InvalidBlockFound]). *)
Definition punish_source (banscore : Z) (hash : list Z) (st : TxCheck.CValidationState) (s : peers) : peers :=
  if TxCheck.IsInvalid st then
    match mapBlockSource s !! hash with
    | None => s
    | Some src =>
        match State src s with
        | None => s
        | Some t =>
            let reject := {| rej_code := TxCheck.chRejectCode st; rej_reason := String.substring 0 MAX_REJECT_MESSAGE_LENGTH (TxCheck.strRejectReason st); rej_hash := hash |} in
            let s := put src (set_punish (nMisbehavior t) (fShouldBan t) (rejects t ++ [reject]) t) s in
            if TxCheck.nDoS st >? 0 then Misbehaving banscore src (TxCheck.nDoS st) s else s
        end
    end
  else s.

(** What [SendMessages] does with the verdict: whether to disconnect, whether to ban, and
    the reject messages *)
Definition take_verdict (pto : CNode) (nodeid : Z) (s : peers) : option (bool * bool * list CBlockReject * peers) :=
  t ← State nodeid s;
  let fDisconnect := fShouldBan t && negb (fWhitelisted pto) in
  let ban := fDisconnect && negb (IsLocal (netaddr (addr pto))) in
  Some (fDisconnect, ban, rejects t, put nodeid (set_punish (nMisbehavior t) false [] t) s).

(** ** Blocks in flight *)

Definition MarkBlockAsReceived (hash : list Z) (s : peers) : option (bool * peers) :=
  match mapBlocksInFlight s !! hash with
  | None => Some (false, s)
  | Some (pnode, it) =>
      t ← State pnode s;
      q ← deref it (vBlocksInFlight t);
      let v := Z.b2z (fValidatedHeaders q) in
      let t := set_queue 0 (erase it (vBlocksInFlight t)) (nBlocksInFlight t - 1) (nBlocksInFlightValidHeaders t - v) t in
      Some (true, with_flight (delete hash (mapBlocksInFlight s)) (nQueuedValidatedHeaders s - v) (nextNode s) (put pnode t s))
  end.

Section download.
Context (params : Consensus.Params).

Definition GetBlockTimeout (nTime nValidatedQueuedBefore nHeight : Z) : option Z :=
  spacing ← Consensus.PoWTargetSpacing params nHeight;
  Some (s64 (nTime + s64 (s64 (500000 * spacing) * (4 + nValidatedQueuedBefore)))).

Context (mapBlockIndex : gmap (list Z) nat) (m : gmap nat CBlockIndex) (chainActive : list (option nat)).

Definition MarkBlockAsInFlight (nodeid : Z) (hash : list Z) (pindex : option nat) (nNow : Z) (s : peers) : option peers :=
  _ ← State nodeid s;
  '(_, s) ← MarkBlockAsReceived hash s;
  t ← State nodeid s;
  h ← match pindex with Some p => nHeight <$> m !! p | None => Some (Height chainActive) end;
  let valid := match pindex with Some _ => true | None => false end in
  timeout ← GetBlockTimeout nNow (nQueuedValidatedHeaders s) h;
  let newentry := {| q_hash := hash; q_pindex := pindex; q_nTime := nNow; fValidatedHeaders := valid; nTimeDisconnect := timeout |} in
  let it := nextNode s in
  let t := set_queue (nStallingSince t) (vBlocksInFlight t ++ [(it, newentry)]) (nBlocksInFlight t + 1) (nBlocksInFlightValidHeaders t + Z.b2z valid) t in
  Some (with_flight (<[hash := (nodeid, it)]> (mapBlocksInFlight s)) (nQueuedValidatedHeaders s + Z.b2z valid) (S it) (put nodeid t s)).

(** ** What a peer has *)

Definition has_work (b : CBlockIndex) : bool := Arith256.op_gt (nChainWork b) (Arith256.base_uint_of_u64 0).

(** [p] replaces the best known block of the peer when it has at least as much work. *)
Definition better_known (p : nat) (t : CNodeState) : option (option nat) :=
  match pindexBestKnownBlock t with
  | None => Some (Some p)
  | Some best => b ← m !! p; bb ← m !! best; Some (if Arith256.op_ge (nChainWork b) (nChainWork bb) then Some p else Some best)
  end.

(** A block of the index with work *)
Definition known_block (hash : list Z) : option (option nat) :=
  match mapBlockIndex !! hash with
  | None => Some None
  | Some p => b ← m !! p; Some (if has_work b then Some p else None)
  end.

Definition ProcessBlockAvailability (nodeid : Z) (s : peers) : option peers :=
  t ← State nodeid s;
  if negb (Transaction.blob_IsNull (hashLastUnknownBlock t)) then
    itOld ← known_block (hashLastUnknownBlock t);
    match itOld with
    | None => Some s
    | Some p => best ← better_known p t; Some (put nodeid (set_known best (replicate 32 0) (pindexLastCommonBlock t) t) s)
    end
  else Some s.

Definition UpdateBlockAvailability (nodeid : Z) (hash : list Z) (s : peers) : option peers :=
  _ ← State nodeid s;
  s ← ProcessBlockAvailability nodeid s;
  t ← State nodeid s;
  it ← known_block hash;
  match it with
  | Some p => best ← better_known p t; Some (put nodeid (set_known best (hashLastUnknownBlock t) (pindexLastCommonBlock t) t) s)
  | None => Some (put nodeid (set_known (pindexBestKnownBlock t) hash (pindexLastCommonBlock t) t) s)
  end.

(** ** The blocks to request next *)

(** [vToFetch]: the block [p] and its [n] predecessors, oldest first *)
Fixpoint to_fetch (n : nat) (p : nat) (l : list nat) : option (list nat) :=
  match n with
  | O => Some (p :: l)
  | S n => b ← m !! p; q ← pprev b; to_fetch n q (p :: l)
  end.

(** The variables of the search *)
Record search := { vBlocks : list nat; lastCommon : nat; waitingfor : Z; nodeStaller : Z }.

(** The inner loop; the flag says that the function returns. *)
Fixpoint fetch_loop (inflight : gmap (list Z) (Z * nat)) (nodeid : Z) (count : nat) (nWindowEnd : Z) (l : list nat) (r : search) : option (bool * search) :=
  match l with
  | [] => Some (false, r)
  | p :: l =>
      b ← m !! p;
      valid ← BlockIndex.IsValid b BLOCK_VALID_TREE;
      if negb valid then Some (true, r)
      else
        contains ← Contains m chainActive p;
        if negb (Z.land (nStatus b) BLOCK_HAVE_DATA =? 0) || (contains : bool) then
          fetch_loop inflight nodeid count nWindowEnd l
            (if negb (nChainTx b =? 0) then {| vBlocks := vBlocks r; lastCommon := p; waitingfor := waitingfor r; nodeStaller := nodeStaller r |} else r)
        else
          hash ← GetBlockHash b;
          match inflight !! hash with
          | None =>
              if nHeight b >? nWindowEnd then
                Some (true, if bool_decide (vBlocks r = []) && negb (waitingfor r =? nodeid)
                            then {| vBlocks := vBlocks r; lastCommon := lastCommon r; waitingfor := waitingfor r; nodeStaller := waitingfor r |} else r)
              else
                let r := {| vBlocks := vBlocks r ++ [p]; lastCommon := lastCommon r; waitingfor := waitingfor r; nodeStaller := nodeStaller r |} in
                if (length (vBlocks r) =? count)%nat then Some (true, r) else fetch_loop inflight nodeid count nWindowEnd l r
          | Some (other, _) =>
              fetch_loop inflight nodeid count nWindowEnd l
                (if waitingfor r =? -1 then {| vBlocks := vBlocks r; lastCommon := lastCommon r; waitingfor := other; nodeStaller := nodeStaller r |} else r)
          end
  end.

(** The outer loop: [pindexWalk] at height [walk] *)
Fixpoint walk_loop (fuel : nat) (inflight : gmap (list Z) (Z * nat)) (nodeid : Z) (count : nat) (nWindowEnd nMaxHeight : Z) (best : nat) (walk : Z) (r : search) : option search :=
  if walk <? nMaxHeight then
    match fuel with
    | O => None
    | S fuel =>
        let nToFetch := Z.min (nMaxHeight - walk) (Z.max (Z.of_nat count - Z.of_nat (length (vBlocks r))) 128) in
        p ← GetAncestor m best (walk + nToFetch);
        pindexWalk ← p;
        vToFetch ← to_fetch (Z.to_nat (nToFetch - 1)) pindexWalk [];
        '(ret, r) ← fetch_loop inflight nodeid count nWindowEnd vToFetch r;
        if (ret : bool) then Some r
        else b ← m !! pindexWalk; walk_loop fuel inflight nodeid count nWindowEnd nMaxHeight best (nHeight b) r
    end
  else Some r.

(** [FindNextBlocksToDownload] with an empty [vBlocks]; [-1] is no staller. *)
Definition FindNextBlocksToDownload (nodeid : Z) (count : nat) (s : peers) : option (list nat * Z * peers) :=
  if (count =? 0)%nat then Some ([], -1, s)
  else
    _ ← State nodeid s;
    s ← ProcessBlockAvailability nodeid s;
    t ← State nodeid s;
    match pindexBestKnownBlock t with
    | None => Some ([], -1, s)
    | Some best =>
        bb ← m !! best;
        tip ← Tip chainActive;
        bt ← m !! tip;
        if Arith256.op_lt (nChainWork bb) (nChainWork bt) then Some ([], -1, s)
        else
          common ← match pindexLastCommonBlock t with
                   | Some c => Some c
                   | None => chain_at chainActive (Z.min (nHeight bb) (Height chainActive))
                   end;
          anc ← LastCommonAncestor m common best;
          lca ← anc;
          if bool_decide (lca = best) then Some ([], -1, put nodeid (set_known (Some best) (hashLastUnknownBlock t) (Some lca) t) s)
          else
            bl ← m !! lca;
            let nWindowEnd := nHeight bl + BLOCK_DOWNLOAD_WINDOW in
            let nMaxHeight := Z.min (nHeight bb) (nWindowEnd + 1) in
            r ← walk_loop (Z.to_nat (nMaxHeight - nHeight bl)) (mapBlocksInFlight s) nodeid count nWindowEnd nMaxHeight best (nHeight bl)
                  {| vBlocks := []; lastCommon := lca; waitingfor := -1; nodeStaller := -1 |};
            Some (vBlocks r, nodeStaller r, put nodeid (set_known (Some best) (hashLastUnknownBlock t) (Some (lastCommon r)) t) s)
    end.

(** ** The block download part of SendMessages *)

(** Header synchronization starts: the flag says that "getheaders" is sent. *)
Definition fFetch (pto : CNode) (t : CNodeState) (s : peers) : bool :=
  fPreferredDownload t || ((nPreferredDownload s =? 0) && negb (fClient pto) && negb (fOneShot pto)).
Definition start_sync (pto : CNode) (nodeid : Z) (busy : bool) (headerTime adjustedTime : Z) (s : peers) : option (bool * peers) :=
  t ← State nodeid s;
  if negb (fSyncStarted t) && negb (fClient pto) && negb busy
     && (((nSyncStarted s =? 0) && fFetch pto t s) || (headerTime >? adjustedTime - 24 * 60 * 60))
  then Some (true, with_counts (nSyncStarted s + 1) (nPreferredDownload s) (put nodeid (set_flags true (fPreferredDownload t) t) s))
  else Some (false, s).

(** Stalling and time-outs: the flag says that the peer is disconnected. *)
Definition check_timeouts (nodeid : Z) (nNow headerHeight : Z) (fDisconnect : bool) (s : peers) : option (bool * peers) :=
  t ← State nodeid s;
  let fDisconnect := fDisconnect || (negb (nStallingSince t =? 0) && (nStallingSince t <? nNow - 1000000 * BLOCK_STALLING_TIMEOUT)) in
  match vBlocksInFlight t with
  | (it, queuedBlock) :: l =>
      if fDisconnect then Some (fDisconnect, s)
      else
        now ← GetBlockTimeout nNow (nQueuedValidatedHeaders s - nBlocksInFlightValidHeaders t) headerHeight;
        let limit := if nTimeDisconnect queuedBlock >? now then now else nTimeDisconnect queuedBlock in
        let q := {| q_hash := q_hash queuedBlock; q_pindex := q_pindex queuedBlock; q_nTime := q_nTime queuedBlock;
                    fValidatedHeaders := fValidatedHeaders queuedBlock; nTimeDisconnect := limit |} in
        Some (limit <? nNow, put nodeid (set_queue (nStallingSince t) ((it, q) :: l) (nBlocksInFlight t) (nBlocksInFlightValidHeaders t) t) s)
  | [] => Some (fDisconnect, s)
  end.

Fixpoint request_loop (nodeid : Z) (l : list nat) (nNow : Z) (s : peers) : option (list (list Z) * peers) :=
  match l with
  | [] => Some ([], s)
  | p :: l =>
      b ← m !! p;
      hash ← GetBlockHash b;
      s ← MarkBlockAsInFlight nodeid hash (Some p) nNow s;
      '(vGetData, s) ← request_loop nodeid l nNow s;
      Some (hash :: vGetData, s)
  end.

(** "getdata" for blocks *)
Definition request_blocks (pto : CNode) (nodeid : Z) (nNow : Z) (initialDownload fDisconnect : bool) (s : peers) : option (list (list Z) * peers) :=
  t ← State nodeid s;
  if negb fDisconnect && negb (fClient pto) && (fFetch pto t s || negb initialDownload) && (nBlocksInFlight t <? MAX_BLOCKS_IN_TRANSIT_PER_PEER) then
    '(vToDownload, staller, s) ← FindNextBlocksToDownload nodeid (Z.to_nat (MAX_BLOCKS_IN_TRANSIT_PER_PEER - nBlocksInFlight t)) s;
    '(vGetData, s) ← request_loop nodeid vToDownload nNow s;
    t ← State nodeid s;
    if (nBlocksInFlight t =? 0) && negb (staller =? -1) then
      st ← State staller s;
      Some (vGetData, if nStallingSince st =? 0
                      then put staller (set_queue nNow (vBlocksInFlight st) (nBlocksInFlight st) (nBlocksInFlightValidHeaders st) st) s else s)
    else Some (vGetData, s)
  else Some ([], s).

(** What [SendMessages] does for block download: the peer is disconnected, banned, told
    of these rejects, asked for headers, asked for these blocks; [disconnecting] is
    [pto->fDisconnect] at the start *)
Record sent := { s_disconnect : bool; s_ban : bool; s_rejects : list CBlockReject; s_getheaders : bool; s_getdata : list (list Z) }.
Definition SendMessages (pto : CNode) (nodeid : Z) (disconnecting busy initialDownload : bool) (headerTime headerHeight adjustedTime nNow : Z) (s : peers) : option (sent * peers) :=
  '(fDisconnect, ban, rs, s) ← take_verdict pto nodeid s;
  let fDisconnect := disconnecting || fDisconnect in
  '(getheaders, s) ← start_sync pto nodeid busy headerTime adjustedTime s;
  '(fDisconnect, s) ← check_timeouts nodeid nNow headerHeight fDisconnect s;
  '(vGetData, s) ← request_blocks pto nodeid nNow initialDownload fDisconnect s;
  Some ({| s_disconnect := fDisconnect; s_ban := ban; s_rejects := rs; s_getheaders := getheaders; s_getdata := vGetData |}, s).

(** A block announced by "inv": whether "getheaders" is sent, and whether the block is
    requested at once *)
Definition inv_block (nodeid : Z) (hash : list Z) (busy : bool) (tipTime adjustedTime headerHeight nNow : Z) (s : peers) : option (bool * bool * peers) :=
  let fAlreadyHave := bool_decide (is_Some (mapBlockIndex !! hash)) in
  s ← UpdateBlockAvailability nodeid hash s;
  if negb fAlreadyHave && negb busy && bool_decide (mapBlocksInFlight s !! hash = None) then
    t ← State nodeid s;
    spacing ← Consensus.PoWTargetSpacing params headerHeight;
    if (tipTime >? adjustedTime - spacing * 20) && (nBlocksInFlight t <? MAX_BLOCKS_IN_TRANSIT_PER_PEER)
    then s ← MarkBlockAsInFlight nodeid hash None nNow s; Some (true, true, s)
    else Some (true, false, s)
  else Some (false, false, s).

End download.

(** The first block of the locator that is in the chain, or the tip when the locator names
    a successor of it *)
Fixpoint fork_loop (mapBlockIndex : gmap (list Z) nat) (m : gmap nat CBlockIndex) (chain : list (option nat)) (vHave : list (list Z)) : option (option nat) :=
  match vHave with
  | [] => Some (Genesis chain)
  | hash :: vHave =>
      match mapBlockIndex !! hash with
      | None => fork_loop mapBlockIndex m chain vHave
      | Some p =>
          c ← Contains m chain p;
          if (c : bool) then Some (Some p)
          else a ← GetAncestor m p (Height chain);
               if bool_decide (a = Tip chain) then Some (Tip chain) else fork_loop mapBlockIndex m chain vHave
      end
  end.
Definition FindForkInGlobalIndex := fork_loop.

End Peers.
