(* ===== verification/PeersFacts.v ===== *)
(** * The invariant of the peer state

    [mapBlocksInFlight] and the queues of the peers describe the same requests, every
    iterator points to a live list node, and the counters count what they say.  The
    operations of [Peers] that do not read the block index preserve it. *)

From stdpp Require Import base list list_numbers numbers option gmap strings.
From Stdlib Require Import ZArith Lia.
From S2P Require Import Prelude Bytes ArithUint256 Params Chain TxCheck NetAddr Transaction Mempool Orphans Peers.
Import BlockIndex NetAddr Orphans Peers.
#[local] Open Scope Z_scope.

Module PeersFacts.

(** ** Sums over the peers *)

Definition total (f : CNodeState -> Z) (m : gmap Z CNodeState) : Z := map_fold (fun _ t acc => f t + acc) 0 m.

Lemma total_insert f m k t : m !! k = None -> total f (<[k := t]> m) = f t + total f m.
Proof. intros Hk. unfold total. rewrite map_fold_insert_L; [done| |done]. intros. lia. Qed.

Lemma peer_total_delete f m k t : m !! k = Some t -> total f (delete k m) = total f m - f t.
Proof. intros Hk. rewrite <- (insert_delete_id m k t Hk) at 2. rewrite total_insert by apply lookup_delete_eq. lia. Qed.

Lemma total_update f m k t t' : m !! k = Some t -> total f (<[k := t']> m) = total f m - f t + f t'.
Proof. intros Hk. rewrite <- insert_delete_eq, total_insert by apply lookup_delete_eq. rewrite (peer_total_delete f m k t) by done. lia. Qed.

(** ** The invariant *)

Definition count_valid (l : list node) : Z := Z.of_nat (length (filter (fun e => fValidatedHeaders e.2 = true) l)).

Record queue_ok (s : peers) (n : Z) (t : CNodeState) : Prop := {
  u_entry it q : (it, q) ∈ vBlocksInFlight t -> mapBlocksInFlight s !! q_hash q = Some (n, it) /\ (it < nextNode s)%nat;
  u_nodup : NoDup (vBlocksInFlight t).*1;
  u_count : nBlocksInFlight t = Z.of_nat (length (vBlocksInFlight t));
  u_valid : nBlocksInFlightValidHeaders t = count_valid (vBlocksInFlight t);
  u_max : nBlocksInFlight t <= MAX_BLOCKS_IN_TRANSIT_PER_PEER
}.

(** The blocks the peer's pointers name are among [D]. *)
Definition known_ok (D : gset nat) (t : CNodeState) : Prop :=
  (forall p, pindexBestKnownBlock t = Some p -> p ∈ D) /\ (forall p, pindexLastCommonBlock t = Some p -> p ∈ D).

(** [leak] counts the validated requests of peers that have left. *)
Record peers_ok (GetHash : Transaction.CTransaction -> list Z) (D : gset nat) (leak : Z) (s : peers) : Prop := {
  p_flight h n it : mapBlocksInFlight s !! h = Some (n, it) -> exists t q, State n s = Some t /\ (it, q) ∈ vBlocksInFlight t /\ q_hash q = h;
  p_queue n t : State n s = Some t -> queue_ok s n t;
  p_known n t : State n s = Some t -> known_ok D t;
  p_sync : nSyncStarted s = total (fun t => Z.b2z (fSyncStarted t)) (mapNodeState s);
  p_preferred : nPreferredDownload s = total (fun t => Z.b2z (fPreferredDownload t)) (mapNodeState s);
  p_queued : nQueuedValidatedHeaders s = total nBlocksInFlightValidHeaders (mapNodeState s) + leak;
  p_orphans : orphans_ok GetHash (orphanage s);
  p_owners h e : mapOrphanTransactions (orphanage s) !! h = Some e -> is_Some (State (fromPeer e) s)
}.

Lemma elem_deref it q l : NoDup l.*1 -> (it, q) ∈ l -> deref it l = Some q.
Proof.
  unfold deref. induction l as [|[i e] l IH]; intros Hn Hin; [by apply not_elem_of_nil in Hin|]. cbn in Hn. apply NoDup_cons in Hn as [Hi Hn].
  rewrite filter_cons. case_decide as Hd; cbn in Hd.
  - subst i. apply elem_of_cons in Hin as [[= ->]|Hin]; [done|]. exfalso. apply Hi. apply list_elem_of_fmap. by exists (it, q).
  - apply elem_of_cons in Hin as [[= -> ->]|Hin]; [done|by apply IH].
Qed.

Lemma elem_erase it i q l : (i, q) ∈ erase it l <-> (i, q) ∈ l /\ i <> it.
Proof. unfold erase. rewrite list_elem_of_filter. cbn. naive_solver. Qed.

Lemma erase_fresh it l : it ∉ l.*1 -> erase it l = l.
Proof.
  unfold erase. induction l as [|[i e] l IH]; cbn [fmap list_fmap fst]; [done|]. intros Hn. apply not_elem_of_cons in Hn as [Hne Hn].
  rewrite filter_cons_True by (cbn; congruence). by rewrite IH.
Qed.

Lemma erase_spec it q l : NoDup l.*1 -> (it, q) ∈ l ->
  NoDup (erase it l).*1 /\ Z.of_nat (length (erase it l)) = Z.of_nat (length l) - 1 /\ count_valid (erase it l) = count_valid l - Z.b2z (fValidatedHeaders q).
Proof.
  unfold count_valid. induction l as [|[i e] l IH]; intros Hn Hin; [by apply not_elem_of_nil in Hin|]. cbn in Hn. apply NoDup_cons in Hn as [Hi Hn].
  apply elem_of_cons in Hin as [[= -> ->]|Hin].
  - replace (erase i ((i, e) :: l)) with l; [|unfold erase; rewrite filter_cons_False by (cbn; naive_solver); symmetry; by apply erase_fresh].
    split; [done|]. split; [cbn; lia|]. rewrite filter_cons. cbn. destruct (fValidatedHeaders e); [rewrite decide_True by done|rewrite decide_False by done]; cbn; lia.
  - assert (i <> it) as Hne by (intros ->; apply Hi; apply list_elem_of_fmap; by exists (it, q)).
    destruct (IH Hn Hin) as (H1 & H2 & H3). unfold erase in *. rewrite filter_cons_True by done. split; [|split].
    + cbn. apply NoDup_cons. split; [|done]. intros H. apply Hi. apply list_elem_of_fmap in H as ([i' e'] & -> & H). apply list_elem_of_fmap. exists (i', e').
      split; [done|]. by apply list_elem_of_filter in H as [_ H].
    + cbn. lia.
    + rewrite !(filter_cons _ (i, e)). cbn. destruct (decide (fValidatedHeaders e = true)); cbn; lia.
Qed.

Section facts.
Context (GetHash : Transaction.CTransaction -> list Z).
Abbreviation ok := (peers_ok GetHash).

Lemma init_ok D : ok D 0 peers_init.
Proof.
  split; cbn [peers_init mapBlocksInFlight mapNodeState nSyncStarted nPreferredDownload nQueuedValidatedHeaders orphanage State]; try done.
  apply orphans_empty_ok.
Qed.

Lemma ok_weaken D D' leak s : D ⊆ D' -> ok D leak s -> ok D' leak s.
Proof. intros HD [J1 J2 J3 J4 J5 J6 J7 J8]. split; try done. intros n t H. destruct (J3 n t H) as [H1 H2]. split; intros p Hp; apply HD; eauto. Qed.

(** ** A change of one peer that leaves its queue alone *)

Definition same_queue (t t' : CNodeState) : Prop :=
  vBlocksInFlight t' = vBlocksInFlight t /\ nBlocksInFlight t' = nBlocksInFlight t /\ nBlocksInFlightValidHeaders t' = nBlocksInFlightValidHeaders t.

Lemma queue_same s s' n t t' : same_queue t t' -> mapBlocksInFlight s' = mapBlocksInFlight s -> nextNode s' = nextNode s -> queue_ok s n t -> queue_ok s' n t'.
Proof. intros (E1 & E2 & E3) F N [H1 H2 H3 H4 H5]. split; rewrite ?E1, ?E2, ?E3, ?F, ?N; done. Qed.

Lemma State_put n t s k : State k (put n t s) = if decide (k = n) then Some t else State k s.
Proof. unfold State. cbn [put with_state mapNodeState]. case_decide as Hd; [subst; apply lookup_insert_eq|by rewrite lookup_insert_ne]. Qed.

Lemma put_ok D leak s n t t' sync pref :
  ok D leak s -> State n s = Some t -> same_queue t t' -> known_ok D t' ->
  sync = nSyncStarted s - Z.b2z (fSyncStarted t) + Z.b2z (fSyncStarted t') ->
  pref = nPreferredDownload s - Z.b2z (fPreferredDownload t) + Z.b2z (fPreferredDownload t') ->
  ok D leak (with_counts sync pref (put n t' s)).
Proof.
  intros [J1 J2 J3 J4 J5 J6 J7 J8] Hn Hq Hk Hs Hp. pose proof Hq as (E1 & E2 & E3).
  assert (HS : forall k, State k (with_counts sync pref (put n t' s)) = if decide (k = n) then Some t' else State k s) by (intros k; apply State_put).
  split; cbn [with_counts put with_state mapBlocksInFlight mapNodeState nSyncStarted nPreferredDownload nQueuedValidatedHeaders orphanage].
  - intros h k it H. destruct (J1 h k it H) as (u & q & H1 & H2 & H3). rewrite HS. case_decide as Hd; [|by exists u, q]. subst k. rewrite Hn in H1. injection H1 as <-.
    exists t', q. by rewrite E1.
  - intros k u. rewrite HS. case_decide as Hd; [subst k; intros [= <-]; apply (queue_same s _ n t t'); [done..|by apply J2]|].
    intros H. apply (queue_same s _ k u u); [done..|by apply J2].
  - intros k u. rewrite HS. case_decide as Hd; [by intros [= <-]|apply J3].
  - unfold State in Hn. rewrite (total_update _ _ _ _ _ Hn), <- J4. lia.
  - unfold State in Hn. rewrite (total_update _ _ _ _ _ Hn), <- J5. lia.
  - unfold State in Hn. rewrite (total_update _ _ _ _ _ Hn), E3, J6. lia.
  - done.
  - intros h e H. rewrite HS. case_decide; [done|by eapply J8].
Qed.

Lemma with_counts_id s : with_counts (nSyncStarted s) (nPreferredDownload s) s = s.
Proof. by destruct s. Qed.

(** A change that keeps the flags too *)
Lemma put_plain D leak s n t t' :
  ok D leak s -> State n s = Some t -> same_queue t t' -> known_ok D t' -> fSyncStarted t' = fSyncStarted t -> fPreferredDownload t' = fPreferredDownload t ->
  ok D leak (put n t' s).
Proof.
  intros H Hn Hq Hk Hs Hp. rewrite <- (with_counts_id (put n t' s)). apply (put_ok D leak s n t t'); [done..|rewrite Hs; cbn; lia|rewrite Hp; cbn; lia].
Qed.

(** ** Connections *)

Lemma InitializeNode_ok D leak s n node : ok D leak s -> State n s = None -> ok D leak (InitializeNode n node s).
Proof.
  intros [J1 J2 J3 J4 J5 J6 J7 J8] Hn. unfold InitializeNode. unfold State in Hn. rewrite Hn. cbn [default].
  set (t' := {| address := _ |}). assert (HS : forall k, State k (put n t' s) = if decide (k = n) then Some t' else State k s) by (intros k; apply State_put).
  split; cbn [put with_state mapBlocksInFlight mapNodeState nSyncStarted nPreferredDownload nQueuedValidatedHeaders orphanage]; rewrite ?total_insert by done.
  - intros h k it H. destruct (J1 h k it H) as (u & q & H1 & H2 & H3). exists u, q. rewrite HS. case_decide as Hd; [|done]. subst k. unfold State in H1. by rewrite Hn in H1.
  - intros k u. rewrite HS. case_decide as Hd; [|intros H; apply (queue_same s _ k u u); [done..|by apply J2]].
    intros [= <-]. split; cbn; try done; [intros it q H; by apply not_elem_of_nil in H|apply NoDup_nil_2].
  - intros k u. rewrite HS. case_decide as Hd; [by intros [= <-]|apply J3].
  - cbn. lia.
  - cbn. lia.
  - cbn. lia.
  - done.
  - intros h e H. rewrite HS. case_decide; [done|by eapply J8].
Qed.

Lemma UpdatePreferredDownload_ok D leak s n node : ok D leak s -> is_Some (State n s) -> exists s', UpdatePreferredDownload node n s = Some s' /\ ok D leak s' /\
  forall k, is_Some (State k s') <-> is_Some (State k s).
Proof.
  intros H [t Hn]. unfold UpdatePreferredDownload. rewrite Hn. cbn [mbind option_bind]. eexists. split; [done|]. split.
  - apply (put_ok D leak s n t); [done..|apply (p_known _ _ _ _ H n t Hn)|cbn; lia|cbn; lia].
  - intros k. change (is_Some (State k (put n (set_flags (fSyncStarted t) ((negb (fInbound node) || fWhitelisted node) && negb (fOneShot node) && negb (fClient node)) t) s)) <-> is_Some (State k s)).
    rewrite State_put. case_decide; [subst; rewrite Hn; split; done|done].
Qed.

Lemma put_dom n t t' s k : State n s = Some t -> is_Some (State k (put n t' s)) <-> is_Some (State k s).
Proof. intros Hn. rewrite State_put. case_decide; [subst; rewrite Hn; split; done|done]. Qed.

Lemma verack_ok D leak s n node : ok D leak s -> is_Some (State n s) -> exists s', verack node n s = Some s' /\ ok D leak s' /\ forall k, is_Some (State k s') <-> is_Some (State k s).
Proof.
  intros H [t Hn]. unfold verack. destruct (fNetworkNode node); [|by exists s]. rewrite Hn. cbn [mbind option_bind]. eexists. split; [done|]. split.
  - apply (put_plain D leak s n t); [done..|apply (p_known _ _ _ _ H n t Hn)|done|done].
  - intros k. by apply put_dom with t.
Qed.

Lemma Misbehaving_ok D leak s bs n k : ok D leak s -> ok D leak (Misbehaving bs n k s) /\ forall j, is_Some (State j (Misbehaving bs n k s)) <-> is_Some (State j s).
Proof.
  intros H. unfold Misbehaving. destruct (k =? 0); [done|]. destruct (State n s) as [t|] eqn:Hn; [|done]. split.
  - apply (put_plain D leak s n t); [done..|apply (p_known _ _ _ _ H n t Hn)|done|done].
  - intros j. by apply put_dom with t.
Qed.

Lemma punish_source_ok D leak s bs h st : ok D leak s -> ok D leak (punish_source bs h st s) /\ forall j, is_Some (State j (punish_source bs h st s)) <-> is_Some (State j s).
Proof.
  intros H. unfold punish_source. destruct (TxCheck.IsInvalid st); [|done]. destruct (mapBlockSource s !! h) as [n|]; [|done]. destruct (State n s) as [t|] eqn:Hn; [|done].
  set (s1 := put n _ s). assert (H1 : ok D leak s1) by (apply (put_plain D leak s n t); [done..|apply (p_known _ _ _ _ H n t Hn)|done|done]).
  assert (H2 : forall j, is_Some (State j s1) <-> is_Some (State j s)) by (intros j; by apply put_dom with t).
  destruct (_ >? 0); [|done]. destruct (Misbehaving_ok D leak s1 bs n (TxCheck.nDoS st) H1) as [H3 H4]. split; [done|]. intros j. by rewrite H4.
Qed.

Lemma take_verdict_ok D leak s n node : ok D leak s -> is_Some (State n s) -> exists d b rs s', take_verdict node n s = Some (d, b, rs, s') /\ ok D leak s' /\
  forall k, is_Some (State k s') <-> is_Some (State k s).
Proof.
  intros H [t Hn]. unfold take_verdict. rewrite Hn. cbn [mbind option_bind]. do 4 eexists. split; [done|]. split.
  - apply (put_plain D leak s n t); [done..|apply (p_known _ _ _ _ H n t Hn)|done|done].
  - intros k. by apply put_dom with t.
Qed.

(** [FinalizeNode] forgets the peer's requests; the validated ones stay in
    [nQueuedValidatedHeaders]. *)
Lemma foldl_delete_flight (l : list node) : forall (f : gmap (list Z) (Z * nat)) h,
  foldl (fun f e => delete (q_hash e.2) f) f l !! h = if bool_decide (h ∈ (fun e => q_hash e.2) <$> l) then None else f !! h.
Proof.
  induction l as [|e l IH]; intros f h; cbn [foldl]; [by rewrite bool_decide_eq_false_2 by (cbn; set_solver)|]. rewrite IH. cbn [fmap list_fmap].
  destruct (decide (h = q_hash e.2)) as [->|Hne].
  - rewrite lookup_delete_eq. rewrite (bool_decide_eq_true_2 (_ ∈ _ :: _)) by set_solver. by destruct (bool_decide _).
  - rewrite lookup_delete_ne by done. by rewrite (bool_decide_ext (h ∈ _ :: _) (h ∈ (fun e => q_hash e.2) <$> l)) by (rewrite elem_of_cons; naive_solver).
Qed.

Lemma FinalizeNode_ok D leak s n t : ok D leak s -> State n s = Some t -> exists seen s', FinalizeNode GetHash n s = Some (seen, s') /\
  ok D (leak + nBlocksInFlightValidHeaders t) s' /\ (forall k, State k s' = if decide (k = n) then None else State k s).
Proof.
  intros [J1 J2 J3 J4 J5 J6 J7 J8] Hn. unfold FinalizeNode. rewrite Hn. cbn [mbind option_bind].
  set (s1 := if fSyncStarted t then _ else s). assert (Es1 : s1 = with_counts (nSyncStarted s - Z.b2z (fSyncStarted t)) (nPreferredDownload s) s).
  { unfold s1. destruct (fSyncStarted t); [done|]. cbn [Z.b2z]. rewrite Z.sub_0_r. symmetry. apply with_counts_id. }
  rewrite Es1. cbn [with_counts with_flight orphanage].
  destruct (EraseOrphansFor_ok GetHash n (orphanage s) J7) as (o & -> & Ho & Hl). cbn [mbind option_bind].
  do 2 eexists. split; [done|]. assert (Hn' := Hn). unfold State in Hn'.
  assert (HS : forall k, delete n (mapNodeState s) !! k = if decide (k = n) then None else State k s).
  { intros k. case_decide; [subst; apply lookup_delete_eq|by rewrite lookup_delete_ne]. }
  split; [|done]. set (fl := foldl _ _ _).
  assert (Hfl : forall h k it, fl !! h = Some (k, it) -> mapBlocksInFlight s !! h = Some (k, it) /\ k <> n).
  { intros h k it. unfold fl. rewrite foldl_delete_flight. case_bool_decide as Hb; [done|]. intros H. split; [done|]. intros ->.
    destruct (J1 h n it H) as (u & q & H1 & H2 & H3). rewrite Hn in H1. injection H1 as <-. apply Hb. apply list_elem_of_fmap. by exists (it, q). }
  assert (Hkeep : forall h k it, mapBlocksInFlight s !! h = Some (k, it) -> k <> n -> fl !! h = Some (k, it)).
  { intros h k it H Hne. unfold fl. rewrite foldl_delete_flight. case_bool_decide as Hb; [|done]. apply list_elem_of_fmap in Hb as ([i q] & -> & Hq).
    destruct (u_entry _ _ _ (J2 n t Hn) i q Hq) as [E _]. cbn in H. rewrite E in H. injection H as -> ->. done. }
  split; cbn [with_state with_counts with_orphans with_flight mapBlocksInFlight mapNodeState nSyncStarted nPreferredDownload nQueuedValidatedHeaders orphanage]; rewrite ?(peer_total_delete _ _ _ _ Hn').
  - intros h k it H. destruct (Hfl h k it H) as [H1 Hne]. destruct (J1 h k it H1) as (u & q & H2 & H3 & H4). exists u, q. split; [|done].
    unfold State. cbn. rewrite HS. by rewrite decide_False.
  - intros k u. unfold State. cbn. rewrite HS. case_decide as Hd; [done|]. intros H. destruct (J2 k u H) as [H1 H2 H3 H4 H5]. split; try done.
    intros it q Hq. cbn. destruct (H1 it q Hq) as [E F]. split; [by apply Hkeep|done].
  - intros k u. unfold State. cbn. rewrite HS. case_decide as Hd; [done|apply J3].
  - lia.
  - lia.
  - lia.
  - done.
  - intros h e He. rewrite Hl in He. unfold State. cbn. rewrite HS. destruct (mapOrphanTransactions (orphanage s) !! h) as [e'|] eqn:E; [|done].
    destruct (fromPeer e' =? n) eqn:Ep; [done|]. injection He as ->. apply Z.eqb_neq in Ep. rewrite decide_False by done. by eapply J8.
Qed.

(** ** Blocks in flight *)

Lemma MarkBlockAsReceived_ok D leak s h : ok D leak s -> exists b s', MarkBlockAsReceived h s = Some (b, s') /\ ok D leak s' /\
  b = bool_decide (is_Some (mapBlocksInFlight s !! h)) /\ mapBlocksInFlight s' = delete h (mapBlocksInFlight s) /\ nextNode s' = nextNode s /\
  (forall k t', State k s' = Some t' -> exists t, State k s = Some t /\ pindexBestKnownBlock t' = pindexBestKnownBlock t /\ nBlocksInFlight t' <= nBlocksInFlight t) /\
  (forall k, is_Some (State k s') <-> is_Some (State k s)).
Proof.
  intros Hok. pose proof Hok as [J1 J2 J3 J4 J5 J6 J7 J8]. unfold MarkBlockAsReceived. destruct (mapBlocksInFlight s !! h) as [[n it]|] eqn:E.
  2:{ exists false, s. split; [done|]. split; [done|]. split; [by rewrite bool_decide_eq_false_2 by (intros [? ?]; done)|]. split; [by rewrite delete_id|]. split; [done|].
      split; [|done]. intros k t' H. exists t'. split; [done|]. split; [done|lia]. }
  destruct (J1 h n it E) as (t & q & Hn & Hq & Hh). rewrite Hn. cbn [mbind option_bind]. pose proof (J2 n t Hn) as [U1 U2 U3 U4 U5].
  rewrite (elem_deref it q) by done. cbn [mbind option_bind]. destruct (erase_spec it q _ U2 Hq) as (D1 & D2 & D3).
  set (t' := set_queue _ _ _ _ t). set (s' := with_flight _ _ _ _). exists true, s'. split; [done|].
  assert (HS : forall k, State k s' = if decide (k = n) then Some t' else State k s) by (intros k; apply State_put).
  assert (Hdom : forall k, is_Some (State k s') <-> is_Some (State k s)) by (intros k; rewrite HS; case_decide; [subst; rewrite Hn; split; done|done]).
  assert (Hmap : mapNodeState s' = <[n := t']> (mapNodeState s)) by done. assert (Hn' := Hn). unfold State in Hn'.
  assert (Hother : forall k u i e, State k s = Some u -> (i, e) ∈ vBlocksInFlight u -> q_hash e = h -> k = n /\ i = it).
  { intros k u i e Hk Hi He. destruct (u_entry _ _ _ (J2 k u Hk) i e Hi) as [F _]. rewrite He, E in F. by injection F as -> ->. }
  split.
  2:{ split; [by rewrite bool_decide_eq_true_2 by done|]. split; [done|]. split; [done|]. split; [|done].
      intros k u. rewrite HS. case_decide as Hd; [|intros H; exists u; split; [done|]; split; [done|lia]]. intros [= <-]. subst k. exists t. split; [done|]. split; [done|]. cbn. lia. }
  split; rewrite ?Hmap, ?(total_update _ _ _ _ _ Hn').
  - intros h' k i H. cbn in H. apply lookup_delete_Some in H as [Hne H]. destruct (J1 h' k i H) as (u & e & H1 & H2 & H3). rewrite HS. case_decide as Hd; [|by exists u, e].
    subst k. rewrite Hn in H1. injection H1 as <-. exists t', e. split; [done|]. split; [|done]. cbn. apply elem_erase. split; [done|]. intros ->.
    apply (elem_deref it e) in H2; [|done]. rewrite (elem_deref it q) in H2 by done. congruence.
  - intros k u. rewrite HS. case_decide as Hd.
    + intros [= <-]. subst k. split; cbn.
      * intros i e Hi. apply elem_erase in Hi as [Hi Hne]. destruct (U1 i e Hi) as [F G]. split; [|done]. rewrite lookup_delete_ne; [done|].
        intros He. destruct (Hother n t i e Hn Hi (eq_sym He)) as [_ ->]. done.
      * done.
      * lia.
      * rewrite U4. lia.
      * lia.
    + intros Hk. destruct (J2 k u Hk) as [V1 V2 V3 V4 V5]. split; try done. cbn. intros i e Hi. destruct (V1 i e Hi) as [F G]. split; [|done].
      rewrite lookup_delete_ne; [done|]. intros He. destruct (Hother k u i e Hk Hi (eq_sym He)) as [-> _]. done.
  - intros k u. rewrite HS. case_decide as Hd; [intros [= <-]; apply (J3 n t Hn)|apply J3].
  - cbn. rewrite J4. lia.
  - cbn. rewrite J5. lia.
  - cbn. rewrite J6. lia.
  - done.
  - intros h' e He. apply Hdom. by eapply J8.
Qed.

(** ** Orphans *)

Lemma ok_orphans D leak s o : ok D leak s -> orphans_ok GetHash o -> (forall h e, mapOrphanTransactions o !! h = Some e -> is_Some (State (fromPeer e) s)) -> ok D leak (with_orphans o s).
Proof. intros [J1 J2 J3 J4 J5 J6 J7 J8] Ho Hs. split; try done. intros n t Hn. apply (queue_same s _ n t t); [done..|by apply J2]. Qed.

Lemma keep_orphans_ok D leak s t n mx rnd : ok D leak s -> is_Some (State n s) -> is_Some (GetSerializeSize t) -> exists b o k o', AddOrphanTx GetHash t n (orphanage s) = Some (b, o) /\
  LimitOrphanTxSize mx rnd o = Some (k, o') /\ ok D leak (with_orphans o' s) /\ (size (mapOrphanTransactions o') <= mx)%nat.
Proof.
  intros Hok Hn [sz Hsz]. assert (HA : exists b o, AddOrphanTx GetHash t n (orphanage s) = Some (b, o)).
  { unfold AddOrphanTx. destruct (_ !! _); [by do 2 eexists|]. rewrite Hsz. cbn [mbind option_bind]. destruct (_ >? _); by do 2 eexists. }
  destruct HA as (b & o & HA). destruct (AddOrphanTx_ok GetHash t n _ b o (p_orphans _ _ _ _ Hok) HA) as [Ho Hb].
  destruct (limit_loop_ok GetHash mx rnd (size (mapOrphanTransactions o)) 0 o Ho ltac:(lia)) as (k & o' & H1 & H2 & H3 & H4 & _). exists b, o, k, o'. split; [done|]. split; [done|]. split; [|lia].
  apply ok_orphans; [done..|]. intros h e He. eapply lookup_weaken in H3; [|exact He].
  destruct b; [|subst o; by eapply p_owners]. destruct Hb as [_ Hb]. rewrite Hb in H3. apply lookup_insert_Some in H3 as [[_ <-]|[_ H3]]; [done|by eapply p_owners].
Qed.

End facts.

End PeersFacts.
