(* ===== verification/PeersDownload.v ===== *)
(** * The blocks to request from a peer

    [FindNextBlocksToDownload] walks the peer's best chain in chunks, with early
    returns.  Here it is shown equal to one pass over the path from the last common block
    ([walk_loop_flat]), whose result is a filter of that path ([fetch_loop_spec]). *)

From stdpp Require Import base list list_numbers numbers option gmap strings.
From Stdlib Require Import ZArith Lia.
From S2P Require Import Prelude Bytes ArithUint256 Params Chain ChainFacts TxCheck NetAddr Transaction Mempool Orphans Peers PeersFacts.
Import BlockIndex ChainFacts Peers PeersFacts.
#[local] Open Scope Z_scope.

Module PeersDownload.

Lemma target_spacing params h : 0 <= h -> is_Some (Consensus.PoWTargetSpacing params h).
Proof. intros Hh. unfold Consensus.PoWTargetSpacing. rewrite Consensus.NetworkUpgradeActive_spec by done. cbn [mbind option_bind]. done. Qed.

Section path.
Context (m : gmap nat CBlockIndex) (Hm : tree_ok m).

(** The ancestors of [best], a block at height [H], at the heights from [a + 1] to [b] *)
Definition path (best : nat) (H a b : Z) : list nat := omap (fun h => back (Z.to_nat (H - h)) m best) (seqZ (a + 1) (b - a)).

Lemma path_app best H a b c : a <= b <= c -> path best H a c = path best H a b ++ path best H b c.
Proof.
  intros Hle. unfold path. replace (c - a) with ((b - a) + (c - b)) by lia. rewrite seqZ_app by lia. rewrite omap_app. do 3 f_equal. lia.
Qed.

Lemma path_nil best H a b : b <= a -> path best H a b = [].
Proof. intros Hle. unfold path. by rewrite seqZ_nil by lia. Qed.

Lemma path_one best H h p : back (Z.to_nat (H - h)) m best = Some p -> path best H (h - 1) h = [p].
Proof. intros Hp. unfold path. replace (h - (h - 1)) with 1 by lia. replace (h - 1 + 1) with h by lia. change (seqZ h 1) with [Z.of_nat 0 + h]. cbn [omap list_omap]. replace (Z.of_nat 0 + h) with h by lia. by rewrite Hp. Qed.

Lemma path_elem best H a b p : p ∈ path best H a b <-> exists h, a < h <= b /\ back (Z.to_nat (H - h)) m best = Some p.
Proof. unfold path. rewrite list_elem_of_omap. setoid_rewrite elem_of_seqZ. split; intros (h & H1 & H2); exists h; (split; [lia|done]). Qed.

Lemma path_mapped best bb a b p : m !! best = Some bb -> b <= nHeight bb -> p ∈ path best (nHeight bb) a b -> exists bp, m !! p = Some bp /\ a < nHeight bp <= b /\ is_ancestor m p best.
Proof using Hm.
  intros Hb Hle Hp. apply path_elem in Hp as (h & Hh & Hbk). destruct (back_mapped m Hm _ _ _ _ Hb Hbk) as [bp Hbp]. exists bp. split; [done|].
  pose proof (back_height m Hm _ _ _ _ _ Hb Hbk Hbp). split; [lia|by eexists].
Qed.

(** The heights along a path increase. *)
Definition ascending (l : list nat) : Prop := forall i j p q bp bq, l !! i = Some p -> l !! j = Some q -> (i < j)%nat -> m !! p = Some bp -> m !! q = Some bq -> nHeight bp < nHeight bq.

Lemma ascending_cons p l : ascending (p :: l) <-> ascending l /\ forall q bp bq, q ∈ l -> m !! p = Some bp -> m !! q = Some bq -> nHeight bp < nHeight bq.
Proof.
  split.
  - intros Ha. split.
    + intros i j x y bx b_y Hx Hy Hij. by apply (Ha (S i) (S j)); [..|lia].
    + intros q bp bq Hq. apply list_elem_of_lookup in Hq as [j Hj]. by apply (Ha 0%nat (S j)); [..|lia].
  - intros [Ha Hp] i j x y bx b_y Hx Hy Hij. destruct j as [|j]; [lia|]. destruct i as [|i]; cbn in Hx, Hy.
    + injection Hx as <-. apply Hp. by eapply list_elem_of_lookup_2.
    + eapply Ha; [exact Hx|exact Hy|lia].
Qed.

Lemma path_ascending best bb a b : m !! best = Some bb -> b <= nHeight bb -> ascending (path best (nHeight bb) a b).
Proof using Hm.
  intros Hb Hle. assert (Hd : forall n a, b - a = Z.of_nat n -> ascending (path best (nHeight bb) a b)).
  2:{ destruct (Z_le_dec a b); [apply (Hd (Z.to_nat (b - a))); lia|]. rewrite path_nil by lia. intros i j p q bp bq Hi. by rewrite lookup_nil in Hi. }
  induction n as [|n IH]; intros a' Hn; [rewrite path_nil by lia; intros i j p q bp bq Hi; by rewrite lookup_nil in Hi|].
  rewrite (path_app _ _ a' (a' + 1) b) by lia. destruct (back (Z.to_nat (nHeight bb - (a' + 1))) m best) as [p|] eqn:Ep.
  - replace a' with (a' + 1 - 1) at 1 by lia. rewrite (path_one _ _ _ p) by done. cbn [app]. apply ascending_cons. split; [apply IH; lia|].
    intros q bp bq Hq Hbp Hbq. apply (path_mapped best bb) in Hq as (bq' & Hq1 & Hq2 & _); [|done..]. rewrite Hbq in Hq1. injection Hq1 as <-.
    destruct (Z_le_dec 0 (a' + 1)).
    + pose proof (back_height m Hm _ _ _ _ _ Hb Ep Hbp). lia.
    + pose proof (back_height m Hm _ _ _ _ _ Hb Ep Hbp). pose proof (node_height _ _ _ (Hm _ _ Hbp)). lia.
  - replace (path best (nHeight bb) a' (a' + 1)) with (@nil nat); [cbn [app]; apply IH; lia|].
    unfold path. replace (a' + 1 - a') with 1 by lia. change (seqZ (a' + 1) 1) with [Z.of_nat 0 + (a' + 1)]. cbn [omap list_omap]. replace (Z.of_nat 0 + (a' + 1)) with (a' + 1) by lia. by rewrite Ep.
Qed.

Lemma to_fetch_path best H n : forall p h bp l, back (Z.to_nat (H - h)) m best = Some p -> m !! p = Some bp -> nHeight bp = h -> Z.of_nat n <= h <= H ->
  to_fetch m n p l = Some (path best H (h - Z.of_nat n - 1) h ++ l).
Proof using Hm.
  induction n as [|n IH]; intros p h bp l Hp Hbp Hh Hn; cbn [to_fetch].
  - replace (h - Z.of_nat 0 - 1) with (h - 1) by lia. by rewrite (path_one _ _ _ p).
  - rewrite Hbp. cbn [mbind option_bind]. destruct (pprev bp) as [q|] eqn:Eq; [|pose proof (node_root _ _ _ (Hm _ _ Hbp) Eq); lia].
    destruct (node_prev _ _ _ (Hm _ _ Hbp) _ Eq) as (bq & Hbq & Hhq). cbn [mbind option_bind].
    assert (Hq : back (Z.to_nat (H - (h - 1))) m best = Some q).
    { replace (Z.to_nat (H - (h - 1))) with (Z.to_nat (H - h) + 1)%nat by lia. rewrite back_add, Hp. cbn [mbind option_bind back]. rewrite Hbp. cbn [mbind option_bind]. by rewrite Eq. }
    rewrite (IH q (h - 1) bq (p :: l) Hq Hbq) by lia. f_equal. rewrite (path_app _ _ (h - Z.of_nat (S n) - 1) (h - 1) h) by lia.
    rewrite (path_one _ _ h p) by done. replace (h - 1 - Z.of_nat n - 1) with (h - Z.of_nat (S n) - 1) by lia. by rewrite <- app_assoc.
Qed.

(** ** The chunked walk is one pass *)

Context (chain : list (option nat)).

Lemma fetch_loop_app inflight nodeid count W l1 : forall l2 r,
  fetch_loop m chain inflight nodeid count W (l1 ++ l2) r =
  '(ret, r) ← fetch_loop m chain inflight nodeid count W l1 r; if (ret : bool) then Some (true, r) else fetch_loop m chain inflight nodeid count W l2 r.
Proof.
  induction l1 as [|p l1 IH]; intros l2 r; [done|]. cbn [app fetch_loop]. destruct (m !! p) as [b|]; cbn [mbind option_bind]; [|done].
  destruct (BlockIndex.IsValid b BLOCK_VALID_TREE) as [valid|]; cbn [mbind option_bind]; [|done]. destruct (negb valid); [done|].
  destruct (Contains m chain p) as [c|]; cbn [mbind option_bind]; [|done]. destruct (_ || c); [apply IH|].
  destruct (GetBlockHash b) as [h|]; cbn [mbind option_bind]; [|done]. destruct (inflight !! h) as [[o i]|]; [apply IH|].
  destruct (nHeight b >? W); [done|]. destruct (_ =? count)%nat; [done|apply IH].
Qed.

Lemma walk_loop_flat inflight nodeid count W best bb mx : m !! best = Some bb -> mx <= nHeight bb -> forall fuel walk r, 0 <= walk -> mx - walk <= Z.of_nat fuel ->
  walk_loop m chain fuel inflight nodeid count W mx best walk r = snd <$> fetch_loop m chain inflight nodeid count W (path best (nHeight bb) walk mx) r.
Proof using Hm.
  intros Hb Hmx. induction fuel as [|fuel IH]; intros walk r Hw Hf; cbn [walk_loop].
  - rewrite (proj2 (Z.ltb_ge _ _)) by lia. by rewrite path_nil by lia.
  - destruct (walk <? mx) eqn:E; [|apply Z.ltb_ge in E; by rewrite path_nil by lia]. apply Z.ltb_lt in E.
    set (k := Z.min (mx - walk) _). assert (Hk : 1 <= k <= mx - walk) by (unfold k; lia).
    destruct (GetAncestor_back m Hm best bb (walk + k) Hb ltac:(lia)) as (q & bq & -> & Hq & Hbq & Hhq). cbn [mbind option_bind].
    rewrite (to_fetch_path best (nHeight bb) _ q (walk + k) bq [] Hq Hbq Hhq) by lia. cbn [mbind option_bind].
    replace (walk + k - Z.of_nat (Z.to_nat (k - 1)) - 1) with walk by lia. rewrite app_nil_r.
    rewrite (path_app _ _ walk (walk + k) mx) by lia. rewrite fetch_loop_app.
    destruct (fetch_loop m chain inflight nodeid count W (path best (nHeight bb) walk (walk + k)) r) as [[[] r1]|]; cbn [mbind option_bind]; [done| |done].
    rewrite Hbq. cbn [mbind option_bind]. rewrite Hhq. apply IH; lia.
Qed.

(** ** What the pass returns *)

Definition good (p : nat) : bool := match m !! p with Some b => bool_decide (BlockIndex.IsValid b BLOCK_VALID_TREE = Some true) | None => false end.
Fixpoint good_prefix (l : list nat) : list nat := match l with p :: l => if good p then p :: good_prefix l else [] | [] => [] end.

(** The block is here already, or does not matter any more. *)
Definition have (p : nat) : bool := match m !! p with Some b => negb (Z.land (nStatus b) BLOCK_HAVE_DATA =? 0) || bool_decide (Contains m chain p = Some true) | None => false end.

(** A block that is missing, not requested from anybody, and inside of the window *)
Definition wanted (inflight : gmap (list Z) (Z * nat)) (W : Z) (p : nat) : Prop :=
  have p = false /\ (exists b h, m !! p = Some b /\ GetBlockHash b = Some h /\ inflight !! h = None /\ nHeight b <= W).
#[global] Instance wanted_dec inflight W p : Decision (wanted inflight W p).
Proof.
  unfold wanted. destruct (decide (have p = false)) as [H|H]; [|right; naive_solver]. destruct (m !! p) as [b|] eqn:E; [|right; naive_solver].
  destruct (GetBlockHash b) as [h|] eqn:Eh; [|right; naive_solver]. destruct (inflight !! h) eqn:Ei; [right; naive_solver|].
  destruct (decide (nHeight b <= W)); [left|right; naive_solver]. split; [done|]. by exists b, h.
Defined.

Lemma IsValid_total b : is_Some (BlockIndex.IsValid b BLOCK_VALID_TREE).
Proof. unfold BlockIndex.IsValid. change (negb (Z.land BLOCK_VALID_TREE (u32 (Z.lnot BLOCK_VALID_MASK)) =? 0)) with false. by destruct (negb _). Qed.

(** What is known of the search variables *)
Record found (inflight : gmap (list Z) (Z * nat)) (nodeid : Z) (l : list nat) (r r' : search) : Prop := {
  f_common : lastCommon r' = lastCommon r \/ (lastCommon r' ∈ l /\ have (lastCommon r') = true /\ exists b, m !! lastCommon r' = Some b /\ nChainTx b <> 0);
  f_waiting : waitingfor r' = waitingfor r \/ exists h it, inflight !! h = Some (waitingfor r', it);
  f_staller : nodeStaller r' = nodeStaller r \/ (nodeStaller r' = waitingfor r' /\ nodeStaller r' <> nodeid /\ vBlocks r' = [])
}.

Lemma found_refl inflight nodeid l r : found inflight nodeid l r r.
Proof. split; by left. Qed.

(** One more block in front *)
Lemma found_cons inflight nodeid p l r r1 r' : found inflight nodeid l r1 r' -> nodeStaller r1 = nodeStaller r ->
  (lastCommon r1 = lastCommon r \/ (lastCommon r1 = p /\ have p = true /\ exists b, m !! p = Some b /\ nChainTx b <> 0)) ->
  (waitingfor r1 = waitingfor r \/ exists h it, inflight !! h = Some (waitingfor r1, it)) -> found inflight nodeid (p :: l) r r'.
Proof.
  intros [F1 F2 F3] Hs Hc Hw. split.
  - destruct F1 as [F1|(F1 & F1')]; [|right; split; [set_solver|done]]. rewrite F1. destruct Hc as [->|(-> & Hc)]; [by left|right; split; [set_solver|done]].
  - destruct F2 as [->|F2]; [done|by right].
  - destruct F3 as [->|F3]; [by left|by right].
Qed.

Lemma none_wanted (P : nat -> Prop) `{!forall x, Decision (P x)} l : (forall x, x ∈ l -> ~ P x) -> filter P l = [].
Proof. intros Hn. induction l as [|x l IH]; [done|]. rewrite filter_cons_False by (apply Hn; set_solver). apply IH. intros y Hy. apply Hn. set_solver. Qed.

Lemma good_prefix_sub l p : p ∈ good_prefix l -> p ∈ l.
Proof. induction l as [|q l IH]; cbn [good_prefix]; [done|]. destruct (good q); set_solver. Qed.

(** [vBlocks] ends as the first [count] wanted blocks before an invalid one. *)
Lemma fetch_loop_spec inflight nodeid (count : nat) W l : forall r,
  (forall p, p ∈ l -> exists b, m !! p = Some b /\ is_Some (GetBlockHash b)) -> ascending l -> (length (vBlocks r) < count)%nat ->
  exists ret r', fetch_loop m chain inflight nodeid count W l r = Some (ret, r') /\
    vBlocks r' = take count (vBlocks r ++ filter (wanted inflight W) (good_prefix l)) /\ found inflight nodeid l r r'.
Proof.
  induction l as [|p l IH]; intros r Hl Ha Hc.
  { exists false, r. split; [done|]. split; [cbn; rewrite app_nil_r, take_ge by lia; done|apply found_refl]. }
  apply ascending_cons in Ha as [Ha Hp]. destruct (Hl p ltac:(set_solver)) as (b & Hb & [h Hh]). assert (Hl' : forall p, p ∈ l -> exists b, m !! p = Some b /\ is_Some (GetBlockHash b)) by (intros; apply Hl; set_solver).
  cbn [fetch_loop good_prefix]. unfold good. rewrite Hb. cbn [mbind option_bind]. destruct (IsValid_total b) as [valid Hv]. rewrite Hv. cbn [mbind option_bind].
  destruct valid; cbn [negb].
  2:{ rewrite bool_decide_eq_false_2 by done. exists true, r. split; [done|]. split; [cbn; rewrite app_nil_r, take_ge by lia; done|apply found_refl]. }
  rewrite (bool_decide_eq_true_2 (Some true = Some true)) by done. assert (HC : exists c, Contains m chain p = Some c) by (unfold Contains; rewrite Hb; by eexists). destruct HC as [c HC]. rewrite HC. cbn [mbind option_bind].
  assert (Hhave : have p = negb (Z.land (nStatus b) BLOCK_HAVE_DATA =? 0) || c).
  { unfold have. rewrite Hb, HC. by destruct c. }
  destruct (negb (Z.land (nStatus b) BLOCK_HAVE_DATA =? 0) || c) eqn:Eh.
  - rewrite filter_cons_False by (intros [H _]; congruence).
    match goal with |- context [fetch_loop _ _ _ _ _ _ l ?r0] => set (r1 := r0) end. assert (Hv1 : vBlocks r1 = vBlocks r) by (unfold r1; by destruct (negb (nChainTx b =? 0))).
    destruct (IH r1 Hl' Ha ltac:(by rewrite Hv1)) as (ret & r' & -> & H2 & H3). exists ret, r'. split; [done|]. split; [by rewrite H2, Hv1|].
    apply (found_cons _ _ _ _ r r1); [done|unfold r1; by destruct (negb (nChainTx b =? 0))| |left; unfold r1; by destruct (negb (nChainTx b =? 0))].
    unfold r1. destruct (nChainTx b =? 0) eqn:Et; cbn [negb]; [by left|right]. apply Z.eqb_neq in Et. cbn. split; [done|]. split; [done|by exists b].
  - rewrite Hh. cbn [mbind option_bind]. destruct (inflight !! h) as [[other it]|] eqn:Ei.
    + rewrite filter_cons_False by (intros (_ & b' & h' & E1 & E2 & E3 & _); simplify_eq).
      match goal with |- context [fetch_loop _ _ _ _ _ _ l ?r0] => set (r1 := r0) end. assert (Hv1 : vBlocks r1 = vBlocks r) by (unfold r1; by destruct (waitingfor r =? -1)).
      destruct (IH r1 Hl' Ha ltac:(by rewrite Hv1)) as (ret & r' & -> & H2 & H3). exists ret, r'. split; [done|]. split; [by rewrite H2, Hv1|].
      apply (found_cons _ _ _ _ r r1); [done|unfold r1; by destruct (waitingfor r =? -1)|left; unfold r1; by destruct (waitingfor r =? -1)|].
      unfold r1. destruct (waitingfor r =? -1); [right; by exists h, it|by left].
    + destruct (nHeight b >? W) eqn:EW.
      * rewrite Z.gtb_ltb in EW. apply Z.ltb_lt in EW.
        rewrite none_wanted. 2:{ intros x Hx (_ & b' & h' & E1 & _ & _ & E4). apply elem_of_cons in Hx as [->|Hx]; [simplify_eq; lia|].
          apply good_prefix_sub in Hx. pose proof (Hp x b b' Hx Hb E1). lia. }
        rewrite app_nil_r, take_ge by lia. destruct (bool_decide (vBlocks r = []) && negb (waitingfor r =? nodeid)) eqn:Eb.
        -- eexists true, _. split; [done|]. split; [done|]. apply andb_true_iff in Eb as [Eb1 Eb2]. apply bool_decide_eq_true in Eb1. apply negb_true_iff, Z.eqb_neq in Eb2.
           split; cbn; [by left|by left|by right].
        -- exists true, r. split; [done|]. split; [done|apply found_refl].
      * rewrite Z.gtb_ltb in EW. apply Z.ltb_ge in EW. rewrite filter_cons_True by (split; [done|by exists b, h]).
        cbn [vBlocks]. rewrite length_app. cbn [length]. destruct (length (vBlocks r) + 1 =? count)%nat eqn:En.
        -- apply Nat.eqb_eq in En. eexists true, _. split; [done|]. cbn [vBlocks]. split; [|split; cbn; by left].
           rewrite take_app, take_ge by lia. replace (count - length (vBlocks r))%nat with 1%nat by lia. done.
        -- apply Nat.eqb_neq in En. match goal with |- context [fetch_loop _ _ _ _ _ _ l ?r0] => set (r1 := r0) end.
           destruct (IH r1 Hl' Ha) as (ret & r' & -> & H2 & H3); [cbn; rewrite length_app; cbn; lia|]. exists ret, r'. split; [done|]. split; [rewrite H2; cbn; by rewrite <- app_assoc|].
           apply (found_cons _ _ _ _ r r1); [done|done|by left|by left].
Qed.

End path.

End PeersDownload.
