(* ===== verification/PeersHistory.v ===== *)
(** * Histories of the peer state

    The operations of [Peers] that read the block index, on a well-formed index, always
    return and keep the invariant; so does every history of connections, messages and
    rounds of [SendMessages]. *)

From stdpp Require Import base list list_numbers numbers option gmap strings.
From Stdlib Require Import ZArith Lia.
From S2P Require Import Prelude Bytes ArithUint256 Params Chain ChainFacts TxCheck NetAddr Transaction Mempool Orphans Peers PeersFacts PeersDownload.
Import BlockIndex ChainFacts NetAddr Orphans Peers PeersFacts PeersDownload.
#[local] Open Scope Z_scope.

Module PeersHistory.

(** The block index and the active chain at the time of an operation *)
Record view := { v_map : gmap (list Z) nat; v_index : gmap nat CBlockIndex; v_chain : list (option nat) }.

Record view_ok (v : view) : Prop := {
  w_tree : tree_ok (v_index v);
  w_hash p b : v_index v !! p = Some b -> is_Some (GetBlockHash b);
  w_map h p : v_map v !! h = Some p -> is_Some (v_index v !! p);
  w_chain : exists tip bt, chain_for (v_index v) (v_chain v) tip bt;
  w_root : exists g, forall p b, v_index v !! p = Some b -> is_ancestor (v_index v) g p
}.

Section history.
Context (GetHash : Transaction.CTransaction -> list Z) (params : Consensus.Params) (banscore : Z).
Abbreviation ok := (peers_ok GetHash).

(** The same peers are connected. *)
Definition kept (s s' : peers) : Prop := forall k, is_Some (State k s') <-> is_Some (State k s).
Lemma kept_refl s : kept s s.
Proof. done. Qed.
Lemma kept_trans s1 s2 s3 : kept s1 s2 -> kept s2 s3 -> kept s1 s3.
Proof. intros H1 H2 k. exact (iff_trans (H2 k) (H1 k)). Qed.

(** ** A request is added *)

Lemma count_valid_snoc l e : count_valid (l ++ [e]) = count_valid l + Z.b2z (fValidatedHeaders e.2).
Proof.
  unfold count_valid. rewrite filter_app, length_app, filter_cons. destruct (fValidatedHeaders e.2); [rewrite decide_True by done|rewrite decide_False by done]; cbn; lia.
Qed.

Definition enqueue (n : Z) (t : CNodeState) (e : QueuedBlock) (s : peers) : peers :=
  with_flight (<[q_hash e := (n, nextNode s)]> (mapBlocksInFlight s)) (nQueuedValidatedHeaders s + Z.b2z (fValidatedHeaders e)) (S (nextNode s))
    (put n (set_queue (nStallingSince t) (vBlocksInFlight t ++ [(nextNode s, e)]) (nBlocksInFlight t + 1) (nBlocksInFlightValidHeaders t + Z.b2z (fValidatedHeaders e)) t) s).

Lemma enqueue_ok D leak s n t e : ok D leak s -> State n s = Some t -> mapBlocksInFlight s !! q_hash e = None -> nBlocksInFlight t < MAX_BLOCKS_IN_TRANSIT_PER_PEER ->
  ok D leak (enqueue n t e s).
Proof.
  intros [J1 J2 J3 J4 J5 J6 J7 J8] Hn Hf Hmax. set (s' := enqueue n t e s). set (t' := set_queue (nStallingSince t) (vBlocksInFlight t ++ [(nextNode s, e)]) (nBlocksInFlight t + 1) (nBlocksInFlightValidHeaders t + Z.b2z (fValidatedHeaders e)) t).
  assert (HS : forall k, State k s' = if decide (k = n) then Some t' else State k s) by (intros k; apply State_put). assert (Hn' := Hn). unfold State in Hn'.
  assert (Hne : forall k u i q, State k s = Some u -> (i, q) ∈ vBlocksInFlight u -> q_hash q <> q_hash e).
  { intros k u i q Hk Hi He. destruct (u_entry _ _ _ (J2 k u Hk) i q Hi) as [F _]. rewrite He, Hf in F. done. }
  assert (Hmap : mapNodeState s' = <[n := t']> (mapNodeState s)) by done.
  split; rewrite ?Hmap, ?(total_update _ _ _ _ _ Hn').
  - intros h k it H. cbn in H. apply lookup_insert_Some in H as [[<- [= <- <-]]|[_ H]].
    + exists t', e. rewrite HS, decide_True by done. split; [done|]. split; [|done]. cbn. apply elem_of_app. right. set_solver.
    + destruct (J1 h k it H) as (u & q & H1 & H2 & H3). rewrite HS. case_decide as Hd; [|by exists u, q]. subst k. rewrite Hn in H1. injection H1 as <-.
      exists t', q. split; [done|]. split; [|done]. cbn. apply elem_of_app. by left.
  - intros k u. rewrite HS. case_decide as Hd.
    + intros [= <-]. subst k. destruct (J2 n t Hn) as [U1 U2 U3 U4 U5]. split; cbn.
      * intros i q Hi. apply elem_of_app in Hi as [Hi|Hi].
        -- destruct (U1 i q Hi) as [F G]. split; [|lia]. rewrite lookup_insert_ne; [done|]. intros E. by apply (Hne n t i q Hn Hi).
        -- apply list_elem_of_singleton in Hi as [= -> ->]. split; [apply lookup_insert_eq|lia].
      * rewrite fmap_app. apply NoDup_app. split; [done|]. split; [|cbn; apply NoDup_singleton]. intros i Hi Hx. cbn in Hx. apply list_elem_of_singleton in Hx as ->.
        apply list_elem_of_fmap in Hi as ([i q] & E & Hi). cbn in E. subst i. destruct (U1 _ q Hi) as [_ G]. lia.
      * rewrite length_app. cbn. lia.
      * rewrite count_valid_snoc. cbn. lia.
      * lia.
    + intros Hk. destruct (J2 k u Hk) as [V1 V2 V3 V4 V5]. split; try done. cbn. intros i q Hi. destruct (V1 i q Hi) as [F G]. split; [|lia].
      rewrite lookup_insert_ne; [done|]. intros E. by apply (Hne k u i q Hk Hi).
  - intros k u. rewrite HS. case_decide as Hd; [intros [= <-]; apply (J3 n t Hn)|apply J3].
  - cbn. rewrite J4. lia.
  - cbn. rewrite J5. lia.
  - cbn. rewrite J6. lia.
  - done.
  - intros h x Hx. rewrite HS. case_decide; [done|by eapply J8].
Qed.

Section at_view.
Context (v : view) (Hv : view_ok v).
Abbreviation bi := (v_map v).
Abbreviation m := (v_index v).
Abbreviation chain := (v_chain v).
Abbreviation D := (dom (v_index v)).

Lemma chain_height_nonneg : 0 <= Height chain.
Proof using Hv.
  destruct (w_chain v Hv) as (tip & bt & Ht & Hl & _). pose proof (node_height _ _ _ (w_tree v Hv _ _ Ht)). unfold Height. lia.
Qed.

Lemma in_index p : p ∈ D -> exists b, m !! p = Some b.
Proof. intros H. by apply elem_of_dom in H as [b H]; exists b. Qed.

Lemma MarkBlockAsInFlight_ok leak s n t h pi now : ok D leak s -> State n s = Some t -> nBlocksInFlight t < MAX_BLOCKS_IN_TRANSIT_PER_PEER ->
  (forall p, pi = Some p -> p ∈ D) -> exists s', MarkBlockAsInFlight params m chain n h pi now s = Some s' /\ ok D leak s' /\ kept s s' /\
    (exists t', State n s' = Some t' /\ nBlocksInFlight t' <= nBlocksInFlight t + 1) /\ fst <$> mapBlocksInFlight s' !! h = Some n.
Proof using Hv.
  intros Hok Hn Hmax Hpi. unfold MarkBlockAsInFlight. rewrite Hn. cbn [mbind option_bind].
  destruct (MarkBlockAsReceived_ok GetHash D leak s h Hok) as (b & s1 & -> & Hok1 & _ & Hf1 & _ & Hq1 & Hk1). cbn [mbind option_bind].
  destruct (proj2 (Hk1 n) ltac:(by rewrite Hn)) as [t1 Hn1]. rewrite Hn1. cbn [mbind option_bind].
  destruct (Hq1 n t1 Hn1) as (t0 & Ht0 & _ & Hle). rewrite Hn in Ht0. injection Ht0 as <-.
  assert (Hh : exists x, match pi with Some p => nHeight <$> m !! p | None => Some (Height chain) end = Some x /\ 0 <= x).
  { destruct pi as [p|]; [|exists (Height chain); split; [done|apply chain_height_nonneg]]. destruct (in_index p (Hpi p eq_refl)) as [bp Hbp]. rewrite Hbp. cbn.
    exists (nHeight bp). split; [done|]. apply (node_height _ _ _ (w_tree v Hv _ _ Hbp)). }
  destruct Hh as (x & -> & Hx). cbn [mbind option_bind]. unfold GetBlockTimeout. destruct (target_spacing params x Hx) as [sp ->]. cbn [mbind option_bind].
  set (e := {| q_hash := h |}). exists (enqueue n t1 e s1). split; [done|]. split; [apply enqueue_ok; [done..|cbn; rewrite Hf1; apply lookup_delete_eq|lia]|].
  assert (HS : forall k, State k (enqueue n t1 e s1) = if decide (k = n) then Some (set_queue (nStallingSince t1) (vBlocksInFlight t1 ++ [(nextNode s1, e)]) (nBlocksInFlight t1 + 1) (nBlocksInFlightValidHeaders t1 + Z.b2z (fValidatedHeaders e)) t1) else State k s1) by (intros k; apply State_put).
  split; [|split].
  - intros k. rewrite HS. case_decide; [subst; rewrite Hn; split; done|apply Hk1].
  - eexists. rewrite HS, decide_True by done. split; [done|]. cbn. lia.
  - cbn. rewrite lookup_insert_eq. done.
Qed.

(** ** What a peer has *)

Lemma known_block_total h : exists r, known_block bi m h = Some r /\ forall p, r = Some p -> p ∈ D.
Proof using Hv.
  unfold known_block. destruct (bi !! h) as [p|] eqn:E; [|by exists None]. destruct (w_map v Hv h p E) as [b Hb]. rewrite Hb. cbn [mbind option_bind].
  eexists. split; [done|]. intros p' Hp'. destruct (has_work b); [|done]. injection Hp' as <-. apply elem_of_dom. by rewrite Hb.
Qed.

Lemma better_known_total p t : p ∈ D -> known_ok D t -> exists r, better_known m p t = Some r /\ forall q, r = Some q -> q ∈ D.
Proof.
  intros Hp [Hk _]. unfold better_known. destruct (pindexBestKnownBlock t) as [best|]; [|exists (Some p); split; [done|by intros q [= <-]]].
  destruct (in_index p Hp) as [b ->]. destruct (in_index best (Hk best eq_refl)) as [bb ->]. cbn [mbind option_bind]. eexists. split; [done|].
  intros q Hq. destruct (Arith256.op_ge _ _); injection Hq as <-; [done|by apply Hk].
Qed.

(** Only what is known of the peer [n] changes. *)
Definition steady (n : Z) (s s' : peers) : Prop :=
  mapBlocksInFlight s' = mapBlocksInFlight s /\ (forall t', State n s' = Some t' -> exists t, State n s = Some t /\ same_queue t t') /\ kept s s'.

Lemma steady_refl n s : steady n s s.
Proof. split; [done|]. split; [|done]. intros t H. by exists t. Qed.

Lemma steady_trans n s1 s2 s3 : steady n s1 s2 -> steady n s2 s3 -> steady n s1 s3.
Proof.
  intros (E1 & Q1 & K1) (E2 & Q2 & K2). split; [congruence|]. split; [|by eapply kept_trans]. intros t3 H3. destruct (Q2 t3 H3) as (t2 & H2 & A2 & B2 & C2).
  destruct (Q1 t2 H2) as (t1 & H1 & A1 & B1 & C1). exists t1. split; [done|]. split; [|split]; congruence.
Qed.

Lemma put_steady n t t' s : State n s = Some t -> same_queue t t' -> steady n s (put n t' s).
Proof.
  intros Hn Hq. split; [done|]. split; [|intros k; by apply put_dom with t]. intros u. rewrite State_put, decide_True by done. intros [= <-]. by exists t.
Qed.

Lemma set_known_ok leak s n t best h common : ok D leak s -> State n s = Some t -> (forall p, best = Some p -> p ∈ D) -> (forall p, common = Some p -> p ∈ D) ->
  ok D leak (put n (set_known best h common t) s) /\ steady n s (put n (set_known best h common t) s).
Proof. intros Hok Hn Hb Hc. split; [by apply (put_plain GetHash D leak s n t)|by apply put_steady with t]. Qed.

Lemma ProcessBlockAvailability_ok leak s n : ok D leak s -> is_Some (State n s) ->
  exists s', ProcessBlockAvailability bi m n s = Some s' /\ ok D leak s' /\ steady n s s'.
Proof using Hv.
  intros Hok [t Hn]. unfold ProcessBlockAvailability. rewrite Hn. cbn [mbind option_bind]. pose proof (p_known _ _ _ _ Hok n t Hn) as Hk.
  destruct (negb _); [|exists s; split; [done|]; split; [done|apply steady_refl]]. destruct (known_block_total (hashLastUnknownBlock t)) as (r & -> & Hr). cbn [mbind option_bind].
  destruct r as [p|]; [|exists s; split; [done|]; split; [done|apply steady_refl]]. destruct (better_known_total p t (Hr p eq_refl) Hk) as (best & -> & Hb). cbn [mbind option_bind].
  eexists. split; [done|]. apply set_known_ok; [done..|apply Hk].
Qed.

Lemma UpdateBlockAvailability_ok leak s n h : ok D leak s -> is_Some (State n s) ->
  exists s', UpdateBlockAvailability bi m n h s = Some s' /\ ok D leak s' /\ steady n s s'.
Proof using Hv.
  intros Hok Hn. unfold UpdateBlockAvailability. destruct Hn as [t Hn]. rewrite Hn. cbn [mbind option_bind].
  destruct (ProcessBlockAvailability_ok leak s n Hok ltac:(by rewrite Hn)) as (s1 & -> & Hok1 & Hs1). cbn [mbind option_bind].
  destruct (proj2 (proj2 (proj2 Hs1) n) ltac:(by rewrite Hn)) as [t1 Hn1]. rewrite Hn1. cbn [mbind option_bind]. pose proof (p_known _ _ _ _ Hok1 n t1 Hn1) as Hk.
  destruct (known_block_total h) as (r & -> & Hr). cbn [mbind option_bind].
  assert (Hfin : forall best unk, (forall p, best = Some p -> p ∈ D) -> ok D leak (put n (set_known best unk (pindexLastCommonBlock t1) t1) s1) /\ steady n s (put n (set_known best unk (pindexLastCommonBlock t1) t1) s1)).
  { intros best unk Hb. destruct (set_known_ok leak s1 n t1 best unk (pindexLastCommonBlock t1) Hok1 Hn1 Hb (proj2 Hk)) as [A B]. split; [done|by eapply steady_trans]. }
  destruct r as [p|].
  - destruct (better_known_total p t1 (Hr p eq_refl) Hk) as (best & -> & Hb). cbn [mbind option_bind]. eexists. split; [done|by apply Hfin].
  - eexists. split; [done|]. apply Hfin. apply Hk.
Qed.

(** ** The blocks to request *)

(** The blocks of the peer's best chain above the last common block, at height [hl], that
    are missing, not in flight, and at most [BLOCK_DOWNLOAD_WINDOW] ahead, up to the first
    invalid one *)
Definition next_ref (inflight : gmap (list Z) (Z * nat)) (best : nat) (H hl : Z) : list nat :=
  filter (wanted m chain inflight (hl + BLOCK_DOWNLOAD_WINDOW)) (good_prefix m (path m best H hl (Z.min H (hl + BLOCK_DOWNLOAD_WINDOW + 1)))).

(** What the search does once it has the last common block [lca] *)
Lemma walk_spec inflight n (count : nat) best bb lca bl : (0 < count)%nat -> m !! best = Some bb -> m !! lca = Some bl -> is_ancestor m lca best ->
  exists r, walk_loop m chain (Z.to_nat (Z.min (nHeight bb) (nHeight bl + BLOCK_DOWNLOAD_WINDOW + 1) - nHeight bl)) inflight n count (nHeight bl + BLOCK_DOWNLOAD_WINDOW)
      (Z.min (nHeight bb) (nHeight bl + BLOCK_DOWNLOAD_WINDOW + 1)) best (nHeight bl) {| vBlocks := []; lastCommon := lca; waitingfor := -1; nodeStaller := -1 |} = Some r /\
    vBlocks r = take count (next_ref inflight best (nHeight bb) (nHeight bl)) /\ lastCommon r ∈ D /\ is_ancestor m (lastCommon r) best /\
    (nodeStaller r = -1 \/ exists h it, inflight !! h = Some (nodeStaller r, it)).
Proof using Hv.
  intros Hc Hb Hl Hanc. pose proof (w_tree v Hv) as Hm. pose proof (node_height _ _ _ (Hm _ _ Hl)) as Hl0. set (mx := Z.min (nHeight bb) _). assert (Hmx : mx <= nHeight bb) by (unfold mx; lia).
  rewrite (walk_loop_flat m Hm chain inflight n count _ best bb mx Hb Hmx) by lia. set (P := path m best (nHeight bb) (nHeight bl) mx).
  assert (HP : forall p, p ∈ P -> exists b, m !! p = Some b /\ is_Some (GetBlockHash b)).
  { intros p Hp. destruct (path_mapped m Hm best bb _ _ p Hb Hmx Hp) as (bp & Hbp & _). exists bp. split; [done|]. by eapply w_hash. }
  destruct (fetch_loop_spec m Hm chain inflight n count (nHeight bl + BLOCK_DOWNLOAD_WINDOW) P {| vBlocks := []; lastCommon := lca; waitingfor := -1; nodeStaller := -1 |} HP) as (ret & r & -> & H1 & [F1 F2 F3]);
    [by apply path_ascending|done|].
  exists r. split; [done|]. split; [done|]. assert (HD : lastCommon r ∈ D /\ is_ancestor m (lastCommon r) best).
  { destruct F1 as [->|(F1 & _)]; [split; [apply elem_of_dom; by eexists|done]|]. destruct (path_mapped m Hm best bb _ _ _ Hb Hmx F1) as (bp & Hbp & _ & Ha). split; [apply elem_of_dom; by eexists|done]. }
  split; [apply HD|]. split; [apply HD|]. destruct F3 as [F3|(F3 & _)]; [by left|]. rewrite F3. destruct F2 as [F2|F2]; [by left|by right].
Qed.

Lemma common_block common best bb : common ∈ D -> m !! best = Some bb -> exists lca bl, LastCommonAncestor m common best = Some (Some lca) /\ m !! lca = Some bl /\
  is_ancestor m lca common /\ is_ancestor m lca best /\
  (forall q bq, is_ancestor m q common -> is_ancestor m q best -> m !! q = Some bq -> nHeight bq <= nHeight bl).
Proof using Hv.
  intros Hc Hb. pose proof (w_tree v Hv) as Hm. destruct (in_index common Hc) as [bc Hbc]. destruct (LastCommonAncestor_spec m Hm common best bc bb Hbc Hb) as (r & -> & Hr).
  destruct (w_root v Hv) as [g Hg]. destruct r as [lca|]; [|destruct (Hr g); [by eapply Hg|by eapply Hg]]. destruct Hr as (H1 & H2 & H3).
  destruct (ancestor_mapped m Hm best bb lca Hb H2) as [bl Hbl]. exists lca, bl. split; [done|]. split; [done|]. split; [done|]. split; [done|]. intros q bq Hq1 Hq2 Hbq. by eapply H3.
Qed.

(** The block the search starts from: the last common block of the peer, or a guess on the
    active chain *)
Definition start_block (t : CNodeState) (bb : CBlockIndex) : option nat :=
  match pindexLastCommonBlock t with Some c => Some c | None => chain_at chain (Z.min (nHeight bb) (Height chain)) end.

Lemma start_block_known t bb best : m !! best = Some bb -> known_ok D t -> exists c, start_block t bb = Some c /\ c ∈ D.
Proof using Hv.
  intros Hb [_ Hk]. unfold start_block. destruct (pindexLastCommonBlock t) as [c|]; [exists c; split; [done|by apply Hk]|].
  pose proof (w_tree v Hv) as Hm. destruct (w_chain v Hv) as (tip & bt & Hc). pose proof Hc as (Ht & Hl & _). pose proof (node_height _ _ _ (Hm _ _ Hb)). pose proof (node_height _ _ _ (Hm _ _ Ht)).
  assert (Hh : 0 <= Z.min (nHeight bb) (Height chain) <= nHeight bt) by (unfold Height; lia). rewrite (chain_at_for m chain tip bt _ Hc Hh).
  destruct (back_total m Hm (Z.to_nat (nHeight bt - Z.min (nHeight bb) (Height chain))) tip bt Ht ltac:(lia)) as (q & bq & Hq & Hbq & _). exists q. split; [done|]. apply elem_of_dom. by eexists.
Qed.

(** What [FindNextBlocksToDownload] returns for a peer in state [t], its availability
    processed *)
Definition next_result (count : nat) (inflight : gmap (list Z) (Z * nat)) (t : CNodeState) (blocks : list nat) : Prop :=
  match pindexBestKnownBlock t with
  | None => blocks = []
  | Some best => exists bb tip bt, m !! best = Some bb /\ Tip chain = Some tip /\ m !! tip = Some bt /\
      if Arith256.op_lt (nChainWork bb) (nChainWork bt) then blocks = []
      else exists common lca bl, start_block t bb = Some common /\ m !! lca = Some bl /\ is_ancestor m lca common /\ is_ancestor m lca best /\
        (forall q bq, is_ancestor m q common -> is_ancestor m q best -> m !! q = Some bq -> nHeight bq <= nHeight bl) /\
        blocks = take count (next_ref inflight best (nHeight bb) (nHeight bl))
  end.

Lemma active_tip_entry : exists tip bt, Tip chain = Some tip /\ m !! tip = Some bt.
Proof using Hv.
  destruct (w_chain v Hv) as (tip & bt & Ht & Hl & Hc). exists tip, bt. split; [|done]. unfold Tip. pose proof (node_height _ _ _ (w_tree v Hv _ _ Ht)).
  rewrite last_lookup, Hc by lia. replace (length chain - 1 - pred (length chain))%nat with 0%nat by lia. done.
Qed.

Lemma FindNext_ok leak s n count : ok D leak s -> is_Some (State n s) -> exists blocks staller s', FindNextBlocksToDownload bi m chain n count s = Some (blocks, staller, s') /\
  ok D leak s' /\ steady n s s' /\ (length blocks <= count)%nat /\ (forall p, p ∈ blocks -> p ∈ D) /\ (staller = -1 \/ exists h it, mapBlocksInFlight s !! h = Some (staller, it)) /\
  (count <> 0%nat -> exists s1 t1, ProcessBlockAvailability bi m n s = Some s1 /\ State n s1 = Some t1 /\ next_result count (mapBlocksInFlight s) t1 blocks).
Proof using Hv.
  intros Hok Hn. unfold FindNextBlocksToDownload. destruct (count =? 0)%nat eqn:Ec.
  { apply Nat.eqb_eq in Ec. exists [], (-1), s. split; [done|]. split; [done|]. split; [apply steady_refl|]. split; [cbn; lia|]. split; [set_solver|]. split; [by left|done]. }
  apply Nat.eqb_neq in Ec. pose proof (w_tree v Hv) as Hm. destruct (ProcessBlockAvailability_ok leak s n Hok Hn) as (s1 & Hp & Hok1 & Hs1). destruct Hn as [t Hn]. rewrite Hn. cbn [mbind option_bind]. rewrite Hp. cbn [mbind option_bind].
  destruct (proj2 (proj2 (proj2 Hs1) n) ltac:(by rewrite Hn)) as [t1 Hn1]. rewrite Hn1. cbn [mbind option_bind]. pose proof (p_known _ _ _ _ Hok1 n t1 Hn1) as Hk. pose proof (proj1 Hs1) as Hfl.
  assert (Hnone : next_result count (mapBlocksInFlight s) t1 [] -> exists blocks staller s', Some ([] : list nat, -1, s1) = Some (blocks, staller, s') /\ ok D leak s' /\ steady n s s' /\
    (length blocks <= count)%nat /\ (forall p, p ∈ blocks -> p ∈ D) /\ (staller = -1 \/ exists h it, mapBlocksInFlight s !! h = Some (staller, it)) /\
    (count <> 0%nat -> exists s2 t2, Some s1 = Some s2 /\ State n s2 = Some t2 /\ next_result count (mapBlocksInFlight s) t2 blocks)).
  { intros Hr. exists [], (-1), s1. split; [done|]. split; [done|]. split; [done|]. split; [cbn; lia|]. split; [set_solver|]. split; [by left|]. intros _. by exists s1, t1. }
  destruct (pindexBestKnownBlock t1) as [best|] eqn:Eb; [|apply Hnone; unfold next_result; by rewrite Eb].
  destruct (in_index best (proj1 Hk best Eb)) as [bb Hbb]. rewrite Hbb. cbn [mbind option_bind]. destruct active_tip_entry as (tip & bt & Ht & Hbt). rewrite Ht. cbn [mbind option_bind]. rewrite Hbt. cbn [mbind option_bind].
  destruct (Arith256.op_lt (nChainWork bb) (nChainWork bt)) eqn:Ew; [apply Hnone; unfold next_result; rewrite Eb; exists bb, tip, bt; by rewrite Ew|].
  destruct (start_block_known t1 bb best Hbb Hk) as (c & Hc & HcD). fold (start_block t1 bb). rewrite Hc. cbn [mbind option_bind].
  destruct (common_block c best bb HcD Hbb) as (lca & bl & -> & Hbl & A1 & A2 & A3). cbn [mbind option_bind].
  assert (Hlca : lca ∈ D) by (apply elem_of_dom; by eexists).
  assert (Hres : next_result count (mapBlocksInFlight s) t1 (take count (next_ref (mapBlocksInFlight s) best (nHeight bb) (nHeight bl)))).
  { unfold next_result. rewrite Eb. exists bb, tip, bt. rewrite Ew. split; [done|]. split; [done|]. split; [done|]. by exists c, lca, bl. }
  destruct (bool_decide_reflect (lca = best)) as [->|Hne].
  - destruct (set_known_ok leak s1 n t1 (Some best) (hashLastUnknownBlock t1) (Some best) Hok1 Hn1) as [B1 B2]; [by intros p [= <-]..|].
    do 3 eexists. split; [done|]. split; [done|]. split; [by eapply steady_trans|]. split; [cbn; lia|]. split; [set_solver|]. split; [by left|]. intros _. exists s1, t1. split; [done|]. split; [done|].
    rewrite Hbb in Hbl. injection Hbl as <-. unfold next_ref in Hres. rewrite path_nil in Hres by lia. cbn [good_prefix filter list_filter] in Hres. by rewrite take_nil in Hres.
  - rewrite Hbl. cbn [mbind option_bind]. destruct (walk_spec (mapBlocksInFlight s1) n count best bb lca bl ltac:(lia) Hbb Hbl A2) as (r & -> & W1 & W2 & W3 & W4). cbn [mbind option_bind].
    destruct (set_known_ok leak s1 n t1 (Some best) (hashLastUnknownBlock t1) (Some (lastCommon r)) Hok1 Hn1) as [B1 B2]; [intros p [= <-]; exact (proj1 Hk best Eb)|by intros p [= <-]|].
    do 3 eexists. split; [done|]. split; [done|]. split; [by eapply steady_trans|]. rewrite W1, Hfl in *. split; [rewrite length_take; lia|]. split; [|split; [done|intros _; by exists s1, t1]].
    intros p Hp'. apply elem_of_take in Hp' as (i & Hp' & _). apply list_elem_of_lookup_2 in Hp'. apply list_elem_of_filter in Hp' as [_ Hp']. apply (good_prefix_sub m Hm) in Hp'.
    apply (path_mapped m Hm best bb) in Hp' as (bp & Hbp & _); [|done|lia]. apply elem_of_dom. by eexists.
Qed.

(** ** SendMessages and announcements *)

Lemma start_sync_ok leak s n pto busy ht at_ : ok D leak s -> is_Some (State n s) -> exists g s', start_sync pto n busy ht at_ s = Some (g, s') /\ ok D leak s' /\ kept s s'.
Proof.
  intros Hok [t Hn]. unfold start_sync. rewrite Hn. cbn [mbind option_bind]. destruct (_ && (_ || _)) eqn:E; [|by exists false, s].
  assert (Hf : fSyncStarted t = false) by (destruct (fSyncStarted t); [done|done]). do 2 eexists. split; [done|]. split.
  - apply (put_ok GetHash D leak s n t); [done..|apply (p_known _ _ _ _ Hok n t Hn)|cbn; rewrite Hf; cbn; lia|cbn; lia].
  - intros k. by apply put_dom with t.
Qed.

Lemma requeue_ok leak s n t it q q' l : ok D leak s -> State n s = Some t -> vBlocksInFlight t = (it, q) :: l -> q_hash q' = q_hash q -> fValidatedHeaders q' = fValidatedHeaders q ->
  ok D leak (put n (set_queue (nStallingSince t) ((it, q') :: l) (nBlocksInFlight t) (nBlocksInFlightValidHeaders t) t) s).
Proof.
  intros [J1 J2 J3 J4 J5 J6 J7 J8] Hn Hl Hh Hf. set (t' := set_queue _ _ _ _ t). assert (HS : forall k, State k (put n t' s) = if decide (k = n) then Some t' else State k s) by (intros k; apply State_put).
  assert (Hn' := Hn). unfold State in Hn'. split; cbn [put with_state mapBlocksInFlight mapNodeState nSyncStarted nPreferredDownload nQueuedValidatedHeaders orphanage]; rewrite ?(total_update _ _ _ _ _ Hn').
  - intros h k i H. destruct (J1 h k i H) as (u & e & H1 & H2 & H3). rewrite HS. case_decide as Hd; [|by exists u, e]. subst k. rewrite Hn in H1. injection H1 as <-. rewrite Hl in H2.
    apply elem_of_cons in H2 as [[= -> ->]|H2]; [exists t', q'; split; [done|]; split; [cbn; set_solver|congruence]|exists t', e; split; [done|]; split; [cbn; set_solver|done]].
  - intros k u. rewrite HS. case_decide as Hd; [|intros H; apply (queue_same s _ k u u); [done..|by apply J2]]. intros [= <-]. subst k. destruct (J2 n t Hn) as [U1 U2 U3 U4 U5]. rewrite Hl in *.
    split; cbn.
    + intros i e Hi. apply elem_of_cons in Hi as [[= -> ->]|Hi]; [rewrite Hh; apply U1; set_solver|apply U1; set_solver].
    + done.
    + done.
    + rewrite U4. unfold count_valid. rewrite !filter_cons. cbn. rewrite Hf. by destruct (decide (fValidatedHeaders q = true)).
    + done.
  - intros k u. rewrite HS. case_decide as Hd; [intros [= <-]; apply (J3 n t Hn)|apply J3].
  - cbn. lia.
  - cbn. lia.
  - cbn. lia.
  - done.
  - intros h e He. rewrite HS. case_decide; [done|by eapply J8].
Qed.

Lemma check_timeouts_ok leak s n now hh fd : ok D leak s -> is_Some (State n s) -> 0 <= hh -> exists d s', check_timeouts params n now hh fd s = Some (d, s') /\ ok D leak s' /\ kept s s'.
Proof.
  intros Hok [t Hn] Hh. unfold check_timeouts. rewrite Hn. cbn [mbind option_bind]. destruct (vBlocksInFlight t) as [|[it q] l] eqn:El; [by eexists _, s|].
  destruct (fd || _); [by eexists _, s|]. unfold GetBlockTimeout. destruct (target_spacing params hh Hh) as [sp ->]. cbn [mbind option_bind]. do 2 eexists. split; [done|]. split.
  - by eapply requeue_ok.
  - intros k. by apply put_dom with t.
Qed.

Lemma request_loop_ok leak n now l : forall s t, ok D leak s -> State n s = Some t -> nBlocksInFlight t + Z.of_nat (length l) <= MAX_BLOCKS_IN_TRANSIT_PER_PEER -> (forall p, p ∈ l -> p ∈ D) ->
  exists hs s', request_loop params m chain n l now s = Some (hs, s') /\ ok D leak s' /\ kept s s'.
Proof using Hv.
  induction l as [|p l IH]; intros s t Hok Hn Hmax Hl; cbn [request_loop]; [by exists [], s|]. cbn [length] in Hmax.
  destruct (in_index p ltac:(set_solver)) as [b Hb]. rewrite Hb. cbn [mbind option_bind]. destruct (w_hash v Hv p b Hb) as [h Hh]. rewrite Hh. cbn [mbind option_bind].
  destruct (MarkBlockAsInFlight_ok leak s n t h (Some p) now Hok Hn ltac:(lia)) as (s1 & -> & Hok1 & Hk1 & (t1 & Hn1 & Hle) & _); [intros q [= <-]; set_solver|]. cbn [mbind option_bind].
  destruct (IH s1 t1 Hok1 Hn1 ltac:(lia) ltac:(set_solver)) as (hs & s' & -> & Hok' & Hk'). cbn [mbind option_bind]. do 2 eexists. split; [done|]. split; [done|by eapply kept_trans].
Qed.

Lemma request_blocks_ok leak s n pto now ibd fd : ok D leak s -> is_Some (State n s) -> exists hs s', request_blocks params bi m chain pto n now ibd fd s = Some (hs, s') /\ ok D leak s' /\ kept s s'.
Proof using Hv.
  intros Hok [t Hn]. unfold request_blocks. rewrite Hn. cbn [mbind option_bind]. destruct (_ && (nBlocksInFlight t <? MAX_BLOCKS_IN_TRANSIT_PER_PEER)) eqn:E; [|by exists [], s].
  apply andb_true_iff in E as [_ E]. apply Z.ltb_lt in E. pose proof (p_queue _ _ _ _ Hok n t Hn) as U.
  destruct (FindNext_ok leak s n (Z.to_nat (MAX_BLOCKS_IN_TRANSIT_PER_PEER - nBlocksInFlight t)) Hok ltac:(by rewrite Hn)) as (bl & st & s1 & -> & Hok1 & (Hf1 & Hq1 & Hk1) & Hlen & HD & Hst & _). cbn [mbind option_bind].
  destruct (proj2 (Hk1 n) ltac:(by rewrite Hn)) as [t1 Hn1]. destruct (Hq1 t1 Hn1) as (t0 & Ht0 & _ & Ec & _). rewrite Hn in Ht0. injection Ht0 as <-.
  destruct (request_loop_ok leak n now bl s1 t1 Hok1 Hn1 ltac:(lia) HD) as (hs & s2 & -> & Hok2 & Hk2). cbn [mbind option_bind].
  destruct (proj2 (Hk2 n) ltac:(by rewrite Hn1)) as [t2 Hn2]. rewrite Hn2. cbn [mbind option_bind]. assert (Hk : kept s s2) by (by eapply kept_trans).
  destruct ((nBlocksInFlight t2 =? 0) && negb (st =? -1)) eqn:Es; [|by exists hs, s2]. apply andb_true_iff in Es as [_ Es]. apply negb_true_iff, Z.eqb_neq in Es.
  destruct Hst as [->|(h & it & Hfl)]; [done|]. destruct (p_flight _ _ _ _ Hok h st it Hfl) as (ts & q & Hs & _). destruct (proj2 (Hk st) ltac:(by rewrite Hs)) as [ts2 Hs2]. rewrite Hs2. cbn [mbind option_bind].
  destruct (nStallingSince ts2 =? 0); [|by exists hs, s2]. do 2 eexists. split; [done|]. split.
  - apply (put_plain GetHash D leak s2 st ts2); [done..|apply (p_known _ _ _ _ Hok2 st ts2 Hs2)|done|done].
  - eapply kept_trans; [done|]. intros k. by apply put_dom with ts2.
Qed.

Lemma SendMessages_ok leak s n pto dc busy ibd ht hh at_ now : ok D leak s -> is_Some (State n s) -> 0 <= hh ->
  exists r s', SendMessages params bi m chain pto n dc busy ibd ht hh at_ now s = Some (r, s') /\ ok D leak s' /\ kept s s'.
Proof using Hv.
  intros Hok Hn Hh. unfold SendMessages. destruct (take_verdict_ok GetHash D leak s n pto Hok Hn) as (d & b & rs & s1 & -> & Hok1 & Hk1). cbn [mbind option_bind].
  assert (Hn1 := proj2 (Hk1 n) Hn). destruct (start_sync_ok leak s1 n pto busy ht at_ Hok1 Hn1) as (g & s2 & -> & Hok2 & Hk2). cbn [mbind option_bind].
  assert (Hn2 := proj2 (Hk2 n) Hn1). destruct (check_timeouts_ok leak s2 n now hh (dc || d) Hok2 Hn2 Hh) as (d' & s3 & -> & Hok3 & Hk3). cbn [mbind option_bind].
  assert (Hn3 := proj2 (Hk3 n) Hn2). destruct (request_blocks_ok leak s3 n pto now ibd d' Hok3 Hn3) as (hs & s4 & -> & Hok4 & Hk4). cbn [mbind option_bind].
  do 2 eexists. split; [done|]. split; [done|]. eapply kept_trans; [exact Hk1|]. eapply kept_trans; [exact Hk2|]. by eapply kept_trans.
Qed.

Lemma inv_block_ok leak s n h busy tm at_ hh now : ok D leak s -> is_Some (State n s) -> 0 <= hh ->
  exists g r s', inv_block params bi m chain n h busy tm at_ hh now s = Some (g, r, s') /\ ok D leak s' /\ kept s s'.
Proof using Hv.
  intros Hok Hn Hh. unfold inv_block. destruct (UpdateBlockAvailability_ok leak s n h Hok Hn) as (s1 & -> & Hok1 & (_ & _ & Hk1)). cbn [mbind option_bind].
  destruct (_ && bool_decide _); [|by eexists _, _, s1]. destruct (proj2 (Hk1 n) Hn) as [t1 Hn1]. rewrite Hn1. cbn [mbind option_bind].
  destruct (target_spacing params hh Hh) as [sp ->]. cbn [mbind option_bind]. destruct ((tm >? _) && (nBlocksInFlight t1 <? _)) eqn:E; [|by eexists _, _, s1].
  apply andb_true_iff in E as [_ E]. apply Z.ltb_lt in E. destruct (MarkBlockAsInFlight_ok leak s1 n t1 h None now Hok1 Hn1 E) as (s2 & -> & Hok2 & Hk2 & _); [done|]. cbn [mbind option_bind].
  do 3 eexists. split; [done|]. split; [done|by eapply kept_trans].
Qed.

End at_view.

(** ** Histories *)

(** A transaction with unknown inputs is kept, and the orphans are limited. *)
Definition keep_orphan (t : Transaction.CTransaction) (n : Z) (nMaxOrphanTx : nat) (rnd : nat -> list Z) (s : peers) : option peers :=
  '(_, o) ← AddOrphanTx GetHash t n (orphanage s);
  '(_, o) ← LimitOrphanTxSize nMaxOrphanTx rnd o;
  Some (with_orphans o s).

Inductive event :=
| Connect (n : Z) (pnode : CNode)
| Disconnect (n : Z)
| Version (n : Z) (pnode : CNode)
| Verack (n : Z) (pnode : CNode)
| Misbehave (n howmuch : Z)
| Block (h : list Z) (source : option Z)   (* the sender, if the block got an index entry *)
| Invalid (h : list Z) (st : TxCheck.CValidationState)
| Headers (n : Z) (h : list Z)
| Inv (n : Z) (h : list Z) (busy : bool) (tipTime adjustedTime headerHeight nNow : Z)
| Send (n : Z) (pto : CNode) (disconnecting busy initialDownload : bool) (headerTime headerHeight adjustedTime nNow : Z)
| Orphan (n : Z) (t : Transaction.CTransaction) (nMaxOrphanTx : nat) (rnd : nat -> list Z).

(** A connection has a new number; messages come from connected peers; the best header has
    a height; a received transaction can be written out. *)
Definition enabled (e : event) (s : peers) : Prop :=
  match e with
  | Connect n _ => State n s = None
  | Disconnect n | Version n _ | Verack n _ | Headers n _ => is_Some (State n s)
  | Inv n _ _ _ _ hh _ | Send n _ _ _ _ _ hh _ _ => is_Some (State n s) /\ 0 <= hh
  | Orphan n t _ _ => is_Some (State n s) /\ is_Some (GetSerializeSize t)
  | Misbehave _ _ | Block _ _ | Invalid _ _ => True
  end.

Definition step (v : view) (e : event) (s : peers) : option peers :=
  match e with
  | Connect n pnode => Some (InitializeNode n pnode s)
  | Disconnect n => snd <$> FinalizeNode GetHash n s
  | Version n pnode => UpdatePreferredDownload pnode n s
  | Verack n pnode => verack pnode n s
  | Misbehave n k => Some (Misbehaving banscore n k s)
  | Block h source =>
      '(_, s) ← MarkBlockAsReceived h s;
      Some (match source with Some from => with_source (<[h := from]> (mapBlockSource s)) s | None => s end)
  | Invalid h st => Some (punish_source banscore h st s)
  | Headers n h => UpdateBlockAvailability (v_map v) (v_index v) n h s
  | Inv n h busy tm at_ hh now => snd <$> inv_block params (v_map v) (v_index v) (v_chain v) n h busy tm at_ hh now s
  | Send n pto dc busy ibd ht hh at_ now => snd <$> SendMessages params (v_map v) (v_index v) (v_chain v) pto n dc busy ibd ht hh at_ now s
  | Orphan n t mx rnd => keep_orphan t n mx rnd s
  end.

(** The validated requests of a peer that leaves *)
Definition leaked (e : event) (s : peers) : Z :=
  match e with Disconnect n => match State n s with Some t => nBlocksInFlightValidHeaders t | None => 0 end | _ => 0 end.

(** The reachable states, the blocks known to the index, and the leaked requests.  Block
    index entries are never freed. *)
Inductive history : gset nat -> Z -> peers -> Prop :=
| history_init D : history D 0 peers_init
| history_step D leak s v e s' :
    history D leak s -> view_ok v -> D ⊆ dom (v_index v) -> enabled e s -> step v e s = Some s' -> history (dom (v_index v)) (leak + leaked e s) s'.

Lemma ok_source D leak s src : ok D leak s -> ok D leak (with_source src s).
Proof. intros [J1 J2 J3 J4 J5 J6 J7 J8]. split; try done. intros n t Hn. apply (queue_same s _ n t t); [done..|by apply J2]. Qed.

Lemma keep_orphan_ok D leak s t n mx rnd : ok D leak s -> is_Some (State n s) -> is_Some (GetSerializeSize t) -> exists s', keep_orphan t n mx rnd s = Some s' /\ ok D leak s'.
Proof.
  intros Hok Hn Ht. destruct (keep_orphans_ok GetHash D leak s t n mx rnd Hok Hn Ht) as (b & o & k & o' & H1 & H2 & H3 & _). unfold keep_orphan. rewrite H1. cbn [mbind option_bind]. rewrite H2.
  by eexists.
Qed.

Lemma peers_step_ok D leak s v e : ok D leak s -> view_ok v -> D ⊆ dom (v_index v) -> enabled e s -> exists s', step v e s = Some s' /\ ok (dom (v_index v)) (leak + leaked e s) s'.
Proof.
  intros Hok Hv HD He. apply (ok_weaken GetHash D (dom (v_index v))) in Hok; [|done].
  destruct e as [n pn|n|n pn|n pn|n k|h from|h st|n h|n h busy tm at_ hh now|n pto dc busy ibd ht hh at_ now|n t mx rnd]; cbn [step enabled leaked] in *; rewrite ?Z.add_0_r.
  - eexists. split; [done|by apply InitializeNode_ok].
  - destruct He as [t Hn]. rewrite Hn. destruct (FinalizeNode_ok GetHash _ leak s n t Hok Hn) as (seen & s' & -> & Hok' & _). by exists s'.
  - destruct (UpdatePreferredDownload_ok GetHash _ leak s n pn Hok He) as (s' & -> & H & _). by exists s'.
  - destruct (verack_ok GetHash _ leak s n pn Hok He) as (s' & -> & H & _). by exists s'.
  - eexists. split; [done|by apply Misbehaving_ok].
  - destruct (MarkBlockAsReceived_ok GetHash _ leak s h Hok) as (b & s' & -> & H & _). cbn [mbind option_bind]. eexists. split; [done|]. destruct from; [by apply ok_source|done].
  - eexists. split; [done|by apply punish_source_ok].
  - destruct (UpdateBlockAvailability_ok v Hv leak s n h Hok He) as (s' & -> & H & _). by exists s'.
  - destruct He as [He Hh]. destruct (inv_block_ok v Hv leak s n h busy tm at_ hh now Hok He Hh) as (g & r & s' & -> & H & _). by exists s'.
  - destruct He as [He Hh]. destruct (SendMessages_ok v Hv leak s n pto dc busy ibd ht hh at_ now Hok He Hh) as (r & s' & -> & H & _). by exists s'.
  - destruct He as [He Ht]. exact (keep_orphan_ok _ leak s t n mx rnd Hok He Ht).
Qed.

Lemma history_ok D leak s : history D leak s -> ok D leak s.
Proof.
  induction 1 as [D|D leak s v e s' _ IH Hv HD He Hs]; [apply init_ok|]. destruct (peers_step_ok D leak s v e IH Hv HD He) as (s1 & Hs1 & Hok). rewrite Hs in Hs1. by injection Hs1 as <-.
Qed.

(** C38: the node's records of its peers stay consistent.  In every state reached by
    connections, disconnections, the messages "version", "verack", "inv", "headers", "block"
    and "tx" (with unknown inputs), verdicts on blocks and rounds of [SendMessages], over any
    growing block index: every further event is handled without a null pointer, a dead
    iterator or a failed assertion; a block is in [mapBlocksInFlight] exactly if the queue of
    that one connected peer holds it at that list node; no peer has more than 160 blocks in
    flight; the counters of queues, of validated requests, of synchronizing and of preferred
    peers count what they name ([nQueuedValidatedHeaders] up to the requests that were open
    when their peers left); and every orphan transaction is at most 5000 bytes, indexed under
    exactly the transactions it spends, and came from a peer that is still connected. *)
Theorem peers_stay_consistent D leak s : history D leak s ->
  (forall v e, view_ok v -> D ⊆ dom (v_index v) -> enabled e s -> is_Some (step v e s)) /\
  (forall h n it, mapBlocksInFlight s !! h = Some (n, it) <-> exists t q, State n s = Some t /\ (it, q) ∈ vBlocksInFlight t /\ q_hash q = h) /\
  (forall n t, State n s = Some t -> nBlocksInFlight t = Z.of_nat (length (vBlocksInFlight t)) /\ nBlocksInFlight t <= 160 /\ nBlocksInFlightValidHeaders t = count_valid (vBlocksInFlight t)) /\
  nSyncStarted s = total (fun t => Z.b2z (fSyncStarted t)) (mapNodeState s) /\
  nPreferredDownload s = total (fun t => Z.b2z (fPreferredDownload t)) (mapNodeState s) /\
  nQueuedValidatedHeaders s = total nBlocksInFlightValidHeaders (mapNodeState s) + leak /\
  (forall p h, listed (mapOrphanTransactionsByPrev (orphanage s)) p h <-> exists e, mapOrphanTransactions (orphanage s) !! h = Some e /\ p ∈ prevs (tx e)) /\
  (forall h e, mapOrphanTransactions (orphanage s) !! h = Some e -> GetHash (tx e) = h /\ is_Some (State (fromPeer e) s) /\ exists sz, GetSerializeSize (tx e) = Some sz /\ u32 sz <= 5000).
Proof.
  intros Hh. apply history_ok in Hh. pose proof Hh as [J1 J2 J3 J4 J5 J6 J7 J8]. split; [|split; [|split; [|split; [|split; [|split; [|split]]]]]]; try done.
  - intros v e Hv HD He. destruct (peers_step_ok D leak s v e Hh Hv HD He) as (s' & -> & _). done.
  - intros h n it. split; [apply J1|]. intros (t & q & Hn & Hq & <-). apply (u_entry _ _ _ (J2 n t Hn) it q Hq).
  - intros n t Hn. destruct (J2 n t Hn) as [U1 U2 U3 U4 U5]. done.
  - intros p h. apply (o_index _ _ J7).
  - intros h e He. destruct (o_entry _ _ J7 h e He) as [H1 H2]. split; [done|]. split; [by eapply J8|done].
Qed.

(** [nQueuedValidatedHeaders] is not lowered when a peer leaves: its validated requests are
    counted for ever. *)
Lemma FinalizeNode_leaks D leak s n t : history D leak s -> State n s = Some t -> exists seen s', FinalizeNode GetHash n s = Some (seen, s') /\
  nQueuedValidatedHeaders s' = nQueuedValidatedHeaders s /\
  total nBlocksInFlightValidHeaders (mapNodeState s') = total nBlocksInFlightValidHeaders (mapNodeState s) - count_valid (vBlocksInFlight t).
Proof.
  intros Hh Hn. apply history_ok in Hh. destruct (FinalizeNode_ok GetHash D leak s n t Hh Hn) as (seen & s' & E & Hok' & HS). exists seen, s'. split; [done|].
  assert (Hq : nQueuedValidatedHeaders s' = nQueuedValidatedHeaders s).
  { revert E. unfold FinalizeNode. rewrite Hn. cbn [mbind option_bind]. destruct (EraseOrphansFor _ _ _); cbn [mbind option_bind]; [|done]. intros [= _ <-]. by destruct (fSyncStarted t). }
  split; [done|]. rewrite (p_queued _ _ _ _ Hok'), (p_queued _ _ _ _ Hh) in Hq. rewrite <- (u_valid _ _ _ (p_queue _ _ _ _ Hh n t Hn)). lia.
Qed.

(** C39: which blocks are requested from a peer.  For a connected peer in a reachable state
    and a well-formed block index, [FindNextBlocksToDownload] returns, without a failed
    assertion, the empty list if the best block the peer announced is unknown or has less
    work than the tip; otherwise it returns the first [count] blocks, in the order of height,
    of the path from the last common block up to the peer's best block that are missing (no
    data, not in the active chain), not in flight from any peer and at most 1024 blocks above
    the last common block, stopping at the first block that is marked invalid.  The last
    common block is the highest common ancestor of the recorded one and the peer's best
    block. *)
Theorem next_blocks_exact D leak s v n count : history D leak s -> view_ok v -> D ⊆ dom (v_index v) -> is_Some (State n s) -> count <> 0%nat ->
  exists blocks staller s' s1 t1, FindNextBlocksToDownload (v_map v) (v_index v) (v_chain v) n count s = Some (blocks, staller, s') /\
    ProcessBlockAvailability (v_map v) (v_index v) n s = Some s1 /\ State n s1 = Some t1 /\ next_result v count (mapBlocksInFlight s) t1 blocks.
Proof.
  intros Hh Hv HD Hn Hc. apply history_ok, (ok_weaken GetHash D (dom (v_index v))) in Hh; [|done].
  destruct (FindNext_ok v Hv leak s n count Hh Hn) as (bl & st & s' & E & _ & _ & _ & _ & _ & Hr). destruct (Hr Hc) as (s1 & t1 & H1 & H2 & H3). by exists bl, st, s', s1, t1.
Qed.

End history.

(** ** An example

    Three blocks are known, the first is the active chain; a peer announces the third. *)

Definition sample_known (i : nat) : CBlockIndex :=
  set_work_status (sample_block i) (Arith256.base_uint_of_u64 (Z.of_nat i + 1)) (match i with O => Z.lor BLOCK_VALID_SCRIPTS BLOCK_HAVE_DATA | _ => BLOCK_VALID_TREE end).
Definition sample_view : view :=
  {| v_map := <[[2] := 2%nat]> (<[[1] := 1%nat]> {[[0] := 0%nat]});
     v_index := <[2%nat := sample_known 2]> (<[1%nat := sample_known 1]> (<[0%nat := sample_known 0]> ∅)); v_chain := [Some 0%nat] |}.
Definition sample_node : CNode :=
  {| fInbound := false; fWhitelisted := false; fOneShot := false; fClient := false; fNetworkNode := true; addrName := "peer"; addr := {| netaddr := Init; port := 0 |} |}.

Lemma sample_index p b : v_index sample_view !! p = Some b -> (p <= 2)%nat /\ b = sample_known p.
Proof.
  cbn [sample_view v_index]. intros H. apply lookup_insert_Some in H as [[<- <-]|[_ H]]; [by split; [lia|]|]. apply lookup_insert_Some in H as [[<- <-]|[_ H]]; [by split; [lia|]|].
  apply lookup_insert_Some in H as [[<- <-]|[_ H]]; [by split; [lia|]|]. by rewrite lookup_empty in H.
Qed.

Lemma sample_view_ok : view_ok sample_view.
Proof.
  split.
  - apply tree_ok_insert; [apply tree_ok_insert; [apply tree_ok_insert; [apply tree_ok_empty|done|done|done]|done|done|]|done|done|].
    + exists (sample_known 0). split; [reflexivity|reflexivity].
    + exists (sample_known 1). split; [reflexivity|reflexivity].
  - intros p b H. apply sample_index in H as [_ ->]. by exists [Z.of_nat p].
  - intros h p. cbn [sample_view v_map]. intros H. apply lookup_insert_Some in H as [[_ <-]|[_ H]]; [by eexists|]. apply lookup_insert_Some in H as [[_ <-]|[_ H]]; [by eexists|].
    apply lookup_singleton_Some in H as [_ <-]. by eexists.
  - exists 0%nat, (sample_known 0). split; [reflexivity|]. split; [reflexivity|]. intros i Hi. cbn in Hi. destruct i; [reflexivity|lia].
  - exists 0%nat. intros p b H. apply sample_index in H as [Hp _]. exists p. destruct p as [|[|[|p]]]; [reflexivity..|lia].
Qed.

Definition sample_state : peers := default peers_init (step (fun _ => []) Consensus.CMainParams 100 sample_view (Headers 7 [2]) (InitializeNode 7 sample_node peers_init)).
Lemma sample_history : history (fun _ => []) Consensus.CMainParams 100 (dom (v_index sample_view)) 0 sample_state.
Proof.
  refine (history_step (fun _ => []) Consensus.CMainParams 100 _ 0 (InitializeNode 7 sample_node peers_init) sample_view (Headers 7 [2]) _ _ sample_view_ok (fun x H => H) _ eq_refl); [|by eexists].
  refine (history_step (fun _ => []) Consensus.CMainParams 100 ∅ 0 peers_init sample_view (Connect 7 sample_node) _ (history_init _ _ _ _) sample_view_ok _ eq_refl eq_refl). apply empty_subseteq.
Qed.

(** Then the peer is asked for the two blocks. *)
Definition sample_asked : option peers := step (fun _ => []) Consensus.CMainParams 100 sample_view (Send 7 sample_node false false false 0 2 1000000000 1000000) sample_state.

Lemma peers_stay_consistent_witness : exists s t, sample_asked = Some s /\ State 7 s = Some t /\ length (vBlocksInFlight t) = 2%nat /\
  nBlocksInFlight t = 2 /\ nQueuedValidatedHeaders s = total nBlocksInFlightValidHeaders (mapNodeState s) /\
  forall h n it, mapBlocksInFlight s !! h = Some (n, it) <-> exists t q, State n s = Some t /\ (it, q) ∈ vBlocksInFlight t /\ q_hash q = h.
Proof.
  assert (E : (s ← sample_asked; t ← State 7 s; Some (length (vBlocksInFlight t))) = Some 2%nat) by (vm_compute; reflexivity).
  destruct sample_asked as [s|] eqn:Es; [|discriminate E]. cbn [mbind option_bind] in E. destruct (State 7 s) as [t|] eqn:Et; [|discriminate E]. cbn [mbind option_bind] in E. injection E as E.
  assert (Hn : is_Some (State 7 sample_state) /\ 0 <= 2) by (split; [by eexists|lia]).
  pose proof (history_step (fun _ => []) Consensus.CMainParams 100 _ 0 sample_state sample_view (Send 7 sample_node false false false 0 2 1000000000 1000000) s sample_history sample_view_ok (fun x H => H) Hn Es) as Hh.
  destruct (peers_stay_consistent (fun _ => []) Consensus.CMainParams 100 _ _ s Hh) as (_ & H1 & H2 & _ & _ & H3 & _). destruct (H2 7 t Et) as (H4 & _).
  exists s, t. split; [exact eq_refl|]. split; [exact Et|]. split; [exact E|]. split; [rewrite H4, E; reflexivity|]. split; [rewrite H3; cbn [leaked]; lia|exact H1].
Defined.

Lemma next_blocks_exact_witness : exists blocks staller s' s1 t1, FindNextBlocksToDownload (v_map sample_view) (v_index sample_view) (v_chain sample_view) 7 10 sample_state = Some (blocks, staller, s') /\
  blocks = [1%nat; 2%nat] /\ ProcessBlockAvailability (v_map sample_view) (v_index sample_view) 7 sample_state = Some s1 /\ State 7 s1 = Some t1 /\ next_result sample_view 10 (mapBlocksInFlight sample_state) t1 blocks.
Proof.
  destruct (next_blocks_exact (fun _ => []) Consensus.CMainParams 100 _ 0 sample_state sample_view 7 10 sample_history sample_view_ok (fun x H => H)) as (bl & st & s' & s1 & t1 & H1 & H2 & H3 & H4); [by eexists|done|].
  exists bl, st, s', s1, t1. split; [done|]. split; [|done].
  assert (E : fst <$> (fst <$> FindNextBlocksToDownload (v_map sample_view) (v_index sample_view) (v_chain sample_view) 7 10 sample_state) = Some [1%nat; 2%nat]) by (vm_compute; reflexivity).
  rewrite H1 in E. by injection E as ->.
Defined.


End PeersHistory.
