(* ===== verification/TxRelay.v ===== *)
(** * The message "tx" (src/main.cpp)

    A received transaction goes to the memory pool; when it is accepted, the orphans that
    wait for it are tried again, and those that wait for them; when its inputs are unknown
    it becomes an orphan itself; otherwise it is remembered as rejected.  The memory pool
    and the coins database are the class [TxPool]. *)

From stdpp Require Import base list list_numbers numbers option gmap sorting strings.
From Stdlib Require Import ZArith Lia.
From S2P Require Import Prelude Bytes Serialize Transaction TxCheck Mempool Bloom Orphans Peers PeersFacts.
Import Transaction Orphans Peers PeersFacts.
#[local] Open Scope Z_scope.

Module TxRelay.

(** What [AcceptToMemoryPool] answers: its result, [fMissingInputs] and the state *)
Record verdict := { accepted : bool; fMissingInputs : bool; vstate : TxCheck.CValidationState }.

Class TxPool (W : Type) := {
  AcceptToMemoryPool : CTransaction -> W -> verdict * W;
  pool_exists : list Z -> W -> bool;
  HaveCoins : list Z -> W -> bool * W;
  tip_hash : W -> option (list Z)
}.

Record node {W : Type} := {
  n_peers : peers;
  recentRejects : Bloom.CRollingBloomFilter;
  hashRecentRejectsChainTip : list Z;
  world : W
}.
Arguments node : clear implicits.

Section relay.
Context {W : Type} `{!TxPool W} (GetHash : CTransaction -> list Z) (banscore : Z).
Implicit Types s : node W.

Definition set_peers (p : peers) s : node W :=
  {| n_peers := p; recentRejects := recentRejects s; hashRecentRejectsChainTip := hashRecentRejectsChainTip s; world := world s |}.
Definition set_rejects (f : Bloom.CRollingBloomFilter) (h : list Z) s : node W :=
  {| n_peers := n_peers s; recentRejects := f; hashRecentRejectsChainTip := h; world := world s |}.
Definition set_world (w : W) s : node W :=
  {| n_peers := n_peers s; recentRejects := recentRejects s; hashRecentRejectsChainTip := hashRecentRejectsChainTip s; world := w |}.

Abbreviation orphan_map s := (mapOrphanTransactions (orphanage (n_peers s))).
Definition map_orphans (f : orphans -> orphans) s : node W := set_peers (with_orphans (f (orphanage (n_peers s))) (n_peers s)) s.

(** [AlreadyHave] of a transaction; [rand] is the tweak a reset of the filter draws. *)
Definition AlreadyHave (hash : list Z) (rand : Z) s : option (bool * node W) :=
  tip ← tip_hash (world s);
  let s := if bool_decide (tip = hashRecentRejectsChainTip s) then s else set_rejects (Bloom.Rolling_reset (recentRejects s) rand) tip s in
  rejected ← Bloom.Rolling_contains (recentRejects s) hash;
  if (rejected : bool) || pool_exists hash (world s) || bool_decide (is_Some (orphan_map s !! hash)) then Some (true, s)
  else let '(b, w) := HaveCoins hash (world s) in Some (b, set_world w s).

Definition reject (hash : list Z) s : option (node W) :=
  f ← Bloom.Rolling_insert (recentRejects s) hash; Some (set_rejects f (hashRecentRejectsChainTip s) s).

Definition accept (t : CTransaction) s : verdict * node W :=
  let '(v, w) := AcceptToMemoryPool t (world s) in (v, set_world w s).

Definition punish (n k : Z) s : node W := set_peers (Misbehaving banscore n k (n_peers s)) s.

(** The queues of the handler.  [attempts] records the orphans that were tried and the
    answers; the handler itself does not read it. *)
Record queues := {
  vWorkQueue : list (list Z);
  vEraseQueue : list (list Z);
  setMisbehaving : gset Z;
  attempts : list (list Z * verdict)
}.

Definition punishable (v : verdict) : bool := TxCheck.IsInvalid (vstate v) && (TxCheck.nDoS (vstate v) >? 0).

(** One orphan; an entry that is missing from [mapOrphanTransactions] is [None]. *)
Definition try_orphan (orphanHash : list Z) (q : queues) s : option (queues * node W) :=
  e ← orphan_map s !! orphanHash;
  if bool_decide (fromPeer e ∈ setMisbehaving q) then Some (q, s)
  else
    let '(v, s) := accept (tx e) s in
    let tried := attempts q ++ [(orphanHash, v)] in
    if accepted v then
      Some ({| vWorkQueue := vWorkQueue q ++ [orphanHash]; vEraseQueue := vEraseQueue q ++ [orphanHash]; setMisbehaving := setMisbehaving q; attempts := tried |}, s)
    else if negb (fMissingInputs v) then
      let s := if punishable v then punish (fromPeer e) (TxCheck.nDoS (vstate v)) s else s in
      let bad := if punishable v then {[fromPeer e]} ∪ setMisbehaving q else setMisbehaving q in
      s ← reject orphanHash s;
      Some ({| vWorkQueue := vWorkQueue q; vEraseQueue := vEraseQueue q ++ [orphanHash]; setMisbehaving := bad; attempts := tried |}, s)
    else Some ({| vWorkQueue := vWorkQueue q; vEraseQueue := vEraseQueue q; setMisbehaving := setMisbehaving q; attempts := tried |}, s).

Fixpoint try_orphans (l : list (list Z)) (q : queues) s : option (queues * node W) :=
  match l with
  | [] => Some (q, s)
  | h :: l => '(q, s) ← try_orphan h q s; try_orphans l q s
  end.

(** A [std::set] from [begin()] to [end()] *)
Definition in_order (S : gset (list Z)) : list (list Z) := merge_sort key_le (elements S).

Definition waiting (h : list Z) s : list (list Z) := in_order (default ∅ (mapOrphanTransactionsByPrev (orphanage (n_peers s)) !! h)).

(** The loop over [vWorkQueue], which grows meanwhile *)
Fixpoint work_loop (fuel i : nat) (q : queues) s : option (queues * node W) :=
  match vWorkQueue q !! i with
  | None => Some (q, s)
  | Some h =>
      match fuel with
      | O => None
      | S fuel => '(q, s) ← try_orphans (waiting h s) q s; work_loop fuel (S i) q s
      end
  end.

Definition resolve_orphans (hash : list Z) s : option (queues * node W) :=
  '(q, s) ← work_loop (S (size (orphan_map s))) 0 {| vWorkQueue := [hash]; vEraseQueue := []; setMisbehaving := ∅; attempts := [] |} s;
  Some (q, map_orphans (fun o => foldl (fun o h => EraseOrphanTx h o) o (vEraseQueue q)) s).

(** The handler: the transactions it relays and the queues it leaves *)
Record tx_result := { relayed : list (list Z); done_queues : queues; first : verdict }.
Definition no_queues : queues := {| vWorkQueue := []; vEraseQueue := []; setMisbehaving := ∅; attempts := [] |}.

Definition process_tx (t : CTransaction) (from : Z) (whitelisted : bool) (nMaxOrphanTx : nat) (rand : Z) (rnd : nat -> list Z) s : option (tx_result * node W) :=
  let hash := GetHash t in
  '(have, s) ← AlreadyHave hash rand s;
  let '(v, s) := if (have : bool) then ({| accepted := false; fMissingInputs := false; vstate := TxCheck.CValidationState_init |}, s) else accept t s in
  '(r, s) ←
    (if accepted v then
       '(q, s) ← resolve_orphans hash s;
       Some ({| relayed := vWorkQueue q; done_queues := q; first := v |}, s)
     else if fMissingInputs v && bool_decide (vJoinSplit t = []) && bool_decide (vShieldedSpend t = []) && bool_decide (vShieldedOutput t = []) then
       '(_, o) ← AddOrphanTx GetHash t from (orphanage (n_peers s));
       '(_, o) ← LimitOrphanTxSize nMaxOrphanTx rnd o;
       Some ({| relayed := []; done_queues := no_queues; first := v |}, map_orphans (fun _ => o) s)
     else
       s ← reject hash s;
       let relay := whitelisted && (negb (TxCheck.IsInvalid (vstate v)) || (TxCheck.nDoS (vstate v) =? 0)) in
       Some ({| relayed := if relay then [hash] else []; done_queues := no_queues; first := v |}, s));
  Some (r, if punishable v then punish from (TxCheck.nDoS (vstate v)) s else s).

End relay.

End TxRelay.
