(* ===== verification/TxRelayFacts.v ===== *)
(** * Received transactions are processed to the end

    The work queue of the message "tx" ends, since the memory pool accepts a transaction at
    most once, and leaves no orphan behind that could be decided. *)

From stdpp Require Import base list list_numbers numbers option gmap sorting strings.
From Stdlib Require Import ZArith Lia.
From S2P Require Import Prelude Bytes Serialize Transaction TxCheck NetAddr Mempool Bloom Orphans Peers PeersFacts TxRelay.
Import Transaction Orphans Peers PeersFacts TxRelay.
#[local] Open Scope Z_scope.

Module TxRelayFacts.

(** What the work queue needs of the pool to end: a transaction that was accepted is not
    accepted again while the message is processed.  [seen] are the transactions the pool
    holds or has evicted and not yet forgotten ([CTxMemPool::exists] and the
    [RecentlyEvictedList], which is bounded in size and time); [calm n] says of a pool that
    it forgets none of them during the next [n] calls. *)
Class PoolOnce (W : Type) `{!TxPool W} (GetHash : CTransaction -> list Z) := {
  seen : list Z -> W -> Prop;
  calm : nat -> W -> Prop;
  accept_new n t w : calm (S n) w -> accepted (AcceptToMemoryPool t w).1 = true -> ~ seen (GetHash t) w /\ seen (GetHash t) (AcceptToMemoryPool t w).2;
  seen_stays n h t w : calm (S n) w -> seen h w -> seen h (AcceptToMemoryPool t w).2;
  calm_next n t w : calm (S n) w -> calm n (AcceptToMemoryPool t w).2;
  calm_coins n h w : calm n w -> calm n (HaveCoins h w).2
}.

(** ** The filter of rejected transactions *)

Definition filter_ok (N : Z) (f : Bloom.CRollingBloomFilter) : Prop := exists rks, Bloom.roll_inv N rks f.

Lemma filter_contains N f k : filter_ok N f -> is_Some (Bloom.Rolling_contains f k).
Proof. intros (rks & _ & _ & G1 & G2 & _). unfold Bloom.Rolling_contains. destruct (_ <? _); apply Bloom.contains_total; by apply Bloom.good_wf. Qed.

Lemma filter_insert N f k : 1 <= N -> 2 * N < 2 ^ 32 -> filter_ok N f -> exists f', Bloom.Rolling_insert f k = Some f' /\ filter_ok N f' /\ Bloom.Rolling_contains f' k = Some true.
Proof.
  intros HN HN2 [rks H]. destruct (Bloom.roll_step N rks f k HN HN2 H) as (f' & -> & H'). exists f'. split; [done|]. split; [by eexists|].
  apply (Bloom.roll_contains N (k :: rks)); [done|]. apply elem_of_take. exists 0%nat. split; [done|lia].
Qed.

Lemma filter_reset N f rand : 1 <= N -> filter_ok N f -> filter_ok N (Bloom.Rolling_reset f rand).
Proof.
  intros HN (rks & Hs & Hi & G1 & G2 & _). exists []. unfold Bloom.roll_inv, Bloom.Rolling_reset. cbn [Bloom.nBloomSize Bloom.nInsertions Bloom.b1 Bloom.b2].
  split; [done|]. split; [lia|]. split; [exact (Bloom.clear_good _ G1)|]. split; [exact (Bloom.clear_good _ G2)|]. rewrite !take_nil. split; apply Bloom.holds_nil.
Qed.

Section facts.
Context {W : Type} `{!TxPool W} (GetHash : CTransaction -> list Z) `{!PoolOnce W GetHash} (banscore N : Z) (HN : 1 <= N) (HN2 : 2 * N < 2 ^ 32) (D : gset nat) (leak : Z).
Implicit Types s : node W.

(** The pool is calm for [r] calls at least. *)
Definition calm_for (r : nat) (w : W) : Prop := exists n, (r <= n)%nat /\ calm n w.
Lemma calm_less r r' w : (r' <= r)%nat -> calm_for r w -> calm_for r' w.
Proof. intros H (n & Hn & Hc). exists n. split; [lia|done]. Qed.
Lemma calm_accept r t w : calm_for (S r) w -> calm_for r (AcceptToMemoryPool t w).2.
Proof. intros (n & Hn & Hc). destruct n as [|n]; [lia|]. exists n. split; [lia|by apply calm_next]. Qed.
Lemma accepted_new r t w : calm_for (S r) w -> accepted (AcceptToMemoryPool t w).1 = true -> ~ seen (GetHash t) w /\ seen (GetHash t) (AcceptToMemoryPool t w).2.
Proof. intros (n & Hn & Hc). destruct n as [|n]; [lia|]. by apply (accept_new n). Qed.
Lemma seen_kept r h t w : calm_for (S r) w -> seen h w -> seen h (AcceptToMemoryPool t w).2.
Proof. intros (n & Hn & Hc). destruct n as [|n]; [lia|]. by apply (seen_stays n). Qed.

Record node_ok s : Prop := {
  k_peers : peers_ok GetHash D leak (n_peers s);
  k_filter : filter_ok N (recentRejects s)
}.

Lemma node_ok_world w s : node_ok s -> node_ok (set_world w s).
Proof. intros [H1 H2]. by split. Qed.

Lemma punish_ok n k s : node_ok s -> node_ok (punish banscore n k s) /\ orphanage (n_peers (punish banscore n k s)) = orphanage (n_peers s) /\ world (punish banscore n k s) = world s.
Proof.
  intros [H1 H2]. split; [split; [by apply Misbehaving_ok|done]|]. split; [|done]. cbn. unfold Misbehaving. destruct (k =? 0); [done|]. by destruct (State n (n_peers s)).
Qed.

Lemma reject_ok h s : node_ok s -> exists s', reject h s = Some s' /\ node_ok s' /\ n_peers s' = n_peers s /\ world s' = world s /\ Bloom.Rolling_contains (recentRejects s') h = Some true.
Proof using HN HN2.
  intros [H1 H2]. unfold reject. destruct (filter_insert N (recentRejects s) h HN HN2 H2) as (f & -> & Hf & Hc). cbn [mbind option_bind]. eexists. split; [done|]. by split.
Qed.

Lemma AlreadyHave_ok h rand s : node_ok s -> is_Some (tip_hash (world s)) -> exists b s', AlreadyHave h rand s = Some (b, s') /\ node_ok s' /\ n_peers s' = n_peers s /\ (forall r, calm_for r (world s) -> calm_for r (world s')).
Proof using HN.
  intros Hs [tip Ht]. unfold AlreadyHave. rewrite Ht. cbn [mbind option_bind]. set (s1 := if bool_decide _ then s else _).
  assert (H1 : node_ok s1 /\ n_peers s1 = n_peers s /\ world s1 = world s). { unfold s1. destruct (bool_decide _); [done|]. destruct Hs as [A B]. split; [split; [done|by apply filter_reset]|done]. }
  destruct H1 as (H1 & E1 & Ew). destruct (filter_contains N (recentRejects s1) h (k_filter _ H1)) as [b ->]. cbn [mbind option_bind].
  destruct (_ || _); [exists true, s1; by rewrite Ew|]. pose proof (fun n => calm_coins n h (world s1)) as Hc. destruct (HaveCoins h (world s1)) as [b' w]. exists b', (set_world w s1).
  split; [done|]. split; [by apply node_ok_world|]. split; [done|]. intros r (n & Hn & Hw). exists n. rewrite <- Ew in Hw. split; [done|by apply Hc].
Qed.

(** ** The work queue *)

(** The orphans [o0] do not change while the queue is processed. *)
Definition settled (o0 : orphans) (q : queues) (h : list Z) : Prop :=
  (exists v, (h, v) ∈ attempts q) \/ (exists e, mapOrphanTransactions o0 !! h = Some e /\ fromPeer e ∈ setMisbehaving q).

(** The orphans that were accepted, in order *)
Definition accepted_of (l : list (list Z * verdict)) : list (list Z) := (List.filter (fun a => accepted a.2) l).*1.
#[local] Arguments accepted_of : simpl never.

Lemma accepted_of_app l h v : accepted_of (l ++ [(h, v)]) = accepted_of l ++ (if accepted v then [h] else []).
Proof. unfold accepted_of. rewrite List.filter_app, fmap_app. cbn [List.filter snd]. by destruct (accepted v). Qed.

(** An attempt: an orphan and what the pool answered to it *)
Definition attempted (o0 : orphans) (a : list Z * verdict) : Prop :=
  exists e w, mapOrphanTransactions o0 !! a.1 = Some e /\ a.2 = (AcceptToMemoryPool (tx e) w).1.

Record loop_ok (o0 : orphans) (hash : list Z) (q : queues) s : Prop := {
  l_node : node_ok s;
  l_orphans : orphanage (n_peers s) = o0;
  l_queue : vWorkQueue q = hash :: accepted_of (attempts q);
  l_once : NoDup (accepted_of (attempts q)) /\ forall h, h ∈ accepted_of (attempts q) -> is_Some (mapOrphanTransactions o0 !! h) /\ seen h (world s);
  l_tried : Forall (attempted o0) (attempts q);
  l_erased h v : (h, v) ∈ attempts q -> accepted v = true \/ fMissingInputs v = false -> h ∈ vEraseQueue q;
  l_punished n : n ∈ setMisbehaving q -> exists h v e, (h, v) ∈ attempts q /\ mapOrphanTransactions o0 !! h = Some e /\ fromPeer e = n /\ punishable v = true
}.

Record grow (q q' : queues) : Prop := {
  g_work : vWorkQueue q `prefix_of` vWorkQueue q';
  g_attempts : attempts q ⊆ attempts q';
  g_bad : setMisbehaving q ⊆ setMisbehaving q'
}.
Lemma grow_refl q : grow q q.
Proof. by split. Qed.
Lemma grow_trans q1 q2 q3 : grow q1 q2 -> grow q2 q3 -> grow q1 q3.
Proof. intros [A1 B1 C1] [A2 B2 C2]. split; [by etrans|by etrans|by etrans]. Qed.

Lemma settled_grow o0 q q' h : grow q q' -> settled o0 q h -> settled o0 q' h.
Proof. intros [_ Ha Hb] [[v Hv]|(e & He & Hn)]; [left; exists v; by apply Ha|right; exists e; split; [done|by apply Hb]]. Qed.

Lemma try_orphan_ok o0 hash q s h e r : loop_ok o0 hash q s -> orphans_ok GetHash o0 -> mapOrphanTransactions o0 !! h = Some e -> calm_for (S r) (world s) ->
  exists q' s', try_orphan banscore h q s = Some (q', s') /\ loop_ok o0 hash q' s' /\ grow q q' /\ settled o0 q' h /\ calm_for r (world s').
Proof using HN HN2.
  intros [L1 L2 Lq (Lnd & Lacc) Lt L4 L6] Ho He Hcalm. unfold try_orphan. rewrite L2, He. cbn [mbind option_bind]. destruct (bool_decide_reflect (fromPeer e ∈ setMisbehaving q)) as [Hb|Hb].
  { exists q, s. split; [done|]. split; [by split|]. split; [apply grow_refl|]. split; [right; by exists e|]. eapply calm_less; [|exact Hcalm]. lia. }
  unfold accept. pose proof (accepted_new r (tx e) (world s) Hcalm) as Hnew. destruct (o_entry _ _ Ho h e He) as [Hh _]. rewrite Hh in Hnew.
  assert (Hs' : forall k, seen k (world s) -> seen k (AcceptToMemoryPool (tx e) (world s)).2) by (intros k; by apply (seen_kept r)).
  pose proof (calm_accept r (tx e) (world s) Hcalm) as Hc'. assert (Hat : attempted o0 (h, (AcceptToMemoryPool (tx e) (world s)).1)) by (exists e, (world s); done).
  destruct (AcceptToMemoryPool (tx e) (world s)) as [v w]. cbn [fst snd] in Hnew, Hs', Hc', Hat. pose proof (node_ok_world w s L1) as Lw.
  assert (Lt' : Forall (attempted o0) (attempts q ++ [(h, v)])) by (apply Forall_app; split; [done|by apply Forall_singleton]).
  assert (L6' : forall n, n ∈ setMisbehaving q -> exists h' v' e', (h', v') ∈ attempts q ++ [(h, v)] /\ mapOrphanTransactions o0 !! h' = Some e' /\ fromPeer e' = n /\ punishable v' = true).
  { intros n Hn. destruct (L6 n Hn) as (x & u & e' & H1 & H2). exists x, u, e'. split; [set_solver|done]. }
  assert (Hset : forall a b c, settled o0 {| vWorkQueue := a; vEraseQueue := b; setMisbehaving := c; attempts := attempts q ++ [(h, v)] |} h) by (intros; left; exists v; cbn; set_solver).
  destruct (accepted v) eqn:Ea; [|destruct (fMissingInputs v) eqn:Em; cbn [negb]].
  - destruct (Hnew eq_refl) as [Hn1 Hn2]. do 2 eexists. split; [done|]. split; [|split; [split; cbn; [by exists [h]|set_solver|done]|split; [apply Hset|done]]]. split; cbn; try done.
    + by rewrite accepted_of_app, Ea, Lq.
    + rewrite accepted_of_app, Ea. split.
      * apply NoDup_app. split; [done|]. split; [|apply NoDup_singleton]. intros x Hx Hx'. apply list_elem_of_singleton in Hx' as ->. apply Hn1. by apply Lacc.
      * intros x Hx. apply elem_of_app in Hx as [Hx|Hx]; [destruct (Lacc x Hx); split; [done|by apply Hs']|]. apply list_elem_of_singleton in Hx as ->. by rewrite He.
    + intros x u Hx Hu. apply elem_of_app. apply elem_of_app in Hx as [Hx|Hx]; [left; by eapply L4|right]. set_solver.
  - do 2 eexists. split; [done|]. split; [|split; [split; cbn; [done|set_solver|done]|split; [apply Hset|done]]]. split; cbn; try done.
    + by rewrite accepted_of_app, Ea, app_nil_r.
    + rewrite accepted_of_app, Ea, app_nil_r. split; [done|]. intros x Hx. destruct (Lacc x Hx). split; [done|by apply Hs'].
    + intros x u Hx Hu. apply elem_of_app in Hx as [Hx|Hx]; [by eapply L4|]. apply list_elem_of_singleton in Hx as [= -> ->]. destruct Hu; congruence.
  - set (s1 := if punishable v then punish banscore (fromPeer e) (TxCheck.nDoS (vstate v)) (set_world w s) else set_world w s). assert (Hs1 : node_ok s1 /\ orphanage (n_peers s1) = o0 /\ world s1 = w).
    { unfold s1. destruct (punishable v); [|done]. destruct (punish_ok (fromPeer e) (TxCheck.nDoS (vstate v)) (set_world w s) Lw) as (A & B & C). split; [done|]. rewrite B, C. done. }
    destruct Hs1 as (A & B & C). destruct (reject_ok h s1 A) as (s2 & -> & A2 & B2 & C2 & _). cbn [mbind option_bind]. do 2 eexists. split; [done|].
    split; [|split; [split; cbn; [done|set_solver|destruct (punishable v); set_solver]|split; [apply Hset|by rewrite C2, C]]]. split; cbn; try done.
    + by rewrite B2.
    + by rewrite accepted_of_app, Ea, app_nil_r.
    + rewrite accepted_of_app, Ea, app_nil_r. split; [done|]. intros x Hx. destruct (Lacc x Hx). split; [done|]. rewrite C2, C. by apply Hs'.
    + intros x u Hx Hu. apply elem_of_app. apply elem_of_app in Hx as [Hx|Hx]; [left; by eapply L4|right]. set_solver.
    + intros n Hn. destruct (punishable v) eqn:Ep; [|by apply L6'].
      apply elem_of_union in Hn as [Hn|Hn]; [apply elem_of_singleton in Hn as ->; exists h, v, e; split; [set_solver|done]|by apply L6'].
Qed.

Lemma try_orphans_ok o0 hash l : forall q s r, loop_ok o0 hash q s -> orphans_ok GetHash o0 -> (forall h, h ∈ l -> is_Some (mapOrphanTransactions o0 !! h)) -> calm_for (length l + r) (world s) ->
  exists q' s', try_orphans banscore l q s = Some (q', s') /\ loop_ok o0 hash q' s' /\ grow q q' /\ (forall h, h ∈ l -> settled o0 q' h) /\ calm_for r (world s').
Proof using HN HN2.
  induction l as [|h l IH]; intros q s r HL Ho Hl Hc; cbn [try_orphans]; [exists q, s; split; [done|]; split; [done|]; split; [apply grow_refl|set_solver]|].
  destruct (Hl h ltac:(set_solver)) as [e He]. destruct (try_orphan_ok o0 hash q s h e (length l + r) HL Ho He Hc) as (q1 & s1 & -> & HL1 & G1 & S1 & C1). cbn [mbind option_bind].
  destruct (IH q1 s1 r HL1 Ho ltac:(intros; apply Hl; set_solver) C1) as (q2 & s2 & -> & HL2 & G2 & S2 & C2). exists q2, s2. split; [done|]. split; [done|]. split; [by eapply grow_trans|]. split; [|done].
  intros x Hx. apply elem_of_cons in Hx as [->|Hx]; [by eapply settled_grow|by apply S2].
Qed.

Lemma elem_in_order (S : gset (list Z)) h : h ∈ in_order S <-> h ∈ S.
Proof. unfold in_order. rewrite (merge_sort_Permutation key_le). apply elem_of_elements. Qed.

Lemma queue_bound o0 hash q s : loop_ok o0 hash q s -> (length (vWorkQueue q) <= S (size (mapOrphanTransactions o0)))%nat.
Proof.
  intros [_ _ -> (Hnd & Hacc) _ _ _]. cbn [length]. apply le_n_S. rewrite <- size_dom. rewrite <- (size_list_to_set (C := gset (list Z)) _ Hnd). apply subseteq_size.
  intros h Hh. apply elem_of_list_to_set in Hh. apply elem_of_dom. by apply Hacc.
Qed.

(** No more than all orphans wait for one transaction. *)
Lemma waiting_bound p s : orphans_ok GetHash (orphanage (n_peers s)) -> (forall h, h ∈ waiting p s -> is_Some (mapOrphanTransactions (orphanage (n_peers s)) !! h)) /\
  (length (waiting p s) <= size (mapOrphanTransactions (orphanage (n_peers s))))%nat.
Proof.
  intros Ho. assert (Hin : forall h, h ∈ waiting p s -> is_Some (mapOrphanTransactions (orphanage (n_peers s)) !! h)).
  { intros h Hh. apply elem_in_order, (o_index _ _ Ho) in Hh as (e & He & _). by exists e. }
  split; [done|]. rewrite <- size_dom. assert (Hnd : NoDup (waiting p s)) by (unfold waiting, in_order; rewrite (merge_sort_Permutation key_le); apply NoDup_elements).
  rewrite <- (size_list_to_set (C := gset (list Z)) _ Hnd). apply subseteq_size. intros h Hh. apply elem_of_list_to_set in Hh. apply elem_of_dom. by apply Hin.
Qed.

(** Everything that waits for one of the first [i] entries of the queue is settled. *)
Definition settled_upto (o0 : orphans) (i : nat) (q : queues) : Prop :=
  forall j p h, (j < i)%nat -> vWorkQueue q !! j = Some p -> listed (mapOrphanTransactionsByPrev o0) p h -> settled o0 q h.

Lemma work_loop_ok o0 hash fuel : forall i q s, loop_ok o0 hash q s -> orphans_ok GetHash o0 -> settled_upto o0 i q -> (S (size (mapOrphanTransactions o0)) - i <= fuel)%nat ->
  calm_for ((S (size (mapOrphanTransactions o0)) - i) * size (mapOrphanTransactions o0)) (world s) ->
  exists q' s', work_loop banscore fuel i q s = Some (q', s') /\ loop_ok o0 hash q' s' /\ settled_upto o0 (length (vWorkQueue q')) q'.
Proof using HN HN2.
  induction fuel as [|fuel IH]; intros i q s HL Ho Hi Hf Hc; pose proof (queue_bound o0 hash q s HL) as Hb; cbn [work_loop].
  - rewrite lookup_ge_None_2 by lia. exists q, s. split; [done|]. split; [done|]. intros j p h Hj. apply Hi. lia.
  - destruct (vWorkQueue q !! i) as [p|] eqn:Ep.
    2:{ apply lookup_ge_None in Ep. exists q, s. split; [done|]. split; [done|]. intros j p h Hj. apply Hi. lia. }
    destruct (waiting_bound p s) as [Hw1 Hw2]; [by rewrite (l_orphans _ _ _ _ HL)|]. rewrite (l_orphans _ _ _ _ HL) in Hw1, Hw2.
    destruct (try_orphans_ok o0 hash (waiting p s) q s ((S (size (mapOrphanTransactions o0)) - S i) * size (mapOrphanTransactions o0)) HL Ho Hw1) as (q1 & s1 & -> & HL1 & G1 & S1 & C1).
    { eapply calm_less; [|exact Hc]. apply lookup_lt_Some in Ep. replace (S (size (mapOrphanTransactions o0)) - i)%nat with (S (S (size (mapOrphanTransactions o0)) - S i)) by lia. rewrite Nat.mul_succ_l. lia. }
    cbn [mbind option_bind]. apply IH; [done|done| |lia|done]. intros j p' h Hj Hp' Hl. pose proof (g_work _ _ G1) as [k Hk].
    assert (Hq : vWorkQueue q !! j = Some p').
    { rewrite Hk in Hp'. rewrite lookup_app_l in Hp'; [done|]. apply lookup_lt_Some in Ep. lia. }
    destruct (decide (j = i)) as [->|Hne].
    + rewrite Ep in Hq. injection Hq as <-. apply S1. unfold waiting. rewrite (l_orphans _ _ _ _ HL). by apply elem_in_order.
    + eapply settled_grow; [done|]. eapply Hi; [|exact Hq|done]. lia.
Qed.

Lemma erase_all l : forall o, orphans_ok GetHash o -> orphans_ok GetHash (foldl (fun o h => EraseOrphanTx h o) o l) /\
  forall h e, mapOrphanTransactions (foldl (fun o h => EraseOrphanTx h o) o l) !! h = Some e <-> mapOrphanTransactions o !! h = Some e /\ h ∉ l.
Proof.
  induction l as [|x l IH]; intros o Ho; cbn [foldl]; [split; [done|set_solver]|]. destruct (IH (EraseOrphanTx x o) (EraseOrphanTx_ok GetHash x o Ho)) as [H1 H2]. split; [done|].
  intros h e. rewrite H2, EraseOrphanTx_map, lookup_delete_Some. set_solver.
Qed.

Lemma node_orphans s o : node_ok s -> orphans_ok GetHash o -> (forall h e, mapOrphanTransactions o !! h = Some e -> is_Some (State (fromPeer e) (n_peers s))) -> node_ok (map_orphans (fun _ => o) s).
Proof.
  intros [Hp Hf] Ho Hs. split; [by apply ok_orphans|done].
Qed.

(** What is left of the orphans [o0] when the queues [q] are done *)
Definition resolved (o0 : orphans) (q : queues) (o' : orphans) : Prop :=
  (forall h e, mapOrphanTransactions o' !! h = Some e -> mapOrphanTransactions o0 !! h = Some e) /\
  (forall h v, (h, v) ∈ attempts q -> accepted v = true \/ fMissingInputs v = false -> mapOrphanTransactions o' !! h = None) /\
  (forall h e p, mapOrphanTransactions o' !! h = Some e -> p ∈ prevs (tx e) -> p ∈ vWorkQueue q ->
    (exists v, (h, v) ∈ attempts q /\ accepted v = false /\ fMissingInputs v = true) \/ fromPeer e ∈ setMisbehaving q) /\
  (forall n, n ∈ setMisbehaving q -> exists h v e, (h, v) ∈ attempts q /\ mapOrphanTransactions o0 !! h = Some e /\ fromPeer e = n /\ punishable v = true).

(** Calls of the pool that suffice for the orphans of a node *)
Definition calls_needed s : nat := let n := size (mapOrphanTransactions (orphanage (n_peers s))) in (S n * n)%nat.

Lemma resolve_ok hash s : node_ok s -> calm_for (calls_needed s) (world s) -> exists q s', resolve_orphans banscore hash s = Some (q, s') /\ node_ok s' /\
  vWorkQueue q = hash :: accepted_of (attempts q) /\ NoDup (accepted_of (attempts q)) /\ Forall (attempted (orphanage (n_peers s))) (attempts q) /\ resolved (orphanage (n_peers s)) q (orphanage (n_peers s')).
Proof using HN HN2 PoolOnce0.
  intros Hs Hc. pose proof (p_orphans _ _ _ _ (k_peers _ Hs)) as Ho. unfold resolve_orphans. set (o0 := orphanage (n_peers s)) in *.
  destruct (work_loop_ok o0 hash (S (size (mapOrphanTransactions o0))) 0 {| vWorkQueue := [hash]; vEraseQueue := []; setMisbehaving := ∅; attempts := [] |} s) as (q & s1 & -> & [L1 L2 L3 [L5 _] Lt L4 L6] & Hset);
    [|done|intros j p h Hj; lia|lia|by rewrite Nat.sub_0_r|].
  { split; cbn; try done; [split; [apply NoDup_nil_2|intros h Hh; by apply not_elem_of_nil in Hh]|intros h v Hv; by apply not_elem_of_nil in Hv]. }
  cbn [mbind option_bind]. do 2 eexists. split; [done|]. destruct (erase_all (vEraseQueue q) o0 Ho) as [E1 E2].
  assert (Hm : map_orphans (fun o => foldl (fun o h => EraseOrphanTx h o) o (vEraseQueue q)) s1 = map_orphans (fun _ => foldl (fun o h => EraseOrphanTx h o) o0 (vEraseQueue q)) s1) by (unfold map_orphans; by rewrite L2).
  rewrite Hm. split; [apply node_orphans; [done|done|]; intros h e He; apply E2 in He as [He _]; apply (p_owners _ _ _ _ (k_peers _ L1) h e); by rewrite L2|].
  split; [done|]. split; [done|]. split; [done|]. cbn [map_orphans set_peers with_orphans n_peers orphanage]. split; [intros h e He; by apply E2 in He as [He _]|]. split; [|split; [|done]].
  - intros h v Hv Hd. destruct (mapOrphanTransactions _ !! h) as [e|] eqn:E; [|done]. apply E2 in E as [_ E]. exfalso. apply E. by eapply L4.
  - intros h e p He Hp Hq. apply E2 in He as [He Hne]. apply list_elem_of_lookup in Hq as [j Hj]. destruct (Hset j p h) as [[v Hv]|(e' & He' & Hb)]; [by apply lookup_lt_Some in Hj|done|apply (o_index _ _ Ho); by exists e| |].
    + left. exists v. split; [done|]. destruct (accepted v) eqn:Ea; [exfalso; apply Hne; eapply L4; [done|by left]|]. split; [done|]. destruct (fMissingInputs v) eqn:Em; [done|]. exfalso. apply Hne. eapply L4; [done|by right].
    + right. rewrite He in He'. by injection He' as <-.
Qed.

Lemma keep_ok t from mx rnd s sz : node_ok s -> is_Some (State from (n_peers s)) -> GetSerializeSize t = Some sz -> exists b o k o', AddOrphanTx GetHash t from (orphanage (n_peers s)) = Some (b, o) /\
  LimitOrphanTxSize mx rnd o = Some (k, o') /\ node_ok (map_orphans (fun _ => o') s) /\ (size (mapOrphanTransactions o') <= mx)%nat.
Proof.
  intros [Hp Hf] Hn Hsz. destruct (keep_orphans_ok GetHash D leak (n_peers s) t from mx rnd Hp Hn ltac:(by rewrite Hsz)) as (b & o & k & o' & H1 & H2 & H3 & H4). exists b, o, k, o'. done.
Qed.

(** C40: the message "tx" is processed to the end.  For a node whose peer records are
    consistent, [process_tx] returns for every transaction of a connected peer and leaves
    the records consistent.  This assumes of the memory pool (the parameter [TxPool]) that
    it does not accept a transaction again that it has accepted, for as many calls as the
    orphans can cause ([PoolOnce], [calm_for]): the real pool has this from its own
    contents and the list of recently evicted transactions, as long as that list forgets
    nothing meanwhile.  When the transaction is accepted, it and the accepted orphans are
    relayed, each once, in the order of acceptance, and nothing else; each orphan tried was
    one of the node's and its verdict is the pool's; the orphans that were accepted or
    finally rejected are gone, and every orphan left that spends one of the accepted
    transactions was tried and still misses inputs, or came from a peer that sent an
    invalid orphan; a peer is only blamed in this way for a transaction of its own.  When
    its inputs are unknown and it is transparent, nothing is relayed and at most
    [nMaxOrphanTx] orphans are left.  In every other case the transaction is remembered as
    rejected, the orphans stay as they are, and only a whitelisted peer's transaction that
    is not invalid with a penalty is relayed. *)
Theorem tx_message_complete t from whitelisted mx rand rnd s :
  node_ok s -> is_Some (State from (n_peers s)) -> is_Some (GetSerializeSize t) -> is_Some (tip_hash (world s)) ->
  calm_for (S (calls_needed s)) (world s) ->
  exists r s', process_tx GetHash banscore t from whitelisted mx rand rnd s = Some (r, s') /\ node_ok s' /\
    (if accepted (first r)
     then relayed r = GetHash t :: accepted_of (attempts (done_queues r)) /\ NoDup (accepted_of (attempts (done_queues r))) /\
       vWorkQueue (done_queues r) = relayed r /\ Forall (attempted (orphanage (n_peers s))) (attempts (done_queues r)) /\
       resolved (orphanage (n_peers s)) (done_queues r) (orphanage (n_peers s'))
     else if fMissingInputs (first r) && bool_decide (vJoinSplit t = []) && bool_decide (vShieldedSpend t = []) && bool_decide (vShieldedOutput t = [])
     then relayed r = [] /\ (size (mapOrphanTransactions (orphanage (n_peers s'))) <= mx)%nat
     else Bloom.Rolling_contains (recentRejects s') (GetHash t) = Some true /\ orphanage (n_peers s') = orphanage (n_peers s) /\
       relayed r = if whitelisted && (negb (TxCheck.IsInvalid (vstate (first r))) || (TxCheck.nDoS (vstate (first r)) =? 0)) then [GetHash t] else []).
Proof using HN HN2 PoolOnce0.
  intros Hs Hfrom [sz Hsz] Htip Hcalm. unfold process_tx. destruct (AlreadyHave_ok (GetHash t) rand s Hs Htip) as (have & s1 & -> & Hs1 & E1 & Hc1). cbn [mbind option_bind].
  set (vs := if have then _ else accept t s1). assert (Hvs : node_ok vs.2 /\ n_peers vs.2 = n_peers s /\ calm_for (calls_needed s) (world vs.2)).
  { unfold vs. apply Hc1 in Hcalm. destruct have; [split; [done|]; split; [done|]; eapply calm_less; [|exact Hcalm]; lia|].
    unfold accept. pose proof (calm_accept _ t _ Hcalm) as Hc. destruct (AcceptToMemoryPool t (world s1)) as [v w]. split; [by apply node_ok_world|done]. }
  destruct vs as [v s2]. cbn [fst snd] in Hvs. destruct Hvs as (Hs2 & E2 & Hc2).
  assert (Hfin : forall r s', first r = v -> node_ok s' -> exists r' s'', Some (r, if punishable v then punish banscore from (TxCheck.nDoS (vstate v)) s' else s') = Some (r', s'') /\ node_ok s'' /\
     r' = r /\ orphanage (n_peers s'') = orphanage (n_peers s') /\ recentRejects s'' = recentRejects s').
  { intros r s' _ Hs'. do 2 eexists. split; [done|]. destruct (punishable v); [|done]. destruct (punish_ok from (TxCheck.nDoS (vstate v)) s' Hs') as (A & B & _). done. }
  destruct (accepted v) eqn:Ea.
  - destruct (resolve_ok (GetHash t) s2 Hs2) as (q & s3 & -> & Hs3 & Hq & Hacc & Hat & Hr); [unfold calls_needed in *; by rewrite E2|]. cbn [mbind option_bind]. rewrite E2 in Hr, Hat.
    destruct (Hfin {| relayed := vWorkQueue q; done_queues := q; first := v |} s3 eq_refl Hs3) as (r & s' & -> & A & -> & B & _). do 2 eexists. split; [done|]. split; [done|]. cbn [first relayed done_queues]. by rewrite Ea, B.
  - destruct (fMissingInputs v && bool_decide (vJoinSplit t = []) && bool_decide (vShieldedSpend t = []) && bool_decide (vShieldedOutput t = [])) eqn:Em.
    + rewrite <- E2 in Hfrom. destruct (keep_ok t from mx rnd s2 sz Hs2 Hfrom Hsz) as (b & o & k & o' & -> & H1 & Ho' & Hsize). cbn [mbind option_bind]. rewrite H1. cbn [mbind option_bind].
      destruct (Hfin {| relayed := []; done_queues := no_queues; first := v |} (map_orphans (fun _ => o') s2) eq_refl Ho') as (r & s' & -> & A & -> & B & _). do 2 eexists. split; [done|]. split; [done|]. cbn [first relayed]. by rewrite Ea, Em, B.
    + destruct (reject_ok (GetHash t) s2 Hs2) as (s3 & -> & Hs3 & E3 & _ & Hc). cbn [mbind option_bind].
      match goal with |- context [{| relayed := ?x; done_queues := no_queues; first := v |}] => destruct (Hfin {| relayed := x; done_queues := no_queues; first := v |} s3 eq_refl Hs3) as (r & s' & E & A & -> & B & C) end.
      eexists _, s'. split; [exact E|]. split; [exact A|]. cbn [first]. by rewrite Ea, Em, B, C, E3, E2.
Qed.

End facts.

(** ** An example

    A pool that accepts a transaction when it has accepted all that it spends, with the
    outputs of the transaction [[0]] in the coins database *)

Definition toy_hash (t : CTransaction) : list Z := [nLockTime t].
Definition toy_accept (t : CTransaction) (w : gset (list Z)) : verdict * gset (list Z) :=
  if bool_decide (toy_hash t ∈ w) then ({| accepted := false; fMissingInputs := false; vstate := TxCheck.CValidationState_init |}, w)
  else if forallb (fun p => bool_decide (p = [0] \/ p ∈ w)) (prevs t) then ({| accepted := true; fMissingInputs := false; vstate := TxCheck.CValidationState_init |}, {[toy_hash t]} ∪ w)
  else ({| accepted := false; fMissingInputs := true; vstate := TxCheck.CValidationState_init |}, w).
#[local] Instance toy_pool : TxPool (gset (list Z)) := {|
  AcceptToMemoryPool := toy_accept; pool_exists h w := bool_decide (h ∈ w); HaveCoins h w := (bool_decide (h = [0]), w); tip_hash _ := Some [9]
|}.
#[local] Instance toy_once : PoolOnce (gset (list Z)) toy_hash.
Proof.
  refine {| seen h w := h ∈ w; calm _ _ := True |}; [| |done|done].
  - intros _ t w _. cbn. unfold toy_accept. destruct (bool_decide_reflect (toy_hash t ∈ w)); [done|]. destruct (forallb _ _); [|done]. intros _. split; [done|set_solver].
  - intros _ h t w _ Hh. cbn. unfold toy_accept. destruct (bool_decide _); [done|]. destruct (forallb _ _); [set_solver|done].
Defined.

Definition toy_tx (n prev : Z) : CTransaction :=
  {| fOverwintered := false; tx_nVersion := 1; nVersionGroupId := 0; vin := [{| prevout := {| out_hash := [prev]; out_n := 0 |}; scriptSig := []; nSequence := 0 |}]; vout := [];
     nLockTime := n; nExpiryHeight := 0; valueBalance := 0; vShieldedSpend := []; vShieldedOutput := []; vJoinSplit := []; joinSplitPubKey := []; joinSplitSig := []; bindingSig := [] |}.
Definition toy_node : node (gset (list Z)) :=
  {| n_peers := InitializeNode 7 {| fInbound := false; fWhitelisted := false; fOneShot := false; fClient := false; fNetworkNode := true; addrName := "peer"; addr := {| NetAddr.NetAddr.netaddr := NetAddr.NetAddr.Init; NetAddr.NetAddr.port := 0 |} |} peers_init;
     recentRejects := Bloom.CRollingBloomFilter_new 2 64 3 5; hashRecentRejectsChainTip := [9]; world := ∅ |}.
Lemma toy_node_ok : node_ok toy_hash 2 ∅ 0 toy_node.
Proof. split; [apply InitializeNode_ok; [apply init_ok|reflexivity]|]. exists []. apply Bloom.roll_init; [lia|lia|by left]. Qed.

(** The child comes first and waits; the parent releases it. *)
Definition after_child : option (tx_result * node (gset (list Z))) := process_tx toy_hash 100 (toy_tx 2 1) 7 false 10 0 (fun _ => []) toy_node.

Lemma toy_calm (n : nat) (w : gset (list Z)) : calm_for toy_hash n w.
Proof. exists n. split; [lia|exact I]. Defined.

Lemma tx_message_complete_witness : exists r s s' r', after_child = Some (r, s) /\ process_tx toy_hash 100 (toy_tx 1 0) 7 false 10 0 (fun _ => []) s = Some (r', s') /\
  relayed r' = [[1]; [2]] /\ accepted_of (attempts (done_queues r')) = [[2]] /\ node_ok toy_hash 2 ∅ 0 s'.
Proof.
  destruct (tx_message_complete toy_hash 100 2 ltac:(lia) ltac:(lia) ∅ 0 (toy_tx 2 1) 7 false 10 0 (fun _ => []) toy_node toy_node_ok ltac:(by eexists) ltac:(by eexists) ltac:(by eexists) (toy_calm _ _)) as (r & s & H1 & H2 & _).
  assert (E : ('(_, s) ← after_child; _ ← State 7 (n_peers s); '(r', _) ← process_tx toy_hash 100 (toy_tx 1 0) 7 false 10 0 (fun _ => []) s; Some (relayed r', accepted (first r'))) = Some ([[1]; [2]], true)) by (vm_compute; reflexivity).
  replace after_child with (Some (r, s)) in E by exact (eq_sym H1). cbn [mbind option_bind] in E. destruct (State 7 (n_peers s)) as [t7|] eqn:E7; cbn [mbind option_bind] in E; [|done].
  destruct (process_tx toy_hash 100 (toy_tx 1 0) 7 false 10 0 (fun _ => []) s) as [[r' s']|] eqn:H3; cbn [mbind option_bind] in E; [|done]. injection E as H4 Ha. assert (Hn : is_Some (State 7 (n_peers s))) by (rewrite E7; by eexists).
  destruct (tx_message_complete toy_hash 100 2 ltac:(lia) ltac:(lia) ∅ 0 (toy_tx 1 0) 7 false 10 0 (fun _ => []) s H2 Hn ltac:(by eexists) ltac:(by eexists) (toy_calm _ _)) as (r1 & s1 & H5 & H6 & H7).
  rewrite H3 in H5. injection H5 as <- <-. rewrite Ha in H7. destruct H7 as (H7 & _). rewrite H4 in H7. injection H7 as H7.
  exists r, s, s', r'. split; [exact H1|]. split; [exact H3|]. split; [exact H4|]. split; [symmetry; exact H7|exact H6].
Defined.

End TxRelayFacts.
